(* ===== verification/_CoqProject ===== *)
-Q . S2P
Prelude.v
Compiler.v
Memory.v
StringSlice.v
Key.v
Ksearch.v
Kpermuter.v
Nodeversion.v
Stringbag.v
Node.v
InternodeSpec.v
Heap.v
Get.v
Insert.v
Remove.v
Scan.v
Tree.v
Find.v
Steps.v
LeafSpec.v
Locate.v
Put.v
Kept.v
NewLayer.v
SplitSpec.v
Ancestors.v
LinkChild.v
Hole.v
Redirect.v
RemoveUp.v
SplitUp.v
SplitLoop.v
SplitLeaf.v
LeafTurn.v
SplitStart.v
Unlink.v
PutSplit.v
PutSpec.v
RemoveSpec.v
Table.v
Order.v
Chain.v
ScanSpec.v
CircularInt.v
Threadinfo.v
Limbo.v
Epochs.v
Msgpack.v
Row.v
ValueBag.v
BagSpec.v
ValueArray.v
ArraySpec.v
VersionedArray.v
VersionedSpec.v
Query.v
QuerySpec.v
QueryRemove.v
Log.v
LogSpec.v
Logger.v
LogReplay.v
Strings.v
StringsSpec.v
GlobSpec.v
JsonObject.v
Json.v
JsonParser.v
JsonText.v
JsonSpec.v
JsonSafe.v
JsonOps.v
MsgpackJson.v
Replay.v
ReplaySpec.v
Server.v
ServerSpec.v
