(* ===== verification/Prelude.v ===== *)
(** Masstree: a verification development.

    Masstree is an in-memory ordered map from byte strings to values: a trie of
    B+trees.  A layer of the trie is a B+tree whose keys are 8-byte slices of
    the string, compared as 64-bit integers; a leaf entry holds a value, the
    value of a longer string with the rest of it (its suffix) in a bag beside
    the leaf, or the root of the layer for the strings that share the slice.
    Readers take no locks: they check version words that writers change.
    Around the tree, queries change rows and give them timestamps, a log
    records the changes, epochs say when memory may be freed, and a restart
    replays the logs over a checkpoint.

    This library models those parts as executable functions and proves what
    they compute.

    * Files

    The parts of a node, each on its own:
    - [Prelude]: this file; machine integers, bit-level automation, lists
      indexed by [Z].
    - [Compiler]: bit counting, powers of two and byte order of
      [src/compiler.hh].
    - [Memory]: the byte memory that keys point into, [memcpy], [memcmp] and
      the lexicographic order of strings.
    - [StringSlice]: [string_slice<uint64_t>] of [src/string_slice.hh], and the
      other widths: the word whose order is the order of the strings.
    - [Key]: [src/masstree_key.hh], a string with the slice that is being
      looked at; [Str] of [src/str.hh].
    - [Ksearch]: the searches of [src/ksearch.hh] over a comparator.
    - [Kpermuter]: [src/kpermuter.hh], the permutation of a leaf's slots in one
      word, which is how a leaf changes atomically.
    - [Nodeversion]: [src/nodeversion.hh], the version word: lock, dirty bits
      and counters, for 32 and 64 bits.
    - [Stringbag]: [src/stringbag.hh], the bag of suffixes.

    The tree:
    - [Node]: nodes of [src/masstree_struct.hh] as records, at the parameters
      of the query tables (15 slots, binary search).  A field of the class is a
      field of the record with the same name.
    - [Heap]: the state of a tree (a map from addresses to nodes, the nodes
      waiting for a grace period, the registered callbacks, the table's root,
      the memory of the keys), the monad [M] of its operations, [node_base]'s
      operations, [reach_leaf], [advance_to_key], [src/btree_leaflink.hh].
    - [Get], [Insert], [Remove], [Scan]: the cursors and operations of
      [src/masstree_get.hh], [_tcursor], [_insert], [_split], [_remove] and
      [_scan.hh], function by function.

    What the tree stands for, and that the operations keep it:
    - [Tree]: the representation predicates, from a leaf's entries to the
      bindings of a table ([table_in] for one of a given number of layers,
      [table_rep] for any), with their frame lemmas.
    - [Find]: the search lemmas: a leaf's lower bound, an internode's upper
      bound, [reach_leaf], and the descent through the layers.
    - [Steps]: the monad's operations as rewriting rules.
    - [LeafSpec], [InternodeSpec], [SplitSpec]: changes of one node as changes
      of the lists of its entries.
    - [Locate]: the leaf that is responsible for a key, and the layers around
      it: how a change of the bindings of a leaf is one of the table.
    - [Put], [NewLayer]: a put on the leaf of its key: a value changed in
      place, an entry added, an entry pushed down into new layers.
    - [Kept]: what every operation keeps of the phantom epochs of the leaves,
      whatever else it does, as a logic of partial correctness.
    - [Ancestors]: what lies above a node of a tree, one level at a time, and
      nodes without a parent.  [LinkChild]: the runs of [link_child] of
      [Insert], by what the parent is: none, with room, full.  [SplitUp]: each
      run keeps the invariant of [make_split]'s loop ([pending]); the heap that
      is spoken of is the one in which the locks are released ([settled]).
      [SplitLoop]: the loop as a whole, by induction on the ancestors.
    - [SplitLeaf], [LeafTurn], [SplitStart], [PutSplit]: the leaf that splits:
      its two halves, the first turn of the loop, the list of leaves, and the
      commit of the new key in one of the halves.  [PutSpec]: a put on a table.
    - [Order], [Chain], [ScanSpec]: the bindings are sorted, the leaves of a
      layer are linked in order, and a scan follows the links.
    - [Hole], [Redirect], [RemoveUp]: a node gone from the tree: the ranges of
      its neighbours, [redirect], and the loop of [remove_leaf] up the tree, by
      induction on the ancestors.  [Unlink]: the leaf that goes, and the list
      of leaves without it.  [RemoveSpec]: removal of an entry.
    - [Table]: the theorems about gets and puts.

    Rows and queries:
    - [CircularInt]: [src/circular_int.hh] and [src/timestamp.hh].
    - [Row]: the interface of a row type (a class, with the laws of an instance
      in a second class, and types whose updates make new rows in a third);
      [ValueBag], [BagSpec]: [src/value_bag.hh]; [ValueArray], [ArraySpec]:
      [src/value_array.hh] and [.cc]; [VersionedArray], [VersionedSpec]:
      [src/value_versioned_array.hh] and [.cc], whose updates may change a row
      in place.
    - [Query], [QuerySpec], [QueryRemove]: [src/kvrow.hh] over any row type.

    Memory and epochs:
    - [Threadinfo], [Limbo]: allocation, pools, and the queue of retired blocks
      of [src/kvthread.hh] and [.cc]; the queue as a list.
    - [Epochs]: threads and the clock of epochs as a step relation.

    Log and recovery:
    - [Msgpack]: the encoders and the direct parser of [src/msgpack.hh].
    - [Log], [LogSpec]: the records of [src/log.hh] and [src/log.cc], the
      buffer of a log, and what [extract] reads of them.
    - [Logger]: client threads and the logger thread as a step relation.  A
      query has its epoch from when it first had the lock of the log; one that
      waits for room gives the lock up, and the logger writes without it.
    - [LogReplay]: which records of a file [replayandclean1] runs.
    - [Replay], [ReplaySpec]: what a record does to the rows of its key,
      [logrecord::run] and the delta markers of [src/log.cc].

    Text:
    - [Strings], [StringsSpec], [GlobSpec]: [src/string.cc], [src/string_base.hh]
      and the UTF-8 part of [src/straccum.cc] on lists of bytes: comparison,
      search, encodings, glob patterns.  What a pattern describes is a relation
      of [GlobSpec] of its own ([glob]).
    - [JsonObject]: [Json::ObjectJson] of [src/json.hh] and [src/json.cc], the
      hash table with chains through the items, and that it is a list of
      members.
    - [Json], [JsonOps]: the values of [src/json.hh] with their conversions,
      arithmetic and members; a number that is not an integer is a parameter
      ([Libc]), with the functions of the C library on it.
    - [JsonParser]: [Json::streaming_parser], chunk by chunk; its references to
      parts of the value are paths.  [JsonText]: strings and integers;
      [JsonSpec]: the round trip; [JsonSafe]: the invariant of the parser.
    - [MsgpackJson]: JSON values in msgpack.

    Server:
    - [Server]: requests, [onego] and [handshake] of [src/mtd.cc], with the
      queries of [src/kvrow.hh] on the JSON of a request.  The place of a key
      that the result of a put or a replace has taken is a memory of its own,
      which the log is given ([stale_key]).  [ServerSpec]: the abstract server, a
      map from keys to rows ([answers_to], [apply_request]), and that [onego]
      refines it: what a thread's tree and rows stand for ([serves]), and one
      lemma for each kind of request.

    * What the theorems show

    The table: [get_correct] says that [get] on a well-formed table returns
    the value the table's bindings have for the string of the key, through any
    number of layers and levels; [put_correct] that a put on any such table
    terminates, changes the value of its key alone and leaves a well-formed
    table, be it in place, in new layers, or with nodes split as far up as a
    new root; [scan_correct] that a forward
    scan visits the bindings from its first key on, in order, until it is told
    to stop.  A scan rebuilds keys in a buffer of 256 bytes ([keybuf_size]), in
    which the keys of 255 bytes that the server takes fit, in 32 layers; a write
    past it has no result in [Scan], so the theorem says there is none.

    The server: [onego_refines_map] puts the parts together.  The empty table
    stands for the empty map, and from any state that stands for a map [onego]
    answers a request as the map does, logs the change, and leaves a state that
    stands for the map after it.  The bound on timestamps grows by 4 with a
    request, so that 2^60 requests are within it; only scans need that addresses
    fit into 64 bits.  What is between two requests of a thread, [rcu_stop] with
    the callbacks of [gc_layer] and other threads, is not part of the theorem.

    Queries: [put_then_get], [replace_then_get], [remove_then_get] and
    [removed_before_inserted], over any row type with [RowLaws]; a put on a row
    that changes in place needs that no other key has that row.  [bag_update_columns] and [array_update_retires] are what
    the row types promise.

    Memory: [epoch_safety] says that no block is freed under a thread that may
    still read it, of the blocks that [hard_rcu_quiesce] frees in its steps;
    [hard_rcu_quiesce_drains] and the lemmas
    [record_rcu_queue] and [refill_pool_blocks] are the contracts of the queue
    and the pools.

    Durability: [flushed_epoch_durable] says what is in the file of a log when
    it says that an epoch is flushed: all records made in turn, but not one that
    waited for room while a later epoch was recorded ([overtaken_not_durable]);
    [replay_selects] which of the records of
    a file a replay runs; [replay_any_order] that the order of the logs does
    not matter, for put, replace and modify records whose changesets parse.
    [prims_roundtrip] and [changeset_roundtrip] are about the
    encoding of the records.

    Concurrency: [optimistic_read_unchanged] and [stable_unsplit] are what a
    lock-free reader relies on: over every sequence of steps of writers, a
    version that passes [has_changed] (or [has_split]) had no insertion, split
    or deletion marked in between, up to the wrap of the split counter.
    [unlock_effect] and the lemma [lock_acquires] are the writers' side.

    Order: [layered_lex], [make_comparable_order] and [increment_successor]
    say that comparing slices layer by layer is comparing strings;
    [bound_lower_by_spec] and [bound_upper_spec] that the searches find what
    they should by either method.

    Data structures: [kpermuter_refines_lists] is a refinement, over any
    sequence of methods, of the permutation word to two lists of slots;
    [assign_spec] the contract of the bag; [internode_split_content] (and the
    lemma [insert_remove_child]) the contents of internodes.

    Text: [object_refines_alist] is a refinement, over any sequence of
    operations, of the hash table of an object to the list of its members;
    [parse_unparse] says that parsing what a value prints gives it back;
    [parser_total] that the parser returns on any bytes in any chunks;
    [array_object_array] that an array and the object of its indices are the
    same to a reader.  [glob_match_spec] compares the set of states that
    [glob_match] keeps with reading the pattern from the left;
    [utf8_to_utf8_valid], [append_utf8_iff] and [base64_roundtrip] are about
    encodings.

    Flaws the model shows are stated as theorems too: [max_size_wraps], a bag
    whose size wraps; [rotate_width], where a comment promises less than the
    code does; [skip_primitives_spec], which stops in front of some integers;
    [remove_replay_fails], a record that cannot be replayed; the second half of
    [changeset_roundtrip], a header that the replay does not expect.

    * Assumptions and bounds

    The host is little-endian, as the code's [HAVE_UNALIGNED_ACCESS] variants
    assume; both variants are modelled.  Tree operations run one at a time:
    the version words of [Nodeversion] carry the interleavings.  The retry
    loops and checks are those of the code nonetheless.  A held lock, a null
    dereference, an index out of range, an integer the code asserts about and
    a loop that runs out of fuel make an operation fail ([None]); the theorems
    about the table say that enough fuel exists for any table.  The allocator
    returns fresh even addresses and never null; a scan needs them below 2^64.

    Epochs and timestamps do not wrap in the theorems about
    durability and epochs; a thread's cleaning is one step of [Epochs].  The
    rows of a replay are lists of columns.

    * Not modelled

    Reverse scans are definitions without a theorem.  Gets over versioned arrays
    are [run_get1], which reads the row; the snapshots that the other queries
    read are [VersionedArray.snapshot], without a query on them.  Of json, the sharing of
    tables between copies, the iterators, the proxies and the comparison of
    containers (by address) are left out.  Sockets, files and the loops of the
    server's threads, the clients, checkpoints, the streaming
    msgpack parser, the string rows, statistics and printing, and the test drivers have no definitions.

    * Plan

    Next: the streaming msgpack parser, string rows, checkpoints and the epochs of a recovery, reverse scans, and the collection of
    empty layers ([gc_layer]). *)
From Stdlib Require Export ZArith Lia Bool Btauto.
From stdpp Require Export base option list numbers gmap.
From stdpp Require Import options.

#[global] Open Scope Z_scope.
#[global] Set Default Goal Selector "!".

(** * Machine integers

    A value of an unsigned C++ type of [w] bits is an element of [Z] in
    [0, 2^w); a value of a signed one is in [-2^(w-1), 2^(w-1)).  [uwrap] and
    [swrap] are the conversions to those types. *)
Definition uwrap (w x : Z) : Z := x mod 2 ^ w.
Definition swrap (w x : Z) : Z := (x + 2 ^ (w - 1)) mod 2 ^ w - 2 ^ (w - 1).

(** Unsigned left shift and complement at width [w]. *)
Definition ushl (w x k : Z) : Z := uwrap w (Z.shiftl x k).
Definition unot (w x : Z) : Z := uwrap w (Z.lnot x).

(** A C++ [bool] used as an integer. *)
Definition b2z (b : bool) : Z := if b then 1 else 0.

Definition in_u (w x : Z) : Prop := 0 <= x < 2 ^ w.
Definition in_s (w x : Z) : Prop := - 2 ^ (w - 1) <= x < 2 ^ (w - 1).

Lemma uwrap_range w x : 0 <= w -> in_u w (uwrap w x).
Proof. intros. unfold in_u, uwrap. apply Z.mod_pos_bound. lia. Qed.

Lemma uwrap_id w x : in_u w x -> uwrap w x = x.
Proof. intros. unfold in_u, uwrap in *. by apply Z.mod_small. Qed.

Lemma uwrap_idem w x : uwrap w (uwrap w x) = uwrap w x.
Proof. unfold uwrap. by rewrite Zmod_mod. Qed.

Lemma swrap_range w x : 0 < w -> in_s w (swrap w x).
Proof.
  intros. unfold in_s, swrap.
  pose proof (Z.mod_pos_bound (x + 2 ^ (w - 1)) (2 ^ w)) as Hb.
  assert (2 ^ w = 2 * 2 ^ (w - 1)) as Hw.
  { rewrite <- Z.pow_succ_r by lia. f_equal. lia. }
  lia.
Qed.

Lemma swrap_id w x : 0 < w -> in_s w x -> swrap w x = x.
Proof.
  unfold in_s, swrap. intros.
  assert (2 ^ w = 2 * 2 ^ (w - 1)) as Hw.
  { rewrite <- Z.pow_succ_r by lia. f_equal. lia. }
  rewrite Z.mod_small; lia.
Qed.

Lemma uwrap_swrap w x : 0 < w -> uwrap w (swrap w x) = uwrap w x.
Proof.
  intros. unfold uwrap, swrap.
  rewrite Zminus_mod_idemp_l. f_equal. lia.
Qed.

Lemma swrap_uwrap w x : swrap w (uwrap w x) = swrap w x.
Proof. unfold uwrap, swrap. by rewrite Zplus_mod_idemp_l. Qed.

(** * Bits

    Equations between words are proved bit by bit: [zbits] reduces an
    equation of [Z.testbit]s to comparisons of bit positions, which [lia]
    decides. *)
Lemma testbit_uwrap w x n :
  0 <= w -> Z.testbit (uwrap w x) n = (n <? w) && Z.testbit x n.
Proof. intros. unfold uwrap. by rewrite Z.testbit_mod_pow2. Qed.

Lemma testbit_b_if (b : bool) x y n :
  Z.testbit (if b then x else y) n = if b then Z.testbit x n else Z.testbit y n.
Proof. by destruct b. Qed.

Lemma testbit_in_u w x n : 0 <= w -> in_u w x -> w <= n -> Z.testbit x n = false.
Proof.
  intros ? Hx ?. rewrite <- (uwrap_id w x) by done.
  rewrite testbit_uwrap by done.
  by destruct (Z.ltb_spec n w); [lia|].
Qed.

Lemma in_u_testbit w x :
  0 <= w -> (forall n, w <= n -> Z.testbit x n = false) -> in_u w x.
Proof.
  intros Hw Hn.
  assert (x = uwrap w x) as ->; [|by apply uwrap_range].
  apply Z.bits_inj'. intros n Hn0. rewrite testbit_uwrap by done.
  destruct (Z.ltb_spec n w); [done|]. by apply Hn.
Qed.

Lemma testbit_shiftl x k n :
  0 <= k -> Z.testbit (Z.shiftl x k) n = Z.testbit x (n - k).
Proof.
  intros. destruct (Z.lt_ge_cases n 0).
  - by rewrite !Z.testbit_neg_r by lia.
  - by apply Z.shiftl_spec.
Qed.

Create Rewrite HintDb zbits.
#[export] Hint Rewrite Z.land_spec Z.lor_spec Z.lxor_spec Z.testbit_0_l
  testbit_b_if : zbits.
#[export] Hint Rewrite testbit_uwrap testbit_shiftl Z.shiftr_spec Z.lnot_spec
  Z.testbit_ones_nonneg using lia : zbits.

(** Rewrites the bits of the goal, then splits on every comparison of
    positions that [lia] does not decide at once. *)
Ltac zbits_rw :=
  unfold ushl, unot in *; autorewrite with zbits.
Ltac zbits_sign n :=
  let H := fresh "Hsign" in destruct (Z.lt_ge_cases n 0) as [H|H]; zbits_rw.
Ltac zbits_step :=
  match goal with
  | |- context [Z.ltb ?a ?b] =>
      let H := fresh "Hlt" in destruct (Z.ltb_spec a b) as [H|H]; try lia
  | |- context [Z.testbit ?x ?n] => rewrite (Z.testbit_neg_r x n) by lia
  | |- context [Z.testbit (Z.shiftr ?x ?k) ?n] => zbits_sign n
  | |- context [Z.testbit (Z.lnot ?x) ?n] => zbits_sign n
  | |- context [Z.testbit (Z.ones ?x) ?n] => zbits_sign n
  end.
Ltac zbits_simp :=
  rewrite ?andb_true_l, ?andb_true_r, ?andb_false_l, ?andb_false_r,
    ?orb_true_l, ?orb_true_r, ?orb_false_l, ?orb_false_r,
    ?xorb_false_l, ?xorb_false_r; cbn [negb].
Ltac zbits :=
  zbits_rw; repeat (zbits_step; zbits_simp); zbits_simp;
  try reflexivity; try (f_equal; lia).

(** Makes the bit positions that [lia] proves equal syntactically equal, for
    goals left to [btauto]. *)
Ltac zbits_unify :=
  repeat match goal with
  | |- context [Z.testbit ?x ?a] =>
      match goal with
      | |- context [Z.testbit x ?b] =>
          assert_fails (constr_eq a b);
          let H := fresh in
          assert (Z.testbit x a = Z.testbit x b) as H by (f_equal; lia);
          rewrite H; clear H
      end
  end.

(** The masks the code builds as [((value_type) 2^c << k) - 1]: all the bits
    below [c + k], also when the shift overflows the word to 0. *)
Lemma mask_ones w c k :
  0 <= c -> 0 <= k -> c + k <= w ->
  uwrap w (ushl w (2 ^ c) k - 1) = Z.ones (c + k).
Proof.
  intros. unfold ushl, uwrap. rewrite Zminus_mod_idemp_l.
  rewrite Z.shiftl_mul_pow2, <- Z.pow_add_r by lia.
  replace (2 ^ (c + k) - 1) with (Z.ones (c + k)).
  2: { rewrite Z.ones_equiv. lia. }
  apply Z.mod_small. rewrite Z.ones_equiv.
  pose proof (Z.pow_le_mono_r 2 (c + k) w).
  pose proof (Z.pow_pos_nonneg 2 (c + k)). lia.
Qed.

(** Adding one to a word whose low [k] bits are not all set leaves the bits
    from [k] up unchanged. *)
Lemma testbit_add_small x d k n :
  0 <= k -> k <= n -> 0 <= x mod 2 ^ k + d < 2 ^ k ->
  Z.testbit (x + d) n = Z.testbit x n.
Proof.
  intros Hk Hn Hd.
  assert (Z.shiftr (x + d) k = Z.shiftr x k) as Hs.
  { rewrite !Z.shiftr_div_pow2 by done.
    rewrite (Z.div_mod x (2 ^ k)) at 1 by lia.
    replace (2 ^ k * (x / 2 ^ k) + x mod 2 ^ k + d)
      with (x mod 2 ^ k + d + (x / 2 ^ k) * 2 ^ k) by lia.
    rewrite Z.div_add by lia. rewrite (Z.div_small (_ + d)); lia. }
  replace n with (n - k + k) by lia.
  rewrite <- !Z.shiftr_spec by lia. by rewrite Hs.
Qed.

(** * Lists indexed by [Z]

    [insert_at i v l] puts [v] before position [i]; stdpp's [delete i l]
    removes position [i]. *)
Definition insert_at {A} (i : Z) (v : A) (l : list A) : list A :=
  take (Z.to_nat i) l ++ v :: drop (Z.to_nat i) l.
Definition delete_at {A} (i : Z) (l : list A) : list A :=
  take (Z.to_nat i) l ++ drop (S (Z.to_nat i)) l.
Definition zlookup {A} (l : list A) (i : Z) : option A :=
  if i <? 0 then None else l !! Z.to_nat i.
Definition zlength {A} (l : list A) : Z := Z.of_nat (length l).

Section zlists.
Context {A : Type}.
Implicit Types (l : list A) (v : A) (i j : Z).

Lemma zlookup_nonneg l i : 0 <= i -> zlookup l i = l !! Z.to_nat i.
Proof. intros. unfold zlookup. by destruct (Z.ltb_spec i 0); [lia|]. Qed.

Lemma zlookup_app l1 l2 i :
  0 <= i ->
  zlookup (l1 ++ l2) i =
  if i <? zlength l1 then zlookup l1 i else zlookup l2 (i - zlength l1).
Proof.
  unfold zlength. intros. destruct (Z.ltb_spec i (Z.of_nat (length l1))).
  - rewrite !zlookup_nonneg, lookup_app_l by lia. done.
  - rewrite !zlookup_nonneg, lookup_app_r by lia. f_equal. lia.
Qed.

Lemma zlookup_app_l l1 l2 i : i < zlength l1 -> zlookup (l1 ++ l2) i = zlookup l1 i.
Proof.
  intros. destruct (Z.ltb_spec i 0) as [Hi|Hi].
  - unfold zlookup. by destruct (Z.ltb_spec i 0); [|lia].
  - rewrite zlookup_app by done. by destruct (Z.ltb_spec i (zlength l1)); [|lia].
Qed.

Lemma zlookup_app_r l1 l2 i :
  zlength l1 <= i -> zlookup (l1 ++ l2) i = zlookup l2 (i - zlength l1).
Proof.
  intros. rewrite zlookup_app by (unfold zlength in *; lia).
  by destruct (Z.ltb_spec i (zlength l1)); [lia|].
Qed.

Lemma zlookup_insert_at l v i j :
  0 <= i <= zlength l -> 0 <= j ->
  zlookup (insert_at i v l) j =
  if j <? i then zlookup l j else if j =? i then Some v else zlookup l (j - 1).
Proof.
  unfold insert_at, zlength. intros Hi Hj.
  rewrite zlookup_app by done. unfold zlength. rewrite length_take_le by lia.
  rewrite Z2Nat.id by lia.
  destruct (Z.ltb_spec j i) as [Hji|Hji]; [|destruct (Z.eqb_spec j i) as [->|He]].
  - rewrite !zlookup_nonneg, lookup_take_lt by lia. done.
  - by rewrite Z.sub_diag.
  - rewrite !zlookup_nonneg by lia.
    rewrite lookup_cons_ne_0, lookup_drop by lia. f_equal. lia.
Qed.

Lemma zlookup_delete_at l i j :
  0 <= i -> 0 <= j -> i < zlength l ->
  zlookup (delete_at i l) j = if j <? i then zlookup l j else zlookup l (j + 1).
Proof.
  unfold delete_at, zlength. intros Hi Hj Hl.
  rewrite zlookup_app by done. unfold zlength. rewrite length_take_le by lia.
  rewrite Z2Nat.id by lia. destruct (Z.ltb_spec j i).
  - rewrite !zlookup_nonneg, lookup_take_lt by lia. done.
  - rewrite !zlookup_nonneg, lookup_drop by lia. f_equal. lia.
Qed.

Lemma zlength_insert_at l v i : zlength (insert_at i v l) = zlength l + 1.
Proof.
  unfold zlength, insert_at. rewrite length_app. cbn.
  rewrite length_take, length_drop. lia.
Qed.

Lemma zlength_delete_at l i : 0 <= i < zlength l -> zlength (delete_at i l) = zlength l - 1.
Proof.
  unfold zlength, delete_at. intros. rewrite length_app, length_take, length_drop. lia.
Qed.

Lemma zlength_app l1 l2 : zlength (l1 ++ l2) = zlength l1 + zlength l2.
Proof. unfold zlength. rewrite length_app. lia. Qed.

Lemma zlength_cons v l : zlength (v :: l) = zlength l + 1.
Proof. unfold zlength. rewrite length_cons. lia. Qed.

Lemma zlength_nonneg l : 0 <= zlength l.
Proof. unfold zlength. lia. Qed.

Lemma zlookup_ext l1 l2 :
  zlength l1 = zlength l2 ->
  (forall i, 0 <= i < zlength l1 -> zlookup l1 i = zlookup l2 i) -> l1 = l2.
Proof.
  unfold zlength. intros Hl H. apply list_eq_same_length with (length l1); [lia..|].
  intros k x y Hk Hx Hy. specialize (H (Z.of_nat k)).
  rewrite !zlookup_nonneg, Nat2Z.id in H by lia. rewrite H in Hx by lia. congruence.
Qed.

Lemma insert_at_app_l i v l1 l2 :
  0 <= i <= zlength l1 -> insert_at i v (l1 ++ l2) = insert_at i v l1 ++ l2.
Proof.
  unfold insert_at, zlength. intros. rewrite <- app_assoc. cbn.
  rewrite take_app_le, drop_app_le by lia. done.
Qed.

Lemma insert_at_app_mid v l1 l2 : insert_at (zlength l1) v (l1 ++ l2) = l1 ++ v :: l2.
Proof.
  unfold insert_at, zlength. rewrite Nat2Z.id, take_app_length, drop_app_length. done.
Qed.

Lemma delete_at_mid v l1 l2 : delete_at (zlength l1) (l1 ++ v :: l2) = l1 ++ l2.
Proof.
  unfold delete_at, zlength. rewrite Nat2Z.id, take_app_length. f_equal.
  by rewrite cons_middle, app_assoc, drop_app_length' by (rewrite length_app; cbn; lia).
Qed.

Lemma delete_insert_at i v l : 0 <= i <= zlength l -> delete_at i (insert_at i v l) = l.
Proof.
  unfold zlength. intros Hi. unfold insert_at.
  assert (i = zlength (take (Z.to_nat i) l)) as Hl by (unfold zlength; rewrite length_take; lia).
  rewrite Hl at 1. rewrite delete_at_mid. apply take_drop.
Qed.

Lemma insert_at_perm i v l : insert_at i v l ≡ₚ v :: l.
Proof.
  unfold insert_at. rewrite <- (take_drop (Z.to_nat i) l) at 3.
  by rewrite Permutation_middle.
Qed.

Lemma zlookup_cons v l i : 0 < i -> zlookup (v :: l) i = zlookup l (i - 1).
Proof.
  intros. rewrite !zlookup_nonneg by lia.
  by replace (Z.to_nat i) with (S (Z.to_nat (i - 1))) by lia.
Qed.

Lemma zlookup_mid v l1 l2 : zlookup (l1 ++ v :: l2) (zlength l1) = Some v.
Proof.
  rewrite zlookup_app by apply zlength_nonneg. by rewrite Z.ltb_irrefl, Z.sub_diag.
Qed.
End zlists.

Lemma zlookup_ge {A} (l : list A) i : zlength l <= i -> zlookup l i = None.
Proof.
  unfold zlength, zlookup. intros. destruct (Z.ltb_spec i 0); [done|].
  apply lookup_ge_None. lia.
Qed.
Lemma zlookup_neg {A} (l : list A) i : i < 0 -> zlookup l i = None.
Proof. unfold zlookup. intros. by destruct (Z.ltb_spec i 0); [|lia]. Qed.

Lemma zlookup_take {A} (l : list A) n i :
  zlookup (take (Z.to_nat n) l) i = if i <? n then zlookup l i else None.
Proof.
  unfold zlookup. destruct (Z.ltb_spec i 0), (Z.ltb_spec i n); try done.
  - by rewrite lookup_take_lt by lia.
  - by rewrite lookup_take_ge by lia.
Qed.
Lemma zlookup_drop {A} (l : list A) n i :
  0 <= n -> 0 <= i -> zlookup (drop (Z.to_nat n) l) i = zlookup l (n + i).
Proof.
  intros. rewrite !zlookup_nonneg, lookup_drop by lia. f_equal. lia.
Qed.
Lemma zlength_take {A} (l : list A) n : 0 <= n -> zlength (take (Z.to_nat n) l) = Z.min n (zlength l).
Proof. unfold zlength. rewrite length_take. lia. Qed.
Lemma zlength_drop {A} (l : list A) n : 0 <= n -> zlength (drop (Z.to_nat n) l) = Z.max 0 (zlength l - n).
Proof. unfold zlength. rewrite length_drop. lia. Qed.

Lemma zlookup_insert {A} (l : list A) p q x :
  0 <= p < zlength l ->
  zlookup (<[Z.to_nat p := x]> l) q = if q =? p then Some x else zlookup l q.
Proof.
  unfold zlookup, zlength. intros Hp. destruct (Z.eqb_spec q p) as [->|Hq].
  - destruct (Z.ltb_spec p 0); [lia|]. apply list_lookup_insert_eq. lia.
  - destruct (Z.ltb_spec q 0); [done|]. apply list_lookup_insert_ne. lia.
Qed.

Lemma map_zlookup {A B} (f : A -> B) l i : zlookup (map f l) i = f <$> zlookup l i.
Proof. unfold zlookup. destruct (i <? 0); [done|]. apply list_lookup_fmap. Qed.

Lemma zlookup_Some_split {A} (l : list A) i x :
  zlookup l i = Some x -> exists l1 l2, l = l1 ++ x :: l2 /\ zlength l1 = i.
Proof.
  unfold zlookup. destruct (Z.ltb_spec i 0); [done|]. intros Hx.
  exists (take (Z.to_nat i) l), (drop (S (Z.to_nat i)) l). split.
  - symmetry. by apply take_drop_middle.
  - unfold zlength. apply lookup_lt_Some in Hx. rewrite length_take. lia.
Qed.

Lemma Forall_zlookup {A} (P : A -> Prop) l :
  Forall P l <-> forall i x, zlookup l i = Some x -> P x.
Proof.
  rewrite Forall_lookup. unfold zlookup. split.
  - intros H i x. destruct (i <? 0); [done|]. apply H.
  - intros H i x Hx. apply (H (Z.of_nat i)). destruct (Z.ltb_spec (Z.of_nat i) 0); [lia|].
    by rewrite Nat2Z.id.
Qed.

Lemma zlookup_lt {A} (l : list A) i x : zlookup l i = Some x -> 0 <= i < zlength l.
Proof.
  unfold zlookup, zlength. destruct (Z.ltb_spec i 0); [done|]. intros H'%lookup_lt_Some. lia.
Qed.
Lemma zlookup_Some {A} (l : list A) i : 0 <= i < zlength l -> exists x, zlookup l i = Some x.
Proof.
  intros H. destruct (zlookup l i) eqn:E; [by eexists|]. exfalso.
  rewrite zlookup_nonneg in E by lia. apply lookup_ge_None in E. unfold zlength in H. lia.
Qed.

(** [l[i] = v], where [i] is in range. *)
Definition zset {A} (l : list A) (i : Z) (v : A) : option (list A) :=
  if (0 <=? i) && (i <? zlength l) then Some (<[Z.to_nat i := v]> l) else None.
Lemma zset_spec {A} (l : list A) i v : 0 <= i < zlength l ->
  exists l', zset l i v = Some l' /\ zlength l' = zlength l /\
    forall j, zlookup l' j = if j =? i then Some v else zlookup l j.
Proof.
  intros Hi. unfold zset. destruct (Z.leb_spec 0 i), (Z.ltb_spec i (zlength l)); try lia. cbn [andb].
  eexists. split; [done|]. split; [unfold zlength; by rewrite length_insert|]. intros j.
  unfold zlookup, zlength in *. destruct (Z.ltb_spec j 0), (Z.eqb_spec j i); try lia; [done|by subst; rewrite list_lookup_insert_eq by lia|].
  apply list_lookup_insert_ne. lia.
Qed.
