(* ===== verification/Compiler.v ===== *)
(** Bits, bytes and byte order, [src/compiler.hh].

    The host is the x86-64 machine the code is written for: little endian
    ([ntohq] is a [bswapq] instruction), [char] is 8 bits.  A byte string is a
    list of integers in [0, 256), see [bytes]. *)
From S2P Require Import Prelude.

Definition bytes (l : list Z) : Prop := Forall (in_u 8) l.

(** * Words in memory *)
Fixpoint le_bytes (n : nat) (x : Z) : list Z :=
  match n with
  | O => []
  | S n => Z.land x 255 :: le_bytes n (Z.shiftr x 8)
  end.
Fixpoint le_value (l : list Z) : Z :=
  match l with
  | [] => 0
  | b :: l => Z.lor b (Z.shiftl (le_value l) 8)
  end.

(** [write_in_host_order]/[read_in_host_order] of a type of [n] bytes. *)
Definition write_in_host_order (n : nat) (x : Z) : list Z := le_bytes n x.
Definition read_in_host_order (n : nat) (s : list Z) : Z := le_value (take n s).

(** [ntohs], [ntohl], [ntohq]: reverse the bytes of the word. *)
Definition bswap (n : nat) (x : Z) : Z := le_value (reverse (le_bytes n x)).
Definition host_to_net_order (n : nat) (x : Z) : Z := bswap n x.
Definition net_to_host_order (n : nat) (x : Z) : Z := bswap n x.

Definition write_in_net_order (n : nat) (x : Z) : list Z :=
  write_in_host_order n (host_to_net_order n x).
Definition read_in_net_order (n : nat) (s : list Z) : Z :=
  net_to_host_order n (read_in_host_order n s).

(** * Bit counting *)
Definition clz (w x : Z) : Z := w - 1 - Z.log2 x.
Fixpoint ctz_pos (p : positive) : Z :=
  match p with xO p => 1 + ctz_pos p | _ => 0 end.
Definition ctz (x : Z) : Z := match x with Zpos p => ctz_pos p | _ => 0 end.

Definition ffs_msb (w x : Z) : Z := if x =? 0 then 0 else clz w x + 1.

Definition iceil (x y : Z) : Z :=
  let md := x mod y in x + (if md =? 0 then 0 else y - md).
Definition iceil_log2 (w x : Z) : Z :=
  ushl w 1 (w - clz w x - b2z (Z.land x (uwrap w (x - 1)) =? 0)).
Definition ifloor_log2 (w x : Z) : Z := ushl w 1 (w - 1 - clz w x).

(** [find_lowest_zero_nibble] on a [w]-bit unsigned type. *)
Definition find_lowest_zero_nibble (w x : Z) : Z :=
  let h := uwrap w 0x8888888888888888 in
  let l := uwrap w 0x1111111111111111 in
  let t := Z.land (Z.land h (uwrap w (x - l))) (unot w x) in
  if t =? 0 then -1 else Z.shiftr (ctz t) 2.

(** [compare]: -1, 0 or 1. *)
Definition compare (a b : Z) : Z := if a =? b then 0 else if a <? b then -1 else 1.

(** * Bytes of a word *)
Lemma land_255 x : Z.land x 255 = x mod 256.
Proof. change 255 with (Z.ones 8). by rewrite Z.land_ones by lia. Qed.

Lemma length_le_bytes n x : length (le_bytes n x) = n.
Proof. revert x. induction n; intros; cbn; auto. Qed.

Lemma le_bytes_bytes n x : bytes (le_bytes n x).
Proof.
  revert x. induction n as [|n IH]; intros x; cbn; constructor; [|apply IH].
  rewrite land_255. unfold in_u. apply Z.mod_pos_bound. lia.
Qed.

(** Disjoint fields of a word: adding them is or-ing them. *)
Lemma add_lor_fields k a b :
  0 <= k -> in_u k a -> a + 2 ^ k * b = Z.lor a (Z.shiftl b k).
Proof.
  intros Hk Ha.
  assert (Z.land a (Z.shiftl b k) = 0) as Hd.
  { apply Z.bits_inj'. intros n Hn. zbits_rw.
    destruct (Z.lt_ge_cases n k).
    - rewrite (Z.testbit_neg_r _ (n - k)) by lia. apply andb_false_r.
    - by rewrite (testbit_in_u k a). }
  rewrite <- Z.lxor_lor, <- Z.add_nocarry_lxor by done.
  rewrite Z.shiftl_mul_pow2 by lia. lia.
Qed.

Lemma le_value_cons b l : in_u 8 b -> le_value (b :: l) = b + 256 * le_value l.
Proof. intros Hb. symmetry. by apply (add_lor_fields 8). Qed.

Lemma le_value_range l : bytes l -> 0 <= le_value l < 256 ^ zlength l.
Proof.
  induction 1 as [|b l Hb Hl IH]; [by vm_compute|].
  rewrite le_value_cons, zlength_cons, Z.pow_add_r by (done || apply zlength_nonneg || lia).
  unfold in_u in Hb. lia.
Qed.

Lemma le_value_bytes n x : le_value (le_bytes n x) = x mod 256 ^ Z.of_nat n.
Proof.
  revert x. induction n as [|n IH]; intros x; [cbn; by rewrite Z.mod_1_r|].
  cbn [le_bytes]. rewrite le_value_cons by
    (rewrite land_255; unfold in_u; apply Z.mod_pos_bound; lia).
  rewrite IH, land_255, Z.shiftr_div_pow2, Nat2Z.inj_succ, Z.pow_succ_r by lia.
  change (2 ^ 8) with 256. by rewrite Z.rem_mul_r by lia.
Qed.

Lemma le_bytes_value l : bytes l -> le_bytes (length l) (le_value l) = l.
Proof.
  induction 1 as [|b l Hb Hl IH]; [done|].
  rewrite le_value_cons by done. cbn [length le_bytes].
  rewrite land_255, Z.shiftr_div_pow2 by lia. change (2 ^ 8) with 256.
  unfold in_u in Hb.
  replace ((b + 256 * le_value l) mod 256) with b.
  2: { apply (Z.mod_unique _ _ (le_value l)); lia. }
  replace ((b + 256 * le_value l) / 256) with (le_value l).
  2: { apply (Z.div_unique _ _ _ b); lia. }
  by rewrite IH.
Qed.

Lemma bytes_app l1 l2 : bytes (l1 ++ l2) <-> bytes l1 /\ bytes l2.
Proof. apply Forall_app. Qed.

Lemma bytes_reverse l : bytes l -> bytes (reverse l).
Proof. apply Forall_reverse. Qed.

Lemma le_value_app l1 l2 :
  bytes l1 -> bytes l2 ->
  le_value (l1 ++ l2) = le_value l1 + 256 ^ zlength l1 * le_value l2.
Proof.
  intros H1 H2. induction H1 as [|b l1 Hb H1 IH]; [cbn [app]; change (zlength []) with 0; cbn; lia|].
  cbn [app]. rewrite !le_value_cons, IH, zlength_cons, Z.pow_add_r by
    (done || apply zlength_nonneg || lia).
  lia.
Qed.

(** The big-endian value of a byte string: what [net_to_host_order] makes of
    the word it is loaded into. *)
Definition be_value (l : list Z) : Z := le_value (reverse l).

Lemma be_value_app l1 l2 :
  bytes l1 -> bytes l2 ->
  be_value (l1 ++ l2) = be_value l1 * 256 ^ zlength l2 + be_value l2.
Proof.
  intros H1 H2. unfold be_value. rewrite reverse_app.
  rewrite le_value_app by (by apply bytes_reverse).
  replace (zlength (reverse l2)) with (zlength l2)
    by (unfold zlength; by rewrite length_reverse).
  lia.
Qed.

Lemma be_value_cons b l :
  in_u 8 b -> bytes l -> be_value (b :: l) = b * 256 ^ zlength l + be_value l.
Proof.
  intros Hb Hl. change (b :: l) with ([b] ++ l).
  rewrite be_value_app by (done || by constructor).
  f_equal. f_equal. unfold be_value. cbn. by rewrite Z.shiftl_0_l, Z.lor_0_r.
Qed.

Lemma be_value_range l : bytes l -> 0 <= be_value l < 256 ^ zlength l.
Proof.
  intros Hl. unfold be_value.
  replace (zlength l) with (zlength (reverse l)) by (unfold zlength; by rewrite length_reverse).
  apply le_value_range. by apply bytes_reverse.
Qed.

Lemma bswap_le_value l : bytes l -> bswap (length l) (le_value l) = be_value l.
Proof. intros. unfold bswap, be_value. by rewrite le_bytes_value. Qed.

Lemma bswap_bswap n x : bswap n (bswap n x) = x mod 256 ^ Z.of_nat n.
Proof.
  unfold bswap. rewrite <- (length_le_bytes n x) at 1. rewrite <- length_reverse.
  rewrite le_bytes_value by apply bytes_reverse, le_bytes_bytes.
  by rewrite reverse_involutive, le_value_bytes.
Qed.

(** Network order is big endian. *)
Lemma write_in_net_order_be n x : write_in_net_order n x = reverse (le_bytes n x).
Proof.
  unfold write_in_net_order, write_in_host_order, host_to_net_order, bswap.
  rewrite <- (length_le_bytes n x) at 1. rewrite <- length_reverse.
  apply le_bytes_value, bytes_reverse, le_bytes_bytes.
Qed.

Lemma read_in_net_order_be n s :
  bytes s -> (n <= length s)%nat -> read_in_net_order n s = be_value (take n s).
Proof.
  intros Hs Hn. unfold read_in_net_order, read_in_host_order, net_to_host_order.
  rewrite <- bswap_le_value by (by apply Forall_take). by rewrite length_take_le.
Qed.

Lemma read_write_net_order n x s :
  bytes s -> 0 <= x < 256 ^ Z.of_nat n ->
  read_in_net_order n (write_in_net_order n x ++ s) = x.
Proof.
  intros Hs Hx. rewrite write_in_net_order_be.
  assert (length (reverse (le_bytes n x)) = n) as Hl
    by (by rewrite length_reverse, length_le_bytes).
  rewrite read_in_net_order_be.
  - rewrite take_app_length' by done. unfold be_value.
    rewrite reverse_involutive, le_value_bytes. by apply Z.mod_small.
  - apply bytes_app. split; [apply bytes_reverse, le_bytes_bytes|done].
  - rewrite length_app. lia.
Qed.

Lemma length_write_in_net_order n x : length (write_in_net_order n x) = n.
Proof. rewrite write_in_net_order_be, length_reverse. apply length_le_bytes. Qed.

Lemma write_in_net_order_bytes n x : bytes (write_in_net_order n x).
Proof. rewrite write_in_net_order_be. apply bytes_reverse, le_bytes_bytes. Qed.

(** * Powers of two *)
Lemma land_pred_pow2 x :
  0 < x -> (Z.land x (x - 1) =? 0) = (x =? 2 ^ Z.log2 x).
Proof.
  intros Hx. pose proof (Z.log2_spec x Hx) as [Hlo Hhi].
  pose proof (Z.log2_nonneg x). set (k := Z.log2 x) in *.
  destruct (Z.eqb_spec x (2 ^ k)) as [He|Hne].
  - apply Z.eqb_eq. rewrite He.
    replace (2 ^ k - 1) with (Z.ones k) by (rewrite Z.ones_equiv; lia).
    rewrite Z.land_ones by lia. apply Z.mod_same. lia.
  - apply Z.eqb_neq. intros Hz.
    assert (Z.testbit (Z.land x (x - 1)) k = true) as Hb; [|by rewrite Hz, Z.bits_0 in Hb].
    assert (Z.log2 (x - 1) = k) as Hk by (apply Z.log2_unique; lia).
    rewrite Z.land_spec. apply andb_true_intro. split.
    + apply Z.bit_log2. lia.
    + rewrite <- Hk. apply Z.bit_log2. pose proof (Z.pow_pos_nonneg 2 k). lia.
Qed.

Lemma ushl_1 w k : 0 <= k < w -> ushl w 1 k = 2 ^ k.
Proof.
  intros. unfold ushl. rewrite Z.shiftl_1_l. apply uwrap_id.
  pose proof (Z.pow_lt_mono_r 2 k w). pose proof (Z.pow_pos_nonneg 2 k).
  unfold in_u. lia.
Qed.

Lemma iceil_log2_spec w x :
  0 < w -> 0 < x <= 2 ^ (w - 1) ->
  (exists k, 0 <= k < w /\ iceil_log2 w x = 2 ^ k) /\ x <= iceil_log2 w x < 2 * x.
Proof.
  intros Hw [Hx Hle]. unfold iceil_log2, clz.
  pose proof (Z.log2_spec x Hx) as [Hlo Hhi]. pose proof (Z.log2_nonneg x).
  pose proof (Z.log2_le_mono x (2 ^ (w - 1)) Hle) as Hl.
  rewrite Z.log2_pow2 in Hl by lia. pose proof (Z.pow_lt_mono_r 2 (w - 1) w).
  rewrite uwrap_id by (unfold in_u; lia). rewrite land_pred_pow2 by done.
  rewrite Z.pow_succ_r in Hhi by lia.
  destruct (Z.eqb_spec x (2 ^ Z.log2 x)) as [He|Hne]; unfold b2z.
  - replace (w - (w - 1 - Z.log2 x) - 1) with (Z.log2 x) by lia.
    rewrite ushl_1 by lia. split; [exists (Z.log2 x)|]; lia.
  - replace (w - (w - 1 - Z.log2 x) - 0) with (Z.log2 x + 1) by lia.
    assert (Z.log2 x + 1 < w).
    { destruct (Z.eq_dec (Z.log2 x) (w - 1)) as [Hq|]; [|lia].
      exfalso. apply Hne. rewrite Hq in *. lia. }
    rewrite !ushl_1 by lia. split; [by exists (Z.log2 x + 1); split; [lia|]|]. rewrite Z.pow_add_r; lia.
Qed.

Lemma ifloor_log2_spec w x :
  0 < w -> 0 < x < 2 ^ w ->
  (exists k, 0 <= k < w /\ ifloor_log2 w x = 2 ^ k) /\ ifloor_log2 w x <= x < 2 * ifloor_log2 w x.
Proof.
  intros Hw [Hx Hlt]. unfold ifloor_log2, clz.
  pose proof (Z.log2_spec x Hx) as [Hlo Hhi]. pose proof (Z.log2_nonneg x).
  assert (Z.log2 x < w) by (by apply Z.log2_lt_pow2).
  rewrite Z.pow_succ_r in Hhi by lia.
  replace (w - 1 - (w - 1 - Z.log2 x)) with (Z.log2 x) by lia.
  rewrite ushl_1 by lia. split; [exists (Z.log2 x); lia|lia].
Qed.

(** [iceil_log2] returns the smallest power of 2 that is at least [x], for
    every [x] that has one in the type; [ifloor_log2] the largest that is at
    most [x]. *)
Theorem iceil_ifloor_log2_spec w x :
  0 < w -> 0 < x <= 2 ^ (w - 1) ->
  (exists k, 0 <= k < w /\ iceil_log2 w x = 2 ^ k) /\ x <= iceil_log2 w x < 2 * x /\
  (exists k, 0 <= k < w /\ ifloor_log2 w x = 2 ^ k) /\
  ifloor_log2 w x <= x < 2 * ifloor_log2 w x.
Proof.
  intros Hw [Hx Hle]. pose proof (Z.pow_lt_mono_r 2 (w - 1) w).
  destruct (iceil_log2_spec w x), (ifloor_log2_spec w x); [lia..|done].
Qed.

Lemma iceil_ifloor_log2_spec_witness :
  iceil_log2 32 100 = 128 /\ 100 <= iceil_log2 32 100 < 2 * 100.
Proof.
  split; [by vm_compute|]. by apply (iceil_ifloor_log2_spec 32 100).
Defined.

(** * The lowest zero nibble *)
Fixpoint nibble_rep (d : Z) (n : nat) : Z :=
  match n with O => 0 | S n => d + 16 * nibble_rep d n end.
Definition nibble_test (n : nat) (x : Z) : Z :=
  Z.land (Z.land (nibble_rep 8 n) (x - nibble_rep 1 n)) (Z.lnot x).
Definition nibble (x i : Z) : Z := x / 16 ^ i mod 16.

Lemma testbit_nibbles a b n :
  0 <= a < 16 ->
  Z.testbit (a + 16 * b) n = if n <? 4 then Z.testbit a n else Z.testbit b (n - 4).
Proof.
  intros Ha. rewrite (add_lor_fields 4) by done. zbits_rw.
  destruct (Z.ltb_spec n 4).
  - rewrite (Z.testbit_neg_r b) by lia. apply orb_false_r.
  - by rewrite (testbit_in_u 4 a).
Qed.

Lemma nibble_split (f : Z -> Z -> Z) (g : bool -> bool -> bool) a b c d :
  (forall x y n, 0 <= n -> Z.testbit (f x y) n = g (Z.testbit x n) (Z.testbit y n)) ->
  0 <= f a c < 16 -> 0 <= a < 16 -> 0 <= c < 16 ->
  f (a + 16 * b) (c + 16 * d) = f a c + 16 * f b d.
Proof.
  intros Hf Hac Ha Hc. apply Z.bits_inj'. intros n Hn.
  rewrite Hf, !testbit_nibbles by done.
  destruct (Z.ltb_spec n 4); by rewrite Hf by lia.
Qed.

Lemma land_range16 a b : 0 <= a < 16 -> 0 <= b -> 0 <= Z.land a b < 16.
Proof.
  intros Ha Hb. change 16 with (2 ^ 4). apply in_u_testbit; [lia|].
  intros n Hn. rewrite Z.land_spec, (testbit_in_u 4 a) by (done || lia). done.
Qed.

Lemma nibble_test_cons n d y :
  0 <= d < 16 ->
  nibble_test (S n) (d + 16 * y) =
  (if d =? 0 then 8 + 16 * Z.land (Z.land (nibble_rep 8 n) (y - nibble_rep 1 n - 1)) (Z.lnot y)
   else 16 * nibble_test n y).
Proof.
  intros Hd. unfold nibble_test. cbn [nibble_rep].
  assert (Z.lnot (d + 16 * y) = (15 - d) + 16 * Z.lnot y) as -> by (unfold Z.lnot; lia).
  set (b := if d =? 0 then 1 else 0).
  replace (d + 16 * y - (1 + 16 * nibble_rep 1 n))
    with ((d - 1 + 16 * b) + 16 * (y - nibble_rep 1 n - b)) by lia.
  assert (0 <= d - 1 + 16 * b < 16) by (unfold b; destruct (Z.eqb_spec d 0); lia).
  rewrite (nibble_split Z.land andb 8), (nibble_split Z.land andb) by
    (try (intros; apply Z.land_spec); repeat apply land_range16; lia).
  assert (Z.land (Z.land 8 (d - 1 + 16 * b)) (15 - d) = if d =? 0 then 8 else 0) as ->.
  { unfold b.
    assert (d ∈ seqZ 0 16) as Hin by (apply elem_of_seqZ; lia).
    revert Hin. clear. intros Hin. vm_compute in Hin.
    repeat (apply elem_of_cons in Hin; destruct Hin as [->|Hin]; [done|]).
    by apply elem_of_nil in Hin. }
  unfold b. destruct (d =? 0); [lia|]. rewrite Z.sub_0_r. lia.
Qed.

Lemma nibble_0 x : nibble x 0 = x mod 16.
Proof. unfold nibble. by rewrite Z.pow_0_r, Z.div_1_r. Qed.
Lemma nibble_S x i : 0 < i -> nibble x i = nibble (x / 16) (i - 1).
Proof.
  intros. unfold nibble. rewrite Z.div_div by lia. rewrite <- Z.pow_succ_r by lia.
  do 3 f_equal. lia.
Qed.

Lemma nibble_rep_nonneg d n : 0 <= d -> 0 <= nibble_rep d n.
Proof. intros. induction n; cbn; lia. Qed.
Lemma nibble_test_nonneg n x : 0 <= nibble_test n x.
Proof.
  unfold nibble_test. apply Z.land_nonneg. left. apply Z.land_nonneg. left.
  by apply nibble_rep_nonneg.
Qed.

Lemma ctz_mul16 t : 0 < t -> ctz (16 * t) = 4 + ctz t.
Proof. intros. destruct t as [|p|]; [done| |done]. change (16 * Z.pos p) with (Z.pos p~0~0~0~0).
  cbn [ctz ctz_pos]. lia.
Qed.
Lemma ctz_8 t : 0 <= t -> ctz (8 + 16 * t) = 3.
Proof.
  intros. replace (8 + 16 * t) with (8 * (1 + 2 * t)) by lia.
  by destruct t as [|[]|].
Qed.

Lemma ctz_nonneg t : 0 <= ctz t.
Proof. destruct t as [|p|]; cbn; [lia| |lia]. induction p; cbn -[Z.add]; lia. Qed.

Lemma nibble_test_spec n x :
  let t := nibble_test n x in
  let r := if t =? 0 then Z.of_nat n else Z.shiftr (ctz t) 2 in
  ((t =? 0) = false -> r < Z.of_nat n /\ nibble x r = 0) /\
  0 <= r /\ forall i, 0 <= i < r -> nibble x i <> 0.
Proof.
  revert x. induction n as [|n IH]; intros x.
  { cbv zeta. change (nibble_test 0 x) with 0. split_and!; [done|done|].
    intros i Hi. change (if 0 =? 0 then Z.of_nat 0 else _) with 0 in Hi. lia. }
  specialize (IH (x / 16)). cbv zeta in *.
  pose proof (Z.mod_pos_bound x 16 ltac:(lia)) as Hm.
  assert (nibble_test (S n) x = nibble_test (S n) (x mod 16 + 16 * (x / 16))) as ->.
  { f_equal. pose proof (Z.div_mod x 16). lia. }
  rewrite nibble_test_cons by done.
  destruct (Z.eqb_spec (x mod 16) 0) as [H0|H0].
  - match goal with |- context [8 + 16 * ?t] =>
      assert (0 <= t) by (apply Z.land_nonneg; left; apply Z.land_nonneg; left;
        by apply nibble_rep_nonneg); set (t' := t) in *; clearbody t' end.
    destruct (Z.eqb_spec (8 + 16 * t') 0); [lia|].
    rewrite ctz_8 by done. change (Z.shiftr 3 2) with 0. rewrite nibble_0.
    split_and!; [intros; split; lia|lia|lia].
  - set (t := nibble_test n (x / 16)) in *.
    assert (0 <= t) by apply nibble_test_nonneg.
    assert ((16 * t =? 0) = (t =? 0)) as ->.
    { destruct (Z.eqb_spec t 0), (Z.eqb_spec (16 * t) 0); done || lia. }
    assert (Hs : (if t =? 0 then Z.of_nat (S n) else Z.shiftr (ctz (16 * t)) 2) =
      (if t =? 0 then Z.of_nat n else Z.shiftr (ctz t) 2) + 1).
    { destruct (Z.eqb_spec t 0); [lia|]. rewrite ctz_mul16 by lia.
      rewrite !Z.shiftr_div_pow2 by lia.
      replace (4 + ctz t) with (ctz t + 1 * 2 ^ 2) by lia. apply Z.div_add. lia. }
    rewrite Hs. destruct IH as (IH1 & IH2 & IH3).
    set (r := if t =? 0 then Z.of_nat n else Z.shiftr (ctz t) 2) in *.
    split_and!; [intros Ht; specialize (IH1 Ht)|lia|intros i Hi].
    + rewrite nibble_S by lia. replace (r + 1 - 1) with r by lia. split; [lia|apply IH1].
    + destruct (Z.eq_dec i 0) as [->|]; [by rewrite nibble_0|].
      rewrite nibble_S by lia. apply IH3. lia.
Qed.

(** [find_lowest_zero_nibble] on a 64-bit word returns the index of its
    lowest zero nibble, and -1 exactly when it has none: the borrows of the
    subtraction only disturb nibbles above the first zero one. *)
Theorem find_lowest_zero_nibble_spec x :
  let r := find_lowest_zero_nibble 64 x in
  (r = -1 /\ forall i, 0 <= i < 16 -> nibble x i <> 0) \/
  (0 <= r < 16 /\ nibble x r = 0 /\ forall i, 0 <= i < r -> nibble x i <> 0).
Proof.
  unfold find_lowest_zero_nibble.
  assert (Z.land (Z.land (uwrap 64 0x8888888888888888)
    (uwrap 64 (x - uwrap 64 0x1111111111111111))) (unot 64 x) = nibble_test 16 x) as ->.
  { unfold nibble_test.
    change (nibble_rep 8 16) with 0x8888888888888888.
    change (nibble_rep 1 16) with 0x1111111111111111.
    change (uwrap 64 0x8888888888888888) with 0x8888888888888888.
    change (uwrap 64 0x1111111111111111) with 0x1111111111111111.
    apply Z.bits_inj'. intros n Hn. zbits_rw.
    destruct (Z.ltb_spec n 64); [done|].
    by rewrite (testbit_in_u 64 0x8888888888888888). }
  pose proof (nibble_test_spec 16 x) as (H1 & H2 & H3).
  set (t := nibble_test 16 x) in *.
  destruct (t =? 0); cbv zeta; [left|right]; (split; [done || (destruct H1; [done|lia])|]).
  - exact H3.
  - by destruct H1.
Qed.
