(* ===== verification/Memory.v ===== *)
(** Byte-addressed memory, for the code that reads and writes through
    [char*] pointers: [Str], [string_slice], [key], [stringbag].

    A pointer is its address; a memory gives the byte at each address.  Which
    addresses may be accessed is a precondition in the code, and is not
    modelled: the theorems only rely on the bytes they name.  [memcpy],
    [memmove] and [memcmp] are the C library's. *)
From S2P Require Import Prelude Compiler.

Definition mem := Z -> Z.
Definition mem_bytes (m : mem) : Prop := forall a, in_u 8 (m a).

(** The [n] bytes at [a]. *)
Definition load (m : mem) (a n : Z) : list Z := map m (seqZ a n).
(** [m] with the bytes [l] stored at [a]. *)
Definition store (m : mem) (a : Z) (l : list Z) : mem := fun x =>
  match zlookup l (x - a) with Some b => b | None => m x end.

(** A fresh memory that holds [l] at address [a], for examples. *)
Definition mem_of (a : Z) (l : list Z) : mem := store (fun _ => 0) a l.

(** [memcpy], [memmove] (the model reads all of the source first, so both are
    the same function) and the sign of [memcmp], of [n] bytes. *)
Definition memcpy (m : mem) (dst src n : Z) : mem := store m dst (load m src n).
Fixpoint list_memcmp (a b : list Z) : Z :=
  match a, b with
  | x :: a, y :: b => if x =? y then list_memcmp a b else if x <? y then -1 else 1
  | _, _ => 0
  end.
Definition memcmp (m : mem) (a b n : Z) : Z := list_memcmp (load m a n) (load m b n).

(** A word of [n] bytes at an address. *)
Definition load_word (m : mem) (n : nat) (a : Z) : Z :=
  read_in_host_order n (load m a (Z.of_nat n)).
Definition store_word (m : mem) (n : nat) (a x : Z) : mem :=
  store m a (write_in_host_order n x).

(** * Loads *)
Lemma zlength_load m a n : 0 <= n -> zlength (load m a n) = n.
Proof. intros. unfold zlength, load. rewrite length_map, length_seqZ. lia. Qed.

Lemma length_load m a n : length (load m a n) = Z.to_nat n.
Proof. unfold load. by rewrite length_map, length_seqZ. Qed.

Lemma zlookup_load m a n i : 0 <= i < n -> zlookup (load m a n) i = Some (m (a + i)).
Proof.
  intros. rewrite zlookup_nonneg by lia. unfold load.
  rewrite list_lookup_fmap, lookup_seqZ_lt by lia. cbn. do 2 f_equal. lia.
Qed.

Lemma load_bytes m a n : mem_bytes m -> bytes (load m a n).
Proof. intros Hm. apply Forall_fmap, Forall_forall. intros x _. apply Hm. Qed.

Lemma load_0 m a n : n <= 0 -> load m a n = [].
Proof. intros. unfold load. by rewrite seqZ_nil. Qed.

Lemma load_app m a n k :
  0 <= n -> 0 <= k -> load m a (n + k) = load m a n ++ load m (a + n) k.
Proof. intros. unfold load. rewrite seqZ_app by lia. by rewrite map_app. Qed.

Lemma load_cons m a n : 0 < n -> load m a n = m a :: load m (a + 1) (n - 1).
Proof.
  intros. unfold load. rewrite seqZ_cons by done. cbn. do 3 f_equal; lia.
Qed.

Lemma load_ext m m' a a' n :
  (forall i, 0 <= i < n -> m (a + i) = m' (a' + i)) -> load m a n = load m' a' n.
Proof.
  intros H. destruct (Z.le_gt_cases 0 n) as [Hn|Hn]; [|by rewrite !load_0 by lia].
  apply zlookup_ext; rewrite !zlength_load by done; [done|].
  intros i Hi. rewrite !zlookup_load by done. by rewrite H.
Qed.

Lemma take_load m a n k :
  0 <= k <= n -> take (Z.to_nat k) (load m a n) = load m a k.
Proof.
  intros. replace n with (k + (n - k)) by lia. rewrite load_app by lia.
  by rewrite take_app_length' by (rewrite length_load; lia).
Qed.

Lemma drop_load m a n k :
  0 <= k <= n -> drop (Z.to_nat k) (load m a n) = load m (a + k) (n - k).
Proof.
  intros. replace n with (k + (n - k)) at 1 by lia. rewrite load_app by lia.
  by rewrite drop_app_length' by (rewrite length_load; lia).
Qed.

(** * Stores *)
Lemma load_store_same m a l : load (store m a l) a (zlength l) = l.
Proof.
  pose proof (zlength_nonneg l).
  apply zlookup_ext; rewrite zlength_load by done; [done|].
  intros i Hi. rewrite zlookup_load by done. unfold store.
  replace (a + i - a) with i by lia.
  destruct (zlookup l i) eqn:E; [done|].
  rewrite zlookup_nonneg in E by lia. apply lookup_ge_None in E. unfold zlength in *. lia.
Qed.

Lemma store_other m a l x : x < a \/ a + zlength l <= x -> store m a l x = m x.
Proof.
  intros H. unfold store. destruct H as [H|H].
  - by rewrite zlookup_neg by lia.
  - by rewrite zlookup_ge by lia.
Qed.

Lemma load_store_other m a l b n :
  b + n <= a \/ a + zlength l <= b -> load (store m a l) b n = load m b n.
Proof. intros H. apply load_ext. intros i Hi. apply store_other. lia. Qed.

Lemma store_bytes m a l : mem_bytes m -> bytes l -> mem_bytes (store m a l).
Proof.
  intros Hm Hl x. unfold store. destruct (zlookup l (x - a)) eqn:E; [|apply Hm].
  unfold zlookup in E. destruct (x - a <? 0); [done|].
  by eapply Forall_lookup_1.
Qed.

Lemma load_store_inside m a l k n :
  0 <= k -> 0 <= n -> k + n <= zlength l ->
  load (store m a l) (a + k) n = take (Z.to_nat n) (drop (Z.to_nat k) l).
Proof.
  intros Hk Hn Hl. rewrite <- (load_store_same m a l) at 2.
  rewrite drop_load, take_load by lia. done.
Qed.

Lemma store_same m a l x b : zlookup l (x - a) = Some b -> store m a l x = b.
Proof. unfold store. by intros ->. Qed.

Lemma load_mem_of a l : load (mem_of a l) a (zlength l) = l.
Proof. apply load_store_same. Qed.

Lemma mem_of_bytes a l : bytes l -> mem_bytes (mem_of a l).
Proof. intros. apply store_bytes; [|done]. intros x. unfold in_u. lia. Qed.

(** * Words *)
Lemma load_word_value m n a : load_word m n a = le_value (load m a (Z.of_nat n)).
Proof.
  unfold load_word, read_in_host_order. by rewrite take_ge by (rewrite length_load; lia).
Qed.

Lemma load_word_range m n a : mem_bytes m -> 0 <= load_word m n a < 256 ^ Z.of_nat n.
Proof.
  intros. rewrite load_word_value.
  pose proof (le_value_range (load m a (Z.of_nat n)) (load_bytes _ _ _ ltac:(done))) as H'.
  by rewrite zlength_load in H' by lia.
Qed.

Lemma load_word_store m n a x : load_word (store_word m n a x) n a = x mod 256 ^ Z.of_nat n.
Proof.
  rewrite load_word_value. unfold store_word, write_in_host_order.
  replace (Z.of_nat n) with (zlength (le_bytes n x)) at 1 by (unfold zlength; by rewrite length_le_bytes).
  rewrite load_store_same. apply le_value_bytes.
Qed.
Lemma load_word_ext m m' n a :
  (forall x, a <= x < a + Z.of_nat n -> m x = m' x) -> load_word m n a = load_word m' n a.
Proof.
  intros H. unfold load_word. f_equal. apply load_ext. intros i Hi. apply H. lia.
Qed.
Lemma store_word_other m n a v x : x < a \/ a + Z.of_nat n <= x -> store_word m n a v x = m x.
Proof.
  intros H. apply store_other. unfold zlength, write_in_host_order. rewrite length_le_bytes. lia.
Qed.

(** * Comparison of byte strings *)
(** Lexicographic order, the specification of string comparison: -1, 0, 1. *)
Fixpoint lex (a b : list Z) : Z :=
  match a, b with
  | [], [] => 0
  | [], _ :: _ => -1
  | _ :: _, [] => 1
  | x :: a, y :: b => if x =? y then lex a b else if x <? y then -1 else 1
  end.

Lemma lex_refl a : lex a a = 0.
Proof. induction a as [|x a IH]; cbn; [done|]. by rewrite Z.eqb_refl. Qed.

Lemma lex_eq a b : lex a b = 0 <-> a = b.
Proof.
  revert b. induction a as [|x a IH]; intros [|y b]; cbn; try done.
  destruct (Z.eqb_spec x y) as [->|]; [rewrite IH; naive_solver|].
  destruct (x <? y); naive_solver.
Qed.

Lemma lex_antisym a b : lex a b = - lex b a.
Proof.
  revert b. induction a as [|x a IH]; intros [|y b]; cbn; try done.
  destruct (Z.eqb_spec x y), (Z.eqb_spec y x), (Z.ltb_spec x y), (Z.ltb_spec y x);
    try lia; apply IH.
Qed.

Lemma lex_trans a b c : lex a b < 0 -> lex b c <= 0 -> lex a c < 0.
Proof.
  revert b c. induction a as [|x a IH]; intros [|y b] [|z c]; cbn; try lia.
  destruct (Z.eqb_spec x y), (Z.eqb_spec y z), (Z.eqb_spec x z), (Z.ltb_spec x y),
    (Z.ltb_spec y z), (Z.ltb_spec x z); try lia; eauto.
Qed.

Lemma lex_app_same p a b : lex (p ++ a) (p ++ b) = lex a b.
Proof. induction p as [|x p IH]; cbn; [done|]. by rewrite Z.eqb_refl. Qed.

Lemma list_memcmp_lex a b : length a = length b -> list_memcmp a b = lex a b.
Proof.
  revert b. induction a as [|x a IH]; intros [|y b]; cbn; try done.
  intros. destruct (x =? y); [apply IH; lia|done].
Qed.
