(* ===== verification/StringSlice.v ===== *)
(** String slices, [src/string_slice.hh]: the [size]-byte words that stand for
    the prefixes of strings.

    [T] is an unsigned type of [size] bytes ([uint64_t] for the ikeys of
    trees).  [unaligned] is the configuration macro [HAVE_UNALIGNED_ACCESS];
    the host is little endian ([WORDS_BIGENDIAN] is 0). *)
From S2P Require Import Prelude Compiler Memory.

Section string_slice.
Context (unaligned : bool) (size : Z).

(** The word left in [union_type u(0)] by copying [min(len, size)] bytes of
    [s] to [u.s]. *)
Definition make_copy (m : mem) (s len : Z) : Z :=
  read_in_host_order (Z.to_nat size)
    (load m s (Z.min len size) ++ repeat 0 (Z.to_nat (size - Z.min len size))).

Definition make (m : mem) (s len : Z) : Z :=
  if len <=? 0 then 0
  else if unaligned && (size <=? len) then load_word m (Z.to_nat size) s
  else make_copy m s len.

Definition make_comparable (m : mem) (s len : Z) : Z :=
  net_to_host_order (Z.to_nat size) (make m s len).

Definition make_sloppy (m : mem) (s len : Z) : Z :=
  if len <=? 0 then 0
  else if unaligned then
    if size <=? len then load_word m (Z.to_nat size) s
    else Z.shiftr (load_word m (Z.to_nat size) (s - (size - len))) (8 * (size - len))
  else make_copy m s len.

Definition make_comparable_sloppy (m : mem) (s len : Z) : Z :=
  net_to_host_order (Z.to_nat size) (make_sloppy m s len).

(** [while (l > 0 && u.s[l - 1] == 0) --l]. *)
Fixpoint trim_nulls (u : list Z) (l : nat) : nat :=
  match l with
  | O => O
  | S l' => if (match u !! l' with Some b => b | None => 0 end) =? 0 then trim_nulls u l' else l
  end.

(** [unparse_comparable(buf, buflen, value)]: the memory it leaves and the
    length it returns. *)
Definition unparse_comparable (m : mem) (buf buflen value : Z) : mem * Z :=
  let u := write_in_host_order (Z.to_nat size) (host_to_net_order (Z.to_nat size) value) in
  let l := Z.of_nat (trim_nulls u (Z.to_nat size)) in
  let l := Z.min l buflen in
  (store m buf (take (Z.to_nat l) u), l).

(** [unparse_comparable(buf, buflen, value, len)]. *)
Definition unparse_comparable_len (m : mem) (buf buflen value len : Z) : mem * Z :=
  let u := write_in_host_order (Z.to_nat size) (host_to_net_order (Z.to_nat size) value) in
  let l := Z.min (Z.min len size) buflen in
  (store m buf (take (Z.to_nat l) u), l).

Definition equals_sloppy (m : mem) (a b len : Z) : bool :=
  if unaligned && (len <=? size) then
    let delta := Z.lxor (load_word m (Z.to_nat size) a) (load_word m (Z.to_nat size) b) in
    if len <=? 0 then true
    else ushl (8 * size) delta (8 * (size - len)) =? 0
  else memcmp m a b len =? 0.

End string_slice.

(** * Zero-padded prefixes

    [pad n l] is what a slice of [n] bytes holds of the string [l]. *)
Fixpoint pad (n : nat) (l : list Z) : list Z :=
  match n, l with
  | O, _ => []
  | S n, [] => 0 :: pad n []
  | S n, b :: l => b :: pad n l
  end.

Lemma length_pad n l : length (pad n l) = n.
Proof. revert l. induction n as [|n IH]; intros [|b l]; cbn; by rewrite ?IH. Qed.

Lemma pad_nil n : pad n [] = repeat 0 n.
Proof. induction n as [|n IH]; cbn; [done|]. by rewrite IH. Qed.

Lemma bytes_pad n l : bytes l -> bytes (pad n l).
Proof.
  revert l. induction n as [|n IH]; intros l H; [constructor|].
  destruct H as [|b l Hb Hl]; cbn; constructor; [done|apply IH; constructor|done|by apply IH].
Qed.

Lemma pad_app_zeros n l : pad n l = take n l ++ repeat 0 (n - length l).
Proof.
  revert l. induction n as [|n IH]; intros [|b l]; cbn [pad take app length]; [done..| |].
  - f_equal. rewrite IH, take_nil. cbn [length app]. by rewrite Nat.sub_0_r.
  - by rewrite IH.
Qed.

Lemma pad_ge n l : (n <= length l)%nat -> pad n l = take n l.
Proof. intros. rewrite pad_app_zeros. replace (n - length l)%nat with O by lia. apply app_nil_r. Qed.

Lemma pad_take n l : pad n (take n l) = pad n l.
Proof. revert l. induction n as [|n IH]; intros [|b l]; cbn; by rewrite ?IH. Qed.

(** Padding keeps the order of strings that it can tell apart. *)
Lemma lex_pad n a b :
  bytes a -> bytes b -> lex (pad n a) (pad n b) <> 0 -> lex a b = lex (pad n a) (pad n b).
Proof.
  revert a b. induction n as [|n IH]; intros [|x a] [|y b] Ha Hb; cbn [pad lex]; try done.
  - by rewrite lex_refl.
  - inversion Hb; subst. unfold in_u in *.
    destruct (Z.eqb_spec 0 y) as [<-|]; [|by destruct (Z.ltb_spec 0 y); [|lia]].
    intros H. assert (lex [] b = lex (pad n []) (pad n b)) as Hr by (apply IH; done || constructor).
    rewrite <- Hr in *. by destruct b.
  - inversion Ha; subst. unfold in_u in *.
    destruct (Z.eqb_spec x 0) as [->|]; [|by destruct (Z.ltb_spec x 0); [lia|]].
    intros H. assert (lex a [] = lex (pad n a) (pad n [])) as Hr by (apply IH; done || constructor).
    rewrite <- Hr in *. by destruct a.
  - inversion Ha; inversion Hb; subst. destruct (x =? y); [|done]. by apply IH.
Qed.

(** The value of a big-endian word orders as its bytes. *)
Lemma compare_be_value a b :
  bytes a -> bytes b -> length a = length b ->
  compare (be_value a) (be_value b) = lex a b.
Proof.
  intros Ha. revert b. induction Ha as [|x a Hx Ha IH]; intros [|y b] Hb Hl; try done.
  inversion Hb as [|? ? Hy Hb']; subst. cbn in Hl. injection Hl as Hl.
  rewrite !be_value_cons by done.
  pose proof (be_value_range a Ha). pose proof (be_value_range b Hb').
  assert (zlength a = zlength b) as Hz by (unfold zlength; by rewrite Hl).
  rewrite Hz in *. set (p := 256 ^ zlength b) in *. cbn [lex].
  specialize (IH b Hb' Hl). unfold compare in *.
  destruct (Z.eqb_spec x y) as [->|Hne].
  - rewrite <- IH. destruct (Z.eqb_spec (be_value a) (be_value b)) as [He|He].
    + by rewrite He, Z.eqb_refl.
    + destruct (Z.eqb_spec (y * p + be_value a) (y * p + be_value b)); [lia|].
      destruct (Z.ltb_spec (y * p + be_value a) (y * p + be_value b)),
        (Z.ltb_spec (be_value a) (be_value b)); done || lia.
  - destruct (Z.eqb_spec (x * p + be_value a) (y * p + be_value b)); [nia|].
    destruct (Z.ltb_spec x y), (Z.ltb_spec (x * p + be_value a) (y * p + be_value b));
      done || nia.
Qed.

Lemma be_value_inj a b :
  bytes a -> bytes b -> length a = length b -> be_value a = be_value b -> a = b.
Proof.
  intros Ha Hb Hl He. apply lex_eq. rewrite <- compare_be_value by done.
  rewrite He. unfold compare. by rewrite Z.eqb_refl.
Qed.

Section slices.
Context (unaligned : bool) (size : Z) (Hsize : 0 < size).

Lemma make_copy_pad m s len :
  0 <= len -> make_copy size m s len = le_value (pad (Z.to_nat size) (load m s len)).
Proof using Hsize.
  intros. unfold make_copy, read_in_host_order. f_equal.
  rewrite take_ge by (rewrite length_app, length_load, repeat_length; lia).
  rewrite pad_app_zeros, length_load. f_equal; [|f_equal; lia].
  destruct (Z.le_gt_cases len size).
  - rewrite Z.min_l, take_ge by (rewrite ?length_load; lia). done.
  - rewrite Z.min_r, take_load by lia. done.
Qed.

Lemma load_word_pad m s len :
  size <= len -> load_word m (Z.to_nat size) s = le_value (pad (Z.to_nat size) (load m s len)).
Proof using Hsize.
  intros. rewrite load_word_value, pad_ge by (rewrite length_load; lia).
  rewrite take_load, Z2Nat.id by lia. done.
Qed.

(** [make] is the little-endian word of the padded prefix, and the sloppy
    version, which reads bytes around the string, returns the same. *)
Lemma make_pad m s len :
  make unaligned size m s len = le_value (pad (Z.to_nat size) (load m s len)).
Proof using Hsize.
  unfold make. destruct (Z.leb_spec len 0).
  - rewrite load_0, pad_nil by done.
    induction (Z.to_nat size) as [|n IH]; [done|]. cbn [repeat le_value]. by rewrite <- IH.
  - destruct unaligned; cbn [andb]; [|apply make_copy_pad; lia].
    destruct (Z.leb_spec size len); [by apply load_word_pad|apply make_copy_pad; lia].
Qed.

Lemma le_value_shiftr a b :
  bytes a -> bytes b -> Z.shiftr (le_value (a ++ b)) (8 * zlength a) = le_value b.
Proof using Type.
  intros Ha Hb. rewrite le_value_app by done. pose proof (le_value_range a Ha).
  pose proof (zlength_nonneg a).
  rewrite Z.shiftr_div_pow2 by lia.
  replace (2 ^ (8 * zlength a)) with (256 ^ zlength a)
    by (change 256 with (2 ^ 8); by rewrite <- Z.pow_mul_r by lia).
  symmetry. apply Z.div_unique with (le_value a); lia.
Qed.

Lemma le_value_zeros l n : le_value (l ++ repeat 0 n) = le_value l.
Proof using Type.
  induction l as [|b l IH]; cbn [app le_value]; [|by rewrite IH].
  induction n as [|n IH]; [done|]. cbn [repeat le_value]. by rewrite IH.
Qed.

Lemma make_sloppy_make m s len :
  mem_bytes m -> make_sloppy unaligned size m s len = make unaligned size m s len.
Proof using Hsize.
  intros Hm. rewrite make_pad. unfold make_sloppy.
  destruct (Z.leb_spec len 0); [by rewrite <- make_pad; unfold make; destruct (Z.leb_spec len 0); [|lia]|].
  destruct unaligned; [|apply make_copy_pad; lia].
  destruct (Z.leb_spec size len); [by apply load_word_pad|].
  rewrite load_word_value, Z2Nat.id by lia.
  replace size with ((size - len) + len) at 2 by lia.
  rewrite load_app by lia. replace (s - (size - len) + (size - len)) with s by lia.
  replace (8 * (size - len)) with (8 * zlength (load m (s - (size - len)) (size - len)))
    by (rewrite zlength_load; lia).
  rewrite le_value_shiftr by by apply load_bytes.
  by rewrite pad_app_zeros, take_ge, le_value_zeros by (rewrite length_load; lia).
Qed.

Lemma make_comparable_be m s len :
  mem_bytes m ->
  make_comparable unaligned size m s len = be_value (pad (Z.to_nat size) (load m s len)).
Proof using Hsize.
  intros Hm. unfold make_comparable, net_to_host_order. rewrite make_pad.
  set (l := pad _ _). rewrite <- (length_pad (Z.to_nat size) (load m s len)) at 1.
  apply bswap_le_value, bytes_pad, load_bytes, Hm.
Qed.

Lemma make_comparable_range m s len :
  mem_bytes m -> 0 <= make_comparable unaligned size m s len < 256 ^ size.
Proof using Hsize.
  intros Hm. rewrite make_comparable_be by done.
  pose proof (be_value_range _ (bytes_pad (Z.to_nat size) _ (load_bytes m s len Hm))) as H.
  unfold zlength in H. rewrite length_pad, Z2Nat.id in H by lia. done.
Qed.

Lemma make_comparable_sloppy_make m s len :
  mem_bytes m ->
  make_comparable_sloppy unaligned size m s len = make_comparable unaligned size m s len.
Proof using Hsize.
  intros. unfold make_comparable_sloppy, make_comparable. by rewrite make_sloppy_make.
Qed.

(** Slices compare as the strings do, when they differ. *)
Lemma make_comparable_lex m1 s1 l1 m2 s2 l2 :
  mem_bytes m1 -> mem_bytes m2 ->
  compare (make_comparable unaligned size m1 s1 l1) (make_comparable unaligned size m2 s2 l2) =
  lex (pad (Z.to_nat size) (load m1 s1 l1)) (pad (Z.to_nat size) (load m2 s2 l2)).
Proof using Hsize.
  intros H1 H2. rewrite !make_comparable_be by done.
  apply compare_be_value; [by apply bytes_pad, load_bytes..|by rewrite !length_pad].
Qed.

Lemma host_to_net_bytes x :
  write_in_host_order (Z.to_nat size) (host_to_net_order (Z.to_nat size) x) =
  write_in_net_order (Z.to_nat size) x.
Proof using Type. done. Qed.

Lemma write_net_be_value l :
  bytes l -> length l = Z.to_nat size ->
  write_in_net_order (Z.to_nat size) (be_value l) = l.
Proof using Type.
  intros Hl Hn. rewrite write_in_net_order_be. unfold be_value.
  rewrite <- Hn, <- length_reverse, le_bytes_value by by apply bytes_reverse.
  apply reverse_involutive.
Qed.

Lemma le_value_inj a b :
  bytes a -> bytes b -> length a = length b -> le_value a = le_value b -> a = b.
Proof using Type.
  intros Ha Hb Hl He. rewrite <- (le_bytes_value a), <- (le_bytes_value b) by done.
  by rewrite Hl, He.
Qed.

Lemma equals_sloppy_word m a b len :
  mem_bytes m -> 0 < len <= size ->
  (ushl (8 * size) (Z.lxor (load_word m (Z.to_nat size) a) (load_word m (Z.to_nat size) b))
    (8 * (size - len)) =? 0) = true <-> load m a len = load m b len.
Proof using Hsize.
  intros Hm Hl. rewrite Z.eqb_eq.
  assert (forall p, load_word m (Z.to_nat size) p mod 2 ^ (8 * len) = le_value (load m p len)) as Hw.
  { intros p. rewrite load_word_value, Z2Nat.id by lia.
    replace size with (len + (size - len)) by lia. rewrite load_app by lia.
    rewrite le_value_app by by apply load_bytes. rewrite zlength_load by lia.
    pose proof (le_value_range (load m p len) (load_bytes _ _ _ Hm)) as Hr.
    rewrite zlength_load in Hr by lia.
    rewrite Z.pow_mul_r by lia. change (2 ^ 8) with 256.
    rewrite (Z.mul_comm (256 ^ len)), Z.mod_add, Z.mod_small by lia. done. }
  set (A := load_word m (Z.to_nat size) a) in *. set (B := load_word m (Z.to_nat size) b) in *.
  transitivity (A mod 2 ^ (8 * len) = B mod 2 ^ (8 * len)).
  - rewrite <- !Z.land_ones by lia. split; intros H.
    + apply Z.bits_inj'. intros n Hn.
      assert (Z.testbit (ushl (8 * size) (Z.lxor A B) (8 * (size - len))) (n + 8 * (size - len)) = false)
        as Hb by (by rewrite H, Z.bits_0).
      revert Hb. zbits_rw. replace (n + 8 * (size - len) - 8 * (size - len)) with n by lia.
      destruct (Z.ltb_spec (n + 8 * (size - len)) (8 * size)), (Z.ltb_spec n (8 * len));
        try lia; cbn; rewrite ?andb_true_r, ?andb_false_r; try done.
      by destruct (Z.testbit A n), (Z.testbit B n).
    + apply Z.bits_inj'. intros n Hn. zbits_rw.
      destruct (Z.ltb_spec n (8 * size)); [cbn|done].
      destruct (Z.lt_ge_cases n (8 * (size - len)));
        [by rewrite !(Z.testbit_neg_r _ (n - _)) by lia|].
      apply (f_equal (fun x => Z.testbit x (n - 8 * (size - len)))) in H. revert H. zbits_rw.
      destruct (Z.ltb_spec (n - 8 * (size - len)) (8 * len)); [|lia].
      rewrite !andb_true_r. intros ->. apply xorb_nilpotent.
  - subst A B. rewrite !Hw. split; [|by intros ->]. apply le_value_inj; try by apply load_bytes.
    by rewrite !length_load.
Qed.
End slices.

(** C31: The order that [make_comparable] promises: unequal slices order as the
    strings, of any lengths and in any memory; equal slices mean equal
    prefixes, up to the zero bytes a short string is padded with. *)
Theorem make_comparable_order unaligned size m1 s1 l1 m2 s2 l2 :
  0 < size -> mem_bytes m1 -> mem_bytes m2 ->
  let c := compare (make_comparable unaligned size m1 s1 l1)
    (make_comparable unaligned size m2 s2 l2) in
  (c <> 0 -> lex (load m1 s1 l1) (load m2 s2 l2) = c) /\
  (c = 0 <-> pad (Z.to_nat size) (load m1 s1 l1) = pad (Z.to_nat size) (load m2 s2 l2)).
Proof.
  intros Hs H1 H2. cbv zeta. rewrite make_comparable_lex by done. split.
  - intros Hc. apply lex_pad; [by apply load_bytes..|done].
  - apply lex_eq.
Qed.

(** "ab" = [97;98] at 100 and "abc" at 200. *)
Lemma make_comparable_order_witness :
  let m := store (mem_of 100 [97; 98]) 200 [97; 98; 99] in
  compare (make_comparable true 8 m 100 2) (make_comparable true 8 m 200 3) = -1 /\
  lex (load m 100 2) (load m 200 3) = -1.
Proof.
  cbv zeta. split; [by vm_compute|].
  set (m := store (mem_of 100 [97; 98]) 200 [97; 98; 99]).
  assert (mem_bytes m) as Hm
    by (repeat apply store_bytes; [intros ?; unfold in_u; lia|by repeat constructor..]).
  by apply (make_comparable_order true 8 m 100 2 m 200 3 ltac:(lia) Hm Hm).
Defined.

(** The sloppy variants read bytes outside the string but return what the
    exact ones do; [equals_sloppy] is [memcmp(a, b, len) == 0]. *)
Theorem sloppy_exact unaligned size m :
  0 < size -> mem_bytes m ->
  (forall s len, make_comparable_sloppy unaligned size m s len =
    make_comparable unaligned size m s len) /\
  (forall a b len, equals_sloppy unaligned size m a b len = (memcmp m a b len =? 0)).
Proof.
  intros Hs Hm. split; [intros; by apply make_comparable_sloppy_make|].
  intros a b len. unfold equals_sloppy. destruct (unaligned && (len <=? size)) eqn:E; [|done].
  apply andb_prop in E as [_ Hle%Z.leb_le].
  destruct (Z.leb_spec len 0); [unfold memcmp; by rewrite !load_0 by lia|].
  apply eq_bool_prop_intro. rewrite !Is_true_true, equals_sloppy_word by (done || lia).
  unfold memcmp. rewrite Z.eqb_eq, list_memcmp_lex by by rewrite !length_load.
  by rewrite lex_eq.
Qed.

Lemma sloppy_exact_witness :
  equals_sloppy true 8 (mem_of 100 [97; 98; 99; 97; 98; 100]) 100 103 3 = false.
Proof.
  rewrite (proj2 (sloppy_exact true 8 _ ltac:(lia) (mem_of_bytes 100 [97; 98; 99; 97; 98; 100]
    ltac:(by repeat constructor)))).
  by vm_compute.
Defined.

Lemma take_write_net_pad size l k :
  bytes l -> (k <= size)%nat -> (k <= length l)%nat ->
  take k (write_in_net_order size (be_value (pad size l))) = take k l.
Proof.
  intros Hl Hk Hkl. rewrite <- (Nat2Z.id size) at 1.
  rewrite write_net_be_value by (by apply bytes_pad || (rewrite length_pad; lia)).
  rewrite pad_app_zeros, take_app_le by (rewrite length_take; lia).
  rewrite take_take. f_equal. lia.
Qed.

Lemma trim_nulls_spec u n :
  (n <= length u)%nat ->
  let k := trim_nulls u n in
  (k <= n)%nat /\ take n u = take k u ++ repeat 0 (n - k) /\ last (take k u) <> Some 0.
Proof.
  cbv zeta. induction n as [|n IH]; intros Hn; cbn [trim_nulls].
  { by rewrite take_0. }
  destruct IH as (IH1 & IH2 & IH3); [lia|].
  destruct (lookup_lt_is_Some_2 u n) as [x Hx]; [lia|]. rewrite Hx.
  destruct (Z.eqb_spec x 0) as [->|].
  - split_and!; [lia| |done]. rewrite (take_S_r u n 0 Hx), IH2.
    replace (S n - trim_nulls u n)%nat with (n - trim_nulls u n + 1)%nat by lia.
    by rewrite repeat_app, app_assoc.
  - rewrite Nat.sub_diag, app_nil_r. split_and!; [done..|].
    rewrite (take_S_r u n x Hx), last_snoc. congruence.
Qed.

(** Round trips of the comparable slice of a string of [len] bytes at [s]:
    [unparse_comparable(buf, buflen, v, len)] puts the first
    [min(len, size, buflen)] bytes of the string at [buf]; the form without
    [len] puts the prefix without its trailing null bytes, cut to [buflen].
    Nothing else is written. *)
Theorem unparse_comparable_roundtrip unaligned size m s len m' buf buflen :
  0 < size -> mem_bytes m -> 0 <= len -> 0 <= buflen ->
  let v := make_comparable unaligned size m s len in
  let l := Z.min (Z.min len size) buflen in
  unparse_comparable_len size m' buf buflen v len = (store m' buf (load m s l), l) /\
  exists b n, pad (Z.to_nat size) (load m s len) = b ++ repeat 0 n /\ last b <> Some 0 /\
    unparse_comparable size m' buf buflen v =
      (store m' buf (take (Z.to_nat buflen) b), Z.min (zlength b) buflen).
Proof.
  intros Hs Hm Hl Hb. cbv zeta. rewrite make_comparable_be by done. split.
  - unfold unparse_comparable_len. rewrite host_to_net_bytes, take_write_net_pad by
      (rewrite ?length_load; apply load_bytes || lia; done).
    by rewrite take_load by lia.
  - unfold unparse_comparable. rewrite host_to_net_bytes.
    set (u := pad _ _). assert (length u = Z.to_nat size) as Hu by apply length_pad.
    assert (bytes u) as Hub by by apply bytes_pad, load_bytes.
    rewrite write_net_be_value by done.
    destruct (trim_nulls_spec u (Z.to_nat size)) as (H1 & H2 & H3); [lia|].
    rewrite take_ge in H2 by lia.
    eexists _, _. split; [exact H2|]. split; [done|].
    assert (zlength (take (trim_nulls u (Z.to_nat size)) u) = Z.of_nat (trim_nulls u (Z.to_nat size)))
      as -> by (unfold zlength; rewrite length_take_le; lia).
    rewrite take_take. do 3 f_equal. lia.
Qed.

Lemma unparse_comparable_roundtrip_witness :
  let m := mem_of 100 [97; 0; 98; 0] in
  unparse_comparable_len 8 m 300 20 (make_comparable true 8 m 100 4) 4 =
    (store m 300 [97; 0; 98; 0], 4).
Proof.
  cbv zeta. set (m := mem_of 100 [97; 0; 98; 0]).
  destruct (unparse_comparable_roundtrip true 8 m 100 4 m 300 20) as [-> _];
    [lia|by apply mem_of_bytes; repeat constructor|lia|lia|done].
Defined.
