(* ===== verification/Key.v ===== *)
(** Masstree keys, [src/masstree_key.hh], and the pointer-length strings
    [Str] of [src/str.hh] they are made from.

    A tree's ikeys are [uint64_t]: [ikey_size] is 8.  A key is its four
    fields; the bytes its pointers address are in the memory that the
    operations take.  The [int] lengths do not overflow for strings shorter
    than 2^31 - 1, and are integers here.

    Two keys compare by one slice and at most one bit of length ([compare]);
    [layered] compares as a descent through the layers of a tree does,
    shifting both keys whenever the slices tie, and equals the lexicographic
    order of the strings. *)
From S2P Require Import Prelude Compiler Memory StringSlice.

(** * [Str] *)
Record Str : Type := mkStr { str_s : Z; str_len : Z }.
Definition Str_range (first last : Z) : Str := mkStr first (last - first).
Definition str_bytes (m : mem) (x : Str) : list Z := load m (str_s x) (str_len x).

(** * [key] *)
Definition ikey_size : Z := 8.
Definition ikey_bits : Z := 8 * ikey_size.

Record key : Type := mkKey { ikey0_ : Z; len_ : Z; s_ : Z; first_ : Z }.

Module Key.
Section key.
Context (unaligned : bool).

Definition key_str (m : mem) (s : Str) : key :=
  mkKey (make_comparable unaligned ikey_size m (str_s s) (str_len s))
    (str_len s) (str_s s) (str_s s).
Definition key_data (m : mem) (s len : Z) : key :=
  mkKey (make_comparable unaligned ikey_size m s len) len s s.
Definition key_ikey (ikey : Z) : key :=
  mkKey ikey (if ikey =? 0 then 0 else ikey_size - ctz ikey / 8) 0 0.
Definition key_ikey_len (ikey len : Z) : key := mkKey ikey (Z.min len ikey_size) 0 0.
Definition key_ikey_suffix (ikey : Z) (suf : Str) : key :=
  mkKey ikey (ikey_size + str_len suf) (str_s suf - ikey_size) (str_s suf - ikey_size).

Definition empty (k : key) : bool := (ikey0_ k =? 0) && (len_ k =? 0).
Definition ikey (k : key) : Z := ikey0_ k.
Definition length (k : key) : Z := len_ k.
Definition has_suffix (k : key) : bool := ikey_size <? len_ k.
Definition suffix (k : key) : Str := mkStr (s_ k + ikey_size) (len_ k - ikey_size).
Definition suffix_length (k : key) : Z := len_ k - ikey_size.

Definition shift_by (m : mem) (k : key) (delta : Z) : key :=
  let s := s_ k + delta in
  let len := len_ k - delta in
  mkKey (make_comparable_sloppy unaligned ikey_size m s len) len s (first_ k).
Definition shift (m : mem) (k : key) : key := shift_by m k ikey_size.
Definition is_shifted (k : key) : bool := negb (first_ k =? s_ k).
Definition unshift_all (m : mem) (k : key) : key :=
  if negb (s_ k =? first_ k) then
    let len := len_ k + (s_ k - first_ k) in
    mkKey (make_comparable unaligned ikey_size m (first_ k) len) len (first_ k) (first_ k)
  else k.

Definition compare_ikey (k : key) (ikey keylenx : Z) : Z :=
  let cmp := compare (ikey0_ k) ikey in
  if cmp =? 0 then
    let al := len_ k in
    if ikey_size <? al then b2z (keylenx <=? ikey_size) else al - keylenx
  else cmp.
Definition compare_key (k x : key) : Z := compare_ikey k (ikey0_ x) (len_ x).

(** [unparse(data, datalen)]: the memory it leaves and the count it returns. *)
Definition unparse (m : mem) (k : key) (data datalen : Z) : mem * Z :=
  let cplen := Z.min (len_ k) datalen in
  let m := fst (unparse_comparable_len ikey_size m data cplen (ikey0_ k) ikey_size) in
  let m := if ikey_size <? cplen
    then memcpy m (data + ikey_size) (s_ k + ikey_size) (cplen - ikey_size) else m in
  (m, cplen).

Definition prefix_string (k : key) : Str := Str_range (first_ k) (s_ k).
Definition prefix_length (k : key) : Z := s_ k - first_ k.
Definition full_string (k : key) : Str := Str_range (first_ k) (s_ k + len_ k).

(** [increment]: the key and whether the ikey wrapped. *)
Definition increment (k : key) : key * bool :=
  if has_suffix k then
    let ikey := uwrap ikey_bits (ikey0_ k + 1) in
    (mkKey ikey 1 (s_ k) (first_ k), ikey =? 0)
  else (mkKey (ikey0_ k) (len_ k + 1) (s_ k) (first_ k), false).

Definition assign_store_ikey (m : mem) (k : key) (ikey : Z) : mem * key :=
  (store_word m (Z.to_nat ikey_size) (s_ k) (host_to_net_order (Z.to_nat ikey_size) ikey),
   mkKey ikey (len_ k) (s_ k) (first_ k)).
Definition assign_store_suffix (m : mem) (k : key) (s : Str) : mem * Z :=
  (memcpy m (s_ k + ikey_size) (str_s s) (str_len s), ikey_size + str_len s).
Definition assign_store_length (k : key) (len : Z) : key :=
  mkKey (ikey0_ k) len (s_ k) (first_ k).
Definition unshift (m : mem) (k : key) : key :=
  let s := s_ k - ikey_size in
  mkKey (make_comparable_sloppy unaligned ikey_size m s ikey_size) (ikey_size + 1) s (first_ k).
Definition shift_clear (k : key) : key := mkKey 0 0 (s_ k + ikey_size) (first_ k).
Definition shift_clear_reverse (k : key) : key :=
  mkKey (unot ikey_bits 0) (ikey_size + 1) (s_ k + ikey_size) (first_ k).

End key.
End Key.

(** * Keys that stand for a string in memory *)
(** The string a key stands for in its layer. *)
Definition key_bytes (m : mem) (k : key) : list Z := load m (s_ k) (len_ k).
Definition key_wf (unaligned : bool) (m : mem) (k : key) : Prop :=
  0 <= len_ k /\ ikey0_ k = make_comparable unaligned ikey_size m (s_ k) (len_ k).

(** The pairs of slice and length that keys and tree entries have: only the
    zero slice has an empty string. *)
Definition pair_ok (ikey len : Z) : Prop :=
  in_u ikey_bits ikey /\ 0 <= len /\ (len = 0 -> ikey = 0).

(** The comparison a descent makes, layer by layer; [n] bounds the layers. *)
Fixpoint layered (unaligned : bool) (n : nat) (m1 m2 : mem) (a b : key) : Z :=
  let c := Key.compare_key a b in
  match n with
  | S n => if (c =? 0) && Key.has_suffix a
      then layered unaligned n m1 m2 (Key.shift unaligned m1 a) (Key.shift unaligned m2 b) else c
  | O => c
  end.

Section properties.
Context (unaligned : bool).

Lemma key_data_wf m s len : 0 <= len -> key_wf unaligned m (Key.key_data unaligned m s len).
Proof. done. Qed.

Lemma key_wf_range m k : mem_bytes m -> key_wf unaligned m k -> in_u ikey_bits (ikey0_ k).
Proof.
  intros Hm [_ ->]. apply (make_comparable_range unaligned 8 ltac:(lia) m _ _ Hm).
Qed.

Lemma shift_by_wf m k d :
  mem_bytes m -> d <= len_ k -> key_wf unaligned m (Key.shift_by unaligned m k d).
Proof.
  intros Hm Hd. unfold key_wf, Key.shift_by. cbn. split; [lia|].
  by apply make_comparable_sloppy_make.
Qed.

Lemma shift_bytes m k :
  ikey_size <= len_ k ->
  key_bytes m k = load m (s_ k) ikey_size ++ key_bytes m (Key.shift unaligned m k).
Proof.
  intros. unfold key_bytes, Key.shift, Key.shift_by. cbn.
  rewrite <- load_app by (unfold ikey_size in *; lia). f_equal. lia.
Qed.

(** What equal slices say of two strings. *)
Lemma pad_eq_prefix n a b :
  (length a <= n)%nat -> (length a <= length b)%nat ->
  pad n a = pad n b -> exists c, b = a ++ c /\ ((length b <= n)%nat -> c = repeat 0 (length c)).
Proof.
  revert n b. induction a as [|x a IH]; intros n b Hn Hb Hp.
  - exists b. split; [done|]. intros Hbn. revert b Hb Hp Hbn.
    induction n as [|n IH]; intros [|y b] Hb Hp Hbn; cbn in *; try done; try lia.
    injection Hp as <- Hp. f_equal. apply IH; done || lia.
  - destruct n as [|n]; [cbn in Hn; lia|]. destruct b as [|y b]; [cbn in Hb; lia|].
    cbn in *. injection Hp as <- Hp.
    destruct (IH n b) as (c & -> & Hc); [lia|lia|done|]. exists c. split; [done|].
    intros. apply Hc. lia.
Qed.

Lemma lex_prefix a c : lex a (a ++ c) = match c with [] => 0 | _ => -1 end.
Proof.
  rewrite <- (app_nil_r a) at 1. rewrite lex_app_same. by destruct c.
Qed.

(** [compare] of two keys made from strings, by the strings they stand for. *)
Lemma pad_eq_lex n a b :
  bytes a -> bytes b -> pad n a = pad n b -> (length a <= n)%nat ->
  lex a b = Z.sgn (zlength a - zlength b).
Proof.
  intros Ha Hb Hp Hn. unfold zlength.
  destruct (le_lt_dec (length a) (length b)) as [Hl|Hl].
  - destruct (pad_eq_prefix n a b) as (c & -> & _); [done..|].
    rewrite lex_prefix, length_app. destruct c; cbn [length]; lia.
  - destruct (pad_eq_prefix n b a) as (c & -> & _); [lia..|done|].
    rewrite lex_antisym, lex_prefix, length_app. rewrite length_app in Hl.
    destruct c; cbn [length] in *; lia.
Qed.

Lemma sgn_lex a b : Z.sgn (lex a b) = lex a b.
Proof.
  revert b. induction a as [|x a IH]; intros [|y b]; cbn; try done.
  destruct (x =? y); [apply IH|]. by destruct (x <? y).
Qed.

Lemma compare_key_spec m1 m2 a b :
  mem_bytes m1 -> mem_bytes m2 -> key_wf unaligned m1 a -> key_wf unaligned m2 b ->
  let c := Key.compare_key a b in
  (c <> 0 -> lex (key_bytes m1 a) (key_bytes m2 b) = Z.sgn c) /\
  (c = 0 ->
    (len_ a <= ikey_size /\ key_bytes m1 a = key_bytes m2 b) \/
    (ikey_size < len_ a /\ ikey_size < len_ b /\
      load m1 (s_ a) ikey_size = load m2 (s_ b) ikey_size)).
Proof.
  intros H1 H2 [Hla Ha] [Hlb Hb]. cbv zeta. unfold Key.compare_key, Key.compare_ikey.
  rewrite Ha, Hb. rewrite (make_comparable_lex unaligned ikey_size) by (done || unfold ikey_size; lia).
  change (load m1 (s_ a) (len_ a)) with (key_bytes m1 a).
  change (load m2 (s_ b) (len_ b)) with (key_bytes m2 b).
  assert (bytes (key_bytes m1 a)) as Hba by by apply load_bytes.
  assert (bytes (key_bytes m2 b)) as Hbb by by apply load_bytes.
  assert (zlength (key_bytes m1 a) = len_ a) as Hza by by apply zlength_load.
  assert (zlength (key_bytes m2 b) = len_ b) as Hzb by by apply zlength_load.
  change (Z.to_nat ikey_size) with 8%nat.
  destruct (Z.eqb_spec (lex (pad 8 (key_bytes m1 a)) (pad 8 (key_bytes m2 b))) 0) as [Hc|Hc].
  2: { split; [|done]. intros _. rewrite (lex_pad 8) by done. by rewrite sgn_lex. }
  apply lex_eq in Hc. unfold zlength in Hza, Hzb.
  destruct (Z.ltb_spec ikey_size (len_ a)) as [Hs|Hs]; unfold ikey_size in *.
  - destruct (Z.leb_spec (len_ b) 8) as [Hle|Hle]; cbn [b2z]; split; intros Hr; try done.
    + rewrite lex_antisym, (pad_eq_lex 8) by (done || lia). unfold zlength. lia.
    + right. split_and!; [done..|].
      rewrite !pad_ge in Hc by lia.
      unfold key_bytes in Hc. by rewrite !(take_load _ _ _ 8) in Hc by lia.
  - rewrite (pad_eq_lex 8) by (done || lia). unfold zlength.
    split; intros Hr; [f_equal; lia|left]. split; [done|].
    apply lex_eq. rewrite (pad_eq_lex 8) by (done || lia). unfold zlength. lia.
Qed.

Lemma layered_spec n m1 m2 a b :
  mem_bytes m1 -> mem_bytes m2 -> key_wf unaligned m1 a -> key_wf unaligned m2 b ->
  len_ a <= 8 * Z.of_nat n ->
  Z.sgn (layered unaligned n m1 m2 a b) = lex (key_bytes m1 a) (key_bytes m2 b).
Proof.
  revert a b. induction n as [|n IH]; intros a b H1 H2 Ha Hb Hn; cbn [layered];
    destruct (compare_key_spec m1 m2 a b) as [Hne He]; try done;
    set (c := Key.compare_key a b) in *.
  - destruct (Z.eq_dec c 0) as [Hc|Hc]; [|by rewrite Hne].
    rewrite Hc. destruct (He Hc) as [[_ ->]|[Hl _]]; [by rewrite lex_refl|].
    unfold ikey_size in Hl. lia.
  - destruct (Z.eqb_spec c 0) as [Hc|Hc]; cbn [andb]; [|by rewrite Hne].
    unfold Key.has_suffix. destruct (He Hc) as [[Hl ->]|(Hl & Hl' & Hp)].
    + destruct (Z.ltb_spec ikey_size (len_ a)); [lia|]. by rewrite Hc, lex_refl.
    + destruct (Z.ltb_spec ikey_size (len_ a)); [|lia].
      rewrite IH; try done; [|apply shift_by_wf; done || lia..|].
      * rewrite (shift_bytes m1 a), (shift_bytes m2 b) by lia. by rewrite Hp, lex_app_same.
      * unfold Key.shift, Key.shift_by, ikey_size in *. cbn. lia.
Qed.
End properties.

(** C23: Comparing two keys layer by layer, as a descent does, gives the
    lexicographic order of the strings: a search in a tree of layers is a
    search by string.  [n] layers are enough for strings of [8 * n] bytes. *)
Theorem layered_lex unaligned n m1 m2 s1 l1 s2 l2 :
  mem_bytes m1 -> mem_bytes m2 -> 0 <= l1 <= 8 * Z.of_nat n -> 0 <= l2 ->
  Z.sgn (layered unaligned n m1 m2 (Key.key_data unaligned m1 s1 l1)
    (Key.key_data unaligned m2 s2 l2)) = lex (load m1 s1 l1) (load m2 s2 l2).
Proof. intros. apply layered_spec; try apply key_data_wf; done || lia || cbn; lia. Qed.

(** "abcdefgh" followed by a null byte and "abcdefghij". *)
Lemma layered_lex_witness :
  let m := store (mem_of 100 [97;98;99;100;101;102;103;104;0]) 200
    [97;98;99;100;101;102;103;104;105;106] in
  Z.sgn (layered true 2 m m (Key.key_data true m 100 9) (Key.key_data true m 200 10)) = -1.
Proof.
  cbv zeta. set (m := store (mem_of 100 [97;98;99;100;101;102;103;104;0]) 200
    [97;98;99;100;101;102;103;104;105;106]).
  assert (mem_bytes m) as Hm
    by (repeat apply store_bytes; [intros ?; unfold in_u; lia|by repeat constructor..]).
  by rewrite (layered_lex true 2 m m 100 9 200 10 Hm Hm ltac:(lia) ltac:(lia)).
Defined.

Lemma iter_shift unaligned m k n :
  mem_bytes m -> key_wf unaligned m k -> 8 * Z.of_nat n <= len_ k ->
  let k' := Nat.iter n (Key.shift unaligned m) k in
  key_wf unaligned m k' /\ s_ k' = s_ k + 8 * Z.of_nat n /\
  len_ k' = len_ k - 8 * Z.of_nat n /\ first_ k' = first_ k.
Proof.
  intros Hm Hk. induction n as [|n IH]; intros Hn; cbv zeta.
  { change (Nat.iter 0 (Key.shift unaligned m) k) with k. split; [done|]. split_and!; [lia|lia|done]. }
  destruct IH as (IH1 & IH2 & IH3 & IH4); [lia|].
  change (Nat.iter (S n) ?f ?x) with (f (Nat.iter n f x)).
  set (k' := Nat.iter n (Key.shift unaligned m) k) in *.
  split; [apply shift_by_wf; [done|unfold ikey_size; lia]|]. split_and!;
    unfold Key.shift, Key.shift_by, ikey_size; cbn [s_ len_ first_]; [lia..|done].
Qed.

(** C29: [n] shifts split the string at [8 * n]: the key stands for the rest, the
    prefix is what was shifted away, [full_string] is still the whole string,
    and [unshift_all] gives back the original key. *)
Theorem shift_unshift_all unaligned m s len n :
  mem_bytes m -> 8 * Z.of_nat n <= len ->
  let k := Key.key_data unaligned m s len in
  let k' := Nat.iter n (Key.shift unaligned m) k in
  key_wf unaligned m k' /\
  key_bytes m k' = drop (8 * n) (load m s len) /\
  str_bytes m (Key.prefix_string k') = take (8 * n) (load m s len) /\
  str_bytes m (Key.full_string k') = load m s len /\
  Key.is_shifted k' = (0 <? n)%nat /\
  Key.unshift_all unaligned m k' = k.
Proof.
  intros Hm Hn. cbv zeta.
  destruct (iter_shift unaligned m (Key.key_data unaligned m s len) n) as (H1 & H2 & H3 & H4);
    [done|by apply key_data_wf; lia|done|]. cbn [s_ len_ first_ Key.key_data] in *.
  set (k' := Nat.iter n _ _) in *.
  unfold key_bytes, str_bytes, Key.prefix_string, Key.full_string, Str_range. cbn [str_s str_len].
  rewrite H2, H3, H4.
  replace (8 * n)%nat with (Z.to_nat (8 * Z.of_nat n)) by lia.
  rewrite drop_load, take_load by lia.
  split; [done|]. split_and!; [f_equal; lia..| |].
  - unfold Key.is_shifted. rewrite H2, H4.
    destruct (Z.eqb_spec s (s + 8 * Z.of_nat n)), (Nat.ltb_spec 0 n); done || lia.
  - unfold Key.unshift_all. rewrite H2, H3, H4.
    destruct (Z.eqb_spec (s + 8 * Z.of_nat n) s); cbn [negb].
    + assert (n = O) as Hn0 by lia. unfold k'. by rewrite Hn0.
    + replace (len - 8 * Z.of_nat n + (s + 8 * Z.of_nat n - s)) with len by lia. done.
Qed.

Lemma shift_unshift_all_witness :
  let m := mem_of 100 [97;98;99;100;101;102;103;104;105;106] in
  let k' := Nat.iter 1 (Key.shift true m) (Key.key_data true m 100 10) in
  key_bytes m k' = [105; 106] /\
  Key.unshift_all true m k' = Key.key_data true m 100 10.
Proof.
  cbv zeta. set (m := mem_of 100 [97;98;99;100;101;102;103;104;105;106]).
  destruct (shift_unshift_all true m 100 10 1) as (_ & H1 & _ & _ & _ & H2);
    [by apply mem_of_bytes; repeat constructor|lia|].
  split; [by rewrite H1|exact H2].
Defined.

(** The bytes a key's fields describe, whether or not its ikey is also in
    memory: the slice's bytes, then the suffix. *)
Definition key_content (m : mem) (k : key) : list Z :=
  take (Z.to_nat (len_ k)) (write_in_net_order 8 (ikey0_ k)) ++
  load m (s_ k + ikey_size) (len_ k - ikey_size).

Lemma key_content_bytes unaligned m k :
  mem_bytes m -> key_wf unaligned m k -> key_content m k = key_bytes m k.
Proof.
  intros Hm [Hl Hk]. unfold key_content, ikey_size in *. rewrite Hk, make_comparable_be by (done || lia).
  change (Z.to_nat 8) with 8%nat. unfold key_bytes.
  destruct (Z.le_gt_cases (len_ k) 8).
  - rewrite (load_0 _ _ (len_ k - 8)), app_nil_r by lia.
    rewrite take_write_net_pad by (rewrite ?length_load; try apply load_bytes; done || lia).
    by rewrite take_ge by (rewrite length_load; lia).
  - rewrite take_ge by (rewrite length_write_in_net_order; lia).
    rewrite <- (take_ge (write_in_net_order 8 _) 8) by (by rewrite length_write_in_net_order).
    rewrite take_write_net_pad by (rewrite ?length_load; try apply load_bytes; done || lia).
    rewrite (take_load _ _ _ 8), <- load_app by lia. f_equal. lia.
Qed.

Lemma load_store_prefix m a l n k :
  0 <= n -> zlength l = k -> n <= k -> load (store m a l) a n = take (Z.to_nat n) l.
Proof.
  intros Hn Hl Hk. rewrite <- (take_load _ _ k n) by lia. rewrite <- Hl.
  by rewrite load_store_same.
Qed.

(** [unparse] writes the first [datalen] bytes of the key's string at [data]
    and nothing else, when [data] does not overlap the suffix it reads. *)
Theorem unparse_content m k data datalen :
  0 <= len_ k -> 0 <= datalen ->
  s_ k + len_ k <= data \/ data + datalen <= s_ k + ikey_size ->
  let '(m', n) := Key.unparse m k data datalen in
  n = Z.min (len_ k) datalen /\
  load m' data n = take (Z.to_nat datalen) (key_content m k) /\
  forall x, x < data \/ data + n <= x -> m' x = m x.
Proof.
  intros Hl Hd Hdis. unfold Key.unparse, unparse_comparable_len, fst, key_content.
  rewrite host_to_net_bytes. change (Z.to_nat ikey_size) with 8%nat.
  set (w := write_in_net_order 8 (ikey0_ k)).
  assert (length w = 8%nat) as Hw by apply length_write_in_net_order.
  set (n := Z.min (len_ k) datalen). unfold ikey_size in *.
  replace (Z.min (Z.min 8 8) n) with (Z.min 8 n) by lia.
  split; [done|]. destruct (Z.ltb_spec 8 n) as [Hn|Hn].
  - rewrite (take_ge w) by lia. unfold memcpy.
    assert (load (store m data w) (s_ k + 8) (n - 8) = load m (s_ k + 8) (n - 8)) as ->
      by (apply load_store_other; unfold zlength; lia).
    set (r := load m (s_ k + 8) (n - 8)).
    assert (zlength r = n - 8) as Hr by (apply zlength_load; lia).
    assert (zlength w = 8) as Hw' by (unfold zlength; lia).
    split.
    + replace n with (8 + (n - 8)) at 1 by lia. rewrite load_app by lia.
      rewrite load_store_other by lia. rewrite <- Hw' at 1. rewrite load_store_same.
      rewrite <- Hr at 1. rewrite load_store_same.
      rewrite (take_ge w) by lia. rewrite take_app_ge by lia. f_equal.
      unfold r. replace (Z.to_nat datalen - length w)%nat with (Z.to_nat (datalen - 8)) by lia.
      destruct (Z.le_gt_cases (len_ k) datalen).
      * rewrite take_ge by (rewrite length_load; lia). f_equal. lia.
      * rewrite take_load by lia. f_equal. lia.
    + intros x Hx. by rewrite !store_other by lia.
  - replace (Z.min 8 n) with n by lia.
    assert (zlength (take (Z.to_nat n) w) = n) as Hz
      by (unfold zlength; rewrite length_take_le by lia; lia).
    split; [|intros x Hx; apply store_other; lia].
    rewrite (load_store_prefix _ _ _ _ n) by lia. rewrite take_take.
    destruct (Z.le_gt_cases (len_ k) 8).
    + rewrite (load_0 _ _ (len_ k - 8)), app_nil_r, take_take by lia. f_equal. lia.
    + rewrite (take_ge w (Z.to_nat (len_ k))) by lia. rewrite take_app_le by lia. f_equal. lia.
Qed.

Lemma unparse_content_witness :
  let m := mem_of 100 [97;98;99;100;101;102;103;104;105;106] in
  let '(m', n) := Key.unparse m (Key.key_data true m 100 10) 300 20 in
  n = 10 /\ load m' 300 10 = [97;98;99;100;101;102;103;104;105;106].
Proof.
  cbv zeta. set (m := mem_of 100 [97;98;99;100;101;102;103;104;105;106]).
  pose proof (unparse_content m (Key.key_data true m 100 10) 300 20
    ltac:(cbn; lia) ltac:(lia) ltac:(cbn; lia)) as H.
  destruct (Key.unparse m (Key.key_data true m 100 10) 300 20) as [m' n].
  destruct H as (H1 & H2 & _). split; [exact H1|].
  change (Z.min (len_ (Key.key_data true m 100 10)) 20) with 10 in H1. rewrite H1 in H2.
  by rewrite H2.
Defined.

(** C30: [increment] moves to the next pair of slice and length of the layer:
    a pair is greater than the key exactly when it is at least the
    incremented key.  It reports a wrap exactly when no pair is greater. *)
Theorem increment_successor k i l :
  pair_ok (ikey0_ k) (len_ k) -> pair_ok i l ->
  let '(k', wrap) := Key.increment k in
  if wrap then Key.compare_ikey k i l >= 0
  else (Key.compare_ikey k i l < 0 <-> Key.compare_ikey k' i l <= 0).
Proof.
  intros (Hk & Hkl & Hk0) (Hi & Hil & Hi0).
  unfold Key.increment, Key.has_suffix, Key.compare_ikey, ikey_size, in_u in *.
  change (2 ^ ikey_bits) with 18446744073709551616 in *.
  destruct (Z.ltb_spec 8 (len_ k)) as [Hs|Hs]; cbn [ikey0_ len_].
  - assert (uwrap ikey_bits (ikey0_ k + 1) =
      if ikey0_ k =? 18446744073709551615 then 0 else ikey0_ k + 1) as ->.
    { unfold uwrap. change (2 ^ ikey_bits) with 18446744073709551616.
      destruct (Z.eqb_spec (ikey0_ k) 18446744073709551615) as [->|]; [done|].
      apply Z.mod_small. lia. }
    change (8 <? 1) with false. cbv iota. unfold compare.
    destruct (Z.eqb_spec (ikey0_ k) 18446744073709551615) as [He|He].
    + rewrite He. destruct (Z.eqb_spec 18446744073709551615 i) as [<-|];
        [destruct (l <=? 8); cbn; lia|].
      destruct (Z.ltb_spec 18446744073709551615 i); cbn; lia.
    + destruct (Z.eqb_spec (ikey0_ k + 1) 0); [lia|].
      destruct (Z.eqb_spec (ikey0_ k) i), (Z.eqb_spec (ikey0_ k + 1) i),
        (Z.ltb_spec (ikey0_ k) i), (Z.ltb_spec (ikey0_ k + 1) i), (Z.leb_spec l 8);
        cbn; lia.
  - unfold compare. destruct (Z.eqb_spec (ikey0_ k) i); cbn [Z.eqb];
      [|by destruct (Z.ltb_spec (ikey0_ k) i); cbn].
    destruct (Z.ltb_spec 8 (len_ k + 1)); [|lia].
    destruct (Z.leb_spec l 8); cbn; lia.
Qed.

Lemma increment_successor_witness :
  Key.compare_ikey (fst (Key.increment (mkKey 5 9 0 0))) 6 1 <= 0.
Proof.
  pose proof (increment_successor (mkKey 5 9 0 0) 6 1 ltac:(by vm_compute) ltac:(by vm_compute)) as H.
  by apply H.
Defined.

Lemma zlength_write_net i : zlength (write_in_net_order 8 i) = ikey_size.
Proof. unfold zlength. by rewrite length_write_in_net_order. Qed.

Lemma assign_store_ikey_load m k i m' k' :
  first_ k <= s_ k -> Key.assign_store_ikey m k i = (m', k') ->
  k' = mkKey i (len_ k) (s_ k) (first_ k) /\
  load m' (first_ k) (s_ k - first_ k + ikey_size) =
    str_bytes m (Key.prefix_string k) ++ write_in_net_order 8 i.
Proof.
  intros Hf. unfold Key.assign_store_ikey, store_word. change (Z.to_nat ikey_size) with 8%nat.
  rewrite (host_to_net_bytes 8). intros [= <- <-]. split; [done|].
  pose proof (zlength_write_net i) as Hz. unfold ikey_size in *.
  rewrite load_app by lia. rewrite load_store_other by lia. f_equal.
  replace (first_ k + (s_ k - first_ k)) with (s_ k) by lia.
  rewrite <- Hz at 1. apply load_store_same.
Qed.

(** A scan rebuilds the key of each entry in place: after
    [assign_store_ikey] the full string is the prefix of the layers above,
    followed by the entry's slice (cut to its length), followed by its suffix
    when [assign_store_suffix] stored one.  Leaving the layer again with
    [unshift] recovers the slice stored for it. *)
Theorem assign_store_full_string unaligned m k i m1 k1 :
  mem_bytes m -> in_u ikey_bits i -> first_ k <= s_ k ->
  Key.assign_store_ikey m k i = (m1, k1) ->
  (forall l, 0 <= l <= ikey_size ->
    str_bytes m1 (Key.full_string (Key.assign_store_length k1 l)) =
    str_bytes m (Key.prefix_string k) ++ take (Z.to_nat l) (write_in_net_order 8 i)) /\
  (forall suf, 0 <= str_len suf ->
    str_s suf + str_len suf <= s_ k \/ s_ k + ikey_size <= str_s suf ->
    let '(m2, n) := Key.assign_store_suffix m1 k1 suf in
    str_bytes m2 (Key.full_string (Key.assign_store_length k1 n)) =
    str_bytes m (Key.prefix_string k) ++ write_in_net_order 8 i ++ str_bytes m suf) /\
  ikey0_ (Key.unshift unaligned m1 (Key.shift_clear k1)) = i.
Proof.
  intros Hm Hi Hf He. pose proof (zlength_write_net i) as Hz.
  destruct (assign_store_ikey_load m k i m1 k1 Hf He) as [-> Hl].
  assert (mem_bytes m1) as Hm1.
  { unfold Key.assign_store_ikey in He. injection He as <-.
    apply store_bytes; [done|]. apply write_in_net_order_bytes. }
  assert (forall n, 0 <= n <= ikey_size -> load m1 (s_ k) n = take (Z.to_nat n) (write_in_net_order 8 i)) as Hw.
  { intros n Hn. rewrite load_app in Hl by (unfold ikey_size; lia).
    apply app_inj_1 in Hl as [_ Hl]; [|by unfold str_bytes; rewrite !length_load].
    rewrite <- Hl, take_load by lia. f_equal. lia. }
  split_and!.
  - intros l Hln. unfold str_bytes at 1, Key.full_string, Key.assign_store_length, Str_range.
    cbn [str_s str_len s_ first_ len_].
    replace (s_ k + l - first_ k) with (s_ k - first_ k + l) by lia.
    rewrite load_app by lia. rewrite load_app in Hl by (unfold ikey_size in *; lia).
    apply app_inj_1 in Hl as [-> _]; [|by unfold str_bytes; rewrite !length_load].
    f_equal. rewrite <- Hw by done. f_equal. lia.
  - intros suf Hs Hd. unfold Key.assign_store_suffix, Key.full_string, Key.assign_store_length,
      Str_range, str_bytes at 1.
    cbn [str_s str_len s_ first_ len_]. unfold memcpy.
    assert (load m1 (str_s suf) (str_len suf) = str_bytes m suf) as Hsuf.
    { unfold Key.assign_store_ikey, store_word in He. change (Z.to_nat ikey_size) with 8%nat in He.
      rewrite (host_to_net_bytes 8) in He. injection He as <-. apply load_store_other. change (Z.to_nat 8) with 8%nat. lia. }
    rewrite Hsuf. set (l := str_bytes m suf).
    assert (zlength l = str_len suf) as Hzl by by apply zlength_load.
    replace (s_ k + (ikey_size + str_len suf) - first_ k)
      with (s_ k - first_ k + ikey_size + str_len suf) by lia.
    rewrite load_app by (unfold ikey_size; lia). rewrite load_store_other by lia.
    rewrite Hl, <- app_assoc. do 2 f_equal.
    replace (first_ k + (s_ k - first_ k + ikey_size)) with (s_ k + ikey_size) by lia.
    rewrite <- Hzl. apply load_store_same.
  - unfold Key.unshift, Key.shift_clear. cbn [ikey0_ s_].
    rewrite make_comparable_sloppy_make, make_comparable_be by (done || unfold ikey_size; lia).
    replace (s_ k + ikey_size - ikey_size) with (s_ k) by lia.
    rewrite Hw by (unfold ikey_size; lia). change (Z.to_nat ikey_size) with 8%nat.
    rewrite pad_take, pad_ge, take_ge by (by rewrite length_write_in_net_order).
    rewrite <- (take_ge (write_in_net_order 8 i) 8), <- read_in_net_order_be;
      [..|by rewrite length_write_in_net_order]; try (by rewrite length_write_in_net_order);
      [|apply write_in_net_order_bytes].
    rewrite <- (app_nil_r (write_in_net_order 8 i)). apply read_write_net_order; [constructor|].
    exact Hi.
Qed.

Lemma assign_store_full_string_witness :
  let k := mkKey 0 0 108 100 in
  let m := mem_of 100 [1;2;3;4;5;6;7;8] in
  let '(m1, k1) := Key.assign_store_ikey m k 0x6162630000000000 in
  str_bytes m1 (Key.full_string (Key.assign_store_length k1 3)) = [1;2;3;4;5;6;7;8;97;98;99].
Proof.
  cbv zeta. set (m := mem_of 100 [1;2;3;4;5;6;7;8]).
  destruct (Key.assign_store_ikey m (mkKey 0 0 108 100) 0x6162630000000000) as [m1 k1] eqn:E.
  destruct (assign_store_full_string true m (mkKey 0 0 108 100) 0x6162630000000000 m1 k1) as [H _];
    [by apply mem_of_bytes; repeat constructor|by vm_compute|by cbn|exact E|].
  by rewrite H.
Defined.
