(* ===== verification/Ksearch.v ===== *)
(** Searching the sorted keys of a node, [src/ksearch.hh].

    A node is seen through its permutation: [size] keys, the [i]th in key
    order stored at position [perm i]; the comparator gives the sign of the
    searched key against the key at a position.  The loops run on fuel; every
    iteration shrinks the interval [l, r), so [size] iterations are enough
    (the theorems below are about the result they end with). *)
From S2P Require Import Prelude.

Record key_indexed_position : Type := mkKip { kip_i : Z; kip_p : Z }.

Section loops.
Context (perm : Z -> Z) (comparator : Z -> Z).

Fixpoint key_upper_bound_loop (fuel : nat) (l r : Z) : Z :=
  match fuel with
  | O => l
  | S fuel =>
      if l <? r then
        let m := Z.shiftr (l + r) 1 in
        let mp := perm m in
        let cmp := comparator mp in
        if cmp <? 0 then key_upper_bound_loop fuel l m
        else if cmp =? 0 then m + 1
        else key_upper_bound_loop fuel (m + 1) r
      else l
  end.

Fixpoint key_lower_bound_loop (fuel : nat) (l r : Z) : key_indexed_position :=
  match fuel with
  | O => mkKip l (-1)
  | S fuel =>
      if l <? r then
        let m := Z.shiftr (l + r) 1 in
        let mp := perm m in
        let cmp := comparator mp in
        if cmp <? 0 then key_lower_bound_loop fuel l m
        else if cmp =? 0 then mkKip m mp
        else key_lower_bound_loop fuel (m + 1) r
      else mkKip l (-1)
  end.

Fixpoint key_find_upper_bound_loop (fuel : nat) (l r : Z) : Z :=
  match fuel with
  | O => l
  | S fuel =>
      if l <? r then
        let lp := perm l in
        let cmp := comparator lp in
        if cmp <? 0 then l else key_find_upper_bound_loop fuel (l + 1) r
      else l
  end.

Fixpoint key_find_lower_bound_loop (fuel : nat) (l r : Z) : key_indexed_position :=
  match fuel with
  | O => mkKip l (-1)
  | S fuel =>
      if l <? r then
        let lp := perm l in
        let cmp := comparator lp in
        if cmp <? 0 then mkKip l (-1)
        else if cmp =? 0 then mkKip l lp
        else key_find_lower_bound_loop fuel (l + 1) r
      else mkKip l (-1)
  end.
End loops.

Definition key_upper_bound_by (size : Z) (perm comparator : Z -> Z) : Z :=
  key_upper_bound_loop perm comparator (Z.to_nat size) 0 size.
Definition key_lower_bound_by (size : Z) (perm comparator : Z -> Z) : key_indexed_position :=
  key_lower_bound_loop perm comparator (Z.to_nat size) 0 size.
Definition key_find_upper_bound_by (size : Z) (perm comparator : Z -> Z) : Z :=
  key_find_upper_bound_loop perm comparator (Z.to_nat size) 0 size.
Definition key_find_lower_bound_by (size : Z) (perm comparator : Z -> Z) : key_indexed_position :=
  key_find_lower_bound_loop perm comparator (Z.to_nat size) 0 size.

(** [key_bound<max_size, method>]: the class with [upper] and [lower_by]. *)
Inductive bound_method := bound_method_fast | bound_method_binary | bound_method_linear.
Definition is_binary (max_size : Z) (method : bound_method) : bool :=
  match method with
  | bound_method_binary => true
  | bound_method_linear => false
  | bound_method_fast => 16 <? max_size
  end.
Definition bound_upper (max_size : Z) (method : bound_method) (size : Z) (perm comparator : Z -> Z) : Z :=
  if is_binary max_size method then key_upper_bound_by size perm comparator
  else key_find_upper_bound_by size perm comparator.
Definition bound_lower_by (max_size : Z) (method : bound_method) (size : Z)
  (perm comparator : Z -> Z) : key_indexed_position :=
  if is_binary max_size method then key_lower_bound_by size perm comparator
  else key_find_lower_bound_by size perm comparator.

(** * Sorted nodes *)
(** The keys are strictly sorted, as seen from the searched key: once it is at
    most a key, it is below all the later ones. *)
Definition sorted_for (size : Z) (perm comparator : Z -> Z) : Prop :=
  forall i j, 0 <= i < j -> j < size -> comparator (perm i) <= 0 -> comparator (perm j) < 0.

(** [u] is the number of keys that are at most the searched key. *)
Definition is_upper (size : Z) (perm comparator : Z -> Z) (u : Z) : Prop :=
  0 <= u <= size /\ (forall j, 0 <= j < u -> 0 <= comparator (perm j)) /\
  (forall j, u <= j < size -> comparator (perm j) < 0).

(** [kip_i] is the number of keys below the searched key, [kip_p] the position
    of the key equal to it, or -1. *)
Definition is_lower (size : Z) (perm comparator : Z -> Z) (k : key_indexed_position) : Prop :=
  0 <= kip_i k <= size /\ (forall j, 0 <= j < kip_i k -> 0 < comparator (perm j)) /\
  ((kip_p k = -1 /\ forall j, kip_i k <= j < size -> comparator (perm j) < 0) \/
   (kip_i k < size /\ kip_p k = perm (kip_i k) /\ comparator (kip_p k) = 0 /\
    forall j, kip_i k < j < size -> comparator (perm j) < 0)).

Section spec.
Context (size : Z) (perm comparator : Z -> Z) (Hsize : 0 <= size)
  (Hsorted : sorted_for size perm comparator).
Implicit Types (l r : Z) (fuel : nat).

Lemma sorted_lt i j : 0 <= i <= j -> j < size -> comparator (perm i) < 0 -> comparator (perm j) < 0.
Proof using Hsorted.
  intros Hi Hj Hc. destruct (Z.eq_dec i j) as [<-|]; [done|]. apply (Hsorted i j); lia.
Qed.

Lemma sorted_gt i j : 0 <= i <= j -> j < size -> 0 < comparator (perm j) -> 0 < comparator (perm i).
Proof using Hsorted.
  intros Hi Hj Hc. destruct (Z.lt_ge_cases 0 (comparator (perm i))); [done|].
  destruct (Z.eq_dec i j) as [<-|]; [lia|]. specialize (Hsorted i j). lia.
Qed.

(** The interval that is left separates the keys below from those above. *)
Definition between l r : Prop :=
  0 <= l <= r /\ r <= size /\ (forall j, 0 <= j < l -> 0 < comparator (perm j)) /\
  (forall j, r <= j < size -> comparator (perm j) < 0).

Lemma between_init : between 0 size.
Proof using Hsize. split_and!; lia. Qed.

Lemma mid_range l r : l < r -> l <= Z.shiftr (l + r) 1 < r.
Proof using Type.
  intros. rewrite Z.shiftr_div_pow2 by lia. change (2 ^ 1) with 2.
  pose proof (Z.div_mod (l + r) 2). pose proof (Z.mod_pos_bound (l + r) 2). lia.
Qed.

Lemma between_left l r m : between l r -> l <= m < r -> comparator (perm m) < 0 -> between l m.
Proof using Hsorted.
  intros (H1 & H2 & H3 & H4) Hm Hc. split_and!; try lia; [done|].
  intros j Hj. apply (sorted_lt m j); lia.
Qed.

Lemma between_right l r m : between l r -> l <= m < r -> 0 < comparator (perm m) -> between (m + 1) r.
Proof using Hsorted.
  intros (H1 & H2 & H3 & H4) Hm Hc. split_and!; try lia; [|done].
  intros j Hj. apply (sorted_gt j m); lia.
Qed.

Lemma between_hit l r m :
  between l r -> l <= m < r -> comparator (perm m) = 0 -> is_lower size perm comparator (mkKip m (perm m)).
Proof using Hsorted.
  intros (H1 & H2 & H3 & H4) Hm Hc. unfold is_lower; cbn. split_and!; [lia|lia| |right].
  - intros j Hj. destruct (Z.lt_ge_cases 0 (comparator (perm j))); [done|].
    specialize (Hsorted j m). lia.
  - split_and!; try done; [lia|]. intros j Hj. apply (Hsorted m j); lia.
Qed.

Lemma between_miss l r : between l r -> r <= l -> is_lower size perm comparator (mkKip l (-1)).
Proof using Type.
  intros (H1 & H2 & H3 & H4) Hr. unfold is_lower; cbn. split_and!; [lia|lia|done|left].
  split; [done|]. intros. apply H4. lia.
Qed.

Lemma key_lower_bound_loop_spec fuel l r :
  between l r -> r - l <= Z.of_nat fuel ->
  is_lower size perm comparator (key_lower_bound_loop perm comparator fuel l r).
Proof using Hsorted.
  revert l r. induction fuel as [|fuel IH]; intros l r Hb Hf; cbn [key_lower_bound_loop].
  { apply (between_miss l r); [done|lia]. }
  destruct (Z.ltb_spec l r) as [Hlr|]; [|by apply (between_miss l r)].
  pose proof (mid_range l r Hlr) as Hm. set (m := Z.shiftr (l + r) 1) in *.
  destruct (Z.ltb_spec (comparator (perm m)) 0); [|destruct (Z.eqb_spec (comparator (perm m)) 0)].
  - apply IH; [by apply (between_left l r)|lia].
  - by apply (between_hit l r).
  - apply IH; [apply (between_right l r); done || lia|lia].
Qed.

Lemma key_find_lower_bound_loop_spec fuel l :
  between l size -> size - l <= Z.of_nat fuel ->
  is_lower size perm comparator (key_find_lower_bound_loop perm comparator fuel l size).
Proof using Hsorted.
  revert l. induction fuel as [|fuel IH]; intros l Hb Hf; cbn [key_find_lower_bound_loop].
  { apply (between_miss l size); [done|lia]. }
  destruct (Z.ltb_spec l size) as [Hlr|]; [|by apply (between_miss l size)].
  destruct (Z.ltb_spec (comparator (perm l)) 0); [|destruct (Z.eqb_spec (comparator (perm l)) 0)].
  - apply (between_miss l l); [apply (between_left l size); done || lia|lia].
  - apply (between_hit l size); done || lia.
  - apply IH; [apply (between_right l size); done || lia|lia].
Qed.

(** The upper bound is one past a hit, and the lower bound of a miss. *)
Definition upper_of (k : key_indexed_position) : Z := if kip_p k =? -1 then kip_i k else kip_i k + 1.

Lemma is_lower_upper k :
  (forall i, 0 <= i < size -> 0 <= perm i) ->
  is_lower size perm comparator k -> is_upper size perm comparator (upper_of k).
Proof using Type.
  intros Hp (H1 & H2 & H3). unfold upper_of, is_upper. destruct H3 as [[-> H3]|(Hi & Hk & Hc & H3)].
  - cbn. split_and!; [lia|lia|intros j Hj; specialize (H2 j Hj); lia|done].
  - specialize (Hp (kip_i k)). rewrite Hk in *.
    destruct (Z.eqb_spec (perm (kip_i k)) (-1)); [lia|]. split_and!; [lia|lia| |].
    + intros j Hj. destruct (Z.eq_dec j (kip_i k)) as [->|]; [lia|]. specialize (H2 j). lia.
    + intros j Hj. apply H3. lia.
Qed.

Lemma is_upper_unique u v :
  is_upper size perm comparator u -> is_upper size perm comparator v -> u = v.
Proof using Type.
  intros (H1 & H2 & H3) (H4 & H5 & H6). destruct (Z.lt_trichotomy u v) as [H|[H|H]]; [|done|].
  - specialize (H3 u). specialize (H5 u). lia.
  - specialize (H6 v). specialize (H2 v). lia.
Qed.

Lemma is_lower_unique k k' :
  is_lower size perm comparator k -> is_lower size perm comparator k' -> k = k'.
Proof using Type.
  intros (H1 & H2 & H3) (H4 & H5 & H6). destruct k as [i p], k' as [i' p']; cbn in *.
  assert (i = i') as <-.
  { destruct (Z.lt_trichotomy i i') as [H|[H|H]]; [|done|]; exfalso.
    - specialize (H5 i). destruct H3 as [[_ H3]|(? & -> & ? & _)]; [specialize (H3 i)|]; lia.
    - specialize (H2 i'). destruct H6 as [[_ H6]|(? & -> & ? & _)]; [specialize (H6 i')|]; lia. }
  f_equal. destruct H3 as [[-> H3]|(? & -> & Hc & H3)], H6 as [[-> H6]|(? & -> & Hc' & H6)]; try done.
  - specialize (H3 i). lia.
  - specialize (H6 i). lia.
Qed.

Lemma key_upper_bound_loop_lower fuel l r :
  (forall i, 0 <= i < size -> 0 <= perm i) -> between l r -> r - l <= Z.of_nat fuel ->
  key_upper_bound_loop perm comparator fuel l r =
  upper_of (key_lower_bound_loop perm comparator fuel l r).
Proof using Hsorted.
  intros Hp. revert l r. induction fuel as [|fuel IH]; intros l r Hb Hf;
    cbn [key_upper_bound_loop key_lower_bound_loop]; [done|].
  destruct (Z.ltb_spec l r) as [Hlr|]; [|done].
  pose proof (mid_range l r Hlr) as Hm. set (m := Z.shiftr (l + r) 1) in *.
  destruct (Z.ltb_spec (comparator (perm m)) 0); [|destruct (Z.eqb_spec (comparator (perm m)) 0)].
  - apply IH; [by apply (between_left l r)|lia].
  - unfold upper_of. cbn. destruct (Z.eqb_spec (perm m) (-1)); [|done].
    specialize (Hp m). destruct Hb as (? & ? & ? & ?). lia.
  - apply IH; [apply (between_right l r); done || lia|lia].
Qed.

Lemma key_find_upper_bound_loop_spec fuel l :
  0 <= l <= size -> (forall j, 0 <= j < l -> 0 <= comparator (perm j)) ->
  size - l <= Z.of_nat fuel ->
  is_upper size perm comparator (key_find_upper_bound_loop perm comparator fuel l size).
Proof using Hsorted.
  revert l. induction fuel as [|fuel IH]; intros l Hl Hb Hf; cbn [key_find_upper_bound_loop].
  { split_and!; [lia|lia|done|lia]. }
  destruct (Z.ltb_spec l size) as [Hlr|]; [|by split_and!; [lia|lia| |lia]].
  destruct (Z.ltb_spec (comparator (perm l)) 0).
  - split_and!; [lia|lia|done|]. intros j Hj. apply (sorted_lt l j); lia.
  - apply IH; [lia| |lia]. intros j Hj. destruct (Z.eq_dec j l) as [->|]; [lia|]. apply Hb. lia.
Qed.
End spec.

(** Both methods, by their specifications. *)
Lemma lower_methods size perm comparator :
  0 <= size -> sorted_for size perm comparator ->
  is_lower size perm comparator (key_lower_bound_by size perm comparator) /\
  is_lower size perm comparator (key_find_lower_bound_by size perm comparator).
Proof.
  intros Hs Hsorted. split.
  - apply key_lower_bound_loop_spec; [done|by apply between_init|lia].
  - apply key_find_lower_bound_loop_spec; [done|by apply between_init|lia].
Qed.

Lemma upper_methods size perm comparator :
  0 <= size -> sorted_for size perm comparator ->
  (forall i, 0 <= i < size -> 0 <= perm i) ->
  is_upper size perm comparator (key_upper_bound_by size perm comparator) /\
  is_upper size perm comparator (key_find_upper_bound_by size perm comparator).
Proof.
  intros Hs Hsorted Hp. split.
  - unfold key_upper_bound_by. rewrite (key_upper_bound_loop_lower size) by
      (done || lia || by apply between_init).
    apply is_lower_upper; [done|].
    apply key_lower_bound_loop_spec; [done|by apply between_init|lia].
  - apply key_find_upper_bound_loop_spec; done || lia.
Qed.

(** C25: On sorted keys every method returns the specified lower bound: the number
    of smaller keys, and the position of the equal one or -1.  So binary and
    linear search return the same. *)
Theorem bound_lower_by_spec max_size method size perm comparator :
  0 <= size -> sorted_for size perm comparator ->
  is_lower size perm comparator (bound_lower_by max_size method size perm comparator) /\
  key_lower_bound_by size perm comparator = key_find_lower_bound_by size perm comparator.
Proof.
  intros Hs Hsorted. destruct (lower_methods size perm comparator Hs Hsorted) as [H1 H2].
  split; [unfold bound_lower_by; by destruct (is_binary max_size method)|].
  by apply (is_lower_unique size perm comparator).
Qed.

(** Keys 10, 20, 30 stored at positions 2, 0, 1; searching 20. *)
Lemma bound_lower_by_spec_witness :
  let perm i := match i with 0 => 2 | 1 => 0 | _ => 1 end in
  let comparator p := match p with 2 => 1 | 0 => 0 | _ => -1 end in
  is_lower 3 perm comparator (bound_lower_by 15 bound_method_fast 3 perm comparator) /\
  bound_lower_by 15 bound_method_fast 3 perm comparator = mkKip 1 0.
Proof.
  cbv zeta. split; [|by vm_compute]. apply bound_lower_by_spec; [lia|].
  intros i j Hi Hj. assert (i = 0 \/ i = 1) as [->| ->] by lia; [lia|].
  assert (j = 2) as -> by lia. lia.
Defined.

(** C26: On sorted keys every method returns the number of keys at most the
    searched one. *)
Theorem bound_upper_spec max_size method size perm comparator :
  0 <= size -> sorted_for size perm comparator ->
  (forall i, 0 <= i < size -> 0 <= perm i) ->
  is_upper size perm comparator (bound_upper max_size method size perm comparator) /\
  key_upper_bound_by size perm comparator = key_find_upper_bound_by size perm comparator.
Proof.
  intros Hs Hsorted Hp.
  destruct (upper_methods size perm comparator Hs Hsorted Hp) as [H1 H2].
  split; [unfold bound_upper; by destruct (is_binary max_size method)|].
  by apply (is_upper_unique size perm comparator).
Qed.

Lemma bound_upper_spec_witness :
  let perm i := i in
  let comparator p := 1 - p in
  bound_upper 15 bound_method_binary 3 perm comparator = 2 /\
  is_upper 3 perm comparator (bound_upper 15 bound_method_binary 3 perm comparator).
Proof.
  cbv zeta. split; [by vm_compute|]. apply bound_upper_spec; [lia| |lia].
  intros i j. lia.
Defined.
