(* ===== verification/Kpermuter.v ===== *)
(** The leaf permutation word of [src/kpermuter.hh].

    A [kpermuter<W>] packs, in one word, the number of live slots (the low
    nibble) and a permutation of the slot numbers [0..W-1] (one nibble each).
    [kpermuter] is that word; the operations below are the methods of the
    class on it.  The second half proves that each of them implements the
    list operation its comment promises and that the permutation survives. *)
From S2P Require Import Prelude.

Definition kpermuter := Z.

(** ** [identity_kpermuter], the permutation of nodes that keep no word *)
Record identity_kpermuter := { id_size_ : Z }.
Definition identity_size (p : identity_kpermuter) : Z := id_size_ p.
Definition identity_index (p : identity_kpermuter) (i : Z) : Z := i.

(** ** [sized_kpermuter_info] *)
Definition info_class (W : Z) : Z := b2z (3 <? W) + b2z (7 <? W) + b2z (15 <? W).

(** [sizeof(storage_type) * 8] and [sizeof(value_type) * 8]. *)
Definition storage_bits (W : Z) : Z :=
  match info_class W with 0 => 16 | 1 => 32 | _ => 64 end.
Definition value_bits (W : Z) : Z :=
  match info_class W with 0 => 32 | 1 => 32 | _ => 64 end.
Definition initial_value (W : Z) : Z :=
  match info_class W with
  | 0 => 0x0120 | 1 => 0x01234560 | _ => 0x0123456789ABCDE0 end.
Definition full_value (W : Z) : Z :=
  match info_class W with
  | 0 => 0x2100 | 1 => 0x65432100 | _ => 0xEDCBA98765432100 end.
Definition max_width (W : Z) : Z := storage_bits W / 8 * 2 - 1.

Section ops.
Context (W : Z).
Abbreviation vb := (value_bits W).
Abbreviation shl := (ushl (value_bits W)).
Abbreviation lnot := (unot (value_bits W)).

(** [((value_type) c << k) - 1] for a power of two [c = 2^e]. *)
Definition kmask (e k : Z) : Z := uwrap vb (shl (2 ^ e) k - 1).

(** ** Construction *)
Definition make_empty : kpermuter :=
  let p := Z.shiftr (uwrap vb (initial_value W))
                    (Z.shiftl (max_width W - W) 2) in
  Z.land p (lnot 15).

Definition make_sorted (n : Z) : kpermuter :=
  let mask :=
    uwrap vb ((if n =? W then 0 else shl 16 (Z.shiftl n 2)) - 1) in
  Z.lor (Z.lor (shl make_empty (Z.shiftl n 2))
               (Z.land (uwrap vb (full_value W)) mask)) n.

(** ** Observers *)
Definition size (x : kpermuter) : Z := Z.land x 15.
Definition index (x : kpermuter) (i : Z) : Z :=
  Z.land (Z.shiftr x (Z.shiftl i 2 + 4)) 15.
Definition back (x : kpermuter) : Z := index x (W - 1).
Definition value_from (x : kpermuter) (i : Z) : Z :=
  Z.shiftr x (Z.shiftl (i + 1) 2).

(** ** Updates.  A method that also returns a value returns a pair. *)
Definition set_size (x : kpermuter) (n : Z) : kpermuter :=
  Z.lor (Z.land x (lnot 15)) n.

Definition insert_from_back (x : kpermuter) (i : Z) : Z * kpermuter :=
  let value := back x in
  let i2 := Z.shiftl i 2 in
  (value,
   Z.lor (Z.lor (Z.land (uwrap vb (x + 1)) (kmask 4 i2))
                (shl value (i2 + 4)))
         (Z.land (shl x 4) (lnot (kmask 8 i2)))).

Definition insert_selected (x : kpermuter) (di si : Z) : kpermuter :=
  let value := index x si in
  let d2 := Z.shiftl di 2 in
  let mask := kmask 8 (Z.shiftl si 2) in
  Z.lor (Z.lor (Z.lor (Z.land (uwrap vb (x + 1)) (kmask 4 d2))
                      (shl value (d2 + 4)))
               (Z.land (Z.land (shl x 4) mask) (lnot (kmask 8 d2))))
        (Z.land x (lnot mask)).

Definition remove (x : kpermuter) (i : Z) : kpermuter :=
  if Z.land x 15 =? i + 1 then uwrap vb (x - 1)
  else
    let rot_amount := Z.shiftl (Z.land x 15 - i - 1) 2 in
    let rot_mask := shl (kmask 4 rot_amount) (Z.shiftl (i + 1) 2) in
    Z.lor (Z.lor (Z.land (uwrap vb (x - 1)) (lnot rot_mask))
                 (Z.land (Z.shiftr (Z.land x rot_mask) 4) rot_mask))
          (Z.land (shl (Z.land x rot_mask) rot_amount) rot_mask).

Definition remove_to_back (x0 : kpermuter) (i : Z) : kpermuter :=
  let mask := lnot (kmask 4 (Z.shiftl i 2)) in
  let x := Z.land x0 (kmask 4 (Z.shiftl W 2)) in
  Z.lor (Z.lor (Z.land (uwrap vb (x - 1)) (lnot mask))
               (Z.land (Z.shiftr x 4) mask))
        (shl (Z.land x mask) (Z.shiftl (W - i - 1) 2)).

Definition rotate (x0 : kpermuter) (i j : Z) : kpermuter :=
  let mask := uwrap vb ((if i =? W then 0 else shl 16 (Z.shiftl i 2)) - 1) in
  let x := Z.land x0 (kmask 4 (Z.shiftl W 2)) in
  Z.lor (Z.lor (Z.land x mask)
               (Z.land (Z.shiftr x (Z.shiftl (j - i) 2)) (lnot mask)))
        (shl (Z.land x (lnot mask)) (Z.shiftl (W - j) 2)).

Definition exchange (x : kpermuter) (i j : Z) : kpermuter :=
  let diff := Z.land (Z.lxor (Z.shiftr x (Z.shiftl i 2))
                             (Z.shiftr x (Z.shiftl j 2))) 240 in
  Z.lxor x (Z.lor (shl diff (Z.shiftl i 2)) (shl diff (Z.shiftl j 2))).

(** The loop of [exchange_values]: [k] iterations left. *)
Fixpoint exchange_values_loop (k : nat) (a b diff p : Z) : Z :=
  match k with
  | O => diff
  | S k =>
      let v := Z.land (Z.shiftr p (Z.shiftl W 2)) 15 in
      let diff := Z.lxor diff
        (uwrap vb (Z.land (- b2z ((v =? a) || (v =? b))) (Z.lxor a b))) in
      exchange_values_loop k a b (shl diff 4) (shl p 4)
  end.
Definition exchange_values (x : kpermuter) (a b : Z) : kpermuter :=
  Z.lxor x (exchange_values_loop (Z.to_nat W) a b 0 x).

End ops.


(** * Slot-level correctness *)
Section proofs.
Context (W : Z).
Hypothesis HW : 1 <= W <= 15.
Abbreviation vb := (value_bits W).

Lemma shiftl_2 i : Z.shiftl i 2 = 4 * i.
Proof. rewrite Z.shiftl_mul_pow2 by lia. lia. Qed.

Lemma ones_15 : 15 = Z.ones 4.
Proof. reflexivity. Qed.

Lemma vb_room : 4 * W + 4 <= vb.
Proof.
  unfold value_bits, info_class, b2z.
  destruct (Z.ltb_spec 3 W), (Z.ltb_spec 7 W), (Z.ltb_spec 15 W); simpl; lia.
Qed.

Lemma kmask_ones e k : 0 <= e -> 0 <= k -> e + k <= vb -> kmask W e k = Z.ones (e + k).
Proof. intros. by apply mask_ones. Qed.

Lemma mask_full_ones i :
  0 <= i <= W ->
  uwrap vb ((if i =? W then 0 else ushl vb 16 (4 * i)) - 1) =
  if i =? W then Z.ones vb else Z.ones (4 + 4 * i).
Proof.
  intros. pose proof vb_room. destruct (Z.eqb_spec i W).
  - unfold uwrap. rewrite Z.ones_equiv, <- Z.sub_1_r.
    replace (0 - 1) with (2 ^ vb - 1 + (-1) * 2 ^ vb) by lia.
    rewrite Z.mod_add by lia. apply Z.mod_small.
    pose proof (Z.pow_pos_nonneg 2 vb). lia.
  - change 16 with (2 ^ 4). rewrite mask_ones by lia. done.
Qed.

Lemma index_ext x i y j :
  0 <= i -> 0 <= j ->
  (forall n, 0 <= n < 4 ->
     Z.testbit x (n + (4 * i + 4)) = Z.testbit y (n + (4 * j + 4))) ->
  index x i = index y j.
Proof.
  intros Hi Hj H. unfold index. rewrite !shiftl_2, ones_15.
  apply Z.bits_inj'. intros n Hn. zbits_rw.
  destruct (Z.ltb_spec n 4); [|by rewrite !andb_false_r].
  by rewrite H by lia.
Qed.

Lemma testbit_index x i n :
  0 <= i -> 0 <= n -> Z.testbit (index x i) n = (n <? 4) && Z.testbit x (n + (4 * i + 4)).
Proof.
  intros. unfold index. rewrite shiftl_2, ones_15. zbits_rw. apply andb_comm.
Qed.

Lemma index_range x i : 0 <= index x i < 16.
Proof.
  unfold index. rewrite ones_15, Z.land_ones by lia. apply Z.mod_pos_bound. lia.
Qed.

Lemma size_mod x : size x = x mod 16.
Proof. unfold size. by rewrite ones_15, Z.land_ones by lia. Qed.

Lemma size_ext x y :
  (forall n, 0 <= n < 4 -> Z.testbit x n = Z.testbit y n) -> size x = size y.
Proof.
  intros H. unfold size. rewrite ones_15.
  apply Z.bits_inj'. intros n Hn. zbits_rw.
  destruct (Z.ltb_spec n 4); [|by rewrite !andb_false_r].
  by rewrite H by lia.
Qed.

Lemma size_uwrap x : size (uwrap vb x) = size x.
Proof. apply size_ext. intros. pose proof vb_room. zbits. Qed.

Lemma size_succ x : size x < 15 -> size (x + 1) = size x + 1.
Proof.
  rewrite !size_mod. intros. rewrite Z.add_mod by lia.
  change (1 mod 16) with 1. rewrite Z.mod_small; [done|].
  pose proof (Z.mod_pos_bound x 16). lia.
Qed.

Lemma size_pred x : 0 < size x -> size (x - 1) = size x - 1.
Proof.
  rewrite !size_mod. intros.
  pose proof (Z.mod_pos_bound x 16).
  rewrite Zminus_mod. change (1 mod 16) with 1. rewrite Z.mod_small; lia.
Qed.

Lemma testbit_succ x n : size x < 15 -> 4 <= n -> Z.testbit (x + 1) n = Z.testbit x n.
Proof.
  rewrite size_mod. intros.
  apply (testbit_add_small x 1 4); [lia..|].
  pose proof (Z.mod_pos_bound x (2 ^ 4)). change (2 ^ 4) with 16 in *. lia.
Qed.

Lemma testbit_pred x n : 0 < size x -> 4 <= n -> Z.testbit (x - 1) n = Z.testbit x n.
Proof.
  rewrite size_mod. intros. rewrite <- Z.add_opp_r.
  apply (testbit_add_small x (-1) 4); [lia..|].
  pose proof (Z.mod_pos_bound x (2 ^ 4)). change (2 ^ 4) with 16 in *. lia.
Qed.

Lemma insert_from_back_index x i j :
  size x < W -> 0 <= i < W -> 0 <= j < W ->
  index (insert_from_back W x i).2 j =
  if j <? i then index x j else if j =? i then back W x else index x (j - 1).
Proof.
  intros Hs Hi Hj. pose proof vb_room.
  unfold insert_from_back. cbn [snd]. rewrite !shiftl_2, !kmask_ones by lia.
  unfold back.
  destruct (Z.ltb_spec j i) as [Hji|Hji]; [|destruct (Z.eqb_spec j i) as [He|He]].
  - apply index_ext; [lia..|]. intros n Hn.
    zbits. by rewrite testbit_succ by lia.
  - apply index_ext; [lia..|]. intros n Hn. subst j.
    zbits_rw. rewrite testbit_index by lia. zbits.
  - apply index_ext; [lia..|]. intros n Hn.
    zbits_rw. rewrite testbit_index by lia. zbits.
Qed.

Lemma insert_from_back_size x i :
  size x < W -> 0 <= i < W -> size (insert_from_back W x i).2 = size x + 1.
Proof.
  intros Hs Hi. pose proof vb_room. unfold insert_from_back. cbn [snd].
  rewrite !shiftl_2, !kmask_ones, <- size_succ, <- (size_uwrap (x + 1)) by lia.
  apply size_ext. intros n Hn. zbits.
Qed.

Lemma insert_selected_index x di si j :
  size x < W -> 0 <= di <= si -> si < W -> 0 <= j < W ->
  index (insert_selected W x di si) j =
  if j <? di then index x j else if j =? di then index x si
  else if j <=? si then index x (j - 1) else index x j.
Proof.
  intros Hs Hd Hsi Hj. pose proof vb_room.
  unfold insert_selected. rewrite !shiftl_2, !kmask_ones by lia.
  destruct (Z.ltb_spec j di) as [Hji|Hji];
    [|destruct (Z.eqb_spec j di) as [He|He];
      [|destruct (Z.leb_spec j si) as [Hjs|Hjs]]].
  - apply index_ext; [lia..|]. intros n Hn.
    zbits. by rewrite testbit_succ by lia.
  - apply index_ext; [lia..|]. intros n Hn. subst j.
    zbits_rw. rewrite testbit_index by lia. zbits.
  - apply index_ext; [lia..|]. intros n Hn.
    zbits_rw. rewrite testbit_index by lia. zbits.
  - apply index_ext; [lia..|]. intros n Hn.
    zbits_rw. rewrite testbit_index by lia. zbits.
Qed.

Lemma insert_selected_size x di si :
  size x < W -> 0 <= di <= si -> si < W ->
  size (insert_selected W x di si) = size x + 1.
Proof.
  intros Hs Hd Hsi. pose proof vb_room. unfold insert_selected.
  rewrite !shiftl_2, !kmask_ones, <- size_succ, <- (size_uwrap (x + 1)) by lia.
  apply size_ext. intros n Hn. zbits.
Qed.

Lemma remove_index x i j :
  size x <= W -> 0 <= i < size x -> 0 <= j < W ->
  index (remove W x i) j =
  if j <? i then index x j else if j <? size x - 1 then index x (j + 1)
  else if j =? size x - 1 then index x i else index x j.
Proof.
  intros Hs Hi Hj. pose proof vb_room.
  unfold remove. change (Z.land x 15) with (size x).
  destruct (Z.eqb_spec (size x) (i + 1)) as [Hl|Hl].
  - assert (index (uwrap vb (x - 1)) j = index x j) as ->.
    { apply index_ext; [lia..|]. intros n Hn. zbits. by rewrite testbit_pred by lia. }
    destruct (Z.ltb_spec j i), (Z.ltb_spec j (size x - 1)),
      (Z.eqb_spec j (size x - 1)); f_equal; lia.
  - rewrite !shiftl_2, !kmask_ones by lia.
    destruct (Z.ltb_spec j i) as [Hji|Hji];
      [|destruct (Z.ltb_spec j (size x - 1)) as [Hjs|Hjs];
        [|destruct (Z.eqb_spec j (size x - 1)) as [He|He]]].
    all: apply index_ext; [lia..|]; intros n Hn; zbits_rw.
    all: rewrite ?testbit_pred by lia; zbits.
Qed.

Lemma remove_size x i :
  size x <= W -> 0 <= i < size x -> size (remove W x i) = size x - 1.
Proof.
  intros Hs Hi. pose proof vb_room. rewrite <- size_pred by lia.
  rewrite <- (size_uwrap (x - 1)).
  unfold remove. change (Z.land x 15) with (size x).
  destruct (Z.eqb_spec (size x) (i + 1)) as [Hl|Hl]; [done|].
  rewrite !shiftl_2, !kmask_ones by lia.
  apply size_ext. intros n Hn. zbits.
Qed.

Lemma size_land_ones x k : 4 <= k -> size (Z.land x (Z.ones k)) = size x.
Proof. intros. apply size_ext. intros. zbits. Qed.

Lemma remove_to_back_index x i j :
  0 <= i < size x -> size x <= W -> 0 <= j < W ->
  index (remove_to_back W x i) j =
  if j <? i then index x j else if j <? W - 1 then index x (j + 1)
  else index x i.
Proof.
  intros Hi Hs Hj. pose proof vb_room.
  unfold remove_to_back. rewrite !shiftl_2, !kmask_ones by lia.
  destruct (Z.ltb_spec j i) as [Hji|Hji];
    [|destruct (Z.ltb_spec j (W - 1)) as [Hjs|Hjs]].
  all: apply index_ext; [lia..|]; intros n Hn; zbits_rw.
  all: rewrite ?testbit_pred by (rewrite ?size_land_ones; lia); zbits.
Qed.

Lemma remove_to_back_size x i :
  0 <= i < size x -> size x <= W -> size (remove_to_back W x i) = size x - 1.
Proof.
  intros Hi Hs. pose proof vb_room.
  rewrite <- (size_land_ones x (4 + 4 * W)), <- size_pred by
    (rewrite ?size_land_ones; lia).
  rewrite <- (size_uwrap (_ - 1)).
  unfold remove_to_back. rewrite !shiftl_2, !kmask_ones by lia.
  apply size_ext. intros n Hn. zbits.
Qed.

Lemma rotate_index x i j k :
  0 <= i <= j -> j <= W -> 0 <= k < W ->
  index (rotate W x i j) k =
  if k <? i then index x k else index x (i + (k - i + (j - i)) mod (W - i)).
Proof.
  intros Hi Hj Hk. pose proof vb_room.
  unfold rotate. rewrite !shiftl_2, !kmask_ones, mask_full_ones by lia.
  destruct (Z.ltb_spec k i) as [Hki|Hki].
  - apply index_ext; [lia..|]. intros n Hn.
    destruct (Z.eqb_spec i W) as [He|He]; zbits.
  - destruct (Z.eqb_spec i W) as [He|He]; [lia|].
    destruct (decide (k + (j - i) < W)) as [Hlt|Hge].
    + rewrite Z.mod_small by lia.
      apply index_ext; [lia..|]. intros n Hn. zbits.
    + assert ((k - i + (j - i)) mod (W - i) = k - W + j - i) as ->.
      { symmetry. apply (Z.mod_unique _ _ 1); lia. }
      apply index_ext; [lia..|]. intros n Hn. zbits.
Qed.

Lemma rotate_size x i j :
  0 <= i <= j -> j <= W -> size (rotate W x i j) = size x.
Proof.
  intros Hi Hj. pose proof vb_room.
  unfold rotate. rewrite !shiftl_2, !kmask_ones, mask_full_ones by lia.
  apply size_ext. intros n Hn. destruct (Z.eqb_spec i W) as [He|He]; zbits.
Qed.

Lemma exchange_index x i j k :
  0 <= i < W -> 0 <= j < W -> 0 <= k < W ->
  index (exchange W x i j) k =
  if k =? i then index x j else if k =? j then index x i else index x k.
Proof.
  intros Hi Hj Hk. pose proof vb_room.
  unfold exchange. rewrite !shiftl_2.
  change 240 with (Z.land (Z.ones 8) (Z.lnot (Z.ones 4))).
  destruct (Z.eqb_spec k i) as [Hki|Hki]; [|destruct (Z.eqb_spec k j) as [Hkj|Hkj]].
  all: apply index_ext; [lia..|]; intros n Hn.
  all: zbits; zbits_unify; btauto.
Qed.

Lemma exchange_size x i j :
  0 <= i < W -> 0 <= j < W -> size (exchange W x i j) = size x.
Proof.
  intros Hi Hj. pose proof vb_room. unfold exchange. rewrite !shiftl_2.
  change 240 with (Z.land (Z.ones 8) (Z.lnot (Z.ones 4))).
  apply size_ext. intros n Hn. zbits.
Qed.

Definition xdelta (a b v : Z) : Z := if (v =? a) || (v =? b) then Z.lxor a b else 0.

Lemma lxor_nibble a b : 0 <= a < 16 -> 0 <= b < 16 -> 0 <= Z.lxor a b < 16.
Proof.
  intros Ha Hb. change 16 with (2 ^ 4). apply in_u_testbit; [lia|].
  intros n Hn. rewrite Z.lxor_spec.
  rewrite !(testbit_in_u 4) by (unfold in_u; lia). done.
Qed.

Lemma xdelta_range a b v :
  0 <= a < 16 -> 0 <= b < 16 -> 0 <= xdelta a b v < 16.
Proof.
  intros. unfold xdelta. destruct (_ || _); [by apply lxor_nibble|lia].
Qed.

Lemma xdelta_code a b v :
  0 <= a < 16 -> 0 <= b < 16 ->
  uwrap vb (Z.land (- b2z ((v =? a) || (v =? b))) (Z.lxor a b)) = xdelta a b v.
Proof.
  intros. pose proof (lxor_nibble a b). pose proof vb_room.
  pose proof (Z.pow_le_mono_r 2 4 vb).
  unfold xdelta. destruct (_ || _); cbn [b2z].
  - rewrite Z.land_m1_l. apply uwrap_id. unfold in_u. lia.
  - cbn. apply uwrap_id. unfold in_u. lia.
Qed.

Lemma xdelta_swap a b v :
  Z.lxor v (xdelta a b v) = if v =? a then b else if v =? b then a else v.
Proof.
  unfold xdelta. destruct (Z.eqb_spec v a) as [->|Ha]; cbn.
  - by rewrite <- Z.lxor_assoc, Z.lxor_nilpotent.
  - destruct (Z.eqb_spec v b) as [->|Hb]; cbn; [|apply Z.lxor_0_r].
    by rewrite (Z.lxor_comm a), <- Z.lxor_assoc, Z.lxor_nilpotent.
Qed.

Lemma index_shl4 p i : 1 <= i < W -> index (ushl vb p 4) i = index p (i - 1).
Proof.
  intros. pose proof vb_room. apply index_ext; [lia..|]. intros n Hn. zbits.
Qed.

Lemma exchange_values_loop_index a b k diff p j :
  0 <= a < 16 -> 0 <= b < 16 -> Z.of_nat k <= W -> 0 <= j < W ->
  (forall n, 0 <= n < 4 -> Z.testbit diff n = false) ->
  index (exchange_values_loop W k a b diff p) j =
  if j <? Z.of_nat k then xdelta a b (index p (W - Z.of_nat k + j))
  else index diff (j - Z.of_nat k).
Proof.
  intros Ha Hb. revert diff p. pose proof vb_room.
  induction k as [|k IH]; intros diff p Hk Hj Hdiff; cbn [exchange_values_loop].
  { destruct (Z.ltb_spec j (Z.of_nat 0)); [lia|]. f_equal. lia. }
  rewrite xdelta_code by done.
  set (v := Z.land (Z.shiftr p (Z.shiftl W 2)) 15).
  assert (v = index p (W - 1)) as Hv.
  { unfold v, index. rewrite !shiftl_2. do 2 f_equal. lia. }
  pose proof (xdelta_range a b v Ha Hb) as Hx.
  assert (forall n, 4 <= n -> Z.testbit (xdelta a b v) n = false) as Hxb.
  { intros. apply (testbit_in_u 4); [lia|exact Hx|done]. }
  rewrite IH; [|lia|lia|intros; zbits].
  destruct (Z.ltb_spec j (Z.of_nat (S k))), (Z.ltb_spec j (Z.of_nat k)); try lia.
  - rewrite index_shl4 by lia. do 2 f_equal. lia.
  - assert (W - Z.of_nat (S k) + j = W - 1) as -> by lia. rewrite <- Hv.
    apply Z.bits_inj'. intros n Hn. rewrite testbit_index by lia.
    destruct (Z.ltb_spec n 4); [|by rewrite Hxb by lia].
    zbits_rw. replace (n + (4 * (j - Z.of_nat k) + 4) - 4) with n by lia.
    rewrite Hdiff by lia. zbits.
  - apply index_ext; [lia..|]. intros n Hn.
    zbits_rw. rewrite Hxb by lia. zbits.
Qed.

Lemma exchange_values_loop_low a b k diff p n :
  0 <= a < 16 -> 0 <= b < 16 -> 0 <= n < 4 ->
  Z.testbit (exchange_values_loop W (S k) a b diff p) n = false.
Proof.
  intros Ha Hb Hn. pose proof vb_room. revert diff p.
  induction k as [|k IH]; intros diff p.
  - cbn [exchange_values_loop]. zbits.
  - apply IH.
Qed.

Lemma exchange_values_index x a b j :
  0 <= a < 16 -> 0 <= b < 16 -> 0 <= j < W ->
  index (exchange_values W x a b) j =
  if index x j =? a then b else if index x j =? b then a else index x j.
Proof.
  intros Ha Hb Hj. rewrite <- xdelta_swap.
  pose proof (exchange_values_loop_index a b (Z.to_nat W) 0 x j Ha Hb) as Hl.
  rewrite Z2Nat.id in Hl by lia. destruct (Z.ltb_spec j W); [|lia].
  replace (W - W + j) with j in Hl by lia. rewrite <- Hl by (intros; rewrite ?Z.testbit_0_l; lia || done).
  apply Z.bits_inj'. intros n Hn. unfold exchange_values.
  rewrite Z.lxor_spec, !testbit_index, Z.lxor_spec by lia. btauto.
Qed.

Lemma exchange_values_size x a b :
  0 <= a < 16 -> 0 <= b < 16 -> size (exchange_values W x a b) = size x.
Proof.
  intros Ha Hb. apply size_ext. intros n Hn. unfold exchange_values.
  destruct (Z.to_nat W) as [|k] eqn:E; [lia|].
  rewrite Z.lxor_spec, exchange_values_loop_low by done. btauto.
Qed.

(** ** The list of slots *)
Definition slots (x : kpermuter) : list Z := index x <$> seqZ 0 W.

Lemma slots_length x : zlength (slots x) = W.
Proof. unfold zlength, slots. rewrite length_fmap, length_seqZ. lia. Qed.

Lemma slots_lookup x j : 0 <= j < W -> zlookup (slots x) j = Some (index x j).
Proof.
  intros. rewrite zlookup_nonneg by lia. unfold slots.
  rewrite list_lookup_fmap, lookup_seqZ_lt by lia. cbn. do 2 f_equal. lia.
Qed.

Lemma slots_intro x l :
  zlength l = W -> (forall j, 0 <= j < W -> zlookup l j = Some (index x j)) ->
  slots x = l.
Proof.
  intros Hl H. apply zlookup_ext; rewrite slots_length; [done|].
  intros. rewrite H by done. by apply slots_lookup.
Qed.

Lemma slots_index x l v j :
  slots x = l -> 0 <= j < W -> zlookup l j = Some v -> index x j = v.
Proof. intros <- Hj Hv. rewrite slots_lookup in Hv by done. congruence. Qed.

(** Each update is the list operation its comment describes. *)
Lemma insert_from_back_slots x i l v :
  size x < W -> 0 <= i < W -> slots x = l ++ [v] ->
  slots (insert_from_back W x i).2 = insert_at i v l.
Proof.
  intros Hs Hi Hl. pose proof (slots_length x) as Hlen.
  rewrite Hl, zlength_app in Hlen. change (zlength [v]) with 1 in Hlen.
  apply slots_intro; [rewrite zlength_insert_at; lia|]. intros j Hj.
  rewrite zlookup_insert_at, insert_from_back_index by lia.
  assert (forall k, 0 <= k < W - 1 -> zlookup l k = Some (index x k)) as Hk.
  { intros k Hk. rewrite <- slots_lookup by lia. rewrite Hl, zlookup_app by lia.
    destruct (Z.ltb_spec k (zlength l)); [done|lia]. }
  destruct (Z.ltb_spec j i); [by apply Hk; lia|].
  destruct (Z.eqb_spec j i); [|by apply Hk; lia].
  f_equal. symmetry. apply (slots_index _ _ _ _ Hl); [lia|].
  replace (W - 1) with (zlength l) by lia. apply zlookup_mid.
Qed.

Lemma insert_selected_slots x di si v :
  size x < W -> 0 <= di <= si -> si < W -> zlookup (slots x) si = Some v ->
  slots (insert_selected W x di si) = insert_at di v (delete_at si (slots x)).
Proof.
  intros Hs Hd Hsi Hv. pose proof (slots_length x) as Hlen.
  rewrite slots_lookup in Hv by lia. injection Hv as <-.
  apply slots_intro; [rewrite zlength_insert_at, zlength_delete_at; lia|].
  intros j Hj. rewrite zlookup_insert_at by (rewrite ?zlength_delete_at; lia).
  rewrite insert_selected_index by lia.
  destruct (Z.ltb_spec j di); [|destruct (Z.eqb_spec j di); [done|]].
  - rewrite zlookup_delete_at by lia.
    destruct (Z.ltb_spec j si); [|lia]. by apply slots_lookup.
  - rewrite zlookup_delete_at by lia.
    destruct (Z.ltb_spec (j - 1) si), (Z.leb_spec j si); try lia.
    + apply slots_lookup. lia.
    + rewrite slots_lookup by lia. do 2 f_equal. lia.
Qed.

Lemma remove_slots x i v :
  size x <= W -> 0 <= i < size x -> zlookup (slots x) i = Some v ->
  slots (remove W x i) = insert_at (size x - 1) v (delete_at i (slots x)).
Proof.
  intros Hs Hi Hv. pose proof (slots_length x) as Hlen.
  rewrite slots_lookup in Hv by lia. injection Hv as <-.
  apply slots_intro; [rewrite zlength_insert_at, zlength_delete_at; lia|].
  intros j Hj. rewrite zlookup_insert_at by (rewrite ?zlength_delete_at; lia).
  rewrite remove_index by lia.
  destruct (Z.ltb_spec j (size x - 1)); [|destruct (Z.eqb_spec j (size x - 1))].
  - rewrite zlookup_delete_at by lia. destruct (Z.ltb_spec j i); apply slots_lookup; lia.
  - destruct (Z.ltb_spec j i); [lia|done].
  - rewrite zlookup_delete_at by lia. destruct (Z.ltb_spec j i); [lia|].
    destruct (Z.ltb_spec (j - 1) i); [lia|].
    rewrite slots_lookup by lia. do 2 f_equal. lia.
Qed.

Lemma remove_to_back_slots x i v :
  size x <= W -> 0 <= i < size x -> zlookup (slots x) i = Some v ->
  slots (remove_to_back W x i) = delete_at i (slots x) ++ [v].
Proof.
  intros Hs Hi Hv. pose proof (slots_length x) as Hlen.
  rewrite slots_lookup in Hv by lia. injection Hv as <-.
  apply slots_intro.
  { rewrite zlength_app, zlength_delete_at by lia. change (zlength _) with 1 at 2. lia. }
  intros j Hj. rewrite zlookup_app, remove_to_back_index, zlength_delete_at by lia.
  rewrite Hlen. destruct (Z.ltb_spec j (W - 1)).
  - rewrite zlookup_delete_at by lia. destruct (Z.ltb_spec j i); apply slots_lookup; lia.
  - destruct (Z.ltb_spec j i); [lia|]. by replace (j - (W - 1)) with 0 by lia.
Qed.

Lemma rotate_slots x a b c :
  slots x = a ++ b ++ c ->
  slots (rotate W x (zlength a) (zlength a + zlength b)) = a ++ c ++ b.
Proof.
  intros Hl. pose proof (slots_length x) as Hlen.
  rewrite Hl, !zlength_app in Hlen.
  pose proof (zlength_nonneg a). pose proof (zlength_nonneg b).
  pose proof (zlength_nonneg c).
  apply slots_intro; [rewrite !zlength_app; lia|].
  intros j Hj. rewrite rotate_index by lia.
  destruct (Z.ltb_spec j (zlength a)) as [Ha|Ha].
  { by rewrite <- slots_lookup, Hl, !zlookup_app_l by lia. }
  rewrite zlookup_app_r by lia.
  destruct (Z.ltb_spec (j - zlength a) (zlength c)) as [Hc|Hc].
  - rewrite zlookup_app_l, Z.mod_small, <- slots_lookup, Hl by lia.
    rewrite zlookup_app_r, zlookup_app_r by lia. f_equal. lia.
  - assert ((j - zlength a + (zlength a + zlength b - zlength a)) mod (W - zlength a)
            = j - zlength a - zlength c) as ->.
    { symmetry. apply (Z.mod_unique _ _ 1); lia. }
    rewrite zlookup_app_r, <- slots_lookup, Hl by lia.
    rewrite zlookup_app_r, zlookup_app_l by lia. f_equal. lia.
Qed.

Lemma exchange_slots x i j :
  0 <= i < W -> 0 <= j < W ->
  slots (exchange W x i j) =
  <[Z.to_nat i := index x j]> (<[Z.to_nat j := index x i]> (slots x)).
Proof.
  intros Hi Hj. pose proof (slots_length x) as Hlen. unfold zlength in Hlen.
  apply slots_intro; [unfold zlength; by rewrite !length_insert|].
  intros k Hk. rewrite zlookup_nonneg, !list_lookup_insert, exchange_index by lia.
  rewrite length_insert.
  destruct (Z.eqb_spec k i), (Z.eqb_spec k j); repeat case_decide; try lia; try done.
  rewrite <- slots_lookup, zlookup_nonneg by lia. done.
Qed.

Lemma exchange_values_slots x a b :
  0 <= a < 16 -> 0 <= b < 16 ->
  slots (exchange_values W x a b) =
  (fun v => if v =? a then b else if v =? b then a else v) <$> slots x.
Proof.
  intros Ha Hb. unfold slots. rewrite <- list_fmap_compose.
  apply list_fmap_ext. intros k z Hz. apply lookup_seqZ in Hz as [-> Hz].
  apply exchange_values_index; lia.
Qed.

Ltac word_range :=
  apply in_u_testbit; [pose proof vb_room; lia|];
  let n := fresh "n" in let Hn := fresh "Hn" in
  intros n Hn; unfold kmask, ushl, unot;
  rewrite ?Z.lor_spec, ?Z.land_spec, ?testbit_uwrap by (pose proof vb_room; lia);
  destruct (Z.ltb_spec n vb); [lia|];
  rewrite ?andb_false_l, ?andb_false_r; try done.

Lemma insert_from_back_word x i : in_u vb (insert_from_back W x i).2.
Proof. unfold insert_from_back. cbn [snd]. word_range. Qed.
Lemma insert_selected_word x di si :
  in_u vb x -> in_u vb (insert_selected W x di si).
Proof.
  intros Hx. unfold insert_selected. word_range.
Qed.
Lemma remove_word x i : in_u vb (remove W x i).
Proof.
  unfold remove. destruct (_ =? _).
  - apply uwrap_range. pose proof vb_room. lia.
  - word_range.
Qed.
Lemma remove_to_back_word x i : in_u vb (remove_to_back W x i).
Proof. unfold remove_to_back. word_range. Qed.
Lemma rotate_word x i j : in_u vb (rotate W x i j).
Proof. unfold rotate. word_range. Qed.
Lemma exchange_word x i j : in_u vb x -> in_u vb (exchange W x i j).
Proof.
  intros Hx. unfold exchange. pose proof vb_room.
  apply in_u_testbit; [lia|]. intros n Hn.
  rewrite Z.lxor_spec, (testbit_in_u vb x), Z.lor_spec by done || lia.
  unfold ushl. rewrite !testbit_uwrap by lia.
  by destruct (Z.ltb_spec n vb); [lia|].
Qed.

(** ** The contract: a list of live slots and a list of free ones

    [repr x live free]: the word [x] holds the live slots [live], in key
    order, and the unallocated slots [free], the next one to be allocated
    last. *)
Record repr (x : kpermuter) (live free : list Z) : Prop := {
  repr_word : in_u vb x;
  repr_size : size x = zlength live;
  repr_slots : slots x = live ++ free;
  repr_perm : live ++ free ≡ₚ seqZ 0 W;
}.

Lemma repr_length x live free :
  repr x live free -> zlength live + zlength free = W.
Proof.
  intros [_ _ Hs _]. rewrite <- (slots_length x), Hs, zlength_app. done.
Qed.

(** A word with the same slots up to a permutation represents what its
    slots and size say. *)
Lemma repr_intro x live free live0 free0 :
  live0 ++ free0 ≡ₚ seqZ 0 W -> live ++ free ≡ₚ live0 ++ free0 ->
  in_u vb x -> size x = zlength live -> slots x = live ++ free ->
  repr x live free.
Proof. intros Hp Hq ? ? ?. split; [done..|]. by rewrite Hq. Qed.

Lemma repr_NoDup x live free : repr x live free -> NoDup (live ++ free).
Proof. intros [_ _ _ Hp]. rewrite Hp. apply NoDup_seqZ. Qed.

Lemma repr_range x live free v :
  repr x live free -> v ∈ live ++ free -> 0 <= v < W.
Proof. intros [_ _ _ Hp]. rewrite Hp, elem_of_seqZ. lia. Qed.

Lemma repr_index x live free i :
  repr x live free -> 0 <= i < zlength live ->
  zlookup live i = Some (index x i).
Proof.
  intros Hr Hi. pose proof (repr_length _ _ _ Hr). pose proof (zlength_nonneg free).
  rewrite <- slots_lookup, (repr_slots _ _ _ Hr), zlookup_app_l by lia. done.
Qed.

Lemma insert_from_back_repr x i live free v :
  repr x live (free ++ [v]) -> 0 <= i <= zlength live ->
  (insert_from_back W x i).1 = v /\
  repr (insert_from_back W x i).2 (insert_at i v live) free.
Proof.
  intros Hr Hi. pose proof (repr_length _ _ _ Hr) as Hlen.
  rewrite zlength_app in Hlen. change (zlength [v]) with 1 in Hlen.
  pose proof (zlength_nonneg free).
  destruct Hr as [Hw Hsz Hsl Hp]. rewrite app_assoc in Hsl.
  split.
  { apply (slots_index _ _ _ _ Hsl); [lia|].
    replace (W - 1) with (zlength (live ++ free)) by (rewrite zlength_app; lia).
    apply zlookup_mid. }
  apply (repr_intro _ _ _ live (free ++ [v])); [done| |apply insert_from_back_word| |].
  - rewrite insert_at_perm, app_assoc. cbn. apply Permutation_cons_append.
  - rewrite insert_from_back_size, zlength_insert_at by lia. lia.
  - rewrite (insert_from_back_slots _ _ (live ++ free) v) by (done || lia).
    apply insert_at_app_l. lia.
Qed.

Lemma insert_selected_repr x di live f1 v f2 :
  repr x live (f1 ++ v :: f2) -> 0 <= di <= zlength live ->
  repr (insert_selected W x di (zlength live + zlength f1))
       (insert_at di v live) (f1 ++ f2).
Proof.
  intros Hr Hi. pose proof (repr_length _ _ _ Hr) as Hlen.
  rewrite cons_middle, !zlength_app in Hlen. change (zlength [v]) with 1 in Hlen.
  pose proof (zlength_nonneg f1). pose proof (zlength_nonneg f2).
  destruct Hr as [Hw Hsz Hsl Hp]. rewrite app_assoc in Hsl.
  apply (repr_intro _ _ _ live (f1 ++ v :: f2));
    [done| |by apply insert_selected_word| |].
  - rewrite insert_at_perm, (app_assoc live f1), <- Permutation_middle, <- app_assoc.
    done.
  - rewrite insert_selected_size, zlength_insert_at by lia. lia.
  - rewrite <- zlength_app.
    rewrite (insert_selected_slots _ _ _ v), Hsl, delete_at_mid by
      (rewrite ?Hsl, ?zlookup_mid, ?zlength_app; done || lia).
    rewrite <- app_assoc. apply insert_at_app_l. lia.
Qed.

Lemma remove_repr x l1 v l2 free :
  repr x (l1 ++ v :: l2) free ->
  repr (remove W x (zlength l1)) (l1 ++ l2) (v :: free).
Proof.
  intros Hr. pose proof (repr_length _ _ _ Hr) as Hlen.
  rewrite cons_middle, !zlength_app in Hlen. change (zlength [v]) with 1 in Hlen.
  pose proof (zlength_nonneg l1). pose proof (zlength_nonneg l2).
  pose proof (zlength_nonneg free).
  destruct Hr as [Hw Hsz Hsl Hp].
  rewrite cons_middle, !zlength_app in Hsz. change (zlength [v]) with 1 in Hsz.
  rewrite <- app_assoc in Hsl. cbn in Hsl.
  apply (repr_intro _ _ _ (l1 ++ v :: l2) free); [done| |apply remove_word| |].
  - rewrite <- !Permutation_middle. done.
  - rewrite remove_size, zlength_app by lia. lia.
  - rewrite (remove_slots _ _ v), Hsl, delete_at_mid, Hsz by
      (rewrite ?Hsl, ?zlookup_mid; done || lia).
    replace (zlength l1 + (1 + zlength l2) - 1) with (zlength (l1 ++ l2))
      by (rewrite zlength_app; lia).
    rewrite (app_assoc l1 l2). apply insert_at_app_mid.
Qed.

Lemma remove_to_back_repr x l1 v l2 free :
  repr x (l1 ++ v :: l2) free ->
  repr (remove_to_back W x (zlength l1)) (l1 ++ l2) (free ++ [v]).
Proof.
  intros Hr. pose proof (repr_length _ _ _ Hr) as Hlen.
  rewrite cons_middle, !zlength_app in Hlen. change (zlength [v]) with 1 in Hlen.
  pose proof (zlength_nonneg l1). pose proof (zlength_nonneg l2).
  pose proof (zlength_nonneg free).
  destruct Hr as [Hw Hsz Hsl Hp].
  rewrite cons_middle, !zlength_app in Hsz. change (zlength [v]) with 1 in Hsz.
  rewrite <- app_assoc in Hsl. cbn in Hsl.
  apply (repr_intro _ _ _ (l1 ++ v :: l2) free); [done| |apply remove_to_back_word| |].
  - by rewrite (app_assoc (l1 ++ l2)), <- Permutation_cons_append, <- Permutation_middle.
  - rewrite remove_to_back_size, zlength_app by lia. lia.
  - rewrite (remove_to_back_slots _ _ v), Hsl, delete_at_mid by
      (rewrite ?Hsl, ?zlookup_mid; done || lia).
    by rewrite <- !app_assoc.
Qed.

Lemma exchange_repr x p v q w r live free live' free' :
  repr x live free -> live ++ free = p ++ v :: q ++ w :: r ->
  live' ++ free' = p ++ w :: q ++ v :: r -> zlength live' = zlength live ->
  repr (exchange W x (zlength p) (zlength p + 1 + zlength q)) live' free'.
Proof.
  intros Hr Hs Hs' Hl. pose proof (repr_length _ _ _ Hr) as Hlen.
  assert (zlength p + 1 + zlength q + 1 + zlength r = W) as Hpq.
  { rewrite <- zlength_app, Hs, zlength_app, zlength_cons, zlength_app, zlength_cons
      in Hlen. lia. }
  pose proof (zlength_nonneg p). pose proof (zlength_nonneg q).
  pose proof (zlength_nonneg r).
  destruct Hr as [Hw Hsz Hsl Hp]. rewrite Hs in Hsl.
  apply (repr_intro _ _ _ live free); [done| |by apply exchange_word| |].
  - rewrite Hs, Hs'. f_equiv. rewrite <- !Permutation_middle. apply Permutation_swap.
  - rewrite exchange_size by lia. lia.
  - rewrite exchange_slots, Hs' by lia.
    rewrite (slots_index _ _ v (zlength p) Hsl) by (lia || apply zlookup_mid).
    rewrite (slots_index _ _ w (zlength p + 1 + zlength q) Hsl); [|lia|].
    2: { rewrite app_comm_cons, app_assoc.
         replace (zlength p + 1 + zlength q) with (zlength (p ++ v :: q))
           by (rewrite zlength_app, zlength_cons; lia).
         apply zlookup_mid. }
    rewrite Hsl. unfold zlength.
    replace (Z.to_nat (Z.of_nat (length p))) with (length p + 0)%nat by lia.
    replace (Z.to_nat _) with (length p + S (length q + 0))%nat by lia.
    rewrite !insert_app_r. f_equal.
    transitivity (w :: <[(length q + 0)%nat := v]> (q ++ w :: r)); [done|].
    by rewrite insert_app_r.
Qed.

(** The exchange [make_split] makes: the first and the last free slot change
    places, so that another slot is allocated next. *)
Lemma exchange_free_repr x live v f w :
  repr x live (v :: f ++ [w]) ->
  repr (exchange W x (zlength live) (W - 1)) live (w :: f ++ [v]).
Proof.
  intros Hr. pose proof (repr_length _ _ _ Hr) as Hlen.
  rewrite zlength_cons, zlength_app in Hlen. change (zlength [w]) with 1 in Hlen.
  replace (W - 1) with (zlength live + 1 + zlength f) by lia.
  by apply (exchange_repr x live v f w [] _ _ _ _ Hr).
Qed.

Lemma set_size_repr x live free live' free' :
  repr x live free -> live' ++ free' = live ++ free ->
  repr (set_size W x (zlength live')) live' free'.
Proof.
  intros Hr Hs'. pose proof (repr_length _ _ _ Hr) as Hlen. pose proof vb_room.
  assert (zlength live' + zlength free' = W) as Hlen'.
  { rewrite <- zlength_app, Hs', zlength_app. done. }
  pose proof (zlength_nonneg live'). pose proof (zlength_nonneg free').
  destruct Hr as [Hw Hsz Hsl Hp]. rewrite <- Hs' in Hp, Hsl.
  assert (forall n, 4 <= n -> Z.testbit (zlength live') n = false) as Hl.
  { intros. apply (testbit_in_u 4); [lia|unfold in_u; lia|done]. }
  split; [| | |done].
  - apply in_u_testbit; [lia|]. intros n Hn. unfold set_size.
    rewrite Z.lor_spec, Z.land_spec, (testbit_in_u vb x), Hl by done || lia. done.
  - transitivity (size (zlength live')).
    + apply size_ext. intros n Hn. unfold set_size.
      change 15 with (Z.ones 4). zbits.
    + rewrite size_mod, Z.mod_small; lia.
  - rewrite <- Hsl. apply slots_intro; [apply slots_length|].
    intros j Hj. rewrite slots_lookup by done. f_equal.
    apply index_ext; [lia..|]. intros n Hn. unfold set_size.
    change 15 with (Z.ones 4). zbits_rw. rewrite Hl by lia. zbits.
Qed.

Lemma rotate_repr x a b c live free live' free' :
  repr x live free -> live ++ free = a ++ b ++ c ->
  live' ++ free' = a ++ c ++ b -> zlength live' = zlength live ->
  repr (rotate W x (zlength a) (zlength a + zlength b)) live' free'.
Proof.
  intros Hr Hs Hs' Hl. pose proof (repr_length _ _ _ Hr) as Hlen.
  assert (zlength a + zlength b + zlength c = W) as Habc.
  { rewrite <- zlength_app, Hs, !zlength_app in Hlen. lia. }
  pose proof (zlength_nonneg a). pose proof (zlength_nonneg b).
  pose proof (zlength_nonneg c).
  destruct Hr as [Hw Hsz Hsl Hp].
  apply (repr_intro _ _ _ live free); [done| |apply rotate_word| |].
  - by rewrite Hs, Hs', (Permutation_app_comm b).
  - rewrite rotate_size; lia.
  - rewrite Hs'. apply rotate_slots. by rewrite Hsl.
Qed.

Lemma exchange_values_word x a b :
  0 <= a < 16 -> 0 <= b < 16 -> in_u vb x -> in_u vb (exchange_values W x a b).
Proof.
  intros Ha Hb Hx. pose proof vb_room.
  unfold exchange_values.
  assert (forall k d p, in_u vb d -> in_u vb (exchange_values_loop W k a b d p)) as Hl.
  { intros k. induction k as [|k IH]; intros d p Hd; cbn; [done|].
    apply IH, uwrap_range. lia. }
  apply in_u_testbit; [lia|]. intros n Hn.
  rewrite Z.lxor_spec, (testbit_in_u vb x) by done || lia.
  rewrite (testbit_in_u vb); [done|lia| |lia]. apply Hl.
  unfold in_u. pose proof (Z.pow_pos_nonneg 2 vb). lia.
Qed.

Definition swap_values (a b v : Z) : Z := if v =? a then b else if v =? b then a else v.

Lemma swap_values_perm a b (l : list Z) :
  NoDup l -> a ∈ l -> b ∈ l -> swap_values a b <$> l ≡ₚ l.
Proof.
  intros Hnd Ha Hb.
  assert (forall v, swap_values a b (swap_values a b v) = v) as Hinv.
  { intros v. unfold swap_values.
    destruct (Z.eqb_spec v a) as [->|]; [|destruct (Z.eqb_spec v b) as [->|]];
      repeat (case_match; try lia). }
  apply NoDup_Permutation; [|done|].
  - apply NoDup_fmap_2; [|done]. intros u v Huv.
    by rewrite <- (Hinv u), Huv, Hinv.
  - intros v. rewrite list_elem_of_fmap. split.
    + intros (u & -> & Hu). unfold swap_values. by repeat case_match.
    + intros Hv. exists (swap_values a b v). split; [by rewrite Hinv|].
      unfold swap_values. by repeat case_match.
Qed.

Lemma exchange_values_repr x a b live free :
  repr x live free -> 0 <= a < W -> 0 <= b < W ->
  repr (exchange_values W x a b)
       (swap_values a b <$> live) (swap_values a b <$> free).
Proof.
  intros Hr Ha Hb. pose proof (repr_NoDup _ _ _ Hr) as Hnd.
  destruct Hr as [Hw Hsz Hsl Hp].
  apply (repr_intro _ _ _ live free); [done| | | |].
  - rewrite <- fmap_app. apply swap_values_perm; [done|..];
      rewrite Hp, elem_of_seqZ; lia.
  - apply exchange_values_word; [lia..|done].
  - rewrite exchange_values_size by lia. unfold zlength. by rewrite length_fmap.
  - rewrite exchange_values_slots by lia. by rewrite Hsl, fmap_app.
Qed.
End proofs.

(** The constructors: every width and every size, by computation. *)
Definition make_sorted_ok (W n : Z) : bool :=
  let x := make_sorted W n in
  (0 <=? x) && (x <? 2 ^ value_bits W) && (size x =? n) &&
  bool_decide (slots W x = seqZ 0 n ++ reverse (seqZ n (W - n))).

Lemma make_sorted_all :
  forallb (fun W => forallb (make_sorted_ok W) (seqZ 0 (W + 1))) (seqZ 1 15) = true.
Proof. vm_compute. reflexivity. Qed.

Lemma make_sorted_repr W n :
  1 <= W <= 15 -> 0 <= n <= W ->
  repr W (make_sorted W n) (seqZ 0 n) (reverse (seqZ n (W - n))).
Proof.
  intros HW Hn. pose proof make_sorted_all as H.
  rewrite forallb_forall in H. specialize (H W).
  rewrite <- list_elem_of_In, elem_of_seqZ in H. specialize (H ltac:(lia)).
  rewrite forallb_forall in H. specialize (H n).
  rewrite <- list_elem_of_In, elem_of_seqZ in H. specialize (H ltac:(lia)).
  unfold make_sorted_ok in H. rewrite !andb_true_iff, bool_decide_eq_true in H.
  destruct H as (((H1 & H2) & H3) & H4).
  split; [unfold in_u; lia| |done|].
  - unfold zlength. rewrite length_seqZ. lia.
  - rewrite reverse_Permutation. replace W with (n + (W - n)) at 2 by lia.
    rewrite (seqZ_app 0 n (W - n)) by lia. done.
Qed.

(** Storing a permuter in [permutation_] (of [storage_type]) and reading it
    back keeps its size and its slots. *)
Definition store_permutation (W : Z) (x : kpermuter) : Z := uwrap (storage_bits W) x.

Lemma storage_room W : 1 <= W <= 15 -> 4 * W + 4 <= storage_bits W.
Proof.
  intros. unfold storage_bits, info_class, b2z.
  destruct (Z.ltb_spec 3 W), (Z.ltb_spec 7 W), (Z.ltb_spec 15 W); simpl; lia.
Qed.

Lemma store_permutation_index W x i :
  1 <= W <= 15 -> 0 <= i < W -> index (store_permutation W x) i = index x i.
Proof.
  intros. pose proof (storage_room W). apply index_ext; [lia..|].
  intros n Hn. unfold store_permutation. zbits.
Qed.

Lemma store_permutation_repr W x live free :
  1 <= W <= 15 -> repr W x live free -> repr W (store_permutation W x) live free.
Proof.
  intros HW [Hw Hsz Hsl Hp]. pose proof (storage_room W HW).
  assert (storage_bits W <= value_bits W) as Hsv.
  { unfold storage_bits, value_bits. destruct (info_class W) as [|[|[]|]|]; lia. }
  split; [| | |done].
  - unfold store_permutation. pose proof (uwrap_range (storage_bits W) x) as Hr.
    pose proof (Z.pow_le_mono_r 2 (storage_bits W) (value_bits W)).
    unfold in_u in *. lia.
  - rewrite <- Hsz. apply size_ext. intros n Hn. unfold store_permutation. zbits.
  - rewrite <- Hsl. apply slots_intro; [done|by apply slots_length|].
    intros j Hj. rewrite slots_lookup by lia. by rewrite store_permutation_index.
Qed.

(** * The class as a state machine

    [exec] runs one method on the word; [spec_step] says what the method
    does to the list of live slots and the list of free ones. *)
Inductive op :=
| Insert_from_back (i : Z)
| Insert_selected (di si : Z)
| Remove (i : Z)
| Remove_to_back (i : Z)
| Rotate (i j : Z)
| Exchange (i j : Z)
| Exchange_values (a b : Z)
| Set_size (n : Z).

Definition exec (W : Z) (o : op) (x : kpermuter) : option Z * kpermuter :=
  match o with
  | Insert_from_back i =>
      let '(v, x') := insert_from_back W x i in (Some v, x')
  | Insert_selected di si => (None, insert_selected W x di si)
  | Remove i => (None, remove W x i)
  | Remove_to_back i => (None, remove_to_back W x i)
  | Rotate i j => (None, rotate W x i j)
  | Exchange i j => (None, exchange W x i j)
  | Exchange_values a b => (None, exchange_values W x a b)
  | Set_size n => (None, set_size W x n)
  end.

Definition astate : Type := list Z * list Z.

Inductive spec_step (W : Z) : astate -> op -> option Z -> astate -> Prop :=
| spec_insert_from_back i live free v :
    0 <= i <= zlength live ->
    spec_step W (live, free ++ [v]) (Insert_from_back i) (Some v)
              (insert_at i v live, free)
| spec_insert_selected di live f1 v f2 :
    0 <= di <= zlength live ->
    spec_step W (live, f1 ++ v :: f2)
              (Insert_selected di (zlength live + zlength f1)) None
              (insert_at di v live, f1 ++ f2)
| spec_remove l1 v l2 free :
    spec_step W (l1 ++ v :: l2, free) (Remove (zlength l1)) None
              (l1 ++ l2, v :: free)
| spec_remove_to_back l1 v l2 free :
    spec_step W (l1 ++ v :: l2, free) (Remove_to_back (zlength l1)) None
              (l1 ++ l2, free ++ [v])
| spec_rotate a b c live free live' free' :
    live ++ free = a ++ b ++ c -> live' ++ free' = a ++ c ++ b ->
    zlength live' = zlength live ->
    spec_step W (live, free) (Rotate (zlength a) (zlength a + zlength b)) None
              (live', free')
| spec_exchange p v q w r live free live' free' :
    live ++ free = p ++ v :: q ++ w :: r ->
    live' ++ free' = p ++ w :: q ++ v :: r -> zlength live' = zlength live ->
    spec_step W (live, free)
              (Exchange (zlength p) (zlength p + 1 + zlength q)) None
              (live', free')
| spec_exchange_values a b live free :
    0 <= a < W -> 0 <= b < W ->
    spec_step W (live, free) (Exchange_values a b) None
              (swap_values a b <$> live, swap_values a b <$> free)
| spec_set_size live free live' free' :
    live' ++ free' = live ++ free ->
    spec_step W (live, free) (Set_size (zlength live')) None (live', free').

(** Runs of the two machines over a sequence of operations. *)
Fixpoint exec_all (W : Z) (os : list op) (x : kpermuter) : list (option Z) * kpermuter :=
  match os with
  | [] => ([], x)
  | o :: os =>
      let '(r, x1) := exec W o x in
      let '(rs, x2) := exec_all W os x1 in (r :: rs, x2)
  end.

Inductive spec_run (W : Z) : astate -> list op -> list (option Z) -> astate -> Prop :=
| spec_run_nil s : spec_run W s [] [] s
| spec_run_cons s1 o r s2 os rs s3 :
    spec_step W s1 o r s2 -> spec_run W s2 os rs s3 ->
    spec_run W s1 (o :: os) (r :: rs) s3.

Lemma exec_step W x s o r s' :
  1 <= W <= 15 -> repr W x s.1 s.2 -> spec_step W s o r s' ->
  (exec W o x).1 = r /\ repr W (exec W o x).2 s'.1 s'.2.
Proof.
  intros HW Hr Hs. destruct Hs; cbn [fst snd] in Hr |- *; cbn [exec].
  - destruct (insert_from_back_repr W HW _ i _ _ _ Hr H) as [He Hr'].
    destruct (insert_from_back W x i) as [v' x']. cbn in *. by rewrite He.
  - split; [done|]. by apply insert_selected_repr.
  - split; [done|]. by apply remove_repr.
  - split; [done|]. by apply remove_to_back_repr.
  - split; [done|]. by eapply rotate_repr.
  - split; [done|]. by eapply exchange_repr.
  - split; [done|]. by apply exchange_values_repr.
  - split; [done|]. by eapply set_size_repr.
Qed.

(** C21: every run of [kpermuter<W>] methods, from the word of [make_sorted(n)],
    returns what the list machine returns and ends in a word that lists
    exactly its live and free slots, which stay a permutation of [0..W-1]. *)
Theorem kpermuter_refines_lists W n os rs live free :
  1 <= W <= 15 -> 0 <= n <= W ->
  spec_run W (seqZ 0 n, reverse (seqZ n (W - n))) os rs (live, free) ->
  (exec_all W os (make_sorted W n)).1 = rs /\
  repr W (exec_all W os (make_sorted W n)).2 live free.
Proof.
  intros HW Hn. pose proof (make_sorted_repr W n HW Hn) as Hr.
  change (seqZ 0 n) with (seqZ 0 n, reverse (seqZ n (W - n))).1 in Hr.
  change (reverse (seqZ n (W - n))) with (seqZ 0 n, reverse (seqZ n (W - n))).2 in Hr at 2.
  change live with (live, free).1 at 2. change free with (live, free).2 at 3.
  generalize dependent (make_sorted W n).
  generalize (seqZ 0 n, reverse (seqZ n (W - n))) (live, free). clear live free Hn n.
  intros s s' x Hr Hrun. revert x Hr.
  induction Hrun as [s|s1 o r s2 os rs s3 Hs _ IH]; intros x Hr; cbn; [done|].
  apply (exec_step _ _ _ _ _ _ HW Hr) in Hs as [He Hr2].
  destruct (exec W o x) as [r' x1]. cbn in He, Hr2. subst r'.
  apply IH in Hr2. destruct (exec_all W os x1) as [rs' x2].
  cbn in *. destruct Hr2 as [-> ?]. done.
Qed.

(** Three methods on [make_sorted(3)]; the rotation brings a free slot in. *)
Lemma kpermuter_refines_lists_witness :
  let os := [Insert_from_back 1; Remove 0; Rotate 2 5] in
  (exec_all 15 os (make_sorted 15 3)).1 = [Some 3; None; None] /\
  repr 15 (exec_all 15 os (make_sorted 15 3)).2 [3; 1; 13] [12; 11; 10; 9; 8; 7; 6; 5; 4; 2; 0; 14].
Proof.
  apply (kpermuter_refines_lists 15 3 [Insert_from_back 1; Remove 0; Rotate 2 5]); [lia..|].
  change (reverse (seqZ 3 (15 - 3))) with ([14; 13; 12; 11; 10; 9; 8; 7; 6; 5; 4] ++ [3]).
  econstructor; [by apply (spec_insert_from_back 15 1 [0; 1; 2])|].
  econstructor; [by apply (spec_remove 15 [] 0 [3; 1; 2])|].
  econstructor; [|constructor].
  by apply (spec_rotate 15 [3; 1] [2; 0; 14] [13; 12; 11; 10; 9; 8; 7; 6; 5; 4]).
Defined.

(** [rotate(i, j)] keeps the size and the slots before [i], and rotates all
    the slots from [i] to the width [W], the free ones included, by [j - i]:
    the modulus is [W - i], and not [size() - i]. *)
Theorem rotate_width W x i j k :
  1 <= W <= 15 -> 0 <= i <= j -> j <= W -> 0 <= k < W ->
  size (rotate W x i j) = size x /\
  index (rotate W x i j) k =
  if k <? i then index x k else index x (i + (k - i + (j - i)) mod (W - i)).
Proof. intros HW Hi Hj Hk. split; [by apply rotate_size|by apply rotate_index]. Qed.

(** With three live slots of 15, [rotate(0, 1)] brings slot 14 in at position
    2, where the rotation of the live slots would have 0. *)
Lemma rotate_width_witness :
  size (rotate 15 (make_sorted 15 3) 0 1) = 3 /\
  index (rotate 15 (make_sorted 15 3) 0 1) 2 = 14.
Proof. exact (rotate_width 15 (make_sorted 15 3) 0 1 2 ltac:(lia) ltac:(lia) ltac:(lia) ltac:(lia)). Defined.

(** * [unparse]: the printed form of a permutation *)
Definition digit (d : Z) : Z := if d <? 10 then 48 + d else 97 + d - 10.

(** One iteration per [i], at most [W + 1] of them; the buffer is the list of
    characters written. *)
Fixpoint unparse_loop (fuel : nat) (W i n p seen : Z) : list Z * Z :=
  match fuel with
  | O => ([], seen)
  | S fuel =>
      let colon := if i =? n then [58] else [] in
      if i =? W then (colon, seen)
      else
        let '(s, seen') :=
          unparse_loop fuel W (i + 1) n (Z.shiftr p 4)
                       (Z.lor seen (Z.shiftl 1 (Z.land p 15))) in
        (colon ++ digit (Z.land p 15) :: s, seen')
  end.
Definition unparse (W : Z) (x : kpermuter) : list Z :=
  let '(s, seen) :=
    unparse_loop (S (Z.to_nat W)) W 0 (Z.land x 15) (Z.shiftr x 4) 0 in
  if seen =? Z.shiftl 1 W - 1 then s else s ++ [63; 33].

Section unparse.
Context (W : Z) (HW : 1 <= W <= 15).

Definition shown (i n : Z) (l : list Z) : list Z :=
  if decide (i <= n) then
    (digit <$> take (Z.to_nat (n - i)) l) ++ 58 :: (digit <$> drop (Z.to_nat (n - i)) l)
  else digit <$> l.

Lemma shown_cons i n v l :
  shown i n (v :: l) = (if i =? n then [58] else []) ++ digit v :: shown (i + 1) n l.
Proof.
  unfold shown. destruct (Z.eqb_spec i n) as [->|He].
  - rewrite Z.sub_diag. destruct (decide (n <= n)); [|lia].
    by destruct (decide (n + 1 <= n)); [lia|].
  - destruct (decide (i <= n)), (decide (i + 1 <= n)); try lia; [|done].
    replace (Z.to_nat (n - i)) with (S (Z.to_nat (n - (i + 1)))) by lia. done.
Qed.

Lemma unparse_loop_spec fuel i n x seen :
  0 <= i <= W -> (Z.to_nat (W - i) < fuel)%nat -> n <= W ->
  let l := index x <$> seqZ i (W - i) in
  unparse_loop fuel W i n (Z.shiftr x (4 * i + 4)) seen =
  (shown i n l, foldl (fun s d => Z.lor s (Z.shiftl 1 d)) seen l).
Proof.
  revert i seen. induction fuel as [|fuel IH]; intros i seen Hi Hf Hn; [lia|].
  cbn [unparse_loop]. destruct (Z.eqb_spec i W) as [->|He].
  { rewrite Z.sub_diag, seqZ_nil by lia. cbn [fmap list_fmap foldl].
    unfold shown. rewrite take_nil, drop_nil.
    destruct (Z.eqb_spec W n) as [->|]; [by destruct (decide (n <= n)); [|lia]|].
    by destruct (decide (W <= n)); [lia|]. }
  assert (Z.land (Z.shiftr x (4 * i + 4)) 15 = index x i) as ->.
  { unfold index. by rewrite shiftl_2. }
  rewrite Z.shiftr_shiftr by lia.
  replace (4 * i + 4 + 4) with (4 * (i + 1) + 4) by lia.
  rewrite IH by lia. rewrite (seqZ_cons i) by lia. cbn [fmap list_fmap foldl].
  rewrite <- Z.add_1_r, <- Z.sub_1_r. replace (W - i - 1) with (W - (i + 1)) by lia.
  by rewrite shown_cons.
Qed.

Lemma seen_testbit seen l m :
  0 <= m -> Forall (fun v => 0 <= v) l ->
  Z.testbit (foldl (fun s d => Z.lor s (Z.shiftl 1 d)) seen l) m =
  Z.testbit seen m || bool_decide (m ∈ l).
Proof.
  intros Hm. revert seen. induction l as [|v l IH]; intros seen Hl; cbn [foldl].
  { case_bool_decide as He; [by apply elem_of_nil in He|btauto]. }
  apply Forall_cons in Hl as [Hv Hl]. rewrite IH by done.
  rewrite Z.lor_spec, testbit_shiftl, <- orb_assoc by done. f_equal.
  assert (Z.testbit 1 (m - v) = (m =? v)) as ->.
  { destruct (Z.eqb_spec m v) as [->|Hd]; [by rewrite Z.sub_diag|].
    destruct (Z.lt_ge_cases (m - v) 0); [by apply Z.testbit_neg_r|].
    apply (testbit_in_u 1); [lia|unfold in_u; lia|lia]. }
  destruct (Z.eqb_spec m v); repeat case_bool_decide; try done; exfalso;
    rewrite elem_of_cons in *; naive_solver.
Qed.

Lemma seen_all x live free :
  repr W x live free ->
  foldl (fun s d => Z.lor s (Z.shiftl 1 d)) 0 (live ++ free) = Z.shiftl 1 W - 1.
Proof.
  intros [_ _ _ Hp].
  assert (Z.shiftl 1 W - 1 = Z.ones W) as ->.
  { rewrite Z.ones_equiv, Z.shiftl_mul_pow2 by lia. lia. }
  apply Z.bits_inj'. intros m Hm. rewrite seen_testbit; [|done|].
  - rewrite Z.testbit_0_l, Z.testbit_ones_nonneg by lia. cbn.
    case_bool_decide as He; rewrite Hp, elem_of_seqZ in He;
      destruct (Z.ltb_spec m W); lia.
  - rewrite Hp. apply Forall_seqZ. lia.
Qed.
End unparse.

(** printing a permutation word shows its live slots, a colon and its free
    slots, and never the [?!] mark of a word that is not a permutation. *)
Theorem unparse_repr W x live free :
  1 <= W <= 15 -> repr W x live free ->
  unparse W x = (digit <$> live) ++ 58 :: (digit <$> free).
Proof.
  intros HW Hr. pose proof (repr_length _ HW _ _ _ Hr).
  pose proof (zlength_nonneg live). pose proof (zlength_nonneg free).
  unfold unparse. fold (size x). rewrite (repr_size _ _ _ _ Hr).
  change (Z.shiftr x 4) with (Z.shiftr x (4 * 0 + 4)).
  rewrite unparse_loop_spec by lia. rewrite Z.sub_0_r.
  fold (slots W x). rewrite (repr_slots _ _ _ _ Hr).
  rewrite (seen_all W HW _ _ _ Hr), Z.eqb_refl.
  unfold shown. destruct (decide (0 <= zlength live)); [|lia].
  rewrite Z.sub_0_r. unfold zlength. rewrite Nat2Z.id.
  by rewrite take_app_length, drop_app_length.
Qed.

Lemma unparse_repr_witness :
  unparse 15 (make_sorted 15 2) = [48; 49; 58; 101; 100; 99; 98; 97; 57; 56; 55; 54; 53; 52; 51; 50].
Proof.
  apply (unparse_repr 15 _ (seqZ 0 2) (reverse (seqZ 2 13))); [lia|].
  apply (make_sorted_repr 15 2); lia.
Defined.
