(* ===== verification/Nodeversion.v ===== *)
(** Node versions, [src/nodeversion.hh].

    A node's version word carries its lock bit, two dirty bits (a writer is
    inserting, a writer is splitting), two counters and the flags
    deleted, root and leaf.  [Module Nodeversion] models the concurrent class
    on one word, [Module Singlethreaded] the single-threaded one; the state
    machine of the writers follows, with the theorem optimistic readers rely
    on: a version that compares unchanged was not written in between. *)
From S2P Require Import Prelude.

(** * [nodeversion_parameters] *)
Record params := {
  nv_bits : Z;
  lock_bit : Z;
  inserting_shift : Z;
  inserting_bit : Z;
  splitting_bit : Z;
  dirty_mask : Z;
  vinsert_lowbit : Z;
  vsplit_lowbit : Z;
  unused1_bit : Z;
  deleted_bit : Z;
  root_bit : Z;
  isleaf_bit : Z;
  split_unlock_mask : Z;
  unlock_mask : Z;
  top_stable_bits : Z;
}.

Definition nodeversion_parameters32 : params :=
  let lock_bit := Z.shiftl 1 0 in
  let inserting_bit := Z.shiftl 1 1 in
  let splitting_bit := Z.shiftl 1 2 in
  let vinsert_lowbit := Z.shiftl 1 3 in
  let vsplit_lowbit := Z.shiftl 1 9 in
  let unused1_bit := Z.shiftl 1 28 in
  let root_bit := Z.shiftl 1 30 in
  {| nv_bits := 32;
     lock_bit := lock_bit;
     inserting_shift := 1;
     inserting_bit := inserting_bit;
     splitting_bit := splitting_bit;
     dirty_mask := Z.lor inserting_bit splitting_bit;
     vinsert_lowbit := vinsert_lowbit;
     vsplit_lowbit := vsplit_lowbit;
     unused1_bit := unused1_bit;
     deleted_bit := Z.shiftl 1 29;
     root_bit := root_bit;
     isleaf_bit := Z.shiftl 1 31;
     split_unlock_mask :=
       unot 32 (Z.lor (Z.lor root_bit unused1_bit) (vsplit_lowbit - 1));
     unlock_mask := unot 32 (Z.lor unused1_bit (vinsert_lowbit - 1));
     top_stable_bits := 4 |}.

Definition nodeversion_parameters64 : params :=
  let lock_bit := Z.shiftl 1 8 in
  let inserting_bit := Z.shiftl 1 9 in
  let splitting_bit := Z.shiftl 1 10 in
  let vinsert_lowbit := Z.shiftl 1 11 in
  let vsplit_lowbit := Z.shiftl 1 27 in
  let unused1_bit := Z.shiftl 1 60 in
  let root_bit := Z.shiftl 1 62 in
  {| nv_bits := 64;
     lock_bit := lock_bit;
     inserting_shift := 9;
     inserting_bit := inserting_bit;
     splitting_bit := splitting_bit;
     dirty_mask := Z.lor inserting_bit splitting_bit;
     vinsert_lowbit := vinsert_lowbit;
     vsplit_lowbit := vsplit_lowbit;
     unused1_bit := unused1_bit;
     deleted_bit := Z.shiftl 1 61;
     root_bit := root_bit;
     isleaf_bit := Z.shiftl 1 63;
     split_unlock_mask :=
       unot 64 (Z.lor (Z.lor root_bit unused1_bit) (vsplit_lowbit - 1));
     unlock_mask := unot 64 (Z.lor unused1_bit (vinsert_lowbit - 1));
     top_stable_bits := 4 |}.

(** [x & bit] as a [bool]. *)
Definition has_bits (x b : Z) : bool := negb (Z.land x b =? 0).

(** * The concurrent class: a method is a function of the word [v_] *)
Module Nodeversion.
Section ops.
Context (P : params).

Definition make (isleaf : bool) : Z := if isleaf then isleaf_bit P else 0.
Definition isleaf (v : Z) : bool := has_bits v (isleaf_bit P).

(** [stable(spin)]: the successive values the loop reads; [None] while it
    still spins at the end of them. *)
Fixpoint stable (reads : list Z) : option Z :=
  match reads with
  | [] => None
  | x :: reads => if has_bits x (dirty_mask P) then stable reads else Some x
  end.

Definition locked (v : Z) : bool := has_bits v (lock_bit P).
Definition inserting (v : Z) : bool := has_bits v (inserting_bit P).
Definition splitting (v : Z) : bool := has_bits v (splitting_bit P).
Definition deleted (v : Z) : bool := has_bits v (deleted_bit P).
Definition has_changed (v x : Z) : bool := lock_bit P <? Z.lxor x v.
Definition is_root (v : Z) : bool := has_bits v (root_bit P).
Definition has_split (v x : Z) : bool := vsplit_lowbit P <=? Z.lxor x v.
Definition simple_has_split (v x : Z) : bool := vsplit_lowbit P <=? Z.lxor x v.

(** [lock(expected, spin)]: each iteration sees the word twice, at the
    compare-and-swap and when [expected] is reloaded.  The result is the
    locked version, which is also the new word. *)
Fixpoint lock (env : list (Z * Z)) (expected : Z) : option Z :=
  match env with
  | [] => None
  | (at_cas, at_reload) :: env =>
      if negb (has_bits expected (lock_bit P)) && (at_cas =? expected)
      then Some (Z.lor expected (lock_bit P))
      else lock env at_reload
  end.

(** [try_lock]: the word at the read, the word at the compare-and-swap; the
    result is the new word when the lock was taken. *)
Definition try_lock (at_read at_cas : Z) : option Z :=
  if negb (has_bits at_read (lock_bit P)) && (at_cas =? at_read)
  then Some (Z.lor at_read (lock_bit P)) else None.

Definition unlock (x : Z) : Z :=
  if has_bits x (splitting_bit P)
  then Z.land (uwrap (nv_bits P) (x + vsplit_lowbit P)) (split_unlock_mask P)
  else Z.land (uwrap (nv_bits P)
                 (x + ushl (nv_bits P) (Z.land x (inserting_bit P)) 2))
              (unlock_mask P).

Definition mark_insert (v : Z) : Z := Z.lor v (inserting_bit P).
Definition mark_split (v : Z) : Z := Z.lor v (splitting_bit P).
Definition mark_change (is_split : bool) (v : Z) : Z :=
  Z.lor v (Z.shiftl (b2z is_split + 1) (inserting_shift P)).
Definition mark_deleted (v : Z) : Z :=
  Z.lor v (Z.lor (deleted_bit P) (splitting_bit P)).
Definition mark_deleted_tree (v : Z) : Z := Z.lor v (deleted_bit P).
Definition mark_root (v : Z) : Z := Z.lor v (root_bit P).
Definition mark_nonroot (v : Z) : Z := Z.land v (unot (nv_bits P) (root_bit P)).
Definition assign_version (v x : Z) : Z := x.
Definition version_value (v : Z) : Z := v.
Definition unlocked_version_value (v : Z) : Z := Z.land v (unlock_mask P).
End ops.
End Nodeversion.

(** * [singlethreaded_nodeversion] *)
Module Singlethreaded.
Section ops.
Context (P : params).

Definition make (isleaf : bool) : Z := if isleaf then isleaf_bit P else 0.
Definition isleaf (v : Z) : bool := has_bits v (isleaf_bit P).
Definition stable (v : Z) : Z := v.
Definition locked (v : Z) : bool := false.
Definition inserting (v : Z) : bool := false.
Definition splitting (v : Z) : bool := false.
Definition deleted (v : Z) : bool := false.
Definition has_changed (v x : Z) : bool := false.
Definition is_root (v : Z) : bool := has_bits v (root_bit P).
Definition has_split (v x : Z) : bool := false.
Definition simple_has_split (v x : Z) : bool := false.
Definition lock (v : Z) : Z := v.
Definition try_lock (v : Z) : bool := true.
Definition unlock (v : Z) : Z := v.
Definition mark_insert (v : Z) : Z := v.
Definition mark_split (v : Z) : Z := Z.land v (unot (nv_bits P) (root_bit P)).
Definition mark_change (is_split : bool) (v : Z) : Z :=
  if is_split then mark_split v else v.
Definition mark_deleted (v : Z) : Z := v.
Definition mark_deleted_tree (v : Z) : Z := Z.lor v (deleted_bit P).
Definition mark_root (v : Z) : Z := Z.lor v (root_bit P).
Definition mark_nonroot (v : Z) : Z := Z.land v (unot (nv_bits P) (root_bit P)).
Definition assign_version (v x : Z) : Z := x.
Definition version_value (v : Z) : Z := v.
Definition unlocked_version_value (v : Z) : Z := v.
End ops.
End Singlethreaded.

(** * The bit layout both parameter sets share

    [s] is the position of the lock bit and [q] that of the low bit of the
    split counter. *)
Class Layout (P : params) (s q : Z) : Prop := {
  lay_s : 0 <= s;
  lay_q : s + 3 < q;
  lay_w : q + 4 < nv_bits P;
  lay_lock : lock_bit P = 2 ^ s;
  lay_shift : inserting_shift P = s + 1;
  lay_inserting : inserting_bit P = 2 ^ (s + 1);
  lay_splitting : splitting_bit P = 2 ^ (s + 2);
  lay_dirty : dirty_mask P = Z.lor (2 ^ (s + 1)) (2 ^ (s + 2));
  lay_vinsert : vinsert_lowbit P = 2 ^ (s + 3);
  lay_vsplit : vsplit_lowbit P = 2 ^ q;
  lay_deleted : deleted_bit P = 2 ^ (nv_bits P - 3);
  lay_root : root_bit P = 2 ^ (nv_bits P - 2);
  lay_isleaf : isleaf_bit P = 2 ^ (nv_bits P - 1);
  lay_split_unlock : split_unlock_mask P =
    unot (nv_bits P)
      (Z.lor (Z.lor (2 ^ (nv_bits P - 2)) (2 ^ (nv_bits P - 4))) (Z.ones q));
  lay_unlock : unlock_mask P =
    unot (nv_bits P) (Z.lor (2 ^ (nv_bits P - 4)) (Z.ones (s + 3)));
}.

#[export] Instance layout32 : Layout nodeversion_parameters32 0 9.
Proof. split; vm_compute; congruence. Qed.
#[export] Instance layout64 : Layout nodeversion_parameters64 8 27.
Proof. split; vm_compute; congruence. Qed.

(** ** The writers' events *)
Inductive event :=
  Lock | Mark_insert | Mark_split | Mark_deleted | Mark_deleted_tree
| Mark_root | Mark_nonroot | Unlock.
#[export] Instance event_eq_dec : EqDecision event.
Proof. solve_decision. Defined.

Section layout.
Context (P : params) (s q : Z) {L : Layout P s q}.
Abbreviation w := (nv_bits P).
(** The counter [vinsert]/[vsplit] read as one number of [cbits] bits. *)
Abbreviation cbits := (nv_bits P - 4 - (s + 3)).
Definition count (v : Z) : Z := Z.land (Z.shiftr v (s + 3)) (Z.ones (w - 4 - (s + 3))).

Ltac lay := pose proof (lay_s (Layout := L)); pose proof (lay_q (Layout := L));
  pose proof (lay_w (Layout := L)).

Lemma has_bits_pow2 x k : 0 <= k -> has_bits x (2 ^ k) = Z.testbit x k.
Proof.
  intros Hk. unfold has_bits. destruct (Z.testbit x k) eqn:E.
  - destruct (Z.eqb_spec (Z.land x (2 ^ k)) 0) as [H|]; [|done].
    apply (f_equal (fun z => Z.testbit z k)) in H.
    rewrite Z.land_spec, E, Z.pow2_bits_true, Z.testbit_0_l in H by done. done.
  - rewrite (proj2 (Z.eqb_eq _ _)); [done|]. apply Z.bits_inj'. intros n Hn.
    rewrite Z.land_spec, Z.pow2_bits_eqb, Z.testbit_0_l by done.
    destruct (Z.eqb_spec k n) as [->|]; [by rewrite E|apply andb_false_r].
Qed.

Lemma has_bits_lor x a b : has_bits x (Z.lor a b) = has_bits x a || has_bits x b.
Proof.
  unfold has_bits. rewrite Z.land_lor_distr_r.
  destruct (Z.eqb_spec (Z.lor (Z.land x a) (Z.land x b)) 0) as [H|H].
  - apply Z.lor_eq_0_iff in H as [-> ->]. done.
  - destruct (Z.eqb_spec (Z.land x a) 0) as [Ha|]; [|done].
    destruct (Z.eqb_spec (Z.land x b) 0) as [Hb|]; [|done].
    by rewrite Ha, Hb in H.
Qed.

Lemma locked_bit v : Nodeversion.locked P v = Z.testbit v s.
Proof. lay. unfold Nodeversion.locked. rewrite lay_lock. by apply has_bits_pow2. Qed.
Lemma inserting_testbit v : Nodeversion.inserting P v = Z.testbit v (s + 1).
Proof. lay. unfold Nodeversion.inserting. rewrite lay_inserting. apply has_bits_pow2. lia. Qed.
Lemma splitting_testbit v : Nodeversion.splitting P v = Z.testbit v (s + 2).
Proof. lay. unfold Nodeversion.splitting. rewrite lay_splitting. apply has_bits_pow2. lia. Qed.
Lemma deleted_testbit v : Nodeversion.deleted P v = Z.testbit v (w - 3).
Proof. lay. unfold Nodeversion.deleted. rewrite lay_deleted. apply has_bits_pow2. lia. Qed.
Lemma is_root_testbit v : Nodeversion.is_root P v = Z.testbit v (w - 2).
Proof. lay. unfold Nodeversion.is_root. rewrite lay_root. apply has_bits_pow2. lia. Qed.
Lemma isleaf_testbit v : Nodeversion.isleaf P v = Z.testbit v (w - 1).
Proof. lay. unfold Nodeversion.isleaf. rewrite lay_isleaf. apply has_bits_pow2. lia. Qed.

Definition dirty (v : Z) : bool := has_bits v (dirty_mask P).
Lemma dirty_testbit v : dirty v = Z.testbit v (s + 1) || Z.testbit v (s + 2).
Proof.
  lay. unfold dirty. rewrite lay_dirty, has_bits_lor, !has_bits_pow2 by lia. done.
Qed.

(** ** Words a node can hold *)
Record wf (v : Z) : Prop := {
  wf_range : in_u w v;
  wf_unused : Z.testbit v (w - 4) = false;
  wf_dirty : dirty v = true -> Nodeversion.locked P v = true;
}.

Lemma count_mod v : count v = (v / 2 ^ (s + 3)) mod 2 ^ cbits.
Proof.
  lay. unfold count. by rewrite Z.land_ones, Z.shiftr_div_pow2 by lia.
Qed.

Lemma count_range v : 0 <= count v < 2 ^ cbits.
Proof. lay. rewrite count_mod. apply Z.mod_pos_bound. lia. Qed.

Lemma count_ext v v' :
  (forall n, s + 3 <= n < w - 4 -> Z.testbit v n = Z.testbit v' n) ->
  count v = count v'.
Proof.
  intros H. lay. unfold count. apply Z.bits_inj'. intros n Hn. zbits_rw.
  destruct (Z.ltb_spec n cbits); [|by rewrite !andb_false_r].
  by rewrite H by lia.
Qed.

(** Adding at the counter does not reach the flags. *)
Lemma add_no_carry v k n :
  in_u w v -> Z.testbit v (w - 4) = false -> s + 3 <= k <= q -> w - 3 <= n ->
  in_u w (v + 2 ^ k) /\ Z.testbit (v + 2 ^ k) n = Z.testbit v n.
Proof.
  intros Hr Hu Hk Hn. lay.
  assert (v mod 2 ^ (w - 3) = v mod 2 ^ (w - 4)) as Hm.
  { rewrite <- !Z.land_ones by lia. apply Z.bits_inj'. intros m Hm. zbits_rw.
    destruct (decide (m = w - 4)) as [->|]; [by rewrite Hu|].
    destruct (Z.ltb_spec m (w - 3)), (Z.ltb_spec m (w - 4)); try lia; done. }
  pose proof (Z.mod_pos_bound v (2 ^ (w - 4))) as Hb.
  pose proof (Z.pow_lt_mono_r 2 k (w - 4)) as Hkw.
  assert (2 ^ (w - 3) = 2 * 2 ^ (w - 4)) as H3.
  { rewrite <- Z.pow_succ_r by lia. f_equal. lia. }
  assert (2 ^ w = 2 ^ (w - 3) * 2 ^ 3) as H8.
  { rewrite <- Z.pow_add_r by lia. f_equal. lia. }
  split.
  - unfold in_u in *.
    assert (v / 2 ^ (w - 3) < 8) as Hd.
    { apply Z.div_lt_upper_bound; lia. }
    pose proof (Z.div_mod v (2 ^ (w - 3))) as Hdm. nia.
  - apply (testbit_add_small v (2 ^ k) (w - 3)); lia.
Qed.

(** ** [unlock] *)
Lemma unlock_split_count v :
  in_u w v -> Z.testbit v (w - 4) = false -> Nodeversion.splitting P v = true ->
  count (Nodeversion.unlock P v) =
  ((count v / 2 ^ (q - s - 3) + 1) * 2 ^ (q - s - 3)) mod 2 ^ cbits.
Proof.
  intros Hr Hu Hs. lay. unfold Nodeversion.unlock.
  change (has_bits v (splitting_bit P)) with (Nodeversion.splitting P v). rewrite Hs.
  rewrite lay_vsplit, lay_split_unlock.
  destruct (add_no_carry v q w Hr Hu) as [Hin _]; [lia..|].
  rewrite uwrap_id by done.
  assert (cbits = (q - s - 3) + (w - 4 - q)) as Hc by lia.
  transitivity (count (Z.shiftl (Z.shiftr (v + 2 ^ q) q) q)).
  { apply count_ext. intros n Hn. zbits_rw. rewrite !Z.pow2_bits_eqb by lia.
    destruct (Z.eqb_spec (w - 2) n), (Z.eqb_spec (w - 4) n),
      (Z.ltb_spec n w); try lia. cbn.
    destruct (Z.ltb_spec n q); cbn.
    - rewrite andb_false_r. symmetry. apply Z.testbit_neg_r. lia.
    - rewrite andb_true_r, Z.shiftr_spec by lia. f_equal. lia. }
  rewrite !count_mod, Z.shiftl_mul_pow2, Z.shiftr_div_pow2 by lia.
  replace (2 ^ q) with (2 ^ (q - s - 3) * 2 ^ (s + 3)) at 3
    by (rewrite <- Z.pow_add_r by lia; f_equal; lia).
  rewrite Z.mul_assoc, Z.div_mul by lia.
  rewrite <- (Z.mul_1_l (2 ^ q)) at 1. rewrite Z.div_add by lia.
  replace (2 ^ q) with (2 ^ (s + 3) * 2 ^ (q - s - 3))
    by (rewrite <- Z.pow_add_r by lia; f_equal; lia).
  rewrite <- Z.div_div by lia. set (c := v / 2 ^ (s + 3)).
  rewrite Hc, Z.pow_add_r by lia. set (B := 2 ^ (q - s - 3)). set (M := 2 ^ (w - 4 - q)).
  assert (0 < B) by (unfold B; lia). assert (0 < M) by (unfold M; lia).
  assert (c mod (B * M) / B = (c / B) mod M) as ->.
  { rewrite Z.rem_mul_r by lia. rewrite (Z.add_comm (c mod B)), (Z.mul_comm B).
    rewrite Z.div_add_l, (Z.div_small (c mod B)) by (try apply Z.mod_pos_bound; lia). lia. }
  rewrite (Z.mul_comm B M), !Z.mul_mod_distr_r by lia. f_equal.
  by rewrite Z.add_mod_idemp_l by lia.
Qed.

Lemma unlock_nosplit_count v :
  in_u w v -> Z.testbit v (w - 4) = false -> Nodeversion.splitting P v = false ->
  count (Nodeversion.unlock P v) =
  (count v + b2z (Nodeversion.inserting P v)) mod 2 ^ cbits.
Proof.
  intros Hr Hu Hs. lay. unfold Nodeversion.unlock.
  change (has_bits v (splitting_bit P)) with (Nodeversion.splitting P v). rewrite Hs.
  assert (ushl w (Z.land v (inserting_bit P)) 2 =
          b2z (Nodeversion.inserting P v) * 2 ^ (s + 3)) as ->.
  { rewrite inserting_testbit, lay_inserting. apply Z.bits_inj'. intros n Hn.
    zbits_rw. rewrite Z.mul_pow2_bits, Z.pow2_bits_eqb by lia.
    destruct (Z.testbit v (s + 1)) eqn:E; cbn [b2z].
    - replace (n - (s + 3)) with (n - 2 - (s + 1)) by lia.
      destruct (Z.eqb_spec (s + 1) (n - 2)) as [He|He].
      + rewrite <- He, E, Z.sub_diag. destruct (Z.ltb_spec n w); [done|lia].
      + rewrite !andb_false_r. symmetry.
        destruct (Z.lt_ge_cases (n - 2 - (s + 1)) 0); [by apply Z.testbit_neg_r|].
        apply (testbit_in_u 1); [lia|unfold in_u; lia|lia].
    - rewrite Z.testbit_0_l. destruct (Z.eqb_spec (s + 1) (n - 2)) as [He|He];
        [rewrite <- He, E|]; btauto. }
  assert (in_u w (v + b2z (Nodeversion.inserting P v) * 2 ^ (s + 3))) as Hin.
  { destruct (add_no_carry v (s + 3) w Hr Hu) as [Hin _]; [lia..|].
    destruct (Nodeversion.inserting P v); cbn [b2z]; [by rewrite Z.mul_1_l|].
    by rewrite Z.mul_0_l, Z.add_0_r. }
  rewrite uwrap_id, lay_unlock by done.
  transitivity (count (v + b2z (Nodeversion.inserting P v) * 2 ^ (s + 3))).
  { apply count_ext. intros n Hn. zbits_rw. rewrite !Z.pow2_bits_eqb by lia.
    destruct (Z.eqb_spec (w - 4) n), (Z.ltb_spec n w), (Z.ltb_spec n (s + 3)); try lia.
    cbn. btauto. }
  rewrite !count_mod, Z.div_add by lia. by rewrite Z.add_mod_idemp_l by lia.
Qed.

(** [unlock] clears the lock and dirty bits and keeps the flags, except that
    a split also clears the root flag. *)
Lemma unlock_low v n :
  0 <= n < s + 3 -> Z.testbit (Nodeversion.unlock P v) n = false.
Proof.
  intros Hn. lay. unfold Nodeversion.unlock.
  rewrite lay_split_unlock, lay_unlock.
  destruct (has_bits _ _); zbits; rewrite ?andb_false_r; done.
Qed.

Lemma unlock_unused v : Z.testbit (Nodeversion.unlock P v) (w - 4) = false.
Proof.
  lay. unfold Nodeversion.unlock. rewrite lay_split_unlock, lay_unlock.
  destruct (has_bits _ _); zbits_rw; rewrite !Z.pow2_bits_eqb by lia;
    rewrite Z.eqb_refl; btauto.
Qed.

Lemma unlock_range v : in_u w (Nodeversion.unlock P v).
Proof.
  lay. apply in_u_testbit; [lia|]. intros n Hn. unfold Nodeversion.unlock.
  destruct (has_bits _ _); rewrite Z.land_spec, testbit_uwrap by lia;
    by destruct (Z.ltb_spec n w); [lia|].
Qed.

Lemma unlock_flags v n :
  in_u w v -> Z.testbit v (w - 4) = false -> w - 3 <= n < w ->
  Z.testbit (Nodeversion.unlock P v) n =
  Z.testbit v n && negb (Nodeversion.splitting P v && (n =? w - 2)).
Proof.
  intros Hr Hu Hn. lay. unfold Nodeversion.unlock.
  change (has_bits v (splitting_bit P)) with (Nodeversion.splitting P v).
  destruct (Nodeversion.splitting P v) eqn:Hs; cbn [andb].
  - rewrite lay_vsplit, lay_split_unlock.
    destruct (add_no_carry v q n Hr Hu) as [Hin Hb]; [lia..|].
    rewrite uwrap_id by done. rewrite Z.land_spec, Hb. f_equal.
    zbits_rw. rewrite !Z.pow2_bits_eqb by lia. rewrite (Z.eqb_sym n).
    destruct (Z.eqb_spec (w - 2) n), (Z.eqb_spec (w - 4) n), (Z.ltb_spec n w),
      (Z.ltb_spec n q); try lia; done.
  - rewrite lay_unlock. zbits_rw. rewrite andb_true_r.
    destruct (Z.ltb_spec n w); [|lia]. rewrite Z.pow2_bits_eqb by lia.
    destruct (Z.eqb_spec (w - 4) n), (Z.ltb_spec n (s + 3)); try lia.
    cbn. rewrite andb_true_r.
    destruct (Nodeversion.inserting P v) eqn:Hi.
    + assert (uwrap w (Z.shiftl (Z.land v (inserting_bit P)) 2) = 2 ^ (s + 3)) as ->.
      { rewrite lay_inserting. rewrite inserting_testbit in Hi.
        apply Z.bits_inj'. intros m Hm. zbits_rw. rewrite !Z.pow2_bits_eqb by lia.
        destruct (Z.eqb_spec (s + 3) m) as [<-|].
        - replace (s + 3 - 2) with (s + 1) by lia. rewrite Hi, Z.eqb_refl.
          by destruct (Z.ltb_spec (s + 3) w); [|lia].
        - destruct (Z.eqb_spec (s + 1) (m - 2)); [lia|btauto]. }
      apply (add_no_carry v (s + 3) n Hr Hu); lia.
    + assert (Z.land v (inserting_bit P) = 0) as ->.
      { unfold Nodeversion.inserting, has_bits in Hi.
        by destruct (Z.eqb_spec (Z.land v (inserting_bit P)) 0). }
      unfold uwrap. by rewrite Z.shiftl_0_l, Z.mod_0_l, Z.add_0_r by lia.
Qed.

Lemma unlock_clean v :
  Nodeversion.locked P (Nodeversion.unlock P v) = false /\
  dirty (Nodeversion.unlock P v) = false.
Proof.
  lay. rewrite locked_bit, dirty_testbit, !unlock_low by lia. done.
Qed.

(** ** The writers' state machine

    What the word goes through: a lock acquired by compare-and-swap, marks
    set by the lock's holder, [unlock]; [mark_root] needs no lock. *)
Inductive step : Z -> event -> Z -> Prop :=
| step_lock v :
    Nodeversion.locked P v = false -> step v Lock (Z.lor v (lock_bit P))
| step_mark_insert v :
    Nodeversion.locked P v = true -> step v Mark_insert (Nodeversion.mark_insert P v)
| step_mark_split v :
    Nodeversion.locked P v = true -> step v Mark_split (Nodeversion.mark_split P v)
| step_mark_deleted v :
    Nodeversion.locked P v = true -> step v Mark_deleted (Nodeversion.mark_deleted P v)
| step_mark_deleted_tree v :
    Nodeversion.locked P v = true -> Nodeversion.is_root P v = true ->
    step v Mark_deleted_tree (Nodeversion.mark_deleted_tree P v)
| step_mark_root v : step v Mark_root (Nodeversion.mark_root P v)
| step_mark_nonroot v :
    Nodeversion.locked P v = true -> step v Mark_nonroot (Nodeversion.mark_nonroot P v)
| step_unlock v :
    Nodeversion.locked P v = true -> step v Unlock (Nodeversion.unlock P v).

Inductive steps : Z -> list event -> Z -> Prop :=
| steps_nil v : steps v [] v
| steps_snoc v es v1 e v2 : steps v es v1 -> step v1 e v2 -> steps v (es ++ [e]) v2.

(** The events that announce a write of the node's contents, and those that
    announce a split or a deletion. *)
Definition is_write (e : event) : bool :=
  match e with Mark_insert | Mark_split | Mark_deleted => true | _ => false end.
Definition is_split (e : event) : bool :=
  match e with Mark_split | Mark_deleted => true | _ => false end.
Definition unlocks (es : list event) : Z :=
  zlength (filter (fun e => Is_true (match e with Unlock => true | _ => false end)) es).

Lemma unlocks_snoc es e :
  unlocks (es ++ [e]) = unlocks es + match e with Unlock => 1 | _ => 0 end.
Proof. unfold unlocks. rewrite filter_app, zlength_app. by destruct e. Qed.

Lemma lor_pow2_testbit v k n :
  0 <= k -> Z.testbit (Z.lor v (2 ^ k)) n = Z.testbit v n || (k =? n).
Proof. intros. by rewrite Z.lor_spec, Z.pow2_bits_eqb by done. Qed.

Lemma nonroot_testbit v n :
  0 <= n < w -> Z.testbit (Nodeversion.mark_nonroot P v) n = Z.testbit v n && negb (n =? w - 2).
Proof.
  intros Hn. lay. unfold Nodeversion.mark_nonroot. rewrite lay_root. zbits_rw.
  rewrite Z.pow2_bits_eqb, (Z.eqb_sym n) by lia.
  by destruct (Z.ltb_spec n w); [|lia].
Qed.

(** Marks set bits: below the counter, or flags above it. *)
Lemma mark_lor v e v' :
  step v e v' -> e <> Unlock -> e <> Mark_nonroot ->
  exists m, v' = Z.lor v m /\ in_u w m /\
    (forall n, s + 3 <= n <= w - 4 -> Z.testbit m n = false).
Proof.
  intros Hs Hu Hn. lay.
  assert (forall k, (0 <= k < s + 3) \/ (w - 3 <= k < w) ->
    in_u w (2 ^ k) /\ (forall n, s + 3 <= n <= w - 4 -> Z.testbit (2 ^ k) n = false)) as Hk.
  { intros k Hk. split.
    - unfold in_u. split; [lia|]. apply Z.pow_lt_mono_r; lia.
    - intros n Hn'. rewrite Z.pow2_bits_eqb by lia.
      destruct (Z.eqb_spec k n); lia. }
  assert (forall a b, in_u w a -> in_u w b -> in_u w (Z.lor a b)) as Hlor.
  { intros a b Ha Hb. apply in_u_testbit; [lia|]. intros n Hn'.
    rewrite Z.lor_spec, !(testbit_in_u w) by (done || lia). done. }
  destruct Hs; try done; unfold Nodeversion.mark_insert, Nodeversion.mark_split,
    Nodeversion.mark_deleted, Nodeversion.mark_deleted_tree, Nodeversion.mark_root.
  - exists (lock_bit P). rewrite lay_lock. split; [done|]. apply Hk. lia.
  - exists (inserting_bit P). rewrite lay_inserting. split; [done|]. apply Hk. lia.
  - exists (splitting_bit P). rewrite lay_splitting. split; [done|]. apply Hk. lia.
  - exists (Z.lor (deleted_bit P) (splitting_bit P)). split; [done|].
    rewrite lay_deleted, lay_splitting.
    destruct (Hk (w - 3)) as [H3 H4]; [lia|]. destruct (Hk (s + 2)) as [H5 H6]; [lia|].
    split; [by apply Hlor|]. intros n Hn'. by rewrite Z.lor_spec, H4, H6.
  - exists (deleted_bit P). rewrite lay_deleted. split; [done|]. apply Hk. lia.
  - exists (root_bit P). rewrite lay_root. split; [done|]. apply Hk. lia.
Qed.

Lemma step_range v e v' : wf v -> step v e v' -> in_u w v'.
Proof.
  intros [Hr Hu Hd] Hs. lay. destruct (decide (e = Unlock)) as [->|He];
    [by inversion Hs; apply unlock_range|].
  apply in_u_testbit; [lia|]. intros n Hn.
  destruct (decide (e = Mark_nonroot)) as [->|He'].
  - inversion Hs; subst. unfold Nodeversion.mark_nonroot.
    by rewrite Z.land_spec, (testbit_in_u w v) by (done || lia).
  - destruct (mark_lor _ _ _ Hs He He') as (m & -> & Hm & _).
    by rewrite Z.lor_spec, !(testbit_in_u w) by (done || lia).
Qed.

Lemma step_counter_bits v e v' n :
  step v e v' -> e <> Unlock -> s + 3 <= n <= w - 4 ->
  Z.testbit v' n = Z.testbit v n.
Proof.
  intros Hs He Hn. lay. destruct (decide (e = Mark_nonroot)) as [->|He'].
  - inversion Hs; subst. rewrite nonroot_testbit by lia.
    destruct (Z.eqb_spec n (w - 2)); [lia|]. by rewrite andb_true_r.
  - destruct (mark_lor _ _ _ Hs He He') as (m & -> & _ & Hm).
    by rewrite Z.lor_spec, Hm, orb_false_r by done.
Qed.

Lemma step_low_bits v e v' n :
  step v e v' -> e <> Unlock -> 0 <= n < s + 3 ->
  Z.testbit v n = true -> Z.testbit v' n = true.
Proof.
  intros Hs He Hn Hv. lay. destruct (decide (e = Mark_nonroot)) as [->|He'].
  - inversion Hs; subst. rewrite nonroot_testbit, Hv by lia.
    by destruct (Z.eqb_spec n (w - 2)); [lia|].
  - destruct (mark_lor _ _ _ Hs He He') as (m & -> & _ & Hm).
    by rewrite Z.lor_spec, Hv.
Qed.

Lemma step_splitting v e v' :
  step v e v' -> e <> Unlock ->
  Nodeversion.splitting P v || is_split e = true -> Nodeversion.splitting P v' = true.
Proof.
  intros Hs He H. lay. rewrite splitting_testbit in *.
  apply orb_true_iff in H as [H|H].
  - apply (step_low_bits _ _ _ _ Hs He); [lia|done].
  - destruct e; try done; inversion Hs; subst; unfold Nodeversion.mark_split,
      Nodeversion.mark_deleted; rewrite ?lay_deleted, lay_splitting, ?Z.lor_assoc,
      lor_pow2_testbit, Z.eqb_refl by lia; apply orb_true_r.
Qed.

Lemma step_dirty v e v' :
  step v e v' -> e <> Unlock -> dirty v || is_write e = true -> dirty v' = true.
Proof.
  intros Hs He H. lay. apply orb_true_iff in H as [H|H].
  - rewrite dirty_testbit in *. apply orb_true_iff in H. apply orb_true_iff.
    destruct H as [H|H]; [left|right]; apply (step_low_bits _ _ _ _ Hs He); (lia || done).
  - rewrite dirty_testbit. apply orb_true_iff. destruct (is_split e) eqn:Hsp.
    + right. rewrite <- splitting_testbit. apply (step_splitting _ _ _ Hs He).
      by rewrite Hsp, orb_true_r.
    + left. destruct e; try done; inversion Hs; subst; unfold Nodeversion.mark_insert.
      rewrite lay_inserting, lor_pow2_testbit, Z.eqb_refl by lia. apply orb_true_r.
Qed.

Lemma step_locked_or v e v' :
  step v e v' -> e <> Unlock -> Nodeversion.locked P v = true \/ e = Lock ->
  Nodeversion.locked P v' = true.
Proof.
  intros Hs He H. lay. rewrite locked_bit in *. destruct H as [H| ->].
  - apply (step_low_bits _ _ _ _ Hs He); [lia|done].
  - inversion Hs; subst. rewrite lay_lock, lor_pow2_testbit, Z.eqb_refl by lia.
    apply orb_true_r.
Qed.

(** The invariant: a word stays in range, the spare bit clear, and only a
    locked node is dirty. *)
Lemma step_wf v e v' : wf v -> step v e v' -> wf v'.
Proof.
  intros Hwf Hs. lay. split; [by apply (step_range _ _ _ Hwf Hs)| |].
  - destruct (decide (e = Unlock)) as [->|He];
      [inversion Hs; apply unlock_unused|].
    rewrite (step_counter_bits _ _ _ _ Hs He) by lia. apply Hwf.
  - destruct (decide (e = Unlock)) as [->|He].
    + inversion Hs; subst. by rewrite (proj2 (unlock_clean v)).
    + intros Hd. apply (step_locked_or _ _ _ Hs He).
      destruct (decide (e = Lock)) as [->|He']; [by right|left].
      destruct (decide (e = Mark_root)) as [->|He''].
      * apply Hwf. inversion Hs; subst. rewrite dirty_testbit in *.
        unfold Nodeversion.mark_root in Hd.
        rewrite lay_root, !lor_pow2_testbit in Hd by lia.
        destruct (Z.eqb_spec (w - 2) (s + 1)), (Z.eqb_spec (w - 2) (s + 2)); try lia.
        by rewrite !orb_false_r in Hd.
      * by inversion Hs; subst.
Qed.

Lemma step_count v e v' : step v e v' -> e <> Unlock -> count v' = count v.
Proof.
  intros Hs He. apply count_ext. intros n Hn.
  apply (step_counter_bits _ _ _ _ Hs He). lia.
Qed.

(** ** Runs

    [B] is one unit of the split counter.  The unbounded counter [T] of a run
    grows by at most [B] per [unlock], and strictly at every [unlock] that
    ends a write. *)
Abbreviation B := (2 ^ (q - s - 3)).

Lemma counter_period : 2 ^ cbits = B * 2 ^ (w - 4 - q).
Proof. lay. rewrite <- Z.pow_add_r by lia. f_equal. lia. Qed.

Lemma period_div T : (T mod 2 ^ cbits) / B = (T / B) mod 2 ^ (w - 4 - q).
Proof.
  lay. rewrite counter_period, Z.rem_mul_r by lia.
  rewrite (Z.add_comm (T mod B)), (Z.mul_comm B), Z.div_add_l by lia.
  rewrite (Z.div_small (T mod B)) by (apply Z.mod_pos_bound; lia). lia.
Qed.

Record run_inv (T0 : Z) (es : list event) (v : Z) (T : Z) : Prop := {
  ri_wf : wf v;
  ri_count : count v = T mod 2 ^ cbits;
  ri_low : T0 <= T;
  ri_high : T <= T0 + B * unlocks es;
  ri_units : T0 / B <= T / B <= T0 / B + unlocks es;
  ri_write : existsb is_write es = true -> dirty v = true \/ T0 < T;
  ri_split : existsb is_split es = true ->
             Nodeversion.splitting P v = true \/ T0 / B < T / B;
}.

Lemma unlock_counter v T :
  wf v -> count v = T mod 2 ^ cbits ->
  exists T', count (Nodeversion.unlock P v) = T' mod 2 ^ cbits /\
    T <= T' <= T + B /\ T / B <= T' / B <= T / B + 1 /\
    (dirty v = true -> T < T') /\
    (Nodeversion.splitting P v = true -> T / B < T' / B).
Proof.
  intros [Hr Hu Hd] Hc. lay. assert (1 <= B) as HB by lia.
  pose proof (Z.div_mod T B) as Hdm. pose proof (Z.mod_pos_bound T B) as Hmb.
  destruct (Nodeversion.splitting P v) eqn:Hs.
  - exists ((T / B + 1) * B). rewrite Z.div_mul by lia. repeat split; try nia.
    rewrite unlock_split_count, Hc, period_div by done.
    rewrite counter_period, !(Z.mul_comm _ B), !Z.mul_mod_distr_l by lia.
    f_equal. by rewrite Z.add_mod_idemp_l by lia.
  - exists (T + b2z (Nodeversion.inserting P v)).
    rewrite unlock_nosplit_count, Hc, Z.add_mod_idemp_l by (done || lia).
    assert (0 <= b2z (Nodeversion.inserting P v) <= 1) as Hb by (destruct Nodeversion.inserting; cbn; lia).
    split; [done|]. split; [lia|]. split; [|split; [|done]].
    + pose proof (Z.div_le_mono T (T + b2z (Nodeversion.inserting P v)) B).
      pose proof (Z.div_le_mono (T + b2z (Nodeversion.inserting P v)) (T + 1 * B) B) as Hm.
      rewrite Z.div_add in Hm by lia. lia.
    + rewrite dirty_testbit, <- inserting_testbit, <- splitting_testbit, Hs, orb_false_r.
      intros ->. cbn. lia.
Qed.

Lemma run_invariant v0 es v :
  wf v0 -> steps v0 es v -> exists T, run_inv (count v0) es v T.
Proof.
  intros Hwf. induction 1 as [v|v es v1 e v2 Hrun IH Hs].
  - exists (count v). split; try done; try lia.
    + pose proof (count_range v). by rewrite Z.mod_small by lia.
    + change (unlocks []) with 0. lia.
    + change (unlocks []) with 0. lia.
  - destruct (IH Hwf) as [T [Hwf1 Hc Hl Hh Hun Hw Hsp]]. lay.
    pose proof (step_wf _ _ _ Hwf1 Hs) as Hwf2.
    destruct (decide (e = Unlock)) as [->|He].
    + inversion Hs; subst.
      destruct (unlock_counter v1 T Hwf1 Hc) as (T' & Hc' & Hb & Hb' & Hd' & Hs').
      exists T'. split; rewrite ?unlocks_snoc, ?existsb_app, ?orb_false_r; try done; try nia.
      * cbn. rewrite ?orb_false_r. intros Hx. right.
        destruct (Hw Hx) as [?|?]; [specialize (Hd' ltac:(done))|]; lia.
      * cbn. rewrite ?orb_false_r. intros Hx. right.
        destruct (Hsp Hx) as [?|?]; [specialize (Hs' ltac:(done))|]; lia.
    + exists T. split; rewrite ?unlocks_snoc; try done.
      * by rewrite (step_count _ _ _ Hs He).
      * destruct e; try done; lia.
      * destruct e; try done; lia.
      * rewrite existsb_app. cbn. rewrite ?orb_false_r. intros Hx.
        apply orb_true_iff in Hx as [Hx|Hx]; [destruct (Hw Hx); [|by right]|];
          left; apply (step_dirty _ _ _ Hs He); apply orb_true_iff; auto.
      * rewrite existsb_app. cbn. rewrite ?orb_false_r. intros Hx.
        apply orb_true_iff in Hx as [Hx|Hx]; [destruct (Hsp Hx); [|by right]|];
          left; apply (step_splitting _ _ _ Hs He); apply orb_true_iff; auto.
Qed.

(** ** What a comparison of versions tells *)
(** A counter that wraps around comes back to the same value only after a
    whole period. *)
Lemma wrapped_bound T c b m u :
  0 < b -> 0 < m -> c = T mod (b * m) -> c < T -> T <= c + b * u -> u < m -> False.
Proof.
  intros Hb Hm Hc Hlt Hle Hu. pose proof (Z.div_mod T (b * m)) as Hdm.
  rewrite <- Hc in Hdm. assert (0 < b * m) as Hp by (by apply Z.mul_pos_pos).
  assert (b * u < b * m) as Hbu by (by apply Z.mul_lt_mono_pos_l).
  set (p := b * m) in *. set (k := T / p) in *. specialize (Hdm ltac:(lia)).
  assert (1 <= k) by nia. nia.
Qed.

Lemma lxor_small_testbit a b k n :
  0 <= k -> Z.lxor a b < 2 ^ k -> 0 <= Z.lxor a b -> k <= n -> Z.testbit a n = Z.testbit b n.
Proof.
  intros Hk Hlt Hge Hn.
  assert (Z.testbit (Z.lxor a b) n = false) as Hx.
  { apply (testbit_in_u k); [done|by unfold in_u|done]. }
  rewrite Z.lxor_spec in Hx. by apply xorb_eq.
Qed.

Lemma lxor_nonneg a b : in_u w a -> in_u w b -> 0 <= Z.lxor a b.
Proof. unfold in_u. intros. apply Z.lxor_nonneg. lia. Qed.

Lemma unchanged_bits v x n :
  in_u w v -> in_u w x -> Nodeversion.has_changed P v x = false -> s + 1 <= n ->
  Z.testbit x n = Z.testbit v n.
Proof.
  intros Hv Hx Hc Hn. lay. unfold Nodeversion.has_changed in Hc.
  rewrite lay_lock in Hc. apply Z.ltb_ge in Hc.
  apply (lxor_small_testbit _ _ (s + 1)); [lia| |by apply lxor_nonneg|done].
  rewrite Z.pow_add_r by lia. pose proof (Z.pow_pos_nonneg 2 s). lia.
Qed.

Lemma unsplit_bits v x n :
  in_u w v -> in_u w x -> Nodeversion.has_split P v x = false -> q <= n ->
  Z.testbit x n = Z.testbit v n.
Proof.
  intros Hv Hx Hc Hn. lay. unfold Nodeversion.has_split in Hc.
  rewrite lay_vsplit in Hc. apply Z.leb_gt in Hc.
  apply (lxor_small_testbit _ _ q); [lia|done|by apply lxor_nonneg|done].
Qed.

Lemma existsb_false_Forall {A} (f : A -> bool) l :
  existsb f l = false -> Forall (fun a => f a = false) l.
Proof.
  induction l as [|a l IH]; cbn; [constructor|].
  intros [??]%orb_false_iff. constructor; auto.
Qed.

Lemma unchanged_no_write v0 es v1 :
  wf v0 -> dirty v0 = false -> steps v0 es v1 -> unlocks es < 2 ^ (w - 4 - q) ->
  Nodeversion.has_changed P v1 v0 = false ->
  Forall (fun e => is_write e = false) es.
Proof.
  intros Hwf Hd Hrun Hb Hc. lay.
  destruct (run_invariant _ _ _ Hwf Hrun) as [T [Hwf1 Hc1 Hl Hh Hun Hw _]].
  apply existsb_false_Forall. destruct (existsb is_write es); [|done].
  pose proof (unchanged_bits v1 v0) as Hbits.
  specialize (Hw eq_refl) as [Hw|Hw]; exfalso.
  - rewrite dirty_testbit in *.
    rewrite <- !Hbits in Hw by (apply Hwf || apply Hwf1 || done || lia). congruence.
  - assert (count v1 = count v0) as He.
    { apply count_ext. intros n Hn. symmetry.
      apply Hbits; [apply Hwf1|apply Hwf|done|lia]. }
    rewrite He, counter_period in Hc1.
    apply (wrapped_bound T (count v0) B (2 ^ (w - 4 - q)) (unlocks es)); lia.
Qed.

Lemma unsplit_no_split v0 es v1 :
  wf v0 -> dirty v0 = false -> steps v0 es v1 -> unlocks es < 2 ^ (w - 4 - q) ->
  dirty v1 = false -> Nodeversion.has_split P v1 v0 = false ->
  Forall (fun e => is_split e = false) es.
Proof.
  intros Hwf Hd Hrun Hb Hd1 Hc. lay.
  destruct (run_invariant _ _ _ Hwf Hrun) as [T [Hwf1 Hc1 Hl Hh Hun _ Hsp]].
  apply existsb_false_Forall. destruct (existsb is_split es); [|done].
  specialize (Hsp eq_refl) as [Hs|Hs]; exfalso.
  - rewrite splitting_testbit in Hs. rewrite dirty_testbit, Hs, orb_true_r in Hd1. done.
  - assert (count v1 / B = count v0 / B) as He.
    { rewrite !count_mod, !period_div, !Z.div_div by lia.
      rewrite <- Z.pow_add_r by lia. replace (s + 3 + (q - s - 3)) with q by lia.
      rewrite <- !Z.shiftr_div_pow2, <- !Z.land_ones by lia.
      apply Z.bits_inj'. intros n Hn. zbits_rw. f_equal. symmetry.
      apply unsplit_bits; [apply Hwf1|apply Hwf|done|lia]. }
    rewrite Hc1, period_div in He. symmetry in He.
    apply (wrapped_bound (T / B) (count v0 / B) 1 (2 ^ (w - 4 - q)) (unlocks es));
      rewrite ?Z.mul_1_l; lia.
Qed.
End layout.

(** * What the class promises *)

Lemma stable_clean P reads v : Nodeversion.stable P reads = Some v -> dirty P v = false.
Proof.
  induction reads as [|x reads IH]; cbn; [done|].
  fold (dirty P x). destruct (dirty P x) eqn:E; [done|]. congruence.
Qed.

(** C14: Optimistic concurrency control.  A reader takes a
    stable version [v0] of the node, reads it while writers run through the
    events [es], and then finds [has_changed] false for the word [v1]: then
    no writer marked an insertion, a split or a deletion in between, unless
    the node was unlocked [2^(w-4-q)] times meanwhile (the split counter's
    period: 2^19 for 32-bit versions). *)
Theorem optimistic_read_unchanged P s q {L : Layout P s q} reads v0 es v1 :
  Nodeversion.stable P reads = Some v0 -> wf P v0 -> steps P v0 es v1 ->
  unlocks es < 2 ^ (nv_bits P - 4 - q) ->
  Nodeversion.has_changed P v1 v0 = false ->
  Forall (fun e => is_write e = false) es /\
  (forall n, s < n -> Z.testbit v1 n = Z.testbit v0 n).
Proof.
  intros Hst Hwf Hrun Hb Hc. apply stable_clean in Hst. split.
  - by apply (unchanged_no_write P s q v0 es v1).
  - intros n Hn. destruct (run_invariant P s q _ _ _ Hwf Hrun) as [T [Hwf1 _ _ _ _ _ _]].
    symmetry. apply (unchanged_bits P s q); [apply Hwf1|apply Hwf|done|lia].
Qed.

(** C24: A reader that finds [has_split] false between two stable versions of a
    node knows that nobody split or deleted the node in between. *)
Theorem stable_unsplit P s q {L : Layout P s q} reads0 v0 es reads1 v1 :
  Nodeversion.stable P reads0 = Some v0 -> wf P v0 -> steps P v0 es v1 ->
  Nodeversion.stable P reads1 = Some v1 ->
  unlocks es < 2 ^ (nv_bits P - 4 - q) ->
  Nodeversion.has_split P v1 v0 = false ->
  Forall (fun e => is_split e = false) es.
Proof.
  intros Hst0 Hwf Hrun Hst1 Hb Hs.
  apply stable_clean in Hst0, Hst1. by apply (unsplit_no_split P s q v0 es v1).
Qed.

(** [lock] spins until a compare-and-swap finds the word unlocked: the word
    it installs is that one with the lock bit, and the two invariants the
    code asserts (the expected version is not dirty, the word is the version
    returned) hold. *)
Theorem lock_acquires P s q {L : Layout P s q} env expected v' :
  Forall (fun e => wf P e.1) env ->
  Nodeversion.lock P env expected = Some v' ->
  exists v r, (v, r) ∈ env /\ step P v Lock v' /\ dirty P v = false /\
    Nodeversion.locked P v' = true /\ dirty P v' = false.
Proof.
  intros Hwf. revert expected.
  induction Hwf as [|[c r] env Hc Hwf IH]; intros expected; cbn [Nodeversion.lock]; [done|].
  destruct (has_bits expected (lock_bit P)) eqn:Hl; cbn [negb andb].
  { intros H. destruct (IH _ H) as (v & r' & Hin & Hrest).
    exists v, r'. split; [by constructor|done]. }
  destruct (Z.eqb_spec c expected) as [->|He].
  2: { intros H. destruct (IH _ H) as (v & r' & Hin & Hrest).
       exists v, r'. split; [by constructor|done]. }
  intros [= <-]. exists expected, r. cbn [fst] in Hc.
  assert (dirty P expected = false) as Hd.
  { destruct (dirty P expected) eqn:E; [|done].
    apply (wf_dirty _ _ Hc) in E. unfold Nodeversion.locked in E. congruence. }
  pose proof (lay_s (Layout := L)). pose proof (lay_q (Layout := L)).
  split; [constructor|]. split; [by constructor|]. split; [done|]. split.
  - rewrite (locked_bit P s q), lay_lock, lor_pow2_testbit, Z.eqb_refl by lia.
    apply orb_true_r.
  - rewrite (dirty_testbit P s q) in *. rewrite lay_lock, !lor_pow2_testbit by lia.
    destruct (Z.eqb_spec s (s + 1)), (Z.eqb_spec s (s + 2)); try lia.
    by rewrite !orb_false_r.
Qed.

(** C27: [unlock]: the node is unlocked and clean, an insertion advances the
    insert counter, a split advances the split counter and clears the insert
    counter, the leaf and deleted flags stay, and a split node is no longer a
    root. *)
Theorem unlock_effect P s q {L : Layout P s q} v :
  wf P v ->
  let v' := Nodeversion.unlock P v in
  wf P v' /\ Nodeversion.locked P v' = false /\ dirty P v' = false /\
  count P s v' =
    (if Nodeversion.splitting P v
     then (count P s v / 2 ^ (q - s - 3) + 1) * 2 ^ (q - s - 3)
     else count P s v + b2z (Nodeversion.inserting P v))
      mod 2 ^ (nv_bits P - 4 - (s + 3)) /\
  Nodeversion.isleaf P v' = Nodeversion.isleaf P v /\
  Nodeversion.deleted P v' = Nodeversion.deleted P v /\
  Nodeversion.is_root P v' =
    Nodeversion.is_root P v && negb (Nodeversion.splitting P v).
Proof.
  intros [Hr Hu Hd]. cbn zeta.
  pose proof (lay_s (Layout := L)). pose proof (lay_q (Layout := L)).
  pose proof (lay_w (Layout := L)).
  destruct (unlock_clean P s q v) as [Hc1 Hc2].
  split; [split; [apply (unlock_range P s q)|apply (unlock_unused P s q)|by rewrite Hc2]|].
  split; [done|]. split; [done|]. split.
  { destruct (Nodeversion.splitting P v) eqn:E;
      [by apply (unlock_split_count P s q)|by apply (unlock_nosplit_count P s q)]. }
  rewrite !(isleaf_testbit P s q), !(deleted_testbit P s q), !(is_root_testbit P s q).
  rewrite !(unlock_flags P s q) by (done || lia).
  destruct (Z.eqb_spec (nv_bits P - 1) (nv_bits P - 2)); [lia|].
  destruct (Z.eqb_spec (nv_bits P - 3) (nv_bits P - 2)); [lia|].
  rewrite Z.eqb_refl, !andb_false_r, !andb_true_r. done.
Qed.

(** ** Concrete instances of the properties above *)
Lemma wf32_root_leaf : wf nodeversion_parameters32 0xC0000000.
Proof. split; [unfold in_u; cbn; lia|done..]. Defined.

Lemma steps32_lock_unlock :
  steps nodeversion_parameters32 0xC0000000 [Lock; Unlock] 0xC0000000.
Proof.
  assert (step nodeversion_parameters32 0xC0000001 Unlock
            (Nodeversion.unlock nodeversion_parameters32 0xC0000001)) as Hu
    by (by apply step_unlock).
  assert (step nodeversion_parameters32 0xC0000000 Lock
            (Z.lor 0xC0000000 (lock_bit nodeversion_parameters32))) as Hl
    by (by apply step_lock).
  apply (steps_snoc _ _ [Lock] 0xC0000001 Unlock); [|exact Hu].
  apply (steps_snoc _ _ [] 0xC0000000 Lock); [constructor|exact Hl].
Defined.

Lemma optimistic_read_unchanged_witness :
  Forall (fun e => is_write e = false) [Lock; Unlock] /\
  (forall n, 0 < n -> Z.testbit 0xC0000000 n = Z.testbit 0xC0000000 n).
Proof.
  apply (optimistic_read_unchanged nodeversion_parameters32 0 9
    [0xC0000003; 0xC0000000] 0xC0000000 [Lock; Unlock] 0xC0000000);
    [reflexivity|exact wf32_root_leaf|exact steps32_lock_unlock|reflexivity|reflexivity].
Defined.

Lemma stable_unsplit_witness : Forall (fun e => is_split e = false) [Lock; Unlock].
Proof.
  apply (stable_unsplit nodeversion_parameters32 0 9
    [0xC0000000] 0xC0000000 [Lock; Unlock] [0xC0000005; 0xC0000000] 0xC0000000);
    [reflexivity|exact wf32_root_leaf|exact steps32_lock_unlock|reflexivity..].
Defined.

Lemma lock_acquires_witness :
  exists v r, (v, r) ∈ [(0xC0000001, 0xC0000000); (0xC0000000, 0)] /\
    step nodeversion_parameters32 v Lock 0xC0000001 /\
    dirty nodeversion_parameters32 v = false /\
    Nodeversion.locked nodeversion_parameters32 0xC0000001 = true /\
    dirty nodeversion_parameters32 0xC0000001 = false.
Proof.
  apply (lock_acquires nodeversion_parameters32 0 9 _ 0xC0000001); [|reflexivity].
  repeat constructor; unfold in_u; cbn; lia || done.
Defined.

Lemma unlock_effect_witness :
  let v' := Nodeversion.unlock nodeversion_parameters32 0xC0000005 in
  v' = 0x80000200 /\ wf nodeversion_parameters32 v'.
Proof.
  split; [reflexivity|].
  apply (unlock_effect nodeversion_parameters32 0 9 0xC0000005).
  split; [unfold in_u; cbn; lia|done..].
Defined.
