(* ===== verification/Stringbag.v ===== *)
(** Bags of key suffixes, [src/stringbag.hh].

    A bag is its two offsets, its [info_] array and the bytes at each offset
    of its memory; [w] is the width of the offset type [T] in bits (8 for a
    leaf's internal bag, 16 for the external one).  The [info_] array lies in
    the first [overhead width] bytes of the same memory: [bag_wf] keeps the
    strings out of it. *)
From S2P Require Import Prelude Compiler Memory.

Record stringbag : Type := mkBag {
  size_ : Z; capacity_ : Z; info_ : list (Z * Z); bag_s_ : mem }.

(** [string_slice<uintptr_t>::size]. *)
Definition slice_size : Z := 8.

Section stringbag.
Context (w : Z).

Definition max_size : Z := uwrap w (-1) + 1.
Definition empty_size : Z := w / 8 * 2.
Definition overhead (width : Z) : Z := empty_size + width * (w / 8 * 2).
Definition safe_size (width len : Z) : Z := overhead width + len + slice_size - 1.

(** The constructor; [None] where its assertion fails. *)
Definition make_bag (width cap : Z) : option stringbag :=
  let firstpos := overhead width in
  if (firstpos <=? cap) && (cap <=? max_size) then
    Some (mkBag (uwrap w firstpos) (uwrap w (cap - 1))
      (repeat (0, 0) (Z.to_nat width)) (fun _ => 0))
  else None.

Definition capacity (b : stringbag) : Z := capacity_ b + 1.
Definition used_capacity (b : stringbag) : Z := size_ b.

Definition info_at (b : stringbag) (p : Z) : Z * Z :=
  match zlookup (info_ b) p with Some i => i | None => (0, 0) end.

(** [get] and [operator[]]: the bytes of the string at [p]. *)
Definition get (b : stringbag) (p : Z) : list Z :=
  let info := info_at b p in load (bag_s_ b) (fst info) (snd info).

(** Where [assign] puts a string of [len] bytes: its offset and the new
    [size_]. *)
Definition assign_pos (b : stringbag) (p len : Z) : option (Z * Z) :=
  let info := info_at b p in
  if len <=? snd info then Some (fst info, size_ b)
  else if size_ b + Z.max len slice_size <=? capacity b then
    Some (size_ b, uwrap w (size_ b + len))
  else None.

(** [assign(p, s)] for the bytes [s]: the bag and whether it had room. *)
Definition assign (b : stringbag) (p : Z) (s : list Z) : stringbag * bool :=
  let len := zlength s in
  match assign_pos b p len with
  | Some (pos, size) =>
      (mkBag size (capacity_ b) (<[Z.to_nat p := (uwrap w pos, uwrap w len)]> (info_ b))
        (store (bag_s_ b) pos s), true)
  | None => (b, false)
  end.

(** * The invariant of a bag *)
Definition apart (i j : Z * Z) : Prop :=
  snd i = 0 \/ snd j = 0 \/ fst i + snd i <= fst j \/ fst j + snd j <= fst i.

Record bag_wf (width : Z) (b : stringbag) : Prop := {
  wf_width : zlength (info_ b) = width;
  wf_size : overhead width <= size_ b <= capacity b;
  wf_capacity : capacity b < 2 ^ w;
  wf_info : forall p i, zlookup (info_ b) p = Some i ->
    0 <= snd i /\ (snd i = 0 /\ 0 <= fst i < 2 ^ w \/
      overhead width <= fst i /\ fst i + snd i <= size_ b);
  wf_apart : forall p q i j, p <> q -> zlookup (info_ b) p = Some i ->
    zlookup (info_ b) q = Some j -> apart i j }.

Lemma overhead_nonneg width : 0 <= w -> 0 <= width -> 0 <= overhead width.
Proof using Type. unfold overhead, empty_size. intros. pose proof (Z.div_pos w 8). nia. Qed.

Lemma make_bag_wf width cap b :
  8 <= w -> 0 <= width -> make_bag width cap = Some b -> cap < 2 ^ w ->
  bag_wf width b /\ used_capacity b = overhead width /\
  forall p, 0 <= p < width -> get b p = [].
Proof using Type.
  intros Hw Hwd. unfold make_bag.
  destruct (Z.leb_spec (overhead width) cap), (Z.leb_spec cap max_size); try done.
  intros [= <-] Hc. pose proof (overhead_nonneg width ltac:(lia) Hwd).
  assert (0 < overhead width).
  { unfold overhead, empty_size. pose proof (Z.div_le_mono 8 w 8). change (8 / 8) with 1 in *. nia. }
  assert (uwrap w (overhead width) = overhead width) as Ho by (apply uwrap_id; unfold in_u; lia).
  assert (uwrap w (cap - 1) = cap - 1) as Hcap by (apply uwrap_id; unfold in_u; lia).
  assert (forall p i, zlookup (repeat (0, 0) (Z.to_nat width)) p = Some i -> i = (0, 0)) as Hr.
  { intros p i. unfold zlookup. destruct (p <? 0); [done|].
    intros Hl. apply list_elem_of_lookup_2, list_elem_of_In, repeat_spec in Hl. done. }
  split; [|split].
  - split; cbn; unfold capacity; cbn.
    + unfold zlength. rewrite repeat_length. lia.
    + rewrite Ho, Hcap. lia.
    + rewrite Hcap. lia.
    + intros p i ->%Hr. cbn. lia.
    + intros p q i j _ ->%Hr ->%Hr. by left.
  - done.
  - intros p Hp. unfold get, info_at. cbn.
    destruct (zlookup _ p) eqn:E; [apply Hr in E as ->|]; by rewrite load_0.
Qed.

Section assign.
Context (width : Z) (b : stringbag) (Hw : 8 <= w) (Hwidth : 0 <= width) (Hb : bag_wf width b).

Lemma info_at_lookup p : 0 <= p < width -> zlookup (info_ b) p = Some (info_at b p).
Proof using Hb.
  intros Hp. unfold info_at. destruct (zlookup (info_ b) p) eqn:E; [done|].
  exfalso. pose proof (wf_width _ _ Hb) as Hl. unfold zlookup, zlength in *.
  destruct (Z.ltb_spec p 0); [lia|]. apply lookup_ge_None in E. lia.
Qed.

(** The space [assign_pos] gives to position [p] is inside the bag and apart
    from every other string. *)
Lemma assign_pos_spec p len pos size :
  0 <= p < width -> 0 <= len -> assign_pos b p len = Some (pos, size) ->
  size_ b <= size <= capacity b /\ 0 <= pos < 2 ^ w /\
  (len = 0 \/ overhead width <= pos /\ pos + len <= size) /\
  forall q i, q <> p -> zlookup (info_ b) q = Some i -> apart (pos, len) i.
Proof using Hw Hwidth Hb.
  intros Hp Hl. unfold assign_pos. pose proof (info_at_lookup p Hp) as Hi.
  pose proof (wf_size _ _ Hb). pose proof (wf_capacity _ _ Hb).
  pose proof (overhead_nonneg width ltac:(lia) Hwidth).
  destruct (wf_info _ _ Hb p _ Hi) as [Hn Hr].
  destruct (Z.leb_spec len (snd (info_at b p))).
  - intros [= <- <-]. split_and!; [lia..| |].
    + destruct Hr as [[Hz _]|Hr]; [left; lia|right; lia].
    + intros q i Hq Hqi. pose proof (wf_apart _ _ Hb p q _ _ ltac:(done) Hi Hqi) as Ha.
      unfold apart in *; cbn. lia.
  - destruct (Z.leb_spec (size_ b + Z.max len slice_size) (capacity b)); [|done].
    intros [= <- <-]. unfold slice_size in *.
    rewrite uwrap_id by (unfold in_u; lia). split_and!; [lia..| |].
    + right. lia.
    + intros q i Hq Hqi. destruct (wf_info _ _ Hb q i Hqi) as [? Hri]. unfold apart; cbn. lia.
Qed.

Lemma assign_wf p s :
  0 <= p < width -> bag_wf width (fst (assign b p s)).
Proof using Hw Hwidth Hb.
  intros Hp. unfold assign. pose proof (zlength_nonneg s) as Hl.
  destruct (assign_pos b p (zlength s)) as [[pos size]|] eqn:E; [|done].
  destruct (assign_pos_spec p _ pos size Hp Hl E) as (H1 & H2 & H3 & H4).
  pose proof (wf_size _ _ Hb). pose proof (wf_capacity _ _ Hb).
  pose proof (wf_width _ _ Hb) as Hwb.
  assert (uwrap w pos = pos) as Hup by (apply uwrap_id; unfold in_u; lia).
  assert (0 <= zlength s < 2 ^ w) as Hls.
  { destruct H3 as [->|H3]; [|pose proof (overhead_nonneg width ltac:(lia) Hwidth); lia].
    pose proof (Z.pow_pos_nonneg 2 w). lia. }
  assert (uwrap w (zlength s) = zlength s) as Hul by (by apply uwrap_id).
  rewrite Hup, Hul. split; cbn.
  - unfold zlength. rewrite length_insert. exact Hwb.
  - unfold capacity in *. cbn. lia.
  - done.
  - intros q i. rewrite zlookup_insert by lia. destruct (Z.eqb_spec q p) as [->|].
    + intros [= <-]. cbn. lia.
    + intros Hq. destruct (wf_info _ _ Hb q i Hq) as [? Hr]. lia.
  - intros q r i j Hqr. rewrite !zlookup_insert by lia.
    destruct (Z.eqb_spec q p) as [->|], (Z.eqb_spec r p) as [->|]; [congruence|..].
    + intros [= <-] Hr. by apply (H4 r).
    + intros Hq [= <-]. specialize (H4 q i ltac:(done) Hq). unfold apart in *; cbn in *. lia.
    + by apply (wf_apart _ _ Hb).
Qed.

Lemma assign_get p s b' q :
  0 <= p < width -> 0 <= q < width -> assign b p s = (b', true) ->
  get b' q = if q =? p then s else get b q.
Proof using Hw Hwidth Hb.
  intros Hp Hq. unfold assign. pose proof (zlength_nonneg s) as Hl.
  destruct (assign_pos b p (zlength s)) as [[pos size]|] eqn:E; [|done].
  intros [= <-].
  destruct (assign_pos_spec p _ pos size Hp Hl E) as (H1 & H2 & H3 & H4).
  pose proof (wf_size _ _ Hb). pose proof (wf_capacity _ _ Hb).
  pose proof (wf_width _ _ Hb) as Hwb.
  pose proof (overhead_nonneg width ltac:(lia) Hwidth).
  unfold get, info_at at 1 2. cbn [info_ bag_s_]. rewrite zlookup_insert by lia.
  destruct (Z.eqb_spec q p) as [->|Hne]; cbn [fst snd].
  - rewrite !uwrap_id by (unfold in_u; lia). apply load_store_same.
  - rewrite (info_at_lookup q) by done.
    specialize (H4 q _ Hne (info_at_lookup q Hq)). unfold apart in H4; cbn in H4.
    destruct (Z.le_gt_cases (snd (info_at b q)) 0); [by rewrite !load_0 by lia|].
    destruct s as [|x s].
    + apply load_ext. intros i Hi. unfold store, zlookup. by destruct (_ <? 0).
    + apply load_store_other. rewrite zlength_cons in *. pose proof (zlength_nonneg s). lia.
Qed.
End assign.
End stringbag.

(** C28: [assign] either keeps the bag and reports no room, which happens exactly
    when the string is longer than the one it replaces and the free space is
    short; or it stores the string, and every other string keeps its bytes.
    The bag stays well formed. *)
Theorem assign_spec w width b p s :
  8 <= w -> 0 <= width -> bag_wf w width b -> 0 <= p < width ->
  let '(b', ok) := assign w b p s in
  bag_wf w width b' /\
  (ok = false <-> zlength (get b p) < zlength s /\
    capacity b < used_capacity b + Z.max (zlength s) slice_size) /\
  (if ok then forall q, 0 <= q < width -> get b' q = if q =? p then s else get b q
   else b' = b).
Proof.
  intros Hw Hwd Hb Hp. destruct (assign w b p s) as [b' ok] eqn:E.
  pose proof (assign_wf w width b Hw Hwd Hb p s Hp) as Hwf. rewrite E in Hwf. cbn in Hwf.
  assert (zlength (get b p) = snd (info_at b p)) as Hlen.
  { unfold get. apply zlength_load. by apply (wf_info _ _ _ Hb p), (info_at_lookup w width). }
  split; [exact Hwf|]. split.
  - rewrite Hlen. unfold assign, assign_pos, used_capacity in *.
    destruct (Z.leb_spec (zlength s) (snd (info_at b p)));
      [injection E as <- <-; split; [done|lia]|].
    destruct (Z.leb_spec (size_ b + Z.max (zlength s) slice_size) (capacity b));
      injection E as <- <-; split; done || lia.
  - destruct ok; [intros q Hq; by apply (assign_get w width b Hw Hwd Hb p s b')|].
    unfold assign in E. destruct (assign_pos w b p (zlength s)) as [[??]|]; congruence.
Qed.

(** The bag of a leaf with room for two suffixes. *)
Lemma assign_spec_witness :
  match make_bag 8 15 128 with
  | Some b =>
      let '(b1, _) := assign 8 b 3 [1; 2; 3] in
      let '(b2, ok) := assign 8 b1 7 [4; 5] in
      ok = true /\ get b2 3 = [1; 2; 3]
  | None => False
  end.
Proof.
  destruct (make_bag 8 15 128) as [b|] eqn:Eb; [|by vm_compute in Eb].
  destruct (make_bag_wf 8 15 128 b ltac:(lia) ltac:(lia) Eb ltac:(lia)) as [Hb _].
  pose proof (assign_spec 8 15 b 3 [1; 2; 3] ltac:(lia) ltac:(lia) Hb ltac:(lia)) as H1.
  assert (snd (assign 8 b 3 [1; 2; 3]) = true) as Ho1 by (injection Eb as <-; by vm_compute).
  assert (snd (assign 8 (fst (assign 8 b 3 [1; 2; 3])) 7 [4; 5]) = true) as Ho2
    by (injection Eb as <-; by vm_compute).
  destruct (assign 8 b 3 [1; 2; 3]) as [b1 ok1]. cbn in Ho1, Ho2. subst ok1.
  destruct H1 as (Hb1 & _ & H1).
  pose proof (assign_spec 8 15 b1 7 [4; 5] ltac:(lia) ltac:(lia) Hb1 ltac:(lia)) as H2.
  destruct (assign 8 b1 7 [4; 5]) as [b2 ok2]. cbn in Ho2. subst ok2.
  destruct H2 as (_ & _ & H2). split; [done|]. rewrite H2 by lia. cbn. by rewrite H1 by lia.
Defined.

(** [safe_size] is enough: a bag with that much free space accepts the
    string, whatever it replaces. *)
Lemma assign_room w b p s :
  used_capacity b + zlength s + slice_size - 1 <= capacity b ->
  0 <= snd (info_at b p) -> snd (assign w b p s) = true.
Proof.
  intros Hr Hn. pose proof (zlength_nonneg s). unfold assign, assign_pos, used_capacity, slice_size in *.
  destruct (Z.leb_spec (zlength s) (snd (info_at b p))); [done|].
  destruct (Z.leb_spec (size_ b + Z.max (zlength s) 8) (capacity b)); [done|lia].
Qed.

Lemma assign_used w width b p s :
  8 <= w -> 0 <= width -> bag_wf w width b -> 0 <= p < width ->
  used_capacity (fst (assign w b p s)) <= used_capacity b + zlength s /\
  capacity (fst (assign w b p s)) = capacity b.
Proof.
  intros Hw Hwd Hb Hp. unfold assign. pose proof (zlength_nonneg s).
  destruct (assign_pos w b p (zlength s)) as [[pos size]|] eqn:E; [|cbn; lia].
  unfold assign_pos, used_capacity, capacity in *. cbn [size_ capacity_ fst].
  destruct (zlength s <=? snd (info_at b p)); [injection E as <- <-; lia|].
  destruct (size_ b + Z.max (zlength s) slice_size <=? capacity_ b + 1) eqn:Hr; [|done].
  apply Z.leb_le in Hr. pose proof (wf_capacity _ _ _ Hb). pose proof (wf_size _ _ _ Hb).
  pose proof (overhead_nonneg w width ltac:(lia) Hwd).
  unfold capacity in *. injection E as <- <-. rewrite uwrap_id by (unfold in_u; lia). lia.
Qed.

(** At the largest capacity the constructor accepts, [max_size], filling the
    bag to the last byte wraps its [size_] to 0: the next string that is
    stored lands on the bag's own header. *)
Theorem max_size_wraps :
  match make_bag 8 15 256 with
  | Some b =>
      let '(b1, ok1) := assign 8 b 0 (repeat 7 224) in
      ok1 = true /\ used_capacity b1 = 0 /\
      let '(b2, ok2) := assign 8 b1 1 (repeat 9 8) in
      ok2 = true /\ info_at b2 1 = (0, 8)
  | None => False
  end.
Proof. by vm_compute. Qed.
