(* ===== verification/Node.v ===== *)
(** Tree nodes, [src/masstree_struct.hh], at the parameters of the query
    tables ([src/query_masstree.hh]: [nodeparams<15, 15>], concurrent, binary
    search, 64-bit ikeys, 32-bit versions, phantom epochs).

    A tree lives in a heap of nodes.  An operation is a computation of the
    state-and-failure monad [M] over the heap: it runs alone, so a version it
    reads twice is the same unless it changed it itself; a lock that is
    already held, a spin on a dirty version, a null pointer and a false
    [masstree_invariant] are failures ([None]).  Reads that the lock-free
    code repeats until they are consistent are made, and checked, as in the
    code.

    A null pointer is 0.  Nodes are at even addresses, so that the low bit of
    a [next_] pointer is free for [btree_leaflink]'s mark. *)
From S2P Require Import Prelude Compiler Memory StringSlice Key Ksearch Kpermuter Nodeversion.
From S2P Require Import Stringbag.

Abbreviation NV := nodeversion_parameters32.
Definition leaf_width : Z := 15.
Definition internode_width : Z := 15.
Definition bound_method_ : bound_method := bound_method_binary.
(** [MASSTREE_MAXKEYLEN], as [configure.ac] sets it by default. *)
Definition max_key_len : Z := 255.

(** Arrays: a read (the indices are in range wherever the code reads), and a
    write, which fails out of range. *)
Definition rd (l : list Z) (i : Z) : Z := match zlookup l i with Some x => x | None => 0 end.
Definition wr (l : list Z) (i x : Z) : option (list Z) :=
  if (0 <=? i) && (i <? zlength l) then Some (<[Z.to_nat i := x]> l) else None.

(** * Node data *)
Record internode : Type := mkInternode {
  iversion : Z; nkeys_ : Z; height_ : Z; iikey0_ : list Z; child_ : list Z; iparent_ : Z }.

(** [ksuf_] is the external bag the pointer owns, [iksuf_] the bag at the end
    of the leaf, which exists when [extrasize64_] was positive.  An element of
    [lv_] is the word of the union: a value or the address of a layer. *)
Record leaf : Type := mkLeaf {
  lversion : Z; extrasize64_ : Z; modstate_ : Z; keylenx_ : list Z; permutation_ : Z;
  ikey0_ : list Z; lv_ : list Z; ksuf_ : option stringbag; iksuf_ : option stringbag;
  next_ : Z; prev_ : Z; lparent_ : Z; phantom_epoch_ : Z }.

Inductive node : Type := NLeaf (l : leaf) | NInternode (n : internode).

(** [modstate_insert], [modstate_remove], [modstate_deleted_layer]. *)
Definition modstate_insert : Z := 0.
Definition modstate_remove : Z := 1.
Definition modstate_deleted_layer : Z := 2.
Definition ksuf_keylenx : Z := 64.
Definition layer_keylenx : Z := 128.

(** ** Internodes *)
Module Internode.
Definition size (n : internode) : Z := nkeys_ n.
Definition ikey (n : internode) (p : Z) : Z := rd (iikey0_ n) p.
Definition get_key (n : internode) (p : Z) : key := Key.key_ikey (ikey n p).
Definition compare_key (n : internode) (a : key) (bp : Z) : Z :=
  compare (Key.ikey a) (ikey n bp).
Definition compare_ikey (n : internode) (a bp : Z) : Z := compare a (ikey n bp).

(** [bound_type::upper(k, *this)], for a key and for an ikey. *)
Definition upper (a : key) (n : internode) : Z :=
  bound_upper internode_width bound_method_ (size n) id (compare_key n a).
Definition upper_ikey (a : Z) (n : internode) : Z :=
  bound_upper internode_width bound_method_ (size n) id (compare_ikey n a).

Definition make (height : Z) : internode :=
  mkInternode (Nodeversion.make NV false) 0 height (repeat 0 (Z.to_nat internode_width))
    (repeat 0 (Z.to_nat (internode_width + 1))) 0.

Definition set_version (n : internode) (v : Z) : internode :=
  mkInternode v (nkeys_ n) (height_ n) (iikey0_ n) (child_ n) (iparent_ n).
Definition set_nkeys (n : internode) (k : Z) : internode :=
  mkInternode (iversion n) k (height_ n) (iikey0_ n) (child_ n) (iparent_ n).
Definition set_ikey0 (n : internode) (l : list Z) : internode :=
  mkInternode (iversion n) (nkeys_ n) (height_ n) l (child_ n) (iparent_ n).
Definition set_child (n : internode) (l : list Z) : internode :=
  mkInternode (iversion n) (nkeys_ n) (height_ n) (iikey0_ n) l (iparent_ n).
Definition set_parent (n : internode) (p : Z) : internode :=
  mkInternode (iversion n) (nkeys_ n) (height_ n) (iikey0_ n) (child_ n) p.

(** [memcpy(dst + p, src + xp, n)] and [memmove] on arrays. *)
Definition copy (dst : list Z) (p : Z) (src : list Z) (xp n : Z) : option (list Z) :=
  if (0 <=? p) && (0 <=? xp) && (0 <=? n) && (p + n <=? zlength dst) && (xp + n <=? zlength src)
  then Some (take (Z.to_nat p) dst ++ take (Z.to_nat n) (drop (Z.to_nat xp) src) ++
    drop (Z.to_nat (p + n)) dst)
  else None.

(** The body of [assign] other than [child->set_parent(this)]. *)
Definition assign (n : internode) (p ikey child : Z) : option internode :=
  c ← wr (child_ n) (p + 1) child;
  k ← wr (iikey0_ n) p ikey;
  Some (set_ikey0 (set_child n c) k).
Definition shift_from (n : internode) (p : Z) (x : internode) (xp k : Z) : option internode :=
  if k =? 0 then Some n
  else
    i ← copy (iikey0_ n) p (iikey0_ x) xp k;
    c ← copy (child_ n) (p + 1) (child_ x) (xp + 1) k;
    Some (set_child (set_ikey0 n i) c).

(** The copying loops of [shift_up] (from the last element down) and
    [shift_down] (from the first up). *)
Fixpoint copy_backward (k : nat) (l : list Z) (a b : Z) : option (list Z) :=
  match k with
  | O => Some l
  | S k => l ← wr l a (rd l b); copy_backward k l (a - 1) (b - 1)
  end.
Fixpoint copy_forward (k : nat) (l : list Z) (a b : Z) : option (list Z) :=
  match k with
  | O => Some l
  | S k => l ← wr l a (rd l b); copy_forward k l (a + 1) (b + 1)
  end.
Definition shift_up (n : internode) (p xp k : Z) : option internode :=
  i ← copy (iikey0_ n) p (iikey0_ n) xp k;
  c ← copy_backward (Z.to_nat k) (child_ n) (p + k) (xp + k);
  Some (set_child (set_ikey0 n i) c).
Definition shift_down (n : internode) (p xp k : Z) : option internode :=
  i ← copy (iikey0_ n) p (iikey0_ n) xp k;
  c ← copy_forward (Z.to_nat k) (child_ n) (p + 1) (xp + 1);
  Some (set_child (set_ikey0 n i) c).

(** [split_into], up to the parents of the children that moved and the mark
    of the split: the new left and right nodes, the split key, and the
    position left to insert in the left node, or -1. *)
Definition split_into (n nr : internode) (p ka value split_type : Z) :
    option (internode * internode * Z * Z) :=
  let width := internode_width in
  let mid := if split_type =? 2 then width else (width + 1) / 2 in
  let nr := set_nkeys nr (width + 1 - (mid + 1)) in
  r ← (if p <? mid then
         c ← wr (child_ nr) 0 (rd (child_ n) mid);
         nr ← shift_from (set_child nr c) 0 n mid (width - mid);
         Some (nr, rd (iikey0_ n) (mid - 1))
       else if p =? mid then
         c ← wr (child_ nr) 0 value;
         nr ← shift_from (set_child nr c) 0 n mid (width - mid);
         Some (nr, ka)
       else
         c ← wr (child_ nr) 0 (rd (child_ n) (mid + 1));
         nr ← shift_from (set_child nr c) 0 n (mid + 1) (p - (mid + 1));
         nr ← assign nr (p - (mid + 1)) ka value;
         nr ← shift_from nr (p + 1 - (mid + 1)) n p (width - p);
         Some (nr, rd (iikey0_ n) mid));
  let '(nr, split_ikey) := r in
  let n := set_version n (Nodeversion.mark_split NV (iversion n)) in
  if p <? mid then Some (set_nkeys n (mid - 1), nr, split_ikey, p)
  else Some (set_nkeys n mid, nr, split_ikey, -1).
End Internode.

(** ** Leaves *)
Module Leaf.
(** [sizeof(leaf<P>)] with 15 slots: 312 bytes on x86-64. *)
Definition sizeof_leaf : Z := 312.
Definition internal_bits : Z := 8.
Definition external_bits : Z := 16.

Definition set_version (l : leaf) (v : Z) : leaf :=
  mkLeaf v (extrasize64_ l) (modstate_ l) (keylenx_ l) (permutation_ l) (ikey0_ l) (lv_ l)
    (ksuf_ l) (iksuf_ l) (next_ l) (prev_ l) (lparent_ l) (phantom_epoch_ l).
Definition set_modstate (l : leaf) (v : Z) : leaf :=
  mkLeaf (lversion l) (extrasize64_ l) v (keylenx_ l) (permutation_ l) (ikey0_ l) (lv_ l)
    (ksuf_ l) (iksuf_ l) (next_ l) (prev_ l) (lparent_ l) (phantom_epoch_ l).
Definition set_permutation (l : leaf) (v : Z) : leaf :=
  mkLeaf (lversion l) (extrasize64_ l) (modstate_ l) (keylenx_ l) v (ikey0_ l) (lv_ l)
    (ksuf_ l) (iksuf_ l) (next_ l) (prev_ l) (lparent_ l) (phantom_epoch_ l).
(** The three fields of a slot. *)
Definition set_slots (l : leaf) (keylenx ikey0 lv : list Z) : leaf :=
  mkLeaf (lversion l) (extrasize64_ l) (modstate_ l) keylenx (permutation_ l) ikey0 lv
    (ksuf_ l) (iksuf_ l) (next_ l) (prev_ l) (lparent_ l) (phantom_epoch_ l).
Definition set_ksuf (l : leaf) (es : Z) (ks iks : option stringbag) : leaf :=
  mkLeaf (lversion l) es (modstate_ l) (keylenx_ l) (permutation_ l) (ikey0_ l) (lv_ l)
    ks iks (next_ l) (prev_ l) (lparent_ l) (phantom_epoch_ l).
Definition set_links (l : leaf) (next prev : Z) : leaf :=
  mkLeaf (lversion l) (extrasize64_ l) (modstate_ l) (keylenx_ l) (permutation_ l) (ikey0_ l) (lv_ l)
    (ksuf_ l) (iksuf_ l) next prev (lparent_ l) (phantom_epoch_ l).
Definition set_parent (l : leaf) (p : Z) : leaf :=
  mkLeaf (lversion l) (extrasize64_ l) (modstate_ l) (keylenx_ l) (permutation_ l) (ikey0_ l) (lv_ l)
    (ksuf_ l) (iksuf_ l) (next_ l) (prev_ l) p (phantom_epoch_ l).
Definition set_phantom_epoch (l : leaf) (e : Z) : leaf :=
  mkLeaf (lversion l) (extrasize64_ l) (modstate_ l) (keylenx_ l) (permutation_ l) (ikey0_ l) (lv_ l)
    (ksuf_ l) (iksuf_ l) (next_ l) (prev_ l) (lparent_ l) e.

(** The constructor, for an allocation of [sz] bytes.  The slots and links it
    leaves uninitialised are 0. *)
Definition construct (sz phantom_epoch : Z) : option leaf :=
  if (sz mod 64 =? 0) && (sz / 64 <? 128) then
    let extrasize64 := Z.shiftr sz 6 - Z.shiftr (sizeof_leaf + 63) 6 in
    iks ← (if 0 <? extrasize64 then
             b ← make_bag internal_bits leaf_width (sz - sizeof_leaf); Some (Some b)
           else Some None);
    Some (mkLeaf (Nodeversion.make NV true) extrasize64 modstate_insert (repeat 0 15)
      (uwrap 64 (make_empty leaf_width)) (repeat 0 15) (repeat 0 15) None iks 0 0 0 phantom_epoch)
  else None.
Definition make (ksufsize phantom_epoch : Z) : option leaf :=
  construct (iceil (sizeof_leaf + Z.min ksufsize 128) 64) phantom_epoch.
(** [make_root], given the phantom epoch of the [parent] leaf (0 if none). *)
Definition make_root (ksufsize parent_epoch : Z) : option leaf :=
  l ← make ksufsize parent_epoch;
  i ← wr (ikey0_ l) 0 0;
  let l := set_slots l (keylenx_ l) i (lv_ l) in
  let l := set_parent (set_links l 0 0) 0 in
  Some (set_version l (Nodeversion.mark_root NV (lversion l))).

Definition min_allocated_size : Z := Z.land (sizeof_leaf + 63) (unot 64 63).
Definition allocated_size (l : leaf) : Z :=
  let es := if 0 <=? extrasize64_ l then extrasize64_ l else - extrasize64_ l - 1 in
  Z.land (sizeof_leaf + es * 64 + 63) (unot 64 63).

Definition permutation (l : leaf) : kpermuter := permutation_ l.
Definition size (l : leaf) : Z := Kpermuter.size (permutation_ l).
Definition full_version_value (l : leaf) : Z :=
  uwrap 32 (ushl 32 (lversion l) 4 + size l).
Definition full_unlocked_version_value (l : leaf) : Z :=
  let v := lversion l in
  let v := if Nodeversion.locked NV v then Nodeversion.unlock NV v else v in
  uwrap 32 (ushl 32 v 4 + size l).
Definition has_changed (l : leaf) (oldv oldperm : Z) : bool :=
  Nodeversion.has_changed NV (lversion l) oldv || negb (oldperm =? permutation_ l).

Definition keylenx_is_layer (keylenx : Z) : bool := 127 <? keylenx.
Definition keylenx_has_ksuf (keylenx : Z) : bool := keylenx =? ksuf_keylenx.
Definition keylenx (l : leaf) (p : Z) : Z := rd (keylenx_ l) p.
Definition ikey (l : leaf) (p : Z) : Z := rd (ikey0_ l) p.
Definition lv (l : leaf) (p : Z) : Z := rd (lv_ l) p.
Definition ikey_bound (l : leaf) : Z := ikey l 0.
Definition is_layer (l : leaf) (p : Z) : bool := keylenx_is_layer (keylenx l p).
Definition has_ksuf (l : leaf) (p : Z) : bool := keylenx_has_ksuf (keylenx l p).
Definition compare_key (l : leaf) (a : key) (bp : Z) : Z :=
  Key.compare_ikey a (ikey l bp) (keylenx l bp).

(** [bound_type::lower(k, *this)]. *)
Definition lower (a : key) (l : leaf) : key_indexed_position :=
  bound_lower_by leaf_width bound_method_ (size l) (Kpermuter.index (permutation_ l))
    (compare_key l a).

(** [ksuf(p)]: the bytes of the suffix, from the external bag if there is
    one.  [deleted_layer]: see [Remove]. *)
Definition ksuf (l : leaf) (p : Z) : list Z :=
  match ksuf_ l, iksuf_ l with
  | Some b, _ => get b p
  | None, Some b => get b p
  | None, None => []
  end.
(** [s.len == ka.suffix().len && equals_sloppy(...)]: [sloppy_exact]. *)
Definition suffix_eq (m : mem) (s : list Z) (ka : key) : bool :=
  (zlength s =? str_len (Key.suffix ka)) &&
  (list_memcmp s (str_bytes m (Key.suffix ka)) =? 0).
Definition ksuf_equals (m : mem) (l : leaf) (p : Z) (ka : key) : bool :=
  if negb (has_ksuf l p) then true else suffix_eq m (ksuf l p) ka.
(** 1: match and not layer, 0: no match, negative: match and layer. *)
Definition ksuf_matches (m : mem) (l : leaf) (p : Z) (ka : key) : Z :=
  let keylenx := keylenx l p in
  if keylenx <? ksuf_keylenx then 1
  else if keylenx =? layer_keylenx then - ikey_size
  else b2z (suffix_eq m (ksuf l p) ka).
Definition ksuf_compare (m : mem) (l : leaf) (p : Z) (ka : key) : Z :=
  if negb (has_ksuf l p) then 0 else lex (ksuf l p) (str_bytes m (Key.suffix ka)).
Definition ksuf_used_capacity (l : leaf) : Z :=
  match ksuf_ l, iksuf_ l with
  | Some b, _ => used_capacity b
  | None, Some b => if 0 <? extrasize64_ l then used_capacity b else 0
  | None, None => 0
  end.
Definition ksuf_capacity (l : leaf) : Z :=
  match ksuf_ l, iksuf_ l with
  | Some b, _ => capacity b
  | None, Some b => if 0 <? extrasize64_ l then capacity b else 0
  | None, None => 0
  end.
Definition ksuf_external (l : leaf) : bool := bool_decide (is_Some (ksuf_ l)).
Definition deleted_layer (l : leaf) : bool := modstate_ l =? modstate_deleted_layer.
Definition mark_deleted_layer (l : leaf) : leaf := set_modstate l modstate_deleted_layer.
Definition safe_next (l : leaf) : Z := Z.land (next_ l) (unot 64 1).

(** [ksuf_->assign(p, s)] or [iksuf_[0].assign(p, s)], when it has room. *)
Definition assign_ksuf_inplace (l : leaf) (p : Z) (s : list Z) : option leaf :=
  let try_internal (l : leaf) :=
    if 0 <? extrasize64_ l then
      match iksuf_ l with
      | Some b => let '(b', ok) := assign internal_bits b p s in
          if ok then Some (set_ksuf l (extrasize64_ l) (ksuf_ l) (Some b')) else None
      | None => None
      end
    else None in
  match ksuf_ l with
  | Some b => let '(b', ok) := assign external_bits b p s in
      if ok then Some (set_ksuf l (extrasize64_ l) (Some b') (iksuf_ l)) else try_internal l
  | None => try_internal l
  end.
(** The suffixes that are copied to a new bag, in order, with their slots. *)
Definition live_ksufs (l : leaf) (p : Z) (initializing : bool) : list (Z * list Z) :=
  let n := if initializing then p else size l in
  let slots := map (fun i => if initializing then i else Kpermuter.index (permutation_ l) i) (seqZ 0 n) in
  map (fun mp => (mp, ksuf l mp)) (filter (fun mp => negb (mp =? p) && has_ksuf l mp) slots).
(** [bool ok = nksuf->assign(mp, s); assert(ok)] over the list. *)
Fixpoint assign_all (b : stringbag) (ks : list (Z * list Z)) : option stringbag :=
  match ks with
  | [] => Some b
  | (mp, s) :: ks =>
      let '(b', ok) := assign external_bits b mp s in
      if ok then assign_all b' ks else None
  end.
Definition assign_ksuf (l : leaf) (p : Z) (s : list Z) (initializing : bool) : option leaf :=
  match assign_ksuf_inplace l p s with
  | Some l' => Some l'
  | None =>
      let ks := live_ksufs l p initializing in
      let csz := foldr (fun k acc => zlength (snd k) + acc) 0 ks in
      let sz := iceil_log2 64 (safe_size external_bits leaf_width (csz + zlength s)) in
      let sz := match ksuf_ l with Some o => Z.max sz (capacity o) | None => sz end in
      nksuf ← make_bag external_bits leaf_width sz;
      nksuf ← assign_all nksuf (ks ++ [(p, s)]);
      if modstate_ l =? modstate_remove then None
      else Some (set_ksuf l (if 0 <=? extrasize64_ l then - extrasize64_ l - 1 else extrasize64_ l)
        (Some nksuf) (iksuf_ l))
  end.

Definition write_slot (l : leaf) (p keylenx ikey lv : Z) : option leaf :=
  a ← wr (lv_ l) p lv;
  b ← wr (ikey0_ l) p ikey;
  c ← wr (keylenx_ l) p keylenx;
  Some (set_slots l c b a).
(** [assign] and the two [assign_initialize] of a key; they differ in what
    [assign_ksuf] copies. *)
Definition assign_with (initializing : bool) (m : mem) (l : leaf) (p : Z) (ka : key) : option leaf :=
  if negb (Key.has_suffix ka) then write_slot l p (uwrap 8 (Key.length ka)) (Key.ikey ka) 0
  else
    l ← write_slot l p ksuf_keylenx (Key.ikey ka) 0;
    assign_ksuf l p (str_bytes m (Key.suffix ka)) initializing.
Definition assign (m : mem) (l : leaf) (p : Z) (ka : key) : option leaf := assign_with false m l p ka.
Definition assign_initialize (m : mem) (l : leaf) (p : Z) (ka : key) : option leaf :=
  assign_with true m l p ka.
Definition assign_initialize_from (l : leaf) (p : Z) (x : leaf) (xp : Z) : option leaf :=
  l ← write_slot l p (keylenx x xp) (ikey x xp) (lv x xp);
  if has_ksuf x xp then assign_ksuf l p (ksuf x xp) true else Some l.
Definition assign_initialize_for_layer (l : leaf) (p : Z) (ka : key) : option leaf :=
  if Key.has_suffix ka then write_slot l p layer_keylenx (Key.ikey ka) (lv l p) else None.
End Leaf.

(** * Array accesses *)
Lemma wr_spec l i x :
  0 <= i < zlength l ->
  exists r, wr l i x = Some r /\ zlength r = zlength l /\
    forall j, zlookup r j = if j =? i then Some x else zlookup l j.
Proof.
  intros Hi. exists (<[Z.to_nat i := x]> l). unfold wr.
  destruct (Z.leb_spec 0 i), (Z.ltb_spec i (zlength l)); try lia. cbn [andb].
  split_and!; [done|unfold zlength; by rewrite length_insert|].
  intros j. unfold zlookup, zlength in *. destruct (Z.eqb_spec j i) as [->|].
  - destruct (Z.ltb_spec i 0); [lia|]. apply list_lookup_insert_eq. lia.
  - destruct (Z.ltb_spec j 0); [done|]. apply list_lookup_insert_ne. lia.
Qed.

Lemma rd_zlookup l i x : zlookup l i = Some x -> rd l i = x.
Proof. intros H. unfold rd. by rewrite H. Qed.
Lemma zlookup_rd l i : 0 <= i < zlength l -> zlookup l i = Some (rd l i).
Proof.
  intros H. unfold rd. destruct (zlookup l i) eqn:E; [done|].
  rewrite zlookup_nonneg in E by lia. apply lookup_ge_None in E. unfold zlength in H. lia.
Qed.
