(* ===== verification/InternodeSpec.v ===== *)
(** Internodes as lists of keys and children: what inserting a child,
    removing one and splitting a full node do to them. *)
From Stdlib Require Import Sorted.
From stdpp Require Import sorting.
From S2P Require Import Prelude Nodeversion Node.

(** * Arrays *)
(** [memcpy]/[memmove] of [n] elements. *)
Lemma copy_spec dst p src xp n :
  0 <= p -> 0 <= xp -> 0 <= n -> p + n <= zlength dst -> xp + n <= zlength src ->
  exists r, Internode.copy dst p src xp n = Some r /\ zlength r = zlength dst /\
    forall j, zlookup r j = if (p <=? j) && (j <? p + n) then zlookup src (j - p + xp) else zlookup dst j.
Proof.
  intros. unfold Internode.copy.
  destruct (Z.leb_spec 0 p), (Z.leb_spec 0 xp), (Z.leb_spec 0 n), (Z.leb_spec (p + n) (zlength dst)),
    (Z.leb_spec (xp + n) (zlength src)); try lia. cbn [andb].
  eexists. split; [done|]. split.
  - rewrite !zlength_app, !zlength_take, !zlength_drop by lia. lia.
  - intros j. destruct (Z.lt_ge_cases j 0).
    { assert (forall (l : list Z), zlookup l j = None) as Hn
        by (intros; unfold zlookup; by destruct (Z.ltb_spec j 0); [|lia]).
      rewrite !Hn. by destruct (Z.leb_spec p j); [lia|]. }
    assert (zlength (take (Z.to_nat p) dst) = p) as Hz1 by (rewrite zlength_take; lia).
    assert (zlength (take (Z.to_nat n) (drop (Z.to_nat xp) src)) = n) as Hz2
      by (rewrite zlength_take, zlength_drop; lia).
    rewrite zlookup_app, Hz1, zlookup_take by lia.
    destruct (Z.ltb_spec j p), (Z.leb_spec p j); try lia; cbn [andb]; [done|].
    rewrite zlookup_app, Hz2, zlookup_take by lia.
    destruct (Z.ltb_spec (j - p) n), (Z.ltb_spec j (p + n)); try lia;
      rewrite zlookup_drop by lia; f_equal; lia.
Qed.

(** The loop of [shift_up] moves the elements although source and destination
    overlap. *)
Lemma copy_backward_spec k l a b :
  b <= a -> a < zlength l -> 0 <= b + 1 - Z.of_nat k ->
  exists r, Internode.copy_backward k l a b = Some r /\ zlength r = zlength l /\
    forall j, zlookup r j = if (a - Z.of_nat k <? j) && (j <=? a) then zlookup l (j - a + b) else zlookup l j.
Proof.
  revert l a b. induction k as [|k IH]; intros l a b Hba Ha Hb; cbn [Internode.copy_backward].
  - exists l. split_and!; try done. intros j.
    destruct (Z.ltb_spec (a - Z.of_nat 0) j), (Z.leb_spec j a); done || lia.
  - destruct (wr_spec l a (rd l b)) as (l' & Hw & Hl' & Hlk); [lia|]. rewrite Hw. cbn.
    destruct (IH l' (a - 1) (b - 1)) as (r & Hr & Hlr & Hlkr); [lia..|].
    exists r. split; [done|]. split; [lia|]. intros j. rewrite Hlkr, !Hlk.
    destruct (Z.ltb_spec (a - 1 - Z.of_nat k) j), (Z.leb_spec j (a - 1)),
      (Z.ltb_spec (a - Z.of_nat (S k)) j), (Z.leb_spec j a); try lia; cbn [andb];
      destruct (Z.eqb_spec j a) as [->|]; try lia;
      try (destruct (Z.eqb_spec (j - (a - 1) + (b - 1)) a); [lia|]); try done.
    + f_equal. lia.
    + rewrite <- zlookup_rd by lia. f_equal. lia.
Qed.
Lemma copy_forward_spec k l a b :
  a <= b -> 0 <= a -> b + Z.of_nat k <= zlength l ->
  exists r, Internode.copy_forward k l a b = Some r /\ zlength r = zlength l /\
    forall j, zlookup r j = if (a <=? j) && (j <? a + Z.of_nat k) then zlookup l (j - a + b) else zlookup l j.
Proof.
  revert l a b. induction k as [|k IH]; intros l a b Hba Ha Hb; cbn [Internode.copy_forward].
  - exists l. split_and!; try done. intros j.
    destruct (Z.leb_spec a j), (Z.ltb_spec j (a + Z.of_nat 0)); done || lia.
  - destruct (wr_spec l a (rd l b)) as (l' & Hw & Hl' & Hlk); [lia|]. rewrite Hw. cbn.
    destruct (IH l' (a + 1) (b + 1)) as (r & Hr & Hlr & Hlkr); [lia..|].
    exists r. split; [done|]. split; [lia|]. intros j. rewrite Hlkr, !Hlk.
    destruct (Z.leb_spec (a + 1) j), (Z.ltb_spec j (a + 1 + Z.of_nat k)),
      (Z.leb_spec a j), (Z.ltb_spec j (a + Z.of_nat (S k))); try lia; cbn [andb];
      destruct (Z.eqb_spec j a) as [->|]; try lia;
      try (destruct (Z.eqb_spec (j - (a + 1) + (b + 1)) a); [lia|]); try done.
    + f_equal. lia.
    + rewrite <- zlookup_rd by lia. f_equal. lia.
Qed.

(** * Keys and children *)
Definition keys (n : internode) : list Z := take (Z.to_nat (nkeys_ n)) (iikey0_ n).
Definition children (n : internode) : list Z := take (Z.to_nat (nkeys_ n + 1)) (child_ n).

Record shape (n : internode) : Prop := {
  sh_nkeys : 0 <= nkeys_ n <= internode_width;
  sh_ikey0 : zlength (iikey0_ n) = internode_width;
  sh_child : zlength (child_ n) = internode_width + 1 }.

(** The steps of [make_split] that insert a child in an internode with room,
    and those of [remove_leaf] that remove one. *)
Definition insert_child (n : internode) (kp ikey child : Z) : option internode :=
  n ← Internode.shift_up n (kp + 1) kp (Internode.size n - kp);
  n ← Internode.assign n kp ikey child;
  Some (Internode.set_nkeys n (uwrap 8 (nkeys_ n + 1))).
Definition remove_child (n : internode) (kp : Z) : option internode :=
  n ← Internode.shift_down n (kp - 1) kp (nkeys_ n - kp);
  Some (Internode.set_nkeys n (uwrap 8 (nkeys_ n - 1))).

(** What stays the same. *)
Definition same_header (n r : internode) : Prop :=
  iversion r = iversion n /\ height_ r = height_ n /\ iparent_ r = iparent_ n.

Section shape.
Context (n : internode) (Hn : shape n).

Lemma zlength_keys : zlength (keys n) = nkeys_ n.
Proof using Hn. destruct Hn. unfold keys. rewrite zlength_take; unfold internode_width in *; lia. Qed.
Lemma zlength_children : zlength (children n) = nkeys_ n + 1.
Proof using Hn. destruct Hn. unfold children. rewrite zlength_take; unfold internode_width in *; lia. Qed.
Lemma zlookup_keys i : i < nkeys_ n -> zlookup (keys n) i = zlookup (iikey0_ n) i.
Proof using Type. intros. unfold keys. rewrite zlookup_take. by destruct (Z.ltb_spec i (nkeys_ n)); [|lia]. Qed.
Lemma zlookup_children i : i <= nkeys_ n -> zlookup (children n) i = zlookup (child_ n) i.
Proof using Type. intros. unfold children. rewrite zlookup_take. by destruct (Z.ltb_spec i (nkeys_ n + 1)); [|lia]. Qed.
End shape.

Ltac zcases :=
  repeat match goal with
  | |- context [Z.ltb ?a ?b] => destruct (Z.ltb_spec a b); try lia
  | |- context [Z.leb ?a ?b] => destruct (Z.leb_spec a b); try lia
  | |- context [Z.eqb ?a ?b] => destruct (Z.eqb_spec a b); try lia
  end; cbn [andb].

Lemma insert_child_spec n p ka v :
  shape n -> 0 <= p <= nkeys_ n -> nkeys_ n < internode_width ->
  exists r, insert_child n p ka v = Some r /\ shape r /\ same_header n r /\
    nkeys_ r = nkeys_ n + 1 /\
    keys r = insert_at p ka (keys n) /\ children r = insert_at (p + 1) v (children n).
Proof.
  intros Hn Hp Hw. pose proof Hn as [H1 H2 H3]. unfold internode_width in *.
  destruct (copy_spec (iikey0_ n) (p + 1) (iikey0_ n) p (nkeys_ n - p)) as (i & Hi & Hil & Hik); [lia..|].
  destruct (copy_backward_spec (Z.to_nat (nkeys_ n - p)) (child_ n) (p + 1 + (nkeys_ n - p))
    (p + (nkeys_ n - p))) as (c & Hc & Hcl & Hck); [lia..|].
  destruct (wr_spec c (p + 1) v) as (c' & Hc' & Hcl' & Hck'); [lia|].
  destruct (wr_spec i p ka) as (i' & Hi' & Hil' & Hik'); [lia|].
  eexists. split.
  { unfold insert_child, Internode.shift_up, Internode.assign, Internode.size. rewrite Hi. cbn.
    rewrite Hc. cbn. rewrite Hc'. cbn. rewrite Hi'. cbn. reflexivity. }
  assert (uwrap 8 (nkeys_ n + 1) = nkeys_ n + 1) as Hu by (apply uwrap_id; unfold in_u; lia).
  assert (shape (Internode.set_nkeys (Internode.set_ikey0 (Internode.set_child
    (Internode.set_child (Internode.set_ikey0 n i) c) c') i') (uwrap 8 (nkeys_ n + 1)))) as Hr.
  { split; cbn; unfold internode_width; lia. }
  split_and!; try done.
  - apply zlookup_ext.
    { rewrite zlength_insert_at, !zlength_keys by done. cbn. lia. }
    rewrite zlength_keys by done. cbn [nkeys_ Internode.set_nkeys]. intros j Hj.
    rewrite zlookup_keys by (cbn; lia). cbn [iikey0_ Internode.set_nkeys Internode.set_ikey0].
    rewrite zlookup_insert_at, Hik', Hik by (rewrite ?zlength_keys by done; lia).
    zcases; rewrite ?zlookup_keys by lia; try done; f_equal; lia.
  - apply zlookup_ext.
    { rewrite zlength_insert_at, !zlength_children by done. cbn. lia. }
    rewrite zlength_children by done. cbn [nkeys_ Internode.set_nkeys]. intros j Hj.
    rewrite zlookup_children by (cbn; lia). cbn [child_ Internode.set_nkeys Internode.set_ikey0 Internode.set_child].
    rewrite zlookup_insert_at, Hck', Hck by (rewrite ?zlength_children by done; lia).
    zcases; rewrite ?zlookup_children by lia; try done; f_equal; lia.
Qed.

Lemma remove_child_spec n p :
  shape n -> 1 <= p <= nkeys_ n ->
  exists r, remove_child n p = Some r /\ shape r /\ same_header n r /\
    nkeys_ r = nkeys_ n - 1 /\
    keys r = delete_at (p - 1) (keys n) /\ children r = delete_at p (children n).
Proof.
  intros Hn Hp. pose proof Hn as [H1 H2 H3]. unfold internode_width in *.
  destruct (copy_spec (iikey0_ n) (p - 1) (iikey0_ n) p (nkeys_ n - p)) as (i & Hi & Hil & Hik); [lia..|].
  destruct (copy_forward_spec (Z.to_nat (nkeys_ n - p)) (child_ n) (p - 1 + 1) (p + 1))
    as (c & Hc & Hcl & Hck); [lia..|].
  eexists. split.
  { unfold remove_child, Internode.shift_down. rewrite Hi. cbn. rewrite Hc. cbn. reflexivity. }
  assert (uwrap 8 (nkeys_ n - 1) = nkeys_ n - 1) as Hu by (apply uwrap_id; unfold in_u; lia).
  assert (shape (Internode.set_nkeys (Internode.set_child (Internode.set_ikey0 n i) c)
    (uwrap 8 (nkeys_ n - 1)))) as Hr by (split; cbn; unfold internode_width; lia).
  split_and!; try done.
  - apply zlookup_ext.
    { rewrite zlength_delete_at, !zlength_keys by (rewrite ?zlength_keys by done; done || lia). cbn. lia. }
    rewrite zlength_keys by done. cbn [nkeys_ Internode.set_nkeys]. intros j Hj.
    rewrite zlookup_keys by (cbn; lia). cbn [iikey0_ Internode.set_nkeys Internode.set_ikey0 Internode.set_child].
    rewrite zlookup_delete_at, Hik by (rewrite ?zlength_keys by done; lia).
    zcases; rewrite ?zlookup_keys by lia; try done; f_equal; lia.
  - apply zlookup_ext.
    { rewrite zlength_delete_at, !zlength_children by (rewrite ?zlength_children by done; done || lia). cbn. lia. }
    rewrite zlength_children by done. cbn [nkeys_ Internode.set_nkeys]. intros j Hj.
    rewrite zlookup_children by (cbn; lia). cbn [child_ Internode.set_nkeys Internode.set_ikey0 Internode.set_child].
    rewrite zlookup_delete_at, Hck by (rewrite ?zlength_children by done; lia).
    zcases; rewrite ?zlookup_children by lia; try done; f_equal; lia.
Qed.

(** * Splits *)
Lemma shift_from_spec n p x xp k :
  shape n -> shape x -> 0 <= p -> 0 <= xp -> 0 <= k ->
  p + k <= internode_width -> xp + k <= internode_width ->
  exists r, Internode.shift_from n p x xp k = Some r /\ nkeys_ r = nkeys_ n /\ same_header n r /\
    zlength (iikey0_ r) = internode_width /\ zlength (child_ r) = internode_width + 1 /\
    (forall j, zlookup (iikey0_ r) j =
      if (p <=? j) && (j <? p + k) then zlookup (iikey0_ x) (j - p + xp) else zlookup (iikey0_ n) j) /\
    (forall j, zlookup (child_ r) j =
      if (p + 1 <=? j) && (j <? p + 1 + k) then zlookup (child_ x) (j - p + xp) else zlookup (child_ n) j).
Proof.
  intros [H1 H2 H3] [H4 H5 H6] Hp Hxp Hk Hpk Hxk. unfold internode_width in *.
  unfold Internode.shift_from. destruct (Z.eqb_spec k 0) as [->|Hk0].
  - exists n. split_and!; try done; intros j; zcases; done.
  - destruct (copy_spec (iikey0_ n) p (iikey0_ x) xp k) as (i & Hi & Hil & Hik); [lia..|].
    destruct (copy_spec (child_ n) (p + 1) (child_ x) (xp + 1) k) as (c & Hc & Hcl & Hck); [lia..|].
    rewrite Hi. cbn. rewrite Hc. cbn. eexists. split; [done|]. cbn. split_and!; try done; try lia.
    intros j. rewrite Hck. zcases; try done. f_equal. lia.
Qed.

(** The split point: in the middle, or at the end for sequential inserts. *)
Definition split_mid (split_type : Z) : Z :=
  if split_type =? 2 then internode_width else (internode_width + 1) / 2.

(** What [split_into] makes of the keys and children of a full node, before
    the last insertion into the left node. *)
Lemma split_into_lists n nr p ka v st :
  shape n -> nkeys_ n = internode_width -> shape nr -> 0 <= p <= internode_width ->
  let mid := split_mid st in
  exists n' nr' sk kp, Internode.split_into n nr p ka v st = Some (n', nr', sk, kp) /\
    shape n' /\ shape nr' /\ kp = (if p <? mid then p else -1) /\
    nkeys_ n' = (if p <? mid then mid - 1 else mid) /\ nkeys_ nr' = internode_width - mid /\
    iikey0_ n' = iikey0_ n /\ child_ n' = child_ n /\
    (forall j, 0 <= j < internode_width - mid ->
      zlookup (iikey0_ nr') j = zlookup (insert_at p ka (keys n)) (mid + 1 + j)) /\
    Some sk = zlookup (insert_at p ka (keys n)) mid /\
    (forall j, 0 <= j <= internode_width - mid ->
      zlookup (child_ nr') j = zlookup (insert_at (p + 1) v (children n)) (mid + 1 + j)).
Proof.
  intros Hn Hfull Hnr Hp. cbv zeta.
  set (mid := split_mid st).
  assert (mid = 8 \/ mid = 15) as Hmid by (unfold mid, split_mid; destruct (st =? 2); [by right|by left]).
  assert (forall i, 0 <= i <= 15 -> zlookup (insert_at p ka (keys n)) i =
    if i <? p then zlookup (iikey0_ n) i else if i =? p then Some ka else zlookup (iikey0_ n) (i - 1)) as HK.
  { intros i Hi. unfold internode_width in *.
    rewrite zlookup_insert_at by (rewrite ?zlength_keys by done; lia).
    zcases; rewrite ?zlookup_keys by lia; done. }
  assert (forall i, 0 <= i <= 16 -> zlookup (insert_at (p + 1) v (children n)) i =
    if i <? p + 1 then zlookup (child_ n) i else if i =? p + 1 then Some v else zlookup (child_ n) (i - 1)) as HC.
  { intros i Hi. unfold internode_width in *.
    rewrite zlookup_insert_at by (rewrite ?zlength_children by done; lia).
    zcases; rewrite ?zlookup_children by lia; done. }
  pose proof Hn as [Hn1 Hn2 Hn3]. pose proof Hnr as [Hr1 Hr2 Hr3].
  unfold internode_width in *.
  assert (forall c, zlength c = 16 -> shape (Internode.set_child (Internode.set_nkeys nr (15 + 1 - (mid + 1))) c)) as Hsh
    by (intros c Hc; split; cbn; unfold internode_width; lia).
  unfold Internode.split_into. fold internode_width. change (if st =? 2 then internode_width else _) with mid.
  unfold internode_width. cbn [child_ Internode.set_nkeys].
  destruct (Z.ltb_spec p mid) as [Hpm|Hpm]; [|destruct (Z.eqb_spec p mid) as [He|He]].
  - destruct (wr_spec (child_ nr) 0 (rd (child_ n) mid)) as (c & Hc & Hcl & Hck); [lia|].
    destruct (shift_from_spec _ 0 n mid (15 - mid) (Hsh c ltac:(lia)) Hn) as
      (r & Hr & Hrn & _ & Hrl & Hrcl & Hrk & Hrc); unfold internode_width in *; [lia..|].
    rewrite Hc. cbn [mbind option_bind]. rewrite Hr. cbn [mbind option_bind].
    eexists _, _, _, _. split; [done|]. cbn. cbn in Hrn. split_and!; try done; try lia.
    + split; cbn; unfold internode_width; lia.
    + split; cbn; unfold internode_width; lia.
    + intros j Hj. rewrite Hrk, HK by lia. zcases; f_equal; lia.
    + rewrite HK by lia. zcases; rewrite <- zlookup_rd by lia; done.
    + intros j Hj. rewrite Hrc, HC by lia. cbn [child_ Internode.set_child]. rewrite Hck.
      zcases; rewrite <- ?zlookup_rd by lia; f_equal; lia.
  - destruct (wr_spec (child_ nr) 0 v) as (c & Hc & Hcl & Hck); [lia|].
    destruct (shift_from_spec _ 0 n mid (15 - mid) (Hsh c ltac:(lia)) Hn) as
      (r & Hr & Hrn & _ & Hrl & Hrcl & Hrk & Hrc); unfold internode_width in *; [lia..|].
    rewrite Hc. cbn [mbind option_bind]. rewrite Hr. cbn [mbind option_bind].
    eexists _, _, _, _. split; [done|]. cbn. cbn in Hrn. split_and!; try done; try lia.
    + split; cbn; unfold internode_width; lia.
    + split; cbn; unfold internode_width; lia.
    + intros j Hj. rewrite Hrk, HK by lia. zcases; f_equal; lia.
    + rewrite HK by lia. zcases; done.
    + intros j Hj. rewrite Hrc, HC by lia. cbn [child_ Internode.set_child]. rewrite Hck.
      zcases; try done; f_equal; lia.
  - destruct (wr_spec (child_ nr) 0 (rd (child_ n) (mid + 1))) as (c & Hc & Hcl & Hck); [lia|].
    destruct (shift_from_spec _ 0 n (mid + 1) (p - (mid + 1)) (Hsh c ltac:(lia)) Hn) as
      (r & Hr & Hrn & _ & Hrl & Hrcl & Hrk & Hrc); unfold internode_width in *; [lia..|].
    destruct (wr_spec (child_ r) (p - (mid + 1) + 1) v) as (c2 & Hc2 & Hcl2 & Hck2); [lia|].
    destruct (wr_spec (iikey0_ r) (p - (mid + 1)) ka) as (i2 & Hi2 & Hil2 & Hik2); [lia|].
    cbn in Hrn.
    assert (shape (Internode.set_ikey0 (Internode.set_child r c2) i2)) as Hr2'
      by (split; cbn; unfold internode_width; lia).
    destruct (shift_from_spec _ (p + 1 - (mid + 1)) n p (15 - p) Hr2' Hn) as
      (q & Hq & Hqn & _ & Hql & Hqcl & Hqk & Hqc); unfold internode_width in *; [lia..|].
    rewrite Hc. cbn [mbind option_bind]. rewrite Hr. cbn [mbind option_bind].
    unfold Internode.assign. rewrite Hc2. cbn [mbind option_bind]. rewrite Hi2. cbn [mbind option_bind].
    rewrite Hq. cbn [mbind option_bind].
    eexists _, _, _, _. split; [done|]. cbn in Hqn. cbn. split_and!; try done; try lia.
    + split; cbn; unfold internode_width; lia.
    + split; cbn; unfold internode_width; lia.
    + intros j Hj. rewrite Hqk, HK by lia. cbn [iikey0_ Internode.set_child Internode.set_ikey0].
      rewrite Hik2, Hrk. zcases; try done; f_equal; lia.
    + rewrite HK by lia. zcases; rewrite <- zlookup_rd by lia; done.
    + intros j Hj. rewrite Hqc, HC by lia. cbn [child_ Internode.set_child Internode.set_ikey0].
      rewrite Hck2, Hrc. cbn [child_ Internode.set_child]. rewrite Hck.
      zcases; rewrite <- ?zlookup_rd by lia; try done; f_equal; lia.
Qed.

(** What the two nodes of a split hold in the end. *)
Lemma split_content n nr p ka v st :
  shape n -> nkeys_ n = internode_width -> shape nr -> 0 <= p <= internode_width ->
  exists n' nr' sk kp n'',
    Internode.split_into n nr p ka v st = Some (n', nr', sk, kp) /\
    (if 0 <=? kp then insert_child n' kp ka v else Some n') = Some n'' /\
    shape n'' /\ shape nr' /\
    insert_at p ka (keys n) = keys n'' ++ sk :: keys nr' /\
    insert_at (p + 1) v (children n) = children n'' ++ children nr' /\
    nkeys_ n'' = split_mid st /\ nkeys_ nr' = internode_width - split_mid st.
Proof.
  intros Hn Hfull Hnr Hp.
  destruct (split_into_lists n nr p ka v st Hn Hfull Hnr Hp) as
    (n' & nr' & sk & kp & Hs & Hn' & Hnr' & Hkp & Hk & Hkr & Hi & Hc & HK & Hsk & HC).
  assert (split_mid st = 8 \/ split_mid st = 15) as Hmid
    by (unfold split_mid; destruct (st =? 2); [by right|by left]).
  set (mid := split_mid st) in *. unfold internode_width in *.
  assert (exists n'', (if 0 <=? kp then insert_child n' kp ka v else Some n') = Some n'' /\
    shape n'' /\ nkeys_ n'' = mid /\
    (forall j, 0 <= j < mid -> zlookup (keys n'') j = zlookup (insert_at p ka (keys n)) j) /\
    (forall j, 0 <= j <= mid -> zlookup (children n'') j = zlookup (insert_at (p + 1) v (children n)) j))
    as (n'' & H1 & H2 & H3 & H4 & H5).
  { destruct (Z.ltb_spec p mid); rewrite Hkp.
    - destruct (Z.leb_spec 0 p); [|lia].
      destruct (insert_child_spec n' p ka v Hn') as (r & Hr & Hrs & _ & Hrn & Hrk & Hrc);
        unfold internode_width; [lia..|].
      exists r. split_and!; [done..|lia| |]; intros j Hj; rewrite ?Hrk, ?Hrc.
      + rewrite !zlookup_insert_at by (rewrite ?zlength_keys by done; lia).
        zcases; rewrite ?zlookup_keys, ?Hi by lia; done.
      + rewrite !zlookup_insert_at by (rewrite ?zlength_children by done; lia).
        zcases; rewrite ?zlookup_children, ?Hc by lia; done.
    - exists n'. split_and!; [done..|lia| |]; intros j Hj.
      + rewrite zlookup_keys, zlookup_insert_at, Hi by (rewrite ?zlength_keys by done; lia).
        zcases; rewrite zlookup_keys by lia; done.
      + rewrite zlookup_children, zlookup_insert_at, Hc by (rewrite ?zlength_children by done; lia).
        zcases; rewrite zlookup_children by lia; done. }
  exists n', nr', sk, kp, n''. split_and!; try done.
  - apply zlookup_ext.
    { rewrite zlength_insert_at, zlength_app, zlength_cons, !zlength_keys by done. lia. }
    intros j Hj. rewrite zlength_insert_at, zlength_keys in Hj by done.
    rewrite zlookup_app, zlength_keys, H3 by (done || lia). zcases; [by rewrite H4 by lia|].
    destruct (Z.eq_dec j mid) as [->|]; [by rewrite Z.sub_diag, <- Hsk|].
    rewrite zlookup_cons, zlookup_keys, HK by lia. f_equal. lia.
  - apply zlookup_ext.
    { rewrite zlength_insert_at, zlength_app, !zlength_children by done. lia. }
    intros j Hj. rewrite zlength_insert_at, zlength_children in Hj by done.
    rewrite zlookup_app, zlength_children, H3 by (done || lia). zcases; [by rewrite H5 by lia|].
    rewrite zlookup_children, HC by lia. f_equal. lia.
Qed.

(** C22: Splitting a full internode while inserting the child [v] right of the
    slice [ka] at position [p]: with the last insertion that [make_split]
    does, the keys of the left node, the split slice and the keys of the right
    node are the old keys with [ka] inserted, the children of the two nodes
    are the old children with [v] inserted, and the sizes are those of the
    split type (8 and 7 keys; 15 and none for sequential inserts). When [p] is
    where [ka] belongs, the split slice separates the keys of the two nodes. *)
Theorem internode_split_content n nr p ka v st :
  shape n -> nkeys_ n = internode_width -> shape nr -> 0 <= p <= internode_width ->
  StronglySorted Z.lt (insert_at p ka (keys n)) ->
  exists n' nr' sk kp n'',
    Internode.split_into n nr p ka v st = Some (n', nr', sk, kp) /\
    (if 0 <=? kp then insert_child n' kp ka v else Some n') = Some n'' /\
    shape n'' /\ shape nr' /\
    insert_at p ka (keys n) = keys n'' ++ sk :: keys nr' /\
    insert_at (p + 1) v (children n) = children n'' ++ children nr' /\
    nkeys_ n'' = split_mid st /\ nkeys_ nr' = internode_width - split_mid st /\
    Forall (fun x => x < sk) (keys n'') /\ Forall (fun x => sk < x) (keys nr').
Proof.
  intros Hn Hfull Hnr Hp Hs.
  destruct (split_content n nr p ka v st Hn Hfull Hnr Hp) as (n' & nr' & sk & kp & n'' & H1 & H2 & H3 & H4 & HK & H5 & H6 & H7).
  rewrite HK in Hs. apply StronglySorted_app in Hs as (Hlt & _ & [Hgt _]%StronglySorted_cons).
  exists n', nr', sk, kp, n''. split_and!; try done.
  apply Forall_forall. intros x Hx. apply Hlt; [done|]. apply elem_of_cons. by left.
Qed.

(** A full node with keys 10, 20, ..., 150: inserting 155 at the end. *)
Definition full_node : internode :=
  mkInternode 0 15 1 (map (Z.mul 10) (seqZ 1 15)) (map (Z.mul 64) (seqZ 1 16)) 0.
Lemma internode_split_content_witness :
  exists n' nr' sk kp n'',
    Internode.split_into full_node (Internode.make 1) 15 155 4096 0 = Some (n', nr', sk, kp) /\
    (if 0 <=? kp then insert_child n' kp 155 4096 else Some n') = Some n'' /\
    insert_at 15 155 (keys full_node) = keys n'' ++ sk :: keys nr' /\ nkeys_ nr' = 7.
Proof.
  destruct (internode_split_content full_node (Internode.make 1) 15 155 4096 0) as
    (n' & nr' & sk & kp & n'' & H1 & H2 & _ & _ & H3 & _ & _ & H4 & _);
    [split; done|done|split; done|done| |].
  { vm_compute. repeat constructor. }
  by exists n', nr', sk, kp, n''.
Defined.

(** Inserting a child in an internode with room, and removing one, insert and
    delete in the lists of keys and children: [remove_child] undoes
    [insert_child]. *)
Theorem insert_remove_child n p ka v :
  shape n -> 0 <= p <= nkeys_ n -> nkeys_ n < internode_width ->
  exists r q, insert_child n p ka v = Some r /\ remove_child r (p + 1) = Some q /\
    keys r = insert_at p ka (keys n) /\ children r = insert_at (p + 1) v (children n) /\
    keys q = keys n /\ children q = children n.
Proof.
  intros Hn Hp Hw.
  destruct (insert_child_spec n p ka v Hn Hp Hw) as (r & Hr & Hrs & _ & Hrn & Hk & Hc).
  destruct (remove_child_spec r (p + 1) Hrs) as (q & Hq & _ & _ & _ & Hqk & Hqc); [lia|].
  exists r, q. split_and!; try done.
  - rewrite Hqk, Hk. replace (p + 1 - 1) with p by lia. apply delete_insert_at. rewrite zlength_keys; done.
  - rewrite Hqc, Hc. apply delete_insert_at. rewrite zlength_children by done. lia.
Qed.

Lemma insert_remove_child_witness :
  exists r q, insert_child (Internode.make 1) 0 7 64 = Some r /\ remove_child r 1 = Some q /\
    keys r = [7] /\ keys q = [].
Proof.
  destruct (insert_remove_child (Internode.make 1) 0 7 64) as (r & q & H1 & H2 & H3 & _ & H4 & _);
    [split; done|done|done|]. exists r, q. split_and!; [done|done|exact H3|exact H4].
Defined.
