(* ===== verification/Heap.v ===== *)
(** The heap of a tree and the operations of [node_base] on it,
    [src/masstree_struct.hh] and [src/btree_leaflink.hh].

    [M] is the monad of the tree's operations: a state and failure ([None]).
    The loops that wait or retry run on fuel. *)
From S2P Require Import Prelude Compiler Memory StringSlice Key Ksearch Kpermuter Nodeversion.
From S2P Require Import Stringbag Node.

(** Callbacks registered with the RCU machinery of [threadinfo], which run
    them after a grace period. *)
Inductive callback : Type :=
  | gc_layer_rcu_callback (root : Z) (prefix : list Z)
  | destroy_rcu_callback (root count : Z).

(** [heap]: the nodes, those in [limbo] included: they are unlinked and freed
    after a grace period, but still readable.  [table_root]: [root_] of the
    table.  [kmem]: the memory that keys point into. *)
Record state : Type := mkState {
  heap : gmap Z node; next_fresh : Z; limbo : list Z; callbacks : list callback;
  table_root : Z; kmem : mem }.

Definition M (A : Type) : Type := state -> option (A * state).
Definition ret {A} (x : A) : M A := fun s => Some (x, s).
Definition bind {A B} (m : M A) (k : A -> M B) : M B := fun s =>
  match m s with Some (x, s) => k x s | None => None end.
Definition fail {A} : M A := fun _ => None.
Definition lift {A} (o : option A) : M A := fun s =>
  match o with Some x => Some (x, s) | None => None end.
Definition gets {A} (f : state -> A) : M A := fun s => Some (f s, s).

Declare Scope m_scope.
Delimit Scope m_scope with M.
Notation "'let!' x ':=' m 'in' k" := (bind m (fun x => k))
  (at level 10, x binder, m at level 100, k at level 200) : m_scope.
Notation "m ';!' k" := (bind m (fun _ => k)) (at level 100, right associativity) : m_scope.
#[export] Set Warnings "-notation-overridden".
Open Scope m_scope.

(** [masstree_invariant], [masstree_precondition] and [assert]. *)
Definition require (b : bool) : M unit := if b then ret tt else fail.
Fixpoint for_each {A} (l : list A) (f : A -> M unit) : M unit :=
  match l with [] => ret tt | x :: l => f x ;! for_each l f end.

(** * Reading and writing nodes *)
Definition get_node (a : Z) : M node := fun s => n ← heap s !! a; Some (n, s).
Definition get_leaf (a : Z) : M leaf :=
  let! n := get_node a in match n with NLeaf l => ret l | NInternode _ => fail end.
Definition get_internode (a : Z) : M internode :=
  let! n := get_node a in match n with NInternode i => ret i | NLeaf _ => fail end.
Definition put_node (a : Z) (n : node) : M unit := fun s =>
  Some (tt, mkState (<[a := n]> (heap s)) (next_fresh s) (limbo s) (callbacks s) (table_root s) (kmem s)).
Definition put_leaf (a : Z) (l : leaf) : M unit := put_node a (NLeaf l).
Definition put_internode (a : Z) (n : internode) : M unit := put_node a (NInternode n).
Definition update_leaf (a : Z) (f : leaf -> leaf) : M unit :=
  let! l := get_leaf a in put_leaf a (f l).
Definition update_internode (a : Z) (f : internode -> internode) : M unit :=
  let! n := get_internode a in put_internode a (f n).
Definition try_update_leaf (a : Z) (f : leaf -> option leaf) : M unit :=
  let! l := get_leaf a in let! l' := lift (f l) in put_leaf a l'.
Definition try_update_internode (a : Z) (f : internode -> option internode) : M unit :=
  let! n := get_internode a in let! n' := lift (f n) in put_internode a n'.

(** [pool_allocate]: a fresh cache-aligned address. *)
Definition allocate (n : node) : M Z := fun s =>
  let a := next_fresh s in
  Some (a, mkState (<[a := n]> (heap s)) (a + 64) (limbo s) (callbacks s) (table_root s) (kmem s)).
Definition deallocate_rcu (a : Z) : M unit := fun s =>
  Some (tt, mkState (heap s) (next_fresh s) (a :: limbo s) (callbacks s) (table_root s) (kmem s)).
Definition deallocate (a : Z) : M unit := fun s =>
  _ ← heap s !! a;
  Some (tt, mkState (delete a (heap s)) (next_fresh s) (limbo s) (callbacks s) (table_root s) (kmem s)).
Definition rcu_register (c : callback) : M unit := fun s =>
  Some (tt, mkState (heap s) (next_fresh s) (limbo s) (callbacks s ++ [c]) (table_root s) (kmem s)).
Definition set_table_root (r : Z) : M unit := fun s =>
  Some (tt, mkState (heap s) (next_fresh s) (limbo s) (callbacks s) r (kmem s)).
Definition set_kmem (m : mem) : M unit := fun s =>
  Some (tt, mkState (heap s) (next_fresh s) (limbo s) (callbacks s) (table_root s) m).

(** * [node_base] *)
Definition node_version (n : node) : Z :=
  match n with NLeaf l => lversion l | NInternode i => iversion i end.
Definition node_set_version (n : node) (v : Z) : node :=
  match n with
  | NLeaf l => NLeaf (Leaf.set_version l v)
  | NInternode i => NInternode (Internode.set_version i v)
  end.
Definition node_parent (n : node) : Z :=
  match n with NLeaf l => lparent_ l | NInternode i => iparent_ i end.
Definition node_set_parent (n : node) (p : Z) : node :=
  match n with
  | NLeaf l => NLeaf (Leaf.set_parent l p)
  | NInternode i => NInternode (Internode.set_parent i p)
  end.

Definition version (a : Z) : M Z := let! n := get_node a in ret (node_version n).
Definition set_version (a v : Z) : M unit := let! n := get_node a in put_node a (node_set_version n v).
Definition update_version (a : Z) (f : Z -> Z) : M unit := let! v := version a in set_version a (f v).
Definition parent (a : Z) : M Z := let! n := get_node a in ret (node_parent n).
Definition set_parent (a p : Z) : M unit := let! n := get_node a in put_node a (node_set_parent n p).
Definition parent_exists (p : Z) : bool := negb (p =? 0).
Definition maybe_parent (a : Z) : M Z :=
  let! x := parent a in ret (if parent_exists x then x else a).

(** The version word operations, on the node at [a]. *)
Definition stable (a : Z) : M Z := let! v := version a in lift (Nodeversion.stable NV [v]).
Definition lock (a expected : Z) : M Z :=
  let! v := version a in
  let! v' := lift (Nodeversion.lock NV [(v, v); (v, v)] expected) in
  set_version a v' ;! ret v'.
Definition try_lock (a : Z) : M bool :=
  let! v := version a in
  match Nodeversion.try_lock NV v v with
  | Some v' => set_version a v' ;! ret true
  | None => ret false
  end.
Definition unlock (a : Z) : M unit :=
  let! v := version a in
  require (Nodeversion.locked NV v) ;! set_version a (Nodeversion.unlock NV v).
Definition mark_locked (f : Z -> Z) (a : Z) : M unit :=
  let! v := version a in require (Nodeversion.locked NV v) ;! set_version a (f v).
Definition mark_insert : Z -> M unit := mark_locked (Nodeversion.mark_insert NV).
Definition mark_split : Z -> M unit := mark_locked (Nodeversion.mark_split NV).
Definition mark_deleted : Z -> M unit := mark_locked (Nodeversion.mark_deleted NV).
Definition mark_nonroot : Z -> M unit := mark_locked (Nodeversion.mark_nonroot NV).
Definition mark_root (a : Z) : M unit := update_version a (Nodeversion.mark_root NV).

Definition make_layer_root (a : Z) : M unit := set_parent a 0 ;! mark_root a.

(** [locked_parent]: relocks until the parent is still the one locked. *)
Fixpoint locked_parent (fuel : nat) (a : Z) : M Z :=
  match fuel with
  | O => fail
  | S fuel =>
      let! v := version a in
      require (Nodeversion.locked NV v) ;!
      let! p := parent a in
      if negb (parent_exists p) then ret p
      else
        let! pv := version p in
        let! pv := lock p pv in
        let! p' := parent a in
        if p =? p' then (require (negb (Nodeversion.isleaf NV pv)) ;! ret p)
        else (unlock p ;! locked_parent fuel a)
  end.

(** [stable_last_key_compare] of an internode and of a leaf. *)
Fixpoint internode_stable_last_key_compare (fuel : nat) (a : Z) (k : key) (v : Z) : M Z :=
  match fuel with
  | O => fail
  | S fuel =>
      let! n := get_internode a in
      let k' := Internode.size n in
      let cmp := if k' =? 0 then 1 else Internode.compare_key n k (k' - 1) in
      let! v' := version a in
      if negb (Nodeversion.has_changed NV v' v) then ret cmp
      else let! v := stable a in internode_stable_last_key_compare fuel a k v
  end.
Fixpoint leaf_stable_last_key_compare (fuel : nat) (a : Z) (k : key) (v : Z) : M Z :=
  match fuel with
  | O => fail
  | S fuel =>
      let! l := get_leaf a in
      let perm := Leaf.permutation l in
      let n := Kpermuter.size perm in
      let p := Kpermuter.index perm (if n =? 0 then 0 else n - 1) in
      let cmp := Leaf.compare_key l k p in
      let! v' := version a in
      if negb (Nodeversion.has_changed NV v' v) then ret cmp
      else let! v := stable a in leaf_stable_last_key_compare fuel a k v
  end.

(** * [reach_leaf] *)
(** The first loop: climb to the true root. *)
Fixpoint reach_root (fuel : nat) (n : Z) : M (Z * Z) :=
  match fuel with
  | O => fail
  | S fuel =>
      let! v := stable n in
      if Nodeversion.is_root NV v then ret (n, v)
      else let! n := maybe_parent n in reach_root fuel n
  end.

(** The loop over internal nodes from [n] at version [v]; [None] where the
    code starts again from the root. *)
Fixpoint reach_down (fuel : nat) (ka : key) (n v : Z) : M (option (Z * Z)) :=
  match fuel with
  | O => fail
  | S fuel =>
      if Nodeversion.isleaf NV v then ret (Some (n, v))
      else
        let! i := get_internode n in
        let kp := Internode.upper ka i in
        let child := rd (child_ i) kp in
        if child =? 0 then ret None
        else
          let! cv := stable child in
          let! nv := version n in
          if negb (Nodeversion.has_changed NV nv v) then reach_down fuel ka child cv
          else
            let oldv := v in
            let! v := stable n in
            if Nodeversion.has_split NV oldv v then
              let! cmp := internode_stable_last_key_compare fuel n ka v in
              if 0 <? cmp then ret None else reach_down fuel ka n v
            else reach_down fuel ka n v
  end.

(** The leaf of the layer at [this] that is responsible for [ka], and its
    stable version. *)
Fixpoint reach_leaf (fuel : nat) (this : Z) (ka : key) : M (Z * Z) :=
  match fuel with
  | O => fail
  | S fuel' =>
      let! nv := reach_root fuel this in
      let! r := reach_down fuel ka (fst nv) (snd nv) in
      match r with Some r => ret r | None => reach_leaf fuel' this ka end
  end.

(** [advance_to_key] from the leaf [n] at version [v]: the leaf and its
    stable version. *)
Fixpoint advance_loop (fuel : nat) (ka : key) (n v : Z) : M (Z * Z) :=
  match fuel with
  | O => fail
  | S fuel =>
      if Nodeversion.deleted NV v then ret (n, v)
      else
        let! l := get_leaf n in
        let next := Leaf.safe_next l in
        if next =? 0 then ret (n, v)
        else
          let! nl := get_leaf next in
          if 0 <=? compare (Key.ikey ka) (Leaf.ikey_bound nl) then
            let! v := stable next in advance_loop fuel ka next v
          else ret (n, v)
  end.
Definition advance_to_key (fuel : nat) (ka : key) (n oldv : Z) : M (Z * Z) :=
  let! v := stable n in
  if Nodeversion.has_split NV v oldv then
    let! cmp := leaf_stable_last_key_compare fuel n ka v in
    if 0 <? cmp then advance_loop fuel ka n v else ret (n, v)
  else ret (n, v).

(** * [basic_table] *)
Definition initialize : M unit :=
  let! r := gets table_root in
  require (r =? 0) ;!
  let! l := lift (Leaf.make_root 0 0) in
  let! a := allocate (NLeaf l) in
  set_table_root a.
Definition root : M Z := gets table_root.
Definition fix_root : M Z :=
  let! root := gets table_root in
  let! v := version root in
  if negb (Nodeversion.is_root NV v) then
    let old_root := root in
    let! root := maybe_parent root in
    let! cur := gets table_root in
    (if cur =? old_root then set_table_root root else ret tt) ;! ret root
  else ret root.

(** * [btree_leaflink] *)
Definition mark (n : Z) : Z := n + 1.
Definition is_marked (n : Z) : bool := negb (Z.land n 1 =? 0).
Definition set_next (a n : Z) : M unit := update_leaf a (fun l => Leaf.set_links l n (prev_ l)).
Definition set_prev (a n : Z) : M unit := update_leaf a (fun l => Leaf.set_links l (next_ l) n).
Fixpoint lock_next (fuel : nat) (n : Z) : M Z :=
  match fuel with
  | O => fail
  | S fuel =>
      let! l := get_leaf n in
      let next := next_ l in
      if next =? 0 then ret next
      else if negb (is_marked next) then set_next n (mark next) ;! ret next
      else lock_next fuel n
  end.
Definition link_split (fuel : nat) (n nr : Z) : M unit :=
  set_prev nr n ;!
  let! next := lock_next fuel n in
  set_next nr next ;!
  (if next =? 0 then ret tt else set_prev next nr) ;!
  set_next n nr.
(** The loop that marks [prev_]'s link to [n]. *)
Fixpoint lock_prev (fuel : nat) (n : Z) : M Z :=
  match fuel with
  | O => fail
  | S fuel =>
      let! l := get_leaf n in
      let prev := prev_ l in
      let! pl := get_leaf prev in
      if next_ pl =? n then set_next prev (mark n) ;! ret prev else lock_prev fuel n
  end.
Definition unlink (fuel : nat) (n : Z) : M unit :=
  let! next := lock_next fuel n in
  let! prev := lock_prev fuel n in
  (if next =? 0 then ret tt else set_prev next prev) ;!
  set_next prev next.

(** The single-threaded version. *)
Definition link_split_single (n nr : Z) : M unit :=
  set_prev nr n ;!
  let! l := get_leaf n in
  set_next nr (next_ l) ;!
  set_next n nr ;!
  let! lr := get_leaf nr in
  if next_ lr =? 0 then ret tt else set_prev (next_ lr) nr.
Definition unlink_single (n : Z) : M unit :=
  let! l := get_leaf n in
  (if next_ l =? 0 then ret tt else set_prev (next_ l) (prev_ l)) ;!
  let! l := get_leaf n in
  set_next (prev_ l) (next_ l).
