(* ===== verification/Get.v ===== *)
(** Finding a key, [src/masstree_get.hh] and the cursors of
    [src/masstree_tcursor.hh].

    A cursor descends one tree per layer: [find_unlocked] without locks, for
    readers, [find_locked] ending with the leaf locked, for writers.  [fuel]
    bounds every loop of a call. *)
From S2P Require Import Prelude Compiler Memory StringSlice Key Ksearch Kpermuter Nodeversion.
From S2P Require Import Stringbag Node Heap.

(** * Cursors *)
Record unlocked_tcursor : Type := mkUcursor {
  u_n : Z; u_ka : key; u_v : Z; u_perm : Z; u_lv : Z; u_root : Z }.

Record tcursor : Type := mkCursor {
  n_ : Z; ka_ : key; kx_ : key_indexed_position; root_ : Z; state_ : Z;
  original_n_ : Z; original_v_ : Z; updated_v_ : Z; new_nodes_ : list (Z * Z) }.

Section get.
Context (unaligned : bool).

(** The constructors, for a table and for the root of a layer. *)
Definition make_unlocked_tcursor (str : Str) : M unlocked_tcursor :=
  let! m := gets kmem in
  let! r := root in
  ret (mkUcursor 0 (Key.key_str unaligned m str) 0 0 0 r).
Definition make_tcursor (s len : Z) : M tcursor :=
  let! m := gets kmem in
  let! r := fix_root in
  ret (mkCursor 0 (Key.key_data unaligned m s len) (mkKip 0 (-1)) r 0 0 0 0 []).
Definition make_tcursor_at (root s len : Z) : M tcursor :=
  let! m := gets kmem in
  ret (mkCursor 0 (Key.key_data unaligned m s len) (mkKip 0 (-1)) root 0 0 0 0 []).

Definition has_value (c : tcursor) : bool := 0 <=? kip_p (kx_ c).
Definition is_first_layer (c : tcursor) : bool := negb (Key.is_shifted (ka_ c)).
Definition value (c : tcursor) : M Z := let! l := get_leaf (n_ c) in ret (Leaf.lv l (kip_p (kx_ c))).
(** [value() = v]. *)
Definition set_value (c : tcursor) (v : Z) : M unit :=
  try_update_leaf (n_ c) (fun l =>
    a ← wr (lv_ l) (kip_p (kx_ c)) v; Some (Leaf.set_slots l (keylenx_ l) (ikey0_ l) a)).
Definition previous_full_version_value (c : tcursor) : M Z :=
  let! l := get_leaf (n_ c) in
  ret (uwrap 32 (ushl 32 (Nodeversion.unlocked_version_value NV (lversion l)) 4 + Leaf.size l)).
Definition next_full_version_value (c : tcursor) (state : Z) : M Z :=
  let! l := get_leaf (n_ c) in
  let v := Nodeversion.unlock NV (lversion l) in
  let result := uwrap 32 (ushl 32 v 4 + Leaf.size l) in
  ret (if (state <? 0) && negb (Z.land (state_ c) 1 =? 0) then uwrap 32 (result - 1)
       else if (0 <? state) && (state_ c =? 2) then uwrap 32 (result + 1)
       else result).

(** * [find_unlocked] *)
(** From [forward:] in the leaf [n] at version [v], in the layer at [root].
    [inl]: start again from a root with a key; [inr]: the cursor's final
    fields and the match. *)
Fixpoint unlocked_forward (fuel : nat) (root : Z) (ka : key) (n v : Z) :
    M (Z * key + unlocked_tcursor * Z) :=
  match fuel with
  | O => fail
  | S fuel =>
      if Nodeversion.deleted NV v then ret (inl (root, ka))
      else
        let! m := gets kmem in
        let! l := get_leaf n in
        let perm := Leaf.permutation l in
        let kx := Leaf.lower ka l in
        let lv := if 0 <=? kip_p kx then Leaf.lv l (kip_p kx) else 0 in
        let mtch := if 0 <=? kip_p kx then Leaf.ksuf_matches m l (kip_p kx) ka else 0 in
        let! v' := version n in
        if Nodeversion.has_changed NV v' v then
          let! nv := advance_to_key fuel ka n v in
          unlocked_forward fuel root ka (fst nv) (snd nv)
        else if mtch <? 0 then ret (inl (lv, Key.shift_by unaligned m ka (- mtch)))
        else ret (inr (mkUcursor n ka v perm lv root, mtch))
  end.

Fixpoint find_unlocked_from (fuel : nat) (root : Z) (ka : key) : M (unlocked_tcursor * Z) :=
  match fuel with
  | O => fail
  | S fuel' =>
      let! nv := reach_leaf fuel root ka in
      let! r := unlocked_forward fuel root ka (fst nv) (snd nv) in
      match r with
      | inl (root, ka) => find_unlocked_from fuel' root ka
      | inr r => ret r
      end
  end.
Definition find_unlocked (fuel : nat) (c : unlocked_tcursor) : M (unlocked_tcursor * bool) :=
  let! r := find_unlocked_from fuel (u_root c) (u_ka c) in
  ret (fst r, negb (snd r =? 0)).

(** [basic_table::get]. *)
Definition get (fuel : nat) (key : Str) : M (option Z) :=
  let! lp := make_unlocked_tcursor key in
  let! r := find_unlocked fuel lp in
  ret (if snd r then Some (u_lv (fst r)) else None).

(** * [find_locked] *)
(** The same from [forward:].  The layer to go on in and the key, or the
    locked leaf with the position and the match. *)
Fixpoint locked_forward (fuel : nat) (root0 root : Z) (ka : key) (n v : Z) :
    M (Z * key + Z * key * key_indexed_position * Z) :=
  match fuel with
  | O => fail
  | S fuel =>
      if Nodeversion.deleted NV v then ret (inl (root, ka))
      else
        let! m := gets kmem in
        let! l := get_leaf n in
        let perm := Leaf.permutation l in
        let kx := Leaf.lower ka l in
        let lv := if 0 <=? kip_p kx then Leaf.lv l (kip_p kx) else 0 in
        let state := if 0 <=? kip_p kx then Leaf.ksuf_matches m l (kip_p kx) ka else 0 in
        let! v' := version n in
        let! down := (if (state <? 0) && negb (Nodeversion.has_changed NV v' v) then
                        let! lvv := version lv in ret (Nodeversion.is_root NV lvv)
                      else ret false) in
        if down then ret (inl (lv, Key.shift_by unaligned m ka (- state)))
        else
          let! _ := lock n v in
          let! l := get_leaf n in
          let! v' := version n in
          if Nodeversion.has_changed NV v' v || negb (Leaf.permutation l =? perm) then
            unlock n ;!
            let! nv := advance_to_key fuel ka n v in
            locked_forward fuel root0 root ka (fst nv) (snd nv)
          else if state <? 0 then
            let! layer := maybe_parent (Leaf.lv l (kip_p kx)) in
            try_update_leaf n (fun l =>
              a ← wr (lv_ l) (kip_p kx) layer; Some (Leaf.set_slots l (keylenx_ l) (ikey0_ l) a)) ;!
            unlock n ;!
            ret (inl (layer, Key.shift_by unaligned m ka (- state)))
          else if Leaf.deleted_layer l then
            unlock n ;! ret (inl (root0, Key.unshift_all unaligned m ka))
          else ret (inr (n, ka, kx, state))
  end.

Fixpoint find_locked_from (fuel : nat) (root0 root : Z) (ka : key) :
    M (Z * key * key_indexed_position * Z) :=
  match fuel with
  | O => fail
  | S fuel' =>
      let! nv := reach_leaf fuel root ka in
      let! r := locked_forward fuel root0 root ka (fst nv) (snd nv) in
      match r with
      | inl (root, ka) => find_locked_from fuel' root0 root ka
      | inr r => ret r
      end
  end.
Definition find_locked (fuel : nat) (c : tcursor) : M tcursor :=
  let! r := find_locked_from fuel (root_ c) (root_ c) (ka_ c) in
  let '(n, ka, kx, state) := r in
  ret (mkCursor n ka kx (root_ c) state (original_n_ c) (original_v_ c) (updated_v_ c) (new_nodes_ c)).
End get.
