(* ===== verification/Insert.v ===== *)
(** Insertion, [src/masstree_insert.hh] and [src/masstree_split.hh].

    [find_insert] positions a cursor: on the key if the tree has it, else on a
    slot that holds the key but that the leaf's permutation does not show yet,
    after splitting nodes or making layers as needed; [finish] publishes the
    slot or removes the key, and unlocks the leaf. *)
From S2P Require Import Prelude Compiler Memory StringSlice Key Ksearch Kpermuter Nodeversion.
From S2P Require Import Stringbag Node Heap Get.

(** * Leaf splits *)
Module LeafSplit.
(** [ikey_after_insert(perm, i, cursor)], for a cursor at [kx_.i = p] with the
    slice [kikey]. *)
Definition ikey_after_insert (l : leaf) (perm : Z) (i p kikey : Z) : Z :=
  if i <? p then Leaf.ikey l (Kpermuter.index perm i)
  else if i =? p then kikey
  else Leaf.ikey l (Kpermuter.index perm (i - 1)).

(** The loop that moves [mid] off a run of equal slices. *)
Fixpoint adjust_mid_loop (fuel : nat) (ikey_at : Z -> Z) (width mid_ikey midl midr : Z) : option Z :=
  match fuel with
  | O => None
  | S fuel =>
      if (midr <=? width) && negb (mid_ikey =? ikey_at midr) then Some midr
      else if (0 <=? midl) && negb (mid_ikey =? ikey_at midl) then Some (midl + 1)
      else adjust_mid_loop fuel ikey_at width mid_ikey (midl - 1) (midr + 1)
  end.

(** The split point, from the leaf, the insertion position and its slice. *)
Definition split_point (l : leaf) (p kikey : Z) : option Z :=
  let perml := Leaf.permutation l in
  let width := Kpermuter.size perml in
  let mid := if (p =? 0) && (prev_ l =? 0) then 1
    else if (p =? width) && (next_ l =? 0) then width
    else leaf_width / 2 + 1 in
  let ikey_at i := ikey_after_insert l perml i p kikey in
  let mid_ikey := ikey_at mid in
  if mid_ikey =? ikey_at (mid - 1) then
    mid ← adjust_mid_loop 16 ikey_at width mid_ikey (mid - 2) (mid + 1);
    if (0 <? mid) && (mid <=? width) then Some mid else None
  else Some mid.

(** The loop that moves items [x, width] to [nr]; [pv] holds the slots of the
    items still to move. *)
Fixpoint move_items (k : nat) (m : mem) (l nr : leaf) (p mid : Z) (ka : key) (pv x : Z) : option leaf :=
  match k with
  | O => Some nr
  | S k =>
      if x =? p then
        nr ← Leaf.assign_initialize m nr (x - mid) ka;
        move_items k m l nr p mid ka pv (x + 1)
      else
        nr ← Leaf.assign_initialize_from nr (x - mid) l (Z.land pv 15);
        move_items k m l nr p mid ka (Z.shiftr pv 4) (x + 1)
  end.

(** [split_into] up to the link across leaves: the new right leaf, the split
    slice and the split type. *)
Definition split_into (m : mem) (l nr : leaf) (p : Z) (ka : key) : option (leaf * Z * Z) :=
  let perml := Leaf.permutation l in
  let width := Kpermuter.size perml in
  if negb (leaf_width - 1 <=? width) then None
  else
    mid ← split_point l p (Key.ikey ka);
    let pv := Kpermuter.value_from perml (mid - b2z (p <? mid)) in
    nr ← move_items (Z.to_nat (width + 1 - mid)) m l nr p mid ka pv mid;
    let permr := make_sorted leaf_width (width + 1 - mid) in
    let permr := if mid <=? p then remove_to_back leaf_width permr (p - mid) else permr in
    let nr := Leaf.set_permutation nr (store_permutation leaf_width permr) in
    Some (nr, Leaf.ikey nr 0, if p <? mid then 0 else 1 + b2z (mid =? width)).
End LeafSplit.

Section insert.
Context (unaligned : bool).

Definition leaf_full_unlocked_version (a : Z) : M Z :=
  let! l := get_leaf a in ret (Leaf.full_unlocked_version_value l).
Definition require_locked (a : Z) : M unit :=
  let! v := version a in require (Nodeversion.locked NV v).

(** [n->split_into(child, cursor, xikey, ti)]: the split slice and type. *)
Definition leaf_split_into (fuel : nat) (n child : Z) (c : tcursor) : M (Z * Z) :=
  require_locked n ;! require_locked child ;!
  let! m := gets kmem in
  let! l := get_leaf n in
  let! nr := get_leaf child in
  let! r := lift (LeafSplit.split_into m l nr (kip_i (kx_ c)) (ka_ c)) in
  let '(nr, split_ikey, split_type) := r in
  put_leaf child nr ;!
  link_split fuel n child ;!
  ret (split_ikey, split_type).

(** [p->split_into(next_child, kp, ka, value, split_ikey, split_type)]: the
    split slice and the position left to insert in [p]. *)
Definition internode_split_into (n nr p ka value split_type : Z) : M (Z * Z) :=
  require_locked n ;! require_locked nr ;!
  let! i := get_internode n in
  let! ir := get_internode nr in
  let! r := lift (Internode.split_into i ir p ka value split_type) in
  let '(i', ir', split_ikey, kp) := r in
  put_internode nr ir' ;!
  for_each (take (Z.to_nat (nkeys_ ir' + 1)) (child_ ir')) (fun c => set_parent c nr) ;!
  let! i := get_internode n in
  put_internode n (Internode.set_nkeys (Internode.set_version i (iversion i')) (nkeys_ i')) ;!
  ret (split_ikey, kp).

(** [assign(p, ikey, child)] of the internode at [a]. *)
Definition internode_assign (a p ikey child : Z) : M unit :=
  set_parent child a ;! try_update_internode a (fun n => Internode.assign n p ikey child).

(** Links [child], right of [n] from slice [xikey] on, into the parent: the
    parent [p], and a new right sibling of [p] with its split slice when [p]
    was full. *)
Definition link_child (fuel : nat) (n child xikey height split_type : Z) : M (Z * option (Z * Z)) :=
  let! p := locked_parent fuel n in
  let! kp := (if parent_exists p then
                let! pi := get_internode p in
                mark_insert p ;! ret (Internode.upper_ikey xikey pi)
              else ret (-1)) in
  let! tall := (if kp <? 0 then ret true
                else let! pi := get_internode p in ret (height + 1 <? height_ pi)) in
  if tall then
    let! nn := allocate (NInternode (Internode.make (height + 1))) in
    try_update_internode nn (fun i => c ← wr (child_ i) 0 n; Some (Internode.set_child i c)) ;!
    internode_assign nn 0 xikey child ;!
    update_internode nn (fun i => Internode.set_nkeys i 1) ;!
    (if kp <? 0 then make_layer_root nn
     else set_parent nn p ;!
       try_update_internode p (fun i => c ← wr (child_ i) kp nn; Some (Internode.set_child i c))) ;!
    set_parent n nn ;!
    ret (p, None)
  else
    let! pi := get_internode p in
    let! full := ret (internode_width <=? Internode.size pi) in
    let! r := (if full then
                 let! next_child := allocate (NInternode (Internode.make (height + 1))) in
                 let! pv := version p in
                 set_version next_child pv ;!
                 mark_nonroot next_child ;!
                 let! sk := internode_split_into p next_child kp xikey child split_type in
                 ret (Some (next_child, fst sk), snd sk)
               else ret (None, kp)) in
    let '(next_child, kp) := r in
    (if 0 <=? kp then
       let! pi := get_internode p in
       try_update_internode p (fun i => Internode.shift_up i (kp + 1) kp (Internode.size i - kp)) ;!
       internode_assign p kp xikey child ;!
       update_internode p (fun i => Internode.set_nkeys i (uwrap 8 (nkeys_ i + 1)))
     else ret tt) ;!
    ret (p, next_child).

(** Strips the moved items from the left leaf [nl] and settles the cursor. *)
Definition strip_left (nl nr split_type : Z) (c : tcursor) : M tcursor :=
  let! l := get_leaf nl in
  let! r := get_leaf nr in
  let perml := Leaf.permutation l in
  let width := Kpermuter.size perml in
  let perml := Kpermuter.set_size leaf_width perml (width - Leaf.size r) in
  let perml := if negb (width =? leaf_width)
    then Kpermuter.exchange leaf_width perml (Kpermuter.size perml) (leaf_width - 1) else perml in
  mark_split nl ;!
  update_leaf nl (fun l => Leaf.set_permutation l (store_permutation leaf_width perml)) ;!
  if split_type =? 0 then
    let kp := Kpermuter.back leaf_width perml in
    let! m := gets kmem in
    try_update_leaf nl (fun l => Leaf.assign m l kp (ka_ c)) ;!
    let! rv := leaf_full_unlocked_version nr in
    ret (mkCursor (n_ c) (ka_ c) (mkKip (kip_i (kx_ c)) kp) (root_ c) (state_ c) (original_n_ c)
      (original_v_ c) (updated_v_ c) (new_nodes_ c ++ [(nr, rv)]))
  else
    let i := kip_i (kx_ c) - Kpermuter.size perml in
    let! lv := leaf_full_unlocked_version nl in
    ret (mkCursor nr (ka_ c) (mkKip i i) (root_ c) (state_ c) (original_n_ c)
      (original_v_ c) lv (new_nodes_ c)).

(** The loop of [make_split], up the tree from [n] and its new right sibling
    [child]. *)
Fixpoint split_loop (fuel : nat) (n child xikey height split_type : Z) (c : tcursor) : M tcursor :=
  match fuel with
  | O => fail
  | S fuel =>
      require_locked n ;! require_locked child ;!
      let! nv := version n in
      require (Nodeversion.isleaf NV nv || Nodeversion.splitting NV nv) ;!
      let! r := link_child fuel n child xikey height split_type in
      let '(p, next_child) := r in
      let! c := (if n =? n_ c then strip_left n child split_type c else ret c) in
      (if n =? n_ c then ret tt else unlock n) ;!
      (if child =? n_ c then ret tt else unlock child) ;!
      match next_child with
      | Some (nc, ikey') => split_loop fuel p nc ikey' (height + 1) split_type c
      | None => (if parent_exists p then unlock p else ret tt) ;! ret c
      end
  end.

Definition make_split (fuel : nat) (c : tcursor) : M tcursor :=
  let n := n_ c in
  let! l := get_leaf n in
  let! rearranged :=
    (if Leaf.size l <? leaf_width then
       let perm := Leaf.permutation l in
       let perm := Kpermuter.exchange leaf_width perm (Kpermuter.size perm) (leaf_width - 1) in
       let kp := Kpermuter.back leaf_width perm in
       let c := mkCursor n (ka_ c) (mkKip (kip_i (kx_ c)) kp) (root_ c) (state_ c) (original_n_ c)
         (original_v_ c) (updated_v_ c) (new_nodes_ c) in
       if negb (kp =? 0) then
         let! m := gets kmem in
         update_leaf n (fun l => Leaf.set_permutation l (store_permutation leaf_width perm)) ;!
         try_update_leaf n (fun l => Leaf.assign m l kp (ka_ c)) ;!
         ret (true, c)
       else ret (false, c)
     else ret (false, c)) in
  let '(done, c) := rearranged in
  if done then ret c
  else
    let! nl := lift (Leaf.make (Leaf.ksuf_used_capacity l) (phantom_epoch_ l)) in
    let! child := allocate (NLeaf nl) in
    let! v := version n in
    set_version child v ;!
    let! r := leaf_split_into fuel n child c in
    split_loop fuel n child (fst r) 0 (snd r) c.

(** * New layers *)
(** The twig of one-entry layers for the slices that both keys share: the
    head and tail, the keys shifted past it, their order, and the new nodes.
    [head = n] means no twig yet. *)
Fixpoint make_twig (fuel : nat) (n head tail : Z) (oka ka : key) (kcmp : Z) (new : list (Z * Z)) :
    M (Z * Z * key * key * Z * list (Z * Z)) :=
  match fuel with
  | O => fail
  | S fuel =>
      if kcmp =? 0 then
        let! m := gets kmem in
        let! tl := get_leaf tail in
        let! l := lift (Leaf.make_root 0 (phantom_epoch_ tl)) in
        let! nl := allocate (NLeaf l) in
        try_update_leaf nl (fun l => Leaf.assign_initialize_for_layer l 0 oka) ;!
        (if head =? n then ret tt
         else try_update_leaf tail (fun l =>
           a ← wr (lv_ l) 0 nl; Some (Leaf.set_slots l (keylenx_ l) (ikey0_ l) a))) ;!
        let head := if head =? n then nl else head in
        update_leaf nl (fun l => Leaf.set_permutation l (store_permutation leaf_width (make_sorted leaf_width 1))) ;!
        let! v := leaf_full_unlocked_version nl in
        let oka := Key.shift unaligned m oka in
        let ka := Key.shift unaligned m ka in
        make_twig fuel n head nl oka ka (Key.compare_key oka ka) (new ++ [(nl, v)])
      else ret (head, tail, oka, ka, kcmp, new)
  end.

(** [oka] is made from the suffix stored in the leaf's bag: [okbuf] is where
    its bytes are in memory. *)
Definition make_new_layer (fuel : nat) (okbuf : Z) (c : tcursor) : M tcursor :=
  let n := n_ c in
  let kp := kip_p (kx_ c) in
  let! l := get_leaf n in
  let! m := gets kmem in
  let osuf := Leaf.ksuf l kp in
  set_kmem (store m okbuf osuf) ;!
  let! m := gets kmem in
  let oka := Key.key_data unaligned m okbuf (zlength osuf) in
  let ka := Key.shift unaligned m (ka_ c) in
  let! r := make_twig fuel n n n oka ka (Key.compare_key oka ka) (new_nodes_ c) in
  let '(twig_head, twig_tail, oka, ka, kcmp, new_nodes) := r in
  let! l := get_leaf n in
  let ksufsize := if Key.has_suffix ka || Key.has_suffix oka
    then (Z.max 0 (Key.suffix_length ka) + Z.max 0 (Key.suffix_length oka)) * (leaf_width / 2)
      + overhead Leaf.internal_bits leaf_width
    else 0 in
  let! tl := get_leaf twig_tail in
  let! nll := lift (Leaf.make_root ksufsize (phantom_epoch_ tl)) in
  let! nl := allocate (NLeaf nll) in
  try_update_leaf nl (fun nl => Leaf.assign_initialize m nl 0 (if kcmp <? 0 then oka else ka)) ;!
  try_update_leaf nl (fun nl => Leaf.assign_initialize m nl 1 (if kcmp <? 0 then ka else oka)) ;!
  try_update_leaf nl (fun nl =>
    a ← wr (lv_ nl) (b2z (0 <? kcmp)) (Leaf.lv l kp); Some (Leaf.set_slots nl (keylenx_ nl) (ikey0_ nl) a)) ;!
  let! nv := version nl in
  let! _ := lock nl nv in
  update_leaf nl (fun l => Leaf.set_permutation l (store_permutation leaf_width
    (if kcmp <? 0 then make_sorted leaf_width 1
     else remove_to_back leaf_width (make_sorted leaf_width 2) 0))) ;!
  mark_insert n ;!
  (if twig_tail =? n then ret tt
   else try_update_leaf twig_tail (fun l =>
     a ← wr (lv_ l) 0 nl; Some (Leaf.set_slots l (keylenx_ l) (ikey0_ l) a))) ;!
  try_update_leaf n (fun l =>
    a ← wr (lv_ l) kp (if twig_head =? n then nl else twig_head);
    Some (Leaf.set_slots l (keylenx_ l) (ikey0_ l) a)) ;!
  try_update_leaf n (fun l =>
    k ← wr (keylenx_ l) kp layer_keylenx; Some (Leaf.set_slots l k (ikey0_ l) (lv_ l))) ;!
  let! updated_v := leaf_full_unlocked_version n in
  unlock n ;!
  ret (mkCursor nl ka (mkKip (b2z (kcmp <? 0)) (b2z (kcmp <? 0))) (root_ c) (state_ c)
    (original_n_ c) (original_v_ c) updated_v new_nodes).

(** * [find_insert] and [finish] *)
(** The cursor and whether the key was found. *)
Definition find_insert (fuel : nat) (okbuf : Z) (c : tcursor) : M (tcursor * bool) :=
  let! c := find_locked unaligned fuel c in
  let n := n_ c in
  let! ov := leaf_full_unlocked_version n in
  let c := mkCursor n (ka_ c) (kx_ c) (root_ c) (state_ c) n ov (updated_v_ c) (new_nodes_ c) in
  if negb (state_ c =? 0) then ret (c, true)
  else
    let c := mkCursor n (ka_ c) (kx_ c) (root_ c) 2 n ov (updated_v_ c) (new_nodes_ c) in
    if 0 <=? kip_p (kx_ c) then let! c := make_new_layer fuel okbuf c in ret (c, false)
    else
      let! l := get_leaf n in
      (if modstate_ l =? modstate_insert then ret tt
       else require (modstate_ l =? modstate_remove) ;!
         mark_insert n ;! update_leaf n (fun l => Leaf.set_modstate l modstate_insert)) ;!
      let! l := get_leaf n in
      let kp := Kpermuter.back leaf_width (permutation_ l) in
      let c' := mkCursor n (ka_ c) (mkKip (kip_i (kx_ c)) kp) (root_ c) 2 n ov (updated_v_ c) (new_nodes_ c) in
      if Leaf.size l <? leaf_width then
        if negb (kp =? 0) || (prev_ l =? 0) || (Leaf.ikey_bound l =? Key.ikey (ka_ c)) then
          let! m := gets kmem in
          try_update_leaf n (fun l => Leaf.assign m l kp (ka_ c)) ;!
          ret (c', false)
        else let! c := make_split fuel c' in ret (c, false)
      else let! c := make_split fuel c in ret (c, false).

Definition finish_insert (c : tcursor) : M unit :=
  let! l := get_leaf (n_ c) in
  let perm := Leaf.permutation l in
  require (Kpermuter.back leaf_width perm =? kip_p (kx_ c)) ;!
  let perm := snd (insert_from_back leaf_width perm (kip_i (kx_ c))) in
  update_leaf (n_ c) (fun l => Leaf.set_permutation l (store_permutation leaf_width perm)).
End insert.
