(* ===== verification/Remove.v ===== *)
(** Removal, [src/masstree_remove.hh], and [tcursor::finish] of
    [src/masstree_insert.hh].

    A leaf that becomes empty is unlinked from its layer, unless it is the
    layer's leftmost leaf; a layer that is left with one empty leaf is
    collected later, by a callback that runs after an RCU grace period. *)
From S2P Require Import Prelude Compiler Memory StringSlice Key Ksearch Kpermuter Nodeversion.
From S2P Require Import Stringbag Node Heap Get Insert.

(** [circular_int<uint64_t>::less]. *)
Definition epoch_less (a b : Z) : bool := swrap 64 (a - b) <? 0.

(** The phantom epoch of the leaf left of [leaf] is raised to [leaf]'s. *)
Definition raise_phantom_epoch (leaf : Z) : M unit :=
  let! l := get_leaf leaf in
  let! pl := get_leaf (prev_ l) in
  if epoch_less (phantom_epoch_ pl) (phantom_epoch_ l)
  then put_leaf (prev_ l) (Leaf.set_phantom_epoch pl (phantom_epoch_ l)) else ret tt.

(** [redirect(n, ikey, replacement_ikey)]: the loop, with [kp] the position
    found in the previous round (-1 at first). *)
Fixpoint redirect_loop (fuel : nat) (n ikey replacement_ikey kp : Z) : M unit :=
  match fuel with
  | O => fail
  | S fuel =>
      let! p := locked_parent fuel n in
      (if 0 <=? kp then unlock n else ret tt) ;!
      let! pi := get_internode p in
      let kp := Internode.upper_ikey ikey pi in
      require (rd (child_ pi) kp =? n) ;!
      (if 0 <? kp then
         try_update_internode p (fun i =>
           k ← wr (iikey0_ i) (kp - 1) replacement_ikey; Some (Internode.set_ikey0 i k))
       else ret tt) ;!
      let! pi := get_internode p in
      if (kp =? 0) || ((kp =? 1) && (rd (child_ pi) 0 =? 0))
      then redirect_loop fuel p ikey replacement_ikey kp
      else unlock p
  end.
Definition redirect (fuel : nat) (n ikey replacement_ikey : Z) : M unit :=
  redirect_loop fuel n ikey replacement_ikey (-1).

(** The loop of [remove_leaf], up the tree: [replacement] takes the place of
    [n] in its parent (0: [n] is removed).  The last node, still locked. *)
Fixpoint remove_loop (fuel : nat) (n ikey replacement : Z) : M Z :=
  match fuel with
  | O => fail
  | S fuel =>
      let! p := locked_parent fuel n in
      mark_insert p ;!
      let! pv := version p in
      require (negb (Nodeversion.deleted NV pv)) ;!
      let! pi := get_internode p in
      let kp := Internode.upper_ikey ikey pi in
      require ((kp =? 0) || (rd (iikey0_ pi) (kp - 1) <=? ikey)) ;!
      require (rd (child_ pi) kp =? n) ;!
      try_update_internode p (fun i =>
        c ← wr (child_ i) kp replacement; Some (Internode.set_child i c)) ;!
      (if negb (replacement =? 0) then set_parent replacement p
       else if 0 <? kp then
         try_update_internode p (fun i => Internode.shift_down i (kp - 1) kp (nkeys_ i - kp)) ;!
         update_internode p (fun i => Internode.set_nkeys i (uwrap 8 (nkeys_ i - 1)))
       else ret tt) ;!
      let! pi := get_internode p in
      let! ikey := (if (kp <=? 1) && (0 <? nkeys_ pi) && (rd (child_ pi) 0 =? 0) then
                      redirect fuel p ikey (rd (iikey0_ pi) 0) ;! ret (rd (iikey0_ pi) 0)
                    else ret ikey) in
      unlock n ;!
      let! pi := get_internode p in
      if negb (nkeys_ pi =? 0) || Nodeversion.is_root NV (iversion pi) then ret p
      else
        mark_deleted p ;!
        deallocate_rcu p ;!
        let! pi := get_internode p in
        let replacement := rd (child_ pi) 0 in
        try_update_internode p (fun i => c ← wr (child_ i) 0 0; Some (Internode.set_child i c)) ;!
        remove_loop fuel p ikey replacement
  end.

Definition remove_leaf (fuel : nat) (leaf root : Z) (prefix : list Z) : M bool :=
  let! l := get_leaf leaf in
  if prev_ l =? 0 then
    (if (next_ l =? 0) && negb (zlength prefix =? 0)
     then rcu_register (gc_layer_rcu_callback root prefix) else ret tt) ;!
    ret false
  else
    mark_deleted leaf ;!
    deallocate_rcu leaf ;!
    raise_phantom_epoch leaf ;!
    unlink fuel leaf ;!
    let! l := get_leaf leaf in
    let! n := remove_loop fuel leaf (Leaf.ikey_bound l) 0 in
    unlock n ;!
    ret true.

Definition finish_remove (fuel : nat) (c : tcursor) : M bool :=
  let n := n_ c in
  let! l := get_leaf n in
  (if modstate_ l =? modstate_insert then
     mark_insert n ;! update_leaf n (fun l => Leaf.set_modstate l modstate_remove)
   else ret tt) ;!
  let! l := get_leaf n in
  let perm := remove leaf_width (Leaf.permutation l) (kip_i (kx_ c)) in
  update_leaf n (fun l => Leaf.set_permutation l (store_permutation leaf_width perm)) ;!
  if negb (Kpermuter.size perm =? 0) then ret false
  else
    let! m := gets kmem in
    remove_leaf fuel n (root_ c) (str_bytes m (Key.prefix_string (ka_ c))).

(** [finish(state, ti)]: the cursor with its final versions. *)
Definition finish (fuel : nat) (state : Z) (c : tcursor) : M tcursor :=
  let! removed := (if (state <? 0) && (state_ c =? 1) then finish_remove fuel c
    else if (0 <? state) && (state_ c =? 2) then finish_insert c ;! ret false
    else ret false) in
  if removed then ret c
  else
    let! v := leaf_full_unlocked_version (n_ c) in
    let c := if n_ c =? original_n_ c
      then mkCursor (n_ c) (ka_ c) (kx_ c) (root_ c) (state_ c) (original_n_ c) (original_v_ c)
        v (new_nodes_ c)
      else mkCursor (n_ c) (ka_ c) (kx_ c) (root_ c) (state_ c) (original_n_ c) (original_v_ c)
        (updated_v_ c) (new_nodes_ c ++ [(n_ c, v)]) in
    unlock (n_ c) ;! ret c.

(** * Collecting an empty layer *)
(** The loop that removes redundant roots above the layer at slot [p] of the
    leaf [n]: the root leaf; [inr] when there is nothing to collect. *)
Fixpoint collapse_layer (fuel : nat) (n p : Z) : M (Z + unit) :=
  match fuel with
  | O => fail
  | S fuel =>
      let! l := get_leaf n in
      let layer := Leaf.lv l p in
      let! v := version layer in
      let set_lv x := try_update_leaf n (fun l =>
        a ← wr (lv_ l) p x; Some (Leaf.set_slots l (keylenx_ l) (ikey0_ l) a)) in
      if negb (Nodeversion.is_root NV v) then
        let! parent := maybe_parent layer in
        set_lv parent ;! collapse_layer fuel n p
      else if Nodeversion.isleaf NV v then ret (inl layer)
      else
        let! i := get_internode layer in
        if 0 <? Internode.size i then ret (inr tt)
        else
          let! _ := lock layer v in
          let! i := get_internode layer in
          if negb (Nodeversion.is_root NV (iversion i)) || (0 <? Internode.size i) then
            unlock layer ;! ret (inr tt)
          else
            let child := rd (child_ i) 0 in
            let! locked := try_lock child in
            if negb locked then unlock layer ;! collapse_layer fuel n p
            else
              make_layer_root child ;!
              set_lv child ;!
              unlock child ;!
              mark_split layer ;!
              set_parent layer child ;!
              unlock layer ;!
              deallocate_rcu layer ;!
              collapse_layer fuel n p
  end.

(** [while (!root_->is_root()) root_ = root_->maybe_parent()]. *)
Fixpoint climb_root (fuel : nat) (r : Z) : M Z :=
  match fuel with
  | O => fail
  | S fuel =>
      let! v := version r in
      if Nodeversion.is_root NV v then ret r
      else let! r := maybe_parent r in climb_root fuel r
  end.

Section gc.
Context (unaligned : bool).

(** The cursor, left on the slot of the layer, and whether to remove it. *)
Definition gc_layer (fuel : nat) (c : tcursor) : M (tcursor * bool) :=
  let! c := find_locked unaligned fuel c in
  let n := n_ c in
  let! l := get_leaf n in
  require (negb (Nodeversion.deleted NV (lversion l)) && negb (Leaf.deleted_layer l)) ;!
  if Key.has_suffix (ka_ c) then ret (c, false)
  else
    let i := kip_i (kx_ c) + b2z (has_value c) in
    let at_ i p := mkCursor n (ka_ c) (mkKip i p) (root_ c) (state_ c) (original_n_ c)
      (original_v_ c) (updated_v_ c) (new_nodes_ c) in
    if Leaf.size l <=? i then ret (at_ i (kip_p (kx_ c)), false)
    else
      let p := Kpermuter.index (permutation_ l) i in
      let c := at_ i p in
      if negb (Leaf.ikey l p =? Key.ikey (ka_ c)) || negb (Leaf.is_layer l p) then ret (c, false)
      else
        let! r := collapse_layer fuel n p in
        match r with
        | inr _ => ret (c, false)
        | inl lf =>
            let! ll := get_leaf lf in
            if 0 <? Leaf.size ll then ret (c, false)
            else
              let! _ := lock lf (lversion ll) in
              let! ll := get_leaf lf in
              if negb (Nodeversion.is_root NV (lversion ll)) || (0 <? Leaf.size ll) then
                unlock lf ;! ret (c, false)
              else
                require ((prev_ ll =? 0) && (next_ ll =? 0)) ;!
                require (negb (Nodeversion.deleted NV (lversion ll))) ;!
                require (negb (Leaf.deleted_layer ll)) ;!
                let! l := get_leaf n in
                (if epoch_less (phantom_epoch_ l) (phantom_epoch_ ll)
                 then put_leaf n (Leaf.set_phantom_epoch l (phantom_epoch_ ll)) else ret tt) ;!
                update_leaf lf Leaf.mark_deleted_layer ;!
                unlock lf ;!
                deallocate_rcu lf ;!
                ret (c, true)
        end.

(** [gc_layer_rcu_callback::operator()]: [buf] is where its [s_] lies. *)
Definition run_gc_layer (fuel : nat) (root : Z) (prefix : list Z) (buf : Z) : M unit :=
  let! root := climb_root fuel root in
  let! v := version root in
  if Nodeversion.deleted NV v then ret tt
  else
    let! m := gets kmem in
    set_kmem (store m buf prefix) ;!
    let! lp := make_tcursor_at unaligned root buf (zlength prefix) in
    let! r := gc_layer fuel lp in
    let '(lp, do_remove) := r in
    let! removed := (if do_remove then finish_remove fuel lp else ret false) in
    if removed then ret tt else unlock (n_ lp).
End gc.

(** * Destroying a table *)
(** [basic_table::destroy] registers the callback; its first run marks the
    tree deleted and registers it again; the second frees all the nodes, from
    a work list that the code links through the [parent_] pointers. *)
Definition destroy : M unit :=
  let! r := gets table_root in
  if r =? 0 then ret tt
  else rcu_register (destroy_rcu_callback r 0) ;! set_table_root 0.

Definition layer_children (l : leaf) : list Z :=
  map (Leaf.lv l) (filter (fun p => Leaf.is_layer l p)
    (map (Kpermuter.index (permutation_ l)) (seqZ 0 (Leaf.size l)))).
Definition internode_children (i : internode) : list Z :=
  filter (fun c => negb (c =? 0)) (take (Z.to_nat (Internode.size i + 1)) (child_ i)).

Fixpoint destroy_loop (fuel : nat) (workq : list Z) : M unit :=
  match fuel with
  | O => fail
  | S fuel =>
      match workq with
      | [] => ret tt
      | n :: workq =>
          let! nd := get_node n in
          let children := match nd with
            | NLeaf l => layer_children l
            | NInternode i => internode_children i
            end in
          deallocate n ;! destroy_loop fuel (workq ++ children)
      end
  end.

Definition run_destroy (fuel : nat) (root count : Z) : M unit :=
  if count + 1 =? 1 then
    let! root := climb_root fuel root in
    let! v := version root in
    let! _ := lock root v in
    let! v := version root in
    set_version root (Nodeversion.mark_deleted_tree NV v) ;!
    unlock root ;!
    rcu_register (destroy_rcu_callback root (count + 1))
  else destroy_loop fuel [root].
