(* ===== verification/Scan.v ===== *)
(** Range scans, [src/masstree_scan.hh]: the state machine that walks the
    leaves of all layers in key order, forward or backward.

    The key of the current position is rebuilt in the buffer [keybuf] of
    [keybuf_size] bytes, at an address of the memory.  A first key that does
    not fit it fails the precondition of [scan]; a write past it, or past the
    buffer for a suffix, has no result here either.  The scanner is a parameter: [visit_value] gets
    its state, the full key and the value, and says whether to go on; its
    [visit_leaf] only observes versions and is left out. *)
From S2P Require Import Prelude Compiler Memory StringSlice Key Ksearch Kpermuter Nodeversion.
From S2P Require Import Stringbag Node Heap Get.

Inductive scan_state : Type := scan_emit | scan_find_next | scan_down | scan_up | scan_retry.

(** [scanstackelt]; [node_stack_] has its top first. *)
Record scanstackelt : Type := mkStack {
  sc_root : Z; sc_n : Z; sc_v : Z; sc_perm : Z; sc_ki : Z; node_stack_ : list Z }.

(** [forward_scan_helper], and [reverse_scan_helper] with its [upper_bound_]. *)
Inductive scan_helper : Type := forward | reverse_ (upper_bound_ : bool).

(** The size of the union [keybuf] of [scan], of words of [ikey_size] bytes. *)
Definition keybuf_size : Z := (max_key_len + ikey_size - 1) / ikey_size * ikey_size.
(** A write of [len] bytes at [a] into the buffer of the key. *)
Definition in_keybuf (ka : key) (a len : Z) : bool := a + len <=? first_ ka + keybuf_size.
(** [ka.assign_store_ikey(ikey)], into the buffer. *)
Definition store_ikey (ka : key) (ikey : Z) : M key :=
  require (in_keybuf ka (s_ ka) ikey_size) ;!
  let! m := gets kmem in
  let '(m, ka) := Key.assign_store_ikey m ka ikey in
  set_kmem m ;! ret ka.

Module Helper.
Definition initial_ksuf_match (h : scan_helper) (ksuf_compare : Z) (emit_equal : bool) : bool :=
  match h with
  | forward => (0 <? ksuf_compare) || ((ksuf_compare =? 0) && emit_equal)
  | reverse_ _ => (ksuf_compare <? 0) || ((ksuf_compare =? 0) && emit_equal)
  end.
Definition is_duplicate (h : scan_helper) (k : key) (ikey keylenx : Z) : bool :=
  match h with
  | forward => 0 <=? Key.compare_ikey k ikey keylenx
  | reverse_ upper_bound => (Key.compare_ikey k ikey keylenx <=? 0) && negb upper_bound
  end.
Definition lower_by (k : key) (perm : Z) (l : leaf) : key_indexed_position :=
  bound_lower_by leaf_width bound_method_ (Kpermuter.size perm) (Kpermuter.index perm)
    (Leaf.compare_key l k).
Definition lower_with_position (h : scan_helper) (k : key) (perm : Z) (l : leaf) : key_indexed_position :=
  let kx := lower_by k perm l in
  match h with
  | forward => kx
  | reverse_ _ => mkKip (kip_i kx - b2z (kip_p kx <? 0)) (kip_p kx)
  end.
Definition lower (h : scan_helper) (k : key) (perm : Z) (l : leaf) : Z :=
  match h with
  | forward => kip_i (lower_by k perm l)
  | reverse_ true => Kpermuter.size perm - 1
  | reverse_ false => let kx := lower_by k perm l in kip_i kx - b2z (kip_p kx <? 0)
  end.
Definition mark_key_complete (h : scan_helper) : scan_helper :=
  match h with forward => forward | reverse_ _ => reverse_ false end.
Definition next (h : scan_helper) (ki : Z) : Z :=
  match h with forward => ki + 1 | reverse_ _ => ki - 1 end.
(** [advance(n, k)]: the next leaf and the key. *)
Definition advance (h : scan_helper) (n : Z) (k : key) : M (Z * key) :=
  let! l := get_leaf n in
  match h with
  | forward => ret (Leaf.safe_next l, k)
  | reverse_ _ =>
      let! k := store_ikey k (Leaf.ikey_bound l) in
      ret (prev_ l, Key.assign_store_length k 0)
  end.
(** [stable(n, k)]: the leaf, which the reverse helper moves right past
    splits, and its version. *)
Fixpoint stable_reverse (fuel : nat) (n : Z) (k : key) : M (Z * Z) :=
  match fuel with
  | O => fail
  | S fuel =>
      let! v := Heap.stable n in
      let! l := get_leaf n in
      let next := Leaf.safe_next l in
      if next =? 0 then ret (n, v)
      else
        let! nl := get_leaf next in
        let cmp := compare (Key.ikey k) (Leaf.ikey_bound nl) in
        if (cmp <? 0) || ((cmp =? 0) && (Key.length k =? 0)) then ret (n, v)
        else stable_reverse fuel next k
  end.
Definition stable (fuel : nat) (h : scan_helper) (n : Z) (k : key) : M (Z * Z) :=
  match h with
  | forward => let! v := Heap.stable n in ret (n, v)
  | reverse_ _ => stable_reverse fuel n k
  end.
Definition shift_clear (h : scan_helper) (k : key) : scan_helper * key :=
  match h with
  | forward => (forward, Key.shift_clear k)
  | reverse_ _ => (reverse_ true, Key.shift_clear_reverse k)
  end.
End Helper.

Section scan.
Context (unaligned : bool).

Definition kp (st : scanstackelt) : Z :=
  if (0 <=? sc_ki st) && (sc_ki st <? Kpermuter.size (sc_perm st))
  then Kpermuter.index (sc_perm st) (sc_ki st) else -1.

(** [ka.assign_store_suffix(s)] for the bytes of a suffix in a bag. *)
Definition store_suffix (ka : key) (s : list Z) : M Z :=
  require (in_keybuf ka (s_ ka + ikey_size) (zlength s)) ;!
  let! m := gets kmem in
  set_kmem (store m (s_ ka + ikey_size) s) ;! ret (ikey_size + zlength s).

Definition push_layer (st : scanstackelt) (layer : Z) : scanstackelt :=
  mkStack layer (sc_n st) (sc_v st) (sc_perm st) (sc_ki st) (sc_n st :: sc_root st :: node_stack_ st).
Definition with_ki (st : scanstackelt) (ki : Z) : scanstackelt :=
  mkStack (sc_root st) (sc_n st) (sc_v st) (sc_perm st) ki (node_stack_ st).

(** ** [find_initial] *)
(** From [retry_node]; [None]: retry from the root. *)
Fixpoint initial_node (fuel : nat) (h : scan_helper) (ka : key) (emit_equal : bool)
    (st : scanstackelt) (n v : Z) : M (option (scan_state * scanstackelt * key * Z)) :=
  match fuel with
  | O => fail
  | S fuel =>
      if Nodeversion.deleted NV v then ret None
      else
        let! m := gets kmem in
        let! l := get_leaf n in
        let perm := Leaf.permutation l in
        let kx := Helper.lower_with_position h ka perm l in
        let keylenx := Leaf.keylenx l (kip_p kx) in
        let entry := if 0 <=? kip_p kx then Leaf.lv l (kip_p kx) else 0 in
        let suffix := Leaf.ksuf l (kip_p kx) in
        require (negb ((0 <=? kip_p kx) && Leaf.keylenx_has_ksuf keylenx) || (zlength suffix <=? max_key_len)) ;!
        let! v' := version n in
        if Nodeversion.has_changed NV v' v then
          let! nv := advance_to_key fuel ka n v in
          initial_node fuel h ka emit_equal st (fst nv) (snd nv)
        else
          let st := mkStack (sc_root st) n v perm (kip_i kx) (node_stack_ st) in
          let skip := with_ki st (Helper.next h (sc_ki st)) in
          if 0 <=? kip_p kx then
            if Leaf.keylenx_is_layer keylenx then
              ret (Some (scan_down, push_layer st entry, ka, entry))
            else if Leaf.keylenx_has_ksuf keylenx then
              let ksuf_compare := lex suffix (str_bytes m (Key.suffix ka)) in
              if Helper.initial_ksuf_match h ksuf_compare emit_equal then
                let! keylen := store_suffix ka suffix in
                ret (Some (scan_emit, st, Key.assign_store_length ka keylen, entry))
              else ret (Some (scan_find_next, skip, ka, entry))
            else if emit_equal then ret (Some (scan_emit, st, ka, entry))
            else ret (Some (scan_find_next, skip, ka, entry))
          else ret (Some (scan_find_next, st, ka, entry))
  end.
Fixpoint find_initial (fuel : nat) (h : scan_helper) (ka : key) (emit_equal : bool)
    (st : scanstackelt) : M (scan_state * scanstackelt * key * Z) :=
  match fuel with
  | O => fail
  | S fuel' =>
      let! nv := reach_leaf fuel (sc_root st) ka in
      let! r := initial_node fuel h ka emit_equal st (fst nv) (snd nv) in
      match r with Some r => ret r | None => find_initial fuel' h ka emit_equal st end
  end.

(** ** [find_retry] *)
Fixpoint find_retry (fuel : nat) (h : scan_helper) (ka : key) (st : scanstackelt) : M scanstackelt :=
  match fuel with
  | O => fail
  | S fuel' =>
      let! nv := reach_leaf fuel (sc_root st) ka in
      let '(n, v) := nv in
      if Nodeversion.deleted NV v then find_retry fuel' h ka st
      else
        let! l := get_leaf n in
        let perm := Leaf.permutation l in
        ret (mkStack (sc_root st) n v perm (Helper.lower h ka perm l) (node_stack_ st))
  end.

(** ** [find_next] *)
(** From [changed:]. *)
Definition resync (fuel : nat) (h : scan_helper) (ka : key) (st : scanstackelt) (n : Z) : M scanstackelt :=
  let! nv := Helper.stable fuel h n ka in
  let '(n, v) := nv in
  let! l := get_leaf n in
  let perm := Leaf.permutation l in
  ret (mkStack (sc_root st) n v perm (Helper.lower h ka perm l) (node_stack_ st)).

(** From [retry_entry:]; [entry] is the value left by the last entry seen. *)
Fixpoint next_entry (fuel : nat) (h : scan_helper) (ka : key) (st : scanstackelt) (entry : Z) :
    M (scan_state * scan_helper * scanstackelt * key * Z) :=
  match fuel with
  | O => fail
  | S fuel =>
      let n := sc_n st in
      let! l := get_leaf n in
      if 0 <=? kp st then
        let ikey := Leaf.ikey l (kp st) in
        let keylenx := Leaf.keylenx l (kp st) in
        let entry := Leaf.lv l (kp st) in
        let! keylen := (if Leaf.keylenx_has_ksuf keylenx then store_suffix ka (Leaf.ksuf l (kp st))
                        else ret keylenx) in
        if Nodeversion.has_changed NV (lversion l) (sc_v st) then
          let! st := resync fuel h ka st n in ret (scan_find_next, h, st, ka, entry)
        else if Helper.is_duplicate h ka ikey keylenx then
          next_entry fuel h ka (with_ki st (Helper.next h (sc_ki st))) entry
        else
          let! ka := store_ikey ka ikey in
          let h := Helper.mark_key_complete h in
          if Leaf.keylenx_is_layer keylenx then ret (scan_down, h, push_layer st entry, ka, entry)
          else ret (scan_emit, h, st, Key.assign_store_length ka keylen, entry)
      else
        if negb (Nodeversion.has_changed NV (lversion l) (sc_v st)) then
          let! nk := Helper.advance h n ka in
          let '(n, ka) := nk in
          if n =? 0 then
            ret (scan_up, Helper.mark_key_complete h,
              mkStack (sc_root st) 0 (sc_v st) (sc_perm st) (sc_ki st) (node_stack_ st), ka, entry)
          else let! st := resync fuel h ka st n in ret (scan_find_next, h, st, ka, entry)
        else let! st := resync fuel h ka st n in ret (scan_find_next, h, st, ka, entry)
  end.
Definition find_next (fuel : nat) (h : scan_helper) (ka : key) (st : scanstackelt) (entry : Z) :
    M (scan_state * scan_helper * scanstackelt * key * Z) :=
  if Nodeversion.deleted NV (sc_v st) then ret (scan_retry, h, st, ka, entry)
  else next_entry fuel h ka st entry.

(** ** [scan] *)
Context {A : Type} (visit_value : A -> list Z -> Z -> A * bool).

(** The loop of [scan_up]: back to the closest layer that is not finished;
    [None] at the end of the scan. *)
Fixpoint pop_layers (m : mem) (ka : key) (st : scanstackelt) (stack : list Z) :
    option (key * scanstackelt) :=
  match stack with
  | n :: root :: rest =>
      let ka := Key.unshift unaligned m ka in
      let st := mkStack root n (sc_v st) (sc_perm st) (sc_ki st) rest in
      if Key.empty ka then pop_layers m ka st rest else Some (ka, st)
  | _ => None
  end.

(** The second loop: the scanner's final state and the count. *)
Fixpoint scan_loop (fuel : nat) (state : scan_state) (h : scan_helper) (st : scanstackelt)
    (ka : key) (entry : Z) (acc : A) (scancount : Z) : M (A * Z) :=
  match fuel with
  | O => fail
  | S fuel' =>
      match state with
      | scan_emit =>
          let! m := gets kmem in
          let scancount := scancount + 1 in
          let '(acc, continue) := visit_value acc (str_bytes m (Key.full_string ka)) entry in
          if negb continue then ret (acc, scancount)
          else
            let st := with_ki st (Helper.next h (sc_ki st)) in
            let! r := find_next fuel h ka st entry in
            let '(state, h, st, ka, entry) := r in
            scan_loop fuel' state h st ka entry acc scancount
      | scan_find_next =>
          let! r := find_next fuel h ka st entry in
          let '(state, h, st, ka, entry) := r in
          scan_loop fuel' state h st ka entry acc scancount
      | scan_up =>
          let! m := gets kmem in
          match pop_layers m ka st (node_stack_ st) with
          | None => ret (acc, scancount)
          | Some (ka, st) =>
              let! st := resync fuel h ka st (sc_n st) in
              let! r := find_next fuel h ka st entry in
              let '(state, h, st, ka, entry) := r in
              scan_loop fuel' state h st ka entry acc scancount
          end
      | scan_down =>
          let '(h, ka) := Helper.shift_clear h ka in
          let! st := find_retry fuel h ka st in
          scan_loop fuel' scan_find_next h st ka entry acc scancount
      | scan_retry =>
          let! st := find_retry fuel h ka st in
          scan_loop fuel' scan_find_next h st ka entry acc scancount
      end
  end.

(** The first loop: down to the layer of the first key. *)
Fixpoint scan_initial (fuel : nat) (h : scan_helper) (ka : key) (emit_firstkey : bool)
    (st : scanstackelt) : M (scan_state * scanstackelt * key * Z) :=
  match fuel with
  | O => fail
  | S fuel' =>
      let! r := find_initial fuel h ka emit_firstkey st in
      let '(state, st, ka, entry) := r in
      match state with
      | scan_down =>
          let! m := gets kmem in
          scan_initial fuel' h (Key.shift unaligned m ka) emit_firstkey st
      | _ => ret (state, st, ka, entry)
      end
  end.

(** [scan(helper, firstkey, emit_firstkey, scanner, ti)]. *)
Definition scan_with (fuel : nat) (h : scan_helper) (keybuf : Z) (firstkey : list Z)
    (emit_firstkey : bool) (acc : A) : M (A * Z) :=
  require (zlength firstkey <=? keybuf_size) ;!
  let! m := gets kmem in
  set_kmem (store m keybuf firstkey) ;!
  let! m := gets kmem in
  let ka := Key.key_data unaligned m keybuf (zlength firstkey) in
  let! r := root in
  let! i := scan_initial fuel h ka emit_firstkey (mkStack r 0 0 0 0 []) in
  let '(state, st, ka, entry) := i in
  scan_loop fuel state h st ka entry acc 0.
Definition scan (fuel : nat) := scan_with fuel forward.
Definition rscan (fuel : nat) := scan_with fuel (reverse_ false).
End scan.
