(* ===== verification/Tree.v ===== *)
(** What a tree in the heap stands for: the abstraction of [Node]'s leaves
    and internodes to sorted entries, of a layer's B+tree to its entries in
    key order, and of the layers below to a list of bindings.

    [leaf_ok] and [internode_ok] are the nodes' invariants, [node_rep] the
    B+tree's, [layer_rep] the trie's and [table_rep] the table's.  The
    predicates carry the list of the addresses they speak about: they are
    kept by any change of the heap elsewhere ([node_rep_frame],
    [layer_rep_frame]). *)
From Stdlib Require Import Sorted.
From S2P Require Import Prelude Compiler Memory StringSlice Key Ksearch Kpermuter Nodeversion.
From S2P Require Import Stringbag Node Heap.

(** * Entries of a leaf *)
Record entry : Type := mkEntry { e_ikey : Z; e_keylenx : Z; e_suf : list Z; e_lv : Z }.

Definition ikey_bytes (ikey : Z) : list Z := write_in_net_order 8 ikey.
(** Lengths above 8 are one class: at most one entry of a slice has a suffix
    or a layer. *)
Definition e_rank (e : entry) : Z := Z.min (e_keylenx e) 9.
Definition entry_lt (e f : entry) : Prop :=
  e_ikey e < e_ikey f \/ (e_ikey e = e_ikey f /\ e_rank e < e_rank f).

Definition entry_ok (e : entry) : Prop :=
  in_u ikey_bits (e_ikey e) /\
  ((0 <= e_keylenx e <= 8 /\ e_suf e = [] /\ e_ikey e mod 256 ^ (8 - e_keylenx e) = 0) \/
   (e_keylenx e = ksuf_keylenx /\ bytes (e_suf e) /\ 0 < zlength (e_suf e) <= max_key_len) \/
   (e_keylenx e = layer_keylenx /\ e_suf e = [])).
(** The string of a value entry; what the strings of a layer start with. *)
Definition entry_key (e : entry) : list Z :=
  take (Z.to_nat (Z.min (e_keylenx e) 8)) (ikey_bytes (e_ikey e)) ++ e_suf e.

Definition slot_entry (l : leaf) (p : Z) : entry :=
  mkEntry (Leaf.ikey l p) (Leaf.keylenx l p) (if Leaf.has_ksuf l p then Leaf.ksuf l p else [])
    (Leaf.lv l p).

(** * Nodes *)
(** A version at rest: no lock, no change under way, not deleted. *)
Definition quiet_mask : Z :=
  Z.lor (Z.lor (lock_bit NV) (unused1_bit NV)) (Z.lor (dirty_mask NV) (deleted_bit NV)).
Definition quiet (v : Z) : Prop := in_u 32 v /\ Z.land v quiet_mask = 0.

(** The suffix bags of a leaf: at most one is in use, and it has bounded
    capacity. *)
Definition bags_ok (l : leaf) : Prop :=
  match ksuf_ l with
  | Some b => bag_wf Leaf.external_bits leaf_width b /\ capacity b <= 8192 /\ extrasize64_ l < 0
  | None => match iksuf_ l with
      | Some b => bag_wf Leaf.internal_bits leaf_width b /\ 0 < extrasize64_ l
      | None => extrasize64_ l = 0
      end
  end.

Record leaf_arrays (l : leaf) : Prop := {
  la_keylenx : zlength (keylenx_ l) = leaf_width;
  la_ikey0 : zlength (ikey0_ l) = leaf_width;
  la_lv : zlength (lv_ l) = leaf_width;
  la_bags : bags_ok l }.

(** [es] are the live entries of [l], in key order. *)
Record leaf_entries (l : leaf) (live free : list Z) (es : list entry) : Prop := {
  le_arrays : leaf_arrays l;
  le_repr : repr leaf_width (permutation_ l) live free;
  le_es : es = map (slot_entry l) live;
  le_ok : Forall entry_ok es;
  le_sorted : StronglySorted entry_lt es }.

(** The leaf made by the split of a root leaf keeps its root bit, so that the
    bit says nothing of a leaf with a parent. *)
Record leaf_ok (par lo hi : Z) (l : leaf) (es : list entry) : Prop := {
  lo_entries : exists live free, leaf_entries l live free es;
  lo_range : Forall (fun e => lo <= e_ikey e < hi) es;
  lo_quiet : quiet (lversion l);
  lo_isleaf : Nodeversion.isleaf NV (lversion l) = true;
  lo_root : par = 0 -> Nodeversion.is_root NV (lversion l) = true;
  lo_parent : lparent_ l = par;
  lo_bound : prev_ l <> 0 -> Leaf.ikey_bound l = lo;
  lo_modstate : modstate_ l = modstate_insert \/ modstate_ l = modstate_remove }.

Record internode_ok (par : Z) (i : internode) : Prop := {
  io_nkeys : 0 <= nkeys_ i <= internode_width;
  io_ikey0 : zlength (iikey0_ i) = internode_width;
  io_child : zlength (child_ i) = internode_width + 1;
  io_quiet : quiet (iversion i);
  io_isleaf : Nodeversion.isleaf NV (iversion i) = false;
  io_root : Nodeversion.is_root NV (iversion i) = (par =? 0);
  io_parent : iparent_ i = par }.

(** The keys of an internode with the children right of them. *)
Definition separators (i : internode) : list (Z * Z) :=
  zip (take (Z.to_nat (nkeys_ i)) (iikey0_ i)) (drop 1 (child_ i)).

(** * B+trees *)
Definition next_key (kcs : list (Z * Z)) (hi : Z) : Z :=
  match kcs with [] => hi | (k, _) :: _ => k end.

(** The children from the second on: [R c lo hi es ns] says of a child what
    it holds. *)
Fixpoint siblings_rep (R : Z -> Z -> Z -> list entry -> list Z -> Prop)
    (kcs : list (Z * Z)) (hi : Z) (es : list entry) (ns : list Z) : Prop :=
  match kcs with
  | [] => es = [] /\ ns = []
  | (k, c) :: rest => exists es1 es2 ns1 ns2, es = es1 ++ es2 /\ ns = ns1 ++ ns2 /\
      k < next_key rest hi /\ c <> 0 /\ R c k (next_key rest hi) es1 ns1 /\
      siblings_rep R rest hi es2 ns2
  end.

(** The first child may be gone: then nothing is left of the first key.  The
    leftmost leaf of a layer never goes. *)
Definition children_rep (R : Z -> Z -> Z -> list entry -> list Z -> Prop)
    (lo c0 : Z) (kcs : list (Z * Z)) (hi : Z) (es : list entry) (ns : list Z) : Prop :=
  exists es1 es2 ns1 ns2, es = es1 ++ es2 /\ ns = ns1 ++ ns2 /\
    ((c0 = 0 /\ lo = next_key kcs hi /\ es1 = [] /\ ns1 = [] /\ 0 < lo) \/
     (c0 <> 0 /\ lo < next_key kcs hi /\ R c0 lo (next_key kcs hi) es1 ns1)) /\
    siblings_rep R kcs hi es2 ns2.

(** The node at [a], of depth at most [d] and with parent [par] (0 for the
    root of a layer), holds the entries [es], whose slices are in [lo, hi),
    in the nodes [ns]. *)
Fixpoint node_rep (d : nat) (h : gmap Z node) (par a lo hi : Z) (es : list entry) (ns : list Z) : Prop :=
  match d with
  | O => False
  | S d =>
      (exists l, h !! a = Some (NLeaf l) /\ ns = [a] /\ leaf_ok par lo hi l es) \/
      (exists i ns', h !! a = Some (NInternode i) /\ ns = a :: ns' /\ internode_ok par i /\
        children_rep (node_rep d h a) lo (rd (child_ i) 0) (separators i) hi es ns')
  end.

(** The leaves among the nodes [ns] of a tree: [node_rep] lists its nodes in
    preorder, so these are in key order. *)
Definition is_leaf_at (h : gmap Z node) (a : Z) : bool :=
  match h !! a with Some (NLeaf _) => true | _ => false end.
Definition leaves (h : gmap Z node) (ns : list Z) : list Z := filter (fun a => Is_true (is_leaf_at h a)) ns.

(** [ls] is a doubly linked list of leaves; [prev] comes before it. *)
Fixpoint linked (h : gmap Z node) (prev : Z) (ls : list Z) : Prop :=
  match ls with
  | [] => True
  | a :: ls => (exists l, h !! a = Some (NLeaf l) /\ prev_ l = prev /\ next_ l = hd 0 ls) /\ linked h a ls
  end.

(** * Layers *)
(** The pointer [a] to a layer leads to the root [r] of its nodes [ns]: it may
    be one level older than the root.  Whoever changes a layer brings the
    pointer up to date first. *)
Inductive climbs (h : gmap Z node) (ns : list Z) : Z -> Z -> Prop :=
  | climbs_root r n : r ∈ ns -> h !! r = Some n -> quiet (node_version n) ->
      Nodeversion.is_root NV (node_version n) = true -> climbs h ns r r
  | climbs_step a n m : a ∈ ns -> h !! a = Some n -> quiet (node_version n) ->
      Nodeversion.is_root NV (node_version n) = false -> node_parent n <> 0 ->
      node_parent n ∈ ns -> h !! node_parent n = Some m -> quiet (node_version m) ->
      Nodeversion.is_root NV (node_version m) = true -> climbs h ns a (node_parent n).

(** The bindings [B] of an entry, and the nodes [ns] below it; [L p B ns]
    says what the layer at the pointer [p] holds. *)
Definition entry_rep (L : Z -> list (list Z * Z) -> list Z -> Prop)
    (e : entry) (Bn : list (list Z * Z) * list Z) : Prop :=
  if e_keylenx e =? layer_keylenx then
    exists B', L (e_lv e) B' (snd Bn) /\ Forall (fun kv => fst kv <> []) B' /\
      fst Bn = map (fun kv => (ikey_bytes (e_ikey e) ++ fst kv, snd kv)) B'
  else Bn = ([(entry_key e, e_lv e)], []).

(** The layer at the pointer [p], of at most [n] layers: its B+tree, whose
    root may lie above [p], with the leaves [linked], and the layers below. *)
Fixpoint layer_rep (n : nat) (h : gmap Z node) (p : Z) (B : list (list Z * Z)) (ns : list Z) : Prop :=
  match n with
  | O => False
  | S n => exists d root es lns Bns,
      climbs h lns p root /\ node_rep d h 0 root 0 (2 ^ ikey_bits) es lns /\
      linked h 0 (leaves h lns) /\ Forall2 (entry_rep (layer_rep n h)) es Bns /\
      B = concat (map fst Bns) /\ ns = lns ++ concat (map snd Bns)
  end.

(** The table, of at most [max_layers] layers, holds the bindings [B], in [ns]. *)
Class Layers : Type := max_layers : nat.
Record table_in {N : Layers} (s : state) (B : list (list Z * Z)) (ns : list Z) : Prop := {
  tr_rep : layer_rep max_layers (heap s) (table_root s) B ns;
  tr_nodup : NoDup ns;
  tr_addr : forall a, a ∈ ns -> 0 < a < next_fresh s /\ a mod 64 = 0;
  tr_fresh : next_fresh s mod 64 = 0;
  tr_mem : mem_bytes (kmem s) }.
Definition table_rep (s : state) (B : list (list Z * Z)) (ns : list Z) : Prop := exists N : Layers, table_in s B ns.

(** * Frame *)
Definition agree (h h' : gmap Z node) (ns : list Z) : Prop := forall a, a ∈ ns -> h' !! a = h !! a.

Lemma agree_app h h' ns1 ns2 : agree h h' (ns1 ++ ns2) <-> agree h h' ns1 /\ agree h h' ns2.
Proof. unfold agree. setoid_rewrite elem_of_app. naive_solver. Qed.
Lemma agree_cons h h' a ns : agree h h' (a :: ns) <-> h' !! a = h !! a /\ agree h h' ns.
Proof. unfold agree. setoid_rewrite elem_of_cons. naive_solver. Qed.
Lemma agree_insert h a n ns : a ∉ ns -> agree h (<[a := n]> h) ns.
Proof. intros Ha b Hb. apply lookup_insert_ne. intros ->. done. Qed.

Lemma siblings_rep_mono (R R' : Z -> Z -> Z -> list entry -> list Z -> Prop) kcs hi es ns :
  (forall c lo hi es ns', (forall a, a ∈ ns' -> a ∈ ns) -> R c lo hi es ns' -> R' c lo hi es ns') ->
  siblings_rep R kcs hi es ns -> siblings_rep R' kcs hi es ns.
Proof.
  revert es ns. induction kcs as [|[k c] kcs IH]; intros es ns HR; cbn [siblings_rep]; [done|].
  intros (es1 & es2 & ns1 & ns2 & -> & -> & Hk & Hc & H1 & H2).
  exists es1, es2, ns1, ns2. split_and!; try done.
  - apply HR; [|done]. intros a Ha. apply elem_of_app. by left.
  - apply IH; [|done]. intros ????? Hs. apply HR. intros a Ha. apply elem_of_app. right. by apply Hs.
Qed.

Lemma children_rep_mono (R R' : Z -> Z -> Z -> list entry -> list Z -> Prop) lo c0 kcs hi es ns :
  (forall c lo hi es ns', (forall a, a ∈ ns' -> a ∈ ns) -> R c lo hi es ns' -> R' c lo hi es ns') ->
  children_rep R lo c0 kcs hi es ns -> children_rep R' lo c0 kcs hi es ns.
Proof.
  intros HR (es1 & es2 & ns1 & ns2 & -> & -> & H1 & H2).
  exists es1, es2, ns1, ns2. split_and!; [done..| |].
  - destruct H1 as [H1|(Hc & Hlt & H1)]; [by left|right]. split_and!; [done..|].
    apply HR; [|done]. intros a Ha. apply elem_of_app. by left.
  - eapply siblings_rep_mono; [|done]. intros ????? Hs. apply HR.
    intros a Ha. apply elem_of_app. right. by apply Hs.
Qed.

Lemma node_rep_frame d h h' par a lo hi es ns :
  agree h h' ns -> node_rep d h par a lo hi es ns -> node_rep d h' par a lo hi es ns.
Proof.
  revert par a lo hi es ns. induction d as [|d IH]; intros par a lo hi es ns Hag; cbn [node_rep]; [done|].
  intros [(l & Hl & -> & Hok)|(i & ns' & Hi & -> & Hok & Hc)].
  - left. exists l. split_and!; [|done..]. rewrite Hag; [done|]. by apply elem_of_cons; left.
  - apply agree_cons in Hag as [Ha Hag]. right. exists i, ns'. split_and!; [by rewrite Ha|done..|].
    eapply children_rep_mono; [|exact Hc]. intros c lo' hi' es' ns'' Hsub. apply IH.
    intros b Hb. by apply Hag, Hsub.
Qed.

Lemma climbs_frame h h' ns a r : agree h h' ns -> climbs h ns a r -> climbs h' ns a r.
Proof.
  intros Hag [r1 n Hin Hr Hq Hroot|c n m Hin Ha Hq Hroot Hp Hr Hm Hqm Hrm].
  - eapply climbs_root; eauto. by rewrite Hag.
  - eapply climbs_step; eauto; by rewrite Hag.
Qed.

Lemma climbs_keep h h' ns a r :
  (forall b n, b ∈ ns -> h !! b = Some n -> quiet (node_version n) -> exists n', h' !! b = Some n' /\ quiet (node_version n') /\
    Nodeversion.is_root NV (node_version n') = Nodeversion.is_root NV (node_version n) /\ node_parent n' = node_parent n) ->
  climbs h ns a r -> climbs h' ns a r.
Proof.
  intros Hk [r1 n Hin Hr Hq Hroot|c n m Hin Ha Hq Hroot Hp Hr Hm Hqm Hrm].
  - destruct (Hk _ _ Hin Hr Hq) as (n' & H1 & H2 & H3 & _). apply (climbs_root _ _ _ n'); [done..|congruence].
  - destruct (Hk _ _ Hin Ha Hq) as (n' & H1 & H2 & H3 & H4). destruct (Hk _ _ Hr Hm Hqm) as (m' & H5 & H6 & H7 & _).
    rewrite <- H4 in *. apply (climbs_step _ _ _ n' m'); try done; congruence.
Qed.
(** A pointer to a root is up to date. *)
Lemma climbs_at_root h ns a r n : climbs h ns a r -> h !! a = Some n -> Nodeversion.is_root NV (node_version n) = true -> a = r.
Proof. intros [r1 n' ? ? ? ?|c n' m ? Ha ? Hroot ? ? ? ? ?] Hn Ht; [done|]. rewrite Hn in Ha. injection Ha as <-. congruence. Qed.

Lemma climbs_mono h ns ns' a r : (forall b, b ∈ ns -> b ∈ ns') -> climbs h ns a r -> climbs h ns' a r.
Proof.
  intros Hs [r1 n Hin Hr Hq Hroot|c n m Hin Ha Hq Hroot Hp Hr Hm Hqm Hrm].
  - eapply climbs_root; eauto.
  - eapply climbs_step; eauto.
Qed.

Lemma leaves_frame h h' ns : agree h h' ns -> leaves h' ns = leaves h ns.
Proof.
  induction ns as [|a ns IH]; intros Hag; [done|]. apply agree_cons in Hag as [Ha Hag].
  assert (is_leaf_at h' a = is_leaf_at h a) as He by (unfold is_leaf_at; by rewrite Ha).
  unfold leaves in *. rewrite !filter_cons, IH by done. by rewrite He.
Qed.

Lemma leaves_ext h h' ns : (forall a, a ∈ ns -> is_leaf_at h' a = is_leaf_at h a) -> leaves h' ns = leaves h ns.
Proof.
  induction ns as [|a ns IH]; intros H; [done|]. unfold leaves in *.
  rewrite !filter_cons, IH by (intros; apply H, elem_of_cons; by right). by rewrite H by (apply elem_of_cons; by left).
Qed.
Lemma leaves_app h ns1 ns2 : leaves h (ns1 ++ ns2) = leaves h ns1 ++ leaves h ns2.
Proof. apply filter_app. Qed.
Lemma leaves_internode h a i ns : h !! a = Some (NInternode i) -> leaves h (a :: ns) = leaves h ns.
Proof. intros H. unfold leaves. rewrite filter_cons_False; [done|]. unfold is_leaf_at. rewrite H. by intros []. Qed.
Lemma leaves_leaf_cons h a l ns : h !! a = Some (NLeaf l) -> leaves h (a :: ns) = a :: leaves h ns.
Proof. intros Ha. unfold leaves. rewrite filter_cons_True; [done|]. unfold is_leaf_at. by rewrite Ha. Qed.

Lemma elem_of_leaves h ns a : a ∈ leaves h ns <-> is_leaf_at h a = true /\ a ∈ ns.
Proof. unfold leaves. rewrite list_elem_of_filter. by rewrite Is_true_true. Qed.

Lemma linked_frame h h' prev ls : agree h h' ls -> linked h prev ls -> linked h' prev ls.
Proof.
  revert prev. induction ls as [|a ls IH]; intros prev Hag; cbn [linked]; [done|].
  apply agree_cons in Hag as [Ha Hag]. intros [(l & H1 & H2) H3]. split; [|by apply IH].
  exists l. by rewrite Ha.
Qed.

Lemma elem_of_concat (a : Z) (ns : list Z) (nss : list (list Z)) : a ∈ ns -> ns ∈ nss -> a ∈ concat nss.
Proof.
  intros Ha Hn. apply list_elem_of_In, in_concat. exists ns. split; apply list_elem_of_In; done.
Qed.

(** More layers, or the same entries elsewhere. *)
Lemma entry_rep_mono (L L' : Z -> list (list Z * Z) -> list Z -> Prop) e Bn :
  (forall p B, L p B (snd Bn) -> L' p B (snd Bn)) -> entry_rep L e Bn -> entry_rep L' e Bn.
Proof.
  intros HL. unfold entry_rep. destruct (e_keylenx e =? layer_keylenx); [|done].
  intros (B' & H & H2). exists B'. split; [by apply HL|done].
Qed.
Lemma entries_rep_mono (L L' : Z -> list (list Z * Z) -> list Z -> Prop) es Bns :
  (forall p B ns, ns ∈ map snd Bns -> L p B ns -> L' p B ns) ->
  Forall2 (entry_rep L) es Bns -> Forall2 (entry_rep L') es Bns.
Proof.
  intros HL H. induction H as [|e Bn es Bns He _ IH]; [constructor|]. constructor.
  - eapply entry_rep_mono; [|exact He]. intros p B. apply HL. cbn. apply elem_of_cons. by left.
  - apply IH. intros p B ns Hns. apply HL. cbn. apply elem_of_cons. by right.
Qed.

Lemma layer_rep_mono n n' h p B ns : (n <= n')%nat -> layer_rep n h p B ns -> layer_rep n' h p B ns.
Proof.
  revert n' p B ns. induction n as [|n IH]; intros n' p B ns Hn; [done|].
  destruct n' as [|n']; [lia|]. cbn [layer_rep].
  intros (d & r & es & lns & Bns & Hc & Hr & Hlk & He & HB & Hns). exists d, r, es, lns, Bns.
  split_and!; try done. eapply entries_rep_mono; [|exact He]. intros. apply IH; [lia|done].
Qed.

Lemma layer_rep_frame n h h' p B ns :
  agree h h' ns -> layer_rep n h p B ns -> layer_rep n h' p B ns.
Proof.
  revert p B ns. induction n as [|n IH]; intros p B ns Hag; cbn [layer_rep]; [done|].
  intros (d & r & es & lns & Bns & Hc & Hn & Hlk & He & -> & ->). apply agree_app in Hag as [Hag1 Hag2].
  exists d, r, es, lns, Bns. split_and!; [by eapply climbs_frame|by eapply node_rep_frame| | |done..].
  - rewrite (leaves_frame _ _ _ Hag1). eapply linked_frame; [|done].
    intros a [_ Ha]%elem_of_leaves. by apply Hag1.
  - eapply entries_rep_mono; [|exact He]. intros p' B ns Hns. apply IH.
    intros a Ha. apply Hag2. by eapply elem_of_concat.
Qed.
Lemma entries_rep_frame n h h' es Bns :
  agree h h' (concat (map snd Bns)) ->
  Forall2 (entry_rep (layer_rep n h)) es Bns -> Forall2 (entry_rep (layer_rep n h')) es Bns.
Proof.
  intros Hag. apply entries_rep_mono. intros p B ns Hns. apply layer_rep_frame.
  intros a Ha. apply Hag. by eapply elem_of_concat.
Qed.

Lemma leaves_single h a l : h !! a = Some (NLeaf l) -> leaves h [a] = [a].
Proof.
  intros Ha. unfold leaves. rewrite filter_cons_True; [done|]. unfold is_leaf_at. by rewrite Ha.
Qed.
Lemma linked_single h a l :
  h !! a = Some (NLeaf l) -> prev_ l = 0 -> next_ l = 0 -> linked h 0 (leaves h [a]).
Proof. intros Ha Hp Hn. rewrite (leaves_single h a l Ha). split; [by exists l|done]. Qed.

Lemma table_in_mono (N N' : Layers) s B ns : (N <= N')%nat -> @table_in N s B ns -> @table_in N' s B ns.
Proof. intros Hn [H1 H2 H3 H4 H5]. split; try done. by eapply layer_rep_mono. Qed.
(** A table has as many layers as are needed, and those of a key. *)
Lemma table_rep_in s B ns n : table_rep s B ns -> exists N : Layers, (n <= N)%nat /\ table_in s B ns.
Proof. intros [N H]. exists (max N n). split; [lia|]. eapply table_in_mono; [|exact H]. lia. Qed.
