(* ===== verification/Find.v ===== *)
(** Searching a tree at rest: [reach_leaf] arrives at the one leaf that can
    hold a key, and [find_unlocked] and [get] return what the bindings say.

    The lemmas on reaching a leaf also say how to put a changed leaf back
    ([focus]): they serve the update operations. *)
From Stdlib Require Import Sorted.
From S2P Require Import Prelude Compiler Memory StringSlice Key Ksearch Kpermuter Nodeversion.
From S2P Require Import Stringbag Node Heap Get Tree.

(** * Keys and entries *)
Definition cmp_entry (ka : key) (e : entry) : Z := Key.compare_ikey ka (e_ikey e) (e_keylenx e).

Lemma cmp_entry_mono ka e f : entry_lt e f -> cmp_entry ka e <= 0 -> cmp_entry ka f < 0.
Proof.
  unfold entry_lt, cmp_entry, Key.compare_ikey, compare, e_rank, ikey_size.
  intros Hlt. destruct (Z.eqb_spec (Key.ikey0_ ka) (e_ikey e)) as [He|He].
  - change (0 =? 0) with true. cbv iota.
    destruct (Z.eqb_spec (Key.ikey0_ ka) (e_ikey f)) as [Hf|Hf].
    + change (0 =? 0) with true. cbv iota.
      destruct (Z.ltb_spec 8 (len_ ka)), (Z.leb_spec (e_keylenx e) 8), (Z.leb_spec (e_keylenx f) 8);
        cbn [b2z]; lia.
    + destruct (Z.ltb_spec (Key.ikey0_ ka) (e_ikey f)); [done|lia].
  - destruct (Z.ltb_spec (Key.ikey0_ ka) (e_ikey e)); [|done]. intros _.
    destruct (Z.eqb_spec (Key.ikey0_ ka) (e_ikey f)) as [Hf|Hf]; [lia|].
    destruct (Z.ltb_spec (Key.ikey0_ ka) (e_ikey f)); [done|lia].
Qed.

Lemma cmp_entry_ikey ka e : Key.ikey0_ ka <> e_ikey e -> cmp_entry ka e <> 0.
Proof.
  unfold cmp_entry, Key.compare_ikey, compare. intros Hne.
  destruct (Z.eqb_spec (Key.ikey0_ ka) (e_ikey e)); [done|]. by destruct (Key.ikey0_ ka <? e_ikey e).
Qed.

Lemma length_ikey_bytes i : length (ikey_bytes i) = 8%nat.
Proof. apply length_write_in_net_order. Qed.
Lemma ikey_bytes_bytes i : bytes (ikey_bytes i).
Proof. apply write_in_net_order_bytes. Qed.
Lemma be_value_ikey_bytes i : in_u ikey_bits i -> be_value (ikey_bytes i) = i.
Proof.
  intros Hi. unfold ikey_bytes.
  rewrite <- (take_ge (write_in_net_order 8 i) 8) by (by rewrite length_write_in_net_order).
  rewrite <- read_in_net_order_be;
    [|apply write_in_net_order_bytes|by rewrite length_write_in_net_order].
  rewrite <- (app_nil_r (write_in_net_order 8 i)). by apply read_write_net_order; [constructor|].
Qed.

Lemma be_value_zero l : bytes l -> be_value l = 0 -> l = repeat 0 (length l).
Proof.
  intros Hl. induction Hl as [|b l Hb Hl IH]; [done|].
  rewrite be_value_cons by done. pose proof (be_value_range l Hl). unfold in_u in Hb.
  intros H0. assert (b = 0) by nia. subst b. cbn. f_equal. apply IH. nia.
Qed.

Lemma ikey_bytes_trailing i n :
  in_u ikey_bits i -> 0 <= n <= 8 -> i mod 256 ^ (8 - n) = 0 ->
  ikey_bytes i = pad 8 (take (Z.to_nat n) (ikey_bytes i)).
Proof.
  intros Hi Hn Hm. pose proof (ikey_bytes_bytes i) as Hb. pose proof (length_ikey_bytes i) as Hl.
  rewrite <- (take_drop (Z.to_nat n) (ikey_bytes i)) in Hb. apply bytes_app in Hb as [Hb1 Hb2].
  pose proof (be_value_ikey_bytes i Hi) as Hv.
  rewrite <- (take_drop (Z.to_nat n) (ikey_bytes i)), be_value_app in Hv by done.
  assert (zlength (drop (Z.to_nat n) (ikey_bytes i)) = 8 - n) as Hz
    by (unfold zlength; rewrite length_drop; lia).
  rewrite Hz in Hv. pose proof (be_value_range _ Hb2) as Hr. rewrite Hz in Hr.
  rewrite <- Hv, Z.add_comm, Z.mod_add, Z.mod_small in Hm by lia.
  apply be_value_zero in Hm; [|done].
  rewrite pad_app_zeros, take_take, length_take, Hl.
  rewrite <- (take_drop (Z.to_nat n) (ikey_bytes i)) at 1. f_equal; [f_equal; lia|].
  rewrite Hm, length_drop, Hl. f_equal. lia.
Qed.

Section match_entry.
Context (unaligned : bool) (m : mem) (ka : key) (Hm : mem_bytes m) (Hka : key_wf unaligned m ka).

Lemma key_ikey_bytes : ikey_bytes (Key.ikey0_ ka) = pad 8 (key_bytes m ka).
Proof using Hm Hka.
  destruct Hka as [_ ->]. rewrite make_comparable_be by (done || unfold ikey_size; lia).
  apply (write_net_be_value 8); [by apply bytes_pad, load_bytes|apply length_pad].
Qed.

Lemma key_of_pad i : in_u ikey_bits i -> ikey_bytes i = pad 8 (key_bytes m ka) -> Key.ikey0_ ka = i.
Proof using Hm Hka.
  intros Hi He. rewrite <- (be_value_ikey_bytes i), He, <- key_ikey_bytes by done.
  symmetry. apply be_value_ikey_bytes. by apply (key_wf_range unaligned m).
Qed.

Lemma key_bytes_suffix :
  ikey_size < len_ ka -> key_bytes m ka = ikey_bytes (Key.ikey0_ ka) ++ str_bytes m (Key.suffix ka).
Proof using Hm Hka.
  intros Hl. rewrite key_ikey_bytes, pad_ge by (unfold key_bytes, ikey_size in *; rewrite length_load; lia).
  unfold key_bytes, str_bytes, Key.suffix, ikey_size in *. cbn [str_s str_len].
  rewrite (take_load _ _ _ 8), <- load_app by lia. f_equal. lia.
Qed.

Lemma zlength_key_bytes : zlength (key_bytes m ka) = len_ ka.
Proof using Hka. destruct Hka. by apply zlength_load. Qed.

Lemma cmp_entry_short e :
  entry_ok e -> e_keylenx e <= 8 -> (cmp_entry ka e = 0 <-> key_bytes m ka = entry_key e).
Proof using Hm Hka.
  intros [Hi He] Hs. unfold ksuf_keylenx, layer_keylenx in *.
  destruct He as [(Hn & Hsuf & Hz)|[(? & _)|(? & _)]]; [|lia..].
  unfold entry_key. rewrite Hsuf, app_nil_r, Z.min_l by lia. destruct Hka as [Hlen _]. split.
  - unfold cmp_entry, Key.compare_ikey, compare, ikey_size.
    destruct (Z.eqb_spec (Key.ikey0_ ka) (e_ikey e)) as [Heq|]; [|by destruct (Key.ikey0_ ka <? e_ikey e)].
    change (0 =? 0) with true. cbv iota. destruct (Z.ltb_spec 8 (len_ ka)).
    + destruct (Z.leb_spec (e_keylenx e) 8); [done|lia].
    + intros Hc. rewrite <- Heq, key_ikey_bytes. replace (e_keylenx e) with (len_ ka) by lia.
      rewrite pad_app_zeros. pose proof zlength_key_bytes as Hk. unfold zlength in Hk.
      rewrite take_app_le by (rewrite length_take; lia). rewrite take_take, take_ge by lia. done.
  - intros Hk. pose proof zlength_key_bytes as Hz'. rewrite Hk in Hz'. unfold zlength in Hz'.
    rewrite length_take, length_ikey_bytes in Hz'.
    unfold cmp_entry, Key.compare_ikey. rewrite (key_of_pad (e_ikey e)) by
      (try done; rewrite Hk; by apply ikey_bytes_trailing).
    unfold compare. rewrite Z.eqb_refl. change (0 =? 0) with true. cbv iota. unfold ikey_size.
    destruct (Z.ltb_spec 8 (len_ ka)); lia.
Qed.

Lemma cmp_entry_long e :
  entry_ok e -> 8 < e_keylenx e ->
  (cmp_entry ka e = 0 <-> exists suf, suf <> [] /\ key_bytes m ka = ikey_bytes (e_ikey e) ++ suf) /\
  (cmp_entry ka e = 0 -> ikey_size < len_ ka /\ e_ikey e = Key.ikey0_ ka).
Proof using Hm Hka.
  intros [Hi He] Hs.
  assert (cmp_entry ka e = 0 -> ikey_size < len_ ka /\ e_ikey e = Key.ikey0_ ka) as Hc.
  { unfold cmp_entry, Key.compare_ikey, compare, ikey_size.
    destruct (Z.eqb_spec (Key.ikey0_ ka) (e_ikey e)) as [Heq|]; [|by destruct (Key.ikey0_ ka <? e_ikey e)].
    change (0 =? 0) with true. cbv iota. destruct (Z.ltb_spec 8 (len_ ka)); [done|lia]. }
  split; [|exact Hc]. split.
  - intros H0. destruct (Hc H0) as [Hl ->]. exists (str_bytes m (Key.suffix ka)).
    split; [|by apply key_bytes_suffix]. intros Hn. apply (f_equal length) in Hn.
    unfold str_bytes, Key.suffix, ikey_size in *. cbn in Hn. rewrite length_load in Hn. lia.
  - intros (suf & Hne & Hk). pose proof zlength_key_bytes as Hz. rewrite Hk, zlength_app in Hz.
    unfold zlength in Hz at 1. rewrite length_ikey_bytes in Hz.
    assert (0 < zlength suf) by (destruct suf; [done|rewrite zlength_cons; pose proof (zlength_nonneg suf); lia]).
    unfold cmp_entry, Key.compare_ikey. rewrite (key_of_pad (e_ikey e)); [|done|].
    2: { rewrite Hk, pad_ge, take_app_length' by (rewrite ?length_app, length_ikey_bytes; lia). done. }
    unfold compare, ikey_size. rewrite Z.eqb_refl. change (0 =? 0) with true. cbv iota.
    destruct (Z.ltb_spec 8 (len_ ka)); [|lia]. by destruct (Z.leb_spec (e_keylenx e) 8); [lia|].
Qed.
End match_entry.

(** * Bindings *)
Fixpoint assoc (k : list Z) (B : list (list Z * Z)) : option Z :=
  match B with
  | [] => None
  | (k', v) :: B => if decide (k' = k) then Some v else assoc k B
  end.

Lemma assoc_list_to_map k B : (list_to_map B : gmap (list Z) Z) !! k = assoc k B.
Proof.
  induction B as [|[k' v] B IH]; cbn; [done|]. destruct (decide (k' = k)) as [->|].
  - apply lookup_insert_eq.
  - by rewrite lookup_insert_ne.
Qed.
Lemma assoc_app k B1 B2 :
  assoc k (B1 ++ B2) = match assoc k B1 with Some v => Some v | None => assoc k B2 end.
Proof. induction B1 as [|[k' v] B1 IH]; cbn; [done|]. by destruct (decide (k' = k)). Qed.
Lemma assoc_app_None k B1 B2 : assoc k B1 = None -> assoc k (B1 ++ B2) = assoc k B2.
Proof. intros H. by rewrite assoc_app, H. Qed.
Lemma assoc_prefix p k B :
  assoc (p ++ k) (map (fun kv => (p ++ fst kv, snd kv)) B) = assoc k B.
Proof.
  induction B as [|[k' v] B IH]; cbn; [done|]. rewrite IH.
  destruct (decide (p ++ k' = p ++ k)) as [He|Hne], (decide (k' = k)) as [->|Hne']; try done.
  apply app_inv_head in He. done.
Qed.
Lemma assoc_None k B : assoc k B = None <-> Forall (fun kv => fst kv <> k) B.
Proof.
  induction B as [|[k' v] B IH]; cbn; [by split|]. rewrite Forall_cons. cbn.
  destruct (decide (k' = k)); naive_solver.
Qed.

(** The bindings of an entry, seen from a key. *)
Lemma entry_assoc unaligned m ka L e B ns :
  mem_bytes m -> key_wf unaligned m ka -> entry_ok e -> entry_rep L e (B, ns) ->
  (cmp_entry ka e <> 0 -> assoc (key_bytes m ka) B = None) /\
  (cmp_entry ka e = 0 -> e_keylenx e <= 8 -> assoc (key_bytes m ka) B = Some (e_lv e)) /\
  (cmp_entry ka e = 0 -> e_keylenx e = ksuf_keylenx ->
    assoc (key_bytes m ka) B =
    if decide (e_suf e = str_bytes m (Key.suffix ka)) then Some (e_lv e) else None) /\
  (e_keylenx e = layer_keylenx -> exists B', L (e_lv e) B' ns /\
    Forall (fun kv => fst kv <> []) B' /\ B = map (fun kv => (ikey_bytes (e_ikey e) ++ fst kv, snd kv)) B' /\
    (cmp_entry ka e = 0 -> assoc (key_bytes m ka) B = assoc (str_bytes m (Key.suffix ka)) B')).
Proof.
  intros Hm Hka Hok. unfold entry_rep. cbn [fst snd].
  destruct (Z.eqb_spec (e_keylenx e) layer_keylenx) as [Hl|Hl].
  - intros (B' & HL & Hne & ->).
    destruct (cmp_entry_long unaligned m ka Hm Hka e Hok) as [Hiff Himp];
      [unfold layer_keylenx in Hl; lia|]. split_and!.
    + intros Hc. apply assoc_None, Forall_forall. intros kv (kv' & -> & Hin)%list_elem_of_fmap. cbn.
      intros Hk. apply Hc, Hiff. exists (fst kv'). split; [|by symmetry].
      by apply (proj1 (Forall_forall _ _) Hne).
    + unfold layer_keylenx in Hl. lia.
    + rewrite Hl. done.
    + intros _. exists B'. split_and!; [done..|]. intros Hc. destruct (Himp Hc) as [Hlen He].
      rewrite (key_bytes_suffix unaligned), He by done. apply assoc_prefix.
  - intros [= -> ->]. destruct Hok as [Hi He].
    assert (entry_ok e) as Hok by done. cbn [assoc]. split_and!.
    + intros Hc. destruct (decide (entry_key e = key_bytes m ka)) as [Hk|]; [|done]. destruct Hc.
      destruct He as [(Hn & Hs & _)|[(Hn & _ & Hs)|(Hn & _)]]; [| |done].
      * apply (cmp_entry_short unaligned m ka Hm Hka e Hok); [lia|done].
      * apply (cmp_entry_long unaligned m ka Hm Hka e Hok); [unfold ksuf_keylenx in Hn; lia|].
        exists (e_suf e). split; [intros Hn0; rewrite Hn0 in Hs; unfold zlength in Hs; cbn in Hs; lia|].
        rewrite <- Hk. unfold entry_key. rewrite Hn. change (ksuf_keylenx `min` 8) with 8.
        by rewrite take_ge by (rewrite length_ikey_bytes; lia).
    + intros Hc Hn. destruct (decide (entry_key e = key_bytes m ka)) as [|Hk]; [done|]. destruct Hk.
      symmetry. by apply (cmp_entry_short unaligned m ka Hm Hka e Hok).
    + intros Hc Hn. destruct (cmp_entry_long unaligned m ka Hm Hka e Hok) as [_ Himp];
        [unfold ksuf_keylenx in Hn; lia|]. destruct (Himp Hc) as [Hlen Hie].
      rewrite (key_bytes_suffix unaligned m ka Hm Hka Hlen). unfold entry_key.
      rewrite Hn. change (ksuf_keylenx `min` 8) with 8.
      rewrite take_ge by (rewrite length_ikey_bytes; lia). rewrite Hie.
      destruct (decide (_ ++ e_suf e = _)) as [He1|He1], (decide (e_suf e = _)) as [He2|He2]; try done.
      * apply app_inv_head in He1. done.
      * by rewrite He2 in He1.
    + done.
Qed.

(** * Searching a leaf *)
Lemma SS_zlookup es i j e f :
  StronglySorted entry_lt es ->
  0 <= i < j -> zlookup es i = Some e -> zlookup es j = Some f -> entry_lt e f.
Proof.
  intros Hs. revert i j.
  induction Hs as [|x es Hs IH Hx]; intros i j Hij He Hf.
  - apply zlookup_lt in He. unfold zlength in He. cbn in He. lia.
  - unfold zlookup in *. destruct (Z.ltb_spec i 0), (Z.ltb_spec j 0); try lia.
    destruct (Z.to_nat j) as [|j'] eqn:Ej; [lia|]. cbn in Hf.
    destruct (Z.to_nat i) as [|i'] eqn:Ei.
    + injection He as <-. by apply (proj1 (Forall_lookup _ _) Hx j').
    + cbn in He. apply (IH (i - 1) (j - 1)); [lia|..].
      * destruct (Z.ltb_spec (i - 1) 0); [lia|]. by replace (Z.to_nat (i - 1)) with i' by lia.
      * destruct (Z.ltb_spec (j - 1) 0); [lia|]. by replace (Z.to_nat (j - 1)) with j' by lia.
Qed.

Section leaf_lower.
Context (l : leaf) (live free : list Z) (es : list entry) (Hl : leaf_entries l live free es).

Lemma leaf_size : Leaf.size l = zlength live.
Proof using Hl. apply (repr_size _ _ _ _ (le_repr _ _ _ _ Hl)). Qed.

Lemma leaf_index i p :
  zlookup live i = Some p -> Kpermuter.index (permutation_ l) i = p /\ 0 <= p < leaf_width.
Proof using Hl.
  intros Hp. pose proof (le_repr _ _ _ _ Hl) as Hr. pose proof (zlookup_lt _ _ _ Hp) as Hi.
  pose proof (repr_index leaf_width ltac:(done) _ _ _ i Hr Hi) as He.
  split; [congruence|]. apply (repr_range leaf_width _ _ _ p Hr).
  apply elem_of_app. left. unfold zlookup in Hp. destruct (i <? 0); [done|].
  by eapply list_elem_of_lookup_2.
Qed.

Lemma leaf_compare_key ka p : Leaf.compare_key l ka p = cmp_entry ka (slot_entry l p).
Proof using Type. done. Qed.

Lemma sorted_zlookup i j e f :
  0 <= i < j -> zlookup es i = Some e -> zlookup es j = Some f -> entry_lt e f.
Proof using Hl. apply SS_zlookup, Hl. Qed.

Lemma leaf_slot i p : zlookup live i = Some p -> zlookup es i = Some (slot_entry l p).
Proof using Hl. intros Hp. rewrite (le_es _ _ _ _ Hl), map_zlookup, Hp. done. Qed.

Lemma leaf_sorted_for ka :
  sorted_for (Leaf.size l) (Kpermuter.index (permutation_ l)) (Leaf.compare_key l ka).
Proof using Hl.
  intros i j Hi Hj. rewrite leaf_size in Hj.
  destruct (zlookup_Some live i) as [p Hp]; [lia|]. destruct (zlookup_Some live j) as [q Hq]; [lia|].
  rewrite (proj1 (leaf_index i p Hp)), (proj1 (leaf_index j q Hq)), !leaf_compare_key.
  apply cmp_entry_mono. eapply (sorted_zlookup i j); eauto using leaf_slot.
Qed.

Definition above (ka : key) (ps : list Z) : Prop := Forall (fun p => 0 < cmp_entry ka (slot_entry l p)) ps.
Definition below (ka : key) (ps : list Z) : Prop := Forall (fun p => cmp_entry ka (slot_entry l p) < 0) ps.

(** The search splits the live slots at the key. *)
Lemma leaf_lower_spec ka :
  let kx := Leaf.lower ka l in
  (kip_p kx = -1 /\ exists l1 l2, live = l1 ++ l2 /\ zlength l1 = kip_i kx /\ above ka l1 /\ below ka l2) \/
  (0 <= kip_p kx < leaf_width /\ cmp_entry ka (slot_entry l (kip_p kx)) = 0 /\
   exists l1 l2, live = l1 ++ kip_p kx :: l2 /\ zlength l1 = kip_i kx /\ above ka l1 /\ below ka l2).
Proof using Hl.
  cbv zeta. pose proof (zlength_nonneg live). pose proof leaf_size as Hsz.
  assert (is_lower (Leaf.size l) (Kpermuter.index (permutation_ l)) (Leaf.compare_key l ka)
    (Leaf.lower ka l)) as (H1 & H2 & H3).
  { unfold Leaf.lower, bound_lower_by. destruct (is_binary leaf_width bound_method_);
      apply lower_methods; try apply leaf_sorted_for; lia. }
  set (kx := Leaf.lower ka l) in *. rewrite Hsz in *.
  assert (forall i p, zlookup live i = Some p ->
    Leaf.compare_key l ka (Kpermuter.index (permutation_ l) i) = cmp_entry ka (slot_entry l p)) as Hc.
  { intros i p Hp. by rewrite (proj1 (leaf_index i p Hp)). }
  destruct H3 as [[Hp H3]|(Hi & Hp & Hz & H3)].
  - left. split; [done|]. exists (take (Z.to_nat (kip_i kx)) live), (drop (Z.to_nat (kip_i kx)) live).
    split; [by rewrite take_drop|]. split; [unfold zlength in *; rewrite length_take; lia|].
    split; apply Forall_zlookup; intros j p Hj.
    + pose proof (zlookup_lt _ _ _ Hj) as Hr. unfold zlength in Hr. rewrite length_take in Hr.
      rewrite zlookup_nonneg, lookup_take_lt, <- zlookup_nonneg in Hj by lia.
      rewrite <- (Hc j p Hj). apply H2. lia.
    + pose proof (zlookup_lt _ _ _ Hj) as Hr. unfold zlength in Hr. rewrite length_drop in Hr.
      rewrite zlookup_nonneg, lookup_drop in Hj by lia.
      rewrite <- (Hc (kip_i kx + j) p); [apply H3; unfold zlength; lia|].
      rewrite zlookup_nonneg by lia. rewrite <- Hj. f_equal. lia.
  - right. destruct (zlookup_Some live (kip_i kx)) as [p Hlp]; [lia|].
    destruct (leaf_index _ _ Hlp) as [Hpi Hpr]. rewrite Hpi in Hp. rewrite Hp.
    split; [done|]. split; [by rewrite <- (Hc _ _ Hlp), Hpi, <- Hp|].
    destruct (zlookup_Some_split _ _ _ Hlp) as (l1 & l2 & He & Hl1). exists l1, l2.
    split_and!; [done..| |]; apply Forall_zlookup; intros j q Hj; pose proof (zlookup_lt _ _ _ Hj).
    + rewrite <- (Hc j q); [apply H2; lia|]. by rewrite He, zlookup_app_l by lia.
    + rewrite <- (Hc (kip_i kx + 1 + j) q).
      * apply H3. rewrite He, zlength_app, zlength_cons. lia.
      * rewrite He, zlookup_app_r by lia. unfold zlookup in *.
        destruct (Z.ltb_spec (kip_i kx + 1 + j - zlength l1) 0), (Z.ltb_spec j 0); try lia.
        replace (Z.to_nat (kip_i kx + 1 + j - zlength l1)) with (S (Z.to_nat j)) by lia. done.
Qed.
End leaf_lower.

(** * Searching an internode *)
(** The child that is responsible for the slice [x]. *)
Fixpoint select (c0 : Z) (kcs : list (Z * Z)) (x : Z) : Z :=
  match kcs with
  | [] => c0
  | (k, c) :: rest => if k <=? x then select c rest x else c0
  end.
(** The number of keys that are at most [x], up to the first larger one. *)
Fixpoint count_le (kcs : list (Z * Z)) (x : Z) : Z :=
  match kcs with
  | [] => 0
  | (k, _) :: rest => if k <=? x then 1 + count_le rest x else 0
  end.
Fixpoint keys_sorted (kcs : list (Z * Z)) : Prop :=
  match kcs with
  | [] => True
  | (k, _) :: rest => Forall (fun kc => k < fst kc) rest /\ keys_sorted rest
  end.

Lemma count_le_range kcs x : 0 <= count_le kcs x <= zlength kcs.
Proof.
  induction kcs as [|[k c] kcs IH]; cbn [count_le]; [done|]. rewrite zlength_cons.
  destruct (k <=? x); lia.
Qed.

Lemma count_le_spec kcs x j kc :
  keys_sorted kcs -> zlookup kcs j = Some kc ->
  if j <? count_le kcs x then fst kc <= x else x < fst kc.
Proof.
  revert j. induction kcs as [|[k c] kcs IH]; intros j Hs Hj.
  { apply zlookup_lt in Hj. unfold zlength in Hj. cbn in Hj. lia. }
  destruct Hs as [Hk Hs]. cbn [count_le]. pose proof (zlookup_lt _ _ _ Hj) as Hr.
  destruct (Z.eq_dec j 0) as [->|Hj0].
  - injection Hj as <-. cbn. pose proof (count_le_range kcs x).
    destruct (Z.leb_spec k x); [destruct (Z.ltb_spec 0 (1 + count_le kcs x)); lia|]. cbn. lia.
  - assert (zlookup kcs (j - 1) = Some kc) as Hj'.
    { rewrite zlookup_nonneg in Hj by lia. replace (Z.to_nat j) with (S (Z.to_nat (j - 1))) in Hj by lia.
      rewrite zlookup_nonneg by lia. done. }
    specialize (IH _ Hs Hj'). destruct (Z.leb_spec k x).
    + destruct (Z.ltb_spec (j - 1) (count_le kcs x)), (Z.ltb_spec j (1 + count_le kcs x)); lia.
    + destruct (Z.ltb_spec j 0); [lia|]. apply (Forall_zlookup _ _) with (i := j - 1) (x := kc) in Hk; [lia|done].
Qed.

Lemma keys_sorted_lt kcs a b ka kb :
  keys_sorted kcs -> 0 <= a < b -> zlookup kcs a = Some ka -> zlookup kcs b = Some kb ->
  fst ka < fst kb.
Proof.
  revert a b. induction kcs as [|[k c] kcs IH]; intros a b Hs Hab Ha Hb.
  { apply zlookup_lt in Ha. unfold zlength in Ha. cbn in Ha. lia. }
  destruct Hs as [Hk Hs].
  assert (forall j kc, 0 < j -> zlookup ((k, c) :: kcs) j = Some kc -> zlookup kcs (j - 1) = Some kc) as Ht.
  { intros j kc Hj Hl. rewrite zlookup_nonneg in * by lia.
    by replace (Z.to_nat j) with (S (Z.to_nat (j - 1))) in Hl by lia. }
  apply Ht in Hb; [|lia]. destruct (Z.eq_dec a 0) as [->|Ha0].
  - injection Ha as <-. by apply (proj1 (Forall_zlookup _ _) Hk (b - 1)).
  - apply Ht in Ha; [|lia]. apply (IH (a - 1) (b - 1)); done || lia.
Qed.

Lemma rd_cons x l i : 0 < i -> rd (x :: l) i = rd l (i - 1).
Proof.
  intros. unfold rd. by rewrite zlookup_cons by lia.
Qed.

Lemma select_count c0 kcs x : rd (c0 :: map snd kcs) (count_le kcs x) = select c0 kcs x.
Proof.
  revert c0. induction kcs as [|[k c] kcs IH]; intros c0; [done|].
  cbn [count_le select map snd]. destruct (k <=? x); [|done]. rewrite <- IH.
  pose proof (count_le_range kcs x). unfold rd. rewrite !zlookup_nonneg by lia.
  by replace (Z.to_nat (1 + count_le kcs x)) with (S (Z.to_nat (count_le kcs x))) by lia.
Qed.

Lemma siblings_sorted R kcs hi es ns :
  siblings_rep R kcs hi es ns -> keys_sorted kcs /\ Forall (fun kc => fst kc < hi) kcs.
Proof.
  revert es ns. induction kcs as [|[k c] kcs IH]; intros es ns; cbn [siblings_rep keys_sorted]; [done|].
  intros (es1 & es2 & ns1 & ns2 & _ & _ & Hk & _ & _ & Hr). destruct (IH _ _ Hr) as [H1 H2].
  assert (Forall (fun kc => k < fst kc) kcs) as Hall.
  { destruct kcs as [|[k' c'] kcs]; [done|]. cbn in Hk. constructor; [done|].
    destruct H1 as [H1 _]. eapply Forall_impl; [exact H1|]. cbn. lia. }
  split_and!; [done..|]. constructor; [|done]. destruct kcs as [|[k' c'] kcs]; [done|].
  cbn in Hk. inversion H2; subst. cbn in *. lia.
Qed.

Section internode_upper.
Context (par : Z) (i : internode) (Hi : internode_ok par i).

Lemma zlength_separators : zlength (separators i) = nkeys_ i.
Proof using Hi.
  destruct (io_nkeys _ _ Hi) as [H1 H2]. pose proof (io_ikey0 _ _ Hi). pose proof (io_child _ _ Hi).
  unfold separators, zlength, internode_width in *. rewrite length_zip, length_take, length_drop. lia.
Qed.

Lemma separators_lookup j k c :
  zlookup (separators i) j = Some (k, c) <->
  0 <= j < nkeys_ i /\ zlookup (iikey0_ i) j = Some k /\ zlookup (child_ i) (j + 1) = Some c.
Proof using Hi.
  split.
  - intros Hj. pose proof (zlookup_lt _ _ _ Hj) as Hr. rewrite zlength_separators in Hr.
    unfold separators in Hj. rewrite zlookup_nonneg in Hj by lia.
    apply lookup_zip_Some in Hj as [Hk Hc]. rewrite lookup_take_lt in Hk by lia.
    rewrite lookup_drop in Hc. rewrite !zlookup_nonneg by lia.
    split_and!; [lia|lia|done|]. rewrite <- Hc. f_equal. lia.
  - intros (Hr & Hk & Hc). unfold separators. rewrite !zlookup_nonneg in * by lia.
    apply lookup_zip_Some. rewrite lookup_take_lt, lookup_drop by lia. split; [done|].
    rewrite <- Hc. f_equal. lia.
Qed.

Lemma internode_key_at j : 0 <= j < nkeys_ i ->
  exists kc, zlookup (separators i) j = Some kc /\ Internode.ikey i j = fst kc.
Proof using Hi.
  intros Hj. destruct (zlookup_Some (separators i) j) as [[k c] Hkc]; [rewrite zlength_separators; lia|].
  exists (k, c). split; [done|]. apply separators_lookup in Hkc as (_ & Hk & _).
  unfold Internode.ikey, rd. by rewrite Hk.
Qed.

Lemma compare_sign a b : (compare a b < 0 <-> a < b) /\ (0 <= compare a b <-> b <= a) /\ (compare a b <= 0 <-> a <= b).
Proof using Type. unfold compare. destruct (Z.eqb_spec a b); [lia|]. destruct (Z.ltb_spec a b); lia. Qed.

Lemma upper_count x comparator :
  keys_sorted (separators i) ->
  (forall j, 0 <= j < nkeys_ i -> comparator j = compare x (Internode.ikey i j)) ->
  bound_upper internode_width bound_method_ (nkeys_ i) id comparator = count_le (separators i) x.
Proof using Hi.
  intros Hs Hc. pose proof (io_nkeys _ _ Hi) as [Hn _].
  apply (is_upper_unique (nkeys_ i) id comparator).
  - assert (sorted_for (nkeys_ i) id comparator) as Hsf.
    { intros a b Ha Hb. unfold id. rewrite !Hc by lia.
      destruct (internode_key_at a) as (ka & Hka & ->); [lia|].
      destruct (internode_key_at b) as (kb & Hkb & ->); [lia|].
      pose proof (keys_sorted_lt _ a b ka kb Hs ltac:(lia) Hka Hkb).
      pose proof (compare_sign x (fst ka)). pose proof (compare_sign x (fst kb)). lia. }
    unfold bound_upper. destruct (is_binary internode_width bound_method_);
      apply upper_methods; unfold id; done || lia.
  - pose proof (count_le_range (separators i) x) as Hr. rewrite zlength_separators in Hr.
    split_and!; [lia|lia| |]; intros j Hj; unfold id; rewrite Hc by lia;
      destruct (internode_key_at j) as (kc & Hkc & ->); try lia;
      pose proof (count_le_spec _ x j kc Hs Hkc) as Hkx; pose proof (compare_sign x (fst kc));
      destruct (Z.ltb_spec j (count_le (separators i) x)); lia.
Qed.

Lemma upper_select x comparator :
  keys_sorted (separators i) ->
  (forall j, 0 <= j < nkeys_ i -> comparator j = compare x (Internode.ikey i j)) ->
  rd (child_ i) (bound_upper internode_width bound_method_ (nkeys_ i) id comparator) =
  select (rd (child_ i) 0) (separators i) x.
Proof using Hi.
  intros Hs Hc. rewrite (upper_count x) by done. rewrite <- select_count.
  pose proof (count_le_range (separators i) x) as Hr. rewrite zlength_separators in Hr.
  set (u := count_le (separators i) x) in *. destruct (Z.eq_dec u 0) as [->|Hu]; [done|].
  rewrite rd_cons by lia.
  destruct (zlookup_Some (separators i) (u - 1)) as [[k c] Hkc]; [rewrite zlength_separators; lia|].
  unfold rd. rewrite map_zlookup, Hkc. apply separators_lookup in Hkc as (_ & _ & Hch).
  replace (u - 1 + 1) with u in Hch by lia. by rewrite Hch.
Qed.
End internode_upper.

(** * Reaching a leaf *)
Definition in_range (lo hi : Z) (es : list entry) : Prop := Forall (fun e => lo <= e_ikey e < hi) es.

Lemma in_range_weaken lo hi lo' hi' es : lo' <= lo -> hi <= hi' -> in_range lo hi es -> in_range lo' hi' es.
Proof. intros H1 H2 H. eapply Forall_impl; [exact H|]. cbn. lia. Qed.

Section children.
Context (R : Z -> Z -> Z -> list entry -> list Z -> Prop)
  (HR : forall c lo hi es ns, R c lo hi es ns -> in_range lo hi es).

Lemma siblings_range kcs hi es ns :
  siblings_rep R kcs hi es ns -> in_range (next_key kcs hi) hi es /\ (next_key kcs hi <= hi).
Proof using HR.
  revert es ns. induction kcs as [|[k c] kcs IH]; intros es ns; cbn [siblings_rep next_key].
  - intros [-> _]. split; [constructor|lia].
  - intros (es1 & es2 & ns1 & ns2 & -> & _ & Hk & _ & H1 & H2). destruct (IH _ _ H2) as [Hr Hle].
    split; [|lia]. apply Forall_app. split.
    + eapply in_range_weaken; [..|by eapply HR]; lia.
    + eapply in_range_weaken; [..|exact Hr]; lia.
Qed.

Lemma children_range lo c0 kcs hi es ns : children_rep R lo c0 kcs hi es ns -> in_range lo hi es.
Proof using HR.
  intros (es1 & es2 & ns1 & ns2 & -> & _ & H1 & H2). destruct (siblings_range _ _ _ _ H2) as [Hr Hle].
  destruct H1 as [(_ & -> & -> & _)|(_ & Hlt & H1)]; [done|]. apply Forall_app. split.
  - eapply in_range_weaken; [..|by eapply HR]; lia.
  - eapply in_range_weaken; [..|exact Hr]; lia.
Qed.

(** The children left of one whose range starts at [k], with their lower
    bounds. *)
Definition left_rep (K : list (Z * Z)) (k : Z) (es : list entry) (ns : list Z) : Prop :=
  match K with
  | [] => es = [] /\ ns = []
  | (lo, c0) :: kcs => children_rep R lo c0 kcs k es ns
  end.

(** The selected child, and what it takes to put another one in its place. *)
Lemma children_select lo c0 kcs hi es ns x :
  children_rep R lo c0 kcs hi es ns -> lo <= x < hi ->
  exists clo chi esc nsc es1 es2 ns1 ns2,
    let c := select c0 kcs x in
    (exists K1 K2, (lo, c0) :: kcs = K1 ++ (clo, c) :: K2 /\ chi = next_key K2 hi /\
      left_rep K1 clo es1 ns1 /\ siblings_rep R K2 hi es2 ns2) /\
    c <> 0 /\ clo <= x < chi /\ lo <= clo /\ chi <= hi /\ R c clo chi esc nsc /\
    es = es1 ++ esc ++ es2 /\ ns = ns1 ++ nsc ++ ns2 /\
    Forall (fun e => e_ikey e < clo) es1 /\ Forall (fun e => chi <= e_ikey e) es2 /\
    (forall (R' : Z -> Z -> Z -> list entry -> list Z -> Prop) esc', R' c clo chi esc' nsc ->
      (forall c' lo' hi' es' ns', R c' lo' hi' es' ns' ->
        (forall a, a ∈ ns' -> a ∈ ns1 ++ ns2) -> R' c' lo' hi' es' ns') ->
      children_rep R' lo c0 kcs hi (es1 ++ esc' ++ es2) ns).
Proof using HR.
  revert lo c0 es ns. induction kcs as [|[k c] kcs IH]; intros lo c0 es ns Hc Hx;
    destruct Hc as (es1 & es2 & ns1 & ns2 & -> & -> & H1 & H2); cbn [next_key select] in *.
  - destruct H2 as [-> ->]. destruct H1 as [(_ & -> & _)|(Hc & Hlt & H1)]; [lia|].
    exists lo, hi, es1, ns1, [], [], [], []. cbv zeta. split; [by exists [], []|]. split_and!; try done; try lia.
    intros R' esc' H' _. exists esc', [], ns1, []. split_and!; try done. by right.
  - destruct (Z.leb_spec k x).
    + pose proof (siblings_range _ _ _ _ H2) as [_ Hkh]. cbn [siblings_rep next_key] in H2, Hkh.
      destruct H2 as (es3 & es4 & ns3 & ns4 & -> & -> & Hk & Hc & H3 & H4).
      destruct (IH k c (es3 ++ es4) (ns3 ++ ns4)) as
        (clo & chi & esc & nsc & es5 & es6 & ns5 & ns6 & (K1 & K2 & HK & Hchi & HL & HR2) & Hs & Hcx & Hlo & Hhi & HRc & Hes & Hns & Hl5 & Hl6 & Hf);
        [|lia|].
      { exists es3, es4, ns3, ns4. split_and!; try done. by right. }
      assert (lo <= k /\ in_range lo k es1) as [Hlk Hr1].
      { destruct H1 as [(_ & -> & -> & _)|(_ & ? & H1)]; [split; [lia|constructor]|]. split; [lia|by eapply HR]. }
      exists clo, chi, esc, nsc, (es1 ++ es5), es6, (ns1 ++ ns5), ns6. cbv zeta.
      split.
      { exists ((lo, c0) :: K1), K2. split_and!; [by rewrite HK|done| |done]. destruct K1 as [|[k' c'] K1].
        - injection HK as Hk1 _ _. destruct HL as [-> ->]. rewrite <- Hk1. exists es1, [], ns1, []. by rewrite !app_nil_r.
        - injection HK as <- <- HK. destruct HL as (e1 & e2 & n1 & n2 & -> & -> & [(? & _)|(_ & Hk' & Hc1)] & Hsib); [done|].
          exists es1, (e1 ++ e2), ns1, (n1 ++ n2). split_and!; try done. exists e1, e2, n1, n2. by split_and!. }
      rewrite Hes, Hns, <- !app_assoc. split_and!; try done; try lia.
      * apply Forall_app. split; [|done]. eapply Forall_impl; [exact Hr1|]. cbn. lia.
      * intros R' esc' H' Ho.
        destruct (Hf R' esc' H') as (e1 & e2 & n1 & n2 & He & Hn & H5 & H6).
        { intros c' lo' hi' es' ns' HR' Hsub. eapply Ho; [exact HR'|]. intros b Hb.
          apply Hsub in Hb. rewrite !elem_of_app in *. tauto. }
        rewrite <- !app_assoc, He, <- Hns, Hn.
        exists es1, (e1 ++ e2), ns1, (n1 ++ n2). split_and!; try done.
        -- destruct H1 as [H1|(H1c & H1l & H1)]; [by left|right]. split_and!; try done.
           eapply Ho; [exact H1|]. intros b Hb. rewrite !elem_of_app. by left.
        -- cbn [siblings_rep]. destruct H5 as [(-> & _)|(_ & _ & H5)]; [done|].
           exists e1, e2, n1, n2. by split_and!.
    + destruct H1 as [(_ & -> & _)|(Hc & Hlt & H1)]; [lia|].
      destruct (siblings_range _ _ _ _ H2) as [Hr2 Hle]. cbn [next_key] in *.
      exists lo, k, es1, ns1, [], es2, [], ns2. cbv zeta. split; [by exists [], ((k, c) :: kcs)|].
      split_and!; try done; try lia.
      * eapply Forall_impl; [exact Hr2|]. cbn. lia.
      * intros R' esc' H' Ho. exists esc', es2, ns1, ns2. split_and!; try done; [by right|].
        eapply siblings_rep_mono; [|exact H2]. cbn beta. intros c' lo' hi' es' ns' Hsub HRc.
        eapply Ho; [exact HRc|]. done.
Qed.
End children.

Lemma node_range d h par a lo hi es ns : node_rep d h par a lo hi es ns -> in_range lo hi es.
Proof.
  revert par a lo hi es ns. induction d as [|d IH]; intros par a lo hi es ns; cbn [node_rep]; [done|].
  intros [(l & _ & _ & Hok)|(i & ns' & _ & _ & _ & Hc)]; [apply Hok|].
  eapply children_range; [|exact Hc]. intros. by eapply IH.
Qed.

Lemma node_addr d h par a lo hi es ns : node_rep d h par a lo hi es ns -> a ∈ ns.
Proof.
  destruct d as [|d]; cbn [node_rep]; [done|].
  intros [(l & _ & -> & _)|(i & ns' & _ & -> & _)]; by apply elem_of_cons; left.
Qed.

(** ** Reading versions *)
Lemma quiet_bits v :
  quiet v -> Nodeversion.locked NV v = false /\ has_bits v (dirty_mask NV) = false /\
  Nodeversion.deleted NV v = false.
Proof.
  intros [_ Hq]. unfold Nodeversion.locked, Nodeversion.deleted, has_bits.
  assert (forall b, Z.land quiet_mask b = b ->
    negb (Z.land v b =? 0) = false) as Hb.
  { intros b Hb. rewrite <- Hb, Z.land_assoc, Hq. done. }
  split_and!; by apply Hb.
Qed.

Lemma has_changed_refl v : Nodeversion.has_changed NV v v = false.
Proof. unfold Nodeversion.has_changed. by rewrite Z.lxor_nilpotent. Qed.

Lemma get_node_eq s a n : heap s !! a = Some n -> get_node a s = Some (n, s).
Proof. intros H. unfold get_node. by rewrite H. Qed.
Lemma get_leaf_eq s a l : heap s !! a = Some (NLeaf l) -> get_leaf a s = Some (l, s).
Proof. intros H. unfold get_leaf, bind. by rewrite (get_node_eq _ _ _ H). Qed.
Lemma get_internode_eq s a i : heap s !! a = Some (NInternode i) -> get_internode a s = Some (i, s).
Proof. intros H. unfold get_internode, bind. by rewrite (get_node_eq _ _ _ H). Qed.
Lemma version_eq s a n : heap s !! a = Some n -> version a s = Some (node_version n, s).
Proof. intros H. unfold version, bind. by rewrite (get_node_eq _ _ _ H). Qed.
Lemma stable_eq s a n :
  heap s !! a = Some n -> quiet (node_version n) -> stable a s = Some (node_version n, s).
Proof.
  intros H Hq. unfold stable, bind. rewrite (version_eq _ _ _ H).
  destruct (quiet_bits _ Hq) as (_ & Hd & _). cbn [Nodeversion.stable]. by rewrite Hd.
Qed.
Lemma maybe_parent_eq s a n :
  heap s !! a = Some n -> maybe_parent a s = Some (if node_parent n =? 0 then a else node_parent n, s).
Proof.
  intros H. unfold maybe_parent, parent, bind. rewrite (get_node_eq _ _ _ H). cbn.
  unfold parent_exists, ret. by destruct (node_parent n =? 0).
Qed.

Lemma reach_root_spec s ns a r :
  climbs (heap s) ns a r ->
  exists F n, heap s !! r = Some n /\ Nodeversion.is_root NV (node_version n) = true /\
    quiet (node_version n) /\ r ∈ ns /\
    forall fuel, (F <= fuel)%nat -> reach_root fuel a s = Some ((r, node_version n), s).
Proof.
  assert (forall r n, heap s !! r = Some n -> quiet (node_version n) -> Nodeversion.is_root NV (node_version n) = true ->
    forall fuel, reach_root (S fuel) r s = Some ((r, node_version n), s)) as Htop.
  { intros r' n Hr Hq Hroot fuel. cbn [reach_root]. unfold bind. by rewrite (stable_eq _ _ _ Hr Hq), Hroot. }
  intros [r' n Hin Hr Hq Hroot|c n m Hin Ha Hq Hroot Hp Hr Hm Hqm Hrm].
  - exists 1%nat, n. split_and!; try done. intros [|fuel] Hf; [lia|]. by apply Htop.
  - exists 2%nat, m. split_and!; try done.
    intros [|[|fuel]] Hf; [lia..|]. cbn [reach_root]. unfold bind at 1 2.
    rewrite (stable_eq _ _ _ Ha Hq), Hroot, (maybe_parent_eq _ _ _ Ha).
    destruct (Z.eqb_spec (node_parent n) 0); [done|]. by apply (Htop _ _ Hm).
Qed.

(** ** Going down *)
(** The way from the node [a] down to the leaf [b], and what lies left and
    right of it: [es1], [es2] in the nodes [ns1], [ns2]. *)
Inductive path (h : gmap Z node) (b parb lob hib : Z) :
    nat -> Z -> Z -> Z -> Z -> list entry -> list entry -> list Z -> list Z -> Prop :=
  | path_here d : path h b parb lob hib (S d) parb b lob hib [] [] [] []
  | path_down d par a lo hi i K1 k c K2 es1 es2 ns1 ns2 el er nl nr :
      h !! a = Some (NInternode i) -> internode_ok par i ->
      (lo, rd (child_ i) 0) :: separators i = K1 ++ (k, c) :: K2 -> c <> 0 -> k < next_key K2 hi ->
      left_rep (node_rep d h a) K1 k el nl -> siblings_rep (node_rep d h a) K2 hi er nr ->
      path h b parb lob hib d a c k (next_key K2 hi) es1 es2 ns1 ns2 ->
      path h b parb lob hib (S d) par a lo hi (el ++ es1) (es2 ++ er) (a :: nl ++ ns1) (ns2 ++ nr).

Lemma left_rep_mono (R R' : Z -> Z -> Z -> list entry -> list Z -> Prop) K k es ns :
  (forall c lo hi es ns', (forall a, a ∈ ns' -> a ∈ ns) -> R c lo hi es ns' -> R' c lo hi es ns') ->
  left_rep R K k es ns -> left_rep R' K k es ns.
Proof. intros HR. destruct K as [|[lo c0] K]; [done|]. by apply children_rep_mono. Qed.

Lemma path_frame h h' b parb lob hib d par a lo hi es1 es2 ns1 ns2 :
  agree h h' (ns1 ++ ns2) -> path h b parb lob hib d par a lo hi es1 es2 ns1 ns2 ->
  path h' b parb lob hib d par a lo hi es1 es2 ns1 ns2.
Proof.
  intros Hag Hp. revert Hag. induction Hp as [|d par a lo hi i K1 k c K2 es1 es2 ns1 ns2 el er nl nr Hi Hok HK Hc Hk HL HR _ IH];
    intros Hag; [constructor|].
  rewrite !agree_app, agree_cons, agree_app in Hag. destruct Hag as ((Ha & Hal & Ha1) & Ha2 & Har).
  econstructor; try done; [by rewrite Ha| | |by apply IH, agree_app].
  - eapply left_rep_mono; [|exact HL]. intros ????? Hs. apply node_rep_frame. intros x Hx. by apply Hal, Hs.
  - eapply siblings_rep_mono; [|exact HR]. intros ????? Hs. apply node_rep_frame. intros x Hx. by apply Har, Hs.
Qed.

(** [b] is the leaf of the tree that is responsible for the slice [x]: what
    the other leaves hold lies below or above its range, and replacing its
    content keeps the tree. *)
Record focus (d : nat) (h : gmap Z node) (par a lo hi : Z) (es : list entry) (ns : list Z) (x b : Z)
    (l : leaf) (par' lo' hi' : Z) (es1 esb es2 : list entry) : Prop := {
  fc_leaf : h !! b = Some (NLeaf l);
  fc_in : b ∈ ns;
  fc_ok : leaf_ok par' lo' hi' l esb;
  fc_range : lo' <= x < hi';
  fc_nested : lo <= lo' /\ hi' <= hi;
  fc_es : es = es1 ++ esb ++ es2;
  fc_es1 : Forall (fun e => e_ikey e < lo') es1;
  fc_es2 : Forall (fun e => hi' <= e_ikey e) es2;
  fc_replace : NoDup ns -> forall h' l' esb', (forall c, c ∈ ns -> c <> b -> h' !! c = h !! c) ->
    h' !! b = Some (NLeaf l') -> leaf_ok par' lo' hi' l' esb' ->
    node_rep d h' par a lo hi (es1 ++ esb' ++ es2) ns;
  fc_path : NoDup ns -> exists ns1 ns2, ns = ns1 ++ b :: ns2 /\ path h b par' lo' hi' d par a lo hi es1 es2 ns1 ns2 }.

Lemma reach_down_spec d s par a lo hi es ns ka n :
  node_rep d (heap s) par a lo hi es ns -> lo <= Key.ikey0_ ka < hi -> heap s !! a = Some n ->
  exists b l par' lo' hi' es1 esb es2,
    focus d (heap s) par a lo hi es ns (Key.ikey0_ ka) b l par' lo' hi' es1 esb es2 /\
    forall fuel, (d <= fuel)%nat ->
      reach_down fuel ka a (node_version n) s = Some (Some (b, lversion l), s).
Proof.
  revert par a lo hi es ns n. induction d as [|d IH]; intros par a lo hi es ns n Hrep Hx Hn;
    cbn [node_rep] in Hrep; [done|].
  destruct Hrep as [(l & Hl & -> & Hok)|(i & ns' & Hi & -> & Hio & Hc)].
  - rewrite Hl in Hn. injection Hn as <-. exists a, l, par, lo, hi, [], es, []. split.
    + split; try done; [by apply elem_of_cons; left|by rewrite app_nil_r| |].
      * intros _ h' l' esb' _ Hl' Hok'. cbn [node_rep app]. rewrite app_nil_r. left. by exists l'.
      * intros _. exists [], []. split; [done|constructor].
    + intros [|fuel] Hf; [lia|]. cbn [reach_down node_version]. by rewrite (lo_isleaf _ _ _ _ _ Hok).
  - rewrite Hi in Hn. injection Hn as <-.
    destruct (children_select (node_rep d (heap s) a) (fun c lo hi es ns => node_range d (heap s) a c lo hi es ns)
      _ _ _ _ _ _ (Key.ikey0_ ka) Hc Hx) as
      (clo & chi & esc & nsc & es1 & es2 & ns1 & ns2 & (K1 & K2 & HK & Hchi & HL & HR2) & Hc0 & Hcx & Hlo & Hhi & Hrep & -> & -> & H1 & H2 & Hput).
    set (c := select (rd (child_ i) 0) (separators i) (Key.ikey0_ ka)) in *.
    assert (exists nc, heap s !! c = Some nc /\ quiet (node_version nc)) as (nc & Hnc & Hq).
    { destruct d as [|d']; [done|]. cbn [node_rep] in Hrep.
      destruct Hrep as [(l & Hl & _ & Hok)|(i' & ? & Hi' & _ & Hok & _)]; eexists; (split; [done|]); apply Hok. }
    destruct (IH a c clo chi esc nsc nc Hrep Hcx Hnc) as
      (b & l & par' & lo' & hi' & es3 & esb & es4 & Hf & Hrun).
    exists b, l, par', lo', hi', (es1 ++ es3), esb, (es4 ++ es2). split.
    + pose proof (fc_range _ _ _ _ _ _ _ _ _ _ _ _ _ _ _ _ _ Hf).
      pose proof (fc_ok _ _ _ _ _ _ _ _ _ _ _ _ _ _ _ _ _ Hf) as Hok.
      assert (clo <= lo' /\ hi' <= chi) as [Hcl Hch].
      { (* the ranges are nested *) exact (fc_nested _ _ _ _ _ _ _ _ _ _ _ _ _ _ _ _ _ Hf). }
      split; try apply Hf.
      * apply elem_of_cons. right. rewrite !elem_of_app. right. left. apply Hf.
      * lia.
      * rewrite (fc_es _ _ _ _ _ _ _ _ _ _ _ _ _ _ _ _ _ Hf). by rewrite <- !app_assoc.
      * apply Forall_app. split; [|apply Hf]. eapply Forall_impl; [exact H1|]. cbn. lia.
      * apply Forall_app. split; [apply Hf|]. eapply Forall_impl; [exact H2|]. cbn. lia.
      * intros Hnd h' l' esb' Hag Hl' Hok'. apply NoDup_cons in Hnd as [Hnin Hnd].
        apply NoDup_app in Hnd as (Hnd1 & Hd1 & Hnd2). apply NoDup_app in Hnd2 as (Hnd2 & Hd2 & Hnd3).
        pose proof (fc_in _ _ _ _ _ _ _ _ _ _ _ _ _ _ _ _ _ Hf) as Hbin.
        cbn [node_rep]. right. exists i, (ns1 ++ nsc ++ ns2). split_and!; try done.
        -- rewrite Hag; [done|by apply elem_of_cons; left|]. intros ->. apply Hnin.
           rewrite !elem_of_app. by right; left.
        -- rewrite <- app_assoc. rewrite (app_assoc es3), (app_assoc _ es4), <- (app_assoc es3).
           apply Hput.
           ++ apply (fc_replace _ _ _ _ _ _ _ _ _ _ _ _ _ _ _ _ _ Hf Hnd2 h' l' esb'); [|done..].
              intros c' Hc' Hne. apply Hag; [|done]. apply elem_of_cons. right. rewrite !elem_of_app. by right; left.
           ++ intros c' lo'' hi'' es' ns' Hrc Hsub. eapply node_rep_frame; [|exact Hrc].
              intros b' Hb'%Hsub. apply Hag.
              ** apply elem_of_cons. right. rewrite !elem_of_app in *. tauto.
              ** intros ->. apply elem_of_app in Hb' as [Hb'|Hb'].
                 --- apply (Hd1 b Hb'). apply elem_of_app. by left.
                 --- by apply (Hd2 b Hbin).
      * intros Hnd. apply NoDup_cons in Hnd as [_ Hnd]. apply NoDup_app in Hnd as (_ & _ & Hnd).
        apply NoDup_app in Hnd as (Hnd & _ & _).
        destruct (fc_path _ _ _ _ _ _ _ _ _ _ _ _ _ _ _ _ _ Hf Hnd) as (m1 & m2 & -> & Hpath).
        exists (a :: ns1 ++ m1), (m2 ++ ns2). split; [cbn [app]; by rewrite <- !app_assoc|].
        rewrite Hchi in Hpath. eapply path_down; try done. lia.
    + intros [|fuel] Hfu; [lia|]. cbn [reach_down node_version]. unfold bind.
      rewrite (io_isleaf _ _ Hio), (get_internode_eq _ _ _ Hi). unfold Internode.upper, Internode.size.
      destruct Hc as (es5 & es6 & ns5 & ns6 & _ & _ & _ & Hsib).
      rewrite (upper_select par i Hio (Key.ikey0_ ka)) by
        (try done; by apply (siblings_sorted _ _ _ _ _ Hsib)).
      fold c. destruct (Z.eqb_spec c 0); [done|].
      rewrite (stable_eq _ _ _ Hnc Hq), (version_eq _ _ _ Hi), has_changed_refl. cbn [negb].
      apply Hrun. lia.
Qed.

(** * [find_unlocked] *)
Lemma suffix_eq_spec m s ka :
  0 <= str_len (Key.suffix ka) ->
  Leaf.suffix_eq m s ka = bool_decide (s = str_bytes m (Key.suffix ka)).
Proof.
  intros Hl. unfold Leaf.suffix_eq.
  assert (zlength (str_bytes m (Key.suffix ka)) = str_len (Key.suffix ka)) as Hz by by apply zlength_load.
  rewrite <- Hz. case_bool_decide as He.
  - rewrite He, Z.eqb_refl, list_memcmp_lex, lex_refl by done. done.
  - destruct (Z.eqb_spec (zlength s) (zlength (str_bytes m (Key.suffix ka)))) as [Hlen|]; [|done].
    cbn [andb]. rewrite list_memcmp_lex by (unfold zlength in Hlen; lia).
    destruct (Z.eqb_spec (lex s (str_bytes m (Key.suffix ka))) 0) as [H0|]; [|done].
    by apply lex_eq in H0.
Qed.

Section find.
Context (unaligned : bool) (m : mem) (ka : key) (Hm : mem_bytes m) (Hka : key_wf unaligned m ka).

Lemma assoc_entries_None L es Bns :
  Forall entry_ok es -> Forall2 (entry_rep L) es Bns -> Forall (fun e => cmp_entry ka e <> 0) es ->
  assoc (key_bytes m ka) (concat (map fst Bns)) = None.
Proof using Hm Hka.
  intros Hok Hr Hne. induction Hr as [|e [B ns] es Bns He Hr IH]; [done|].
  inversion Hok; inversion Hne; subst. cbn. rewrite assoc_app_None; [by apply IH|].
  destruct (entry_assoc unaligned m ka L e B ns) as [Ha _]; [done..|]. by apply Ha.
Qed.

(** Only the entry that the search hits can have the key. *)
Lemma assoc_entries_hit L es1 e es2 Bns :
  Forall entry_ok (es1 ++ e :: es2) -> Forall2 (entry_rep L) (es1 ++ e :: es2) Bns ->
  Forall (fun e => cmp_entry ka e <> 0) es1 -> Forall (fun e => cmp_entry ka e <> 0) es2 ->
  exists Bns1 B ns Bns2, Bns = Bns1 ++ (B, ns) :: Bns2 /\ entry_rep L e (B, ns) /\
    assoc (key_bytes m ka) (concat (map fst Bns)) = assoc (key_bytes m ka) B.
Proof using Hm Hka.
  intros Hok Hr H1 H2. apply Forall_app in Hok as [Hok1 Hok2]. inversion Hok2; subst.
  apply Forall2_app_inv_l in Hr as (Bns1 & Bns2 & Hr1 & Hr2 & ->).
  inversion Hr2 as [|? [B ns] ? Bns2' He Hr2']; subst.
  exists Bns1, B, ns, Bns2'. split_and!; [done..|].
  rewrite map_app, concat_app, assoc_app_None by (by eapply (assoc_entries_None L es1)). cbn.
  rewrite assoc_app, (assoc_entries_None L es2 Bns2') by done. by destruct (assoc _ B).
Qed.

(** The leaf responsible for the key decides. *)
Lemma assoc_focus d h par a lo hi es ns b l par' lo' hi' es1 esb es2 L Bns :
  focus d h par a lo hi es ns (Key.ikey0_ ka) b l par' lo' hi' es1 esb es2 ->
  Forall entry_ok es -> Forall2 (entry_rep L) es Bns ->
  exists Bns1 Bnb Bns2, Bns = Bns1 ++ Bnb ++ Bns2 /\ Forall2 (entry_rep L) es1 Bns1 /\
    Forall2 (entry_rep L) esb Bnb /\ Forall2 (entry_rep L) es2 Bns2 /\
    assoc (key_bytes m ka) (concat (map fst Bns)) = assoc (key_bytes m ka) (concat (map fst Bnb)).
Proof using Hm Hka.
  intros Hf Hok Hr. rewrite (fc_es _ _ _ _ _ _ _ _ _ _ _ _ _ _ _ _ _ Hf) in Hok, Hr.
  apply Forall_app in Hok as [Hok1 Hok2]. apply Forall_app in Hok2 as [Hokb Hok2].
  apply Forall2_app_inv_l in Hr as (Bns1 & Bns' & Hr1 & Hr' & ->).
  apply Forall2_app_inv_l in Hr' as (Bnb & Bns2 & Hrb & Hr2 & ->).
  exists Bns1, Bnb, Bns2. split_and!; [done..|].
  pose proof (fc_range _ _ _ _ _ _ _ _ _ _ _ _ _ _ _ _ _ Hf).
  rewrite !map_app, !concat_app, assoc_app_None.
  - rewrite assoc_app, (assoc_entries_None L es2 Bns2); [by destruct (assoc _ _)|done..|].
    eapply Forall_impl; [apply Hf|]. cbn. intros e He. apply cmp_entry_ikey. lia.
  - eapply (assoc_entries_None L es1); [done..|].
    eapply Forall_impl; [apply Hf|]. cbn. intros e He. apply cmp_entry_ikey. lia.
Qed.
End find.

Lemma node_entries_ok d h par a lo hi es ns : node_rep d h par a lo hi es ns -> Forall entry_ok es.
Proof.
  revert par a lo hi es ns. induction d as [|d IH]; intros par a lo hi es ns; cbn [node_rep]; [done|].
  intros [(l & _ & _ & Hok)|(i & ns' & _ & _ & _ & Hc)].
  - destruct (lo_entries _ _ _ _ _ Hok) as (live & free & Hl). apply Hl.
  - destruct Hc as (es1 & es2 & ns1 & ns2 & -> & _ & H1 & H2). apply Forall_app. split.
    + destruct H1 as [(_ & _ & -> & _)|(_ & _ & H1)]; [done|by eapply IH].
    + clear H1. revert es2 ns2 H2. induction (separators i) as [|[k c] kcs IHk]; intros es2 ns2.
      * by intros [-> _].
      * cbn [siblings_rep]. intros (es3 & es4 & ns3 & ns4 & -> & _ & _ & _ & H3 & H4).
        apply Forall_app. split; [by eapply IH|by eapply IHk].
Qed.

Lemma cmp_ne_of_above_below l ka l1 l2 :
  above l ka l1 -> below l ka l2 ->
  Forall (fun e => cmp_entry ka e <> 0) (map (slot_entry l) l1) /\
  Forall (fun e => cmp_entry ka e <> 0) (map (slot_entry l) l2).
Proof.
  intros H1 H2. split; apply Forall_fmap; (eapply Forall_impl; [eassumption|]); cbn; lia.
Qed.

(** What [reach_leaf] does from a pointer to the layer. *)
Lemma reach_leaf_spec s ns0 a r d es ns ka :
  climbs (heap s) ns0 a r -> node_rep d (heap s) 0 r 0 (2 ^ ikey_bits) es ns ->
  in_u ikey_bits (Key.ikey0_ ka) ->
  exists b l par' lo' hi' es1 esb es2 F,
    focus d (heap s) 0 r 0 (2 ^ ikey_bits) es ns (Key.ikey0_ ka) b l par' lo' hi' es1 esb es2 /\
    forall fuel, (F <= fuel)%nat -> reach_leaf fuel a ka s = Some ((b, lversion l), s).
Proof.
  intros Hc Hr Hk. destruct (reach_root_spec _ _ _ _ Hc) as (F & n & Hn & _ & _ & _ & Hroot).
  destruct (reach_down_spec d s 0 r 0 _ es ns ka n Hr Hk Hn) as
    (b & l & par' & lo' & hi' & es1 & esb & es2 & Hf & Hdown).
  exists b, l, par', lo', hi', es1, esb, es2, (S (F + d))%nat. split; [done|].
  intros [|fuel] Hfu; [lia|]. cbn [reach_leaf]. unfold bind. rewrite Hroot by lia. cbn [fst snd].
  rewrite Hdown by lia. done.
Qed.

Lemma find_unlocked_from_spec unaligned n s :
  mem_bytes (kmem s) ->
  forall a B ns ka, layer_rep n (heap s) a B ns ->
  key_wf unaligned (kmem s) ka ->
  exists F, forall fuel, (F <= fuel)%nat -> exists c mt,
    find_unlocked_from unaligned fuel a ka s = Some ((c, mt), s) /\
    assoc (key_bytes (kmem s) ka) B = if mt =? 0 then None else Some (u_lv c).
Proof.
  intros Hm. induction n as [|n IH]; intros a B ns ka Hr Hka; cbn [layer_rep] in Hr; [done|].
  destruct Hr as (d & r & es & lns & Bns & Hc & Hnode & _ & He & -> & ->).
  pose proof (node_entries_ok _ _ _ _ _ _ _ _ Hnode) as Hok.
  destruct (reach_leaf_spec s lns a r d es lns ka Hc Hnode (key_wf_range unaligned _ _ Hm Hka)) as
    (b & l & par' & lo' & hi' & es1 & esb & es2 & F & Hf & Hreach).
  destruct (assoc_focus unaligned _ ka Hm Hka _ _ _ _ _ _ _ _ _ _ _ _ _ _ _ _ _ _ Hf Hok He) as
    (Bns1 & Bnb & Bns2 & -> & _ & Hb & _ & ->).
  rewrite (fc_es _ _ _ _ _ _ _ _ _ _ _ _ _ _ _ _ _ Hf) in Hok.
  apply Forall_app in Hok as [_ Hok]. apply Forall_app in Hok as [Hokb _].
  pose proof (fc_leaf _ _ _ _ _ _ _ _ _ _ _ _ _ _ _ _ _ Hf) as Hl.
  pose proof (fc_ok _ _ _ _ _ _ _ _ _ _ _ _ _ _ _ _ _ Hf) as Hlok.
  destruct (lo_entries _ _ _ _ _ Hlok) as (live & free & Hle).
  destruct (quiet_bits _ (lo_quiet _ _ _ _ _ Hlok)) as (_ & _ & Hdel).
  (* one round of the search in the leaf *)
  assert (forall fuel, (F <= fuel)%nat -> find_unlocked_from unaligned (S fuel) a ka s =
    let kx := Leaf.lower ka l in
    let lv := if 0 <=? kip_p kx then Leaf.lv l (kip_p kx) else 0 in
    let mt := if 0 <=? kip_p kx then Leaf.ksuf_matches (kmem s) l (kip_p kx) ka else 0 in
    if mt <? 0 then find_unlocked_from unaligned fuel lv (Key.shift_by unaligned (kmem s) ka (- mt)) s
    else Some ((mkUcursor b ka (lversion l) (Leaf.permutation l) lv a, mt), s)) as Hstep.
  { intros fuel Hfu. cbn [find_unlocked_from]. unfold bind at 1. rewrite Hreach by lia.
    cbn [fst snd unlocked_forward]. rewrite Hdel. unfold bind, gets.
    rewrite (get_leaf_eq _ _ _ Hl), (version_eq _ _ _ Hl). cbn [node_version].
    rewrite has_changed_refl. cbv zeta.
    destruct (_ <? 0); done. }
  destruct (leaf_lower_spec l live free esb Hle ka) as [(Hp & l1 & l2 & Hlive & _ & H1 & H2)|
    (Hp & Hc0 & l1 & l2 & Hlive & _ & H1 & H2)]; set (kx := Leaf.lower ka l) in *;
    cbv zeta in Hstep.
  - destruct (cmp_ne_of_above_below l ka l1 l2 H1 H2) as [Hn1 Hn2].
    exists (S F). intros [|fuel] Hfu; [lia|]. rewrite Hstep by lia. rewrite Hp. cbn.
    eexists _, _. split; [done|]. cbn.
    eapply (assoc_entries_None unaligned); try done.
    rewrite (le_es _ _ _ _ Hle), Hlive, map_app. by apply Forall_app.
  - destruct (cmp_ne_of_above_below l ka l1 l2 H1 H2) as [Hn1 Hn2].
    assert ((0 <=? kip_p kx) = true) as Hpos by (apply Z.leb_le; lia).
    rewrite Hpos in Hstep.
    pose proof (le_es _ _ _ _ Hle) as Hes. rewrite Hlive, map_app in Hes. cbn [map] in Hes. rewrite Hes in *.
    set (e := slot_entry l (kip_p kx)) in *.
    destruct (assoc_entries_hit unaligned _ ka Hm Hka _ _ e _ _ Hokb Hb Hn1 Hn2) as
      (Bb1 & Be & nse & Bb2 & -> & Hre & ->).
    assert (entry_ok e) as Hoke by (apply Forall_app in Hokb as [_ Hokb]; by inversion Hokb).
    destruct (entry_assoc unaligned _ ka _ e Be nse Hm Hka Hoke Hre) as (_ & Hshort & Hlong & Hlayer).
    unfold Leaf.ksuf_matches in Hstep. change (Leaf.keylenx l (kip_p kx)) with (e_keylenx e) in Hstep.
    change (Leaf.lv l (kip_p kx)) with (e_lv e) in Hstep.
    destruct (proj2 Hoke) as [(Hn & _)|[(Hn & _ & _)|(Hn & _)]].
    + exists (S F). intros [|fuel] Hfu; [lia|]. rewrite Hstep by lia.
      destruct (Z.ltb_spec (e_keylenx e) ksuf_keylenx); [|unfold ksuf_keylenx in *; lia].
      eexists _, _. split; [done|]. cbn. apply Hshort; [done|lia].
    + exists (S F). intros [|fuel] Hfu; [lia|]. rewrite Hstep by lia. rewrite Hn.
      change (ksuf_keylenx <? ksuf_keylenx) with false.
      change (ksuf_keylenx =? layer_keylenx) with false. cbv iota.
      rewrite (Hlong Hc0 Hn).
      destruct (cmp_entry_long unaligned _ ka Hm Hka e Hoke) as [_ Hlen]; [rewrite Hn; done|].
      destruct (Hlen Hc0) as [Hl8 _].
      rewrite suffix_eq_spec by (unfold Key.suffix; cbn; lia).
      assert (e_suf e = Leaf.ksuf l (kip_p kx)) as Hs.
      { unfold e at 1, slot_entry. cbn [e_suf]. unfold Leaf.has_ksuf, Leaf.keylenx_has_ksuf.
        change (Leaf.keylenx l (kip_p kx)) with (e_keylenx e). by rewrite Hn. }
      rewrite <- Hs. destruct (decide (e_suf e = _)) as [He'|He'].
      * rewrite bool_decide_eq_true_2 by done. eexists _, _. split; [done|]. done.
      * rewrite bool_decide_eq_false_2 by done. eexists _, _. split; [done|]. done.
    + destruct (Hlayer Hn) as (B' & HL & _ & _ & Has). rewrite (Has Hc0).
      destruct (cmp_entry_long unaligned _ ka Hm Hka e Hoke) as [_ Hlen]; [rewrite Hn; done|].
      destruct (Hlen Hc0) as [Hl8 _].
      destruct (IH (e_lv e) B' nse (Key.shift_by unaligned (kmem s) ka ikey_size)) as [F' HF'];
        [done|apply shift_by_wf; [done|lia]|].
      exists (S (max F F')). intros [|fuel] Hfu; [lia|]. rewrite Hstep by lia. rewrite Hn.
      change (layer_keylenx <? ksuf_keylenx) with false.
      change (layer_keylenx =? layer_keylenx) with true. cbv iota.
      change (- ikey_size <? 0) with true. cbv iota. change (- - ikey_size) with ikey_size.
      destruct (HF' fuel) as (c & mt & Hrun & Hres); [lia|]. exists c, mt. split; [done|]. exact Hres.
Qed.
