(* ===== verification/Steps.v ===== *)
(** Single steps on a heap: what locking, marking, unlocking and updating one
    node do, as equations that rewrite a run of the monad [M] step by step. *)
From S2P Require Import Prelude Compiler Memory StringSlice Key Ksearch Kpermuter Nodeversion.
From S2P Require Import Stringbag Node Heap Tree Find.

(** * Versions of locked nodes *)
Lemma quiet_iff v :
  quiet v <-> in_u 32 v /\ forall n, In n [0; 28; 1; 2; 29] -> Z.testbit v n = false.
Proof.
  unfold quiet. assert (Z.land v quiet_mask = 0 <-> has_bits v quiet_mask = false) as ->.
  { unfold has_bits. destruct (Z.eqb_spec (Z.land v quiet_mask) 0); naive_solver. }
  change quiet_mask with (Z.lor (Z.lor (2 ^ 0) (2 ^ 28)) (Z.lor (Z.lor (2 ^ 1) (2 ^ 2)) (2 ^ 29))).
  rewrite !has_bits_lor, !has_bits_pow2, !orb_false_iff by lia. split.
  - intros (Hr & (H0 & H28) & (H1 & H2) & H29). split; [done|].
    intros n Hn. cbn in Hn. intuition (subst; done).
  - intros [Hr Hn]. split; [done|]. split_and!; apply Hn; cbn; tauto.
Qed.

(** The version of a node that a writer has locked. *)
Definition busy (v : Z) : Prop :=
  wf NV v /\ Nodeversion.locked NV v = true /\ Nodeversion.deleted NV v = false.
(** What a mark keeps. *)
Definition same_flags (v v' : Z) : Prop :=
  Nodeversion.isleaf NV v' = Nodeversion.isleaf NV v /\ Nodeversion.is_root NV v' = Nodeversion.is_root NV v.

Lemma quiet_wf v : quiet v -> wf NV v.
Proof.
  rewrite quiet_iff. intros [Hr Hb]. split; [done|apply Hb; cbn; tauto|].
  rewrite (dirty_testbit NV 0 9). cbn [Z.add]. change (0 + 1) with 1. change (0 + 2) with 2.
  rewrite (Hb 1), (Hb 2) by (cbn; tauto). done.
Qed.

Lemma flags_testbit v n :
  (Nodeversion.locked NV v = Z.testbit v 0) /\ (Nodeversion.inserting NV v = Z.testbit v 1) /\
  (Nodeversion.splitting NV v = Z.testbit v 2) /\ (Nodeversion.deleted NV v = Z.testbit v 29) /\
  (Nodeversion.is_root NV v = Z.testbit v 30) /\ (Nodeversion.isleaf NV v = Z.testbit v 31) /\
  Z.testbit (Z.lor v (lock_bit NV)) n = Z.testbit v n || (0 =? n) /\
  Z.testbit (Nodeversion.mark_insert NV v) n = Z.testbit v n || (1 =? n) /\
  Z.testbit (Nodeversion.mark_split NV v) n = Z.testbit v n || (2 =? n) /\
  Z.testbit (Nodeversion.mark_root NV v) n = Z.testbit v n || (30 =? n).
Proof.
  rewrite (locked_bit NV 0 9), (inserting_testbit NV 0 9), (splitting_testbit NV 0 9),
    (deleted_testbit NV 0 9), (is_root_testbit NV 0 9), (isleaf_testbit NV 0 9).
  split_and!; try done; [by apply (lor_pow2_testbit v 0)|by apply (lor_pow2_testbit v 1)|
    by apply (lor_pow2_testbit v 2)|by apply (lor_pow2_testbit v 30)].
Qed.

Ltac flags v n :=
  let H := fresh in pose proof (flags_testbit v n) as H;
  destruct H as (?Hflk & ?Hfin & ?Hfsp & ?Hfdl & ?Hfrt & ?Hflf & ?Hflo & ?Hfmi & ?Hfms & ?Hfmr).

Lemma flags_of v v' :
  (forall n, In n [29; 30; 31] -> Z.testbit v' n = Z.testbit v n) ->
  same_flags v v' /\ Nodeversion.deleted NV v' = Nodeversion.deleted NV v.
Proof.
  intros H. flags v 0. flags v' 0. unfold same_flags.
  repeat match goal with H : _ = Z.testbit _ _ |- _ => rewrite H; clear H end.
  split_and!; apply H; cbn; tauto.
Qed.

Lemma lock_busy v :
  quiet v -> let v' := Z.lor v (lock_bit NV) in
  busy v' /\ same_flags v v' /\ Nodeversion.splitting NV v' = false /\ Nodeversion.inserting NV v' = false.
Proof.
  intros Hq. cbv zeta. pose proof (quiet_wf v Hq) as Hwf. destruct (quiet_bits v Hq) as (Hl & _ & Hd).
  apply quiet_iff in Hq as [_ Hb].
  assert (forall n, Z.testbit (Z.lor v (lock_bit NV)) n = Z.testbit v n || (0 =? n)) as Ht
    by (intros n; apply (flags_testbit v n)).
  destruct (flags_of v (Z.lor v (lock_bit NV))) as [Hf Hd'].
  { intros n Hn. rewrite Ht. cbn in Hn. intuition (subst; by rewrite orb_false_r). }
  split_and!; [|done| |].
  - split_and!; [|by rewrite (locked_bit NV 0 9), Ht, orb_true_r|by rewrite Hd'].
    eapply (step_wf NV 0 9); [exact Hwf|]. by apply step_lock.
  - rewrite (splitting_testbit NV 0 9), Ht, Hb by (cbn; tauto). done.
  - rewrite (inserting_testbit NV 0 9), Ht, Hb by (cbn; tauto). done.
Qed.

Lemma mark_insert_busy v :
  busy v -> let v' := Nodeversion.mark_insert NV v in
  busy v' /\ same_flags v v' /\ Nodeversion.splitting NV v' = Nodeversion.splitting NV v.
Proof.
  intros (Hwf & Hl & Hd). cbv zeta.
  assert (forall n, Z.testbit (Nodeversion.mark_insert NV v) n = Z.testbit v n || (1 =? n)) as Ht
    by (intros n; apply (flags_testbit v n)).
  destruct (flags_of v (Nodeversion.mark_insert NV v)) as [Hf Hd'].
  { intros n Hn. rewrite Ht. cbn in Hn. intuition (subst; by rewrite orb_false_r). }
  split_and!; [|done|].
  - split_and!; [|rewrite (locked_bit NV 0 9), Ht, orb_false_r|by rewrite Hd'].
    + eapply (step_wf NV 0 9); [exact Hwf|]. by apply step_mark_insert.
    + by rewrite <- (locked_bit NV 0 9).
  - by rewrite !(splitting_testbit NV 0 9), Ht, orb_false_r.
Qed.

Lemma mark_split_busy v :
  busy v -> let v' := Nodeversion.mark_split NV v in
  busy v' /\ same_flags v v' /\ Nodeversion.splitting NV v' = true.
Proof.
  intros (Hwf & Hl & Hd). cbv zeta.
  assert (forall n, Z.testbit (Nodeversion.mark_split NV v) n = Z.testbit v n || (2 =? n)) as Ht
    by (intros n; apply (flags_testbit v n)).
  destruct (flags_of v (Nodeversion.mark_split NV v)) as [Hf Hd'].
  { intros n Hn. rewrite Ht. cbn in Hn. intuition (subst; by rewrite orb_false_r). }
  split_and!; [|done|].
  - split_and!; [|rewrite (locked_bit NV 0 9), Ht, orb_false_r|by rewrite Hd'].
    + eapply (step_wf NV 0 9); [exact Hwf|]. by apply step_mark_split.
    + by rewrite <- (locked_bit NV 0 9).
  - by rewrite !(splitting_testbit NV 0 9), Ht, orb_true_r.
Qed.

Lemma unlock_quiet v :
  busy v -> let v' := Nodeversion.unlock NV v in
  quiet v' /\ Nodeversion.isleaf NV v' = Nodeversion.isleaf NV v /\
  Nodeversion.is_root NV v' = Nodeversion.is_root NV v && negb (Nodeversion.splitting NV v).
Proof.
  intros ([Hr Hu _] & _ & Hd). cbv zeta.
  assert (forall n, 29 <= n < 32 -> Z.testbit (Nodeversion.unlock NV v) n =
    Z.testbit v n && negb (Nodeversion.splitting NV v && (n =? 30))) as Ht.
  { intros n Hn. by apply (unlock_flags NV 0 9). }
  rewrite !(isleaf_testbit NV 0 9), !(is_root_testbit NV 0 9). cbn [nv_bits nodeversion_parameters32].
  rewrite !Ht by lia. change (32 - 1 =? 30) with false. change (32 - 2 =? 30) with true.
  rewrite andb_false_r, !andb_true_r. split_and!; [|done|done].
  apply quiet_iff. split; [apply (unlock_range NV 0 9)|]. intros n Hn. cbn in Hn.
  rewrite (deleted_testbit NV 0 9) in Hd.
  destruct Hn as [<-|[<-|[<-|[<-|[<-|[]]]]]]; try (apply (unlock_low NV 0 9); lia).
  - apply (unlock_unused NV 0 9).
  - rewrite Ht by lia. change (nv_bits NV - 3) with 29 in Hd. by rewrite Hd.
Qed.

Lemma unlock_lock v : quiet v -> Nodeversion.unlock NV (Z.lor v (lock_bit NV)) = v.
Proof.
  intros Hq. destruct (lock_busy v Hq) as (_ & _ & Hs & Hi). apply quiet_iff in Hq as [Hr Hb].
  unfold Nodeversion.unlock. fold (Nodeversion.splitting NV (Z.lor v (lock_bit NV))). rewrite Hs.
  change (has_bits _ (inserting_bit NV)) with (Nodeversion.inserting NV (Z.lor v (lock_bit NV))) in Hi.
  unfold Nodeversion.inserting, has_bits in Hi.
  destruct (Z.eqb_spec (Z.land (Z.lor v (lock_bit NV)) (inserting_bit NV)) 0) as [Hz|]; [|done].
  rewrite Hz. change (ushl (nv_bits NV) 0 2) with 0. rewrite Z.add_0_r.
  change (lock_bit NV) with (2 ^ 0). change (unlock_mask NV) with (unot 32 (Z.lor (2 ^ 28) (Z.ones 3))).
  change (nv_bits NV) with 32. unfold unot. apply Z.bits_inj'. intros n Hn. rewrite Z.land_spec, !testbit_uwrap by lia.
  destruct (Z.ltb_spec n 32) as [Hn32|Hn32]; [|by rewrite (testbit_in_u 32 v n) by (done || lia)].
  cbn [andb]. rewrite Z.lnot_spec, !Z.lor_spec, !Z.pow2_bits_eqb, Z.testbit_ones_nonneg by lia.
  destruct (Z.ltb_spec n 3) as [H3|H3].
  - assert (n = 0 \/ n = 1 \/ n = 2) as [->|[->| ->]] by lia; rewrite Hb by (cbn; tauto); done.
  - destruct (Z.eqb_spec 28 n) as [<-|]; [by rewrite Hb by (cbn; tauto)|].
    destruct (Z.eqb_spec 0 n); [lia|]. by rewrite orb_false_r, !andb_true_r.
Qed.

(** * Steps on a state *)
Definition with_heap (s : state) (h : gmap Z node) : state :=
  mkState h (next_fresh s) (limbo s) (callbacks s) (table_root s) (kmem s).

Lemma with_heap_heap s : with_heap s (heap s) = s.
Proof. by destruct s. Qed.

Lemma bind_eq {A B} (m : M A) (k : A -> M B) s x s' : m s = Some (x, s') -> bind m k s = k x s'.
Proof. intros H. unfold bind. by rewrite H. Qed.
Lemma bind_assoc {A B C} (m : M A) (f : A -> M B) (g : B -> M C) s :
  bind (bind m f) g s = bind m (fun x => bind (f x) g) s.
Proof. unfold bind. by destruct (m s) as [[x s']|]. Qed.
Lemma bind_ret {A B} (x : A) (k : A -> M B) s : bind (ret x) k s = k x s.
Proof. done. Qed.
Lemma bind_lift {A B} (o : option A) (k : A -> M B) s x : o = Some x -> bind (lift o) k s = k x s.
Proof. by intros ->. Qed.
Lemma bind_gets {A B} (f : state -> A) (k : A -> M B) s : bind (gets f) k s = k (f s) s.
Proof. done. Qed.
Lemma bind_require {B} b (k : unit -> M B) s : b = true -> bind (require b) k s = k tt s.
Proof. by intros ->. Qed.

Lemma put_node_eq s a n : put_node a n s = Some (tt, with_heap s (<[a := n]> (heap s))).
Proof. done. Qed.
Lemma put_leaf_eq s a l : put_leaf a l s = Some (tt, with_heap s (<[a := NLeaf l]> (heap s))).
Proof. done. Qed.

Lemma update_leaf_eq s a f l :
  heap s !! a = Some (NLeaf l) ->
  update_leaf a f s = Some (tt, with_heap s (<[a := NLeaf (f l)]> (heap s))).
Proof. intros H. unfold update_leaf. by rewrite (bind_eq _ _ _ _ _ (get_leaf_eq _ _ _ H)). Qed.
Lemma update_internode_eq s a f i :
  heap s !! a = Some (NInternode i) ->
  update_internode a f s = Some (tt, with_heap s (<[a := NInternode (f i)]> (heap s))).
Proof. intros H. unfold update_internode. by rewrite (bind_eq _ _ _ _ _ (get_internode_eq _ _ _ H)). Qed.
Lemma try_update_leaf_eq s a f l l' :
  heap s !! a = Some (NLeaf l) -> f l = Some l' ->
  try_update_leaf a f s = Some (tt, with_heap s (<[a := NLeaf l']> (heap s))).
Proof.
  intros H Hf. unfold try_update_leaf. rewrite (bind_eq _ _ _ _ _ (get_leaf_eq _ _ _ H)).
  by rewrite (bind_lift _ _ _ l').
Qed.
Lemma try_update_internode_eq s a f i i' :
  heap s !! a = Some (NInternode i) -> f i = Some i' ->
  try_update_internode a f s = Some (tt, with_heap s (<[a := NInternode i']> (heap s))).
Proof.
  intros H Hf. unfold try_update_internode. rewrite (bind_eq _ _ _ _ _ (get_internode_eq _ _ _ H)).
  by rewrite (bind_lift _ _ _ i').
Qed.
Lemma set_version_eq s a v n :
  heap s !! a = Some n -> set_version a v s = Some (tt, with_heap s (<[a := node_set_version n v]> (heap s))).
Proof. intros H. unfold set_version. by rewrite (bind_eq _ _ _ _ _ (get_node_eq _ _ _ H)). Qed.
Lemma set_parent_eq s a p n :
  heap s !! a = Some n -> set_parent a p s = Some (tt, with_heap s (<[a := node_set_parent n p]> (heap s))).
Proof. intros H. unfold set_parent. by rewrite (bind_eq _ _ _ _ _ (get_node_eq _ _ _ H)). Qed.

Definition lockv (v : Z) : Z := Z.lor v (lock_bit NV).

Lemma lock_eq s a n :
  heap s !! a = Some n -> quiet (node_version n) ->
  lock a (node_version n) s =
  Some (lockv (node_version n), with_heap s (<[a := node_set_version n (lockv (node_version n))]> (heap s))).
Proof.
  intros H Hq. destruct (quiet_bits _ Hq) as (Hl & _ & _). unfold lock.
  rewrite (bind_eq _ _ _ _ _ (version_eq _ _ _ H)), (bind_lift _ _ _ (lockv (node_version n))).
  - by rewrite (bind_eq _ _ _ _ _ (set_version_eq _ _ _ _ H)).
  - unfold Nodeversion.lock. unfold Nodeversion.locked in Hl. by rewrite Hl, Z.eqb_refl.
Qed.

Lemma unlock_eq s a n :
  heap s !! a = Some n -> busy (node_version n) ->
  unlock a s = Some (tt, with_heap s (<[a := node_set_version n (Nodeversion.unlock NV (node_version n))]> (heap s))).
Proof.
  intros H (_ & Hl & _). unfold unlock.
  rewrite (bind_eq _ _ _ _ _ (version_eq _ _ _ H)), bind_require by done.
  apply (set_version_eq _ _ _ _ H).
Qed.

Lemma mark_locked_eq f s a n :
  heap s !! a = Some n -> busy (node_version n) ->
  mark_locked f a s = Some (tt, with_heap s (<[a := node_set_version n (f (node_version n))]> (heap s))).
Proof.
  intros H (_ & Hl & _). unfold mark_locked.
  rewrite (bind_eq _ _ _ _ _ (version_eq _ _ _ H)), bind_require by done.
  apply (set_version_eq _ _ _ _ H).
Qed.
