(* ===== verification/LeafSpec.v ===== *)
(** Leaves as sorted lists of entries: what assigning a key to a slot,
    inserting a slot in the permutation and removing one do to them. *)
From Stdlib Require Import Sorted.
From S2P Require Import Prelude Compiler Memory StringSlice Key Ksearch Kpermuter Nodeversion.
From S2P Require Import Stringbag Node Heap Tree Find.

(** * Bags of suffixes *)
Definition sum_len (ks : list (Z * list Z)) : Z := foldr (fun k acc => zlength (snd k) + acc) 0 ks.

Lemma sum_len_cons k ks : sum_len (k :: ks) = zlength (snd k) + sum_len ks.
Proof. done. Qed.
Lemma sum_len_nonneg ks : 0 <= sum_len ks.
Proof. induction ks as [|k ks IH]; [done|]. rewrite sum_len_cons. pose proof (zlength_nonneg (snd k)). lia. Qed.
Lemma sum_len_app ks1 ks2 : sum_len (ks1 ++ ks2) = sum_len ks1 + sum_len ks2.
Proof. induction ks1 as [|k ks1 IH]; [done|]. cbn [app]. rewrite !sum_len_cons. lia. Qed.
Lemma sum_len_bound ks n :
  0 <= n -> Forall (fun k => zlength (snd k) <= n) ks -> sum_len ks <= n * zlength ks.
Proof.
  intros Hn. induction 1 as [|k ks Hk _ IH]; [unfold zlength; cbn; lia|]. rewrite sum_len_cons, zlength_cons. lia.
Qed.

(** The suffixes [ks] go into a bag with room for all of them. *)
Lemma assign_all_spec b ks :
  bag_wf Leaf.external_bits leaf_width b -> NoDup (map fst ks) ->
  Forall (fun k => 0 <= fst k < leaf_width) ks ->
  used_capacity b + sum_len ks + slice_size - 1 <= capacity b ->
  exists b', Leaf.assign_all b ks = Some b' /\ bag_wf Leaf.external_bits leaf_width b' /\
    capacity b' = capacity b /\
    (forall q s, (q, s) ∈ ks -> Stringbag.get b' q = s) /\
    (forall q, 0 <= q < leaf_width -> q ∉ map fst ks -> Stringbag.get b' q = Stringbag.get b q).
Proof.
  revert b. induction ks as [|[p s] ks IH]; intros b Hb Hnd Hin Hcap; cbn [Leaf.assign_all].
  - exists b. split_and!; try done. by intros q s ?%elem_of_nil.
  - apply NoDup_cons in Hnd as [Hp Hnd]. inversion Hin as [|? ? Hpr Hin']; subst. cbn [fst snd] in *.
    rewrite sum_len_cons in Hcap. cbn [snd] in Hcap. pose proof (sum_len_nonneg ks).
    pose proof (assign_wf Leaf.external_bits leaf_width b ltac:(done) ltac:(done) Hb p s Hpr) as Hb'.
    pose proof (assign_used Leaf.external_bits leaf_width b p s ltac:(done) ltac:(done) Hb Hpr) as [Hu Hc].
    assert (snd (assign Leaf.external_bits b p s) = true) as Hok.
    { apply assign_room; [lia|].
      apply (wf_info _ _ _ Hb p), (info_at_lookup Leaf.external_bits leaf_width); done. }
    destruct (assign Leaf.external_bits b p s) as [b1 ok] eqn:E. cbn [fst snd] in *. subst ok.
    assert (forall q, 0 <= q < leaf_width -> Stringbag.get b1 q = if q =? p then s else Stringbag.get b q) as Hg.
    { intros q Hq. by apply (assign_get Leaf.external_bits leaf_width b ltac:(done) ltac:(done) Hb p s b1). }
    destruct (IH b1) as (b' & H1 & H2 & H3 & H4 & H5); [done..|lia|].
    exists b'. split_and!; [done|done|lia| |].
    + intros q t [[= -> ->]|Hq]%elem_of_cons; [|by apply H4].
      rewrite H5 by done. by rewrite Hg, Z.eqb_refl.
    + intros q Hq Hnin. cbn in Hnin. apply not_elem_of_cons in Hnin as [Hne Hnin].
      rewrite H5, Hg by done. by destruct (Z.eqb_spec q p).
Qed.

(** * Writing a slot *)
Lemma write_slot_spec l p kx ik v :
  zlength (keylenx_ l) = leaf_width -> zlength (ikey0_ l) = leaf_width -> zlength (lv_ l) = leaf_width ->
  0 <= p < leaf_width ->
  exists k i a, Leaf.write_slot l p kx ik v = Some (Leaf.set_slots l k i a) /\
    zlength k = leaf_width /\ zlength i = leaf_width /\ zlength a = leaf_width /\
    (forall q, zlookup k q = if q =? p then Some kx else zlookup (keylenx_ l) q) /\
    (forall q, zlookup i q = if q =? p then Some ik else zlookup (ikey0_ l) q) /\
    (forall q, zlookup a q = if q =? p then Some v else zlookup (lv_ l) q).
Proof.
  intros Hk Hi Ha Hp. unfold Leaf.write_slot.
  destruct (wr_spec (lv_ l) p v) as (a & -> & Hla & Hza); [lia|]. cbn.
  destruct (wr_spec (ikey0_ l) p ik) as (i & -> & Hli & Hzi); [lia|]. cbn.
  destruct (wr_spec (keylenx_ l) p kx) as (k & -> & Hlk & Hzk); [lia|]. cbn.
  exists k, i, a. split_and!; done || lia.
Qed.

(** * Suffixes *)
(** The slots whose suffixes [assign_ksuf] keeps. *)
Definition kept (initializing : bool) (l : leaf) (p : Z) : list Z :=
  if initializing then seqZ 0 p else map (Kpermuter.index (permutation_ l)) (seqZ 0 (Leaf.size l)).
Definition keeps (l l' : leaf) (p : Z) (qs : list Z) : Prop :=
  forall q, q ∈ qs -> q <> p -> Leaf.has_ksuf l q = true -> Leaf.ksuf l' q = Leaf.ksuf l q.

Section assign_ksuf.
Context (l : leaf) (p : Z) (s : list Z) (initializing : bool)
  (Hb : bags_ok l) (Hp : 0 <= p < leaf_width) (Hs : zlength s <= max_key_len)
  (Hnd : NoDup (kept initializing l p)) (Hr : Forall (fun q => 0 <= q < leaf_width) (kept initializing l p)).

Lemma assign_ksuf_inplace_spec l' :
  Leaf.assign_ksuf_inplace l p s = Some l' ->
  exists es ks iks, l' = Leaf.set_ksuf l es ks iks /\ bags_ok l' /\ Leaf.ksuf l' p = s /\
    keeps l l' p (kept initializing l p).
Proof using Hb Hp Hr.
  assert (forall q, q ∈ kept initializing l p -> 0 <= q < leaf_width) as Hq
    by (intros q; by apply (proj1 (Forall_forall _ _) Hr)).
  unfold Leaf.assign_ksuf_inplace, bags_ok, keeps, Leaf.ksuf in *.
  destruct (ksuf_ l) as [b|] eqn:Ek; [|destruct (iksuf_ l) as [b|] eqn:Ei].
  - destruct Hb as (Hwf & Hcap & He).
    pose proof (assign_wf Leaf.external_bits leaf_width b ltac:(done) ltac:(done) Hwf p s Hp) as Hwf'.
    pose proof (assign_used Leaf.external_bits leaf_width b p s ltac:(done) ltac:(done) Hwf Hp) as [_ Hc].
    destruct (assign Leaf.external_bits b p s) as [b' ok] eqn:E. cbn [fst] in *.
    destruct ok; [|by destruct (Z.ltb_spec 0 (extrasize64_ l)); [lia|]].
    assert (forall q, 0 <= q < leaf_width -> Stringbag.get b' q = if q =? p then s else Stringbag.get b q) as Hg
      by (intros q ?; by apply (assign_get Leaf.external_bits leaf_width b ltac:(done) ltac:(done) Hwf)).
    intros [= <-]. eexists _, _, _. cbn. split_and!; try done; [lia| |].
    + by rewrite Hg, Z.eqb_refl by done.
    + intros q Hin Hne _. rewrite Hg by (by apply Hq). by destruct (Z.eqb_spec q p).
  - destruct Hb as [Hwf He]. destruct (Z.ltb_spec 0 (extrasize64_ l)); [|done].
    pose proof (assign_wf Leaf.internal_bits leaf_width b ltac:(done) ltac:(done) Hwf p s Hp) as Hwf'.
    destruct (assign Leaf.internal_bits b p s) as [b' ok] eqn:E. cbn [fst] in *.
    destruct ok; [|done].
    assert (forall q, 0 <= q < leaf_width -> Stringbag.get b' q = if q =? p then s else Stringbag.get b q) as Hg
      by (intros q ?; by apply (assign_get Leaf.internal_bits leaf_width b ltac:(done) ltac:(done) Hwf)).
    intros [= <-]. eexists _, _, _. cbn. split_and!; try done.
    + by rewrite Hg, Z.eqb_refl by done.
    + intros q Hin Hne _. rewrite Hg by (by apply Hq). by destruct (Z.eqb_spec q p).
  - rewrite Hb. done.
Qed.

Lemma live_ksufs_fst :
  map fst (Leaf.live_ksufs l p initializing) =
  filter (fun mp => Is_true (negb (mp =? p) && Leaf.has_ksuf l mp)) (kept initializing l p).
Proof using Type.
  unfold Leaf.live_ksufs, kept. rewrite map_map. cbn [fst]. rewrite map_id.
  case initializing; [rewrite map_id|]; reflexivity.
Qed.

Lemma assign_ksuf_spec :
  modstate_ l <> modstate_remove ->
  (forall q, q ∈ kept initializing l p -> q <> p -> Leaf.has_ksuf l q = true ->
    zlength (Leaf.ksuf l q) <= max_key_len) ->
  exists es ks iks, let l' := Leaf.set_ksuf l es ks iks in
    Leaf.assign_ksuf l p s initializing = Some l' /\ bags_ok l' /\ Leaf.ksuf l' p = s /\
    keeps l l' p (kept initializing l p).
Proof using Hb Hp Hr Hs Hnd.
  intros Hm Hlen. unfold Leaf.assign_ksuf.
  destruct (Leaf.assign_ksuf_inplace l p s) as [l'|] eqn:E.
  { destruct (assign_ksuf_inplace_spec l' E) as (es & ks & iks & -> & H). by exists es, ks, iks. }
  clear E. cbv zeta. fold (sum_len (Leaf.live_ksufs l p initializing)).
  set (lks := Leaf.live_ksufs l p initializing).
  pose proof live_ksufs_fst as Hfst. fold lks in Hfst.
  assert (forall q t, (q, t) ∈ lks <-> q ∈ map fst lks /\ t = Leaf.ksuf l q) as Hin.
  { intros q t. unfold lks, Leaf.live_ksufs. rewrite list_elem_of_fmap. split.
    - intros (q' & [= -> ->] & Hq). split; [|done]. rewrite map_map. cbn [fst]. by rewrite map_id.
    - rewrite map_map. cbn [fst]. rewrite map_id. intros [Hq ->]. by exists q. }
  assert (forall q, q ∈ map fst lks <-> (q <> p /\ Leaf.has_ksuf l q = true) /\ q ∈ kept initializing l p) as Hk.
  { intros q. rewrite Hfst, list_elem_of_filter, Is_true_true, andb_true_iff, negb_true_iff, Z.eqb_neq. done. }
  assert (sum_len lks <= max_key_len * leaf_width) as Hsum.
  { assert (zlength lks <= leaf_width) as Hl.
    { unfold zlength. rewrite <- (length_map fst), Hfst.
      pose proof (length_filter (fun mp => Is_true (negb (mp =? p) && Leaf.has_ksuf l mp)) (kept initializing l p)).
      assert (length (kept initializing l p) <= length (seqZ 0 leaf_width))%nat as Hle.
      { apply submseteq_length, NoDup_submseteq; [done|]. intros q Hq. apply elem_of_seqZ.
        by apply (proj1 (Forall_forall _ _) Hr). }
      rewrite length_seqZ in Hle. unfold leaf_width in *. lia. }
    transitivity (max_key_len * zlength lks); [|unfold max_key_len; lia]. apply sum_len_bound; [done|].
    apply Forall_forall. intros [q t] [Hq ->]%Hin. apply Hk in Hq as [[Hne Hh] Hq]. by apply Hlen. }
  pose proof (sum_len_nonneg lks). pose proof (zlength_nonneg s).
  set (need := safe_size Leaf.external_bits leaf_width (sum_len lks + zlength s)).
  assert (need = 64 + (sum_len lks + zlength s) + 8 - 1) as Hneed by done.
  unfold max_key_len, leaf_width in Hsum, Hs.
  destruct (iceil_log2_spec 64 need) as [(k & Hk0 & Hk2) Hsz]; [done|lia|].
  assert (iceil_log2 64 need <= 8192) as Hsz8.
  { rewrite Hk2 in *. change 8192 with (2 ^ 13). apply Z.pow_le_mono_r; [done|].
    apply Z.nlt_ge. intros Hk13. pose proof (Z.pow_le_mono_r 2 14 k). lia. }
  set (sz := match ksuf_ l with Some o => Z.max (iceil_log2 64 need) (capacity o) | None => iceil_log2 64 need end).
  assert (need <= sz <= 8192) as Hsz'.
  { unfold sz. unfold bags_ok in Hb. destruct (ksuf_ l); [destruct Hb as (_ & ? & _)|]; lia. }
  destruct (make_bag Leaf.external_bits leaf_width sz) as [b|] eqn:Eb.
  2: { unfold make_bag in Eb. change (overhead Leaf.external_bits leaf_width) with 64 in Eb.
       change (max_size Leaf.external_bits) with 65536 in Eb.
       destruct (Z.leb_spec 64 sz), (Z.leb_spec sz 65536); done || lia. }
  destruct (make_bag_wf Leaf.external_bits leaf_width sz b ltac:(done) ltac:(done) Eb) as (Hwf & Hu & _); [unfold Leaf.external_bits; lia|].
  assert (capacity b = sz) as Hcap.
  { unfold make_bag in Eb. destruct (_ && _); [|done]. injection Eb as <-. unfold capacity. cbn.
    rewrite uwrap_id by (unfold in_u, Leaf.external_bits; lia). lia. }
  destruct (assign_all_spec b (lks ++ [(p, s)]) Hwf) as (b' & H1 & H2 & H3 & H4 & H5).
  - rewrite map_app. apply NoDup_app. split_and!; [rewrite Hfst; by apply NoDup_filter| |apply NoDup_singleton].
    intros q [[Hne _] _]%Hk Hq. cbn in Hq. apply list_elem_of_singleton in Hq. done.
  - apply Forall_app. split; [|by constructor]. apply Forall_forall. intros [q t] [Hq _]%Hin.
    apply Hk in Hq as [_ Hq]. by apply (proj1 (Forall_forall _ _) Hr).
  - rewrite Hu, Hcap, sum_len_app, sum_len_cons. change (overhead Leaf.external_bits leaf_width) with 64.
    cbn [snd]. change (sum_len []) with 0. unfold slice_size. lia.
  - cbn [mbind option_bind]. rewrite H1. cbn [mbind option_bind].
    destruct (Z.eqb_spec (modstate_ l) modstate_remove); [done|].
    eexists _, _, _. cbv zeta. split; [done|]. unfold bags_ok, keeps, Leaf.ksuf at 1 2. cbn. split_and!.
    + done.
    + lia.
    + unfold bags_ok in Hb. destruct (Z.leb_spec 0 (extrasize64_ l)); [|done]. lia.
    + apply H4, elem_of_app. right. by apply list_elem_of_singleton.
    + intros q Hq Hne Hh. apply H4, elem_of_app. left. apply Hin. split; [|done]. by apply Hk.
Qed.
End assign_ksuf.

(** * Assigning a key to a slot *)
(** The fields that are not of slots or suffixes. *)
Record same_leaf (l l' : leaf) : Prop := {
  sl_version : lversion l' = lversion l;
  sl_modstate : modstate_ l' = modstate_ l;
  sl_permutation : permutation_ l' = permutation_ l;
  sl_next : next_ l' = next_ l;
  sl_prev : prev_ l' = prev_ l;
  sl_parent : lparent_ l' = lparent_ l;
  sl_phantom : phantom_epoch_ l' = phantom_epoch_ l }.

(** The entry of a key with the value [v]. *)
Definition key_entry (m : mem) (ka : key) (v : Z) : entry :=
  if Key.has_suffix ka then mkEntry (Key.ikey ka) ksuf_keylenx (str_bytes m (Key.suffix ka)) v
  else mkEntry (Key.ikey ka) (len_ ka) [] v.

Lemma pad_mod l n :
  bytes l -> zlength l <= n -> be_value (pad (Z.to_nat n) l) mod 256 ^ (n - zlength l) = 0.
Proof.
  intros Hl Hn. pose proof (zlength_nonneg l). rewrite pad_app_zeros.
  rewrite take_ge by (unfold zlength in *; lia).
  assert (bytes (repeat 0 (Z.to_nat n - length l)) /\ be_value (repeat 0 (Z.to_nat n - length l)) = 0) as [Hb H0].
  { generalize (Z.to_nat n - length l)%nat as k. induction k as [|k [IH1 IH2]].
    { split; [constructor|done]. }
    cbn [repeat]. split; [by constructor|]. rewrite be_value_cons, IH2 by done. lia. }
  rewrite be_value_app, H0, Z.add_0_r by done.
  assert (zlength (repeat 0 (Z.to_nat n - length l)) = n - zlength l) as ->
    by (unfold zlength in *; rewrite repeat_length; lia).
  apply Z.mod_mul. lia.
Qed.

Section key_entry.
Context (unaligned : bool) (m : mem) (ka : key) (Hm : mem_bytes m) (Hka : key_wf unaligned m ka).

Lemma key_entry_ok v : len_ ka <= max_key_len -> entry_ok (key_entry m ka v).
Proof using Hm Hka.
  intros Hlen. pose proof (key_wf_range unaligned _ _ Hm Hka) as Hr. destruct Hka as [Hl Hi].
  unfold key_entry, Key.has_suffix, ikey_size, max_key_len in *. split.
  { by destruct (8 <? len_ ka). }
  destruct (Z.ltb_spec 8 (len_ ka)); cbn.
  - right; left. split_and!; [done|by apply load_bytes|..]; unfold str_bytes, Key.suffix, ikey_size; cbn;
      rewrite zlength_load by lia; unfold max_key_len; lia.
  - left. split_and!; [done|done|done|]. unfold Key.ikey. rewrite Hi.
    rewrite make_comparable_be by (done || unfold ikey_size; lia).
    change (Z.to_nat ikey_size) with (Z.to_nat 8).
    rewrite <- (zlength_load m (s_ ka) (len_ ka)) at 2 by done.
    apply pad_mod; [by apply load_bytes|rewrite zlength_load; lia].
Qed.

Lemma key_entry_key v : entry_key (key_entry m ka v) = key_bytes m ka.
Proof using Hm Hka.
  unfold key_entry, entry_key. destruct (Key.has_suffix ka) eqn:Hs; unfold Key.has_suffix in Hs;
    cbn [e_keylenx e_suf e_ikey].
  - apply Z.ltb_lt in Hs. rewrite (key_bytes_suffix unaligned) by done.
    change (Z.to_nat (ksuf_keylenx `min` 8)) with 8%nat.
    by rewrite take_ge by (rewrite length_ikey_bytes; lia).
  - apply Z.ltb_ge in Hs. unfold ikey_size in Hs. rewrite app_nil_r, Z.min_l by lia.
    unfold Key.ikey. rewrite (key_ikey_bytes unaligned m) by done.
    rewrite pad_app_zeros. pose proof (zlength_key_bytes unaligned m ka Hka) as Hz. unfold zlength in Hz.
    rewrite take_app_le by (rewrite length_take; lia). rewrite take_take, take_ge by lia. done.
Qed.

Lemma entry_lt_key f v : entry_ok f -> 0 < cmp_entry ka f -> entry_lt f (key_entry m ka v).
Proof using Hka.
  intros _. unfold cmp_entry, Key.compare_ikey, compare, entry_lt, key_entry, e_rank, Key.has_suffix, Key.ikey, ikey_size.
  pose proof (proj1 Hka).
  destruct (Z.eqb_spec (Key.ikey0_ ka) (e_ikey f)) as [He|He].
  - change (0 =? 0) with true. cbv iota. intros Hc. right.
    destruct (Z.ltb_spec 8 (len_ ka)); cbn; split; try done.
    + destruct (Z.leb_spec (e_keylenx f) 8); cbn in Hc; unfold ksuf_keylenx; lia.
    + lia.
  - destruct (Z.ltb_spec (Key.ikey0_ ka) (e_ikey f)); [done|]. intros _. left.
    destruct (8 <? len_ ka); cbn; lia.
Qed.

Lemma key_lt_entry f v : cmp_entry ka f < 0 -> entry_lt (key_entry m ka v) f.
Proof using Hka.
  unfold cmp_entry, Key.compare_ikey, compare, entry_lt, key_entry, e_rank, Key.has_suffix, Key.ikey, ikey_size.
  pose proof (proj1 Hka).
  destruct (Z.eqb_spec (Key.ikey0_ ka) (e_ikey f)) as [He|He].
  - change (0 =? 0) with true. cbv iota. intros Hc. right.
    destruct (Z.ltb_spec 8 (len_ ka)); cbn; split; try done.
    + destruct (Z.leb_spec (e_keylenx f) 8); cbn in Hc; lia.
    + lia.
  - destruct (Z.ltb_spec (Key.ikey0_ ka) (e_ikey f)); [|done]. intros _. left.
    destruct (8 <? len_ ka); cbn; lia.
Qed.
End key_entry.

Lemma rd_eq l l' p : zlookup l p = zlookup l' p -> rd l p = rd l' p.
Proof. unfold rd. by intros ->. Qed.

(** [assign] writes the entry of the key with the value word 0 and keeps the
    entries of the other slots that hold one. *)
Lemma assign_with_spec unaligned initializing m l p ka :
  leaf_arrays l -> mem_bytes m -> key_wf unaligned m ka -> len_ ka <= max_key_len ->
  0 <= p < leaf_width -> modstate_ l <> modstate_remove ->
  NoDup (kept initializing l p) -> Forall (fun q => 0 <= q < leaf_width) (kept initializing l p) ->
  Forall (fun q => q <> p -> Leaf.has_ksuf l q = true -> zlength (Leaf.ksuf l q) <= max_key_len) (kept initializing l p) ->
  exists l', Leaf.assign_with initializing m l p ka = Some l' /\ leaf_arrays l' /\ same_leaf l l' /\
    slot_entry l' p = key_entry m ka 0 /\
    (forall q, q <> p -> Leaf.ikey l' q = Leaf.ikey l q) /\
    (forall q, q ∈ kept initializing l p -> q <> p -> slot_entry l' q = slot_entry l q).
Proof.
  intros [Hk Hi Ha Hb] Hm Hka Hlen Hp Hms Hnd Hr Hs. unfold Leaf.assign_with, key_entry.
  destruct (Key.has_suffix ka) eqn:Hsuf; cbn [negb].
  - destruct (write_slot_spec l p ksuf_keylenx (Key.ikey ka) 0 Hk Hi Ha Hp) as
      (k & i & a & -> & Hlk & Hli & Hla & Hzk & Hzi & Hza). cbn [mbind option_bind].
    set (l1 := Leaf.set_slots l k i a).
    assert (forall q, q <> p -> Leaf.keylenx l1 q = Leaf.keylenx l q /\ Leaf.ikey l1 q = Leaf.ikey l q /\
      Leaf.lv l1 q = Leaf.lv l q) as Hother.
    { intros q Hq. unfold Leaf.keylenx, Leaf.ikey, Leaf.lv. split_and!; apply rd_eq; cbn;
        rewrite ?Hzk, ?Hzi, ?Hza; by destruct (Z.eqb_spec q p). }
    assert (forall q, q <> p -> Leaf.has_ksuf l1 q = Leaf.has_ksuf l q) as Hhas
      by (intros q Hq; unfold Leaf.has_ksuf; by rewrite (proj1 (Hother q Hq))).
    unfold Key.has_suffix in Hsuf. apply Z.ltb_lt in Hsuf.
    destruct (assign_ksuf_spec l1 p (str_bytes m (Key.suffix ka)) initializing) as
      (es & ks & iks & H1 & H2 & H3 & H4); try done.
    { unfold str_bytes, Key.suffix, ikey_size, max_key_len in *. cbn. rewrite zlength_load by lia. lia. }
    { intros q Hq Hne Hh. rewrite Hhas in Hh by done.
      change (Leaf.ksuf l1 q) with (Leaf.ksuf l q). by apply (proj1 (Forall_forall _ _) Hs q Hq). }
    rewrite H1. eexists. split; [done|]. split; [by split|]. split; [by split|]. split_and!.
    + unfold slot_entry. change (Leaf.has_ksuf _ p) with (Leaf.has_ksuf l1 p).
      change (Leaf.ikey _ p) with (rd i p). change (Leaf.keylenx _ p) with (rd k p).
      change (Leaf.lv _ p) with (rd a p).
      assert (Leaf.has_ksuf l1 p = true) as ->.
      { unfold Leaf.has_ksuf, Leaf.keylenx_has_ksuf, Leaf.keylenx. cbn [keylenx_ l1 Leaf.set_slots].
        by rewrite (rd_zlookup k p ksuf_keylenx) by (by rewrite Hzk, Z.eqb_refl). }
      rewrite H3. unfold rd. by rewrite Hzk, Hzi, Hza, !Z.eqb_refl.
    + intros q Hq. by apply Hother.
    + intros q Hq Hne. unfold slot_entry. destruct (Hother q Hne) as (E1 & E2 & E3).
      change (Leaf.has_ksuf (Leaf.set_ksuf l1 es ks iks) q) with (Leaf.has_ksuf l1 q).
      change (Leaf.ikey (Leaf.set_ksuf l1 es ks iks) q) with (Leaf.ikey l1 q).
      change (Leaf.keylenx (Leaf.set_ksuf l1 es ks iks) q) with (Leaf.keylenx l1 q).
      change (Leaf.lv (Leaf.set_ksuf l1 es ks iks) q) with (Leaf.lv l1 q).
      rewrite E1, E2, E3, (Hhas q Hne). destruct (Leaf.has_ksuf l q) eqn:Hh; [|done].
      rewrite H4 by (by rewrite ?Hhas). done.
  - unfold Key.has_suffix in Hsuf. apply Z.ltb_ge in Hsuf. unfold ikey_size in Hsuf.
    destruct Hka as [Hl0 _].
    assert (uwrap 8 (Key.length ka) = len_ ka) as -> by (apply uwrap_id; unfold in_u, Key.length; lia).
    destruct (write_slot_spec l p (len_ ka) (Key.ikey ka) 0 Hk Hi Ha Hp) as
      (k & i & a & -> & Hlk & Hli & Hla & Hzk & Hzi & Hza).
    eexists. split; [done|]. split; [by split|]. split; [by split|].
    assert (forall q, q <> p -> rd k q = Leaf.keylenx l q /\ rd i q = Leaf.ikey l q /\
      rd a q = Leaf.lv l q) as Hother.
    { intros q Hq. split_and!; apply rd_eq; rewrite ?Hzk, ?Hzi, ?Hza; by destruct (Z.eqb_spec q p). }
    split_and!.
    + unfold slot_entry, Leaf.has_ksuf, Leaf.keylenx_has_ksuf, Leaf.keylenx, Leaf.ikey, Leaf.lv. cbn.
      unfold rd. rewrite Hzk, Hzi, Hza, !Z.eqb_refl.
      destruct (Z.eqb_spec (len_ ka) ksuf_keylenx); [unfold ksuf_keylenx in *; lia|done].
    + intros q Hq. by apply Hother.
    + intros q Hq Hne. unfold slot_entry, Leaf.has_ksuf. destruct (Hother q Hne) as (E1 & E2 & E3).
      unfold Leaf.keylenx at 1 2, Leaf.ikey at 1, Leaf.lv at 1. cbn. by rewrite E1, E2, E3.
Qed.

(** * Entries *)
Section entries.
Context (l : leaf) (live free : list Z) (es : list entry) (Hl : leaf_entries l live free es).

Lemma kept_live p : kept false l p = live.
Proof using Hl.
  unfold kept. apply zlookup_ext.
  - rewrite (leaf_size l live free es) by done. unfold zlength. rewrite length_map, length_seqZ. lia.
  - rewrite (leaf_size l live free es) by done. intros i Hi. rewrite map_zlookup.
    assert (0 <= i < zlength live) as Hi' by (unfold zlength in *; rewrite length_map, length_seqZ in Hi; lia).
    rewrite (zlookup_nonneg (seqZ _ _)), lookup_seqZ_lt by lia. cbn.
    rewrite (repr_index leaf_width ltac:(done) _ _ _ i (le_repr _ _ _ _ Hl)) by done.
    do 2 f_equal. lia.
Qed.

Lemma live_range q : q ∈ live -> 0 <= q < leaf_width.
Proof using Hl.
  intros Hq. apply (repr_range leaf_width _ _ _ _ (le_repr _ _ _ _ Hl)). apply elem_of_app. by left.
Qed.
Lemma free_range q : q ∈ free -> 0 <= q < leaf_width.
Proof using Hl.
  intros Hq. apply (repr_range leaf_width _ _ _ _ (le_repr _ _ _ _ Hl)). apply elem_of_app. by right.
Qed.
Lemma live_NoDup : NoDup live.
Proof using Hl. pose proof (repr_NoDup leaf_width _ _ _ (le_repr _ _ _ _ Hl)) as H. apply NoDup_app in H as (H & _). done. Qed.
Lemma live_free q : q ∈ live -> q ∉ free.
Proof using Hl.
  pose proof (repr_NoDup leaf_width _ _ _ (le_repr _ _ _ _ Hl)) as H. apply NoDup_app in H as (_ & H & _). apply H.
Qed.
Lemma live_entry q : q ∈ live -> slot_entry l q ∈ es.
Proof using Hl. intros Hq. rewrite (le_es _ _ _ _ Hl). apply list_elem_of_fmap. by exists q. Qed.

Lemma live_suffix q : q ∈ live -> Leaf.has_ksuf l q = true -> zlength (Leaf.ksuf l q) <= max_key_len.
Proof using Hl.
  intros Hq Hh. pose proof (proj1 (Forall_forall _ _) (le_ok _ _ _ _ Hl) _ (live_entry q Hq)) as [_ He].
  unfold slot_entry in He. rewrite Hh in He. cbn in He.
  unfold Leaf.has_ksuf, Leaf.keylenx_has_ksuf in Hh. apply Z.eqb_eq in Hh. rewrite Hh in He.
  destruct He as [(? & _)|[(_ & _ & ?)|(? & _)]]; [unfold ksuf_keylenx in *; lia|lia|done].
Qed.

(** Changing what the live slots do not use. *)
Lemma leaf_entries_other l' :
  leaf_arrays l' -> permutation_ l' = permutation_ l ->
  (forall q, q ∈ live -> slot_entry l' q = slot_entry l q) -> leaf_entries l' live free es.
Proof using Hl.
  intros Ha Hp Hs. destruct Hl as [_ Hr He Hok Hso]. split; try done; [by rewrite Hp|].
  rewrite He. apply map_ext_in. intros q Hq%list_elem_of_In. by rewrite Hs.
Qed.

Lemma leaf_assign unaligned m ka p :
  mem_bytes m -> key_wf unaligned m ka -> len_ ka <= max_key_len -> p ∈ free ->
  modstate_ l <> modstate_remove ->
  exists l', Leaf.assign m l p ka = Some l' /\ leaf_entries l' live free es /\ same_leaf l l' /\
    slot_entry l' p = key_entry m ka 0 /\ (forall q, q <> p -> Leaf.ikey l' q = Leaf.ikey l q).
Proof using Hl.
  intros Hm Hka Hlen Hp Hms.
  destruct (assign_with_spec unaligned false m l p ka (le_arrays _ _ _ _ Hl) Hm Hka Hlen (free_range p Hp) Hms) as
    (l' & H1 & H2 & H3 & H4 & H5 & H6); rewrite ?kept_live.
  - apply live_NoDup.
  - apply Forall_forall, live_range.
  - apply Forall_forall. intros q Hq _. by apply live_suffix.
  - exists l'. split_and!; try done. apply leaf_entries_other; [done|apply H3|].
    intros q Hq. apply H6; [by rewrite kept_live|]. intros ->. by apply (live_free p).
Qed.
End entries.

Lemma StronglySorted_middle (es1 es2 : list entry) e :
  StronglySorted entry_lt (es1 ++ es2) -> Forall (fun f => entry_lt f e) es1 -> Forall (entry_lt e) es2 ->
  StronglySorted entry_lt (es1 ++ e :: es2).
Proof.
  induction es1 as [|f es1 IH]; cbn; intros Hs H1 H2; [by constructor|].
  inversion Hs; inversion H1; subst. constructor; [by apply IH|].
  match goal with H : Forall (entry_lt f) (_ ++ _) |- _ => apply Forall_app in H as [??] end.
  apply Forall_app. split; [done|by constructor].
Qed.
Lemma StronglySorted_delete (es1 es2 : list entry) e :
  StronglySorted entry_lt (es1 ++ e :: es2) -> StronglySorted entry_lt (es1 ++ es2).
Proof.
  induction es1 as [|f es1 IH]; cbn; intros Hs; inversion Hs; subst; [done|].
  constructor; [by apply IH|]. rewrite Forall_app, Forall_cons in *. tauto.
Qed.

Lemma back_repr x live free p :
  repr leaf_width x live (free ++ [p]) -> Kpermuter.back leaf_width x = p.
Proof.
  intros Hr. pose proof (repr_length leaf_width ltac:(done) _ _ _ Hr) as Hlen.
  rewrite zlength_app in Hlen. change (zlength [p]) with 1 in Hlen. unfold Kpermuter.back.
  apply (slots_index leaf_width _ _ _ _ (repr_slots _ _ _ _ Hr)); [unfold leaf_width in *; lia|].
  rewrite app_assoc. replace (leaf_width - 1) with (zlength (live ++ free)) by (rewrite zlength_app; lia).
  apply zlookup_mid.
Qed.

(** [finish_insert] brings the slot at the back into the live ones. *)
Definition finish_perm (l : leaf) (i : Z) : leaf :=
  Leaf.set_permutation l (store_permutation leaf_width
    (snd (insert_from_back leaf_width (Leaf.permutation l) i))).
Lemma leaf_insert l l1 l2 free p es :
  leaf_entries l (l1 ++ l2) (free ++ [p]) es -> entry_ok (slot_entry l p) ->
  Forall (fun q => entry_lt (slot_entry l q) (slot_entry l p)) l1 ->
  Forall (fun q => entry_lt (slot_entry l p) (slot_entry l q)) l2 ->
  leaf_entries (finish_perm l (zlength l1)) (l1 ++ p :: l2) free (map (slot_entry l) (l1 ++ p :: l2)).
Proof.
  intros [Ha Hr He Hok Hs] Hp H1 H2. subst es. rewrite map_app in Hok, Hs.
  apply Forall_app in Hok as [Hok1 Hok2]. split.
  - by destruct Ha.
  - pose proof (zlength_nonneg l1). pose proof (zlength_nonneg l2).
    destruct (insert_from_back_repr leaf_width ltac:(done) _ (zlength l1) _ _ _ Hr) as [_ H'];
      [rewrite zlength_app; lia|].
    apply store_permutation_repr; [done|]. by rewrite insert_at_app_mid in H'.
  - done.
  - rewrite map_app. apply Forall_app. split; [done|]. by constructor.
  - rewrite map_app. apply StronglySorted_middle; [done|by apply Forall_map..].
Qed.

(** [finish_remove] takes a live slot out. *)
Definition remove_perm (l : leaf) (i : Z) : leaf :=
  Leaf.set_permutation l (store_permutation leaf_width (remove leaf_width (Leaf.permutation l) i)).
Lemma leaf_remove l l1 p l2 free es :
  leaf_entries l (l1 ++ p :: l2) free es ->
  leaf_entries (remove_perm l (zlength l1)) (l1 ++ l2) (p :: free) (map (slot_entry l) (l1 ++ l2)).
Proof.
  intros [Ha Hr He Hok Hs]. subst es. rewrite map_app in Hok, Hs. cbn [map] in Hok, Hs.
  split.
  - by destruct Ha.
  - apply store_permutation_repr; [done|]. by apply (remove_repr leaf_width).
  - done.
  - rewrite map_app, !Forall_app, Forall_cons in *. tauto.
  - rewrite map_app. by eapply StronglySorted_delete.
Qed.

(** Writing the value of a slot. *)
Definition with_lv (e : entry) (v : Z) : entry := mkEntry (e_ikey e) (e_keylenx e) (e_suf e) v.
Definition set_lv (p v : Z) (l : leaf) : option leaf :=
  a ← wr (lv_ l) p v; Some (Leaf.set_slots l (keylenx_ l) (ikey0_ l) a).
Lemma set_lv_spec l p v :
  leaf_arrays l -> 0 <= p < leaf_width ->
  exists l', set_lv p v l = Some l' /\ leaf_arrays l' /\ same_leaf l l' /\
    (forall q, Leaf.ikey l' q = Leaf.ikey l q) /\
    (forall q, slot_entry l' q = if q =? p then with_lv (slot_entry l p) v else slot_entry l q).
Proof.
  intros [Hk Hi Ha Hb] Hp. unfold set_lv.
  destruct (wr_spec (lv_ l) p v) as (a & -> & Hla & Hza); [lia|]. cbn [mbind option_bind].
  eexists. split; [done|]. split; [split; cbn; done || lia|]. split; [done|]. split; [done|].
  intros q. unfold slot_entry at 1. unfold Leaf.lv. cbn [lv_ Leaf.set_slots].
  change (Leaf.has_ksuf _ q) with (Leaf.has_ksuf l q). change (Leaf.ksuf _ q) with (Leaf.ksuf l q).
  change (Leaf.ikey _ q) with (Leaf.ikey l q). change (Leaf.keylenx _ q) with (Leaf.keylenx l q).
  unfold rd. rewrite Hza. destruct (Z.eqb_spec q p) as [->|]; done.
Qed.

Lemma with_lv_ok e v : entry_ok e -> entry_ok (with_lv e v).
Proof. done. Qed.
Lemma with_lv_self e : with_lv e (e_lv e) = e.
Proof. by destruct e. Qed.

Lemma leaf_set_lv l l1 p l2 free es v :
  leaf_entries l (l1 ++ p :: l2) free es -> 
  exists l', set_lv p v l = Some l' /\ same_leaf l l' /\ (forall q, Leaf.ikey l' q = Leaf.ikey l q) /\
    (forall q, q <> p -> slot_entry l' q = slot_entry l q) /\ slot_entry l' p = with_lv (slot_entry l p) v /\
    leaf_entries l' (l1 ++ p :: l2) free
      (map (slot_entry l) l1 ++ with_lv (slot_entry l p) v :: map (slot_entry l) l2).
Proof.
  intros Hl. assert (0 <= p < leaf_width) as Hp
    by (apply (live_range l _ _ _ Hl); rewrite elem_of_app, elem_of_cons; tauto).
  destruct (set_lv_spec l p v (le_arrays _ _ _ _ Hl) Hp) as (l' & H1 & H2 & H3 & H4 & H5).
  exists l'. split_and!; try done.
  { intros q Hq. rewrite H5. by destruct (Z.eqb_spec q p). }
  { by rewrite H5, Z.eqb_refl. }
  pose proof (live_NoDup _ _ _ _ Hl) as Hnd. apply NoDup_app in Hnd as (_ & Hd1 & Hnd).
  apply NoDup_cons in Hnd as [Hd2 _].
  assert (map (slot_entry l') (l1 ++ p :: l2) =
    map (slot_entry l) l1 ++ with_lv (slot_entry l p) v :: map (slot_entry l) l2) as He.
  { rewrite map_app. cbn [map]. rewrite H5, Z.eqb_refl. f_equal; [|f_equal]; apply map_ext_in;
      intros q Hq%list_elem_of_In; rewrite H5; destruct (Z.eqb_spec q p) as [->|]; try done.
    destruct (Hd1 p Hq). apply elem_of_cons. by left. }
  destruct Hl as [Ha Hr -> Hok Hs]. rewrite map_app in Hok, Hs. cbn [map] in Hok, Hs. split.
  - done.
  - by rewrite (sl_permutation _ _ H3).
  - by rewrite He.
  - rewrite Forall_app, Forall_cons in *. destruct Hok as (? & ? & ?). split_and!; try done; by apply with_lv_ok.
  - apply StronglySorted_middle; [by eapply StronglySorted_delete|..].
    + clear -Hs. induction l1 as [|q l1 IH]; cbn in *; inversion Hs; subst; constructor; [|by apply IH].
      rewrite Forall_app, Forall_cons in *. tauto.
    + clear -Hs. induction l1 as [|q l1 IH]; cbn in *; inversion Hs; subst; [done|by apply IH].
Qed.

(** * New leaves *)
(** An empty leaf with the version [v]. *)
Record blank (v epoch : Z) (l : leaf) : Prop := {
  bl_entries : leaf_entries l [] (reverse (seqZ 0 leaf_width)) [];
  bl_version : lversion l = v;
  bl_modstate : modstate_ l = modstate_insert;
  bl_links : next_ l = 0 /\ prev_ l = 0 /\ lparent_ l = 0;
  bl_epoch : phantom_epoch_ l = epoch }.

Lemma make_blank ksufsize epoch :
  0 <= ksufsize -> exists l, Leaf.make ksufsize epoch = Some l /\ blank (Nodeversion.make NV true) epoch l.
Proof.
  intros Hk. unfold Leaf.make.
  assert (exists sz, iceil (Leaf.sizeof_leaf + Z.min ksufsize 128) 64 = sz /\ (sz = 320 \/ sz = 384 \/ sz = 448)) as (sz & -> & Hsz).
  { eexists. split; [done|]. unfold iceil, Leaf.sizeof_leaf.
    set (t := 312 + ksufsize `min` 128). assert (312 <= t <= 440) as Ht by lia. clearbody t.
    pose proof (Z.div_mod t 64 ltac:(done)). pose proof (Z.mod_pos_bound t 64 ltac:(done)).
    assert (t / 64 = 4 \/ t / 64 = 5 \/ t / 64 = 6) by lia. destruct (Z.eqb_spec (t mod 64) 0); lia. }
  assert (forall b cap, make_bag Leaf.internal_bits leaf_width cap = Some b -> cap < 2 ^ Leaf.internal_bits ->
    bag_wf Leaf.internal_bits leaf_width b) as Hbag.
  { intros b cap Hb Hc. by destruct (make_bag_wf Leaf.internal_bits leaf_width cap b) as [? _]. }
  assert (repr leaf_width (uwrap 64 (make_empty leaf_width)) [] (reverse (seqZ 0 leaf_width))) as Hrepr.
  { change [] with (seqZ 0 0). change (uwrap 64 (make_empty leaf_width)) with (make_sorted leaf_width 0). by apply make_sorted_repr. }
  destruct Hsz as [->|[->| ->]]; eexists; (split; [by vm_compute|]);
    (split; [split; [|exact Hrepr|done|constructor|constructor]|done..]); (split; [done..|]); cbn; [done|..];
    (split; [|done]).
  - apply (Hbag _ 72); by vm_compute.
  - apply (Hbag _ 136); by vm_compute.
Qed.

Lemma make_root_blank ksufsize epoch :
  0 <= ksufsize -> exists l, Leaf.make_root ksufsize epoch = Some l /\
    blank (Nodeversion.mark_root NV (Nodeversion.make NV true)) epoch l.
Proof.
  intros Hk. destruct (make_blank ksufsize epoch Hk) as (l & Hl & [[[Hx Hi Ha Hb] Hr _ _ _] Hv Hm _ He]).
  unfold Leaf.make_root. rewrite Hl. cbn [mbind option_bind].
  destruct (wr_spec (ikey0_ l) 0 0) as (i & -> & Hli & _); [rewrite Hi; done|]. cbn [mbind option_bind].
  eexists. split; [done|]. split; [|cbn; by rewrite Hv|done..].
  split; [|done|done|constructor|constructor]. by split; cbn; rewrite ?Hli.
Qed.
