(* ===== verification/Locate.v ===== *)
(** Where a key belongs in a table: the layer ([layer_at]) and its leaf
    ([leaf_at]) that are responsible for it, and how a changed leaf or layer
    changes the bindings of the whole table.  [find_locked] arrives there. *)
From Stdlib Require Import Sorted.
From S2P Require Import Prelude Compiler Memory StringSlice Key Ksearch Kpermuter Nodeversion.
From S2P Require Import Stringbag Node Heap Get Tree Find Steps LeafSpec.

(** * Bindings under a prefix *)
Definition add_prefix (pre : list Z) (kv : list Z * Z) : list Z * Z := (pre ++ fst kv, snd kv).
Definition nonempty_keys (B : list (list Z * Z)) : Prop := Forall (fun kv => fst kv <> []) B.

Lemma map_add_prefix_nil B : map (add_prefix []) B = B.
Proof. rewrite <- (map_id B) at 2. apply map_ext. by intros []. Qed.
Lemma map_add_prefix_app p q B : map (add_prefix p) (map (add_prefix q) B) = map (add_prefix (p ++ q)) B.
Proof. rewrite map_map. apply map_ext. intros []. unfold add_prefix. cbn. by rewrite app_assoc. Qed.

Lemma assoc_add_prefix p k B : assoc (p ++ k) (map (add_prefix p) B) = assoc k B.
Proof. apply assoc_prefix. Qed.
Lemma assoc_not_prefix p k B : (forall k', k <> p ++ k') -> assoc k (map (add_prefix p) B) = None.
Proof. intros H. apply assoc_None, Forall_map, Forall_forall. intros [k' v] _ He. by apply (H k'). Qed.

(** [B'] is [B] with the binding of [k] set to [v]; all other keys keep
    theirs. *)
Definition updated (k : list Z) (v : option Z) (B B' : list (list Z * Z)) : Prop :=
  assoc k B' = v /\ forall k', k' <> k -> assoc k' B' = assoc k' B.

Lemma updated_prefix p k v B B' :
  updated k v B B' -> updated (p ++ k) v (map (add_prefix p) B) (map (add_prefix p) B').
Proof.
  intros [H1 H2]. split; [by rewrite assoc_add_prefix|]. intros k' Hk'.
  destruct (decide (take (length p) k' = p)) as [He|He].
  - rewrite <- (take_drop (length p) k'), He, !assoc_add_prefix. apply H2. intros Hk.
    apply Hk'. by rewrite <- (take_drop (length p) k'), He, Hk.
  - assert (forall x, k' <> p ++ x) as Hx by (intros x ->; by rewrite take_app_length in He).
    by rewrite !assoc_not_prefix.
Qed.
Lemma updated_middle k v B1 B B' B2 :
  assoc k B1 = None -> assoc k B2 = None -> updated k v B B' -> updated k v (B1 ++ B ++ B2) (B1 ++ B' ++ B2).
Proof.
  intros H1 H2 [Hk Ho]. split.
  - rewrite assoc_app_None, assoc_app, Hk, H2 by done. by destruct v.
  - intros k' Hne. by rewrite !assoc_app, Ho.
Qed.
Lemma updated_map k v B B' :
  updated k v B B' -> (list_to_map B' : gmap (list Z) Z) = partial_alter (fun _ => v) k (list_to_map B).
Proof.
  intros [H1 H2]. apply map_eq. intros k'. rewrite assoc_list_to_map.
  destruct (decide (k = k')) as [->|Hne].
  - by rewrite lookup_partial_alter_eq.
  - rewrite lookup_partial_alter_ne, assoc_list_to_map by done. apply H2. done.
Qed.

Abbreviation binds Bns := (concat (map fst Bns)).
Abbreviation nodes Bns := (concat (map snd Bns)).

(** * Layers *)
Section layers.
Context {N : Layers}.

(** In the heap [h], the layer at the pointer [p] is the one for the strings
    that start with [pre]: [kb] is [pre ++ kbl].  The rest of the table, at
    [p0], binds [B1] before and [B2] after, in the nodes [nsr]; it stays as it
    is when the layer changes. *)
Record layer_at (h : gmap Z node) (p0 : Z) (B1 B2 : list (list Z * Z)) (nsr kb pre kbl : list Z)
    (p : Z) (n : nat) (Bl : list (list Z * Z)) (nsl : list Z) : Prop := {
  la_layer : layer_rep n h p Bl nsl;
  la_key : kb = pre ++ kbl;
  la_depth : (8 * max_layers = length pre + 8 * n)%nat;
  la_nonempty : pre <> [] -> kbl <> [];
  la_keys : pre <> [] -> nonempty_keys Bl;
  la_B1 : assoc kb B1 = None;
  la_B2 : assoc kb B2 = None;
  la_nodup : NoDup (nsr ++ nsl);
  la_replace : forall h' Bl' nsl', agree h h' nsr -> layer_rep n h' p Bl' nsl' ->
    (pre <> [] -> nonempty_keys Bl') ->
    exists ns', layer_rep max_layers h' p0 (B1 ++ map (add_prefix pre) Bl' ++ B2) ns' /\ ns' ≡ₚ nsr ++ nsl' }.

Lemma layer_at_root h p0 B ns kb :
  layer_rep max_layers h p0 B ns -> NoDup ns -> layer_at h p0 [] [] [] kb [] kb p0 max_layers B ns.
Proof.
  intros Hr Hnd. split; try done. intros h' Bl' nsl' _ Hr' _. exists nsl'.
  cbn [app]. by rewrite map_add_prefix_nil, app_nil_r.
Qed.

Lemma layer_at_update h p0 B1 B2 nsr kb pre kbl p n Bl nsl h' Bl' nsl' :
  layer_at h p0 B1 B2 nsr kb pre kbl p n Bl nsl -> agree h h' nsr -> layer_rep n h' p Bl' nsl' ->
  (pre <> [] -> nonempty_keys Bl') -> NoDup (nsr ++ nsl') ->
  layer_at h' p0 B1 B2 nsr kb pre kbl p n Bl' nsl'.
Proof.
  intros [H1 H2 H3 H4 H5 H6 H7 H8 H9] Hag Hr Hk Hnd. split; try done.
  intros h2 Bl2 nsl2 Hag2. apply H9. intros a Ha. rewrite Hag2 by done. by apply Hag.
Qed.

(** Setting a binding of the layer sets one of the table. *)
Lemma layer_at_updated h p0 B1 B2 nsr kb pre kbl p n Bl nsl v Bl' :
  layer_at h p0 B1 B2 nsr kb pre kbl p n Bl nsl -> updated kbl v Bl Bl' ->
  updated kb v (B1 ++ map (add_prefix pre) Bl ++ B2) (B1 ++ map (add_prefix pre) Bl' ++ B2).
Proof.
  intros H Hu. apply updated_middle; [apply H|apply H|]. rewrite (la_key _ _ _ _ _ _ _ _ _ _ _ _ H).
  by apply updated_prefix.
Qed.

(** * Leaves *)
(** In the layer at [p], [b] is the leaf for the slice [x]; [Bnb] are the
    bindings and nodes of its entries. *)
Record leaf_at (n : nat) (h : gmap Z node) (p x b : Z) (l : leaf) (d : nat) (r par lo hi : Z)
    (es1 esb es2 : list entry) (lns : list Z) (Bns1 Bnb Bns2 : list (list (list Z * Z) * list Z)) : Prop := {
  lf_climbs : climbs h lns p r;
  lf_linked : linked h 0 (leaves h lns);
  lf_focus : focus d h 0 r 0 (2 ^ ikey_bits) (es1 ++ esb ++ es2) lns x b l par lo hi es1 esb es2;
  lf_es1 : Forall2 (entry_rep (layer_rep n h)) es1 Bns1;
  lf_esb : Forall2 (entry_rep (layer_rep n h)) esb Bnb;
  lf_es2 : Forall2 (entry_rep (layer_rep n h)) es2 Bns2 }.

Lemma climbs_leaf h h' ns p r b l l' par lo hi es es' :
  climbs h ns p r -> h !! b = Some (NLeaf l) -> leaf_ok par lo hi l es ->
  (forall c, c ∈ ns -> c <> b -> h' !! c = h !! c) -> h' !! b = Some (NLeaf l') -> leaf_ok par lo hi l' es' ->
  Nodeversion.is_root NV (lversion l') = Nodeversion.is_root NV (lversion l) -> climbs h' ns p r.
Proof.
  intros Hc Hl Hok Hag Hl' Hok' Hroot'. revert Hc. apply climbs_keep. intros a n Hin Ha Hq.
  destruct (decide (a = b)) as [->|Hne]; [|exists n; by rewrite Hag].
  rewrite Hl in Ha. injection Ha as <-. exists (NLeaf l'). split_and!; [done|apply Hok'|done|].
  cbn. by rewrite (lo_parent _ _ _ _ _ Hok), (lo_parent _ _ _ _ _ Hok').
Qed.

Lemma leaves_leaf h h' ns b l l' :
  h !! b = Some (NLeaf l) -> (forall c, c ∈ ns -> c <> b -> h' !! c = h !! c) -> h' !! b = Some (NLeaf l') ->
  leaves h' ns = leaves h ns.
Proof.
  intros Hl Hag Hl'. induction ns as [|a ns IH]; [done|].
  assert (is_leaf_at h' a = is_leaf_at h a) as He.
  { unfold is_leaf_at. destruct (decide (a = b)) as [->|Hne]; [by rewrite Hl, Hl'|].
    rewrite Hag; [done| |done]. apply elem_of_cons. by left. }
  unfold leaves in *. rewrite !filter_cons, IH; [by rewrite He|].
  intros c Hc. apply Hag. apply elem_of_cons. by right.
Qed.
Lemma linked_leaf h h' prev ls b l l' :
  h !! b = Some (NLeaf l) -> (forall c, c ∈ ls -> c <> b -> h' !! c = h !! c) -> h' !! b = Some (NLeaf l') ->
  prev_ l' = prev_ l -> next_ l' = next_ l -> linked h prev ls -> linked h' prev ls.
Proof.
  intros Hl Hag Hl' Hp Hn. revert prev. induction ls as [|a ls IH]; intros prev; cbn [linked]; [done|].
  intros [(la & H1 & H2 & H3) Hrest]. split.
  - destruct (decide (a = b)) as [->|Hne].
    + exists l'. rewrite Hl in H1. injection H1 as <-. split_and!; congruence.
    + exists la. rewrite Hag; [done| |done]. apply elem_of_cons. by left.
  - apply IH; [|done]. intros c Hc. apply Hag. apply elem_of_cons. by right.
Qed.

Lemma leaf_at_mono n n' h p x b l d r par lo hi es1 esb es2 lns Bns1 Bnb Bns2 :
  (n <= n')%nat -> leaf_at n h p x b l d r par lo hi es1 esb es2 lns Bns1 Bnb Bns2 ->
  leaf_at n' h p x b l d r par lo hi es1 esb es2 lns Bns1 Bnb Bns2.
Proof.
  intros Hn [Hc Hlk Hf H1 Hb H2].
  split; try done; (eapply entries_rep_mono; [|done]); intros; by eapply layer_rep_mono.
Qed.

(** The leaf makes the layer. *)
Lemma leaf_at_layer n h p x b l d r par lo hi es1 esb es2 lns Bns1 Bnb Bns2 :
  leaf_at n h p x b l d r par lo hi es1 esb es2 lns Bns1 Bnb Bns2 -> NoDup lns ->
  layer_rep (S n) h p (binds (Bns1 ++ Bnb ++ Bns2)) (lns ++ nodes (Bns1 ++ Bnb ++ Bns2)).
Proof.
  intros [Hc Hlk Hf H1 Hb H2] Hnd.
  exists d, r, (es1 ++ esb ++ es2), lns, (Bns1 ++ Bnb ++ Bns2). split_and!; try done.
  - eapply (fc_replace _ _ _ _ _ _ _ _ _ _ _ _ _ _ _ _ _ Hf Hnd h l esb); [done|apply Hf..].
  - by repeat apply Forall2_app.
Qed.

(** Changing the leaf. *)
Lemma leaf_at_update n h p x b l d r par lo hi es1 esb es2 lns Bns1 Bnb Bns2 h' l' esb' Bnb' :
  leaf_at n h p x b l d r par lo hi es1 esb es2 lns Bns1 Bnb Bns2 ->
  (forall c, c ∈ lns -> c <> b -> h' !! c = h !! c) -> agree h h' (nodes Bns1) -> agree h h' (nodes Bns2) ->
  h' !! b = Some (NLeaf l') -> prev_ l' = prev_ l -> next_ l' = next_ l ->
  Nodeversion.is_root NV (lversion l') = Nodeversion.is_root NV (lversion l) -> leaf_ok par lo hi l' esb' ->
  Forall2 (entry_rep (layer_rep n h')) esb' Bnb' ->
  leaf_at n h' p x b l' d r par lo hi es1 esb' es2 lns Bns1 Bnb' Bns2.
Proof.
  intros [Hc Hlk Hf H1 Hb H2] Hag Hag1 Hag2 Hl' Hp Hn Hroot Hok' Hb'.
  pose proof (fc_leaf _ _ _ _ _ _ _ _ _ _ _ _ _ _ _ _ _ Hf) as Hl.
  pose proof (fc_ok _ _ _ _ _ _ _ _ _ _ _ _ _ _ _ _ _ Hf) as Hok.
  split; [by eapply climbs_leaf| | |by eapply entries_rep_frame|done|by eapply entries_rep_frame].
  - rewrite (leaves_leaf h h' lns b l l') by done. eapply linked_leaf; try done.
    intros c [_ Hc']%elem_of_leaves. by apply Hag.
  - split; try done; try apply Hf; intros Hnd; [intros h2 l2 esb2 Hag' Hl2 Hok2|].
    + apply (fc_replace _ _ _ _ _ _ _ _ _ _ _ _ _ _ _ _ _ Hf Hnd h2 l2 esb2); [|done|done].
      intros c Hc' Hne. rewrite Hag' by done. by apply Hag.
    + destruct (fc_path _ _ _ _ _ _ _ _ _ _ _ _ _ _ _ _ _ Hf Hnd) as (m1 & m2 & Hlns & Hpath).
      exists m1, m2. split; [done|]. eapply path_frame; [|exact Hpath].
      rewrite Hlns in Hnd. apply NoDup_app in Hnd as (_ & Hd & Hnd). apply NoDup_cons in Hnd as [Hd2 _].
      intros c Hc'. apply Hag.
      * rewrite Hlns. rewrite elem_of_app in *. rewrite elem_of_cons. tauto.
      * intros ->. apply elem_of_app in Hc' as [Hc'|Hc']; [|done]. apply (Hd b Hc'), elem_of_cons. by left.
Qed.

(** A pointer to a layer can be brought to the parent. *)
Lemma layer_rep_climb n h p B ns :
  layer_rep n h p B ns -> exists nd, h !! p = Some nd /\ quiet (node_version nd) /\ p ∈ ns /\
    (Nodeversion.is_root NV (node_version nd) = false ->
     node_parent nd <> 0 /\ layer_rep n h (node_parent nd) B ns /\
     exists nr, h !! node_parent nd = Some nr /\ Nodeversion.is_root NV (node_version nr) = true).
Proof.
  destruct n as [|n]; [done|]. cbn [layer_rep].
  intros (d & r & es & lns & Bns & Hc & Hrest & Hlk & He & HB & Hns).
  inversion Hc as [? nd Hin Hr Hq Hroot|? nd m Hin Ha Hq Hroot Hp Hr Hm Hqm Hrm]; subst.
  - exists nd. split_and!; [done..|apply elem_of_app; by left|congruence].
  - exists nd. split_and!; [done..|apply elem_of_app; by left|]. intros _. split_and!; [done| |by exists m].
    exists d, (node_parent nd), es, lns, Bns. split_and!; try done. by eapply climbs_root.
Qed.

Lemma map_fst_app {A B} (l1 l2 : list (list A * list B)) : binds (l1 ++ l2) = binds l1 ++ binds l2.
Proof. by rewrite map_app, concat_app. Qed.
Lemma map_snd_app {A B} (l1 l2 : list (list A * list B)) : nodes (l1 ++ l2) = nodes l1 ++ nodes l2.
Proof. by rewrite map_app, concat_app. Qed.


(** The layer below the entry that the key hits. *)
Lemma layer_at_down h p0 B1 B2 nsr kb pre kbl p n Bl nsl x b l d r par lo hi es1 esb es2 lns Bns1 Bnb Bns2 
    eb1 e eb2 Bb1 Be nse Bb2 kbl' B' :
  layer_at h p0 B1 B2 nsr kb pre kbl p (S n) Bl nsl ->
  leaf_at n h p x b l d r par lo hi es1 esb es2 lns Bns1 Bnb Bns2 ->
  Bl = binds (Bns1 ++ Bnb ++ Bns2) -> nsl = lns ++ nodes (Bns1 ++ Bnb ++ Bns2) ->
  esb = eb1 ++ e :: eb2 -> Bnb = Bb1 ++ (Be, nse) :: Bb2 ->
  Forall2 (entry_rep (layer_rep n h)) eb1 Bb1 -> Forall2 (entry_rep (layer_rep n h)) eb2 Bb2 ->
  e_keylenx e = layer_keylenx -> kbl = ikey_bytes (e_ikey e) ++ kbl' -> kbl' <> [] ->
  layer_rep n h (e_lv e) B' nse -> nonempty_keys B' ->
  Be = map (add_prefix (ikey_bytes (e_ikey e))) B' ->
  assoc kbl (binds (Bns1 ++ Bb1)) = None -> assoc kbl (binds (Bb2 ++ Bns2)) = None ->
  let pre' := pre ++ ikey_bytes (e_ikey e) in
  let B1' := B1 ++ map (add_prefix pre) (binds (Bns1 ++ Bb1)) in
  let B2' := map (add_prefix pre) (binds (Bb2 ++ Bns2)) ++ B2 in
  let nsr' := nsr ++ lns ++ nodes (Bns1 ++ Bb1) ++ nodes (Bb2 ++ Bns2) in
  layer_at h p0 B1' B2' nsr' kb pre' kbl' (e_lv e) n B' nse /\
  B1' ++ map (add_prefix pre') B' ++ B2' = B1 ++ map (add_prefix pre) Bl ++ B2 /\ nsr' ++ nse ≡ₚ nsr ++ nsl.
Proof.
  intros Hla Hlf HBl Hnsl Hesb HBnb He1 He2 Hkx Hkbl Hne HL HneB HBe Ha1 Ha2. cbv zeta.
  assert (Bl = binds (Bns1 ++ Bb1) ++ Be ++ binds (Bb2 ++ Bns2)) as HBl'.
  { rewrite HBl, HBnb, <- app_assoc. cbn [app]. rewrite (app_assoc Bns1), (map_fst_app (Bns1 ++ Bb1)). done. }
  assert (nsl ≡ₚ (lns ++ nodes (Bns1 ++ Bb1) ++ nodes (Bb2 ++ Bns2)) ++ nse) as Hnsl'.
  { rewrite Hnsl, HBnb, <- app_assoc. cbn [app]. rewrite (app_assoc Bns1), (map_snd_app (Bns1 ++ Bb1)). cbn.
    rewrite <- !app_assoc. do 2 f_equiv. apply Permutation_app_comm. }
  assert (Hk : kb = pre ++ kbl) by apply Hla.
  split; [split; try done|split].
  - by rewrite Hk, Hkbl, app_assoc.
  - pose proof (la_depth _ _ _ _ _ _ _ _ _ _ _ _ Hla). rewrite length_app, length_ikey_bytes. lia.
  - rewrite assoc_app_None by apply Hla. by rewrite Hk, assoc_add_prefix.
  - rewrite assoc_app_None by (by rewrite Hk, assoc_add_prefix). apply Hla.
  - rewrite <- app_assoc, <- Hnsl'. apply Hla.
  - intros h' Bl' nsl' Hag Hr' HneB'. apply agree_app in Hag as [Hag Hag']. apply agree_app in Hag' as [Hagl Hag'].
    apply agree_app in Hag' as [Hag1 Hag2]. rewrite map_snd_app in Hag1, Hag2.
    apply agree_app in Hag1 as [Hag11 Hag12]. apply agree_app in Hag2 as [Hag21 Hag22].
    set (Bnb' := Bb1 ++ (map (add_prefix (ikey_bytes (e_ikey e))) Bl', nsl') :: Bb2).
    assert (Forall2 (entry_rep (layer_rep n h')) esb Bnb') as Hb'.
    { rewrite Hesb. apply Forall2_app; [by eapply entries_rep_frame|constructor; [|by eapply entries_rep_frame]].
      unfold entry_rep. rewrite Hkx. change (layer_keylenx =? layer_keylenx) with true. cbv iota.
      exists Bl'. split_and!; [done|apply HneB'|done].
      intros Hpre. apply app_nil in Hpre as [_ Hpre]. apply (f_equal length) in Hpre. by rewrite length_ikey_bytes in Hpre. }
    pose proof (lf_focus _ _ _ _ _ _ _ _ _ _ _ _ _ _ _ _ _ _ Hlf) as Hf.
    pose proof (fc_in _ _ _ _ _ _ _ _ _ _ _ _ _ _ _ _ _ Hf) as Hbin.
    pose proof (la_nodup _ _ _ _ _ _ _ _ _ _ _ _ Hla) as Hnd. rewrite Hnsl in Hnd.
    apply NoDup_app in Hnd as (_ & _ & Hnd). apply NoDup_app in Hnd as (Hnd & _ & _).
    assert (layer_rep (S n) h' p (binds (Bns1 ++ Bnb' ++ Bns2)) (lns ++ nodes (Bns1 ++ Bnb' ++ Bns2))) as HR.
    { eapply leaf_at_layer; [|done]. eapply (leaf_at_update n h); try done.
      - intros c Hc _. by apply Hagl.
      - rewrite Hagl; [apply Hf|done].
      - apply Hf. }
    destruct (la_replace _ _ _ _ _ _ _ _ _ _ _ _ Hla h' _ _ Hag HR) as (ns' & H0 & Hp0).
    + intros Hpre. pose proof (la_keys _ _ _ _ _ _ _ _ _ _ _ _ Hla Hpre) as Hk0. rewrite HBl' in Hk0.
      unfold Bnb'. rewrite <- app_assoc. cbn [app]. rewrite (app_assoc Bns1), (map_fst_app (Bns1 ++ Bb1)).
      cbn [map concat fst]. unfold nonempty_keys in *. rewrite !Forall_app in *.
      destruct Hk0 as (? & _ & ?). split_and!; [done| |done]. apply Forall_map, Forall_forall.
      intros [k v] _ [Hk0' _]%app_nil. apply (f_equal length) in Hk0'. by rewrite length_ikey_bytes in Hk0'.
    + exists ns'. split.
      * replace ((B1 ++ map (add_prefix pre) (binds (Bns1 ++ Bb1))) ++
          map (add_prefix (pre ++ ikey_bytes (e_ikey e))) Bl' ++ map (add_prefix pre) (binds (Bb2 ++ Bns2)) ++ B2)
          with (B1 ++ map (add_prefix pre) (binds (Bns1 ++ Bnb' ++ Bns2)) ++ B2); [done|].
        unfold Bnb'. rewrite <- (app_assoc Bb1). cbn [app]. rewrite (app_assoc Bns1), (map_fst_app (Bns1 ++ Bb1)).
        cbn [map concat fst]. by rewrite !map_app, <- map_add_prefix_app, <- !app_assoc.
      * rewrite Hp0. unfold Bnb'. rewrite <- (app_assoc Bb1). cbn [app].
        rewrite (app_assoc Bns1), (map_snd_app (Bns1 ++ Bb1)). cbn [map concat snd].
        rewrite <- !app_assoc. do 3 f_equiv. apply Permutation_app_comm.
  - rewrite HBl', HBe, !map_app, <- map_add_prefix_app, <- !app_assoc. done.
  - rewrite Hnsl', <- !app_assoc. done.
Qed.

(** The search of the whole layer for the leaf. *)
Lemma layer_rep_leaf_at n s p B ns ka :
  layer_rep (S n) (heap s) p B ns -> in_u ikey_bits (Key.ikey0_ ka) ->
  exists b l d r par lo hi es1 esb es2 lns Bns1 Bnb Bns2 F,
    leaf_at n (heap s) p (Key.ikey0_ ka) b l d r par lo hi es1 esb es2 lns Bns1 Bnb Bns2 /\
    B = binds (Bns1 ++ Bnb ++ Bns2) /\ ns = lns ++ nodes (Bns1 ++ Bnb ++ Bns2) /\
    Forall entry_ok (es1 ++ esb ++ es2) /\
    forall fuel, (F <= fuel)%nat -> reach_leaf fuel p ka s = Some ((b, lversion l), s).
Proof.
  cbn [layer_rep]. intros (d & r & es & lns & Bns & Hc & Hnode & Hlk & He & HB & Hns) Hk.
  pose proof (node_entries_ok _ _ _ _ _ _ _ _ Hnode) as Hok.
  destruct (reach_leaf_spec s lns p r d es lns ka Hc Hnode Hk) as
    (b & l & par & lo & hi & es1 & esb & es2 & F & Hf & Hreach).
  pose proof (fc_es _ _ _ _ _ _ _ _ _ _ _ _ _ _ _ _ _ Hf) as Hes. subst es.
  apply Forall2_app_inv_l in He as (Bns1 & Bns' & H1 & He & ->).
  apply Forall2_app_inv_l in He as (Bnb & Bns2 & Hb & H2 & ->).
  by exists b, l, d, r, par, lo, hi, es1, esb, es2, lns, Bns1, Bnb, Bns2, F.
Qed.

(** What the entries of other leaves bind is not the key. *)
Lemma leaf_at_others unaligned m ka n h p b l d r par lo hi es1 esb es2 lns Bns1 Bnb Bns2 :
  mem_bytes m -> key_wf unaligned m ka -> Forall entry_ok (es1 ++ esb ++ es2) ->
  leaf_at n h p (Key.ikey0_ ka) b l d r par lo hi es1 esb es2 lns Bns1 Bnb Bns2 ->
  assoc (key_bytes m ka) (binds Bns1) = None /\ assoc (key_bytes m ka) (binds Bns2) = None.
Proof.
  intros Hm Hka Hok [_ _ Hf H1 _ H2]. rewrite !Forall_app in Hok. destruct Hok as (Hok1 & _ & Hok2).
  pose proof (fc_range _ _ _ _ _ _ _ _ _ _ _ _ _ _ _ _ _ Hf).
  split.
  - eapply (assoc_entries_None unaligned m ka Hm Hka _ es1); try done.
    eapply Forall_impl; [apply Hf|]. cbn. intros e He. apply cmp_entry_ikey. lia.
  - eapply (assoc_entries_None unaligned m ka Hm Hka _ es2); try done.
    eapply Forall_impl; [apply Hf|]. cbn. intros e He. apply cmp_entry_ikey. lia.
Qed.

Definition match_state (m : mem) (l : leaf) (ka : key) : Z :=
  let kx := Leaf.lower ka l in
  if 0 <=? kip_p kx then Leaf.ksuf_matches m l (kip_p kx) ka else 0.

Lemma match_layer m l ka :
  match_state m l ka < 0 ->
  0 <= kip_p (Leaf.lower ka l) /\ e_keylenx (slot_entry l (kip_p (Leaf.lower ka l))) = layer_keylenx /\
  match_state m l ka = - ikey_size.
Proof.
  unfold match_state. cbv zeta. destruct (Z.leb_spec 0 (kip_p (Leaf.lower ka l))); [|lia].
  unfold Leaf.ksuf_matches. destruct (_ <? ksuf_keylenx); [lia|].
  destruct (Z.eqb_spec (Leaf.keylenx l (kip_p (Leaf.lower ka l))) layer_keylenx); [done|].
  destruct (Leaf.suffix_eq _ _ _); cbn; lia.
Qed.

(** A cursor's place: in the table at [p0] with the bindings [B] and the nodes
    [ns], [b] is the leaf for the key [kb], of which [ka] is what is left in
    the leaf's layer. *)
Definition found_at (unaligned : bool) (m : mem) (h : gmap Z node) (p0 : Z) (kb : list Z)
    (B : list (list Z * Z)) (ns : list Z) (ka : key) (b : Z) (l : leaf) : Prop :=
  key_wf unaligned m ka /\
  exists B1 B2 nsr pre p n Bl nsl d par lo hi es1 esb es2 lns Bns1 Bnb Bns2,
    layer_at h p0 B1 B2 nsr kb pre (key_bytes m ka) p (S n) Bl nsl /\
    leaf_at n h p (Key.ikey0_ ka) b l d p par lo hi es1 esb es2 lns Bns1 Bnb Bns2 /\
    Forall entry_ok (es1 ++ esb ++ es2) /\
    Bl = binds (Bns1 ++ Bnb ++ Bns2) /\ nsl = lns ++ nodes (Bns1 ++ Bnb ++ Bns2) /\
    B = B1 ++ map (add_prefix pre) Bl ++ B2 /\ ns ≡ₚ nsr ++ nsl.

(** The keys of a cursor are ends of the same string. *)
Definition same_string (ka ka' : key) : Prop :=
  first_ ka' = first_ ka /\ s_ ka <= s_ ka' /\ s_ ka' + len_ ka' = s_ ka + len_ ka.

Definition locked_leaf (l : leaf) : leaf := Leaf.set_version l (lockv (lversion l)).

Lemma lockv_changed v : quiet v -> Nodeversion.has_changed NV (lockv v) v = false.
Proof.
  intros Hq. unfold Nodeversion.has_changed, lockv. apply Z.ltb_ge.
  assert (Z.lxor v (Z.lor v (lock_bit NV)) = 1) as ->; [|done].
  apply quiet_iff in Hq as [_ Hb]. apply Z.bits_inj'. intros n Hn.
  change (lock_bit NV) with (2 ^ 0). change 1 with (2 ^ 0).
  rewrite Z.lxor_spec, Z.lor_spec, Z.pow2_bits_eqb by lia.
  destruct (Z.eqb_spec 0 n) as [<-|]; [by rewrite Hb by (cbn; tauto)|].
  rewrite orb_false_r. apply xorb_nilpotent.
Qed.

(** * One round of [find_locked] in a leaf *)
Section forward.
Context (unaligned : bool) (s : state) (root0 root : Z) (ka : key) (b : Z) (l : leaf).
Context (Hb : heap s !! b = Some (NLeaf l)) (Hq : quiet (lversion l)) (fuel : nat).

Lemma heap_with_heap h : heap (with_heap s h) = h.
Proof. done. Qed.

Lemma lock_leaf :
  lock b (lversion l) s = Some (lockv (lversion l), with_heap s (<[b := NLeaf (locked_leaf l)]> (heap s))).
Proof using Hb Hq. exact (lock_eq s b (NLeaf l) Hb Hq). Qed.

Lemma forward_found :
  0 <= match_state (kmem s) l ka -> modstate_ l <> modstate_deleted_layer ->
  locked_forward unaligned (S fuel) root0 root ka b (lversion l) s =
  Some (inr (b, ka, Leaf.lower ka l, match_state (kmem s) l ka),
        with_heap s (<[b := NLeaf (locked_leaf l)]> (heap s))).
Proof using Hb Hq.
  intros Hst Hms. destruct (quiet_bits _ Hq) as (_ & _ & Hdel). cbn [locked_forward]. rewrite Hdel, bind_gets.
  rewrite (bind_eq _ _ _ _ _ (get_leaf_eq _ _ _ Hb)). fold (match_state (kmem s) l ka).
  rewrite (bind_eq _ _ _ _ _ (version_eq _ _ _ Hb)).
  assert ((match_state (kmem s) l ka <? 0) = false) as Hlt by (apply Z.ltb_ge; lia). rewrite Hlt.
  cbn [andb]. rewrite bind_ret, (bind_eq _ _ _ _ _ lock_leaf).
  rewrite (bind_eq _ _ _ _ _ (get_leaf_eq _ _ (locked_leaf l) (lookup_insert_eq _ _ _))).
  rewrite (bind_eq _ _ _ _ _ (version_eq _ _ (NLeaf (locked_leaf l)) (lookup_insert_eq _ _ _))).
  change (node_version (NLeaf (locked_leaf l))) with (lockv (lversion l)). rewrite (lockv_changed _ Hq).
  change (Leaf.permutation (locked_leaf l)) with (Leaf.permutation l). rewrite Z.eqb_refl. cbn [orb negb].
  change (Leaf.deleted_layer (locked_leaf l)) with (modstate_ l =? modstate_deleted_layer).
  by destruct (Z.eqb_spec (modstate_ l) modstate_deleted_layer).
Qed.

Lemma forward_layer nd :
  let lv := Leaf.lv l (kip_p (Leaf.lower ka l)) in
  match_state (kmem s) l ka < 0 -> heap s !! lv = Some nd -> Nodeversion.is_root NV (node_version nd) = true ->
  locked_forward unaligned (S fuel) root0 root ka b (lversion l) s =
  Some (inl (lv, Key.shift_by unaligned (kmem s) ka ikey_size), s).
Proof using Hb Hq.
  intros lv Hst Hlv Hroot. destruct (quiet_bits _ Hq) as (_ & _ & Hdel). cbn [locked_forward]. rewrite Hdel, bind_gets.
  destruct (match_layer _ _ _ Hst) as (Hp & _ & Hst').
  rewrite (bind_eq _ _ _ _ _ (get_leaf_eq _ _ _ Hb)). fold (match_state (kmem s) l ka).
  rewrite (bind_eq _ _ _ _ _ (version_eq _ _ _ Hb)), has_changed_refl.
  assert ((match_state (kmem s) l ka <? 0) = true) as Hlt by (by apply Z.ltb_lt). rewrite Hlt.
  cbn [andb negb]. destruct (Z.leb_spec 0 (kip_p (Leaf.lower ka l))); [|lia]. fold lv.
  rewrite bind_assoc, (bind_eq _ _ _ _ _ (version_eq _ _ _ Hlv)), bind_ret, Hroot, Hst'. done.
Qed.

Lemma forward_stale nd l' :
  let p := kip_p (Leaf.lower ka l) in
  match_state (kmem s) l ka < 0 -> heap s !! Leaf.lv l p = Some nd ->
  Nodeversion.is_root NV (node_version nd) = false -> node_parent nd <> 0 -> Leaf.lv l p <> b ->
  set_lv p (node_parent nd) l = Some l' ->
  locked_forward unaligned (S fuel) root0 root ka b (lversion l) s =
  Some (inl (node_parent nd, Key.shift_by unaligned (kmem s) ka ikey_size),
        with_heap s (<[b := NLeaf l']> (heap s))).
Proof using Hb Hq.
  intros p Hst Hlv Hroot Hpar Hne Hset. destruct (quiet_bits _ Hq) as (_ & _ & Hdel).
  cbn [locked_forward]. rewrite Hdel, bind_gets.
  destruct (match_layer _ _ _ Hst) as (Hp & _ & Hst').
  rewrite (bind_eq _ _ _ _ _ (get_leaf_eq _ _ _ Hb)). fold (match_state (kmem s) l ka).
  rewrite (bind_eq _ _ _ _ _ (version_eq _ _ _ Hb)), has_changed_refl.
  assert ((match_state (kmem s) l ka <? 0) = true) as Hlt by (by apply Z.ltb_lt). rewrite Hlt.
  cbn [andb negb]. destruct (Z.leb_spec 0 (kip_p (Leaf.lower ka l))); [|lia]. fold p.
  rewrite bind_assoc, (bind_eq _ _ _ _ _ (version_eq _ _ _ Hlv)), bind_ret, Hroot.
  rewrite (bind_eq _ _ _ _ _ lock_leaf).
  rewrite (bind_eq _ _ _ _ _ (get_leaf_eq _ _ (locked_leaf l) (lookup_insert_eq _ _ _))).
  rewrite (bind_eq _ _ _ _ _ (version_eq _ _ (NLeaf (locked_leaf l)) (lookup_insert_eq _ _ _))).
  change (node_version (NLeaf (locked_leaf l))) with (lockv (lversion l)). rewrite (lockv_changed _ Hq).
  change (Leaf.permutation (locked_leaf l)) with (Leaf.permutation l). rewrite Z.eqb_refl. cbn [orb negb].
  change (Leaf.lv (locked_leaf l) p) with (Leaf.lv l p).
  erewrite bind_eq; [|by eapply maybe_parent_eq; rewrite heap_with_heap, lookup_insert_ne].
  destruct (Z.eqb_spec (node_parent nd) 0); [done|].
  unfold set_lv in Hset. destruct (wr (lv_ l) p (node_parent nd)) as [a|] eqn:Ew; [|done].
  cbn [mbind option_bind] in Hset. injection Hset as <-.
  erewrite bind_eq; [|eapply try_update_leaf_eq; [apply lookup_insert_eq|]].
  2: { change (lv_ (locked_leaf l)) with (lv_ l). by rewrite Ew. }
  erewrite bind_eq; [|eapply unlock_eq; [apply lookup_insert_eq|]].
  2: { by apply lock_busy. }
  change (node_version _) with (lockv (lversion l)). unfold lockv. rewrite (unlock_lock _ Hq).
  rewrite Hst'. change (- - ikey_size) with ikey_size. unfold ret. do 2 f_equal. unfold with_heap. cbn.
  by rewrite !insert_insert_eq.
Qed.
End forward.

(** A leaf hit by the key, in pieces. *)
Lemma lower_hit l live free es ka :
  leaf_entries l live free es -> let p := kip_p (Leaf.lower ka l) in
  0 <= p -> exists l1 l2, live = l1 ++ p :: l2 /\ zlength l1 = kip_i (Leaf.lower ka l) /\
    es = map (slot_entry l) l1 ++ slot_entry l p :: map (slot_entry l) l2 /\
    0 <= p < leaf_width /\ cmp_entry ka (slot_entry l p) = 0 /\ above l ka l1 /\ below l ka l2.
Proof.
  intros Hl p Hp. destruct (leaf_lower_spec l live free es Hl ka) as [[Hn _]|(Hr & Hc & l1 & l2 & Hlive & Hi & H1 & H2)];
    [unfold p in *; lia|].
  exists l1, l2. fold p in Hlive, Hc, Hr. split_and!; try done; [|apply Hr].
  rewrite (le_es _ _ _ _ Hl), Hlive, map_app. done.
Qed.

(** The layer below a hit layer entry. *)
Lemma found_down unaligned m h p0 kb B1 B2 nsr pre p n Bl nsl ka b l d r par lo hi es1 esb es2 lns Bns1 Bnb Bns2 :
  mem_bytes m -> key_wf unaligned m ka ->
  layer_at h p0 B1 B2 nsr kb pre (key_bytes m ka) p (S n) Bl nsl ->
  leaf_at n h p (Key.ikey0_ ka) b l d r par lo hi es1 esb es2 lns Bns1 Bnb Bns2 ->
  Forall entry_ok (es1 ++ esb ++ es2) ->
  Bl = binds (Bns1 ++ Bnb ++ Bns2) -> nsl = lns ++ nodes (Bns1 ++ Bnb ++ Bns2) ->
  let q := kip_p (Leaf.lower ka l) in
  0 <= q -> e_keylenx (slot_entry l q) = layer_keylenx ->
  let ka' := Key.shift_by unaligned m ka ikey_size in
  key_wf unaligned m ka' /\ same_string ka ka' /\
  exists B1' B2' nsr' pre' B' ns', layer_at h p0 B1' B2' nsr' kb pre' (key_bytes m ka') (Leaf.lv l q) n B' ns' /\
    B1' ++ map (add_prefix pre') B' ++ B2' = B1 ++ map (add_prefix pre) Bl ++ B2 /\ nsr' ++ ns' ≡ₚ nsr ++ nsl /\
    b ∉ ns'.
Proof.
  intros Hm Hka Hla Hlf Hok HBl Hnsl q Hq Hkx ka'.
  pose proof (lf_focus _ _ _ _ _ _ _ _ _ _ _ _ _ _ _ _ _ _ Hlf) as Hf.
  pose proof (fc_ok _ _ _ _ _ _ _ _ _ _ _ _ _ _ _ _ _ Hf) as Hlok.
  destruct (lo_entries _ _ _ _ _ Hlok) as (live & free & Hle).
  destruct (lower_hit l live free esb ka Hle Hq) as (l1 & l2 & Hlive & _ & Hesb & Hqr & Hc & Ha & Hbl). fold q in Hlive, Hesb, Hqr, Hc.
  destruct (cmp_ne_of_above_below l ka l1 l2 Ha Hbl) as [Hn1 Hn2].
  pose proof Hok as Hok0. rewrite !Forall_app in Hok. destruct Hok as (Hok1 & Hokb & Hok2).
  pose proof (lf_esb _ _ _ _ _ _ _ _ _ _ _ _ _ _ _ _ _ _ Hlf) as Heb. rewrite Hesb in Hokb, Heb.
  pose proof Hokb as Hokb'. apply Forall_app in Hokb' as [Hokb1 Hokb2]. inversion Hokb2 as [|? ? Hoke Hokb3]; subst.
  apply Forall2_app_inv_l in Heb as (Bb1 & Bb' & He1 & He & ->).
  inversion He as [|? [Be nse] ? Bb2 Hre He2]; subst. clear He.
  set (e := slot_entry l q) in *.
  destruct (cmp_entry_long unaligned m ka Hm Hka e Hoke) as [_ Hlong]; [rewrite Hkx; done|].
  destruct (Hlong Hc) as [Hlen Hie].
  assert (key_wf unaligned m ka') as Hka' by (apply shift_by_wf; [done|lia]).
  assert (key_bytes m ka = ikey_bytes (e_ikey e) ++ key_bytes m ka') as Hkb
    by (rewrite Hie; by apply (key_bytes_suffix unaligned)).
  split; [done|]. split; [unfold same_string, ka', Key.shift_by, ikey_size; cbn; lia|].
  unfold entry_rep in Hre. rewrite Hkx in Hre. change (layer_keylenx =? layer_keylenx) with true in Hre.
  cbv iota in Hre. cbn [fst snd] in Hre. destruct Hre as (B' & HL & HneB & ->).
  assert (key_bytes m ka' <> []) as Hne.
  { intros Hn. apply (f_equal length) in Hn. unfold key_bytes, ka', Key.shift_by in Hn. cbn in Hn.
    rewrite length_load in Hn. cbn in Hn. unfold ikey_size in *. lia. }
  destruct (leaf_at_others unaligned m ka _ _ _ _ _ _ _ _ _ _ _ _ _ _ _ _ _ Hm Hka Hok0 Hlf) as [Ho1 Ho2].
  edestruct (layer_at_down _ _ _ _ _ _ _ _ _ _ _ _ _ _ _ _ _ _ _ _ _ _ _ _ _ _ _ _ _ _ _ _ _ _ _ _
    Hla Hlf eq_refl eq_refl eq_refl eq_refl He1 He2 Hkx Hkb Hne HL HneB eq_refl) as (H1 & H2 & H3).
  - rewrite map_fst_app, assoc_app, Ho1. eapply (assoc_entries_None unaligned m ka Hm Hka _ (map (slot_entry l) l1)); try done.
  - rewrite map_fst_app, assoc_app_None; [done|].
    eapply (assoc_entries_None unaligned m ka Hm Hka _ (map (slot_entry l) l2)); try done.
  - eexists _, _, _, _, _, _. split_and!; [exact H1|exact H2|exact H3|].
    pose proof (la_nodup _ _ _ _ _ _ _ _ _ _ _ _ Hla) as Hnd. apply NoDup_app in Hnd as (_ & _ & Hnd).
    apply NoDup_app in Hnd as (_ & Hd & _). intros Hin. apply (Hd b); [apply Hf|].
    rewrite !map_snd_app. cbn. rewrite !elem_of_app. right; left; right; left. done.
Qed.

Lemma entry_rep_with_lv L e v B ns :
  entry_rep L e (B, ns) -> e_keylenx e = layer_keylenx ->
  (forall B' ns', L (e_lv e) B' ns' -> L v B' ns') -> entry_rep L (with_lv e v) (B, ns).
Proof.
  unfold entry_rep. intros He Hk HL. cbn [with_lv e_keylenx e_ikey e_lv]. rewrite Hk in *.
  change (layer_keylenx =? layer_keylenx) with true in *. cbv iota in *.
  destruct He as (B' & H1 & H2). exists B'. split; [by apply HL|done].
Qed.

Lemma same_leaf_ok par lo hi l l' es es' live free :
  leaf_ok par lo hi l es -> same_leaf l l' -> leaf_entries l' live free es' ->
  in_range lo hi es' -> (prev_ l <> 0 -> Leaf.ikey_bound l' = Leaf.ikey_bound l) -> leaf_ok par lo hi l' es'.
Proof.
  intros [H1 H2 H3 H4 H5 H6 H7 H8] [E1 E2 E3 E4 E5 E6 E7] He Hr Hb.
  split; rewrite ?E1, ?E2, ?E5, ?E6; try done; [by exists live, free|]. intros Hp. rewrite Hb by done. by apply H7.
Qed.

(** Redirecting a layer pointer to the parent changes nothing else. *)
Lemma found_stale unaligned m h p0 kb B1 B2 nsr pre p n Bl nsl ka b l d r par lo hi es1 esb es2 lns Bns1 Bnb Bns2 nd :
  mem_bytes m -> key_wf unaligned m ka ->
  layer_at h p0 B1 B2 nsr kb pre (key_bytes m ka) p (S n) Bl nsl ->
  leaf_at n h p (Key.ikey0_ ka) b l d r par lo hi es1 esb es2 lns Bns1 Bnb Bns2 ->
  Forall entry_ok (es1 ++ esb ++ es2) ->
  Bl = binds (Bns1 ++ Bnb ++ Bns2) -> nsl = lns ++ nodes (Bns1 ++ Bnb ++ Bns2) ->
  let q := kip_p (Leaf.lower ka l) in
  0 <= q -> e_keylenx (slot_entry l q) = layer_keylenx -> b <> Leaf.lv l q -> h !! Leaf.lv l q = Some nd ->
  Nodeversion.is_root NV (node_version nd) = false ->
  node_parent nd <> 0 /\ exists l' esb', set_lv q (node_parent nd) l = Some l' /\
    Leaf.lower ka l' = Leaf.lower ka l /\ slot_entry l' q = with_lv (slot_entry l q) (node_parent nd) /\
    let h' := <[b := NLeaf l']> h in
    layer_at h' p0 B1 B2 nsr kb pre (key_bytes m ka) p (S n) Bl nsl /\
    leaf_at n h' p (Key.ikey0_ ka) b l' d r par lo hi es1 esb' es2 lns Bns1 Bnb Bns2 /\
    Forall entry_ok (es1 ++ esb' ++ es2).
Proof.
  intros Hm Hka Hla Hlf Hok HBl Hnsl q Hq Hkx Hbne Hnd Hroot.
  pose proof (lf_focus _ _ _ _ _ _ _ _ _ _ _ _ _ _ _ _ _ _ Hlf) as Hf.
  pose proof (fc_ok _ _ _ _ _ _ _ _ _ _ _ _ _ _ _ _ _ Hf) as Hlok.
  pose proof (fc_in _ _ _ _ _ _ _ _ _ _ _ _ _ _ _ _ _ Hf) as Hbin.
  destruct (lo_entries _ _ _ _ _ Hlok) as (live & free & Hle).
  destruct (lower_hit l live free esb ka Hle Hq) as (l1 & l2 & -> & _ & Hesb & Hqr & Hc & _).
  fold q in Hle, Hesb, Hqr, Hc.
  pose proof (lf_esb _ _ _ _ _ _ _ _ _ _ _ _ _ _ _ _ _ _ Hlf) as Heb. rewrite Hesb in Heb.
  apply Forall2_app_inv_l in Heb as (Bb1 & Bb' & He1 & He & HBnb).
  inversion He as [|? [Be nse] ? Bb2 Hre He2]; subst Bb'. clear He.
  pose proof (la_nodup _ _ _ _ _ _ _ _ _ _ _ _ Hla) as Hnodup. rewrite Hnsl in Hnodup.
  assert (b ∉ nsr /\ b ∉ nodes (Bns1 ++ Bnb ++ Bns2)) as [Hbr Hbn].
  { apply NoDup_app in Hnodup as (_ & Hd1 & Hnodup). apply NoDup_app in Hnodup as (_ & Hd2 & _).
    split; [|by apply Hd2]. intros Hin. apply (Hd1 b Hin). apply elem_of_app. by left. }
  assert (NoDup lns) as Hndl by (apply NoDup_app in Hnodup as (_ & _ & Hnodup); by apply NoDup_app in Hnodup as [? _]).
  pose proof Hre as Hre'. unfold entry_rep in Hre. rewrite Hkx in Hre.
  change (layer_keylenx =? layer_keylenx) with true in Hre. cbv iota in Hre. destruct Hre as (B' & HL & _ & _).
  change (e_lv (slot_entry l q)) with (Leaf.lv l q) in HL.
  destruct (layer_rep_climb _ _ _ _ _ HL) as (nd' & Hnd' & _ & _ & Hclimb). rewrite Hnd in Hnd'. injection Hnd' as <-.
  destruct (Hclimb Hroot) as [Hpar HL']. split; [done|].
  destruct (leaf_set_lv l l1 q l2 free esb (node_parent nd) Hle) as (l' & Hset & Hsame & Hik & Hso & Hsq & Hle').
  set (esb' := map (slot_entry l) l1 ++ with_lv (slot_entry l q) (node_parent nd) :: map (slot_entry l) l2) in *.
  set (h' := <[b := NLeaf l']> h).
  exists l', esb'. split; [done|]. split.
  { unfold Leaf.lower, Leaf.size, Leaf.permutation, Leaf.compare_key. rewrite (sl_permutation _ _ Hsame).
    unfold set_lv in Hset. destruct (wr (lv_ l) q (node_parent nd)); [|done]. cbn in Hset. by injection Hset as <-. }
  split; [done|]. rewrite map_snd_app, map_snd_app, !not_elem_of_app in Hbn. destruct Hbn as (Hb1 & Hbb & Hb2).
  assert (leaf_at n h' p (Key.ikey0_ ka) b l' d r par lo hi es1 esb' es2 lns Bns1 Bnb Bns2) as Hlf'.
  { eapply (leaf_at_update n h); [exact Hlf|..].
    - intros c _ Hne. by apply lookup_insert_ne.
    - by apply agree_insert.
    - by apply agree_insert.
    - apply lookup_insert_eq.
    - apply Hsame.
    - apply Hsame.
    - by rewrite (sl_version _ _ Hsame).
    - eapply same_leaf_ok; [done..| |intros _; apply Hik].
      pose proof (lo_range _ _ _ _ _ Hlok) as Hr. rewrite Hesb in Hr.
      unfold in_range, esb'. rewrite !Forall_app, !Forall_cons in *. done.
    - rewrite HBnb. rewrite HBnb, map_snd_app in Hbb. cbn in Hbb. rewrite !not_elem_of_app in Hbb. destruct Hbb as (? & ? & ?).
      apply Forall2_app; [|constructor].
      + by eapply entries_rep_frame; [apply agree_insert|].
      + apply (entry_rep_mono (layer_rep n h)); [intros; eapply layer_rep_frame; [by apply agree_insert|done]|].
        unfold entry_rep. cbn [with_lv e_keylenx e_ikey e_lv]. unfold entry_rep in Hre'. rewrite Hkx in *.
        change (layer_keylenx =? layer_keylenx) with true in *. cbv iota in *.
        destruct Hre' as (B'' & HB1 & HB2). exists B''. split; [|done].
        change (e_lv (slot_entry l q)) with (Leaf.lv l q) in HB1.
        destruct (layer_rep_climb _ _ _ _ _ HB1) as (nd' & Hnd' & _ & _ & Hcl). rewrite Hnd in Hnd'. injection Hnd' as <-.
        by apply Hcl.
      + by eapply entries_rep_frame; [apply agree_insert|]. }
  cbv zeta. split_and!; [|done|].
  - eapply layer_at_update; [exact Hla|by apply agree_insert| |apply Hla|rewrite Hnsl; apply Hnodup].
    rewrite HBl, Hnsl. by eapply leaf_at_layer.
  - rewrite Hesb, !Forall_app, !Forall_cons in Hok. unfold esb'. rewrite !Forall_app, !Forall_cons. done.
Qed.

(** Every leaf of [h'] was one in [h], with the same phantom epoch. *)
Definition same_epochs (h h' : gmap Z node) : Prop :=
  forall a l', h' !! a = Some (NLeaf l') -> exists l, h !! a = Some (NLeaf l) /\ phantom_epoch_ l' = phantom_epoch_ l.
Lemma same_epochs_refl h : same_epochs h h.
Proof. intros a l Hl. by exists l. Qed.
Lemma same_epochs_trans h1 h2 h3 : same_epochs h1 h2 -> same_epochs h2 h3 -> same_epochs h1 h3.
Proof. intros H1 H2 a l (l2 & Hl2 & ->)%H2. by apply H1. Qed.
Lemma same_epochs_set_lv h b p x l l' :
  h !! b = Some (NLeaf l) -> set_lv p x l = Some l' -> same_epochs h (<[b := NLeaf l']> h).
Proof.
  intros Hb Hset a l2. destruct (decide (a = b)) as [->|Hne].
  - rewrite lookup_insert_eq. intros [= <-]. exists l. split; [done|]. unfold set_lv in Hset.
    destruct (wr _ _ _); [|done]. by injection Hset as <-.
  - rewrite lookup_insert_ne by done. by exists l2.
Qed.

(** [find_locked] arrives at the leaf for the key, and locks it; on the way it
    brings stale layer pointers up to date, in the nodes [ns]. *)
Definition arrives (unaligned : bool) (s : state) (p0 : Z) (kb : list Z) (B : list (list Z * Z))
    (ns : list Z) (ka : key) (run : nat -> option (Z * key * key_indexed_position * Z * state)) : Prop :=
  exists F h1 b l ka', found_at unaligned (kmem s) h1 p0 kb B ns ka' b l /\ same_string ka ka' /\
    0 <= match_state (kmem s) l ka' /\ (forall a, a ∉ ns -> h1 !! a = heap s !! a) /\ same_epochs (heap s) h1 /\
    forall fuel, (F <= fuel)%nat -> run fuel =
      Some (b, ka', Leaf.lower ka' l, match_state (kmem s) l ka',
        with_heap s (<[b := NLeaf (locked_leaf l)]> h1)).

Lemma found_at_perm unaligned m h p0 kb B ns ns' ka b l :
  ns ≡ₚ ns' -> found_at unaligned m h p0 kb B ns ka b l -> found_at unaligned m h p0 kb B ns' ka b l.
Proof. intros Hp H. unfold found_at in *. by setoid_rewrite <- Hp. Qed.

Lemma arrives_step unaligned s p0 kb B ns ka run h' B' ns' ka' run' :
  arrives unaligned (with_heap s h') p0 kb B' ns' ka' run' -> B' = B -> ns' ≡ₚ ns -> same_string ka ka' ->
  (forall a, a ∉ ns -> h' !! a = heap s !! a) -> same_epochs (heap s) h' ->
  (exists F, forall fuel, (F <= fuel)%nat -> run (S fuel) = run' fuel) ->
  arrives unaligned s p0 kb B ns ka run.
Proof.
  intros (F & h1 & b & l & ka1 & Hfound & Hss & Hst & Hag & Hep & Hrun) -> Hns Hss' Hag' Hep' (F' & Hrun').
  exists (S (max F F')), h1, b, l, ka1. split_and!; [by eapply found_at_perm|unfold same_string in *; lia|done| | |].
  - intros a Ha. rewrite Hag by (by rewrite Hns). by apply Hag'.
  - by eapply same_epochs_trans.
  - intros [|fuel] Hf; [lia|]. rewrite Hrun' by lia. apply Hrun. lia.
Qed.

(** The pointer [p] is one to a root. *)
Definition root_at (h : gmap Z node) (p : Z) : Prop :=
  exists nd, h !! p = Some nd /\ Nodeversion.is_root NV (node_version nd) = true.

Lemma find_locked_from_spec unaligned root0 p0 kb : forall n s B1 B2 nsr pre p Bl nsl ka,
  mem_bytes (kmem s) -> key_wf unaligned (kmem s) ka ->
  layer_at (heap s) p0 B1 B2 nsr kb pre (key_bytes (kmem s) ka) p n Bl nsl -> root_at (heap s) p ->
  arrives unaligned s p0 kb (B1 ++ map (add_prefix pre) Bl ++ B2) (nsr ++ nsl) ka
    (fun fuel => find_locked_from unaligned fuel root0 p ka s).
Proof.
  induction n as [|n IH]; intros s B1 B2 nsr pre p Bl nsl ka Hm Hka Hla (ndp & Hndp & Hrp).
  { destruct (la_layer _ _ _ _ _ _ _ _ _ _ _ _ Hla). }
  destruct (layer_rep_leaf_at n s p Bl nsl ka (la_layer _ _ _ _ _ _ _ _ _ _ _ _ Hla)
    (key_wf_range unaligned _ _ Hm Hka)) as
    (b & l & d & r & par & lo & hi & es1 & esb & es2 & lns & Bns1 & Bnb & Bns2 & F & Hlf & HBl & Hnsl & Hok & Hreach).
  pose proof (lf_focus _ _ _ _ _ _ _ _ _ _ _ _ _ _ _ _ _ _ Hlf) as Hf.
  pose proof (fc_ok _ _ _ _ _ _ _ _ _ _ _ _ _ _ _ _ _ Hf) as Hlok.
  pose proof (fc_leaf _ _ _ _ _ _ _ _ _ _ _ _ _ _ _ _ _ Hf) as Hb.
  pose proof (lo_quiet _ _ _ _ _ Hlok) as Hq.
  assert (forall fuel, (F <= fuel)%nat -> find_locked_from unaligned (S fuel) root0 p ka s =
    bind (locked_forward unaligned (S fuel) root0 p ka b (lversion l)) (fun r => match r with
      | inl (root, ka) => find_locked_from unaligned fuel root0 root ka
      | inr r => ret r end) s) as Hrun.
  { intros fuel Hfu. cbn [find_locked_from]. by rewrite (bind_eq _ _ _ _ _ (Hreach (S fuel) ltac:(lia))). }
  destruct (Z.le_gt_cases 0 (match_state (kmem s) l ka)) as [Hst|Hst].
  { exists (S F), (heap s), b, l, ka. split_and!; try done; [|apply same_epochs_refl|].
    - split; [done|]. pose proof (climbs_at_root _ _ _ _ _ (lf_climbs _ _ _ _ _ _ _ _ _ _ _ _ _ _ _ _ _ _ Hlf) Hndp Hrp) as Hpr.
      rewrite <- Hpr in Hlf. by exists B1, B2, nsr, pre, p, n, Bl, nsl, d, par, lo, hi, es1, esb, es2, lns, Bns1, Bnb, Bns2.
    - intros [|fuel] Hfu; [lia|]. rewrite Hrun by lia.
      erewrite bind_eq; [|by apply forward_found; [..|intros Hms; destruct (lo_modstate _ _ _ _ _ Hlok) as [H|H]; rewrite H in Hms]].
      done. }
  destruct (match_layer _ _ _ Hst) as (Hp & Hkx & _).
  destruct (found_down unaligned (kmem s) (heap s) p0 kb B1 B2 nsr pre p n Bl nsl ka b l d r par lo hi es1 esb es2
    lns Bns1 Bnb Bns2 Hm Hka Hla Hlf Hok HBl Hnsl Hp Hkx) as
    (Hka' & Hss & B1' & B2' & nsr' & pre' & B' & ns' & Hla' & HB & Hns & Hbn).
  set (q := kip_p (Leaf.lower ka l)) in *.
  destruct (layer_rep_climb _ _ _ _ _ (la_layer _ _ _ _ _ _ _ _ _ _ _ _ Hla')) as (nd & Hnd & _ & Hin & Hcl).
  assert (Leaf.lv l q <> b) as Hqb by (intros Heq; by rewrite Heq in Hin).
  destruct (Nodeversion.is_root NV (node_version nd)) eqn:Hroot.
  - eapply (arrives_step unaligned s _ _ _ _ _ _ (heap s)); [|exact HB|exact Hns|exact Hss|done|apply same_epochs_refl|].
    + rewrite with_heap_heap. apply IH; try done. by exists nd.
    + exists F. intros fuel Hfu. rewrite Hrun by lia.
      erewrite bind_eq; [|by eapply forward_layer]. done.
  - destruct (found_stale unaligned (kmem s) (heap s) p0 kb B1 B2 nsr pre p n Bl nsl ka b l d r par lo hi es1 esb es2
      lns Bns1 Bnb Bns2 nd Hm Hka Hla Hlf Hok HBl Hnsl Hp Hkx) as
      (Hpar & l' & esb' & Hset & Hlow & Hsq & Hla2 & Hlf2 & Hok2); [done..|].
    fold q in Hset, Hsq.
    assert (e_keylenx (slot_entry l' (kip_p (Leaf.lower ka l'))) = layer_keylenx) as Hkx2
      by (rewrite Hlow; fold q; by rewrite Hsq).
    destruct (found_down unaligned (kmem s) _ p0 kb B1 B2 nsr pre p n Bl nsl ka b l' d r par lo hi es1 esb' es2
      lns Bns1 Bnb Bns2 Hm Hka Hla2 Hlf2 Hok2 HBl Hnsl) as
      (_ & _ & B12 & B22 & nsr2 & pre2 & B'2 & ns'2 & Hla2' & HB2 & Hns2 & Hbn2); [by rewrite Hlow|done|].
    rewrite Hlow in Hla2'. fold q in Hla2'.
    assert (Leaf.lv l' q = node_parent nd) as Hlv by (change (Leaf.lv l' q) with (e_lv (slot_entry l' q)); by rewrite Hsq).
    rewrite Hlv in Hla2'.
    eapply (arrives_step unaligned s _ _ _ _ _ _ (<[b := NLeaf l']> (heap s))); [|exact HB2|exact Hns2|exact Hss| |by eapply same_epochs_set_lv|].
    + apply (IH (with_heap s (<[b := NLeaf l']> (heap s)))); try done.
      destruct (layer_rep_climb _ _ _ _ _ (la_layer _ _ _ _ _ _ _ _ _ _ _ _ Hla2')) as (_ & _ & _ & Hin2 & _).
      destruct (Hcl eq_refl) as (_ & _ & nr & Hnr & Hrr). exists nr. split; [|done]. cbn.
      rewrite lookup_insert_ne; [done|]. by intros ->.
    + intros a Ha. apply lookup_insert_ne. intros ->. apply Ha, elem_of_app. right. rewrite Hnsl.
      apply elem_of_app. left. apply Hf.
    + exists F. intros fuel Hfu. rewrite Hrun by lia.
      erewrite bind_eq; [|by eapply forward_stale]. done.
Qed.
End layers.
