(* ===== verification/Put.v ===== *)
(** Insertion and replacement of a binding, [run_put] and [run_replace] of
    [src/kvrow.hh] over [find_insert] and [finish]. *)
From Stdlib Require Import Sorted.
From S2P Require Import Prelude Compiler Memory StringSlice Key Ksearch Kpermuter Nodeversion.
From S2P Require Import Stringbag Node Heap Get Insert Remove Tree Find Steps LeafSpec Locate.

(** [query<R>::run_replace] and [run_put] for the key of [len] bytes at [s]:
    they differ in what they apply to the value.  [X] is the state of the
    thread and its rows; [observe] is [observe_phantoms] for the epoch of the
    leaf, and [apply] the new value and whether the key counts as inserted, from
    the old value if there is one; it may fail.  [okbuf] is where the bag's copy of a suffix
    is, should a new layer be needed. *)
Definition run_insert {X} (unaligned : bool) (fuel : nat) (okbuf : Z) (observe : Z -> X -> X)
    (apply : option Z -> X -> option (Z * bool * X)) (s len : Z) (x : X) : M (bool * X) :=
  let! c := make_tcursor unaligned s len in
  let! r := find_insert unaligned fuel okbuf c in
  let '(c, found) := r in
  let! l := get_leaf (n_ c) in
  let x := if found then x else observe (phantom_epoch_ l) x in
  let! v := value c in
  let! r := lift (apply (if found then Some v else None) x) in
  let '(v', inserted, x) := r in
  set_value c v' ;!
  let! _ := finish fuel 1 c in
  ret (inserted, x).

(** * The cursor's leaf *)
Section matches.
Context (unaligned : bool) (m : mem) (ka : key) (Hm : mem_bytes m) (Hka : key_wf unaligned m ka).
Context (l : leaf) (live free : list Z) (es : list entry) (Hl : leaf_entries l live free es).

Lemma slot_entry_ok q : q ∈ live -> entry_ok (slot_entry l q).
Proof using Hl.
  intros Hq. apply (proj1 (Forall_forall _ _) (le_ok _ _ _ _ Hl)). by eapply live_entry.
Qed.

(** A match is the key; no match with a hit slot is another key with the same
    slice. *)
Lemma match_cases :
  let p := kip_p (Leaf.lower ka l) in
  let e := slot_entry l p in
  0 <= match_state m l ka ->
  (match_state m l ka = 1 /\ 0 <= p /\ e_keylenx e <> layer_keylenx /\ entry_key e = key_bytes m ka) \/
  (match_state m l ka = 0 /\ 0 <= p /\ e_keylenx e = ksuf_keylenx /\ ikey_size < len_ ka /\
    e_ikey e = Key.ikey0_ ka /\ e_suf e <> str_bytes m (Key.suffix ka)) \/
  (match_state m l ka = 0 /\ p = -1).
Proof using Hm Hka Hl.
  cbv zeta. unfold match_state. cbv zeta. set (p := kip_p (Leaf.lower ka l)). set (e := slot_entry l p).
  destruct (Z.leb_spec 0 p) as [Hp|Hp].
  2: { intros _. right; right. split; [done|].
       destruct (leaf_lower_spec l live free es Hl ka) as [[Hn _]|[Hr _]]; fold p in Hn || fold p in Hr; lia. }
  destruct (lower_hit l live free es ka Hl Hp) as (l1 & l2 & Hlive & _ & _ & _ & Hc & _). fold p in Hlive, Hc. fold e in Hc.
  assert (entry_ok e) as Hoke by (apply slot_entry_ok; rewrite Hlive, elem_of_app, elem_of_cons; tauto).
  unfold Leaf.ksuf_matches. change (Leaf.keylenx l p) with (e_keylenx e).
  destruct (proj2 Hoke) as [(Hn & _)|[(Hn & _ & _)|(Hn & _)]].
  - destruct (Z.ltb_spec (e_keylenx e) ksuf_keylenx); [|unfold ksuf_keylenx in *; lia].
    intros _. left. split_and!; try done; [unfold layer_keylenx; lia|].
    symmetry. apply (cmp_entry_short unaligned m ka Hm Hka e Hoke); [lia|done].
  - rewrite Hn. change (ksuf_keylenx <? ksuf_keylenx) with false.
    change (ksuf_keylenx =? layer_keylenx) with false. cbv iota. intros _.
    destruct (cmp_entry_long unaligned _ ka Hm Hka e Hoke) as [_ Hlen]; [rewrite Hn; done|].
    destruct (Hlen Hc) as [Hl8 Hie].
    rewrite suffix_eq_spec by (unfold Key.suffix; cbn; lia).
    assert (e_suf e = Leaf.ksuf l p) as Hs.
    { unfold e at 1, slot_entry. cbn [e_suf]. unfold Leaf.has_ksuf, Leaf.keylenx_has_ksuf.
      change (Leaf.keylenx l p) with (e_keylenx e). by rewrite Hn. }
    rewrite <- Hs. case_bool_decide as He'.
    + left. split_and!; try done. unfold entry_key. rewrite Hn, He', Hie.
      rewrite (key_bytes_suffix unaligned m ka Hm Hka Hl8). change (Z.to_nat (ksuf_keylenx `min` 8)) with 8%nat.
      by rewrite take_ge by (rewrite length_ikey_bytes; lia).
    + right; left. done.
  - rewrite Hn. change (layer_keylenx <? ksuf_keylenx) with false.
    change (layer_keylenx =? layer_keylenx) with true. cbv iota. unfold ikey_size. lia.
Qed.
End matches.

(** * Putting a changed leaf back *)
Section layers.
Context {N : Layers}.

Lemma found_replace h p0 B1 B2 nsr kb pre kbl p n Bl nsl x b l d r par lo hi es1 esb es2 lns Bns1 Bnb Bns2
    h' l' esb' Bnb' :
  layer_at h p0 B1 B2 nsr kb pre kbl p (S n) Bl nsl ->
  leaf_at n h p x b l d r par lo hi es1 esb es2 lns Bns1 Bnb Bns2 ->
  Bl = binds (Bns1 ++ Bnb ++ Bns2) -> nsl = lns ++ nodes (Bns1 ++ Bnb ++ Bns2) ->
  agree h h' nsr -> (forall c, c ∈ lns -> c <> b -> h' !! c = h !! c) ->
  agree h h' (nodes Bns1) -> agree h h' (nodes Bns2) ->
  h' !! b = Some (NLeaf l') -> prev_ l' = prev_ l -> next_ l' = next_ l ->
  Nodeversion.is_root NV (lversion l') = Nodeversion.is_root NV (lversion l) -> leaf_ok par lo hi l' esb' ->
  Forall2 (entry_rep (layer_rep n h')) esb' Bnb' -> (pre <> [] -> nonempty_keys (binds Bnb')) ->
  exists ns', layer_rep max_layers h' p0 (B1 ++ map (add_prefix pre) (binds (Bns1 ++ Bnb' ++ Bns2)) ++ B2) ns' /\
    ns' ≡ₚ nsr ++ lns ++ nodes (Bns1 ++ Bnb' ++ Bns2).
Proof.
  intros Hla Hlf HBl Hnsl Hagr Hagl Hag1 Hag2 Hl' Hp Hn Hrt Hok Hb' Hne.
  pose proof (la_nodup _ _ _ _ _ _ _ _ _ _ _ _ Hla) as Hnd. rewrite Hnsl in Hnd.
  apply NoDup_app in Hnd as (_ & _ & Hnd). apply NoDup_app in Hnd as (Hnd & _ & _).
  apply (la_replace _ _ _ _ _ _ _ _ _ _ _ _ Hla h'); [done| |].
  - eapply leaf_at_layer; [|done]. by eapply (leaf_at_update n h).
  - intros Hpre. pose proof (la_keys _ _ _ _ _ _ _ _ _ _ _ _ Hla Hpre) as Hk. rewrite HBl in Hk.
    unfold nonempty_keys in *. rewrite !map_fst_app, !Forall_app in *. specialize (Hne Hpre). tauto.
Qed.


Lemma leaf_ok_version par lo hi l es v :
  leaf_ok par lo hi l es -> quiet v -> same_flags (lversion l) v -> leaf_ok par lo hi (Leaf.set_version l v) es.
Proof.
  intros [(live & free & [[? ? ? ?] ? ? ? ?]) H2 H3 H4 H5 H6 H7 H8] Hq [Hf1 Hf2].
  split; try done; [by exists live, free; split|cbn; by rewrite Hf1|cbn; intros H; rewrite Hf2; by apply H5].
Qed.
Lemma leaf_ok_modstate par lo hi l es :
  leaf_ok par lo hi l es -> leaf_ok par lo hi (Leaf.set_modstate l modstate_insert) es.
Proof.
  intros [(live & free & [[? ? ? ?] ? ? ? ?]) H2 H3 H4 H5 H6 H7 H8].
  split; try done; [by exists live, free; split|by left].
Qed.

(** What a run leaves: a table with the binding of [kb] set to [v]. *)
Definition rebound (h : gmap Z node) (p0 : Z) (kb : list Z) (v : option Z) (B : list (list Z * Z)) (ns : list Z) : Prop :=
  exists B' ns', layer_rep max_layers h p0 B' ns' /\ updated kb v B B' /\ ns' ≡ₚ ns.

Lemma nonempty_assoc B : nonempty_keys B <-> assoc [] B = None.
Proof. by rewrite assoc_None. Qed.

(** A found leaf [b] as the client of an update sees it: its entries [esb] with
    their bindings and nodes [Bnb], the other nodes [nso] of the table, and
    what replacing the leaf does. *)
Record leaf_view (m : mem) (h : gmap Z node) (p0 : Z) (kb : list Z) (B : list (list Z * Z)) (ns : list Z)
    (ka : key) (b : Z) (l : leaf) (par lo hi : Z) (n : nat) (esb : list entry)
    (Bnb : list (list (list Z * Z) * list Z)) (nso : list Z) : Prop := {
  lw_leaf : h !! b = Some (NLeaf l);
  lw_ok : leaf_ok par lo hi l esb;
  lw_range : lo <= Key.ikey0_ ka < hi;
  lw_reps : Forall2 (entry_rep (layer_rep n h)) esb Bnb;
  lw_nodes : ns ≡ₚ nso ++ b :: nodes Bnb;
  lw_nodup : NoDup (nso ++ b :: nodes Bnb);
  lw_depth : (8 * max_layers + length (key_bytes m ka) = length kb + 8 * S n)%nat;
  lw_replace : forall h' l' esb' Bnb' v, agree h h' nso -> h' !! b = Some (NLeaf l') ->
    prev_ l' = prev_ l -> next_ l' = next_ l ->
    Nodeversion.is_root NV (lversion l') = Nodeversion.is_root NV (lversion l) -> leaf_ok par lo hi l' esb' ->
    Forall2 (entry_rep (layer_rep n h')) esb' Bnb' ->
    updated (key_bytes m ka) v (binds Bnb) (binds Bnb') ->
    rebound h' p0 kb v B (nso ++ b :: nodes Bnb');
  lw_others : assoc kb B = assoc (key_bytes m ka) (binds Bnb) }.

Lemma found_view unaligned m h p0 kb B ns ka b l :
  mem_bytes m -> found_at unaligned m h p0 kb B ns ka b l -> NoDup ns ->
  exists par lo hi n esb Bnb nso, leaf_view m h p0 kb B ns ka b l par lo hi n esb Bnb nso.
Proof.
  intros Hm (Hka & B1 & B2 & nsr & pre & p & n & Bl & nsl & d & par & lo & hi &
    es1 & esb & es2 & lns & Bns1 & Bnb & Bns2 & Hla & Hlf & Hok & HBl & Hnsl & HB & Hns) Hnd.
  pose proof (lf_focus _ _ _ _ _ _ _ _ _ _ _ _ _ _ _ _ _ _ Hlf) as Hf.
  pose proof (fc_in _ _ _ _ _ _ _ _ _ _ _ _ _ _ _ _ _ Hf) as Hbin.
  apply elem_of_Permutation in Hbin as [lns' Hlns].
  set (nso := nsr ++ lns' ++ nodes Bns1 ++ nodes Bns2).
  assert (forall Bnb', nsr ++ lns ++ nodes (Bns1 ++ Bnb' ++ Bns2) ≡ₚ nso ++ b :: nodes Bnb') as Hperm.
  { intros Bnb'. unfold nso. rewrite !map_snd_app, Hlns. solve_Permutation. }
  rewrite Hns, Hnsl, Hperm in Hnd.
  assert (b ∉ nso) as Hbo.
  { apply NoDup_app in Hnd as (_ & Hd & _). intros Hin. apply (Hd b Hin), elem_of_cons. by left. }
  exists par, lo, hi, n, esb, Bnb, nso. split; try done; try apply Hf.
  - apply Hlf.
  - by rewrite Hns, Hnsl.
  - pose proof (la_depth _ _ _ _ _ _ _ _ _ _ _ _ Hla) as Hd. pose proof (la_key _ _ _ _ _ _ _ _ _ _ _ _ Hla) as Hk.
    rewrite Hk, length_app. lia.
  - intros h' l' esb' Bnb' v Hag Hl' Hp Hn Hrt Hok' Hb' Hu. unfold nso in Hag.
    apply agree_app in Hag as [Hagr Hag]. apply agree_app in Hag as [Hagl Hag].
    apply agree_app in Hag as [Hag1 Hag2].
    destruct (found_replace h p0 B1 B2 nsr kb pre (key_bytes m ka) p n Bl nsl (Key.ikey0_ ka) b l d p par lo hi
      es1 esb es2 lns Bns1 Bnb Bns2 h' l' esb' Bnb' Hla Hlf HBl Hnsl) as (ns' & Hr & Hp'); try done.
    + intros c Hc Hne. apply Hagl. rewrite Hlns in Hc. by apply elem_of_cons in Hc as [->|Hc].
    + intros Hpre. pose proof (la_keys _ _ _ _ _ _ _ _ _ _ _ _ Hla Hpre) as Hk.
      pose proof (la_nonempty _ _ _ _ _ _ _ _ _ _ _ _ Hla Hpre) as Hne.
      rewrite HBl in Hk. apply nonempty_assoc. destruct Hu as [_ Hu]. rewrite Hu by done.
      apply nonempty_assoc. unfold nonempty_keys in *. rewrite !map_fst_app, !Forall_app in Hk. tauto.
    + exists (B1 ++ map (add_prefix pre) (binds (Bns1 ++ Bnb' ++ Bns2)) ++ B2), ns'. split_and!; [done| |].
      * rewrite HB. eapply layer_at_updated; [done|]. rewrite HBl, !map_fst_app.
        destruct (leaf_at_others unaligned m ka _ _ _ _ _ _ _ _ _ _ _ _ _ _ _ _ _ Hm Hka Hok Hlf) as [Ho1 Ho2].
        by apply updated_middle.
      * by rewrite Hp', Hperm.
  - destruct (leaf_at_others unaligned m ka _ _ _ _ _ _ _ _ _ _ _ _ _ _ _ _ _ Hm Hka Hok Hlf) as [Ho1 Ho2].
    rewrite HB, assoc_app_None, assoc_app, (la_B2 _ _ _ _ _ _ _ _ _ _ _ _ Hla) by apply Hla.
    rewrite (la_key _ _ _ _ _ _ _ _ _ _ _ _ Hla), assoc_add_prefix, HBl, !map_fst_app, assoc_app_None by done.
    rewrite assoc_app, Ho2. by destruct (assoc _ (binds Bnb)).
Qed.

(** Changing one entry among those of a leaf. *)
Lemma updated_entry unaligned m ka L es1 es2 Bb1 Be Be' nse nse' Bb2 v :
  mem_bytes m -> key_wf unaligned m ka -> Forall entry_ok es1 -> Forall entry_ok es2 ->
  Forall2 (entry_rep L) es1 Bb1 -> Forall2 (entry_rep L) es2 Bb2 ->
  Forall (fun e => cmp_entry ka e <> 0) es1 -> Forall (fun e => cmp_entry ka e <> 0) es2 ->
  updated (key_bytes m ka) v Be Be' ->
  updated (key_bytes m ka) v (binds (Bb1 ++ (Be, nse) :: Bb2)) (binds (Bb1 ++ (Be', nse') :: Bb2)).
Proof.
  intros Hm Hka Hok1 Hok2 H1 H2 Hn1 Hn2 Hu. rewrite !map_fst_app. cbn [map concat fst].
  apply updated_middle; [..|done].
  - by eapply (assoc_entries_None unaligned m ka Hm Hka _ es1).
  - by eapply (assoc_entries_None unaligned m ka Hm Hka _ es2).
Qed.
Lemma updated_single k v w : updated k (Some w) [(k, v)] [(k, w)].
Proof. split; cbn; [by rewrite decide_True|]. intros k' Hne. by rewrite !decide_False. Qed.

(** A new key among the entries of a leaf. *)
Section new_key.
Context (unaligned : bool) (m : mem) (ka : key) (Hm : mem_bytes m) (Hka : key_wf unaligned m ka).

(** The slot [p] at the back is filled and published between [la] and [lb]. *)
Lemma leaf_put lk la lb f p es v :
  leaf_entries lk (la ++ lb) (f ++ [p]) es -> above lk ka la -> below lk ka lb -> len_ ka <= max_key_len ->
  modstate_ lk <> modstate_remove ->
  exists l1 l2, Leaf.assign m lk p ka = Some l1 /\ set_lv p v l1 = Some l2 /\ same_leaf lk l1 /\ same_leaf lk l2 /\
    (forall q, q <> p -> Leaf.ikey l2 q = Leaf.ikey lk q) /\ Leaf.ikey l2 p = Key.ikey ka /\
    leaf_entries (finish_perm l2 (zlength la)) (la ++ p :: lb) f
      (map (slot_entry lk) la ++ key_entry m ka v :: map (slot_entry lk) lb).
Proof using Hm Hka.
  intros Hle Habove Hbelow Hlen Hms.
  assert (p ∈ f ++ [p]) as Hpin by (rewrite elem_of_app; right; by apply list_elem_of_singleton).
  destruct (leaf_assign lk (la ++ lb) (f ++ [p]) es Hle unaligned m ka p Hm Hka Hlen Hpin Hms) as
    (l1 & Hassign & Hle1 & Hs1 & Hp1 & Hik1).
  pose proof (free_range _ _ _ _ Hle p Hpin) as Hpr.
  destruct (set_lv_spec l1 p v (le_arrays _ _ _ _ Hle1) Hpr) as (l2 & Hset & Ha2 & Hs2 & Hik2 & He2).
  assert (slot_entry l2 p = key_entry m ka v) as Hp2.
  { rewrite He2, Z.eqb_refl, Hp1. unfold key_entry, with_lv. by destruct (Key.has_suffix ka). }
  assert (leaf_entries l2 (la ++ lb) (f ++ [p]) es) as Hle2.
  { eapply leaf_entries_other; [exact Hle1|done|apply Hs2|]. intros q Hq. rewrite He2.
    destruct (Z.eqb_spec q p) as [->|]; [|done]. exfalso. by apply (live_free _ _ _ _ Hle p Hq). }
  assert (forall q, q ∈ la ++ lb -> slot_entry l2 q = slot_entry lk q) as Hsame.
  { intros q Hq. pose proof (le_es _ _ _ _ Hle2) as E2. rewrite (le_es _ _ _ _ Hle) in E2.
    rewrite map_ext_in_iff in E2. symmetry. by apply E2, list_elem_of_In. }
  pose proof (slot_entry_ok lk _ _ _ Hle) as Hokl.
  exists l1, l2. split_and!; try done.
  { destruct Hs1, Hs2. split; congruence. }
  { intros q Hq. by rewrite Hik2, Hik1. }
  { change (e_ikey (slot_entry l2 p) = Key.ikey ka). rewrite Hp2. unfold key_entry. by destruct (Key.has_suffix ka). }
  assert (map (slot_entry lk) la ++ key_entry m ka v :: map (slot_entry lk) lb = map (slot_entry l2) (la ++ p :: lb)) as ->.
  { rewrite map_app. cbn [map]. rewrite Hp2. f_equal; [|f_equal]; apply map_ext_in;
      intros q Hq%list_elem_of_In; symmetry; apply Hsame; rewrite elem_of_app; tauto. }
  apply (leaf_insert l2 la lb f p es Hle2).
  - rewrite Hp2. by eapply key_entry_ok.
  - apply Forall_forall. intros q Hq. rewrite Hsame, Hp2 by (rewrite elem_of_app; tauto).
    eapply entry_lt_key; [done|apply Hokl; rewrite elem_of_app; tauto|]. by apply (proj1 (Forall_forall _ _) Habove).
  - apply Forall_forall. intros q Hq. rewrite Hp2, Hsame by (rewrite elem_of_app; tauto).
    eapply key_lt_entry; [done|]. by apply (proj1 (Forall_forall _ _) Hbelow).
Qed.

(** The bindings of the entries with the new one. *)
Lemma entries_put L lk la lb v Bnb :
  Forall entry_ok (map (slot_entry lk) (la ++ lb)) -> above lk ka la -> below lk ka lb ->
  Forall2 (entry_rep L) (map (slot_entry lk) (la ++ lb)) Bnb ->
  exists Bnb', Forall2 (entry_rep L) (map (slot_entry lk) la ++ key_entry m ka v :: map (slot_entry lk) lb) Bnb' /\
    nodes Bnb' = nodes Bnb /\ updated (key_bytes m ka) (Some v) (binds Bnb) (binds Bnb').
Proof using Hm Hka.
  intros Hok Habove Hbelow Hreps. destruct (cmp_ne_of_above_below lk ka la lb Habove Hbelow) as [Hn1 Hn2].
  rewrite map_app in Hok, Hreps. apply Forall_app in Hok as [Hok1 Hok2].
  apply Forall2_app_inv_l in Hreps as (Bb1 & Bb2 & He1 & He2 & ->).
  exists (Bb1 ++ ([(key_bytes m ka, v)], []) :: Bb2). split_and!.
  - apply Forall2_app; [done|]. constructor; [|done].
    unfold entry_rep. assert ((e_keylenx (key_entry m ka v) =? layer_keylenx) = false) as ->.
    { pose proof (proj1 Hka). unfold key_entry, Key.has_suffix, ikey_size.
      destruct (Z.ltb_spec 8 (len_ ka)); [done|]. cbn. apply Z.eqb_neq. unfold layer_keylenx. lia. }
    rewrite (key_entry_key unaligned m ka Hm Hka). unfold key_entry. by destruct (Key.has_suffix ka).
  - by rewrite !map_snd_app.
  - rewrite !map_fst_app. cbn [map concat fst].
    change (concat (map fst Bb2)) with ([] ++ concat (map fst Bb2)) at 1. apply updated_middle.
    + by eapply (assoc_entries_None unaligned m ka Hm Hka _ (map (slot_entry lk) la)).
    + by eapply (assoc_entries_None unaligned m ka Hm Hka _ (map (slot_entry lk) lb)).
    + split; cbn; [by rewrite decide_True|]. intros k' Hne. by rewrite decide_False.
Qed.

Lemma key_entry_ikey v : e_ikey (key_entry m ka v) = Key.ikey0_ ka.
Proof using Type. unfold key_entry. by destruct (Key.has_suffix ka). Qed.
End new_key.

Section update.
Context (unaligned : bool) (m : mem) (h : gmap Z node) (p0 : Z) (kb : list Z) (B : list (list Z * Z))
  (ns : list Z) (ka : key) (b : Z) (l : leaf) (par lo hi : Z) (n : nat) (esb : list entry)
  (Bnb : list (list (list Z * Z) * list Z)) (nso : list Z).
Context (Hm : mem_bytes m) (Hka : key_wf unaligned m ka)
  (Hv : leaf_view m h p0 kb B ns ka b l par lo hi n esb Bnb nso).
Abbreviation kx := (Leaf.lower ka l).

(** What the search says of the table. *)
Lemma bound_value :
  0 <= match_state m l ka ->
  assoc kb B = if 0 <? match_state m l ka then Some (Leaf.lv l (kip_p kx)) else None.
Proof using Hm Hka Hv.
  intros Hst. rewrite (lw_others _ _ _ _ _ _ _ _ _ _ _ _ _ _ _ _ Hv).
  pose proof (lw_reps _ _ _ _ _ _ _ _ _ _ _ _ _ _ _ _ Hv) as Hreps.
  destruct (lo_entries _ _ _ _ _ (lw_ok _ _ _ _ _ _ _ _ _ _ _ _ _ _ _ _ Hv)) as (live & free & Hle).
  pose proof (le_ok _ _ _ _ Hle) as Hok. pose proof (le_es _ _ _ _ Hle) as Hes.
  destruct (Z.leb_spec 0 (kip_p kx)) as [Hq|Hq].
  - destruct (lower_hit l live free esb ka Hle Hq) as (l1 & l2 & _ & _ & Hesb & _ & _ & Ha & Hbl).
    destruct (cmp_ne_of_above_below l ka l1 l2 Ha Hbl) as [Hn1 Hn2]. rewrite Hesb in Hok, Hreps.
    destruct (assoc_entries_hit unaligned m ka Hm Hka _ _ _ _ _ Hok Hreps Hn1 Hn2) as (Bb1 & Be & nse & Bb2 & _ & Hre & ->).
    unfold entry_rep in Hre.
    destruct (match_cases unaligned m ka Hm Hka l live free esb Hle Hst) as
      [(-> & _ & Hkx & Hek)|[(-> & _ & Hkx & H8 & Hik & Hne)|(_ & ?)]]; [..|lia].
    + destruct (Z.eqb_spec (e_keylenx (slot_entry l (kip_p kx))) layer_keylenx) as [|_]; [done|].
      injection Hre as -> _. cbn [assoc]. by rewrite decide_True.
    + rewrite Hkx in Hre. cbn [Z.eqb] in Hre. change (ksuf_keylenx =? layer_keylenx) with false in Hre.
      injection Hre as -> _. cbn [assoc]. rewrite decide_False; [done|]. unfold entry_key. rewrite Hkx.
      change (Z.to_nat (ksuf_keylenx `min` 8)) with 8%nat. rewrite take_ge by (rewrite length_ikey_bytes; lia).
      rewrite (key_bytes_suffix unaligned m ka Hm Hka H8), <- Hik. by intros ?%app_inv_head.
  - unfold match_state in *. destruct (Z.leb_spec 0 (kip_p kx)); [lia|]. cbn.
    eapply (assoc_entries_None unaligned m ka Hm Hka); [done..|].
    destruct (leaf_lower_spec l live free esb Hle ka) as [(_ & l1 & l2 & Hlive & _ & H1 & H2)|[? _]]; [|lia].
    destruct (cmp_ne_of_above_below l ka l1 l2 H1 H2). rewrite Hes, Hlive, map_app. by apply Forall_app.
Qed.

(** A found key: its value is overwritten. *)
Lemma replace_value v vn :
  0 < match_state m l ka -> quiet vn -> same_flags (lversion l) vn ->
  exists l', set_lv (kip_p kx) v l = Some l' /\
    rebound (<[b := NLeaf (Leaf.set_version l' vn)]> h) p0 kb (Some v) B ns.
Proof using Hm Hka Hv.
  intros Hst Hvn Hfl. destruct Hv as [Hl Hlok Hrange Hreps Hns Hnd Hdep Hrepl _].
  destruct (lo_entries _ _ _ _ _ Hlok) as (live & free & Hle).
  destruct (match_cases unaligned m ka Hm Hka l live free esb Hle) as [(_ & Hq & Hkx & Hek)|[(H0 & _)|(H0 & _)]]; [lia| |lia..].
  set (q := kip_p kx) in *.
  destruct (lower_hit l live free esb ka Hle Hq) as (l1 & l2 & -> & _ & Hesb & _ & _ & Ha & Hbl).
  fold q in Hle, Hesb. destruct (cmp_ne_of_above_below l ka l1 l2 Ha Hbl) as [Hn1 Hn2].
  destruct (leaf_set_lv l l1 q l2 free esb v Hle) as (l' & Hset & Hsame & Hik & _ & _ & Hle').
  exists l'. split; [done|]. rewrite Hesb in Hreps.
  apply Forall2_app_inv_l in Hreps as (Bb1 & Bb' & He1 & He & HBnb).
  inversion He as [|? [Be nse] ? Bb2 Hre He2]; subst Bb'. clear He.
  unfold entry_rep in Hre. destruct (Z.eqb_spec (e_keylenx (slot_entry l q)) layer_keylenx) as [|_]; [done|].
  injection Hre as -> ->. rewrite Hek in HBnb.
  set (Bnb' := Bb1 ++ ([(key_bytes m ka, v)], []) :: Bb2).
  assert (nodes Bnb' = nodes Bnb) as Hnn by (rewrite HBnb; unfold Bnb'; by rewrite !map_snd_app).
  pose proof Hnd as Hnd'. apply NoDup_app in Hnd' as (_ & Hd1 & Hnd'). apply NoDup_cons in Hnd' as [Hbb _].
  assert (b ∉ nso) as Hbo by (intros Hin; apply (Hd1 b Hin), elem_of_cons; by left).
  rewrite HBnb, map_snd_app in Hbb. cbn in Hbb. rewrite !not_elem_of_app in Hbb. destruct Hbb as [Hbb1 Hbb2].
  assert (rebound (<[b := NLeaf (Leaf.set_version l' vn)]> h) p0 kb (Some v) B (nso ++ b :: nodes Bnb')) as Hreb.
  { apply (Hrepl _ (Leaf.set_version l' vn) (map (slot_entry l) l1 ++ with_lv (slot_entry l q) v :: map (slot_entry l) l2)).
    - by apply agree_insert.
    - apply lookup_insert_eq.
    - apply Hsame.
    - apply Hsame.
    - apply Hfl.
    - apply leaf_ok_version; [|done|by rewrite (sl_version _ _ Hsame)].
      eapply same_leaf_ok; [done|done|exact Hle'| |intros _; apply Hik].
      pose proof (lo_range _ _ _ _ _ Hlok) as Hr. rewrite Hesb in Hr.
      unfold in_range. rewrite !Forall_app, !Forall_cons in *. done.
    - apply Forall2_app; [|constructor].
      + by eapply entries_rep_frame; [apply agree_insert|].
      + rewrite <- Hek. unfold entry_rep. cbn [with_lv e_keylenx].
        destruct (Z.eqb_spec (e_keylenx (slot_entry l q)) layer_keylenx); done.
      + by eapply entries_rep_frame; [apply agree_insert|].
    - rewrite HBnb. pose proof (le_ok _ _ _ _ Hle) as Hokb. rewrite Hesb in Hokb.
      apply Forall_app in Hokb as [Hokb1 Hokb2]. inversion Hokb2; subst.
      eapply (updated_entry unaligned m ka _ (map (slot_entry l) l1) (map (slot_entry l) l2)); try done.
      apply updated_single. }
  destruct Hreb as (B' & ns' & H1 & H2 & H3). exists B', ns'. split_and!; [done..|].
  by rewrite H3, Hns, Hnn.
Qed.

Lemma leaf_ok_rebuild l' es' live free :
  leaf_ok par lo hi l esb -> leaf_entries l' live free es' -> in_range lo hi es' ->
  prev_ l' = prev_ l -> lparent_ l' = lparent_ l -> (prev_ l <> 0 -> Leaf.ikey_bound l' = Leaf.ikey_bound l) ->
  modstate_ l' = modstate_insert \/ modstate_ l' = modstate_remove ->
  quiet (lversion l') -> same_flags (lversion l) (lversion l') -> leaf_ok par lo hi l' es'.
Proof using Type.
  intros [H1 H2 H3 H4 H5 H6 H7 H8] He Hr Hp Hpar Hb Hms Hq [Hf1 Hf2].
  split; rewrite ?Hp, ?Hpar, ?Hf1, ?Hf2; try done; [by exists live, free|]. intros H. rewrite Hb by done. by apply H7.
Qed.

(** A leaf that is not full has a free slot at the back. *)
Lemma leaf_free_back l' live free es :
  leaf_entries l' live free es -> Leaf.size l' < leaf_width ->
  exists free', free = free' ++ [Kpermuter.back leaf_width (permutation_ l')].
Proof using Type.
  intros Hle Hsize. destruct free as [|q free _] using rev_ind.
  - exfalso. pose proof (repr_length leaf_width ltac:(done) _ _ _ (le_repr _ _ _ _ Hle)) as Hlen'.
    rewrite (leaf_size _ _ _ _ Hle) in Hsize. unfold zlength in *. cbn in Hlen'. lia.
  - exists free. by rewrite <- (back_repr _ _ _ _ (le_repr _ _ _ _ Hle)).
Qed.

(** A new key in a leaf with room, between the slots [la] and [lb]: [lk] is
    the leaf with its version and mark as they are while it is locked. *)
Lemma insert_room_at lk v la lb free' p :
  leaf_entries l (la ++ lb) (free' ++ [p]) esb -> above l ka la -> below l ka lb -> len_ ka <= max_key_len ->
  (p <> 0 \/ prev_ l = 0 \/ Leaf.ikey_bound l = Key.ikey ka) ->
  lk = Leaf.set_modstate (Leaf.set_version l (lversion lk)) modstate_insert ->
  exists l1 l2, Leaf.assign m lk p ka = Some l1 /\ set_lv p v l1 = Some l2 /\ same_leaf lk l1 /\ same_leaf lk l2 /\
    forall vn, quiet vn -> same_flags (lversion l) vn ->
      rebound (<[b := NLeaf (Leaf.set_version (finish_perm l2 (zlength la)) vn)]> h) p0 kb (Some v) B ns.
Proof using Hm Hka Hv.
  intros Hle Habove Hbelow Hlen Hbound Hlk. destruct Hv as [Hl Hlok Hrange Hreps Hns Hnd Hdep Hrepl _].
  assert (leaf_entries lk (la ++ lb) (free' ++ [p]) esb) as Hlek.
  { rewrite Hlk. destruct Hle as [[? ? ? ?] ? ? ? ?]. by split. }
  assert (forall q, slot_entry lk q = slot_entry l q) as Hsl by (intros q; by rewrite Hlk).
  destruct (leaf_put unaligned m ka Hm Hka lk la lb free' p esb v Hlek) as
    (l1 & l2 & Hassign & Hset & Hs1 & Hs2 & Hik & Hikp & Hle2); try done; [by rewrite Hlk..|].
  exists l1, l2. split_and!; [done..|]. intros vn Hvn Hfl.
  set (l3 := Leaf.set_version (finish_perm l2 (zlength la)) vn).
  pose proof (le_es _ _ _ _ Hle) as Hesb. pose proof (le_ok _ _ _ _ Hle) as Hokb. rewrite Hesb in Hreps, Hokb.
  assert (b ∉ nso /\ b ∉ nodes Bnb) as [Hbo Hbb].
  { apply NoDup_app in Hnd as (_ & Hd & [Hbb _]%NoDup_cons). split; [|done]. intros Hin. apply (Hd b Hin), elem_of_cons. by left. }
  destruct (entries_put unaligned m ka Hm Hka (layer_rep n (<[b := NLeaf l3]> h)) l la lb v Bnb) as (Bnb' & He' & Hnn & Hu);
    try done; [by eapply entries_rep_frame; [apply agree_insert|]|].
  set (es' := map (slot_entry l) la ++ key_entry m ka v :: map (slot_entry l) lb) in *.
  assert (leaf_entries l3 (la ++ p :: lb) free' es') as Hle3.
  { rewrite !(map_ext _ _ Hsl) in Hle2. destruct Hle2 as [[? ? ? ?] ? ? ? ?]. by split. }
  assert (rebound (<[b := NLeaf l3]> h) p0 kb (Some v) B (nso ++ b :: nodes Bnb')) as (B' & ns' & H1 & H2 & H3).
  { apply (Hrepl _ l3 es'); try done.
    - by apply agree_insert.
    - apply lookup_insert_eq.
    - cbn. rewrite (sl_prev _ _ Hs2), Hlk. done.
    - cbn. rewrite (sl_next _ _ Hs2), Hlk. done.
    - apply Hfl.
    - eapply leaf_ok_rebuild; try done.
      + pose proof (lo_range _ _ _ _ _ Hlok) as Hr. rewrite Hesb, map_app in Hr.
        unfold in_range, es'. rewrite !Forall_app, Forall_cons in *. rewrite key_entry_ikey. tauto.
      + cbn. rewrite (sl_prev _ _ Hs2), Hlk. done.
      + cbn. rewrite (sl_parent _ _ Hs2), Hlk. done.
      + intros Hprev. unfold Leaf.ikey_bound in *. change (Leaf.ikey l3 0) with (Leaf.ikey l2 0).
        destruct (Z.eq_dec p 0) as [Hp0|Hp0].
        * destruct Hbound as [?|[?|Hbound]]; [done..|]. by rewrite Hbound, <- Hp0.
        * rewrite Hik by done. by rewrite Hlk.
      + left. cbn. rewrite (sl_modstate _ _ Hs2), Hlk. done. }
  exists B', ns'. split_and!; [done..|]. by rewrite H3, Hns, Hnn.
Qed.

(** The same at the place that the search finds. *)
Lemma insert_room lk v :
  match_state m l ka = 0 -> kip_p kx = -1 -> Leaf.size l < leaf_width -> len_ ka <= max_key_len ->
  let p := Kpermuter.back leaf_width (permutation_ l) in
  (p <> 0 \/ prev_ l = 0 \/ Leaf.ikey_bound l = Key.ikey ka) ->
  lk = Leaf.set_modstate (Leaf.set_version l (lversion lk)) modstate_insert ->
  exists l1 l2, Leaf.assign m lk p ka = Some l1 /\ set_lv p v l1 = Some l2 /\ same_leaf lk l1 /\ same_leaf lk l2 /\
    forall vn, quiet vn -> same_flags (lversion l) vn ->
      rebound (<[b := NLeaf (Leaf.set_version (finish_perm l2 (kip_i kx)) vn)]> h) p0 kb (Some v) B ns.
Proof using Hm Hka Hv.
  intros Hst Hkp Hsize Hlen p Hbound Hlk.
  destruct (lo_entries _ _ _ _ _ (lw_ok _ _ _ _ _ _ _ _ _ _ _ _ _ _ _ _ Hv)) as (live & free & Hle).
  assert (exists free', free = free' ++ [p]) as [free' ->] by by eapply leaf_free_back.
  destruct (leaf_lower_spec l live _ esb Hle ka) as [(_ & la & lb & -> & Hi & Habove & Hbelow)|(Hr & _)];
    [|rewrite Hkp in Hr; lia].
  rewrite <- Hi. by apply (insert_room_at lk v la lb free' p).
Qed.
End update.

(** * Committing *)
Lemma set_value_eq s c v l l' :
  heap s !! n_ c = Some (NLeaf l) -> set_lv (kip_p (kx_ c)) v l = Some l' ->
  set_value c v s = Some (tt, with_heap s (<[n_ c := NLeaf l']> (heap s))).
Proof. intros H Hs. by apply (try_update_leaf_eq _ _ _ _ _ H). Qed.

Lemma with_heap_insert s a n n' h :
  with_heap (with_heap s (<[a := n]> h)) (<[a := n']> (<[a := n]> h)) = with_heap s (<[a := n']> h).
Proof. unfold with_heap. cbn. by rewrite insert_insert_eq. Qed.

(** The end of [finish]: the leaf is unlocked. *)
Lemma finish_found fuel s c l :
  state_ c = 1 -> heap s !! n_ c = Some (NLeaf l) -> busy (lversion l) ->
  exists c', finish fuel 1 c s = Some (c',
    with_heap s (<[n_ c := NLeaf (Leaf.set_version l (Nodeversion.unlock NV (lversion l)))]> (heap s))).
Proof.
  intros Hst Hl Hb. unfold finish. rewrite Hst. cbn [Z.ltb Z.eqb Z.compare andb Pos.eqb].
  rewrite bind_ret. unfold leaf_full_unlocked_version. rewrite bind_assoc, (bind_eq _ _ _ _ _ (get_leaf_eq _ _ _ Hl)), bind_ret.
  eexists. erewrite bind_eq; [done|]. destruct (_ =? _); by apply (unlock_eq _ _ (NLeaf l)).
Qed.
Lemma finish_new fuel s c l :
  state_ c = 2 -> heap s !! n_ c = Some (NLeaf l) -> busy (lversion l) ->
  Kpermuter.back leaf_width (permutation_ l) = kip_p (kx_ c) ->
  exists c', finish fuel 1 c s = Some (c', with_heap s (<[n_ c := NLeaf (Leaf.set_version
    (finish_perm l (kip_i (kx_ c))) (Nodeversion.unlock NV (lversion l)))]> (heap s))).
Proof.
  intros Hst Hl Hb Hback. unfold finish. rewrite Hst. cbn [Z.ltb Z.eqb Z.compare andb Pos.eqb].
  unfold finish_insert. rewrite !bind_assoc, (bind_eq _ _ _ _ _ (get_leaf_eq _ _ _ Hl)).
  cbv beta zeta. unfold Leaf.permutation. rewrite Hback, ?bind_assoc, bind_require by apply Z.eqb_refl.
  rewrite ?bind_assoc, (bind_eq _ _ _ _ _ (update_leaf_eq _ _ _ _ Hl)), bind_ret.
  set (s2 := with_heap s _).
  assert (heap s2 !! n_ c = Some (NLeaf (finish_perm l (kip_i (kx_ c))))) as Hl2 by apply lookup_insert_eq.
  unfold leaf_full_unlocked_version. rewrite bind_assoc, (bind_eq _ _ _ _ _ (get_leaf_eq _ _ _ Hl2)), bind_ret.
  eexists. erewrite bind_eq; [|destruct (_ =? _); by apply (unlock_eq _ _ _ Hl2)].
  unfold s2. by rewrite with_heap_insert.
Qed.

(** A cursor that is ready to commit: its slot, in a leaf of the phantom epoch
    [epoch], can be given any value, and [finish] then leaves a table as [post]
    says. *)
Record ready (s : state) (c : tcursor) (epoch : Z) (post : Z -> state -> Prop) : Prop := {
  rd_leaf : exists l, heap s !! n_ c = Some (NLeaf l) /\ phantom_epoch_ l = epoch;
  rd_commit : forall v, exists s1 s2, set_value c v s = Some (tt, s1) /\
    (forall fuel, exists c', finish fuel 1 c s1 = Some (c', s2)) /\ post v s2 }.

(** The table after a run that sets [kb] to [v]. *)
Definition now_bound (kb : list Z) (B : list (list Z * Z)) (v : Z) (s : state) : Prop :=
  exists B' ns', table_in s B' ns' /\ updated kb (Some v) B B'.

Lemma rebound_in_place s B ns h kb v :
  table_in s B ns -> rebound h (table_root s) kb v B ns ->
  exists B' ns', table_in (with_heap s h) B' ns' /\ updated kb v B B'.
Proof.
  intros [_ Hnd Ha Hf Hm] (B' & ns' & Hr & Hu & Hp). exists B', ns'. split; [|done]. split; try done.
  - by rewrite Hp.
  - intros a. rewrite Hp. apply Ha.
Qed.

(** A leaf with room: what [find_insert] leaves in it. *)
Definition room_leaf (l : leaf) : leaf :=
  if modstate_ l =? modstate_insert then locked_leaf l
  else Leaf.set_modstate (Leaf.set_version l (Nodeversion.mark_insert NV (lockv (lversion l)))) modstate_insert.

Lemma room_leaf_eq par lo hi l es :
  leaf_ok par lo hi l es ->
  busy (lversion (room_leaf l)) /\ same_flags (lversion l) (lversion (room_leaf l)) /\
  Nodeversion.splitting NV (lversion (room_leaf l)) = false /\
  room_leaf l = Leaf.set_modstate (Leaf.set_version l (lversion (room_leaf l))) modstate_insert.
Proof.
  intros Hlok. destruct (lock_busy (lversion l) (lo_quiet _ _ _ _ _ Hlok)) as (Hb & Hf & Hs & _).
  destruct (mark_insert_busy _ Hb) as (Hb' & Hf' & Hs'). unfold room_leaf.
  destruct (Z.eqb_spec (modstate_ l) modstate_insert) as [He|He]; split_and!; try done.
  - unfold locked_leaf. rewrite <- He. by destruct l.
  - cbn. unfold same_flags, lockv in *. destruct Hf, Hf'. split; congruence.
  - cbn. unfold lockv. by rewrite Hs'.
Qed.

(** [find_insert] after [find_locked] has locked the leaf. *)
Section find_insert.
Context (unaligned : bool) (okbuf : Z) (s : state) (B : list (list Z * Z)) (ns : list Z)
  (h : gmap Z node) (kb : list Z) (ka : key) (b : Z) (l : leaf) (c : tcursor) (r : Z).
Context (Hrep : table_in s B ns) (Hfound : found_at unaligned (kmem s) h (table_root s) kb B ns ka b l)
  (Hlen : len_ ka <= max_key_len) (Hh : forall a, a ∉ ns -> h !! a = heap s !! a).
Abbreviation st := (match_state (kmem s) l ka).
Abbreviation kx := (Leaf.lower ka l).
Abbreviation s1 := (with_heap s (<[b := NLeaf (locked_leaf l)]> h)).

Lemma locked_leaf_busy par lo hi es : leaf_ok par lo hi l es -> busy (lversion (locked_leaf l)).
Proof using Type. intros H. by destruct (lock_busy (lversion l) (lo_quiet _ _ _ _ _ H)). Qed.

Lemma found_ready :
  0 < st -> c = mkCursor b ka kx r st b (original_v_ c) (updated_v_ c) (new_nodes_ c) ->
  ready s1 c (phantom_epoch_ l) (now_bound kb B).
Proof using Hfound Hrep.
  intros Hst Hc. pose proof (tr_mem _ _ _ Hrep) as Hm.
  assert (key_wf unaligned (kmem s) ka) as Hka by apply Hfound.
  destruct (found_view unaligned _ _ _ _ _ _ _ _ _ Hm Hfound (tr_nodup _ _ _ Hrep)) as
    (par & lo & hi & n & esb & Bnb & nso & Hv).
  pose proof (lw_ok _ _ _ _ _ _ _ _ _ _ _ _ _ _ _ _ Hv) as Hlok.
  rewrite Hc. split; [exists (locked_leaf l); split; [apply lookup_insert_eq|done]|]. intros v.
  destruct (replace_value unaligned (kmem s) h _ kb B ns ka b l par lo hi n esb Bnb nso Hm Hka Hv v (lversion l))
    as (l' & Hset & Hreb); [done|apply Hlok|done|].
  assert (set_lv (kip_p kx) v (locked_leaf l) = Some (Leaf.set_version l' (lockv (lversion l)))) as Hset'.
  { unfold set_lv in *. change (lv_ (locked_leaf l)) with (lv_ l). destruct (wr (lv_ l) _ v); [|done].
    cbn [mbind option_bind] in *. by injection Hset as <-. }
  eexists _, _. split; [by eapply set_value_eq; [apply lookup_insert_eq|]|]. split.
  - intros fuel. eapply finish_found.
    + cbn [state_]. destruct (lo_entries _ _ _ _ _ Hlok) as (live & free & Hle).
      destruct (match_cases unaligned _ ka Hm Hka l live free esb Hle) as [H|[H|H]]; lia.
    + apply lookup_insert_eq.
    + by apply (locked_leaf_busy par lo hi esb).
  - cbn [n_ heap with_heap lversion Leaf.set_version]. unfold lockv.
    rewrite (unlock_lock _ (lo_quiet _ _ _ _ _ Hlok)), !insert_insert_eq.
    by apply (rebound_in_place s B ns (<[b := NLeaf (Leaf.set_version l' (lversion l))]> h)).
Qed.

(** The leaf that [find_locked] has found, as [find_insert] reads it. *)
Lemma locked_lookup : heap s1 !! b = Some (NLeaf (locked_leaf l)).
Proof using Type. apply lookup_insert_eq. Qed.

Lemma room_mark par lo hi es :
  leaf_ok par lo hi l es ->
  (if modstate_ (locked_leaf l) =? modstate_insert then ret tt
   else require (modstate_ (locked_leaf l) =? modstate_remove) ;!
     mark_insert b ;! update_leaf b (fun l => Leaf.set_modstate l modstate_insert)) s1 =
  Some (tt, with_heap s (<[b := NLeaf (room_leaf l)]> h)).
Proof using Type.
  intros Hlok. unfold room_leaf. change (modstate_ (locked_leaf l)) with (modstate_ l).
  destruct (Z.eqb_spec (modstate_ l) modstate_insert) as [|Hne]; [done|].
  destruct (lo_modstate _ _ _ _ _ Hlok) as [?|Hms]; [done|]. rewrite bind_require by (by apply Z.eqb_eq).
  erewrite bind_eq; [|apply mark_locked_eq; [apply locked_lookup|by apply (locked_leaf_busy par lo hi es)]].
  erewrite update_leaf_eq by apply lookup_insert_eq. cbn. by rewrite !insert_insert_eq.
Qed.

Lemma room_ready on ov uv nn :
  st = 0 -> kip_p kx = -1 -> Leaf.size l < leaf_width ->
  (Kpermuter.back leaf_width (permutation_ l) <> 0 \/ prev_ l = 0 \/ Leaf.ikey_bound l = Key.ikey ka) ->
  exists c' s2, ready s2 c' (phantom_epoch_ l) (now_bound kb B) /\
    forall fuel cc s0, find_locked unaligned fuel cc s0 = Some (mkCursor b ka kx r st on ov uv nn, s1) ->
      find_insert unaligned fuel okbuf cc s0 = Some ((c', false), s2).
Proof using Hfound Hrep Hlen.
  intros Hst Hkp Hsize Hbound. pose proof (tr_mem _ _ _ Hrep) as Hm.
  assert (key_wf unaligned (kmem s) ka) as Hka by apply Hfound.
  destruct (found_view unaligned _ _ _ _ _ _ _ _ _ Hm Hfound (tr_nodup _ _ _ Hrep)) as
    (par & lo & hi & n & esb & Bnb & nso & Hv).
  pose proof (lw_ok _ _ _ _ _ _ _ _ _ _ _ _ _ _ _ _ Hv) as Hlok.
  destruct (room_leaf_eq _ _ _ _ _ Hlok) as (Hbusy & Hflags & Hnosplit & Hrl).
  destruct (insert_room unaligned (kmem s) h _ kb B ns ka b l par lo hi n esb Bnb nso Hm Hka Hv (room_leaf l) 0)
    as (l1 & _ & Hassign & _ & Hs1 & _); try done.
  set (s2 := with_heap s (<[b := NLeaf (room_leaf l)]> h)).
  assert (heap s2 !! b = Some (NLeaf (room_leaf l))) as Hl2 by apply lookup_insert_eq.
  eexists _, _. split; last first.
  { intros fuel cc s0 Hfl. unfold find_insert. rewrite (bind_eq _ _ _ _ _ Hfl).
    cbn [n_ ka_ kx_ root_ state_ original_n_ original_v_ updated_v_ new_nodes_].
    unfold leaf_full_unlocked_version. rewrite bind_assoc, (bind_eq _ _ _ _ _ (get_leaf_eq _ _ _ locked_lookup)), bind_ret.
    rewrite Hst, Hkp. cbn [Z.eqb negb Z.leb Z.compare].
    rewrite (bind_eq _ _ _ _ _ (get_leaf_eq _ _ _ locked_lookup)).
    rewrite (bind_eq _ _ _ _ _ (room_mark par lo hi esb Hlok)). fold s2.
    rewrite (bind_eq _ _ _ _ _ (get_leaf_eq _ _ _ Hl2)).
    assert (Leaf.size (room_leaf l) = Leaf.size l /\ permutation_ (room_leaf l) = permutation_ l /\
      prev_ (room_leaf l) = prev_ l /\ Leaf.ikey_bound (room_leaf l) = Leaf.ikey_bound l) as (-> & -> & -> & ->)
      by (split_and!; by rewrite Hrl).
    destruct (Z.ltb_spec (Leaf.size l) leaf_width) as [_|]; [|lia].
    assert (negb (Kpermuter.back leaf_width (permutation_ l) =? 0) || (prev_ l =? 0) ||
      (Leaf.ikey_bound l =? Key.ikey ka) = true) as ->.
    { rewrite !orb_true_iff, negb_true_iff, Z.eqb_neq, !Z.eqb_eq. tauto. }
    rewrite bind_gets, (bind_eq _ _ _ _ _ (try_update_leaf_eq _ _ _ _ _ Hl2 Hassign)). done. }
  split; [eexists; split; [apply lookup_insert_eq|by rewrite (sl_phantom _ _ Hs1), Hrl]|]. intros v.
  destruct (insert_room unaligned (kmem s) h _ kb B ns ka b l par lo hi n esb Bnb nso Hm Hka Hv (room_leaf l) v)
    as (l1' & l2 & Hassign' & Hset & _ & Hs2 & Hreb); try done.
  rewrite Hassign in Hassign'. injection Hassign' as <-.
  eexists _, _. split; [by eapply set_value_eq; [apply lookup_insert_eq|]|]. split.
  - intros fuel'. eapply finish_new; [done|apply lookup_insert_eq|by rewrite (sl_version _ _ Hs2)|].
    cbn [kx_ kip_p]. rewrite (sl_permutation _ _ Hs2). by rewrite Hrl.
  - destruct (unlock_quiet _ Hbusy) as (Hq & Hul & Hur). unfold s2.
    cbn [n_ kx_ kip_i heap with_heap]. rewrite !insert_insert_eq.
    apply (rebound_in_place s B ns (<[b := NLeaf (Leaf.set_version (finish_perm l2 (kip_i kx))
      (Nodeversion.unlock NV (lversion l2)))]> h)); [done|].
    apply Hreb; rewrite (sl_version _ _ Hs2); [done|].
    destruct Hflags as [Hf1 Hf2]. unfold same_flags. rewrite Hul, Hur, Hnosplit, Hf1, Hf2. by rewrite andb_true_r.
Qed.
End find_insert.
End layers.
