(* ===== verification/Kept.v ===== *)
(** What the operations of a tree keep of its leaves' phantom epochs, whatever
    they do otherwise.

    [kept P m]: if the epochs of all leaves have [P] and [m] returns, they still
    have it.  New leaves take the epoch of the leaf they are split from or
    hang below; only a removal makes epochs, out of those of the leaf and of
    its left neighbour. *)
From S2P Require Import Prelude Compiler Memory StringSlice Key Ksearch Kpermuter Nodeversion.
From S2P Require Import Stringbag Node Heap Get Insert Remove Put.

Definition epochs (P : Z -> Prop) (s : state) : Prop := forall a l, heap s !! a = Some (NLeaf l) -> P (phantom_epoch_ l).

Lemma epochs_heap P s s' : heap s' = heap s -> epochs P s -> epochs P s'.
Proof. intros He Hs a l. rewrite He. apply Hs. Qed.
Lemma epochs_mono (P Q : Z -> Prop) s : (forall e, P e -> Q e) -> epochs P s -> epochs Q s.
Proof. intros H Hs a l Hl. by eapply H, Hs. Qed.

Section kept.
Context (P : Z -> Prop).
Definition kept {A} (m : M A) : Prop := forall s x s', epochs P s -> m s = Some (x, s') -> epochs P s'.
Definition node_kept (n : node) : Prop := match n with NLeaf l => P (phantom_epoch_ l) | NInternode _ => True end.

(** * The monad *)
Lemma kept_ret {A} (x : A) : kept (ret x).
Proof. by intros s y s' Hs [= <- <-]. Qed.
Lemma kept_fail {A} : kept (@fail A).
Proof. by intros s y s' Hs. Qed.
Lemma kept_gets {A} (f : state -> A) : kept (gets f).
Proof. by intros s y s' Hs [= <- <-]. Qed.
Lemma kept_require b : kept (require b).
Proof. destruct b; [apply kept_ret|apply kept_fail]. Qed.
Lemma kept_lift {A} (o : option A) : kept (lift o).
Proof. intros s y s' Hs. unfold lift. destruct o; [by intros [= <- <-]|done]. Qed.
Lemma kept_bind {A B} (m : M A) (k : A -> M B) : kept m -> (forall x, kept (k x)) -> kept (bind m k).
Proof.
  intros Hm Hk s y s' Hs. unfold bind. destruct (m s) as [[x s1]|] eqn:E; [|done]. eapply Hk. by eapply Hm.
Qed.
Lemma kept_bind_lift {A B} (o : option A) (k : A -> M B) : (forall x, o = Some x -> kept (k x)) -> kept (bind (lift o) k).
Proof. intros Hk s y s' Hs. unfold bind, lift. destruct o as [x|]; [|done]. by apply Hk. Qed.
Lemma kept_bind_node {B} a (k : node -> M B) : (forall n, node_kept n -> kept (k n)) -> kept (bind (get_node a) k).
Proof.
  intros Hk s y s' Hs. unfold bind, get_node. destruct (heap s !! a) as [n|] eqn:E; [|done]. cbn. apply Hk; [|done].
  destruct n; [by eapply Hs|done].
Qed.
Lemma kept_bind_leaf {B} a (k : leaf -> M B) : (forall l, P (phantom_epoch_ l) -> kept (k l)) -> kept (bind (get_leaf a) k).
Proof.
  intros Hk s y s' Hs. unfold bind, get_leaf, bind, get_node. destruct (heap s !! a) as [[l|i]|] eqn:E; [|done..].
  cbn. apply Hk; [|done]. by eapply Hs.
Qed.
Lemma kept_get_node a : kept (get_node a).
Proof. intros s y s' Hs. unfold get_node. destruct (heap s !! a); [|done]. by intros [= <- <-]. Qed.
Lemma kept_get_leaf a : kept (get_leaf a).
Proof. apply kept_bind_node. intros [l|i] _; [apply kept_ret|apply kept_fail]. Qed.
Lemma kept_get_internode a : kept (get_internode a).
Proof. apply kept_bind_node. intros [l|i] _; [apply kept_fail|apply kept_ret]. Qed.

(** * The heap *)
Lemma epochs_insert s a n : epochs P s -> node_kept n -> forall b l, <[a := n]> (heap s) !! b = Some (NLeaf l) -> P (phantom_epoch_ l).
Proof. intros Hs Hn b l [[_ ->]|[_ Hb]]%lookup_insert_Some; [done|by eapply Hs]. Qed.
Lemma kept_put_node a n : node_kept n -> kept (put_node a n).
Proof. intros Hn s y s' Hs [= <- <-]. exact (epochs_insert s a n Hs Hn). Qed.
Lemma kept_put_leaf a l : P (phantom_epoch_ l) -> kept (put_leaf a l).
Proof. apply (kept_put_node a (NLeaf l)). Qed.
Lemma kept_put_internode a i : kept (put_internode a i).
Proof. by apply kept_put_node. Qed.
Lemma kept_allocate n : node_kept n -> kept (allocate n).
Proof. intros Hn s y s' Hs [= <- <-]. exact (epochs_insert s _ n Hs Hn). Qed.
Lemma kept_deallocate_rcu a : kept (deallocate_rcu a).
Proof. by intros s y s' Hs [= <- <-]. Qed.
Lemma kept_rcu_register c : kept (rcu_register c).
Proof. by intros s y s' Hs [= <- <-]. Qed.
Lemma kept_set_table_root r : kept (set_table_root r).
Proof. by intros s y s' Hs [= <- <-]. Qed.
Lemma kept_set_kmem m : kept (set_kmem m).
Proof. by intros s y s' Hs [= <- <-]. Qed.
Lemma kept_update_leaf a f : (forall l, phantom_epoch_ (f l) = phantom_epoch_ l) -> kept (update_leaf a f).
Proof. intros Hf. apply kept_bind_leaf. intros l Hl. apply kept_put_leaf. by rewrite Hf. Qed.
Lemma kept_try_update_leaf a f :
  (forall l l', f l = Some l' -> phantom_epoch_ l' = phantom_epoch_ l) -> kept (try_update_leaf a f).
Proof.
  intros Hf. apply kept_bind_leaf. intros l Hl. apply kept_bind_lift. intros l' Hl'. apply kept_put_leaf. by rewrite (Hf _ _ Hl').
Qed.
Lemma kept_update_internode a f : kept (update_internode a f).
Proof. apply kept_bind; [apply kept_get_internode|]. intros. apply kept_put_internode. Qed.
Lemma kept_try_update_internode a f : kept (try_update_internode a f).
Proof. apply kept_bind; [apply kept_get_internode|]. intros. apply kept_bind_lift. intros. apply kept_put_internode. Qed.
Lemma kept_set_version a v : kept (set_version a v).
Proof. apply kept_bind_node. intros [l|i] Hn; by apply kept_put_node. Qed.
Lemma kept_set_parent a p : kept (set_parent a p).
Proof. apply kept_bind_node. intros [l|i] Hn; by apply kept_put_node. Qed.
Lemma kept_for_each {A} (l : list A) f : (forall x, kept (f x)) -> kept (for_each l f).
Proof. intros Hf. induction l as [|x l IH]; cbn; [apply kept_ret|]. by apply kept_bind. Qed.
End kept.

Create HintDb kept.
#[export] Hint Resolve kept_ret kept_fail kept_gets kept_require kept_lift kept_get_node kept_get_leaf kept_get_internode
  kept_put_internode kept_deallocate_rcu kept_rcu_register kept_set_table_root kept_set_kmem kept_update_internode
  kept_try_update_internode kept_set_version kept_set_parent kept_put_leaf kept_put_node kept_allocate : kept.

(** * The leaves that are written *)
Lemma write_slot_epoch l p k i v l' : Leaf.write_slot l p k i v = Some l' -> phantom_epoch_ l' = phantom_epoch_ l.
Proof.
  unfold Leaf.write_slot. destruct (wr (lv_ l) p v), (wr (ikey0_ l) p i), (wr (keylenx_ l) p k); try done. by intros [= <-].
Qed.
Lemma assign_ksuf_epoch l p s init l' : Leaf.assign_ksuf l p s init = Some l' -> phantom_epoch_ l' = phantom_epoch_ l.
Proof.
  unfold Leaf.assign_ksuf. destruct (Leaf.assign_ksuf_inplace l p s) as [l1|] eqn:E.
  - intros [= <-]. revert E. unfold Leaf.assign_ksuf_inplace.
    repeat case_match; try done; by intros [= <-].
  - clear E. destruct (make_bag _ _ _) as [b|]; [|done]. cbn. destruct (Leaf.assign_all _ _) as [b'|]; [|done]. cbn.
    destruct (_ =? _); [done|]. by intros [= <-].
Qed.
Lemma assign_with_epoch init m l p ka l' : Leaf.assign_with init m l p ka = Some l' -> phantom_epoch_ l' = phantom_epoch_ l.
Proof.
  unfold Leaf.assign_with. destruct (negb _); [apply write_slot_epoch|].
  destruct (Leaf.write_slot _ _ _ _ _) as [l1|] eqn:E; [|done]. cbn. intros ->%assign_ksuf_epoch. by eapply write_slot_epoch.
Qed.
Lemma assign_from_epoch l p x xp l' : Leaf.assign_initialize_from l p x xp = Some l' -> phantom_epoch_ l' = phantom_epoch_ l.
Proof.
  unfold Leaf.assign_initialize_from. destruct (Leaf.write_slot _ _ _ _ _) as [l1|] eqn:E; [|done]. cbn.
  apply write_slot_epoch in E. rewrite <- E. destruct (Leaf.has_ksuf x xp); [apply assign_ksuf_epoch|by intros [= <-]].
Qed.
Lemma assign_layer_epoch l p ka l' : Leaf.assign_initialize_for_layer l p ka = Some l' -> phantom_epoch_ l' = phantom_epoch_ l.
Proof. unfold Leaf.assign_initialize_for_layer. destruct (Key.has_suffix ka); [apply write_slot_epoch|done]. Qed.
Lemma make_epoch sz ep l : Leaf.make sz ep = Some l -> phantom_epoch_ l = ep.
Proof.
  unfold Leaf.make, Leaf.construct. destruct (_ && _); [|done]. intros H.
  destruct (if 0 <? _ then _ else _) as [iks|]; [|done]. by injection H as <-.
Qed.
Lemma make_root_epoch sz ep l : Leaf.make_root sz ep = Some l -> phantom_epoch_ l = ep.
Proof.
  unfold Leaf.make_root. destruct (Leaf.make sz ep) as [l1|] eqn:E; [|done]. cbn. apply make_epoch in E.
  destruct (wr _ _ _); [|done]. by intros [= <-].
Qed.
Lemma move_items_epoch k m l nr p mid ka pv x nr' :
  LeafSplit.move_items k m l nr p mid ka pv x = Some nr' -> phantom_epoch_ nr' = phantom_epoch_ nr.
Proof.
  revert nr pv x. induction k as [|k IH]; intros nr pv x; cbn; [by intros [= <-]|].
  destruct (x =? p).
  - destruct (Leaf.assign_initialize _ _ _ _) as [nr1|] eqn:E; [|done]. cbn. intros ->%IH. by eapply assign_with_epoch.
  - destruct (Leaf.assign_initialize_from _ _ _ _) as [nr1|] eqn:E; [|done]. cbn. intros ->%IH. by eapply assign_from_epoch.
Qed.
Lemma split_into_epoch m l nr p ka nr' x t : LeafSplit.split_into m l nr p ka = Some (nr', x, t) -> phantom_epoch_ nr' = phantom_epoch_ nr.
Proof.
  unfold LeafSplit.split_into. destruct (negb _); [done|]. destruct (LeafSplit.split_point _ _ _) as [mid|]; [|done]. cbn.
  destruct (LeafSplit.move_items _ _ _ _ _ _ _ _ _) as [nr1|] eqn:E; [|done]. cbn. intros [= <- _ _].
  cbn. by eapply move_items_epoch.
Qed.
Lemma slots_epoch (l : leaf) (o : option (list Z)) f l' :
  (forall a, phantom_epoch_ (f a) = phantom_epoch_ l) -> (a ← o; Some (f a)) = Some l' -> phantom_epoch_ l' = phantom_epoch_ l.
Proof. intros Hf. destruct o as [a|]; [|done]. cbn. intros [= <-]. apply Hf. Qed.

#[export] Hint Resolve write_slot_epoch assign_with_epoch assign_from_epoch assign_layer_epoch : kept.

(** Follows the code; what is left are the leaves that are written. *)
Ltac kept :=
  repeat first
    [ progress intros
    | solve [eauto 2 with kept]
    | lazymatch goal with
      | |- kept _ (let '(_, _) := ?x in _) => destruct x
      | |- kept _ (if ?b then _ else _) => destruct b eqn:?
      | |- kept _ (match ?x with _ => _ end) => destruct x eqn:?
      | |- kept _ (bind (lift _) _) => apply kept_bind_lift
      | |- kept _ (bind (get_node _) _) => apply kept_bind_node
      | |- kept _ (bind (get_leaf _) _) => apply kept_bind_leaf
      | |- kept _ (bind _ _) => apply kept_bind
      | |- kept _ (update_leaf _ _) => apply kept_update_leaf
      | |- kept _ (try_update_leaf _ _) => apply kept_try_update_leaf
      | |- kept _ (for_each _ _) => apply kept_for_each
      | |- kept _ (let x := ?v in _) => cbv zeta
      | H : (mbind _ ?o) = Some ?l |- phantom_epoch_ ?l = _ => destruct o; [cbn in H; injection H as <-; reflexivity|done]
      | |- _ = _ => reflexivity
      | |- kept _ (allocate _) => apply kept_allocate
      | |- kept _ (put_leaf _ _) => apply kept_put_leaf
      | |- node_kept _ (NLeaf _) => cbn [node_kept]
      | |- node_kept _ (NInternode _) => exact I
      | H : Leaf.make _ _ = Some ?l |- ?P (phantom_epoch_ ?l) => rewrite (make_epoch _ _ _ H)
      | H : Leaf.make_root _ _ = Some ?l |- ?P (phantom_epoch_ ?l) => rewrite (make_root_epoch _ _ _ H)
      | H : LeafSplit.split_into _ _ _ _ _ = Some (?l, _, _) |- ?P (phantom_epoch_ ?l) =>
          rewrite (split_into_epoch _ _ _ _ _ _ _ _ H)
      end ].


(** * The operations *)
Section operations.
Context (P : Z -> Prop) (unaligned : bool).
Local Ltac kept_fix fuel := induction fuel as [|fuel IH]; intros; cbn; [apply kept_fail|kept].

Lemma kept_version a : kept P (version a).
Proof. unfold version. kept. Qed.
Hint Resolve kept_version : kept.
Lemma kept_update_version a f : kept P (update_version a f).
Proof. unfold update_version. kept. Qed.
Hint Resolve kept_update_version : kept.
Lemma kept_parent a : kept P (parent a).
Proof. unfold parent. kept. Qed.
Hint Resolve kept_parent : kept.
Lemma kept_maybe_parent a : kept P (maybe_parent a).
Proof. unfold maybe_parent. kept. Qed.
Lemma kept_stable a : kept P (stable a).
Proof. unfold stable. kept. Qed.
Lemma kept_lock a v : kept P (lock a v).
Proof. unfold lock. kept. Qed.
Lemma kept_unlock a : kept P (unlock a).
Proof. unfold unlock. kept. Qed.
Lemma kept_mark_locked f a : kept P (mark_locked f a).
Proof. unfold mark_locked. kept. Qed.
Hint Resolve kept_maybe_parent kept_stable kept_lock kept_unlock kept_mark_locked : kept.
Lemma kept_make_layer_root a : kept P (make_layer_root a).
Proof. unfold make_layer_root, mark_root. kept. Qed.
Lemma kept_locked_parent fuel : forall a, kept P (locked_parent fuel a).
Proof. kept_fix fuel. Qed.
Lemma kept_internode_compare fuel : forall a k v, kept P (internode_stable_last_key_compare fuel a k v).
Proof. kept_fix fuel. Qed.
Lemma kept_leaf_compare fuel : forall a k v, kept P (leaf_stable_last_key_compare fuel a k v).
Proof. kept_fix fuel. Qed.
Hint Resolve kept_make_layer_root kept_locked_parent kept_internode_compare kept_leaf_compare : kept.
Lemma kept_reach_root fuel : forall n, kept P (reach_root fuel n).
Proof. kept_fix fuel. Qed.
Lemma kept_reach_down fuel ka : forall n v, kept P (reach_down fuel ka n v).
Proof. kept_fix fuel. Qed.
Hint Resolve kept_reach_root kept_reach_down : kept.
Lemma kept_reach_leaf fuel : forall a ka, kept P (reach_leaf fuel a ka).
Proof.
  induction fuel as [|fuel IH]; intros; cbn [reach_leaf]; [apply kept_fail|kept].
Qed.
Lemma kept_advance_loop fuel ka : forall n v, kept P (advance_loop fuel ka n v).
Proof. kept_fix fuel. Qed.
Hint Resolve kept_reach_leaf kept_advance_loop : kept.
Lemma kept_advance_to_key fuel ka n v : kept P (advance_to_key fuel ka n v).
Proof. unfold advance_to_key. kept. Qed.
Lemma kept_fix_root : kept P fix_root.
Proof. unfold fix_root. kept. Qed.
Hint Resolve kept_advance_to_key kept_fix_root : kept.
Lemma kept_make_tcursor s len : kept P (make_tcursor unaligned s len).
Proof. unfold make_tcursor. kept. Qed.
Lemma kept_locked_forward fuel : forall root0 root ka n v, kept P (locked_forward unaligned fuel root0 root ka n v).
Proof. kept_fix fuel. Qed.
Hint Resolve kept_make_tcursor kept_locked_forward : kept.
Lemma kept_find_locked_from fuel : forall root0 root ka, kept P (find_locked_from unaligned fuel root0 root ka).
Proof. induction fuel as [|fuel IH]; intros; cbn [find_locked_from]; [apply kept_fail|kept]. Qed.
Hint Resolve kept_find_locked_from : kept.
Lemma kept_find_locked fuel c : kept P (find_locked unaligned fuel c).
Proof. unfold find_locked. kept. Qed.
Lemma kept_full_version a : kept P (leaf_full_unlocked_version a).
Proof. unfold leaf_full_unlocked_version. kept. Qed.
Lemma kept_require_locked a : kept P (require_locked a).
Proof. unfold require_locked. kept. Qed.
Lemma kept_set_next a n : kept P (set_next a n).
Proof. unfold set_next. kept. Qed.
Lemma kept_set_prev a n : kept P (set_prev a n).
Proof. unfold set_prev. kept. Qed.
Hint Resolve kept_set_next kept_set_prev : kept.
Lemma kept_lock_next fuel : forall n, kept P (lock_next fuel n).
Proof. kept_fix fuel. Qed.
Lemma kept_lock_prev fuel : forall n, kept P (lock_prev fuel n).
Proof. kept_fix fuel. Qed.
Hint Resolve kept_find_locked kept_full_version kept_require_locked kept_lock_next kept_lock_prev : kept.
Lemma kept_link_split fuel n nr : kept P (link_split fuel n nr).
Proof. unfold link_split. kept. Qed.
Lemma kept_unlink fuel n : kept P (unlink fuel n).
Proof. unfold unlink. kept. Qed.
Hint Resolve kept_link_split kept_unlink : kept.

(** ** Insertion *)
Lemma kept_leaf_split_into fuel n child c : kept P (leaf_split_into fuel n child c).
Proof. unfold leaf_split_into. kept. Qed.
Lemma kept_internode_split_into n nr p ka v t : kept P (internode_split_into n nr p ka v t).
Proof. unfold internode_split_into. kept. Qed.
Lemma kept_internode_assign a p ikey child : kept P (internode_assign a p ikey child).
Proof. unfold internode_assign. kept. Qed.
Hint Resolve kept_leaf_split_into kept_internode_split_into kept_internode_assign : kept.
Lemma kept_link_child fuel n child xikey height t : kept P (link_child fuel n child xikey height t).
Proof. unfold link_child, mark_insert, mark_nonroot. kept. Qed.
Lemma kept_strip_left nl nr t c : kept P (strip_left nl nr t c).
Proof. unfold strip_left, mark_split. kept. Qed.
Hint Resolve kept_link_child kept_strip_left : kept.
Lemma kept_split_loop fuel : forall n child xikey height t c, kept P (split_loop fuel n child xikey height t c).
Proof. kept_fix fuel. Qed.
Hint Resolve kept_split_loop : kept.
Lemma kept_make_split fuel c : kept P (make_split fuel c).
Proof. unfold make_split. kept. Qed.
Hint Resolve kept_make_split : kept.
Lemma kept_make_twig fuel : forall n head tail oka ka kcmp new, kept P (make_twig unaligned fuel n head tail oka ka kcmp new).
Proof. kept_fix fuel. Qed.
Hint Resolve kept_make_twig : kept.
Lemma kept_make_new_layer fuel okbuf c : kept P (make_new_layer unaligned fuel okbuf c).
Proof. unfold make_new_layer, mark_insert. kept. Qed.
Hint Resolve kept_make_new_layer : kept.
Lemma kept_find_insert fuel okbuf c : kept P (find_insert unaligned fuel okbuf c).
Proof. unfold find_insert, mark_insert. kept. Qed.
Lemma kept_finish_insert c : kept P (finish_insert c).
Proof. unfold finish_insert. kept. Qed.

(** ** Removal *)
Lemma kept_raise n : kept P (raise_phantom_epoch n).
Proof. unfold raise_phantom_epoch. kept. Qed.
Lemma kept_redirect_loop fuel : forall n ikey r kp, kept P (redirect_loop fuel n ikey r kp).
Proof. kept_fix fuel. Qed.
Hint Resolve kept_find_insert kept_finish_insert kept_raise kept_redirect_loop : kept.
Lemma kept_remove_loop fuel : forall n ikey r, kept P (remove_loop fuel n ikey r).
Proof. unfold mark_insert, mark_deleted, redirect. kept_fix fuel. Qed.
Hint Resolve kept_remove_loop : kept.
Lemma kept_remove_leaf fuel leaf root prefix : kept P (remove_leaf fuel leaf root prefix).
Proof. unfold remove_leaf, mark_deleted. kept. Qed.
Hint Resolve kept_remove_leaf : kept.
Lemma kept_finish_remove fuel c : kept P (finish_remove fuel c).
Proof. unfold finish_remove, mark_insert. kept. Qed.
Hint Resolve kept_finish_remove : kept.
Lemma kept_finish fuel state c : kept P (finish fuel state c).
Proof. unfold finish. kept. Qed.
Hint Resolve kept_finish : kept.
Lemma kept_run_insert {X} fuel okbuf observe apply s len (x : X) :
  kept P (run_insert unaligned fuel okbuf observe apply s len x).
Proof. unfold run_insert, value, set_value. kept. Qed.
End operations.
#[export] Hint Resolve kept_find_locked kept_finish kept_make_tcursor : kept.
