(* ===== verification/NewLayer.v ===== *)
(** Making a layer, [make_new_layer] of [src/masstree_insert.hh]: a twig of
    one-entry layers for the slices that the old key's suffix and the new key
    share, and below it a leaf with both. *)
From Stdlib Require Import Sorted.
From S2P Require Import Prelude Compiler Memory StringSlice Key Ksearch Kpermuter Nodeversion.
From S2P Require Import Stringbag Node Heap Get Insert Remove Tree Find Steps LeafSpec Locate Put.

(** * Twigs *)
Definition root_version : Z := Nodeversion.mark_root NV (Nodeversion.make NV true).

Lemma root_version_quiet : quiet root_version.
Proof. by vm_compute. Qed.

(** A root leaf with one entry, for a layer, in slot 0. *)
Record twig_leaf (k v : Z) (l : leaf) : Prop := {
  tl_entries : exists free, leaf_entries l [0] free [mkEntry k layer_keylenx [] v];
  tl_version : lversion l = root_version;
  tl_links : next_ l = 0 /\ prev_ l = 0 /\ lparent_ l = 0;
  tl_modstate : modstate_ l = modstate_insert }.

(** A root leaf that is alone in its layer. *)
Lemma root_leaf_layer n h a l es Bns :
  h !! a = Some (NLeaf l) -> leaf_ok 0 0 (2 ^ ikey_bits) l es -> prev_ l = 0 -> next_ l = 0 ->
  Forall2 (entry_rep (layer_rep n h)) es Bns ->
  layer_rep (S n) h a (binds Bns) (a :: nodes Bns).
Proof.
  intros Ha Hok Hp Hn He. exists 1%nat, a, es, [a], Bns. split_and!; [| | |done..].
  - eapply climbs_root; [by apply elem_of_cons; left|done|apply Hok|].
    by apply (lo_root _ _ _ _ _ Hok).
  - left. by exists l.
  - by eapply linked_single.
Qed.

Lemma entries_range l live free es :
  leaf_entries l live free es -> Forall (fun e => 0 <= e_ikey e < 2 ^ ikey_bits) es.
Proof. intros H. eapply Forall_impl; [apply (le_ok _ _ _ _ H)|]. by intros e []. Qed.

Lemma root_leaf_ok l live free es :
  leaf_entries l live free es -> lversion l = root_version -> lparent_ l = 0 -> prev_ l = 0 ->
  modstate_ l = modstate_insert -> leaf_ok 0 0 (2 ^ ikey_bits) l es.
Proof.
  intros He Hv Hpar Hprev Hm. split.
  - by exists live, free.
  - by eapply entries_range.
  - rewrite Hv. by vm_compute.
  - rewrite Hv. by vm_compute.
  - rewrite Hv. by vm_compute.
  - done.
  - done.
  - by left.
Qed.

Lemma twig_leaf_layer n h a k v l B ns :
  h !! a = Some (NLeaf l) -> twig_leaf k v l -> layer_rep n h v B ns -> nonempty_keys B ->
  layer_rep (S n) h a (map (add_prefix (ikey_bytes k)) B) (a :: ns).
Proof.
  intros Ha [(free & He) Hv (Hn & Hp & Hpar) Hm] HB Hne.
  replace (map (add_prefix (ikey_bytes k)) B) with (binds [(map (add_prefix (ikey_bytes k)) B, ns)])
    by (cbn; by rewrite app_nil_r).
  replace (a :: ns) with (a :: nodes [(map (add_prefix (ikey_bytes k)) B, ns)]) by (cbn; by rewrite app_nil_r).
  eapply root_leaf_layer; [done|by eapply root_leaf_ok|done|done|]. constructor; [|constructor].
  by exists B.
Qed.

Lemma make_sorted_stored n :
  0 <= n <= 15 -> repr leaf_width (store_permutation leaf_width (make_sorted leaf_width n)) (seqZ 0 n) (reverse (seqZ n (15 - n))).
Proof. intros Hn. apply store_permutation_repr; [done|]. by apply make_sorted_repr. Qed.

Lemma twig_leaf_new epoch l ka :
  blank root_version epoch l -> Key.has_suffix ka = true -> in_u ikey_bits (Key.ikey ka) ->
  exists l1, Leaf.assign_initialize_for_layer l 0 ka = Some l1 /\
    twig_leaf (Key.ikey ka) (Leaf.lv l 0) (Leaf.set_permutation l1 (store_permutation leaf_width (make_sorted leaf_width 1))) /\
    phantom_epoch_ l1 = epoch.
Proof.
  intros [[[Hk Hi Ha Hb] Hr _ _ _] Hv Hm (Hn & Hp & Hpar) He] Hs Hik. unfold Leaf.assign_initialize_for_layer. rewrite Hs.
  destruct (write_slot_spec l 0 layer_keylenx (Key.ikey ka) (Leaf.lv l 0) Hk Hi Ha) as
    (k & i & a & -> & Hlk & Hli & Hla & Hzk & Hzi & Hza); [done|].
  eexists. split; [done|]. split; [|done]. split; [|done..]. eexists. split.
  - by split.
  - cbn. by apply (make_sorted_stored 1).
  - cbn [map]. unfold slot_entry. f_equal.
    unfold Leaf.ikey, Leaf.keylenx, Leaf.has_ksuf, Leaf.keylenx, Leaf.lv. cbn [lv_ ikey0_ keylenx_ Leaf.set_permutation Leaf.set_slots].
    rewrite (rd_zlookup k 0 layer_keylenx), (rd_zlookup i 0 (Key.ikey ka)), (rd_zlookup a 0 (rd (lv_ l) 0)); [done|..];
      rewrite ?Hzk, ?Hzi, ?Hza; done.
  - constructor; [|constructor]. split; [done|]. by right; right.
  - repeat constructor.
Qed.

Lemma twig_leaf_set k v x l :
  twig_leaf k v l -> exists l', set_lv 0 x l = Some l' /\ twig_leaf k x l'.
Proof.
  intros [(free & He) Hv (Hn & Hp & Hpar) Hm].
  destruct (leaf_set_lv l [] 0 [] free _ x He) as (l' & H1 & [S1 S2 S3 S4 S5 S6 S7] & _ & _ & _ & H2).
  exists l'. split; [done|]. split; [|congruence|split_and!; congruence|congruence].
  exists free. assert (slot_entry l 0 = mkEntry k layer_keylenx [] v) as Hes
    by (pose proof (le_es _ _ _ _ He) as Hes; cbn [map] in Hes; congruence).
  cbn [app map] in H2. by rewrite Hes in H2.
Qed.

(** The twig [aks]: the leaves' addresses and slices; below the last is [p]. *)
Definition twig_head (aks : list (Z * Z)) (p : Z) : Z := match aks with [] => p | (a, _) :: _ => a end.
Definition twig_tail (aks : list (Z * Z)) (p : Z) : Z := match last aks with Some (a, _) => a | None => p end.
Definition twig_prefix (aks : list (Z * Z)) : list Z := concat (map (fun ak => ikey_bytes (snd ak)) aks).
Fixpoint twigs (h : gmap Z node) (aks : list (Z * Z)) (p : Z) : Prop :=
  match aks with
  | [] => True
  | (a, k) :: rest =>
      (exists l, h !! a = Some (NLeaf l) /\ twig_leaf k (twig_head rest p) l) /\ twigs h rest p
  end.

Lemma twig_head_app aks1 aks2 p : twig_head (aks1 ++ aks2) p = twig_head aks1 (twig_head aks2 p).
Proof. by destruct aks1 as [|[]]. Qed.
Lemma twig_prefix_snoc aks a k : twig_prefix (aks ++ [(a, k)]) = twig_prefix aks ++ ikey_bytes k.
Proof. unfold twig_prefix. rewrite map_app, concat_app. cbn [map concat snd]. by rewrite app_nil_r. Qed.

Lemma twigs_app h aks1 aks2 p : twigs h (aks1 ++ aks2) p <-> twigs h aks1 (twig_head aks2 p) /\ twigs h aks2 p.
Proof.
  induction aks1 as [|[a k] aks1 IH]; cbn [app twigs]; [tauto|]. rewrite IH, twig_head_app. tauto.
Qed.
Lemma twigs_frame h h' aks p : agree h h' (map fst aks) -> twigs h aks p -> twigs h' aks p.
Proof.
  induction aks as [|[a k] aks IH]; cbn [twigs map fst]; [done|]. intros [Ha Hag]%agree_cons [(l & Hl & Ht) Hr].
  split; [exists l; by rewrite Ha|by apply IH].
Qed.

(** Setting what the last leaf points to. *)
Lemma twigs_link h aks a k x p :
  twigs h (aks ++ [(a, k)]) x -> a ∉ map fst aks ->
  exists l l', h !! a = Some (NLeaf l) /\ set_lv 0 p l = Some l' /\
    twigs (<[a := NLeaf l']> h) (aks ++ [(a, k)]) p.
Proof.
  intros [H1 [(l & Hl & Ht) _]]%twigs_app Ha. destruct (twig_leaf_set k _ p l Ht) as (l' & Hset & Ht').
  exists l, l'. split_and!; [done..|]. apply twigs_app. split.
  - by eapply twigs_frame; [apply agree_insert|].
  - split; [|done]. exists l'. by rewrite lookup_insert_eq.
Qed.

Lemma length_twig_prefix aks : length (twig_prefix aks) = (8 * length aks)%nat.
Proof.
  induction aks as [|[a k] aks IH]; [done|]. unfold twig_prefix in *. cbn [map concat snd length].
  rewrite length_app, length_ikey_bytes, IH. lia.
Qed.
Lemma add_prefix_nonempty p B : nonempty_keys B -> nonempty_keys (map (add_prefix p) B).
Proof.
  unfold nonempty_keys. rewrite !Forall_forall. intros H kv (kv' & -> & Hin)%list_elem_of_fmap. cbn.
  intros [_ Hn]%app_nil. by apply (H kv').
Qed.

Lemma twigs_layer h aks p n B ns :
  twigs h aks p -> layer_rep n h p B ns -> nonempty_keys B ->
  layer_rep (length aks + n) h (twig_head aks p) (map (add_prefix (twig_prefix aks)) B) (map fst aks ++ ns).
Proof.
  intros Ht HB Hne. induction aks as [|[a k] aks IH]; cbn [twigs] in Ht.
  - cbn. by rewrite map_add_prefix_nil.
  - destruct Ht as [(l & Hl & Hk) Ht]. specialize (IH Ht).
    cbn [twig_head map fst app length Nat.add]. unfold twig_prefix. cbn [map concat snd]. fold (twig_prefix aks).
    rewrite <- map_add_prefix_app. eapply twig_leaf_layer; try done. by apply add_prefix_nonempty.
Qed.

(** * The loop that makes a twig *)
(** A state with the heap [h] after allocations up to [f]. *)
Definition at_heap (s : state) (h : gmap Z node) (f : Z) : state :=
  mkState h f (limbo s) (callbacks s) (table_root s) (kmem s).
Lemma with_at_heap s h f h' : with_heap (at_heap s h f) h' = at_heap s h' f.
Proof. done. Qed.
Lemma heap_at_heap s h f : heap (at_heap s h f) = h.
Proof. done. Qed.
(** Brings a state after updates into the form [at_heap]. *)
Ltac merge_heap := rewrite ?with_at_heap, ?heap_at_heap, ?insert_insert_eq.
Lemma allocate_eq s nd :
  allocate nd s = Some (next_fresh s, at_heap s (<[next_fresh s := nd]> (heap s)) (next_fresh s + 64)).
Proof. done. Qed.
Lemma full_version_eq s a l :
  heap s !! a = Some (NLeaf l) -> leaf_full_unlocked_version a s = Some (Leaf.full_unlocked_version_value l, s).
Proof. intros H. unfold leaf_full_unlocked_version. by rewrite (bind_eq _ _ _ _ _ (get_leaf_eq _ _ _ H)). Qed.

Definition fresh (f : Z) (k : nat) : list Z := map (fun i => f + 64 * Z.of_nat i) (seq 0 k).
Lemma fresh_snoc f k : fresh f (S k) = fresh f k ++ [f + 64 * Z.of_nat k].
Proof. unfold fresh. by rewrite seq_S, map_app. Qed.
Lemma elem_of_fresh f k a : a ∈ fresh f k <-> exists i, a = f + 64 * Z.of_nat i /\ (i < k)%nat.
Proof.
  unfold fresh. rewrite list_elem_of_fmap. setoid_rewrite elem_of_seq.
  split; intros (i & H1 & H2); exists i; split; done || lia.
Qed.
Lemma fresh_NoDup f k : NoDup (fresh f k).
Proof. apply NoDup_fmap_2; [intros ???; lia|apply NoDup_seq]. Qed.
Lemma fresh_range f k a : a ∈ fresh f k -> f <= a /\ a + 64 <= f + 64 * Z.of_nat k /\ (a - f) mod 64 = 0.
Proof.
  intros (i & -> & Hi)%elem_of_fresh. split_and!; [lia|lia|].
  replace (f + 64 * Z.of_nat i - f) with (Z.of_nat i * 64) by lia. by apply Z.mod_mul.
Qed.

Section twig.
Context (unaligned : bool) (s0 : state) (n : Z) (ln : leaf)
  (Hm : mem_bytes (kmem s0)) (Hn : heap s0 !! n = Some (NLeaf ln)) (Hnf : n < next_fresh s0).

Record twig_state (aks : list (Z * Z)) (s : state) : Prop := {
  ts_next : next_fresh s = next_fresh s0 + 64 * zlength aks;
  ts_addrs : map fst aks = fresh (next_fresh s0) (length aks);
  ts_frame : forall a, a < next_fresh s0 -> heap s !! a = heap s0 !! a;
  ts_twigs : exists x, twigs (heap s) aks x;
  ts_root : table_root s = table_root s0;
  ts_kmem : kmem s = kmem s0;
  ts_rest : limbo s = limbo s0 /\ callbacks s = callbacks s0;
  ts_tail : forall t, heap s !! twig_tail aks n = Some (NLeaf t) -> phantom_epoch_ t = phantom_epoch_ ln }.

Lemma twig_state_tail aks s :
  twig_state aks s -> exists t, heap s !! twig_tail aks n = Some (NLeaf t).
Proof using Hn Hnf.
  intros [_ _ Hf [x Ht] _ _ _ _]. unfold twig_tail. destruct (last aks) as [[a k]|] eqn:E.
  - apply last_Some in E as [aks' ->]. apply twigs_app in Ht as [_ [(l & Hl & _) _]]. by exists l.
  - exists ln. by rewrite Hf.
Qed.

Lemma twig_state_snoc aks s h' l' k v :
  twig_state aks s -> twigs h' aks (next_fresh s) ->
  (forall a, a < next_fresh s0 -> h' !! a = heap s !! a) ->
  h' !! next_fresh s = Some (NLeaf l') -> twig_leaf k v l' -> phantom_epoch_ l' = phantom_epoch_ ln ->
  twig_state (aks ++ [(next_fresh s, k)]) (at_heap s h' (next_fresh s + 64)).
Proof using Type.
  intros [H1 H2 H3 H4 H5 H6 H7 H8] Ht Hf Hl Hk He. split; cbn [next_fresh heap at_heap table_root kmem]; try done.
  - rewrite H1, zlength_app. unfold zlength. cbn. lia.
  - rewrite map_app, length_app, Nat.add_1_r, fresh_snoc, H2, H1. done.
  - intros a Ha. by rewrite Hf, H3.
  - exists v. apply twigs_app. split; [done|]. cbn [twigs twig_head]. split; [by exists l'|done].
  - intros t. unfold twig_tail. rewrite last_snoc. cbn [fst]. rewrite Hl. by intros [= <-].
Qed.

Lemma twig_state_fresh aks s a :
  twig_state aks s -> a ∈ map fst aks -> next_fresh s0 <= a < next_fresh s /\ a <> n.
Proof using Hnf.
  intros Hts Ha. rewrite (ts_addrs _ _ Hts) in Ha. apply fresh_range in Ha as (H1 & H2 & _).
  pose proof (ts_next _ _ Hts) as Hx. unfold zlength in Hx. lia.
Qed.
Lemma twig_head_ne aks s :
  twig_state aks s -> (if twig_head aks n =? n then next_fresh s else twig_head aks n) = twig_head aks (next_fresh s) /\
  ((twig_head aks n =? n) = true -> aks = []).
Proof using Hnf.
  intros Hts. destruct aks as [|[a k] aks]; cbn [twig_head]; [by rewrite Z.eqb_refl|].
  destruct (twig_state_fresh _ _ a Hts) as [_ Hne]; [cbn; apply elem_of_cons; by left|].
  by destruct (Z.eqb_spec a n).
Qed.

(** The tail is linked to the new leaf. *)
Lemma twig_link aks s l1 :
  let nl := next_fresh s in let s2 := at_heap s (<[nl := NLeaf l1]> (heap s)) (nl + 64) in
  twig_state aks s ->
  exists h3, twigs h3 aks nl /\ (forall a, a < next_fresh s0 -> h3 !! a = heap s !! a) /\ h3 !! nl = Some (NLeaf l1) /\
    (if twig_head aks n =? n then ret tt else try_update_leaf (twig_tail aks n) (fun l =>
      a ← wr (lv_ l) 0 nl; Some (Leaf.set_slots l (keylenx_ l) (ikey0_ l) a))) s2 =
    Some (tt, at_heap s h3 (nl + 64)).
Proof using Hnf.
  intros nl s2 Hts. destruct (twig_head_ne aks s Hts) as [_ Hhd].
  assert (forall a, a < next_fresh s0 -> heap s2 !! a = heap s !! a) as Hf2.
  { intros a Ha. apply lookup_insert_ne. pose proof (ts_next _ _ Hts). pose proof (zlength_nonneg aks). unfold nl. lia. }
  destruct aks as [|[t k] aks _] using rev_ind.
  - exists (heap s2). split_and!; [done|done|apply lookup_insert_eq|]. cbn [twig_head]. by rewrite Z.eqb_refl.
  - destruct (twig_head (aks ++ [(t, k)]) n =? n); [by destruct aks; specialize (Hhd eq_refl)|].
    unfold twig_tail. rewrite last_snoc. destruct (ts_twigs _ _ Hts) as [x Ht].
    assert (nl ∉ map fst (aks ++ [(t, k)])) as Hnl
      by (intros Hin; destruct (twig_state_fresh _ _ _ Hts Hin); unfold nl in *; lia).
    assert (t ∉ map fst aks) as Hta.
    { pose proof (fresh_NoDup (next_fresh s0) (length (aks ++ [(t, k)]))) as Hnd.
      rewrite <- (ts_addrs _ _ Hts), map_app in Hnd. apply NoDup_app in Hnd as (_ & Hd & _).
      intros Hin. apply (Hd t Hin). cbn. apply elem_of_cons. by left. }
    destruct (twig_state_fresh _ _ t Hts) as [Htr _]; [rewrite map_app, elem_of_app; right; cbn; apply elem_of_cons; by left|].
    destruct (twigs_link (heap s2) aks t k x nl) as (l & l' & Hl & Hset & Hl3); [|done|].
    { eapply twigs_frame; [by apply agree_insert|done]. }
    exists (<[t := NLeaf l']> (heap s2)). split_and!; [done| | |].
    + intros a Ha. rewrite lookup_insert_ne by lia. by apply Hf2.
    + rewrite lookup_insert_ne by (unfold nl; lia). apply lookup_insert_eq.
    + exact (try_update_leaf_eq s2 t _ l l' Hl Hset).
Qed.

(** One round: the twig grows by the slice of the old key. *)
Lemma make_twig_step aks s oka ka new :
  twig_state aks s -> Key.has_suffix oka = true -> in_u ikey_bits (Key.ikey oka) ->
  exists new' s', twig_state (aks ++ [(next_fresh s, Key.ikey oka)]) s' /\
    forall fuel, make_twig unaligned (S fuel) n (twig_head aks n) (twig_tail aks n) oka ka 0 new s =
      let oka' := Key.shift unaligned (kmem s0) oka in
      let ka' := Key.shift unaligned (kmem s0) ka in
      make_twig unaligned fuel n (twig_head (aks ++ [(next_fresh s, Key.ikey oka)]) n) (next_fresh s)
        oka' ka' (Key.compare_key oka' ka') new' s'.
Proof using Hn Hnf.
  intros Hts Hsuf Hik. destruct (twig_state_tail aks s Hts) as [t Ht].
  destruct (make_root_blank 0 (phantom_epoch_ t) ltac:(done)) as (l & Hl & Hbl).
  destruct (twig_leaf_new _ l oka Hbl Hsuf Hik) as (l1 & Hl1 & Htl & Hep).
  set (nl := next_fresh s) in *. set (s1 := at_heap s (<[nl := NLeaf l]> (heap s)) (nl + 64)).
  set (s2 := at_heap s (<[nl := NLeaf l1]> (heap s)) (nl + 64)).
  assert (try_update_leaf nl (fun l => Leaf.assign_initialize_for_layer l 0 oka) s1 = Some (tt, s2)) as E1.
  { rewrite (try_update_leaf_eq s1 nl _ l l1 (lookup_insert_eq _ _ _) Hl1).
    unfold s2, s1, with_heap, at_heap. cbn. by rewrite insert_insert_eq. }
  destruct (twig_link aks s l1 Hts) as (h3 & Ht3 & Hf3 & Hl3 & E2). fold nl s2 in Ht3, Hf3, Hl3, E2.
  set (l4 := Leaf.set_permutation l1 (store_permutation leaf_width (make_sorted leaf_width 1))) in *.
  eexists (new ++ [(nl, _)]), (at_heap s (<[nl := NLeaf l4]> h3) (nl + 64)). split.
  - eapply (twig_state_snoc aks s _ l4); [done| | |apply lookup_insert_eq|done|by rewrite <- (ts_tail _ _ Hts t Ht)].
    + eapply twigs_frame; [|exact Ht3]. apply agree_insert. intros Hin.
      destruct (twig_state_fresh _ _ _ Hts Hin). unfold nl in *. lia.
    + intros a Ha. rewrite lookup_insert_ne; [by apply Hf3|]. pose proof (ts_next _ _ Hts). 
      pose proof (zlength_nonneg aks). unfold nl. lia.
  - intros fuel. cbn [make_twig]. change (0 =? 0) with true. cbv iota.
    rewrite bind_gets, (bind_eq _ _ _ _ _ (get_leaf_eq _ _ _ Ht)), (bind_lift _ _ _ _ Hl).
    rewrite (bind_eq _ _ _ _ _ (allocate_eq s (NLeaf l))). fold nl. fold s1.
    rewrite (bind_eq _ _ _ _ _ E1), (bind_eq _ _ _ _ _ E2).
    assert (heap (at_heap s h3 (nl + 64)) !! nl = Some (NLeaf l1)) as Hl3' by done.
    rewrite (bind_eq _ _ _ _ _ (update_leaf_eq _ _ _ _ Hl3')). fold l4.
    erewrite bind_eq; [|by apply full_version_eq, lookup_insert_eq].
    rewrite (ts_kmem _ _ Hts). cbv zeta. f_equal.
    rewrite twig_head_app. apply (twig_head_ne aks s Hts).
Qed.

Lemma make_twig_spec j : forall aks s oka ka new,
  twig_state aks s -> key_wf unaligned (kmem s0) oka -> key_wf unaligned (kmem s0) ka ->
  key_bytes (kmem s0) oka <> key_bytes (kmem s0) ka -> 0 < len_ oka -> 0 < len_ ka -> len_ ka <= 8 * Z.of_nat j ->
  exists F aks' s' oka' ka' new',
    twig_state (aks ++ aks') s' /\ key_wf unaligned (kmem s0) oka' /\ key_wf unaligned (kmem s0) ka' /\
    0 < len_ oka' <= len_ oka /\ 0 < len_ ka' <= len_ ka /\ Key.compare_key oka' ka' <> 0 /\
    key_bytes (kmem s0) oka = twig_prefix aks' ++ key_bytes (kmem s0) oka' /\
    key_bytes (kmem s0) ka = twig_prefix aks' ++ key_bytes (kmem s0) ka' /\
    forall fuel, (F <= fuel)%nat ->
      make_twig unaligned fuel n (twig_head aks n) (twig_tail aks n) oka ka (Key.compare_key oka ka) new s =
      Some ((twig_head (aks ++ aks') n, twig_tail (aks ++ aks') n, oka', ka', Key.compare_key oka' ka', new'), s').
Proof using Hm Hn Hnf.
  induction j as [|j IH]; intros aks s oka ka new Hts Hoka Hka Hne Ho Hk Hj; [lia|].
  destruct (Z.eq_dec (Key.compare_key oka ka) 0) as [Hc|Hc].
  2: { exists 1%nat, [], s, oka, ka, new. rewrite app_nil_r. split_and!; try done; try lia.
       intros [|fuel] Hf; [lia|]. cbn [make_twig]. by destruct (Z.eqb_spec (Key.compare_key oka ka) 0). }
  destruct (proj2 (compare_key_spec unaligned _ _ oka ka Hm Hm Hoka Hka) Hc) as [[_ ?]|(Hol & Hkl & _)]; [done|].
  assert (Key.ikey0_ ka = Key.ikey0_ oka) as Hik.
  { unfold Key.compare_key, Key.compare_ikey, compare in Hc.
    destruct (Z.eqb_spec (Key.ikey0_ oka) (Key.ikey0_ ka)); [done|]. by destruct (_ <? _). }
  destruct (make_twig_step aks s oka ka new Hts) as (new1 & s1 & Hts1 & Hrun).
  { apply Z.ltb_lt. done. }
  { by apply (key_wf_range unaligned (kmem s0)). }
  set (ak := (next_fresh s, Key.ikey oka)) in *.
  pose proof (key_bytes_suffix unaligned _ oka Hm Hoka Hol) as Hbo.
  pose proof (key_bytes_suffix unaligned _ ka Hm Hka Hkl) as Hbk.
  rewrite Hik in Hbk. set (oka' := Key.shift unaligned (kmem s0) oka) in *. set (ka' := Key.shift unaligned (kmem s0) ka) in *.
  change (str_bytes (kmem s0) (Key.suffix oka)) with (key_bytes (kmem s0) oka') in Hbo.
  change (str_bytes (kmem s0) (Key.suffix ka)) with (key_bytes (kmem s0) ka') in Hbk.
  destruct (IH (aks ++ [ak]) s1 oka' ka' new1 Hts1) as
    (F & aks' & s' & oka2 & ka2 & new2 & H1 & H2 & H3 & H4 & H5 & H6 & H7 & H8 & H9).
  1,2: apply shift_by_wf; [done|unfold ikey_size in *; lia].
  1: by intros Heq; apply Hne; rewrite Hbo, Hbk, Heq.
  1-3: unfold oka', ka', Key.shift, Key.shift_by, ikey_size in *; cbn; lia.
  rewrite <- app_assoc in H1, H9. exists (S F), (ak :: aks'), s', oka2, ka2, new2. cbn [app] in H1, H9.
  assert (twig_prefix (ak :: aks') = ikey_bytes (Key.ikey0_ oka) ++ twig_prefix aks') as -> by done.
  split_and!; try done.
  - lia.
  - unfold oka', Key.shift, Key.shift_by, ikey_size in H4. cbn in H4. lia.
  - lia.
  - unfold ka', Key.shift, Key.shift_by, ikey_size in H5. cbn in H5. lia.
  - by rewrite Hbo, H7, app_assoc.
  - by rewrite Hbk, H8, app_assoc.
  - intros [|fuel] Hf; [lia|]. rewrite Hc, Hrun. cbv zeta. rewrite <- (H9 fuel) by lia. f_equal.
    unfold twig_tail. by rewrite last_snoc.
Qed.
End twig.

(** * The leaf with both keys *)
Lemma cmp_key_entry m a b v :
  (Key.compare_key a b < 0 -> cmp_entry a (key_entry m b v) < 0) /\
  (0 < Key.compare_key a b -> 0 < cmp_entry a (key_entry m b v)).
Proof.
  unfold cmp_entry, Key.compare_key, Key.compare_ikey, key_entry, Key.has_suffix, Key.ikey, ikey_size, ksuf_keylenx.
  destruct (Z.ltb_spec 8 (len_ b)) as [Hb|Hb]; cbn [e_ikey e_keylenx]; [|done].
  destruct (compare (Key.ikey0_ a) (Key.ikey0_ b) =? 0); [|done].
  destruct (Z.ltb_spec 8 (len_ a)); [|lia]. destruct (Z.leb_spec (len_ b) 8); [lia|done].
Qed.

Lemma single_entries l p free e :
  leaf_arrays l -> repr leaf_width (permutation_ l) [p] free -> slot_entry l p = e -> entry_ok e ->
  leaf_entries l [p] free [e].
Proof. intros Ha Hr <- He. split; [done..|by apply Forall_singleton|repeat constructor]. Qed.

Section bottom.
Context (unaligned : bool) (m : mem) (epoch : Z) (l : leaf) (ok kk : key) (ov : Z).
Context (Hm : mem_bytes m) (Hl : blank root_version epoch l) (Ho : key_wf unaligned m ok) (Hk : key_wf unaligned m kk)
  (Hol : len_ ok <= max_key_len) (Hkl : len_ kk <= max_key_len) (Hc : Key.compare_key ok kk <> 0).

(** The slot and position that wait for the new key. *)
Definition new_slot : Z := b2z (Key.compare_key ok kk <? 0).
Definition bottom_permutation : Z :=
  if Key.compare_key ok kk <? 0 then make_sorted leaf_width 1
  else remove_to_back leaf_width (make_sorted leaf_width 2) 0.

Lemma two_slots a b :
  key_wf unaligned m a -> key_wf unaligned m b -> len_ a <= max_key_len -> len_ b <= max_key_len ->
  exists l1 l2, Leaf.assign_initialize m l 0 a = Some l1 /\ Leaf.assign_initialize m l1 1 b = Some l2 /\
    leaf_arrays l2 /\ same_leaf l l2 /\ slot_entry l2 0 = key_entry m a 0 /\ slot_entry l2 1 = key_entry m b 0.
Proof using Hm Hl.
  intros Ha Hb Hal Hbl. destruct Hl as [[Harr _ _ _ _] _ Hms _ _].
  destruct (assign_with_spec unaligned true m l 0 a Harr Hm Ha Hal) as (l1 & H1 & A1 & S1 & E1 & _ & _);
    [done|by rewrite Hms|constructor|constructor|constructor|].
  destruct (assign_with_spec unaligned true m l1 1 b A1 Hm Hb Hbl) as (l2 & H2 & A2 & S2 & E2 & _ & K2).
  { done. }
  { by rewrite (sl_modstate _ _ S1), Hms. }
  { apply NoDup_singleton. }
  { by constructor. }
  { change (kept true l1 1) with [0]. constructor; [|constructor]. intros _ Hh.
    assert (e_suf (slot_entry l1 0) = Leaf.ksuf l1 0) as Hs by (unfold slot_entry; by rewrite Hh). rewrite <- Hs, E1.
    pose proof (key_entry_ok unaligned m a Hm Ha 0 Hal) as [_ Hoke]. unfold max_key_len.
    destruct Hoke as [(_ & -> & _)|[(_ & _ & ?)|(_ & ->)]]; unfold zlength, max_key_len in *; cbn in *; lia. }
  exists l1, l2. split_and!; try done; [destruct S1, S2; split; congruence|].
  rewrite K2; [done|by apply list_elem_of_singleton|done].
Qed.

Lemma bottom_leaf :
  exists l1 l2 l3,
    Leaf.assign_initialize m l 0 (if Key.compare_key ok kk <? 0 then ok else kk) = Some l1 /\
    Leaf.assign_initialize m l1 1 (if Key.compare_key ok kk <? 0 then kk else ok) = Some l2 /\
    set_lv (b2z (0 <? Key.compare_key ok kk)) ov l2 = Some l3 /\ same_leaf l l3 /\
    forall v lf, lf = Leaf.set_permutation (Leaf.set_version l3 v) (store_permutation leaf_width bottom_permutation) ->
    Kpermuter.back leaf_width (permutation_ lf) = new_slot /\
    forall w, exists l4, set_lv new_slot w lf = Some l4 /\ same_leaf lf l4 /\
    exists free, leaf_entries (finish_perm l4 new_slot) [0; 1] free
      (if Key.compare_key ok kk <? 0 then [key_entry m ok ov; key_entry m kk w] else [key_entry m kk w; key_entry m ok ov]).
Proof using Hm Hl Ho Hk Hol Hkl Hc.
  unfold new_slot, bottom_permutation.
  assert (forall a v w, with_lv (key_entry m a v) w = key_entry m a w) as Hwl
    by (intros a v w; unfold key_entry, with_lv; by destruct (Key.has_suffix a)).
  destruct (cmp_key_entry m ok kk 0) as [Hc1 Hc2].
  destruct (Z.ltb_spec (Key.compare_key ok kk) 0) as [Hlt|Hge];
    [destruct (two_slots ok kk) as (l1 & l2 & H1 & H2 & A2 & S2 & E0 & E1)|
     destruct (two_slots kk ok) as (l1 & l2 & H1 & H2 & A2 & S2 & E0 & E1)]; try done; exists l1, l2.
  - destruct (Z.ltb_spec 0 (Key.compare_key ok kk)); [lia|]. cbn [b2z].
    destruct (set_lv_spec l2 0 ov A2) as (l3 & H3 & A3 & S3 & _ & E3); [done|].
    exists l3. split_and!; try done; [destruct S2, S3; split; congruence|]. intros v lf ->. 
    assert (repr leaf_width (store_permutation leaf_width (make_sorted leaf_width 1)) ([0] ++ []) (reverse (seqZ 2 13) ++ [1])) as Hr
      by apply (make_sorted_stored 1 ltac:(done)).
    split; [by eapply back_repr|]. intros w. set (lf := Leaf.set_permutation _ _).
    assert (leaf_arrays lf) as Alf by (by destruct A3).
    destruct (set_lv_spec lf 1 w Alf) as (l4 & H4 & A4 & S4 & _ & E4); [done|].
    assert (slot_entry l4 0 = key_entry m ok ov /\ slot_entry l4 1 = key_entry m kk w) as [F0 F1].
    { rewrite !E4. change (slot_entry lf) with (slot_entry l3). rewrite !E3. cbn [Z.eqb Pos.eqb]. by rewrite E0, E1, !Hwl. }
    exists l4. split_and!; [done..|]. exists (reverse (seqZ 2 13)). rewrite <- F0, <- F1.
    change (leaf_entries (finish_perm l4 (zlength [0])) ([0] ++ 1 :: []) (reverse (seqZ 2 13)) (map (slot_entry l4) ([0] ++ 1 :: []))).
    apply (leaf_insert l4 [0] [] _ 1 [key_entry m ok ov]).
    + apply single_entries; [done|by rewrite (sl_permutation _ _ S4)|done|by apply (key_entry_ok unaligned)].
    + rewrite F1. by apply (key_entry_ok unaligned).
    + constructor; [|constructor]. rewrite F0, F1. apply (key_lt_entry unaligned m ok Ho).
      by apply cmp_key_entry.
    + constructor.
  - assert (0 < Key.compare_key ok kk) as Hgt by lia.
    destruct (Z.ltb_spec 0 (Key.compare_key ok kk)); [|lia]. cbn [b2z].
    destruct (set_lv_spec l2 1 ov A2) as (l3 & H3 & A3 & S3 & _ & E3); [done|].
    exists l3. split_and!; try done; [destruct S2, S3; split; congruence|]. intros v lf ->. 
    assert (repr leaf_width (store_permutation leaf_width (remove_to_back leaf_width (make_sorted leaf_width 2) 0))
      ([] ++ [1]) (reverse (seqZ 2 13) ++ [0])) as Hr.
    { apply store_permutation_repr; [done|]. apply (remove_to_back_repr leaf_width ltac:(done) _ [] 0 [1]).
      by apply (make_sorted_repr leaf_width 2). }
    split; [by eapply back_repr|]. intros w. set (lf := Leaf.set_permutation _ _).
    assert (leaf_arrays lf) as Alf by (by destruct A3).
    destruct (set_lv_spec lf 0 w Alf) as (l4 & H4 & A4 & S4 & _ & E4); [done|].
    assert (slot_entry l4 1 = key_entry m ok ov /\ slot_entry l4 0 = key_entry m kk w) as [F0 F1].
    { rewrite !E4. change (slot_entry lf) with (slot_entry l3). rewrite !E3. cbn [Z.eqb Pos.eqb]. by rewrite E0, E1, !Hwl. }
    exists l4. split_and!; [done..|]. exists (reverse (seqZ 2 13)). rewrite <- F0, <- F1.
    change (leaf_entries (finish_perm l4 (zlength (@nil Z))) ([] ++ 0 :: [1]) (reverse (seqZ 2 13)) (map (slot_entry l4) ([] ++ 0 :: [1]))).
    apply (leaf_insert l4 [] [1] _ 0 [key_entry m ok ov]).
    + apply single_entries; [done|by rewrite (sl_permutation _ _ S4)|done|by apply (key_entry_ok unaligned)].
    + rewrite F1. by apply (key_entry_ok unaligned).
    + constructor.
    + constructor; [|constructor]. rewrite F0, F1. apply (entry_lt_key unaligned m ok Ho); [by apply (key_entry_ok unaligned)|].
      by apply cmp_key_entry.
Qed.
End bottom.

(** * The entry that becomes a layer *)
Lemma StronglySorted_replace es1 e e' es2 :
  e_ikey e' = e_ikey e -> e_rank e' = e_rank e ->
  StronglySorted entry_lt (es1 ++ e :: es2) -> StronglySorted entry_lt (es1 ++ e' :: es2).
Proof.
  intros Hi Hr Hs. apply StronglySorted_middle; [by eapply StronglySorted_delete|..].
  - induction es1 as [|f es1 IH]; cbn in *; inversion Hs; subst; constructor; [|by apply IH].
    rewrite Forall_app, Forall_cons in *. unfold entry_lt in *. rewrite Hi, Hr. tauto.
  - induction es1 as [|f es1 IH]; cbn in *; inversion Hs; subst; [|by apply IH].
    eapply Forall_impl; [done|]. intros f. unfold entry_lt. by rewrite Hi, Hr.
Qed.

Definition set_layer (p : Z) (l : leaf) : option leaf :=
  k ← wr (keylenx_ l) p layer_keylenx; Some (Leaf.set_slots l k (ikey0_ l) (lv_ l)).

Lemma leaf_set_layer l l1 p l2 free es x :
  leaf_entries l (l1 ++ p :: l2) free es -> e_keylenx (slot_entry l p) = ksuf_keylenx ->
  exists l' l'', set_lv p x l = Some l' /\ set_layer p l' = Some l'' /\ same_leaf l l'' /\
    (forall q, Leaf.ikey l'' q = Leaf.ikey l q) /\
    leaf_entries l'' (l1 ++ p :: l2) free
      (map (slot_entry l) l1 ++ mkEntry (e_ikey (slot_entry l p)) layer_keylenx [] x :: map (slot_entry l) l2).
Proof.
  intros Hl Hkx. assert (0 <= p < leaf_width) as Hp
    by (apply (live_range l _ _ _ Hl); rewrite elem_of_app, elem_of_cons; tauto).
  destruct (leaf_set_lv l l1 p l2 free es x Hl) as (l' & H1 & S1 & Hik & _ & Hep & [[Hk Hi Ha Hb] Hr He Hok Hs]).
  unfold set_layer. destruct (wr_spec (keylenx_ l') p layer_keylenx) as (k & Hw & Hlk & Hzk); [lia|].
  exists l', (Leaf.set_slots l' k (ikey0_ l') (lv_ l')). rewrite Hw. split_and!; [done|done|by destruct S1|done|].
  set (l'' := Leaf.set_slots l' k (ikey0_ l') (lv_ l')).
  assert (forall q, q <> p -> slot_entry l'' q = slot_entry l' q) as Ho.
  { intros q Hq. unfold slot_entry, Leaf.has_ksuf. assert (Leaf.keylenx l'' q = Leaf.keylenx l' q) as ->; [|done].
    unfold Leaf.keylenx, l''. apply rd_eq. cbn. rewrite Hzk. by destruct (Z.eqb_spec q p). }
  assert (slot_entry l'' p = mkEntry (e_ikey (slot_entry l p)) layer_keylenx [] x) as Hp'.
  { assert (e_ikey (slot_entry l' p) = e_ikey (slot_entry l p) /\ e_lv (slot_entry l' p) = x) as [<- <-] by (by rewrite Hep).
    unfold slot_entry, Leaf.has_ksuf. assert (Leaf.keylenx l'' p = layer_keylenx) as ->; [|done].
    unfold Leaf.keylenx, l''. apply rd_zlookup. cbn. by rewrite Hzk, Z.eqb_refl. }
  assert (NoDup (l1 ++ p :: l2)) as Hnd by by eapply live_NoDup.
  apply NoDup_app in Hnd as (_ & Hd1 & Hd2). apply NoDup_cons in Hd2 as [Hd2 _].
  rewrite map_app in He. cbn [map] in He. apply app_inj_1 in He as [He1 He2]; [|by rewrite !length_map].
  apply (f_equal (@tl entry)) in He2. cbn [tl] in He2.
  split; [by split; cbn; rewrite ?Hlk|done| | |].
  - rewrite map_app. cbn [map]. rewrite Hp', He1, He2. f_equal; [|f_equal]; apply map_ext_in; intros q Hq%list_elem_of_In.
    + symmetry. apply Ho. intros ->. apply (Hd1 p Hq), elem_of_cons. by left.
    + symmetry. apply Ho. by intros ->.
  - rewrite Forall_app, Forall_cons in *. destruct Hok as (? & [? _] & ?). split_and!; [done| |done].
    split; [done|]. by right; right.
  - eapply StronglySorted_replace; [..|exact Hs]; [done|]. 
    change (Z.min layer_keylenx 9 = Z.min (e_keylenx (slot_entry l p)) 9). by rewrite Hkx.
Qed.

Lemma set_lv_version p x l l' v : set_lv p x l = Some l' -> set_lv p x (Leaf.set_version l v) = Some (Leaf.set_version l' v).
Proof.
  unfold set_lv. cbn [lv_ Leaf.set_version]. destruct (wr (lv_ l) p x); [|done]. cbn [mbind option_bind]. by intros [= <-].
Qed.
Lemma set_layer_version p l l' v : set_layer p l = Some l' -> set_layer p (Leaf.set_version l v) = Some (Leaf.set_version l' v).
Proof.
  unfold set_layer. cbn [keylenx_ Leaf.set_version]. destruct (wr (keylenx_ l) p _); [|done]. cbn [mbind option_bind]. by intros [= <-].
Qed.

(** * The states on the way *)
Lemma twig_state_insert s0 ln aks s b x :
  twig_state s0 b ln aks s -> b < next_fresh s0 -> phantom_epoch_ x = phantom_epoch_ ln ->
  twig_state (with_heap s0 (<[b := NLeaf x]> (heap s0))) b x aks (with_heap s (<[b := NLeaf x]> (heap s))).
Proof.
  intros Hts Hb He. assert (forall a, a ∈ map fst aks -> a <> b) as Hne.
  { intros a Ha ->. rewrite (ts_addrs _ _ _ _ _ Hts) in Ha. apply fresh_range in Ha. lia. }
  destruct Hts as [H1 H2 H3 [y H4] H5 H6 H7 H8]. split; try done; cbn.
  - intros a Ha. destruct (decide (a = b)) as [->|]; [by rewrite !lookup_insert_eq|].
    rewrite !lookup_insert_ne by done. by apply H3.
  - exists y. eapply twigs_frame; [|exact H4]. apply agree_insert. intros Hin. by apply (Hne b).
  - intros t. rewrite He. destruct (decide (twig_tail aks b = b)) as [E|E].
    + rewrite E, lookup_insert_eq. by intros [= <-].
    + rewrite lookup_insert_ne by done. by apply H8.
Qed.

Lemma twig_tail_head s0 n ln aks s :
  n < next_fresh s0 -> twig_state s0 n ln aks s -> (twig_tail aks n =? n) = (twig_head aks n =? n).
Proof.
  intros Hn Hts. pose proof (fun a => twig_state_fresh s0 n ln Hn aks s a Hts) as Hf.
  destruct aks as [|[a k] aks]; [done|]. unfold twig_tail.
  destruct (last ((a, k) :: aks)) as [[t k']|] eqn:E; [|by apply last_None in E].
  apply last_Some in E as [aks' E]. cbn [twig_head].
  destruct (Hf a) as [_ H1]; [cbn; apply elem_of_cons; by left|].
  destruct (Hf t) as [_ H2]; [rewrite E, map_app, elem_of_app; right; cbn; apply elem_of_cons; by left|].
  by destruct (Z.eqb_spec a n), (Z.eqb_spec t n).
Qed.

Section layers.
Context {N : Layers}.

Lemma rebound_fresh s s' B ns h kb v k :
  table_in s B ns -> rebound h (table_root s) kb (Some v) B (ns ++ fresh (next_fresh s) k) ->
  heap s' = h -> next_fresh s' = next_fresh s + 64 * Z.of_nat k -> table_root s' = table_root s -> mem_bytes (kmem s') ->
  now_bound kb B v s'.
Proof.
  intros [Hn0 Hnd Ha Hf _] (B' & ns' & Hr & Hu & Hp) Hh Hn Hroot Hm.
  assert (0 < next_fresh s) by (destruct (layer_rep_climb _ _ _ _ _ Hn0) as (_ & _ & _ & H%Ha & _); lia).
  exists B', ns'. split; [|done]. split.
  - by rewrite Hh, Hroot.
  - rewrite Hp. apply NoDup_app. split_and!; [done| |apply fresh_NoDup].
    intros a Hin Hin'. apply fresh_range in Hin'. apply Ha in Hin. lia.
  - intros a. rewrite Hp, elem_of_app, Hn. intros [[H1 H2]%Ha|(H1 & H2 & H3)%fresh_range]; [split; [lia|done]|].
    split; [lia|].
    replace a with (a - next_fresh s + next_fresh s) by lia. by rewrite Z.add_mod, H3, Hf by done.
  - rewrite Hn. replace (next_fresh s + 64 * Z.of_nat k) with (next_fresh s + Z.of_nat k * 64) by lia. by rewrite Z_mod_plus_full.
  - done.
Qed.

(** * The table with the new layer *)
Section layer.
Context (unaligned : bool) (m : mem) (h : gmap Z node) (p0 : Z) (kb : list Z) (B : list (list Z * Z))
  (ns : list Z) (ka : key) (b : Z) (l : leaf) (par lo hi : Z) (n : nat) (esb : list entry)
  (Bnb : list (list (list Z * Z) * list Z)) (nso : list Z).
Context (Hm : mem_bytes m) (Hka : key_wf unaligned m ka)
  (Hv : leaf_view m h p0 kb B ns ka b l par lo hi n esb Bnb nso).
Abbreviation q := (kip_p (Leaf.lower ka l)).
Abbreviation ent := (slot_entry l q).
Context (Hst : match_state m l ka = 0) (Hq : 0 <= q).

(** The old binding below the slice, with the new one. *)
Definition both_bindings (v : Z) (BL : list (list Z * Z)) : Prop :=
  BL = [(e_suf ent, e_lv ent); (str_bytes m (Key.suffix ka), v)] \/
  BL = [(str_bytes m (Key.suffix ka), v); (e_suf ent, e_lv ent)].

Lemma conflict_entry :
  e_keylenx ent = ksuf_keylenx /\ ikey_size < len_ ka /\ e_ikey ent = Key.ikey0_ ka /\
  e_suf ent <> str_bytes m (Key.suffix ka) /\ bytes (e_suf ent) /\ 0 < zlength (e_suf ent) <= max_key_len.
Proof using Hm Hka Hv Hst Hq.
  destruct (lo_entries _ _ _ _ _ (lw_ok _ _ _ _ _ _ _ _ _ _ _ _ _ _ _ _ Hv)) as (live & free & Hle).
  destruct (match_cases unaligned m ka Hm Hka l live free esb Hle) as [H|[(_ & _ & Hkx & Hl & Hi & Hne)|[_ H]]]; [lia|lia| |lia].
  destruct (lower_hit l live free esb ka Hle Hq) as (l1 & l2 & Hlive & _).
  assert (entry_ok ent) as [_ Hok] by (eapply slot_entry_ok; [exact Hle|rewrite Hlive, elem_of_app, elem_of_cons; tauto]).
  destruct Hok as [(? & _)|[(_ & ? & ?)|(? & _)]]; [unfold ksuf_keylenx in *; lia| |rewrite Hkx in *; done].
  done.
Qed.

Lemma updated_pair v BL :
  both_bindings v BL ->
  updated (key_bytes m ka) (Some v) [(entry_key ent, e_lv ent)] (map (add_prefix (ikey_bytes (e_ikey ent))) BL).
Proof using Hm Hka Hv Hst Hq.
  destruct conflict_entry as (Hkx & Hl & Hi & Hne & _). intros HBL.
  assert (entry_key ent = ikey_bytes (e_ikey ent) ++ e_suf ent) as ->.
  { unfold entry_key. rewrite Hkx. change (Z.to_nat (ksuf_keylenx `min` 8)) with 8%nat.
    by rewrite take_ge by (rewrite length_ikey_bytes; lia). }
  rewrite (key_bytes_suffix unaligned m ka Hm Hka Hl), <- Hi. split.
  - destruct HBL as [->| ->]; cbn [map add_prefix fst snd assoc]; [rewrite decide_False by (intros ?%app_inv_head; done)|];
      by rewrite decide_True.
  - intros k Hk. destruct HBL as [->| ->]; cbn [map add_prefix fst snd assoc];
      destruct (decide (ikey_bytes (e_ikey ent) ++ e_suf ent = k)), (decide (ikey_bytes (e_ikey ent) ++ str_bytes m (Key.suffix ka) = k));
      congruence.
Qed.

Lemma layer_rebound v x l' l'' vn h' BL nsl :
  set_lv q x l = Some l' -> set_layer q l' = Some l'' -> quiet vn -> same_flags (lversion l) vn ->
  (forall a, a ∈ ns -> a <> b -> h' !! a = h !! a) -> h' !! b = Some (NLeaf (Leaf.set_version l'' vn)) ->
  layer_rep n h' x BL nsl -> both_bindings v BL -> rebound h' p0 kb (Some v) B (ns ++ nsl).
Proof using Hm Hka Hv Hst Hq.
  intros Hset Hlay Hvn Hfl Hag Hb HBL Hboth.
  destruct conflict_entry as (Hkx & _ & Hi & _ & _ & Hlen). pose proof (updated_pair v BL Hboth) as Hup.
  destruct Hv as [Hl Hlok Hrange Hreps Hns Hnd Hdep Hrepl _].
  destruct (lo_entries _ _ _ _ _ Hlok) as (live & free & Hle).
  destruct (lower_hit l live free esb ka Hle Hq) as (l1 & l2 & -> & _ & Hesb & _ & _ & Ha & Hbl).
  destruct (cmp_ne_of_above_below l ka l1 l2 Ha Hbl) as [Hn1 Hn2].
  destruct (leaf_set_layer l l1 q l2 free esb x Hle Hkx) as (l0 & l0' & Hset' & Hlay' & Hsame & Hik & Hle').
  rewrite Hset in Hset'. injection Hset' as <-. rewrite Hlay in Hlay'. injection Hlay' as <-.
  rewrite Hesb in Hreps. apply Forall2_app_inv_l in Hreps as (Bb1 & Bb' & He1 & He & HBnb).
  inversion He as [|? [Be nse] ? Bb2 Hre He2]; subst Bb'. clear He.
  unfold entry_rep in Hre. rewrite Hkx in Hre. change (ksuf_keylenx =? layer_keylenx) with false in Hre.
  cbv iota in Hre. injection Hre as -> ->.
  set (Bnb' := Bb1 ++ (map (add_prefix (ikey_bytes (e_ikey ent))) BL, nsl) :: Bb2).
  assert (nodes Bnb' ≡ₚ nodes Bnb ++ nsl) as Hnn.
  { rewrite HBnb. unfold Bnb'. rewrite !map_snd_app. cbn [map concat snd app]. solve_Permutation. }
  assert (forall a, a ∈ nso \/ a ∈ nodes Bnb -> h' !! a = h !! a) as Hag'.
  { intros a Hin. apply Hag; [rewrite Hns, elem_of_app, elem_of_cons; tauto|]. intros ->.
    apply NoDup_app in Hnd as (_ & Hd & Hnd). apply NoDup_cons in Hnd as [Hd' _].
    destruct Hin as [Hin|]; [|done]. apply (Hd b Hin), elem_of_cons. by left. }
  rewrite HBnb, map_snd_app in Hag'. cbn [map concat snd app] in Hag'.
  assert (rebound h' p0 kb (Some v) B (nso ++ b :: nodes Bnb')) as (B' & ns' & H1 & H2 & H3).
  { assert (forall es Bs, (forall a, a ∈ nodes Bs -> h' !! a = h !! a) -> Forall2 (entry_rep (layer_rep n h)) es Bs ->
      Forall2 (entry_rep (layer_rep n h')) es Bs) as Hmono by (intros es Bs HB HF; by eapply entries_rep_frame).
    apply (Hrepl h' (Leaf.set_version l'' vn)
      (map (slot_entry l) l1 ++ mkEntry (e_ikey ent) layer_keylenx [] x :: map (slot_entry l) l2)).
    - intros a Hin. apply Hag'. tauto.
    - done.
    - apply Hsame.
    - apply Hsame.
    - apply Hfl.
    - apply leaf_ok_version; [|done|by rewrite (sl_version _ _ Hsame)].
      eapply same_leaf_ok; [exact Hlok|exact Hsame|exact Hle'| |intros _; apply Hik].
      pose proof (lo_range _ _ _ _ _ Hlok) as Hr. rewrite Hesb in Hr.
      unfold in_range. rewrite !Forall_app, !Forall_cons in *. done.
    - apply Forall2_app; [|constructor].
      + apply Hmono; [|done]. intros a Hin. apply Hag'. rewrite elem_of_app. tauto.
      + exists BL. split_and!; [done| |done].
        assert (forall (k : list Z) (w : Z), 0 < zlength k -> fst (k, w) <> []) as Hnil by (by intros [|] ? ?).
        assert (0 < zlength (str_bytes m (Key.suffix ka))).
        { destruct conflict_entry as (_ & Hl8 & _). unfold str_bytes, Key.suffix, ikey_size in *. cbn. rewrite zlength_load by lia. lia. }
        destruct Hboth as [->| ->]; repeat (constructor; [apply Hnil; lia|]); constructor.
      + apply Hmono; [|done]. intros a Hin. apply Hag'. rewrite elem_of_app. tauto.
    - rewrite HBnb. pose proof (le_ok _ _ _ _ Hle) as Hokb. rewrite Hesb in Hokb.
      apply Forall_app in Hokb as [Hokb1 Hokb2]. inversion Hokb2; subst.
      eapply (updated_entry unaligned m ka _ (map (slot_entry l) l1) (map (slot_entry l) l2)); try done. }
  exists B', ns'. split_and!; [done..|]. rewrite H3, Hns, Hnn. solve_Permutation.
Qed.
End layer.

(** * [make_new_layer] *)
Definition with_kmem (s : state) (m : mem) : state :=
  mkState (heap s) (next_fresh s) (limbo s) (callbacks s) (table_root s) m.

(** The leaf below the twig when [make_new_layer] is done. *)
Record waiting_leaf (m : mem) (ok kk : key) (ov ep : Z) (lf : leaf) : Prop := {
  wl_version : lversion lf = lockv root_version;
  wl_links : next_ lf = 0 /\ prev_ lf = 0 /\ lparent_ lf = 0;
  wl_modstate : modstate_ lf = modstate_insert;
  wl_epoch : phantom_epoch_ lf = ep;
  wl_back : Kpermuter.back leaf_width (permutation_ lf) = new_slot ok kk;
  wl_commit : forall w, exists l4, set_lv (new_slot ok kk) w lf = Some l4 /\ same_leaf lf l4 /\
    exists free, leaf_entries (finish_perm l4 (new_slot ok kk)) [0; 1] free
      (if Key.compare_key ok kk <? 0 then [key_entry m ok ov; key_entry m kk w] else [key_entry m kk w; key_entry m ok ov]) }.

Section make_new_layer.
Context (unaligned : bool) (okbuf : Z) (s : state) (b : Z) (l : leaf) (live free : list Z) (es : list entry)
  (ka : key) (c : tcursor).
Context (Hm : mem_bytes (kmem s)) (Hb : heap s !! b = Some (NLeaf (locked_leaf l))) (Hbf : b < next_fresh s)
  (Hle : leaf_entries l live free es) (Hq : quiet (lversion l)) (Hka : key_wf unaligned (kmem s) ka)
  (Hlen : len_ ka <= max_key_len).
Context (Hcn : n_ c = b) (Hcka : ka_ c = ka) (Hckx : kx_ c = Leaf.lower ka l).
Abbreviation q := (kip_p (Leaf.lower ka l)).
Abbreviation ent := (slot_entry l q).
Context (Hq0 : 0 <= q) (Hkx : e_keylenx ent = ksuf_keylenx) (Hl8 : ikey_size < len_ ka)
  (Hne : e_suf ent <> str_bytes (kmem s) (Key.suffix ka)) (Hbs : bytes (e_suf ent))
  (Hsl : 0 < zlength (e_suf ent) <= max_key_len).
Context (Hokbuf : okbuf + max_key_len <= s_ ka \/ s_ ka + len_ ka <= okbuf).

Abbreviation m' := (store (kmem s) okbuf (e_suf ent)).
Abbreviation oka := (Key.key_data unaligned m' okbuf (zlength (e_suf ent))).
Abbreviation ka' := (Key.shift unaligned m' ka).

Lemma ksuf_entry : Leaf.ksuf l q = e_suf ent.
Proof using Hkx.
  unfold slot_entry. cbn [e_suf]. unfold Leaf.has_ksuf, Leaf.keylenx_has_ksuf.
  change (Leaf.keylenx l q) with (e_keylenx ent). by rewrite Hkx.
Qed.

Lemma layer_keys :
  mem_bytes m' /\ key_wf unaligned m' oka /\ key_wf unaligned m' ka' /\
  key_bytes m' oka = e_suf ent /\ key_bytes m' ka' = str_bytes (kmem s) (Key.suffix ka) /\
  len_ oka = zlength (e_suf ent) /\ len_ ka' = len_ ka - ikey_size.
Proof using Hm Hbs Hsl Hl8 Hokbuf.
  assert (mem_bytes m') as Hm' by by apply store_bytes.
  split_and!; [done|by apply key_data_wf; lia|by apply shift_by_wf; [done|lia]| | |done|done].
  - apply load_store_same.
  - change (load m' (s_ ka + 8) (len_ ka - 8) = load (kmem s) (s_ ka + 8) (len_ ka - 8)).
    rewrite load_store_other; [done|]. unfold ikey_size in *. lia.
Qed.

(** What the run leaves; [aks] is the twig, [nl] the leaf below it. *)
Record new_layer (aks : list (Z * Z)) (ok2 ka2 : key) (lf l1 l2 : leaf) (vn : Z) (h : gmap Z node) : Prop := {
  nl_addrs : map fst aks = fresh (next_fresh s) (length aks);
  nl_frame : forall a, a < next_fresh s -> a <> b -> h !! a = heap s !! a;
  nl_twigs : twigs h aks (next_fresh s + 64 * zlength aks);
  nl_leaf : h !! (next_fresh s + 64 * zlength aks) = Some (NLeaf lf);
  nl_waiting : waiting_leaf m' ok2 ka2 (e_lv ent) (phantom_epoch_ l) lf;
  nl_b : h !! b = Some (NLeaf (Leaf.set_version l2 vn));
  nl_slot : set_lv q (twig_head aks (next_fresh s + 64 * zlength aks)) l = Some l1 /\ set_layer q l1 = Some l2;
  nl_version : quiet vn /\ same_flags (lversion l) vn;
  nl_oka : key_wf unaligned m' ok2 /\ 0 < len_ ok2 <= max_key_len /\ e_suf ent = twig_prefix aks ++ key_bytes m' ok2;
  nl_ka : key_wf unaligned m' ka2 /\ 0 < len_ ka2 <= max_key_len /\ str_bytes (kmem s) (Key.suffix ka) = twig_prefix aks ++ key_bytes m' ka2 }.

Lemma ksufsize_nonneg a1 a2 (d : bool) :
  0 <= (if d then (Z.max 0 a1 + Z.max 0 a2) * (leaf_width / 2) + overhead Leaf.internal_bits leaf_width else 0).
Proof using Type. change (leaf_width / 2) with 7. change (overhead _ _) with 32. destruct d; lia. Qed.

Lemma leaf_set_layer' aks nl :
  exists l1 l2, set_lv q (twig_head aks nl) l = Some l1 /\ set_layer q l1 = Some l2 /\ same_leaf l l2.
Proof using Hle Hkx Hq0.
  destruct (lower_hit l live free es ka Hle Hq0) as (e1 & e2 & Hlive & _). pose proof Hle as Hle'. rewrite Hlive in Hle'.
  destruct (leaf_set_layer l e1 q e2 free es (twig_head aks nl) Hle' Hkx) as (l1 & l2 & H1 & H2 & H3 & _).
  by exists l1, l2.
Qed.

Lemma new_layer_run :
  exists F aks ok2 ka2 lf l1 l2 vn h4 uv new,
    new_layer aks ok2 ka2 lf l1 l2 vn h4 /\
    forall fuel, (F <= fuel)%nat -> make_new_layer unaligned fuel okbuf c s =
      Some (mkCursor (next_fresh s + 64 * zlength aks) ka2 (mkKip (new_slot ok2 ka2) (new_slot ok2 ka2)) (root_ c) (state_ c)
              (original_n_ c) (original_v_ c) uv new,
            with_kmem (at_heap s h4 (next_fresh s + 64 * zlength aks + 64)) m').
Proof.
  destruct layer_keys as (Hm' & Hoka & Hka' & Hko & Hkk & Hlo & Hlk).
  set (s0 := with_kmem s m').
  assert (twig_state s0 b (locked_leaf l) [] s0) as Hts0.
  { split; try done; [change (next_fresh s = next_fresh s + 64 * 0); lia|by exists 0|intros t; change (heap s !! b = Some (NLeaf t) -> phantom_epoch_ t = phantom_epoch_ (locked_leaf l)); rewrite Hb; by intros [= <-]]. }
  destruct (make_twig_spec unaligned s0 b (locked_leaf l) Hm' Hb Hbf 32 [] s0 oka ka' (new_nodes_ c) Hts0 Hoka Hka') as
    (F & aks & s' & ok2 & ka2 & new & Hts & Hok2 & Hka2 & Ho2 & Hk2 & Hcmp & Hbo & Hbk & Hrun).
  { change (key_bytes m' oka <> key_bytes m' ka'). by rewrite Hko, Hkk. }
  { rewrite Hlo. lia. }
  { unfold ikey_size in *. lia. }
  { unfold max_key_len, ikey_size in *. lia. }
  change (kmem s0) with m' in *. cbn [app] in Hts, Hrun. rewrite Hko in Hbo. rewrite Hkk in Hbk.
  assert (heap s' !! b = Some (NLeaf (locked_leaf l))) as Hb' by (rewrite (ts_frame _ _ _ _ _ Hts) by done; done).
  destruct (twig_state_tail s0 b (locked_leaf l) Hb Hbf aks s' Hts) as [t Ht].
  destruct (make_root_blank _ (phantom_epoch_ t) (ksufsize_nonneg (Key.suffix_length ka2) (Key.suffix_length ok2)
    (Key.has_suffix ka2 || Key.has_suffix ok2))) as (nll & Hnll & Hblank).
  destruct (bottom_leaf unaligned m' _ nll ok2 ka2 (e_lv ent) Hm' Hblank Hok2 Hka2) as
    (b1 & b2 & b3 & Hb1 & Hb2 & Hb3 & Hsame & Hbot); [unfold max_key_len, ikey_size in *; lia..|done|].
  assert (next_fresh s' = next_fresh s + 64 * zlength aks) as Hnf by apply Hts.
  set (nl := next_fresh s') in *.
  set (lf := Leaf.set_permutation (Leaf.set_version b3 (lockv root_version)) (store_permutation leaf_width (bottom_permutation ok2 ka2))).
  pose proof (zlength_nonneg aks) as Hz. assert (b <> nl) as Hbnl by lia.
  assert (busy (lversion (locked_leaf l))) as Hbusy by by apply lock_busy.
  set (mk := Leaf.set_version l (Nodeversion.mark_insert NV (lockv (lversion l)))).
  set (sL := with_heap s' (<[b := NLeaf mk]> (heap s'))).
  pose proof (twig_state_insert s0 _ aks s' b mk Hts Hbf eq_refl) as HtsL. fold sL in HtsL.
  destruct (twig_link (with_heap s0 (<[b := NLeaf mk]> (heap s0))) b mk Hbf aks sL lf HtsL) as (h3 & Ht3 & Hf3 & Hl3 & Hlink).
  change (next_fresh sL) with nl in *. change (heap sL) with (<[b := NLeaf mk]> (heap s')) in *.
  assert (Leaf.lv l q = e_lv ent) as Hlv by done.
  destruct (leaf_set_layer' aks nl) as (l1 & l2 & Hset & Hlay & Hsame2).
  set (vn := Nodeversion.unlock NV (lversion mk)).
  assert (node_version (NLeaf b3) = root_version) as Hv3 by (cbn; rewrite (sl_version _ _ Hsame); apply Hblank).
  exists (max F 1), aks, ok2, ka2, lf, l1, l2, vn, (<[b := NLeaf (Leaf.set_version l2 vn)]> h3).
  assert (h3 !! b = Some (NLeaf mk)) as Hb3' by (rewrite Hf3 by done; apply lookup_insert_eq).
  eexists _, new. rewrite <- Hnf. split; cycle 1.
  { intros fuel Hf. unfold make_new_layer. rewrite Hcn, Hcka, Hckx.
    rewrite (bind_eq _ _ _ _ _ (get_leaf_eq _ _ _ Hb)), bind_gets.
    change (Leaf.ksuf (locked_leaf l) q) with (Leaf.ksuf l q). rewrite ksuf_entry. cbv zeta.
    erewrite bind_eq; [|reflexivity]. rewrite bind_gets.
    erewrite bind_eq; [|apply Hrun; lia]. cbv beta iota.
    rewrite (bind_eq _ _ _ _ _ (get_leaf_eq _ _ _ Hb')). 
    rewrite (bind_eq _ _ _ _ _ (get_leaf_eq _ _ _ Ht)), (bind_lift _ _ _ _ Hnll).
    rewrite (bind_eq _ _ _ _ _ (allocate_eq s' _)). fold nl.
    erewrite bind_eq; [|eapply try_update_leaf_eq; [apply lookup_insert_eq|exact Hb1]].
    erewrite bind_eq; [|eapply try_update_leaf_eq; [apply lookup_insert_eq|exact Hb2]].
    erewrite bind_eq; [|eapply try_update_leaf_eq; [apply lookup_insert_eq|exact Hb3]]. merge_heap.
    rewrite (bind_eq _ _ _ _ _ (version_eq _ nl (NLeaf b3) (lookup_insert_eq _ _ _))).
    erewrite bind_eq; [|eapply (lock_eq _ nl (NLeaf b3)); [apply lookup_insert_eq|rewrite Hv3; apply root_version_quiet]].
    erewrite bind_eq; [|eapply update_leaf_eq, lookup_insert_eq]. merge_heap.
    change (lversion b3) with (node_version (NLeaf b3)). rewrite Hv3. fold (lockv root_version). fold (bottom_permutation ok2 ka2). fold lf.
    erewrite bind_eq; [|apply (mark_locked_eq _ _ b (NLeaf (locked_leaf l))); [|exact Hbusy]].
    2: { rewrite heap_at_heap, lookup_insert_ne by done. exact Hb'. }
    merge_heap. change (node_set_version _ _) with (NLeaf mk). rewrite insert_insert_ne by done.
    rewrite (twig_tail_head s0 b _ aks s' Hbf Hts). change (at_heap s' _ _) with (at_heap sL (<[nl := NLeaf lf]> (<[b := NLeaf mk]> (heap s'))) (nl + 64)).
    rewrite (bind_eq _ _ _ _ _ Hlink).
    rewrite (proj1 (twig_head_ne s0 b _ Hbf aks s' Hts) : (if twig_head aks b =? b then nl else _) = twig_head aks nl).
    erewrite bind_eq; [|eapply try_update_leaf_eq; [exact Hb3'|exact (set_lv_version _ _ _ _ (lversion mk) Hset)]].
    erewrite bind_eq; [|eapply try_update_leaf_eq; [apply lookup_insert_eq|exact (set_layer_version _ _ _ (lversion mk) Hlay)]].
    erewrite bind_eq; [|eapply full_version_eq, lookup_insert_eq].
    erewrite bind_eq; [|apply (unlock_eq _ b (NLeaf (Leaf.set_version l2 (lversion mk)))); [apply lookup_insert_eq|by apply mark_insert_busy]].
    merge_heap. unfold ret. do 2 f_equal. unfold at_heap, with_kmem. cbn.
    destruct (ts_rest _ _ _ _ _ Hts) as [H1 H2]. f_equal; [exact H1|exact H2|apply Hts|apply Hts]. }
  destruct (mark_insert_busy _ Hbusy) as (Hbusy2 & Hfl2 & Hsp2).
  destruct (lock_busy _ Hq) as (_ & Hfl1 & Hsp1 & _). destruct (unlock_quiet _ Hbusy2) as (Hqv & Hu1 & Hu2).
  assert (b ∉ map fst aks) as Hbaks.
  { intros Hin. destruct (twig_state_fresh s0 b _ Hbf aks s' b Hts Hin) as [_ ?]. done. }
  split; try done; rewrite <- ?Hnf.
  - apply Hts.
  - intros a Ha Hne'. rewrite lookup_insert_ne by done. rewrite Hf3 by done. rewrite lookup_insert_ne by done.
    by apply (ts_frame _ _ _ _ _ Hts).
  - eapply twigs_frame; [by apply agree_insert|done].
  - by rewrite lookup_insert_ne.
  - destruct (Hbot _ lf eq_refl) as [Hbk' Hcom]. destruct Hblank as [_ _ Hms (Hx1 & Hx2 & Hx3) Hep]. destruct Hsame.
    pose proof (ts_tail _ _ _ _ _ Hts t Ht : phantom_epoch_ t = phantom_epoch_ l) as Hte.
    split; try done; [|cbn; congruence..]. cbn. split_and!; congruence.
  - apply lookup_insert_eq.
  - done.
  - split; [exact Hqv|]. destruct Hfl1, Hfl2. unfold same_flags, vn.
    change (lversion mk) with (Nodeversion.mark_insert NV (lversion (locked_leaf l))). rewrite Hu1, Hu2, Hsp2.
    change (lversion (locked_leaf l)) with (Z.lor (lversion l) (lock_bit NV)) in *. rewrite Hsp1, andb_true_r. split; congruence.
  - split_and!; try done; lia.
  - split_and!; try done; unfold ikey_size in *; lia.
Qed.
End make_new_layer.

Lemma key_entry_rep unaligned L m ka v :
  mem_bytes m -> key_wf unaligned m ka -> entry_rep L (key_entry m ka v) ([(key_bytes m ka, v)], []).
Proof.
  intros Hm Hka. unfold entry_rep. assert ((e_keylenx (key_entry m ka v) =? layer_keylenx) = false) as ->.
  { pose proof (proj1 Hka). unfold key_entry, Key.has_suffix, ikey_size.
    destruct (Z.ltb_spec 8 (len_ ka)); [done|]. cbn. apply Z.eqb_neq. unfold layer_keylenx. lia. }
  rewrite (key_entry_key unaligned m ka Hm Hka). unfold key_entry. by destruct (Key.has_suffix ka).
Qed.

(** The leaf below the twig, committed. *)
Lemma waiting_leaf_layer unaligned m ok kk ov ep lf nl w l4 h :
  mem_bytes m -> key_wf unaligned m ok -> key_wf unaligned m kk -> waiting_leaf m ok kk ov ep lf ->
  set_lv (new_slot ok kk) w lf = Some l4 ->
  h !! nl = Some (NLeaf (Leaf.set_version (finish_perm l4 (new_slot ok kk)) root_version)) ->
  exists BL, layer_rep 1 h nl BL [nl] /\
    (BL = [(key_bytes m ok, ov); (key_bytes m kk, w)] \/ BL = [(key_bytes m kk, w); (key_bytes m ok, ov)]).
Proof.
  intros Hm Hok Hkk [_ (Hn & Hp & Hpar) Hms _ _ Hcom] Hset Hnl.
  destruct (Hcom w) as (l4' & Hset' & [_ S2 _ S4 S5 S6 _] & free & Hle). rewrite Hset in Hset'. injection Hset' as <-.
  set (lz := Leaf.set_version (finish_perm l4 (new_slot ok kk)) root_version) in *.
  assert (forall es, leaf_entries (finish_perm l4 (new_slot ok kk)) [0; 1] free es -> leaf_ok 0 0 (2 ^ ikey_bits) lz es) as Hlz.
  { intros es [[? ? ? ?] ? ? ? ?]. apply (root_leaf_ok _ [0; 1] free); [by split|done|cbn; congruence..]. }
  assert (prev_ lz = 0 /\ next_ lz = 0) as [Hpz Hnz] by (cbn; split; congruence).
  destruct (Key.compare_key ok kk <? 0).
  - eexists. split; [|by left].
    apply (root_leaf_layer 0 h nl lz _ [([(key_bytes m ok, ov)], []); ([(key_bytes m kk, w)], [])] Hnl (Hlz _ Hle) Hpz Hnz).
    repeat constructor; by apply (key_entry_rep unaligned).
  - eexists. split; [|by right].
    apply (root_leaf_layer 0 h nl lz _ [([(key_bytes m kk, w)], []); ([(key_bytes m ok, ov)], [])] Hnl (Hlz _ Hle) Hpz Hnz).
    repeat constructor; by apply (key_entry_rep unaligned).
Qed.

Lemma new_layer_ready unaligned okbuf s B ns h kb ka b l c :
  table_in s B ns -> found_at unaligned (kmem s) h (table_root s) kb B ns ka b l -> len_ ka <= max_key_len ->
  (32 <= max_layers)%nat -> zlength kb <= max_key_len ->
  (forall a, a ∉ ns -> h !! a = heap s !! a) -> okbuf + max_key_len <= s_ ka \/ s_ ka + len_ ka <= okbuf ->
  match_state (kmem s) l ka = 0 -> 0 <= kip_p (Leaf.lower ka l) ->
  n_ c = b -> ka_ c = ka -> kx_ c = Leaf.lower ka l -> state_ c = 2 ->
  exists F c' s2, ready s2 c' (phantom_epoch_ l) (now_bound kb B) /\
    forall fuel, (F <= fuel)%nat ->
      make_new_layer unaligned fuel okbuf c (with_heap s (<[b := NLeaf (locked_leaf l)]> h)) = Some (c', s2).
Proof.
  intros Hrep Hfound Hlen Hdeep Hkb Hh Hokbuf Hst Hq0 Hcn Hcka Hckx Hcst. set (s1 := with_heap s _).
  pose proof (tr_mem _ _ _ Hrep) as Hm. assert (key_wf unaligned (kmem s) ka) as Hka by apply Hfound.
  destruct (found_view unaligned _ _ _ _ _ _ _ _ _ Hm Hfound (tr_nodup _ _ _ Hrep)) as
    (par & lo & hi & n & esb & Bnb & nso & Hv).
  pose proof (lw_ok _ _ _ _ _ _ _ _ _ _ _ _ _ _ _ _ Hv) as Hlok. pose proof (lo_quiet _ _ _ _ _ Hlok) as Hq.
  destruct (lo_entries _ _ _ _ _ Hlok) as (live & free & Hle).
  assert (b ∈ ns) as Hbin.
  { rewrite (lw_nodes _ _ _ _ _ _ _ _ _ _ _ _ _ _ _ _ Hv), elem_of_app, elem_of_cons. tauto. }
  destruct (tr_addr _ _ _ Hrep b Hbin) as [Hbf _].
  destruct (conflict_entry unaligned _ _ _ _ _ _ ka b l _ _ _ _ _ _ _ Hm Hka Hv Hst Hq0) as (Hkx & Hl8 & _ & Hne & Hbs & Hsl).
  destruct (new_layer_run unaligned okbuf s1 b l live free esb ka c) as
    (F & aks & ok2 & ka2 & lf & l1 & l2 & vn & h4 & uv & new & [Na Nf Nt Nl Nw Nb [Ns1 Ns2] [Nv1 Nv2] (No1 & No2 & No3) (Nk1 & Nk2 & Nk3)] & Hrun);
    try done; [apply lookup_insert_eq|apply Hbf|].
  change (next_fresh s1) with (next_fresh s) in *. change (kmem s1) with (kmem s) in *.
  set (nl := next_fresh s + 64 * zlength aks) in *. pose proof (zlength_nonneg aks) as Hz.
  eexists F, _, _. split; [|exact Hrun].
  assert (lversion lf = lockv root_version) as Hvf by apply Nw.
  split; [exists lf; split; [done|apply Nw]|]. intros w. destruct (wl_commit _ _ _ _ _ _ Nw w) as (l4 & Hset & Hs4 & _).
  eexists _, _. split; [by eapply set_value_eq|]. split.
  { intros fuel. eapply finish_new; [done|apply lookup_insert_eq| |].
    - rewrite (sl_version _ _ Hs4), Hvf. by destruct (lock_busy root_version root_version_quiet).
    - rewrite (sl_permutation _ _ Hs4). apply Nw. }
  cbn [n_ kx_ kip_i]. rewrite (sl_version _ _ Hs4), Hvf. unfold lockv. rewrite (unlock_lock _ root_version_quiet).
  match goal with |- now_bound _ _ _ ?S => set (s3 := S) end.
  set (h6 := <[nl := NLeaf (Leaf.set_version (finish_perm l4 (new_slot ok2 ka2)) root_version)]> h4).
  assert (heap s3 = h6) as Hh6 by (unfold s3, h6; cbn; by rewrite insert_insert_eq).
  assert (mem_bytes (kmem s3)) as Hm3 by by apply store_bytes.
  destruct (waiting_leaf_layer unaligned _ ok2 ka2 _ _ lf nl w l4 h6 Hm3 No1 Nk1 Nw Hset (lookup_insert_eq _ _ _)) as (BL & HBL & Hboth).
  assert (nonempty_keys BL) as Hne'.
  { assert (forall k0, key_wf unaligned (kmem s3) k0 -> 0 < len_ k0 -> key_bytes (kmem s3) k0 <> []) as Hnil.
    { intros k0 Hk0 Hpos Hnil. pose proof (zlength_key_bytes unaligned _ _ Hk0) as Hzk. rewrite Hnil in Hzk. unfold zlength in Hzk. cbn [length] in Hzk. lia. }
    destruct Hboth as [->| ->]; repeat (constructor; [apply Hnil; [done|lia]|]); constructor. }
  assert (forall a, a ∈ map fst aks -> next_fresh s <= a < nl) as Haks.
  { intros a Ha. rewrite Na in Ha. apply fresh_range in Ha. unfold nl, zlength. lia. }
  assert (twigs h6 aks nl) as Ht6.
  { eapply twigs_frame; [|exact Nt]. apply agree_insert. intros Hin%Haks. lia. }
  pose proof (twigs_layer h6 aks nl 1 BL [nl] Ht6 HBL Hne') as HN.
  assert (length aks + 1 <= n)%nat as Hroom.
  { pose proof (lw_depth _ _ _ _ _ _ _ _ _ _ _ _ _ _ _ _ Hv) as Hdep.
    rewrite (key_bytes_suffix unaligned _ ka Hm Hka Hl8), Nk3, !length_app, length_ikey_bytes, length_twig_prefix in Hdep.
    pose proof (zlength_key_bytes unaligned _ _ Nk1) as Hz2. unfold zlength, max_key_len in *. lia. }
  apply (layer_rep_mono _ n) in HN; [|done].
  eapply (rebound_fresh s s3 B ns h6 kb w (S (length aks))); [done| |done| |done|done].
  - rewrite fresh_snoc, <- Na. change (next_fresh s + 64 * Z.of_nat (length aks)) with nl.
    eapply (layer_rebound unaligned (kmem s) h _ kb B ns ka b l _ _ _ _ _ _ _ Hm Hka Hv Hst Hq0 w _ l1 l2 vn h6); try done.
    + intros a Ha Hne2. pose proof (proj1 (tr_addr _ _ _ Hrep a Ha)) as Har. unfold h6.
      rewrite lookup_insert_ne by (unfold nl; lia). rewrite Nf by (lia || done).
      change (heap s1) with (<[b := NLeaf (locked_leaf l)]> h). by apply lookup_insert_ne.
    + unfold h6. by rewrite lookup_insert_ne by (unfold nl; lia).
    + unfold both_bindings. rewrite No3, Nk3. destruct Hboth as [->| ->]; [by left|by right].
  - unfold s3. cbn. unfold nl, zlength. lia.
Qed.
End layers.
