(* ===== verification/SplitSpec.v ===== *)
(** The content of leaf splits, [LeafSplit] of [Insert] ([leaf<P>::split_into]
    of [src/masstree_split.hh]) and the strip of the left leaf: the entries of
    the two leaves are those of the full one with the new key's entry among
    them, cut between different slices. *)
From Stdlib Require Import Sorted.
From S2P Require Import Prelude Compiler Memory StringSlice Key Ksearch Kpermuter Nodeversion.
From S2P Require Import Stringbag Node Heap Get Insert Remove Tree Find Steps LeafSpec Locate Put NewLayer.

(** * Runs of equal slices *)
Lemma entry_lt_run E x y e f :
  StronglySorted entry_lt E -> 0 <= x <= y -> zlookup E x = Some e -> zlookup E y = Some f -> e_ikey e = e_ikey f ->
  e_rank e + (y - x) <= e_rank f.
Proof.
  intros Hs [Hx Hxy] He Hf Heq. remember (Z.to_nat (y - x)) as k eqn:Hk. revert y f Hxy Hf Heq Hk.
  induction k as [|k IH]; intros y f Hxy Hf Heq Hk.
  - assert (y = x) as -> by lia. assert (e = f) as -> by congruence. lia.
  - destruct (zlookup_Some E (y - 1)) as [g Hg]; [apply zlookup_lt in Hf; lia|].
    pose proof (SS_zlookup E (y - 1) y g f Hs ltac:(lia) Hg Hf) as Hgf.
    assert (e_ikey e <= e_ikey g) as Heg.
    { destruct (Z.eq_dec x (y - 1)) as [->|]; [assert (e = g) as -> by congruence; lia|].
      pose proof (SS_zlookup E x (y - 1) e g Hs ltac:(lia) He Hg) as [?|[? _]]; lia. }
    specialize (IH (y - 1) g ltac:(lia) Hg). unfold entry_lt in Hgf. lia.
Qed.

Lemma entry_rank_range e : entry_ok e -> 0 <= e_rank e <= 9.
Proof.
  intros [_ [(? & _)|[(? & _)|(? & _)]]]; unfold e_rank, ksuf_keylenx, layer_keylenx in *; lia.
Qed.

(** At most ten entries have the same slice. *)
Lemma slice_run E x y e f :
  StronglySorted entry_lt E -> Forall entry_ok E -> 0 <= x <= y -> zlookup E x = Some e -> zlookup E y = Some f ->
  e_ikey e = e_ikey f -> y - x <= 9.
Proof.
  intros Hs Hok Hxy He Hf Heq. pose proof (entry_lt_run E x y e f Hs Hxy He Hf Heq).
  pose proof (entry_rank_range e (proj1 (Forall_zlookup _ _) Hok x e He)).
  pose proof (entry_rank_range f (proj1 (Forall_zlookup _ _) Hok y f Hf)). lia.
Qed.

(** * The split point *)
Section adjust_mid.
Context (f : Z -> Z) (width mk : Z) (Hw : 10 <= width)
  (Hrun : forall x y, 0 <= x <= y -> y <= width -> f x = mk -> f y = mk -> y - x <= 9).

Lemma adjust_mid_spec fuel midl midr :
  (forall x, 0 <= x <= width -> midl < x < midr -> f x = mk) -> midl + 2 < midr -> -1 <= midl \/ midr <= width + 1 ->
  Z.max 0 (midl + 1) <= Z.min width (midr - 1) ->
  10 - (Z.min width (midr - 1) - Z.max 0 (midl + 1)) < Z.of_nat fuel ->
  exists mid, LeafSplit.adjust_mid_loop fuel f width mk midl midr = Some mid /\ 1 <= mid <= width /\ f (mid - 1) <> f mid.
Proof using Hw Hrun.
  revert midl midr. induction fuel as [|fuel IH]; intros midl midr Hin Hlt Hor Hne Hf.
  - pose proof (Hrun (Z.max 0 (midl + 1)) (Z.min width (midr - 1)) ltac:(lia) ltac:(lia)) as Hr.
    rewrite !Hin in Hr by lia. specialize (Hr eq_refl eq_refl). lia.
  - pose proof (Hrun (Z.max 0 (midl + 1)) (Z.min width (midr - 1)) ltac:(lia) ltac:(lia)) as Hr.
    rewrite !Hin in Hr by lia. specialize (Hr eq_refl eq_refl). cbn [LeafSplit.adjust_mid_loop].
    destruct (Z.leb_spec midr width) as [Hmr|Hmr]; cbn [andb].
    + destruct (Z.eqb_spec mk (f midr)) as [He|He]; cbn [negb].
      * destruct (Z.leb_spec 0 midl) as [Hml|Hml]; cbn [andb].
        -- destruct (Z.eqb_spec mk (f midl)) as [He'|He']; cbn [negb].
           ++ apply IH; try lia. intros x Hx Hx'. destruct (Z.eq_dec x midr) as [->|]; [done|].
              destruct (Z.eq_dec x midl) as [->|]; [done|]. apply Hin; lia.
           ++ exists (midl + 1). split; [done|]. split; [lia|]. replace (midl + 1 - 1) with midl by lia.
              rewrite (Hin (midl + 1)) by lia. congruence.
        -- apply IH; try lia. intros x Hx Hx'. destruct (Z.eq_dec x midr) as [->|]; [done|]. apply Hin; lia.
      * exists midr. split; [done|]. split; [lia|]. rewrite (Hin (midr - 1)) by lia. congruence.
    + destruct (Z.leb_spec 0 midl) as [Hml|Hml]; cbn [andb]; [|lia].
      destruct (Z.eqb_spec mk (f midl)) as [He'|He']; cbn [negb].
      * apply IH; try lia. intros x Hx Hx'. destruct (Z.eq_dec x midl) as [->|]; [done|]. apply Hin; lia.
      * exists (midl + 1). split; [done|]. split; [lia|]. replace (midl + 1 - 1) with midl by lia.
        rewrite (Hin (midl + 1)) by lia. congruence.
Qed.
End adjust_mid.

(** * Moving the items *)
(** [assign_initialize] from another leaf. *)
Lemma assign_from_spec nr p x xp :
  leaf_arrays nr -> 0 <= p < leaf_width -> modstate_ nr <> modstate_remove -> entry_ok (slot_entry x xp) ->
  (forall q, 0 <= q < p -> Leaf.has_ksuf nr q = true -> zlength (Leaf.ksuf nr q) <= max_key_len) ->
  exists nr', Leaf.assign_initialize_from nr p x xp = Some nr' /\ leaf_arrays nr' /\ same_leaf nr nr' /\
    slot_entry nr' p = slot_entry x xp /\ (forall q, 0 <= q < p -> slot_entry nr' q = slot_entry nr q).
Proof.
  intros [Hk Hi Ha Hb] Hp Hms Hok Hs. unfold Leaf.assign_initialize_from.
  destruct (write_slot_spec nr p (Leaf.keylenx x xp) (Leaf.ikey x xp) (Leaf.lv x xp) Hk Hi Ha Hp) as
    (k & i & a & -> & Hlk & Hli & Hla & Hzk & Hzi & Hza). cbn [mbind option_bind].
  set (l1 := Leaf.set_slots nr k i a).
  assert (Leaf.keylenx l1 p = Leaf.keylenx x xp /\ Leaf.ikey l1 p = Leaf.ikey x xp /\ Leaf.lv l1 p = Leaf.lv x xp) as (E1 & E2 & E3).
  { unfold Leaf.keylenx at 1, Leaf.ikey at 1, Leaf.lv at 1, l1. cbn. split_and!; apply rd_zlookup; by rewrite ?Hzk, ?Hzi, ?Hza, Z.eqb_refl. }
  assert (forall q, q <> p -> Leaf.keylenx l1 q = Leaf.keylenx nr q /\ Leaf.ikey l1 q = Leaf.ikey nr q /\
    Leaf.lv l1 q = Leaf.lv nr q) as Hother.
  { intros q Hq. unfold Leaf.keylenx, Leaf.ikey, Leaf.lv. split_and!; apply rd_eq; cbn;
      rewrite ?Hzk, ?Hzi, ?Hza; by destruct (Z.eqb_spec q p). }
  assert (Leaf.has_ksuf l1 p = Leaf.has_ksuf x xp) as E4 by (unfold Leaf.has_ksuf; by rewrite E1).
  assert (forall q, q <> p -> Leaf.has_ksuf l1 q = Leaf.has_ksuf nr q) as Hhas
    by (intros q Hq; unfold Leaf.has_ksuf; by rewrite (proj1 (Hother q Hq))).
  destruct (Leaf.has_ksuf x xp) eqn:Hx.
  - assert (zlength (Leaf.ksuf x xp) <= max_key_len) as Hlen.
    { destruct Hok as [_ Ho]. unfold slot_entry in Ho. rewrite Hx in Ho. cbn [e_keylenx e_suf] in Ho.
      unfold Leaf.has_ksuf, Leaf.keylenx_has_ksuf in Hx. apply Z.eqb_eq in Hx. rewrite Hx in Ho.
      destruct Ho as [(? & _)|[(_ & _ & ?)|(? & _)]]; [unfold ksuf_keylenx in *; lia|lia|done]. }
    destruct (assign_ksuf_spec l1 p (Leaf.ksuf x xp) true) as (es & ks & iks & H1 & H2 & H3 & H4); try done.
    { apply NoDup_seqZ. }
    { apply Forall_seqZ. lia. }
    { intros q [Hq Hq']%elem_of_seqZ Hne Hh. rewrite Hhas in Hh by done.
      change (Leaf.ksuf l1 q) with (Leaf.ksuf nr q). apply Hs; [lia|done]. }
    rewrite H1. eexists. split; [done|]. split_and!; [by split|done| |].
    + unfold slot_entry. change (Leaf.has_ksuf _ p) with (Leaf.has_ksuf l1 p).
      change (Leaf.ikey _ p) with (Leaf.ikey l1 p). change (Leaf.keylenx _ p) with (Leaf.keylenx l1 p).
      change (Leaf.lv _ p) with (Leaf.lv l1 p). by rewrite E1, E2, E3, E4, H3, Hx.
    + intros q Hq. unfold slot_entry. destruct (Hother q ltac:(lia)) as (O1 & O2 & O3).
      change (Leaf.has_ksuf (Leaf.set_ksuf l1 es ks iks) q) with (Leaf.has_ksuf l1 q).
      change (Leaf.ikey (Leaf.set_ksuf l1 es ks iks) q) with (Leaf.ikey l1 q).
      change (Leaf.keylenx (Leaf.set_ksuf l1 es ks iks) q) with (Leaf.keylenx l1 q).
      change (Leaf.lv (Leaf.set_ksuf l1 es ks iks) q) with (Leaf.lv l1 q).
      rewrite O1, O2, O3, (Hhas q ltac:(lia)). destruct (Leaf.has_ksuf nr q) eqn:Hh; [|done].
      rewrite H4; [done|apply elem_of_seqZ; lia|lia|by rewrite Hhas by lia].
  - exists l1. split; [done|]. split_and!; [by split|done| |].
    + unfold slot_entry. by rewrite E1, E2, E3, E4, Hx.
    + intros q Hq. unfold slot_entry. destruct (Hother q ltac:(lia)) as (O1 & O2 & O3).
      rewrite O1, O2, O3, (Hhas q ltac:(lia)). done.
Qed.

Section split.
Context (unaligned : bool) (m : mem) (ka : key) (l : leaf) (la lb free : list Z) (es : list entry).
Context (Hm : mem_bytes m) (Hka : key_wf unaligned m ka) (Hlen : len_ ka <= max_key_len)
  (Hle : leaf_entries l (la ++ lb) free es) (Ha : above l ka la) (Hb : below l ka lb)
  (Hfull : leaf_width - 1 <= Leaf.size l).

(** The entries with the new one, of value [v]. *)
Abbreviation i := (zlength la).
Definition entries_with (v : Z) : list entry := map (slot_entry l) la ++ key_entry m ka v :: map (slot_entry l) lb.
Abbreviation E := (entries_with 0).
Abbreviation width := (Leaf.size l).

Lemma full_width : width = zlength la + zlength lb /\ 14 <= width <= 15 /\ zlength E = width + 1.
Proof using Hle Hfull.
  pose proof (leaf_size _ _ _ _ Hle) as Hs. rewrite zlength_app in Hs.
  pose proof (repr_length leaf_width ltac:(done) _ _ _ (le_repr _ _ _ _ Hle)) as Hr. rewrite zlength_app in Hr.
  pose proof (zlength_nonneg free). unfold entries_with. rewrite zlength_app, zlength_cons.
  unfold leaf_width, zlength in *. rewrite !length_map. lia.
Qed.

Lemma entries_with_ok v : Forall entry_ok (entries_with v) /\ StronglySorted entry_lt (entries_with v).
Proof using Hm Hka Hlen Hle Ha Hb.
  pose proof (le_es _ _ _ _ Hle) as Hes. rewrite map_app in Hes.
  pose proof (le_ok _ _ _ _ Hle) as Hok. pose proof (le_sorted _ _ _ _ Hle) as Hs. rewrite Hes in Hok, Hs.
  apply Forall_app in Hok as [Hok1 Hok2]. unfold entries_with. split.
  - rewrite Forall_app, Forall_cons. split_and!; [done|by apply (key_entry_ok unaligned)|done].
  - apply StronglySorted_middle; [done|..].
    + apply Forall_map, Forall_forall. intros q Hq. eapply entry_lt_key; [done| |].
      * apply (proj1 (Forall_forall _ _) Hok1), list_elem_of_fmap. by exists q.
      * by apply (proj1 (Forall_forall _ _) Ha).
    + apply Forall_map, Forall_forall. intros q Hq. eapply key_lt_entry; [done|].
      by apply (proj1 (Forall_forall _ _) Hb).
Qed.

(** The entry at [x], as the code reads it. *)
Lemma entries_with_lookup x :
  0 <= x <= width ->
  zlookup E x = Some (if x =? i then key_entry m ka 0
    else slot_entry l (Kpermuter.index (permutation_ l) (x - b2z (i <? x)))).
Proof using Hle Hfull.
  intros Hx. destruct full_width as (Hw & _ & _). pose proof (zlength_nonneg la).
  assert (forall j p, zlookup (la ++ lb) j = Some p -> Kpermuter.index (permutation_ l) j = p) as Hidx.
  { intros j p Hj. by apply (leaf_index _ _ _ _ Hle). }
  assert (zlength (map (slot_entry l) la) = i) as Hml by (unfold zlength; by rewrite length_map).
  unfold entries_with. destruct (Z.eqb_spec x i) as [->|Hne].
  - rewrite <- Hml. apply zlookup_mid.
  - destruct (Z.ltb_spec i x); cbn [b2z].
    + rewrite zlookup_app_r, zlookup_cons, Hml, map_zlookup by lia.
      destruct (zlookup_Some lb (x - i - 1)) as [p Hp]; [lia|]. rewrite Hp. cbn. do 2 f_equal. symmetry. apply Hidx.
      rewrite zlookup_app_r by lia. rewrite <- Hp. f_equal. lia.
    + rewrite zlookup_app_l, map_zlookup by lia. destruct (zlookup_Some la x) as [p Hp]; [lia|].
      rewrite Hp. cbn. do 2 f_equal. symmetry. rewrite Z.sub_0_r. apply Hidx. by rewrite zlookup_app_l by lia.
Qed.

Lemma ikey_after_insert_spec x e :
  zlookup E x = Some e -> LeafSplit.ikey_after_insert l (permutation_ l) x i (Key.ikey ka) = e_ikey e.
Proof using Hle Hfull.
  intros He. destruct full_width as (_ & _ & HE). pose proof (zlookup_lt _ _ _ He) as Hx. rewrite HE in Hx.
  rewrite entries_with_lookup in He by lia. injection He as <-. unfold LeafSplit.ikey_after_insert.
  destruct (Z.eqb_spec x i) as [->|Hne].
  - rewrite Z.ltb_irrefl. unfold key_entry. by destruct (Key.has_suffix ka).
  - destruct (Z.ltb_spec x i), (Z.ltb_spec i x); try lia; cbn [b2z]; by rewrite ?Z.sub_0_r.
Qed.

Lemma split_point_spec :
  exists mid, LeafSplit.split_point l i (Key.ikey ka) = Some mid /\ 1 <= mid <= width /\
    exists e f, zlookup E (mid - 1) = Some e /\ zlookup E mid = Some f /\ e_ikey e < e_ikey f.
Proof using Hm Hka Hlen Hle Ha Hb Hfull.
  destruct full_width as (Hw & Hwr & HE). destruct (entries_with_ok 0) as [Hok Hs].
  set (f := fun x => LeafSplit.ikey_after_insert l (permutation_ l) x i (Key.ikey ka)).
  assert (forall x, 0 <= x <= width -> exists e, zlookup E x = Some e /\ f x = e_ikey e) as Hf.
  { intros x Hx. destruct (zlookup_Some E x) as [e He]; [lia|]. exists e. split; [done|]. by apply ikey_after_insert_spec. }
  assert (forall mid, 1 <= mid <= width -> f (mid - 1) <> f mid ->
    exists e g, zlookup E (mid - 1) = Some e /\ zlookup E mid = Some g /\ e_ikey e < e_ikey g) as Hcut.
  { intros mid Hmid Hne. destruct (Hf (mid - 1)) as (e & He & Hfe); [lia|]. destruct (Hf mid) as (g & Hg & Hfg); [lia|].
    exists e, g. split_and!; [done..|]. destruct (SS_zlookup E (mid - 1) mid e g Hs ltac:(lia) He Hg); lia. }
  unfold LeafSplit.split_point. change (Leaf.permutation l) with (permutation_ l).
  change (Kpermuter.size (permutation_ l)) with width. fold f. pose proof (zlength_nonneg la). pose proof (zlength_nonneg lb).
  set (mid0 := if (i =? 0) && (prev_ l =? 0) then 1 else if (i =? width) && (next_ l =? 0) then width else leaf_width / 2 + 1).
  change (LeafSplit.ikey_after_insert l (permutation_ l) mid0 i (Key.ikey ka)) with (f mid0).
  change (LeafSplit.ikey_after_insert l (permutation_ l) (mid0 - 1) i (Key.ikey ka)) with (f (mid0 - 1)).
  assert (1 <= mid0 <= width) as Hmid0.
  { unfold mid0. change (leaf_width / 2 + 1) with 8. destruct (_ && _); [lia|]. destruct (_ && _); lia. }
  destruct (Z.eqb_spec (f mid0) (f (mid0 - 1))) as [He|Hne].
  - destruct (adjust_mid_spec f width (f mid0) ltac:(lia)) with (fuel := 16%nat) (midl := mid0 - 2) (midr := mid0 + 1)
      as (mid & -> & Hr & Hc); try lia.
    + intros x y Hx Hy Hfx Hfy. destruct (Hf x) as (ex & Hex & Hfex); [lia|]. destruct (Hf y) as (ey & Hey & Hfey); [lia|].
      apply (slice_run E x y ex ey Hs Hok Hx Hex Hey). congruence.
    + intros x Hx Hx'. destruct (Z.eq_dec x mid0) as [->|]; [done|]. by replace x with (mid0 - 1) by lia.
    + cbn [mbind option_bind]. destruct (Z.ltb_spec 0 mid), (Z.leb_spec mid width); try lia. cbn [andb].
      exists mid. split; [done|]. split; [done|]. by apply Hcut.
  - exists mid0. split; [done|]. split; [done|]. apply Hcut; [done|congruence].
Qed.

Lemma value_from_index x j : 0 <= j -> Z.land (Kpermuter.value_from x j) 15 = Kpermuter.index x j /\
  Z.shiftr (Kpermuter.value_from x j) 4 = Kpermuter.value_from x (j + 1).
Proof using Type.
  intros Hj. unfold Kpermuter.value_from, Kpermuter.index. rewrite !Z.shiftl_mul_pow2 by lia. split.
  - do 2 f_equal. lia.
  - rewrite Z.shiftr_shiftr by lia. f_equal. lia.
Qed.

(** The items from [mid] on go to the first slots of the right leaf. *)
Lemma move_items_spec mid k x nr pv :
  1 <= mid -> x + Z.of_nat k = width + 1 -> mid <= x -> pv = Kpermuter.value_from (permutation_ l) (x - b2z (i <? x)) ->
  leaf_arrays nr -> modstate_ nr <> modstate_remove ->
  (forall j, 0 <= j < x - mid -> zlookup E (mid + j) = Some (slot_entry nr j)) ->
  exists nr', LeafSplit.move_items k m l nr i mid ka pv x = Some nr' /\ leaf_arrays nr' /\ same_leaf nr nr' /\
    (forall j, 0 <= j < width + 1 - mid -> zlookup E (mid + j) = Some (slot_entry nr' j)).
Proof using Hm Hka Hlen Hle Ha Hb Hfull.
  intros Hmid. destruct full_width as (Hw & Hwr & HE). destruct (entries_with_ok 0) as [Hok _].
  pose proof (zlength_nonneg la). pose proof (zlength_nonneg lb).
  revert x nr pv. induction k as [|k IH]; intros x nr pv Hk Hx Hpv Harr Hms Hdone; cbn [LeafSplit.move_items].
  { exists nr. split_and!; [done..|]. intros j Hj. apply Hdone. lia. }
  assert (forall q, 0 <= q < x - mid -> Leaf.has_ksuf nr q = true -> zlength (Leaf.ksuf nr q) <= max_key_len) as Hsuf.
  { intros q Hq Hh. pose proof (proj1 (Forall_zlookup _ _) Hok _ _ (Hdone q Hq)) as [_ Ho].
    unfold slot_entry in Ho. rewrite Hh in Ho. cbn [e_keylenx e_suf] in Ho.
    unfold Leaf.has_ksuf, Leaf.keylenx_has_ksuf in Hh. apply Z.eqb_eq in Hh. rewrite Hh in Ho.
    destruct Ho as [(? & _)|[(_ & _ & ?)|(? & _)]]; [unfold ksuf_keylenx in *; lia|lia|done]. }
  pose proof (entries_with_lookup x ltac:(lia)) as Hex.
  destruct (Z.eqb_spec x i) as [Hxi|Hxi].
  - destruct (assign_with_spec unaligned true m nr (x - mid) ka Harr Hm Hka Hlen) as (nr1 & H1 & A1 & S1 & E1 & _ & K1).
    + unfold leaf_width. lia.
    + done.
    + apply NoDup_seqZ.
    + apply Forall_seqZ. unfold leaf_width. lia.
    + apply Forall_forall. intros q [Hq Hq']%elem_of_seqZ _. apply Hsuf. lia.
    + unfold Leaf.assign_initialize. rewrite H1. cbn [mbind option_bind].
      destruct (IH (x + 1) nr1 pv) as (nr' & H2 & A2 & S2 & D2); [lia|lia| |done|by rewrite (sl_modstate _ _ S1)| |].
      * rewrite Hpv. f_equal. rewrite Hxi, Z.ltb_irrefl. destruct (Z.ltb_spec i (i + 1)); cbn [b2z]; lia.
      * intros j Hj. destruct (Z.eq_dec j (x - mid)) as [->|]; [rewrite E1; rewrite <- Hex; f_equal; lia|].
        rewrite K1; [apply Hdone; lia|apply elem_of_seqZ; lia|done].
      * exists nr'. split_and!; try done. destruct S1, S2; split; congruence.
  - destruct (value_from_index (permutation_ l) (x - b2z (i <? x))) as [Hv1 Hv2].
    { destruct (Z.ltb_spec i x); cbn [b2z]; lia. }
    rewrite Hpv, Hv1, Hv2.
    destruct (assign_from_spec nr (x - mid) l (Kpermuter.index (permutation_ l) (x - b2z (i <? x))) Harr) as
      (nr1 & -> & A1 & S1 & E1 & K1); [unfold leaf_width; lia|done|by apply (proj1 (Forall_zlookup _ _) Hok x)|exact Hsuf|].
    cbn [mbind option_bind].
    destruct (IH (x + 1) nr1 (Kpermuter.value_from (permutation_ l) (x - b2z (i <? x) + 1))) as (nr' & H2 & A2 & S2 & D2);
      [lia|lia| |done|by rewrite (sl_modstate _ _ S1)| |].
    * f_equal. destruct (Z.ltb_spec i x), (Z.ltb_spec i (x + 1)); cbn [b2z]; lia.
    * intros j Hj. destruct (Z.eq_dec j (x - mid)) as [->|]; [rewrite E1; rewrite <- Hex; f_equal; lia|].
      rewrite K1; [apply Hdone; lia|lia].
    * exists nr'. split_and!; try done. destruct S1, S2; split; congruence.
Qed.
End split.
