(* ===== verification/Ancestors.v ===== *)
(** The way from a node of a B+tree up to the root: the ancestors of a node
    with what lies left and right of it, how a changed node makes a changed
    tree, and what the splits of [src/masstree_split.hh] do to the lists of
    children on the way. *)
From Stdlib Require Import Sorted.
From S2P Require Import Prelude Compiler Memory StringSlice Key Ksearch Kpermuter Nodeversion.
From S2P Require Import Stringbag Node Heap Tree Find Steps InternodeSpec.

(** * Lists of children *)
(** The children of an internode with their lower bounds. *)
Definition kids (lo : Z) (i : internode) : list (Z * Z) := (lo, rd (child_ i) 0) :: separators i.

Lemma kids_zip lo i : shape i -> kids lo i = zip (lo :: keys i) (children i).
Proof.
  intros [H1 H2 H3]. unfold kids, separators, keys, children, internode_width in *.
  destruct (child_ i) as [|c cs] eqn:Hc; [done|]. unfold rd. cbn [zlookup].
  replace (Z.to_nat (nkeys_ i + 1)) with (S (Z.to_nat (nkeys_ i))) by lia. cbn [take zip zip_with drop].
  f_equal. rewrite zip_with_take_r'; [done|]. rewrite length_take. lia.
Qed.

Lemma children_kids lo i : shape i -> children i = map snd (kids lo i).
Proof.
  intros Hs. rewrite (kids_zip lo i Hs). symmetry. apply snd_zip.
  pose proof (zlength_keys i Hs). pose proof (zlength_children i Hs). unfold zlength in *. cbn. lia.
Qed.

(** A child inserted, and a list of children cut. *)
Lemma zip_insert_at {A B} lo (x : A) (c : B) ks cs kp :
  length cs = S (length ks) -> 0 <= kp <= zlength ks ->
  zip (lo :: insert_at kp x ks) (insert_at (kp + 1) c cs) = insert_at (kp + 1) (x, c) (zip (lo :: ks) cs).
Proof.
  intros Hl Hk. unfold insert_at, zlength in *. replace (Z.to_nat (kp + 1)) with (S (Z.to_nat kp)) by lia.
  destruct cs as [|c0 cs]; [done|]. cbn in *. f_equal. rewrite zip_with_app by (rewrite !length_take; lia).
  cbn. by rewrite <- zip_with_take, <- zip_with_drop.
Qed.

(** A child replaced. *)
Lemma zip_set {A B} (X : list A) (Y : list B) K1 k c K2 v :
  zip X Y = K1 ++ (k, c) :: K2 -> zip X (<[length K1 := v]> Y) = K1 ++ (k, v) :: K2.
Proof.
  revert X Y. induction K1 as [|kc K1 IH]; intros [|x X] [|y Y]; try done; cbn.
  - by intros [= -> -> ->].
  - intros [= <- H]. f_equal. by apply IH.
Qed.
Lemma kids_set_child lo i c' K1 k c K2 v :
  shape i -> kids lo i = K1 ++ (k, c) :: K2 -> wr (child_ i) (zlength K1) v = Some c' ->
  kids lo (Internode.set_child i c') = K1 ++ (k, v) :: K2.
Proof.
  intros [_ _ Hc] HK Hset. unfold wr, zlength in Hset. case_match; [|done]. injection Hset as <-. rewrite Nat2Z.id.
  unfold kids, separators, rd, internode_width in *. cbn [child_ Internode.set_child nkeys_ iikey0_].
  destruct (child_ i) as [|c0 cs]; [done|]. destruct K1 as [|kc K1]; cbn in *.
  - by injection HK as <- <- <-.
  - injection HK as <- HK. f_equal. rewrite !drop_0 in *. by apply (zip_set _ _ _ _ c).
Qed.

(** The children of a node that is cut in two. *)
Lemma kids_cut lo i i1 i2 kp x c sk :
  shape i -> shape i1 -> shape i2 -> 0 <= kp <= nkeys_ i ->
  insert_at kp x (keys i) = keys i1 ++ sk :: keys i2 ->
  insert_at (kp + 1) c (children i) = children i1 ++ children i2 ->
  insert_at (kp + 1) (x, c) (kids lo i) = kids lo i1 ++ kids sk i2.
Proof.
  intros H H1 H2 Hkp HK HC. rewrite !kids_zip by done.
  pose proof (zlength_keys i H). pose proof (zlength_children i H).
  pose proof (zlength_keys i1 H1). pose proof (zlength_children i1 H1).
  rewrite <- zip_insert_at by (unfold zlength in *; lia). rewrite HK, HC, app_comm_cons. apply zip_with_app.
  unfold zlength in *. cbn. lia.
Qed.

Lemma next_key_app K1 K2 hi : next_key (K1 ++ K2) hi = next_key K1 (next_key K2 hi).
Proof. by destruct K1 as [|[]]. Qed.

Section lists.
Context (R : Z -> Z -> Z -> list entry -> list Z -> Prop).

Lemma siblings_app K1 K2 hi es ns :
  siblings_rep R (K1 ++ K2) hi es ns <-> exists es1 es2 ns1 ns2, es = es1 ++ es2 /\ ns = ns1 ++ ns2 /\
    siblings_rep R K1 (next_key K2 hi) es1 ns1 /\ siblings_rep R K2 hi es2 ns2.
Proof using Type.
  revert es ns. induction K1 as [|[k c] K1 IH]; intros es ns; cbn [app siblings_rep].
  - split; [intros H; by exists [], es, [], ns|]. intros (es1 & es2 & ns1 & ns2 & -> & -> & [-> ->] & H). done.
  - rewrite next_key_app. split.
    + intros (e1 & e2 & n1 & n2 & -> & -> & Hk & Hc & H1 & (e3 & e4 & n3 & n4 & -> & -> & H3 & H4)%IH).
      exists (e1 ++ e3), e4, (n1 ++ n3), n4. rewrite !app_assoc. split_and!; try done.
      by exists e1, e3, n1, n3.
    + intros (es1 & es2 & ns1 & ns2 & -> & -> & (e1 & e2 & n1 & n2 & -> & -> & Hk & Hc & H1 & H2) & H3).
      exists e1, (e2 ++ es2), n1, (n2 ++ ns2). rewrite !app_assoc. split_and!; try done.
      apply IH. by exists e2, es2, n2, ns2.
Qed.

Lemma left_rep_siblings K hi es ns : siblings_rep R K hi es ns -> left_rep R K hi es ns.
Proof using Type.
  destruct K as [|[k c] K]; [done|]. cbn [siblings_rep left_rep].
  intros (e1 & e2 & n1 & n2 & -> & -> & Hk & Hc & H1 & H2). exists e1, e2, n1, n2. split_and!; try done. by right.
Qed.
Lemma siblings_left_rep K hi es ns :
  Forall (fun kc => snd kc <> 0) K -> left_rep R K hi es ns -> siblings_rep R K hi es ns.
Proof using Type.
  destruct K as [|[k c] K]; [done|]. cbn [siblings_rep left_rep].
  intros [Hc _]%Forall_cons (e1 & e2 & n1 & n2 & -> & -> & [(? & _)|(_ & Hk & H1)] & H2); [done|].
  by exists e1, e2, n1, n2.
Qed.

Lemma left_rep_app K1 K2 hi es1 es2 ns1 ns2 :
  left_rep R K1 (next_key K2 hi) es1 ns1 -> siblings_rep R K2 hi es2 ns2 ->
  left_rep R (K1 ++ K2) hi (es1 ++ es2) (ns1 ++ ns2).
Proof using Type.
  destruct K1 as [|[lo c0] K1]; cbn [app left_rep].
  - intros [-> ->] H. by apply left_rep_siblings.
  - intros (e1 & e2 & n1 & n2 & -> & -> & H1 & H2) H. exists e1, (e2 ++ es2), n1, (n2 ++ ns2).
    rewrite !app_assoc, next_key_app. split_and!; try done. apply siblings_app. by exists e2, es2, n2, ns2.
Qed.
Lemma left_rep_split K1 K2 hi es ns :
  K1 <> [] -> left_rep R (K1 ++ K2) hi es ns -> exists es1 es2 ns1 ns2, es = es1 ++ es2 /\ ns = ns1 ++ ns2 /\
    left_rep R K1 (next_key K2 hi) es1 ns1 /\ siblings_rep R K2 hi es2 ns2.
Proof using Type.
  destruct K1 as [|[lo c0] K1]; [done|]. intros _. cbn [app left_rep].
  intros (e1 & e2 & n1 & n2 & -> & -> & H1 & (e3 & e4 & n3 & n4 & -> & -> & H3 & H4)%siblings_app).
  exists (e1 ++ e3), e4, (n1 ++ n3), n4. rewrite !app_assoc. split_and!; try done. exists e1, e3, n1, n3.
  rewrite next_key_app in H1. by split_and!.
Qed.
Lemma left_rep_middle K1 k c K2 hi el nl es ns er nr :
  left_rep R K1 k el nl -> c <> 0 -> k < next_key K2 hi -> R c k (next_key K2 hi) es ns -> siblings_rep R K2 hi er nr ->
  left_rep R (K1 ++ (k, c) :: K2) hi (el ++ es ++ er) (nl ++ ns ++ nr).
Proof using Type.
  intros HL Hc Hk HR HS. apply left_rep_app; [done|]. cbn [siblings_rep]. by exists es, er, ns, nr.
Qed.

(** The child that a node of the list is below. *)
Lemma siblings_find K hi es ns p :
  siblings_rep R K hi es ns -> p ∈ ns -> exists K1 k c K2 el es' er nl ns1 nr,
    K = K1 ++ (k, c) :: K2 /\ ns = nl ++ ns1 ++ nr /\ c <> 0 /\ k < next_key K2 hi /\
    siblings_rep R K1 k el nl /\ siblings_rep R K2 hi er nr /\ R c k (next_key K2 hi) es' ns1 /\ p ∈ ns1.
Proof using Type.
  revert es ns. induction K as [|[k c] K IH]; intros es ns; cbn [siblings_rep].
  - intros [_ ->] []%not_elem_of_nil.
  - intros (e1 & e2 & n1 & n2 & -> & -> & Hk & Hc & H1 & H2) [Hp|Hp]%elem_of_app.
    + exists [], k, c, K, [], e1, e2, [], n1, n2. by split_and!.
    + destruct (IH _ _ H2 Hp) as (K1 & k' & c' & K2 & el & es' & er & nl & ns1 & nr & -> & -> & Hc' & Hk' & HL & HR & Hn & Hp').
      rewrite next_key_app in *. cbn [next_key] in *.
      exists ((k, c) :: K1), k', c', K2, (e1 ++ el), es', er, (n1 ++ nl), ns1, nr. rewrite <- !app_assoc.
      split_and!; try done. by exists e1, el, n1, nl.
Qed.
Lemma left_rep_find K hi es ns p :
  left_rep R K hi es ns -> p ∈ ns -> exists K1 k c K2 el es' er nl ns1 nr,
    K = K1 ++ (k, c) :: K2 /\ ns = nl ++ ns1 ++ nr /\ c <> 0 /\ k < next_key K2 hi /\
    left_rep R K1 k el nl /\ siblings_rep R K2 hi er nr /\ R c k (next_key K2 hi) es' ns1 /\ p ∈ ns1.
Proof using Type.
  destruct K as [|[k0 c0] K]; cbn [left_rep]; [by intros [_ ->] []%not_elem_of_nil|].
  intros (e1 & e2 & n1 & n2 & -> & -> & H1 & H2) [Hp|Hp]%elem_of_app.
  - destruct H1 as [(_ & _ & _ & -> & _)|(Hc & Hk & H1)]; [by apply not_elem_of_nil in Hp|].
    exists [], k0, c0, K, [], e1, e2, [], n1, n2. by split_and!.
  - destruct (siblings_find _ _ _ _ _ H2 Hp) as (K1 & k & c & K2 & el & es' & er & nl & ns1 & nr & -> & -> & Hc & Hk & HL & HR & Hn & Hp').
    rewrite next_key_app in H1. cbn [next_key] in H1.
    exists ((k0, c0) :: K1), k, c, K2, (e1 ++ el), es', er, (n1 ++ nl), ns1, nr. rewrite <- !app_assoc.
    split_and!; try done. exists e1, el, n1, nl. by split_and!.
Qed.
End lists.

(** * Depth *)
Lemma node_rep_depth d d' h par a lo hi es ns :
  (d <= d')%nat -> node_rep d h par a lo hi es ns -> node_rep d' h par a lo hi es ns.
Proof.
  revert d' par a lo hi es ns. induction d as [|d IH]; intros d' par a lo hi es ns Hd; [done|].
  destruct d' as [|d']; [lia|]. cbn [node_rep]. intros [H|(i & ns' & Hi & -> & Hok & Hc)]; [by left|right].
  exists i, ns'. split_and!; try done. eapply children_rep_mono; [|exact Hc].
  intros c lo' hi' es' ns'' _. apply IH. lia.
Qed.
Lemma left_rep_depth d d' h a K hi es ns :
  (d <= d')%nat -> left_rep (node_rep d h a) K hi es ns -> left_rep (node_rep d' h a) K hi es ns.
Proof. intros Hd. apply left_rep_mono. intros ????? _. by apply node_rep_depth. Qed.
Lemma siblings_rep_depth d d' h a K hi es ns :
  (d <= d')%nat -> siblings_rep (node_rep d h a) K hi es ns -> siblings_rep (node_rep d' h a) K hi es ns.
Proof. intros Hd. apply siblings_rep_mono. intros ????? _. by apply node_rep_depth. Qed.

(** * Ancestors *)
(** The node [a], for the slices in [lo, hi), has the parent [par] in the tree
    at [root]; its ancestors are [anc], bottom first.  Left and right of it are
    the entries [es1] and [es2], in the nodes [ns1] and [ns2]. *)
Inductive above (h : gmap Z node) (root : Z) :
    list Z -> Z -> Z -> Z -> Z -> list entry -> list entry -> list Z -> list Z -> Prop :=
  | above_root : above h root [] 0 root 0 (2 ^ ikey_bits) [] [] [] []
  | above_child anc d pp p plo phi es1 es2 ns1 ns2 i K1 k c K2 el er nl nr :
      above h root anc pp p plo phi es1 es2 ns1 ns2 ->
      h !! p = Some (NInternode i) -> internode_ok pp i ->
      kids plo i = K1 ++ (k, c) :: K2 -> c <> 0 -> k < next_key K2 phi ->
      left_rep (node_rep d h p) K1 k el nl -> siblings_rep (node_rep d h p) K2 phi er nr ->
      above h root (p :: anc) p c k (next_key K2 phi) (es1 ++ el) (er ++ es2) (ns1 ++ p :: nl) (nr ++ ns2).

(** The way down, read from below. *)
Lemma path_above h root b parb lob hib d par a lo hi es1 es2 ns1 ns2 anc E1 E2 N1 N2 :
  path h b parb lob hib d par a lo hi es1 es2 ns1 ns2 ->
  above h root anc par a lo hi E1 E2 N1 N2 ->
  exists anc', above h root anc' parb b lob hib (E1 ++ es1) (es2 ++ E2) (N1 ++ ns1) (ns2 ++ N2).
Proof.
  intros Hp. revert anc E1 E2 N1 N2.
  induction Hp as [|d par a lo hi i K1 k c K2 es1 es2 ns1 ns2 el er nl nr Hi Hok HK Hc Hk HL HR _ IH];
    intros anc E1 E2 N1 N2 Ha.
  - exists anc. by rewrite !app_nil_r.
  - assert (above h root (a :: anc) a c k (next_key K2 hi) (E1 ++ el) (er ++ E2) (N1 ++ a :: nl) (nr ++ N2)) as Ha'
      by (by econstructor).
    destruct (IH _ _ _ _ _ Ha') as [anc' H]. exists anc'. by rewrite <- !app_assoc in *.
Qed.

Lemma above_frame h h' root anc par a lo hi es1 es2 ns1 ns2 :
  agree h h' (ns1 ++ ns2) -> above h root anc par a lo hi es1 es2 ns1 ns2 ->
  above h' root anc par a lo hi es1 es2 ns1 ns2.
Proof.
  intros Hag Ha. revert Hag.
  induction Ha as [|anc d pp p plo phi es1 es2 ns1 ns2 i K1 k c K2 el er nl nr Ha IH Hi Hok HK Hc Hk HL HR];
    intros Hag; [constructor|].
  rewrite !agree_app, agree_cons in Hag. destruct Hag as ((Ha1 & Hp & Hl) & Hr & Ha2).
  econstructor; try done; [by apply IH, agree_app|by rewrite Hp| |].
  - eapply left_rep_mono; [|exact HL]. intros ????? Hs. apply node_rep_frame. intros x Hx. by apply Hl, Hs.
  - eapply siblings_rep_mono; [|exact HR]. intros ????? Hs. apply node_rep_frame. intros x Hx. by apply Hr, Hs.
Qed.

(** A node in its place makes the tree. *)
Lemma node_rep_kids d h par a lo hi i es ns :
  h !! a = Some (NInternode i) -> internode_ok par i -> left_rep (node_rep d h a) (kids lo i) hi es ns ->
  node_rep (S d) h par a lo hi es (a :: ns).
Proof. intros Hi Hok HK. right. by exists i, ns. Qed.

Lemma above_plug h root anc par a lo hi es1 es2 ns1 ns2 :
  above h root anc par a lo hi es1 es2 ns1 ns2 -> forall d es ns, node_rep d h par a lo hi es ns ->
  exists D, node_rep D h 0 root 0 (2 ^ ikey_bits) (es1 ++ es ++ es2) (ns1 ++ ns ++ ns2).
Proof.
  induction 1 as [|anc d0 pp p plo phi es1 es2 ns1 ns2 i K1 k c K2 el er nl nr Ha IH Hi Hok HK Hc Hk HL HR];
    intros d es ns Hn.
  - exists d. cbn [app]. by rewrite !app_nil_r.
  - set (D := max d d0). destruct (IH (S D) (el ++ es ++ er) (p :: nl ++ ns ++ nr)) as [D' HD].
    + apply (node_rep_kids _ _ _ _ _ _ i); [done..|]. rewrite HK.
      apply left_rep_middle; try done.
      * eapply left_rep_depth; [|exact HL]. lia.
      * eapply node_rep_depth; [|exact Hn]. lia.
      * eapply siblings_rep_depth; [|exact HR]. lia.
    + exists D'. by rewrite <- !app_assoc, <- ?app_comm_cons, <- ?app_assoc in *.
Qed.

(** Any node of the tree has its ancestors. *)
Lemma node_above h root d par a lo hi es ns anc E1 E2 N1 N2 p :
  node_rep d h par a lo hi es ns -> above h root anc par a lo hi E1 E2 N1 N2 -> p ∈ ns ->
  exists anc' par' lo' hi' E1' E2' N1' N2' n, above h root anc' par' p lo' hi' E1' E2' N1' N2' /\
    (forall x, x ∈ N1' ++ N2' -> x ∈ N1 ++ ns ++ N2) /\ h !! p = Some n /\ quiet (node_version n) /\ node_parent n = par'.
Proof.
  revert par a lo hi es ns anc E1 E2 N1 N2.
  induction d as [|d IH]; intros par a lo hi es ns anc E1 E2 N1 N2; cbn [node_rep]; [done|].
  intros [(l & Hl & -> & Hok)|(i & ns' & Hi & -> & Hok & Hc)] Ha Hp.
  - apply list_elem_of_singleton in Hp as ->. exists anc, par, lo, hi, E1, E2, N1, N2, (NLeaf l).
    split_and!; try done; [|apply Hok|apply Hok]. intros x. rewrite !elem_of_app. tauto.
  - apply elem_of_cons in Hp as [->|Hp].
    { exists anc, par, lo, hi, E1, E2, N1, N2, (NInternode i).
      split_and!; try done; [|apply Hok|apply Hok].
      intros x. rewrite !elem_of_app, elem_of_cons. tauto. }
    change (left_rep (node_rep d h a) (kids lo i) hi es ns') in Hc.
    destruct (left_rep_find _ _ _ _ _ p Hc Hp)
      as (K1 & k & c & K2 & el & es' & er & nl & ns1 & nr & HK & -> & Hc0 & Hk & HL & HR & Hn & Hp1).
    destruct (IH _ _ _ _ _ _ (a :: anc) (E1 ++ el) (er ++ E2) (N1 ++ a :: nl) (nr ++ N2) Hn)
      as (anc' & par' & lo' & hi' & E1' & E2' & N1' & N2' & n & H1 & H2 & H3); [by econstructor|done|].
    exists anc', par', lo', hi', E1', E2', N1', N2', n. split_and!; try done; try apply H3.
    intros x Hx. apply H2 in Hx. rewrite !elem_of_app, ?elem_of_cons, !elem_of_app in *. tauto.
Qed.

(** A pointer to the root of a tree, or to a child of it, is one to the layer;
    the latter when the node has no root bit left over from a split. *)
Lemma node_climbs h root d es ns p n :
  node_rep d h 0 root 0 (2 ^ ikey_bits) es ns -> (forall x, x ∈ ns -> x <> 0) -> p ∈ ns -> h !! p = Some n ->
  p = root \/ Nodeversion.is_root NV (node_version n) = false /\ node_parent n = root -> climbs h ns p root.
Proof.
  intros Hrep Hnz Hp Hn Hor. pose proof (node_addr _ _ _ _ _ _ _ _ Hrep) as Hroot.
  assert (exists nr, h !! root = Some nr /\ quiet (node_version nr) /\ Nodeversion.is_root NV (node_version nr) = true)
    as (nr & Hnr & Hqr & Hrr).
  { destruct d as [|d]; [done|]. cbn [node_rep] in Hrep.
    destruct Hrep as [(l & Hl & _ & Hok)|(i & ? & Hi & _ & Hok & _)]; eexists; (split; [done|]); (split; [apply Hok|]).
    - by apply (lo_root _ _ _ _ _ Hok).
    - by apply (io_root _ _ Hok). }
  destruct Hor as [->|[Hnroot Hpar]]; [by eapply climbs_root|].
  destruct (node_above _ root _ _ _ _ _ _ _ _ _ _ _ _ p Hrep (above_root h root) Hp)
    as (anc & par & lo & hi & E1 & E2 & N1 & N2 & n' & _ & _ & Hn' & Hq & _).
  rewrite Hn in Hn'. injection Hn' as <-. rewrite <- Hpar in *.
  apply (climbs_step _ _ p n nr); try done. by apply Hnz.
Qed.

(** * Nodes on their way to another parent *)
(** The node [a] is what [node_rep] says, but for its parent link. *)
Definition orphan (d : nat) (h : gmap Z node) (a lo hi : Z) (es : list entry) (ns : list Z) : Prop :=
  forall q, q <> 0 -> node_rep d (alter (fun n => node_set_parent n q) a h) q a lo hi es ns.

Lemma orphan_depth d d' h a lo hi es ns : (d <= d')%nat -> orphan d h a lo hi es ns -> orphan d' h a lo hi es ns.
Proof. intros Hd H q Hq. eapply node_rep_depth; [done|]. by apply H. Qed.
Lemma orphan_addr d h a lo hi es ns : orphan d h a lo hi es ns -> a ∈ ns.
Proof. intros H. eapply node_addr. by apply (H 1). Qed.
Lemma orphan_frame d h h' a lo hi es ns : agree h h' ns -> orphan d h a lo hi es ns -> orphan d h' a lo hi es ns.
Proof.
  intros Hag H q Hq. eapply node_rep_frame; [|by apply H]. intros b Hb. specialize (Hag b Hb).
  destruct (decide (b = a)) as [->|Hne]; [by rewrite !lookup_alter_eq, Hag|]. by rewrite !lookup_alter_ne by done.
Qed.

Lemma leaf_ok_parent par lo hi l es q : leaf_ok par lo hi l es -> q <> 0 -> leaf_ok q lo hi (Leaf.set_parent l q) es.
Proof.
  intros [(live & free & [[? ? ? ?] ? ? ? ?]) H2 H3 H4 H5 H6 H7 H8] Hq.
  split; try done. by exists live, free; split.
Qed.
Lemma internode_ok_parent par i q : internode_ok par i -> (q =? 0) = (par =? 0) -> internode_ok q (Internode.set_parent i q).
Proof. intros [H1 H2 H3 H4 H5 H6 H7] Hq. split; try done. cbn. by rewrite H6. Qed.

Lemma node_orphan d h par a lo hi es ns :
  node_rep d h par a lo hi es ns -> NoDup ns -> par <> 0 -> orphan d h a lo hi es ns.
Proof.
  intros Hn Hnd Hpar q Hq. destruct d as [|d]; [done|]. cbn [node_rep] in *.
  destruct Hn as [(l & Hl & -> & Hok)|(i & ns' & Hi & -> & Hok & Hc)].
  - left. exists (Leaf.set_parent l q). rewrite lookup_alter_eq, Hl. split_and!; [done|done|by eapply leaf_ok_parent].
  - right. exists (Internode.set_parent i q), ns'. rewrite lookup_alter_eq, Hi. split_and!; [done|done| |].
    + eapply internode_ok_parent; [done|]. by rewrite !(proj2 (Z.eqb_neq _ _)).
    + apply NoDup_cons in Hnd as [Ha _]. eapply children_rep_mono; [|exact Hc]. intros c lo' hi' es' ns'' Hs.
      apply node_rep_frame. intros b Hb. apply lookup_alter_ne. intros ->. by apply Ha, Hs.
Qed.

(** The parents of the nodes [cs] set to [q], seen from the nodes [ns]. *)
Definition adopts (q : Z) (cs ns : list Z) (h h' : gmap Z node) : Prop :=
  forall a, a ∈ ns -> h' !! a = if bool_decide (a ∈ cs) then (fun n => node_set_parent n q) <$> h !! a else h !! a.

Lemma siblings_addr d h K hi es ns : siblings_rep (orphan d h) K hi es ns -> forall c, c ∈ map snd K -> c ∈ ns.
Proof.
  revert es ns. induction K as [|[k c] K IH]; intros es ns; cbn [siblings_rep map snd]; [by intros _ c' ?%not_elem_of_nil|].
  intros (e1 & e2 & n1 & n2 & -> & -> & _ & _ & H1 & H2) c' [->|Hc']%elem_of_cons; apply elem_of_app.
  - left. by eapply orphan_addr.
  - right. by eapply IH.
Qed.

Lemma adopt_one d h h' q c lo hi es ns cs ns' :
  orphan d h c lo hi es ns -> q <> 0 -> c ∈ cs -> (forall b, b ∈ ns -> b <> c -> b ∉ cs) -> (forall b, b ∈ ns -> b ∈ ns') ->
  adopts q cs ns' h h' -> node_rep d h' q c lo hi es ns.
Proof.
  intros Ho Hq Hc Hns Hsub Had. eapply node_rep_frame; [|by apply (Ho q)]. intros b Hb. rewrite Had by by apply Hsub.
  destruct (decide (b = c)) as [->|Hne].
  - by rewrite bool_decide_eq_true_2, lookup_alter_eq.
  - rewrite bool_decide_eq_false_2, lookup_alter_ne by (done || by apply Hns). done.
Qed.

Lemma siblings_adopt d h h' q K hi es ns cs ns' :
  siblings_rep (orphan d h) K hi es ns -> NoDup ns -> q <> 0 -> (forall b, b ∈ ns -> b ∈ cs <-> b ∈ map snd K) ->
  (forall b, b ∈ ns -> b ∈ ns') -> adopts q cs ns' h h' -> siblings_rep (node_rep d h' q) K hi es ns.
Proof.
  intros HK Hnd Hq Hcs Hsub Had. revert es ns HK Hnd Hcs Hsub. induction K as [|[k c] K IH]; intros es ns; cbn [siblings_rep]; [done|].
  intros (e1 & e2 & n1 & n2 & -> & -> & Hk & Hc & H1 & H2) Hnd Hcs Hsub. apply NoDup_app in Hnd as (Hnd1 & Hd & Hnd2).
  pose proof (orphan_addr _ _ _ _ _ _ _ H1) as Hc1. pose proof (siblings_addr _ _ _ _ _ _ H2) as Hadr.
  exists e1, e2, n1, n2. split_and!; try done.
  - apply (adopt_one d h h' q c _ _ _ _ cs ns' H1 Hq); [| | |done].
    + apply Hcs; [by apply elem_of_app; left|]. cbn. by apply elem_of_cons; left.
    + intros b Hb Hne Hb'. apply Hcs in Hb'; [|by apply elem_of_app; left]. cbn in Hb'.
      apply elem_of_cons in Hb' as [?|Hb']; [done|]. by apply (Hd b Hb), Hadr.
    + intros b Hb. apply Hsub, elem_of_app. by left.
  - apply IH; try done.
    + intros b Hb. rewrite Hcs by (apply elem_of_app; by right). cbn. rewrite elem_of_cons. split; [|tauto].
      intros [->|?]; [|done]. by destruct (Hd c Hc1).
    + intros b Hb. apply Hsub, elem_of_app. by right.
Qed.
Lemma left_rep_adopt d h h' q K hi es ns cs ns' :
  left_rep (orphan d h) K hi es ns -> NoDup ns -> 0 ∉ ns -> q <> 0 -> (forall b, b ∈ ns -> b ∈ cs <-> b ∈ map snd K) ->
  (forall b, b ∈ ns -> b ∈ ns') -> adopts q cs ns' h h' -> left_rep (node_rep d h' q) K hi es ns.
Proof.
  destruct K as [|[lo c0] K]; cbn [left_rep]; [done|].
  intros (e1 & e2 & n1 & n2 & -> & -> & [(-> & -> & -> & -> & Hlo)|(Hc & Hk & H1)] & H2) Hnd H0 Hq Hcs Hsub Had.
  - exists [], e2, [], n2. split_and!; [done..|by left|]. eapply (siblings_adopt d h h' q K hi _ _ cs ns'); try done.
    intros b Hb. rewrite Hcs by done. cbn. rewrite elem_of_cons. split; [|tauto]. by intros [->|?].
  - eapply (siblings_adopt d h h' q ((lo, c0) :: K) hi _ _ cs ns') in Had; try done.
    + by apply left_rep_siblings in Had.
    + cbn [siblings_rep]. by exists e1, e2, n1, n2.
Qed.

Lemma siblings_orphan d h p K hi es ns :
  siblings_rep (node_rep d h p) K hi es ns -> NoDup ns -> p <> 0 -> siblings_rep (orphan d h) K hi es ns.
Proof.
  intros HK Hnd Hp. revert es ns HK Hnd. induction K as [|[k c] K IH]; intros es ns; cbn [siblings_rep]; [done|].
  intros (e1 & e2 & n1 & n2 & -> & -> & Hk & Hc & H1 & H2) (Hnd1 & _ & Hnd2)%NoDup_app.
  exists e1, e2, n1, n2. split_and!; try done; [by eapply node_orphan|by apply IH].
Qed.
Lemma left_rep_orphan d h p K hi es ns :
  left_rep (node_rep d h p) K hi es ns -> NoDup ns -> p <> 0 -> left_rep (orphan d h) K hi es ns.
Proof.
  destruct K as [|[lo c0] K]; cbn [left_rep]; [done|].
  intros (e1 & e2 & n1 & n2 & -> & -> & H1 & H2) (Hnd1 & _ & Hnd2)%NoDup_app Hp.
  exists e1, e2, n1, n2. split_and!; try done; [|by eapply siblings_orphan].
  destruct H1 as [H1|(Hc & Hk & H1)]; [by left|right]. split_and!; [done..|by eapply node_orphan].
Qed.

(** The children of [p] have it as their parent. *)
Lemma node_parent_of d h p a lo hi es ns : node_rep d h p a lo hi es ns -> exists n, h !! a = Some n /\ node_parent n = p.
Proof.
  destruct d as [|d]; [done|]. cbn [node_rep].
  intros [(l & Hl & _ & Hok)|(i & ? & Hi & _ & Hok & _)]; eexists; (split; [done|]); apply Hok.
Qed.
Lemma siblings_parent d h p K hi es ns c :
  siblings_rep (node_rep d h p) K hi es ns -> c ∈ map snd K -> exists n, h !! c = Some n /\ node_parent n = p.
Proof.
  revert es ns. induction K as [|[k c'] K IH]; intros es ns; cbn [siblings_rep map snd]; [by intros _ ?%not_elem_of_nil|].
  intros (e1 & e2 & n1 & n2 & _ & _ & _ & _ & H1 & H2) [->|Hc]%elem_of_cons; [by eapply node_parent_of|by eapply IH].
Qed.
Lemma left_rep_parent d h p K hi es ns c :
  left_rep (node_rep d h p) K hi es ns -> c ∈ map snd K -> c <> 0 -> exists n, h !! c = Some n /\ node_parent n = p.
Proof.
  destruct K as [|[lo c0] K]; cbn [left_rep map snd]; [by intros _ ?%not_elem_of_nil|].
  intros (e1 & e2 & n1 & n2 & _ & _ & H1 & H2) [->|Hc]%elem_of_cons Hne; [|by eapply siblings_parent].
  destruct H1 as [(? & _)|(_ & _ & H1)]; [done|by eapply node_parent_of].
Qed.
Lemma left_rep_in d h p K hi es ns c : left_rep (node_rep d h p) K hi es ns -> c ∈ map snd K -> c <> 0 -> c ∈ ns.
Proof.
  intros HK Hc Hne. destruct K as [|[lo c0] K]; cbn [left_rep map snd] in *; [by apply not_elem_of_nil in Hc|].
  destruct HK as (e1 & e2 & n1 & n2 & -> & -> & H1 & H2). apply elem_of_app.
  apply elem_of_cons in Hc as [->|Hc].
  - destruct H1 as [(? & _)|(_ & _ & H1)]; [done|]. left. by eapply node_addr.
  - right. clear H1. revert e2 n2 H2. induction K as [|[k c'] K IH]; intros e2 n2; cbn [siblings_rep map snd] in *; [by apply not_elem_of_nil in Hc|].
    intros (e3 & e4 & n3 & n4 & -> & -> & _ & _ & H3 & H4). apply elem_of_app.
    apply elem_of_cons in Hc as [->|Hc]; [left; by eapply node_addr|right; by eapply IH].
Qed.

(** An internode over a list of orphans. *)
Lemma adopt_node d h h' par a lo hi i cs es ns ns' :
  h' !! a = Some (NInternode i) -> internode_ok par i -> left_rep (orphan d h) (kids lo i) hi es ns -> NoDup (a :: ns) ->
  0 ∉ a :: ns -> (forall b, b ∈ ns -> b ∈ cs <-> b ∈ map snd (kids lo i)) -> (forall b, b ∈ ns -> b ∈ ns') ->
  adopts a cs ns' h h' -> node_rep (S d) h' par a lo hi es (a :: ns).
Proof.
  intros Ha Hok HK [Han Hnd]%NoDup_cons H0 Hcs Hsub Had. rewrite not_elem_of_cons in H0. destruct H0 as [Ha0 H0].
  apply (node_rep_kids _ _ _ _ _ _ i); [done..|]. by eapply (left_rep_adopt d h h' a _ _ _ _ cs ns').
Qed.
Lemma adopt_orphan d h h' a lo hi i cs es ns ns' :
  h' !! a = Some (NInternode i) -> (forall q, q <> 0 -> internode_ok q (Internode.set_parent i q)) ->
  left_rep (orphan d h) (kids lo i) hi es ns -> NoDup (a :: ns) ->
  0 ∉ a :: ns -> (forall b, b ∈ ns -> b ∈ cs <-> b ∈ map snd (kids lo i)) -> (forall b, b ∈ ns -> b ∈ ns') ->
  adopts a cs ns' h h' -> orphan (S d) h' a lo hi es (a :: ns).
Proof.
  intros Ha Hok HK Hnd H0 Hcs Hsub Had q Hq.
  eapply (adopt_node d h _ q a lo hi (Internode.set_parent i q) cs es ns ns); try done.
  - by rewrite lookup_alter_eq, Ha.
  - by apply Hok.
  - intros b Hb. rewrite lookup_alter_ne; [by apply Had, Hsub|]. apply NoDup_cons in Hnd as [Han _]. by intros ->.
Qed.

Lemma set_parent_self n : node_set_parent n (node_parent n) = n.
Proof. by destruct n as [[]|[]]. Qed.

(** The children of a list are different, and only the first may be gone. *)
Lemma siblings_children d h K hi es ns :
  siblings_rep (orphan d h) K hi es ns -> NoDup ns -> NoDup (map snd K) /\ Forall (fun c => c <> 0) (map snd K).
Proof.
  revert es ns. induction K as [|[k c] K IH]; intros es ns; cbn [siblings_rep map snd]; [by repeat constructor|].
  intros (e1 & e2 & n1 & n2 & -> & -> & _ & Hc & H1 & H2) (_ & Hd & Hnd)%NoDup_app.
  destruct (IH _ _ H2 Hnd) as [H3 H4]. split; constructor; try done.
  intros Hin. eapply Hd; [by eapply orphan_addr|]. by eapply siblings_addr.
Qed.
Lemma left_rep_children d h k0 c0 K hi es ns :
  left_rep (orphan d h) ((k0, c0) :: K) hi es ns -> NoDup ns ->
  NoDup (map snd ((k0, c0) :: K)) /\ Forall (fun c => c <> 0) (map snd K) /\
  (forall c, c ∈ map snd ((k0, c0) :: K) -> c <> 0 -> c ∈ ns) /\ k0 <= next_key K hi /\ keys_sorted K /\
  Forall (fun kc => fst kc < hi) K.
Proof.
  cbn [left_rep map snd]. intros (e1 & e2 & n1 & n2 & -> & -> & H1 & H2) (_ & Hd & Hnd)%NoDup_app.
  destruct (siblings_children _ _ _ _ _ _ H2 Hnd) as [H3 H4]. destruct (siblings_sorted _ _ _ _ _ H2) as [H5 H6].
  split_and!; try done.
  - constructor; [|done]. intros Hin. pose proof (proj1 (Forall_forall _ _) H4 _ Hin).
    destruct H1 as [(? & _)|(_ & _ & H1)]; [done|]. eapply Hd; [by eapply orphan_addr|]. by eapply siblings_addr.
  - intros c [->|Hc]%elem_of_cons Hne; apply elem_of_app.
    + destruct H1 as [(? & _)|(_ & _ & H1)]; [done|]. left. by eapply orphan_addr.
    + right. by eapply siblings_addr.
  - destruct H1 as [(_ & -> & _)|(_ & ? & _)]; lia.
Qed.

(** * A child gets a right sibling *)
Section family.
Context (h : gmap Z node) (p : Z) (phi : Z) (K1 K2 : list (Z * Z)) (lo n x child : Z) (d0 dn dc : nat)
  (el esn esc er : list entry) (nl nsn nsc nr : list Z).
Abbreviation hi := (next_key K2 phi).
Context (HL : left_rep (node_rep d0 h p) K1 lo el nl) (HR : siblings_rep (node_rep d0 h p) K2 phi er nr)
  (Hn : orphan dn h n lo x esn nsn) (Hc : orphan dc h child x hi esc nsc) (Hx : lo < x < hi)
  (Hnd : NoDup (nl ++ (nsn ++ nsc) ++ nr)) (H0 : 0 ∉ nl ++ (nsn ++ nsc) ++ nr) (Hp : p <> 0).

Definition family : list (Z * Z) := K1 ++ (lo, n) :: (x, child) :: K2.

Lemma family_nonzero : n <> 0 /\ child <> 0.
Proof using Hn Hc Hx H0.
  pose proof (orphan_addr _ _ _ _ _ _ _ Hn). pose proof (orphan_addr _ _ _ _ _ _ _ Hc).
  split; intros ->; apply H0; rewrite !elem_of_app; tauto.
Qed.

Lemma family_rep : exists d, left_rep (orphan d h) family phi (el ++ (esn ++ esc) ++ er) (nl ++ (nsn ++ nsc) ++ nr).
Proof using HL HR Hn Hc Hx Hnd H0 Hp.
  destruct family_nonzero as [Hn0 Hc0]. apply NoDup_app in Hnd as (Hnd1 & _ & (_ & _ & Hnd2)%NoDup_app).
  set (d := max d0 (max dn dc)). exists d. unfold family.
  apply left_rep_app.
  - apply (left_rep_mono (orphan d0 h)); [intros ????? _; apply orphan_depth; lia|]. by eapply left_rep_orphan.
  - cbn [siblings_rep next_key]. exists esn, (esc ++ er), nsn, (nsc ++ nr). rewrite <- !app_assoc. split_and!; try done; [lia|..].
    + eapply orphan_depth; [|exact Hn]. lia.
    + exists esc, er, nsc, nr. split_and!; try done; [lia|..].
      * eapply orphan_depth; [|exact Hc]. lia.
      * apply (siblings_rep_mono (orphan d0 h)); [intros ????? _; apply orphan_depth; lia|]. by eapply siblings_orphan.
Qed.

(** The children other than the two have their parent already. *)
Lemma family_parent c : c ∈ map snd (K1 ++ K2) -> c <> 0 -> exists nd, h !! c = Some nd /\ node_parent nd = p.
Proof using HL HR.
  rewrite map_app, elem_of_app. intros [Hc'|Hc'] Hne; [by eapply left_rep_parent|by eapply siblings_parent].
Qed.
End family.
