(* ===== verification/LinkChild.v ===== *)
(** [link_child] of [Insert], the step of [make_split] that puts a new right
    sibling into the tree: what it does to the heap when the pair gets a new
    root, goes between its parent and a node that is too high, finds room in the
    parent, or splits it. *)
From Stdlib Require Import Sorted.
From S2P Require Import Prelude Compiler Memory StringSlice Key Ksearch Kpermuter Nodeversion.
From S2P Require Import Stringbag Node Heap Get Insert Remove Tree Find Steps InternodeSpec LeafSpec Locate Put NewLayer Ancestors.

(** * Locked versions *)
Lemma mark_nonroot_busy v :
  busy v -> let v' := Nodeversion.mark_nonroot NV v in
  busy v' /\ Nodeversion.isleaf NV v' = Nodeversion.isleaf NV v /\ Nodeversion.is_root NV v' = false.
Proof.
  intros (Hwf & Hl & Hd). cbv zeta.
  assert (forall n, 0 <= n < 32 -> Z.testbit (Nodeversion.mark_nonroot NV v) n = Z.testbit v n && negb (n =? 30)) as Ht
    by (intros n Hn; by apply (nonroot_testbit NV 0 9)).
  assert (Nodeversion.deleted NV (Nodeversion.mark_nonroot NV v) = false) as Hd'.
  { rewrite (deleted_testbit NV 0 9) in *. change (nv_bits NV - 3) with 29 in *. rewrite Ht by lia. by rewrite Hd. }
  split_and!.
  - split_and!; [|rewrite (locked_bit NV 0 9) in *; by rewrite Ht, Hl by lia|done].
    eapply (step_wf NV 0 9); [exact Hwf|]. by apply step_mark_nonroot.
  - rewrite !(isleaf_testbit NV 0 9). change (nv_bits NV - 1) with 31. by rewrite Ht, andb_true_r by lia.
  - rewrite (is_root_testbit NV 0 9). change (nv_bits NV - 2) with 30. by rewrite Ht, andb_false_r by lia.
Qed.
(** A version as the code leaves it for the next unlock. *)
Lemma busy_settled v :
  busy v -> quiet (Nodeversion.unlock NV v) /\
  Nodeversion.isleaf NV (Nodeversion.unlock NV v) = Nodeversion.isleaf NV v /\
  (Nodeversion.is_root NV v = false \/ Nodeversion.splitting NV v = true ->
   Nodeversion.is_root NV (Nodeversion.unlock NV v) = false).
Proof.
  intros (Hq & Hl & Hr)%unlock_quiet. split_and!; [done..|]. rewrite Hr. intros [->| ->]; [done|by rewrite andb_false_r].
Qed.

(** * Runs *)
Ltac heap_eq := apply map_eq; let a := fresh "a" in intros a; rewrite ?lookup_insert;
  repeat case_decide; done || congruence.
(** The parents of the nodes [cs] set to [q]. *)
Definition reparent (cs : list Z) (q : Z) (h : gmap Z node) : gmap Z node :=
  map_imap (fun a n => Some (if bool_decide (a ∈ cs) then node_set_parent n q else n)) h.
Lemma reparent_lookup cs q h a :
  reparent cs q h !! a = if bool_decide (a ∈ cs) then (fun n => node_set_parent n q) <$> h !! a else h !! a.
Proof. unfold reparent. rewrite map_lookup_imap. destruct (h !! a); by case_bool_decide. Qed.
Lemma reparent_cons c cs q h n :
  h !! c = Some n -> reparent cs q (<[c := node_set_parent n q]> h) = reparent (c :: cs) q h.
Proof.
  intros Hc. apply map_eq. intros a. rewrite !reparent_lookup, !bool_decide_decide.
  destruct (decide (a = c)) as [->|Hne].
  - rewrite lookup_insert_eq, Hc. destruct (decide (c ∈ c :: cs)) as [_|Hn]; [|by destruct Hn; apply elem_of_cons; left].
    destruct (decide (c ∈ cs)); [|done]. cbn. by destruct n.
  - rewrite lookup_insert_ne by done. destruct (decide (a ∈ cs)) as [H1|H1], (decide (a ∈ c :: cs)) as [H2|H2]; try done;
      rewrite elem_of_cons in H2; tauto.
Qed.

Lemma for_each_parent cs q s :
  (forall c, c ∈ cs -> is_Some (heap s !! c)) ->
  for_each cs (fun c => set_parent c q) s = Some (tt, with_heap s (reparent cs q (heap s))).
Proof.
  revert s. induction cs as [|c cs IH]; intros s Hcs; cbn [for_each].
  - unfold ret. f_equal. f_equal. destruct s as [h f li cb tr km]. unfold with_heap. cbn. f_equal.
    apply map_eq. intros a. by rewrite reparent_lookup.
  - destruct (Hcs c) as [n Hn]; [by apply elem_of_cons; left|].
    rewrite (bind_eq _ _ _ _ _ (set_parent_eq _ _ _ _ Hn)), IH.
    + cbn. by rewrite (reparent_cons _ _ _ _ n).
    + intros c' Hc'. cbn. destruct (decide (c' = c)) as [->|Hne]; [by rewrite lookup_insert_eq|].
      rewrite lookup_insert_ne by done. apply Hcs, elem_of_cons. by right.
Qed.

(** The parent as [link_child] has it: locked, and marked for an insertion. *)
Definition claimed (i : internode) : internode :=
  Internode.set_version i (Nodeversion.mark_insert NV (lockv (iversion i))).

Lemma claimed_busy par i : internode_ok par i ->
  busy (iversion (claimed i)) /\ same_flags (iversion i) (iversion (claimed i)) /\
  Nodeversion.splitting NV (iversion (claimed i)) = false.
Proof.
  intros Hok. destruct (lock_busy _ (io_quiet _ _ Hok)) as (Hb & Hf & Hs & _).
  destruct (mark_insert_busy _ Hb) as (Hb' & Hf' & Hs'). cbn. split_and!; [done| |by unfold lockv; rewrite Hs'].
  destruct Hf, Hf'. unfold same_flags, lockv. split; congruence.
Qed.

Lemma parent_eq s a n : heap s !! a = Some n -> parent a s = Some (node_parent n, s).
Proof. intros H. unfold parent. by rewrite (bind_eq _ _ _ _ _ (get_node_eq _ _ _ H)). Qed.

Lemma locked_parent_root fuel s n nd :
  heap s !! n = Some nd -> busy (node_version nd) -> node_parent nd = 0 -> locked_parent (S fuel) n s = Some (0, s).
Proof.
  intros Hn (_ & Hl & _) Hp. cbn [locked_parent].
  rewrite (bind_eq _ _ _ _ _ (version_eq _ _ _ Hn)), bind_require by done.
  rewrite (bind_eq _ _ _ _ _ (parent_eq _ _ _ Hn)), Hp. done.
Qed.
Lemma locked_parent_some fuel s n nd p i pp :
  heap s !! n = Some nd -> Nodeversion.locked NV (node_version nd) = true -> node_parent nd = p -> p <> 0 -> n <> p ->
  heap s !! p = Some (NInternode i) -> internode_ok pp i ->
  locked_parent (S fuel) n s =
    Some (p, with_heap s (<[p := NInternode (Internode.set_version i (lockv (iversion i)))]> (heap s))).
Proof.
  intros Hn Hl Hp Hp0 Hne Hi Hok. cbn [locked_parent].
  rewrite (bind_eq _ _ _ _ _ (version_eq _ _ _ Hn)), bind_require by done.
  rewrite (bind_eq _ _ _ _ _ (parent_eq _ _ _ Hn)), Hp. unfold parent_exists.
  rewrite (proj2 (Z.eqb_neq _ _) Hp0). cbn [negb].
  rewrite (bind_eq _ _ _ _ _ (version_eq _ _ _ Hi)).
  rewrite (bind_eq _ _ _ _ _ (lock_eq _ _ _ Hi (io_quiet _ _ Hok))). cbn [node_version node_set_version].
  erewrite bind_eq by (apply (parent_eq _ _ nd); cbn; by rewrite lookup_insert_ne by done).
  rewrite Hp, Z.eqb_refl. destruct (lock_busy _ (io_quiet _ _ Hok)) as (_ & [Hf _] & _).
  unfold lockv. rewrite bind_require; [done|]. by rewrite Hf, (io_isleaf _ _ Hok).
Qed.

(** Where the slice of a child's right sibling belongs. *)
Lemma kids_sorted R plo i hi es ns :
  left_rep R (kids plo i) hi es ns -> keys_sorted (separators i).
Proof. cbn [kids left_rep]. intros (e1 & e2 & n1 & n2 & _ & _ & _ & H). by eapply siblings_sorted. Qed.
Lemma kids_count pp plo i K1 lo n K2 phi x :
  internode_ok pp i -> keys_sorted (separators i) -> kids plo i = K1 ++ (lo, n) :: K2 -> lo <= x < next_key K2 phi ->
  Internode.upper_ikey x i = zlength K1 /\ zlength K1 <= nkeys_ i.
Proof.
  intros Hok Hs HK Hx. unfold Internode.upper_ikey. rewrite (upper_count pp i Hok x) by done.
  assert (count_le (separators i) x = zlength K1) as ->.
  { pose proof (zlength_nonneg K1). revert Hs HK. unfold kids. generalize (separators i) as S. intros S Hs HK.
    destruct K1 as [|kc K1]; cbn [app] in HK.
    - injection HK as _ _ ->. destruct K2 as [|[k c] K2]; [done|]. cbn in *. destruct (Z.leb_spec k x); [lia|done].
    - injection HK as _ ->. rewrite zlength_cons. clear H.
      induction K1 as [|[k c] K1 IH]; cbn [app count_le keys_sorted] in *.
      + destruct (Z.leb_spec lo x); [|lia]. destruct K2 as [|[k c] K2]; [done|]. cbn in *. destruct (Z.leb_spec k x); [lia|done].
      + destruct Hs as [Hf Hs]. rewrite Forall_app, Forall_cons in Hf. destruct Hf as (_ & Hf & _). cbn in Hf.
        destruct (Z.leb_spec k x); [|lia]. rewrite IH, zlength_cons by done. lia. }
  split; [done|]. pose proof (f_equal zlength HK) as Hl. unfold kids in Hl.
  rewrite zlength_cons, zlength_app, zlength_cons, (zlength_separators _ _ Hok) in Hl. pose proof (zlength_nonneg K2). lia.
Qed.

(** ** What a split of an internode keeps *)
Ltac open_option H :=
  match type of H with
  | mbind _ ?o = Some _ => let E := fresh "E" in destruct o eqn:E; cbn [mbind option_bind] in H; [|done]
  end.
Lemma same_header_refl n : same_header n n.
Proof. done. Qed.
Lemma same_header_trans n r q : same_header n r -> same_header r q -> same_header n q.
Proof. intros (H1 & H2 & H3) (H4 & H5 & H6). unfold same_header. split_and!; congruence. Qed.
Lemma shift_from_header n p x xp k r : Internode.shift_from n p x xp k = Some r -> same_header n r.
Proof.
  unfold Internode.shift_from. destruct (k =? 0); intros H; [by injection H as <-|].
  do 2 open_option H. by injection H as <-.
Qed.
Lemma assign_header n p ka v r : Internode.assign n p ka v = Some r -> same_header n r.
Proof. unfold Internode.assign. intros H. do 2 open_option H. by injection H as <-. Qed.
Lemma insert_child_header n p ka v r : insert_child n p ka v = Some r -> same_header n r.
Proof.
  unfold insert_child, Internode.shift_up. intros H. open_option H. do 2 open_option E. injection E as <-.
  open_option H. injection H as <-. by apply assign_header in E.
Qed.
Lemma split_into_header n nr p ka v st n' nr' sk kp :
  Internode.split_into n nr p ka v st = Some (n', nr', sk, kp) ->
  same_header nr nr' /\ n' = Internode.set_nkeys (Internode.set_version n (Nodeversion.mark_split NV (iversion n))) (nkeys_ n').
Proof.
  unfold Internode.split_into. set (mid := if st =? 2 then _ else _). cbn zeta. intros H.
  open_option H. destruct p0 as [nr1 sk1].
  assert (same_header nr nr1) as Hh.
  { destruct (p <? mid); [|destruct (p =? mid)].
    - do 2 open_option E. injection E as <- _. by apply shift_from_header in E1.
    - do 2 open_option E. injection E as <- _. by apply shift_from_header in E1.
    - do 4 open_option E. injection E as <- _.
      apply shift_from_header in E1, E3. apply assign_header in E2.
      eapply same_header_trans; [exact E1|]. by eapply same_header_trans. }
  by destruct (p <? mid); injection H as <- <- <- <-.
Qed.

Lemma zlookup_in {A} (l : list A) i x : zlookup l i = Some x -> x ∈ l.
Proof. intros H. pose proof (zlookup_lt _ _ _ H). rewrite zlookup_nonneg in H by lia. by eapply list_elem_of_lookup_2. Qed.
(** Where the new child is after the split. *)
Lemma insert_at_cut kp (v : Z) C A B :
  0 <= kp < zlength C -> NoDup C -> v ∉ C -> insert_at (kp + 1) v C = A ++ B -> A <> [] ->
  NoDup (A ++ B) /\ (forall c, c ∈ B -> c = v \/ c ∈ drop 1 C) /\ (v ∈ B <-> zlength A <= kp + 1).
Proof.
  intros Hk Hnd Hv HAB HA.
  assert (A ++ B ≡ₚ v :: C) as Hperm.
  { rewrite <- HAB. unfold insert_at. rewrite <- Permutation_middle. by rewrite take_drop. }
  assert (NoDup (A ++ B)) as HndAB by (rewrite Hperm; by constructor).
  assert (zlookup (A ++ B) (kp + 1) = Some v) as Hlk.
  { rewrite <- HAB, zlookup_insert_at by lia. destruct (Z.ltb_spec (kp + 1) (kp + 1)); [lia|]. by rewrite Z.eqb_refl. }
  pose proof (zlength_nonneg A). split_and!; [done| |].
  - destruct A as [|a A]; [done|]. destruct C as [|c0 C]; [unfold zlength in Hk; cbn in Hk; lia|].
    assert (a = c0) as ->.
    { unfold insert_at in HAB. replace (Z.to_nat (kp + 1)) with (S (Z.to_nat kp)) in HAB by lia. cbn in HAB. by injection HAB. }
    intros c Hc. cbn [drop]. cbn [app] in Hperm. rewrite (perm_swap c0 v C) in Hperm. apply (inj (cons c0)) in Hperm.
    assert (c ∈ v :: C) as Hin by (rewrite <- Hperm; apply elem_of_app; by right). by apply elem_of_cons in Hin.
  - split.
    + intros Hb. destruct (Z.le_gt_cases (zlength A) (kp + 1)) as [|Hgt]; [done|]. exfalso.
      rewrite zlookup_app_l in Hlk by lia. apply NoDup_app in HndAB as (_ & Hd & _).
      by apply (Hd v); [by eapply zlookup_in|].
    + intros Hle. rewrite zlookup_app_r in Hlk by lia. by eapply zlookup_in.
Qed.

(** ** A new root *)
(** An internode of [make_split] over the two siblings. *)
Definition pair_node (v height par n child x : Z) : internode :=
  mkInternode v 1 (height + 1) (x :: repeat 0 14) (n :: child :: repeat 0 14) par.

Lemma pair_node_run s n child x height a0 cd :
  a0 <> child -> heap s !! child = Some cd -> heap s !! a0 = Some (NInternode (Internode.make (height + 1))) ->
  forall B (k : M B),
  bind (try_update_internode a0 (fun i => c ← wr (child_ i) 0 n; Some (Internode.set_child i c))) (fun _ =>
    bind (internode_assign a0 0 x child) (fun _ =>
      bind (update_internode a0 (fun i => Internode.set_nkeys i 1)) (fun _ => k))) s =
  k (with_heap s (<[a0 := NInternode (pair_node (Nodeversion.make NV false) height 0 n child x)]>
    (<[child := node_set_parent cd a0]> (heap s)))).
Proof.
  intros Hne Hc Ha B k. erewrite bind_eq by (by eapply try_update_internode_eq; [exact Ha|vm_compute]).
  unfold internode_assign. rewrite bind_assoc.
  erewrite bind_eq by (apply (set_parent_eq _ _ _ cd); cbn; by rewrite lookup_insert_ne).
  erewrite bind_eq by (eapply try_update_internode_eq; [cbn; rewrite lookup_insert_ne by done; by apply lookup_insert_eq|by vm_compute]).
  erewrite bind_eq by (eapply update_internode_eq; cbn; by apply lookup_insert_eq).
  f_equal. unfold with_heap. cbn. f_equal. rewrite !insert_insert_eq, (insert_insert_ne _ child a0) by done.
  by rewrite insert_insert_eq.
Qed.

Lemma link_root fuel s n child x height st nd cd :
  heap s !! n = Some nd -> busy (node_version nd) -> node_parent nd = 0 -> heap s !! child = Some cd -> n <> child ->
  n <> next_fresh s -> child <> next_fresh s ->
  let nn := next_fresh s in
  link_child (S fuel) n child x height st s = Some ((0, None), at_heap s
    (<[n := node_set_parent nd nn]> (<[nn := NInternode
      (pair_node (Nodeversion.mark_root NV (Nodeversion.make NV false)) height 0 n child x)]>
      (<[child := node_set_parent cd nn]> (heap s)))) (nn + 64)).
Proof.
  intros Hn Hb Hp Hc Hne Hnf Hcf nn. unfold link_child.
  rewrite (bind_eq _ _ _ _ _ (locked_parent_root _ _ _ _ Hn Hb Hp)). cbn [parent_exists negb Z.eqb].
  rewrite bind_ret. cbn [Z.ltb Z.compare]. rewrite bind_ret, (bind_eq _ _ _ _ _ (allocate_eq _ _)). fold nn.
  rewrite (pair_node_run _ n child x height nn cd); [|done|cbn; by rewrite lookup_insert_ne|apply lookup_insert_eq].
  rewrite with_at_heap. cbn [heap at_heap].
  unfold make_layer_root. rewrite bind_assoc.
  erewrite bind_eq by (apply set_parent_eq; cbn; by apply lookup_insert_eq).
  unfold mark_root, update_version.
  erewrite bind_eq; [|erewrite bind_eq by (apply version_eq; cbn; by apply lookup_insert_eq);
    apply set_version_eq; cbn; by apply lookup_insert_eq].
  erewrite bind_eq by (apply (set_parent_eq _ _ _ nd); cbn; by rewrite !lookup_insert_ne).
  unfold ret. merge_heap. do 2 f_equal. unfold at_heap, with_heap. cbn. f_equal.
  rewrite (insert_insert_ne _ child nn), insert_insert_eq by done. done.
Qed.

(** ** A parent *)
Section linked.
Context (s : state) (n child x height st : Z) (nd cd : node) (p : Z) (i : internode) (pp kp : Z).
Context (Hn : heap s !! n = Some nd) (Hb : busy (node_version nd)) (Hp : node_parent nd = p) (Hp0 : p <> 0)
  (Hc : heap s !! child = Some cd) (Hi : heap s !! p = Some (NInternode i)) (Hok : internode_ok pp i)
  (Hnc : n <> child) (Hnp : n <> p) (Hcp : child <> p) (Hnf : n <> next_fresh s) (Hcf : child <> next_fresh s)
  (Hpf : p <> next_fresh s) (Hkp : Internode.upper_ikey x i = kp) (Hkr : 0 <= kp <= nkeys_ i).
Abbreviation nn := (next_fresh s).
Abbreviation s1 := (with_heap s (<[p := NInternode (claimed i)]> (heap s))).

(** The parent is locked and searched. *)
Lemma link_parent_run fuel A (k : Z -> Z -> M A) :
  bind (locked_parent (S fuel) n) (fun p => bind (if parent_exists p then
      bind (get_internode p) (fun pi => bind (mark_insert p) (fun _ => ret (Internode.upper_ikey x pi)))
    else ret (-1)) (k p)) s = k p kp s1.
Proof using Hn Hb Hp Hp0 Hi Hok Hnp Hkp.
  rewrite (bind_eq _ _ _ _ _ (locked_parent_some _ _ _ _ _ _ _ Hn (proj1 (proj2 Hb)) Hp Hp0 Hnp Hi Hok)).
  unfold parent_exists. rewrite (proj2 (Z.eqb_neq _ _) Hp0). cbn [negb]. rewrite bind_assoc.
  erewrite bind_eq by (apply get_internode_eq; cbn; by apply lookup_insert_eq).
  rewrite bind_assoc. erewrite bind_eq; [|apply mark_locked_eq; [cbn; by apply lookup_insert_eq|]].
  - rewrite bind_ret. change (Internode.upper_ikey x (Internode.set_version i (lockv (iversion i)))) with (Internode.upper_ikey x i).
    rewrite Hkp. f_equal. unfold with_heap. cbn. by rewrite insert_insert_eq.
  - by destruct (lock_busy _ (io_quiet _ _ Hok)).
Qed.

Lemma s1_parent : heap s1 !! p = Some (NInternode (claimed i)).
Proof using Type. apply lookup_insert_eq. Qed.

(** The parent is higher than it need be: the pair goes between. *)
Lemma link_tall :
  height + 1 < height_ i -> exists c', wr (child_ i) kp nn = Some c' /\ forall fuel,
  link_child (S fuel) n child x height st s = Some ((p, None), at_heap s
    (<[n := node_set_parent nd nn]> (<[p := NInternode (Internode.set_child (claimed i) c')]>
      (<[nn := NInternode (pair_node (Nodeversion.make NV false) height p n child x)]>
        (<[child := node_set_parent cd nn]> (heap s))))) (nn + 64)).
Proof using Hn Hb Hp Hp0 Hc Hi Hok Hnc Hnp Hcp Hnf Hcf Hpf Hkp Hkr.
  intros Hh. destruct (io_nkeys _ _ Hok) as [_ Hw]. pose proof (io_child _ _ Hok) as Hlc.
  destruct (wr_spec (child_ i) kp nn) as (c' & Hc' & _); [lia|]. exists c'. split; [done|].
  intros fuel. unfold link_child. rewrite link_parent_run. destruct (Z.ltb_spec kp 0); [lia|]. rewrite bind_assoc.
  rewrite (bind_eq _ _ _ _ _ (get_internode_eq _ _ _ s1_parent)), bind_ret. cbn [height_ claimed Internode.set_version].
  destruct (Z.ltb_spec (height + 1) (height_ i)); [|lia].
  rewrite (bind_eq _ _ _ _ _ (allocate_eq _ _)). cbn [next_fresh with_heap heap].
  rewrite (pair_node_run _ n child x height nn cd); [|done|cbn; by rewrite !lookup_insert_ne|apply lookup_insert_eq].
  destruct (Z.ltb_spec kp 0); [lia|]. rewrite bind_assoc.
  erewrite bind_eq by (apply set_parent_eq; cbn; by apply lookup_insert_eq).
  erewrite bind_eq by (eapply try_update_internode_eq; [cbn; rewrite !lookup_insert_ne by done; by apply lookup_insert_eq|
    cbn [child_ claimed Internode.set_version]; by rewrite Hc']).
  erewrite bind_eq by (apply (set_parent_eq _ _ _ nd); cbn; by rewrite !lookup_insert_ne).
  unfold ret. do 2 f_equal. unfold at_heap, with_heap. cbn. f_equal.
  heap_eq.
Qed.

(** The child put into an internode with room. *)
Lemma insert_child_run s' j r (q : Z) :
  heap s' !! p = Some (NInternode j) -> insert_child j q x child = Some r -> heap s' !! child = Some cd ->
  (let! _ := get_internode p in
   try_update_internode p (fun i => Internode.shift_up i (q + 1) q (Internode.size i - q)) ;!
   internode_assign p q x child ;!
   update_internode p (fun i => Internode.set_nkeys i (uwrap 8 (nkeys_ i + 1)))) s' =
  Some (tt, with_heap s' (<[p := NInternode r]> (<[child := node_set_parent cd p]> (heap s')))).
Proof using Hcp.
  intros Hj Hr Hcd. unfold insert_child in Hr.
  destruct (Internode.shift_up j (q + 1) q (Internode.size j - q)) as [j1|] eqn:H1; [|done]. cbn [mbind option_bind] in Hr.
  destruct (Internode.assign j1 q x child) as [j2|] eqn:H2; [|done]. cbn [mbind option_bind] in Hr. injection Hr as <-.
  rewrite (bind_eq _ _ _ _ _ (get_internode_eq _ _ _ Hj)).
  rewrite (bind_eq _ _ _ _ _ (try_update_internode_eq _ _ _ _ _ Hj H1)). unfold internode_assign. rewrite bind_assoc.
  erewrite bind_eq by (apply (set_parent_eq _ _ _ cd); cbn; by rewrite lookup_insert_ne).
  erewrite bind_eq by (eapply try_update_internode_eq; [cbn; rewrite lookup_insert_ne by done; by apply lookup_insert_eq|exact H2]).
  erewrite update_internode_eq by (cbn; by apply lookup_insert_eq).
  unfold with_heap. cbn. do 3 f_equal. heap_eq.
Qed.

Lemma claimed_shape : shape (claimed i).
Proof using Hok. destruct Hok. by split. Qed.

Lemma link_room :
  height_ i <= height + 1 -> nkeys_ i < internode_width -> exists r, insert_child (claimed i) kp x child = Some r /\ forall fuel,
  link_child (S fuel) n child x height st s = Some ((p, None), with_heap s
    (<[p := NInternode r]> (<[child := node_set_parent cd p]> (heap s)))).
Proof using Hn Hb Hp Hp0 Hc Hi Hok Hnp Hcp Hkp Hkr.
  intros Hh Hw. destruct (insert_child_spec (claimed i) kp x child claimed_shape Hkr Hw) as (r & Hr & _).
  exists r. split; [done|]. intros fuel.
  unfold link_child. rewrite link_parent_run. destruct (Z.ltb_spec kp 0); [lia|]. rewrite bind_assoc.
  rewrite (bind_eq _ _ _ _ _ (get_internode_eq _ _ _ s1_parent)), bind_ret. cbn [height_ claimed Internode.set_version].
  destruct (Z.ltb_spec (height + 1) (height_ i)); [lia|].
  rewrite (bind_eq _ _ _ _ _ (get_internode_eq _ _ _ s1_parent)), bind_ret.
  cbn [Internode.size nkeys_ claimed Internode.set_version]. destruct (Z.leb_spec internode_width (nkeys_ i)); [lia|].
  rewrite bind_ret. destruct (Z.leb_spec 0 kp); [|lia].
  erewrite bind_eq; [|apply (insert_child_run s1 (claimed i) r kp s1_parent Hr); cbn; by rewrite lookup_insert_ne].
  unfold ret. do 2 f_equal. unfold with_heap. cbn. f_equal. heap_eq.
Qed.

(** The parent is full: it splits, too. *)
Lemma split_run s' j ir nr i1 sk kp' :
  heap s' !! p = Some (NInternode j) -> heap s' !! nn = Some (NInternode ir) ->
  Nodeversion.locked NV (iversion j) = true -> Nodeversion.locked NV (iversion ir) = true ->
  Internode.split_into j ir kp x child st = Some (i1, nr, sk, kp') ->
  (forall c, c ∈ children nr -> is_Some (heap s' !! c)) -> p ∉ children nr ->
  internode_split_into p nn kp x child st s' =
  Some ((sk, kp'), with_heap s' (<[p := NInternode i1]> (reparent (children nr) nn (<[nn := NInternode nr]> (heap s'))))).
Proof using Hpf.
  intros Hj Hir Hlj Hlr Hs Hch HpB. destruct (split_into_header _ _ _ _ _ _ _ _ _ _ Hs) as [_ Hi1].
  unfold internode_split_into, require_locked.
  rewrite !bind_assoc, (bind_eq _ _ _ _ _ (version_eq _ _ _ Hj)), bind_require by done.
  rewrite !bind_assoc, (bind_eq _ _ _ _ _ (version_eq _ _ _ Hir)), bind_require by done.
  rewrite (bind_eq _ _ _ _ _ (get_internode_eq _ _ _ Hj)), (bind_eq _ _ _ _ _ (get_internode_eq _ _ _ Hir)).
  rewrite (bind_lift _ _ _ _ Hs). unfold put_internode. rewrite (bind_eq _ _ _ _ _ (put_node_eq _ _ _)).
  erewrite bind_eq; [|apply for_each_parent].
  - erewrite bind_eq; [|apply get_internode_eq; cbn].
    2: { fold (children nr). rewrite reparent_lookup, bool_decide_eq_false_2 by done.
         by rewrite lookup_insert_ne by done. }
    assert (Internode.set_nkeys (Internode.set_version j (iversion i1)) (nkeys_ i1) = i1) as -> by (by rewrite Hi1).
    by rewrite (bind_eq _ _ _ _ _ (put_node_eq _ _ _)).
  - intros c Hc'. cbn. destruct (decide (c = nn)) as [->|]; [by rewrite lookup_insert_eq|].
    rewrite lookup_insert_ne by done. by apply Hch.
Qed.

Context (Hkids : forall c, c ∈ drop 1 (children i) -> is_Some (heap s !! c) /\ c <> p /\ c <> nn)
  (Hnodup : NoDup (children i)) (Hcn : child ∉ children i).

Lemma link_full :
  height_ i <= height + 1 -> nkeys_ i = internode_width -> exists sk i' nr h',
  shape i' /\ shape nr /\ 1 <= nkeys_ i' /\ insert_at kp x (keys i) = keys i' ++ sk :: keys nr /\
  insert_at (kp + 1) child (children i) = children i' ++ children nr /\
  busy (iversion i') /\ Nodeversion.isleaf NV (iversion i') = false /\ Nodeversion.splitting NV (iversion i') = true /\
  busy (iversion nr) /\ Nodeversion.isleaf NV (iversion nr) = false /\ Nodeversion.is_root NV (iversion nr) = false /\
  iparent_ i' = pp /\ h' !! p = Some (NInternode i') /\ h' !! nn = Some (NInternode nr) /\
  (forall a, a <> p -> a <> nn -> h' !! a =
    if bool_decide (a ∈ children nr) then (fun n => node_set_parent n nn) <$> heap s !! a
    else if a =? child then (fun n => node_set_parent n p) <$> heap s !! a else heap s !! a) /\
  forall fuel, link_child (S fuel) n child x height st s = Some ((p, Some (nn, sk)), at_heap s h' (nn + 64)).
Proof using Hn Hb Hp Hp0 Hc Hi Hok Hnp Hcp Hcf Hpf Hkp Hkr Hkids Hnodup Hcn Hnc Hnf.
  intros Hh Hw. destruct (claimed_busy _ _ Hok) as (Hbusy & [Hflf _] & _).
  destruct (mark_nonroot_busy _ Hbusy) as (Hbn & Hlfn & Hrtn).
  set (vi := iversion (claimed i)) in *.
  set (ir := Internode.set_version (Internode.make (height + 1)) (Nodeversion.mark_nonroot NV vi)).
  assert (shape ir) as Hir by (split; cbn; unfold internode_width; done || lia).
  destruct (split_content (claimed i) ir kp x child st claimed_shape Hw Hir) as
    (i1 & nr & sk & kp' & i' & Hs & Hins & Hsh' & Hshr & HK & HC & Hlen & _); [cbn in *; lia|].
  change (keys (claimed i)) with (keys i) in HK. change (children (claimed i)) with (children i) in HC.
  destruct (split_into_header _ _ _ _ _ _ _ _ _ _ Hs) as [(Hv & _ & _) Hi1]. cbn [iversion ir Internode.set_version] in Hv.
  destruct (mark_split_busy _ Hbusy) as (Hb1 & [Hlf1 _] & Hsp1). fold vi in Hi1.
  assert (iversion i' = Nodeversion.mark_split NV vi /\ iparent_ i' = pp /\ iversion i1 = Nodeversion.mark_split NV vi)
    as (Hvi' & Hpi' & Hv1).
  { rewrite Hi1. destruct (0 <=? kp').
    - apply insert_child_header in Hins as (-> & _ & ->). rewrite Hi1. split_and!; try done. apply Hok.
    - injection Hins as <-. rewrite Hi1. split_and!; try done. apply Hok. }
  destruct (split_into_lists (claimed i) ir kp x child st claimed_shape Hw Hir) as
    (j1 & j2 & j3 & j4 & Hs' & _ & _ & Hkp' & _); [cbn in *; lia|].
  rewrite Hs in Hs'. injection Hs' as <- <- <- <-.
  pose proof (zlength_children i' Hsh') as Hlc'. rewrite Hlen in Hlc'.
  destruct (insert_at_cut kp child (children i) (children i') (children nr)) as (HndAB & HB & HvB); try done.
  { pose proof (zlength_children i ltac:(destruct Hok; by split)). lia. }
  { intros Hnil. rewrite Hnil in Hlc'. unfold split_mid, internode_width in Hlc'. by destruct (st =? 2). }
  assert (child ∈ children nr <-> kp' = -1) as HBk.
  { rewrite HvB, Hlc', Hkp'. destruct (Z.ltb_spec kp (split_mid st)); lia. }
  set (h1 := <[p := NInternode i1]> (reparent (children nr) nn (<[nn := NInternode nr]> (<[p := NInternode (claimed i)]> (heap s))))).
  set (h' := if 0 <=? kp' then <[p := NInternode i']> (<[child := node_set_parent cd p]> h1) else h1).
  exists sk, i', nr, h'. split; [done|]. split; [done|]. split; [rewrite Hlen; unfold split_mid; by destruct (st =? 2)|].
  split; [done|]. split; [done|].
  assert (forall c, c ∈ children nr -> is_Some (heap s !! c) /\ c <> p /\ c <> nn) as HBk'.
  { intros c [->|Hc']%HB; [by split_and!|by apply Hkids]. }
  assert (p ∉ children nr /\ nn ∉ children nr) as [HpB HnB] by (split; intros H; by apply HBk' in H as (_ & ? & ?)).
  assert (child ∉ children nr -> h1 !! child = Some cd) as Hh1c.
  { intros H. unfold h1. rewrite lookup_insert_ne, reparent_lookup, bool_decide_eq_false_2 by done.
    by rewrite !lookup_insert_ne by done. }
  split_and!.
  - by rewrite Hvi'.
  - rewrite Hvi', Hlf1, Hflf. apply Hok.
  - by rewrite Hvi'.
  - by rewrite Hv.
  - rewrite Hv, Hlfn, Hflf. apply Hok.
  - by rewrite Hv.
  - done.
  - unfold h', h1. destruct (Z.leb_spec 0 kp'); [by rewrite lookup_insert_eq|]. injection Hins as <-. by rewrite lookup_insert_eq.
  - assert (h1 !! nn = Some (NInternode nr)) as Hnr.
    { unfold h1. rewrite lookup_insert_ne, reparent_lookup, bool_decide_eq_false_2 by done. by rewrite lookup_insert_eq. }
    unfold h'. destruct (0 <=? kp'); [|done]. by rewrite !lookup_insert_ne.
  - intros a Hap Han.
    assert (h1 !! a = if bool_decide (a ∈ children nr) then (fun n => node_set_parent n nn) <$> heap s !! a else heap s !! a) as Ha.
    { unfold h1. rewrite lookup_insert_ne, reparent_lookup by done. by rewrite !lookup_insert_ne by done. }
    unfold h'. destruct (Z.leb_spec 0 kp').
    + rewrite lookup_insert_ne by done. destruct (Z.eqb_spec a child) as [->|Hne].
      * rewrite lookup_insert_eq, Hc, bool_decide_eq_false_2; [done|]. rewrite HBk. lia.
      * by rewrite lookup_insert_ne, Ha by done.
    + rewrite Ha. case_bool_decide as HaB; [done|]. destruct (Z.eqb_spec a child) as [->|Hne]; [|done].
      exfalso. apply HaB, HBk. rewrite Hkp' in *. destruct (Z.ltb_spec kp (split_mid st)); lia.
  - intros fuel. unfold link_child. rewrite link_parent_run. destruct (Z.ltb_spec kp 0); [lia|]. rewrite bind_assoc.
    rewrite (bind_eq _ _ _ _ _ (get_internode_eq _ _ _ s1_parent)), bind_ret. cbn [height_ claimed Internode.set_version].
    destruct (Z.ltb_spec (height + 1) (height_ i)); [lia|].
    rewrite (bind_eq _ _ _ _ _ (get_internode_eq _ _ _ s1_parent)), bind_ret.
    cbn [Internode.size nkeys_ claimed Internode.set_version]. destruct (Z.leb_spec internode_width (nkeys_ i)); [|lia].
    rewrite !bind_assoc, (bind_eq _ _ _ _ _ (allocate_eq _ _)). cbn [next_fresh with_heap].
    rewrite !bind_assoc.
    erewrite bind_eq by (apply (version_eq _ _ (NInternode (claimed i))); cbn; rewrite lookup_insert_ne by done; apply lookup_insert_eq).
    rewrite !bind_assoc. erewrite bind_eq by (apply set_version_eq; cbn; apply lookup_insert_eq).
    cbn [node_version node_set_version]. fold vi. rewrite !bind_assoc.
    erewrite bind_eq by (apply mark_locked_eq; [cbn; apply lookup_insert_eq|done]).
    cbn [node_version node_set_version iversion Internode.set_version]. rewrite !bind_assoc.
    match goal with |- bind _ _ ?S = _ =>
      replace S with (at_heap s (<[nn := NInternode ir]> (<[p := NInternode (claimed i)]> (heap s))) (nn + 64)) end.
    2: { unfold at_heap, with_heap. cbn. by rewrite !insert_insert_eq. }
    erewrite bind_eq; [|apply (split_run _ (claimed i) ir nr i1 sk kp'); try done].
    + rewrite bind_ret. cbn [fst snd]. merge_heap. fold h1. unfold h'.
      destruct (Z.leb_spec 0 kp').
      * erewrite bind_eq; [|apply (insert_child_run _ i1 i' kp'); [cbn; apply lookup_insert_eq|done|]].
        { unfold ret. by merge_heap. }
        cbn. apply Hh1c. rewrite HBk. lia.
      * by rewrite bind_ret.
    + cbn. by rewrite lookup_insert_ne, lookup_insert_eq.
    + cbn. apply lookup_insert_eq.
    + apply Hbusy.
    + apply Hbn.
    + intros c Hc'. destruct (HBk' c Hc') as (? & ? & ?). cbn. by rewrite !lookup_insert_ne by done.
Qed.
End linked.
