(* ===== verification/Hole.v ===== *)
(** A node gone from a B+tree: the ranges of its neighbours widen, and what
    the writes of [src/masstree_remove.hh] to an internode do to its list of
    children. *)
From S2P Require Import Prelude Compiler Memory StringSlice Key Ksearch Kpermuter Nodeversion.
From S2P Require Import Stringbag Node Heap Get Insert Remove Tree Find Steps InternodeSpec LeafSpec Locate Ancestors LinkChild.

(** * Wider ranges *)
Section widen.
Context (R : Z -> Z -> Z -> list entry -> list Z -> Prop).

Lemma siblings_next_key K hi es ns : siblings_rep R K hi es ns -> next_key K hi <= hi.
Proof using Type.
  revert es ns. induction K as [|[k c] K IH]; intros es ns; cbn [siblings_rep next_key]; [done|].
  intros (e1 & e2 & n1 & n2 & _ & _ & Hk & _ & _ & H). apply IH in H. lia.
Qed.
Lemma left_rep_first K lo c hi es ns : left_rep R ((lo, c) :: K) hi es ns -> lo <= hi.
Proof using Type.
  cbn [left_rep]. intros (e1 & e2 & n1 & n2 & _ & _ & H1 & H2). apply siblings_next_key in H2.
  destruct H1 as [(_ & -> & _)|(_ & ? & _)]; lia.
Qed.

Context (HR : forall c lo hi hi' es ns, R c lo hi es ns -> lo < hi -> hi <= hi' -> R c lo hi' es ns).
Lemma siblings_widen K hi hi' es ns : siblings_rep R K hi es ns -> hi <= hi' -> siblings_rep R K hi' es ns.
Proof using HR.
  intros HK Hhi. revert es ns HK. induction K as [|[k c] K IH]; intros es ns; cbn [siblings_rep]; [done|].
  intros (e1 & e2 & n1 & n2 & -> & -> & Hk & Hc & H1 & H2). exists e1, e2, n1, n2.
  assert (next_key K hi <= next_key K hi') by (by destruct K as [|[]]). split_and!; try done; [lia| |by apply IH].
  by apply (HR _ _ (next_key K hi)).
Qed.
(** The last child of the list takes over what is right of it. *)
Lemma left_rep_widen lo c K hi hi' es ns :
  left_rep R ((lo, c) :: K) hi es ns -> hi <= hi' -> c <> 0 \/ K <> [] -> left_rep R ((lo, c) :: K) hi' es ns.
Proof using HR.
  cbn [left_rep]. intros (e1 & e2 & n1 & n2 & -> & -> & H1 & H2) Hhi Hne. exists e1, e2, n1, n2.
  assert (next_key K hi <= next_key K hi') by (by destruct K as [|[]]).
  split_and!; [done..| |by apply (siblings_widen _ hi)]. destruct H1 as [(Hc & Hlo & -> & -> & Hpos)|(Hc & Hlo & H1)].
  - left. destruct Hne as [?|Hne]; [done|]. destruct K as [|[k c'] K]; [done|]. by split_and!.
  - right. split_and!; [done|lia|]. by apply (HR _ _ (next_key K hi)).
Qed.
End widen.

Lemma node_rep_widen d h par a lo hi hi' es ns :
  node_rep d h par a lo hi es ns -> lo < hi -> hi <= hi' -> node_rep d h par a lo hi' es ns.
Proof.
  revert par a lo hi hi' es ns. induction d as [|d IH]; intros par a lo hi hi' es ns; cbn [node_rep]; [done|].
  intros [(l & Hl & -> & Hok)|(i & ns' & Hi & -> & Hok & Hc)] Hlt Hhi.
  - left. exists l. split_and!; [done..|]. destruct Hok as [H1 H2 H3 H4 H5 H6 H7 H8]. split; try done.
    eapply Forall_impl; [exact H2|]. cbn. intros e He. lia.
  - right. exists i, ns'. split_and!; [done..|].
    change (left_rep (node_rep d h a) (kids lo i) hi es ns') in Hc. change (left_rep (node_rep d h a) (kids lo i) hi' es ns').
    apply (left_rep_widen _ (IH a) _ _ _ hi); [done..|].
    destruct (separators i) as [|kc K] eqn:HK; [left|by right].
    unfold kids in Hc. rewrite HK in Hc. destruct Hc as (e1 & e2 & n1 & n2 & _ & _ & [(_ & -> & _)|(Hne & _)] & _); [cbn in Hlt; lia|done].
Qed.

(** * The place of a node *)
Lemma above_range h root anc par a lo hi es1 es2 ns1 ns2 :
  above h root anc par a lo hi es1 es2 ns1 ns2 -> 0 <= lo < hi /\ (lo = 0 -> leaves h ns1 = []) /\ (a <> root -> anc <> []).
Proof.
  induction 1 as [|anc d pp p plo phi es1 es2 ns1 ns2 i K1 k c K2 el er nl nr Ha (IH & IHl & _) Hi Hok HK Hc Hk HL HR].
  - split_and!; [done..|]. by intros.
  - assert (0 <= k /\ (k = 0 -> plo = 0 /\ K1 = [])) as [H0 H1].
    { destruct K1 as [|[k0 c0] K1]; cbn in HK; [injection HK as -> _ _; by split; [lia|]|].
      injection HK as -> _ _. pose proof (left_rep_first _ _ _ _ _ _ _ HL). split; [lia|]. intros H0. subst k. exfalso.
      destruct HL as (e1 & e2 & n1 & n2 & _ & _ & HL1 & HL2). apply siblings_next_key in HL2.
      destruct HL1 as [(_ & ? & _ & _ & ?)|(_ & ? & _)]; lia. }
    split_and!; [lia|done| |by intros]. intros ->. destruct (H1 eq_refl) as [-> ->]. destruct HL as [_ ->].
    rewrite leaves_app, IHl by done. by rewrite (leaves_internode _ _ _ _ Hi).
Qed.

(** * The list of children *)
Lemma zip_delete_at {A B} lo (ks : list A) (cs : list B) p :
  length cs = S (length ks) -> 1 <= p <= zlength ks ->
  zip (lo :: delete_at (p - 1) ks) (delete_at p cs) = delete_at p (zip (lo :: ks) cs).
Proof.
  intros Hl Hp. unfold delete_at, zlength in *. replace (Z.to_nat p) with (S (Z.to_nat (p - 1))) by lia.
  destruct cs as [|c0 cs]; [done|]. cbn in *. f_equal. rewrite zip_with_app by (rewrite !length_take; lia).
  by rewrite <- zip_with_take, <- zip_with_drop.
Qed.
Lemma kids_remove_child lo i r K1 kc K2 :
  shape i -> kids lo i = K1 ++ kc :: K2 -> K1 <> [] -> remove_child i (zlength K1) = Some r ->
  shape r /\ same_header i r /\ nkeys_ r = nkeys_ i - 1 /\ kids lo r = K1 ++ K2.
Proof.
  intros Hi HK Hne Hr. pose proof (zlength_keys i Hi) as Hlk. pose proof (zlength_children i Hi) as Hlc.
  assert (1 <= zlength K1 <= nkeys_ i) as Hp.
  { pose proof (f_equal length HK) as Hl. rewrite (kids_zip lo i Hi), length_zip_with, length_app in Hl.
    unfold zlength in *. destruct K1; [done|]. cbn [length] in *. lia. }
  destruct (remove_child_spec i (zlength K1) Hi Hp) as (r' & Hr' & Hs & Hh & Hn & Hk & Hc).
  rewrite Hr in Hr'. injection Hr' as <-. split_and!; [done..|].
  rewrite (kids_zip lo r Hs), Hk, Hc, zip_delete_at by (unfold zlength in *; lia).
  rewrite <- (kids_zip lo i Hi), HK. apply delete_at_mid.
Qed.

Lemma zip_set_key {A B} (X : list A) (Y : list B) K1 k c K2 v :
  zip X Y = K1 ++ (k, c) :: K2 -> zip (<[length K1 := v]> X) Y = K1 ++ (v, c) :: K2.
Proof.
  revert X Y. induction K1 as [|kc K1 IH]; intros [|x X] [|y Y]; try done; cbn.
  - by intros [= -> -> ->].
  - intros [= <- H]. f_equal. by apply IH.
Qed.
Lemma kids_set_key lo i k' K1 k c K2 v :
  shape i -> kids lo i = K1 ++ (k, c) :: K2 -> K1 <> [] -> wr (iikey0_ i) (zlength K1 - 1) v = Some k' ->
  kids lo (Internode.set_ikey0 i k') = K1 ++ (v, c) :: K2.
Proof.
  intros Hi HK Hne Hset. unfold wr, zlength in Hset. case_match; [|done]. injection Hset as <-.
  assert (shape (Internode.set_ikey0 i (<[Z.to_nat (Z.of_nat (length K1) - 1) := v]> (iikey0_ i)))) as Hs.
  { destruct Hi. split; try done. cbn. unfold zlength in *. by rewrite length_insert. }
  rewrite (kids_zip lo _ Hs). rewrite (kids_zip lo i Hi) in HK. unfold keys in *. cbn [iikey0_ nkeys_ Internode.set_ikey0].
  change (children (Internode.set_ikey0 _ _)) with (children i).
  pose proof (f_equal length HK) as Hl. rewrite length_zip_with, length_app in Hl. cbn [length] in Hl. rewrite length_take in Hl.
  destruct K1 as [|kc K1]; [done|]. cbn [length] in *. replace (Z.to_nat (Z.of_nat (S (length K1)) - 1)) with (length K1) by lia.
  rewrite take_insert_lt by lia. change (lo :: <[length K1 := v]> ?l) with (<[S (length K1) := v]> (lo :: l)).
  by apply (zip_set_key _ _ (kc :: K1) k).
Qed.
