(* ===== verification/Redirect.v ===== *)
(** [redirect] of [src/masstree_remove.hh]: the lower bound of a node that lost
    its first child is raised, in the ancestor that has it as a key. *)
From S2P Require Import Prelude Compiler Memory StringSlice Key Ksearch Kpermuter Nodeversion.
From S2P Require Import Stringbag Node Heap Get Insert Remove Tree Find Steps InternodeSpec LeafSpec Locate NewLayer Ancestors LinkChild Hole.

(** Among the nodes [ns], only internodes have changed. *)
Definition same_leaves (h g : gmap Z node) (ns : list Z) : Prop :=
  forall a, a ∈ ns -> g !! a = h !! a \/ exists i j, h !! a = Some (NInternode i) /\ g !! a = Some (NInternode j).

Lemma same_leaves_trans h g f ns : same_leaves h g ns -> same_leaves g f ns -> same_leaves h f ns.
Proof.
  intros H1 H2 a Ha. destruct (H1 a Ha) as [E1|(i & j & E1 & E2)], (H2 a Ha) as [E3|(i' & j' & E3 & E4)].
  - left. congruence.
  - right. exists i', j'. split; congruence.
  - right. exists i, j. split; congruence.
  - right. by exists i, j'.
Qed.
Lemma same_leaves_sub h g ns ns' : (forall a, a ∈ ns' -> a ∈ ns) -> same_leaves h g ns -> same_leaves h g ns'.
Proof. intros Hs H a Ha. by apply H, Hs. Qed.

Lemma unlock_held s a n :
  heap s !! a = Some n -> Nodeversion.locked NV (node_version n) = true ->
  unlock a s = Some (tt, with_heap s (<[a := node_set_version n (Nodeversion.unlock NV (node_version n))]> (heap s))).
Proof.
  intros H Hl. unfold unlock. rewrite (bind_eq _ _ _ _ _ (version_eq _ _ _ H)), bind_require by done.
  apply (set_version_eq _ _ _ _ H).
Qed.

(** * The keys and children beside a missing node *)
Lemma hole_sorted R plo i K1 lo n K2 phi el nl er nr :
  kids plo i = K1 ++ (lo, n) :: K2 -> n <> 0 -> lo < next_key K2 phi ->
  left_rep R K1 lo el nl -> siblings_rep R K2 phi er nr -> keys_sorted (separators i).
Proof.
  intros HK Hn Hlo HL HR. set (T := fun _ _ _ : Z => fun (_ : list entry) (_ : list Z) => True).
  apply (kids_sorted T plo i phi (el ++ [] ++ er) (nl ++ [] ++ nr)). rewrite HK. apply left_rep_middle; [|done..|].
  - by eapply left_rep_mono; [|exact HL].
  - by eapply siblings_rep_mono; [|exact HR].
Qed.
Lemma kids_child lo i K1 k c K2 :
  shape i -> kids lo i = K1 ++ (k, c) :: K2 -> rd (child_ i) (zlength K1) = c /\ zlength K1 <= nkeys_ i.
Proof.
  intros Hi HK. pose proof (zlength_children i Hi) as Hl. pose proof (zlength_nonneg K1).
  pose proof (children_kids lo i Hi) as Hc. rewrite HK, map_app in Hc. cbn in Hc.
  assert (zlength K1 <= nkeys_ i) as Hle.
  { rewrite Hc in Hl. unfold zlength in *. rewrite length_app, length_map in Hl. cbn in Hl. lia. }
  split; [|done]. unfold rd. rewrite <- zlookup_children by done. rewrite Hc, zlookup_nonneg by done.
  unfold zlength. rewrite Nat2Z.id, lookup_app_r by (by rewrite length_map). by rewrite length_map, Nat.sub_diag.
Qed.
Lemma kids_key lo i K1 k c K2 :
  shape i -> kids lo i = K1 ++ (k, c) :: K2 -> K1 <> [] -> rd (iikey0_ i) (zlength K1 - 1) = k.
Proof.
  intros Hi HK Hne. pose proof (zlength_children i Hi). pose proof (zlength_keys i Hi) as Hl.
  assert (lo :: keys i = map fst (kids lo i)) as Hc.
  { rewrite (kids_zip lo i Hi). symmetry. apply fst_zip. unfold zlength in *. cbn. lia. }
  rewrite HK, map_app in Hc. destruct K1 as [|kc K1]; [done|]. injection Hc as _ Hc.
  rewrite zlength_cons. replace (zlength K1 + 1 - 1) with (zlength K1) by lia. pose proof (zlength_nonneg K1).
  unfold rd. rewrite <- zlookup_keys.
  - rewrite Hc, zlookup_nonneg by done. unfold zlength.
    rewrite Nat2Z.id, lookup_app_r by (by rewrite length_map). by rewrite length_map, Nat.sub_diag.
  - rewrite Hc in Hl. unfold zlength in *. rewrite length_app, length_map in Hl. cbn in Hl. lia.
Qed.
Lemma kids_bound lo lo' i k c K : kids lo i = (k, c) :: K -> kids lo' i = (lo', c) :: K.
Proof. unfold kids. by intros [= _ -> ->]. Qed.

(** * One round *)
Section round.
Context (s : state) (n p pp ikey r kp kp' : Z) (nd : node) (i : internode) (k' : list Z).
Context (Hn : heap s !! n = Some nd) (Hl : Nodeversion.locked NV (node_version nd) = true) (Hp : node_parent nd = p)
  (Hp0 : p <> 0) (Hnp : n <> p) (Hi : heap s !! p = Some (NInternode i)) (Hok : internode_ok pp i)
  (Hkp : Internode.upper_ikey ikey i = kp') (Hc : rd (child_ i) kp' = n)
  (Hk : if 0 <? kp' then wr (iikey0_ i) (kp' - 1) r = Some k' else k' = iikey0_ i).
Definition unlocked (nd : node) : node := node_set_version nd (Nodeversion.unlock NV (node_version nd)).
Definition round_heap : gmap Z node :=
  <[p := NInternode (Internode.set_ikey0 (Internode.set_version i (lockv (iversion i))) k')]>
    (if 0 <=? kp then <[n := unlocked nd]> (heap s) else heap s).

Lemma redirect_round fuel :
  redirect_loop (S (S fuel)) n ikey r kp s =
  (if (kp' =? 0) || ((kp' =? 1) && (rd (child_ i) 0 =? 0))
   then redirect_loop (S fuel) p ikey r kp' else unlock p) (with_heap s round_heap).
Proof using Hn Hl Hp Hp0 Hnp Hi Hok Hkp Hc Hk.
  cbn [redirect_loop]. rewrite (bind_eq _ _ _ _ _ (locked_parent_some fuel _ _ _ _ _ _ Hn Hl Hp Hp0 Hnp Hi Hok)).
  set (li := Internode.set_version i (lockv (iversion i))).
  set (h1 := <[p := NInternode li]> (if 0 <=? kp then <[n := unlocked nd]> (heap s) else heap s)).
  assert ((if 0 <=? kp then unlock n else ret tt) (with_heap s (<[p := NInternode li]> (heap s))) = Some (tt, with_heap s h1)) as H1.
  { unfold h1. destruct (0 <=? kp); [|done].
    rewrite (unlock_held _ _ nd) by (cbn; rewrite ?lookup_insert_ne; done).
    unfold with_heap. cbn. do 3 f_equal. unfold unlocked. heap_eq. }
  rewrite (bind_eq _ _ _ _ _ H1). assert (heap (with_heap s h1) !! p = Some (NInternode li)) as Hp1 by apply lookup_insert_eq.
  rewrite (bind_eq _ _ _ _ _ (get_internode_eq _ _ _ Hp1)).
  change (Internode.upper_ikey ikey li) with (Internode.upper_ikey ikey i). rewrite Hkp. cbn [child_ li Internode.set_version].
  rewrite bind_require by by apply Z.eqb_eq.
  assert ((if 0 <? kp' then try_update_internode p (fun i => k ← wr (iikey0_ i) (kp' - 1) r; Some (Internode.set_ikey0 i k)) else ret tt)
    (with_heap s h1) = Some (tt, with_heap s round_heap)) as H2.
  { destruct (0 <? kp').
    - erewrite try_update_internode_eq; [|exact Hp1|cbn [iikey0_ li Internode.set_version]; by rewrite Hk].
      unfold round_heap, h1, with_heap. cbn. by rewrite insert_insert_eq.
    - unfold ret. do 2 f_equal. unfold round_heap, h1, li. rewrite Hk. by destruct i. }
  rewrite (bind_eq _ _ _ _ _ H2). erewrite bind_eq; [|apply get_internode_eq; cbn; apply lookup_insert_eq].
  cbn [child_ Internode.set_ikey0 Internode.set_version]. by destruct (_ || _).
Qed.
End round.

(** * The loop *)
Lemma internode_ok_keyed pp i k' : internode_ok pp i -> zlength k' = internode_width -> internode_ok pp (Internode.set_ikey0 i k').
Proof. intros [H1 H2 H3 H4 H5 H6 H7] Hk. by split. Qed.
(** The key written by a round. *)
Lemma key_written i (K1 : list (Z * Z)) r pp :
  internode_ok pp i -> zlength K1 <= nkeys_ i ->
  exists k', (if 0 <? zlength K1 then wr (iikey0_ i) (zlength K1 - 1) r = Some k' else k' = iikey0_ i) /\ zlength k' = internode_width.
Proof.
  intros Hok Hle. pose proof (io_nkeys _ _ Hok). pose proof (io_ikey0 _ _ Hok).
  destruct (Z.ltb_spec 0 (zlength K1)).
  - destruct (wr_spec (iikey0_ i) (zlength K1 - 1) r) as (k' & Hk & Hl & _); [lia|]. exists k'. split; [done|lia].
  - by exists (iikey0_ i).
Qed.
Lemma unlocked_keyed i k' : quiet (iversion i) ->
  unlocked (NInternode (Internode.set_ikey0 (Internode.set_version i (lockv (iversion i))) k')) = NInternode (Internode.set_ikey0 i k').
Proof. intros Hq. unfold unlocked. cbn. unfold lockv. rewrite unlock_lock by done. by destruct i. Qed.

Lemma NoDup_place (p : Z) ns1 nl nr ns2 : NoDup ((ns1 ++ p :: nl) ++ nr ++ ns2) ->
  NoDup (ns1 ++ ns2) /\ p ∉ ns1 ++ ns2 /\ p ∉ nl /\ p ∉ nr /\ (forall a, a ∈ nl \/ a ∈ nr -> a ∉ ns1 ++ ns2) /\ NoDup (nl ++ nr).
Proof.
  intros Hnd. assert ((ns1 ++ p :: nl) ++ nr ++ ns2 ≡ₚ p :: (nl ++ nr) ++ ns1 ++ ns2) as HP by solve_Permutation.
  rewrite HP, NoDup_cons, NoDup_app in Hnd. destruct Hnd as (Hp & Hnd1 & Hd & Hnd2).
  setoid_rewrite elem_of_app in Hd. rewrite !elem_of_app in Hp. split_and!; try done; try (rewrite ?elem_of_app; tauto).
  intros a Ha. specialize (Hd a Ha). by rewrite elem_of_app.
Qed.

Lemma redirect_run root anc : forall par n lo hi es1 es2 ns1 ns2 s nd kp lo' ikey,
  above (heap s) root anc par n lo hi es1 es2 ns1 ns2 -> 0 < lo -> lo <= lo' < hi -> lo <= ikey < hi ->
  NoDup (ns1 ++ ns2) -> n ∉ ns1 ++ ns2 -> 0 ∉ ns1 ++ ns2 -> n <> 0 ->
  heap s !! n = Some nd -> Nodeversion.locked NV (node_version nd) = true -> node_parent nd = par ->
  exists g, above g root anc par n lo' hi es1 es2 ns1 ns2 /\ same_leaves (heap s) g (ns1 ++ ns2) /\
    (forall a, a ∉ ns1 ++ ns2 -> g !! a = if decide (a = n /\ 0 <= kp) then Some (unlocked nd) else heap s !! a) /\
    forall fuel, (length anc < fuel)%nat -> redirect_loop fuel n ikey lo' kp s = Some (tt, with_heap s g).
Proof.
  induction anc as [|p anc IH]; intros par n lo hi es1 es2 ns1 ns2 s nd kp lo' ikey Ha Hlo Hlo' Hik Hnd Hnn H0 Hn0 Hn Hl Hpar.
  { inversion Ha; subst. lia. }
  revert Hpar.
  inversion Ha as [|? d pp ? plo phi es1' es2' ns1' ns2' i K1 ? ? K2 el er nl nr Ha' Hi Hok HK _ Hk HL HR]; subst. clear Ha. rename par into p. intros Hpar.
  assert (shape i) as Hsh by (destruct Hok; by split).
  pose proof (hole_sorted _ _ _ _ _ _ _ _ _ _ _ _ HK Hn0 Hk HL HR) as Hs.
  destruct (kids_count _ _ _ _ _ _ _ _ ikey Hok Hs HK Hik) as [Hkp Hle].
  destruct (kids_child _ _ _ _ _ _ Hsh HK) as [Hc _].
  destruct (key_written i K1 lo' pp Hok Hle) as (k' & Hk' & Hlk').
  destruct (NoDup_place _ _ _ _ _ Hnd) as (Hnd' & Hpn & Hpl & Hpr & Hdis & _).
  assert (p <> 0 /\ n <> p /\ n ∉ ns1' ++ ns2' /\ 0 ∉ ns1' ++ ns2') as (Hp0 & Hnp & Hnn' & H0').
  { rewrite !not_elem_of_app, !not_elem_of_cons in *. naive_solver. }
  pose proof (fun fuel => redirect_round s n p pp ikey lo' kp _ nd i k' Hn Hl Hpar Hp0 Hnp Hi Hok Hkp Hc Hk' fuel) as Hrun.
  set (g1 := round_heap s n p kp nd i k') in *.
  assert (forall a, a <> p -> g1 !! a = if decide (a = n /\ 0 <= kp) then Some (unlocked nd) else heap s !! a) as Hg1.
  { intros a Hap. unfold g1, round_heap. rewrite lookup_insert_ne by done.
    destruct (Z.leb_spec 0 kp); [|by rewrite decide_False by lia]. destruct (decide (a = n)) as [->|Hne].
    - by rewrite lookup_insert_eq, decide_True.
    - by rewrite lookup_insert_ne, decide_False by (done || tauto). }
  assert (above g1 root anc pp p plo phi es1' es2' ns1' ns2') as Ha1.
  { eapply above_frame; [|exact Ha']. intros a Ha. rewrite Hg1 by (by intros ->). rewrite decide_False; [done|]. by intros [-> _]. }
  pose proof (above_range _ _ _ _ _ _ _ _ _ _ _ Ha') as [[Hplo Hphi] _].
  pose proof (siblings_next_key _ _ _ _ _ HR) as Hnk.
  assert (internode_ok pp (Internode.set_ikey0 i k')) as Hok' by (by apply internode_ok_keyed).
  assert ((K1 = [] /\ plo = lo \/ K1 = [(plo, 0)]) \/ exists c K, K1 = (plo, c) :: K /\ (c <> 0 \/ K <> [])) as [Hup|(c & K & -> & HcK)].
  { destruct K1 as [|[x c] K1]; injection HK as -> HK; [by left; left|].
    destruct (decide (c = 0 /\ K1 = [])) as [[-> ->]|Hne]; [by left; right|right].
    exists c, K1. split; [done|]. destruct (decide (c = 0)); [right; naive_solver|by left]. }
  - (* the bound of the parent is raised, too *)
    assert (plo = lo) as ->.
    { destruct Hup as [[_ ?]| ->]; [done|]. destruct HL as (? & ? & ? & ? & _ & _ & [(_ & ? & _)|(? & _)] & _); done. }
    set (li := NInternode (Internode.set_ikey0 (Internode.set_version i (lockv (iversion i))) k')) in *.
    assert (g1 !! p = Some li) as Hgp by apply lookup_insert_eq.
    destruct (IH pp p lo phi es1' es2' ns1' ns2' (with_heap s g1) li (zlength K1) lo' ikey) as (g & Ha2 & Hsl & Ho & Hloop);
      [done..|lia|lia|done|done|done|done|done| |by apply Hok|].
    { cbn. by destruct (lock_busy _ (io_quiet _ _ Hok)) as ((_ & ? & _) & _). }
    cbn [heap with_heap] in Hsl, Ho.
    assert (g !! p = Some (NInternode (Internode.set_ikey0 i k'))) as Hgp2.
    { rewrite Ho by done. rewrite decide_True by (split; [done|apply zlength_nonneg]). f_equal. apply unlocked_keyed, Hok. }
    assert (forall a, a ∉ ns1' ++ ns2' -> a <> p -> g !! a = if decide (a = n /\ 0 <= kp) then Some (unlocked nd) else heap s !! a) as Hg.
    { intros a Hin Hap. rewrite Ho by done. rewrite decide_False by tauto. by apply Hg1. }
    exists g. split_and!.
    + assert (forall a, a ∈ nl \/ a ∈ nr -> g !! a = heap s !! a) as Hagr.
      { intros a Hin. rewrite Hg; [rewrite decide_False; [done|]|by apply Hdis|].
        - intros [-> _]. rewrite !not_elem_of_app, !not_elem_of_cons in Hnn. tauto.
        - intros ->. tauto. }
      apply (above_child _ _ _ d pp _ lo' phi _ _ _ _ (Internode.set_ikey0 i k') (match K1 with [] => [] | _ => [(lo', 0)] end) lo' n K2); try done.
      * destruct Hup as [[-> _]| ->].
        -- cbn in Hk'. rewrite Hk'. apply (kids_bound lo _ _ lo). etrans; [|exact HK]. by destruct i.
        -- by apply (kids_bound lo _ _ lo), (kids_set_key lo i k' [(lo, 0)] lo n K2 lo' Hsh HK).
      * lia.
      * destruct Hup as [[-> _]| ->]; [done|]. destruct HL as (e1 & e2 & n1 & n2 & -> & -> & [(_ & _ & -> & -> & _)|(? & _)] & [-> ->]); [|done].
        exists [], [], [], []. split_and!; try done. left. split_and!; done || lia.
      * eapply siblings_rep_mono; [|exact HR]. intros ????? Hs'. apply node_rep_frame. intros a Hin. apply Hagr. right. by apply Hs'.
    + intros a. intros Hin. destruct (decide (a = p)) as [->|Hap]; [right; by eexists _, _|].
      destruct (decide (a ∈ ns1' ++ ns2')) as [Hin'|Hin'].
      * pose proof (Hsl a Hin') as Hsa. rewrite (Hg1 a Hap), decide_False in Hsa by (by intros [-> _]). exact Hsa.
      * left. rewrite Hg by done. rewrite decide_False; [done|]. by intros [-> _].
    + intros a Hin. apply Hg; [|]; rewrite !not_elem_of_app, !not_elem_of_cons in *; tauto.
    + intros [|[|fuel]] Hf; [cbn in Hf; lia..|]. rewrite Hrun.
      assert (((zlength K1 =? 0) || ((zlength K1 =? 1) && (rd (child_ i) 0 =? 0))) = true) as ->.
      { destruct Hup as [[-> _]| ->]; [done|]. injection HK as -> _. done. }
      apply Hloop. cbn in Hf. lia.
  - (* the key of the parent is *)
    assert (g1 !! p = Some (NInternode (Internode.set_ikey0 (Internode.set_version i (lockv (iversion i))) k'))) as Hgp by apply lookup_insert_eq.
    set (g := <[p := NInternode (Internode.set_ikey0 i k')]> g1).
    assert (forall a, a <> p -> g !! a = if decide (a = n /\ 0 <= kp) then Some (unlocked nd) else heap s !! a) as Hg.
    { intros a Hap. unfold g. by rewrite lookup_insert_ne, Hg1. }
    assert (forall a, a <> p -> a <> n -> g !! a = heap s !! a) as Hg'.
    { intros a Hap Han. rewrite Hg by done. rewrite decide_False by tauto. done. }
    rewrite !not_elem_of_app, !not_elem_of_cons in Hnn.
    exists g. split_and!.
    + assert (forall a, a ∈ nl \/ a ∈ nr -> g !! a = heap s !! a) as Hagr.
      { intros a Hin. apply Hg'; intros ->; tauto. }
      apply (above_child _ _ _ d pp _ plo phi _ _ _ _ (Internode.set_ikey0 i k') ((plo, c) :: K) lo' n K2); try done.
      * eapply above_frame; [|exact Ha']. intros a Hin. apply Hg'; by intros ->.
      * apply lookup_insert_eq.
      * rewrite zlength_cons in Hk'. pose proof (zlength_nonneg K). destruct (Z.ltb_spec 0 (zlength K + 1)) in Hk'; [|lia].
        apply (kids_set_key _ _ _ _ lo); [done..|]. by rewrite zlength_cons.
      * lia.
      * apply (left_rep_widen _ (fun c lo hi hi' es ns => node_rep_widen d g p c lo hi hi' es ns) _ _ _ lo); [|lia|done].
        eapply left_rep_mono; [|exact HL]. intros ????? Hs'. apply node_rep_frame. intros a Hin. apply Hagr. left. by apply Hs'.
      * eapply siblings_rep_mono; [|exact HR]. intros ????? Hs'. apply node_rep_frame. intros a Hin. apply Hagr. right. by apply Hs'.
    + intros a Hin. destruct (decide (a = p)) as [->|Hap].
      * right. eexists _, _. split; [done|]. apply lookup_insert_eq.
      * left. apply Hg'; [done|]. intros ->. rewrite !elem_of_app, !elem_of_cons in Hin. tauto.
    + intros a Hin. apply Hg. rewrite !not_elem_of_app, !not_elem_of_cons in Hin. tauto.
    + intros [|[|fuel]] Hf; [cbn in Hf; lia..|]. rewrite Hrun.
      assert (((zlength ((plo, c) :: K) =? 0) || ((zlength ((plo, c) :: K) =? 1) && (rd (child_ i) 0 =? 0))) = false) as ->.
      { injection HK as Hc0 _. rewrite Hc0, zlength_cons. pose proof (zlength_nonneg K).
        destruct (Z.eqb_spec (zlength K + 1) 0); [lia|]. cbn [orb]. apply andb_false_iff. rewrite !Z.eqb_neq.
        destruct HcK as [?|HcK]; [by right|left]. destruct K; [done|]. rewrite zlength_cons in *. pose proof (zlength_nonneg K). lia. }
      rewrite (unlock_held (with_heap s g1) _ _ Hgp) by (cbn; by destruct (lock_busy _ (io_quiet _ _ Hok)) as ((_ & ? & _) & _)).
      unfold with_heap, g. cbn [heap]. do 3 f_equal. f_equal. apply unlocked_keyed, Hok.
Qed.
