(* ===== verification/RemoveUp.v ===== *)
(** The loop of [remove_leaf] of [src/masstree_remove.hh], up the tree: a node
    is gone, or its last child takes its place; internodes that lose their last
    key go, too. *)
From S2P Require Import Prelude Compiler Memory StringSlice Key Ksearch Kpermuter Nodeversion.
From S2P Require Import Stringbag Node Heap Get Insert Remove Tree Find Steps InternodeSpec LeafSpec Locate Put NewLayer Ancestors LinkChild Hole Redirect.

(** * Internodes at work *)
(** A locked internode of the tree: [internode_ok] but for its version. *)
Record held (pp : Z) (i : internode) : Prop := {
  hd_shape : shape i;
  hd_busy : busy (iversion i);
  hd_splitting : Nodeversion.splitting NV (iversion i) = false;
  hd_isleaf : Nodeversion.isleaf NV (iversion i) = false;
  hd_root : Nodeversion.is_root NV (iversion i) = (pp =? 0);
  hd_parent : iparent_ i = pp }.
Definition released (i : internode) : internode := Internode.set_version i (Nodeversion.unlock NV (iversion i)).

Lemma claimed_held pp i : internode_ok pp i -> held pp (claimed i).
Proof.
  intros Hok. destruct (claimed_busy pp i Hok) as (Hb & [H1 H2] & Hs). destruct Hok. split; try done; congruence.
Qed.
Lemma released_ok pp i : held pp i -> internode_ok pp (released i).
Proof.
  intros [[H1 H2 H3] Hb Hs Hl Hr Hp]. destruct (unlock_quiet _ Hb) as (Hq & Hl' & Hr'). split; try done.
  - cbn. by rewrite Hl', Hl.
  - cbn. by rewrite Hr', Hr, Hs, andb_true_r.
Qed.
Lemma held_header pp i r : held pp i -> same_header i r -> shape r -> held pp r.
Proof. intros [H1 H2 H3 H4 H5 H6] (E1 & E2 & E3) Hs. split; try done; congruence. Qed.
Lemma set_child_shape i c : shape i -> zlength c = internode_width + 1 -> shape (Internode.set_child i c).
Proof. intros [] Hc. by split. Qed.

(** * The place of the node that goes *)
(** What takes the place of a node: nothing, or the node [repl]. *)
Definition filled (h : gmap Z node) (repl lo hi : Z) (es : list entry) (ns : list Z) : Prop :=
  (repl = 0 /\ es = [] /\ ns = [] /\ 0 < lo) \/ (repl <> 0 /\ exists d, orphan d h repl lo hi es ns).

(** The children of an internode, possibly without those for its first slices. *)
Definition headless (R : Z -> Z -> Z -> list entry -> list Z -> Prop) (lo hi : Z) (i : internode) (es : list entry) (ns : list Z) : Prop :=
  exists K, kids lo i = (lo, 0) :: K /\ 0 < lo <= next_key K hi /\ siblings_rep R K hi es ns.

(** The rest of the loop's body, after the parent [p] lost the child. *)
Definition remove_rest (fuel : nat) (n p kp ikey : Z) : M Z :=
  let! pi := get_internode p in
  let! ikey := (if (kp <=? 1) && (0 <? nkeys_ pi) && (rd (child_ pi) 0 =? 0) then
                  redirect fuel p ikey (rd (iikey0_ pi) 0) ;! ret (rd (iikey0_ pi) 0)
                else ret ikey) in
  unlock n ;!
  let! pi := get_internode p in
  if negb (nkeys_ pi =? 0) || Nodeversion.is_root NV (iversion pi) then ret p
  else
    mark_deleted p ;!
    deallocate_rcu p ;!
    let! pi := get_internode p in
    let replacement := rd (child_ pi) 0 in
    try_update_internode p (fun i => c ← wr (child_ i) 0 0; Some (Internode.set_child i c)) ;!
    remove_loop fuel p ikey replacement.

(** * What stays *)
(** Leaves keep their links. *)
Definition chain_kept (h g : gmap Z node) (ns : list Z) : Prop :=
  forall a, a ∈ ns -> is_leaf_at g a = is_leaf_at h a /\
    forall l, h !! a = Some (NLeaf l) -> exists l', g !! a = Some (NLeaf l') /\ prev_ l' = prev_ l /\ next_ l' = next_ l.
Lemma chain_kept_trans h g f ns : chain_kept h g ns -> chain_kept g f ns -> chain_kept h f ns.
Proof.
  intros H1 H2 a Ha. destruct (H1 a Ha) as [E1 F1], (H2 a Ha) as [E2 F2]. split; [congruence|]. intros l Hl.
  destruct (F1 l Hl) as (l' & Hl' & ? & ?). destruct (F2 l' Hl') as (l2 & ? & ? & ?). exists l2. split_and!; congruence.
Qed.
Lemma chain_kept_sub h g ns ns' : (forall a, a ∈ ns' -> a ∈ ns) -> chain_kept h g ns -> chain_kept h g ns'.
Proof. intros Hs H a Ha. by apply H, Hs. Qed.
Lemma chain_kept_leaves h g ns : chain_kept h g ns -> leaves g ns = leaves h ns.
Proof. intros H. apply leaves_ext. intros a Ha. by apply H. Qed.
Lemma chain_kept_linked h g prev ls : chain_kept h g ls -> linked h prev ls -> linked g prev ls.
Proof.
  revert prev. induction ls as [|a ls IH]; intros prev Hk; cbn [linked]; [done|]. intros [(l & Hl & Hp & Hn) Hr].
  destruct (Hk a) as [_ Hl']; [apply elem_of_cons; by left|]. destruct (Hl' l Hl) as (l' & ? & ? & ?). split.
  - exists l'. split_and!; congruence.
  - apply IH; [|done]. intros b Hb. apply Hk, elem_of_cons. by right.
Qed.
Lemma same_leaves_chain h g ns : same_leaves h g ns -> chain_kept h g ns.
Proof.
  intros H a Ha. unfold is_leaf_at. destruct (H a Ha) as [->|(i & j & -> & ->)]; [|by split].
  split; [done|]. intros l Hl. by exists l.
Qed.

(** A tree with the same leaves and the entries [es], in some of the nodes
    [ns]. *)
Definition shrunk (h g : gmap Z node) (root : Z) (es : list entry) (ns : list Z) : Prop :=
  exists D ns', node_rep D g 0 root 0 (2 ^ ikey_bits) es ns' /\ NoDup ns' /\ (forall a, a ∈ ns' -> a ∈ ns) /\
    leaves g ns' = leaves h ns /\ chain_kept h g ns'.
Definition with_limbo (s : state) (h : gmap Z node) (lim : list Z) : state :=
  mkState h (next_fresh s) lim (callbacks s) (table_root s) (kmem s).

(** * One round *)
Section step.
Context (s : state) (root : Z) (anc : list Z) (pp p plo phi : Z) (es1 es2 : list entry) (ns1 ns2 : list Z)
  (i : internode) (K1 K2 : list (Z * Z)) (lo n : Z) (d : nat) (el er es : list entry) (nl nr ns : list Z) (repl ikey : Z) (nd : node).
Context (Habove : above (heap s) root anc pp p plo phi es1 es2 ns1 ns2)
  (Hi : heap s !! p = Some (NInternode i)) (Hok : internode_ok pp i) (HK : kids plo i = K1 ++ (lo, n) :: K2)
  (Hlo : lo < next_key K2 phi) (HL : left_rep (node_rep d (heap s) p) K1 lo el nl)
  (HR : siblings_rep (node_rep d (heap s) p) K2 phi er nr)
  (Hfill : filled (heap s) repl lo (next_key K2 phi) es ns) (Hik : lo <= ikey < next_key K2 phi)
  (Hnd : NoDup ((ns1 ++ p :: nl) ++ ns ++ nr ++ ns2)) (H0 : 0 ∉ (ns1 ++ p :: nl) ++ ns ++ nr ++ ns2)
  (Hnn : n ∉ (ns1 ++ p :: nl) ++ ns ++ nr ++ ns2) (Hn0 : n <> 0)
  (Hn : heap s !! n = Some nd) (Hl : Nodeversion.locked NV (node_version nd) = true) (Hpar : node_parent nd = p).
Abbreviation kp := (zlength K1).

Lemma step_facts : shape i /\ Internode.upper_ikey ikey i = kp /\ rd (child_ i) kp = n /\ 0 <= kp <= nkeys_ i /\ p <> 0 /\ n <> p /\
  (kp = 0 \/ rd (iikey0_ i) (kp - 1) <= ikey).
Proof using Hok HK Hlo HL HR Hik H0 Hnn Hn0.
  assert (shape i) as Hsh by (destruct Hok; by split). pose proof (zlength_nonneg K1).
  pose proof (hole_sorted _ _ _ _ _ _ _ _ _ _ _ _ HK Hn0 Hlo HL HR) as Hs.
  destruct (kids_count _ _ _ _ _ _ _ _ ikey Hok Hs HK Hik) as [Hkp Hle].
  destruct (kids_child _ _ _ _ _ _ Hsh HK) as [Hc _].
  rewrite !not_elem_of_app, !not_elem_of_cons in Hnn, H0. split_and!; try done; [by apply not_eq_sym, H0|apply Hnn|].
  destruct K1 as [|kc K1']; [by left|right]. rewrite (kids_key _ _ _ _ _ _ Hsh HK) by done. lia.
Qed.

(** The parent is locked, marked, and the child's slot written. *)
Lemma step_prefix : exists c', wr (child_ i) kp repl = Some c' /\ zlength c' = internode_width + 1 /\ forall fuel,
  remove_loop (S (S fuel)) n ikey repl s =
  bind (if negb (repl =? 0) then set_parent repl p
        else if 0 <? kp then
          try_update_internode p (fun i => Internode.shift_down i (kp - 1) kp (nkeys_ i - kp)) ;!
          update_internode p (fun i => Internode.set_nkeys i (uwrap 8 (nkeys_ i - 1)))
        else ret tt) (fun _ => remove_rest (S fuel) n p kp ikey)
    (with_heap s (<[p := NInternode (Internode.set_child (claimed i) c')]> (heap s))).
Proof using Hi Hok HK Hlo HL HR Hik H0 Hnn Hn0 Hn Hl Hpar.
  destruct step_facts as (Hsh & Hkp & Hc & Hkr & Hp0 & Hnp & Hkey). pose proof (io_child _ _ Hok) as Hlc. destruct (io_nkeys _ _ Hok) as [_ Hw].
  destruct (wr_spec (child_ i) kp repl) as (c' & Hc' & Hlc' & _); [lia|]. exists c'. split_and!; [done|lia|]. intros fuel.
  cbn [remove_loop]. rewrite (bind_eq _ _ _ _ _ (locked_parent_some fuel _ _ _ _ _ _ Hn Hl Hpar Hp0 Hnp Hi Hok)).
  erewrite bind_eq; [|apply mark_locked_eq; [cbn; apply lookup_insert_eq|by destruct (lock_busy _ (io_quiet _ _ Hok))]].
  rewrite with_heap_insert. set (s1 := with_heap s _).
  assert (heap s1 !! p = Some (NInternode (claimed i))) as Hp1 by apply lookup_insert_eq.
  destruct (hd_busy _ _ (claimed_held _ _ Hok)) as (_ & _ & Hdel).
  rewrite (bind_eq _ _ _ _ _ (version_eq _ _ _ Hp1)), bind_require by (cbn [node_version]; by rewrite Hdel).
  rewrite (bind_eq _ _ _ _ _ (get_internode_eq _ _ _ Hp1)).
  change (Internode.upper_ikey ikey (claimed i)) with (Internode.upper_ikey ikey i). rewrite Hkp. cbn [iikey0_ child_ claimed Internode.set_version].
  rewrite bind_require by (apply orb_true_iff; rewrite Z.eqb_eq, Z.leb_le; done).
  rewrite bind_require by by apply Z.eqb_eq.
  erewrite bind_eq; [|eapply try_update_internode_eq; [exact Hp1|cbn [child_ claimed Internode.set_version]; by rewrite Hc']].
  unfold s1. rewrite with_heap_insert. done.
Qed.

(** What the step leaves: at most [repl] has another parent, and [p] other
    children. *)
Definition adopted (g : gmap Z node) (a : Z) : option node :=
  if negb (repl =? 0) && (a =? repl) then (fun n => node_set_parent n p) <$> g !! a else g !! a.

Lemma filled_addr : repl <> 0 -> repl ∈ ns /\ is_Some (heap s !! repl).
Proof using Hfill.
  intros Hne. destruct Hfill as [(? & _)|(_ & d0 & Ho)]; [done|]. split; [by eapply orphan_addr|].
  destruct (node_parent_of _ _ _ _ _ _ _ _ (Ho 1 ltac:(done))) as (m & Hm & _). rewrite lookup_alter_eq in Hm.
  by destruct (heap s !! repl).
Qed.
Lemma place_NoDup : NoDup (ns1 ++ ns2) /\ p ∉ ns1 ++ ns2 /\ p ∉ nl /\ p ∉ nr /\ p ∉ ns /\
  (forall a, a ∈ nl ++ ns ++ nr -> a ∉ ns1 ++ ns2) /\ (forall a, a ∈ ns -> a ∉ nl /\ a ∉ nr).
Proof using Hnd.
  clear -Hnd. assert ((ns1 ++ p :: nl) ++ ns ++ nr ++ ns2 ≡ₚ p :: (ns ++ nl ++ nr) ++ ns1 ++ ns2) as HP by solve_Permutation.
  rewrite HP, NoDup_cons, NoDup_app, NoDup_app in Hnd. destruct Hnd as (Hp & (_ & Hd2 & _) & Hd & Hnd2).
  rewrite !elem_of_app in Hp. setoid_rewrite elem_of_app in Hd. setoid_rewrite elem_of_app in Hd2.
  setoid_rewrite elem_of_app in Hd. rewrite !elem_of_app. split_and!; try done; try tauto.
  - intros a. rewrite !elem_of_app. specialize (Hd a). tauto.
  - intros a Ha. specialize (Hd2 a Ha). tauto.
Qed.
Lemma adopted_other (g : gmap Z node) a : (forall b, b <> p -> g !! b = adopted (heap s) b) -> a <> p -> a ∉ ns -> g !! a = heap s !! a.
Proof using Hfill.
  intros Hg Hp Ha. rewrite Hg by done. unfold adopted. destruct (Z.eqb_spec repl 0) as [|Hne]; [done|]. cbn [negb andb].
  destruct (Z.eqb_spec a repl) as [->|]; [|done]. by destruct (filled_addr Hne).
Qed.
Lemma adopted_sides (g : gmap Z node) D : (d <= D)%nat -> (forall b, b <> p -> g !! b = adopted (heap s) b) ->
  left_rep (node_rep D g p) K1 lo el nl /\ siblings_rep (node_rep D g p) K2 phi er nr.
Proof using HL HR Hfill Hnd.
  intros HD Hg. destruct place_NoDup as (_ & _ & Hpl & Hpr & _ & _ & Hd). split.
  - eapply left_rep_mono; [|exact HL]. intros c u w es0 ms Hms Hr. eapply node_rep_depth; [exact HD|].
    eapply node_rep_frame; [|exact Hr]. intros a Ha%Hms. apply adopted_other; [done|by intros ->|]. intros Hin. by destruct (Hd a Hin).
  - eapply siblings_rep_mono; [|exact HR]. intros c u w es0 ms Hms Hr. eapply node_rep_depth; [exact HD|].
    eapply node_rep_frame; [|exact Hr]. intros a Ha%Hms. apply adopted_other; [done|by intros ->|]. intros Hin. by destruct (Hd a Hin).
Qed.
Lemma adopted_repl (g : gmap Z node) : repl <> 0 -> (forall b, b <> p -> g !! b = adopted (heap s) b) ->
  exists D, (d <= D)%nat /\ node_rep D g p repl lo (next_key K2 phi) es ns.
Proof using Hok HK Hlo HL HR Hfill Hik Hnd H0 Hnn Hn0.
  intros Hne Hg. destruct step_facts as (_ & _ & _ & _ & Hp0 & _). destruct place_NoDup as (_ & _ & _ & _ & Hpn & _).
  destruct Hfill as [(? & _)|(_ & d0 & Ho)]; [done|]. exists (max d d0). split; [lia|].
  apply (node_rep_depth d0); [lia|]. eapply node_rep_frame; [|by apply Ho]. intros a Ha. rewrite Hg by (by intros ->).
  unfold adopted. rewrite (proj2 (Z.eqb_neq _ _) Hne). cbn [negb andb]. destruct (Z.eqb_spec a repl) as [->|Hne'].
  - by rewrite lookup_alter_eq.
  - by rewrite lookup_alter_ne by done.
Qed.

Record stepped (g : gmap Z node) (i1 : internode) (D : nat) : Prop := {
  sp_node : g !! p = Some (NInternode i1);
  sp_held : held pp i1;
  sp_other : forall a, a <> p -> g !! a = adopted (heap s) a;
  sp_rep : left_rep (node_rep D g p) (kids plo i1) phi (el ++ es ++ er) (nl ++ ns ++ nr) \/
    kp <= 1 /\ headless (node_rep D g p) plo phi i1 (el ++ es ++ er) (nl ++ ns ++ nr) }.

(** The last child of an internode takes the place of it. *)
Lemma step_replace : repl <> 0 -> exists g i1 D, stepped g i1 D /\
  forall fuel, remove_loop (S (S fuel)) n ikey repl s = remove_rest (S fuel) n p kp ikey (with_heap s g).
Proof using All.
  intros Hne. destruct step_prefix as (c' & Hc' & Hlc' & Hrun). destruct step_facts as (Hsh & _ & _ & _ & Hp0 & _).
  destruct place_NoDup as (_ & _ & Hpl & Hpr & Hpn & Hd & _). destruct (filled_addr Hne) as [Hin [rn Hrn]].
  assert (repl <> p) as Hrp by (by intros ->). set (i1 := Internode.set_child (claimed i) c').
  set (g := <[repl := node_set_parent rn p]> (<[p := NInternode i1]> (heap s))).
  assert (forall a, a <> p -> g !! a = adopted (heap s) a) as Hg.
  { intros a Hap. unfold g, adopted. rewrite (proj2 (Z.eqb_neq _ _) Hne). cbn [negb andb]. destruct (Z.eqb_spec a repl) as [->|Hne'].
    - by rewrite lookup_insert_eq, Hrn.
    - by rewrite !lookup_insert_ne by done. }
  destruct (adopted_repl g Hne Hg) as (D & HD & Hrep). destruct (adopted_sides g D HD Hg) as [HL' HR'].
  exists g, i1, D. split.
  - split; [| |done|left].
    + unfold g. by rewrite lookup_insert_ne, lookup_insert_eq by done.
    + eapply held_header; [by apply claimed_held|done|]. apply set_child_shape; [by apply (claimed_held pp)|done].
    + replace (kids plo i1) with (K1 ++ (lo, repl) :: K2); [by apply left_rep_middle|].
      symmetry. by apply (kids_set_child plo (claimed i) c' K1 lo n K2 repl (hd_shape _ _ (claimed_held _ _ Hok))).
  - intros fuel. rewrite Hrun, (proj2 (Z.eqb_neq _ _) Hne). cbn [negb].
    erewrite bind_eq; [|apply (set_parent_eq _ _ _ rn); cbn; by rewrite lookup_insert_ne]. done.
Qed.

(** The child is gone: a first child leaves its place empty, another one does
    not. *)
Lemma gone : repl = 0 -> es = [] /\ ns = [] /\ 0 < lo.
Proof using Hfill. intros Hz. destruct Hfill as [(_ & ? & ? & ?)|(? & _)]; done. Qed.

Lemma step_first : repl = 0 -> K1 = [] -> exists g i1 D, stepped g i1 D /\
  forall fuel, remove_loop (S (S fuel)) n ikey repl s = remove_rest (S fuel) n p kp ikey (with_heap s g).
Proof using All.
  intros Hz HK1. destruct step_prefix as (c' & Hc' & Hlc' & Hrun). destruct (gone Hz) as (Hes & Hns & Hlo0).
  set (i1 := Internode.set_child (claimed i) c'). set (g := <[p := NInternode i1]> (heap s)).
  assert (forall a, a <> p -> g !! a = adopted (heap s) a) as Hg.
  { intros a Hap. unfold g, adopted. rewrite Hz. cbn [Z.eqb negb andb]. by rewrite lookup_insert_ne. }
  destruct (adopted_sides g d ltac:(done) Hg) as [HL' HR'].
  exists g, i1, d. split.
  - split; [by apply lookup_insert_eq| |done|right].
    + eapply held_header; [by apply claimed_held|done|]. apply set_child_shape; [by apply (claimed_held pp)|done].
    + split; [by rewrite HK1|]. pose proof (kids_set_child plo (claimed i) c' K1 lo n K2 repl (hd_shape _ _ (claimed_held _ _ Hok)) HK Hc') as HK'.
      rewrite Hz, HK1 in HK'. cbn [app] in HK'. assert (plo = lo) as Hpl by (unfold kids in HK'; by injection HK'). rewrite Hpl.
      exists K2. split_and!; [by rewrite <- Hpl at 1|done|lia|].
      rewrite HK1 in HL'. destruct HL' as [-> ->]. by rewrite Hes, Hns.
  - intros fuel. by rewrite Hrun, Hz, HK1.
Qed.

Lemma step_shift : repl = 0 -> K1 <> [] -> exists g i1 D, stepped g i1 D /\
  forall fuel, remove_loop (S (S fuel)) n ikey repl s = remove_rest (S fuel) n p kp ikey (with_heap s g).
Proof using All.
  intros Hz HK1. destruct step_prefix as (c' & Hc' & Hlc' & Hrun). destruct (gone Hz) as (Hes & Hns & Hlo0).
  destruct step_facts as (Hsh & _ & _ & Hkr & _).
  pose proof (hd_shape _ _ (claimed_held _ _ Hok)) as Hcsh.
  pose proof (kids_set_child plo (claimed i) c' K1 lo n K2 repl Hcsh HK Hc') as HK'.
  set (i0 := Internode.set_child (claimed i) c') in *. assert (shape i0) as Hsh0 by by apply set_child_shape.
  assert (0 < kp) as Hkp1 by (destruct K1; [done|]; rewrite zlength_cons; pose proof (zlength_nonneg K1); unfold zlength; cbn; lia).
  destruct (remove_child_spec i0 kp Hsh0) as (i1 & Hi1 & _); [cbn [nkeys_ i0 Internode.set_child claimed Internode.set_version]; lia|].
  destruct (kids_remove_child plo i0 i1 K1 _ K2 Hsh0 HK' HK1 Hi1) as (Hsh1 & Hh1 & Hn1 & HK1').
  set (g := <[p := NInternode i1]> (heap s)).
  assert (forall a, a <> p -> g !! a = adopted (heap s) a) as Hg.
  { intros a Hap. unfold g, adopted. rewrite Hz. cbn [Z.eqb negb andb]. by rewrite lookup_insert_ne. }
  destruct (adopted_sides g d ltac:(done) Hg) as [HL' HR'].
  exists g, i1, d. split.
  - split; [by apply lookup_insert_eq| |done|].
    + eapply held_header; [by apply claimed_held| |done]. by eapply same_header_trans; [|exact Hh1].
    + rewrite HK1', Hes, Hns. cbn [app]. destruct K1 as [|[x c] K]; [done|]. assert (x = plo) as -> by (by injection HK).
      destruct (decide (c = 0 /\ K = [])) as [[-> ->]|Hc].
      * right. split; [done|]. destruct HL' as (e1 & e2 & n1 & n2 & -> & -> & [(_ & -> & -> & -> & ?)|(? & _)] & [-> ->]); [|done].
        cbn [next_key] in *. exists K2. split_and!; done || lia.
      * left. apply left_rep_app; [|done]. apply (left_rep_widen _ (fun c lo hi hi' es ns => node_rep_widen d g p c lo hi hi' es ns) _ _ _ lo); [done|lia|].
        destruct (decide (c = 0)); [right; naive_solver|by left].
  - intros fuel. rewrite Hrun, Hz. cbn [Z.eqb negb]. destruct (Z.ltb_spec 0 kp); [|lia].
    unfold remove_child in Hi1. destruct (Internode.shift_down i0 (kp - 1) kp (nkeys_ i0 - kp)) as [im|] eqn:Him; [|done].
    cbn [mbind option_bind] in Hi1. injection Hi1 as Hi1. rewrite bind_assoc.
    erewrite bind_eq; [|eapply try_update_internode_eq; [cbn; apply lookup_insert_eq|exact Him]]. rewrite with_heap_insert.
    erewrite bind_eq; [|eapply update_internode_eq; cbn; apply lookup_insert_eq]. cbn [heap with_heap]. rewrite with_heap_insert, Hi1. done.
Qed.

Lemma step_done : exists g i1 D, stepped g i1 D /\
  forall fuel, remove_loop (S (S fuel)) n ikey repl s = remove_rest (S fuel) n p kp ikey (with_heap s g).
Proof using All.
  destruct (decide (repl = 0)); [|by apply step_replace]. destruct (decide (K1 = [])); [by apply step_first|by apply step_shift].
Qed.

(** * The lower bound of the parent *)
Abbreviation eN := (el ++ es ++ er).
Abbreviation nN := (nl ++ ns ++ nr).
Lemma parent_range : plo <= ikey < phi.
Proof using HK HL HR Hik.
  clear Habove. pose proof (siblings_next_key _ _ _ _ _ HR). assert (plo <= lo); [|lia].
  destruct K1 as [|[x c] K]; injection HK as -> _; [done|]. by eapply left_rep_first.
Qed.
Lemma headless_of R (i1 : internode) es0 ns0 : rd (child_ i1) 0 = 0 ->
  left_rep R (kids plo i1) phi es0 ns0 \/ kp <= 1 /\ headless R plo phi i1 es0 ns0 -> headless R plo phi i1 es0 ns0.
Proof using Type.
  intros Hc [Hr|[_ ?]]; [|done]. unfold kids in Hr. rewrite Hc in Hr.
  destruct Hr as (e1 & e2 & n1 & n2 & -> & -> & [(_ & Hp & -> & -> & H)|(? & _)] & Hs); [|done].
  exists (separators i1). split_and!; [unfold kids; by rewrite Hc|done|lia|done].
Qed.

Lemma rest_redirect g i1 D : stepped g i1 D -> exists g2 plo' ikey2,
  above g2 root anc pp p plo' phi es1 es2 ns1 ns2 /\ g2 !! p = Some (NInternode i1) /\ same_leaves g g2 (ns1 ++ ns2) /\
  (forall a, a ∉ ns1 ++ ns2 -> g2 !! a = g !! a) /\
  (if decide (nkeys_ i1 = 0) then g2 = g /\ plo' = plo /\ ikey2 = ikey else left_rep (node_rep D g2 p) (kids plo' i1) phi eN nN) /\
  forall fuel, (length anc < fuel)%nat ->
    (let! pi := get_internode p in
     if (kp <=? 1) && (0 <? nkeys_ pi) && (rd (child_ pi) 0 =? 0) then
       redirect fuel p ikey (rd (iikey0_ pi) 0) ;! ret (rd (iikey0_ pi) 0)
     else ret ikey) (with_heap s g) = Some (ikey2, with_heap s g2).
Proof using All.
  intros [Hp Hh Ho Hrep]. destruct place_NoDup as (Hnd' & Hpn & _ & _ & _ & Hdis & _). destruct step_facts as (_ & _ & _ & _ & Hp0 & _).
  pose proof (sh_nkeys _ (hd_shape _ _ Hh)) as Hn1.
  assert (above g root anc pp p plo phi es1 es2 ns1 ns2) as Ha.
  { eapply above_frame; [|exact Habove]. intros a Ha. apply adopted_other; [done|by intros ->|]. intros Hin.
    apply (Hdis a); [rewrite !elem_of_app; tauto|done]. }
  assert (forall fuel, (let! pi := get_internode p in
     if (kp <=? 1) && (0 <? nkeys_ pi) && (rd (child_ pi) 0 =? 0) then
       redirect fuel p ikey (rd (iikey0_ pi) 0) ;! ret (rd (iikey0_ pi) 0)
     else ret ikey) (with_heap s g) = (if (kp <=? 1) && (0 <? nkeys_ i1) && (rd (child_ i1) 0 =? 0) then
       redirect fuel p ikey (rd (iikey0_ i1) 0) ;! ret (rd (iikey0_ i1) 0)
     else ret ikey) (with_heap s g)) as Hrun by (intros fuel; by erewrite bind_eq by (by apply get_internode_eq)).
  destruct ((kp <=? 1) && (0 <? nkeys_ i1) && (rd (child_ i1) 0 =? 0)) eqn:Hcond.
  - apply andb_true_iff in Hcond as [[_ Hnk%Z.ltb_lt]%andb_true_iff Hc%Z.eqb_eq].
    destruct (headless_of _ _ _ _ Hc Hrep) as (K & HK' & [Hplo Hle] & Hsib).
    destruct K as [|[k c] K].
    { pose proof (f_equal length (kids_zip plo i1 (hd_shape _ _ Hh))) as Hlen. rewrite HK', length_zip_with in Hlen.
      pose proof (zlength_keys _ (hd_shape _ _ Hh)). pose proof (zlength_children _ (hd_shape _ _ Hh)). unfold zlength in *. cbn [length] in Hlen. lia. }
    pose proof (kids_key plo i1 [(plo, 0)] k c K (hd_shape _ _ Hh) HK' ltac:(done)) as Hk. change (zlength [(plo, 0)] - 1) with 0 in Hk.
    assert (k < phi) as Hkphi by (destruct Hsib as (? & ? & ? & ? & _ & _ & Hk1 & _ & _ & Hs%siblings_next_key); lia).
    cbn [next_key] in Hle. pose proof parent_range as Hr.
    destruct (redirect_run root anc pp p plo phi es1 es2 ns1 ns2 (with_heap s g) (NInternode i1) (-1) k ikey)
      as (g2 & Ha2 & Hsl & Hother & Hloop); try done; [|by destruct (hd_busy _ _ Hh) as (_ & ? & _)|by apply Hh|].
    { intros Hz. apply H0. rewrite !elem_of_app, elem_of_cons in *. tauto. }
    cbn [heap with_heap] in Hother, Hsl.
    assert (forall a, a ∉ ns1 ++ ns2 -> g2 !! a = g !! a) as Hg2 by (intros a Hin; rewrite Hother, decide_False by (done || lia); done).
    exists g2, k, k. split_and!; [done|by rewrite Hg2|done|done| |].
    + rewrite decide_False by lia. rewrite (kids_bound plo k i1 _ _ _ HK').
      exists [], eN, [], nN. split_and!; [done..|left; split_and!; done || lia|].
      eapply siblings_rep_mono; [|exact Hsib]. intros ? ? ? ? ? Hs. apply node_rep_frame. intros a Hin%Hs. by apply Hg2, Hdis.
    + intros fuel Hf. rewrite Hrun, Hk. unfold redirect. rewrite (bind_eq _ _ _ _ _ (Hloop fuel Hf)). done.
  - exists g, plo, ikey. split_and!; try done; [intros a _; by left|].
    case_decide as Hz; [done|]. destruct Hrep as [|[Hkp (K & HK' & _)]]; [done|]. exfalso.
    assert (rd (child_ i1) 0 = 0) as Hc by (unfold kids in HK'; by injection HK').
    rewrite Hc in Hcond. cbn [Z.eqb] in Hcond. rewrite andb_true_r, andb_false_iff, Z.leb_gt, Z.ltb_ge in Hcond. lia.
Qed.

(** The end of the round: the node is unlocked. *)
Definition remove_tail (fuel : nat) (ikey : Z) (i1 : internode) : M Z :=
  if negb (nkeys_ i1 =? 0) || Nodeversion.is_root NV (iversion i1) then ret p
  else
    mark_deleted p ;!
    deallocate_rcu p ;!
    let! pi := get_internode p in
    let replacement := rd (child_ pi) 0 in
    try_update_internode p (fun i => c ← wr (child_ i) 0 0; Some (Internode.set_child i c)) ;!
    remove_loop fuel p ikey replacement.

Lemma step_run : exists g i1 D g2 plo' ikey2, stepped g i1 D /\
  above g2 root anc pp p plo' phi es1 es2 ns1 ns2 /\ g2 !! p = Some (NInternode i1) /\ same_leaves g g2 (ns1 ++ ns2) /\
  (forall a, a ∉ ns1 ++ ns2 -> g2 !! a = g !! a) /\
  (if decide (nkeys_ i1 = 0) then g2 = g /\ plo' = plo /\ ikey2 = ikey else left_rep (node_rep D g2 p) (kids plo' i1) phi eN nN) /\
  forall fuel, (length anc < S fuel)%nat -> remove_loop (S (S fuel)) n ikey repl s =
    remove_tail (S fuel) ikey2 i1 (with_heap s (<[n := unlocked nd]> g2)).
Proof using All.
  destruct step_done as (g & i1 & D & Hst & Hrun). destruct step_facts as (_ & _ & _ & _ & _ & Hnp & _).
  destruct (rest_redirect g i1 D Hst) as (g2 & plo' & ikey2 & Ha2 & Hp2 & Hsl & Ho & Hcase & Hred).
  exists g, i1, D, g2, plo', ikey2. split_and!; try done. intros fuel Hf. rewrite Hrun. unfold remove_rest.
  rewrite <- bind_assoc, (bind_eq _ _ _ _ _ (Hred (S fuel) Hf)).
  assert (g2 !! n = Some nd) as Hn2.
  { rewrite !not_elem_of_app, !not_elem_of_cons in Hnn. rewrite Ho by (rewrite not_elem_of_app; tauto).
    rewrite adopted_other; [done|apply Hst|done|tauto]. }
  rewrite (bind_eq _ _ _ _ _ (unlock_held (with_heap s g2) n nd Hn2 Hl)). cbn [heap with_heap].
  erewrite bind_eq; [done|]. apply get_internode_eq. cbn. by rewrite lookup_insert_ne.
Qed.

(** What the round keeps. *)
Lemma step_chain g i1 D g2 : stepped g i1 D -> same_leaves g g2 (ns1 ++ ns2) -> (forall a, a ∉ ns1 ++ ns2 -> g2 !! a = g !! a) ->
  chain_kept (heap s) g2 (ns1 ++ nN ++ ns2).
Proof using All.
  intros Hst Hsl Ho. destruct place_NoDup as (_ & Hpn & Hpl & Hpr & Hps & Hdis & _).
  apply (chain_kept_trans _ g).
  - intros a Ha. assert (a <> p) as Hap.
    { intros ->. rewrite !elem_of_app in *. tauto. }
    pose proof (sp_other _ _ _ Hst a Hap) as Hga. unfold is_leaf_at. rewrite Hga. unfold adopted.
    destruct (_ && _); [|split; [done|]; intros l Hla; by exists l].
    split; [by destruct (heap s !! a) as [[]|]|]. intros l ->. by exists (Leaf.set_parent l p).
  - apply same_leaves_chain. intros a Ha. destruct (decide (a ∈ ns1 ++ ns2)) as [Hin|Hin]; [by apply Hsl|]. left. by apply Ho.
Qed.
Lemma step_nodes a : a ∈ ns1 ++ nN ++ ns2 -> a <> p /\ a <> n.
Proof using Hnd Hnn.
  destruct place_NoDup as (_ & Hpn & Hpl & Hpr & Hps & _). clear -Hnn Hpn Hpl Hpr Hps.
  rewrite !not_elem_of_app, !not_elem_of_cons in *. rewrite !elem_of_app. intros Ha. split; intros ->; tauto.
Qed.
Lemma step_leaves : leaves (heap s) ((ns1 ++ p :: nl) ++ ns ++ nr ++ ns2) = leaves (heap s) (ns1 ++ nN ++ ns2).
Proof using Hi. rewrite <- !app_assoc, <- app_comm_cons, !leaves_app, (leaves_internode _ _ _ _ Hi), !leaves_app. done. Qed.
Lemma chain_kept_ext h g g' ns0 : (forall a, a ∈ ns0 -> g' !! a = g !! a) -> chain_kept h g ns0 -> chain_kept h g' ns0.
Proof using Type. intros He Hk a Ha. unfold is_leaf_at. rewrite He by done. by apply Hk. Qed.

(** The parent stays. *)
Lemma step_end g i1 D g2 plo' : stepped g i1 D -> above g2 root anc pp p plo' phi es1 es2 ns1 ns2 ->
  chain_kept (heap s) g2 (ns1 ++ nN ++ ns2) -> left_rep (node_rep D g2 p) (kids plo' i1) phi eN nN ->
  shrunk (heap s) (<[p := NInternode (released i1)]> (<[n := unlocked nd]> g2)) root
    ((es1 ++ el) ++ es ++ er ++ es2) ((ns1 ++ p :: nl) ++ ns ++ nr ++ ns2).
Proof using All.
  intros Hst Ha2 Hk Hrep. set (g4 := <[p := _]> _).
  assert (forall a, a ∈ ns1 ++ nN ++ ns2 -> g4 !! a = g2 !! a) as Hg4.
  { intros a Ha. destruct (step_nodes a Ha). unfold g4. by rewrite !lookup_insert_ne. }
  assert (above g4 root anc pp p plo' phi es1 es2 ns1 ns2) as Ha4.
  { eapply above_frame; [|exact Ha2]. intros a Ha. apply Hg4. rewrite !elem_of_app in *. tauto. }
  assert (node_rep (S D) g4 pp p plo' phi eN (p :: nN)) as Hn4.
  { apply (node_rep_kids _ _ _ _ _ _ (released i1)); [apply lookup_insert_eq|apply released_ok, Hst|].
    change (kids plo' (released i1)) with (kids plo' i1). eapply left_rep_mono; [|exact Hrep].
    intros c u w e0 ms Hms. apply node_rep_frame. intros a Ha%Hms. apply Hg4. rewrite elem_of_app. right. apply elem_of_app. by left. }
  destruct (above_plug _ _ _ _ _ _ _ _ _ _ _ Ha4 _ _ _ Hn4) as [D' HD].
  exists D', ((ns1 ++ p :: nl) ++ ns ++ nr ++ ns2).
  assert (ns1 ++ (p :: nN) ++ ns2 = (ns1 ++ p :: nl) ++ ns ++ nr ++ ns2) as Hnn' by (by rewrite <- !app_assoc, <- !app_comm_cons, <- !app_assoc).
  assert (chain_kept (heap s) g4 ((ns1 ++ p :: nl) ++ ns ++ nr ++ ns2)) as Hk4.
  { intros a Ha. destruct (decide (a = p)) as [->|Hap].
    - unfold g4, is_leaf_at. rewrite lookup_insert_eq, Hi. by split.
    - apply (chain_kept_ext _ g2 g4 _ Hg4 Hk). revert Ha. rewrite !elem_of_app, elem_of_cons. tauto. }
  split_and!; [|done|done|by apply chain_kept_leaves|done].
  rewrite <- Hnn'. replace ((es1 ++ el) ++ es ++ er ++ es2) with (es1 ++ eN ++ es2) by (by rewrite <- !app_assoc). done.
Qed.

(** The parent goes: what is left of its children takes its place. *)
Lemma step_up g i1 D g4 : stepped g i1 D -> nkeys_ i1 = 0 -> (forall a, a ∈ nN -> g4 !! a = g !! a) ->
  filled g4 (rd (child_ i1) 0) plo phi eN nN.
Proof using All.
  intros Hst Hz Hg4. destruct (place_NoDup) as (_ & _ & _ & _ & _ & _ & _). destruct step_facts as (_ & _ & _ & _ & Hp0 & _).
  pose proof parent_range as Hr.
  assert (separators i1 = []) as Hsep by (unfold separators; by rewrite Hz).
  assert (NoDup nN) as HnN.
  { assert ((ns1 ++ p :: nl) ++ ns ++ nr ++ ns2 ≡ₚ nN ++ ns1 ++ p :: ns2) as HP by solve_Permutation.
    rewrite HP in Hnd. by apply NoDup_app in Hnd as [? _]. }
  destruct (sp_rep _ _ _ Hst) as [Hrep|[_ (K & HK' & Hpos & Hsib)]].
  - unfold kids in Hrep. rewrite Hsep in Hrep. destruct Hrep as (e1 & e2 & n1 & n2 & He & Hns & Hor & [-> ->]).
    rewrite app_nil_r in He, Hns. subst e1 n1.
    cbn [next_key] in Hor. destruct Hor as [(_ & Hpl & _)|(Hc & _ & Hrep)]; [lia|]. right. split; [done|]. exists D.
    eapply orphan_frame; [|by eapply node_orphan]. intros a Ha. by apply Hg4.
  - unfold kids in HK'. rewrite Hsep in HK'. injection HK' as Hc <-. destruct Hsib as [-> ->]. left. split_and!; done || lia.
Qed.
End step.

(** * The loop *)
Lemma above_root_par h root anc par a lo hi es1 es2 ns1 ns2 :
  above h root anc par a lo hi es1 es2 ns1 ns2 -> 0 ∉ ns1 -> (par = 0 <-> anc = []) /\ (anc = [] -> lo = 0).
Proof.
  intros [|? ? ? p ? ? ? ? ? ? ? ? ? ? ? ? ? ? ?]; intros; [done|]. rewrite not_elem_of_app, not_elem_of_cons in *.
  split; [split; [naive_solver|done]|done].
Qed.

(** A node that lost its last key, as the loop leaves it. *)
Definition emptied (i : internode) (c : list Z) : node :=
  NInternode (Internode.set_child (Internode.set_version i (Nodeversion.mark_deleted NV (iversion i))) c).
Lemma emptied_run s p i1 ikey :
  heap s !! p = Some (NInternode i1) -> shape i1 -> Nodeversion.locked NV (iversion i1) = true ->
  exists c, forall fuel, remove_tail p fuel ikey i1 s =
    if negb (nkeys_ i1 =? 0) || Nodeversion.is_root NV (iversion i1) then Some (p, s)
    else remove_loop fuel p ikey (rd (child_ i1) 0) (with_limbo s (<[p := emptied i1 c]> (heap s)) (p :: limbo s)).
Proof.
  intros Hp Hsh Hl. destruct (wr_spec (child_ i1) 0 0) as (c & Hc & _); [rewrite (sh_child _ Hsh); done|]. exists c. intros fuel.
  unfold remove_tail. destruct (_ || _); [done|].
  unfold mark_deleted, mark_locked. rewrite !bind_assoc, (bind_eq _ _ _ _ _ (version_eq _ _ _ Hp)), bind_assoc, bind_require by done.
  rewrite (bind_eq _ _ _ _ _ (set_version_eq _ _ _ _ Hp)).
  set (s1 := with_heap s _). assert (heap s1 !! p = Some (NInternode (Internode.set_version i1 (Nodeversion.mark_deleted NV (iversion i1)))))
    as Hp1 by apply lookup_insert_eq.
  rewrite (bind_eq (deallocate_rcu p) _ s1 tt (with_limbo s (heap s1) (p :: limbo s))) by done.
  erewrite bind_eq by (by apply get_internode_eq). cbn [child_ Internode.set_version].
  erewrite bind_eq; [|eapply try_update_internode_eq; [exact Hp1|cbn [child_ Internode.set_version]; by rewrite Hc]].
  unfold s1, with_limbo, with_heap. cbn. by rewrite insert_insert_eq.
Qed.
Lemma mark_deleted_locked v : Nodeversion.locked NV v = true -> Nodeversion.locked NV (Nodeversion.mark_deleted NV v) = true.
Proof.
  rewrite !(locked_bit NV 0 9). intros H. unfold Nodeversion.mark_deleted. rewrite Z.lor_spec, H. done.
Qed.

Lemma NoDup_up (p : Z) ns1 nl ns nr ns2 : NoDup ((ns1 ++ p :: nl) ++ ns ++ nr ++ ns2) ->
  NoDup (ns1 ++ (nl ++ ns ++ nr) ++ ns2) /\ p ∉ ns1 ++ (nl ++ ns ++ nr) ++ ns2.
Proof.
  assert ((ns1 ++ p :: nl) ++ ns ++ nr ++ ns2 ≡ₚ p :: ns1 ++ (nl ++ ns ++ nr) ++ ns2) as -> by solve_Permutation.
  by intros [? ?]%NoDup_cons.
Qed.

Lemma remove_up_run root anc : forall par n lo hi es1 es2 ns1 ns2 repl es ns s nd ikey,
  above (heap s) root anc par n lo hi es1 es2 ns1 ns2 -> anc <> [] -> filled (heap s) repl lo hi es ns -> lo <= ikey < hi ->
  NoDup (ns1 ++ ns ++ ns2) -> 0 ∉ ns1 ++ ns ++ ns2 -> n ∉ ns1 ++ ns ++ ns2 -> n <> 0 ->
  heap s !! n = Some nd -> Nodeversion.locked NV (node_version nd) = true -> node_parent nd = par ->
  exists g lim, shrunk (heap s) g root (es1 ++ es ++ es2) (ns1 ++ ns ++ ns2) /\
    (forall a, a ∉ n :: ns1 ++ ns ++ ns2 -> g !! a = heap s !! a) /\
    forall fuel, (length anc < fuel)%nat -> bind (remove_loop fuel n ikey repl) unlock s = Some (tt, with_limbo s g lim).
Proof.
  induction anc as [|p anc IH]; intros par n lo hi es1 es2 ns1 ns2 repl es ns s nd ikey Ha Hanc Hfill Hik Hnd H0 Hnn Hn0 Hn Hl Hpar; [done|].
  clear Hanc. revert Hpar.
  inversion Ha as [|? d pp ? plo phi es1' es2' ns1' ns2' i K1 ? ? K2 el er nl nr Ha' Hi Hok HK _ Hk HL HR]; subst. clear Ha. rename par into p. intros Hpar.
  destruct (step_run s root anc pp p plo phi es1' es2' ns1' ns2' i K1 K2 lo n d el er es nl nr ns repl ikey nd)
    as (g & i1 & D & g2 & plo' & ikey2 & Hst & Ha2 & Hp2 & Hsl & Ho & Hcase & Hrun); try done.
  assert (chain_kept (heap s) g2 (ns1' ++ (nl ++ ns ++ nr) ++ ns2')) as Hk2 by (by eapply step_chain).
  set (g3 := <[n := unlocked nd]> g2) in *.
  assert (p <> n) as Hpn by (intros ->; apply Hnn; rewrite !elem_of_app, elem_of_cons; tauto).
  assert (g3 !! p = Some (NInternode i1)) as Hp3 by (unfold g3; by rewrite lookup_insert_ne).
  pose proof (sp_held _ _ _ _ _ _ _ _ _ _ _ _ _ _ _ _ Hst) as Hh.
  assert (forall a, a ∉ n :: (ns1' ++ p :: nl) ++ ns ++ nr ++ ns2' -> g2 !! a = heap s !! a /\ a <> n /\ a <> p) as Hout.
  { intros a Hin. rewrite not_elem_of_cons, !not_elem_of_app, not_elem_of_cons in Hin. destruct Hin as (Han & (H1 & Hap & _) & Hns & _ & H2).
    split_and!; [|done..]. rewrite Ho by (by rewrite not_elem_of_app). eapply adopted_other; [exact Hfill|apply Hst|done..]. }
  destruct (bool_decide_reflect (nkeys_ i1 = 0 /\ pp <> 0)) as [[Hz Hpp]|Hstay].
  - (* the parent goes *)
    rewrite decide_True in Hcase by done. destruct Hcase as (-> & -> & ->).
    destruct (emptied_run (with_heap s g3) p i1 ikey Hp3) as [c Hc]; [apply Hh|by destruct (hd_busy _ _ Hh) as (_ & ? & _)|].
    set (g4 := <[p := emptied i1 c]> g3) in *.
    assert (0 ∉ ns1') as H0' by (rewrite !not_elem_of_app in *; tauto).
    assert (forall a, a ∈ ns1' ++ (nl ++ ns ++ nr) ++ ns2' -> g4 !! a = g !! a) as Hg4.
    { intros a Hin. destruct (step_nodes p ns1' ns2' n nl nr ns Hnd Hnn a Hin). unfold g4, g3. by rewrite !lookup_insert_ne. }
    destruct (NoDup_up _ _ _ _ _ _ Hnd) as (Hnd4 & Hp4).
    destruct (IH pp p plo phi es1' es2' ns1' ns2' (rd (child_ i1) 0) (el ++ es ++ er) (nl ++ ns ++ nr)
      (with_limbo s (<[p := emptied i1 c]> g3) (p :: limbo s)) (emptied i1 c) ikey) as (g' & lim & Hsh & Hoth & Hloop).
    + eapply above_frame; [|exact Ha2]. intros a Hin. apply Hg4; rewrite !elem_of_app in *; tauto.
    + intros Hnil. by apply Hpp, (above_root_par _ _ _ _ _ _ _ _ _ _ _ Ha' H0').
    + eapply step_up; try done. intros a Hin. apply Hg4. rewrite !elem_of_app in *. tauto.
    + by eapply parent_range.
    + done.
    + intros Hin. apply H0. rewrite !elem_of_app, elem_of_cons in *. tauto.
    + done.
    + intros ->. apply H0. rewrite !elem_of_app, elem_of_cons. tauto.
    + cbn. by apply lookup_insert_eq.
    + cbn. apply mark_deleted_locked. by destruct (hd_busy _ _ Hh) as (_ & ? & _).
    + apply Hh.
    + exists g', lim. split_and!.
      * destruct Hsh as (D' & ns' & HD & Hnd' & Hsub & Hlv & Hkp). cbn [heap with_limbo] in Hlv, Hkp.
        assert (chain_kept (heap s) g4 (ns1' ++ (nl ++ ns ++ nr) ++ ns2')) as Hk4 by (by eapply chain_kept_ext).
        exists D', ns'. split_and!; [|done| | |].
        -- replace ((es1' ++ el) ++ es ++ er ++ es2') with (es1' ++ (el ++ es ++ er) ++ es2') by (by rewrite <- !app_assoc). done.
        -- intros a Hin%Hsub. rewrite !elem_of_app, elem_of_cons in *. tauto.
        -- etrans; [exact Hlv|]. etrans; [exact (chain_kept_leaves _ _ _ Hk4)|]. symmetry. by eapply step_leaves.
        -- eapply chain_kept_trans; [|exact Hkp]. eapply chain_kept_sub; [exact Hsub|done].
      * intros a Hin. destruct (Hout a Hin) as (Ha & Han & Hap).
        rewrite Hoth by (rewrite not_elem_of_cons, !not_elem_of_app, ?not_elem_of_cons in *; tauto).
        cbn. unfold g4, g3. by rewrite !lookup_insert_ne.
      * intros [|[|fuel]] Hf; [cbn in Hf; lia..|]. etrans; [|apply (Hloop (S fuel)); cbn in Hf; lia].
        unfold bind at 1 2. rewrite (Hrun fuel) by (cbn in Hf; lia). by rewrite Hc, Hz, (hd_root _ _ Hh), (proj2 (Z.eqb_neq _ _) Hpp).
  - assert (left_rep (node_rep D g2 p) (kids plo' i1) phi (el ++ es ++ er) (nl ++ ns ++ nr)) as Hrep.
    { case_decide as Hz; [|done]. destruct Hcase as (-> & -> & ->).
      destruct (sp_rep _ _ _ _ _ _ _ _ _ _ _ _ _ _ _ _ Hst) as [|[_ (K & _ & [Hpos _] & _)]]; [done|exfalso].
      destruct (above_root_par _ _ _ _ _ _ _ _ _ _ _ Ha') as [Hpar0 Hlo0]; [rewrite !not_elem_of_app in *; tauto|].
      destruct (decide (pp = 0)) as [Hpp|Hpp]; [|by apply Hstay]. rewrite (Hlo0 (proj1 Hpar0 Hpp)) in Hpos. lia. }
    exists (<[p := NInternode (released i1)]> g3), (limbo s). split_and!.
    + eapply step_end; done.
    + intros a Hin. destruct (Hout a Hin) as (Ha & Han & Hap). unfold g3. by rewrite !lookup_insert_ne.
    + intros [|[|fuel]] Hf; [cbn in Hf; lia..|]. 
      destruct (emptied_run (with_heap s g3) p i1 ikey2 Hp3) as [c Hc]; [apply Hh|by destruct (hd_busy _ _ Hh) as (_ & ? & _)|].
      assert ((negb (nkeys_ i1 =? 0) || Nodeversion.is_root NV (iversion i1)) = true) as Hc'.
      { rewrite (hd_root _ _ Hh). destruct (Z.eqb_spec (nkeys_ i1) 0), (Z.eqb_spec pp 0); naive_solver. }
      specialize (Hc (S fuel)). rewrite Hc' in Hc. rewrite (bind_eq _ _ _ _ _ (eq_trans (Hrun fuel ltac:(cbn in Hf; lia)) Hc)).
      rewrite (unlock_held _ _ (NInternode i1)) by (done || by destruct (hd_busy _ _ Hh) as (_ & ? & _)). done.
Qed.
