(* ===== verification/SplitUp.v ===== *)
(** The loop of [make_split], [split_loop] of [Insert]: a pair of siblings, of
    which the right one is not linked into the tree yet, on its way up.

    While the loop runs, nodes are locked and one leaf waits for its entry.
    [settled] is the heap as it will be: the locked nodes unlocked, and the two
    leaves of the split with the content they end up with. *)
From Stdlib Require Import Sorted.
From S2P Require Import Prelude Compiler Memory StringSlice Key Ksearch Kpermuter Nodeversion.
From S2P Require Import Stringbag Node Heap Get Insert Remove Tree Find Steps InternodeSpec LeafSpec Locate Put NewLayer Ancestors LinkChild.

(** * The heap to come *)
Section settled.
Context (b0 c0 : Z) (lf1 lf2 : leaf).

Definition settle (a : Z) (n : node) : node :=
  match n with
  | NLeaf l =>
      if a =? b0 then NLeaf (Leaf.set_version (Leaf.set_parent lf1 (lparent_ l))
        (Nodeversion.unlock NV (Nodeversion.mark_split NV (lversion l))))
      else if a =? c0 then NLeaf (Leaf.set_version (Leaf.set_parent lf2 (lparent_ l)) (Nodeversion.unlock NV (lversion l)))
      else NLeaf (Leaf.set_version l (Nodeversion.unlock NV (lversion l)))
  | NInternode i => NInternode (Internode.set_version i (Nodeversion.unlock NV (iversion i)))
  end.
(** The nodes [L] are locked. *)
Definition settled (L : list Z) (h : gmap Z node) : gmap Z node :=
  map_imap (fun a n => Some (if bool_decide (a ∈ L) then settle a n else n)) h.

Lemma settled_in L h a : a ∈ L -> settled L h !! a = settle a <$> h !! a.
Proof using Type.
  intros Ha. unfold settled. rewrite map_lookup_imap, bool_decide_eq_true_2 by done. by destruct (h !! a).
Qed.
Lemma settled_out L h a : a ∉ L -> settled L h !! a = h !! a.
Proof using Type.
  intros Ha. unfold settled. rewrite map_lookup_imap, bool_decide_eq_false_2 by done. by destruct (h !! a).
Qed.
Lemma settle_parent a n q : settle a (node_set_parent n q) = node_set_parent (settle a n) q.
Proof using Type. destruct n as [l|i]; [|done]. cbn. by destruct (a =? b0), (a =? c0). Qed.
Lemma settle_parent_of a n : node_parent (settle a n) = node_parent n.
Proof using Type. destruct n as [l|i]; [|done]. cbn. by destruct (a =? b0), (a =? c0). Qed.
Lemma settled_parent L h a q h' :
  h' !! a = (fun n => node_set_parent n q) <$> h !! a ->
  settled L h' !! a = (fun n => node_set_parent n q) <$> settled L h !! a.
Proof using Type.
  intros H. destruct (decide (a ∈ L)).
  - rewrite !settled_in, H by done. destruct (h !! a); [|done]. cbn. by rewrite settle_parent.
  - by rewrite !settled_out.
Qed.
Lemma settled_same L L' h h' a :
  h' !! a = h !! a -> (a ∈ L <-> a ∈ L') -> settled L' h' !! a = settled L h !! a.
Proof using Type.
  intros H HL. destruct (decide (a ∈ L)) as [Ha|Ha].
  - by rewrite !settled_in, H by (done || by apply HL).
  - rewrite !settled_out, H; [done|done|]. by rewrite <- HL.
Qed.
End settled.

(** * The invariant of the loop *)
Section up.
Context (b0 c0 : Z) (lf1 lf2 : leaf).
Abbreviation sett := (settled b0 c0 lf1 lf2).
Context (s0 : state) (base : list Z) (ET : list entry) (LS : list Z) (p0 : Z).
Context (Hbase : NoDup base) (Haddr : forall a, a ∈ base -> 0 < a < next_fresh s0) (Hfr : 0 < next_fresh s0).

(** The nodes are those of the start and [k] new ones. *)
Record grown (s : state) (k : nat) (ns : list Z) : Prop := {
  gr_state : s = at_heap s0 (heap s) (next_fresh s0 + 64 * Z.of_nat k);
  gr_nodes : ns ≡ₚ base ++ fresh (next_fresh s0) k;
  gr_other : forall a, a ∉ ns -> heap s !! a = heap s0 !! a }.

Lemma grown_nodes s k ns : grown s k ns ->
  NoDup ns /\ 0 ∉ ns /\ (forall a, a ∈ ns -> a < next_fresh s) /\ next_fresh s ∉ ns /\ next_fresh s <> 0.
Proof using Hbase Haddr Hfr.
  intros [Hs Hp _]. assert (next_fresh s = next_fresh s0 + 64 * Z.of_nat k) as Hn by by rewrite Hs.
  assert (forall a, a ∈ ns -> 0 < a < next_fresh s) as Ha.
  { intros a. rewrite Hp, elem_of_app, Hn. intros [?%Haddr|?%fresh_range]; lia. }
  split_and!; [|intros ?%Ha; lia|intros a ?%Ha; lia|intros ?%Ha; lia|lia].
  rewrite Hp. apply NoDup_app. split_and!; [done| |apply fresh_NoDup].
  intros a ?%Haddr ?%fresh_range. lia.
Qed.
Lemma grown_snoc s k ns h' ns' :
  grown s k ns -> ns' ≡ₚ next_fresh s :: ns -> (forall a, a ∉ ns' -> h' !! a = heap s !! a) ->
  grown (at_heap s h' (next_fresh s + 64)) (S k) ns'.
Proof using Type.
  intros [Hs Hp Ho] Hns Hh. assert (next_fresh s = next_fresh s0 + 64 * Z.of_nat k) as Hn by by rewrite Hs. split.
  - rewrite Hs. unfold at_heap. cbn. f_equal. lia.
  - rewrite Hns, Hp, fresh_snoc, Hn. solve_Permutation.
  - intros a Ha. cbn. rewrite Hh by done. apply Ho. intros Ha'. apply Ha. rewrite Hns, elem_of_cons. by right.
Qed.
Lemma grown_same s k ns h' ns' :
  grown s k ns -> ns' ≡ₚ ns -> (forall a, a ∉ ns -> h' !! a = heap s !! a) -> grown (with_heap s h') k ns'.
Proof using Type.
  intros [Hs Hp Ho] Hns Hh. split.
  - rewrite Hs. done.
  - by rewrite Hns.
  - intros a Ha. cbn. rewrite Hns in Ha. rewrite Hh by done. by apply Ho.
Qed.

(** The pointer to the layer leads to its root. *)
Definition points (g : gmap Z node) (root : Z) (ns : list Z) : Prop :=
  p0 ∈ ns /\ (p0 = root \/ exists m, g !! p0 = Some m /\ Nodeversion.is_root NV (node_version m) = false /\ node_parent m = root).

(** At most the parent of the node [a] has changed. *)
Definition moved (g g' : gmap Z node) (a : Z) : Prop :=
  g' !! a = g !! a \/ exists q, g' !! a = (fun m => node_set_parent m q) <$> g !! a.
Lemma moved_leaf g g' a : moved g g' a -> is_leaf_at g' a = is_leaf_at g a.
Proof using Type. unfold is_leaf_at. intros [->|[q ->]]; [done|]. by destruct (g !! a) as [[]|]. Qed.
Lemma moved_version g g' a m : moved g g' a -> g !! a = Some m -> exists m', g' !! a = Some m' /\ node_version m' = node_version m.
Proof using Type. intros [->|[q ->]] ->; [by exists m|]. exists (node_set_parent m q). split; [done|]. by destruct m. Qed.

Record pending (s : state) (k : nat) (L : list Z) (root : Z) (anc : list Z) (par n lo hi : Z) (es1 es2 : list entry)
    (ns1 ns2 : list Z) (dn : nat) (esn : list entry) (nsn : list Z) (child x : Z) (dc : nat) (esc : list entry)
    (nsc : list Z) (nd cd : node) : Prop := {
  pd_above : above (sett L (heap s)) root anc par n lo hi es1 es2 ns1 ns2;
  pd_left : orphan dn (sett L (heap s)) n lo x esn nsn;
  pd_right : orphan dc (sett L (heap s)) child x hi esc nsc;
  pd_x : lo < x < hi;
  pd_es : es1 ++ (esn ++ esc) ++ es2 = ET;
  pd_leaves : leaves (sett L (heap s)) (ns1 ++ (nsn ++ nsc) ++ ns2) = LS;
  pd_grown : grown s k (ns1 ++ (nsn ++ nsc) ++ ns2);
  pd_n : heap s !! n = Some nd /\ busy (node_version nd) /\ node_parent nd = par;
  pd_c : heap s !! child = Some cd /\ busy (node_version cd);
  pd_L : n ∈ L /\ child ∈ L /\ forall a, a ∈ L -> a ∈ nsn ++ nsc;
  pd_nonroot : Nodeversion.is_root NV (node_version (settle b0 c0 lf1 lf2 n nd)) = false;
  pd_ptr : p0 ∈ ns1 ++ (nsn ++ nsc) ++ ns2 /\ p0 = root;
  pd_linked : linked (sett L (heap s)) 0 LS }.

(** The pair is in the tree. *)
Record linked_up (s : state) (k : nat) (L : list Z) : Prop := {
  lu_rep : exists D root ns, node_rep D (sett L (heap s)) 0 root 0 (2 ^ ikey_bits) ET ns /\
    leaves (sett L (heap s)) ns = LS /\ grown s k ns /\ points (sett L (heap s)) root ns /\
    linked (sett L (heap s)) 0 LS }.

Lemma linked_moved g g' prev ls : (forall a, a ∈ ls -> moved g g' a) -> linked g prev ls -> linked g' prev ls.
Proof using Type.
  revert prev. induction ls as [|a ls IH]; intros prev Hm; cbn [linked]; [done|].
  intros [(l & Hl & Hp & Hn) Hls]. split; [|by apply IH; [intros b Hb; apply Hm, elem_of_cons; by right|]].
  destruct (Hm a) as [Ha|[q Ha]]; [apply elem_of_cons; by left|rewrite Ha, Hl..].
  - by exists l.
  - by exists (Leaf.set_parent l q).
Qed.
(** The links of the leaves stay when no leaf but its parent changes. *)
Lemma linked_leaves g g' ns prev ls :
  leaves g ns = ls -> (forall a, a ∈ ns -> moved g g' a \/ is_leaf_at g a = false) -> linked g prev ls -> linked g' prev ls.
Proof using Type.
  intros <- Hm. apply linked_moved. intros a [Hl Ha]%elem_of_leaves. destruct (Hm a Ha) as [?|Hf]; [done|]. by rewrite Hl in Hf.
Qed.

(** What a link of the pair leaves of the two nodes and those below them. *)
Record kept_below (h h' : gmap Z node) (n child : Z) (nd cd : node) (ns : list Z) : Prop := {
  kb_n : exists q, q <> 0 /\ h' !! n = Some (node_set_parent nd q);
  kb_c : exists q, q <> 0 /\ h' !! child = Some (node_set_parent cd q);
  kb_other : forall a, a ∈ ns -> a <> n -> a <> child -> h' !! a = h !! a }.

Lemma pair_orphans g n lo x dn esn nsn child hi dc esc nsc :
  orphan dn g n lo x esn nsn -> orphan dc g child x hi esc nsc -> lo < x < hi -> NoDup (nsn ++ nsc) -> 0 ∉ nsn ++ nsc ->
  exists d, left_rep (orphan d g) [(lo, n); (x, child)] hi (esn ++ esc) (nsn ++ nsc).
Proof using Type.
  intros Hn Hc Hx Hnd H0.
  destruct (family_rep g 1 hi [] [] lo n x child 0 dn dc [] esn esc [] [] nsn nsc []) as [d Hd]; try done.
  - by rewrite app_nil_r.
  - by rewrite app_nil_r.
  - exists d. unfold family in Hd. cbn [app] in Hd. by rewrite !app_nil_r in Hd.
Qed.

Lemma pair_node_ok v height par n child x :
  v = Nodeversion.make NV false /\ par <> 0 \/ v = Nodeversion.mark_root NV (Nodeversion.make NV false) /\ par = 0 ->
  internode_ok par (pair_node v height par n child x).
Proof using Type.
  intros [[-> Hp]|[-> ->]]; split; try done.
  cbn [iversion pair_node]. rewrite (proj2 (Z.eqb_neq _ _) Hp). by vm_compute.
Qed.

(** ** One link *)
Section step.
Context (s : state) (k : nat) (L : list Z) (root : Z) (anc : list Z) (par n lo hi : Z) (es1 es2 : list entry)
  (ns1 ns2 : list Z) (dn : nat) (esn : list entry) (nsn : list Z) (child x : Z) (dc : nat) (esc : list entry)
  (nsc : list Z) (nd cd : node).
Context (Hpd : pending s k L root anc par n lo hi es1 es2 ns1 ns2 dn esn nsn child x dc esc nsc nd cd).
Abbreviation g := (sett L (heap s)).
Abbreviation nn := (next_fresh s).
Abbreviation NT := (ns1 ++ (nsn ++ nsc) ++ ns2).

Lemma pair_facts : n ∈ nsn /\ child ∈ nsc /\ n <> child /\ n <> nn /\ child <> nn /\ NoDup (nsn ++ nsc) /\ 0 ∉ nsn ++ nsc /\
  nn ∉ nsn ++ nsc.
Proof using Hpd Hbase Haddr Hfr.
  destruct Hpd as [_ Hl Hr _ _ _ Hg _ _ _ _ _]. destruct (grown_nodes _ _ _ Hg) as (Hnd & H0 & Hlt & Hnn & _).
  pose proof (orphan_addr _ _ _ _ _ _ _ Hl) as H1. pose proof (orphan_addr _ _ _ _ _ _ _ Hr) as H2.
  apply NoDup_app in Hnd as (_ & _ & (Hnd & _ & _)%NoDup_app). rewrite !not_elem_of_app in H0, Hnn.
  destruct H0 as (_ & H0 & _), Hnn as (_ & Hnn & _).
  pose proof Hnd as (_ & Hd & _)%NoDup_app. split_and!; try done.
  - intros ->. by apply (Hd child).
  - intros Heq. apply (proj1 Hnn). by rewrite <- Heq.
  - intros Heq. apply (proj2 Hnn). by rewrite <- Heq.
  - by rewrite not_elem_of_app.
  - by rewrite not_elem_of_app.
Qed.

(** What [settled] makes of changes outside of the locked nodes. *)
Lemma sett_parent L' h' a q :
  h' !! a = (fun m => node_set_parent m q) <$> heap s !! a -> (a ∈ L <-> a ∈ L') ->
  sett L' h' !! a = (fun m => node_set_parent m q) <$> g !! a.
Proof using Type.
  intros H HL. rewrite <- (settled_parent b0 c0 lf1 lf2 L (heap s) a q h' H). by apply settled_same.
Qed.

(** The pair below a new node. *)
Lemma pair_below L' h' q v height par' :
  let j := pair_node v height par' n child x in
  internode_ok q j -> sett L' h' !! nn = Some (NInternode j) ->
  h' !! n = Some (node_set_parent nd nn) -> h' !! child = Some (node_set_parent cd nn) ->
  (forall a, a ∈ nsn ++ nsc -> a <> n -> a <> child -> h' !! a = heap s !! a) ->
  (forall a, a ∈ nsn ++ nsc -> a ∈ L <-> a ∈ L') ->
  (exists D, node_rep D (sett L' h') q nn lo hi (esn ++ esc) (nn :: nsn ++ nsc)) /\
  forall a, a ∈ nsn ++ nsc -> moved g (sett L' h') a.
Proof using Hpd Hbase Haddr Hfr.
  intros j Hj Hnj Hn' Hc' Hother HLL. destruct pair_facts as (Hnn & Hcn & Hne & Hnf & Hcf & Hnd & H0 & Hnf').
  destruct Hpd as [_ Hl Hr Hx _ _ Hg (Hn & _) (Hc & _) _ _ _].
  destruct (grown_nodes _ _ _ Hg) as (_ & _ & _ & _ & Hnz).
  assert (adopts nn [n; child] (nsn ++ nsc) g (sett L' h')) as Had.
  { intros a Hin. rewrite bool_decide_decide. destruct (decide (a ∈ [n; child])) as [Hin'|Hin'].
    - apply sett_parent; [|by apply HLL]. rewrite !elem_of_cons in Hin'. destruct Hin' as [->|[->|[]%not_elem_of_nil]].
      + by rewrite Hn', Hn.
      + by rewrite Hc', Hc.
    - rewrite !not_elem_of_cons in Hin'. apply settled_same; [|by apply HLL]. apply Hother; tauto. }
  split.
  - destruct (pair_orphans _ _ _ _ _ _ _ _ _ _ _ _ Hl Hr Hx Hnd H0) as [d Hd]. exists (S d).
    apply (adopt_node d g _ q nn lo hi j [n; child] _ _ (nsn ++ nsc)); try done.
    + by constructor.
    + by apply not_elem_of_cons.
  - intros a Ha. specialize (Had a Ha). destruct (bool_decide _); [right; by exists nn|by left].
Qed.

Lemma step_root height st :
  par = 0 -> exists s', (forall fuel, link_child (S fuel) n child x height st s = Some ((0, None), s')) /\
    kept_below (heap s) (heap s') n child nd cd (nsn ++ nsc) /\ linked_up s' (S k) L.
Proof using Hpd Hbase Haddr Hfr.
  intros Hpar. destruct pair_facts as (Hnn & Hcn & Hne & Hnf & Hcf & Hnd & H0 & Hnf').
  destruct Hpd as [Ha Hl Hr Hx Hes Hlv Hg (Hn & Hbn & Hp) (Hc & Hbc) (HLn & HLc & HL) Hnroot Hptr Hlk].
  destruct (grown_nodes _ _ _ Hg) as (HndT & H0T & _ & _ & Hnz).
  set (i := pair_node (Nodeversion.mark_root NV (Nodeversion.make NV false)) height 0 n child x).
  set (h' := <[n := node_set_parent nd nn]> (<[nn := NInternode i]> (<[child := node_set_parent cd nn]> (heap s)))).
  exists (at_heap s h' (nn + 64)). split; [intros fuel; by rewrite (link_root fuel s n child x height st nd cd) by congruence|].
  assert (forall a, a <> n -> a <> child -> a <> nn -> h' !! a = heap s !! a) as Hother
    by (intros a ???; unfold h'; by rewrite !lookup_insert_ne).
  assert (h' !! n = Some (node_set_parent nd nn) /\ h' !! child = Some (node_set_parent cd nn) /\
    h' !! nn = Some (NInternode i)) as (Hn' & Hc' & Hi').
  { unfold h'. split_and!; rewrite ?lookup_insert_eq; try done; rewrite !lookup_insert_ne by done; by rewrite ?lookup_insert_eq. }
  split.
  { split; [by exists nn|by exists nn|]. intros a Hin H1 H2. apply Hother; [done..|]. by intros ->. }
  destruct (pair_below L h' 0 (Nodeversion.mark_root NV (Nodeversion.make NV false)) height 0) as [[D HD] Hmoved]; try done.
  { rewrite settled_out; [done|]. intros ?%HL. done. }
  { intros a Hin H1 H2. apply Hother; [done..|]. by intros ->. }
  assert (above g root anc par n lo hi es1 es2 ns1 ns2) as Ha' by done.
  inversion Ha' as [|anc' d pp p plo phi e1 e2 m1 m2 i' K1 k' c K2 el er nl nr Hab HPi HPok HPK HPc HPk HPL HPR]; subst.
  2: { exfalso. apply H0T. rewrite !elem_of_app, elem_of_cons. tauto. }
  split. exists D, nn, (nn :: nsn ++ nsc). cbn [app] in *. rewrite !app_nil_r in *. split_and!.
  - rewrite <- Hes. exact HD.
  - rewrite (leaves_internode _ _ i) by (cbn; rewrite settled_out; [done|by intros ?%HL]). rewrite <- Hlv.
    apply leaves_ext. intros a Hin. by apply moved_leaf, Hmoved.
  - eapply grown_snoc; [done|done|]. intros a [? Hin]%not_elem_of_cons. apply Hother; [..|done]; intros ->; apply Hin, elem_of_app; tauto.
  - destruct Hptr as [Hin Hpr]. split; [apply elem_of_cons; by right|]. right. rewrite Hpr. exists (settle b0 c0 lf1 lf2 n (node_set_parent nd nn)).
    cbn [heap at_heap]. rewrite settled_in, Hn' by done.
    split; [done|]. rewrite settle_parent. by destruct (settle _ _ _ _ n nd).
  - apply (linked_leaves g _ (nsn ++ nsc) _ LS Hlv); [|done]. intros a Hin. left. by apply Hmoved.
Qed.
End step.

(** The pair has a parent. *)
Section parent.
Context (s : state) (k : nat) (L : list Z) (root : Z) (anc : list Z) (p n : Z) (K1 K2 : list (Z * Z)) (lo plo phi pp : Z)
  (i : internode) (d0 : nat) (el er e1 e2 : list entry) (nl nr m1 m2 : list Z) (dn : nat) (esn : list entry)
  (nsn : list Z) (child x : Z) (dc : nat) (esc : list entry) (nsc : list Z) (nd cd : node).
Abbreviation hi := (next_key K2 phi).
Abbreviation g := (sett L (heap s)).
Abbreviation nn := (next_fresh s).
Abbreviation F := (nl ++ (nsn ++ nsc) ++ nr).
Abbreviation NT := ((m1 ++ p :: nl) ++ (nsn ++ nsc) ++ nr ++ m2).
Context (Hpd : pending s k L root (p :: anc) p n lo hi (e1 ++ el) (er ++ e2) (m1 ++ p :: nl) (nr ++ m2)
    dn esn nsn child x dc esc nsc nd cd)
  (Hab : above g root anc pp p plo phi e1 e2 m1 m2) (HPi : g !! p = Some (NInternode i)) (HPok : internode_ok pp i)
  (HPK : kids plo i = K1 ++ (lo, n) :: K2)
  (HPL : left_rep (node_rep d0 g p) K1 lo el nl) (HPR : siblings_rep (node_rep d0 g p) K2 phi er nr).

Lemma parent_nodes : NoDup (p :: F) /\ 0 ∉ p :: F /\ nn ∉ p :: F /\ p ∉ L /\ nn ∉ L /\ NoDup NT /\ 0 ∉ NT /\ nn ∉ NT /\
  (forall a, a ∈ m1 ++ m2 -> a ∉ p :: F /\ a <> nn /\ a ∉ L) /\ nn <> 0.
Proof using Hpd Hbase Haddr Hfr.
  destruct (grown_nodes _ _ _ (pd_grown _ _ _ _ _ _ _ _ _ _ _ _ _ _ _ _ _ _ _ _ _ _ _ Hpd)) as (Hnd & H0 & _ & Hnn & Hnz).
  destruct (pd_L _ _ _ _ _ _ _ _ _ _ _ _ _ _ _ _ _ _ _ _ _ _ _ Hpd) as (_ & _ & HL).
  assert (NT ≡ₚ (m1 ++ m2) ++ p :: F) as Hperm by solve_Permutation.
  pose proof Hnd as HndT. pose proof H0 as H0T. pose proof Hnn as HnnT.
  rewrite Hperm in Hnd, H0, Hnn. apply NoDup_app in Hnd as (_ & Hd & Hnd). rewrite not_elem_of_app in H0, Hnn.
  destruct H0 as [H0m H0], Hnn as [Hnm Hnn]. pose proof Hnd as [HpF _]%NoDup_cons.
  assert (forall a, a ∈ L -> a ∈ F) as HLF by (intros a Ha; rewrite !elem_of_app; right; left; rewrite <- elem_of_app; by apply HL).
  split_and!; try done.
  - intros Hin. by apply HpF, HLF.
  - intros Hin. apply Hnn, elem_of_cons. right. by apply HLF.
  - intros a Ha. split_and!; [intros Hin; by apply (Hd a)| |].
    + intros ->. by apply Hnm.
    + intros Hin. apply (Hd a Ha), elem_of_cons. right. by apply HLF.
Qed.

Lemma family_now : exists d, left_rep (orphan d g) (family K1 K2 lo n x child) phi (el ++ (esn ++ esc) ++ er) F.
Proof using Hpd Hbase Haddr Hfr HPL HPR.
  destruct parent_nodes as ([Hp Hnd]%NoDup_cons & [Hp0 H0]%not_elem_of_cons & _).
  eapply (family_rep g p); try done; [apply Hpd|apply Hpd|apply Hpd].
Qed.

Lemma parent_heap : heap s !! p = Some (NInternode i).
Proof using Hpd Hbase Haddr Hfr HPi.
  destruct parent_nodes as (_ & _ & _ & HpL & _). by rewrite settled_out in HPi.
Qed.

(** The position of the pair among the children. *)
Lemma parent_position : Internode.upper_ikey x i = zlength K1 /\ 0 <= zlength K1 <= nkeys_ i.
Proof using Hpd HPok HPK HPL HPR Hbase Haddr Hfr.
  pose proof (pd_x _ _ _ _ _ _ _ _ _ _ _ _ _ _ _ _ _ _ _ _ _ _ _ Hpd) as Hx.
  assert (keys_sorted (separators i)) as Hks.
  { apply (kids_sorted (fun _ _ _ _ _ => True) plo i phi (el ++ [] ++ er) (nl ++ [] ++ nr)). rewrite HPK.
    destruct (parent_nodes) as (_ & [_ H0]%not_elem_of_cons & _).
    assert (n <> 0).
    { intros ->. apply H0. rewrite !elem_of_app. right; left; left. eapply orphan_addr, Hpd. }
    apply left_rep_middle; try done; [by eapply left_rep_mono; [|exact HPL]|lia|by eapply siblings_rep_mono; [|exact HPR]]. }
  destruct (kids_count pp plo i K1 lo n K2 phi x HPok Hks HPK) as [H1 H2]; [lia|].
  pose proof (zlength_nonneg K1). by split_and!.
Qed.

Lemma family_head : exists rest, family K1 K2 lo n x child = (plo, rd (child_ i) 0) :: rest /\ rest ≡ₚ (x, child) :: separators i.
Proof using HPK HPL Hab.
  unfold family, kids in *. destruct K1 as [|kc K1']; cbn [app] in *.
  - injection HPK as -> -> ->. by exists ((x, child) :: K2).
  - injection HPK as <- ->. exists (K1' ++ (lo, n) :: (x, child) :: K2). split; [done|]. solve_Permutation.
Qed.

Lemma family_home a : a ∈ map snd (family K1 K2 lo n x child) -> a <> child -> a <> 0 ->
  exists m, g !! a = Some m /\ node_parent m = p.
Proof using Hpd HPL HPR.
  intros Ha Hc H0. unfold family in Ha. rewrite map_app in Ha. cbn [map snd] in Ha.
  rewrite elem_of_app, !elem_of_cons in Ha. destruct Ha as [Ha|[->|[?|Ha]]]; [|..|done|].
  - by eapply left_rep_parent.
  - destruct (pd_n _ _ _ _ _ _ _ _ _ _ _ _ _ _ _ _ _ _ _ _ _ _ _ Hpd) as (Hn & _ & Hp).
    destruct (pd_L _ _ _ _ _ _ _ _ _ _ _ _ _ _ _ _ _ _ _ _ _ _ _ Hpd) as (HL & _ & _).
    exists (settle b0 c0 lf1 lf2 n nd). by rewrite settled_in, Hn, settle_parent_of.
  - by eapply siblings_parent.
Qed.
Lemma sett_is_Some L' a : is_Some (sett L' (heap s) !! a) -> is_Some (heap s !! a).
Proof using Type.
  destruct (decide (a ∈ L')); [rewrite settled_in by done; by intros ?%fmap_is_Some|by rewrite settled_out].
Qed.

Lemma family_facts : NoDup (map snd (family K1 K2 lo n x child)) /\
  (forall c, c ∈ map snd (family K1 K2 lo n x child) -> c <> 0 -> c ∈ F) /\
  NoDup (children i) /\ child ∉ children i /\
  (forall c, c ∈ drop 1 (children i) -> is_Some (heap s !! c) /\ c <> p /\ c <> nn) /\ plo < phi.
Proof using Hpd Hbase Haddr Hfr HPL HPR HPK HPok HPi Hab.
  destruct family_now as [d Hfam]. destruct family_head as (rest & Hf & Hrest).
  destruct parent_nodes as ([Hp Hnd]%NoDup_cons & [Hp0 H0]%not_elem_of_cons & Hnn & HpL & _).
  pose proof Hfam as Hfam'. rewrite Hf in Hfam'.
  destruct (left_rep_children _ _ _ _ _ _ _ _ Hfam' Hnd) as (Hnd' & Hnz & Hin & Hnk & _ & Hlt). rewrite <- Hf in Hnd', Hin.
  assert (shape i) as Hsh by (destruct HPok; by split).
  assert (map snd (family K1 K2 lo n x child) ≡ₚ child :: children i) as Hperm.
  { rewrite Hf, (children_kids plo) by done. cbn [map snd kids]. rewrite Hrest. cbn. apply perm_swap. }
  rewrite Hperm in Hnd'. apply NoDup_cons in Hnd' as [Hc Hndi].
  split_and!; try done.
  - rewrite Hperm. by constructor.
  - intros c Hc'. assert (c ∈ map snd (separators i)) as Hcs.
    { rewrite (children_kids plo i Hsh) in Hc'. exact Hc'. }
    assert (c ∈ map snd rest) as Hcr by (rewrite Hrest; cbn; apply elem_of_cons; by right).
    assert (c <> 0) as Hc0 by (by apply (proj1 (Forall_forall _ _) Hnz)).
    assert (c ∈ F) as HcF by (apply Hin; [rewrite Hf; cbn; apply elem_of_cons; by right|done]).
    split_and!; [|by intros ->|intros ->; apply Hnn, elem_of_cons; by right].
    destruct (decide (c = child)) as [->|Hne]; [eexists; apply Hpd|].
    destruct (family_home c) as (m & Hm & _); [rewrite Hf; cbn; apply elem_of_cons; by right|done..|].
    apply (sett_is_Some L). by exists m.
  - destruct rest as [|[k1 c1] rest]; [by apply Permutation_nil_cons in Hrest|]. apply Forall_cons in Hlt as [Hlt _]. cbn in *. lia.
Qed.

(** From a changed parent to a changed tree. *)
Lemma parent_linked L' s' k' i' F' d' :
  sett L' (heap s') !! p = Some (NInternode i') ->
  node_rep d' (sett L' (heap s')) pp p plo phi (el ++ (esn ++ esc) ++ er) (p :: F') ->
  (Nodeversion.is_root NV (iversion i) = false -> Nodeversion.is_root NV (iversion i') = false) ->
  (forall a, a ∈ m1 ++ m2 -> sett L' (heap s') !! a = g !! a) ->
  (forall a, a ∈ F -> a ∈ F' /\ moved g (sett L' (heap s')) a) ->
  leaves (sett L' (heap s')) F' = leaves g F ->
  grown s' k' (m1 ++ (p :: F') ++ m2) -> linked_up s' k' L'.
Proof using Hpd Hab HPi.
  intros Hp Hrep Hroot Ho HF Hlv Hg. split.
  destruct (above_plug (sett L' (heap s')) root anc pp p plo phi e1 e2 m1 m2) with (d := d')
    (es := el ++ (esn ++ esc) ++ er) (ns := p :: F') as [D HD]; [by eapply above_frame|done|].
  exists D, root, (m1 ++ (p :: F') ++ m2).
  pose proof (pd_es _ _ _ _ _ _ _ _ _ _ _ _ _ _ _ _ _ _ _ _ _ _ _ Hpd) as Hes. split_and!.
  - rewrite <- Hes. by rewrite <- !app_assoc in *.
  - rewrite <- (pd_leaves _ _ _ _ _ _ _ _ _ _ _ _ _ _ _ _ _ _ _ _ _ _ _ Hpd).
    assert (forall m, (forall a, a ∈ m -> a ∈ m1 ++ m2) -> leaves (sett L' (heap s')) m = leaves g m) as Hm.
    { intros m Hsub. apply leaves_ext. intros a Ha%Hsub%Ho. unfold is_leaf_at. by rewrite Ha. }
    rewrite !leaves_app, (leaves_internode _ _ _ _ Hp), (leaves_internode _ _ _ _ HPi), Hlv.
    rewrite !leaves_app, !Hm, <- !app_assoc by (intros a Ha; apply elem_of_app; tauto). done.
  - done.
  - destruct (pd_ptr _ _ _ _ _ _ _ _ _ _ _ _ _ _ _ _ _ _ _ _ _ _ _ Hpd) as [Ha Hr]. split; [|by left].
    assert (p0 ∈ F \/ p0 ∈ m1 ++ m2 \/ p0 = p) as [HaF%HF|HaF] by (revert Ha; rewrite !elem_of_app, !elem_of_cons; tauto).
    + rewrite !elem_of_app, !elem_of_cons. tauto.
    + revert HaF. rewrite !elem_of_app, !elem_of_cons. tauto.
  - apply (linked_leaves g _ NT _ LS); [apply Hpd| |apply Hpd].
    intros a Ha. assert (a ∈ F \/ a ∈ m1 ++ m2 \/ a = p) as [[_ HaF]%HF|[HaF%Ho| ->]]
      by (revert Ha; rewrite !elem_of_app, !elem_of_cons; tauto); [by left|left; by left|right].
    unfold is_leaf_at. by rewrite HPi.
Qed.

(** What all cases of a link need of the nodes. *)
Lemma pair_in_parent : n <> child /\ n <> p /\ child <> p /\ n <> nn /\ child <> nn /\ p <> nn /\ p <> 0 /\
  n ∈ nsn ++ nsc /\ child ∈ nsn ++ nsc.
Proof using Hpd Hbase Haddr Hfr HPK.
  destruct (pair_facts _ _ _ _ _ _ _ _ _ _ _ _ _ _ _ _ _ _ _ _ _ _ _ Hpd) as (Hn & Hc & Hne & Hnf & Hcf & _).
  destruct parent_nodes as ([Hp _]%NoDup_cons & [Hp0 _]%not_elem_of_cons & Hnn & _). rewrite !not_elem_of_app in Hp.
  destruct Hp as (_ & [Hp1 Hp2] & _). rewrite not_elem_of_cons in Hnn. destruct Hnn as [Hnp _].
  split_and!; try done; try (by intros ->); rewrite elem_of_app; tauto.
Qed.

(** The linked parent, to be unlocked. *)
Definition claimed_at (s' : state) (a : Z) : Prop :=
  exists i', heap s' !! a = Some (NInternode i') /\ busy (iversion i').

Lemma family_adopts L' h' (q : Z) :
  (forall a, a ∈ F -> a ∈ L <-> a ∈ L') -> (forall a, a ∈ F -> a <> child -> h' !! a = heap s !! a) ->
  h' !! child = Some (node_set_parent cd p) -> adopts p (map snd (family K1 K2 lo n x child)) F g (sett L' h').
Proof using Hpd HPL HPR Hbase Haddr Hfr.
  intros HL' Hh Hc a Ha. destruct parent_nodes as (_ & [_ H0]%not_elem_of_cons & _).
  destruct (decide (a = child)) as [->|Hne].
  - rewrite bool_decide_eq_true_2.
    + apply sett_parent; [|by apply HL']. rewrite Hc. destruct (pd_c _ _ _ _ _ _ _ _ _ _ _ _ _ _ _ _ _ _ _ _ _ _ _ Hpd) as [-> _]. done.
    + unfold family. rewrite map_app. cbn. rewrite elem_of_app, !elem_of_cons. tauto.
  - rewrite (settled_same _ _ _ _ L L' (heap s) h' a) by (done || by apply HL' || by apply Hh).
    case_bool_decide as Hin; [|done]. destruct (family_home a) as (m & -> & Hm); [done|done|by intros ->|].
    cbn. by rewrite <- Hm, set_parent_self.
Qed.

Lemma step_room height st :
  height_ i <= height + 1 -> nkeys_ i < internode_width ->
  exists s', (forall fuel, link_child (S fuel) n child x height st s = Some ((p, None), s')) /\
    kept_below (heap s) (heap s') n child nd cd (nsn ++ nsc) /\ linked_up s' k (p :: L) /\ claimed_at s' p.
Proof using Hpd Hbase Haddr Hfr Hab HPi HPok HPK HPL HPR.
  intros Hh Hw. destruct pair_in_parent as (Hnc & Hnp & Hcp & Hnf & Hcf & Hpf & Hp0 & Hn1 & Hc1).
  destruct parent_nodes as (HndF & H0F & HnnF & HpL & HnnL & HndT & H0T & HnnT & Hm & _).
  destruct parent_position as [Hup Hkr]. pose proof parent_heap as Hip.
  destruct (pd_n _ _ _ _ _ _ _ _ _ _ _ _ _ _ _ _ _ _ _ _ _ _ _ Hpd) as (Hn & Hbn & Hpn).
  destruct (pd_c _ _ _ _ _ _ _ _ _ _ _ _ _ _ _ _ _ _ _ _ _ _ _ Hpd) as (Hc & Hbc).
  assert (shape i) as Hsh by (destruct HPok; by split).
  destruct (insert_child_spec (claimed i) (zlength K1) x child (claimed_shape i pp HPok) Hkr Hw) as
    (r & Hr & Hshr & (Hv & _ & Hpr) & Hnk & HK & HC). cbn [iversion iparent_ claimed Internode.set_version] in Hv, Hpr.
  destruct (link_room s n child x height st nd cd p i pp (zlength K1) Hn Hbn Hpn Hp0 Hc Hip HPok Hnp Hcp Hup Hkr Hh Hw)
    as (r' & Hr' & Hrun). rewrite Hr in Hr'. injection Hr' as <-.
  set (h' := <[p := _]> _) in Hrun. exists (with_heap s h'). split; [exact Hrun|].
  assert (forall a, a <> p -> a <> child -> h' !! a = heap s !! a) as Hother
    by (intros a ??; unfold h'; by rewrite !lookup_insert_ne).
  assert (h' !! child = Some (node_set_parent cd p)) as Hc'
    by (unfold h'; rewrite lookup_insert_ne by done; apply lookup_insert_eq).
  assert (h' !! p = Some (NInternode r)) as Hp' by apply lookup_insert_eq.
  assert (p ∉ F) as HpF by by apply NoDup_cons in HndF as [? _].
  assert (forall a, a ∈ F -> a <> p) as HFp by by intros a Ha ->.
  destruct (claimed_busy _ _ HPok) as (Hbc' & [Hf1 Hf2] & Hsp). cbn [iversion claimed Internode.set_version] in Hbc', Hf1, Hf2, Hsp.
  destruct (unlock_quiet _ Hbc') as (Hq & Hul & Hur).
  assert (n <> 0 /\ child <> 0) as [Hn0 Hc0].
  { split; intros ->; apply H0F; rewrite elem_of_cons, !elem_of_app in *; tauto. }
  split; [|split].
  - split; [exists p; split; [done|]|by exists p|].
    + cbn. rewrite Hother by done. by rewrite Hn, <- Hpn, set_parent_self.
    + intros a Ha ? ?. apply Hother; [|done]. apply HFp. rewrite !elem_of_app in *. tauto.
  - set (ir := Internode.set_version r (Nodeversion.unlock NV (iversion r))).
    assert (sett (p :: L) h' !! p = Some (NInternode ir)) as Hp''.
    { rewrite settled_in by (apply elem_of_cons; by left). by rewrite Hp'. }
    assert (adopts p (map snd (family K1 K2 lo n x child)) F g (sett (p :: L) h')) as Had.
    { apply family_adopts; try done.
      - intros a Ha. rewrite elem_of_cons. split; [tauto|]. intros [->|?]; done.
      - intros a Ha ?. apply Hother; [by apply HFp|done]. }
    destruct family_now as [d Hfam].
    assert (kids plo ir = family K1 K2 lo n x child) as Hkids.
    { change (kids plo ir) with (kids plo r). rewrite (kids_zip _ _ Hshr), HK, HC.
      change (keys (claimed i)) with (keys i). change (children (claimed i)) with (children i).
      pose proof (zlength_keys i Hsh). pose proof (zlength_children i Hsh).
      rewrite zip_insert_at by (unfold zlength in *; lia). rewrite <- kids_zip, HPK by done. unfold family.
      change (K1 ++ (lo, n) :: K2) with (K1 ++ [(lo, n)] ++ K2). rewrite app_assoc.
      replace (zlength K1 + 1) with (zlength (K1 ++ [(lo, n)])) by (rewrite zlength_app; done).
      rewrite insert_at_app_mid, <- app_assoc. done. }
    apply (parent_linked (p :: L) (with_heap s h') k ir F (S d)).
    + done.
    + eapply (adopt_node d g _ pp p plo phi ir (map snd (family K1 K2 lo n x child)) _ F F); try done.
      * destruct HPok. destruct Hshr. split; cbn; try done; rewrite ?Hv, ?Hpr; try done.
        -- by rewrite Hul, Hf1.
        -- by rewrite Hur, Hf2, Hsp, andb_true_r.
      * by rewrite Hkids.
      * by rewrite Hkids.
    + intros Hroot. cbn. by rewrite Hv, Hur, Hf2, Hroot.
    + intros a Ha. destruct (Hm a Ha) as (HaF & Han & HaL). rewrite not_elem_of_cons in HaF.
      apply settled_same; [apply Hother; [tauto|]|rewrite elem_of_cons; tauto].
      intros ->. apply HaF. rewrite !elem_of_app in *. tauto.
    + intros a Ha. split; [done|]. specialize (Had a Ha). destruct (bool_decide _); [right; by exists p|by left].
    + apply leaves_ext. intros a Ha. apply moved_leaf. specialize (Had a Ha). destruct (bool_decide _); [right; by exists p|by left].
    + eapply grown_same; [apply Hpd|solve_Permutation|]. intros a Ha. apply Hother; intros ->; apply Ha; rewrite !elem_of_app, ?elem_of_cons, ?elem_of_app in *; tauto.
  - exists r. split; [done|]. by rewrite Hv.
Qed.

Lemma step_tall height st :
  height + 1 < height_ i ->
  exists s', (forall fuel, link_child (S fuel) n child x height st s = Some ((p, None), s')) /\
    kept_below (heap s) (heap s') n child nd cd (nsn ++ nsc) /\ linked_up s' (S k) (p :: L) /\ claimed_at s' p.
Proof using Hpd Hbase Haddr Hfr Hab HPi HPok HPK HPL HPR.
  intros Hh. destruct pair_in_parent as (Hnc & Hnp & Hcp & Hnf & Hcf & Hpf & Hp0 & Hn1 & Hc1).
  destruct parent_nodes as (HndF & H0F & HnnF & HpL & HnnL & HndT & H0T & HnnT & Hm & Hnz).
  destruct parent_position as [Hup Hkr]. pose proof parent_heap as Hip.
  destruct Hpd as [_ Hl Hr Hx _ _ Hg (Hn & Hbn & Hpn) (Hc & Hbc) (HLn & HLc & HL) _ _].
  destruct (link_tall s n child x height st nd cd p i pp (zlength K1) Hn Hbn Hpn Hp0 Hc Hip HPok Hnc Hnp Hcp Hnf Hcf Hpf
    Hup Hkr Hh) as (c' & Hc' & Hrun).
  set (j := pair_node _ _ _ _ _ _) in Hrun. set (r := Internode.set_child (claimed i) c') in Hrun.
  set (h' := <[n := _]> _) in Hrun. exists (at_heap s h' (nn + 64)). split; [exact Hrun|].
  assert (forall a, a <> p -> a <> child -> a <> n -> a <> nn -> h' !! a = heap s !! a) as Hother
    by (intros a ????; unfold h'; by rewrite !lookup_insert_ne).
  assert (h' !! n = Some (node_set_parent nd nn) /\ h' !! child = Some (node_set_parent cd nn) /\
    h' !! nn = Some (NInternode j) /\ h' !! p = Some (NInternode r)) as (Hn' & Hch' & Hj' & Hp').
  { unfold h'. split_and!; rewrite ?lookup_insert_eq; try done; rewrite !lookup_insert_ne by done; by rewrite ?lookup_insert_eq. }
  assert (p ∉ F) as HpF by by apply NoDup_cons in HndF as [? _].
  assert (forall a, a ∈ F -> a <> p /\ a <> nn /\ (a ∈ L <-> a ∈ p :: L)) as HFp.
  { intros a Ha. rewrite elem_of_cons in *. split_and!; [by intros ->|intros ->; tauto|].
    split; [tauto|]. intros [->|?]; done. }
  assert (forall a, a ∈ nsn ++ nsc -> a ∈ F) as HsF by (intros a; rewrite !elem_of_app; tauto).
  destruct (pair_below s k L root (p :: anc) p n lo hi _ _ _ _ dn esn nsn child x dc esc nsc nd cd Hpd (p :: L) h' p
    (Nodeversion.make NV false) height p) as [[D HD] Hmoved]; try done.
  { apply pair_node_ok. by left. }
  { rewrite settled_out; [done|]. rewrite not_elem_of_cons. by split. }
  { intros a Ha%HsF ? ?. destruct (HFp a Ha) as (? & ? & _). by apply Hother. }
  { intros a Ha%HsF. by apply HFp. }
  destruct (claimed_busy _ _ HPok) as (Hbc' & [Hf1 Hf2] & Hsp). cbn [iversion claimed Internode.set_version] in Hbc', Hf1, Hf2, Hsp.
  destruct (unlock_quiet _ Hbc') as (Hq & Hul & Hur).
  set (ir := Internode.set_version r (Nodeversion.unlock NV (iversion r))).
  assert (sett (p :: L) h' !! p = Some (NInternode ir)) as Hp''.
  { rewrite settled_in by (apply elem_of_cons; by left). by rewrite Hp'. }
  assert (forall a, a ∈ nl ++ nr -> sett (p :: L) h' !! a = g !! a) as Hsides.
  { intros a Ha. assert (a ∈ F /\ a ∉ nsn ++ nsc) as [HaF Hd].
    { apply NoDup_cons in HndF as [_ (_ & Hd1 & (_ & Hd2 & _)%NoDup_app)%NoDup_app].
      revert Ha. rewrite !elem_of_app. intros [Ha|Ha]; (split; [tauto|]).
      - intros Hin. apply (Hd1 a Ha). rewrite !elem_of_app. tauto.
      - intros Hin. by apply (Hd2 a); [rewrite elem_of_app|]. }
    destruct (HFp a HaF) as (? & ? & ?). apply settled_same; [|done]. apply Hother; try done; by intros ->. }
  split; [|split].
  - split; [by exists nn|by exists nn|]. intros a Ha%HsF ? ?. destruct (HFp a Ha) as (? & ? & _). by apply Hother.
  - apply (parent_linked (p :: L) (at_heap s h' (nn + 64)) (S k) ir (nl ++ (nn :: nsn ++ nsc) ++ nr) (S (max D d0))).
    + done.
    + apply (node_rep_kids _ _ _ _ _ _ ir); [done| |].
      * destruct HPok. pose proof (wr_spec (child_ i) (zlength K1) nn) as Hz.
        destruct Hz as (c'' & Hc'' & Hlen & _); [unfold internode_width in *; lia|]. rewrite Hc' in Hc''. injection Hc'' as <-.
        split; cbn; try done; try lia.
        -- by rewrite Hul, Hf1.
        -- by rewrite Hur, Hf2, Hsp, andb_true_r.
      * change (kids plo ir) with (kids plo (Internode.set_child i c')).
        rewrite (kids_set_child plo i c' K1 lo n K2 nn) by (done || by destruct HPok).
        apply left_rep_middle; [|done|lia| |].
        -- eapply left_rep_depth; [apply Nat.le_max_r|]. eapply left_rep_mono; [|exact HPL]. intros c u w es ms Hms HR.
           eapply node_rep_frame; [|exact HR]. intros b Hb. apply Hsides, elem_of_app. left. by apply Hms.
        -- eapply node_rep_depth; [apply Nat.le_max_l|exact HD].
        -- eapply siblings_rep_depth; [apply Nat.le_max_r|]. eapply siblings_rep_mono; [|exact HPR]. intros c u w es ms Hms HR.
           eapply node_rep_frame; [|exact HR]. intros b Hb. apply Hsides, elem_of_app. right. by apply Hms.
    + intros Hroot. cbn. by rewrite Hur, Hf2, Hroot.
    + intros a Ha. destruct (Hm a Ha) as (HaF & Han & HaL). rewrite not_elem_of_cons in HaF. destruct HaF as [Hap HaF].
      apply settled_same; [|rewrite elem_of_cons; tauto]. apply Hother; try done; intros ->; by apply HaF, HsF.
    + intros a Ha. rewrite !elem_of_app, elem_of_cons, elem_of_app in *. split; [tauto|].
      destruct Ha as [Ha|[Ha|Ha]]; [left; apply Hsides|apply Hmoved|left; apply Hsides]; rewrite !elem_of_app; tauto.
    + rewrite !leaves_app, (leaves_internode _ nn j), !leaves_app.
      * f_equal; [|f_equal; [f_equal|]]; apply leaves_ext; intros a Ha; apply moved_leaf;
          [left; apply Hsides|apply Hmoved..|left; apply Hsides]; rewrite !elem_of_app; tauto.
      * rewrite settled_out; [done|]. rewrite not_elem_of_cons. by split.
    + eapply grown_snoc; [done|solve_Permutation|]. intros a Ha.
      rewrite !elem_of_app, !elem_of_cons, !elem_of_app, ?elem_of_cons, ?elem_of_app in Ha. rewrite elem_of_app in Hn1, Hc1.
      apply Hother; intros ->; apply Ha; tauto.
  - exists r. split; [done|]. by cbn.
Qed.

(** The parent is cut, too. *)
Lemma family_cut height st :
  height_ i <= height + 1 -> nkeys_ i = internode_width -> exists sk i' nr' h' d eA eB nA nB,
    (forall fuel, link_child (S fuel) n child x height st s = Some ((p, Some (nn, sk)), at_heap s h' (nn + 64))) /\
    h' !! p = Some (NInternode i') /\ h' !! nn = Some (NInternode nr') /\
    busy (iversion i') /\ Nodeversion.isleaf NV (iversion i') = false /\ Nodeversion.splitting NV (iversion i') = true /\
    busy (iversion nr') /\ Nodeversion.isleaf NV (iversion nr') = false /\ Nodeversion.is_root NV (iversion nr') = false /\
    iparent_ i' = pp /\ shape i' /\ shape nr' /\ plo < sk < phi /\
    family K1 K2 lo n x child = kids plo i' ++ kids sk nr' /\ F = nA ++ nB /\ el ++ (esn ++ esc) ++ er = eA ++ eB /\
    left_rep (orphan d g) (kids plo i') sk eA nA /\ left_rep (orphan d g) (kids sk nr') phi eB nB /\
    h' !! 0 = heap s !! 0 /\ (forall a, a <> p -> a <> nn -> a <> 0 -> h' !! a =
      if bool_decide (a ∈ map snd (kids sk nr')) then (fun m => node_set_parent m nn) <$> heap s !! a
      else if bool_decide (a ∈ map snd (kids plo i')) then (fun m => node_set_parent m p) <$> heap s !! a else heap s !! a).
Proof using Hpd Hbase Haddr Hfr Hab HPi HPok HPK HPL HPR.
  intros Hh Hw. destruct pair_in_parent as (Hnc & Hnp & Hcp & Hnf & Hcf & Hpf & Hp0 & _).
  destruct parent_position as [Hup Hkr]. pose proof parent_heap as Hip.
  destruct family_facts as (HndF & HinF & Hndc & Hcn & Hkid & _). destruct family_now as [d Hfam].
  destruct (pd_n _ _ _ _ _ _ _ _ _ _ _ _ _ _ _ _ _ _ _ _ _ _ _ Hpd) as (Hn & Hbn & Hpn).
  destruct (pd_c _ _ _ _ _ _ _ _ _ _ _ _ _ _ _ _ _ _ _ _ _ _ _ Hpd) as (Hc & Hbc).
  assert (shape i) as Hsh by (destruct HPok; by split).
  destruct (link_full s n child x height st nd cd p i pp (zlength K1) Hn Hbn Hpn Hp0 Hc Hip HPok Hnc Hnp Hcp Hnf Hcf Hpf
    Hup Hkr Hkid Hndc Hcn Hh Hw)
    as (sk & i' & nr0 & h' & Hsh' & Hshr & Hk1 & HK & HC & Hb & Hlf & Hsp & Hbr & Hlfr & Hrtr & Hpi & Hp' & Hn' & Ho & Hrun).
  pose proof (kids_cut plo i i' nr0 _ _ _ sk Hsh Hsh' Hshr Hkr HK HC) as Hcut.
  rewrite HPK in Hcut. change (K1 ++ (lo, n) :: K2) with (K1 ++ [(lo, n)] ++ K2) in Hcut. rewrite app_assoc in Hcut.
  replace (zlength K1 + 1) with (zlength (K1 ++ [(lo, n)])) in Hcut by (rewrite zlength_app; done).
  rewrite insert_at_app_mid, <- app_assoc in Hcut. cbn [app] in Hcut. fold (family K1 K2 lo n x child) in Hcut.
  assert (plo < sk < phi) as Hsk.
  { rewrite Hcut in Hfam.
    change (kids plo i' ++ kids sk nr0) with ((plo, rd (child_ i') 0) :: (separators i' ++ (sk, rd (child_ nr0) 0) :: separators nr0)) in Hfam.
    destruct (left_rep_children _ _ _ _ _ _ _ _ Hfam) as (_ & _ & _ & Hle & Hks & Hlt).
    { destruct parent_nodes as ([_ ?]%NoDup_cons & _). done. }
    assert (1 <= zlength (separators i')) as Hlen.
    { unfold separators, zlength. rewrite length_zip_with. destruct Hsh' as [? ? ?].
      unfold zlength, internode_width in *. rewrite length_take, length_drop. lia. }
    destruct (separators i') as [|[k1 c1] seps] eqn:Hseps; [done|].
    rewrite <- app_comm_cons in Hle, Hks, Hlt. cbn [next_key] in Hle. destruct Hks as [Hks _].
    apply Forall_app in Hks as [_ [Hks _]%Forall_cons]. cbn in Hks.
    apply Forall_cons in Hlt as [_ Hlt]. apply Forall_app in Hlt as [_ [Hlt _]%Forall_cons]. cbn in Hlt. lia. }
  pose proof Hfam as Hsplit. rewrite Hcut in Hsplit.
  apply left_rep_split in Hsplit as (eA & eB & nA & nB & HeE & HnE & HA & HB); [|done]. cbn [next_key kids app] in HA.
  exists sk, i', nr0, h', d, eA, eB, nA, nB. split_and!; try done; try lia.
  { by apply left_rep_siblings. }
  { destruct parent_nodes as ([_ Hnd]%NoDup_cons & [_ H0F]%not_elem_of_cons & _ & _ & _ & _ & _ & _ & _ & Hnz).
    rewrite HnE in Hnd. apply NoDup_app in Hnd as (_ & _ & Hnd).
    rewrite Ho, bool_decide_eq_false_2; [| |done..].
    - destruct (Z.eqb_spec 0 child) as [Heq|]; [|done]. exfalso. apply H0F. rewrite Heq, elem_of_app. right.
      pose proof (orphan_addr _ _ _ _ _ _ _ (pd_right _ _ _ _ _ _ _ _ _ _ _ _ _ _ _ _ _ _ _ _ _ _ _ Hpd)).
      rewrite !elem_of_app. tauto.
    - destruct (siblings_children _ _ _ _ _ _ HB Hnd) as [_ HnzB]. fold (kids sk nr0) in HnzB.
      rewrite (children_kids sk nr0 Hshr). intros Hin. by apply (proj1 (Forall_forall _ _) HnzB 0). }
  intros a Hap Han Ha0. rewrite Ho by done. rewrite <- (children_kids sk nr0 Hshr).
  case_bool_decide as HaB; [done|]. assert (a ∈ map snd (family K1 K2 lo n x child) <-> a ∈ map snd (kids plo i')) as Hin.
  { rewrite Hcut, map_app, elem_of_app, <- (children_kids sk nr0 Hshr). tauto. }
  assert (child ∈ map snd (family K1 K2 lo n x child)) as Hcin.
  { unfold family. rewrite map_app. cbn. rewrite elem_of_app, !elem_of_cons. tauto. }
  destruct (Z.eqb_spec a child) as [->|Hne].
  - by rewrite bool_decide_eq_true_2 by by apply Hin.
  - case_bool_decide as HaA; [|done]. destruct (family_home a) as (m & Hm & Hmp); [by apply Hin|done|done|].
    destruct (decide (a ∈ L)); [rewrite settled_in in Hm by done|rewrite settled_out in Hm by done].
    + destruct (heap s !! a) as [m'|]; [|done]. injection Hm as <-. rewrite settle_parent_of in Hmp. cbn.
      by rewrite <- Hmp, set_parent_self.
    + rewrite Hm. cbn. by rewrite <- Hmp, set_parent_self.
Qed.

Lemma family_own a : a ∈ map snd (family K1 K2 lo n x child) -> a ∈ nsn ++ nsc -> a = n \/ a = child.
Proof using Hpd Hbase Haddr Hfr HPL HPR.
  intros Ha Hin. destruct parent_nodes as ([_ Hnd]%NoDup_cons & H0F & _).
  apply NoDup_app in Hnd as (_ & Hd1 & (_ & Hd2 & _)%NoDup_app).
  assert (a <> 0) as Ha0.
  { intros ->. apply H0F. rewrite elem_of_app in Hin. rewrite elem_of_cons, !elem_of_app. tauto. }
  unfold family in Ha. rewrite map_app in Ha. cbn [map snd] in Ha.
  rewrite elem_of_app, !elem_of_cons in Ha. destruct Ha as [Ha|[->|[->|Ha]]]; [|by left|by right|].
  - exfalso. apply (Hd1 a); [by eapply left_rep_in|]. apply elem_of_app. by left.
  - exfalso. apply (Hd2 a); [done|].
    apply left_rep_siblings in HPR. by eapply left_rep_in.
Qed.

Lemma step_full height st :
  height_ i <= height + 1 -> nkeys_ i = internode_width ->
  exists s' sk d eA nA eB nB i' nr', (forall fuel, link_child (S fuel) n child x height st s = Some ((p, Some (nn, sk)), s')) /\
    kept_below (heap s) (heap s') n child nd cd (nsn ++ nsc) /\
    pending s' (S k) (p :: nn :: L) root anc pp p plo phi e1 e2 m1 m2 (S d) eA (p :: nA) nn sk (S d) eB (nn :: nB)
      (NInternode i') (NInternode nr') /\
    p ∉ nsn ++ nsc /\ nn ∉ nsn ++ nsc /\
    Nodeversion.splitting NV (iversion i') = true /\ (forall a, a ∈ nsn ++ nsc -> a ∈ nA ++ nB).
Proof using Hpd Hbase Haddr Hfr Hab HPi HPok HPK HPL HPR.
  intros Hh Hw. destruct (family_cut height st Hh Hw) as (sk & i' & nr' & h' & d & eA & eB & nA & nB & Hrun & Hp' & Hn' &
    Hb & Hlf & Hsp & Hbr & Hlfr & Hrtr & Hpi & Hshi & Hshr & Hsk & Hcut & HF & HE & HA & HB & Ho0 & Ho).
  destruct pair_in_parent as (Hnc & Hnp & Hcp & Hnf & Hcf & Hpf & Hp0 & Hn1 & Hc1).
  destruct parent_nodes as (HndF & H0F & HnnF & HpL & HnnL & HndT & H0T & HnnT & Hm & Hnz).
  set (s' := at_heap s h' (nn + 64)). set (g' := sett (p :: nn :: L) h').
  destruct (unlock_quiet _ Hb) as (Hq & Hul & Hur). destruct (unlock_quiet _ Hbr) as (Hqr & Hulr & Hurr).
  set (ip := Internode.set_version i' (Nodeversion.unlock NV (iversion i'))).
  set (in_ := Internode.set_version nr' (Nodeversion.unlock NV (iversion nr'))).
  assert (g' !! p = Some (NInternode ip) /\ g' !! nn = Some (NInternode in_)) as [Hgp Hgn].
  { unfold g'. split; (rewrite settled_in; [|rewrite !elem_of_cons; tauto]); by rewrite ?Hp', ?Hn'. }
  rewrite HF in *. apply NoDup_cons in HndF as [HpF HndF]. apply NoDup_app in HndF as HndF'. destruct HndF' as (HndA & HdAB & HndB).
  rewrite not_elem_of_cons in H0F, HnnF. destruct H0F as [_ H0F], HnnF as [_ HnnF].
  assert (forall a, a ∈ nA ++ nB -> a <> p /\ a <> nn /\ a <> 0 /\ (a ∈ L <-> a ∈ p :: nn :: L)) as HFp.
  { intros a Ha. rewrite !elem_of_cons. split_and!; try (by intros ->).
    split; [tauto|]. by intros [->|[->|?]]. }
  destruct (left_rep_children _ _ _ _ _ _ _ _ HA HndA) as (_ & _ & HcA & _).
  destruct (left_rep_children _ _ _ _ _ _ _ _ HB HndB) as (_ & _ & HcB & _).
  fold (kids plo i') in HcA. fold (kids sk nr') in HcB.
  assert (forall a, a ∈ nA ++ nB -> g' !! a = if bool_decide (a ∈ map snd (kids sk nr')) then (fun m => node_set_parent m nn) <$> g !! a
      else if bool_decide (a ∈ map snd (kids plo i')) then (fun m => node_set_parent m p) <$> g !! a else g !! a) as Hg'.
  { intros a Ha. destruct (HFp a Ha) as (H1 & H2 & H3 & H4). specialize (Ho a H1 H2 H3). unfold g'.
    case_bool_decide; [by apply sett_parent|]. case_bool_decide; [by apply sett_parent|by apply settled_same]. }
  assert (adopts p (map snd (kids plo i')) nA g g') as HadA.
  { intros a Ha. rewrite Hg', (bool_decide_eq_false_2 (a ∈ map snd (kids sk nr'))); [done| |apply elem_of_app; by left].
    intros Hin. apply (HdAB a Ha), HcB; [done|]. by apply HFp, elem_of_app; left. }
  assert (adopts nn (map snd (kids sk nr')) nB g g') as HadB.
  { intros a Ha. rewrite Hg' by (apply elem_of_app; by right). case_bool_decide; [done|].
    rewrite bool_decide_eq_false_2; [done|]. intros Hin. apply (HdAB a); [|done]. apply HcA; [done|]. by apply HFp, elem_of_app; right. }
  assert (forall a, a ∈ nA ++ nB -> moved g g' a) as Hmoved.
  { intros a Ha. specialize (Hg' a Ha). destruct (bool_decide _); [right; by exists nn|]. destruct (bool_decide _); [right; by exists p|by left]. }
  assert (forall a, a ∉ p :: nn :: nA ++ nB -> h' !! a = heap s !! a) as Hout.
  { intros a. rewrite !not_elem_of_cons, not_elem_of_app. intros (H1 & H2 & H3 & H4).
    destruct (decide (a = 0)) as [->|]; [done|]. rewrite Ho, !bool_decide_eq_false_2; try done.
    - intros Hin. by apply H3, HcA.
    - intros Hin. by apply H4, HcB. }
  assert (forall a, a ∈ m1 ++ m2 -> g' !! a = g !! a) as Hmm.
  { intros a Ha. destruct (Hm a Ha) as (HaF & Han & HaL). rewrite not_elem_of_cons in HaF.
    apply settled_same; [apply Hout|]; rewrite !elem_of_cons; tauto. }
  assert (forall a, a ∈ nsn ++ nsc -> a ∈ nA ++ nB) as HsF by (intros a; rewrite <- HF, !elem_of_app; tauto).
  destruct (pd_n _ _ _ _ _ _ _ _ _ _ _ _ _ _ _ _ _ _ _ _ _ _ _ Hpd) as (Hn & Hbn & Hpn).
  destruct (pd_c _ _ _ _ _ _ _ _ _ _ _ _ _ _ _ _ _ _ _ _ _ _ _ Hpd) as (Hc & Hbc).
  destruct (pd_L _ _ _ _ _ _ _ _ _ _ _ _ _ _ _ _ _ _ _ _ _ _ _ Hpd) as (HLn & HLc & HLF).
  assert (NT = m1 ++ p :: (nA ++ nB) ++ m2) as HNT
    by (rewrite <- HF; by rewrite <- !app_assoc, <- ?app_comm_cons, <- ?app_assoc).
  exists s', sk, d, eA, nA, eB, nB, i', nr'. split; [exact Hrun|]. split; [|split].
  - assert (n <> 0 /\ child <> 0) as [Hn0 Hc0] by by split; intros ->; apply H0F, HsF.
    split.
    + cbn [heap s' at_heap]. rewrite Ho, Hn by done. case_bool_decide; [by exists nn|]. exists p. split; [done|].
      case_bool_decide; [done|]. by rewrite <- Hpn, set_parent_self.
    + cbn [heap s' at_heap]. rewrite Ho, Hc by done. case_bool_decide as HinB; [by exists nn|]. exists p. split; [done|].
      rewrite bool_decide_eq_true_2; [done|]. assert (child ∈ map snd (family K1 K2 lo n x child)) as Hin.
      { unfold family. rewrite map_app. cbn. rewrite elem_of_app, !elem_of_cons. tauto. }
      rewrite Hcut, map_app, elem_of_app in Hin. tauto.
    + intros a Ha H1 H2. cbn [heap s' at_heap]. destruct (HFp a (HsF a Ha)) as (? & ? & ? & _).
      assert (a ∉ map snd (family K1 K2 lo n x child)) as Hnin by (intros Hin; destruct (family_own a Hin Ha); done).
      rewrite Hcut, map_app, elem_of_app in Hnin. rewrite Ho, !bool_decide_eq_false_2; tauto.
  - split.
    + by eapply above_frame.
    + apply (adopt_orphan d g g' p plo sk ip (map snd (kids plo i')) eA nA nA); try done.
      * intros q Hq0. destruct Hshi. split; cbn; try done.
        -- by rewrite Hul.
        -- by rewrite Hur, Hsp, andb_false_r, (proj2 (Z.eqb_neq _ _) Hq0).
      * constructor; [|done]. intros ?. apply HpF, elem_of_app. by left.
      * rewrite not_elem_of_cons. split; [done|]. intros ?. apply H0F, elem_of_app. by left.
    + apply (adopt_orphan d g g' nn sk phi in_ (map snd (kids sk nr')) eB nB nB); try done.
      * intros q Hq0. destruct Hshr. split; cbn; try done.
        -- by rewrite Hulr.
        -- by rewrite Hurr, Hrtr, (proj2 (Z.eqb_neq _ _) Hq0).
      * constructor; [|done]. intros ?. apply HnnF, elem_of_app. by right.
      * rewrite not_elem_of_cons. split; [done|]. intros ?. apply H0F, elem_of_app. by right.
    + done.
    + rewrite <- HE, <- (pd_es _ _ _ _ _ _ _ _ _ _ _ _ _ _ _ _ _ _ _ _ _ _ _ Hpd). by rewrite <- !app_assoc.
    + rewrite <- (pd_leaves _ _ _ _ _ _ _ _ _ _ _ _ _ _ _ _ _ _ _ _ _ _ _ Hpd).
      rewrite HNT.
      assert (forall w, (forall a, a ∈ w -> moved g g' a) -> leaves g' w = leaves g w) as Hw'.
      { intros w Hsub. apply leaves_ext. intros a Ha%Hsub. by apply moved_leaf. }
      rewrite <- !app_assoc. change ((p :: nA) ++ (nn :: nB) ++ m2) with (p :: nA ++ nn :: nB ++ m2).
      cbn [heap s' at_heap]. fold g'.
      rewrite !leaves_app, (leaves_internode _ _ _ _ Hgp), (leaves_internode _ _ _ _ HPi), !leaves_app, (leaves_internode _ _ _ _ Hgn), leaves_app.
      rewrite !Hw'; [done|..]; intros a Ha; try (by left; apply Hmm; rewrite elem_of_app; tauto); apply Hmoved, elem_of_app; tauto.
    + eapply grown_snoc; [apply Hpd|rewrite HNT; solve_Permutation|]. intros a Ha. apply Hout. intros Hin. apply Ha.
      rewrite !elem_of_app, !elem_of_cons. revert Hin. rewrite !elem_of_cons, elem_of_app. tauto.
    + by split_and!.
    + done.
    + split_and!; [rewrite !elem_of_cons; tauto..|].
      intros a. rewrite !elem_of_cons, elem_of_app, !elem_of_cons. intros [->|[->|Ha%HLF%HsF]]; [tauto..|].
      apply elem_of_app in Ha. tauto.
    + cbn. by rewrite Hur, Hsp, andb_false_r.
    + destruct (pd_ptr _ _ _ _ _ _ _ _ _ _ _ _ _ _ _ _ _ _ _ _ _ _ _ Hpd) as [Ha Hr]. split; [|done].
      revert Ha. rewrite HNT, !elem_of_app, !elem_of_cons, !elem_of_app. tauto.
    + cbn [heap s' at_heap]. fold g'. apply (linked_leaves g _ NT _ LS); [apply Hpd| |apply Hpd].
      intros a. rewrite HNT, elem_of_app, elem_of_cons, elem_of_app. intros [Ha|[->|[Ha|Ha]]].
      * left. left. apply Hmm, elem_of_app. by left.
      * right. unfold is_leaf_at. by rewrite HPi.
      * left. by apply Hmoved.
      * left. left. apply Hmm, elem_of_app. by right.
  - split_and!; try done; intros Hin%HsF; tauto.
Qed.
End parent.
End up.
