(* ===== verification/SplitLoop.v ===== *)
(** The loop of [make_split] as a whole: from a pair of siblings that waits for
    its link, up to the node that has room for it, and what is left locked. *)
From S2P Require Import Prelude Compiler Memory StringSlice Key Ksearch Kpermuter Nodeversion.
From S2P Require Import Stringbag Node Heap Get Insert Remove Tree Find Steps InternodeSpec LeafSpec Locate Put NewLayer Ancestors LinkChild SplitUp.

Section loop.
Context (b0 c0 : Z) (lf1 lf2 : leaf).
Abbreviation sett := (settled b0 c0 lf1 lf2).
Context (s0 : state) (base : list Z) (ET : list entry) (LS : list Z) (p0 : Z).
Context (Hbase : NoDup base) (Haddr : forall a, a ∈ base -> 0 < a < next_fresh s0) (Hfr : 0 < next_fresh s0).
Abbreviation pending := (pending b0 c0 lf1 lf2 s0 base ET LS p0).
Abbreviation linked_up := (linked_up b0 c0 lf1 lf2 s0 base ET LS p0).

(** ** Unlocking internodes *)
Definition unlocked (i : internode) : internode := Internode.set_version i (Nodeversion.unlock NV (iversion i)).

Lemma settled_unlock L L' h a i :
  h !! a = Some (NInternode i) -> (forall b, b ∈ L <-> b = a \/ b ∈ L') -> a ∉ L' ->
  sett L' (<[a := NInternode (unlocked i)]> h) = sett L h.
Proof using Type.
  intros Ha HL Hn. apply map_eq. intros b. destruct (decide (b = a)) as [->|Hne].
  - rewrite settled_out, lookup_insert_eq by done. rewrite settled_in by (by apply HL; left). by rewrite Ha.
  - apply settled_same; [by rewrite lookup_insert_ne|]. rewrite HL. tauto.
Qed.

Lemma pending_heap s k L L' h root anc par n lo hi es1 es2 ns1 ns2 dn esn nsn child x dc esc nsc nd cd :
  pending s k L root anc par n lo hi es1 es2 ns1 ns2 dn esn nsn child x dc esc nsc nd cd ->
  sett L' h = sett L (heap s) -> h !! n = heap s !! n -> h !! child = heap s !! child ->
  (forall a, a ∉ ns1 ++ (nsn ++ nsc) ++ ns2 -> h !! a = heap s !! a) ->
  n ∈ L' -> child ∈ L' -> (forall a, a ∈ L' -> a ∈ L) ->
  pending (with_heap s h) k L' root anc par n lo hi es1 es2 ns1 ns2 dn esn nsn child x dc esc nsc nd cd.
Proof using Type.
  intros [H1 H2 H3 H4 H5 H6 H7 H8 H9 (H10 & H11 & H12) H13 H14 H15] Hs Hn Hc Hout HnL HcL Hsub.
  split; cbn [heap with_heap]; rewrite ?Hs, ?Hn, ?Hc; try done.
  - by eapply grown_same.
  - split_and!; [done..|]. intros a Ha%Hsub. by apply H12.
Qed.

Lemma linked_up_heap s k L L' h :
  linked_up s k L -> sett L' h = sett L (heap s) ->
  (forall a, a ∉ base ++ fresh (next_fresh s0) k -> h !! a = heap s !! a) -> linked_up (with_heap s h) k L'.
Proof using Type.
  intros [(D & root & ns & H1 & H2 & H3 & H4 & H5)] Hs Hout. split. exists D, root, ns. cbn [heap with_heap]. rewrite Hs.
  split_and!; try done. eapply grown_same; [done|done|]. intros a Ha. apply Hout. by rewrite <- (gr_nodes _ _ _ _ _ H3).
Qed.

(** The pair itself: both nodes are unlocked once they are linked. *)
Definition freed (h : gmap Z node) (n child : Z) (ni ci : internode) : gmap Z node :=
  <[child := NInternode (unlocked ci)]> (<[n := NInternode (unlocked ni)]> h).

Lemma unlock_pair s n child ni ci A (k : M A) :
  heap s !! n = Some (NInternode ni) -> heap s !! child = Some (NInternode ci) -> n <> child ->
  busy (iversion ni) -> busy (iversion ci) ->
  (unlock n ;! unlock child ;! k) s = k (with_heap s (freed (heap s) n child ni ci)).
Proof using Type.
  intros Hn Hc Hne Hbn Hbc. rewrite (bind_eq _ _ _ _ _ (unlock_eq _ _ _ Hn Hbn)).
  erewrite bind_eq by (apply unlock_eq; [cbn; rewrite lookup_insert_ne by done; exact Hc|done]). done.
Qed.

Lemma settled_freed L L' h n child ni ci :
  h !! n = Some (NInternode ni) -> h !! child = Some (NInternode ci) -> n <> child -> n ∉ L' -> child ∉ L' ->
  (forall b, b ∈ L <-> b = n \/ b = child \/ b ∈ L') -> sett L' (freed h n child ni ci) = sett L h.
Proof using Type.
  intros Hn Hc Hne HnL HcL HL. unfold freed.
  rewrite (settled_unlock (child :: L') L' _ child ci), (settled_unlock L (child :: L') h n ni); try done.
  - intros b. rewrite elem_of_cons, HL. tauto.
  - rewrite not_elem_of_cons. done.
  - by rewrite lookup_insert_ne.
  - intros b. by rewrite elem_of_cons.
Qed.

Lemma kept_internodes h h' n child ni ci ns :
  kept_below h h' n child (NInternode ni) (NInternode ci) ns ->
  exists ni' ci', h' !! n = Some (NInternode ni') /\ iversion ni' = iversion ni /\
    h' !! child = Some (NInternode ci') /\ iversion ci' = iversion ci.
Proof using Type.
  intros [(q & _ & Hn) (q' & _ & Hc) _]. by exists (Internode.set_parent ni q), (Internode.set_parent ci q').
Qed.

Lemma fresh_prefix k a : a ∈ base ++ fresh (next_fresh s0) k -> a ∈ base ++ fresh (next_fresh s0) (S k).
Proof using Type. rewrite fresh_snoc, !elem_of_app. tauto. Qed.

(** ** One turn *)
(** The link is the last one, or the parent is cut, too. [NT] are the nodes of
    the tree, [NP] the pair and those below it. *)
Definition link_ends (L NT : list Z) (p : Z) (s' : state) : Prop :=
  exists k', (forall a, a ∈ NT -> a ∈ base ++ fresh (next_fresh s0) k') /\
    (p = 0 /\ linked_up s' k' L \/
     p <> 0 /\ p ∉ L /\ p ∈ base ++ fresh (next_fresh s0) k' /\ linked_up s' k' (p :: L) /\ claimed_at s' p).
Definition link_goes_on (L : list Z) (root : Z) (anc NP : list Z) (p nn sk : Z) (s' : state) : Prop :=
  exists k' anc' pp plo phi e1 e2 m1 m2 d eA nA eB nB i' nr', anc = p :: anc' /\
    pending s' k' (p :: nn :: L) root anc' pp p plo phi e1 e2 m1 m2 d eA nA nn sk d eB nB (NInternode i') (NInternode nr') /\
    Nodeversion.splitting NV (iversion i') = true /\
    (forall a, a ∈ NP -> a ∈ nA ++ nB) /\ p ∉ NP /\ nn ∉ NP.

Section turn.
Context (s : state) (k : nat) (L : list Z) (root : Z) (anc : list Z) (par n lo hi : Z) (es1 es2 : list entry)
  (ns1 ns2 : list Z) (dn : nat) (esn : list entry) (nsn : list Z) (child x : Z) (dc : nat) (esc : list entry)
  (nsc : list Z) (nd cd : node).
Context (Hpd : pending s k L root anc par n lo hi es1 es2 ns1 ns2 dn esn nsn child x dc esc nsc nd cd).
Abbreviation NT := (ns1 ++ (nsn ++ nsc) ++ ns2).

Lemma pending_nodes a : a ∈ NT -> a ∈ base ++ fresh (next_fresh s0) k.
Proof using Hpd. by rewrite (gr_nodes _ _ _ _ _ (pd_grown _ _ _ _ _ _ _ _ _ _ _ _ _ _ _ _ _ _ _ _ _ _ _ _ _ _ _ _ _ _ _ _ Hpd)). Qed.
Lemma pending_locked a : a ∈ L -> a ∈ nsn ++ nsc.
Proof using Hpd. apply (pd_L _ _ _ _ _ _ _ _ _ _ _ _ _ _ _ _ _ _ _ _ _ _ _ _ _ _ _ _ _ _ _ _ Hpd). Qed.

Lemma link_once height st : exists r s',
  (forall fuel, link_child (S fuel) n child x height st s = Some (r, s')) /\
  kept_below (heap s) (heap s') n child nd cd (nsn ++ nsc) /\
  match snd r with None => link_ends L NT (fst r) s' | Some (nn, sk) => link_goes_on L root anc (nsn ++ nsc) (fst r) nn sk s' end.
Proof using Hpd Hbase Haddr Hfr.
  pose proof (pd_above _ _ _ _ _ _ _ _ _ _ _ _ _ _ _ _ _ _ _ _ _ _ _ _ _ _ _ _ _ _ _ _ Hpd) as Ha.
  pose proof pending_nodes as Hin. pose proof pending_locked as HL. pose proof Hpd as Hpd'.
  inversion Ha as [|anc' d pp p plo phi e1 e2 m1 m2 i K1 k' c K2 el er nl nr Hab HPi HPok HPK HPc HPk HPL HPR]; subst.
  - destruct (step_root _ _ _ _ _ _ _ _ _ Hbase Haddr Hfr _ _ _ _ _ _ _ _ _ _ _ _ _ _ _ _ _ _ _ _ _ _ _ Hpd height st eq_refl)
      as (s' & H1 & H2 & H3).
    exists (0, None), s'. split_and!; [done..|]. exists (S k). split; [|by left]. intros a ?. by apply fresh_prefix, Hin.
  - destruct (pair_in_parent _ _ _ _ _ _ _ _ _ Hbase Haddr Hfr _ _ _ _ _ _ _ _ _ _ _ _ _ _ _ _ _ _ _ _ _ _ _ _ _ _ _ _ _ _ _ Hpd' HPK) as (_ & _ & _ & _ & _ & _ & Hp0 & _).
    destruct (parent_nodes _ _ _ _ _ _ _ _ _ Hbase Haddr Hfr _ _ _ _ _ _ _ _ _ _ _ _ _ _ _ _ _ _ _ _ _ _ _ _ _ _ _ _ Hpd') as (_ & _ & _ & HpL & _).
    assert (par ∈ (m1 ++ par :: nl) ++ (nsn ++ nsc) ++ nr ++ m2) as HpN by (rewrite !elem_of_app, elem_of_cons; tauto).
    destruct (Z.ltb_spec (height + 1) (height_ i)) as [Hh|Hh]; [|destruct (io_nkeys _ _ HPok) as [_ [Hw|Hw]%Z.le_lteq]].
    + destruct (step_tall _ _ _ _ _ _ _ _ _ Hbase Haddr Hfr _ _ _ _ _ _ _ _ _ _ _ _ _ _ _ _ _ _ _ _ _ _ _ _ _ _ _ _ _ _ _ _ _ Hpd' Hab HPi HPok HPK HPL HPR height st Hh) as (s' & H1 & H2 & H3 & H4).
      exists (par, None), s'. split_and!; [done..|]. exists (S k). split; [intros a ?; by apply fresh_prefix, Hin|].
      right. split_and!; try done. by apply fresh_prefix, Hin.
    + destruct (step_room _ _ _ _ _ _ _ _ _ Hbase Haddr Hfr _ _ _ _ _ _ _ _ _ _ _ _ _ _ _ _ _ _ _ _ _ _ _ _ _ _ _ _ _ _ _ _ _ Hpd' Hab HPi HPok HPK HPL HPR height st Hh Hw) as (s' & H1 & H2 & H3 & H4).
      exists (par, None), s'. split_and!; [done..|]. exists k. split; [done|]. right. split_and!; try done. by apply Hin.
    + destruct (step_full _ _ _ _ _ _ _ _ _ Hbase Haddr Hfr _ _ _ _ _ _ _ _ _ _ _ _ _ _ _ _ _ _ _ _ _ _ _ _ _ _ _ _ _ _ _ _ _ Hpd' Hab HPi HPok HPK HPL HPR height st Hh Hw) as
        (s' & sk & d' & eA & nA & eB & nB & i' & nr' & H1 & H2 & H3 & H4 & H5 & H6 & H7).
      exists (par, Some (next_fresh s, sk)), s'. split_and!; [done..|].
      exists (S k), anc', pp, plo, phi, e1, e2, m1, m2, (S d'), eA, (par :: nA), eB, (next_fresh s :: nB), i', nr'.
      split_and!; try done. intros a [Ha'|Ha']%H7%elem_of_app; rewrite elem_of_app, !elem_of_cons; tauto.
Qed.
End turn.

(** ** The loop above the leaves *)
Lemma require_locked_eq s a nd A (k : M A) :
  heap s !! a = Some nd -> busy (node_version nd) -> (require_locked a ;! k) s = k s.
Proof using Type.
  intros Ha (_ & Hl & _). unfold require_locked. by rewrite bind_assoc, (bind_eq _ _ _ _ _ (version_eq _ _ _ Ha)), bind_require.
Qed.

Lemma loop_turn s n child nd cd x height st c p next s' :
  heap s !! n = Some nd -> heap s !! child = Some cd -> busy (node_version nd) -> busy (node_version cd) ->
  Nodeversion.isleaf NV (node_version nd) || Nodeversion.splitting NV (node_version nd) = true ->
  (forall fuel, link_child (S fuel) n child x height st s = Some ((p, next), s')) ->
  forall fuel, split_loop (S (S fuel)) n child x height st c s =
  (let! c := (if n =? n_ c then strip_left n child st c else ret c) in
   (if n =? n_ c then ret tt else unlock n) ;!
   (if child =? n_ c then ret tt else unlock child) ;!
   match next with
   | Some (nc, ikey') => split_loop (S fuel) p nc ikey' (height + 1) st c
   | None => (if parent_exists p then unlock p else ret tt) ;! ret c
   end) s'.
Proof using Type.
  intros Hn Hc Hbn Hbc Hs Hlink fuel. cbn [split_loop].
  rewrite (require_locked_eq _ _ _ _ _ Hn Hbn), (require_locked_eq _ _ _ _ _ Hc Hbc).
  rewrite (bind_eq _ _ _ _ _ (version_eq _ _ _ Hn)), bind_require by done.
  by rewrite (bind_eq _ _ _ _ _ (Hlink fuel)).
Qed.

(** What the loop does from an internode on. *)
Definition loop_climbs (anc : list Z) : Prop :=
  forall s k L0 root par n lo hi es1 es2 ns1 ns2 dn esn nsn child x dc esc nsc ni ci height st c,
  pending s k (n :: child :: L0) root anc par n lo hi es1 es2 ns1 ns2 dn esn nsn child x dc esc nsc (NInternode ni) (NInternode ci) ->
  n ∉ L0 -> child ∉ L0 -> n_ c ∈ L0 -> Nodeversion.splitting NV (iversion ni) = true ->
  exists s' k', (forall fuel, (length anc + 2 <= fuel)%nat -> split_loop fuel n child x height st c s = Some (c, s')) /\
    linked_up s' k' L0 /\ forall a, a ∈ L0 -> heap s' !! a = heap s !! a.

(** The rest of a turn, once the pair is linked and [h1] is the heap in which
    of the locked nodes [L] only [L0] are left. *)
Section after_link.
Context (s : state) (k : nat) (L : list Z) (root : Z) (anc : list Z) (par n lo hi : Z) (es1 es2 : list entry)
  (ns1 ns2 : list Z) (dn : nat) (esn : list entry) (nsn : list Z) (child x : Z) (dc : nat) (esc : list entry)
  (nsc : list Z) (nd cd : node).
Context (Hpd : pending s k L root anc par n lo hi es1 es2 ns1 ns2 dn esn nsn child x dc esc nsc nd cd).
Context (L0 : list Z) (c : tcursor) (height st p : Z) (next : option (Z * Z)) (s1 : state) (h1 : gmap Z node).
Abbreviation NT := (ns1 ++ (nsn ++ nsc) ++ ns2).
Context (HL0 : forall a, a ∈ L0 -> a ∈ L) (Hc : n_ c ∈ L0)
  (Hres : match next with None => link_ends L NT p s1 | Some (nn, sk) => link_goes_on L root anc (nsn ++ nsc) p nn sk s1 end)
  (Ho : forall a, a <> n -> a <> child -> h1 !! a = heap s1 !! a)
  (Hsett : forall P, n ∉ P -> child ∉ P -> sett (P ++ L0) h1 = sett (P ++ L) (heap s1))
  (IH : forall anc', (length anc' < length anc)%nat -> loop_climbs anc').

Lemma pair_locked : n ∈ nsn ++ nsc /\ child ∈ nsn ++ nsc /\ n ∈ L /\ child ∈ L.
Proof using Hpd.
  pose proof (pd_L _ _ _ _ _ _ _ _ _ _ _ _ _ _ _ _ _ _ _ _ _ _ _ _ _ _ _ _ _ _ _ _ Hpd) as (H1 & H2 & H3).
  split_and!; try done; by apply H3.
Qed.

Lemma after_link : exists s' k', (forall fuel, (length anc + 1 <= fuel)%nat ->
    match next with
    | Some (nc, ikey') => split_loop fuel p nc ikey' (height + 1) st c
    | None => (if parent_exists p then unlock p else ret tt) ;! ret c
    end (with_heap s1 h1) = Some (c, s')) /\
  linked_up s' k' L0 /\ forall a, a ∈ L0 -> heap s' !! a = h1 !! a.
Proof using Hpd HL0 Hc Hres Ho Hsett IH Hbase Haddr Hfr.
  destruct pair_locked as (HnP & HcP & HnL & HcL).
  pose proof (pending_locked _ _ _ _ _ _ _ _ _ _ _ _ _ _ _ _ _ _ _ _ _ _ _ Hpd) as HLP.
  destruct next as [[nn sk]|].
  - destruct Hres as (k' & anc' & pp & plo & phi & e1 & e2 & m1 & m2 & d & eA & nA & eB & nB & i' & nr' & Hanc & Hpd' & Hsp' & Hsub & Hpn & Hnn').
    assert (p <> n /\ p <> child /\ nn <> n /\ nn <> child /\ p ∉ L0 /\ nn ∉ L0) as (Hp1 & Hp2 & Hq1 & Hq2 & Hp3 & Hq3).
    { split_and!; try (by intros ->); by intros ?%HL0%HLP. }
    assert (pending (with_heap s1 h1) k' (p :: nn :: L0) root anc' pp p plo phi e1 e2 m1 m2 d eA nA nn sk d eB nB (NInternode i') (NInternode nr')) as Hpd2.
    { eapply pending_heap; [exact Hpd'|..]; try (rewrite !elem_of_cons; tauto).
      - apply (Hsett [p; nn]); rewrite !not_elem_of_cons; split_and!; try done; apply not_elem_of_nil.
      - by apply Ho.
      - by apply Ho.
      - intros a Ha. apply Ho; intros ->; apply Ha; rewrite !elem_of_app; apply Hsub in HnP, HcP; rewrite elem_of_app in HnP, HcP; tauto.
      - intros a. rewrite !elem_of_cons. intros [?|[?|?%HL0]]; tauto. }
    edestruct (IH anc') as (s' & k2 & Hrun & Hl & Hkeep); [rewrite Hanc; cbn; lia|exact Hpd2|done..|].
    exists s', k2. split_and!; [|done|done]. intros fuel Hf. apply Hrun. rewrite Hanc in Hf. cbn in Hf. lia.
  - destruct Hres as (k' & Hk' & Hp).
    assert (forall a, a ∉ base ++ fresh (next_fresh s0) k' -> h1 !! a = heap s1 !! a) as Hout.
    { intros a Ha. apply Ho; intros ->; apply Ha, Hk'; rewrite !elem_of_app in *; tauto. }
    destruct Hp as [[-> Hl]|(Hp0 & HpL & Hpin & Hl & i & Hi & Hbi)].
    + exists (with_heap s1 h1), k'. split_and!; [done| |done]. apply (linked_up_heap _ _ _ _ _ Hl); [|done].
      apply (Hsett []); apply not_elem_of_nil.
    + assert (p <> n /\ p <> child /\ p ∉ L0) as (Hpn & Hpc & HpL0) by (split_and!; [by intros ->|by intros ->|by intros ?%HL0]).
      assert (h1 !! p = Some (NInternode i)) as Hi' by by rewrite Ho.
      exists (with_heap s1 (<[p := NInternode (unlocked i)]> h1)), k'. split_and!.
      * intros fuel _. unfold parent_exists. rewrite (proj2 (Z.eqb_neq _ _) Hp0). cbn [negb].
        by rewrite (bind_eq _ _ _ _ _ (unlock_eq (with_heap s1 h1) p _ Hi' Hbi)).
      * apply (linked_up_heap _ _ _ _ _ Hl).
        -- rewrite (settled_unlock (p :: L0) L0) by (done || (intros b; by rewrite elem_of_cons)).
           apply (Hsett [p]); rewrite not_elem_of_cons; (split; [done|apply not_elem_of_nil]).
        -- intros a Ha. rewrite lookup_insert_ne by (by intros ->). by apply Hout.
      * intros a Ha. cbn. by rewrite lookup_insert_ne by (by intros ->).
Qed.
End after_link.

Lemma split_loop_up anc : loop_climbs anc.
Proof using Hbase Haddr Hfr.
  induction anc as [anc IH] using (induction_ltof1 _ (@length Z)).
  intros s k L0 root par n lo hi es1 es2 ns1 ns2 dn esn nsn child x dc esc nsc ni ci height st c Hpd HnL HcL HcL0 Hsp.
  destruct (pd_n _ _ _ _ _ _ _ _ _ _ _ _ _ _ _ _ _ _ _ _ _ _ _ _ _ _ _ _ _ _ _ _ Hpd) as (Hn & Hbn & _).
  destruct (pd_c _ _ _ _ _ _ _ _ _ _ _ _ _ _ _ _ _ _ _ _ _ _ _ _ _ _ _ _ _ _ _ _ Hpd) as (Hc & Hbc).
  destruct (pair_facts _ _ _ _ _ _ _ _ _ Hbase Haddr Hfr _ _ _ _ _ _ _ _ _ _ _ _ _ _ _ _ _ _ _ _ _ _ _ Hpd) as (_ & _ & Hne & _).
  pose proof (pending_locked _ _ _ _ _ _ _ _ _ _ _ _ _ _ _ _ _ _ _ _ _ _ _ Hpd) as HLn.
  destruct (link_once _ _ _ _ _ _ _ _ _ _ _ _ _ _ _ _ _ _ _ _ _ _ _ Hpd height st) as ([p next] & s1 & Hlink & Hkb & Hres). cbn [fst snd] in Hres.
  assert ((n =? n_ c) = false /\ (child =? n_ c) = false) as [En Ec] by (rewrite !Z.eqb_neq; split; by intros ->).
  destruct (kept_internodes _ _ _ _ _ _ _ Hkb) as (ni' & ci' & Hn' & Hvn & Hc' & Hvc).
  destruct (after_link _ _ _ _ _ _ _ _ _ _ _ _ _ _ _ _ _ _ _ _ _ _ _ Hpd L0 c height st p next s1
    (freed (heap s1) n child ni' ci')) as (s' & k' & Hrun & Hl & Hkeep); try done.
  - intros a Ha. rewrite !elem_of_cons. tauto.
  - intros a ??. unfold freed. by rewrite !lookup_insert_ne.
  - intros P HnP HcP. apply settled_freed; try done; [by rewrite not_elem_of_app..|]. intros b. rewrite !elem_of_app, !elem_of_cons. tauto.
  - exists s', k'. split_and!; [|done|].
    + intros [|[|fuel]] Hf; [lia..|].
      rewrite (loop_turn s n child _ _ x height st c p next s1 Hn Hc Hbn Hbc) by (done || (cbn; by rewrite Hsp, orb_true_r)).
      rewrite En, bind_ret, En, Ec, (unlock_pair s1 n child ni' ci') by (done || by rewrite ?Hvn, ?Hvc).
      apply Hrun. lia.
    + intros a Ha. rewrite Hkeep by done. unfold freed. rewrite !lookup_insert_ne by (by intros ->).
      apply (kb_other _ _ _ _ _ _ _ Hkb); [apply HLn; rewrite !elem_of_cons; tauto|by intros ->|by intros ->].
Qed.
End loop.
