(* ===== verification/SplitLeaf.v ===== *)
(** The leaf that [make_split] is called for: rearranging its free slots when
    only slot 0 is in the way, and the two leaves of a split. *)
From Stdlib Require Import Sorted.
From S2P Require Import Prelude Compiler Memory StringSlice Key Ksearch Kpermuter Nodeversion.
From S2P Require Import Stringbag Node Heap Get Insert Remove Tree Find Steps LeafSpec Locate Put SplitSpec.

(** * Free slots *)
(** [exchange(size(), width - 1)] brings the first free slot to the back. *)
Lemma exchange_back x live u free :
  repr leaf_width x live (u :: free) ->
  exists free', repr leaf_width (Kpermuter.exchange leaf_width x (zlength live) (leaf_width - 1)) live (free' ++ [u]).
Proof.
  intros Hr. pose proof (repr_length leaf_width ltac:(done) _ _ _ Hr) as Hlen. rewrite zlength_cons in Hlen.
  pose proof (zlength_nonneg live).
  destruct free as [|v q _] using rev_ind.
  - change (zlength []) with 0 in Hlen. exists []. cbn [app].
    assert (zlookup (live ++ [u]) (leaf_width - 1) = Some u) as Hu
      by (replace (leaf_width - 1) with (zlength live) by lia; apply zlookup_mid).
    assert (Kpermuter.index x (leaf_width - 1) = u) as Hi.
    { apply (slots_index leaf_width _ _ _ _ (repr_slots _ _ _ _ Hr)); [unfold leaf_width; lia|done]. }
    replace (zlength live) with (leaf_width - 1) by lia. destruct Hr as [Hw Hsz Hsl Hp]. split; [|..|done].
    + by apply exchange_word.
    + by rewrite exchange_size by (unfold leaf_width; lia).
    + rewrite exchange_slots, Hi, Hsl by (unfold leaf_width; lia). rewrite list_insert_insert_eq.
      apply list_insert_id. rewrite <- Hu. symmetry. by apply zlookup_nonneg.
  - exists (v :: q). by apply (exchange_free_repr leaf_width ltac:(done) x live u q v).
Qed.

(** Another order of the free slots changes nothing for the table. *)
Lemma leaf_view_perm {N : Layers} m h p0 kb B ns ka b l par lo hi n esb Bnb nso x live free free' :
  leaf_view m h p0 kb B ns ka b l par lo hi n esb Bnb nso -> leaf_entries l live free esb -> repr leaf_width x live free' ->
  let l2 := Leaf.set_permutation l x in
  leaf_view m (<[b := NLeaf l2]> h) p0 kb B ns ka b l2 par lo hi n esb Bnb nso /\ leaf_entries l2 live free' esb.
Proof.
  intros [Hl Hlok Hrange Hreps Hns Hnd Hdep Hrepl Hoth] Hle Hx l2.
  pose proof Hnd as Hnd'. apply NoDup_app in Hnd' as (_ & Hd1 & Hnd'). apply NoDup_cons in Hnd' as [Hbb _].
  assert (b ∉ nso) as Hbo by (intros Hin; apply (Hd1 b Hin), elem_of_cons; by left).
  assert (leaf_entries l2 live free' esb) as Hle2 by (destruct Hle as [[? ? ? ?] ? ? ? ?]; by split).
  split; [|done]. split; try done.
  - apply lookup_insert_eq.
  - destruct Hlok as [_ H2 H3 H4 H5 H6 H7 H8]. split; try done. by exists live, free'.
  - by eapply entries_rep_frame; [apply agree_insert|].
  - intros h' l' esb' Bnb' v Hag. apply Hrepl. intros a Ha. rewrite Hag by done.
    apply lookup_insert_ne. by intros ->.
Qed.

(** * The right leaf *)
Lemma seqZ_delete n j : 0 <= j < n -> seqZ 0 n = seqZ 0 j ++ j :: seqZ (j + 1) (n - 1 - j).
Proof.
  intros Hj. replace n with (j + (n - j)) at 1 by lia. rewrite seqZ_app by lia. f_equal. rewrite seqZ_cons by lia.
  f_equal. f_equal; lia.
Qed.

Lemma zlength_seqZ a n : 0 <= n -> zlength (seqZ a n) = n.
Proof. intros Hn. unfold zlength. rewrite length_seqZ. lia. Qed.

Lemma drop_slots (x : leaf) (L : list entry) mid n :
  0 <= mid -> 0 <= n -> zlength L = mid + n -> (forall j, 0 <= j < n -> zlookup L (mid + j) = Some (slot_entry x j)) ->
  drop (Z.to_nat mid) L = map (slot_entry x) (seqZ 0 n).
Proof.
  intros Hm Hn HL Hs. assert (zlength (drop (Z.to_nat mid) L) = n) as Hd by (unfold zlength in *; rewrite length_drop; lia).
  apply zlookup_ext.
  - unfold zlength in *. rewrite length_map, length_seqZ, Hd. lia.
  - intros j Hj. rewrite Hd in Hj. rewrite zlookup_nonneg, lookup_drop, map_zlookup by lia.
    rewrite (zlookup_nonneg (seqZ _ _)), lookup_seqZ_lt by lia. cbn.
    replace (0 + Z.of_nat (Z.to_nat j)) with j by lia. rewrite <- Hs by lia. rewrite zlookup_nonneg by lia. f_equal. lia.
Qed.

Lemma StronglySorted_take_drop k (L : list entry) :
  StronglySorted entry_lt L -> StronglySorted entry_lt (take k L) /\ StronglySorted entry_lt (drop k L).
Proof.
  rewrite <- (take_drop k L) at 1. generalize (take k L) (drop k L). intros l1 l2. induction l1 as [|e l1 IH]; cbn; intros Hs; [by repeat constructor|].
  inversion Hs as [|? ? Hs' Hf]; subst. destruct (IH Hs') as [H1 H2]. split; [|done]. constructor; [done|].
  by apply Forall_app in Hf as [? _].
Qed.

Section leaves.
Context (unaligned : bool) (m : mem) (ka : key) (l : leaf) (la lb free : list Z) (es : list entry).
Context (Hm : mem_bytes m) (Hka : key_wf unaligned m ka) (Hlen : len_ ka <= max_key_len)
  (Hle : leaf_entries l (la ++ lb) free es) (Ha : above l ka la) (Hb : below l ka lb)
  (Hfull : leaf_width - 1 <= Leaf.size l).
Abbreviation i := (zlength la).
Abbreviation E v := (entries_with m ka l la lb v).
Abbreviation width := (Leaf.size l).

Lemma split_into_spec nr0 :
  leaf_arrays nr0 -> modstate_ nr0 = modstate_insert -> exists nr1 x mid ty e f free',
    let nr := Leaf.set_permutation nr1 x in
    LeafSplit.split_into m l nr0 i ka = Some (nr, e_ikey f, ty) /\ 1 <= mid <= width /\
    zlookup (E 0) (mid - 1) = Some e /\ zlookup (E 0) mid = Some f /\ e_ikey e < e_ikey f /\
    leaf_arrays nr /\ same_leaf nr0 nr1 /\
    (forall j, 0 <= j < width + 1 - mid -> zlookup (E 0) (mid + j) = Some (slot_entry nr j)) /\
    (i < mid /\ ty = 0 /\ repr leaf_width x (seqZ 0 (width + 1 - mid)) free' \/
     mid <= i /\ ty <> 0 /\ repr leaf_width x (seqZ 0 (i - mid) ++ seqZ (i - mid + 1) (width - i)) (free' ++ [i - mid])).
Proof using Hm Hka Hlen Hle Ha Hb Hfull.
  intros Hnr Hms. destruct (full_width m ka l la lb free es Hle Hfull) as (Hw & Hwr & HE).
  destruct (split_point_spec unaligned m ka l la lb free es Hm Hka Hlen Hle Ha Hb Hfull) as
    (mid & Hmid & Hr & e & f & He & Hf & Hlt).
  destruct (move_items_spec unaligned m ka l la lb free es Hm Hka Hlen Hle Ha Hb Hfull mid (Z.to_nat (width + 1 - mid)) mid nr0
    (Kpermuter.value_from (permutation_ l) (mid - b2z (i <? mid)))) as (nr1 & Hmv & Harr & Hs & Hsl); try done; try lia.
  { by rewrite Hms. }
  set (permr := make_sorted leaf_width (width + 1 - mid)).
  set (x := store_permutation leaf_width (if mid <=? i then remove_to_back leaf_width permr (i - mid) else permr)).
  pose proof (make_sorted_repr leaf_width (width + 1 - mid) ltac:(done) ltac:(unfold leaf_width in *; lia)) as Hps. fold permr in Hps.
  assert (forall j, slot_entry (Leaf.set_permutation nr1 x) j = slot_entry nr1 j) as Hsp by done.
  assert (Leaf.ikey (Leaf.set_permutation nr1 x) 0 = e_ikey f) as Hik.
  { specialize (Hsl 0 ltac:(lia)). rewrite Z.add_0_r, Hf in Hsl. by injection Hsl as ->. }
  pose proof (zlength_nonneg la). pose proof (zlength_nonneg lb).
  set (free' := reverse (seqZ (width + 1 - mid) (leaf_width - (width + 1 - mid)))) in Hps.
  exists nr1, x, mid, (if i <? mid then 0 else 1 + b2z (mid =? width)), e, f, free'. cbv zeta. split_and!; try done; try lia.
  - unfold LeafSplit.split_into. change (Leaf.permutation l) with (permutation_ l).
    change (Kpermuter.size (permutation_ l)) with width.
    destruct (Z.leb_spec (leaf_width - 1) width); [|lia]. cbn [negb]. rewrite Hmid. cbn [mbind option_bind].
    rewrite Hmv. cbn [mbind option_bind]. fold permr. fold x. by rewrite Hik.
  - by destruct Harr.
  - destruct (Z.ltb_spec i mid); [left|right].
    + split_and!; try done. unfold x. destruct (Z.leb_spec mid i); [lia|]. by apply store_permutation_repr.
    + split_and!; [done|by destruct (mid =? width)|]. unfold x. destruct (Z.leb_spec mid i); [|lia].
      apply store_permutation_repr; [done|]. rewrite (seqZ_delete _ (i - mid)) in Hps by lia.
      replace (width + 1 - mid - 1 - (i - mid)) with (width - i) in Hps by lia.
      apply (remove_to_back_repr leaf_width ltac:(done)) in Hps.
      replace (zlength (seqZ 0 (i - mid))) with (i - mid) in Hps; [done|]. rewrite zlength_seqZ; lia.
Qed.

Lemma entries_at v j : zlookup (E v) j = if j =? i then Some (key_entry m ka v) else zlookup (E 0) j.
Proof using Type.
  unfold entries_with. assert (zlength (map (slot_entry l) la) = i) as Hml by (unfold zlength; by rewrite length_map).
  destruct (Z.eqb_spec j i) as [->|Hne].
  - rewrite <- Hml. apply zlookup_mid.
  - destruct (Z.ltb_spec j i); [by rewrite !zlookup_app_l by lia|]. by rewrite !zlookup_app_r, !zlookup_cons by lia.
Qed.
Lemma entries_length v : zlength (E v) = zlength (E 0).
Proof using Type. unfold entries_with, zlength. by rewrite !length_app. Qed.

(** The right leaf, before or after the new key's value is set. *)
Lemma right_entries v x live free' mid :
  0 <= mid <= width -> leaf_arrays x -> repr leaf_width (permutation_ x) (seqZ 0 (width + 1 - mid)) free' ->
  (forall j, 0 <= j < width + 1 - mid -> zlookup (E v) (mid + j) = Some (slot_entry x j)) ->
  live = seqZ 0 (width + 1 - mid) -> leaf_entries x live free' (drop (Z.to_nat mid) (E v)).
Proof using Hm Hka Hlen Hle Ha Hb Hfull.
  intros Hmid Harr Hr Hsl ->. destruct (full_width m ka l la lb free es Hle Hfull) as (Hw & Hwr & HE).
  destruct (entries_with_ok unaligned m ka l la lb free es Hm Hka Hlen Hle Ha Hb v) as [Hok Hs]. split; try done.
  - apply drop_slots; try lia; [|done]. rewrite entries_length. lia.
  - by apply Forall_drop.
  - by apply StronglySorted_take_drop.
Qed.

Lemma right_moved nr mid free' v :
  1 <= mid <= width -> i < mid -> leaf_arrays nr -> repr leaf_width (permutation_ nr) (seqZ 0 (width + 1 - mid)) free' ->
  (forall j, 0 <= j < width + 1 - mid -> zlookup (E 0) (mid + j) = Some (slot_entry nr j)) ->
  leaf_entries nr (seqZ 0 (width + 1 - mid)) free' (drop (Z.to_nat mid) (E v)).
Proof using Hm Hka Hlen Hle Ha Hb Hfull.
  intros Hmid Hi Harr Hr Hsl. apply (right_entries v _ _ _ mid); try done; [lia|].
  intros j Hj. rewrite entries_at. destruct (Z.eqb_spec (mid + j) i); [lia|]. by apply Hsl.
Qed.

Lemma right_assigned nr mid free' v :
  1 <= mid <= width -> mid <= i -> leaf_arrays nr ->
  repr leaf_width (permutation_ nr) (seqZ 0 (i - mid) ++ seqZ (i - mid + 1) (width - i)) (free' ++ [i - mid]) ->
  (forall j, 0 <= j < width + 1 - mid -> zlookup (E 0) (mid + j) = Some (slot_entry nr j)) ->
  exists nr', set_lv (i - mid) v nr = Some nr' /\ same_leaf nr nr' /\ (forall q, Leaf.ikey nr' q = Leaf.ikey nr q) /\
    leaf_entries (finish_perm nr' (i - mid)) (seqZ 0 (width + 1 - mid)) free' (drop (Z.to_nat mid) (E v)).
Proof using Hm Hka Hlen Hle Ha Hb Hfull.
  intros Hmid Hi Harr Hr Hsl. destruct (full_width m ka l la lb free es Hle Hfull) as (Hw & Hwr & HE).
  pose proof (zlength_nonneg lb).
  destruct (set_lv_spec nr (i - mid) v Harr) as (nr' & Hset & Harr' & Hs & Hik & Hse); [unfold leaf_width in *; lia|].
  exists nr'. split_and!; try done. apply (right_entries v _ _ _ mid); try done; [lia|..].
  - by destruct Harr'.
  - apply store_permutation_repr; [done|]. unfold Leaf.permutation. rewrite (sl_permutation _ _ Hs).
    pose proof (insert_from_back_repr leaf_width ltac:(done) _ (i - mid) _ _ _ Hr) as Hins.
    rewrite zlength_app, !zlength_seqZ in Hins by lia. destruct Hins as [_ Hins]; [lia|].
    rewrite (seqZ_delete _ (i - mid)) by lia. replace (width + 1 - mid - 1 - (i - mid)) with (width - i) by lia.
    rewrite <- (zlength_seqZ 0 (i - mid)) in Hins at 2 by lia. by rewrite insert_at_app_mid in Hins.
  - intros j Hj. change (slot_entry (finish_perm nr' (i - mid)) j) with (slot_entry nr' j). rewrite Hse, entries_at.
    destruct (Z.eqb_spec (mid + j) i), (Z.eqb_spec j (i - mid)); try lia; [|by apply Hsl].
    specialize (Hsl (i - mid) ltac:(lia)). rewrite entries_at, (proj2 (Z.eqb_eq _ _)) in Hsl by lia.
    injection Hsl as <-. unfold key_entry, with_lv. by destruct (Key.has_suffix ka).
Qed.

(** ** The left leaf *)
(** [strip_left] keeps the first [keep] slots; the first slot it drops is the
    next one to be filled. *)
Definition stripped (x keep : Z) : Z :=
  let y := Kpermuter.set_size leaf_width x keep in
  if negb (Kpermuter.size x =? leaf_width) then Kpermuter.exchange leaf_width y (Kpermuter.size y) (leaf_width - 1) else y.

Lemma stripped_repr live1 live2 :
  la ++ lb = live1 ++ live2 ->
  exists free', repr leaf_width (stripped (permutation_ l) (zlength live1)) live1 free' /\
    (live2 <> [] -> exists f p, free' = f ++ [p] /\ p ∈ live2 /\ (width = leaf_width -> exists g, live2 = g ++ [p])).
Proof using Hle Hfull.
  intros Hsplit. pose proof (le_repr _ _ _ _ Hle) as Hr. pose proof (repr_length leaf_width ltac:(done) _ _ _ Hr) as Hlen'.
  pose proof (leaf_size _ _ _ _ Hle) as Hsz. unfold stripped. change (Kpermuter.size (permutation_ l)) with width.
  pose proof (set_size_repr leaf_width ltac:(done) _ _ _ live1 (live2 ++ free) Hr) as Hr'. rewrite app_assoc, Hsplit in Hr'.
  specialize (Hr' eq_refl). rewrite (repr_size _ _ _ _ Hr').
  destruct (Z.eqb_spec width leaf_width) as [He|Hne]; cbn [negb].
  - assert (free = []) as ->.
    { destruct free as [|u free']; [done|]. rewrite zlength_cons in Hlen'. pose proof (zlength_nonneg free'). lia. }
    rewrite app_nil_r in Hr'. exists live2. split; [done|]. intros Hne.
    destruct live2 as [|q live2 _] using rev_ind; [done|]. exists live2, q. split_and!; [done| |by exists live2].
    apply elem_of_app. right. by apply list_elem_of_singleton.
  - destruct live2 as [|u live2].
    + destruct free as [|u free']; [change (zlength []) with 0 in Hlen'; lia|]. cbn [app] in Hr'.
      destruct (exchange_back _ _ _ _ Hr') as [f Hf]. exists (f ++ [u]). by split.
    + rewrite <- app_comm_cons in Hr'. destruct (exchange_back _ _ _ _ Hr') as [f Hf]. exists (f ++ [u]).
      split; [done|]. intros _. exists f, u. split_and!; [done| |done]. apply elem_of_cons. by left.
Qed.

(** A leaf with the same slots. *)
Lemma left_entries lk live1 live2 free' :
  leaf_arrays lk -> (forall q, slot_entry lk q = slot_entry l q) -> la ++ lb = live1 ++ live2 ->
  repr leaf_width (permutation_ lk) live1 free' -> leaf_entries lk live1 free' (map (slot_entry l) live1).
Proof using Hle.
  intros Harr Hsl Hsplit Hr. destruct Hle as [_ _ Hes Hok Hs]. rewrite Hes, Hsplit, map_app in Hok, Hs.
  split; try done.
  - apply map_ext. intros q. by rewrite Hsl.
  - by apply Forall_app in Hok as [? _].
  - rewrite <- (take_app_length (map (slot_entry l) live1) (map (slot_entry l) live2)).
    by apply StronglySorted_take_drop.
Qed.

(** The slot 0 is the last of a full leaf only when all entries have the slice
    of the lower bound, and then they are too many. *)
Lemma last_not_zero lo hi p f :
  Leaf.ikey_bound l = lo -> Forall (fun e => lo <= e_ikey e < hi) es -> width = leaf_width -> la ++ lb = f ++ [p] -> p <> 0.
Proof using Hle.
  intros Hbd Hrange Hw Hl ->. pose proof (leaf_size _ _ _ _ Hle) as Hsz.
  destruct Hle as [_ Hr Hes Hok Hs]. rewrite Hl in Hes, Hsz. rewrite zlength_app in Hsz. change (zlength [0]) with 1 in Hsz.
  assert (zlookup es 14 = Some (slot_entry l 0)) as H14.
  { rewrite Hes, map_app. cbn [map]. replace 14 with (zlength (map (slot_entry l) f)); [apply zlookup_mid|].
    unfold zlength in *. rewrite length_map. unfold leaf_width in *. lia. }
  destruct (zlookup_Some es 0) as [e0 He0]; [apply zlookup_lt in H14; lia|].
  pose proof (proj1 (Forall_zlookup _ _) Hrange _ _ He0) as Hr0. cbn in Hr0.
  assert (e_ikey e0 = lo).
  { destruct (SS_zlookup es 0 14 e0 _ Hs ltac:(lia) He0 H14) as [Hlt|[Heq _]];
      change (e_ikey (slot_entry l 0)) with (Leaf.ikey_bound l) in *; lia. }
  pose proof (slice_run es 0 14 e0 _ Hs Hok ltac:(lia) He0 H14) as Hrun.
  change (e_ikey (slot_entry l 0)) with (Leaf.ikey_bound l) in Hrun. lia.
Qed.

Lemma left_kept lk mid v :
  0 <= mid -> mid <= i -> leaf_arrays lk -> (forall q, slot_entry lk q = slot_entry l q) ->
  permutation_ lk = store_permutation leaf_width (stripped (permutation_ l) mid) ->
  Kpermuter.size (stripped (permutation_ l) mid) = mid /\ exists live free', leaf_entries lk live free' (take (Z.to_nat mid) (E v)).
Proof using Hle Hfull.
  intros H0 Hmid Harr Hsl Hp. set (k := Z.to_nat mid).
  assert (zlength (take k la) = mid) as Hk by (unfold zlength in *; rewrite length_take; lia).
  assert (la ++ lb = take k la ++ (drop k la ++ lb)) as Hsplit by by rewrite app_assoc, take_drop.
  destruct (stripped_repr _ _ Hsplit) as (free' & Hr & _). rewrite Hk in Hr.
  split; [by rewrite (repr_size _ _ _ _ Hr)|]. apply store_permutation_repr in Hr; [|done]. rewrite <- Hp in Hr. exists (take k la), free'.
  replace (take k (E v)) with (map (slot_entry l) (take k la)); [by eapply left_entries|].
  unfold entries_with. rewrite take_app_le by (rewrite length_map; unfold zlength in *; lia). symmetry. apply firstn_map.
Qed.

Lemma left_assigned lk mid v :
  i < mid -> mid <= width -> leaf_arrays lk -> (forall q, slot_entry lk q = slot_entry l q) ->
  modstate_ lk <> modstate_remove -> permutation_ lk = store_permutation leaf_width (stripped (permutation_ l) (mid - 1)) ->
  exists p l1 l2 live free', Kpermuter.back leaf_width (permutation_ lk) = p /\
    Kpermuter.back leaf_width (stripped (permutation_ l) (mid - 1)) = p /\
    Leaf.assign m lk p ka = Some l1 /\ set_lv p v l1 = Some l2 /\ same_leaf lk l1 /\ same_leaf lk l2 /\
    (forall q, q <> p -> Leaf.ikey l2 q = Leaf.ikey lk q) /\
    (forall lo hi, Leaf.ikey_bound l = lo -> Forall (fun e => lo <= e_ikey e < hi) es -> width = leaf_width \/ 0 ∈ free -> p <> 0) /\
    leaf_entries (finish_perm l2 i) live free' (take (Z.to_nat mid) (E v)).
Proof using Hm Hka Hlen Hle Ha Hb Hfull.
  intros Himid Hmid Harr Hsl Hms Hp. pose proof (leaf_size _ _ _ _ Hle) as Hsz. rewrite zlength_app in Hsz.
  pose proof (zlength_nonneg la). set (k := Z.to_nat (mid - 1 - i)).
  assert (zlength (la ++ take k lb) = mid - 1) as Hk
    by (rewrite zlength_app; unfold zlength in *; rewrite length_take; lia).
  assert (la ++ lb = (la ++ take k lb) ++ drop k lb) as Hsplit by by rewrite <- app_assoc, take_drop.
  destruct (stripped_repr _ _ Hsplit) as (free' & Hr0 & Hlast). rewrite Hk in Hr0.
  pose proof (store_permutation_repr leaf_width _ _ _ ltac:(done) Hr0) as Hr. rewrite <- Hp in Hr.
  destruct Hlast as (f & p & -> & Hpin & Hlast).
  { intros Hnil. apply (f_equal length) in Hnil. rewrite length_drop in Hnil. unfold zlength in *. cbn in Hnil. lia. }
  pose proof (left_entries lk _ _ _ Harr Hsl Hsplit Hr) as Hlek.
  assert (forall q, q ∈ la ++ take k lb -> q ∈ la ++ lb) as Hsub.
  { intros q. rewrite !elem_of_app. intros [?|Hq]; [by left|right]. rewrite <- (take_drop k lb). apply elem_of_app. by left. }
  assert (above lk ka la /\ below lk ka (take k lb)) as [Ha' Hb'].
  { unfold above, below in *. split; [|apply Forall_take with (n := k) in Hb]; (eapply Forall_impl; [done|]);
      intros q; by rewrite Hsl. }
  destruct (leaf_put unaligned m ka Hm Hka lk la (take k lb) f p _ v Hlek Ha' Hb' Hlen Hms) as
    (l1 & l2 & H1 & H2 & H3 & H4 & H5 & _ & H6).
  exists p, l1, l2, (la ++ p :: take k lb), f. split_and!; try done.
  - by eapply back_repr.
  - by eapply back_repr.
  - intros lo hi Hbd Hrange [Hw|H0f].
    + destruct (Hlast Hw) as [g Hg]. eapply (last_not_zero lo hi p ((la ++ take k lb) ++ g)); try done.
      by rewrite Hsplit, Hg, app_assoc.
    + intros ->. apply (live_free _ _ _ _ Hle 0); [|done]. rewrite elem_of_app. right. rewrite <- (take_drop k lb).
      apply elem_of_app. by right.
  - replace (take (Z.to_nat mid) (E v)) with (map (slot_entry lk) la ++ key_entry m ka v :: map (slot_entry lk) (take k lb)); [done|].
    rewrite !(map_ext _ _ Hsl). unfold entries_with. rewrite take_app_ge by (rewrite length_map; unfold zlength in *; lia).
    f_equal. rewrite length_map. replace (Z.to_nat mid - length la)%nat with (S k) by (unfold zlength in *; lia).
    cbn [take]. f_equal. symmetry. apply firstn_map.
Qed.
End leaves.

(** * The layer of the leaf *)
(** A found leaf [b] for a change that concerns more of its layer than the
    leaf: [lns] are the layer's nodes, [nso] all others. *)
Lemma found_layer {N : Layers} unaligned m h p0 kb B ns ka b l :
  mem_bytes m -> found_at unaligned m h p0 kb B ns ka b l -> NoDup ns ->
  exists p d par lo hi n es1 esb es2 lns Bns1 Bnb Bns2 nso,
    leaf_at n h p (Key.ikey0_ ka) b l d p par lo hi es1 esb es2 lns Bns1 Bnb Bns2 /\
    ns ≡ₚ nso ++ lns /\ NoDup (nso ++ lns) /\
    forall h' r' d' esb' Bnb' lns' v, agree h h' nso -> climbs h' lns' p r' ->
      node_rep d' h' 0 r' 0 (2 ^ ikey_bits) (es1 ++ esb' ++ es2) lns' -> linked h' 0 (leaves h' lns') ->
      Forall2 (entry_rep (layer_rep n h)) esb' Bnb' -> nodes Bnb' = nodes Bnb ->
      updated (key_bytes m ka) v (binds Bnb) (binds Bnb') -> rebound h' p0 kb v B (nso ++ lns').
Proof.
  intros Hm (Hka & B1 & B2 & nsr & pre & p & n & Bl & nsl & d & par & lo & hi &
    es1 & esb & es2 & lns & Bns1 & Bnb & Bns2 & Hla & Hlf & Hok & HBl & Hnsl & HB & Hns) Hnd.
  set (nso := nsr ++ nodes (Bns1 ++ Bnb ++ Bns2)).
  assert (forall lns', nsr ++ lns' ++ nodes (Bns1 ++ Bnb ++ Bns2) ≡ₚ nso ++ lns') as Hperm by (intros lns'; unfold nso; solve_Permutation).
  exists p, d, par, lo, hi, n, es1, esb, es2, lns, Bns1, Bnb, Bns2, nso.
  rewrite Hnsl, Hperm in Hns. split_and!; [done..|by rewrite <- Hns|].
  intros h' r' d' esb' Bnb' lns' v Hag Hcl Hrep Hlk Hb' Hnn Hu.
  assert (nodes (Bns1 ++ Bnb' ++ Bns2) = nodes (Bns1 ++ Bnb ++ Bns2)) as Hnn' by by rewrite !map_snd_app, Hnn.
  apply agree_app in Hag as [Hagr Hagn]. rewrite !map_snd_app in Hagn.
  apply agree_app in Hagn as [Hag1 Hagn]. apply agree_app in Hagn as [Hagb Hag2]. rewrite <- Hnn in Hagb.
  destruct (la_replace _ _ _ _ _ _ _ _ _ _ _ _ Hla h' (binds (Bns1 ++ Bnb' ++ Bns2)) (lns' ++ nodes (Bns1 ++ Bnb' ++ Bns2)))
    as (ns' & Hr & Hp'); [done| | |].
  - exists d', r', (es1 ++ esb' ++ es2), lns', (Bns1 ++ Bnb' ++ Bns2). split_and!; try done.
    apply Forall2_app; [|apply Forall2_app]; (eapply entries_rep_frame; [eassumption|]); [apply Hlf|done|apply Hlf].
  - intros Hpre. pose proof (la_keys _ _ _ _ _ _ _ _ _ _ _ _ Hla Hpre) as Hk.
    pose proof (la_nonempty _ _ _ _ _ _ _ _ _ _ _ _ Hla Hpre) as Hne.
    rewrite HBl in Hk. assert (nonempty_keys (binds Bnb')) as Hkb.
    { apply nonempty_assoc. destruct Hu as [_ Hu]. rewrite Hu by done.
      apply nonempty_assoc. unfold nonempty_keys in *. rewrite !map_fst_app, !Forall_app in Hk. tauto. }
    unfold nonempty_keys in *. rewrite !map_fst_app, !Forall_app in *. tauto.
  - exists (B1 ++ map (add_prefix pre) (binds (Bns1 ++ Bnb' ++ Bns2)) ++ B2), ns'. split_and!; [done| |].
    + rewrite HB. eapply layer_at_updated; [done|]. rewrite HBl, !map_fst_app.
      destruct (leaf_at_others unaligned m ka _ _ _ _ _ _ _ _ _ _ _ _ _ _ _ _ _ Hm Hka Hok Hlf) as [Ho1 Ho2].
      by apply updated_middle.
    + by rewrite Hp', Hnn', Hperm.
Qed.
