(* ===== verification/LeafTurn.v ===== *)
(** The first turn of the loop of [make_split]: the pair are the two leaves of
    a split; [strip_left] settles the left one once the right one is linked. *)
From S2P Require Import Prelude Compiler Memory StringSlice Key Ksearch Kpermuter Nodeversion.
From S2P Require Import Stringbag Node Heap Get Insert Remove Tree Find Steps InternodeSpec LeafSpec Locate Put NewLayer.
From S2P Require Import SplitSpec Ancestors LinkChild SplitUp SplitLoop SplitLeaf.

(** * Version and parent *)
(** What assigns a slot does not depend on them. *)
Definition header (l : leaf) (v q : Z) : leaf := Leaf.set_version (Leaf.set_parent l q) v.

Lemma assign_ksuf_header l p x ini v q :
  Leaf.assign_ksuf (header l v q) p x ini = (fun y => header y v q) <$> Leaf.assign_ksuf l p x ini.
Proof.
  unfold Leaf.assign_ksuf. assert (Leaf.assign_ksuf_inplace (header l v q) p x =
    (fun y => header y v q) <$> Leaf.assign_ksuf_inplace l p x) as ->.
  { unfold Leaf.assign_ksuf_inplace. destruct l; cbn. repeat case_match; simplify_eq; done. }
  destruct (Leaf.assign_ksuf_inplace l p x); [done|]. cbn [fmap option_fmap option_map].
  change (Leaf.live_ksufs (header l v q) p ini) with (Leaf.live_ksufs l p ini).
  cbn [header Leaf.set_version Leaf.set_parent ksuf_ modstate_ extrasize64_ iksuf_].
  destruct (make_bag _ _ _) as [b|]; [|done]. cbn [mbind option_bind].
  destruct (Leaf.assign_all b _) as [b'|]; [|done]. cbn [mbind option_bind]. by destruct (_ =? _).
Qed.

Lemma assign_leaf_header m l p ka v q :
  Leaf.assign m (header l v q) p ka = (fun x => header x v q) <$> Leaf.assign m l p ka.
Proof.
  unfold Leaf.assign, Leaf.assign_with, Leaf.write_slot.
  cbn [header Leaf.set_version Leaf.set_parent keylenx_ ikey0_ lv_].
  destruct (wr (lv_ l) p 0) as [a|]; [|by destruct (Key.has_suffix ka)].
  destruct (wr (ikey0_ l) p (Key.ikey ka)) as [i|]; [|by destruct (Key.has_suffix ka)]. cbn [mbind option_bind].
  destruct (Key.has_suffix ka); cbn [negb].
  - destruct (wr (keylenx_ l) p ksuf_keylenx) as [k|]; [|done]. cbn [mbind option_bind].
    apply (assign_ksuf_header (Leaf.set_slots l k i a)).
  - by destruct (wr (keylenx_ l) p _).
Qed.

Section turn.
Context (b0 c0 : Z) (lf1 lf2 : leaf).
Abbreviation sett := (settled b0 c0 lf1 lf2).
Context (s0 : state) (base : list Z) (ET : list entry) (LS : list Z) (p0 : Z).
Context (Hbase : NoDup base) (Haddr : forall a, a ∈ base -> 0 < a < next_fresh s0) (Hfr : 0 < next_fresh s0).
Abbreviation pending := (pending b0 c0 lf1 lf2 s0 base ET LS p0).
Abbreviation linked_up := (linked_up b0 c0 lf1 lf2 s0 base ET LS p0).

Context (s : state) (k : nat) (root : Z) (anc : list Z) (par lo hi : Z) (es1 es2 : list entry)
  (ns1 ns2 : list Z) (dn : nat) (esn : list entry) (x : Z) (dc : nat) (esc : list entry) (xb xc : leaf).
Context (Hpd : pending s k [b0; c0] root anc par b0 lo hi es1 es2 ns1 ns2 dn esn [b0] c0 x dc esc [c0] (NLeaf xb) (NLeaf xc)).
Context (c : tcursor) (st : Z) (Hcb : n_ c = b0) (Hleaf : Nodeversion.isleaf NV (lversion xb) = true).

(** The slots that the left leaf keeps. *)
Abbreviation keep := (Leaf.size xb - Leaf.size xc).
Abbreviation inner := (stripped (permutation_ xb) keep).
Abbreviation xs := (store_permutation leaf_width inner).
Abbreviation vsplit := (Nodeversion.mark_split NV (lversion xb)).

(** [strip_left], for the leaves with their new parents. *)
Lemma strip_left_run s1 q1 q2 :
  heap s1 !! b0 = Some (NLeaf (Leaf.set_parent xb q1)) -> heap s1 !! c0 = Some (NLeaf (Leaf.set_parent xc q2)) ->
  busy (lversion xb) -> b0 <> c0 -> forall A (f : tcursor -> M A),
  bind (strip_left b0 c0 st c) f s1 =
  (let s2 := with_heap s1 (<[b0 := NLeaf (header (Leaf.set_permutation xb xs) vsplit q1)]> (heap s1)) in
   if st =? 0 then
     let kp := Kpermuter.back leaf_width inner in
     (try_update_leaf b0 (fun l => Leaf.assign (kmem s1) l kp (ka_ c)) ;!
      let! rv := leaf_full_unlocked_version c0 in
      f (mkCursor (n_ c) (ka_ c) (mkKip (kip_i (kx_ c)) kp) (root_ c) (state_ c) (original_n_ c)
        (original_v_ c) (updated_v_ c) (new_nodes_ c ++ [(c0, rv)]))) s2
   else
     let i := kip_i (kx_ c) - Kpermuter.size inner in
     (let! lv := leaf_full_unlocked_version b0 in
      f (mkCursor c0 (ka_ c) (mkKip i i) (root_ c) (state_ c) (original_n_ c) (original_v_ c) lv (new_nodes_ c))) s2).
Proof using Type.
  intros Hb Hc Hbusy Hne A f. unfold strip_left.
  rewrite bind_assoc, (bind_eq _ _ _ _ _ (get_leaf_eq _ _ _ Hb)), bind_assoc, (bind_eq _ _ _ _ _ (get_leaf_eq _ _ _ Hc)).
  unfold mark_split. rewrite bind_assoc. erewrite bind_eq by (by apply mark_locked_eq).
  match goal with |- context [store_permutation leaf_width ?e] => change e with inner end.
  rewrite bind_assoc. erewrite bind_eq by (apply update_leaf_eq; cbn; by apply lookup_insert_eq).
  cbn [heap with_heap node_set_version]. rewrite insert_insert_eq.
  match goal with |- bind _ _ ?S = _ =>
    change S with (with_heap s1 (<[b0 := NLeaf (header (Leaf.set_permutation xb xs) vsplit q1)]> (heap s1))) end.
  destruct (st =? 0).
  - rewrite bind_assoc, bind_gets. unfold bind, ret. cbn [kmem with_heap].
    destruct (try_update_leaf _ _ _) as [[u s2]|]; [|done]. by destruct (leaf_full_unlocked_version c0 s2) as [[]|].
  - unfold bind, ret. by destruct (leaf_full_unlocked_version b0 _) as [[]|].
Qed.

(** The memory of the keys does not change. *)
Lemma grown_kmem t k' ns : grown s0 base t k' ns -> kmem t = kmem s0.
Proof using Type. intros [-> _ _]. done. Qed.
Lemma link_kmem L anc' NT NP p next t :
  match next with
  | None => link_ends b0 c0 lf1 lf2 s0 base ET LS p0 L NT p t
  | Some (nn, sk) => link_goes_on b0 c0 lf1 lf2 s0 base ET LS p0 L root anc' NP p nn sk t
  end -> kmem t = kmem s0.
Proof using Type.
  destruct next as [[nn sk]|].
  - intros (? & ? & ? & ? & ? & ? & ? & ? & ? & ? & ? & ? & ? & ? & ? & ? & _ & Hp & _).
    eapply grown_kmem, Hp.
  - intros (? & _ & [[_ [(? & ? & ? & _ & _ & Hg & _)]]|(_ & _ & _ & [(? & ? & ? & _ & _ & Hg & _)] & _)]); by eapply grown_kmem.
Qed.

Lemma mark_split_twice v : Nodeversion.mark_split NV (Nodeversion.mark_split NV v) = Nodeversion.mark_split NV v.
Proof using Type. unfold Nodeversion.mark_split. by rewrite <- Z.lor_assoc, Z.lor_diag. Qed.

(** What is left locked, with the other leaf unlocked. *)
Lemma settled_pair h yb q1 q2 P :
  h !! b0 = Some (NLeaf (Leaf.set_parent xb q1)) -> h !! c0 = Some (NLeaf (Leaf.set_parent xc q2)) -> b0 <> c0 ->
  b0 ∉ P -> c0 ∉ P -> lparent_ yb = q1 -> lversion yb = vsplit -> lf2 = xc ->
  sett (P ++ [b0]) (<[c0 := NLeaf (header xc (Nodeversion.unlock NV (lversion xc)) q2)]> (<[b0 := NLeaf yb]> h)) =
  sett (P ++ [b0; c0]) h.
Proof using Type.
  intros Hb Hc Hne HbP HcP Hpar Hv Hlf. rewrite Hlf. apply map_eq. intros a.
  destruct (decide (a = b0)) as [->|Hab]; [|destruct (decide (a = c0)) as [->|Hac]].
  - rewrite !settled_in by (rewrite elem_of_app, !elem_of_cons; tauto). rewrite lookup_insert_ne, lookup_insert_eq, Hb by done.
    cbn. rewrite Z.eqb_refl, Hpar, Hv, mark_split_twice. done.
  - rewrite settled_out, lookup_insert_eq by (rewrite elem_of_app, list_elem_of_singleton; intros [?|?]; done).
    rewrite settled_in, Hc by (rewrite elem_of_app, !elem_of_cons; tauto). cbn. by rewrite (proj2 (Z.eqb_neq _ _)), Z.eqb_refl by done.
  - apply settled_same; [by rewrite !lookup_insert_ne|]. rewrite !elem_of_app, !elem_of_cons. tauto.
Qed.
Lemma settled_pair_right h q1 q2 P :
  h !! b0 = Some (NLeaf (Leaf.set_parent xb q1)) -> h !! c0 = Some (NLeaf (Leaf.set_parent xc q2)) -> b0 <> c0 ->
  b0 ∉ P -> c0 ∉ P -> lf1 = Leaf.set_permutation xb xs ->
  sett (P ++ [c0]) (<[b0 := NLeaf (header (Leaf.set_permutation xb xs) (Nodeversion.unlock NV vsplit) q1)]> h) =
  sett (P ++ [b0; c0]) h.
Proof using Type.
  intros Hb Hc Hne HbP HcP Hlf. rewrite Hlf. apply map_eq. intros a.
  destruct (decide (a = b0)) as [->|Hab].
  - rewrite settled_out, lookup_insert_eq by (rewrite elem_of_app, list_elem_of_singleton; intros [?|?]; done).
    rewrite settled_in, Hb by (rewrite elem_of_app, !elem_of_cons; tauto). cbn. by rewrite Z.eqb_refl.
  - apply settled_same; [by rewrite !lookup_insert_ne|]. rewrite !elem_of_app, !elem_of_cons. tauto.
Qed.

Lemma pair_leaves : heap s !! b0 = Some (NLeaf xb) /\ busy (lversion xb) /\ heap s !! c0 = Some (NLeaf xc) /\
  busy (lversion xc) /\ b0 <> c0 /\ kmem s = kmem s0.
Proof using Hpd Hbase Haddr Hfr.
  destruct (pd_n _ _ _ _ _ _ _ _ _ _ _ _ _ _ _ _ _ _ _ _ _ _ _ _ _ _ _ _ _ _ _ _ Hpd) as (Hn & Hbn & _).
  destruct (pd_c _ _ _ _ _ _ _ _ _ _ _ _ _ _ _ _ _ _ _ _ _ _ _ _ _ _ _ _ _ _ _ _ Hpd) as (Hc & Hbc).
  destruct (pair_facts _ _ _ _ _ _ _ _ _ Hbase Haddr Hfr _ _ _ _ _ _ _ _ _ _ _ _ _ _ _ _ _ _ _ _ _ _ _ Hpd) as (_ & _ & Hne & _).
  split_and!; try done. eapply grown_kmem, Hpd.
Qed.

Lemma split_loop_left height l1 :
  st = 0 -> lf2 = xc ->
  Leaf.assign (kmem s) (Leaf.set_permutation xb xs) (Kpermuter.back leaf_width inner) (ka_ c) = Some l1 ->
  exists c' s' k' q, (forall fuel, (length anc + 2 <= fuel)%nat -> split_loop fuel b0 c0 x height st c s = Some (c', s')) /\
    linked_up s' k' [b0] /\ heap s' !! b0 = Some (NLeaf (header l1 vsplit q)) /\
    n_ c' = b0 /\ kx_ c' = mkKip (kip_i (kx_ c)) (Kpermuter.back leaf_width inner) /\ state_ c' = state_ c.
Proof using Hpd Hbase Haddr Hfr Hcb Hleaf.
  intros Hst Hlf Hassign. destruct pair_leaves as (Hb & Hbb & Hc & Hbc & Hne & Hkm).
  destruct (link_once _ _ _ _ _ _ _ _ _ Hbase Haddr Hfr _ _ _ _ _ _ _ _ _ _ _ _ _ _ _ _ _ _ _ _ _ _ _ Hpd height st) as
    ([p next] & s1 & Hlink & Hkb & Hres). cbn [fst snd] in Hres.
  destruct Hkb as [(q1 & _ & Hb1) (q2 & _ & Hc1) _]. cbn in Hb1, Hc1.
  pose proof (link_kmem _ _ _ _ _ _ _ Hres) as Hkm1.
  pose proof (assign_leaf_header (kmem s1) (Leaf.set_permutation xb xs) (Kpermuter.back leaf_width inner) (ka_ c) vsplit q1) as Hah.
  rewrite Hkm1, <- Hkm, Hassign in Hah. cbn [fmap option_fmap option_map] in Hah.
  set (c' := fun rv => mkCursor b0 (ka_ c) (mkKip (kip_i (kx_ c)) (Kpermuter.back leaf_width inner)) (root_ c) (state_ c)
    (original_n_ c) (original_v_ c) (updated_v_ c) (new_nodes_ c ++ [(c0, rv)])).
  set (rv := Leaf.full_unlocked_version_value (Leaf.set_parent xc q2)).
  set (h1 := <[c0 := NLeaf (header xc (Nodeversion.unlock NV (lversion xc)) q2)]> (<[b0 := NLeaf (header l1 vsplit q1)]> (heap s1))).
  destruct (after_link _ _ _ _ _ _ _ _ _ Hbase Haddr Hfr _ _ _ _ _ _ _ _ _ _ _ _ _ _ _ _ _ _ _ _ _ _ _ Hpd [b0] (c' rv) height st p next s1 h1)
    as (s' & k' & Hrun & Hl & Hkeep); try done.
  - intros a ->%list_elem_of_singleton. apply elem_of_cons. by left.
  - by apply list_elem_of_singleton.
  - intros a ??. unfold h1. by rewrite !lookup_insert_ne.
  - intros P HbP HcP. by apply (settled_pair (heap s1) (header l1 vsplit q1) q1 q2 P).
  - intros anc' _. by apply split_loop_up.
  - exists (c' rv), s', k', q1. split_and!; try done.
    + intros [|[|fuel]] Hf; [lia..|].
      rewrite (loop_turn s b0 c0 (NLeaf xb) (NLeaf xc) x height st c p next s1) by (done || (cbn; by rewrite Hleaf)).
      rewrite Hcb, Z.eqb_refl, (strip_left_run s1 q1 q2), (proj2 (Z.eqb_eq st 0) Hst) by done.
      cbv beta zeta. rewrite Hcb. set (s2 := with_heap s1 (<[b0 := _]> _)).
      assert (heap s2 !! b0 = Some (NLeaf (header (Leaf.set_permutation xb xs) vsplit q1))) as Hb2 by apply lookup_insert_eq.
      rewrite Hkm1, <- Hkm.
      rewrite (bind_eq _ _ _ _ _ (try_update_leaf_eq _ _ (fun l => Leaf.assign (kmem s) l (Kpermuter.back leaf_width inner) (ka_ c)) _ _ Hb2 Hah)).
      assert (heap (with_heap s2 (<[b0 := NLeaf (header l1 vsplit q1)]> (heap s2))) !! c0 = Some (NLeaf (Leaf.set_parent xc q2))) as Hc2.
      { cbn. by rewrite !lookup_insert_ne. }
      unfold leaf_full_unlocked_version. rewrite bind_assoc, (bind_eq _ _ _ _ _ (get_leaf_eq _ _ _ Hc2)), bind_ret.
      cbn [n_]. rewrite Z.eqb_refl, bind_ret, (proj2 (Z.eqb_neq c0 b0)) by done.
      rewrite (bind_eq _ _ _ _ _ (unlock_eq _ _ _ Hc2 Hbc)). fold rv.
      match goal with |- _ ?S = _ => replace S with (with_heap s1 h1) end.
      * apply Hrun. lia.
      * unfold h1, s2, with_heap. cbn. by rewrite insert_insert_eq.
    + rewrite Hkeep by by apply list_elem_of_singleton. unfold h1. rewrite lookup_insert_ne by done. apply lookup_insert_eq.
Qed.

Lemma split_loop_right height :
  st <> 0 -> lf1 = Leaf.set_permutation xb xs ->
  exists c' s' k' q, (forall fuel, (length anc + 2 <= fuel)%nat -> split_loop fuel b0 c0 x height st c s = Some (c', s')) /\
    linked_up s' k' [c0] /\ heap s' !! c0 = Some (NLeaf (Leaf.set_parent xc q)) /\
    n_ c' = c0 /\ state_ c' = state_ c /\
    kx_ c' = mkKip (kip_i (kx_ c) - Kpermuter.size inner) (kip_i (kx_ c) - Kpermuter.size inner).
Proof using Hpd Hbase Haddr Hfr Hcb Hleaf.
  intros Hst Hlf. destruct pair_leaves as (Hb & Hbb & Hc & Hbc & Hne & Hkm).
  destruct (link_once _ _ _ _ _ _ _ _ _ Hbase Haddr Hfr _ _ _ _ _ _ _ _ _ _ _ _ _ _ _ _ _ _ _ _ _ _ _ Hpd height st) as
    ([p next] & s1 & Hlink & Hkb & Hres). cbn [fst snd] in Hres.
  destruct Hkb as [(q1 & _ & Hb1) (q2 & _ & Hc1) _]. cbn in Hb1, Hc1.
  set (i := kip_i (kx_ c) - Kpermuter.size inner).
  set (lv := Leaf.full_unlocked_version_value (header (Leaf.set_permutation xb xs) vsplit q1)).
  set (c' := mkCursor c0 (ka_ c) (mkKip i i) (root_ c) (state_ c) (original_n_ c) (original_v_ c) lv (new_nodes_ c)).
  set (h1 := <[b0 := NLeaf (header (Leaf.set_permutation xb xs) (Nodeversion.unlock NV vsplit) q1)]> (heap s1)).
  destruct (after_link _ _ _ _ _ _ _ _ _ Hbase Haddr Hfr _ _ _ _ _ _ _ _ _ _ _ _ _ _ _ _ _ _ _ _ _ _ _ Hpd [c0] c' height st p next s1 h1)
    as (s' & k' & Hrun & Hl & Hkeep); try done.
  - intros a ->%list_elem_of_singleton. rewrite !elem_of_cons. tauto.
  - by apply list_elem_of_singleton.
  - intros a ??. unfold h1. by rewrite !lookup_insert_ne.
  - intros P HbP HcP. by apply (settled_pair_right (heap s1) q1 q2 P).
  - intros anc' _. by apply split_loop_up.
  - exists c', s', k', q2. split_and!; try done.
    + intros [|[|fuel]] Hf; [lia..|].
      rewrite (loop_turn s b0 c0 (NLeaf xb) (NLeaf xc) x height st c p next s1) by (done || (cbn; by rewrite Hleaf)).
      rewrite Hcb, Z.eqb_refl, (strip_left_run s1 q1 q2), (proj2 (Z.eqb_neq st 0) Hst) by done.
      cbv beta zeta. set (s2 := with_heap s1 (<[b0 := _]> _)).
      assert (heap s2 !! b0 = Some (NLeaf (header (Leaf.set_permutation xb xs) vsplit q1))) as Hb2 by apply lookup_insert_eq.
      unfold leaf_full_unlocked_version. rewrite bind_assoc, (bind_eq _ _ _ _ _ (get_leaf_eq _ _ _ Hb2)), bind_ret.
      fold i lv c'. change (n_ c') with c0. rewrite (proj2 (Z.eqb_neq b0 c0)) by done.
      rewrite (bind_eq _ _ _ _ _ (unlock_eq _ _ _ Hb2 (proj1 (mark_split_busy _ Hbb)))), Z.eqb_refl, bind_ret.
      match goal with |- _ ?S = _ => replace S with (with_heap s1 h1) end.
      * apply Hrun. lia.
      * unfold h1, s2, with_heap. cbn. by rewrite insert_insert_eq.
    + rewrite Hkeep by by apply list_elem_of_singleton. unfold h1. by rewrite lookup_insert_ne.
Qed.
End turn.
