(* ===== verification/SplitStart.v ===== *)
(** The start of a leaf split: the new right leaf, linked behind the left one
    in the list of leaves ([link_split] of [Heap]), and the invariant of
    [make_split]'s loop for the pair. *)
From S2P Require Import Prelude Compiler Memory StringSlice Key Ksearch Kpermuter Nodeversion.
From S2P Require Import Stringbag Node Heap Get Insert Remove Tree Find Steps InternodeSpec LeafSpec Locate Put NewLayer.
From S2P Require Import SplitSpec Ancestors LinkChild SplitUp SplitLoop SplitLeaf LeafTurn.

(** * The list of leaves *)
Lemma is_marked_aligned n : n mod 64 = 0 -> is_marked n = false.
Proof.
  intros Hn. unfold is_marked. change 1 with (Z.ones 1). rewrite Z.land_ones by lia. change (2 ^ 1) with 2.
  apply negb_false_iff, Z.eqb_eq. pose proof (Z.div_mod n 64 ltac:(done)).
  rewrite Hn, Z.add_0_r in H. rewrite H. replace (64 * (n / 64)) with ((32 * (n / 64)) * 2) by lia. apply Z.mod_mul. done.
Qed.

(** What [link_split] makes of the heap; [ln] is the next leaf, if there is one. *)
Definition split_links (h : gmap Z node) (b c : Z) (xb xc ln : leaf) : gmap Z node :=
  let next := next_ xb in
  let h := <[c := NLeaf (Leaf.set_links xc next b)]> h in
  let h := if next =? 0 then h else <[next := NLeaf (Leaf.set_links ln (next_ ln) c)]> h in
  <[b := NLeaf (Leaf.set_links xb c (prev_ xb))]> h.

Lemma link_split_run fuel s b c xb xc ln :
  heap s !! b = Some (NLeaf xb) -> heap s !! c = Some (NLeaf xc) -> b <> c -> next_ xb mod 64 = 0 ->
  (next_ xb <> 0 -> heap s !! next_ xb = Some (NLeaf ln) /\ next_ xb <> b /\ next_ xb <> c) ->
  link_split (S fuel) b c s = Some (tt, with_heap s (split_links (heap s) b c xb xc ln)).
Proof.
  intros Hb Hc Hne Hal Hnext. unfold link_split, set_prev, set_next, split_links. cbn [lock_next].
  rewrite (bind_eq _ _ _ _ _ (update_leaf_eq _ _ _ _ Hc)).
  rewrite bind_assoc. erewrite bind_eq by (apply get_leaf_eq; cbn; rewrite lookup_insert_ne by done; exact Hb).
  rewrite is_marked_aligned by done. cbn [negb]. destruct (Z.eqb_spec (next_ xb) 0) as [H0|H0].
  - rewrite bind_ret. erewrite bind_eq by (apply update_leaf_eq; cbn; by apply lookup_insert_eq).
    rewrite (proj2 (Z.eqb_eq _ _) H0), bind_ret.
    erewrite update_leaf_eq by (cbn; rewrite !lookup_insert_ne by done; exact Hb).
    unfold with_heap. cbn. do 3 f_equal. rewrite insert_insert_eq. done.
  - destruct (Hnext H0) as (Hln & Hnb & Hnc). rewrite bind_assoc.
    erewrite bind_eq by (apply update_leaf_eq; cbn; rewrite lookup_insert_ne by done; exact Hb). rewrite bind_ret.
    erewrite bind_eq by (apply update_leaf_eq; cbn; rewrite lookup_insert_ne by done; apply lookup_insert_eq).
    rewrite (proj2 (Z.eqb_neq _ _) H0).
    erewrite bind_eq by (apply update_leaf_eq; cbn; rewrite !lookup_insert_ne by done; exact Hln).
    erewrite update_leaf_eq by (cbn; rewrite !(lookup_insert_ne _ _ b) by done; apply lookup_insert_eq).
    unfold with_heap. cbn. do 3 f_equal. heap_eq.
Qed.

(** A leaf has changed at most where [leaf_ok] does not see it. *)
Definition relinked (h h' : gmap Z node) (a : Z) : Prop :=
  h' !! a = h !! a \/ exists l l', h !! a = Some (NLeaf l) /\ h' !! a = Some (NLeaf l') /\
    forall par lo hi es, leaf_ok par lo hi l es -> leaf_ok par lo hi l' es.

Lemma leaf_ok_links par lo hi l es n p :
  leaf_ok par lo hi l es -> prev_ l <> 0 -> leaf_ok par lo hi (Leaf.set_links l n p) es.
Proof.
  intros [(live & free & [[? ? ? ?] ? ? ? ?]) H2 H3 H4 H5 H6 H7 H8] Hp.
  split; try done; [by exists live, free; split|]. intros _. by apply H7.
Qed.

Lemma node_rep_relinked d h h' par a lo hi es ns :
  (forall b, b ∈ ns -> relinked h h' b) -> node_rep d h par a lo hi es ns -> node_rep d h' par a lo hi es ns.
Proof.
  revert par a lo hi es ns. induction d as [|d IH]; intros par a lo hi es ns Hr; cbn [node_rep]; [done|].
  intros [(l & Hl & -> & Hok)|(i & ns' & Hi & -> & Hok & Hc)].
  - left. destruct (Hr a) as [Ha|(l1 & l' & Hl1 & Ha & Hk)]; [by apply list_elem_of_singleton|by exists l; rewrite Ha|].
    rewrite Hl in Hl1. injection Hl1 as <-. exists l'. split_and!; [done|done|by apply Hk].
  - right. exists i, ns'. destruct (Hr a) as [Ha|(l1 & l' & Hl' & _)]; [apply elem_of_cons; by left| |congruence].
    split_and!; [by rewrite Ha|done..|]. eapply children_rep_mono; [|exact Hc]. intros c lo' hi' es' ns'' Hsub. apply IH.
    intros b Hb. apply Hr, elem_of_cons. right. by apply Hsub.
Qed.

Lemma above_relinked h h' root anc par a lo hi es1 es2 ns1 ns2 :
  (forall b, b ∈ ns1 ++ ns2 -> relinked h h' b) -> above h root anc par a lo hi es1 es2 ns1 ns2 ->
  above h' root anc par a lo hi es1 es2 ns1 ns2.
Proof.
  intros Hr Ha. revert Hr.
  induction Ha as [|anc d pp p plo phi es1 es2 ns1 ns2 i K1 k c K2 el er nl nr Ha IH Hi Hok HK Hc Hk HL HR]; intros Hr; [constructor|].
  econstructor; try done.
  - apply IH. intros b Hb. apply Hr. revert Hb. rewrite !elem_of_app, elem_of_cons. tauto.
  - destruct (Hr p) as [Hp|(l1 & l' & Hl' & _)]; [rewrite !elem_of_app, elem_of_cons; tauto|by rewrite Hp|congruence].
  - eapply left_rep_mono; [|exact HL]. intros c' u w es ms Hms. apply node_rep_relinked. intros b Hb%Hms. apply Hr.
    rewrite !elem_of_app, elem_of_cons. tauto.
  - eapply siblings_rep_mono; [|exact HR]. intros c' u w es ms Hms. apply node_rep_relinked. intros b Hb%Hms. apply Hr.
    rewrite !elem_of_app. tauto.
Qed.
Lemma leaves_relinked h h' ns : (forall b, b ∈ ns -> relinked h h' b) -> leaves h' ns = leaves h ns.
Proof.
  intros Hr. apply leaves_ext. intros a Ha. unfold is_leaf_at.
  destruct (Hr a Ha) as [->|(l & l' & -> & -> & _)]; done.
Qed.

Lemma linked_at h prev LS1 b LS2 : linked h prev (LS1 ++ b :: LS2) ->
  exists l, h !! b = Some (NLeaf l) /\ next_ l = hd 0 LS2 /\ (forall a LS3, LS2 = a :: LS3 -> exists la, h !! a = Some (NLeaf la) /\ prev_ la = b).
Proof.
  revert prev. induction LS1 as [|a LS1 IH]; intros prev; cbn [app linked]; [|intros [_ H]; by eapply IH].
  intros [(l & Hl & _ & Hn) H]. exists l. split_and!; [done..|]. intros a LS3 ->. destruct H as [(la & Ha & Hp & _) _]. by exists la.
Qed.

(** A new leaf [c] behind [b] in the list. *)
Lemma linked_split h h' b c LS1 LS2 prev xb lb lc :
  linked h prev (LS1 ++ b :: LS2) -> NoDup (LS1 ++ b :: LS2) -> 0 ∉ LS1 ++ b :: LS2 -> next_ xb = hd 0 LS2 -> c ∉ LS1 ++ b :: LS2 ->
  h !! b = Some (NLeaf xb) -> h' !! b = Some (NLeaf lb) -> prev_ lb = prev_ xb -> next_ lb = c ->
  h' !! c = Some (NLeaf lc) -> prev_ lc = b -> next_ lc = next_ xb ->
  (forall a, a ∈ LS1 ++ LS2 -> a <> next_ xb -> h' !! a = h !! a) ->
  (forall l, next_ xb ∈ LS2 -> h !! next_ xb = Some (NLeaf l) -> h' !! next_ xb = Some (NLeaf (Leaf.set_links l (next_ l) c))) ->
  linked h' prev (LS1 ++ b :: c :: LS2).
Proof.
  intros Hlk Hnd H0 Hx Hc Hxb Hb Hpb Hnb Hlc Hpc Hnc Ho Hn. revert prev Hlk Hnd H0 Hc Ho.
  induction LS1 as [|a LS1 IH]; intros prev Hlk Hnd H0 Hc Ho; cbn [app linked hd] in *.
  - destruct Hlk as [(l & Hl & Hp & _) Hlk]. rewrite Hxb in Hl. injection Hl as <-.
    split; [exists lb; split_and!; congruence|]. split; [exists lc; split_and!; congruence|].
    apply NoDup_cons in Hnd as [_ Hnd]. destruct LS2 as [|a LS2]; [done|]. cbn [linked hd] in *.
    destruct Hlk as [(l & Hl & Hp' & Hx') Hlk]. rewrite <- Hx in Hl. split.
    + rewrite <- Hx. exists (Leaf.set_links l (next_ l) c). split_and!; try done. apply Hn; [|done].
      rewrite Hx. apply elem_of_cons. by left.
    + apply NoDup_cons in Hnd as [Ha Hnd]. eapply linked_frame; [|exact Hlk]. intros x Hin. apply Ho.
      * apply elem_of_cons. by right.
      * rewrite Hx. by intros ->.
  - destruct Hlk as [(l & Hl & Hp & Hxl) Hlk]. apply NoDup_cons in Hnd as [Ha Hnd]. rewrite not_elem_of_cons in Hc, H0.
    split; [|apply IH; try done; [tauto|tauto|]; intros x Hin; apply Ho, elem_of_cons; by right].
    exists l. rewrite Ho; [|apply elem_of_cons; by left|].
    + split_and!; [done..|]. rewrite Hxl. by destruct LS1.
    + rewrite Hx. destruct LS2 as [|a' LS2]; cbn [hd]; [by apply not_eq_sym, H0|].
      intros ->. apply Ha. rewrite elem_of_app, !elem_of_cons. tauto.
Qed.

Lemma orphan_leaf g a lf lo x es :
  g !! a = Some (NLeaf lf) -> (forall q, q <> 0 -> leaf_ok q lo x (Leaf.set_parent lf q) es) -> orphan 1 g a lo x es [a].
Proof.
  intros Ha Hok q Hq. cbn [node_rep]. left. exists (Leaf.set_parent lf q). rewrite lookup_alter_eq, Ha. split_and!; try done. by apply Hok.
Qed.

(** * The invariant at the start *)
Section start.
Context (h : gmap Z node) (s : state) (x b : Z) (l : leaf) (d : nat) (r par lo hi : Z) (es1 esb es2 : list entry) (lns : list Z).
Context (Hlinked : linked h 0 (leaves h lns))
  (Hfocus : focus d h 0 r 0 (2 ^ ikey_bits) (es1 ++ esb ++ es2) lns x b l par lo hi es1 esb es2) (Hnd : NoDup lns)
  (Haddr : forall a, a ∈ lns -> 0 < a < next_fresh s /\ a mod 64 = 0) (Hfresh : 0 < next_fresh s).
Abbreviation c0 := (next_fresh s).
(** The two leaves before they are linked. *)
Context (rl nr ln : leaf) (Hrn : next_ rl = next_ l) (Hrp : prev_ rl = prev_ l) (Hrq : lparent_ rl = par)
  (Hbusy : busy (lversion rl)) (Hnv : lversion nr = lversion rl)
  (Hln : next_ l <> 0 -> h !! next_ l = Some (NLeaf ln)).
Definition started : gmap Z node := split_links (<[c0 := NLeaf nr]> (<[b := NLeaf rl]> h)) b c0 rl nr ln.
Abbreviation xb := (Leaf.set_links rl c0 (prev_ rl)).
Abbreviation xc := (Leaf.set_links nr (next_ rl) b).

Lemma start_nodes : b ∈ lns /\ h !! b = Some (NLeaf l) /\ b <> c0 /\ c0 ∉ lns /\ b <> 0 /\ 0 ∉ lns.
Proof using Hfocus Haddr.
  pose proof (fc_in _ _ _ _ _ _ _ _ _ _ _ _ _ _ _ _ _ Hfocus) as Hb. pose proof (Haddr b Hb) as [? _].
  split_and!; try done; try lia; [apply Hfocus|intros Hc; apply Haddr in Hc; lia|intros Hc; apply Haddr in Hc; lia].
Qed.

Lemma start_list : exists LS1 LS2, leaves h lns = LS1 ++ b :: LS2 /\ next_ l = hd 0 LS2 /\
  (forall a LS3, LS2 = a :: LS3 -> exists la, h !! a = Some (NLeaf la) /\ prev_ la = b).
Proof using Hfocus Hlinked.
  pose proof (fc_leaf _ _ _ _ _ _ _ _ _ _ _ _ _ _ _ _ _ Hfocus) as Hl.
  assert (b ∈ leaves h lns) as Hb.
  { apply elem_of_leaves. split; [unfold is_leaf_at; by rewrite Hl|apply Hfocus]. }
  apply list_elem_of_split in Hb as (LS1 & LS2 & Hls). rewrite Hls in Hlinked.
  destruct (linked_at _ _ _ _ _ Hlinked) as (l' & Hl' & Hn & Hp). rewrite Hl in Hl'. injection Hl' as <-. by exists LS1, LS2.
Qed.

(** The next leaf. *)
Lemma start_next : next_ l mod 64 = 0 /\
  (next_ l <> 0 -> next_ l ∈ lns /\ next_ l <> b /\ next_ l <> c0 /\ prev_ ln = b).
Proof using Hfocus Hlinked Hln Hnd Haddr.
  destruct start_nodes as (Hb & Hl & Hbc & Hc & _). destruct start_list as (LS1 & LS2 & Hls & Hnx & Hpv).
  destruct LS2 as [|a LS2]; cbn [hd] in Hnx; rewrite Hnx; [done|].
  assert (a ∈ leaves h lns) as [_ Ha]%elem_of_leaves by (rewrite Hls, elem_of_app, !elem_of_cons; right; right; by left).
  split; [by apply Haddr|]. intros Hne. destruct (Hpv a LS2 eq_refl) as (la & Hla & Hp).
  rewrite Hnx in Hln. rewrite (Hln Hne) in Hla. injection Hla as <-. split_and!; [done| |by intros ->|done].
  intros ->. assert (NoDup (leaves h lns)) as Hndl by by apply NoDup_filter.
  rewrite Hls in Hndl. apply NoDup_app in Hndl as (_ & _ & [Hndl _]%NoDup_cons). apply Hndl, elem_of_cons. by left.
Qed.

Lemma started_lookup a : started !! a =
  if decide (a = b) then Some (NLeaf xb) else if decide (a = c0) then Some (NLeaf xc)
  else if decide (a = next_ l /\ next_ l <> 0) then Some (NLeaf (Leaf.set_links ln (next_ ln) c0)) else h !! a.
Proof using Hfocus Hlinked Hln Hnd Haddr Hrn.
  destruct start_nodes as (_ & _ & Hbc & _). destruct start_next as [_ Hnx]. unfold started, split_links. cbv zeta. rewrite Hrn.
  destruct (decide (a = b)) as [->|Hab]; [by rewrite lookup_insert_eq|]. rewrite lookup_insert_ne by done.
  destruct (Z.eqb_spec (next_ l) 0) as [H0|H0].
  - destruct (decide (a = c0)) as [->|Hac]; [by rewrite lookup_insert_eq|]. rewrite !lookup_insert_ne by done.
    rewrite decide_False; [done|tauto].
  - destruct (Hnx H0) as (_ & Hnb & Hnc & _). destruct (decide (a = c0)) as [->|Hac].
    + by rewrite lookup_insert_ne, lookup_insert_eq by done.
    + destruct (decide (a = next_ l /\ next_ l <> 0)) as [[-> _]|Hne]; [by rewrite lookup_insert_eq|].
      rewrite !lookup_insert_ne; try done. intros Heq. apply Hne. by split.
Qed.
Lemma started_relinked a : a <> b -> a <> c0 -> relinked h started a.
Proof using Hfocus Hlinked Hln Hnd Haddr Hrn Hfresh.
  intros Hab Hac. unfold relinked. rewrite started_lookup, (decide_False (P := a = b)), (decide_False (P := a = c0)) by done.
  destruct (decide _) as [[-> Hne]|]; [right|by left].
  destruct start_next as [_ Hnx]. destruct (Hnx Hne) as (_ & _ & _ & Hp). destruct start_nodes as (_ & _ & _ & _ & Hb0 & _).
  eexists ln, _. split_and!; [by apply Hln|done|]. intros par0 lo0 hi0 es0 Hok0. apply leaf_ok_links; [done|congruence].
Qed.

(** The contents that the leaves end up with. *)
Record halves (lf1 lf2 : leaf) (sk : Z) (esl esr : list entry) : Prop := {
  hv_left : forall q, q <> 0 -> leaf_ok q lo sk (header lf1 (Nodeversion.unlock NV (Nodeversion.mark_split NV (lversion rl))) q) esl;
  hv_right : forall q, q <> 0 -> leaf_ok q sk hi (header lf2 (Nodeversion.unlock NV (lversion rl)) q) esr;
  hv_links1 : next_ lf1 = c0 /\ prev_ lf1 = prev_ l;
  hv_links2 : next_ lf2 = next_ l /\ prev_ lf2 = b;
  hv_range : lo < sk < hi }.

Lemma start_settled lf1 lf2 a : settled b c0 lf1 lf2 [b; c0] started !! a =
  if decide (a = b) then Some (NLeaf (header lf1 (Nodeversion.unlock NV (Nodeversion.mark_split NV (lversion rl))) par))
  else if decide (a = c0) then Some (NLeaf (header lf2 (Nodeversion.unlock NV (lversion rl)) (lparent_ nr)))
  else started !! a.
Proof using Hfocus Hlinked Hln Hnd Haddr Hrn Hrq Hnv.
  destruct start_nodes as (_ & _ & Hbc & _).
  destruct (decide (a = b)) as [->|Hab]; [|destruct (decide (a = c0)) as [->|Hac]].
  - rewrite settled_in by (apply elem_of_cons; by left). rewrite started_lookup, decide_True by done. cbn.
    by rewrite Z.eqb_refl, Hrq.
  - rewrite settled_in by (rewrite !elem_of_cons; tauto). rewrite started_lookup, decide_False, decide_True by done. cbn.
    by rewrite (proj2 (Z.eqb_neq c0 b)), Z.eqb_refl, Hnv by done.
  - apply settled_out. rewrite !elem_of_cons. intros [?|[?|?%not_elem_of_nil]]; done.
Qed.

Lemma pending_start p : p ∈ lns -> p = r -> exists anc ns1 ns2, lns = ns1 ++ b :: ns2 /\
  let NT := ns1 ++ ([b] ++ [c0]) ++ ns2 in let s1 := at_heap s started (c0 + 64) in
  NoDup NT /\ (forall a, a ∈ NT -> 0 < a < next_fresh s1) /\
  forall lf1 lf2 sk esl esr, halves lf1 lf2 sk esl esr ->
    pending b c0 lf1 lf2 s1 NT (es1 ++ (esl ++ esr) ++ es2) (leaves h ns1 ++ b :: c0 :: leaves h ns2) p
      s1 0 [b; c0] r anc par b lo hi es1 es2 ns1 ns2 1 esl [b] c0 sk 1 esr [c0] (NLeaf xb) (NLeaf xc).
Proof using All.
  intros Hpin Hpr.
  destruct start_nodes as (Hb & Hl & Hbc & Hc & Hb0 & H0).
  destruct (fc_path _ _ _ _ _ _ _ _ _ _ _ _ _ _ _ _ _ Hfocus Hnd) as (ns1 & ns2 & Hns & Hpath).
  destruct (path_above h r b par lo hi d 0 r 0 (2 ^ ikey_bits) es1 es2 ns1 ns2 [] [] [] [] [] Hpath (above_root h r)) as [anc Habove].
  cbn [app] in Habove. rewrite !app_nil_r in Habove.
  exists anc, ns1, ns2. split; [done|]. cbv zeta.
  assert (ns1 ++ ([b] ++ [c0]) ++ ns2 ≡ₚ c0 :: lns) as Hperm by (rewrite Hns; solve_Permutation).
  assert (NoDup (ns1 ++ ([b] ++ [c0]) ++ ns2)) as HndT by (rewrite Hperm; by constructor).
  split; [done|]. split.
  { intros a. rewrite Hperm. intros [->|[? _]%Haddr]%elem_of_cons; cbn; lia. }
  intros lf1 lf2 sk esl esr [Hl1 Hl2 [Hn1 Hp1] [Hn2 Hp2] Hsk].
  set (g := settled b c0 lf1 lf2 [b; c0] started).
  assert (forall a, a ∈ ns1 ++ ns2 -> a ∈ lns /\ a <> b /\ a <> c0) as Hoth.
  { intros a Ha. assert (a ∈ lns) as Hal by (revert Ha; rewrite Hns, !elem_of_app, elem_of_cons; tauto). split_and!; [done| |by intros ->].
    intros ->. rewrite Hns in Hnd. apply NoDup_app in Hnd as (_ & Hd & [Hd2 _]%NoDup_cons).
    apply elem_of_app in Ha as [Ha|Ha]; [|done]. apply (Hd b Ha), elem_of_cons. by left. }
  assert (forall a, a ∈ ns1 ++ ns2 -> relinked h g a) as Hrel.
  { intros a Ha. destruct (Hoth a Ha) as (_ & Hab & Hac). unfold relinked, g. rewrite start_settled, !decide_False by done.
    by apply started_relinked. }
  assert (g !! b = Some (NLeaf (header lf1 (Nodeversion.unlock NV (Nodeversion.mark_split NV (lversion rl))) par))) as Hgb
    by (unfold g; by rewrite start_settled, decide_True).
  assert (g !! c0 = Some (NLeaf (header lf2 (Nodeversion.unlock NV (lversion rl)) (lparent_ nr)))) as Hgc
    by (unfold g; by rewrite start_settled, decide_False, decide_True).
  destruct (mark_split_busy _ Hbusy) as (Hbs & _ & Hsp). destruct (unlock_quiet _ Hbs) as (_ & _ & Hur). rewrite Hsp, andb_false_r in Hur.
  split; cbn [heap at_heap]; fold g.
  - by eapply above_relinked.
  - by eapply (orphan_leaf g b).
  - by eapply (orphan_leaf g c0).
  - done.
  - done.
  - rewrite !leaves_app, (leaves_single _ _ _ Hgb), (leaves_single _ _ _ Hgc).
    rewrite !(leaves_relinked h g) by (intros a Ha; apply Hrel, elem_of_app; tauto). done.
  - split; [|by rewrite app_nil_r|done]. unfold at_heap. cbn. by rewrite Z.add_0_r.
  - split_and!; [by rewrite started_lookup, decide_True|done|done].
  - split; [by rewrite started_lookup, decide_False, decide_True|cbn; by rewrite Hnv].
  - split_and!; [apply elem_of_cons; by left|rewrite !elem_of_cons; tauto|done].
  - cbn. rewrite Z.eqb_refl. exact Hur.
  - split; [rewrite Hperm; apply elem_of_cons; by right|done].
  - assert (leaves h lns = leaves h ns1 ++ b :: leaves h ns2) as Hls.
    { rewrite Hns. change (b :: ns2) with ([b] ++ ns2). by rewrite !leaves_app, (leaves_single _ _ _ Hl). }
    pose proof Hlinked as Hlk. rewrite Hls in Hlk. destruct (linked_at _ _ _ _ _ Hlk) as (l' & Hl' & Hnx & _).
    rewrite Hl in Hl'. injection Hl' as <-.
    assert (forall a, a ∈ leaves h ns1 ++ leaves h ns2 -> a ∈ ns1 ++ ns2) as Hsub.
    { intros a. rewrite !elem_of_app, !elem_of_leaves. tauto. }
    assert (NoDup (leaves h lns)) as Hndl by by apply NoDup_filter. rewrite Hls in Hndl.
    assert (forall a, a ∈ leaves h ns1 ++ b :: leaves h ns2 -> a ∈ lns) as Hsub' by (intros a; rewrite <- Hls, elem_of_leaves; tauto).
    eapply (linked_split h g b c0 _ _ 0 l _ _ Hlk Hndl); [..|exact Hl|exact Hgb| | |exact Hgc| | | |]; try done.
    + intros Hin%Hsub'. done.
    + intros Hin%Hsub'. done.
    + intros a Ha%Hsub%Hoth Hnxt. destruct Ha as (_ & Hab & Hac). unfold g.
      rewrite start_settled, (decide_False (P := a = b)), (decide_False (P := a = c0)) by done.
      rewrite started_lookup, !decide_False; [done| |done|done]. intros [? _]. done.
    + intros l' Hin Hl'. assert (next_ l <> 0) as Hne.
      { intros Heq. rewrite Heq in Hin. apply H0, Hsub'. rewrite elem_of_app, elem_of_cons. tauto. }
      rewrite (Hln Hne) in Hl'. injection Hl' as <-. destruct start_next as [_ Hst]. destruct (Hst Hne) as (_ & Hnb & Hnc & _).
      unfold g. rewrite start_settled, (decide_False (P := next_ l = b)), (decide_False (P := next_ l = c0)) by done.
      by rewrite started_lookup, (decide_False (P := next_ l = b)), (decide_False (P := next_ l = c0)), decide_True by done.
Qed.
End start.
