(* ===== verification/Unlink.v ===== *)
(** [remove_leaf] of [src/masstree_remove.hh] for a leaf that lost its last
    entry: it leaves the list of leaves ([unlink] of [src/btree_leaflink.hh])
    and the tree. *)
From S2P Require Import Prelude Compiler Memory StringSlice Key Ksearch Kpermuter Nodeversion.
From S2P Require Import Stringbag Node Heap Get Insert Remove Tree Find Steps InternodeSpec LeafSpec Locate Put NewLayer.
From S2P Require Import Ancestors LinkChild Hole Redirect RemoveUp SplitUp SplitLoop SplitLeaf LeafTurn SplitStart.

(** * The list of leaves *)
(** What [unlink] makes of the heap: [pl] and [ln] are the neighbours. *)
Definition unlink_links (h : gmap Z node) (b : Z) (x pl ln : leaf) : gmap Z node :=
  let next := next_ x in
  let h := if next =? 0 then h else <[b := NLeaf (Leaf.set_links x (mark next) (prev_ x))]> h in
  let h := if next =? 0 then h else <[next := NLeaf (Leaf.set_links ln (next_ ln) (prev_ x))]> h in
  <[prev_ x := NLeaf (Leaf.set_links pl next (prev_ pl))]> h.

Lemma unlink_run fuel s b x pl ln :
  heap s !! b = Some (NLeaf x) -> heap s !! prev_ x = Some (NLeaf pl) -> next_ pl = b -> prev_ x <> b -> next_ x mod 64 = 0 ->
  (next_ x <> 0 -> heap s !! next_ x = Some (NLeaf ln) /\ next_ x <> b /\ next_ x <> prev_ x) ->
  unlink (S fuel) b s = Some (tt, with_heap s (unlink_links (heap s) b x pl ln)).
Proof.
  intros Hb Hp Hpn Hpb Hal Hnext. unfold unlink, unlink_links. cbn [lock_next lock_prev]. unfold set_prev, set_next.
  rewrite bind_assoc, (bind_eq _ _ _ _ _ (get_leaf_eq _ _ _ Hb)), is_marked_aligned by done. cbn [negb].
  destruct (Z.eqb_spec (next_ x) 0) as [H0|H0].
  - rewrite bind_ret, bind_assoc, (bind_eq _ _ _ _ _ (get_leaf_eq _ _ _ Hb)), bind_assoc.
    rewrite (bind_eq _ _ _ _ _ (get_leaf_eq _ _ _ Hp)), Hpn, Z.eqb_refl, bind_assoc.
    rewrite (bind_eq _ _ _ _ _ (update_leaf_eq _ _ _ _ Hp)), bind_ret.
    rewrite (proj2 (Z.eqb_eq _ _) H0), bind_ret. erewrite update_leaf_eq by apply lookup_insert_eq.
    cbn [heap with_heap]. by rewrite with_heap_insert.
  - destruct (Hnext H0) as (Hln & Hnb & Hnp).
    rewrite bind_assoc, (bind_eq _ _ _ _ _ (update_leaf_eq _ _ _ _ Hb)), bind_ret.
    rewrite bind_assoc. erewrite bind_eq by (apply get_leaf_eq, lookup_insert_eq). cbn [prev_ next_ Leaf.set_links].
    rewrite bind_assoc. erewrite bind_eq by (apply get_leaf_eq; cbn; rewrite lookup_insert_ne by done; exact Hp).
    rewrite Hpn, Z.eqb_refl, bind_assoc.
    erewrite bind_eq by (apply update_leaf_eq; cbn; rewrite lookup_insert_ne by done; exact Hp). rewrite bind_ret.
    rewrite (proj2 (Z.eqb_neq _ _) H0).
    erewrite bind_eq by (apply update_leaf_eq; cbn; rewrite !lookup_insert_ne by done; exact Hln).
    erewrite update_leaf_eq by (cbn; rewrite lookup_insert_ne by done; apply lookup_insert_eq).
    unfold with_heap. cbn. do 3 f_equal. heap_eq.
Qed.

(** A leaf leaves the list. *)
Lemma linked_same h h' b prev ls :
  linked h prev ls -> b <> 0 -> b ∉ prev :: ls ->
  (forall a l, a ∈ ls -> h !! a = Some (NLeaf l) -> prev_ l <> b -> next_ l <> b ->
    exists l', h' !! a = Some (NLeaf l') /\ prev_ l' = prev_ l /\ next_ l' = next_ l) -> linked h' prev ls.
Proof.
  intros Hlk Hb. revert prev Hlk. induction ls as [|a ls IH]; intros prev; cbn [linked]; [done|].
  intros [(l & Hl & Hp & Hn) Hlk] Hbn Hk. rewrite !not_elem_of_cons in Hbn. destruct Hbn as (Hbp & Hba & Hbl). split.
  - destruct (Hk a l) as (l' & ? & ? & ?); [apply elem_of_cons; by left|done|congruence| |exists l'; split_and!; congruence].
    rewrite Hn. destruct ls as [|a' ls]; cbn; [done|]. rewrite not_elem_of_cons in Hbl. naive_solver.
  - apply IH; [done|by rewrite not_elem_of_cons|]. intros a' l' Hin. apply Hk, elem_of_cons. by right.
Qed.
Lemma linked_remove h h' b lb prev LS1 LS2 :
  linked h prev (LS1 ++ b :: LS2) -> NoDup (LS1 ++ b :: LS2) -> b <> 0 -> prev <> b -> h !! b = Some (NLeaf lb) ->
  (forall a l, a ∈ LS1 ++ LS2 -> h !! a = Some (NLeaf l) -> exists l', h' !! a = Some (NLeaf l') /\
    prev_ l' = (if prev_ l =? b then prev_ lb else prev_ l) /\ next_ l' = (if next_ l =? b then next_ lb else next_ l)) ->
  linked h' prev (LS1 ++ LS2).
Proof.
  intros Hlk Hnd Hb0 Hpb Hb Hk. revert prev Hlk Hnd Hpb Hk. induction LS1 as [|a LS1 IH]; intros prev Hlk Hnd Hpb Hk; cbn [app linked] in *.
  - destruct Hlk as [(l & Hl & Hp & Hn) Hlk]. rewrite Hb in Hl. injection Hl as <-. apply NoDup_cons in Hnd as [Hbn Hnd].
    destruct LS2 as [|a LS2]; [done|]. cbn [linked hd] in *. destruct Hlk as [(la & Hla & Hpa & Hna) Hlk].
    rewrite not_elem_of_cons in Hbn. destruct Hbn as [Hba Hbn]. split.
    + destruct (Hk a la) as (l' & Hl' & Hp' & Hn'); [apply elem_of_cons; by left|done|]. exists l'. split_and!; [done| |].
      * rewrite Hp', Hpa, Z.eqb_refl. done.
      * rewrite Hn', Hna. destruct LS2 as [|c LS2]; cbn [hd]; [by rewrite (proj2 (Z.eqb_neq 0 b)) by lia|].
        rewrite not_elem_of_cons in Hbn. by rewrite (proj2 (Z.eqb_neq c b)) by naive_solver.
    + eapply (linked_same h h' b); [done|done|by rewrite not_elem_of_cons|]. intros c lc Hc Hlc H1 H2.
      destruct (Hk c lc) as (l' & ? & ? & ?); [apply elem_of_cons; by right|done|]. exists l'.
      by rewrite (proj2 (Z.eqb_neq _ _) H1), (proj2 (Z.eqb_neq _ _) H2) in *.
  - destruct Hlk as [(la & Hla & Hpa & Hna) Hlk]. apply NoDup_cons in Hnd as [Han Hnd].
    assert (a <> b) as Hab by (intros ->; apply Han; rewrite elem_of_app, elem_of_cons; tauto). split.
    + destruct (Hk a la) as (l' & Hl' & Hp' & Hn'); [apply elem_of_cons; by left|done|]. exists l'. split_and!; [done| |].
      * rewrite Hp', Hpa. by rewrite (proj2 (Z.eqb_neq _ _) Hpb).
      * rewrite Hn', Hna. destruct LS1 as [|c LS1]; cbn [app hd].
        -- rewrite Z.eqb_refl. destruct (linked_at h a [] b LS2 Hlk) as (l & Hl & Hn & _). rewrite Hb in Hl. by injection Hl as <-.
        -- cbn in Hnd. apply NoDup_cons in Hnd as [Hcn _]. rewrite (proj2 (Z.eqb_neq c b)); [done|]. intros ->. apply Hcn.
           rewrite elem_of_app, elem_of_cons. tauto.
    + apply IH; [done|done|done|]. intros c lc Hc. apply Hk. apply elem_of_cons. by right.
Qed.

(** The links of a list are inverse to each other. *)
Lemma linked_next_is h prev ls a la b lb :
  linked h prev ls -> a ∈ ls -> h !! a = Some (NLeaf la) -> h !! b = Some (NLeaf lb) -> b <> 0 -> next_ la = b -> prev_ lb = a.
Proof.
  intros Hlk [X [Y ->]]%list_elem_of_split Ha Hb Hb0 Hn. destruct (linked_at _ _ _ _ _ Hlk) as (l' & Hl' & Hn' & Hp').
  rewrite Ha in Hl'. injection Hl' as <-. destruct Y as [|c Y]; cbn [hd] in Hn'; [congruence|]. assert (c = b) as -> by congruence.
  destruct (Hp' b Y eq_refl) as (l2 & Hl2 & Hp2). congruence.
Qed.
Lemma linked_prev_is h prev ls a la b lb :
  linked h prev ls -> a ∈ ls -> h !! a = Some (NLeaf la) -> h !! b = Some (NLeaf lb) -> b <> prev -> prev_ la = b -> next_ lb = a.
Proof.
  intros Hlk [X [Y ->]]%list_elem_of_split Ha Hb Hb0 Hp. destruct X as [|c X _] using rev_ind.
  - destruct Hlk as [(l' & Hl' & Hp' & _) _]. congruence.
  - rewrite <- app_assoc in Hlk. cbn [app] in Hlk. destruct (linked_at _ _ _ _ _ Hlk) as (l' & Hl' & Hn' & Hp').
    destruct (Hp' a Y eq_refl) as (l2 & Hl2 & Hp2). assert (c = b) as -> by congruence. cbn in Hn'. congruence.
Qed.

(** * The leaf goes *)
Lemma mark_deleted_eq s a n :
  heap s !! a = Some n -> Nodeversion.locked NV (node_version n) = true ->
  mark_deleted a s = Some (tt, with_heap s (<[a := node_set_version n (Nodeversion.mark_deleted NV (node_version n))]> (heap s))).
Proof.
  intros H Hl. unfold mark_deleted, mark_locked. rewrite (bind_eq _ _ _ _ _ (version_eq _ _ _ H)), bind_require by done.
  by rewrite (set_version_eq _ _ _ _ H).
Qed.

(** The phantom epoch of the leaf on the left. *)
Definition raised (pl l : leaf) : leaf :=
  if epoch_less (phantom_epoch_ pl) (phantom_epoch_ l) then Leaf.set_phantom_epoch pl (phantom_epoch_ l) else pl.
Lemma raise_run s b l pl : heap s !! b = Some (NLeaf l) -> heap s !! prev_ l = Some (NLeaf pl) ->
  raise_phantom_epoch b s = Some (tt, with_heap s (<[prev_ l := NLeaf (raised pl l)]> (heap s))).
Proof.
  intros Hb Hp. unfold raise_phantom_epoch, raised. rewrite (bind_eq _ _ _ _ _ (get_leaf_eq _ _ _ Hb)), (bind_eq _ _ _ _ _ (get_leaf_eq _ _ _ Hp)).
  destruct (epoch_less _ _); [done|]. unfold ret. rewrite insert_id by done. by rewrite with_heap_heap.
Qed.
Lemma raised_ok pl l n par lo hi es :
  leaf_ok par lo hi pl es -> leaf_ok par lo hi (Leaf.set_links (raised pl l) n (prev_ pl)) es.
Proof.
  intros [(live & free & [[? ? ? ?] ? ? ? ?]) H2 H3 H4 H5 H6 H7 H8]. unfold raised.
  destruct (epoch_less _ _); (split; try done; by exists live, free; split).
Qed.

Section gone.
Context (h : gmap Z node) (s : state) (xk b : Z) (l x : leaf) (d : nat) (r par lo hi : Z) (es1 esb es2 : list entry) (lns : list Z).
Context (Hlinked : linked h 0 (leaves h lns))
  (Hfocus : focus d h 0 r 0 (2 ^ ikey_bits) (es1 ++ esb ++ es2) lns xk b l par lo hi es1 esb es2) (Hnd : NoDup lns)
  (Haddr : forall a, a ∈ lns -> 0 < a /\ a mod 64 = 0).
Context (Hheap : heap s = <[b := NLeaf x]> h) (Hxn : next_ x = next_ l) (Hxp : prev_ x = prev_ l) (Hxq : lparent_ x = par)
  (Hxi : Leaf.ikey_bound x = Leaf.ikey_bound l) (Hxl : Nodeversion.locked NV (lversion x) = true) (Hprev : prev_ l <> 0).

Lemma gone_place : exists anc ns1 ns2, lns = ns1 ++ b :: ns2 /\ above h r anc par b lo hi es1 es2 ns1 ns2 /\
  NoDup (ns1 ++ ns2) /\ b ∉ ns1 ++ ns2 /\ 0 ∉ ns1 ++ ns2 /\ b <> 0 /\
  leaves h lns = leaves h ns1 ++ b :: leaves h ns2.
Proof using Hfocus Hnd Haddr.
  destruct (fc_path _ _ _ _ _ _ _ _ _ _ _ _ _ _ _ _ _ Hfocus Hnd) as (ns1 & ns2 & Hns & Hpath).
  destruct (path_above h r b par lo hi d 0 r 0 (2 ^ ikey_bits) es1 es2 ns1 ns2 [] [] [] [] [] Hpath (above_root h r)) as [anc Habove].
  cbn [app] in Habove. rewrite !app_nil_r in Habove. exists anc, ns1, ns2.
  assert (lns ≡ₚ b :: ns1 ++ ns2) as HP by (rewrite Hns; solve_Permutation).
  pose proof Hnd as Hnd'. rewrite HP, NoDup_cons in Hnd'. destruct Hnd' as [Hbn Hnd'].
  assert (forall a, a ∈ b :: ns1 ++ ns2 -> 0 < a) as Hpos by (intros a; rewrite <- HP; intros Ha%Haddr; lia).
  split_and!; try done.
  - intros H0. assert (0 < 0) by (apply Hpos, elem_of_cons; by right). lia.
  - assert (0 < b) by (apply Hpos, elem_of_cons; by left). lia.
  - rewrite Hns, leaves_app. f_equal. apply (leaves_leaf_cons _ _ l), Hfocus.
Qed.

(** The leaf on the left, and the one on the right if there is one. *)
Lemma gone_left ns1 ns2 : linked h 0 (leaves h ns1 ++ b :: leaves h ns2) ->
  exists pl, h !! prev_ l = Some (NLeaf pl) /\ next_ pl = b /\ prev_ l ∈ ns1.
Proof using Hfocus Hprev.
  intros Hlk. pose proof (fc_leaf _ _ _ _ _ _ _ _ _ _ _ _ _ _ _ _ _ Hfocus) as Hl.
  assert (forall a, a ∈ leaves h ns1 -> a ∈ ns1) as Hsub by (intros a; rewrite elem_of_leaves; intros [_ ?]; done).
  destruct (leaves h ns1) as [|a LS _] using rev_ind.
  { cbn [app linked] in Hlk. destruct Hlk as [(l' & Hl' & Hp & _) _]. rewrite Hl in Hl'. by injection Hl' as <-. }
  rewrite <- app_assoc in Hlk. cbn [app] in Hlk. destruct (linked_at _ _ _ _ _ Hlk) as (pl & Hpl & Hpn & Hbp).
  destruct (Hbp b _ eq_refl) as (l' & Hl' & Hp). rewrite Hl in Hl'. injection Hl' as <-. rewrite Hp.
  exists pl. split_and!; [done|done|]. apply Hsub, elem_of_app. right. apply elem_of_cons. by left.
Qed.
Lemma gone_right ns1 ns2 : linked h 0 (leaves h ns1 ++ b :: leaves h ns2) ->
  next_ l = 0 \/ exists ln, h !! next_ l = Some (NLeaf ln) /\ prev_ ln = b /\ next_ l ∈ ns2.
Proof using Hfocus.
  intros Hlk. pose proof (fc_leaf _ _ _ _ _ _ _ _ _ _ _ _ _ _ _ _ _ Hfocus) as Hl.
  destruct (linked_at _ _ _ _ _ Hlk) as (l' & Hl' & Hn & Hp). rewrite Hl in Hl'. injection Hl' as <-.
  destruct (leaves h ns2) as [|a LS] eqn:HLS; cbn [hd] in Hn; [by left|right]. rewrite Hn.
  destruct (Hp a LS eq_refl) as (ln & Hln & Hpn). exists ln. split_and!; [done..|].
  assert (a ∈ leaves h ns2) as [_ ?]%elem_of_leaves by (rewrite HLS; apply elem_of_cons; by left). done.
Qed.

Record neighbours (ns1 ns2 : list Z) (pl ln : leaf) : Prop := {
  nb_left : h !! prev_ l = Some (NLeaf pl) /\ next_ pl = b /\ prev_ l ∈ ns1;
  nb_right : next_ l <> 0 -> h !! next_ l = Some (NLeaf ln) /\ prev_ ln = b /\ next_ l ∈ ns2 }.
Lemma gone_neighbours ns1 ns2 : linked h 0 (leaves h ns1 ++ b :: leaves h ns2) -> exists pl ln, neighbours ns1 ns2 pl ln.
Proof using Hfocus Hprev.
  intros Hlk. destruct (gone_left _ _ Hlk) as (pl & Hpl). exists pl.
  destruct (gone_right _ _ Hlk) as [H0|(ln & Hln)]; [exists pl|exists ln]; by split.
Qed.

(** The leaf and its neighbours when the climb starts. *)
Section links.
Context (ns1 ns2 : list Z) (pl ln : leaf) (Hns : lns = ns1 ++ b :: ns2) (Hnd2 : NoDup (ns1 ++ ns2)) (Hbn : b ∉ ns1 ++ ns2)
  (Hnb : neighbours ns1 ns2 pl ln).
Definition deleted_leaf : leaf := Leaf.set_version x (Nodeversion.mark_deleted NV (lversion x)).
Definition unlinked : gmap Z node :=
  unlink_links (<[prev_ x := NLeaf (raised pl deleted_leaf)]> (<[b := NLeaf deleted_leaf]> h)) b deleted_leaf (raised pl deleted_leaf) ln.

Lemma unlinked_facts : prev_ l <> b /\ next_ l <> b /\ (next_ l <> 0 -> next_ l <> prev_ l) /\ next_ l mod 64 = 0.
Proof using Hns Hnd2 Hbn Hnb Haddr Hfocus Hprev.
  destruct Hnb as [(_ & _ & Hp) Hn]. assert (prev_ l <> b) by (intros Heq; apply Hbn; rewrite <- Heq, elem_of_app; by left).
  apply NoDup_app in Hnd2 as (_ & Hd & _). assert (b <> 0) as Hb0 by (pose proof (Haddr b (fc_in _ _ _ _ _ _ _ _ _ _ _ _ _ _ _ _ _ Hfocus)); lia).
  split; [done|]. destruct (decide (next_ l = 0)) as [->|Hne]; [by split_and!|]. destruct (Hn Hne) as (_ & _ & Hin). split_and!.
  - intros Heq. apply Hbn. rewrite <- Heq, elem_of_app. by right.
  - intros _ Heq. apply (Hd _ Hp). by rewrite <- Heq.
  - apply Haddr. rewrite Hns, elem_of_app, elem_of_cons. by right; right.
Qed.

Lemma unlinked_lookup a : unlinked !! a =
  if decide (a = prev_ l) then Some (NLeaf (Leaf.set_links (raised pl deleted_leaf) (next_ l) (prev_ pl)))
  else if decide (a = b) then Some (NLeaf (if next_ l =? 0 then deleted_leaf else Leaf.set_links deleted_leaf (mark (next_ l)) (prev_ l)))
  else if decide (a = next_ l /\ next_ l <> 0) then Some (NLeaf (Leaf.set_links ln (next_ ln) (prev_ l))) else h !! a.
Proof using Hns Hnd2 Hbn Hnb Haddr Hfocus Hxn Hxp Hprev.
  destruct unlinked_facts as (Hpb & Hnbb & Hnp & _). unfold unlinked, unlink_links. cbv zeta.
  change (next_ deleted_leaf) with (next_ x). change (prev_ deleted_leaf) with (prev_ x). rewrite Hxn, Hxp.
  assert (prev_ (raised pl deleted_leaf) = prev_ pl) as -> by (unfold raised; by destruct (epoch_less _ _)).
  rewrite lookup_insert. destruct (decide (prev_ l = a)) as [<-|Hpa]; [by rewrite decide_True|]. rewrite (decide_False (P := a = prev_ l)) by done.
  destruct (Z.eqb_spec (next_ l) 0) as [H0|H0].
  - rewrite lookup_insert_ne, lookup_insert by done. destruct (decide (b = a)) as [<-|]; [by rewrite decide_True|].
    rewrite (decide_False (P := a = b)), decide_False; [done|tauto|done].
  - destruct (decide (a = b)) as [->|Hab]; [by rewrite lookup_insert_ne, lookup_insert_eq|].
    rewrite lookup_insert. destruct (decide (next_ l = a)) as [<-|Hna]; [by rewrite decide_True|].
    rewrite decide_False by (intros [? _]; done). by rewrite !lookup_insert_ne.
Qed.

Lemma unlinked_relinked a : a ∈ ns1 ++ ns2 -> relinked h unlinked a.
Proof using All.
  intros Ha. assert (a <> b) as Hab by (by intros ->). unfold relinked. rewrite unlinked_lookup.
  destruct Hnb as [(Hpl & _) Hln]. destruct (decide (a = prev_ l)) as [->|Hap].
  - right. eexists pl, _. split_and!; [done..|]. intros par0 lo0 hi0 es0. apply raised_ok.
  - rewrite (decide_False (P := a = b)) by done. destruct (decide _) as [[-> Hne]|]; [right|by left].
    destruct (Hln Hne) as (Hn & Hnp & _). eexists ln, _. split_and!; [done..|]. intros par0 lo0 hi0 es0 Hok. apply leaf_ok_links; [done|].
    rewrite Hnp. pose proof (Haddr b (fc_in _ _ _ _ _ _ _ _ _ _ _ _ _ _ _ _ _ Hfocus)). lia.
Qed.

Lemma unlinked_list : linked h 0 (leaves h ns1 ++ b :: leaves h ns2) -> linked unlinked 0 (leaves unlinked (ns1 ++ ns2)).
Proof using All.
  intros Hlk. assert (b <> 0) as Hb0 by (pose proof (Haddr b (fc_in _ _ _ _ _ _ _ _ _ _ _ _ _ _ _ _ _ Hfocus)); lia).
  rewrite (leaves_relinked h) by apply unlinked_relinked. rewrite leaves_app.
  pose proof (fc_leaf _ _ _ _ _ _ _ _ _ _ _ _ _ _ _ _ _ Hfocus) as Hl.
  assert (forall a, a ∈ leaves h ns1 ++ leaves h ns2 -> a ∈ ns1 ++ ns2) as Hsub by (intros a; rewrite <- leaves_app, elem_of_leaves; by intros [_ ?]).
  eapply (linked_remove h unlinked b l); [exact Hlk| |done|done|exact Hl|].
  { assert (leaves h ns1 ++ b :: leaves h ns2 ≡ₚ b :: leaves h (ns1 ++ ns2)) as -> by (rewrite leaves_app; solve_Permutation).
    constructor; [|by apply NoDup_filter]. by intros [_ ?]%elem_of_leaves. }
  destruct unlinked_facts as (Hpb & Hnbb & Hnp & _). destruct Hnb as [(Hpl & Hpn & _) Hln].
  intros a la Ha' Hla. pose proof (Hsub a Ha') as Ha. assert (a <> b) as Hab by (by intros ->).
  assert (a ∈ leaves h ns1 ++ b :: leaves h ns2) as Hin by (revert Ha'; rewrite !elem_of_app, elem_of_cons; tauto).
  assert (prev_ la = b <-> a = next_ l /\ next_ l <> 0) as Hpi.
  { split; [|by intros [-> Hne]; destruct (Hln Hne) as (Hn & Hp & _); congruence].
    intros Hp. pose proof (linked_prev_is _ _ _ _ _ _ _ Hlk Hin Hla Hl Hb0 Hp) as Hn. split; [done|]. rewrite Hn. intros ->.
    assert (0 ∈ lns) as H0%Haddr; [|lia]. rewrite Hns. revert Ha. rewrite !elem_of_app, elem_of_cons. tauto. }
  assert (next_ la = b <-> a = prev_ l) as Hni.
  { split; [|intros ->; congruence]. intros Hn. symmetry. by apply (linked_next_is _ _ _ _ _ _ _ Hlk Hin Hla Hl Hb0 Hn). }
  rewrite unlinked_lookup. destruct (Z.eqb_spec (prev_ la) b) as [Hp|Hp], (Z.eqb_spec (next_ la) b) as [Hn|Hn].
  - exfalso. apply Hpi in Hp as [-> Hne]. apply Hni in Hn. by apply Hnp.
  - rewrite decide_False by (intros Heq; by apply Hn, Hni). rewrite (decide_False (P := a = b)), decide_True by (done || by apply Hpi).
    apply Hpi in Hp as [-> Hne]. destruct (Hln Hne) as (Hln' & _). rewrite Hln' in Hla. injection Hla as <-. by eexists.
  - rewrite decide_True by by apply Hni. apply Hni in Hn as ->. rewrite Hpl in Hla. injection Hla as <-. by eexists.
  - rewrite decide_False by (intros Heq; by apply Hn, Hni). rewrite (decide_False (P := a = b)), decide_False by (done || by rewrite <- Hpi).
    by exists la.
Qed.

Abbreviation gone_state := (with_limbo s unlinked (b :: limbo s)).
Lemma gone_start fuel root prefix : lo = Leaf.ikey_bound l ->
  remove_leaf (S fuel) b root prefix s =
  bind (remove_loop (S fuel) b lo 0) (fun n => unlock n ;! ret true) gone_state.
Proof using All.
  intros Hlo. destruct unlinked_facts as (Hpb & Hnbb & Hnp & Hal). destruct Hnb as [(Hpl & Hpn & _) Hln].
  assert (heap s !! b = Some (NLeaf x)) as Hb by (rewrite Hheap; apply lookup_insert_eq).
  unfold remove_leaf. rewrite (bind_eq _ _ _ _ _ (get_leaf_eq _ _ _ Hb)), Hxp, (proj2 (Z.eqb_neq _ _) Hprev).
  rewrite (bind_eq _ _ _ _ _ (mark_deleted_eq _ _ _ Hb Hxl)). cbn [node_set_version node_version]. fold deleted_leaf.
  rewrite Hheap, insert_insert_eq. set (h1 := <[b := NLeaf deleted_leaf]> h).
  rewrite (bind_eq (deallocate_rcu b) _ _ tt (with_limbo s h1 (b :: limbo s))) by done.
  assert (h1 !! b = Some (NLeaf deleted_leaf)) as Hb1 by apply lookup_insert_eq.
  assert (h1 !! prev_ deleted_leaf = Some (NLeaf pl)) as Hp1.
  { cbn. unfold h1. by rewrite Hxp, lookup_insert_ne. }
  rewrite (bind_eq _ _ _ _ _ (raise_run (with_limbo s h1 (b :: limbo s)) _ _ _ Hb1 Hp1)).
  set (s2 := with_heap _ _).
  rewrite (bind_eq (unlink (S fuel) b) _ s2 tt gone_state).
  - erewrite bind_eq; [|apply get_leaf_eq; cbn [heap with_limbo]; rewrite unlinked_lookup, (decide_False (P := b = prev_ l)), decide_True by done; done].
    replace (Leaf.ikey_bound (if next_ l =? 0 then deleted_leaf else _)) with lo; [done|]. rewrite Hlo, <- Hxi. by destruct (_ =? _).
  - rewrite (unlink_run fuel s2 b deleted_leaf (raised pl deleted_leaf) ln); [done| | | | | |]; cbn [s2 heap with_heap with_limbo].
    + rewrite lookup_insert_ne by (cbn; by rewrite Hxp). done.
    + apply lookup_insert_eq.
    + unfold raised. by destruct (epoch_less _ _).
    + cbn. by rewrite Hxp.
    + cbn. by rewrite Hxn.
    + cbn. rewrite Hxn, Hxp. intros Hne. destruct (Hln Hne) as (Hln' & _ & _). unfold h1.
      split_and!; [|done|by apply Hnp]. rewrite lookup_insert_ne by (apply not_eq_sym, Hnp; done). by rewrite lookup_insert_ne.
Qed.
End links.

Lemma gone_run : exists g lim D ns',
  node_rep D g 0 r 0 (2 ^ ikey_bits) (es1 ++ es2) ns' /\ NoDup ns' /\ (forall a, a ∈ ns' -> a ∈ lns) /\
  linked g 0 (leaves g ns') /\ (forall a, a ∉ lns -> g !! a = h !! a) /\
  exists F, forall fuel root prefix, (F <= fuel)%nat -> remove_leaf fuel b root prefix s = Some (true, with_limbo s g lim).
Proof using All.
  destruct gone_place as (anc & ns1 & ns2 & Hns & Ha & Hnd2 & Hbn & H0 & Hb0 & Hls).
  pose proof Hlinked as Hlk. rewrite Hls in Hlk. destruct (gone_neighbours _ _ Hlk) as (pl & ln & Hnb).
  set (u := unlinked pl ln). assert (above u r anc par b lo hi es1 es2 ns1 ns2) as Hau.
  { eapply above_relinked; [|exact Ha]. intros a Hin. by apply (unlinked_relinked ns1 ns2). }
  destruct (above_range _ _ _ _ _ _ _ _ _ _ _ Ha) as ([Hlo0 Hlohi] & Hl0 & _).
  assert (0 < lo) as Hlo.
  { destruct (decide (lo = 0)) as [Hz|]; [|lia]. rewrite (Hl0 Hz) in Hlk. cbn [app linked] in Hlk.
    destruct Hlk as [(l' & Hl' & Hp & _) _]. rewrite (fc_leaf _ _ _ _ _ _ _ _ _ _ _ _ _ _ _ _ _ Hfocus) in Hl'. by injection Hl' as <-. }
  pose proof (fc_ok _ _ _ _ _ _ _ _ _ _ _ _ _ _ _ _ _ Hfocus) as Hlok.
  assert (lo = Leaf.ikey_bound l) as Hbd by (symmetry; by apply (lo_bound _ _ _ _ _ Hlok)).
  destruct (unlinked_facts ns1 ns2 pl ln Hns Hnd2 Hbn Hnb) as (Hpb & _).
  destruct (remove_up_run r anc par b lo hi es1 es2 ns1 ns2 0 [] [] (with_limbo s u (b :: limbo s))
    (NLeaf (if next_ l =? 0 then deleted_leaf else Leaf.set_links deleted_leaf (mark (next_ l)) (prev_ l))) lo) as (g & lim & Hsh & Hoth & Hloop).
  - exact Hau.
  - intros ->. destruct (above_root_par _ _ _ _ _ _ _ _ _ _ _ Ha) as [_ Hz]; [rewrite not_elem_of_app in H0; tauto|]. rewrite Hz in Hlo by done. lia.
  - left. done.
  - lia.
  - done.
  - done.
  - done.
  - done.
  - cbn [heap with_limbo]. unfold u. rewrite (unlinked_lookup ns1 ns2), (decide_False (P := b = prev_ l)), decide_True by done. done.
  - cbn [node_version]. destruct (_ =? _); by apply mark_deleted_locked.
  - cbn [node_parent]. by destruct (_ =? _).
  - destruct Hsh as (D & ns' & HD & Hnd' & Hsub & Hlv & Hk). cbn [app heap with_limbo] in HD, Hsub, Hlv, Hk.
    assert (forall a, a ∈ ns1 ++ ns2 -> a ∈ lns) as Hsub2 by (intros a; rewrite Hns, !elem_of_app, elem_of_cons; tauto).
    exists g, lim, D, ns'. split_and!; [done|done|auto| | |].
    + rewrite Hlv. apply (chain_kept_linked u).
      * intros a Hin. apply Hk. rewrite <- Hlv in Hin. by apply elem_of_leaves in Hin as [_ ?].
      * apply (unlinked_list ns1 ns2); done.
    + intros a Hin. rewrite Hoth.
      * cbn [heap with_limbo]. unfold u. rewrite (unlinked_lookup ns1 ns2) by done.
        destruct Hnb as [(_ & _ & Hp) Hn]. rewrite !decide_False; [done| | |].
        -- intros [-> Hne]. apply Hin, Hsub2, elem_of_app. right. by apply Hn.
        -- intros ->. apply Hin. rewrite Hns, elem_of_app, elem_of_cons. tauto.
        -- intros ->. apply Hin, Hsub2, elem_of_app. by left.
      * rewrite Hns, !not_elem_of_app, !not_elem_of_cons in *. cbn [app]. rewrite not_elem_of_app. tauto.
    + exists (S (length anc)). intros [|fuel] root prefix Hf; [lia|]. rewrite (gone_start ns1 ns2 pl ln) by done.
      unfold bind at 1. specialize (Hloop (S fuel) ltac:(lia)). unfold bind in Hloop at 1. fold u.
      destruct (remove_loop (S fuel) b lo 0 _) as [[m sm]|]; [|done]. by rewrite (bind_eq _ _ _ _ _ Hloop).
Qed.
End gone.
