(* ===== verification/PutSplit.v ===== *)
(** [make_split] of [Insert] for the leaf that [find_insert] finds without a
    slot to spare: its free slots rearranged, or the leaf split in two. *)
From Stdlib Require Import Sorted.
From S2P Require Import Prelude Compiler Memory StringSlice Key Ksearch Kpermuter Nodeversion.
From S2P Require Import Stringbag Node Heap Get Insert Remove Tree Find Steps LeafSpec Locate Put NewLayer SplitSpec.
From S2P Require Import Ancestors LinkChild SplitUp SplitLoop SplitLeaf LeafTurn SplitStart.

Lemma half_ok lo hi lf v es live free :
  leaf_entries lf live free es -> Forall (fun e => lo <= e_ikey e < hi) es -> quiet v -> Nodeversion.isleaf NV v = true ->
  (prev_ lf <> 0 -> Leaf.ikey_bound lf = lo) -> modstate_ lf = modstate_insert ->
  forall q, q <> 0 -> leaf_ok q lo hi (header lf v q) es.
Proof.
  intros [[? ? ? ?] ? ? ? ?] Hr Hq Hl Hb Hm q Hq0. split; try done; [|by left]. exists live, free. by split.
Qed.

Lemma ksuf_used_nonneg l : leaf_arrays l -> 0 <= Leaf.ksuf_used_capacity l.
Proof.
  intros [_ _ _ Hb]. unfold bags_ok, Leaf.ksuf_used_capacity, used_capacity in *.
  destruct (ksuf_ l) as [bg|]; [|destruct (iksuf_ l) as [bg|]; [|done]].
  - destruct Hb as ([_ [? _] _] & _). pose proof (overhead_nonneg Leaf.external_bits leaf_width ltac:(done) ltac:(done)). lia.
  - destruct Hb as ([_ [? _] _] & _). pose proof (overhead_nonneg Leaf.internal_bits leaf_width ltac:(done) ltac:(done)). destruct (_ <? _); lia.
Qed.

Lemma fresh_cons f k : fresh f (S k) = f :: fresh (f + 64) k.
Proof.
  unfold fresh. cbn [seq map]. rewrite Z.mul_0_r, Z.add_0_r. f_equal.
  rewrite <- seq_shift, map_map. apply map_ext. intros i. lia.
Qed.

Lemma settled_single b0 c0 lf1 lf2 h a nd nd' :
  h !! a = Some nd -> settle b0 c0 lf1 lf2 a nd = nd' -> settled b0 c0 lf1 lf2 [a] h = <[a := nd']> h.
Proof.
  intros Ha <-. apply map_eq. intros x. destruct (decide (x = a)) as [->|Hx].
  - rewrite settled_in, lookup_insert_eq by (by apply list_elem_of_singleton). by rewrite Ha.
  - rewrite settled_out, lookup_insert_ne; [done|done|by intros ?%list_elem_of_singleton].
Qed.

Lemma climbs_in h ns a r : climbs h ns a r -> a ∈ ns.
Proof. by intros []. Qed.

(** Where a sorted list of entries is cut. *)
Lemma sorted_cut L mid e f :
  StronglySorted entry_lt L -> zlookup L (mid - 1) = Some e -> zlookup L mid = Some f ->
  Forall (fun x => e_ikey x <= e_ikey e) (take (Z.to_nat mid) L) /\ Forall (fun x => e_ikey f <= e_ikey x) (drop (Z.to_nat mid) L).
Proof.
  intros Hs He Hf. pose proof (zlookup_lt _ _ _ He). pose proof (zlookup_lt _ _ _ Hf). split; apply Forall_lookup; intros j x Hx.
  - apply lookup_take_Some in Hx as [Hx Hj]. replace j with (Z.to_nat (Z.of_nat j)) in Hx by lia. rewrite <- zlookup_nonneg in Hx by lia.
    destruct (Z.eq_dec (Z.of_nat j) (mid - 1)) as [Heq|]; [rewrite Heq, He in Hx; by injection Hx as <-|].
    pose proof (SS_zlookup L (Z.of_nat j) (mid - 1) x e Hs ltac:(lia) Hx He) as Hlt. unfold entry_lt in Hlt. lia.
  - rewrite lookup_drop in Hx. replace (Z.to_nat mid + j)%nat with (Z.to_nat (mid + Z.of_nat j)) in Hx by lia.
    rewrite <- zlookup_nonneg in Hx by lia. destruct j as [|j]; [rewrite Z.add_0_r, Hf in Hx; by injection Hx as <-|].
    pose proof (SS_zlookup L mid (mid + Z.of_nat (S j)) f x Hs ltac:(lia) Hf Hx) as Hlt. unfold entry_lt in Hlt. lia.
Qed.

Section split.
Context {N : Layers} (unaligned : bool) (okbuf : Z) (s : state) (B : list (list Z * Z)) (ns : list Z)
  (h : gmap Z node) (kb : list Z) (ka : key) (b : Z) (l : leaf) (r : Z).
Context (Hrep : table_in s B ns) (Hfound : found_at unaligned (kmem s) h (table_root s) kb B ns ka b l)
  (Hlen : len_ ka <= max_key_len).
Context (Hkp : kip_p (Leaf.lower ka l) = -1).
Abbreviation kx := (Leaf.lower ka l).
(** The leaf is locked and marked. *)
Abbreviation sr := (with_heap s (<[b := NLeaf (room_leaf l)]> h)).
Abbreviation cursor kp ov := (mkCursor b ka (mkKip (kip_i kx) kp) r 2 b ov 0 []).

Lemma find_insert_splits :
  ~ (Leaf.size l < leaf_width /\
     (Kpermuter.back leaf_width (permutation_ l) <> 0 \/ prev_ l = 0 \/ Leaf.ikey_bound l = Key.ikey ka)) ->
  exists kp ov, forall fuel cc s0,
    find_locked unaligned fuel cc s0 = Some (mkCursor b ka kx r 0 0 0 0 [], with_heap s (<[b := NLeaf (locked_leaf l)]> h)) ->
    find_insert unaligned fuel okbuf cc s0 = bind (make_split fuel (cursor kp ov)) (fun c => ret (c, false)) sr.
Proof using Hfound Hrep Hkp.
  intros Hno. pose proof (tr_mem _ _ _ Hrep) as Hm.
  destruct (found_view unaligned _ _ _ _ _ _ _ _ _ Hm Hfound (tr_nodup _ _ _ Hrep)) as
    (par & lo & hi & n & esb & Bnb & nso & Hv).
  pose proof (lw_ok _ _ _ _ _ _ _ _ _ _ _ _ _ _ _ _ Hv) as Hlok.
  destruct (room_leaf_eq _ _ _ _ _ Hlok) as (_ & _ & _ & Hrl).
  assert (heap sr !! b = Some (NLeaf (room_leaf l))) as Hl2 by apply lookup_insert_eq.
  exists (if Leaf.size l <? leaf_width then Kpermuter.back leaf_width (permutation_ l) else kip_p kx),
    (Leaf.full_unlocked_version_value (locked_leaf l)).
  intros fuel cc s0 Hfl. unfold find_insert. rewrite (bind_eq _ _ _ _ _ Hfl).
  cbn [n_ ka_ kx_ root_ state_ original_n_ original_v_ updated_v_ new_nodes_].
  unfold leaf_full_unlocked_version. rewrite bind_assoc, (bind_eq _ _ _ _ _ (get_leaf_eq _ _ _ (locked_lookup s h b l))), bind_ret.
  rewrite Hkp. cbn [Z.eqb negb Z.leb Z.compare].
  rewrite (bind_eq _ _ _ _ _ (get_leaf_eq _ _ _ (locked_lookup s h b l))).
  rewrite (bind_eq _ _ _ _ _ (room_mark s h b l par lo hi esb Hlok)).
  rewrite (bind_eq _ _ _ _ _ (get_leaf_eq _ _ _ Hl2)).
  assert (Leaf.size (room_leaf l) = Leaf.size l /\ permutation_ (room_leaf l) = permutation_ l /\
    prev_ (room_leaf l) = prev_ l /\ Leaf.ikey_bound (room_leaf l) = Leaf.ikey_bound l) as (-> & -> & -> & ->)
    by (split_and!; by rewrite Hrl).
  destruct (Z.ltb_spec (Leaf.size l) leaf_width).
  - destruct (negb _ || _ || _) eqn:Hc; [|done]. exfalso. apply Hno. split; [done|].
    rewrite !orb_true_iff, negb_true_iff, Z.eqb_neq, !Z.eqb_eq in Hc. tauto.
  - rewrite <- Hkp. by destruct kx.
Qed.

(** Fewer than 14 entries: another free slot than 0 goes to the back. *)
Lemma rearranged_ready kp ov :
  Leaf.size l < leaf_width - 1 -> Kpermuter.back leaf_width (permutation_ l) = 0 ->
  exists c' s2, ready s2 c' (phantom_epoch_ l) (now_bound kb B) /\
    forall fuel, make_split fuel (cursor kp ov) sr = Some (c', s2).
Proof using Hfound Hrep Hlen Hkp.
  intros Hsize Hback. pose proof (tr_mem _ _ _ Hrep) as Hm.
  assert (key_wf unaligned (kmem s) ka) as Hka by apply Hfound.
  destruct (found_view unaligned _ _ _ _ _ _ _ _ _ Hm Hfound (tr_nodup _ _ _ Hrep)) as
    (par & lo & hi & n & esb & Bnb & nso & Hv).
  pose proof (lw_ok _ _ _ _ _ _ _ _ _ _ _ _ _ _ _ _ Hv) as Hlok.
  destruct (lo_entries _ _ _ _ _ Hlok) as (live & free & Hle).
  destruct (room_leaf_eq _ _ _ _ _ Hlok) as (Hbusy & Hflags & Hnosplit & Hrl).
  destruct (leaf_free_back l live free esb Hle) as [free0 Hfree]; [unfold leaf_width in *; lia|].
  rewrite Hback in Hfree. pose proof (leaf_size _ _ _ _ Hle) as Hsz.
  pose proof (repr_length leaf_width ltac:(done) _ _ _ (le_repr _ _ _ _ Hle)) as Hlen'.
  destruct free0 as [|u f].
  { rewrite Hfree in Hlen'. change (zlength ([] ++ [0])) with 1 in Hlen'. lia. }
  assert (u <> 0) as Hu.
  { pose proof (repr_NoDup leaf_width _ _ _ (le_repr _ _ _ _ Hle)) as Hnd. rewrite Hfree in Hnd.
    apply NoDup_app in Hnd as (_ & _ & Hnd). cbn [app] in Hnd. apply NoDup_cons in Hnd as [Hnd _]. intros ->.
    apply Hnd, elem_of_app. right. by apply list_elem_of_singleton. }
  pose proof (le_repr _ _ _ _ Hle) as Hr. rewrite Hfree in Hr. cbn [app] in Hr.
  destruct (exchange_back _ _ _ _ Hr) as [f' Hx]. rewrite <- Hsz in Hx.
  pose proof (store_permutation_repr leaf_width _ _ _ ltac:(done) Hx) as Hxs.
  set (xs := store_permutation leaf_width _) in Hxs.
  destruct (leaf_view_perm _ _ _ _ _ _ _ _ _ _ _ _ _ _ _ _ _ _ _ _ Hv Hle Hxs) as [Hv2 Hle2].
  set (l2 := Leaf.set_permutation l xs) in *. set (lk := Leaf.set_permutation (room_leaf l) xs).
  destruct (leaf_lower_spec l live free esb Hle ka) as [(_ & la & lb & -> & Hi & Habove & Hbelow)|(Hr' & _)];
    [|rewrite Hkp in Hr'; lia].
  assert (lk = Leaf.set_modstate (Leaf.set_version l2 (lversion lk)) modstate_insert) as Hlk
    by (unfold lk; by rewrite Hrl).
  destruct (insert_room_at unaligned (kmem s) _ _ kb B ns ka b l2 par lo hi n esb Bnb nso Hm Hka Hv2 lk 0 la lb f' u Hle2
    Habove Hbelow Hlen (or_introl Hu) Hlk) as (l1 & _ & Hassign & _ & Hs1 & _).
  exists (cursor u ov), (with_heap s (<[b := NLeaf l1]> h)). split.
  - split; [exists l1; split; [apply lookup_insert_eq|by rewrite (sl_phantom _ _ Hs1), Hlk]|]. intros v.
    destruct (insert_room_at unaligned (kmem s) _ _ kb B ns ka b l2 par lo hi n esb Bnb nso Hm Hka Hv2 lk v la lb f' u Hle2
      Habove Hbelow Hlen (or_introl Hu) Hlk) as (l1' & l3 & Hassign' & Hset & _ & Hs3 & Hreb).
    rewrite Hassign in Hassign'. injection Hassign' as <-. rewrite Hi in Hreb.
    assert (lversion l3 = lversion (room_leaf l)) as Hv3 by by rewrite (sl_version _ _ Hs3).
    eexists _, _. split; [by eapply set_value_eq; [apply lookup_insert_eq|]|]. split.
    + intros fuel'. eapply finish_new; [done|apply lookup_insert_eq|by rewrite Hv3|].
      cbn [kx_ kip_p]. rewrite (sl_permutation _ _ Hs3). by eapply back_repr.
    + destruct (unlock_quiet _ Hbusy) as (Hq & Hul & Hur).
      cbn [n_ kx_ kip_i heap with_heap]. rewrite !insert_insert_eq.
      apply (rebound_in_place s B ns (<[b := NLeaf (Leaf.set_version (finish_perm l3 (kip_i kx))
        (Nodeversion.unlock NV (lversion l3)))]> h)); [done|].
      rewrite Hv3. specialize (Hreb (Nodeversion.unlock NV (lversion (room_leaf l))) Hq). rewrite insert_insert_eq in Hreb.
      apply Hreb. destruct Hflags as [Hf1 Hf2]. unfold same_flags. cbn [lversion l2 Leaf.set_permutation].
      rewrite Hul, Hur, Hnosplit, Hf1, Hf2. by rewrite andb_true_r.
  - intros fuel. assert (heap sr !! b = Some (NLeaf (room_leaf l))) as Hl2 by apply lookup_insert_eq.
    unfold make_split. cbn [n_]. rewrite (bind_eq _ _ _ _ _ (get_leaf_eq _ _ _ Hl2)).
    assert (Leaf.size (room_leaf l) = Leaf.size l /\ Leaf.permutation (room_leaf l) = permutation_ l) as [-> ->]
      by (split; by rewrite Hrl).
    destruct (Z.ltb_spec (Leaf.size l) leaf_width); [|lia].
    change (Kpermuter.size (permutation_ l)) with (Leaf.size l). rewrite (back_repr _ _ _ _ Hx).
    destruct (Z.eqb_spec u 0); [done|]. cbn [negb n_ ka_ kx_ kip_i root_ state_ original_n_ original_v_ updated_v_ new_nodes_].
    rewrite !bind_assoc, bind_gets. fold xs. rewrite !bind_assoc, (bind_eq _ _ _ _ _ (update_leaf_eq _ _ _ _ Hl2)).
    rewrite !bind_assoc. erewrite bind_eq by (eapply try_update_leaf_eq; [apply lookup_insert_eq|exact Hassign]).
    rewrite !bind_ret. unfold ret, with_heap. cbn. by rewrite !insert_insert_eq.
Qed.

(** ** Two leaves *)
Section cut.
Context (p : Z) (d : nat) (par lo hi : Z) (n : nat) (es1 esb es2 : list entry) (lns : list Z)
  (Bns1 Bnb Bns2 : list (list (list Z * Z) * list Z)) (nso : list Z).
Context (Hlf : leaf_at n h p (Key.ikey0_ ka) b l d p par lo hi es1 esb es2 lns Bns1 Bnb Bns2)
  (Hns : ns ≡ₚ nso ++ lns) (Hndo : NoDup (nso ++ lns))
  (Hrepl : forall h' r' d' esb' Bnb' lns' v, agree h h' nso -> climbs h' lns' p r' ->
    node_rep d' h' 0 r' 0 (2 ^ ikey_bits) (es1 ++ esb' ++ es2) lns' -> linked h' 0 (leaves h' lns') ->
    Forall2 (entry_rep (layer_rep n h)) esb' Bnb' -> nodes Bnb' = nodes Bnb ->
    updated (key_bytes (kmem s) ka) v (binds Bnb) (binds Bnb') -> rebound h' (table_root s) kb v B (nso ++ lns')).
Context (la lb free : list Z) (Hle : leaf_entries l (la ++ lb) free esb) (Hi : zlength la = kip_i kx)
  (Ha : Find.above l ka la) (Hb : Find.below l ka lb) (Hfull : leaf_width - 1 <= Leaf.size l)
  (Hslot : prev_ l <> 0 -> Leaf.size l = leaf_width \/ 0 ∈ free)
  (Hback : Leaf.size l < leaf_width -> Kpermuter.back leaf_width (permutation_ l) = 0).
Abbreviation rl := (room_leaf l).
Abbreviation c0 := (next_fresh s).
Abbreviation E v := (entries_with (kmem s) ka rl la lb v).

Lemma layer_root : p ∈ lns.
Proof using Hlf. exact (climbs_in _ _ _ _ (lf_climbs _ _ _ _ _ _ _ _ _ _ _ _ _ _ _ _ _ _ Hlf)). Qed.

Lemma cut_facts : leaf_ok par lo hi l esb /\ key_wf unaligned (kmem s) ka /\ mem_bytes (kmem s) /\
  (forall a, a ∈ lns -> 0 < a < c0 /\ a mod 64 = 0) /\ NoDup lns /\ 0 < c0 /\
  (exists ln, next_ l <> 0 -> h !! next_ l = Some (NLeaf ln)).
Proof using Hrep Hfound Hlf Hns Hndo.
  pose proof (lf_focus _ _ _ _ _ _ _ _ _ _ _ _ _ _ _ _ _ _ Hlf) as Hf.
  assert (forall a, a ∈ lns -> 0 < a < c0 /\ a mod 64 = 0) as Hal.
  { intros a Hin. apply (tr_addr _ _ _ Hrep). rewrite Hns. apply elem_of_app. by right. }
  pose proof (fc_in _ _ _ _ _ _ _ _ _ _ _ _ _ _ _ _ _ Hf) as Hin. pose proof (Hal b Hin) as [? _].
  split_and!; try done; try lia; [apply Hf|apply Hfound|apply Hrep|by apply NoDup_app in Hndo as (_ & _ & ?)|].
  destruct (start_list _ _ _ _ _ _ _ _ _ _ _ _ _ (lf_linked _ _ _ _ _ _ _ _ _ _ _ _ _ _ _ _ _ _ Hlf) Hf) as (LS1 & LS2 & _ & Hnx & Hpv).
  destruct LS2 as [|a LS2]; cbn [hd] in Hnx.
  - exists (locked_leaf l). intros Hne. by rewrite Hnx in Hne.
  - destruct (Hpv a LS2 eq_refl) as (ln & Hln & _). exists ln. by rewrite Hnx.
Qed.

(** The entries of the marked leaf are the leaf's. *)
Lemma room_entries : leaf_entries rl (la ++ lb) free esb /\ (forall q, slot_entry rl q = slot_entry l q) /\
  Leaf.size rl = Leaf.size l /\ Find.above rl ka la /\ Find.below rl ka lb /\ modstate_ rl = modstate_insert /\
  next_ rl = next_ l /\ prev_ rl = prev_ l /\ lparent_ rl = par /\ phantom_epoch_ rl = phantom_epoch_ l /\
  busy (lversion rl) /\ Nodeversion.isleaf NV (lversion rl) = true.
Proof using Hrep Hfound Hlf Hns Hndo Hle Ha Hb.
  destruct cut_facts as (Hlok & _). destruct (room_leaf_eq _ _ _ _ _ Hlok) as (Hbusy & [Hfl _] & _ & Hrl).
  rewrite Hrl. cbn [next_ prev_ lparent_ phantom_epoch_ modstate_ Leaf.set_modstate Leaf.set_version lversion].
  split_and!; try done; [|apply Hlok|rewrite Hfl; apply Hlok]. destruct Hle as [[? ? ? ?] ? ? ? ?]. by split.
Qed.

(** The only free slot is 0: there is nothing to rearrange. *)
Lemma no_other_slot : Leaf.size l < leaf_width ->
  Kpermuter.back leaf_width (Kpermuter.exchange leaf_width (permutation_ l) (Leaf.size l) (leaf_width - 1)) = 0.
Proof using Hle Hfull Hback.
  intros Hsize. destruct (leaf_free_back l _ free esb Hle) as [free0 Hfree]; [unfold leaf_width in *; lia|].
  rewrite (Hback Hsize) in Hfree. pose proof (leaf_size _ _ _ _ Hle) as Hsz. pose proof (le_repr _ _ _ _ Hle) as Hr.
  pose proof (repr_length leaf_width ltac:(done) _ _ _ Hr) as Hlen'. rewrite Hfree, (zlength_app free0) in Hlen'.
  change (zlength [0]) with 1 in Hlen'. pose proof (zlength_nonneg free0).
  destruct free0 as [|u f]; [|rewrite zlength_cons in Hlen'; pose proof (zlength_nonneg f); unfold leaf_width in *; lia].
  rewrite Hfree in Hr. destruct (exchange_back _ _ _ _ Hr) as [f' Hx]. rewrite <- Hsz in Hx. by eapply back_repr.
Qed.

(** The state in which [make_split] enters its loop. *)
Record cut (nr ln : leaf) (mid ty : Z) (f : entry) : Prop := {
  ct_version : lversion nr = lversion rl;
  ct_modstate : modstate_ nr = modstate_insert;
  ct_epoch : phantom_epoch_ nr = phantom_epoch_ l;
  ct_next : next_ l <> 0 -> h !! next_ l = Some (NLeaf ln);
  ct_mid : 1 <= mid <= Leaf.size rl;
  ct_sep : zlookup (E 0) mid = Some f /\ exists e, zlookup (E 0) (mid - 1) = Some e /\ e_ikey e < e_ikey f;
  ct_arrays : leaf_arrays nr;
  ct_items : forall j, 0 <= j < Leaf.size rl + 1 - mid -> zlookup (E 0) (mid + j) = Some (slot_entry nr j);
  ct_type : exists free',
    zlength la < mid /\ ty = 0 /\ repr leaf_width (permutation_ nr) (seqZ 0 (Leaf.size rl + 1 - mid)) free' \/
    mid <= zlength la /\ ty <> 0 /\ repr leaf_width (permutation_ nr)
      (seqZ 0 (zlength la - mid) ++ seqZ (zlength la - mid + 1) (Leaf.size rl - zlength la)) (free' ++ [zlength la - mid]) }.

Lemma cut_run kp ov : exists nr ln mid ty f kp', cut nr ln mid ty f /\
  forall fuel, make_split (S fuel) (cursor kp ov) sr =
    split_loop (S fuel) b c0 (e_ikey f) 0 ty (cursor kp' ov) (at_heap s (started h s b rl nr ln) (c0 + 64)).
Proof using Hrep Hfound Hlf Hns Hndo Hle Ha Hb Hlen Hi Hfull Hback.
  destruct cut_facts as (Hlok & Hka & Hm & Haddr & Hnd & Hfr & ln & Hln).
  destruct room_entries as (Hle' & _ & Hsz & Ha' & Hb' & Hms & Hnx & Hpv & Hpar & Hph & Hbusy & Hleafb).
  destruct (make_blank (Leaf.ksuf_used_capacity rl) (phantom_epoch_ l)) as (bl & Hmk & [Hble _ Hblm (_ & _ & _) Hble']);
    [apply ksuf_used_nonneg, Hle'|].
  set (nr0 := Leaf.set_version bl (lversion rl)).
  assert (leaf_arrays nr0) as Harr0 by (destruct (le_arrays _ _ _ _ Hble) as [? ? ? ?]; by split).
  destruct (split_into_spec unaligned (kmem s) ka rl la lb free esb Hm Hka Hlen Hle' Ha' Hb' ltac:(by rewrite Hsz) nr0 Harr0 Hblm) as
    (nr1 & x & mid & ty & e & f & free' & Hrun & Hmid & He & Hf & Hlt & Harr & Hs & Hitems & Htype). cbv zeta in Hrun, Harr, Hitems.
  set (nr := Leaf.set_permutation nr1 x) in *.
  assert (lversion nr = lversion rl) as Hv by apply Hs.
  exists nr, ln, mid, ty, f, (if Leaf.size l <? leaf_width then 0 else kp). split.
  { split; try done.
    - cbn. by rewrite (sl_modstate _ _ Hs).
    - cbn. by rewrite (sl_phantom _ _ Hs).
    - split; [done|]. by exists e.
    - exists free'. exact Htype. }
  intros fuel. assert (heap sr !! b = Some (NLeaf rl)) as Hb1 by apply lookup_insert_eq.
  assert (b <> c0) as Hbc.
  { intros Heq. destruct (Haddr b); [apply Hlf|]. lia. }
  assert (Leaf.permutation rl = permutation_ l) as Hperm by (destruct (room_leaf_eq _ _ _ _ _ Hlok) as (_ & _ & _ & ->); done).
  unfold make_split. cbn [n_]. rewrite (bind_eq _ _ _ _ _ (get_leaf_eq _ _ _ Hb1)).
  match goal with |- bind ?a _ _ = _ =>
    assert (a sr = Some ((false, cursor (if Leaf.size l <? leaf_width then 0 else kp) ov), sr)) as Hre end.
  { rewrite Hsz, Hperm. destruct (Z.ltb_spec (Leaf.size l) leaf_width); [|done].
    change (Kpermuter.size (permutation_ l)) with (Leaf.size l). by rewrite no_other_slot. }
  rewrite (bind_eq _ _ _ _ _ Hre). rewrite Hph, (bind_lift _ _ _ _ Hmk), (bind_eq _ _ _ _ _ (allocate_eq sr _)).
  change (next_fresh sr) with c0. set (s1 := at_heap sr _ _).
  assert (heap s1 !! b = Some (NLeaf rl)) as Hb2 by (cbn; rewrite lookup_insert_ne by done; apply lookup_insert_eq).
  rewrite (bind_eq _ _ _ _ _ (version_eq _ _ _ Hb2)).
  erewrite bind_eq by (apply set_version_eq; cbn; apply lookup_insert_eq). cbn [node_set_version node_version]. fold nr0.
  set (s2 := with_heap s1 _).
  assert (heap s2 !! b = Some (NLeaf rl)) as Hb3 by (cbn; rewrite !lookup_insert_ne by done; apply lookup_insert_eq).
  assert (heap s2 !! c0 = Some (NLeaf nr0)) as Hc3 by apply lookup_insert_eq.
  match goal with |- context [leaf_split_into ?F ?n ?d ?C] =>
    assert (leaf_split_into F n d C s2 = Some ((e_ikey f, ty), at_heap s (started h s b rl nr ln) (c0 + 64))) as Hsplit;
    [|exact (bind_eq _ _ _ _ _ Hsplit)] end.
  unfold leaf_split_into.
  rewrite (require_locked_eq _ _ _ _ _ Hb3 Hbusy), (require_locked_eq _ _ _ _ _ Hc3) by exact Hbusy.
  rewrite bind_gets, (bind_eq _ _ _ _ _ (get_leaf_eq _ _ _ Hb3)), (bind_eq _ _ _ _ _ (get_leaf_eq _ _ _ Hc3)).
  cbn [kx_ kip_i ka_ kmem s2 with_heap s1 at_heap]. rewrite <- Hi, (bind_lift _ _ _ _ Hrun).
  rewrite (bind_eq _ _ _ _ _ (put_leaf_eq _ _ _)).
  destruct (start_next _ s _ _ _ _ _ _ _ _ _ _ _ _ (lf_linked _ _ _ _ _ _ _ _ _ _ _ _ _ _ _ _ _ _ Hlf)
    (lf_focus _ _ _ _ _ _ _ _ _ _ _ _ _ _ _ _ _ _ Hlf) Hnd Haddr ln Hln) as [Hal Hnxt].
  assert (heap (with_heap s2 (<[c0 := NLeaf nr]> (heap s2))) = <[c0 := NLeaf nr]> (<[b := NLeaf rl]> h)) as Hh3
    by (cbn; by rewrite !insert_insert_eq).
  erewrite bind_eq by (apply (link_split_run fuel _ b c0 rl nr ln); rewrite ?Hh3, ?Hnx; [| |done|done|];
    [by rewrite lookup_insert_ne, lookup_insert_eq by done|by rewrite lookup_insert_eq|];
    intros Hne; destruct (Hnxt Hne) as (_ & ? & ? & _); split_and!; [|done|done]; rewrite !lookup_insert_ne by done; by apply Hln).
  by rewrite Hh3.
Qed.

(** The pair linked into the tree: a table with the new entry. *)
Lemma linked_bound nr ln mid ty f ns1 ns2 lf1 lf2 v s' k' L sf :
  cut nr ln mid ty f -> lns = ns1 ++ b :: ns2 ->
  linked_up b c0 lf1 lf2 (at_heap s (started h s b rl nr ln) (c0 + 64)) (ns1 ++ ([b] ++ [c0]) ++ ns2) (es1 ++ E v ++ es2)
    (leaves h ns1 ++ b :: c0 :: leaves h ns2) p s' k' L ->
  (forall a, a ∈ L -> a = b \/ a = c0) -> sf = with_heap s' (settled b c0 lf1 lf2 L (heap s')) -> now_bound kb B v sf.
Proof using Hrep Hfound Hlf Hns Hndo Hle Ha Hb Hlen Hrepl.
  intros Hct Hsplit [(D & root & ns' & Hnode & Hleaves & [Hs' Hns' Hother] & [Hp Hpt] & Hlinked)] HL ->.
  destruct cut_facts as (Hlok & Hka & Hm & Haddr & Hnd & Hfr & _).
  destruct room_entries as (Hle' & _ & _ & Ha' & Hb' & _ & Hnx & _).
  set (s1 := at_heap s _ (c0 + 64)) in *. set (h' := settled b c0 lf1 lf2 L (heap s')) in *.
  assert (ns' ≡ₚ lns ++ fresh c0 (S k')) as Hperm.
  { rewrite Hns', fresh_cons, Hsplit. change (next_fresh s1) with (c0 + 64). solve_Permutation. }
  assert (b ∈ lns) as Hbl by apply Hlf.
  assert (forall a, a ∈ ns' -> 0 < a) as Hpos.
  { intros a. rewrite Hperm, elem_of_app. intros [?%Haddr|?%fresh_range]; lia. }
  apply (rebound_fresh s _ B ns h' kb v (S k') Hrep); [|done|rewrite Hs'; cbn; lia|by rewrite Hs'|by rewrite Hs'].
  destruct (entries_put unaligned (kmem s) ka Hm Hka (layer_rep n h) rl la lb v Bnb) as (Bnb' & He & Hnn & Hu); try done.
  { rewrite <- (le_es _ _ _ _ Hle'). apply Hle'. }
  { rewrite <- (le_es _ _ _ _ Hle'). apply Hlf. }
  destruct (Hrepl h' root D (E v) Bnb' ns' (Some v)) as (B' & ns'' & H1 & H2 & H3); try done.
  - intros a Hin. destruct (tr_addr _ _ _ Hrep a) as [? _]; [rewrite Hns; apply elem_of_app; by left|].
    assert (a ∉ lns) as Hal by (apply NoDup_app in Hndo as (_ & Hd & _); by apply Hd).
    assert (a <> b) as Hab by (by intros ->). assert (a <> c0) as Hac by lia.
    unfold h'. rewrite settled_out by (intros [?|?]%HL; done). rewrite Hother.
    + cbn. destruct (start_next _ s _ _ _ _ _ _ _ _ _ _ _ _ (lf_linked _ _ _ _ _ _ _ _ _ _ _ _ _ _ _ _ _ _ Hlf)
        (lf_focus _ _ _ _ _ _ _ _ _ _ _ _ _ _ _ _ _ _ Hlf) Hnd Haddr ln (ct_next _ _ _ _ _ Hct)) as [_ Hnxt].
      erewrite started_lookup; [|apply Hlf|apply Hlf|done..|apply Hct].
      rewrite !decide_False; [done| |done|done]. intros [-> Hne]. destruct (Hnxt Hne) as [? _]. done.
    + rewrite Hperm, elem_of_app. intros [?|?%fresh_range]; [done|lia].
  - assert (exists nd, h' !! p = Some nd /\ (p = root \/ Nodeversion.is_root NV (node_version nd) = false /\ node_parent nd = root)) as (nd & Hnd' & Hor).
    { destruct Hpt as [->|(nd & ? & ?)]; [|exists nd; tauto].
      destruct D as [|D]; [done|]. cbn [node_rep] in Hnode.
      destruct Hnode as [(? & ? & _)|(? & ? & ? & _)]; eexists; (split; [done|by left]). }
    eapply node_climbs; try done. intros a Hin%Hpos. lia.
  - by rewrite Hleaves.
  - exists B', ns''. split_and!; [done..|]. rewrite H3, Hperm, Hns. solve_Permutation.
Qed.

(** The ranges of the two leaves. *)
Lemma cut_range nr ln mid ty f v : cut nr ln mid ty f ->
  Forall (fun e => lo <= e_ikey e < e_ikey f) (take (Z.to_nat mid) (E v)) /\
  Forall (fun e => e_ikey f <= e_ikey e < hi) (drop (Z.to_nat mid) (E v)) /\ lo < e_ikey f < hi.
Proof using Hrep Hfound Hlf Hns Hndo Hle Ha Hb Hlen.
  intros Hct. destruct cut_facts as (Hlok & Hka & Hm & _). destruct room_entries as (Hle' & _ & _ & Ha' & Hb' & _).
  destruct (entries_with_ok unaligned (kmem s) ka rl la lb free esb Hm Hka Hlen Hle' Ha' Hb' v) as [_ Hs].
  assert (Forall (fun e => lo <= e_ikey e < hi) (E v)) as Hrange.
  { pose proof (lo_range _ _ _ _ _ Hlok) as Hr. rewrite (le_es _ _ _ _ Hle'), map_app, Forall_app in Hr. unfold entries_with.
    rewrite Forall_app, Forall_cons, key_entry_ikey. split_and!; [tauto| | |tauto]; apply (lf_focus _ _ _ _ _ _ _ _ _ _ _ _ _ _ _ _ _ _ Hlf). }
  assert (forall j e, zlookup (E 0) j = Some e -> exists e', zlookup (E v) j = Some e' /\ e_ikey e' = e_ikey e) as Hat.
  { intros j e He. rewrite (entries_at (kmem s) ka rl la lb v). destruct (Z.eqb_spec j (zlength la)) as [->|]; [|by exists e].
    rewrite (entries_at (kmem s) ka rl la lb 0), Z.eqb_refl in He. injection He as <-.
    eexists. split; [done|]. by rewrite !key_entry_ikey. }
  destruct (ct_sep _ _ _ _ _ Hct) as (Hf & e & He & Hlt). destruct (Hat _ _ Hf) as (f' & Hf' & Ef). destruct (Hat _ _ He) as (e' & He' & Ee).
  destruct (sorted_cut (E v) mid e' f' Hs He' Hf') as [H1 H2]. rewrite <- Ef.
  pose proof (proj1 (Forall_zlookup _ _) Hrange _ _ He') as Hre. pose proof (proj1 (Forall_zlookup _ _) Hrange _ _ Hf') as Hrf. cbn in Hre, Hrf.
  rewrite <- (take_drop (Z.to_nat mid) (E v)) in Hrange. apply Forall_app in Hrange as [Hr1 Hr2].
  split_and!; [| |lia|lia].
  - eapply Forall_impl; [exact (proj2 (Forall_and _ _) (conj H1 Hr1))|]. cbn. intros x. lia.
  - eapply Forall_impl; [exact (proj2 (Forall_and _ _) (conj H2 Hr2))|]. cbn. intros x. lia.
Qed.

(** The leaves before the loop. *)
Abbreviation xb := (Leaf.set_links rl c0 (prev_ rl)).
Abbreviation xc nr := (Leaf.set_links nr (next_ rl) b).
Abbreviation st1 nr ln := (at_heap s (started h s b rl nr ln) (c0 + 64)).
Abbreviation lleaves ns1 ns2 := (leaves h ns1 ++ b :: c0 :: leaves h ns2).
Abbreviation base ns1 ns2 := (ns1 ++ ([b] ++ [c0]) ++ ns2).

Lemma cut_pending nr ln mid ty f : cut nr ln mid ty f ->
  exists anc ns1 ns2, lns = ns1 ++ b :: ns2 /\ NoDup (base ns1 ns2) /\
    (forall a, a ∈ base ns1 ns2 -> 0 < a < next_fresh (st1 nr ln)) /\ 0 < next_fresh (st1 nr ln) /\
    forall lf1 lf2 v, halves s b l lo hi rl lf1 lf2 (e_ikey f) (take (Z.to_nat mid) (E v)) (drop (Z.to_nat mid) (E v)) ->
      pending b c0 lf1 lf2 (st1 nr ln) (base ns1 ns2) (es1 ++ E v ++ es2) (lleaves ns1 ns2) p (st1 nr ln) 0 [b; c0] p anc par b lo hi
        es1 es2 ns1 ns2 1 (take (Z.to_nat mid) (E v)) [b] c0 (e_ikey f) 1 (drop (Z.to_nat mid) (E v)) [c0] (NLeaf xb) (NLeaf (xc nr)).
Proof using Hrep Hfound Hlf Hns Hndo Hle Ha Hb.
  intros Hct. destruct cut_facts as (Hlok & Hka & Hm & Haddr & Hnd & Hfr & _).
  destruct room_entries as (_ & _ & _ & _ & _ & _ & Hnx & Hpv & Hpar & _ & Hbusy & _).
  destruct (pending_start h s _ b l d p par lo hi es1 esb es2 lns
    (lf_linked _ _ _ _ _ _ _ _ _ _ _ _ _ _ _ _ _ _ Hlf) (lf_focus _ _ _ _ _ _ _ _ _ _ _ _ _ _ _ _ _ _ Hlf) Hnd Haddr Hfr
    rl nr ln Hnx Hpv Hpar Hbusy (ct_version _ _ _ _ _ Hct) (ct_next _ _ _ _ _ Hct) p layer_root eq_refl) as (anc & ns1 & ns2 & H1 & H2 & H3 & H4).
  exists anc, ns1, ns2. split_and!; [done..|cbn; lia|]. intros lf1 lf2 v Hv. specialize (H4 _ _ _ _ _ Hv).
  by rewrite take_drop in H4.
Qed.

Lemma cut_busy : busy (Nodeversion.mark_split NV (lversion rl)) /\ quiet (Nodeversion.unlock NV (lversion rl)) /\
  Nodeversion.isleaf NV (Nodeversion.unlock NV (lversion rl)) = true /\
  quiet (Nodeversion.unlock NV (Nodeversion.mark_split NV (lversion rl))) /\
  Nodeversion.isleaf NV (Nodeversion.unlock NV (Nodeversion.mark_split NV (lversion rl))) = true.
Proof using Hrep Hfound Hlf Hns Hndo Hle Ha Hb.
  destruct room_entries as (_ & _ & _ & _ & _ & _ & _ & _ & _ & _ & Hbusy & Hleaf).
  destruct (mark_split_busy _ Hbusy) as (Hbs & [Hf _] & _). destruct (unlock_quiet _ Hbs) as (H1 & H2 & _).
  destruct (unlock_quiet _ Hbusy) as (H3 & H4 & _). split_and!; congruence.
Qed.

Lemma right_bound nr ln mid ty f : cut nr ln mid ty f -> Leaf.ikey nr 0 = e_ikey f.
Proof using Type.
  intros Hct. pose proof (ct_items _ _ _ _ _ Hct 0) as H0. pose proof (ct_mid _ _ _ _ _ Hct).
  rewrite Z.add_0_r, (proj1 (ct_sep _ _ _ _ _ Hct)) in H0. specialize (H0 ltac:(lia)). by injection H0 as ->.
Qed.

(** ** The new key in the left leaf *)
Section left.
Context (nr ln : leaf) (mid ty : Z) (f : entry) (Hct : cut nr ln mid ty f) (Hleft : zlength la < mid).
Abbreviation lk := (Leaf.set_permutation xb (store_permutation leaf_width (stripped (permutation_ xb) (mid - 1)))).

Lemma left_type : ty = 0 /\ Leaf.size xb - Leaf.size (xc nr) = mid - 1 /\
  exists free', repr leaf_width (permutation_ nr) (seqZ 0 (Leaf.size rl + 1 - mid)) free'.
Proof using Hct Hleft.
  destruct (ct_type _ _ _ _ _ Hct) as (free' & [(_ & H1 & H2)|(? & _)]); [|lia]. split_and!; [done| |by exists free'].
  change (Leaf.size (xc nr)) with (Kpermuter.size (permutation_ nr)). rewrite (repr_size _ _ _ _ H2), zlength_seqZ.
  - change (Leaf.size xb) with (Leaf.size rl). lia.
  - pose proof (ct_mid _ _ _ _ _ Hct). lia.
Qed.

Lemma left_spec : exists q l1, q = Kpermuter.back leaf_width (stripped (permutation_ xb) (mid - 1)) /\
  Leaf.assign (kmem s) lk q ka = Some l1 /\ same_leaf lk l1 /\ forall v, exists l2, set_lv q v l1 = Some l2 /\
    same_leaf lk l2 /\ Kpermuter.back leaf_width (permutation_ l2) = q /\
    halves s b l lo hi rl (finish_perm l2 (zlength la)) (xc nr) (e_ikey f) (take (Z.to_nat mid) (E v)) (drop (Z.to_nat mid) (E v)).
Proof using Hct Hleft Hrep Hfound Hlf Hns Hndo Hle Ha Hb Hlen Hfull Hslot.
  destruct cut_facts as (Hlok & Hka & Hm & Haddr & Hnd & Hfr & _).
  destruct room_entries as (Hle' & Hsl & Hsz & Ha' & Hb' & Hms & Hnx & Hpv & Hpar & _ & Hbusy & _).
  destruct cut_busy as (_ & Hq2 & Hlf2 & Hq1 & Hlf1). destruct left_type as (_ & _ & freer & Hright).
  pose proof (ct_mid _ _ _ _ _ Hct) as Hmid. destruct (le_arrays _ _ _ _ Hle') as [A1 A2 A3 A4].
  assert (leaf_arrays lk) as Hlka by by split. assert (modstate_ lk <> modstate_remove) as Hlkm by (cbn; by rewrite Hms).
  assert (leaf_width - 1 <= Leaf.size rl) as Hfull' by by rewrite Hsz.
  pose proof (fun v : Z => left_assigned unaligned (kmem s) ka rl la lb free esb Hm Hka Hlen Hle' Ha' Hb' Hfull' lk mid v
    Hleft (proj2 Hmid) Hlka (fun q => eq_refl) Hlkm eq_refl) as Hass.
  destruct (Hass 0) as (q & l1 & _ & _ & _ & Hbk & Hbk' & Hl1 & _ & Hs1 & _). exists q, l1. split_and!; [done..|].
  intros v. destruct (Hass v) as (q' & l1' & l2 & live & free' & Hbk2 & _ & Hl1' & Hset & _ & Hs2 & Hik & Hq0 & Hle2).
  rewrite Hbk in Hbk2. rewrite <- Hbk2 in *. rewrite Hl1 in Hl1'. injection Hl1' as <-.
  exists l2. split_and!; [done..|by rewrite (sl_permutation _ _ Hs2)|].
  destruct (cut_range nr ln mid ty f v Hct) as (R1 & R2 & R3). split; try done.
  - intros q2 Hq2'. eapply half_ok; try done.
    + change (prev_ (finish_perm l2 (zlength la))) with (prev_ l2). rewrite (sl_prev _ _ Hs2). cbn. rewrite Hpv. intros Hne.
      pose proof (lo_bound _ _ _ _ _ Hlok Hne) as Hbd. unfold Leaf.ikey_bound in *. change (Leaf.ikey l2 0 = lo).
      assert (q <> 0) as Hq.
      { apply (Hq0 lo hi); [|apply Hlok|rewrite Hsz; by apply Hslot]. specialize (Hsl 0). unfold slot_entry in Hsl. by injection Hsl as -> _. }
      rewrite Hik by done. specialize (Hsl 0). unfold slot_entry in Hsl. change (Leaf.ikey lk 0) with (Leaf.ikey rl 0). by injection Hsl as -> _.
    + change (modstate_ (finish_perm l2 (zlength la))) with (modstate_ l2). by rewrite (sl_modstate _ _ Hs2).
  - intros q2 Hq2'. eapply half_ok; try done.
    + apply (right_moved unaligned (kmem s) ka rl la lb free esb Hm Hka Hlen Hle' Ha' Hb' Hfull' (xc nr) mid freer v); try done;
        [by destruct (ct_arrays _ _ _ _ _ Hct)|apply (ct_items _ _ _ _ _ Hct)].
    + intros _. by eapply (right_bound nr).
    + apply (ct_modstate _ _ _ _ _ Hct).
  - cbn. by rewrite (sl_next _ _ Hs2), (sl_prev _ _ Hs2).
Qed.

Lemma left_ready kp ov : exists F c' s2, ready s2 c' (phantom_epoch_ l) (now_bound kb B) /\
  forall fuel, (F <= fuel)%nat -> split_loop fuel b c0 (e_ikey f) 0 ty (cursor kp ov) (st1 nr ln) = Some (c', s2).
Proof using Hct Hleft Hrep Hfound Hlf Hns Hndo Hle Ha Hb Hlen Hi Hfull Hslot Hrepl.
  destruct left_spec as (q & l1 & Hq & Hl1 & Hs1 & Hspec). destruct left_type as (Hty & Hkeep & _).
  destruct (cut_pending nr ln mid ty f Hct) as (anc & ns1 & ns2 & Hsplit & Hbase & Haddr & Hfr & Hpend).
  destruct cut_busy as (Hbs & _).
  destruct room_entries as (_ & _ & _ & _ & _ & _ & _ & _ & _ & Hph & _ & Hleafb).
  assert (forall v l2, halves s b l lo hi rl (finish_perm l2 (zlength la)) (xc nr) (e_ikey f) (take (Z.to_nat mid) (E v)) (drop (Z.to_nat mid) (E v)) ->
    exists c' s' k' r', (forall fuel, (length anc + 2 <= fuel)%nat -> split_loop fuel b c0 (e_ikey f) 0 ty (cursor kp ov) (st1 nr ln) = Some (c', s')) /\
      linked_up b c0 (finish_perm l2 (zlength la)) (xc nr) (st1 nr ln) (base ns1 ns2) (es1 ++ E v ++ es2) (lleaves ns1 ns2) p s' k' [b] /\
      heap s' !! b = Some (NLeaf (header l1 (Nodeversion.mark_split NV (lversion rl)) r')) /\
      n_ c' = b /\ kx_ c' = mkKip (kip_i kx) q /\ state_ c' = 2) as Hloop.
  { intros v l2 Hv. pose proof (Hpend _ _ _ Hv) as Hpd.
    destruct (split_loop_left _ _ _ _ _ _ _ _ _ Hbase Haddr Hfr _ _ _ _ _ _ _ _ _ _ _ _ _ _ _ _ _ _ Hpd (cursor kp ov) ty eq_refl Hleafb 0 l1)
      as (c' & s' & k' & r' & H1 & H2 & H3 & H4 & H5 & H6); [done|done|by rewrite Hkeep, <- Hq|].
    rewrite Hkeep in H5. exists c', s', k', r'. split_and!; try done. rewrite H5. by rewrite Hq. }
  destruct (Hspec 0) as (l20 & _ & _ & _ & Hv0). destruct (Hloop 0 l20 Hv0) as (c' & s' & k' & r' & Hrun & _ & Hlb & Hn & Hkx & Hst2).
  exists (length anc + 2)%nat, c', s'. split; [|done]. split.
  { exists (header l1 (Nodeversion.mark_split NV (lversion rl)) r'). rewrite Hn. split; [done|]. cbn. by rewrite (sl_phantom _ _ Hs1), <- Hph. }
  intros v. destruct (Hspec v) as (l2 & Hset & Hs2 & Hbk & Hv). destruct (Hloop v l2 Hv) as (c2 & s2 & k2 & r2 & Hrun2 & Hlu & _).
  pose proof (Hrun (length anc + 2)%nat ltac:(lia)) as E1. rewrite (Hrun2 (length anc + 2)%nat) in E1 by lia. injection E1 as -> ->.
  assert (set_lv q v (header l1 (Nodeversion.mark_split NV (lversion rl)) r') = Some (header l2 (Nodeversion.mark_split NV (lversion rl)) r')) as Hset'.
  { unfold set_lv in *. change (lv_ (header l1 (Nodeversion.mark_split NV (lversion rl)) r')) with (lv_ l1). destruct (wr (lv_ l1) q v); [|done].
    cbn [mbind option_bind] in *. by injection Hset as <-. }
  eexists _, _. split; [eapply set_value_eq; rewrite ?Hn, ?Hkx; [done|exact Hset']|]. split.
  { intros fuel. apply finish_new; [done|rewrite Hn; apply lookup_insert_eq|done|by rewrite Hkx]. }
  eapply (linked_bound nr ln mid ty f ns1 ns2 _ _ v s' k2 [b] _ Hct Hsplit Hlu); [intros a ->%list_elem_of_singleton; by left|].
  rewrite Hn, Hkx. unfold with_heap. cbn [heap next_fresh limbo callbacks table_root kmem]. f_equal.
  rewrite insert_insert_eq. symmetry. apply (settled_single _ _ _ _ _ _ _ _ Hlb).
  cbn [settle]. rewrite Z.eqb_refl. cbn [header Leaf.set_version Leaf.set_parent lversion lparent_]. rewrite mark_split_twice, <- Hi. done.
Qed.
End left.

(** ** The new key in the right leaf *)
Section right.
Context (nr ln : leaf) (mid ty : Z) (f : entry) (Hct : cut nr ln mid ty f) (Hright : mid <= zlength la).
Abbreviation lk := (Leaf.set_permutation xb (store_permutation leaf_width (stripped (permutation_ xb) mid))).

Lemma right_type : ty <> 0 /\ Leaf.size xb - Leaf.size (xc nr) = mid /\
  exists free', repr leaf_width (permutation_ nr)
    (seqZ 0 (zlength la - mid) ++ seqZ (zlength la - mid + 1) (Leaf.size rl - zlength la)) (free' ++ [zlength la - mid]).
Proof using Hct Hright Hrep Hfound Hlf Hns Hndo Hle Ha Hb.
  destruct room_entries as (Hle' & _). pose proof (leaf_size _ _ _ _ Hle') as Hsz. rewrite zlength_app in Hsz.
  pose proof (zlength_nonneg lb).
  destruct (ct_type _ _ _ _ _ Hct) as (free' & [(? & _)|(_ & H1 & H2)]); [lia|]. split_and!; [done| |by exists free'].
  change (Leaf.size (xc nr)) with (Kpermuter.size (permutation_ nr)). rewrite (repr_size _ _ _ _ H2), zlength_app, !zlength_seqZ by lia.
  change (Leaf.size xb) with (Leaf.size rl). lia.
Qed.

Lemma right_spec : Kpermuter.size (stripped (permutation_ xb) mid) = mid /\
  Kpermuter.back leaf_width (permutation_ nr) = zlength la - mid /\
  forall v, exists nr', set_lv (zlength la - mid) v (xc nr) = Some nr' /\ same_leaf (xc nr) nr' /\
    halves s b l lo hi rl lk (finish_perm nr' (zlength la - mid)) (e_ikey f) (take (Z.to_nat mid) (E v)) (drop (Z.to_nat mid) (E v)).
Proof using Hct Hright Hrep Hfound Hlf Hns Hndo Hle Ha Hb Hlen Hfull.
  destruct cut_facts as (Hlok & Hka & Hm & Haddr & Hnd & Hfr & _).
  destruct room_entries as (Hle' & Hsl & Hsz & Ha' & Hb' & Hms & Hnx & Hpv & Hpar & _ & Hbusy & _).
  destruct cut_busy as (_ & Hq2 & Hlf2 & Hq1 & Hlf1). destruct right_type as (_ & _ & freer & Hr).
  pose proof (ct_mid _ _ _ _ _ Hct) as Hmid. destruct (le_arrays _ _ _ _ Hle') as [A1 A2 A3 A4].
  assert (leaf_arrays lk) as Hlka by by split. assert (leaf_width - 1 <= Leaf.size rl) as Hfull' by by rewrite Hsz.
  assert (leaf_arrays (xc nr)) as Hcarr by by destruct (ct_arrays _ _ _ _ _ Hct).
  pose proof (fun v : Z => left_kept (kmem s) ka rl la lb free esb Hle' Hfull' lk mid v ltac:(lia) Hright Hlka (fun q => eq_refl) eq_refl) as Hkept.
  split_and!; [by destruct (Hkept 0)|by eapply back_repr|]. intros v. destruct (Hkept v) as (_ & live & fr & Hlel).
  destruct (right_assigned unaligned (kmem s) ka rl la lb free esb Hm Hka Hlen Hle' Ha' Hb' Hfull' (xc nr) mid freer v Hmid Hright Hcarr Hr
    (ct_items _ _ _ _ _ Hct)) as (nr' & Hset & Hs & Hik & Hler).
  exists nr'. split_and!; [done..|]. destruct (cut_range nr ln mid ty f v Hct) as (R1 & R2 & R3). split; try done.
  - intros q Hq. eapply half_ok; try done. change (prev_ lk) with (prev_ rl). rewrite Hpv. intros Hne.
    pose proof (lo_bound _ _ _ _ _ Hlok Hne) as Hbd. unfold Leaf.ikey_bound in *. change (Leaf.ikey rl 0 = lo).
    specialize (Hsl 0). unfold slot_entry in Hsl. by injection Hsl as -> _.
  - intros q Hq. eapply half_ok; try done.
    + intros _. change (Leaf.ikey nr' 0 = e_ikey f). rewrite Hik. by eapply (right_bound nr).
    + change (modstate_ nr' = modstate_insert). rewrite (sl_modstate _ _ Hs). apply (ct_modstate _ _ _ _ _ Hct).
  - cbn. by rewrite (sl_next _ _ Hs), (sl_prev _ _ Hs).
Qed.

Lemma right_ready kp ov : exists F c' s2, ready s2 c' (phantom_epoch_ l) (now_bound kb B) /\
  forall fuel, (F <= fuel)%nat -> split_loop fuel b c0 (e_ikey f) 0 ty (cursor kp ov) (st1 nr ln) = Some (c', s2).
Proof using Hct Hright Hrep Hfound Hlf Hns Hndo Hle Ha Hb Hlen Hi Hfull Hrepl.
  destruct right_spec as (Hsz & Hbk & Hspec). destruct right_type as (Hty & Hkeep & _).
  destruct (cut_pending nr ln mid ty f Hct) as (anc & ns1 & ns2 & Hsplit & Hbase & Haddr & Hfr & Hpend).
  destruct room_entries as (_ & _ & _ & _ & _ & _ & _ & _ & _ & _ & Hbusy & Hleafb).
  set (i := zlength la - mid) in *.
  assert (forall v nr', halves s b l lo hi rl lk (finish_perm nr' i) (e_ikey f) (take (Z.to_nat mid) (E v)) (drop (Z.to_nat mid) (E v)) ->
    exists c' s' k' r', (forall fuel, (length anc + 2 <= fuel)%nat -> split_loop fuel b c0 (e_ikey f) 0 ty (cursor kp ov) (st1 nr ln) = Some (c', s')) /\
      linked_up b c0 lk (finish_perm nr' i) (st1 nr ln) (base ns1 ns2) (es1 ++ E v ++ es2) (lleaves ns1 ns2) p s' k' [c0] /\
      heap s' !! c0 = Some (NLeaf (Leaf.set_parent (xc nr) r')) /\ n_ c' = c0 /\ kx_ c' = mkKip i i /\ state_ c' = 2) as Hloop.
  { intros v nr' Hv. pose proof (Hpend _ _ _ Hv) as Hpd.
    destruct (split_loop_right _ _ _ _ _ _ _ _ _ Hbase Haddr Hfr _ _ _ _ _ _ _ _ _ _ _ _ _ _ _ _ _ _ Hpd (cursor kp ov) ty eq_refl Hleafb 0)
      as (c' & s' & k' & r' & H1 & H2 & H3 & H4 & H5 & H6); [done|by rewrite Hkeep|].
    rewrite Hkeep, Hsz in H6. cbn [kx_ kip_i] in H6. rewrite <- Hi in H6. by exists c', s', k', r'. }
  destruct (Hspec 0) as (nr0 & _ & _ & Hv0). destruct (Hloop 0 nr0 Hv0) as (c' & s' & k' & r' & Hrun & _ & Hlb & Hn & Hkx & Hst2).
  exists (length anc + 2)%nat, c', s'. split; [|done]. split.
  { exists (Leaf.set_parent (xc nr) r'). rewrite Hn. split; [done|]. apply (ct_epoch _ _ _ _ _ Hct). }
  intros v. destruct (Hspec v) as (nr' & Hset & Hs2 & Hv). destruct (Hloop v nr' Hv) as (c2 & s2 & k2 & r2 & Hrun2 & Hlu & _).
  pose proof (Hrun (length anc + 2)%nat ltac:(lia)) as E1. rewrite (Hrun2 (length anc + 2)%nat) in E1 by lia. injection E1 as -> ->.
  assert (set_lv i v (Leaf.set_parent (xc nr) r') = Some (Leaf.set_parent nr' r')) as Hset'.
  { unfold set_lv in *. change (lv_ (Leaf.set_parent (xc nr) r')) with (lv_ (xc nr)). destruct (wr (lv_ (xc nr)) i v); [|done].
    cbn [mbind option_bind] in *. by injection Hset as <-. }
  assert (lversion nr' = lversion rl) as Hver by (rewrite (sl_version _ _ Hs2); apply (ct_version _ _ _ _ _ Hct)).
  eexists _, _. split; [eapply set_value_eq; rewrite ?Hn, ?Hkx; [done|exact Hset']|]. split.
  { intros fuel. apply finish_new; [done|rewrite Hn; apply lookup_insert_eq|cbn; by rewrite Hver|].
    rewrite Hkx. cbn. by rewrite (sl_permutation _ _ Hs2). }
  eapply (linked_bound nr ln mid ty f ns1 ns2 _ _ v s' k2 [c0] _ Hct Hsplit Hlu); [intros a ->%list_elem_of_singleton; by right|].
  rewrite Hn, Hkx. unfold with_heap. cbn [heap next_fresh limbo callbacks table_root kmem]. f_equal.
  rewrite insert_insert_eq. symmetry. apply (settled_single _ _ _ _ _ _ _ _ Hlb).
  assert (c0 <> b) as Hcb.
  { destruct cut_facts as (_ & _ & _ & Hal & _). destruct (Hal b); [apply Hlf|]. lia. }
  cbn [settle]. rewrite (proj2 (Z.eqb_neq _ _) Hcb), Z.eqb_refl. cbn [Leaf.set_version Leaf.set_parent lversion lparent_].
  rewrite Hver. by rewrite <- (ct_version _ _ _ _ _ Hct).
Qed.
End right.

Lemma cut_ready kp ov : exists F c' s2, ready s2 c' (phantom_epoch_ l) (now_bound kb B) /\
  forall fuel, (F <= fuel)%nat -> make_split fuel (cursor kp ov) sr = Some (c', s2).
Proof using Hrep Hfound Hlf Hns Hndo Hle Ha Hb Hlen Hi Hfull Hslot Hrepl Hback.
  destruct (cut_run kp ov) as (nr & ln & mid & ty & f & kp' & Hct & Hrun).
  assert (exists F c' s2, ready s2 c' (phantom_epoch_ l) (now_bound kb B) /\
    forall fuel, (F <= fuel)%nat -> split_loop fuel b c0 (e_ikey f) 0 ty (cursor kp' ov) (st1 nr ln) = Some (c', s2)) as (F & c' & s2 & Hr & HF).
  { destruct (Z.ltb_spec (zlength la) mid); [by eapply left_ready|by eapply right_ready]. }
  exists (S F), c', s2. split; [done|]. intros [|fuel] Hf; [lia|]. rewrite Hrun. apply HF. lia.
Qed.
End cut.

(** [make_split] for a leaf without room. *)
Lemma split_ready kp ov :
  ~ (Leaf.size l < leaf_width /\
     (Kpermuter.back leaf_width (permutation_ l) <> 0 \/ prev_ l = 0 \/ Leaf.ikey_bound l = Key.ikey ka)) ->
  exists F c' s2, ready s2 c' (phantom_epoch_ l) (now_bound kb B) /\
    forall fuel, (F <= fuel)%nat -> make_split fuel (cursor kp ov) sr = Some (c', s2).
Proof using Hfound Hrep Hlen Hkp.
  intros Hno.
  assert (Leaf.size l < leaf_width -> Kpermuter.back leaf_width (permutation_ l) = 0) as Hback.
  { intros Hs. destruct (Z.eq_dec (Kpermuter.back leaf_width (permutation_ l)) 0); [done|]. exfalso. apply Hno. tauto. }
  destruct (Z.ltb_spec (Leaf.size l) (leaf_width - 1)) as [Hsize|Hsize].
  { destruct (rearranged_ready kp ov Hsize) as (c' & s2 & Hr & Hrun); [apply Hback; lia|]. by exists 0%nat, c', s2. }
  pose proof (tr_mem _ _ _ Hrep) as Hm.
  destruct (found_layer unaligned _ _ _ kb B ns ka b l Hm Hfound (tr_nodup _ _ _ Hrep)) as
    (p & d & par & lo & hi & n & es1 & esb & es2 & lns & Bns1 & Bnb & Bns2 & nso & Hlf & Hns & Hndo & Hrepl).
  pose proof (fc_ok _ _ _ _ _ _ _ _ _ _ _ _ _ _ _ _ _ (lf_focus _ _ _ _ _ _ _ _ _ _ _ _ _ _ _ _ _ _ Hlf)) as Hlok.
  destruct (lo_entries _ _ _ _ _ Hlok) as (live & free & Hle).
  destruct (leaf_lower_spec l live free esb Hle ka) as [(_ & la & lb & -> & Hi & Habove & Hbelow)|(Hr' & _)];
    [|rewrite Hkp in Hr'; lia].
  eapply (cut_ready p d par lo hi n es1 esb es2 lns Bns1 Bnb Bns2 nso Hlf Hns Hndo Hrepl la lb free Hle Hi Habove Hbelow Hsize); [|done].
  intros Hprev. destruct (Z.eq_dec (Leaf.size l) leaf_width) as [|Hne]; [by left|right].
  pose proof (leaf_size _ _ _ _ Hle). pose proof (repr_length leaf_width ltac:(done) _ _ _ (le_repr _ _ _ _ Hle)) as Hrl.
  pose proof (zlength_nonneg free).
  destruct (leaf_free_back l _ free esb Hle) as [free0 ->]; [lia|]. rewrite Hback by lia. rewrite elem_of_app. right.
  by apply list_elem_of_singleton.
Qed.
End split.
