(* ===== verification/PutSpec.v ===== *)
(** The table operation [run_insert] of [Put] as a map update: the cursor's
    constructor, the way to the leaf, and the commit. *)
From Stdlib Require Import Sorted.
From S2P Require Import Prelude Compiler Memory StringSlice Key Ksearch Kpermuter Nodeversion.
From S2P Require Import Stringbag Node Heap Get Insert Remove Tree Find Steps LeafSpec Locate Put NewLayer PutSplit.

(** * The cursor *)
(** [fix_root] brings [root_] to the parent of a node that is no root any more. *)
Definition at_root (s : state) (r : Z) : state :=
  mkState (heap s) (next_fresh s) (limbo s) (callbacks s) r (kmem s).

Lemma fix_root_spec {N : Layers} s B ns :
  table_in s B ns -> exists r, fix_root s = Some (r, at_root s r) /\ table_in (at_root s r) B ns /\ root_at (heap s) r.
Proof.
  intros [Hr Hnd Ha Hf Hm].
  destruct (layer_rep_climb _ _ _ _ _ Hr) as (nd & Hnd' & Hq & Hin & Hup).
  unfold fix_root, gets, bind. cbn. rewrite (version_eq _ _ _ Hnd').
  destruct (Nodeversion.is_root NV (node_version nd)) eqn:Hroot; cbn [negb].
  - exists (table_root s). split; [by destruct s|]. split; [|by exists nd]. by split.
  - destruct (Hup eq_refl) as (Hne & Hr' & Htop). erewrite maybe_parent_eq by done.
    destruct (Z.eqb_spec (node_parent nd) 0) as [|_]; [done|]. rewrite Z.eqb_refl.
    exists (node_parent nd). split; [done|]. split; [|done]. by split.
Qed.

Section put.
Context {N : Layers} (unaligned : bool) (okbuf : Z) (s : state) (B : list (list Z * Z)) (ns : list Z) (a len : Z).
Context (Hrep : table_in s B ns) (Hlen : 0 <= len <= max_key_len)
  (Hbuf : okbuf + max_key_len <= a \/ a + len <= okbuf).
Abbreviation ka := (Key.key_data unaligned (kmem s) a len).
Abbreviation kb := (key_bytes (kmem s) ka).

(** The leaf [b] that [find_locked] locks, in the table at rest [s0] with the
    stale layer pointers on the way brought up to date in [h]. *)
Record arrival (s0 : state) (h : gmap Z node) (b : Z) (l : leaf) (ka' : key) : Prop := {
  ar_rep : table_in s0 B ns;
  ar_mem : kmem s0 = kmem s;
  ar_found : found_at unaligned (kmem s0) h (table_root s0) kb B ns ka' b l;
  ar_len : len_ ka' <= max_key_len;
  ar_buf : okbuf + max_key_len <= s_ ka' \/ s_ ka' + len_ ka' <= okbuf;
  ar_state : 0 <= match_state (kmem s0) l ka';
  ar_other : forall x, x ∉ ns -> h !! x = heap s0 !! x;
  ar_epochs : same_epochs (heap s) h }.

Lemma find_locked_spec :
  exists F s0 r h b l ka', arrival s0 h b l ka' /\
    make_tcursor unaligned a len s = Some (mkCursor 0 ka (mkKip 0 (-1)) r 0 0 0 0 [], s0) /\
    forall fuel, (F <= fuel)%nat ->
      find_locked unaligned fuel (mkCursor 0 ka (mkKip 0 (-1)) r 0 0 0 0 []) s0 =
      Some (mkCursor b ka' (Leaf.lower ka' l) r (match_state (kmem s0) l ka') 0 0 0 [],
        with_heap s0 (<[b := NLeaf (locked_leaf l)]> h)).
Proof using Hrep Hlen Hbuf.
  destruct (fix_root_spec s B ns Hrep) as (r & Hfix & Hrep0 & Hroot). set (s0 := at_root s r) in *.
  pose proof (tr_rep _ _ _ Hrep0) as Hr.
  pose proof (tr_nodup _ _ _ Hrep0) as Hnd. pose proof (tr_mem _ _ _ Hrep0) as Hm.
  assert (key_wf unaligned (kmem s0) ka) as Hka by (apply key_data_wf; lia).
  destruct (find_locked_from_spec unaligned (table_root s0) (table_root s0) kb max_layers s0 [] [] [] [] (table_root s0) B ns ka
    Hm Hka (layer_at_root _ _ _ _ kb Hr Hnd) Hroot) as (F & h & b & l & ka' & Hf & (Hs1 & Hs2 & Hs3) & Hst & Hag & Hep & Hrun).
  cbn [app] in *. rewrite map_add_prefix_nil, app_nil_r in Hf. change (s_ ka) with a in *. change (len_ ka) with len in *.
  exists F, s0, r, h, b, l, ka'. split_and!.
  - split; try done; lia.
  - unfold make_tcursor, gets, bind. by rewrite Hfix.
  - intros fuel Hfu. unfold find_locked. cbn [root_ ka_ original_n_ original_v_ updated_v_ new_nodes_].
    change r with (table_root s0) at 1 2. by rewrite (bind_eq _ _ _ _ _ (Hrun fuel Hfu)).
Qed.

(** What is read and written at the end of a run, for the key's old value. *)
Record inserted_at (run : nat -> option (tcursor * bool * state)) (old : option Z) (ep : Z) : Prop := {
  in_run : exists F c s2, (forall fuel, (F <= fuel)%nat -> run fuel = Some (c, bool_decide (is_Some old), s2)) /\
    ready s2 c ep (now_bound kb B) /\ (forall v, old = Some v -> value c s2 = Some (v, s2)) }.

(** A cursor at a slot for the key commits with the value it is given. *)
Lemma run_insert_ready {X} (observe : Z -> X -> X) apply (x : X) (old : option Z) ep :
  inserted_at (fun fuel => bind (make_tcursor unaligned a len) (find_insert unaligned fuel okbuf) s) old ep ->
  forall v' inserted x',
    apply old (match old with Some _ => x | None => observe ep x end) = Some (v', inserted, x') ->
    exists F s', now_bound kb B v' s' /\ forall fuel, (F <= fuel)%nat ->
      run_insert unaligned fuel okbuf observe apply a len x s = Some (inserted, x', s').
Proof using Type.
  intros [(F & c & s2 & Hrun & [[l [Hl <-]] Hcommit] & Hold)].
  intros v' inserted x' Happ.
  destruct (Hcommit v') as (s3 & s4 & Hset & Hfin & Hpost).
  exists F, s4. split; [done|]. intros fuel Hf. unfold run_insert.
  assert (forall A (k : tcursor * bool -> M A), bind (make_tcursor unaligned a len) (fun c => bind (find_insert unaligned fuel okbuf c) k) s =
    k (c, bool_decide (is_Some old)) s2) as ->.
  { intros A k. rewrite <- bind_assoc. by rewrite (bind_eq _ _ _ _ _ (Hrun fuel ltac:(lia))). }
  assert (exists w, value c s2 = Some (w, s2) /\ forall v, old = Some v -> w = v) as (w & Hw & Hwv).
  { unfold value. rewrite (bind_eq _ _ _ _ _ (get_leaf_eq _ _ _ Hl)). eexists. split; [done|]. intros v Hv.
    specialize (Hold v Hv). unfold value in Hold. rewrite (bind_eq _ _ _ _ _ (get_leaf_eq _ _ _ Hl)) in Hold.
    by injection Hold as <-. }
  rewrite (bind_eq _ _ _ _ _ (get_leaf_eq _ _ _ Hl)), (bind_eq _ _ _ _ _ Hw).
  assert ((if bool_decide (is_Some old) then Some w else None) = old) as ->.
  { destruct old as [v|]; [by rewrite (Hwv v eq_refl)|done]. }
  assert ((if bool_decide (is_Some old) then x else observe (phantom_epoch_ l) x) =
    match old with Some _ => x | None => observe (phantom_epoch_ l) x end) as -> by by destruct old.
  rewrite (bind_lift _ _ _ _ Happ), (bind_eq _ _ _ _ _ Hset). destruct (Hfin fuel) as [c' Hc']. by rewrite (bind_eq _ _ _ _ _ Hc').
Qed.

Section arrived.
Context (F : nat) (s0 : state) (r : Z) (h : gmap Z node) (b : Z) (l : leaf) (ka' : key).
Context (Har : arrival s0 h b l ka')
  (Hmk : make_tcursor unaligned a len s = Some (mkCursor 0 ka (mkKip 0 (-1)) r 0 0 0 0 [], s0))
  (Hfl : forall fuel, (F <= fuel)%nat ->
    find_locked unaligned fuel (mkCursor 0 ka (mkKip 0 (-1)) r 0 0 0 0 []) s0 =
    Some (mkCursor b ka' (Leaf.lower ka' l) r (match_state (kmem s0) l ka') 0 0 0 [],
      with_heap s0 (<[b := NLeaf (locked_leaf l)]> h))).
Context (Hdeep : (32 <= max_layers)%nat).
Abbreviation st := (match_state (kmem s0) l ka').
Abbreviation s1 := (with_heap s0 (<[b := NLeaf (locked_leaf l)]> h)).

Lemma arrived_bound : assoc kb B = if 0 <? st then Some (Leaf.lv l (kip_p (Leaf.lower ka' l))) else None.
Proof using Har.
  destruct Har as [Hrep0 Hmem Hfound _ _ Hst _ _]. pose proof (tr_mem _ _ _ Hrep0) as Hm.
  destruct (found_view unaligned _ _ _ _ _ _ _ _ _ Hm Hfound (tr_nodup _ _ _ Hrep0)) as
    (par & lo & hi & n & esb & Bnb & nso & Hv).
  by eapply bound_value; [done|apply Hfound|exact Hv|].
Qed.

(** The leaf is one of the table's, with its phantom epoch. *)
Lemma arrived_epoch : exists l0, b ∈ ns /\ heap s !! b = Some (NLeaf l0) /\ phantom_epoch_ l0 = phantom_epoch_ l.
Proof using Har.
  destruct Har as [Hrep0 Hmem Hfound _ _ Hst _ Hep]. pose proof (tr_mem _ _ _ Hrep0) as Hm.
  destruct (found_view unaligned _ _ _ _ _ _ _ _ _ Hm Hfound (tr_nodup _ _ _ Hrep0)) as
    (par & lo & hi & n & esb & Bnb & nso & Hv).
  destruct (Hep _ _ (lw_leaf _ _ _ _ _ _ _ _ _ _ _ _ _ _ _ _ Hv)) as (l0 & Hl0 & He). exists l0. split_and!; [|done|done].
  rewrite (lw_nodes _ _ _ _ _ _ _ _ _ _ _ _ _ _ _ _ Hv), elem_of_app, elem_of_cons. right. by left.
Qed.

Lemma locked_now : heap s1 !! b = Some (NLeaf (locked_leaf l)).
Proof using Type. apply lookup_insert_eq. Qed.

Lemma insert_found :
  0 < st -> inserted_at (fun fuel => bind (make_tcursor unaligned a len) (find_insert unaligned fuel okbuf) s) (assoc kb B) (phantom_epoch_ l).
Proof using Har Hmk Hfl.
  clear Hdeep.
  intros Hst. rewrite arrived_bound. destruct (Z.ltb_spec 0 st) as [_|]; [|lia].
  set (c := mkCursor b ka' (Leaf.lower ka' l) r st b (Leaf.full_unlocked_version_value (locked_leaf l)) 0 []).
  split. exists F, c, s1. split_and!.
  - intros fuel Hf. rewrite (bind_eq _ _ _ _ _ Hmk). unfold find_insert. rewrite (bind_eq _ _ _ _ _ (Hfl fuel Hf)).
    cbn [n_ ka_ kx_ root_ state_ original_n_ original_v_ updated_v_ new_nodes_]. unfold leaf_full_unlocked_version.
    rewrite bind_assoc, (bind_eq _ _ _ _ _ (get_leaf_eq _ _ _ locked_now)), bind_ret.
    destruct (Z.eqb_spec st 0) as [|_]; [lia|]. done.
  - eapply (found_ready unaligned s0 B ns h kb ka' b l c r); [apply Har|apply Har|done|done].
  - intros v [= <-]. unfold value. by rewrite (bind_eq _ _ _ _ _ (get_leaf_eq _ _ _ locked_now)).
Qed.

Lemma insert_conflict :
  st = 0 -> 0 <= kip_p (Leaf.lower ka' l) ->
  inserted_at (fun fuel => bind (make_tcursor unaligned a len) (find_insert unaligned fuel okbuf) s) (assoc kb B) (phantom_epoch_ l).
Proof using Har Hmk Hfl Hdeep Hlen.
  intros Hst Hkp. rewrite arrived_bound, Hst. cbn [Z.ltb Z.compare].
  set (c := mkCursor b ka' (Leaf.lower ka' l) r 2 b (Leaf.full_unlocked_version_value (locked_leaf l)) 0 []).
  destruct (new_layer_ready unaligned okbuf s0 B ns h kb ka' b l c) as (F' & c' & s2 & Hready & Hrun); try done; try apply Har.
  { rewrite (zlength_key_bytes unaligned (kmem s) ka); [apply Hlen|by apply key_data_wf; lia]. }
  split. exists (max F F'), c', s2. split_and!; [|done|done].
  intros fuel Hf. rewrite (bind_eq _ _ _ _ _ Hmk). unfold find_insert. rewrite (bind_eq _ _ _ _ _ (Hfl fuel ltac:(lia))).
  cbn [n_ ka_ kx_ root_ state_ original_n_ original_v_ updated_v_ new_nodes_]. unfold leaf_full_unlocked_version.
  rewrite bind_assoc, (bind_eq _ _ _ _ _ (get_leaf_eq _ _ _ locked_now)), bind_ret, Hst.
  cbn [Z.eqb negb]. rewrite (proj2 (Z.leb_le 0 _) Hkp). fold c.
  by rewrite (bind_eq _ _ _ _ _ (Hrun fuel ltac:(lia))).
Qed.

Lemma insert_roomy :
  st = 0 -> kip_p (Leaf.lower ka' l) = -1 -> Leaf.size l < leaf_width ->
  Kpermuter.back leaf_width (permutation_ l) <> 0 \/ prev_ l = 0 \/ Leaf.ikey_bound l = Key.ikey ka' ->
  inserted_at (fun fuel => bind (make_tcursor unaligned a len) (find_insert unaligned fuel okbuf) s) (assoc kb B) (phantom_epoch_ l).
Proof using Har Hmk Hfl.
  clear Hdeep.
  intros Hst Hkp Hsize Hbound. rewrite arrived_bound, Hst. cbn [Z.ltb Z.compare].
  destruct (room_ready unaligned okbuf s0 B ns h kb ka' b l r) with (on := 0) (ov := 0) (uv := 0) (nn := @nil (Z * Z))
    as (c' & s2 & Hready & Hrun); try done; try apply Har.
  split. exists F, c', s2. split_and!; [|done|done].
  intros fuel Hf. rewrite (bind_eq _ _ _ _ _ Hmk). by rewrite (Hrun _ _ _ (Hfl fuel Hf)).
Qed.

Lemma insert_splits :
  st = 0 -> kip_p (Leaf.lower ka' l) = -1 ->
  ~ (Leaf.size l < leaf_width /\
     (Kpermuter.back leaf_width (permutation_ l) <> 0 \/ prev_ l = 0 \/ Leaf.ikey_bound l = Key.ikey ka')) ->
  inserted_at (fun fuel => bind (make_tcursor unaligned a len) (find_insert unaligned fuel okbuf) s) (assoc kb B) (phantom_epoch_ l).
Proof using Har Hmk Hfl.
  clear Hdeep.
  intros Hst Hkp Hno. rewrite arrived_bound, Hst. cbn [Z.ltb Z.compare].
  destruct (find_insert_splits unaligned okbuf s0 B ns h kb ka' b l r) as (kp & ov & Hrun); try done; try apply Har.
  destruct (split_ready unaligned s0 B ns h kb ka' b l r) with (kp := kp) (ov := ov) as (F' & c' & s2 & Hready & Hsplit);
    try done; try apply Har.
  split. exists (max F F'), c', s2. split_and!; [|done|done].
  intros fuel Hf. rewrite (bind_eq _ _ _ _ _ Hmk). pose proof (Hfl fuel ltac:(lia)) as Hl. rewrite Hst in Hl.
  rewrite (Hrun _ _ _ Hl). by rewrite (bind_eq _ _ _ _ _ (Hsplit fuel ltac:(lia))).
Qed.

Lemma insert_cases :
  inserted_at (fun fuel => bind (make_tcursor unaligned a len) (find_insert unaligned fuel okbuf) s) (assoc kb B) (phantom_epoch_ l).
Proof using Har Hmk Hfl Hdeep Hlen.
  pose proof (ar_state _ _ _ _ _ Har) as Hst.
  destruct (Z.ltb_spec 0 st); [by apply insert_found|]. assert (st = 0) as Hst0 by lia.
  destruct (Z.leb_spec 0 (kip_p (Leaf.lower ka' l))) as [Hp|Hp]; [by apply insert_conflict|].
  assert (kip_p (Leaf.lower ka' l) = -1) as Hkp.
  { destruct Har as [Hrep0 _ Hfound _ _ _ _ _]. pose proof (tr_mem _ _ _ Hrep0) as Hm.
    destruct (found_view unaligned _ _ _ _ _ _ _ _ _ Hm Hfound (tr_nodup _ _ _ Hrep0)) as
      (par & lo & hi & n & esb & Bnb & nso & Hv).
    destruct (lo_entries _ _ _ _ _ (lw_ok _ _ _ _ _ _ _ _ _ _ _ _ _ _ _ _ Hv)) as (live & free & Hle).
    destruct (leaf_lower_spec l live free esb Hle ka') as [[? _]|[? _]]; lia. }
  assert (Decision (Leaf.size l < leaf_width /\
    (Kpermuter.back leaf_width (permutation_ l) <> 0 \/ prev_ l = 0 \/ Leaf.ikey_bound l = Key.ikey ka'))) as Hdec by solve_decision.
  destruct (decide (Leaf.size l < leaf_width /\
    (Kpermuter.back leaf_width (permutation_ l) <> 0 \/ prev_ l = 0 \/ Leaf.ikey_bound l = Key.ikey ka'))) as [[? ?]|?].
  - by apply insert_roomy.
  - by apply insert_splits.
Qed.
End arrived.
End put.

(** * The table as a map *)
Lemma get_spec unaligned s B ns k :
  table_rep s B ns -> 0 <= str_len k ->
  exists F, forall fuel, (F <= fuel)%nat ->
    get unaligned fuel k s =
    Some ((list_to_map B : gmap (list Z) Z) !! str_bytes (kmem s) k, s).
Proof.
  intros [N [Hr _ _ _ Hm]] Hk.
  destruct (find_unlocked_from_spec unaligned N s Hm (table_root s) B ns
    (Key.key_str unaligned (kmem s) k) Hr) as [F HF]; [by split|].
  exists F. intros fuel Hf. destruct (HF fuel Hf) as (c & mt & Hrun & Hres).
  unfold get, make_unlocked_tcursor, find_unlocked, root, gets, bind, ret. cbn.
  rewrite Hrun. cbn. rewrite assoc_list_to_map.
  change (key_bytes (kmem s) (Key.key_str unaligned (kmem s) k)) with (str_bytes (kmem s) k) in Hres.
  rewrite Hres. by destruct (mt =? 0).
Qed.

Lemma put_in_spec {N : Layers} {X} unaligned okbuf observe apply (x : X) s B ns a len :
  (32 <= max_layers)%nat -> table_in s B ns -> 0 <= len <= max_key_len -> okbuf + max_key_len <= a \/ a + len <= okbuf ->
  let k := str_bytes (kmem s) (mkStr a len) in
  let old := (list_to_map B : gmap (list Z) Z) !! k in
  exists b l, b ∈ ns /\ heap s !! b = Some (NLeaf l) /\ forall v' inserted x',
    apply old (match old with Some _ => x | None => observe (phantom_epoch_ l) x end) = Some (v', inserted, x') ->
    exists F s' B' ns', table_in s' B' ns' /\
      (list_to_map B' : gmap (list Z) Z) = <[k := v']> (list_to_map B) /\
      forall fuel, (F <= fuel)%nat ->
        run_insert unaligned fuel okbuf observe apply a len x s = Some (inserted, x', s').
Proof.
  intros Hdeep Hrep Hlen Hbuf k old. unfold old. rewrite assoc_list_to_map.
  destruct (find_locked_spec unaligned okbuf s B ns a len Hrep Hlen Hbuf) as (F & s0 & r & h & b & l & ka & Har & Hmk & Hfl).
  destruct (arrived_epoch _ _ _ _ _ _ _ _ _ _ _ _ Har) as (l0 & Hb & Hl0 & Hep).
  exists b, l0. split; [done|]. split; [done|]. rewrite Hep. intros v' inserted x' Happ.
  destruct (run_insert_ready unaligned okbuf s B a len observe apply x _ _
    (insert_cases unaligned okbuf s B ns a len Hlen F s0 r h b l ka Har Hmk Hfl Hdeep) _ _ _ Happ) as (F' & s' & (B' & ns' & Hrep' & Hu) & Hrun').
  exists F', s', B', ns'. split; [done|]. split; [by apply updated_map in Hu|done].
Qed.
Lemma put_spec {X} unaligned okbuf observe apply (x : X) s B ns a len :
  table_rep s B ns -> 0 <= len <= max_key_len -> okbuf + max_key_len <= a \/ a + len <= okbuf ->
  let k := str_bytes (kmem s) (mkStr a len) in
  let old := (list_to_map B : gmap (list Z) Z) !! k in
  exists b l, b ∈ ns /\ heap s !! b = Some (NLeaf l) /\ forall v' inserted x',
    apply old (match old with Some _ => x | None => observe (phantom_epoch_ l) x end) = Some (v', inserted, x') ->
    exists F s' B' ns', table_rep s' B' ns' /\
      (list_to_map B' : gmap (list Z) Z) = <[k := v']> (list_to_map B) /\
      forall fuel, (F <= fuel)%nat ->
        run_insert unaligned fuel okbuf observe apply a len x s = Some (inserted, x', s').
Proof.
  intros (N & Hn & Hrep)%(table_rep_in _ _ _ 32) Hlen Hbuf k old.
  destruct (put_in_spec unaligned okbuf observe apply x s B ns a len Hn Hrep Hlen Hbuf) as (b & l & H1 & H2 & H3).
  exists b, l. split; [done|]. split; [done|]. intros v' i x' Ha. destruct (H3 _ _ _ Ha) as (F & s' & B' & ns' & H4 & H5 & H6).
  exists F, s', B', ns'. split; [by exists N|done].
Qed.
