(* ===== verification/RemoveSpec.v ===== *)
(** Removal of a binding, [run_remove] of [src/kvrow.hh] over [find_locked] and
    [finish]: a leaf that keeps an entry, or that is the leftmost of its layer,
    stays; any other is unlinked. *)
From Stdlib Require Import Sorted.
From S2P Require Import Prelude Compiler Memory StringSlice Key Ksearch Kpermuter Nodeversion.
From S2P Require Import Stringbag Node Heap Get Insert Remove Tree Find Steps LeafSpec Locate Put NewLayer PutSpec.
From S2P Require Import SplitSpec Ancestors LinkChild Hole Redirect RemoveUp SplitUp SplitLoop SplitLeaf LeafTurn SplitStart Unlink.

(** * The leaf without its entry *)
(** The locked leaf as the permutation is about to change: its version, mark
    and phantom epoch may differ from those at rest. *)
Definition touched (l : leaf) (v ms ep : Z) : leaf :=
  Leaf.set_phantom_epoch (Leaf.set_modstate (Leaf.set_version l v) ms) ep.

Lemma touched_entries l v ms ep live free es :
  leaf_entries l live free es -> leaf_entries (touched l v ms ep) live free es.
Proof. intros [[? ? ? ?] ? ? ? ?]. by split. Qed.

Section update.
Context {N : Layers} (unaligned : bool) (m : mem) (h : gmap Z node) (p0 : Z) (kb : list Z) (B : list (list Z * Z))
  (ns : list Z) (ka : key) (b : Z) (l : leaf) (par lo hi : Z) (n : nat) (esb : list entry)
  (Bnb : list (list (list Z * Z) * list Z)) (nso : list Z).
Context (Hm : mem_bytes m) (Hka : key_wf unaligned m ka)
  (Hv : leaf_view m h p0 kb B ns ka b l par lo hi n esb Bnb nso).
Abbreviation kx := (Leaf.lower ka l).

Lemma remove_value lk v ms ep vn :
  0 < match_state m l ka -> lk = touched l v ms ep -> ms = modstate_insert \/ ms = modstate_remove ->
  quiet vn -> same_flags (lversion l) vn ->
  rebound (<[b := NLeaf (Leaf.set_version (remove_perm lk (kip_i kx)) vn)]> h) p0 kb None B ns.
Proof using Hm Hka Hv.
  intros Hst Hlk Hms Hvn Hfl. destruct Hv as [Hl Hlok Hrange Hreps Hns Hnd Hdep Hrepl _].
  destruct (lo_entries _ _ _ _ _ Hlok) as (live & free & Hle).
  destruct (match_cases unaligned m ka Hm Hka l live free esb Hle) as [(_ & Hq & Hkx & Hek)|[(H0 & _)|(H0 & _)]]; [lia| |lia..].
  set (q := kip_p kx) in *.
  destruct (lower_hit l live free esb ka Hle Hq) as (l1 & l2 & -> & Hi & Hesb & _ & _ & Ha & Hbl).
  fold q in Hle, Hesb. destruct (cmp_ne_of_above_below l ka l1 l2 Ha Hbl) as [Hn1 Hn2].
  pose proof (touched_entries l v ms ep _ _ _ Hle) as Hlek. rewrite <- Hlk in Hlek.
  pose proof (leaf_remove lk l1 q l2 free esb Hlek) as Hler. rewrite Hi in Hler.
  assert (map (slot_entry lk) (l1 ++ l2) = map (slot_entry l) l1 ++ map (slot_entry l) l2) as Hes.
  { rewrite map_app. by rewrite Hlk. }
  rewrite Hes in Hler. set (es' := map (slot_entry l) l1 ++ map (slot_entry l) l2) in *.
  rewrite Hesb in Hreps. apply Forall2_app_inv_l in Hreps as (Bb1 & Bb' & He1 & He & HBnb).
  inversion He as [|? [Be nse] ? Bb2 Hre He2]; subst Bb'. clear He.
  unfold entry_rep in Hre. destruct (Z.eqb_spec (e_keylenx (slot_entry l q)) layer_keylenx) as [|_]; [done|].
  injection Hre as -> ->. rewrite Hek in HBnb.
  assert (nodes (Bb1 ++ Bb2) = nodes Bnb) as Hnn by (rewrite HBnb, !map_snd_app; done).
  pose proof Hnd as Hnd'. apply NoDup_app in Hnd' as (_ & Hd1 & Hnd'). apply NoDup_cons in Hnd' as [Hbb _].
  assert (b ∉ nso) as Hbo by (intros Hin; apply (Hd1 b Hin), elem_of_cons; by left).
  rewrite <- Hnn, map_snd_app, not_elem_of_app in Hbb. destruct Hbb as [Hbb1 Hbb2].
  assert (rebound (<[b := NLeaf (Leaf.set_version (remove_perm lk (kip_i kx)) vn)]> h) p0 kb None B
    (nso ++ b :: nodes (Bb1 ++ Bb2))) as (B' & ns' & H1 & H2 & H3).
  { apply (Hrepl _ (Leaf.set_version (remove_perm lk (kip_i kx)) vn) es').
    - by apply agree_insert.
    - apply lookup_insert_eq.
    - by rewrite Hlk.
    - by rewrite Hlk.
    - apply Hfl.
    - eapply leaf_ok_rebuild; try done; [| |by rewrite Hlk..].
      + destruct Hler as [[? ? ? ?] ? ? ? ?]. by split.
      + pose proof (lo_range _ _ _ _ _ Hlok) as Hr. rewrite Hesb in Hr.
        unfold in_range, es'. rewrite !Forall_app, ?Forall_cons in *. tauto.
    - by apply Forall2_app; (eapply entries_rep_frame; [apply agree_insert|]).
    - rewrite HBnb. pose proof (le_ok _ _ _ _ Hle) as Hokb. rewrite Hesb in Hokb.
      apply Forall_app in Hokb as [Hokb1 Hokb2]. inversion Hokb2; subst.
      assert (binds (Bb1 ++ Bb2) = binds (Bb1 ++ ([], []) :: Bb2)) as -> by by rewrite !map_fst_app.
      eapply (updated_entry unaligned m ka _ (map (slot_entry l) l1) (map (slot_entry l) l2)); try done.
      split; cbn; [done|]. intros k' Hne. by rewrite decide_False. }
  exists B', ns'. split_and!; [done..|]. by rewrite H3, Hns, Hnn.
Qed.
End update.

(** * Committing *)
Definition removal_leaf (l : leaf) (ep : Z) : leaf :=
  if modstate_ l =? modstate_insert
  then touched l (Nodeversion.mark_insert NV (lockv (lversion l))) modstate_remove ep
  else touched l (lockv (lversion l)) (modstate_ l) ep.

Lemma removal_leaf_eq par lo hi l es ep :
  leaf_ok par lo hi l es ->
  exists v ms, removal_leaf l ep = touched l v ms ep /\ (ms = modstate_insert \/ ms = modstate_remove) /\
    busy v /\ same_flags (lversion l) v /\ Nodeversion.splitting NV v = false.
Proof.
  intros Hlok. destruct (lock_busy (lversion l) (lo_quiet _ _ _ _ _ Hlok)) as (Hb & Hf & Hs & _).
  destruct (mark_insert_busy _ Hb) as (Hb' & Hf' & Hs'). unfold removal_leaf.
  destruct (Z.eqb_spec (modstate_ l) modstate_insert) as [He|He]; eexists _, _; (split; [done|]).
  - split_and!; [by right|done| |by unfold lockv; rewrite Hs']. destruct Hf, Hf'. split; unfold lockv; congruence.
  - split_and!; [apply (lo_modstate _ _ _ _ _ Hlok)|done..].
Qed.

Definition add_callbacks (s : state) (cbs : list callback) : state :=
  mkState (heap s) (next_fresh s) (limbo s) (callbacks s ++ cbs) (table_root s) (kmem s).
Lemma add_callbacks_rep {N : Layers} s cbs B ns : table_in s B ns -> table_in (add_callbacks s cbs) B ns.
Proof. by intros []; split. Qed.

(** The layer below the top whose last entry goes is registered for
    collection. *)
Definition collected (m : mem) (c : tcursor) (l : leaf) : list callback :=
  let prefix := str_bytes m (Key.prefix_string (ka_ c)) in
  if (Leaf.size l =? 0) && ((next_ l =? 0) && negb (zlength prefix =? 0))
  then [gc_layer_rcu_callback (root_ c) prefix] else [].

Lemma size_store_permutation x : Kpermuter.size (store_permutation leaf_width x) = Kpermuter.size x.
Proof. apply size_ext. intros n Hn. unfold store_permutation. rewrite testbit_uwrap by done. by destruct (Z.ltb_spec n (storage_bits leaf_width)); [|change (storage_bits leaf_width) with 64 in *; lia]. Qed.

Section commit.
Context (fuel : nat) (s : state) (c : tcursor) (l : leaf) (ep par lo hi : Z) (es : list entry).
Context (Hst : state_ c = 1) (Hlok : leaf_ok par lo hi l es)
  (Hl : heap s !! n_ c = Some (NLeaf (Leaf.set_phantom_epoch (locked_leaf l) ep))).
Abbreviation lr := (remove_perm (removal_leaf l ep) (kip_i (kx_ c))).

Lemma removal_mark :
  (let! l := get_leaf (n_ c) in
   if modstate_ l =? modstate_insert then
     mark_insert (n_ c) ;! update_leaf (n_ c) (fun l => Leaf.set_modstate l modstate_remove)
   else ret tt) s = Some (tt, with_heap s (<[n_ c := NLeaf (removal_leaf l ep)]> (heap s))).
Proof using Hlok Hl.
  rewrite (bind_eq _ _ _ _ _ (get_leaf_eq _ _ _ Hl)). unfold removal_leaf.
  change (modstate_ (Leaf.set_phantom_epoch (locked_leaf l) ep)) with (modstate_ l).
  destruct (Z.eqb_spec (modstate_ l) modstate_insert) as [He|He].
  - erewrite bind_eq; [|apply mark_locked_eq; [exact Hl|]].
    2: { cbn. by destruct (lock_busy (lversion l) (lo_quiet _ _ _ _ _ Hlok)). }
    erewrite update_leaf_eq by apply lookup_insert_eq. by rewrite with_heap_insert.
  - unfold ret. rewrite insert_id; [by rewrite with_heap_heap|]. rewrite Hl. unfold locked_leaf. by destruct l.
Qed.

Lemma remove_leaf_stays s1 root prefix :
  heap s1 !! n_ c = Some (NLeaf lr) -> prev_ l = 0 ->
  remove_leaf fuel (n_ c) root prefix s1 =
  Some (false, add_callbacks s1 (if (next_ l =? 0) && negb (zlength prefix =? 0)
    then [gc_layer_rcu_callback root prefix] else [])).
Proof using Type.
  intros Hl1 Hprev. unfold remove_leaf. rewrite (bind_eq _ _ _ _ _ (get_leaf_eq _ _ _ Hl1)).
  assert (prev_ lr = prev_ l /\ next_ lr = next_ l) as [-> ->] by (unfold removal_leaf; by destruct (_ =? _)).
  rewrite Hprev. cbn [Z.eqb]. destruct (_ && _); [done|]. unfold add_callbacks. rewrite app_nil_r. by destruct s1.
Qed.

Lemma finish_remove_start :
  finish_remove fuel c s =
  (if Leaf.size lr =? 0 then remove_leaf fuel (n_ c) (root_ c) (str_bytes (kmem s) (Key.prefix_string (ka_ c))) else ret false)
    (with_heap s (<[n_ c := NLeaf lr]> (heap s))).
Proof using Hlok Hl.
  unfold finish_remove. cbv zeta. rewrite <- bind_assoc, (bind_eq _ _ _ _ _ removal_mark).
  set (s1 := with_heap s _).
  assert (heap s1 !! n_ c = Some (NLeaf (removal_leaf l ep))) as Hl1 by apply lookup_insert_eq.
  rewrite (bind_eq _ _ _ _ _ (get_leaf_eq _ _ _ Hl1)), (bind_eq _ _ _ _ _ (update_leaf_eq _ _ _ _ Hl1)).
  unfold s1. rewrite with_heap_insert. set (s2 := with_heap s _).
  assert (Leaf.size lr = Kpermuter.size (remove leaf_width (Leaf.permutation (removal_leaf l ep)) (kip_i (kx_ c)))) as Hsz
    by apply size_store_permutation.
  rewrite <- Hsz. by destruct (Leaf.size lr =? 0).
Qed.

Lemma finish_remove_spec :
  Leaf.size lr <> 0 \/ prev_ l = 0 ->
  finish_remove fuel c s =
  Some (false, add_callbacks (with_heap s (<[n_ c := NLeaf lr]> (heap s))) (collected (kmem s) c lr)).
Proof using Hlok Hl.
  intros Hstay. rewrite finish_remove_start. unfold collected. set (s2 := with_heap s _).
  assert (heap s2 !! n_ c = Some (NLeaf lr)) as Hl2 by apply lookup_insert_eq.
  destruct (Z.eqb_spec (Leaf.size lr) 0) as [He|He]; cbn [andb].
  - destruct Hstay as [?|Hprev]; [done|]. rewrite (remove_leaf_stays s2 _ _ Hl2 Hprev).
    assert (next_ lr = next_ l) as -> by (unfold removal_leaf; by destruct (_ =? _)). done.
  - unfold ret. f_equal. f_equal. unfold add_callbacks. rewrite app_nil_r. by destruct s2.
Qed.

Lemma finish_unlinked s2 :
  Leaf.size lr = 0 -> (forall root prefix, remove_leaf fuel (n_ c) root prefix (with_heap s (<[n_ c := NLeaf lr]> (heap s))) = Some (true, s2)) ->
  finish fuel (-1) c s = Some (c, s2).
Proof using Hlok Hl Hst.
  intros Hz Hrun. unfold finish. rewrite Hst. cbn [Z.ltb Z.eqb Z.compare andb Pos.eqb].
  erewrite bind_eq; [|rewrite finish_remove_start, Hz; apply Hrun]. done.
Qed.

Lemma finish_removed :
  Leaf.size lr <> 0 \/ prev_ l = 0 ->
  exists c', finish fuel (-1) c s = Some (c', add_callbacks
    (with_heap s (<[n_ c := NLeaf (Leaf.set_version lr (Nodeversion.unlock NV (lversion lr)))]> (heap s)))
    (collected (kmem s) c lr)).
Proof using Hlok Hl Hst.
  intros Hstay. unfold finish. rewrite Hst. cbn [Z.ltb Z.eqb Z.compare andb Pos.eqb].
  rewrite (bind_eq _ _ _ _ _ (finish_remove_spec Hstay)). set (s1 := add_callbacks _ _).
  assert (heap s1 !! n_ c = Some (NLeaf lr)) as Hl1 by apply lookup_insert_eq.
  assert (busy (lversion lr)) as Hb.
  { by destruct (removal_leaf_eq _ _ _ _ _ ep Hlok) as (v & ms & -> & _ & Hb & _). }
  unfold leaf_full_unlocked_version. rewrite bind_assoc, (bind_eq _ _ _ _ _ (get_leaf_eq _ _ _ Hl1)), bind_ret.
  eexists. erewrite bind_eq; [|destruct (_ =? _); by apply (unlock_eq _ _ (NLeaf lr))].
  cbn [heap add_callbacks with_heap node_set_version node_version]. unfold s1, ret. f_equal. f_equal.
  unfold with_heap, add_callbacks. cbn. by rewrite insert_insert_eq.
Qed.
End commit.

(** * The commit of a run *)
Section remove.
Context {N : Layers} (unaligned : bool) (s : state) (B : list (list Z * Z)) (ns : list Z) (h : gmap Z node) (kb : list Z)
  (ka : key) (b : Z) (l : leaf) (c : tcursor) (r : Z).
Context (Hrep : table_in s B ns) (Hfound : found_at unaligned (kmem s) h (table_root s) kb B ns ka b l).
Context (Hc : c = mkCursor b ka (Leaf.lower ka l) r (match_state (kmem s) l ka)
  (original_n_ c) (original_v_ c) (updated_v_ c) (new_nodes_ c)).
Abbreviation s1 := (with_heap s (<[b := NLeaf (locked_leaf l)]> h)).

Lemma removed_size v ms ep live free esb :
  leaf_entries l live free esb -> 0 < match_state (kmem s) l ka ->
  Leaf.size (remove_perm (touched l v ms ep) (kip_i (Leaf.lower ka l))) = Leaf.size l - 1.
Proof using Hrep Hfound.
  intros Hle Hst. pose proof (tr_mem _ _ _ Hrep) as Hm. assert (key_wf unaligned (kmem s) ka) as Hka by apply Hfound.
  destruct (match_cases unaligned (kmem s) ka Hm Hka l live free esb Hle) as [(_ & Hq & _)|[(H0 & _)|(H0 & _)]]; [lia| |lia..].
  destruct (lower_hit l live free esb ka Hle Hq) as (l1 & l2 & -> & Hi & _).
  pose proof (leaf_remove _ l1 _ l2 free esb (touched_entries l v ms ep _ _ _ Hle)) as Hler. rewrite Hi in Hler.
  rewrite (leaf_size _ _ _ _ Hler), (leaf_size _ _ _ _ Hle), !zlength_app, zlength_cons. lia.
Qed.

Lemma remove_stays ep :
  0 < match_state (kmem s) l ka -> Leaf.size l <> 1 \/ prev_ l = 0 ->
  exists s2 B' ns', (forall fuel, exists c',
      (update_leaf b (fun l => Leaf.set_phantom_epoch l ep) ;! finish fuel (-1) c) s1 = Some (c', s2)) /\
    table_in s2 B' ns' /\ updated kb None B B'.
Proof using Hrep Hfound Hc.
  intros Hst Hstay. pose proof (tr_mem _ _ _ Hrep) as Hm.
  assert (key_wf unaligned (kmem s) ka) as Hka by apply Hfound.
  destruct (found_view unaligned _ _ _ _ _ _ _ _ _ Hm Hfound (tr_nodup _ _ _ Hrep)) as
    (par & lo & hi & n & esb & Bnb & nso & Hv).
  pose proof (lw_ok _ _ _ _ _ _ _ _ _ _ _ _ _ _ _ _ Hv) as Hlok.
  destruct (removal_leaf_eq _ _ _ _ _ ep Hlok) as (v & ms & Hrl & Hms & Hbusy & Hfl & Hns).
  destruct (unlock_quiet _ Hbusy) as (Hq & Hul & Hur).
  pose proof (remove_value unaligned (kmem s) h _ kb B ns ka b l par lo hi n esb Bnb nso Hm Hka Hv (removal_leaf l ep) v ms ep
    (Nodeversion.unlock NV v)) as Hreb. ospecialize* Hreb; try done.
  { destruct Hfl as [Hf1 Hf2]. split; [by rewrite Hul|]. by rewrite Hur, Hns, Hf2, andb_true_r. }
  destruct (rebound_in_place s B ns _ kb None Hrep Hreb) as (B' & ns' & Hrep' & Hu).
  set (lr := remove_perm (removal_leaf l ep) (kip_i (Leaf.lower ka l))) in *.
  exists (add_callbacks (with_heap s (<[b := NLeaf (Leaf.set_version lr (Nodeversion.unlock NV v))]> h)) (collected (kmem s) c lr)), B', ns'.
  split_and!; [|by apply add_callbacks_rep|done]. intros fuel.
  erewrite bind_eq; [|apply update_leaf_eq, lookup_insert_eq]. rewrite with_heap_insert.
  assert (state_ c = 1) as Hst1.
  { rewrite Hc. cbn [state_]. destruct (lo_entries _ _ _ _ _ Hlok) as (live & free & Hle).
    destruct (match_cases unaligned _ ka Hm Hka l live free esb Hle) as [H|[H|H]]; lia. }
  assert (n_ c = b /\ kx_ c = Leaf.lower ka l) as [Hn Hkx] by (by rewrite Hc).
  set (s2 := with_heap s _).
  destruct (finish_removed fuel s2 c l ep par lo hi esb Hst1 Hlok) as [c' Hfin].
  - rewrite Hn. apply lookup_insert_eq.
  - rewrite Hkx. fold lr. destruct (lo_entries _ _ _ _ _ Hlok) as (live & free & Hle). unfold lr.
    rewrite Hrl, (removed_size _ _ _ live free esb) by done. destruct Hstay; [left; lia|by right].
  - exists c'. rewrite Hfin. rewrite Hkx. fold lr. unfold s2. rewrite Hn. cbn [heap with_heap kmem].
    assert (lversion lr = v) as -> by (unfold lr; by rewrite Hrl).
    f_equal. f_equal. unfold add_callbacks, with_heap. cbn. by rewrite insert_insert_eq.
Qed.

(** The leaf loses its only entry, and is not the leftmost of its layer. *)
Lemma rebound_shrunk g kb0 v lim ns0 :
  rebound g (table_root s) kb0 v B ns0 -> NoDup ns0 -> (forall a, a ∈ ns0 -> a ∈ ns) ->
  exists B' ns', table_in (with_limbo s g lim) B' ns' /\ updated kb0 v B B'.
Proof using Hrep.
  intros (B' & ns' & Hr & Hu & Hp) Hnd Hsub. destruct Hrep as [_ _ Ha Hf Hm]. exists B', ns'. split; [|done]. split; try done.
  - by rewrite Hp.
  - intros a. rewrite Hp. intros Hin. by apply Ha, Hsub.
Qed.

Lemma only_entry live free esb Bnb (R : Z -> list (list Z * Z) -> list Z -> Prop) :
  leaf_entries l live free esb -> 0 < match_state (kmem s) l ka -> Leaf.size l = 1 -> Forall2 (entry_rep R) esb Bnb ->
  nodes Bnb = [] /\ updated (key_bytes (kmem s) ka) None (binds Bnb) [].
Proof using Hrep Hfound.
  intros Hle Hst Hsz HR. pose proof (tr_mem _ _ _ Hrep) as Hm.
  assert (key_wf unaligned (kmem s) ka) as Hka by apply Hfound.
  destruct (match_cases unaligned (kmem s) ka Hm Hka l live free esb Hle) as [(_ & Hq & Hkx & Hek)|[(H0 & _)|(H0 & _)]]; [lia| |lia..].
  set (q := kip_p (Leaf.lower ka l)) in *.
  destruct (lower_hit l live free esb ka Hle Hq) as (l1 & l2 & Hlive & _ & Hesb & _). fold q in Hlive, Hesb.
  rewrite (leaf_size _ _ _ _ Hle), Hlive, zlength_app, zlength_cons in Hsz.
  pose proof (zlength_nonneg l1). pose proof (zlength_nonneg l2).
  assert (l1 = [] /\ l2 = []) as [-> ->] by (unfold zlength in *; destruct l1, l2; cbn in *; try lia; done).
  rewrite Hesb in HR. cbn [map app] in HR. inversion HR as [|? [Be nse] ? Bb2 Hre He2]; subst. inversion He2; subst.
  unfold entry_rep in Hre. destruct (Z.eqb_spec (e_keylenx (slot_entry l q)) layer_keylenx) as [|_]; [done|]. injection Hre as -> ->.
  split; [done|]. cbn. rewrite Hek. split; cbn; [done|]. intros k Hk. by rewrite decide_False.
Qed.

Lemma remove_goes ep :
  0 < match_state (kmem s) l ka -> Leaf.size l = 1 -> prev_ l <> 0 ->
  exists s2 B' ns', (exists F, forall fuel, (F <= fuel)%nat -> exists c',
      (update_leaf b (fun l => Leaf.set_phantom_epoch l ep) ;! finish fuel (-1) c) s1 = Some (c', s2)) /\
    table_in s2 B' ns' /\ updated kb None B B'.
Proof using Hrep Hfound Hc.
  intros Hst Hsz1 Hprev. pose proof (tr_mem _ _ _ Hrep) as Hm.
  assert (key_wf unaligned (kmem s) ka) as Hka by apply Hfound.
  destruct (found_layer unaligned _ _ _ _ _ _ _ _ _ Hm Hfound (tr_nodup _ _ _ Hrep)) as
    (p & d & par & lo & hi & n & es1 & esb & es2 & lns & Bns1 & Bnb & Bns2 & nso & Hat & Hperm & Hndo & Hrepl).
  pose proof (lf_focus _ _ _ _ _ _ _ _ _ _ _ _ _ _ _ _ _ _ Hat) as Hfocus.
  pose proof (fc_ok _ _ _ _ _ _ _ _ _ _ _ _ _ _ _ _ _ Hfocus) as Hlok.
  destruct (lo_entries _ _ _ _ _ Hlok) as (live & free & Hle).
  destruct (only_entry _ _ _ _ _ Hle Hst Hsz1 (lf_esb _ _ _ _ _ _ _ _ _ _ _ _ _ _ _ _ _ _ Hat)) as [Hnone Hu].
  destruct (removal_leaf_eq _ _ _ _ _ ep Hlok) as (v & ms & Hrl & Hms & (_ & Hlk & _) & _).
  set (lr := remove_perm (removal_leaf l ep) (kip_i (Leaf.lower ka l))) in *.
  pose proof (tr_nodup _ _ _ Hrep) as Hnd. pose proof Hndo as Hndo'. apply NoDup_app in Hndo' as (_ & Hdis & Hndl).
  assert (forall a, a ∈ lns -> 0 < a < next_fresh s /\ a mod 64 = 0) as Haddr.
  { intros a Ha. apply (tr_addr _ _ _ Hrep). rewrite Hperm, elem_of_app. by right. }
  assert (state_ c = 1 /\ n_ c = b /\ kx_ c = Leaf.lower ka l) as (Hst1 & Hn & Hkx).
  { rewrite Hc. split_and!; [|done..]. cbn [state_].
    destruct (match_cases unaligned _ ka Hm Hka l live free esb Hle) as [H|[H|H]]; lia. }
  assert (Leaf.size lr = 0) as Hsz.
  { unfold lr. rewrite Hrl, (removed_size _ _ _ live free esb) by done. lia. }
  destruct (gone_run h (with_heap s (<[b := NLeaf lr]> h)) (Key.ikey0_ ka) b l lr d p par lo hi es1 esb es2 lns) as
    (g & lim & D & ns' & HD & Hnd' & Hsub & Hlinked & Hother & F & Hrun); try done.
  - apply Hat.
  - intros a Ha. destruct (Haddr a Ha). split; [lia|done].
  - unfold lr. by rewrite Hrl.
  - unfold lr. by rewrite Hrl.
  - unfold lr. rewrite Hrl. by apply (lo_parent _ _ _ _ _ Hlok).
  - unfold lr. by rewrite Hrl.
  - unfold lr. by rewrite Hrl.
  - assert (rebound g (table_root s) kb None B (nso ++ ns')) as Hreb.
    { apply (Hrepl g p D [] []); try done.
      - intros a Ha. apply Hother. by apply Hdis.
      - destruct (node_parent_of _ _ _ _ _ _ _ _ HD) as (nd & Hgp & _).
        eapply (node_climbs g p D _ ns' p nd HD); [|by eapply node_addr|done|by left].
        intros a Ha. destruct (Haddr a (Hsub a Ha)). lia. }
    destruct (rebound_shrunk g kb None lim (nso ++ ns') Hreb) as (B' & ns2 & Hrep' & Hup).
    + apply NoDup_app. apply NoDup_app in Hndo as (? & ? & ?). split_and!; [done| |done]. intros a Ha Ha'%Hsub. by apply (Hdis a).
    + intros a. rewrite Hperm, !elem_of_app. intros [?|?%Hsub]; tauto.
    + exists (with_limbo s g lim), B', ns2. split_and!; [|done..]. exists F. intros fuel Hf. exists c.
      erewrite bind_eq; [|apply update_leaf_eq, lookup_insert_eq]. rewrite with_heap_insert.
      apply (finish_unlinked _ _ _ l ep par lo hi esb); rewrite ?Hn, ?Hkx; try done.
      * apply lookup_insert_eq.
      * intros root prefix. cbn [heap with_heap]. rewrite with_heap_insert. by apply Hrun.
Qed.

Lemma remove_found ep :
  0 < match_state (kmem s) l ka ->
  exists s2 B' ns', (exists F, forall fuel, (F <= fuel)%nat -> exists c',
      (update_leaf b (fun l => Leaf.set_phantom_epoch l ep) ;! finish fuel (-1) c) s1 = Some (c', s2)) /\
    table_in s2 B' ns' /\ updated kb None B B'.
Proof using Hrep Hfound Hc.
  intros Hst. destruct (decide (Leaf.size l = 1 /\ prev_ l <> 0)) as [[? ?]|Hne]; [by apply remove_goes|].
  destruct (remove_stays ep Hst) as (s2 & B' & ns' & Hrun & H); [lia|]. exists s2, B', ns'. split; [|done].
  by exists 0%nat.
Qed.

Lemma remove_absent :
  match_state (kmem s) l ka = 0 ->
  exists s2 B' ns', (forall fuel, exists c', finish fuel (-1) c s1 = Some (c', s2)) /\
    table_in s2 B' ns' /\ updated kb (assoc kb B) B B'.
Proof using Hrep Hfound Hc.
  intros Hst. pose proof (tr_mem _ _ _ Hrep) as Hm.
  destruct (found_view unaligned _ _ _ _ _ _ _ _ _ Hm Hfound (tr_nodup _ _ _ Hrep)) as
    (par & lo & hi & n & esb & Bnb & nso & [Hl Hlok Hrange Hreps Hns Hnd Hdep Hrepl Hoth]).
  assert (rebound h (table_root s) kb (assoc kb B) B ns) as Hreb.
  { destruct (Hrepl h l esb Bnb (assoc kb B)) as (B' & ns' & H1 & H2 & H3); try done.
    exists B', ns'. split_and!; [done..|]. by rewrite H3, Hns. }
  destruct (rebound_in_place s B ns h kb _ Hrep Hreb) as (B' & ns' & Hrep' & Hu).
  exists (with_heap s h), B', ns'. split_and!; [|done..]. intros fuel. unfold finish. rewrite Hc.
  cbn [state_ n_ original_n_]. rewrite Hst. cbn [Z.ltb Z.eqb Z.compare andb Pos.eqb]. rewrite bind_ret.
  assert (heap s1 !! b = Some (NLeaf (locked_leaf l))) as Hl1 by apply lookup_insert_eq.
  unfold leaf_full_unlocked_version. rewrite bind_assoc, (bind_eq _ _ _ _ _ (get_leaf_eq _ _ _ Hl1)), bind_ret.
  eexists. erewrite bind_eq.
  2: { destruct (_ =? _); apply (unlock_eq _ _ (NLeaf (locked_leaf l))); try done;
       by destruct (lock_busy (lversion l) (lo_quiet _ _ _ _ _ Hlok)). }
  cbn [heap with_heap node_set_version node_version lversion locked_leaf Leaf.set_version].
  unfold lockv. rewrite (unlock_lock _ (lo_quiet _ _ _ _ _ Hlok)), insert_insert_eq.
  unfold ret. f_equal. f_equal. unfold with_heap. cbn. f_equal. apply insert_id. rewrite Hl. by destruct l.
Qed.
End remove.
