(* ===== verification/Table.v ===== *)
(** The table as a map: [get] returns what the bindings of the tree say, and
    [initialize] makes an empty table. *)
From Stdlib Require Import Sorted.
From S2P Require Import Prelude Compiler Memory StringSlice Key Ksearch Kpermuter Nodeversion.
From S2P Require Import Stringbag Node Heap Get Insert Remove Tree Find Steps LeafSpec Locate Put NewLayer PutSpec.

(** * [get] *)
(** C1: On any well-formed table at rest, [get] terminates and returns the value
    bound to the key's string, however many layers and levels lead to it. *)
Theorem get_correct unaligned s B ns k :
  table_rep s B ns -> 0 <= str_len k ->
  exists F, forall fuel, (F <= fuel)%nat ->
    get unaligned fuel k s =
    Some ((list_to_map B : gmap (list Z) Z) !! str_bytes (kmem s) k, s).
Proof. apply get_spec. Qed.

(** * The empty table *)
Definition empty_state (m : mem) : state := mkState ∅ 4096 [] [] 0 m.

Lemma make_root_empty : exists l, Leaf.make_root 0 0 = Some l /\
  leaf_ok 0 0 (2 ^ ikey_bits) l [] /\ prev_ l = 0 /\ next_ l = 0.
Proof.
  eexists. split; [by vm_compute|]. split; [|done]. split; try done.
  - exists [], (rev (seqZ 0 15)). split; try done.
    + split; [by vm_compute..|]. cbn [app]. symmetry. apply Permutation_rev.
    + constructor.
  - by left.
Qed.

Lemma initialize_in {N : Layers} s : (0 < max_layers)%nat ->
  table_root s = 0 -> 0 < next_fresh s -> next_fresh s mod 64 = 0 -> mem_bytes (kmem s) ->
  exists s', initialize s = Some (tt, s') /\ table_in s' [] [next_fresh s].
Proof.
  intros HN Hr Hf Ha Hm. destruct make_root_empty as (l & Hl & Hok & Hp & Hn).
  unfold initialize, gets, bind, require, lift, allocate, set_table_root, ret. rewrite Hr, Hl. cbn.
  eexists. split; [done|]. split; cbn.
  - unfold max_layers in *. destruct N as [|N]; [lia|]. exists 1%nat, (next_fresh s), [], [next_fresh s], []. split_and!; [..|constructor|done|done].
    + eapply climbs_root; [by apply elem_of_cons; left|by apply lookup_insert_eq|apply Hok|].
      by apply (lo_root _ _ _ _ _ Hok).
    + left. exists l. split_and!; [by apply lookup_insert_eq|done|done].
    + by eapply linked_single; [apply lookup_insert_eq|..].
  - apply NoDup_singleton.
  - intros a ->%list_elem_of_singleton. split; [lia|done].
  - rewrite Zplus_mod, Ha. done.
  - done.
Qed.

(** * A table with two layers

    "a" is bound to 7 in the first layer; "abcdefgh" has a layer below it,
    with "ij" bound to 9. *)
Definition slice (b : list Z) : Z := foldl (fun x c => 256 * x + c) 0 (take 8 (b ++ repeat 0 8)).
Definition one_entry (l : leaf) (p keylenx ikey lv : Z) : option leaf :=
  l ← Leaf.write_slot l p keylenx ikey lv;
  Some (Leaf.set_permutation l (make_sorted leaf_width (Leaf.size l + 1))).
Definition first_leaf : option leaf :=
  l ← Leaf.make_root 0 0;
  l ← one_entry l 0 1 (slice [97]) 7;
  one_entry l 1 layer_keylenx (slice (seqZ 97 8)) 8192.
Definition second_leaf : option leaf :=
  l ← Leaf.make_root 0 0;
  one_entry l 0 2 (slice [105; 106]) 9.
Definition two_layers (l1 l2 : leaf) : state :=
  mkState {[ 4096 := NLeaf l1; 8192 := NLeaf l2 ]} 16384 [] [] 4096
    (store (fun _ => 0) 100 (seqZ 97 10)).
Definition two_layers_bindings : list (list Z * Z) := [([97], 7); (seqZ 97 10, 9)].

(** A root leaf with the first [n] slots live. *)
Lemma leaf_ok_sorted l n es :
  0 <= n <= 15 -> leaf_arrays l -> permutation_ l = make_sorted leaf_width n ->
  es = map (slot_entry l) (seqZ 0 n) -> Forall entry_ok es -> StronglySorted entry_lt es ->
  Forall (fun e => 0 <= e_ikey e < 2 ^ ikey_bits) es ->
  lversion l = Nodeversion.mark_root NV (Nodeversion.make NV true) -> lparent_ l = 0 -> prev_ l = 0 ->
  modstate_ l = modstate_insert -> next_ l = 0 ->
  leaf_ok 0 0 (2 ^ ikey_bits) l es /\ prev_ l = 0 /\ next_ l = 0.
Proof.
  intros Hn Ha Hp He Hok Hs Hr Hv Hpar Hprev Hm Hnext. split; [|done]. split; [..|by left].
  - exists (seqZ 0 n), (reverse (seqZ n (15 - n))). split; try done.
    rewrite Hp. by apply make_sorted_repr.
  - done.
  - rewrite Hv. by vm_compute.
  - rewrite Hv. by vm_compute.
  - intros _. rewrite Hv. by vm_compute.
  - done.
  - done.
Qed.

Lemma first_leaf_ok : exists l, first_leaf = Some l /\
  leaf_ok 0 0 (2 ^ ikey_bits) l
    [mkEntry (slice [97]) 1 [] 7; mkEntry (slice (seqZ 97 8)) layer_keylenx [] 8192] /\ prev_ l = 0 /\ next_ l = 0.
Proof.
  eexists. split; [by vm_compute|]. apply (leaf_ok_sorted _ 2).
  - lia.
  - by split.
  - by vm_compute.
  - by vm_compute.
  - constructor; [split; [by vm_compute|left; by vm_compute]|].
    constructor; [split; [by vm_compute|right; right; by vm_compute]|constructor].
  - constructor; [repeat constructor|]. constructor; [by left; vm_compute|constructor].
  - repeat (constructor; [by vm_compute|]). constructor.
  - done.
  - done.
  - done.
  - done.
  - done.
Qed.

Lemma second_leaf_ok : exists l, second_leaf = Some l /\
  leaf_ok 0 0 (2 ^ ikey_bits) l [mkEntry (slice [105; 106]) 2 [] 9] /\ prev_ l = 0 /\ next_ l = 0.
Proof.
  eexists. split; [by vm_compute|]. apply (leaf_ok_sorted _ 1).
  - lia.
  - by split.
  - by vm_compute.
  - by vm_compute.
  - constructor; [split; [by vm_compute|left; by vm_compute]|constructor].
  - repeat constructor.
  - repeat (constructor; [by vm_compute|]). constructor.
  - done.
  - done.
  - done.
  - done.
  - done.
Qed.

Lemma root_leaf_rep h l es r :
  h !! r = Some (NLeaf l) -> leaf_ok 0 0 (2 ^ ikey_bits) l es /\ prev_ l = 0 /\ next_ l = 0 ->
  climbs h [r] r r /\ node_rep 1 h 0 r 0 (2 ^ ikey_bits) es [r] /\ linked h 0 (leaves h [r]).
Proof.
  intros Hr (Hok & Hp & Hn). split; [|split; [by left; exists l|by eapply linked_single]].
  eapply climbs_root; [by apply elem_of_cons; left|done|apply Hok|].
  by apply (lo_root _ _ _ _ _ Hok).
Qed.

Lemma two_layers_rep l1 l2 :
  first_leaf = Some l1 -> second_leaf = Some l2 ->
  @table_in 2%nat (two_layers l1 l2) two_layers_bindings [4096; 8192].
Proof.
  intros H1 H2. destruct first_leaf_ok as (l1' & H1' & Hok1), second_leaf_ok as (l2' & H2' & Hok2).
  simplify_eq/=. set (h := heap (two_layers l1 l2)).
  assert (h !! 4096 = Some (NLeaf l1) /\ h !! 8192 = Some (NLeaf l2)) as [Hh1 Hh2] by done.
  destruct (root_leaf_rep h l1 _ 4096 Hh1 Hok1) as (Hc1 & Hn1 & Hk1).
  destruct (root_leaf_rep h l2 _ 8192 Hh2 Hok2) as (Hc2 & Hn2 & Hk2).
  split.
  - exists 1%nat, 4096, [mkEntry (slice [97]) 1 [] 7; mkEntry (slice (seqZ 97 8)) layer_keylenx [] 8192],
      [4096], [([([97], 7)], []); ([(seqZ 97 10, 9)], [8192])].
    split_and!; [exact Hc1|exact Hn1|exact Hk1| |done..].
    constructor; [done|]. constructor; [|constructor].
    exists [([105; 106], 9)]. split_and!; [|by repeat constructor|done].
    exists 1%nat, 8192, [mkEntry (slice [105; 106]) 2 [] 9], [8192], [([([105; 106], 9)], [])].
    split_and!; [exact Hc2|exact Hn2|exact Hk2|by repeat constructor|done..].
  - by apply (bool_decide_unpack (NoDup [4096; 8192])).
  - intros a Ha. cbn. rewrite !elem_of_cons, elem_of_nil in Ha. destruct Ha as [->|[->|[]]]; done.
  - done.
  - apply store_bytes; [intros x; by unfold in_u|]. apply Forall_seqZ. unfold in_u. lia.
Qed.

(** The key "abcdefghij", which leads through both layers. *)
Lemma get_correct_witness :
  exists l1 l2, first_leaf = Some l1 /\ second_leaf = Some l2 /\
    exists F, forall fuel, (F <= fuel)%nat ->
      get true fuel (mkStr 100 10) (two_layers l1 l2) = Some (Some 9, two_layers l1 l2).
Proof.
  destruct first_leaf_ok as (l1 & H1 & _), second_leaf_ok as (l2 & H2 & _).
  exists l1, l2. split_and!; [done..|].
  destruct (get_correct true (two_layers l1 l2) two_layers_bindings [4096; 8192] (mkStr 100 10)) as [F HF].
  - by exists 2%nat; apply two_layers_rep.
  - done.
  - exists F. intros fuel Hf. rewrite (HF fuel Hf). by vm_compute.
Defined.

(** * [put] *)
(** C2: On any well-formed table at rest, a put terminates, through new layers
    and splits up to a new root where it needs them: the table is again
    well-formed, the key's string has the value that [apply] makes of the old
    one (of [None] when there was none), all other strings keep theirs, and the
    results are those of [apply], which sees the phantom epoch of a leaf of the
    table when the key is new. *)
Theorem put_correct {X} unaligned okbuf observe apply (x : X) s B ns a len :
  table_rep s B ns -> 0 <= len <= max_key_len -> okbuf + max_key_len <= a \/ a + len <= okbuf ->
  let k := str_bytes (kmem s) (mkStr a len) in
  let old := (list_to_map B : gmap (list Z) Z) !! k in
  exists b l, b ∈ ns /\ heap s !! b = Some (NLeaf l) /\ forall v' inserted x',
    apply old (match old with Some _ => x | None => observe (phantom_epoch_ l) x end) = Some (v', inserted, x') ->
    exists F s' B' ns', table_rep s' B' ns' /\
      (list_to_map B' : gmap (list Z) Z) = <[k := v']> (list_to_map B) /\
      forall fuel, (F <= fuel)%nat ->
        run_insert unaligned fuel okbuf observe apply a len x s = Some (inserted, x', s').
Proof. apply put_spec. Qed.

(** The key "abcdefghij" again, with its value raised by 5. *)
Lemma put_correct_witness :
  exists l1 l2, first_leaf = Some l1 /\ second_leaf = Some l2 /\
    exists F s' B' ns', table_rep s' B' ns' /\
      (list_to_map B' : gmap (list Z) Z) = <[seqZ 97 10 := 14]> (list_to_map two_layers_bindings) /\
      forall fuel, (F <= fuel)%nat ->
        run_insert true fuel 1000 (fun _ x => x) (fun old x => Some (default 0 old + x, true, x)) 100 10 5 (two_layers l1 l2) =
        Some (true, 5, s').
Proof.
  destruct first_leaf_ok as (l1 & H1 & _), second_leaf_ok as (l2 & H2 & _).
  exists l1, l2. split; [done|]. split; [done|].
  destruct (put_correct true 1000 (fun _ x => x) (fun old x => Some (default 0 old + x, true, x)) 5
    (two_layers l1 l2) two_layers_bindings [4096; 8192] 100 10) as (b & l & _ & _ & Hput).
  - by exists 2%nat; apply two_layers_rep.
  - by vm_compute.
  - right. by vm_compute.
  - destruct (Hput _ _ _ eq_refl) as (F & s' & B' & ns' & Hrep & Hmap & Hrun).
    exists F, s', B', ns'. split; [done|]. split; [exact Hmap|exact Hrun].
Defined.
