(* ===== verification/Order.v ===== *)
(** The bindings of a table are in lexicographic order of their keys: the
    entries of a tree by slice and length, and the layers below them. *)
From Stdlib Require Import Sorted.
From stdpp Require Import sorting.
From S2P Require Import Prelude Compiler Memory StringSlice Key Ksearch Kpermuter Nodeversion.
From S2P Require Import Stringbag Node Heap Tree Find Locate.

Definition key_lt (kv kv' : list Z * Z) : Prop := lex (fst kv) (fst kv') < 0.

(** * The strings of an entry *)
Lemma zlength_ikey_bytes i : zlength (ikey_bytes i) = 8.
Proof. unfold zlength. by rewrite length_ikey_bytes. Qed.

Lemma pad_app_ge (i : Z) (w : list Z) : pad 8 (ikey_bytes i ++ w) = ikey_bytes i.
Proof.
  rewrite pad_ge by (rewrite length_app, length_ikey_bytes; lia).
  by rewrite take_app_length' by (by rewrite length_ikey_bytes).
Qed.

(** What a binding of an entry starts with, and how long it is. *)
Lemma binding_slice L e B ns : entry_ok e -> entry_rep L e (B, ns) ->
  Forall (fun kv => pad 8 (fst kv) = ikey_bytes (e_ikey e) /\
    (e_keylenx e <= 8 -> zlength (fst kv) = e_keylenx e) /\ (8 < e_keylenx e -> 8 < zlength (fst kv))) B.
Proof.
  intros [Hi He]. unfold entry_rep. cbn [fst snd].
  destruct (Z.eqb_spec (e_keylenx e) layer_keylenx) as [Hl|Hl].
  - intros (B' & _ & Hne & ->). apply Forall_fmap. eapply Forall_impl; [exact Hne|]. intros [k v] Hk. unfold compose. cbn [fst snd] in *.
    rewrite pad_app_ge, zlength_app, zlength_ikey_bytes, Hl. split; [done|]. split; [by intros []|].
    intros _. destruct k; [done|]. rewrite zlength_cons. pose proof (zlength_nonneg k). lia.
  - intros [= -> ->]. apply Forall_singleton. cbn [fst]. unfold entry_key.
    destruct He as [(Hn & -> & Hz)|[(Hn & _ & Hs)|(Hn & _)]]; [| |done].
    + rewrite app_nil_r, Z.min_l by lia. split; [symmetry; by apply ikey_bytes_trailing|].
      unfold zlength. rewrite length_take, length_ikey_bytes. lia.
    + rewrite Hn. change (ksuf_keylenx `min` 8) with 8. rewrite take_ge by (rewrite length_ikey_bytes; lia).
      rewrite pad_app_ge, zlength_app, zlength_ikey_bytes. split; [done|]. split; [by intros []|lia].
Qed.

Lemma binding_bytes L e B ns : entry_ok e -> entry_rep L e (B, ns) ->
  (forall B', L (e_lv e) B' ns -> Forall (fun kv => bytes (fst kv)) B') -> Forall (fun kv => bytes (fst kv)) B.
Proof.
  intros [Hi He]. unfold entry_rep. cbn [fst snd].
  destruct (Z.eqb_spec (e_keylenx e) layer_keylenx) as [Hl|Hl].
  - intros (B' & HL & _ & ->) Hb. apply Forall_fmap. eapply Forall_impl; [by apply Hb|]. intros [k v] Hk. unfold compose. cbn [fst snd] in *.
    apply bytes_app. split; [apply ikey_bytes_bytes|done].
  - intros [= -> ->] _. apply Forall_singleton. cbn [fst]. unfold entry_key. apply bytes_app. split.
    + apply Forall_take, ikey_bytes_bytes.
    + destruct He as [(_ & -> & _)|[(_ & Hs & _)|(_ & ->)]]; [constructor|done|constructor].
Qed.

Lemma layer_bytes n : forall h p B ns, layer_rep n h p B ns -> Forall (fun kv => bytes (fst kv)) B.
Proof.
  induction n as [|n IH]; intros h p B ns; cbn [layer_rep]; [done|].
  intros (d & r & es & lns & Bns & _ & Hnode & _ & He & -> & _).
  pose proof (node_entries_ok _ _ _ _ _ _ _ _ Hnode) as Hok. clear Hnode.
  induction He as [|e [B nsb] es Bns He _ IHe]; cbn; [constructor|]. apply Forall_cons in Hok as [Hok Hoks].
  apply Forall_app. split; [|by apply IHe]. eapply binding_bytes; [done|exact He|]. intros B' HL. by eapply IH.
Qed.

(** * Order *)
(** Where a key compares unequal to an entry, so do the strings. *)
Lemma entry_lex unaligned m ka L e B ns :
  mem_bytes m -> key_wf unaligned m ka -> entry_ok e -> entry_rep L e (B, ns) -> Forall (fun kv => bytes (fst kv)) B ->
  cmp_entry ka e <> 0 -> Forall (fun kv => lex (key_bytes m ka) (fst kv) = Z.sgn (cmp_entry ka e)) B.
Proof.
  intros Hm Hka Hok He Hb Hc. pose proof (binding_slice _ _ _ _ Hok He) as Hs.
  eapply Forall_impl; [apply Forall_and; split; [exact Hb|exact Hs]|]. intros [w v] (Hw & Hpad & Hshort & Hlong). cbn [fst] in *.
  set (b := Key.key_data unaligned (mem_of 0 w) 0 (zlength w)).
  pose proof (zlength_nonneg w) as Hwl.
  assert (mem_bytes (mem_of 0 w)) as Hm2 by by apply mem_of_bytes.
  assert (key_wf unaligned (mem_of 0 w) b) as Hbwf by by apply key_data_wf.
  destruct (compare_key_spec unaligned m (mem_of 0 w) ka b) as [Hne _]; try done.
  assert (key_bytes (mem_of 0 w) b = w) as Hkb by apply load_mem_of. rewrite Hkb in Hne.
  assert (Key.ikey0_ b = e_ikey e) as Hbi.
  { apply (key_of_pad unaligned (mem_of 0 w) b Hm2 Hbwf); [apply Hok|]. by rewrite Hkb. }
  assert (Z.sgn (Key.compare_key ka b) = Z.sgn (cmp_entry ka e)) as Hsgn.
  { unfold Key.compare_key, cmp_entry, Key.compare_ikey. rewrite Hbi. change (len_ b) with (zlength w).
    destruct (compare (Key.ikey0_ ka) (e_ikey e) =? 0); [|done]. unfold ikey_size.
    destruct (Z.ltb_spec 8 (len_ ka)), (Z.leb_spec (zlength w) 8), (Z.leb_spec (e_keylenx e) 8); lia. }
  rewrite <- Hsgn. apply Hne. intros H0. rewrite H0 in Hsgn. lia.
Qed.

(** The key made from a binding of an entry is at the entry. *)
Lemma binding_cmp unaligned L e B ns w v : entry_ok e -> entry_rep L e (B, ns) -> (w, v) ∈ B -> bytes w ->
  cmp_entry (Key.key_data unaligned (mem_of 0 w) 0 (zlength w)) e = 0.
Proof.
  intros Hok He Hin Hw. pose proof (binding_slice _ _ _ _ Hok He) as Hs.
  rewrite Forall_forall in Hs. destruct (Hs _ Hin) as (Hpad & Hshort & Hlong). cbn [fst] in *.
  set (b := Key.key_data unaligned (mem_of 0 w) 0 (zlength w)). pose proof (zlength_nonneg w) as Hwl.
  assert (Key.ikey0_ b = e_ikey e) as Hbi.
  { apply (key_of_pad unaligned (mem_of 0 w) b); [by apply mem_of_bytes|by apply key_data_wf|apply Hok|].
    unfold key_bytes. cbn [s_ len_ b Key.key_data]. by rewrite load_mem_of. }
  unfold cmp_entry, Key.compare_ikey, compare. rewrite Hbi, Z.eqb_refl. change (0 =? 0) with true. cbv iota.
  change (len_ b) with (zlength w). unfold ikey_size.
  destruct (Z.ltb_spec 8 (zlength w)), (Z.leb_spec (e_keylenx e) 8); cbn [b2z]; lia.
Qed.

Lemma entries_lt (unaligned : bool) L e f Be nse Bf nsf :
  entry_ok e -> entry_ok f -> entry_rep L e (Be, nse) -> entry_rep L f (Bf, nsf) ->
  Forall (fun kv => bytes (fst kv)) Be -> Forall (fun kv => bytes (fst kv)) Bf -> entry_lt e f ->
  forall kv kv', kv ∈ Be -> kv' ∈ Bf -> key_lt kv kv'.
Proof.
  intros Hoke Hokf He Hf Hbe Hbf Hlt [w v] [w' v'] Hin Hin'. unfold key_lt. cbn [fst].
  assert (bytes w) as Hw by exact (proj1 (Forall_forall _ _) Hbe _ Hin).
  pose proof (binding_cmp unaligned L e Be nse w v Hoke He Hin Hw) as Hc.
  set (b := Key.key_data unaligned (mem_of 0 w) 0 (zlength w)) in *.
  pose proof (cmp_entry_mono b e f Hlt ltac:(lia)) as Hcf.
  assert (Forall (fun kv => lex (key_bytes (mem_of 0 w) b) (fst kv) = Z.sgn (cmp_entry b f)) Bf) as Hl.
  { apply (entry_lex unaligned (mem_of 0 w) b L f Bf nsf); try done; [by apply mem_of_bytes|apply key_data_wf, zlength_nonneg|lia]. }
  rewrite Forall_forall in Hl. specialize (Hl _ Hin'). cbn [fst] in Hl.
  unfold key_bytes in Hl. cbn [s_ len_ b Key.key_data] in Hl. rewrite load_mem_of in Hl. rewrite Hl. lia.
Qed.

(** ** Entries of a tree *)
Lemma sorted_ranges es1 es2 k : Forall (fun e => e_ikey e < k) es1 -> Forall (fun e => k <= e_ikey e) es2 ->
  StronglySorted entry_lt es1 -> StronglySorted entry_lt es2 -> StronglySorted entry_lt (es1 ++ es2).
Proof.
  intros H1 H2 Hs1 Hs2. apply StronglySorted_app_2; [|done..]. intros e f He Hf.
  rewrite Forall_forall in H1, H2. specialize (H1 _ He). specialize (H2 _ Hf). left. lia.
Qed.

Lemma siblings_entries_sorted R kcs hi es ns :
  (forall c lo hi es ns, R c lo hi es ns -> in_range lo hi es) ->
  (forall c lo hi es ns, R c lo hi es ns -> StronglySorted entry_lt es) ->
  siblings_rep R kcs hi es ns -> StronglySorted entry_lt es.
Proof.
  intros Hr Hs. revert es ns. induction kcs as [|[k c] kcs IH]; intros es ns; cbn [siblings_rep].
  - intros [-> _]. constructor.
  - intros (es1 & es2 & ns1 & ns2 & -> & _ & _ & _ & H1 & H2).
    destruct (siblings_range R Hr _ _ _ _ H2) as [Hr2 _]. apply (sorted_ranges _ _ (next_key kcs hi)).
    + eapply Forall_impl; [by eapply Hr|]. cbn. lia.
    + eapply Forall_impl; [exact Hr2|]. cbn. lia.
    + by eapply Hs.
    + by eapply IH.
Qed.

Lemma node_sorted d : forall h par a lo hi es ns, node_rep d h par a lo hi es ns -> StronglySorted entry_lt es.
Proof.
  induction d as [|d IH]; intros h par a lo hi es ns; cbn [node_rep]; [done|].
  intros [(l & _ & _ & Hok)|(i & ns' & _ & _ & _ & (es1 & es2 & ns1 & ns2 & -> & _ & H1 & H2))].
  - destruct (lo_entries _ _ _ _ _ Hok) as (live & free & Hl). apply Hl.
  - assert (forall c lo hi es ns, node_rep d h a c lo hi es ns -> in_range lo hi es) as Hr by (intros; by eapply node_range).
    destruct (siblings_range _ Hr _ _ _ _ H2) as [Hr2 _].
    apply (sorted_ranges _ _ (next_key (separators i) hi)).
    + destruct H1 as [(_ & _ & -> & _)|(_ & _ & H1)]; [constructor|].
      eapply Forall_impl; [by eapply Hr|]. cbn. lia.
    + eapply Forall_impl; [exact Hr2|]. cbn. lia.
    + destruct H1 as [(_ & _ & -> & _)|(_ & _ & H1)]; [constructor|by eapply IH].
    + eapply siblings_entries_sorted; [exact Hr| |exact H2]. intros. by eapply IH.
Qed.

(** ** Bindings of a layer *)
Lemma layer_sorted n : forall h p B ns, layer_rep n h p B ns -> StronglySorted key_lt B.
Proof.
  induction n as [|n IH]; intros h p B ns; cbn [layer_rep]; [done|].
  intros (d & r & es & lns & Bns & _ & Hnode & _ & He & -> & _).
  pose proof (node_entries_ok _ _ _ _ _ _ _ _ Hnode) as Hok. pose proof (node_sorted _ _ _ _ _ _ _ _ Hnode) as Hs. clear Hnode.
  assert (forall e B ns, entry_ok e -> entry_rep (layer_rep n h) e (B, ns) -> Forall (fun kv => bytes (fst kv)) B) as Hbytes.
  { intros e B nsb Hoke Hre. eapply binding_bytes; [done|exact Hre|]. intros B' HL. by eapply layer_bytes. }
  induction He as [|e [B nsb] es Bns He Hes IHe]; cbn; [constructor|].
  apply Forall_cons in Hok as [Hok Hoks]. apply StronglySorted_cons in Hs as [Hlt Hs].
  apply StronglySorted_app_2; [| |by apply IHe].
  - intros kv kv' Hin Hin'. apply list_elem_of_In, in_concat in Hin' as (B2 & HB2 & Hin').
    apply in_map_iff in HB2 as ([B2' ns2] & <- & HB2). cbn in Hin'.
    apply list_elem_of_In, list_elem_of_lookup in HB2 as [i Hi].
    destruct (Forall2_lookup_r _ _ _ _ _ Hes Hi) as (f & Hf & Hrf).
    assert (f ∈ es) as Hfin by by eapply list_elem_of_lookup_2.
    pose proof (proj1 (Forall_forall _ _) Hoks _ Hfin) as Hokf.
    apply (entries_lt true (layer_rep n h) e f B nsb B2' ns2); [done|done|done|done|exact (Hbytes _ _ _ Hok He)|exact (Hbytes _ _ _ Hokf Hrf)| |done|by apply list_elem_of_In].
    exact (proj1 (Forall_forall _ _) Hlt _ Hfin).
  - revert He. unfold entry_rep. cbn [fst snd]. destruct (e_keylenx e =? layer_keylenx).
    + intros (B' & HL & _ & ->). pose proof (IH _ _ _ _ HL) as HB'. clear HL.
      induction HB' as [|x B' HB' IHB Hx]; cbn [map]; [constructor|]. constructor; [done|].
      apply Forall_fmap. eapply Forall_impl; [exact Hx|]. intros y Hy. unfold key_lt, compose in *. cbn [fst snd] in *.
      by rewrite lex_app_same.
    + intros [= -> ->]. constructor; constructor.
Qed.
