(* ===== verification/Chain.v ===== *)
(** The leaves of a tree as a list: their entries in order, and the links from
    each to the next. *)
From Stdlib Require Import Sorted.
From S2P Require Import Prelude Compiler Memory StringSlice Key Ksearch Kpermuter Nodeversion.
From S2P Require Import Stringbag Node Heap Tree Find Locate.

Definition leaf_holds (h : gmap Z node) (b : Z) (esb : list entry) : Prop :=
  exists l par lo hi, h !! b = Some (NLeaf l) /\ leaf_ok par lo hi l esb.

(** The leaves among the nodes [ns] hold the entries [es]. *)
Definition chained (h : gmap Z node) (ns : list Z) (es : list entry) : Prop :=
  exists ess, Forall2 (leaf_holds h) (leaves h ns) ess /\ es = concat ess.

Lemma chained_nil h : chained h [] [].
Proof. exists []. split; [constructor|done]. Qed.
Lemma chained_app h ns1 ns2 es1 es2 : chained h ns1 es1 -> chained h ns2 es2 -> chained h (ns1 ++ ns2) (es1 ++ es2).
Proof.
  intros (ess1 & H1 & ->) (ess2 & H2 & ->). exists (ess1 ++ ess2). rewrite leaves_app, concat_app.
  split; [by apply Forall2_app|done].
Qed.
Lemma chained_internode h a i ns es : h !! a = Some (NInternode i) -> chained h ns es -> chained h (a :: ns) es.
Proof. intros Ha (ess & H & ->). exists ess. by rewrite (leaves_internode _ _ _ _ Ha). Qed.

Section children.
Context (h : gmap Z node) (R : Z -> Z -> Z -> list entry -> list Z -> Prop)
  (HR : forall c lo hi es ns, R c lo hi es ns -> chained h ns es).
Lemma siblings_chained kcs hi es ns : siblings_rep R kcs hi es ns -> chained h ns es.
Proof using HR.
  revert es ns. induction kcs as [|[k c] kcs IH]; intros es ns; cbn [siblings_rep].
  - intros [-> ->]. apply chained_nil.
  - intros (es1 & es2 & ns1 & ns2 & -> & -> & _ & _ & H1 & H2). apply chained_app; [by eapply HR|by apply IH].
Qed.
Lemma children_chained lo c0 kcs hi es ns : children_rep R lo c0 kcs hi es ns -> chained h ns es.
Proof using HR.
  intros (es1 & es2 & ns1 & ns2 & -> & -> & H1 & H2). apply chained_app; [|by eapply siblings_chained].
  destruct H1 as [(_ & _ & -> & -> & _)|(_ & _ & H1)]; [apply chained_nil|by eapply HR].
Qed.
Lemma left_chained K k es ns : left_rep R K k es ns -> chained h ns es.
Proof using HR. destruct K as [|[lo c0] K]; [intros [-> ->]; apply chained_nil|apply children_chained]. Qed.
End children.

Lemma node_chained d : forall h par a lo hi es ns, node_rep d h par a lo hi es ns -> chained h ns es.
Proof.
  induction d as [|d IH]; intros h par a lo hi es ns; cbn [node_rep]; [done|].
  intros [(l & Hl & -> & Hok)|(i & ns' & Hi & -> & _ & Hc)].
  - exists [es]. rewrite (leaves_single _ _ _ Hl). split; [|by rewrite concat_cons, app_nil_r].
    constructor; [|constructor]. by exists l, par, lo, hi.
  - eapply chained_internode; [exact Hi|]. eapply children_chained; [|exact Hc]. intros. by eapply IH.
Qed.

(** What lies left and right of a path. *)
Lemma path_chained h b parb lob hib d par a lo hi es1 es2 ns1 ns2 :
  path h b parb lob hib d par a lo hi es1 es2 ns1 ns2 -> chained h ns1 es1 /\ chained h ns2 es2.
Proof.
  induction 1 as [|d par a lo hi i K1 k c K2 es1 es2 ns1 ns2 el er nl nr Hi Hok HK Hc Hk HL HR _ [IH1 IH2]].
  - split; apply chained_nil.
  - split.
    + eapply chained_internode; [exact Hi|]. apply chained_app; [|done]. eapply left_chained; [|exact HL].
      intros. by eapply node_chained.
    + apply chained_app; [done|]. eapply siblings_chained; [|exact HR]. intros. by eapply node_chained.
Qed.

(** * Links *)
Fixpoint flinks (h : gmap Z node) (bs : list Z) : Prop :=
  match bs with
  | [] => True
  | b :: bs => (exists l, h !! b = Some (NLeaf l) /\ next_ l = hd 0 bs) /\ flinks h bs
  end.
Lemma linked_flinks h p bs : linked h p bs -> flinks h bs.
Proof.
  revert p. induction bs as [|b bs IH]; intros p; cbn [linked flinks]; [done|].
  intros [(l & Hl & _ & Hn) Hr]. split; [by exists l|by eapply IH].
Qed.
Lemma flinks_app h bs1 bs2 : flinks h (bs1 ++ bs2) -> flinks h bs2.
Proof. induction bs1 as [|b bs1 IH]; cbn [app flinks]; [done|]. intros [_ H]. by apply IH. Qed.

(** From a leaf that a search found: the leaves after it. *)
Lemma focus_chain d h par a lo hi es ns x b l par' lo' hi' es1 esb es2 :
  focus d h par a lo hi es ns x b l par' lo' hi' es1 esb es2 -> NoDup ns -> flinks h (leaves h ns) ->
  exists bs ess, flinks h (b :: bs) /\ Forall2 (leaf_holds h) bs ess /\ es2 = concat ess /\ forall c, c ∈ bs -> c ∈ ns.
Proof.
  intros Hf Hnd Hl. destruct (fc_path _ _ _ _ _ _ _ _ _ _ _ _ _ _ _ _ _ Hf Hnd) as (ns1 & ns2 & -> & Hp).
  apply path_chained in Hp as [_ (ess & Hess & ->)]. exists (leaves h ns2), ess.
  rewrite leaves_app, (leaves_leaf_cons _ _ _ _ (fc_leaf _ _ _ _ _ _ _ _ _ _ _ _ _ _ _ _ _ Hf)) in Hl.
  apply flinks_app in Hl. split_and!; [done..|]. intros c [_ Hc]%elem_of_leaves.
  rewrite elem_of_app, elem_of_cons. tauto.
Qed.
