(* ===== verification/ScanSpec.v ===== *)
(** What a scan visits: the bindings from its first key on, in key order.

    A run is followed from the leaf it is at: [go_spec] for the rest of a layer,
    [down_spec] for a whole layer below, and [scan_initial_spec] for the way
    down to the first key.  What comes after a layer is a continuation: a
    hypothesis on every state in which the scan leaves it. *)
From Stdlib Require Import Sorted.
From stdpp Require Import sorting.
From S2P Require Import Prelude Compiler Memory StringSlice Key Ksearch Kpermuter Nodeversion.
From S2P Require Import Stringbag Node Heap Get Insert Remove Tree Find Steps LeafSpec Locate Put NewLayer PutSpec Table Scan Order Chain.

(** * The scanner *)
Section feed.
Context {A : Type} (visit_value : A -> list Z -> Z -> A * bool).

(** The visits of the bindings, until the scanner stops: its state, the count
    and whether it goes on. *)
Fixpoint feed (acc : A) (cnt : Z) (B : list (list Z * Z)) : A * Z * bool :=
  match B with
  | [] => (acc, cnt, true)
  | (k, v) :: B => let '(acc, c) := visit_value acc k v in if c then feed acc (cnt + 1) B else (acc, cnt + 1, false)
  end.
(** The scan ends with [r] during the visits of [B], or [K] holds after them. *)
Definition after (acc : A) (cnt : Z) (B : list (list Z * Z)) (r : A * Z) (K : A -> Z -> Prop) : Prop :=
  let '(acc, cnt, c) := feed acc cnt B in if c then K acc cnt else r = (acc, cnt).

Lemma feed_app acc cnt B1 B2 :
  feed acc cnt (B1 ++ B2) = let '(acc, cnt, c) := feed acc cnt B1 in if c then feed acc cnt B2 else (acc, cnt, false).
Proof.
  revert acc cnt. induction B1 as [|[k v] B1 IH]; intros acc cnt; cbn; [done|].
  destruct (visit_value acc k v) as [acc' []]; [apply IH|done].
Qed.
Lemma after_app acc cnt B1 B2 r K :
  after acc cnt (B1 ++ B2) r K <-> after acc cnt B1 r (fun acc cnt => after acc cnt B2 r K).
Proof. unfold after. rewrite feed_app. destruct (feed acc cnt B1) as [[acc' cnt'] []]; done. Qed.
Lemma after_mono acc cnt B r (K K' : A -> Z -> Prop) :
  (forall acc cnt, K acc cnt -> K' acc cnt) -> after acc cnt B r K -> after acc cnt B r K'.
Proof. unfold after. intros HK. destruct (feed acc cnt B) as [[acc' cnt'] []]; [apply HK|done]. Qed.
End feed.

(** * Leaves *)
Lemma safe_next_eq l : 0 <= next_ l < 2 ^ 64 -> next_ l mod 64 = 0 -> Leaf.safe_next l = next_ l.
Proof.
  intros Hr Hm. unfold Leaf.safe_next. apply Z.bits_inj'. intros n Hn. rewrite Z.land_spec.
  change (unot 64 1) with (Z.ones 64 - 1). destruct (decide (n = 0)) as [->|Hn0].
  - rewrite Z.bit0_odd. assert (Z.odd (next_ l) = false) as ->; [|done].
    rewrite <- Z.negb_even. apply negb_false_iff, Z.even_spec. exists (32 * (next_ l / 64)).
    pose proof (Z.div_mod (next_ l) 64 ltac:(lia)). lia.
  - replace (Z.ones 64 - 1) with (Z.shiftl (Z.ones 63) 1) by done. rewrite Z.shiftl_spec by lia.
    destruct (Z.ltb_spec n 64).
    + rewrite Z.ones_spec_low by lia. by rewrite andb_true_r.
    + rewrite Z.ones_spec_high by lia. rewrite andb_false_r. symmetry.
      destruct (Z.eq_dec (next_ l) 0) as [->|]; [apply Z.testbit_0_l|].
      apply Z.bits_above_log2; [lia|]. apply Z.log2_lt_pow2; [lia|].
      pose proof (Z.pow_le_mono_r 2 64 n). lia.
Qed.

(** Entries of different sign from a key determine the place of its own. *)
Lemma split_unique {X} (f : X -> Z) l1 x l2 E1 e R :
  l1 ++ x :: l2 = E1 ++ e :: R -> Forall (fun y => f y <> 0) l1 -> Forall (fun y => f y <> 0) l2 -> f x = 0 -> f e = 0 ->
  l1 = E1 /\ x = e /\ l2 = R.
Proof.
  revert E1. induction l1 as [|y l1 IH]; intros [|z E1] He H1 H2 Hx Hfe; cbn in He.
  - by injection He as -> ->.
  - injection He as -> ->. apply Forall_app in H2 as [_ H2]. apply Forall_cons in H2 as [H2 _]. done.
  - injection He as -> <-. apply Forall_cons in H1 as [H1 _]. done.
  - injection He as -> He. apply Forall_cons in H1 as [_ H1]. destruct (IH E1) as (-> & -> & ->); done.
Qed.

(** The memory of the key's buffer changes from [x] on only. *)
Definition kept (m m' : mem) (x : Z) : Prop := (forall a, a < x -> m' a = m a) /\ mem_bytes m'.
Lemma kept_refl m x : mem_bytes m -> kept m m x.
Proof. done. Qed.
Lemma kept_trans m m' m'' x y : y <= x -> kept m m' y -> kept m' m'' x -> kept m m'' y.
Proof. intros Hxy [H1 _] [H2 Hb]. split; [|done]. intros a Ha. rewrite H2 by lia. by apply H1. Qed.
Lemma kept_mono m m' x y : y <= x -> kept m m' x -> kept m m' y.
Proof. intros Hxy [H1 Hb]. split; [|done]. intros a Ha. apply H1. lia. Qed.
Lemma kept_load m m' x a n : kept m m' x -> a + n <= x -> load m' a n = load m a n.
Proof. intros [H _] Hn. apply load_ext. intros i Hi. apply H. lia. Qed.
Lemma kept_store m x l : mem_bytes m -> bytes l -> kept m (store m x l) x.
Proof. intros Hm Hl. split; [|by apply store_bytes]. intros a Ha. apply store_other. lia. Qed.

Definition at_mem (s : state) (m : mem) : state :=
  mkState (heap s) (next_fresh s) (limbo s) (callbacks s) (table_root s) m.

(** ** Room in the buffer of the key *)
(** The entry [e] at the offset [d] of the buffer. *)
Definition fits (d : Z) (e : entry) : Prop := d + ikey_size + zlength (e_suf e) <= keybuf_size.
(** The bindings below the offset [d] have keys of the greatest length at most. *)
Definition short (d : Z) (B : list (list Z * Z)) : Prop := Forall (fun kv => d + zlength (fst kv) <= max_key_len) B.

Lemma entries_fit L d es Bns : Forall entry_ok es -> Forall2 (entry_rep L) es Bns -> short d (concat (map fst Bns)) ->
  d + ikey_size <= keybuf_size -> Forall (fits d) es.
Proof.
  intros Hok Hr Hs Hd. induction Hr as [|e [B ns] es Bns He _ IH]; [constructor|]. apply Forall_cons in Hok as [[_ Hoke] Hok].
  cbn [map concat fst] in Hs. apply Forall_app in Hs as [Hs1 Hs2]. constructor; [|by apply IH]. unfold fits.
  destruct Hoke as [(_ & -> & _)|[(Hn & _ & _)|(_ & ->)]]; [by change (zlength []) with 0; lia| |by change (zlength []) with 0; lia].
  unfold entry_rep in He. rewrite Hn in He. change (ksuf_keylenx =? layer_keylenx) with false in He. cbv iota in He.
  injection He as -> _. rewrite Forall_singleton in Hs1. cbn [fst] in Hs1. unfold entry_key in Hs1. rewrite Hn in Hs1.
  change (ksuf_keylenx `min` 8) with 8 in Hs1. rewrite take_ge in Hs1 by (rewrite length_ikey_bytes; lia).
  rewrite zlength_app, zlength_ikey_bytes in Hs1. unfold ikey_size, max_key_len in *. change keybuf_size with 256. lia.
Qed.
Lemma short_prefix d p B : short d (map (add_prefix p) B) <-> short (d + zlength p) B.
Proof.
  unfold short. rewrite Forall_fmap. apply Forall_iff. intros [k v]. unfold compose, add_prefix. cbn [fst].
  rewrite zlength_app. by rewrite Z.add_assoc.
Qed.
Lemma store_suffix_eq ka l s : fits (s_ ka - first_ ka) (mkEntry 0 0 l 0) ->
  store_suffix ka l s = Some (ikey_size + zlength l, at_mem s (store (kmem s) (s_ ka + ikey_size) l)).
Proof.
  intros H. unfold store_suffix. rewrite bind_require; [done|]. unfold fits in H. cbn [e_suf] in H. unfold in_keybuf. apply Z.leb_le. lia.
Qed.
Lemma store_ikey_eq ka ikey s : s_ ka - first_ ka + ikey_size <= keybuf_size ->
  store_ikey ka ikey s = Some (mkKey ikey (len_ ka) (s_ ka) (first_ ka), at_mem s (fst (Key.assign_store_ikey (kmem s) ka ikey))).
Proof.
  intros H. unfold store_ikey. rewrite bind_require; [done|]. unfold in_keybuf. apply Z.leb_le. lia.
Qed.

(** An entry as the scan sees it at a slot. *)
Lemma slot_keylenx l p : Leaf.keylenx l p = e_keylenx (slot_entry l p).
Proof. done. Qed.
Lemma entry_layer e : entry_ok e -> Leaf.keylenx_is_layer (e_keylenx e) = (e_keylenx e =? layer_keylenx).
Proof.
  intros [_ H]. unfold Leaf.keylenx_is_layer, ksuf_keylenx, layer_keylenx in *.
  destruct H as [(? & _)|[(-> & _)|(-> & _)]]; [|done|done].
  destruct (Z.eqb_spec (e_keylenx e) 128); [lia|]. apply Z.ltb_ge. lia.
Qed.

Section leaf.
Context (s : state) (b : Z) (l : leaf) (par lo hi : Z) (es : list entry)
  (Hl : heap s !! b = Some (NLeaf l)) (Hok : leaf_ok par lo hi l es).
Abbreviation st_at root i stack := (mkStack root b (lversion l) (permutation_ l) i stack).

Lemma at_mem_leaf m : get_leaf b (at_mem s m) = Some (l, at_mem s m).
Proof using Hl. by apply get_leaf_eq. Qed.

Lemma kp_at root i stack e : zlookup es i = Some e ->
  exists p, kp (st_at root i stack) = p /\ 0 <= p /\ slot_entry l p = e.
Proof using Hok.
  intros He. destruct (lo_entries _ _ _ _ _ Hok) as (live & free & Hle).
  rewrite (le_es _ _ _ _ Hle), map_zlookup in He. destruct (zlookup live i) as [p|] eqn:Hp; [|done]. injection He as He.
  destruct (leaf_index l live free es Hle i p Hp) as [Hi Hr]. pose proof (zlookup_lt _ _ _ Hp).
  pose proof (leaf_size l live free es Hle) as Hs. unfold Leaf.size in Hs.
  exists p. split; [|split; [lia|done]]. unfold kp. cbn [sc_ki sc_perm].
  destruct (Z.leb_spec 0 i), (Z.ltb_spec i (Kpermuter.size (permutation_ l))); try lia. done.
Qed.
Lemma kp_end root i stack : zlength es <= i -> kp (st_at root i stack) = -1.
Proof using Hok.
  intros Hi. destruct (lo_entries _ _ _ _ _ Hok) as (live & free & Hle).
  pose proof (leaf_size l live free es Hle) as Hs. unfold Leaf.size in Hs.
  rewrite (le_es _ _ _ _ Hle) in Hi. unfold zlength in *. rewrite length_map in Hi.
  unfold kp. cbn [sc_ki sc_perm]. destruct (Z.ltb_spec i (Kpermuter.size (permutation_ l))); [lia|]. by rewrite andb_false_r.
Qed.

(** What the scan stores of the entry [e]. *)
Definition suffix_mem (m : mem) (ka : key) (e : entry) : mem :=
  if Leaf.keylenx_has_ksuf (e_keylenx e) then store m (s_ ka + ikey_size) (e_suf e) else m.
Definition key_mem (m : mem) (ka : key) (e : entry) : mem :=
  fst (Key.assign_store_ikey (suffix_mem m ka e) ka (e_ikey e)).
Definition stored_len (e : entry) : Z :=
  if Leaf.keylenx_has_ksuf (e_keylenx e) then ikey_size + zlength (e_suf e) else e_keylenx e.

Lemma slot_suffix p : Leaf.has_ksuf l p = true -> e_suf (slot_entry l p) = Leaf.ksuf l p.
Proof using Type. intros H. cbn [slot_entry e_suf]. by rewrite H. Qed.

(** One entry in front of [next_entry]. *)
Lemma next_entry_at fuel ka root i stack entry m e : zlookup es i = Some e -> fits (s_ ka - first_ ka) e ->
  next_entry (S fuel) forward ka (st_at root i stack) entry (at_mem s m) =
  if 0 <=? cmp_entry ka e then next_entry fuel forward ka (st_at root (i + 1) stack) (e_lv e) (at_mem s (suffix_mem m ka e))
  else
    let ka' := mkKey (e_ikey e) (len_ ka) (s_ ka) (first_ ka) in
    Some (if Leaf.keylenx_is_layer (e_keylenx e)
      then (scan_down, forward, push_layer (st_at root i stack) (e_lv e), ka', e_lv e)
      else (scan_emit, forward, st_at root i stack, Key.assign_store_length ka' (stored_len e), e_lv e),
      at_mem s (key_mem m ka e)).
Proof using Hl Hok.
  intros He Hfit. destruct (kp_at root i stack e He) as (p & Hkp & Hp & <-). cbn [next_entry sc_n].
  rewrite (bind_eq _ _ _ _ _ (at_mem_leaf m)), Hkp. destruct (Z.leb_spec 0 p); [|lia]. cbv zeta.
  assert (forall B (k : Z -> M B),
    bind (if Leaf.keylenx_has_ksuf (Leaf.keylenx l p) then store_suffix ka (Leaf.ksuf l p) else ret (Leaf.keylenx l p)) k (at_mem s m) =
    k (stored_len (slot_entry l p)) (at_mem s (suffix_mem m ka (slot_entry l p)))) as ->.
  { intros B k. unfold stored_len, suffix_mem. rewrite <- slot_keylenx.
    destruct (Leaf.keylenx_has_ksuf (Leaf.keylenx l p)) eqn:Hk; [|done]. rewrite slot_suffix by done.
    by rewrite (bind_eq _ _ _ _ _ (store_suffix_eq ka (Leaf.ksuf l p) (at_mem s m) ltac:(by rewrite <- slot_suffix))). }
  cbn [sc_v]. rewrite has_changed_refl. unfold Helper.is_duplicate.
  change (Key.compare_ikey ka (Leaf.ikey l p) (Leaf.keylenx l p)) with (cmp_entry ka (slot_entry l p)).
  destruct (0 <=? cmp_entry ka (slot_entry l p)); [done|]. pose proof (zlength_nonneg (e_suf (slot_entry l p))). unfold fits in Hfit.
  rewrite (bind_eq _ _ _ _ _ (store_ikey_eq ka _ (at_mem s _) ltac:(lia))). cbn [Helper.mark_key_complete].
  unfold key_mem. cbn [Key.assign_store_ikey fst].
  change (Leaf.keylenx l p) with (e_keylenx (slot_entry l p)).
  destruct (Leaf.keylenx_is_layer _); done.
Qed.

Lemma suffix_mem_kept m ka e : mem_bytes m -> entry_ok e -> kept m (suffix_mem m ka e) (s_ ka + ikey_size).
Proof using Type.
  intros Hm [_ He]. unfold suffix_mem. destruct (Leaf.keylenx_has_ksuf (e_keylenx e)); [|by apply kept_refl].
  apply kept_store; [done|]. destruct He as [(_ & -> & _)|[(_ & ? & _)|(_ & ->)]]; [constructor|done|constructor].
Qed.
Lemma key_mem_kept m ka e : mem_bytes m -> entry_ok e -> kept m (key_mem m ka e) (s_ ka).
Proof using Type.
  intros Hm He. pose proof (suffix_mem_kept m ka e Hm He) as H.
  apply (kept_trans m (suffix_mem m ka e)  _ (s_ ka) (s_ ka)); [lia|eapply kept_mono; [|exact H]; unfold ikey_size; lia|].
  unfold key_mem. cbn [Key.assign_store_ikey fst]. apply kept_store; [apply H|].
  rewrite (host_to_net_bytes 8). apply write_in_net_order_bytes.
Qed.
Lemma key_mem_slice m ka e : load (key_mem m ka e) (s_ ka) 8 = ikey_bytes (e_ikey e).
Proof using Type.
  unfold key_mem, store_word. cbn [Key.assign_store_ikey fst]. unfold store_word.
  change (Z.to_nat ikey_size) with (Z.to_nat 8). rewrite host_to_net_bytes.
  rewrite <- (zlength_ikey_bytes (e_ikey e)) at 2. apply load_store_same.
Qed.
(** The key of a value entry is then in the buffer. *)
Lemma key_mem_key m ka e : entry_ok e -> Leaf.keylenx_is_layer (e_keylenx e) = false ->
  stored_len e = zlength (entry_key e) /\ load (key_mem m ka e) (s_ ka) (stored_len e) = entry_key e.
Proof using Type.
  intros Hoke Hlay. pose proof (key_mem_slice m ka e) as Hs. pose proof Hoke as [_ He].
  unfold entry_key, stored_len, Leaf.keylenx_has_ksuf. destruct He as [(Hn & Hsuf & _)|[(Hn & _ & Hlen)|(Hn & _)]].
  - unfold ksuf_keylenx. destruct (Z.eqb_spec (e_keylenx e) 64); [lia|]. rewrite Hsuf, app_nil_r, Z.min_l by lia. split.
    + unfold zlength. rewrite length_take, length_ikey_bytes. lia.
    + rewrite <- (take_load _ _ 8) by lia. by rewrite Hs.
  - rewrite Hn. change (ksuf_keylenx =? ksuf_keylenx) with true. cbv iota. change (ksuf_keylenx `min` 8) with 8.
    rewrite take_ge by (rewrite length_ikey_bytes; lia). rewrite zlength_app, zlength_ikey_bytes. split; [done|].
    change ikey_size with 8. rewrite load_app, Hs by lia. f_equal.
    unfold key_mem, suffix_mem, Leaf.keylenx_has_ksuf. rewrite Hn. change (ksuf_keylenx =? ksuf_keylenx) with true. cbv iota.
    cbn [Key.assign_store_ikey fst]. unfold store_word, ikey_size. rewrite load_store_other; [apply load_store_same|].
    right. change (Z.to_nat 8) with 8%nat. unfold zlength. unfold write_in_host_order. rewrite length_le_bytes. lia.
  - rewrite entry_layer, Hn in Hlay by done. done.
Qed.
Lemma skip_entries root stack ka : forall D i entry m es0 R, es = es0 ++ D ++ R -> zlength es0 = i ->
  Forall (fun e => 0 <= cmp_entry ka e) D -> Forall entry_ok D -> Forall (fits (s_ ka - first_ ka)) D -> mem_bytes m ->
  exists entry' m', kept m m' (s_ ka + ikey_size) /\
    forall fuel, next_entry (length D + fuel) forward ka (st_at root i stack) entry (at_mem s m) =
      next_entry fuel forward ka (st_at root (i + zlength D) stack) entry' (at_mem s m').
Proof using Hl Hok.
  induction D as [|e D IH]; intros i entry m es0 R He Hi HD HokD Hfit Hm.
  - exists entry, m. split; [by apply kept_refl|]. intros fuel. by rewrite Z.add_0_r.
  - apply Forall_cons in HD as [He0 HD]. apply Forall_cons in HokD as [Hoke HokD]. apply Forall_cons in Hfit as [Hfite Hfit].
    pose proof (suffix_mem_kept m ka e Hm Hoke) as Hk.
    destruct (IH (i + 1) (e_lv e) (suffix_mem m ka e) (es0 ++ [e]) R) as (entry' & m' & Hk' & Hrun).
    + by rewrite <- app_assoc.
    + rewrite zlength_app, Hi. done.
    + done.
    + done.
    + done.
    + apply Hk.
    + exists entry', m'. split; [eapply kept_trans; [|exact Hk|exact Hk']; lia|]. intros fuel.
      change (length (e :: D) + fuel)%nat with (S (length D + fuel)). rewrite (next_entry_at _ _ _ _ _ _ _ e).
      * destruct (Z.leb_spec 0 (cmp_entry ka e)); [|lia]. rewrite Hrun, zlength_cons. f_equal. f_equal. lia.
      * rewrite He, zlookup_app_r by lia. by rewrite Hi, Z.sub_diag.
      * done.
Qed.

Lemma st_at_fresh : Nodeversion.deleted NV (lversion l) = false.
Proof using Hok. apply (quiet_bits _ (lo_quiet _ _ _ _ _ Hok)). Qed.

(** The next entry after the key. *)
Lemma find_next_entry root stack ka i entry m es0 D e R : es = es0 ++ D ++ e :: R -> zlength es0 = i ->
  Forall (fun e => 0 <= cmp_entry ka e) D -> cmp_entry ka e < 0 -> Forall entry_ok es ->
  Forall (fits (s_ ka - first_ ka)) (D ++ [e]) -> mem_bytes m ->
  exists m1, kept m m1 (s_ ka + ikey_size) /\ forall fuel, (length D < fuel)%nat ->
    find_next fuel forward ka (st_at root i stack) entry (at_mem s m) =
    let st := st_at root (i + zlength D) stack in
    let ka' := mkKey (e_ikey e) (len_ ka) (s_ ka) (first_ ka) in
    Some (if Leaf.keylenx_is_layer (e_keylenx e) then (scan_down, forward, push_layer st (e_lv e), ka', e_lv e)
      else (scan_emit, forward, st, Key.assign_store_length ka' (stored_len e), e_lv e),
      at_mem s (key_mem m1 ka e)).
Proof using Hl Hok.
  intros He Hi HD Hlt Hoks Hfit Hm. apply Forall_app in Hfit as [Hfit Hfite]. rewrite Forall_singleton in Hfite.
  assert (Forall entry_ok D) as HokD by (rewrite He in Hoks; apply Forall_app in Hoks as [_ Hoks]; by apply Forall_app in Hoks as [? _]).
  destruct (skip_entries root stack ka D i entry m es0 (e :: R) He Hi HD HokD Hfit Hm) as (entry' & m1 & Hk & Hrun).
  exists m1. split; [done|]. intros fuel Hf. unfold find_next. cbn [sc_v]. rewrite st_at_fresh.
  replace fuel with (length D + S (fuel - S (length D)))%nat by lia. rewrite Hrun. rewrite (next_entry_at _ _ _ _ _ _ _ e).
  - by destruct (Z.leb_spec 0 (cmp_entry ka e)); [lia|].
  - pose proof (zlength_nonneg D). rewrite He, !zlookup_app_r by lia. rewrite Hi. by replace (i + zlength D - i - zlength D) with 0 by lia.
  - done.
Qed.

(** The end of the leaf. *)
Lemma find_next_end root stack ka i entry m es0 D : es = es0 ++ D -> zlength es0 = i ->
  Forall (fun e => 0 <= cmp_entry ka e) D -> Forall entry_ok es -> Forall (fits (s_ ka - first_ ka)) D -> mem_bytes m ->
  Leaf.safe_next l = next_ l ->
  exists m1 entry', kept m m1 (s_ ka + ikey_size) /\ forall fuel, (length D < fuel)%nat ->
    find_next fuel forward ka (st_at root i stack) entry (at_mem s m) =
    if next_ l =? 0 then Some ((scan_up, forward, mkStack root 0 (lversion l) (permutation_ l) (i + zlength D) stack, ka, entry'), at_mem s m1)
    else bind (resync (fuel - S (length D)) forward ka (st_at root (i + zlength D) stack) (next_ l))
      (fun st => ret (scan_find_next, forward, st, ka, entry')) (at_mem s m1).
Proof using Hl Hok.
  intros He Hi HD Hoks Hfit Hm Hsafe.
  assert (Forall entry_ok D) as HokD by (rewrite He in Hoks; by apply Forall_app in Hoks as [_ ?]).
  destruct (skip_entries root stack ka D i entry m es0 []) as (entry' & m1 & Hk & Hrun); try done; [by rewrite app_nil_r|].
  exists m1, entry'. split; [done|]. intros fuel Hf. unfold find_next. cbn [sc_v]. rewrite st_at_fresh.
  replace fuel with (length D + S (fuel - S (length D)))%nat at 1 by lia. rewrite Hrun. cbn [next_entry sc_n].
  rewrite (bind_eq _ _ _ _ _ (at_mem_leaf m1)), kp_end by (rewrite He, zlength_app; lia).
  change (0 <=? -1) with false. cbv iota. cbn [sc_v]. rewrite has_changed_refl. cbn [negb]. cbv iota.
  unfold Helper.advance. rewrite bind_assoc, (bind_eq _ _ _ _ _ (at_mem_leaf m1)), bind_ret, Hsafe. by destruct (next_ l =? 0).
Qed.

(** Arriving at a leaf by its links. *)
Lemma resync_here fuel ka st m : resync fuel forward ka st b (at_mem s m) =
  Some (st_at (sc_root st) (kip_i (Leaf.lower ka l)) (node_stack_ st), at_mem s m).
Proof using Hl Hok.
  unfold resync, Helper.stable. rewrite bind_assoc, (bind_eq _ _ _ _ _ (stable_eq (at_mem s m) b (NLeaf l) Hl (lo_quiet _ _ _ _ _ Hok))), bind_ret.
  rewrite (bind_eq _ _ _ _ _ (at_mem_leaf m)). done.
Qed.
Lemma lower_first ka : Forall (fun e => cmp_entry ka e < 0) es -> kip_i (Leaf.lower ka l) = 0.
Proof using Hok.
  intros Hb. destruct (lo_entries _ _ _ _ _ Hok) as (live & free & Hle). rewrite (le_es _ _ _ _ Hle), Forall_fmap in Hb.
  destruct (leaf_lower_spec l live free es Hle ka) as [(_ & l1 & l2 & -> & <- & Ha & _)|(_ & _ & l1 & l2 & -> & <- & Ha & _)];
    apply Forall_app in Hb as [Hb _]; (destruct l1 as [|p l1]; [done|]);
    apply Forall_cons in Ha as [Ha _]; apply Forall_cons in Hb as [Hb _]; unfold compose in Hb; lia.
Qed.
Lemma lower_entry ka es0 e R : es = es0 ++ e :: R -> cmp_entry ka e = 0 -> kip_i (Leaf.lower ka l) = zlength es0.
Proof using Hok.
  intros He Hc. destruct (lo_entries _ _ _ _ _ Hok) as (live & free & Hle). rewrite (le_es _ _ _ _ Hle) in He.
  destruct (leaf_lower_spec l live free es Hle ka) as [(_ & l1 & l2 & -> & _ & Ha & Hb)|(_ & Hc' & l1 & l2 & -> & <- & Ha & Hb)].
  - exfalso. assert (e ∈ map (slot_entry l) (l1 ++ l2)) as Hin by (rewrite He, elem_of_app, elem_of_cons; tauto).
    apply list_elem_of_fmap in Hin as (p & -> & Hp). apply elem_of_app in Hp as [Hp|Hp].
    + apply (proj1 (Forall_forall _ _) Ha) in Hp. lia.
    + apply (proj1 (Forall_forall _ _) Hb) in Hp. lia.
  - destruct (cmp_ne_of_above_below l ka l1 l2 Ha Hb) as [H1 H2]. rewrite map_app in He. cbn [map] in He.
    destruct (split_unique _ _ _ _ _ _ _ He H1 H2 Hc' Hc) as (<- & _ & _). unfold zlength. by rewrite length_map.
Qed.
End leaf.

(** * The rest of a layer *)
Definition word_addr (a : Z) : Prop := 0 < a < 2 ^ 64 /\ a mod 64 = 0.
Lemma leaf_entries_ok par lo hi l es : leaf_ok par lo hi l es -> Forall entry_ok es.
Proof. intros H. destruct (lo_entries _ _ _ _ _ H) as (live & free & Hle). apply Hle. Qed.

Section run.
Context (unaligned : bool) {A : Type} (visit_value : A -> list Z -> Z -> A * bool) (s : state).
Abbreviation loop := (scan_loop unaligned visit_value).

Definition runs (f : nat -> M (A * Z)) (m : mem) (r : A * Z) : Prop :=
  exists F m', mem_bytes m' /\ forall fuel, (F <= fuel)%nat -> f fuel (at_mem s m) = Some (r, at_mem s m').

Lemma runs_eq N f g m m' r :
  (forall fuel, (N <= fuel)%nat -> f fuel (at_mem s m) = g fuel (at_mem s m')) -> runs g m' r -> runs f m r.
Proof using Type.
  intros He (F & m2 & Hb & Hg). exists (max F N), m2. split; [done|]. intros fuel Hf. rewrite He by lia. apply Hg. lia.
Qed.
Lemma runs_step N f g m m' r :
  (forall fuel, (N <= fuel)%nat -> f (S fuel) (at_mem s m) = g fuel (at_mem s m')) -> runs g m' r -> runs f m r.
Proof using Type.
  intros He (F & m2 & Hb & Hg). exists (S (max F N)), m2. split; [done|]. intros [|fuel] Hf; [lia|]. rewrite He by lia. apply Hg. lia.
Qed.

(** What the loop does in the state [scan_find_next], and after a visit. *)
Definition go (st : scanstackelt) (ka : key) (entry : Z) (acc : A) (cnt : Z) (fuel : nat) : M (A * Z) :=
  let! r := find_next (S fuel) forward ka st entry in
  let '(state, h, st, ka, entry) := r in loop fuel state h st ka entry acc cnt.
Lemma runs_go st ka entry acc cnt m r :
  runs (go st ka entry acc cnt) m r -> runs (fun fuel => loop fuel scan_find_next forward st ka entry acc cnt) m r.
Proof using Type. apply (runs_step 0). done. Qed.

(** The scan is at the slot [i] of the leaf [b], before the entries [R] of the
    leaf and [ess] of the leaves [bs] after it; it has been at all others.  The
    key of the layer begins at the offset [d] of the buffer. *)
Record pos (N : nat) (d : Z) (ka : key) (b : Z) (l : leaf) (i : Z) (bs : list Z) (ess : list (list entry))
    (R : list entry) (Bns : list (list (list Z * Z) * list Z)) : Prop := {
  ps_leaf : heap s !! b = Some (NLeaf l);
  ps_here : exists par lo hi es0 D, leaf_ok par lo hi l (es0 ++ D ++ R) /\ zlength es0 = i /\
    Forall (fun e => 0 <= cmp_entry ka e) D /\ Forall (fits d) D;
  ps_links : flinks (heap s) (b :: bs);
  ps_rest : Forall2 (leaf_holds (heap s)) bs ess;
  ps_below : Forall (fun e => cmp_entry ka e < 0) (R ++ concat ess);
  ps_sorted : StronglySorted entry_lt (R ++ concat ess);
  ps_binds : Forall2 (entry_rep (layer_rep N (heap s))) (R ++ concat ess) Bns;
  ps_fits : Forall (fits d) (R ++ concat ess);
  ps_short : short d (binds Bns);
  ps_depth : d + ikey_size * Z.of_nat (S N) <= keybuf_size;
  ps_addr : Forall word_addr bs;
  ps_nodup : NoDup (nodes Bns);
  ps_addrs : Forall word_addr (nodes Bns) }.

(** [pre]: the slices of the layers above, in the buffer in front of the key. *)
Definition prefixed (m : mem) (ka : key) (pre : list Z) : Prop :=
  s_ ka = first_ ka + zlength pre /\ load m (first_ ka) (zlength pre) = pre /\ mem_bytes m.
Lemma prefixed_kept m m' ka ka' pre : prefixed m ka pre -> s_ ka' = s_ ka -> first_ ka' = first_ ka ->
  kept m m' (s_ ka) -> prefixed m' ka' pre.
Proof using Type.
  intros (H1 & H2 & H3) Hs Hf Hk. unfold prefixed. rewrite Hs, Hf. split; [done|]. split; [|apply Hk].
  rewrite <- H2 at 2. eapply kept_load; [exact Hk|lia].
Qed.

Lemma prefixed_off m ka pre : prefixed m ka pre -> s_ ka - first_ ka = zlength pre.
Proof using Type. intros [H _]. lia. Qed.

(** The scan leaves the layer of [ka] at the end. *)
Definition leaves_layer (ka : key) (stack : list Z) (m : mem) (r : A * Z) (acc : A) (cnt : Z) : Prop :=
  forall st ka' entry m', node_stack_ st = stack -> s_ ka' = s_ ka -> first_ ka' = first_ ka -> kept m m' (s_ ka) ->
    runs (fun fuel => loop fuel scan_up forward st ka' entry acc cnt) m' r.
Lemma leaves_layer_kept ka ka' stack m m' r acc cnt : s_ ka' = s_ ka -> first_ ka' = first_ ka -> kept m m' (s_ ka) ->
  leaves_layer ka stack m r acc cnt -> leaves_layer ka' stack m' r acc cnt.
Proof using Type.
  intros Hs Hf Hk HK st ka2 entry m2 Hst Hs2 Hf2 Hk2. apply HK; [done|congruence|congruence|].
  rewrite Hs in Hk2. eapply kept_trans; [|exact Hk|exact Hk2]. lia.
Qed.

(** What a scan does in a layer of [N] layers from its start. *)
Definition down_ok (N : nat) : Prop := forall p B nsb st ka entry acc cnt m r pre,
  layer_rep N (heap s) p B nsb -> NoDup nsb -> Forall word_addr nsb -> nonempty_keys B ->
  short (zlength pre) B -> zlength pre + ikey_size * Z.of_nat N <= keybuf_size -> sc_root st = p -> prefixed m (mkKey 0 0 (s_ ka + ikey_size) (first_ ka)) pre ->
  after visit_value acc cnt (map (add_prefix pre) B) r
    (leaves_layer (mkKey 0 0 (s_ ka + ikey_size) (first_ ka)) (node_stack_ st) m r) ->
  runs (fun fuel => loop fuel scan_down forward st ka entry acc cnt) m r.

(** ** Passing an entry *)
Lemma cmp_own e len sk fk : entry_ok e ->
  (e_keylenx e <= 8 /\ len = e_keylenx e) \/ (8 < e_keylenx e /\ 8 < len) -> cmp_entry (mkKey (e_ikey e) len sk fk) e = 0.
Proof using Type.
  intros _ H. unfold cmp_entry, Key.compare_ikey, compare. cbn [Key.ikey0_ len_]. rewrite Z.eqb_refl. change (0 =? 0) with true.
  cbv iota. unfold ikey_size. destruct H as [[? ->]|[? ?]].
  - destruct (Z.ltb_spec 8 (e_keylenx e)); lia.
  - destruct (Z.ltb_spec 8 len); [|lia]. by destruct (Z.leb_spec (e_keylenx e) 8); [lia|].
Qed.
Lemma cmp_stored e sk fk : entry_ok e -> cmp_entry (mkKey (e_ikey e) (stored_len e) sk fk) e = 0.
Proof using Type.
  intros Hok. apply cmp_own; [done|]. unfold stored_len, Leaf.keylenx_has_ksuf, ikey_size. destruct Hok as [_ He]. unfold ksuf_keylenx, layer_keylenx in *.
  destruct He as [(? & _)|[(-> & _ & ?)|(-> & _)]].
  - destruct (Z.eqb_spec (e_keylenx e) 64); [lia|]. left. lia.
  - right. change (64 =? 64) with true. cbv iota. lia.
  - right. change (128 =? 64) with false. cbv iota. lia.
Qed.

Section advance.
Context (N : nat) (d : Z) (ka : key) (b : Z) (l : leaf) (i : Z) (bs : list Z) (ess : list (list entry)) (e : entry) (R : list entry)
  (Bn : list (list Z * Z) * list Z) (Bns : list (list (list Z * Z) * list Z)) (Hp : pos N d ka b l i bs ess (e :: R) (Bn :: Bns))
  (par lo hi : Z) (es0 D : list entry) (Hok : leaf_ok par lo hi l (es0 ++ D ++ e :: R)) (Hi : zlength es0 = i).

Lemma pos_entry_ok : entry_ok e.
Proof using Hok. pose proof (leaf_entries_ok _ _ _ _ _ Hok) as H. rewrite !Forall_app, Forall_cons in H. tauto. Qed.
Lemma pos_entry_rep : entry_rep (layer_rep N (heap s)) e Bn.
Proof using Hp. pose proof (ps_binds _ _ _ _ _ _ _ _ _ _ Hp) as H. by inversion H. Qed.

Lemma pos_advance ka' : cmp_entry ka' e = 0 ->
  pos N d ka' b l (i + zlength D + 1) bs ess R Bns /\ pos N d ka' b l (i + zlength D) bs ess R Bns.
Proof using Hp Hok Hi.
  intros Hc. destruct Hp as [Hl _ Hlk Hrest Hb Hs Hbn Hfit Hsh Hd Ha Hnd Haddr]. cbn [app] in *.
  apply Forall_cons in Hfit as [Hfite Hfit]. cbn [map concat] in Hsh. apply Forall_app in Hsh as [_ Hsh].
  apply Forall_cons in Hb as [_ Hb]. apply StronglySorted_cons in Hs as [He Hs]. inversion Hbn as [|???? _ Hbn']; subst.
  cbn [map concat] in Hnd, Haddr. apply NoDup_app in Hnd as (_ & _ & Hnd). apply Forall_app in Haddr as [_ Haddr].
  assert (Forall (fun f => cmp_entry ka' f < 0) (R ++ concat ess)) as Hb'.
  { eapply Forall_impl; [exact He|]. intros f Hf. apply (cmp_entry_mono ka' e f Hf). lia. }
  split; (split; [done| |done..]).
  - exists par, lo, hi, (es0 ++ D ++ [e]), []. split; [by rewrite <- !app_assoc|]. split; [|by split].
    rewrite !zlength_app. change (zlength [e]) with 1. lia.
  - exists par, lo, hi, (es0 ++ D), [e]. split; [by rewrite <- !app_assoc|]. split; [by rewrite zlength_app|].
    rewrite !Forall_singleton. split; [lia|done].
Qed.
End advance.

(** The key of the layer above, as it leaves the layer below. *)
Lemma unshift_key m ka m' ka' pre i : prefixed m ka pre -> in_u ikey_bits i -> load m (s_ ka) 8 = ikey_bytes i ->
  s_ ka' = s_ ka + ikey_size -> first_ ka' = first_ ka -> kept m m' (s_ ka + ikey_size) ->
  Key.unshift unaligned m' ka' = mkKey i 9 (s_ ka) (first_ ka) /\ Key.empty (Key.unshift unaligned m' ka') = false.
Proof using Type.
  intros Hpre Hi Hload Hs Hf Hk. pose proof (proj2 Hk) as Hm'. unfold Key.unshift. rewrite Hs, Hf.
  replace (s_ ka + ikey_size - ikey_size) with (s_ ka) by lia.
  rewrite make_comparable_sloppy_make, make_comparable_be by (done || unfold ikey_size; lia).
  rewrite (kept_load m m' _ (s_ ka) ikey_size Hk) by (unfold ikey_size; lia). change ikey_size with 8. rewrite Hload.
  rewrite pad_ge, take_ge, be_value_ikey_bytes by (done || (rewrite length_ikey_bytes; lia)). split; [done|].
  unfold Key.empty. cbn [len_]. by rewrite andb_false_r.
Qed.

(** From the layer below back to the leaf [b]. *)
Lemma scan_up_spec N d b l idx bs ess R Bns st ka ka' root stack entry acc cnt m r i :
  node_stack_ st = b :: root :: stack -> Key.unshift unaligned m ka' = mkKey i 9 (s_ ka) (first_ ka) ->
  Key.empty (Key.unshift unaligned m ka') = false -> pos N d (mkKey i 9 (s_ ka) (first_ ka)) b l idx bs ess R Bns ->
  (exists par lo hi es0 e, leaf_ok par lo hi l (es0 ++ e :: R) /\ zlength es0 = idx /\ cmp_entry (mkKey i 9 (s_ ka) (first_ ka)) e = 0) ->
  runs (go (mkStack root b (lversion l) (permutation_ l) idx stack) (mkKey i 9 (s_ ka) (first_ ka)) entry acc cnt) m r ->
  runs (fun fuel => loop fuel scan_up forward st ka' entry acc cnt) m r.
Proof using Type.
  intros Hst Hu He Hp (par & lo & hi & es0 & e & Hok & Hidx & Hc). apply (runs_step 0). intros fuel _. cbn [scan_loop].
  rewrite bind_gets, Hst. cbn [pop_layers kmem at_mem]. rewrite He. cbv iota. cbn [sc_n].
  rewrite (bind_eq _ _ _ _ _ (resync_here s b l par lo hi _ (ps_leaf _ _ _ _ _ _ _ _ _ _ Hp) Hok (S fuel) _ _ m)), Hu. cbn [sc_root node_stack_].
  by rewrite (lower_entry l par lo hi _ Hok _ es0 e R eq_refl Hc), Hidx.
Qed.

(** ** The rest of the layer *)
Lemma visit_stored m ka e : entry_ok e -> Leaf.keylenx_is_layer (e_keylenx e) = false -> forall pre, prefixed (key_mem m ka e) ka pre ->
  str_bytes (key_mem m ka e) (Key.full_string (Key.assign_store_length (mkKey (e_ikey e) (len_ ka) (s_ ka) (first_ ka)) (stored_len e))) =
  pre ++ entry_key e.
Proof using Type.
  intros Hok Hlay pre (H1 & H2 & _). destruct (key_mem_key m ka e Hok Hlay) as [Hlen Hload].
  unfold str_bytes, Key.full_string, Str_range, Key.assign_store_length. cbn [str_s str_len s_ first_ len_].
  pose proof (zlength_nonneg pre). pose proof (zlength_nonneg (entry_key e)).
  replace (s_ ka + stored_len e - first_ ka) with (zlength pre + stored_len e) by lia. rewrite load_app, H2 by lia.
  by rewrite <- H1, Hload.
Qed.

Lemma binding_of_entry L e Bn : entry_ok e -> Leaf.keylenx_is_layer (e_keylenx e) = false -> entry_rep L e Bn ->
  fst Bn = [(entry_key e, e_lv e)].
Proof using Type. intros Hok Hlay. rewrite entry_layer in Hlay by done. unfold entry_rep. rewrite Hlay. by intros ->. Qed.

(** What [go] does for the entry [e], when [rest] is known of what is after it. *)
Definition rest_ok (N : nat) (b : Z) (l : leaf) (bs : list Z) (ess : list (list Tree.entry)) (R : list Tree.entry) : Prop :=
  forall Bns ka i root stack entry acc cnt m r pre,
  pos N (zlength pre) ka b l i bs ess R Bns -> prefixed m ka pre ->
  after visit_value acc cnt (map (add_prefix pre) (binds Bns)) r (leaves_layer ka stack m r) ->
  runs (go (mkStack root b (lversion l) (permutation_ l) i stack) ka entry acc cnt) m r.

Lemma go_entry N (Hdown : down_ok N) b l bs ess e R : rest_ok N b l bs ess R -> rest_ok N b l bs ess (e :: R).
Proof using Type.
  intros Hrest Bns ka i root stack entry acc cnt m r pre Hp Hpre Haft.
  pose proof (ps_binds _ _ _ _ _ _ _ _ _ _ Hp) as Hbn. destruct Bns as [|Bn Bns]; [by inversion Hbn|]. clear Hbn.
  pose proof Hp as [Hl (par & lo & hi & es0 & D & Hok & Hi & HD & HfitD) Hlk Hbs Hb Hs Hbn Hfit Hsh Hdep Ha Hnd Haddr].
  pose proof (leaf_entries_ok _ _ _ _ _ Hok) as Hoks. cbn [app] in Hb. apply Forall_cons in Hb as [Hlt _].
  pose proof (pos_entry_ok l e R par lo hi es0 D Hok) as Hoke. pose proof (pos_entry_rep _ _ _ _ _ _ _ _ _ _ _ _ Hp) as Hre.
  pose proof (pos_advance _ _ _ _ _ _ _ _ _ _ _ _ Hp par lo hi es0 D Hok Hi) as Hadv.
  destruct (find_next_entry s b l par lo hi _ Hl Hok root stack ka i entry m es0 D e R) as (m1 & Hk1 & Hrun); try done;
    [|by apply Hpre|].
  { rewrite (prefixed_off m ka pre Hpre). apply Forall_app. split; [done|]. apply Forall_cons in Hfit as [Hfite _]. by apply Forall_singleton. }
  pose proof (key_mem_kept m1 ka e (proj2 Hk1) Hoke) as Hk2. set (m2 := key_mem m1 ka e) in *.
  assert (kept m m2 (s_ ka)) as Hk.
  { eapply kept_trans; [|eapply kept_mono; [|exact Hk1]|exact Hk2]; unfold ikey_size; lia. }
  pose proof (prefixed_kept m m2 ka ka pre Hpre eq_refl eq_refl Hk) as Hpre2.
  cbn [map concat] in Haft. rewrite map_app in Haft. apply after_app in Haft. cbv zeta in Hrun.
  destruct (Leaf.keylenx_is_layer (e_keylenx e)) eqn:Hlay.
  - (* a layer *)
    set (ka1 := mkKey (e_ikey e) (len_ ka) (s_ ka) (first_ ka)) in *.
    set (st1 := push_layer (mkStack root b (lversion l) (permutation_ l) (i + zlength D) stack) (e_lv e)) in *.
    apply (runs_eq (length D) _ (fun fuel => loop fuel scan_down forward st1 ka1 (e_lv e) acc cnt) m m2).
    { intros fuel Hf. unfold go, bind. by rewrite Hrun by lia. }
    assert (e_keylenx e = layer_keylenx) as Hkl by (rewrite entry_layer in Hlay by done; by apply Z.eqb_eq).
    unfold entry_rep in Hre. rewrite Hkl, Z.eqb_refl in Hre. destruct Hre as (B' & HL & Hne & HB').
    cbn [map concat] in Hnd, Haddr, Hsh. apply NoDup_app in Hnd as (Hnd & _ & _). apply Forall_app in Haddr as [Haddr _].
    apply Forall_app in Hsh as [Hsh _].
    assert (load m2 (s_ ka) 8 = ikey_bytes (e_ikey e)) as Hslice by apply key_mem_slice.
    eapply (Hdown (e_lv e) B' (snd Bn) st1 ka1 (e_lv e) acc cnt m2 r (pre ++ ikey_bytes (e_ikey e))); try done.
    + rewrite zlength_app, <- (short_prefix (zlength pre) (ikey_bytes (e_ikey e)) B'). rewrite HB' in Hsh. exact Hsh.
    + rewrite zlength_app, zlength_ikey_bytes. unfold ikey_size in *. lia.
    + destruct Hpre2 as (H1 & H2 & H3). unfold prefixed. cbn [s_ first_ ka1]. rewrite zlength_app, zlength_ikey_bytes.
      split; [unfold ikey_size; lia|]. split; [|done]. pose proof (zlength_nonneg pre).
      rewrite load_app, H2, <- H1, Hslice by lia. done.
    + rewrite HB' in Haft. change (fun kv => (ikey_bytes (e_ikey e) ++ fst kv, snd kv)) with (add_prefix (ikey_bytes (e_ikey e))) in Haft.
      rewrite map_add_prefix_app in Haft. eapply after_mono; [|exact Haft]. intros acc' cnt' Haft'.
      intros st' ka' entry' m' Hst Hs' Hf' Hk'. cbn [s_ first_ ka1 st1 push_layer node_stack_ sc_n sc_root] in *.
      destruct (unshift_key m2 ka m' ka' pre (e_ikey e) Hpre2 (proj1 Hoke) Hslice Hs' Hf' Hk') as [Hu Hemp].
      assert (cmp_entry (mkKey (e_ikey e) 9 (s_ ka) (first_ ka)) e = 0) as Hc by (apply cmp_own; [done|rewrite Hkl; by right]).
      assert (kept m2 m' (s_ ka)) as Hk3 by (eapply kept_mono; [|exact Hk']; unfold ikey_size; lia).
      destruct (Hadv (mkKey (e_ikey e) 9 (s_ ka) (first_ ka)) Hc) as [_ Hpos].
      eapply (scan_up_spec N (zlength pre) b l (i + zlength D) bs ess R Bns st' ka ka' root stack); try done.
      * exists par, lo, hi, (es0 ++ D), e. split; [by rewrite <- app_assoc|]. split; [by rewrite zlength_app, Hi|done].
      * eapply Hrest; [exact Hpos|by eapply prefixed_kept; [exact Hpre2|..]|].
        eapply after_mono; [|exact Haft']. intros acc2 cnt2. apply leaves_layer_kept; [done|done|].
        eapply kept_trans; [|exact Hk|exact Hk3]. lia.
  - (* a value *)
    rewrite (binding_of_entry _ _ _ Hoke Hlay Hre) in Haft. unfold after at 1 in Haft. cbn [map add_prefix fst snd feed] in Haft.
    set (ka1 := Key.assign_store_length (mkKey (e_ikey e) (len_ ka) (s_ ka) (first_ ka)) (stored_len e)) in *.
    pose proof (visit_stored m1 ka e Hoke Hlay pre Hpre2) as Hvis. fold ka1 m2 in Hvis.
    assert (forall fuel, (length D <= fuel)%nat -> go (mkStack root b (lversion l) (permutation_ l) i stack) ka entry acc cnt (S fuel) (at_mem s m) =
      (let '(acc, continue) := visit_value acc (pre ++ entry_key e) (e_lv e) in
       if negb continue then ret (acc, cnt + 1)
       else go (mkStack root b (lversion l) (permutation_ l) (i + zlength D + 1) stack) ka1 (e_lv e) acc (cnt + 1) fuel) (at_mem s m2)) as Hgo.
    { intros fuel Hf. unfold go at 1, bind at 1. rewrite Hrun by lia. cbn [scan_loop]. rewrite bind_gets. cbn [kmem at_mem].
      rewrite Hvis. done. }
    destruct (visit_value acc (pre ++ entry_key e) (e_lv e)) as [acc' []].
    + apply (runs_step (length D) _ (go (mkStack root b (lversion l) (permutation_ l) (i + zlength D + 1) stack) ka1 (e_lv e) acc' (cnt + 1)) m m2).
      { intros fuel Hf. by rewrite Hgo. }
      destruct (Hadv ka1) as [Hpos _]; [by apply cmp_stored|].
      eapply Hrest; [exact Hpos|by eapply prefixed_kept; [exact Hpre|..]|].
      eapply after_mono; [|exact Haft]. intros acc2 cnt2. by apply leaves_layer_kept.
    + subst r. exists (S (length D)), m2. split; [apply Hk|]. intros [|fuel] Hf; [lia|]. rewrite Hgo by lia. done.
Qed.

Lemma go_spec N (Hdown : down_ok N) : forall ess bs b l R, rest_ok N b l bs ess R.
Proof using Type.
  induction ess as [|es2 ess IHess]; intros bs b l; (induction R as [|e R IHR]; [|by apply go_entry]);
    intros Bns ka i root stack entry acc cnt m r pre Hp Hpre Haft;
    pose proof Hp as [Hl (par & lo & hi & es0 & D & Hok & Hi & HD & HfitD) Hlk Hrest Hb Hs Hbn Hfit Hsh Hdep Ha Hnd Haddr];
    rewrite <- (prefixed_off m ka pre Hpre) in HfitD;
    pose proof (leaf_entries_ok _ _ _ _ _ Hok) as Hoks; rewrite app_nil_r in Hok, Hoks.
  - (* the last leaf *)
    inversion Hrest; subst bs. inversion Hbn; subst Bns. destruct Hlk as [(l3 & Hl' & Hnext) _].
    rewrite Hl in Hl'. injection Hl' as <-. cbn [hd] in Hnext.
    destruct (find_next_end s b l par lo hi _ Hl Hok root stack ka i entry m es0 D) as (m1 & entry' & Hk & Hrun); try done;
      [by apply Hpre|by rewrite safe_next_eq; rewrite Hnext|].
    apply (runs_eq (length D) _ (fun fuel => loop fuel scan_up forward (mkStack root 0 (lversion l) (permutation_ l) (i + zlength D) stack) ka entry' acc cnt) m m1).
    + intros fuel Hf. unfold go, bind. by rewrite Hrun, Hnext by lia.
    + apply Haft; try done. eapply kept_mono; [|exact Hk]. unfold ikey_size. lia.
  - (* to the next leaf *)
    inversion Hrest as [|b2 ? bs2 ? (l2 & par2 & lo2 & hi2 & Hl2 & Hok2) Hrest2]; subst bs. destruct Hlk as [(l3 & Hl' & Hnext) Hlk].
    rewrite Hl in Hl'. injection Hl' as <-. cbn [hd] in Hnext. apply Forall_cons in Ha as [Hb2 Ha].
    destruct Hb2 as [Hr2 Hm2].
    destruct (find_next_end s b l par lo hi _ Hl Hok root stack ka i entry m es0 D) as (m1 & entry' & Hk & Hrun); try done;
      [by apply Hpre|apply safe_next_eq; rewrite Hnext; [lia|done]|].
    cbn [app concat] in Hb. pose proof Hb as Hb'. apply Forall_app in Hb as [Hbe _].
    apply (runs_eq (length D) _ (fun fuel => loop fuel scan_find_next forward (mkStack root b2 (lversion l2) (permutation_ l2) 0 stack) ka entry' acc cnt) m m1).
    + intros fuel Hf. unfold go, bind at 1. rewrite Hrun, Hnext by lia. destruct (Z.eqb_spec b2 0); [lia|].
      unfold bind. rewrite (resync_here s b2 l2 par2 lo2 hi2 es2 Hl2 Hok2). cbn [sc_root node_stack_].
      by rewrite (lower_first l2 par2 lo2 hi2 es2 Hok2 ka Hbe).
    + apply runs_go. eapply (IHess bs2 b2 l2 es2 Bns); [|by eapply prefixed_kept; [exact Hpre|done|done|eapply kept_mono; [|exact Hk]; unfold ikey_size; lia]|].
      * split; try done. exists par2, lo2, hi2, [], []. split_and!; [done|done|constructor|constructor].
      * eapply after_mono; [|exact Haft]. intros acc' cnt'. apply leaves_layer_kept; try done. eapply kept_mono; [|exact Hk]. unfold ikey_size. lia.
Qed.

(** ** A layer from its start *)
Lemma entry_nonempty L e B ns ka : entry_ok e -> entry_rep L e (B, ns) -> nonempty_keys B -> Key.ikey0_ ka = 0 -> len_ ka = 0 ->
  cmp_entry ka e < 0.
Proof using Type.
  intros [Hi He] Hr Hne Hk Hlen. unfold cmp_entry, Key.compare_ikey, compare. rewrite Hk, Hlen. unfold in_u in Hi.
  destruct (Z.eqb_spec 0 (e_ikey e)) as [E|E]; [|by destruct (Z.ltb_spec 0 (e_ikey e)); [|lia]].
  change (0 =? 0) with true. cbv iota. change (ikey_size <? 0) with false. cbv iota.
  unfold ksuf_keylenx, layer_keylenx in *. destruct He as [(Hn & Hs & _)|[(-> & _)|(-> & _)]]; [|lia..].
  destruct (decide (e_keylenx e = 0)) as [Hz|]; [|lia]. unfold entry_rep in Hr. cbn [fst snd] in Hr. rewrite Hz in Hr.
  change (0 =? layer_keylenx) with false in Hr. cbv iota in Hr. injection Hr as -> _. unfold nonempty_keys in Hne. rewrite Forall_singleton in Hne.
  cbn [fst] in Hne. destruct Hne. unfold entry_key. by rewrite Hz, Hs.
Qed.

Lemma entries_nonempty L ka es Bns : Key.ikey0_ ka = 0 -> len_ ka = 0 -> Forall entry_ok es -> Forall2 (entry_rep L) es Bns ->
  nonempty_keys (binds Bns) -> Forall (fun e => cmp_entry ka e < 0) es.
Proof using Type.
  intros Hk Hlen Hok Hr. induction Hr as [|e [B ns] es Bns He _ IH]; intros Hne; [constructor|].
  apply Forall_cons in Hok as [Hoke Hok]. cbn [map concat fst] in Hne. apply Forall_app in Hne as [Hne1 Hne2].
  constructor; [by eapply entry_nonempty|by apply IH].
Qed.

(** Where a leaf that a search found is, the rest of the layer is known. *)
Lemma leaf_at_pos N o ka p x b l d r par lo hi es1 es0 D R es2 lns Bns1 Bnb0 BnR Bns2 :
  leaf_at N (heap s) p x b l d r par lo hi es1 (es0 ++ D ++ R) es2 lns Bns1 (Bnb0 ++ BnR) Bns2 ->
  length Bnb0 = length (es0 ++ D) -> NoDup (lns ++ nodes (Bns1 ++ (Bnb0 ++ BnR) ++ Bns2)) ->
  Forall word_addr (lns ++ nodes (Bns1 ++ (Bnb0 ++ BnR) ++ Bns2)) -> StronglySorted entry_lt (es1 ++ (es0 ++ D ++ R) ++ es2) ->
  Forall (fun e => 0 <= cmp_entry ka e) D -> Forall (fun e => cmp_entry ka e < 0) (R ++ es2) ->
  Forall entry_ok (es1 ++ (es0 ++ D ++ R) ++ es2) -> short o (binds (Bns1 ++ (Bnb0 ++ BnR) ++ Bns2)) ->
  o + ikey_size * Z.of_nat (S N) <= keybuf_size ->
  exists bs ess, es2 = concat ess /\ pos N o ka b l (zlength es0) bs ess R (BnR ++ Bns2).
Proof using Type.
  intros [Hc Hlk Hf H1 Hb H2] Hlen Hnd Haddr Hs HD HR Hoks Hsh Hdep.
  assert (Forall (fits o) (es1 ++ (es0 ++ D ++ R) ++ es2)) as Hfits.
  { eapply entries_fit; [done|apply Forall2_app; [exact H1|apply Forall2_app; [exact Hb|exact H2]]|done|unfold ikey_size in *; lia]. }
  rewrite !map_app, !concat_app in Hsh. unfold short in Hsh. rewrite !Forall_app in Hfits. rewrite !Forall_app in Hsh.
  assert (NoDup lns) as Hndl by (by apply NoDup_app in Hnd as [? _]).
  destruct (focus_chain _ _ _ _ _ _ _ _ _ _ _ _ _ _ _ _ _ Hf Hndl (linked_flinks _ _ _ Hlk)) as (bs & ess & Hfl & Hrest & -> & Hbs).
  exists bs, ess. split; [done|]. apply Forall_app in Haddr as [Haddr1 Haddr2]. apply NoDup_app in Hnd as (_ & _ & Hnd).
  assert (Forall2 (entry_rep (layer_rep N (heap s))) R BnR) as HbR.
  { rewrite app_assoc in Hb. by destruct (Forall2_app_inv _ _ _ _ _ (eq_sym Hlen) Hb). }
  rewrite !map_app, !concat_app in Hnd, Haddr2.
  split; try done.
  - apply Hf.
  - exists par, lo, hi, es0, D. split; [apply Hf|]. split_and!; [done|done|tauto].
  - rewrite <- app_assoc in Hs. do 2 apply StronglySorted_app_1_r in Hs. rewrite <- app_assoc in Hs. by apply StronglySorted_app_1_r in Hs.
  - by apply Forall2_app.
  - apply Forall_app. tauto.
  - unfold short. rewrite map_app, concat_app. apply Forall_app. tauto.
  - apply Forall_forall. intros c Hc'. by apply (proj1 (Forall_forall _ _) Haddr1), Hbs.
  - rewrite map_app, concat_app. apply NoDup_app in Hnd as (_ & _ & Hnd). rewrite <- app_assoc in Hnd. by apply NoDup_app in Hnd as (_ & _ & Hnd).
  - rewrite map_app, concat_app. rewrite !Forall_app in Haddr2. rewrite Forall_app. tauto.
Qed.

Lemma down_spec N : down_ok N.
Proof using Type.
  induction N as [|N IH]; intros p B nsb st ka entry acc cnt m r pre Hr Hnd Haddr Hne Hsh Hdep Hst Hpre Haft; [done|].
  set (ka1 := mkKey 0 0 (s_ ka + ikey_size) (first_ ka)) in *.
  destruct (layer_rep_leaf_at N (at_mem s m) p B nsb ka1 Hr) as
    (b & l & d & rt & par & lo & hi & es1 & esb & es2 & lns & Bns1 & Bnb & Bns2 & F & Hat & HB & Hns & Hoks & Hreach); [done|].
  cbn [at_mem heap] in Hat. pose proof (lf_focus _ _ _ _ _ _ _ _ _ _ _ _ _ _ _ _ _ _ Hat) as Hf.
  pose proof (fc_leaf _ _ _ _ _ _ _ _ _ _ _ _ _ _ _ _ _ Hf) as Hl. pose proof (fc_ok _ _ _ _ _ _ _ _ _ _ _ _ _ _ _ _ _ Hf) as Hok.
  rewrite HB in Hsh. rewrite HB, !map_app, !concat_app in Hne. apply Forall_app in Hne as [Hne1 Hne2].
  assert (es1 = []) as ->.
  { destruct es1 as [|e es1]; [done|]. pose proof (fc_es1 _ _ _ _ _ _ _ _ _ _ _ _ _ _ _ _ _ Hf) as H1. apply Forall_cons in H1 as [H1 _].
    apply Forall_cons in Hoks as [[Hi _] _]. pose proof (fc_range _ _ _ _ _ _ _ _ _ _ _ _ _ _ _ _ _ Hf). cbn in *. unfold in_u in Hi. lia. }
  pose proof (lf_es1 _ _ _ _ _ _ _ _ _ _ _ _ _ _ _ _ _ _ Hat) as H1. inversion H1; subst Bns1. cbn [app] in *.
  assert (Forall (fun e => cmp_entry ka1 e < 0) (esb ++ es2)) as Hlt.
  { eapply (entries_nonempty _ ka1 _ (Bnb ++ Bns2)); try done.
    - apply Forall2_app; apply Hat.
    - by rewrite map_app, concat_app. }
  assert (StronglySorted entry_lt (esb ++ es2)) as Hs.
  { cbn [layer_rep] in Hr. pose proof (leaf_at_layer _ _ _ _ _ _ _ _ _ _ _ _ _ _ _ _ _ _ Hat) as H.
    subst nsb. apply NoDup_app in Hnd as (Hndl & _). pose proof (fc_replace _ _ _ _ _ _ _ _ _ _ _ _ _ _ _ _ _ Hf Hndl (heap s) l esb ltac:(done) Hl Hok) as Hn.
    by eapply node_sorted. }
  subst nsb. destruct (leaf_at_pos N (zlength pre) ka1 p (Key.ikey0_ ka1) b l d rt par lo hi [] [] [] esb es2 lns [] [] Bnb Bns2) as (bs & ess & -> & Hp); try done.
  apply (runs_step F _ (fun fuel => loop fuel scan_find_next forward (mkStack p b (lversion l) (permutation_ l) 0 (node_stack_ st)) ka1 entry acc cnt) m m).
  - intros fuel Hfu. cbn [scan_loop Helper.shift_clear Key.shift_clear]. cbn [find_retry]. rewrite Hst. fold ka1.
    rewrite bind_assoc, (bind_eq _ _ _ _ _ (Hreach (S fuel) ltac:(lia))). rewrite (st_at_fresh l par lo hi _ Hok).
    rewrite bind_assoc, (bind_eq _ _ _ _ _ (at_mem_leaf s b l Hl m)), bind_ret.
    rewrite <- (lower_first l par lo hi esb Hok ka1) by (by apply Forall_app in Hlt as [? _]). done.
  - apply runs_go. eapply (go_spec N IH ess bs b l esb); [exact Hp|exact Hpre|]. rewrite HB in Haft. exact Haft.
Qed.

(** ** The way to the first key *)
(** The keys a scan from [k] visits. *)
Definition starts (emit : bool) (k w : list Z) : bool := (lex k w <? 0) || (emit && (lex k w =? 0)).
Definition scanned (emit : bool) (k : list Z) (B : list (list Z * Z)) : list (list Z * Z) :=
  List.filter (fun kv => starts emit k (fst kv)) B.

Lemma scanned_app emit k B1 B2 : scanned emit k (B1 ++ B2) = scanned emit k B1 ++ scanned emit k B2.
Proof using Type. apply List.filter_app. Qed.
Lemma scanned_all emit k B : Forall (fun kv => lex k (fst kv) < 0) B -> scanned emit k B = B.
Proof using Type.
  induction 1 as [|kv B Hkv _ IH]; [done|]. cbn. unfold starts at 1. destruct (Z.ltb_spec (lex k (fst kv)) 0); [|lia].
  cbn. by f_equal.
Qed.
Lemma scanned_none emit k B : Forall (fun kv => 0 < lex k (fst kv)) B -> scanned emit k B = [].
Proof using Type.
  induction 1 as [|kv B Hkv _ IH]; [done|]. cbn. unfold starts at 1. destruct (Z.ltb_spec (lex k (fst kv)) 0); [lia|].
  destruct (Z.eqb_spec (lex k (fst kv)) 0); [lia|]. by rewrite andb_false_r.
Qed.
Lemma scanned_prefix emit p k B : scanned emit (p ++ k) (map (add_prefix p) B) = map (add_prefix p) (scanned emit k B).
Proof using Type.
  unfold scanned. induction B as [|kv B IH]; [done|]. cbn [map List.filter]. rewrite IH.
  assert (starts emit (p ++ k) (fst (add_prefix p kv)) = starts emit k (fst kv)) as -> by (unfold starts, add_prefix; cbn [fst]; by rewrite !lex_app_same).
  by destruct (starts emit k (fst kv)).
Qed.

Section first.
Context (m : mem) (ka : key) (Hm : mem_bytes m) (Hka : key_wf unaligned m ka).

Lemma entries_lex N es Bns : Forall entry_ok es -> Forall2 (entry_rep (layer_rep N (heap s))) es Bns ->
  Forall2 (fun e Bn => cmp_entry ka e <> 0 -> Forall (fun kv => lex (key_bytes m ka) (fst kv) = Z.sgn (cmp_entry ka e)) (fst Bn)) es Bns.
Proof using Hm Hka.
  intros Hok Hr. induction Hr as [|e [B ns] es Bns He _ IH]; [constructor|]. apply Forall_cons in Hok as [Hoke Hok].
  constructor; [|by apply IH]. intros Hc. eapply entry_lex; try done. eapply binding_bytes; [done|exact He|].
  intros B' HL. by eapply layer_bytes.
Qed.
Lemma scanned_below N emit es Bns : Forall entry_ok es -> Forall2 (entry_rep (layer_rep N (heap s))) es Bns ->
  Forall (fun e => cmp_entry ka e < 0) es -> scanned emit (key_bytes m ka) (binds Bns) = binds Bns.
Proof using Hm Hka.
  intros Hok Hr Hc. apply scanned_all. pose proof (entries_lex N es Bns Hok Hr) as H. clear Hr Hok.
  induction H as [|e Bn es Bns He _ IH]; cbn [map concat]; [constructor|]. apply Forall_cons in Hc as [Hce Hc].
  apply Forall_app. split; [|by apply IH]. eapply Forall_impl; [apply He; lia|]. cbn. lia.
Qed.
Lemma scanned_above N emit es Bns : Forall entry_ok es -> Forall2 (entry_rep (layer_rep N (heap s))) es Bns ->
  Forall (fun e => 0 < cmp_entry ka e) es -> scanned emit (key_bytes m ka) (binds Bns) = [].
Proof using Hm Hka.
  intros Hok Hr Hc. apply scanned_none. pose proof (entries_lex N es Bns Hok Hr) as H. clear Hr Hok.
  induction H as [|e Bn es Bns He _ IH]; cbn [map concat]; [constructor|]. apply Forall_cons in Hc as [Hce Hc].
  apply Forall_app. split; [|by apply IH]. eapply Forall_impl; [apply He; lia|]. cbn. lia.
Qed.
End first.

(** What [find_initial] does at the leaf it arrives at. *)
Definition initial_result (emit : bool) (ka : key) (m : mem) (l : leaf) (b : Z) (st : scanstackelt) : scan_state * scanstackelt * key * Z * mem :=
  let kx := Leaf.lower ka l in
  let st := mkStack (sc_root st) b (lversion l) (permutation_ l) (kip_i kx) (node_stack_ st) in
  let skip := with_ki st (kip_i kx + 1) in
  if 0 <=? kip_p kx then
    let e := slot_entry l (kip_p kx) in
    if Leaf.keylenx_is_layer (e_keylenx e) then (scan_down, push_layer st (e_lv e), ka, e_lv e, m)
    else if Leaf.keylenx_has_ksuf (e_keylenx e) then
      if starts emit (str_bytes m (Key.suffix ka)) (e_suf e) then
        (scan_emit, st, Key.assign_store_length ka (stored_len e), e_lv e, suffix_mem m ka e)
      else (scan_find_next, skip, ka, e_lv e, m)
    else if emit then (scan_emit, st, ka, e_lv e, m)
    else (scan_find_next, skip, ka, e_lv e, m)
  else (scan_find_next, st, ka, 0, m).

Lemma find_initial_spec emit ka m l b st par lo hi es F p : heap s !! b = Some (NLeaf l) -> leaf_ok par lo hi l es ->
  (0 <= kip_p (Leaf.lower ka l) -> fits (s_ ka - first_ ka) (slot_entry l (kip_p (Leaf.lower ka l))) /\ 0 <= s_ ka - first_ ka) -> sc_root st = p ->
  (forall fuel, (F <= fuel)%nat -> reach_leaf fuel p ka (at_mem s m) = Some ((b, lversion l), at_mem s m)) ->
  forall fuel, (F < fuel)%nat -> find_initial fuel forward ka emit st (at_mem s m) =
    let '(r, m1) := initial_result emit ka m l b st in Some (r, at_mem s m1).
Proof using Type.
  intros Hl Hok Hfits Hst Hreach [|[|fuel]] Hf; [lia|discriminate (Hreach 0%nat ltac:(lia))|].
  cbn [find_initial]. rewrite Hst, (bind_eq _ _ _ _ _ (Hreach (S (S fuel)) ltac:(lia))). cbn [fst snd initial_node].
  rewrite (st_at_fresh l par lo hi _ Hok). rewrite bind_assoc, bind_gets, bind_assoc, (bind_eq _ _ _ _ _ (at_mem_leaf s b l Hl m)).
  rewrite bind_assoc, bind_require.
  2: { change (Helper.lower_with_position forward ka (Leaf.permutation l) l) with (Leaf.lower ka l).
    destruct (Z.leb_spec 0 (kip_p (Leaf.lower ka l))) as [H0|]; [|done]. destruct (Hfits H0) as [Hfit Hd].
    change (Leaf.keylenx l (kip_p (Leaf.lower ka l))) with (e_keylenx (slot_entry l (kip_p (Leaf.lower ka l)))).
    destruct (Leaf.keylenx_has_ksuf (e_keylenx (slot_entry l (kip_p (Leaf.lower ka l))))) eqn:Hk; [|done]. cbn [andb negb orb].
    rewrite <- slot_suffix by done. unfold fits in Hfit. apply Z.leb_le. unfold ikey_size, max_key_len in *. change keybuf_size with 256 in *. lia. }
  rewrite bind_assoc, (bind_eq _ _ _ _ _ (version_eq (at_mem s m) b (NLeaf l) Hl)). cbn [node_version kmem at_mem]. rewrite has_changed_refl.
  unfold initial_result. cbv zeta. change (Helper.lower_with_position forward ka (Leaf.permutation l) l) with (Leaf.lower ka l).
  rewrite Hst. destruct (Z.leb_spec 0 (kip_p (Leaf.lower ka l))) as [H0|]; [|done].
  change (Leaf.keylenx l (kip_p (Leaf.lower ka l))) with (e_keylenx (slot_entry l (kip_p (Leaf.lower ka l)))).
  destruct (Leaf.keylenx_is_layer (e_keylenx (slot_entry l (kip_p (Leaf.lower ka l))))); [done|].
  destruct (Leaf.keylenx_has_ksuf (e_keylenx (slot_entry l (kip_p (Leaf.lower ka l))))) eqn:Hk; [|by destruct emit].
  assert (Leaf.ksuf l (kip_p (Leaf.lower ka l)) = e_suf (slot_entry l (kip_p (Leaf.lower ka l)))) as -> by (by rewrite slot_suffix).
  unfold Helper.initial_ksuf_match. rewrite lex_antisym.
  assert ((0 <? - lex (str_bytes m (Key.suffix ka)) (e_suf (slot_entry l (kip_p (Leaf.lower ka l))))) || (- lex (str_bytes m (Key.suffix ka)) (e_suf (slot_entry l (kip_p (Leaf.lower ka l)))) =? 0) && emit =
    starts emit (str_bytes m (Key.suffix ka)) (e_suf (slot_entry l (kip_p (Leaf.lower ka l))))) as ->.
  { unfold starts. set (x := lex _ _). rewrite (andb_comm emit). f_equal; [|f_equal].
    - destruct (Z.ltb_spec 0 (- x)), (Z.ltb_spec x 0); lia || done.
    - destruct (Z.eqb_spec (- x) 0), (Z.eqb_spec x 0); lia || done. }
  destruct (starts _ _ _); [|done]. rewrite bind_assoc, (bind_eq _ _ _ _ _ (store_suffix_eq ka _ (at_mem s m) (proj1 (Hfits H0)))), bind_ret.
  unfold stored_len, suffix_mem. by rewrite Hk.
Qed.

(** From the leaf of the first key on, when its layer is not followed further. *)
Definition initial_ok (N : nat) : Prop := forall p B nsb st ka emit m pre,
  layer_rep N (heap s) p B nsb -> NoDup nsb -> Forall word_addr nsb -> short (zlength pre) B -> zlength pre + ikey_size * Z.of_nat N <= keybuf_size -> sc_root st = p ->
  prefixed m ka pre -> key_wf unaligned m ka ->
  exists F m1 state st' ka' entry',
    (forall fuel, (F <= fuel)%nat -> scan_initial unaligned fuel forward ka emit st (at_mem s m) = Some ((state, st', ka', entry'), at_mem s m1)) /\
    forall acc cnt r,
      after visit_value acc cnt (map (add_prefix pre) (scanned emit (key_bytes m ka) B)) r (leaves_layer ka (node_stack_ st) m r) ->
      runs (fun fuel => loop fuel state forward st' ka' entry' acc cnt) m1 r.

Lemma scan_initial_here fuel ka emit st m state st' ka' entry' m1 :
  find_initial (S fuel) forward ka emit st (at_mem s m) = Some ((state, st', ka', entry'), at_mem s m1) -> state <> scan_down ->
  scan_initial unaligned (S fuel) forward ka emit st (at_mem s m) = Some ((state, st', ka', entry'), at_mem s m1).
Proof using Type. intros H Hs. cbn [scan_initial]. rewrite (bind_eq _ _ _ _ _ H). by destruct state. Qed.

(** A visit of the first key itself. *)
Lemma visit_first N m m1 ka ka1 b l i bs ess R Bns root stack entry acc cnt r pre w v :
  pos N (zlength pre) ka1 b l (i + 1) bs ess R Bns -> str_bytes m1 (Key.full_string ka1) = pre ++ w -> entry = v ->
  s_ ka1 = s_ ka -> first_ ka1 = first_ ka -> prefixed m ka pre -> kept m m1 (s_ ka) ->
  after visit_value acc cnt (map (add_prefix pre) ((w, v) :: binds Bns)) r (leaves_layer ka stack m r) ->
  runs (fun fuel => loop fuel scan_emit forward (mkStack root b (lversion l) (permutation_ l) i stack) ka1 entry acc cnt) m1 r.
Proof using Type.
  intros Hp Hw -> Hs Hf Hpre Hk Haft. unfold after in Haft. cbn [map add_prefix fst snd feed] in Haft.
  destruct (visit_value acc (pre ++ w) v) as [acc' []] eqn:Hv.
  - apply (runs_step 0 _ (go (mkStack root b (lversion l) (permutation_ l) (i + 1) stack) ka1 v acc' (cnt + 1)) m1 m1).
    + intros fuel _. cbn [scan_loop]. rewrite bind_gets. cbn [kmem at_mem]. rewrite Hw, Hv. done.
    + eapply (go_spec N (down_spec N) ess bs b l R); [exact Hp|by eapply prefixed_kept|].
      eapply after_mono; [|exact Haft]. intros acc2 cnt2. by apply leaves_layer_kept.
  - subst r. exists 1%nat, m1. split; [apply Hk|]. intros [|fuel] Hfu; [lia|]. cbn [scan_loop]. rewrite bind_gets. cbn [kmem at_mem]. by rewrite Hw, Hv.
Qed.

Lemma key_full_string m ka pre w : prefixed m ka pre -> load m (s_ ka) (len_ ka) = w -> 0 <= len_ ka -> str_bytes m (Key.full_string ka) = pre ++ w.
Proof using Type.
  intros (H1 & H2 & _) Hw Hl. unfold str_bytes, Key.full_string, Str_range. cbn [str_s str_len].
  pose proof (zlength_nonneg pre). replace (s_ ka + len_ ka - first_ ka) with (zlength pre + len_ ka) by lia.
  rewrite load_app, H2 by lia. by rewrite <- H1, Hw.
Qed.

(** The leaf that the search for the first key arrives at. *)
Section arrive.
Context (N : nat) (p : Z) (B : list (list Z * Z)) (nsb : list Z) (emit : bool) (m : mem) (ka : key) (st : scanstackelt) (pre : list Z).
Context (Hnd : NoDup nsb) (Haddr : Forall word_addr nsb) (Hsh : short (zlength pre) B)
  (Hdep : zlength pre + ikey_size * Z.of_nat (S N) <= keybuf_size) (Hst : sc_root st = p) (Hpre : prefixed m ka pre) (Hka : key_wf unaligned m ka).
Context (b : Z) (l : leaf) (d : nat) (rt par lo hi : Z) (es1 esb es2 : list Tree.entry) (lns : list Z)
  (Bns1 Bnb Bns2 : list (list (list Z * Z) * list Z)) (F : nat).
Context (Hat : leaf_at N (heap s) p (Key.ikey0_ ka) b l d rt par lo hi es1 esb es2 lns Bns1 Bnb Bns2)
  (HB : B = binds (Bns1 ++ Bnb ++ Bns2)) (Hns : nsb = lns ++ nodes (Bns1 ++ Bnb ++ Bns2))
  (Hoks : Forall entry_ok (es1 ++ esb ++ es2))
  (Hreach : forall fuel, (F <= fuel)%nat -> reach_leaf fuel p ka (at_mem s m) = Some ((b, lversion l), at_mem s m)).
Abbreviation kx := (Leaf.lower ka l).
Abbreviation here i := (mkStack p b (lversion l) (permutation_ l) i (node_stack_ st)).

Lemma arrive_leaf : heap s !! b = Some (NLeaf l) /\ leaf_ok par lo hi l esb.
Proof using Hat. split; apply (lf_focus _ _ _ _ _ _ _ _ _ _ _ _ _ _ _ _ _ _ Hat). Qed.
Lemma arrive_sorted : StronglySorted entry_lt (es1 ++ esb ++ es2).
Proof using Hat Hnd Hns.
  assert (NoDup lns) as Hndl by (rewrite Hns in Hnd; by apply NoDup_app in Hnd as [? _]).
  pose proof (lf_focus _ _ _ _ _ _ _ _ _ _ _ _ _ _ _ _ _ _ Hat) as Hf. destruct arrive_leaf as [Hl Hok].
  pose proof (fc_replace _ _ _ _ _ _ _ _ _ _ _ _ _ _ _ _ _ Hf Hndl (heap s) l esb ltac:(done) Hl Hok) as Hn. by eapply node_sorted.
Qed.
Lemma arrive_around : Forall (fun e => 0 < cmp_entry ka e) es1 /\ Forall (fun e => cmp_entry ka e < 0) es2.
Proof using Hat.
  clear Hdep. pose proof (lf_focus _ _ _ _ _ _ _ _ _ _ _ _ _ _ _ _ _ _ Hat) as Hf. pose proof (fc_range _ _ _ _ _ _ _ _ _ _ _ _ _ _ _ _ _ Hf) as Hr.
  split; (eapply Forall_impl; [apply Hf|]); cbn; intros e He; unfold cmp_entry, Key.compare_ikey, compare;
    destruct (Z.eqb_spec (Key.ikey0_ ka) (e_ikey e)); [lia| |lia|]; destruct (Z.ltb_spec (Key.ikey0_ ka) (e_ikey e)); done || lia.
Qed.
Lemma arrive_scanned : scanned emit (key_bytes m ka) B = scanned emit (key_bytes m ka) (binds Bnb) ++ binds Bns2.
Proof using Hat HB Hoks Hka Hpre.
  destruct arrive_around as [H1 H2]. rewrite HB, !map_app, !concat_app, !scanned_app. rewrite !Forall_app in Hoks. destruct Hoks as (Ho1 & _ & Ho2).
  pose proof (proj2 (proj2 Hpre)) as Hm.
  rewrite (scanned_above m ka Hm Hka N emit es1 Bns1), (scanned_below m ka Hm Hka N emit es2 Bns2); try done; apply Hat.
Qed.

(** The key is not in the leaf. *)
Lemma arrive_miss l1 l2 live free : leaf_entries l live free esb -> live = l1 ++ l2 -> kip_p kx = -1 -> zlength l1 = kip_i kx ->
  above l ka l1 -> below l ka l2 -> forall acc cnt r,
  after visit_value acc cnt (map (add_prefix pre) (scanned emit (key_bytes m ka) B)) r (leaves_layer ka (node_stack_ st) m r) ->
  runs (fun fuel => loop fuel scan_find_next forward (here (kip_i kx)) ka 0 acc cnt) m r.
Proof using All.
  intros Hle -> Hp Hi Ha Hb acc cnt r. rewrite arrive_scanned. pose proof (proj2 (proj2 Hpre)) as Hm. pose proof (le_es _ _ _ _ Hle) as Hes. rewrite map_app in Hes.
  pose proof Hat as Hat'. pose proof Hoks as Hoks'. rewrite Hes in Hat', Hoks'. rewrite !Forall_app in Hoks'.
  pose proof (lf_esb _ _ _ _ _ _ _ _ _ _ _ _ _ _ _ _ _ _ Hat') as HBb. apply Forall2_app_inv_l in HBb as (B1 & B2 & HB1 & HB2 & HBnb).
  rewrite HBnb in Hat' |- *.
  assert (Forall (fun e => 0 < cmp_entry ka e) (map (slot_entry l) l1)) as Ha' by (apply Forall_fmap; exact Ha).
  assert (Forall (fun e => cmp_entry ka e < 0) (map (slot_entry l) l2)) as Hb' by (apply Forall_fmap; exact Hb).
  assert (scanned emit (key_bytes m ka) (binds (B1 ++ B2)) ++ binds Bns2 = binds (B2 ++ Bns2)) as ->.
  { rewrite !map_app, !concat_app, scanned_app.
    by rewrite (scanned_above m ka Hm Hka N emit (map (slot_entry l) l1) B1), (scanned_below m ka Hm Hka N emit (map (slot_entry l) l2) B2) by tauto. }
  intros Haft. apply runs_go.
  destruct (leaf_at_pos N (zlength pre) ka p (Key.ikey0_ ka) b l d rt par lo hi es1 (map (slot_entry l) l1) [] (map (slot_entry l) l2) es2 lns Bns1 B1 B2 Bns2) as (bs & ess & _ & Hpos).
  - exact Hat'.
  - rewrite app_nil_r. symmetry. by eapply Forall2_length.
  - by rewrite <- HBnb, <- Hns.
  - by rewrite <- HBnb, <- Hns.
  - pose proof arrive_sorted as Hs. by rewrite Hes in Hs.
  - constructor.
  - apply Forall_app. split; [done|]. apply arrive_around.
  - cbn [app]. by rewrite <- Hes.
  - by rewrite <- HBnb, <- HB.
  - exact Hdep.
  - replace (zlength (map (slot_entry l) l1)) with (kip_i kx) in Hpos by (rewrite <- Hi; unfold zlength; by rewrite length_map).
    eapply (go_spec N (down_spec N)); [exact Hpos|exact Hpre|exact Haft].
Qed.

(** The key is at the entry [e]. *)
Section hit.
Context (E1 : list Tree.entry) (e : Tree.entry) (E2 : list Tree.entry) (B1 : list (list (list Z * Z) * list Z)) (Be : list (list Z * Z)) (nse : list Z)
  (B2 : list (list (list Z * Z) * list Z)).
Context (Hesb : esb = E1 ++ e :: E2) (HBnb : Bnb = B1 ++ (Be, nse) :: B2) (Hlen : length B1 = length E1) (Hc0 : cmp_entry ka e = 0)
  (Hi : zlength E1 = kip_i kx) (Hp : 0 <= kip_p kx) (He : slot_entry l (kip_p kx) = e).

Lemma hit_entry : entry_ok e /\ entry_rep (layer_rep N (heap s)) e (Be, nse).
Proof using Hat Hoks Hesb HBnb Hlen.
  split; [rewrite Hesb, !Forall_app, Forall_cons in Hoks; tauto|].
  pose proof (lf_esb _ _ _ _ _ _ _ _ _ _ _ _ _ _ _ _ _ _ Hat) as Hb. rewrite Hesb, HBnb in Hb.
  destruct (Forall2_app_inv _ _ _ _ _ (eq_sym Hlen) Hb) as [_ Hb']. by inversion Hb'.
Qed.
Lemma hit_scanned : scanned emit (key_bytes m ka) B = scanned emit (key_bytes m ka) Be ++ binds (B2 ++ Bns2).
Proof using All.
  rewrite arrive_scanned. pose proof (proj2 (proj2 Hpre)) as Hm. pose proof arrive_sorted as Hs. rewrite Hesb in Hs.
  pose proof Hoks as Hoks'. rewrite Hesb in Hoks'. rewrite !Forall_app, Forall_cons in Hoks'. destruct Hoks' as (_ & (Ho1 & _ & Ho2) & _).
  apply StronglySorted_app_1_r, StronglySorted_app_1_l in Hs.
  pose proof (lf_esb _ _ _ _ _ _ _ _ _ _ _ _ _ _ _ _ _ _ Hat) as Hb. rewrite Hesb, HBnb in Hb.
  destruct (Forall2_app_inv _ _ _ _ _ (eq_sym Hlen) Hb) as [Hb1 Hb2]. apply Forall2_cons in Hb2 as [_ Hb2']. rewrite HBnb.
  rewrite !map_app, !concat_app, scanned_app. cbn [map concat fst]. rewrite scanned_app.
  rewrite (scanned_above m ka Hm Hka N emit E1 B1), (scanned_below m ka Hm Hka N emit E2 B2); try done; [exact (eq_sym (app_assoc (scanned emit (key_bytes m ka) Be) _ _))| |].
  - apply StronglySorted_app_1_r, StronglySorted_cons in Hs as [Hs _]. eapply Forall_impl; [exact Hs|]. intros f Hf.
    apply (cmp_entry_mono ka e f Hf). lia.
  - apply Forall_forall. intros f Hf. destruct (Z.ltb_spec 0 (cmp_entry ka f)) as [|Hle]; [done|].
    pose proof (StronglySorted_app_1_elem_of _ _ _ f e Hs Hf ltac:(apply elem_of_cons; by left)) as Hlt.
    pose proof (cmp_entry_mono ka f e Hlt Hle). lia.
Qed.
Lemma hit_pos k : cmp_entry k e = 0 -> exists bs ess,
  pos N (zlength pre) k b l (kip_i kx + 1) bs ess E2 (B2 ++ Bns2) /\ pos N (zlength pre) k b l (kip_i kx) bs ess E2 (B2 ++ Bns2).
Proof using Hnd Haddr Hsh Hdep Hat HB Hns Hoks Hesb HBnb Hlen Hi.
  intros Hc. pose proof arrive_sorted as Hs. pose proof Hat as Hat'. rewrite Hesb, HBnb in Hat'. rewrite Hesb in Hs.
  assert (Forall (fun f => cmp_entry k f < 0) (E2 ++ es2)) as Hlt.
  { apply StronglySorted_app_1_r in Hs. rewrite <- app_assoc in Hs. apply StronglySorted_app_1_r, StronglySorted_cons in Hs as [Hs _].
    eapply Forall_impl; [exact Hs|]. intros f Hf. apply (cmp_entry_mono k e f Hf). lia. }
  replace (B1 ++ (Be, nse) :: B2) with ((B1 ++ [(Be, nse)]) ++ B2) in Hat' by (by rewrite <- app_assoc).
  assert (Bnb = (B1 ++ [(Be, nse)]) ++ B2) as HBnb' by (by rewrite <- app_assoc).
  assert (forall es0 D, E1 ++ e :: E2 = es0 ++ D ++ E2 -> length (es0 ++ D) = length (E1 ++ [e]) -> Forall (fun e => 0 <= cmp_entry k e) D ->
    exists bs ess, es2 = concat ess /\ pos N (zlength pre) k b l (zlength es0) bs ess E2 (B2 ++ Bns2)) as Hgen.
  { intros es0 D HE Hl2 HD. rewrite HE in Hat', Hs. eapply leaf_at_pos; [exact Hat'| | | |exact Hs|exact HD|exact Hlt| | |exact Hdep].
    - rewrite Hl2, !length_app, Hlen. done.
    - by rewrite <- HBnb', <- Hns.
    - by rewrite <- HBnb', <- Hns.
    - by rewrite <- HE, <- Hesb.
    - by rewrite <- HBnb', <- HB. }
  destruct (Hgen E1 [e]) as (bs & ess & _ & Hpos); [done|done|apply Forall_singleton; lia|].
  exists bs, ess. rewrite Hi in Hpos. split; [|done].
  destruct Hpos as [Hl _ Hlk Hrest Hbel Hss Hbn Hfit' Hsh' Hdep' Ha Hnd' Haddr']. split; try done. destruct arrive_leaf as [_ Hok].
  exists par, lo, hi, (E1 ++ [e]), []. rewrite <- app_assoc. rewrite Hesb in Hok. split; [exact Hok|]. split; [|by split].
  rewrite zlength_app. change (zlength [e]) with 1. lia.
Qed.

Lemma hit_skip ka' : Leaf.keylenx_is_layer (e_keylenx e) = false -> scanned emit (key_bytes m ka) Be = [] -> ka' = ka -> forall entry acc cnt r,
  after visit_value acc cnt (map (add_prefix pre) (scanned emit (key_bytes m ka) B)) r (leaves_layer ka (node_stack_ st) m r) ->
  runs (fun fuel => loop fuel scan_find_next forward (here (kip_i kx + 1)) ka' entry acc cnt) m r.
Proof using All.
  intros _ Hnone -> entry acc cnt r. rewrite hit_scanned, Hnone. cbn [app]. intros Haft. apply runs_go.
  destruct (hit_pos ka Hc0) as (bs & ess & Hpos & _). by eapply (go_spec N (down_spec N)).
Qed.
Lemma hit_visit ka' m1 : Leaf.keylenx_is_layer (e_keylenx e) = false -> scanned emit (key_bytes m ka) Be = Be ->
  cmp_entry ka' e = 0 -> str_bytes m1 (Key.full_string ka') = pre ++ entry_key e -> s_ ka' = s_ ka -> first_ ka' = first_ ka -> kept m m1 (s_ ka) ->
  forall acc cnt r,
  after visit_value acc cnt (map (add_prefix pre) (scanned emit (key_bytes m ka) B)) r (leaves_layer ka (node_stack_ st) m r) ->
  runs (fun fuel => loop fuel scan_emit forward (here (kip_i kx)) ka' (e_lv e) acc cnt) m1 r.
Proof using All.
  intros Hlay Hall Hc Hw Hs Hf Hk acc cnt r. rewrite hit_scanned, Hall. destruct hit_entry as [Hoke Hre].
  pose proof (binding_of_entry _ _ _ Hoke Hlay Hre) as HBe. cbn [fst] in HBe. rewrite HBe. intros Haft.
  destruct (hit_pos ka' Hc) as (bs & ess & Hpos & _). by eapply (visit_first N m m1 ka ka').
Qed.

(** The key, or a longer one with the same slice, is bound in the leaf. *)
Lemma hit_value : Leaf.keylenx_is_layer (e_keylenx e) = false ->
  let '(state, st', ka', entry', m1) := initial_result emit ka m l b st in state <> scan_down /\ forall acc cnt r,
  after visit_value acc cnt (map (add_prefix pre) (scanned emit (key_bytes m ka) B)) r (leaves_layer ka (node_stack_ st) m r) ->
  runs (fun fuel => loop fuel state forward st' ka' entry' acc cnt) m1 r.
Proof using All.
  intros Hlay. pose proof (proj2 (proj2 Hpre)) as Hm. destruct hit_entry as [Hoke Hre].
  pose proof (binding_of_entry _ _ _ Hoke Hlay Hre) as HBe. cbn [fst] in HBe. pose proof Hka as [Hl0 _].
  unfold initial_result. destruct (Z.leb_spec 0 (kip_p kx)); [|lia]. rewrite He, Hlay, Hst. cbn [with_ki]. cbv zeta.
  destruct (Leaf.keylenx_has_ksuf (e_keylenx e)) eqn:Hks.
  - (* with a suffix *)
    unfold Leaf.keylenx_has_ksuf in Hks. apply Z.eqb_eq in Hks.
    destruct (cmp_entry_long unaligned m ka Hm Hka e Hoke) as [_ Himp]; [by rewrite Hks|]. destruct (Himp Hc0) as [Hlong Hie].
    assert (scanned emit (key_bytes m ka) Be = if starts emit (str_bytes m (Key.suffix ka)) (e_suf e) then Be else []) as Hsc.
    { rewrite HBe. cbn [scanned List.filter fst]. rewrite (key_bytes_suffix unaligned m ka Hm Hka Hlong). unfold entry_key. rewrite Hks.
      change (ksuf_keylenx `min` 8) with 8. rewrite take_ge by (rewrite length_ikey_bytes; lia). rewrite Hie. unfold starts. rewrite lex_app_same. done. }
    destruct (starts emit (str_bytes m (Key.suffix ka)) (e_suf e)); (split; [done|]).
    + pose proof (suffix_mem_kept m ka e Hm Hoke) as Hk.
      apply hit_visit; [done|done| | |done|done|eapply kept_mono; [|exact Hk]; unfold ikey_size; lia].
      * unfold Key.assign_store_length. rewrite <- Hie. by apply cmp_stored.
      * unfold stored_len, suffix_mem in *. rewrite Hks in *. change (Leaf.keylenx_has_ksuf ksuf_keylenx) with true in *. cbv iota in *.
        apply key_full_string; [by eapply prefixed_kept; [exact Hpre|done|done|eapply kept_mono; [|exact Hk]; unfold ikey_size; lia]| |].
        -- unfold Key.assign_store_length. cbn [s_ len_]. pose proof (zlength_nonneg (e_suf e)). change ikey_size with 8.
           rewrite load_app, load_store_same, load_store_other by lia. unfold entry_key. rewrite Hks. change (ksuf_keylenx `min` 8) with 8.
           rewrite take_ge by (rewrite length_ikey_bytes; lia). f_equal. rewrite Hie, (key_ikey_bytes unaligned m ka Hm Hka).
           rewrite pad_ge by (unfold key_bytes, ikey_size in *; rewrite length_load; lia). unfold key_bytes. by rewrite (take_load _ _ _ 8) by (unfold ikey_size in *; lia).
        -- unfold Key.assign_store_length. cbn [len_]. pose proof (zlength_nonneg (e_suf e)). unfold ikey_size. lia.
    + by apply hit_skip.
  - (* within the slice *)
    assert (e_keylenx e <= 8) as Hle8.
    { rewrite entry_layer in Hlay by done. apply Z.eqb_neq in Hlay. unfold Leaf.keylenx_has_ksuf in Hks. apply Z.eqb_neq in Hks.
      destruct Hoke as [_ [(? & _)|[(? & _)|(? & _)]]]; [lia|done|done]. }
    pose proof (proj1 (cmp_entry_short unaligned m ka Hm Hka e Hoke Hle8) Hc0) as Hkey.
    assert (scanned emit (key_bytes m ka) Be = if emit then Be else []) as Hsc.
    { rewrite HBe, Hkey. cbn [scanned List.filter fst]. unfold starts. rewrite lex_refl. by destruct emit. }
    match goal with |- context [if emit then ?x else ?y] =>
      destruct (bool_dec emit true) as [Hem|Hem%not_true_is_false];
        [replace (if emit then x else y) with x by (by rewrite Hem)|replace (if emit then x else y) with y by (by rewrite Hem)] end;
      (split; [done|]).
    + apply hit_visit; try done; [by rewrite Hsc, Hem|]. apply key_full_string; [done|exact Hkey|done].
    + apply hit_skip; try done. by rewrite Hsc, Hem.
Qed.

(** The layer below the entry. *)
Lemma hit_layer (IH : initial_ok N) : Leaf.keylenx_is_layer (e_keylenx e) = true ->
  initial_result emit ka m l b st = (scan_down, push_layer (here (kip_i kx)) (e_lv e), ka, e_lv e, m) /\
  exists F' m1 state st' ka' entry',
    (forall fuel, (F' <= fuel)%nat -> scan_initial unaligned fuel forward (Key.shift unaligned m ka) emit (push_layer (here (kip_i kx)) (e_lv e)) (at_mem s m) =
      Some ((state, st', ka', entry'), at_mem s m1)) /\
    forall acc cnt r,
      after visit_value acc cnt (map (add_prefix pre) (scanned emit (key_bytes m ka) B)) r (leaves_layer ka (node_stack_ st) m r) ->
      runs (fun fuel => loop fuel state forward st' ka' entry' acc cnt) m1 r.
Proof using All.
  intros Hlay. pose proof (proj2 (proj2 Hpre)) as Hm. destruct hit_entry as [Hoke Hre]. split.
  { unfold initial_result. destruct (Z.leb_spec 0 (kip_p kx)); [|lia]. by rewrite He, Hlay, Hst. }
  assert (e_keylenx e = layer_keylenx) as Hkl by (rewrite entry_layer in Hlay by done; by apply Z.eqb_eq).
  unfold entry_rep in Hre. rewrite Hkl, Z.eqb_refl in Hre. destruct Hre as (B' & HL & Hne & HBe). cbn [fst snd] in HL, HBe.
  destruct (cmp_entry_long unaligned m ka Hm Hka e Hoke) as [_ Himp]; [by rewrite Hkl|]. destruct (Himp Hc0) as [Hlong Hie].
  assert (load m (s_ ka) 8 = ikey_bytes (e_ikey e)) as Hslice.
  { rewrite Hie, (key_ikey_bytes unaligned m ka Hm Hka), pad_ge by (unfold key_bytes, ikey_size in *; rewrite length_load; lia).
    unfold key_bytes. by rewrite (take_load _ _ _ 8) by (unfold ikey_size in *; lia). }
  assert (key_bytes m (Key.shift unaligned m ka) = str_bytes m (Key.suffix ka)) as Hsuf by done.
  assert (scanned emit (key_bytes m ka) Be = map (add_prefix (ikey_bytes (e_ikey e))) (scanned emit (str_bytes m (Key.suffix ka)) B')) as Hsc.
  { rewrite (key_bytes_suffix unaligned m ka Hm Hka Hlong), HBe, Hie. apply scanned_prefix. }
  destruct (IH (e_lv e) B' nse (push_layer (here (kip_i kx)) (e_lv e)) (Key.shift unaligned m ka) emit m (pre ++ ikey_bytes (e_ikey e)))
    as (F' & m1 & state & st' & ka' & entry' & Hrun & Hloop).
  - done.
  - rewrite Hns, HBnb, !map_app, !concat_app in Hnd. cbn [map concat snd] in Hnd. rewrite !NoDup_app in Hnd. tauto.
  - rewrite Hns, HBnb, !map_app, !concat_app in Haddr. cbn [map concat snd] in Haddr. rewrite !Forall_app in Haddr. tauto.
  - rewrite zlength_app, <- (short_prefix (zlength pre) (ikey_bytes (e_ikey e)) B').
    change (map (add_prefix (ikey_bytes (e_ikey e))) B') with (map (fun kv => (ikey_bytes (e_ikey e) ++ fst kv, snd kv)) B'). rewrite <- HBe.
    unfold short in *. rewrite HB, HBnb, !map_app, !concat_app in Hsh. cbn [map concat fst] in Hsh. rewrite !Forall_app in Hsh. tauto.
  - rewrite zlength_app, zlength_ikey_bytes. unfold ikey_size in *. lia.
  - done.
  - destruct Hpre as (H1 & H2 & _). unfold prefixed. cbn [s_ first_ Key.shift Key.shift_by]. rewrite zlength_app, zlength_ikey_bytes.
    split; [unfold ikey_size; lia|]. split; [|done]. pose proof (zlength_nonneg pre). by rewrite load_app, H2, <- H1, Hslice by lia.
  - apply shift_by_wf; [done|unfold ikey_size in *; lia].
  - exists F', m1, state, st', ka', entry'. split; [done|]. intros acc cnt r. rewrite hit_scanned, map_app, after_app, Hsc, map_add_prefix_app. intros Haft.
    apply Hloop. rewrite Hsuf. eapply after_mono; [|exact Haft]. intros acc' cnt' Haft' st2 ka2 entry2 m2 Hst2 Hs2 Hf2 Hk2.
    cbn [push_layer node_stack_ sc_n sc_root s_ first_ Key.shift Key.shift_by] in *.
    destruct (unshift_key m ka m2 ka2 pre (e_ikey e) Hpre (proj1 Hoke) Hslice Hs2 Hf2 Hk2) as [Hu Hemp].
    assert (cmp_entry (mkKey (e_ikey e) 9 (s_ ka) (first_ ka)) e = 0) as Hc by (apply cmp_own; [done|rewrite Hkl; by right]).
    destruct (hit_pos _ Hc) as (bs & ess & _ & Hpos).
    eapply (scan_up_spec N (zlength pre) b l (kip_i kx) bs ess E2 (B2 ++ Bns2) st2 ka ka2 p (node_stack_ st)); try done.
    + destruct arrive_leaf as [_ Hok]. rewrite Hesb in Hok. by exists par, lo, hi, E1, e.
    + assert (kept m m2 (s_ ka)) as Hk3 by (eapply kept_mono; [|exact Hk2]; unfold ikey_size; lia).
      eapply (go_spec N (down_spec N)); [exact Hpos|by eapply prefixed_kept; [exact Hpre|..]|].
      eapply after_mono; [|exact Haft']. intros acc3 cnt3. by apply leaves_layer_kept.
Qed.
End hit.
End arrive.

(** The entry a search finds in its leaf fits the buffer. *)
Lemma leaf_fits N p B ka o b l d rt par lo hi es1 esb es2 lns Bns1 Bnb Bns2 :
  leaf_at N (heap s) p (Key.ikey0_ ka) b l d rt par lo hi es1 esb es2 lns Bns1 Bnb Bns2 -> B = binds (Bns1 ++ Bnb ++ Bns2) ->
  Forall entry_ok (es1 ++ esb ++ es2) -> short o B -> o + ikey_size * Z.of_nat (S N) <= keybuf_size ->
  forall live free, leaf_entries l live free esb -> 0 <= kip_p (Leaf.lower ka l) -> fits o (slot_entry l (kip_p (Leaf.lower ka l))).
Proof using Type.
  intros [_ _ _ H1 Hb H2] -> Hoks Hsh Hdep live free Hle H0.
  assert (Forall (fits o) (es1 ++ esb ++ es2)) as Hfits.
  { eapply entries_fit; [done|apply Forall2_app; [exact H1|apply Forall2_app; [exact Hb|exact H2]]|done|unfold ikey_size in *; lia]. }
  rewrite !Forall_app, (le_es _ _ _ _ Hle), Forall_fmap in Hfits.
  destruct (leaf_lower_spec l live free esb Hle ka) as [(Hp & _)|(_ & _ & l1 & l2 & Hlive & _)]; [lia|].
  destruct Hfits as (_ & Hfits & _). rewrite Hlive, Forall_app, Forall_cons in Hfits. tauto.
Qed.

Lemma initial_spec N : initial_ok N.
Proof using Type.
  induction N as [|N IH]; intros p B nsb st ka emit m pre Hr Hnd Haddr Hsh Hdep Hst Hpre Hka; [done|].
  pose proof (proj2 (proj2 Hpre)) as Hm.
  destruct (layer_rep_leaf_at N (at_mem s m) p B nsb ka Hr) as
    (b & l & d & rt & par & lo & hi & es1 & esb & es2 & lns & Bns1 & Bnb & Bns2 & F & Hat & HB & Hns & Hoks & Hreach);
    [by eapply key_wf_range|].
  cbn [at_mem heap] in Hat. destruct (arrive_leaf N p ka b l d rt par lo hi es1 esb es2 lns Bns1 Bnb Bns2 Hat) as [Hl Hok].
  destruct (lo_entries _ _ _ _ _ Hok) as (live & free & Hle).
  assert (0 <= kip_p (Leaf.lower ka l) -> fits (s_ ka - first_ ka) (slot_entry l (kip_p (Leaf.lower ka l))) /\ 0 <= s_ ka - first_ ka) as Hfits.
  { rewrite (prefixed_off m ka pre Hpre). intros H0. split; [|apply zlength_nonneg]. apply (leaf_fits N p B ka (zlength pre) b l d rt par lo hi
      es1 esb es2 lns Bns1 Bnb Bns2 Hat HB Hoks Hsh Hdep live free Hle H0). }
  pose proof (find_initial_spec emit ka m l b st par lo hi esb F p Hl Hok Hfits Hst Hreach) as Hfi.
  destruct (leaf_lower_spec l live free esb Hle ka) as [(Hp & l1 & l2 & Hlive & Hi & Ha & Hb)|(Hp & Hc & l1 & l2 & Hlive & Hi & Ha & Hb)].
  - exists (S F), m, scan_find_next, (mkStack p b (lversion l) (permutation_ l) (kip_i (Leaf.lower ka l)) (node_stack_ st)), ka, 0. split.
    + intros [|fuel] Hf; [lia|]. apply scan_initial_here; [|done]. rewrite Hfi by lia. unfold initial_result. by rewrite Hp, Hst.
    + by eapply (arrive_miss N p B nsb emit m ka st pre).
  - pose proof (le_es _ _ _ _ Hle) as Hes. rewrite Hlive, map_app in Hes. cbn [map] in Hes.
    set (e := slot_entry l (kip_p (Leaf.lower ka l))) in *. pose proof (lf_esb _ _ _ _ _ _ _ _ _ _ _ _ _ _ _ _ _ _ Hat) as HBb. rewrite Hes in HBb.
    apply Forall2_app_inv_l in HBb as (B1 & B2' & HB1 & HB2 & HBnb). apply Forall2_cons_inv_l in HB2 as ([Be nse] & B2 & _ & _ & ->).
    assert (length B1 = length (map (slot_entry l) l1)) as Hlen by (symmetry; by eapply Forall2_length).
    assert (zlength (map (slot_entry l) l1) = kip_i (Leaf.lower ka l)) as Hi' by (rewrite <- Hi; unfold zlength; by rewrite length_map).
    destruct (Leaf.keylenx_is_layer (e_keylenx e)) eqn:Hlay.
    + destruct (hit_layer N p B nsb emit m ka st pre Hnd Haddr Hsh Hdep Hst Hpre Hka b l d rt par lo hi es1 esb es2 lns Bns1 Bnb Bns2 F Hat HB Hns Hoks Hreach
        _ e _ B1 Be nse B2 Hes HBnb Hlen Hc Hi' (proj1 Hp) eq_refl IH Hlay) as [Hres (F' & m1 & state & st' & ka' & entry' & Hrun & Hloop)].
      exists (S (max F F')), m1, state, st', ka', entry'. split; [|exact Hloop]. intros [|fuel] Hf; [lia|]. cbn [scan_initial].
      rewrite Hres in Hfi. rewrite (bind_eq _ _ _ _ _ (Hfi (S fuel) ltac:(lia))). cbv iota. rewrite bind_gets. cbn [kmem at_mem]. apply Hrun. lia.
    + pose proof (hit_value N p B nsb emit m ka st pre Hnd Haddr Hsh Hdep Hst Hpre Hka b l d rt par lo hi es1 esb es2 lns Bns1 Bnb Bns2 F Hat HB Hns Hoks Hreach
        _ e _ B1 Be nse B2 Hes HBnb Hlen Hc Hi' (proj1 Hp) eq_refl Hlay) as Hv.
      destruct (initial_result emit ka m l b st) as [[[[state st'] ka'] entry'] m1]. destruct Hv as [Hns' Hloop].
      exists (S F), m1, state, st', ka', entry'. split; [|exact Hloop]. intros [|fuel] Hf; [lia|]. apply scan_initial_here; [|done]. apply Hfi. lia.
Qed.
End run.

(** * The whole scan *)
Lemma at_mem_rep `{Layers} s m B ns : table_in s B ns -> mem_bytes m -> table_in (at_mem s m) B ns.
Proof. intros [H1 H2 H3 H4 _] Hm. by split. Qed.

Lemma scan_spec {A} unaligned (visit_value : A -> list Z -> Z -> A * bool) s B ns keybuf firstkey emit acc :
  @table_in 32%nat s B ns -> Forall (fun kv => zlength (fst kv) <= max_key_len) B ->
  next_fresh s <= 2 ^ 64 -> bytes firstkey -> zlength firstkey <= keybuf_size ->
  StronglySorted key_lt B /\
  exists F m', @table_in 32%nat (at_mem s m') B ns /\ forall fuel, (F <= fuel)%nat ->
    scan unaligned visit_value fuel keybuf firstkey emit acc s =
    Some (fst (feed visit_value acc 0 (scanned emit firstkey B)), at_mem s m').
Proof.
  intros Hrep Hsh Hw Hfk Hlen. pose proof Hrep as [Hr Hnd Ha Hfr Hm]. split; [by eapply layer_sorted|].
  set (m := store (kmem s) keybuf firstkey). set (ka := Key.key_data unaligned m keybuf (zlength firstkey)).
  assert (mem_bytes m) as Hm' by by apply store_bytes. assert (key_bytes m ka = firstkey) as Hkey by apply load_store_same.
  assert (Forall word_addr ns) as Haddr.
  { apply Forall_forall. intros a Ha'. destruct (Ha a Ha') as [Hlt ?]. unfold word_addr. lia. }
  destruct (initial_spec unaligned visit_value s 32 (table_root s) B ns (mkStack (table_root s) 0 0 0 0 []) ka emit m [])
    as (F & m1 & state & st & ka' & entry & Hini & Hloop); try done.
  { unfold prefixed. cbn [s_ first_ ka Key.key_data]. change (zlength []) with 0. split; [lia|]. by rewrite load_0 by lia. }
  { apply key_data_wf, zlength_nonneg. }
  destruct (feed visit_value acc 0 (scanned emit firstkey B)) as [[acc' cnt'] c] eqn:Hfeed. cbn [fst].
  destruct (Hloop acc 0 (acc', cnt')) as (F' & m2 & Hb2 & Hrun).
  { rewrite map_add_prefix_nil, Hkey. unfold after. rewrite Hfeed. destruct c; [|done].
    intros st' ka2 entry2 m2 Hst _ _ Hk. exists 1%nat, m2. split; [apply Hk|]. intros [|fuel] Hf; [lia|]. cbn [scan_loop]. by rewrite bind_gets, Hst. }
  assert (forall fuel, (max F F' <= fuel)%nat -> scan unaligned visit_value fuel keybuf firstkey emit acc s = Some ((acc', cnt'), at_mem s m2)) as Hscan.
  { intros fuel Hf. unfold scan, scan_with. rewrite bind_require by (by apply Z.leb_le). rewrite bind_gets. unfold bind at 1. cbn [set_kmem]. fold m. change (mkState _ _ _ _ _ m) with (at_mem s m).
    rewrite bind_gets. cbn [kmem at_mem]. fold ka. unfold root. rewrite bind_gets. cbn [table_root at_mem].
    rewrite (bind_eq _ _ _ _ _ (Hini fuel ltac:(lia))). apply Hrun. lia. }
  exists (max F F'), m2. split; [by apply at_mem_rep|exact Hscan].
Qed.

(** C3: On a well-formed table at rest, of 32 layers and with keys of
    [MASSTREE_MAXKEYLEN] bytes at most, a scan from a [firstkey] that fits the
    scan's buffer of [keybuf_size] bytes terminates, never writes past the
    buffer, keeps the table, and hands the scanner exactly the bindings from [firstkey] on
    (without its own, unless asked for), in lexicographic order of the keys, from
    all layers, until the scanner stops it; it returns the number of visits. *)
Theorem scan_correct {A} unaligned (visit_value : A -> list Z -> Z -> A * bool) s B ns keybuf firstkey emit acc :
  @table_in 32%nat s B ns -> Forall (fun kv => zlength (fst kv) <= max_key_len) B ->
  next_fresh s <= 2 ^ 64 -> bytes firstkey -> zlength firstkey <= keybuf_size ->
  StronglySorted key_lt B /\
  exists F m', @table_in 32%nat (at_mem s m') B ns /\ forall fuel, (F <= fuel)%nat ->
    scan unaligned visit_value fuel keybuf firstkey emit acc s =
    Some (fst (feed visit_value acc 0 (scanned emit firstkey B)), at_mem s m').
Proof. apply scan_spec. Qed.

(** From "abcdefgh" on: only "abcdefghij", from the second layer. *)
Lemma scan_correct_witness :
  exists l1 l2, first_leaf = Some l1 /\ second_leaf = Some l2 /\
    exists F m', forall fuel, (F <= fuel)%nat ->
      scan true (fun acc k v => (acc ++ [(k, v)], true)) fuel 1000 (seqZ 97 8) true [] (two_layers l1 l2) =
      Some (([(seqZ 97 10, 9)], 1), at_mem (two_layers l1 l2) m').
Proof.
  destruct first_leaf_ok as (l1 & H1 & _), second_leaf_ok as (l2 & H2 & _). exists l1, l2. split; [done|]. split; [done|].
  destruct (scan_correct true (fun acc k v => (acc ++ [(k, v)], true)) (two_layers l1 l2) two_layers_bindings [4096; 8192]
    1000 (seqZ 97 8) true []) as (_ & F & m' & _ & Hrun).
  - apply (table_in_mono 2%nat); [unfold max_layers; lia|by apply two_layers_rep].
  - by repeat constructor.
  - by vm_compute.
  - apply Forall_seqZ. unfold in_u. lia.
  - by vm_compute.
  - exists F, m'. exact Hrun.
Defined.
