(* ===== verification/CircularInt.v ===== *)
(** Wrapping counters and timestamps: [circular_int] of [src/circular_int.hh]
    and [src/timestamp.hh]. *)
From S2P Require Import Prelude.

(** * [circular_int<T>], for a [T] of [w] bits: its value *)
Module CircularInt.
Section circular_int.
Context (w : Z).

Definition increment (v : Z) : Z := uwrap w (v + 1).
Definition decrement (v : Z) : Z := uwrap w (v - 1).
(** The postfix operators: the new object and the returned one. *)
Definition post_increment (v : Z) : Z * Z := let v := increment v in (v, uwrap w (v - 1)).
Definition post_decrement (v : Z) : Z * Z := let v := decrement v in (v, uwrap w (v + 1)).
(** [+=], [-=], [+] and [-] with an [unsigned] or an [int]. *)
Definition add (v x : Z) : Z := uwrap w (v + x).
Definition sub (v x : Z) : Z := uwrap w (v - x).
(** The object, and the value that was there. *)
Definition cmpxchg (v expected desired : Z) : Z * Z := (if v =? expected then desired else v, v).
Definition to_bool (v : Z) : bool := negb (v =? 0).
Definition next_nonzero (v : Z) : Z := let v := uwrap w (v + 1) in uwrap w (v + b2z (v =? 0)).
(** [operator-] of two counters. *)
Definition difference (a b : Z) : Z := swrap w (a - b).
Definition less (a b : Z) : bool := swrap w (uwrap w (a - b)) <? 0.
Definition less_equal (a b : Z) : bool := swrap w (uwrap w (a - b)) <=? 0.
Definition lt (a b : Z) : bool := less a b.
Definition le (a b : Z) : bool := negb (less b a).
Definition ge (a b : Z) : bool := negb (less a b).
Definition gt (a b : Z) : bool := less b a.

(** ** The order in a window *)
Context (Hw : 1 < w).

Lemma half : 2 ^ w = 2 * 2 ^ (w - 1).
Proof using Hw. rewrite <- Z.pow_succ_r by lia. f_equal. lia. Qed.
Lemma half_pos : 0 < 2 ^ (w - 1).
Proof using Hw. apply Z.pow_pos_nonneg; lia. Qed.

(** The value that the counter has after [d] steps from [base]. *)
Definition at_step (base d : Z) : Z := uwrap w (base + d).

Lemma difference_steps base d e :
  - 2 ^ (w - 1) <= d - e < 2 ^ (w - 1) -> swrap w (uwrap w (at_step base d - at_step base e)) = d - e.
Proof using Hw.
  intros Hd. pose proof half. pose proof half_pos. unfold swrap, uwrap, at_step, uwrap.
  rewrite <- Zminus_mod. rewrite Zplus_mod_idemp_l. rewrite Z.mod_small by lia. lia.
Qed.

Lemma at_step_idem base d x : uwrap w (at_step base d + x) = at_step base (d + x).
Proof using Type. unfold at_step, uwrap. rewrite Zplus_mod_idemp_l. f_equal. lia. Qed.
End circular_int.

(** C32: Values that a counter takes less than half its range apart compare as
    the numbers of steps, by every operator and wherever the counter wraps;
    increments, decrements and sums are steps, and the difference of two values
    is the number of steps between them. *)
Theorem window_order w base d e :
  1 < w -> - 2 ^ (w - 1) < d - e < 2 ^ (w - 1) ->
  let a := at_step w base d in let b := at_step w base e in
  less w a b = (d <? e) /\ less_equal w a b = (d <=? e) /\ lt w a b = (d <? e) /\ le w a b = (d <=? e) /\
  gt w a b = (e <? d) /\ ge w a b = (e <=? d) /\
  increment w a = at_step w base (d + 1) /\ decrement w a = at_step w base (d - 1) /\
  (forall x, add w a x = at_step w base (d + x) /\ sub w a x = at_step w base (d - x)) /\
  difference w a b = d - e.
Proof.
  intros Hw Hd. cbv zeta. unfold le, ge, gt, lt, less, less_equal. rewrite !difference_steps by lia.
  split_and!; try (apply eq_true_iff_eq; rewrite ?negb_true_iff, ?Z.ltb_lt, ?Z.leb_le, ?Z.ltb_ge; lia).
  - apply at_step_idem.
  - unfold decrement. by rewrite <- Z.add_opp_r, at_step_idem.
  - intros x. unfold add, sub. by rewrite <- (Z.add_opp_r _ x), !at_step_idem.
  - unfold difference. rewrite <- (swrap_uwrap w (_ - _)). by apply difference_steps; lia.
Qed.

(** Around the wrap of a 64-bit counter. *)
Lemma window_order_witness :
  let a := at_step 64 (2 ^ 64 - 1) 0 in let b := at_step 64 (2 ^ 64 - 1) 5 in
  a = 2 ^ 64 - 1 /\ b = 4 /\ less 64 a b = true /\ less 64 b a = false /\ difference 64 b a = 5.
Proof.
  destruct (window_order 64 (2 ^ 64 - 1) 0 5) as (H1 & _ & _ & _ & H2 & _); [lia|lia|].
  destruct (window_order 64 (2 ^ 64 - 1) 5 0) as (H3 & _ & _ & _ & _ & _ & _ & _ & _ & H4); [lia|lia|].
  split_and!; [by vm_compute|by vm_compute|exact H1|exact H2|exact H4].
Defined.

(** At exactly half the range apart each value is less than the other. *)
Lemma half_ambiguous : less 64 0 (2 ^ 63) = true /\ less 64 (2 ^ 63) 0 = true.
Proof. by vm_compute. Qed.

Lemma next_nonzero_spec w v : 1 < w -> in_u w v -> next_nonzero w v <> 0 /\
  (uwrap w (v + 1) <> 0 -> next_nonzero w v = uwrap w (v + 1)).
Proof.
  intros Hw Hv. unfold next_nonzero. destruct (Z.eqb_spec (uwrap w (v + 1)) 0) as [->|Hne]; cbn [b2z].
  - split; [|done]. rewrite uwrap_id; [lia|]. unfold in_u. cbn.
    pose proof (Z.pow_le_mono_r 2 1 w). lia.
  - rewrite Z.add_0_r, uwrap_idem. done.
Qed.
End CircularInt.

(** * Timestamps *)
Module Timestamp.
(** The time of day: seconds in the high half, microseconds in the low one.
    The arguments are what [gettimeofday] returns. *)
Definition timestamp (tv_sec tv_usec : Z) : Z := Z.lor (ushl 64 (uwrap 64 tv_sec) 32) (uwrap 32 tv_usec).
Definition highpart (t : Z) : Z := Z.shiftr t 32.
Definition lowpart (t : Z) : Z := uwrap 32 t.
Definition timestamp_sub (a b : Z) : Z :=
  let a := uwrap 64 (a - b) in
  if 999999 <? lowpart a then uwrap 64 (a - (2 ^ 32 - 1000000)) else a.

(** Times as microseconds. *)
Definition of_usec (t : Z) : Z := timestamp (t / 1000000) (t mod 1000000).

Lemma timestamp_value s u : 0 <= s < 2 ^ 32 -> 0 <= u < 2 ^ 32 -> timestamp s u = s * 2 ^ 32 + u.
Proof.
  intros Hs Hu. unfold timestamp. rewrite !uwrap_id by (unfold in_u; lia).
  unfold ushl. rewrite Z.shiftl_mul_pow2, uwrap_id by (unfold in_u; lia).
  assert (Z.land (s * 2 ^ 32) u = 0) as Hl.
  { apply Z.bits_inj'. intros n Hn. rewrite Z.land_spec, Z.testbit_0_l. destruct (Z.ltb_spec n 32).
    - by rewrite Z.mul_pow2_bits_low.
    - rewrite (testbit_in_u 32 u) by (unfold in_u; lia). apply andb_false_r. }
  by rewrite Z.add_nocarry_lxor, Z.lxor_lor.
Qed.

(** The difference of two timestamps is the timestamp of the difference of
    the times, with the borrow between the halves. *)
Theorem timestamp_sub_spec t1 t2 :
  0 <= t1 <= t2 -> t2 < 1000000 * 2 ^ 32 ->
  timestamp_sub (of_usec t2) (of_usec t1) = of_usec (t2 - t1).
Proof.
  intros H1 H2.
  pose proof (Z.div_mod t1 1000000 ltac:(lia)) as D1. pose proof (Z.div_mod t2 1000000 ltac:(lia)) as D2.
  pose proof (Z.div_mod (t2 - t1) 1000000 ltac:(lia)) as D3.
  pose proof (Z.mod_pos_bound t1 1000000 ltac:(lia)). pose proof (Z.mod_pos_bound t2 1000000 ltac:(lia)).
  pose proof (Z.mod_pos_bound (t2 - t1) 1000000 ltac:(lia)). unfold of_usec.
  set (s1 := t1 / 1000000) in *. set (u1 := t1 mod 1000000) in *. set (s2 := t2 / 1000000) in *.
  set (u2 := t2 mod 1000000) in *. set (s3 := (t2 - t1) / 1000000) in *. set (u3 := (t2 - t1) mod 1000000) in *.
  rewrite !timestamp_value by lia. unfold timestamp_sub. rewrite (uwrap_id 64 (_ - _)) by (unfold in_u; lia).
  assert (forall q r, 0 <= r < 2 ^ 32 -> lowpart (q * 2 ^ 32 + r) = r) as Hlow.
  { intros q r Hr. unfold lowpart, uwrap. rewrite Z.add_comm, Z.mod_add, Z.mod_small by lia. done. }
  destruct (Z.le_gt_cases u1 u2).
  - assert (s3 = s2 - s1 /\ u3 = u2 - u1) as [-> ->] by lia.
    replace (s2 * 2 ^ 32 + u2 - (s1 * 2 ^ 32 + u1)) with ((s2 - s1) * 2 ^ 32 + (u2 - u1)) by lia.
    rewrite Hlow by lia. destruct (Z.ltb_spec 999999 (u2 - u1)); lia.
  - assert (s3 = s2 - s1 - 1 /\ u3 = u2 - u1 + 1000000) as [-> ->] by lia.
    replace (s2 * 2 ^ 32 + u2 - (s1 * 2 ^ 32 + u1)) with ((s2 - s1 - 1) * 2 ^ 32 + (u2 - u1 + 2 ^ 32)) by lia.
    rewrite Hlow by lia. destruct (Z.ltb_spec 999999 (u2 - u1 + 2 ^ 32)); [|lia].
    rewrite uwrap_id by (unfold in_u; lia). lia.
Qed.

Lemma timestamp_sub_spec_witness :
  timestamp_sub (timestamp 12 100) (timestamp 10 999999) = timestamp 1 101.
Proof. apply (timestamp_sub_spec 10999999 12000100); lia. Defined.
End Timestamp.
