(* ===== verification/Threadinfo.v ===== *)
(** A thread's bookkeeping, [threadinfo] of [src/kvthread.hh] and
    [src/kvthread.cc]: its timestamp, the blocks it retired that wait for a
    grace period ([limbo_group]s), and its pools of free blocks. *)
From S2P Require Import Prelude CircularInt.

(** * [limbo_group] *)
(** A slot holds a retired pointer and its tag, or, under a null pointer, the
    epoch of the pointers after it. *)
Record limbo_element : Type := mkElement { ptr_ : Z; u_ : Z }.
Record limbo_group : Type := mkGroup { head_ : Z; tail_ : Z; epoch_ : Z; e_ : list limbo_element }.

Module LimboGroup.
Definition sizeof_limbo_element : Z := 16.
Definition capacity : Z := (4076 - 8 - 8) / sizeof_limbo_element.
Definition make : limbo_group := mkGroup 0 0 0 (repeat (mkElement 0 0) (Z.to_nat capacity)).
Definition element (g : limbo_group) (i : Z) : option limbo_element := zlookup (e_ g) i.
Definition first_epoch (g : limbo_group) : option Z :=
  if head_ g =? tail_ g then None else u_ <$> element g (head_ g).
(** [e_[tail_] = x; ++tail_]. *)
Definition append (g : limbo_group) (x : limbo_element) : limbo_group :=
  mkGroup (head_ g) (tail_ g + 1) (epoch_ g) (<[Z.to_nat (tail_ g) := x]> (e_ g)).
Definition push_back (g : limbo_group) (ptr tag epoch : Z) : option limbo_group :=
  if tail_ g + 2 <=? capacity then
    let g := if (head_ g =? tail_ g) || negb (epoch_ g =? epoch) then
        let g := append g (mkElement 0 epoch) in mkGroup (head_ g) (tail_ g) epoch (e_ g)
      else g in
    Some (append g (mkElement ptr tag))
  else None.
End LimboGroup.

(** * [threadinfo] *)
(** [used_] is the chain of groups from [limbo_head_] to [limbo_tail_], and
    [spare_] the chain after it.  A pool is the list of its free blocks. *)
Record threadinfo : Type := mkThreadinfo {
  gc_epoch_ : Z; perform_gc_epoch_ : Z; logger_ : option Z; purpose_ : Z; index_ : Z;
  pool_ : list (list Z); used_ : list limbo_group; spare_ : list limbo_group; ts_ : Z }.

(** What happens to a block. *)
Inductive event : Type :=
  | Free (p : Z)                  (* given back to the system *)
  | Pool (nl p : Z)               (* put into the pool of blocks of [nl] lines *)
  | Call (cb : Z).                (* a callback that ran *)

Module Threadinfo.
Definition memtag_pool_mask : Z := 0xFF.
Definition memtag_callback : Z := 2 ^ 32 - 1.
Definition cache_line_size : Z := 64.
Definition pool_max_nlines : Z := 20.
Definition rcu_free_count : Z := 128.

Definition make (purpose index : Z) : threadinfo :=
  mkThreadinfo 0 0 None purpose index (repeat [] (Z.to_nat pool_max_nlines)) [LimboGroup.make] [] 2.
Definition set_gc (t : threadinfo) (gc : Z) : threadinfo :=
  mkThreadinfo gc (perform_gc_epoch_ t) (logger_ t) (purpose_ t) (index_ t) (pool_ t) (used_ t) (spare_ t) (ts_ t).
Definition set_perform (t : threadinfo) (e : Z) : threadinfo :=
  mkThreadinfo (gc_epoch_ t) e (logger_ t) (purpose_ t) (index_ t) (pool_ t) (used_ t) (spare_ t) (ts_ t).
Definition set_limbo (t : threadinfo) (us sp : list limbo_group) : threadinfo :=
  mkThreadinfo (gc_epoch_ t) (perform_gc_epoch_ t) (logger_ t) (purpose_ t) (index_ t) (pool_ t) us sp (ts_ t).
Definition set_pool (t : threadinfo) (p : list (list Z)) : threadinfo :=
  mkThreadinfo (gc_epoch_ t) (perform_gc_epoch_ t) (logger_ t) (purpose_ t) (index_ t) p (used_ t) (spare_ t) (ts_ t).
Definition set_ts (t : threadinfo) (ts : Z) : threadinfo :=
  mkThreadinfo (gc_epoch_ t) (perform_gc_epoch_ t) (logger_ t) (purpose_ t) (index_ t) (pool_ t) (used_ t) (spare_ t) ts.
Definition set_logger (t : threadinfo) (l : Z) : option threadinfo :=
  match logger_ t with
  | Some _ => None
  | None => Some (mkThreadinfo (gc_epoch_ t) (perform_gc_epoch_ t) (Some l) (purpose_ t) (index_ t) (pool_ t)
      (used_ t) (spare_ t) (ts_ t))
  end.

(** ** Timestamps *)
Definition update_timestamp (t : threadinfo) : Z := ts_ t.
Definition update_timestamp_after (t : threadinfo) (x : Z) : Z * threadinfo :=
  let t := if CircularInt.less_equal 64 (ts_ t) x then set_ts t (uwrap 64 (Z.lor x 1 + 1)) else t in (ts_ t, t).
Definition observe_phantoms (t : threadinfo) (phantom_epoch : Z) : threadinfo :=
  if CircularInt.less 64 (ts_ t) phantom_epoch then set_ts t phantom_epoch else t.

(** ** Retiring blocks *)
(** The next group becomes the tail: one from the chain, or a new one. *)
Definition refill_rcu (t : threadinfo) : option threadinfo :=
  match spare_ t with
  | [] => Some (set_limbo t (used_ t ++ [LimboGroup.make]) [])
  | g :: sp => if (head_ g =? 0) && (tail_ g =? 0) then Some (set_limbo t (used_ t ++ [g]) sp) else None
  end.
Definition limbo_tail (t : threadinfo) : option limbo_group := last (used_ t).
Definition set_limbo_tail (t : threadinfo) (g : limbo_group) : threadinfo :=
  set_limbo t (removelast (used_ t) ++ [g]) (spare_ t).
(** [globalepoch] is what the thread reads there. *)
Definition record_rcu (t : threadinfo) (ptr tag globalepoch : Z) : option threadinfo :=
  g ← limbo_tail t;
  t ← (if LimboGroup.capacity <? tail_ g + 2 then refill_rcu t else Some t);
  g ← limbo_tail t;
  g ← LimboGroup.push_back g ptr tag globalepoch;
  Some (set_limbo_tail t g).
Definition deallocate_rcu (t : threadinfo) (p tag globalepoch : Z) : option threadinfo :=
  if p =? 0 then None else record_rcu t p tag globalepoch.
Definition rcu_register (t : threadinfo) (cb globalepoch : Z) : option threadinfo :=
  record_rcu t cb memtag_callback globalepoch.

(** ** Pools *)
Definition nlines (sz : Z) : Z := (sz + cache_line_size - 1) / cache_line_size.
Definition pool (t : threadinfo) (nl : Z) : list Z := default [] (zlookup (pool_ t) (nl - 1)).
Definition put_pool (t : threadinfo) (nl : Z) (l : list Z) : threadinfo :=
  set_pool t (<[Z.to_nat (nl - 1) := l]> (pool_ t)).
(** The blocks of [unit] bytes that fit into [sz] bytes at [p], as the loop
    links them. *)
Fixpoint initialize_loop (fuel : nat) (p sz unit off : Z) : list Z :=
  match fuel with
  | O => []
  | S fuel => if off + unit <=? sz then p + off :: initialize_loop fuel p sz unit (off + unit) else []
  end.
Definition initialize_pool (p sz unit : Z) : list Z :=
  p :: initialize_loop (Z.to_nat (sz / unit)) p sz unit unit.
(** [chunk] and [pool_size] are what the system's allocator returns. *)
Definition refill_pool (t : threadinfo) (nl chunk pool_size : Z) : option threadinfo :=
  match pool t nl with
  | [] => Some (put_pool t nl (initialize_pool chunk pool_size (nl * cache_line_size)))
  | _ => None
  end.
Definition pool_allocate (t : threadinfo) (sz chunk pool_size : Z) : option (Z * threadinfo) :=
  let nl := nlines sz in
  if nl <=? pool_max_nlines then
    t ← (match pool t nl with [] => refill_pool t nl chunk pool_size | _ => Some t end);
    match pool t nl with
    | [] => None
    | p :: l => Some (p, put_pool t nl l)
    end
  else None.
Definition pool_deallocate (t : threadinfo) (p sz : Z) : option threadinfo :=
  let nl := nlines sz in
  if negb (p =? 0) && (nl <=? pool_max_nlines) then Some (put_pool t nl (p :: pool t nl)) else None.
Definition pool_deallocate_rcu (t : threadinfo) (p sz tag globalepoch : Z) : option threadinfo :=
  let nl := nlines sz in
  if negb (p =? 0) && (nl <=? pool_max_nlines) then record_rcu t p (tag + nl) globalepoch else None.

(** ** Grace periods *)
Section quiesce.
(** What the callback at an address retires when it runs. *)
Context (retires : Z -> list (Z * Z)).

Fixpoint record_all (t : threadinfo) (l : list (Z * Z)) (globalepoch : Z) : option threadinfo :=
  match l with
  | [] => Some t
  | (p, tag) :: l => t ← record_rcu t p tag globalepoch; record_all t l globalepoch
  end.
Definition event_of (p tag : Z) : event :=
  if Z.land tag memtag_pool_mask =? 0 then Free p
  else if tag =? memtag_callback then Call p
  else Pool (Z.land tag memtag_pool_mask) p.
Definition free_rcu (t : threadinfo) (p tag globalepoch : Z) : option (threadinfo * event) :=
  t ← (match event_of p tag with
       | Free p => Some t
       | Call cb => record_all t (retires cb) globalepoch
       | Pool nl p => Some (put_pool t nl (p :: pool t nl))
       end);
  Some (t, event_of p tag).

Definition limbo_head (t : threadinfo) : option limbo_group := head (used_ t).
Definition set_limbo_head (t : threadinfo) (g : limbo_group) : threadinfo := set_limbo t (g :: tail (used_ t)) (spare_ t).
Definition advance (g : limbo_group) : limbo_group := mkGroup (head_ g + 1) (tail_ g) (epoch_ g) (e_ g).
(** [e_[head_].ptr_ = nullptr; e_[head_].u_.epoch = epoch]. *)
Definition put_marker (g : limbo_group) (epoch : Z) : limbo_group :=
  mkGroup (head_ g) (tail_ g) (epoch_ g) (<[Z.to_nat (head_ g) := mkElement 0 epoch]> (e_ g)).

(** The loop of [clean_until] on the group [limbo_head_]. *)
Fixpoint clean_loop (fuel : nat) (t : threadinfo) (epoch_bound epoch count globalepoch : Z) (evs : list event) :
    option (threadinfo * Z * list event) :=
  match fuel with
  | O => None
  | S fuel =>
      g ← limbo_head t;
      if head_ g =? tail_ g then Some (t, count, evs)
      else
        x ← LimboGroup.element g (head_ g);
        if negb (ptr_ x =? 0) then
          r ← free_rcu t (ptr_ x) (u_ x) globalepoch;
          let '(t, ev) := r in
          let count := uwrap 32 (count - 1) in
          g ← limbo_head t;
          if count =? 0 then Some (set_limbo_head t (put_marker g epoch), count, evs ++ [ev])
          else clean_loop fuel (set_limbo_head t (advance g)) epoch_bound epoch count globalepoch (evs ++ [ev])
        else
          let epoch := u_ x in
          if swrap 64 (uwrap 64 (epoch_bound - epoch)) <? 0 then Some (t, count, evs)
          else clean_loop fuel (set_limbo_head t (advance g)) epoch_bound epoch count globalepoch evs
  end.
Definition clean_until (t : threadinfo) (epoch_bound count globalepoch : Z) (evs : list event) :
    option (threadinfo * Z * list event) :=
  r ← clean_loop (Z.to_nat LimboGroup.capacity + 1) t epoch_bound 0 count globalepoch evs;
  let '(t, count, evs) := r in
  g ← limbo_head t;
  let t := if head_ g =? tail_ g then set_limbo_head t (mkGroup 0 0 (epoch_ g) (e_ g)) else t in
  Some (t, count, evs).

(** The loop of [hard_rcu_quiesce], with the groups [empty_head] to
    [empty_tail] that it has emptied. *)
Fixpoint quiesce_loop (fuel : nat) (t : threadinfo) (epoch_bound count globalepoch : Z)
    (empties : list limbo_group) (evs : list event) : option (threadinfo * Z * list event) :=
  match fuel with
  | O => None
  | S fuel =>
      if count =? 0 then Some (set_limbo t (used_ t) (empties ++ spare_ t), count, evs)
      else
        r ← clean_until t epoch_bound count globalepoch evs;
        let '(t, count, evs) := r in
        match used_ t with
        | [] => None
        | g :: us =>
            if negb (head_ g =? tail_ g) then Some (set_limbo t (used_ t) (empties ++ spare_ t), count, evs)
            else match us, empties ++ [g] with
              | [], e0 :: es => Some (set_limbo t [e0] (es ++ spare_ t), count, evs)
              | _, es => quiesce_loop fuel (set_limbo t us (spare_ t)) epoch_bound count globalepoch es evs
              end
        end
  end.
(** [hard_rcu_quiesce] up to [done]. *)
Definition clean_groups (fuel : nat) (t : threadinfo) (epoch_bound globalepoch : Z) :
    option (threadinfo * Z * list event) :=
  g ← limbo_head t;
  match LimboGroup.first_epoch g with
  | None => Some (t, rcu_free_count, [])
  | Some e =>
      if swrap 64 (uwrap 64 (epoch_bound - e)) <? 0 then Some (t, rcu_free_count, [])
      else quiesce_loop fuel t epoch_bound rcu_free_count globalepoch [] []
  end.
Definition hard_rcu_quiesce (fuel : nat) (t : threadinfo) (active_epoch globalepoch : Z) :
    option (threadinfo * list event) :=
  let epoch_bound := uwrap 64 (active_epoch - 1) in
  r ← clean_groups fuel t epoch_bound globalepoch;
  let '(t, count, evs) := r in
  Some (set_perform t (if count =? 0 then epoch_bound else uwrap 64 (epoch_bound + 1)), evs).

(** [globalepoch] and [active_epoch] are what the thread reads there. *)
Definition rcu_start (t : threadinfo) (globalepoch : Z) : threadinfo :=
  if gc_epoch_ t =? globalepoch then t else set_gc t globalepoch.
Definition maybe_quiesce (fuel : nat) (t : threadinfo) (active_epoch active_epoch' globalepoch : Z) :
    option (threadinfo * list event) :=
  if negb (perform_gc_epoch_ t =? active_epoch) then hard_rcu_quiesce fuel t active_epoch' globalepoch
  else Some (t, []).
Definition rcu_stop (fuel : nat) (t : threadinfo) (active_epoch active_epoch' globalepoch : Z) :
    option (threadinfo * list event) :=
  r ← maybe_quiesce fuel t active_epoch active_epoch' globalepoch;
  Some (set_gc (fst r) 0, snd r).
Definition rcu_quiesce (fuel : nat) (t : threadinfo) (active_epoch active_epoch' globalepoch : Z) :
    option (threadinfo * list event) :=
  maybe_quiesce fuel (rcu_start t globalepoch) active_epoch active_epoch' globalepoch.
End quiesce.

(** The step of [min_active_epoch] for one thread, and the whole loop over the
    [gc_epoch_]s of [allthreads]. *)
Definition min_epoch_step (ae te : Z) : Z :=
  if negb (te =? 0) && (swrap 64 (uwrap 64 (te - ae)) <? 0) then te else ae.
Definition min_active_epoch (globalepoch : Z) (gc_epochs : list Z) : Z := foldl min_epoch_step globalepoch gc_epochs.
End Threadinfo.
