(* ===== verification/Limbo.v ===== *)
(** What [Threadinfo]'s limbo list stands for: the queue of retired pointers
    with their epochs.  Retiring appends to the queue; a quiescent point frees
    a prefix whose epochs are in the past. *)
From S2P Require Import Prelude CircularInt Threadinfo.
Import Threadinfo.

(** * The queue of a chain of groups *)
(** A pointer, its tag and its epoch. *)
Definition item : Type := Z * Z * Z.

Definition live (g : limbo_group) : list limbo_element :=
  take (Z.to_nat (tail_ g - head_ g)) (drop (Z.to_nat (head_ g)) (e_ g)).
Fixpoint decode (ep : Z) (els : list limbo_element) : list item :=
  match els with
  | [] => []
  | x :: els => if ptr_ x =? 0 then decode (u_ x) els else (ptr_ x, u_ x, ep) :: decode ep els
  end.
Fixpoint last_epoch (ep : Z) (els : list limbo_element) : Z :=
  match els with
  | [] => ep
  | x :: els => last_epoch (if ptr_ x =? 0 then u_ x else ep) els
  end.
Definition marked (els : list limbo_element) : Prop := match els with [] => True | x :: _ => ptr_ x = 0 end.
Definition group_items (g : limbo_group) : list item := decode 0 (live g).

Lemma decode_app ep l1 l2 : decode ep (l1 ++ l2) = decode ep l1 ++ decode (last_epoch ep l1) l2.
Proof. revert ep. induction l1 as [|x l1 IH]; intros ep; cbn; [done|]. rewrite !IH. by destruct (ptr_ x =? 0). Qed.
Lemma last_epoch_app ep l1 l2 : last_epoch ep (l1 ++ l2) = last_epoch (last_epoch ep l1) l2.
Proof. revert ep. induction l1 as [|x l1 IH]; intros ep; cbn; [done|]. apply IH. Qed.
Lemma marked_decode ep ep' els : marked els -> decode ep els = decode ep' els.
Proof. destruct els as [|x els]; cbn; [done|]. intros ->. done. Qed.
Lemma marked_last ep ep' els : marked els -> els <> [] -> last_epoch ep els = last_epoch ep' els.
Proof. destruct els as [|x els]; cbn; [done|]. intros -> _. done. Qed.
Lemma marked_app l1 l2 : marked l1 -> l1 <> [] -> marked (l1 ++ l2).
Proof. by destruct l1. Qed.

(** A group whose live slots start in the epoch [ep]. *)
Record group_at (ep : Z) (g : limbo_group) : Prop := {
  ga_range : 0 <= head_ g <= tail_ g /\ tail_ g <= LimboGroup.capacity;
  ga_length : zlength (e_ g) = LimboGroup.capacity;
  ga_epoch : live g <> [] -> last_epoch ep (live g) = epoch_ g }.
Record group_ok (g : limbo_group) : Prop := {
  go_at : group_at 0 g;
  go_marked : marked (live g) }.
Definition spare_ok (g : limbo_group) : Prop := group_at 0 g /\ head_ g = 0 /\ tail_ g = 0.
(** A group that takes a pointer if it has room. *)
Definition pushable (g : limbo_group) : Prop := live g <> [] \/ (head_ g = 0 /\ tail_ g = 0).

Lemma live_length g ep : group_at ep g -> zlength (live g) = tail_ g - head_ g.
Proof.
  intros [Hr Hl _]. unfold live, zlength in *. rewrite length_take, length_drop. lia.
Qed.
Lemma live_nil g ep : group_at ep g -> live g = [] <-> head_ g = tail_ g.
Proof.
  intros Hg. pose proof (live_length _ _ Hg) as Hl. split; intros H.
  - rewrite H in Hl. change (zlength (@nil limbo_element)) with 0 in Hl. lia.
  - destruct (live g) as [|y ys]; [done|]. rewrite zlength_cons in Hl. pose proof (zlength_nonneg ys). lia.
Qed.
Lemma live_empty g : head_ g = tail_ g -> live g = [].
Proof. intros H. unfold live. by rewrite H, Z.sub_diag. Qed.
Lemma live_cons g ep : group_at ep g -> head_ g <> tail_ g ->
  exists x, LimboGroup.element g (head_ g) = Some x /\ live g = x :: live (advance g).
Proof.
  intros [Hr Hl _] Hne. destruct (zlookup_Some (e_ g) (head_ g)) as [x Hx]; [lia|].
  exists x. split; [done|]. rewrite zlookup_nonneg in Hx by lia. unfold live, advance. cbn.
  rewrite (drop_S _ _ _ Hx). replace (Z.to_nat (tail_ g - head_ g)) with (S (Z.to_nat (tail_ g - (head_ g + 1)))) by lia.
  cbn. do 2 f_equal. f_equal. lia.
Qed.
Lemma live_append g x ep : group_at ep g -> tail_ g < LimboGroup.capacity -> live (LimboGroup.append g x) = live g ++ [x].
Proof.
  intros [Hr Hl _] Hlt. unfold live, LimboGroup.append. cbn. unfold zlength in Hl.
  rewrite drop_insert_ge by lia.
  replace (Z.to_nat (tail_ g + 1 - head_ g)) with (S (Z.to_nat (tail_ g - head_ g))) by lia.
  replace (Z.to_nat (tail_ g) - Z.to_nat (head_ g))%nat with (Z.to_nat (tail_ g - head_ g)) by lia.
  rewrite (take_S_r _ _ x).
  - by rewrite take_insert_ge.
  - rewrite list_lookup_insert_eq; [done|]. rewrite length_drop. lia.
Qed.
Lemma live_put_marker g ep x : group_at ep g -> head_ g <> tail_ g -> live (put_marker g x) = mkElement 0 x :: live (advance g).
Proof.
  intros Hg Hne. destruct Hg as [Hr Hl _]. unfold live, put_marker, advance, zlength in *. cbn.
  rewrite drop_insert_ge by lia. rewrite Nat.sub_diag.
  destruct (zlookup_Some (e_ g) (head_ g)) as [y Hy]; [unfold zlength; lia|]. rewrite zlookup_nonneg in Hy by lia.
  rewrite (drop_S _ _ _ Hy). cbn.
  replace (Z.to_nat (tail_ g - head_ g)) with (S (Z.to_nat (tail_ g - (head_ g + 1)))) by lia. cbn.
  do 2 f_equal. f_equal. lia.
Qed.

Lemma append_at g x ep : group_at ep g -> tail_ g < LimboGroup.capacity ->
  group_at ep (mkGroup (head_ g) (tail_ g + 1) (last_epoch ep (live g ++ [x])) (<[Z.to_nat (tail_ g) := x]> (e_ g))).
Proof.
  intros Hg Hlt. pose proof (live_append g x ep Hg Hlt) as Hlive. destruct Hg as [Hr Hl He]. split; cbn.
  - lia.
  - unfold zlength in *. by rewrite length_insert.
  - intros _. by rewrite <- Hlive.
Qed.

Lemma push_back_spec g p tag epoch ep :
  group_at ep g -> tail_ g + 2 <= LimboGroup.capacity -> p <> 0 ->
  exists g' l, LimboGroup.push_back g p tag epoch = Some g' /\ group_at ep g' /\ head_ g' = head_ g /\
    live g' = live g ++ l /\ l <> [] /\ (live g = [] -> marked l) /\
    decode ep (live g') = decode ep (live g) ++ [(p, tag, epoch)].
Proof.
  intros Hg Ht Hp. unfold LimboGroup.push_back. destruct (Z.leb_spec (tail_ g + 2) LimboGroup.capacity); [|lia].
  pose proof (live_nil g ep Hg) as Hnil.
  destruct ((head_ g =? tail_ g) || negb (epoch_ g =? epoch)) eqn:Hm.
  - set (mk := mkElement 0 epoch). set (x := mkElement p tag).
    pose proof (append_at g mk ep Hg ltac:(lia)) as Hg1.
    assert (last_epoch ep (live g ++ [mk]) = epoch) as Hep by (rewrite last_epoch_app; done).
    rewrite Hep in Hg1. set (g1 := mkGroup _ _ _ _) in Hg1.
    assert (live g1 = live g ++ [mk]) as Hl1 by (apply (live_append g mk ep); [done|lia]). rewrite <- Hl1 in Hep.
    pose proof (append_at g1 x ep Hg1 ltac:(cbn; lia)) as Hg2.
    assert (live (LimboGroup.append g1 x) = live g ++ [mk; x]) as Hl2.
    { rewrite (live_append g1 x ep) by (done || (cbn; lia)). rewrite Hl1, <- app_assoc. done. }
    assert (last_epoch ep (live g1 ++ [x]) = epoch) as He2.
    { rewrite last_epoch_app, Hep. cbn. destruct (Z.eqb_spec p 0); done. }
    rewrite He2 in Hg2. eexists _, [mk; x]. split; [done|]. split_and!; [exact Hg2|done|exact Hl2|done|done|].
    etrans; [exact (f_equal (decode ep) Hl2)|]. rewrite decode_app. cbn.
    by destruct (Z.eqb_spec p 0).
  - apply orb_false_iff in Hm as [Hne Hsame]. apply Z.eqb_neq in Hne. apply negb_false_iff, Z.eqb_eq in Hsame.
    set (x := mkElement p tag). assert (live g <> []) as Hln by (rewrite Hnil; done).
    pose proof (append_at g x ep Hg ltac:(lia)) as Hg1.
    assert (last_epoch ep (live g ++ [x]) = epoch_ g) as He1.
    { rewrite last_epoch_app, (ga_epoch _ _ Hg Hln). cbn. destruct (Z.eqb_spec p 0); done. }
    rewrite He1 in Hg1. pose proof (live_append g x ep Hg ltac:(lia)) as Hl1.
    eexists _, [x]. split; [done|]. split_and!; [exact Hg1|done|exact Hl1|done|done|].
    rewrite Hl1, decode_app, (ga_epoch _ _ Hg Hln), Hsame. cbn. by destruct (Z.eqb_spec p 0).
Qed.

Lemma group_ok_at g ep : group_ok g -> group_at ep g.
Proof.
  intros [[Hr Hl He] Hm]. split; [done..|]. intros Hne. rewrite <- He by done. by apply marked_last.
Qed.

(** * The queue of a thread *)
Definition full (g : limbo_group) : Prop := group_ok g /\ live g <> [].
Definition queue_of (us : list limbo_group) : list item := concat (map group_items us).

(** The thread's chain holds the queue [xs]; the live slots of the first group
    start in the epoch [ep]. *)
Record limbo_at (ep : Z) (t : threadinfo) (g : limbo_group) (us : list limbo_group) (xs : list item) : Prop := {
  la_used : used_ t = g :: us;
  la_head : group_at ep g;
  la_full : Forall full us;
  la_spare : Forall spare_ok (spare_ t);
  la_items : xs = decode ep (live g) ++ queue_of us }.

Lemma limbo_head_eq ep t g us xs : limbo_at ep t g us xs -> limbo_head t = Some g.
Proof. intros H. unfold limbo_head. by rewrite (la_used _ _ _ _ _ H). Qed.

(** Everything but the chain. *)
Record same_rest (t t' : threadinfo) : Prop := {
  sr_gc : gc_epoch_ t' = gc_epoch_ t;
  sr_perform : perform_gc_epoch_ t' = perform_gc_epoch_ t;
  sr_ts : ts_ t' = ts_ t }.
Lemma same_rest_refl t : same_rest t t.
Proof. done. Qed.
Lemma same_rest_trans t1 t2 t3 : same_rest t1 t2 -> same_rest t2 t3 -> same_rest t1 t3.
Proof. intros [] []. split; congruence. Qed.

Lemma spare_make : spare_ok LimboGroup.make.
Proof. split; [|done]. split; [done|by vm_compute|]. intros H. by destruct H. Qed.

Lemma full_push g p tag epoch : group_ok g -> pushable g -> tail_ g + 2 <= LimboGroup.capacity -> p <> 0 ->
  exists g', LimboGroup.push_back g p tag epoch = Some g' /\ full g' /\ group_items g' = group_items g ++ [(p, tag, epoch)].
Proof.
  intros Hg Hpush Ht Hp. destruct (push_back_spec g p tag epoch 0 (go_at _ Hg) Ht Hp) as (g' & l & H1 & H2 & _ & H4 & H5 & H6 & H7).
  exists g'. split; [done|]. split; [|done]. split; [split; [done|]|].
  - rewrite H4. destruct (live g) eqn:E; [by apply H6|]. apply marked_app; [|done]. rewrite <- E. apply Hg.
  - rewrite H4. destruct (live g); [done|]. done.
Qed.

(** Appending a group to the chain. *)
Lemma record_refilled t us g0 sp p tag ge :
  used_ t = us -> spare_ok g0 -> p <> 0 ->
  exists g', (g ← limbo_tail (set_limbo t (us ++ [g0]) sp); g ← LimboGroup.push_back g p tag ge;
    Some (set_limbo_tail (set_limbo t (us ++ [g0]) sp) g)) = Some (set_limbo t (us ++ [g']) sp) /\
    full g' /\ group_items g' = [(p, tag, ge)].
Proof.
  intros Hu (Hg & Hh & Ht) Hp.
  assert (live g0 = []) as Hl by (apply live_empty; lia).
  destruct (full_push g0 p tag ge) as (g' & H1 & H2 & H3); [split; [done|by rewrite Hl]|by right|by rewrite Ht|done|].
  exists g'. unfold limbo_tail. cbn [used_ set_limbo]. rewrite last_snoc. cbn [mbind option_bind]. rewrite H1.
  cbn [mbind option_bind]. unfold set_limbo_tail. cbn. rewrite removelast_last. split; [done|]. split; [done|].
  rewrite H3. unfold group_items. by rewrite Hl.
Qed.

Lemma queue_of_snoc us g : queue_of (us ++ [g]) = queue_of us ++ group_items g.
Proof. unfold queue_of. by rewrite map_app, concat_app, <- (app_nil_r (group_items g)). Qed.

Lemma record_rcu_spec ep t g us xs p tag ge :
  limbo_at ep t g us xs -> pushable g -> p <> 0 ->
  exists t' g' us' l, record_rcu t p tag ge = Some t' /\ limbo_at ep t' g' us' (xs ++ [(p, tag, ge)]) /\
    head_ g' = head_ g /\ live g' = live g ++ l /\ (live g = [] -> marked l) /\ same_rest t t' /\
    (us = [] -> live g' <> []).
Proof.
  intros [Hu Hg Hus Hsp Hxs] Hpush Hp. unfold record_rcu.
  assert (exists gl, limbo_tail t = Some gl /\ (gl = g /\ us = [] \/ exists us0, us = us0 ++ [gl])) as (gl & Hgl & Hcase).
  { unfold limbo_tail. rewrite Hu. destruct us as [|gl us0] using rev_ind; [exists g; split; [done|by left]|].
    exists gl. split; [by rewrite app_comm_cons, last_snoc|]. right. by exists us0. }
  rewrite Hgl. cbn [mbind option_bind].
  destruct (Z.ltb_spec LimboGroup.capacity (tail_ gl + 2)) as [Hov|Hroom].
  - (* a new group *)
    assert (exists g0 sp, refill_rcu t = Some (set_limbo t ((g :: us) ++ [g0]) sp) /\ spare_ok g0 /\ Forall spare_ok sp)
      as (g0 & sp & -> & Hg0 & Hsp').
    { unfold refill_rcu. rewrite Hu. destruct (spare_ t) as [|g0 sp]; [exists LimboGroup.make, []; split_and!; [done|apply spare_make|constructor]|].
      inversion Hsp as [|? ? (Ha & Hh & Ht) Hsp']; subst. rewrite Hh, Ht. exists g0, sp. by split_and!. }
    cbn [mbind option_bind]. destruct (record_refilled t (g :: us) g0 sp p tag ge Hu Hg0 Hp) as (g' & Hrec & Hfull & Hit).
    cbn [mbind option_bind] in Hrec. rewrite Hrec.
    exists (set_limbo t ((g :: us) ++ [g']) sp), g, (us ++ [g']), []. split_and!; try done; [|by rewrite app_nil_r|].
    2: { intros ->. destruct Hcase as [[-> _]|[us0 Hc]]; [|by destruct us0]. destruct Hpush as [?|[_ Ht]]; [done|]. rewrite Ht in Hov. done. }
    split; [done|done|apply Forall_app; by split; [|constructor]|done|]. by rewrite Hxs, queue_of_snoc, Hit, app_assoc.
  - destruct Hcase as [[-> ->]|[us0 ->]].
    + (* the only group *)
      cbn [mbind option_bind]. rewrite Hgl. cbn [mbind option_bind].
      destruct (push_back_spec g p tag ge ep Hg ltac:(lia) Hp) as (g' & l & -> & Hg' & Hh & Hl & Hl0 & Hm & Hd).
      cbn [mbind option_bind]. unfold set_limbo_tail. rewrite Hu. cbn [removelast app].
      eexists _, g', [], l. split_and!; [done| |done..|intros _; rewrite Hl; by destruct (live g)]. split; try done.
      rewrite Hd, Hxs. cbn. by rewrite !app_nil_r.
    + cbn [mbind option_bind]. rewrite Hgl. cbn [mbind option_bind].
      apply Forall_app in Hus as [Hus0 Hgl']. inversion Hgl' as [|? ? [Hok Hne] _]; subst.
      destruct (full_push gl p tag ge Hok ltac:(by left) ltac:(lia) Hp) as (g' & -> & Hfull & Hit).
      cbn [mbind option_bind]. unfold set_limbo_tail. rewrite Hu, app_comm_cons, removelast_last.
      eexists _, g, (us0 ++ [g']), []. split_and!; [done| |done|by rewrite app_nil_r|done|done|by destruct us0].
      split; [done|done|apply Forall_app; by split; [|constructor]|done|].
      by rewrite !queue_of_snoc, Hit, !app_assoc.
Qed.

(** * Freeing *)
Section drain.
Context (retires : Z -> list (Z * Z)).
Context (Hretires : forall cb, Forall (fun pt => fst pt <> 0) (retires cb)).

Definition retired (l : list (Z * Z)) (ge : Z) : list item := map (fun pt => (fst pt, snd pt, ge)) l.
(** What freeing a pointer adds to the queue. *)
Definition follow (p tag ge : Z) : list item :=
  match event_of p tag with Call cb => retired (retires cb) ge | _ => [] end.
(** Epochs up to [bound], in the signed order of the counter. *)
Definition past (bound e : Z) : Prop := 0 <= swrap 64 (uwrap 64 (bound - e)).

(** Freeing the queue's first items, in order, with past epochs: the freed
    ones, and the queue that is left. *)
Inductive drains (bound ge : Z) : list item -> list item -> list item -> Prop :=
  | drains_nil q : drains bound ge q [] q
  | drains_free p tag e q fs q' : past bound e -> drains bound ge (q ++ follow p tag ge) fs q' ->
      drains bound ge ((p, tag, e) :: q) ((p, tag, e) :: fs) q'.
Definition item_event (x : item) : event := event_of (fst (fst x)) (snd (fst x)).

Lemma drains_app bound ge q1 fs1 q2 fs2 q3 :
  drains bound ge q1 fs1 q2 -> drains bound ge q2 fs2 q3 -> drains bound ge q1 (fs1 ++ fs2) q3.
Proof using Type. intros H. induction H; cbn; [done|]. intros H2. constructor; auto. Qed.
Lemma drains_past bound ge q fs q' : drains bound ge q fs q' -> Forall (fun x => past bound (snd x)) fs.
Proof using Type. intros H. induction H; constructor; auto. Qed.

Lemma record_all_spec ep ge l : forall t g us xs,
  limbo_at ep t g us xs -> live g <> [] -> Forall (fun pt => fst pt <> 0) l ->
  exists t' g' us' els, record_all t l ge = Some t' /\ limbo_at ep t' g' us' (xs ++ retired l ge) /\
    head_ g' = head_ g /\ live g' = live g ++ els /\ same_rest t t'.
Proof using Type.
  induction l as [|[p tag] l IH]; intros t g us xs Hla Hne Hl.
  - exists t, g, us, []. cbn. rewrite !app_nil_r. split_and!; try done.
  - inversion Hl as [|? ? Hp Hl']; subst. cbn [record_all].
    destruct (record_rcu_spec ep t g us xs p tag ge Hla ltac:(by left) Hp) as (t1 & g1 & us1 & els1 & -> & H1 & H2 & H3 & _ & H4 & _).
    cbn [mbind option_bind]. destruct (IH t1 g1 us1 _ H1) as (t2 & g2 & us2 & els2 & -> & H5 & H6 & H7 & H8); [rewrite H3; by destruct (live g)|done|].
    exists t2, g2, us2, (els1 ++ els2). split_and!; [done| |congruence|by rewrite H7, H3, app_assoc|by eapply same_rest_trans].
    rewrite <- app_assoc in H5. exact H5.
Qed.

Lemma free_rcu_spec ep ge t g us xs p tag :
  limbo_at ep t g us xs -> live g <> [] ->
  exists t' g' us' els, free_rcu retires t p tag ge = Some (t', event_of p tag) /\
    limbo_at ep t' g' us' (xs ++ follow p tag ge) /\ head_ g' = head_ g /\ live g' = live g ++ els /\ same_rest t t'.
Proof using Hretires.
  intros Hla Hne. unfold free_rcu, follow. destruct (event_of p tag) as [q|nl q|cb] eqn:Hev.
  - exists t, g, us, []. rewrite !app_nil_r. by split_and!.
  - exists (put_pool t nl (q :: pool t nl)), g, us, []. rewrite !app_nil_r. split_and!; try done.
    by destruct Hla.
  - destruct (record_all_spec ep ge (retires cb) t g us xs Hla Hne (Hretires cb)) as (t' & g' & us' & els & -> & H).
    exists t', g', us', els. by split.
Qed.

(** Why cleaning a group stops. *)
Inductive stopped (bound count : Z) (g : limbo_group) : Prop :=
  | stopped_empty : head_ g = tail_ g -> stopped bound count g
  | stopped_count : count = 0 -> head_ g <> tail_ g -> marked (live g) -> stopped bound count g
  | stopped_epoch e : LimboGroup.element g (head_ g) = Some (mkElement 0 e) -> head_ g <> tail_ g -> ~ past bound e ->
      stopped bound count g.

Lemma advance_at ep g x :
  group_at ep g -> live g = x :: live (advance g) -> head_ g <> tail_ g ->
  group_at (if ptr_ x =? 0 then u_ x else ep) (advance g).
Proof using Type.
  intros [Hr Hl He] Hlive Hne. split; cbn.
  - lia.
  - done.
  - intros Hln. rewrite <- He by (by rewrite Hlive). rewrite Hlive. done.
Qed.

Lemma clean_loop_spec bound ge : forall fuel ep t g us xs count evs,
  limbo_at ep t g us xs -> marked (live g) \/ past bound ep -> 0 < count <= rcu_free_count ->
  LimboGroup.capacity - head_ g < Z.of_nat fuel ->
  exists t' g' us' xs' count' ep' fs, clean_loop retires fuel t bound ep count ge evs = Some (t', count', evs ++ map item_event fs) /\
    limbo_at ep' t' g' us' xs' /\ drains bound ge xs fs xs' /\ count' = count - zlength fs /\ 0 <= count' /\
    stopped bound count' g' /\ same_rest t t' /\ (fs = [] -> us' = us).
Proof using Hretires.
  induction fuel as [|fuel IH]; intros ep t g us xs count evs Hla Hep Hcount Hfuel.
  { pose proof (ga_range _ _ (la_head _ _ _ _ _ Hla)). lia. }
  cbn [clean_loop]. rewrite (limbo_head_eq _ _ _ _ _ Hla). cbn [mbind option_bind].
  destruct (Z.eqb_spec (head_ g) (tail_ g)) as [Heq|Hne].
  { exists t, g, us, xs, count, ep, []. rewrite app_nil_r. split_and!; try done; [apply drains_nil|unfold zlength; cbn [length]; lia|lia|by apply stopped_empty]. }
  destruct (live_cons g ep (la_head _ _ _ _ _ Hla) Hne) as (x & Hx & Hlive). rewrite Hx. cbn [mbind option_bind].
  pose proof (la_items _ _ _ _ _ Hla) as Hxs. rewrite Hlive in Hxs. cbn [decode] in Hxs.
  destruct (Z.eqb_spec (ptr_ x) 0) as [Hp|Hp]; cbn [negb].
  - (* a marker *)
    destruct (Z.ltb_spec (swrap 64 (uwrap 64 (bound - u_ x))) 0) as [Hlt|Hge].
    + exists t, g, us, xs, count, ep, []. rewrite app_nil_r. split_and!; try done; [apply drains_nil|unfold zlength; cbn [length]; lia|lia|].
      eapply (stopped_epoch _ _ _ (u_ x)); [|done|unfold past; lia]. rewrite Hx. by destruct x as [? ?]; cbn in Hp; subst.
    + destruct (IH (u_ x) (set_limbo_head t (advance g)) (advance g) us xs count evs) as
        (t' & g' & us' & xs' & count' & ep' & fs & H1 & H2 & H3 & H4 & H5 & H6 & H7 & H8); [|by right|lia|cbn; lia|].
      * pose proof (advance_at ep g x (la_head _ _ _ _ _ Hla) Hlive Hne) as Ha. rewrite Hp, Z.eqb_refl in Ha.
        destruct Hla as [Hu Hg Hus Hsp _]. split; try done. unfold set_limbo_head. cbn [used_ set_limbo]. by rewrite Hu.
      * exists t', g', us', xs', count', ep', fs. split_and!; try done. by destruct H7.
  - (* a pointer *)
    assert (past bound ep) as Hpast. { destruct Hep as [Hm|]; [|done]. rewrite Hlive in Hm. done. }
    destruct (free_rcu_spec ep ge t g us xs (ptr_ x) (u_ x) Hla) as (t1 & g1 & us1 & els & -> & H1 & H2 & H3 & H4); [by rewrite Hlive|].
    cbn [mbind option_bind]. rewrite (limbo_head_eq _ _ _ _ _ H1). cbn [mbind option_bind].
    assert (live g1 <> []) as Hne1 by (rewrite H3, Hlive; done).
    assert (head_ g1 <> tail_ g1) as Hht by (by rewrite <- (live_nil g1 ep (la_head _ _ _ _ _ H1))).
    destruct (live_cons g1 ep (la_head _ _ _ _ _ H1) Hht) as (y & Hy & Hlive1).
    assert (y = x) as ->. { rewrite H3, Hlive in Hlive1. by injection Hlive1. }
    pose proof (la_items _ _ _ _ _ H1) as Hxs1. rewrite Hlive1 in Hxs1. cbn [decode] in Hxs1.
    destruct (Z.eqb_spec (ptr_ x) 0) as [|_]; [done|].
    set (q := decode ep (live (advance g)) ++ queue_of us) in *.
    assert (q ++ follow (ptr_ x) (u_ x) ge = decode ep (live (advance g1)) ++ queue_of us1) as Hq.
    { rewrite Hxs in Hxs1. by injection Hxs1. }
    assert (uwrap 32 (count - 1) = count - 1) as -> by (apply uwrap_id; unfold in_u, rcu_free_count in *; lia).
    destruct (Z.eqb_spec (count - 1) 0) as [Hc0|Hc0].
    + eexists (set_limbo_head t1 (put_marker g1 ep)), (put_marker g1 ep), us1, _, (count - 1), ep, [(ptr_ x, u_ x, ep)].
      split_and!; [done| | |unfold zlength; cbn [length]; lia|lia| | |done].
      * destruct H1 as [Hu Hg Hus Hsp _]. split; [unfold set_limbo_head; cbn [used_ set_limbo]; by rewrite Hu| |done|done|done]. destruct Hg as [Hr Hl He]. split; cbn.
        -- done.
        -- unfold zlength in *. by rewrite length_insert.
        -- intros _. rewrite (live_put_marker g1 ep) by done. rewrite <- He by done. rewrite Hlive1. cbn.
           by destruct (Z.eqb_spec (ptr_ x) 0).
      * rewrite Hxs. cbn. apply drains_free; [done|]. fold q. rewrite Hq, (live_put_marker g1 ep); [|by apply H1|done].
        cbn. apply drains_nil.
      * apply stopped_count; [lia|done|]. by rewrite (live_put_marker g1 ep); [|by apply H1|].
      * by destruct H4.
    + destruct (IH ep (set_limbo_head t1 (advance g1)) (advance g1) us1 (q ++ follow (ptr_ x) (u_ x) ge) (count - 1)
        (evs ++ [event_of (ptr_ x) (u_ x)])) as
        (t' & g' & us' & xs' & count' & ep' & fs & K1 & K2 & K3 & K4 & K5 & K6 & K7 & _); [|by right|lia|cbn; lia|].
      * pose proof (advance_at ep g1 x (la_head _ _ _ _ _ H1) Hlive1 Hht) as Ha.
        destruct (Z.eqb_spec (ptr_ x) 0) as [|_]; [done|].
        destruct H1 as [Hu Hg Hus Hsp _]. split; try done. unfold set_limbo_head. cbn [used_ set_limbo]. by rewrite Hu.
      * exists t', g', us', xs', count', ep', ((ptr_ x, u_ x, ep) :: fs). split_and!; try done.
        -- by rewrite K1, <- app_assoc.
        -- rewrite Hxs. cbn. by apply drains_free.
        -- rewrite zlength_cons. lia.
        -- destruct K7, H4. split; cbn in *; congruence.
Qed.

Lemma clean_until_spec bound ge t g us xs count evs :
  limbo_at 0 t g us xs -> marked (live g) -> 0 < count <= rcu_free_count ->
  exists t' g' us' xs' fs, let count' := count - zlength fs in
    clean_until retires t bound count ge evs = Some (t', count', evs ++ map item_event fs) /\
    limbo_at 0 t' g' us' xs' /\ marked (live g') /\ (head_ g' = tail_ g' -> head_ g' = 0) /\
    drains bound ge xs fs xs' /\ 0 <= count' /\ stopped bound count' g' /\ same_rest t t' /\ (fs = [] -> us' = us).
Proof using Hretires.
  intros Hla Hm Hcount.
  destruct (clean_loop_spec bound ge (Z.to_nat LimboGroup.capacity + 1) 0 t g us xs count evs Hla) as
    (t' & g' & us' & xs' & count' & ep' & fs & H1 & H2 & H3 & -> & H5 & H6 & H7 & H8); [by left|done| |].
  { pose proof (ga_range _ _ (la_head _ _ _ _ _ Hla)). lia. }
  unfold clean_until. rewrite H1. cbn [mbind option_bind]. rewrite (limbo_head_eq _ _ _ _ _ H2). cbn [mbind option_bind].
  destruct H2 as [Hu Hg Hus Hsp Hxs].
  destruct (Z.eqb_spec (head_ g') (tail_ g')) as [Heq|Hne].
  - set (g0 := mkGroup 0 0 (epoch_ g') (e_ g')). assert (live g0 = [] /\ live g' = []) as [Hl0 Hl'] by (split; by apply live_empty).
    exists (set_limbo_head t' g0), g0, us', xs', fs. split_and!; try done.
    + unfold set_limbo_head. split; [cbn [used_ set_limbo]; by rewrite Hu| |done|done|by rewrite Hl0, Hxs, Hl'].
      split; [done|apply Hg|by rewrite Hl0].
    + by apply stopped_empty.
    + by destruct H7.
  - assert (marked (live g')) as Hmk.
    { destruct H6 as [?|? ? ?|e He _ _]; [done|done|]. destruct (live_cons g' ep' Hg Hne) as (x & Hx & ->).
      rewrite He in Hx. by injection Hx as <-. }
    exists t', g', us', xs', fs. split_and!; try done. split; try done.
    + destruct Hg as [Hr Hl He]. split; [done..|]. intros Hln. rewrite <- He by done. by apply marked_last.
    + by rewrite (marked_decode 0 ep').
Qed.

(** The thread between operations: its chain holds the queue [xs]. *)
Definition thread_queue (t : threadinfo) (xs : list item) : Prop :=
  exists g us, limbo_at 0 t g us xs /\ marked (live g) /\ (head_ g = tail_ g -> head_ g = 0 /\ us = []).
(** The first epoch of the queue is not past. *)
Definition blocked (bound : Z) (t : threadinfo) : Prop :=
  exists g e, limbo_head t = Some g /\ LimboGroup.first_epoch g = Some e /\ ~ past bound e.

Lemma quiesce_loop_spec bound ge : forall (n k : nat) t g us xs count empties evs,
  (Z.to_nat count <= n)%nat -> (length us <= k)%nat ->
  limbo_at 0 t g us xs -> marked (live g) -> (head_ g = tail_ g -> head_ g = 0 /\ us = []) -> Forall spare_ok empties ->
  0 <= count <= rcu_free_count ->
  exists F t' xs' fs, let count' := count - zlength fs in
    (forall fuel, (F <= fuel)%nat -> quiesce_loop retires fuel t bound count ge empties evs = Some (t', count', evs ++ map item_event fs)) /\
    thread_queue t' xs' /\ drains bound ge xs fs xs' /\ 0 <= count' /\
    (count' = 0 \/ xs' = [] \/ blocked bound t') /\ same_rest t t'.
Proof using Hretires.
  induction n as [n IHn] using lt_wf_ind. induction k as [k IHk] using lt_wf_ind.
  intros t g us xs count empties evs Hn Hk Hla Hm Hh Hemp Hcount.
  destruct (Z.eqb_spec count 0) as [->|Hc0].
  { exists 1%nat, (set_limbo t (used_ t) (empties ++ spare_ t)), xs, []. cbn [zlength length]. split_and!; try done.
    - intros [|fuel] Hf; [lia|]. cbn. by rewrite app_nil_r.
    - exists g, us. split_and!; [|done|done]. destruct Hla. split; try done. cbn. by apply Forall_app.
    - apply drains_nil.
    - by left. }
  destruct (clean_until_spec bound ge t g us xs count evs Hla Hm ltac:(lia)) as
    (t1 & g1 & us1 & xs1 & fs1 & H1 & H2 & H3 & H4 & H5 & H6 & H7 & H8 & H9). cbv zeta in *.
  set (count1 := count - zlength fs1) in *.
  destruct (Z.eqb_spec (head_ g1) (tail_ g1)) as [Heq|Hne].
  - assert (spare_ok g1) as Hg1. { split; [apply H2|]. specialize (H4 Heq). lia. }
    assert (live g1 = []) as Hl1 by (by apply live_empty).
    destruct us1 as [|g2 us2].
    + (* all groups are empty *)
      destruct (empties ++ [g1]) as [|e0 es] eqn:He; [by destruct empties|].
      assert (Forall spare_ok (e0 :: es)) as Hes by (rewrite <- He; by apply Forall_app; split; [|constructor]).
      inversion Hes as [|? ? He0 Hes']; subst. destruct He0 as (Ha0 & Hh0 & Ht0).
      exists 1%nat, (set_limbo t1 [e0] (es ++ spare_ t1)), [], fs1. split_and!; try done.
      * intros [|fuel] Hf; [lia|]. cbn [quiesce_loop]. destruct (Z.eqb_spec count 0); [done|]. rewrite H1.
        cbn [mbind option_bind]. rewrite (la_used _ _ _ _ _ H2). rewrite (proj2 (Z.eqb_eq _ _) Heq). cbn [negb].
        by rewrite He.
      * exists e0, []. split; [|split; [by rewrite live_empty by lia|done]]. split; try done.
        -- cbn. apply Forall_app. split; [done|apply H2].
        -- by rewrite live_empty by lia.
      * rewrite (la_items _ _ _ _ _ H2), Hl1 in H5. exact H5.
      * by right; left.
      * by destruct H8.
    + (* the next group *)
      pose proof (la_full _ _ _ _ _ H2) as Hus. inversion Hus as [|? ? [Hok2 Hne2] Hus2]; subst.
      set (t2 := set_limbo t1 (g2 :: us2) (spare_ t1)).
      assert (limbo_at 0 t2 g2 us2 xs1) as Hla2.
      { split; [done|apply Hok2|done|apply H2|]. by rewrite (la_items _ _ _ _ _ H2), Hl1. }
      assert (exists F t' xs' fs, let count' := count1 - zlength fs in
        (forall fuel, (F <= fuel)%nat -> quiesce_loop retires fuel t2 bound count1 ge (empties ++ [g1]) (evs ++ map item_event fs1) =
          Some (t', count', (evs ++ map item_event fs1) ++ map item_event fs)) /\
        thread_queue t' xs' /\ drains bound ge xs1 fs xs' /\ 0 <= count' /\
        (count' = 0 \/ xs' = [] \/ blocked bound t') /\ same_rest t2 t') as (F & t' & xs' & fs & K1 & K2 & K3 & K4 & K5 & K6).
      { assert (Forall spare_ok (empties ++ [g1])) as Hes by (by apply Forall_app; split; [|constructor]).
        assert (head_ g2 = tail_ g2 -> head_ g2 = 0 /\ us2 = []) as Hh2.
        { intros Hht. destruct Hne2. by apply live_empty. }
        pose proof (zlength_nonneg fs1). destruct fs1 as [|f fs1].
        - rewrite <- (H9 eq_refl) in Hk. cbn in Hk. change (zlength (@nil item)) with 0 in count1.
          apply (IHk (length us2) ltac:(lia) t2 g2 us2 xs1); try done; try apply Hok2; unfold count1; lia.
        - pose proof (zlength_cons f fs1). pose proof (zlength_nonneg fs1).
          apply (IHn (Z.to_nat count1) ltac:(unfold count1; lia) (length us2) t2 g2 us2 xs1); try done; try apply Hok2; unfold count1; lia. }
      exists (S F), t', xs', (fs1 ++ fs). rewrite zlength_app, Z.sub_add_distr. split_and!; try done.
      * intros [|fuel] Hf; [lia|]. cbn [quiesce_loop]. destruct (Z.eqb_spec count 0); [done|]. rewrite H1.
        cbn [mbind option_bind]. rewrite (la_used _ _ _ _ _ H2). rewrite (proj2 (Z.eqb_eq _ _) Heq). cbn [negb].
        rewrite map_app, app_assoc. apply K1. lia.
      * by eapply drains_app.
      * eapply same_rest_trans; [exact H8|]. by destruct K6.
  - exists 1%nat, (set_limbo t1 (used_ t1) (empties ++ spare_ t1)), xs1, fs1. split_and!; try done.
    + intros [|fuel] Hf; [lia|]. cbn [quiesce_loop]. destruct (Z.eqb_spec count 0); [done|]. rewrite H1.
      cbn [mbind option_bind]. rewrite (la_used _ _ _ _ _ H2). by rewrite (proj2 (Z.eqb_neq _ _) Hne).
    + exists g1, us1. split_and!; [|done|done]. destruct H2. split; try done. cbn. by apply Forall_app.
    + destruct H7 as [?|? ? ?|e He _ Hpast]; [done|by left|]. right; right. exists g1, e. split_and!; [|..|done].
      * unfold limbo_head. cbn. by rewrite (la_used _ _ _ _ _ H2).
      * unfold LimboGroup.first_epoch. rewrite (proj2 (Z.eqb_neq _ _) Hne). by rewrite He.
    + by destruct H8.
Qed.
End drain.

Lemma thread_queue_det t xs xs' : thread_queue t xs -> thread_queue t xs' -> xs = xs'.
Proof.
  intros (g & us & H & _) (g' & us' & H' & _). pose proof (la_used _ _ _ _ _ H) as Hu.
  rewrite (la_used _ _ _ _ _ H') in Hu. injection Hu as -> ->.
  by rewrite (la_items _ _ _ _ _ H), (la_items _ _ _ _ _ H').
Qed.

Lemma make_queue purpose index : thread_queue (make purpose index) [].
Proof.
  exists LimboGroup.make, []. split; [|done]. destruct spare_make. split; try done; constructor.
Qed.

Lemma deallocate_rcu_spec t xs p tag globalepoch :
  thread_queue t xs -> p <> 0 ->
  exists t', deallocate_rcu t p tag globalepoch = Some t' /\ thread_queue t' (xs ++ [(p, tag, globalepoch)]) /\
    same_rest t t'.
Proof.
  intros (g & us & Hla & Hm & Hh) Hp. unfold deallocate_rcu. destruct (Z.eqb_spec p 0) as [|_]; [done|].
  pose proof (ga_range _ _ (la_head _ _ _ _ _ Hla)) as Hr.
  assert (pushable g) as Hpush.
  { destruct (Z.eqb_spec (head_ g) (tail_ g)) as [He|He]; [right; specialize (Hh He); lia|].
    left. by rewrite (live_nil g 0 (la_head _ _ _ _ _ Hla)). }
  destruct (record_rcu_spec 0 t g us xs p tag globalepoch Hla Hpush Hp) as (t' & g' & us' & l & H1 & H2 & H3 & H4 & H5 & H6 & H7).
  exists t'. split; [done|]. split; [|done]. exists g', us'. split; [done|]. split.
  - rewrite H4. destruct (live g) as [|y ys] eqn:E; [by apply H5|exact Hm].
  - intros He. apply (live_nil g' 0 (la_head _ _ _ _ _ H2)) in He.
    assert (live g = []) as Hl by (rewrite H4 in He; by apply app_eq_nil in He as [? _]).
    apply (live_nil g 0 (la_head _ _ _ _ _ Hla)) in Hl. destruct (Hh Hl) as [_ ->]. by destruct H7.
Qed.

(** Retiring a block appends it to the thread's queue with the current
    epoch, whatever the state of the groups; it never fails. *)
Theorem record_rcu_queue t xs p tag globalepoch :
  thread_queue t xs -> p <> 0 ->
  exists t', deallocate_rcu t p tag globalepoch = Some t' /\ thread_queue t' (xs ++ [(p, tag, globalepoch)]) /\
    same_rest t t'.
Proof. apply deallocate_rcu_spec. Qed.

Lemma record_rcu_queue_witness :
  exists t1 t2, deallocate_rcu (make 0 0) 4096 256 7 = Some t1 /\ deallocate_rcu t1 8192 256 9 = Some t2 /\
    thread_queue t2 [(4096, 256, 7); (8192, 256, 9)].
Proof.
  destruct (record_rcu_queue (make 0 0) [] 4096 256 7) as (t1 & H1 & Q1 & _); [apply make_queue|done|].
  destruct (record_rcu_queue t1 _ 8192 256 9 Q1) as (t2 & H2 & Q2 & _); [done|].
  exists t1, t2. by split_and!.
Defined.

Lemma clean_groups_spec retires bound ge t xs :
  (forall cb, Forall (fun pt => fst pt <> 0) (retires cb)) -> thread_queue t xs ->
  exists F t' xs' fs, let count := rcu_free_count - zlength fs in
    (forall fuel, (F <= fuel)%nat -> clean_groups retires fuel t bound ge = Some (t', count, map item_event fs)) /\
    thread_queue t' xs' /\ drains retires bound ge xs fs xs' /\ 0 <= count /\
    (count = 0 \/ xs' = [] \/ blocked bound t') /\ same_rest t t'.
Proof.
  intros Hret Hq. pose proof Hq as (g & us & Hla & Hm & Hh). unfold clean_groups.
  rewrite (limbo_head_eq _ _ _ _ _ Hla). cbn [mbind option_bind]. unfold LimboGroup.first_epoch.
  destruct (Z.eqb_spec (head_ g) (tail_ g)) as [He|Hne].
  - destruct us as [|g2 us].
    + exists 0%nat, t, xs, []. split_and!; try done; [apply drains_nil|]. right; left.
      rewrite (la_items _ _ _ _ _ Hla). by rewrite live_empty.
    + by destruct (Hh He).
  - destruct (live_cons g 0 (la_head _ _ _ _ _ Hla) Hne) as (x & Hx & Hlive). rewrite Hx. cbn.
    destruct (Z.ltb_spec (swrap 64 (uwrap 64 (bound - u_ x))) 0) as [Hlt|Hge].
    + exists 0%nat, t, xs, []. split_and!; try done; [apply drains_nil|]. right; right. exists g, (u_ x). split_and!.
      * by eapply limbo_head_eq.
      * unfold LimboGroup.first_epoch. rewrite (proj2 (Z.eqb_neq _ _) Hne). by rewrite Hx.
      * unfold past. lia.
    + destruct (quiesce_loop_spec retires Hret bound ge (Z.to_nat rcu_free_count) (length us) t g us xs rcu_free_count [] [])
        as (F & t' & xs' & fs & H); try done. by exists F, t', xs', fs.
Qed.

Lemma hard_rcu_quiesce_spec retires t xs active_epoch globalepoch :
  (forall cb, Forall (fun pt => fst pt <> 0) (retires cb)) -> thread_queue t xs ->
  let bound := uwrap 64 (active_epoch - 1) in
  exists F t' xs' fs,
    (forall fuel, (F <= fuel)%nat ->
      hard_rcu_quiesce retires fuel t active_epoch globalepoch = Some (t', map item_event fs)) /\
    thread_queue t' xs' /\ drains retires bound globalepoch xs fs xs' /\
    zlength fs <= rcu_free_count /\ (zlength fs < rcu_free_count -> xs' = [] \/ blocked bound t') /\
    gc_epoch_ t' = gc_epoch_ t /\ ts_ t' = ts_ t /\
    perform_gc_epoch_ t' = if zlength fs =? rcu_free_count then bound else uwrap 64 (bound + 1).
Proof.
  intros Hret Hq bound.
  destruct (clean_groups_spec retires bound globalepoch t xs Hret Hq) as (F & t' & xs' & fs & H1 & H2 & H3 & H4 & H5 & H6).
  eexists F, (set_perform t' _), xs', fs. split.
  { intros fuel Hf. unfold hard_rcu_quiesce. fold bound. rewrite (H1 fuel Hf). done. }
  split_and!; [|done|lia| |by destruct H6|by destruct H6|].
  - destruct H2 as (g' & us' & [] & Hq'). exists g', us'. by split.
  - intros Hlt. destruct H5 as [?|[?|(g' & e & Hb)]]; [lia|by left|right]. by exists g', e.
  - cbn. destruct (Z.eqb_spec (rcu_free_count - zlength fs) 0), (Z.eqb_spec (zlength fs) rcu_free_count); try done; lia.
Qed.

(** C13: A quiescent point terminates.  It frees, in the order they were
    retired and each once, at most 128 of the queue's first pointers, all of
    epochs before the active one, and runs the callbacks among them; what these
    retire goes to the end of the queue.  If it freed fewer than 128, nothing is
    left or the next epoch is not over. *)
Theorem hard_rcu_quiesce_drains retires t xs active_epoch globalepoch :
  (forall cb, Forall (fun pt => fst pt <> 0) (retires cb)) -> thread_queue t xs ->
  let bound := uwrap 64 (active_epoch - 1) in
  exists F t' xs' fs,
    (forall fuel, (F <= fuel)%nat ->
      hard_rcu_quiesce retires fuel t active_epoch globalepoch = Some (t', map item_event fs)) /\
    thread_queue t' xs' /\ drains retires bound globalepoch xs fs xs' /\
    zlength fs <= rcu_free_count /\ (zlength fs < rcu_free_count -> xs' = [] \/ blocked bound t') /\
    gc_epoch_ t' = gc_epoch_ t /\ ts_ t' = ts_ t /\
    perform_gc_epoch_ t' = if zlength fs =? rcu_free_count then bound else uwrap 64 (bound + 1).
Proof. apply hard_rcu_quiesce_spec. Qed.

(** A callback in the queue retires another block when it runs. *)
Lemma hard_rcu_quiesce_drains_witness :
  let retires := fun cb => if cb =? 64 then [(4096, 256)] else [] in
  exists t1 t2 F t3 xs' fs, rcu_register (make 0 0) 64 7 = Some t1 /\ deallocate_rcu t1 8192 256 9 = Some t2 /\
    (forall fuel, (F <= fuel)%nat -> hard_rcu_quiesce retires fuel t2 8 11 = Some (t3, map item_event fs)) /\
    drains retires 7 11 [(64, memtag_callback, 7); (8192, 256, 9)] fs xs'.
Proof.
  intros retires.
  destruct (record_rcu_queue (make 0 0) [] 64 memtag_callback 7) as (t1 & H1 & Q1 & _); [apply make_queue|done|].
  destruct (record_rcu_queue t1 _ 8192 256 9 Q1) as (t2 & H2 & Q2 & _); [done|].
  assert (forall cb, Forall (fun pt => fst pt <> 0) (retires cb)) as Hret.
  { intros cb. unfold retires. destruct (cb =? 64); repeat constructor. done. }
  destruct (hard_rcu_quiesce_drains retires t2 [(64, memtag_callback, 7); (8192, 256, 9)] 8 11 Hret Q2)
    as (F & t3 & xs' & fs & H3 & _ & H4 & _).
  exists t1, t2, F, t3, xs', fs. split_and!; [exact H1|exact H2|exact H3|exact H4].
Defined.

(** * Pools *)
Lemma initialize_loop_blocks p sz unit fuel : forall k,
  0 < unit -> 0 <= k -> sz / unit - k <= Z.of_nat fuel -> k <= sz / unit ->
  initialize_loop fuel p sz unit (k * unit) = map (fun i => p + i * unit) (seqZ k (sz / unit - k)).
Proof.
  induction fuel as [|fuel IH]; intros k Hu Hk Hf Hle; cbn [initialize_loop].
  - replace (sz / unit - k) with 0 by lia. done.
  - pose proof (Z.mul_div_le sz unit Hu). pose proof (Z.mul_succ_div_gt sz unit Hu).
    destruct (Z.leb_spec (k * unit + unit) sz).
    + replace (k * unit + unit) with ((k + 1) * unit) by lia. assert (k + 1 <= sz / unit) by nia.
      rewrite IH by lia. rewrite (seqZ_cons k) by lia. cbn. do 2 f_equal. f_equal; lia.
    + assert (sz / unit <= k) by nia. replace (sz / unit - k) with 0 by lia. done.
Qed.

(** A refilled pool holds exactly the blocks of its size that fit into the
    chunk, one after the other from its start: they are disjoint and inside it. *)
Theorem refill_pool_blocks t nl chunk pool_size :
  1 <= nl <= pool_max_nlines -> nl * cache_line_size <= pool_size -> zlength (pool_ t) = pool_max_nlines -> pool t nl = [] ->
  exists t', refill_pool t nl chunk pool_size = Some t' /\
    pool t' nl = map (fun i => chunk + i * (nl * cache_line_size)) (seqZ 0 (pool_size / (nl * cache_line_size))) /\
    (forall nl', nl' <> nl -> 1 <= nl' -> pool t' nl' = pool t nl') /\
    Forall (fun b => chunk <= b /\ b + nl * cache_line_size <= chunk + pool_size) (pool t' nl) /\ NoDup (pool t' nl).
Proof.
  intros Hnl Hsz Hlen He. unfold refill_pool. rewrite He. eexists. split; [done|].
  set (unit := nl * cache_line_size) in *. assert (0 < unit) as Hu by (unfold unit, cache_line_size; lia).
  assert (1 <= pool_size / unit) as Hn by (apply Z.div_le_lower_bound; lia).
  assert (initialize_pool chunk pool_size unit = map (fun i => chunk + i * unit) (seqZ 0 (pool_size / unit))) as Hi.
  { unfold initialize_pool. rewrite (seqZ_cons 0) by lia. cbn [map]. rewrite Z.mul_0_l, Z.add_0_r. f_equal.
    pose proof (initialize_loop_blocks chunk pool_size unit (Z.to_nat (pool_size / unit)) 1 Hu ltac:(lia) ltac:(lia) ltac:(lia)) as Hl.
    rewrite Z.mul_1_l in Hl. rewrite Hl. do 2 f_equal; lia. }
  assert (forall nl' l, 1 <= nl' -> pool (put_pool t nl l) nl' = if nl' =? nl then l else pool t nl') as Hp.
  { intros nl' l Hnl'. unfold pool, put_pool. cbn. rewrite zlookup_insert by (unfold pool_max_nlines in *; lia).
    destruct (Z.eqb_spec (nl' - 1) (nl - 1)), (Z.eqb_spec nl' nl); try lia; done. }
  rewrite !Hp, Z.eqb_refl, Hi by lia. split_and!; [done| | |].
  - intros nl' Hne Hnl'. rewrite Hp by done. by destruct (Z.eqb_spec nl' nl).
  - apply Forall_map, Forall_seqZ. intros i Hr. cbn. pose proof (Z.mul_div_le pool_size unit Hu). nia.
  - apply NoDup_fmap_2; [|apply NoDup_seqZ]. intros i j Hij. nia.
Qed.

Lemma refill_pool_blocks_witness :
  exists t', refill_pool (make 0 0) 2 4096 1000 = Some t' /\
    pool t' 2 = map (fun i => 4096 + i * 128) (seqZ 0 7).
Proof.
  destruct (refill_pool_blocks (make 0 0) 2 4096 1000) as (t' & H1 & H2 & _); [by vm_compute..|].
  exists t'. split; [exact H1|exact H2].
Defined.
