(* ===== verification/Epochs.v ===== *)
(** Grace periods: the threads of [Threadinfo], each a step at a time, with the
    clock that [epochinc] of [src/mtd.cc] advances.  No block is freed while a
    thread may still have a pointer to it. *)
From S2P Require Import Prelude CircularInt Threadinfo Limbo.
Import Threadinfo.

(** * The system *)
(** Where a thread is between its accesses to shared words.  [stop] tells
    [rcu_stop] from [rcu_quiesce]. *)
Inductive phase : Type :=
  | Resting
  | Starting (quiesce : bool) (ge : Z)        (* [rcu_start] has loaded [globalepoch] *)
  | Checking (stop : bool)                    (* about to compare [active_epoch] *)
  | Bounding (stop : bool)                    (* about to load [active_epoch] again *)
  | Cleaning (stop : bool) (active : Z)
  | Leaving                                   (* about to store 0 in [gc_epoch_] *)
  | Retiring (p tag ge : Z).                  (* [record_rcu] has loaded [globalepoch] *)
Record thread : Type := mkThread { ti : threadinfo; ph : phase }.

(** [scan_] is the running minimum of [min_active_epoch] and the threads it has
    still to visit.  [held_] is what no variable of the program says: the
    threads that may have a pointer to a retired block, and the block's epoch. *)
Record system : Type := mkSystem {
  globalepoch_ : Z; active_epoch_ : Z; threads_ : gmap nat thread; allthreads_ : list nat;
  scan_ : option (Z * list nat); held_ : list (nat * Z * Z) }.

Definition set_thread (s : system) (t : nat) (x : thread) : system :=
  mkSystem (globalepoch_ s) (active_epoch_ s) (<[t := x]> (threads_ s)) (allthreads_ s) (scan_ s) (held_ s).
Definition set_held (s : system) (h : list (nat * Z * Z)) : system :=
  mkSystem (globalepoch_ s) (active_epoch_ s) (threads_ s) (allthreads_ s) (scan_ s) h.

(** The threads that are inside an operation. *)
Definition active_threads (s : system) : list nat :=
  map fst (filter (fun x => gc_epoch_ (ti (snd x)) <> 0) (map_to_list (threads_ s))).
(** Every thread inside an operation may have a pointer to what is retired now. *)
Definition hold (s : system) (ps : list Z) : system :=
  set_held s (held_ s ++ flat_map (fun p => map (fun t => (t, p, globalepoch_ s)) (active_threads s)) ps).
(** A thread at a quiescent point has none. *)
Definition release (s : system) (t : nat) : system :=
  set_held s (filter (fun h => fst (fst h) <> t) (held_ s)).

Section epochs.
Context (retires : Z -> list (Z * Z)).

Definition start_system : system := mkSystem 1 1 ∅ [] None [].
Definition after_check (stop : bool) : phase := if stop then Leaving else Resting.

(** The first [n] items of a queue that are freed from its front, while what
    callbacks retire goes to its end. *)
Fixpoint front (ge : Z) (n : nat) (q : list item) : list item :=
  match n, q with
  | S n, (p, tag, e) :: q => (p, tag, e) :: front ge n (q ++ follow retires p tag ge)
  | _, _ => []
  end.

(** A step, and what it frees. *)
Inductive step (s : system) : list item -> system -> Prop :=
  (* [epochinc]; the counter does not wrap *)
  | step_tick : scan_ s = None -> globalepoch_ s + 2 < 2 ^ 63 ->
      step s [] (mkSystem (globalepoch_ s + 2) (active_epoch_ s) (threads_ s) (allthreads_ s)
        (Some (globalepoch_ s + 2, allthreads_ s)) (held_ s))
  | step_scan ae t ts x : scan_ s = Some (ae, t :: ts) -> threads_ s !! t = Some x ->
      step s [] (mkSystem (globalepoch_ s) (active_epoch_ s) (threads_ s) (allthreads_ s)
        (Some (min_epoch_step ae (gc_epoch_ (ti x)), ts)) (held_ s))
  | step_scanned ae : scan_ s = Some (ae, []) ->
      step s [] (mkSystem (globalepoch_ s) ae (threads_ s) (allthreads_ s) None (held_ s))
  (* [threadinfo::make] *)
  | step_make t purpose index : threads_ s !! t = None ->
      step s [] (mkSystem (globalepoch_ s) (active_epoch_ s) (<[t := mkThread (make purpose index) Resting]> (threads_ s))
        (t :: allthreads_ s) (scan_ s) (held_ s))
  (* [rcu_start], and the first half of [rcu_quiesce] *)
  | step_load t x q : threads_ s !! t = Some x -> ph x = Resting ->
      step s [] (set_thread s t (mkThread (ti x) (Starting q (globalepoch_ s))))
  | step_store t x q ge : threads_ s !! t = Some x -> ph x = Starting q ge ->
      step s [] (release (set_thread s t (mkThread (rcu_start (ti x) ge) (if q then Checking false else Resting))) t)
  (* [rcu_stop], and the second half of [rcu_quiesce] *)
  | step_stop t x : threads_ s !! t = Some x -> ph x = Resting ->
      step s [] (set_thread s t (mkThread (ti x) (Checking true)))
  | step_check t x stop : threads_ s !! t = Some x -> ph x = Checking stop ->
      step s [] (set_thread s t (mkThread (ti x)
        (if perform_gc_epoch_ (ti x) =? active_epoch_ s then after_check stop else Bounding stop)))
  | step_bound t x stop : threads_ s !! t = Some x -> ph x = Bounding stop ->
      step s [] (set_thread s t (mkThread (ti x) (Cleaning stop (active_epoch_ s))))
  (* [hard_rcu_quiesce] with its events, those of the items at the front of the thread's queue *)
  | step_clean t x stop a fuel xs fs evs ti' : threads_ s !! t = Some x -> ph x = Cleaning stop a ->
      hard_rcu_quiesce retires fuel (ti x) a (globalepoch_ s) = Some (ti', evs) ->
      thread_queue (ti x) xs -> fs = front (globalepoch_ s) (length evs) xs -> evs = map item_event fs ->
      step s fs (set_thread (hold s (flat_map (fun f => map (fun y => fst (fst y))
        (follow retires (fst (fst f)) (snd (fst f)) (globalepoch_ s))) fs)) t (mkThread ti' (after_check stop)))
  | step_leave t x : threads_ s !! t = Some x -> ph x = Leaving ->
      step s [] (release (set_thread s t (mkThread (set_gc (ti x) 0) Resting)) t)
  (* [deallocate_rcu] of a block that no operation can reach any more *)
  | step_retire t x p tag : threads_ s !! t = Some x -> ph x = Resting -> p <> 0 ->
      step s [] (set_thread (hold s [p]) t (mkThread (ti x) (Retiring p tag (globalepoch_ s))))
  | step_push t x p tag ge ti' : threads_ s !! t = Some x -> ph x = Retiring p tag ge ->
      deallocate_rcu (ti x) p tag ge = Some ti' -> step s [] (set_thread s t (mkThread ti' Resting)).

Inductive reachable : system -> Prop :=
  | reachable_start : reachable start_system
  | reachable_step s fs s' : reachable s -> step s fs s' -> reachable s'.
End epochs.

(** * The invariant *)
Definition counter (G x : Z) : Prop := 0 < x <= G.

Record thread_ok (G : Z) (x : thread) : Prop := {
  to_gc : 0 <= gc_epoch_ (ti x) <= G;
  to_queue : exists xs, thread_queue (ti x) xs /\ Forall (fun y => counter G (snd y)) xs;
  to_phase : match ph x with
    | Starting _ ge => counter G ge
    | Cleaning _ a => counter G a
    | Retiring p _ ge => p <> 0 /\ counter G ge
    | _ => True
    end }.
(** A thread that may have a pointer of epoch [e] keeps the clock from passing
    [e]: by its own epoch, wherever the scan is. *)
Record held_ok (s : system) (t : nat) (e : Z) : Prop := {
  ho_epoch : counter (globalepoch_ s) e;
  ho_active : active_epoch_ s <= e;
  ho_gc : exists x, threads_ s !! t = Some x /\ 0 < gc_epoch_ (ti x) <= e;
  ho_scan : forall ae ts, scan_ s = Some (ae, ts) -> ae <= e \/ t ∈ ts;
  ho_clean : forall t' x stop a, threads_ s !! t' = Some x -> ph x = Cleaning stop a -> a <= e }.
Record inv (s : system) : Prop := {
  in_global : 0 < globalepoch_ s < 2 ^ 63;
  in_active : counter (globalepoch_ s) (active_epoch_ s);
  in_scan : forall ae ts, scan_ s = Some (ae, ts) -> counter (globalepoch_ s) ae;
  in_threads : forall t x, threads_ s !! t = Some x -> thread_ok (globalepoch_ s) x /\ t ∈ allthreads_ s;
  in_held : forall t p e, (t, p, e) ∈ held_ s -> held_ok s t e }.

Lemma counter_mono G G' x : G <= G' -> counter G x -> counter G' x.
Proof. unfold counter. lia. Qed.
Lemma thread_ok_mono G G' x : G <= G' -> thread_ok G x -> thread_ok G' x.
Proof.
  intros HG [Hg (xs & Hq & Hxs) Hp]. split; [lia| |].
  - exists xs. split; [done|]. eapply Forall_impl; [done|]. intros y. by apply counter_mono.
  - destruct (ph x); unfold counter in *; try done; [lia|lia|]. split; [apply Hp|lia].
Qed.

Lemma min_epoch_step_min G ae te :
  0 < G < 2 ^ 63 -> counter G ae -> 0 <= te <= G ->
  min_epoch_step ae te = if te =? 0 then ae else Z.min ae te.
Proof.
  intros HG Ha Ht. unfold min_epoch_step, counter in *. destruct (Z.eqb_spec te 0); cbn [negb andb]; [done|].
  rewrite swrap_uwrap, swrap_id by (unfold in_s; lia).
  destruct (Z.ltb_spec (te - ae) 0); lia.
Qed.
Lemma past_counter G a e : 0 < G < 2 ^ 63 -> counter G a -> counter G e -> past (uwrap 64 (a - 1)) e -> e < a.
Proof.
  intros HG Ha He. unfold past, counter in *. rewrite (uwrap_id 64 (a - 1)) by (unfold in_u; lia).
  rewrite swrap_uwrap, swrap_id by (unfold in_s; lia). lia.
Qed.

Lemma inv_set_thread s t x x' :
  inv s -> threads_ s !! t = Some x -> thread_ok (globalepoch_ s) x' ->
  (gc_epoch_ (ti x') = gc_epoch_ (ti x) \/ forall p e, (t, p, e) ∉ held_ s) ->
  (forall stop a t' p e, ph x' = Cleaning stop a -> (t', p, e) ∈ held_ s -> a <= e) ->
  inv (set_thread s t x').
Proof.
  intros [Hg Ha Hs Ht Hh] Hx Hx' Hgc Hcl. split; cbn; try done.
  - intros t' y. destruct (decide (t = t')) as [<-|Hne].
    + rewrite lookup_insert_eq. intros [= <-]. split; [done|by apply (Ht t x)].
    + rewrite lookup_insert_ne by done. apply Ht.
  - intros t' p e Hin. destruct (Hh t' p e Hin) as [H1 H2 (y & Hy & Hye) H4 H5]. split; try done.
    + cbn. destruct (decide (t = t')) as [<-|Hne].
      * rewrite lookup_insert_eq. exists x'. split; [done|]. destruct Hgc as [->|Hno]; [|by destruct (Hno p e)].
        by replace x with y by congruence.
      * rewrite lookup_insert_ne by done. by exists y.
    + cbn. intros t'' z stop a. destruct (decide (t = t'')) as [<-|Hne].
      * rewrite lookup_insert_eq. intros [= <-] Hz. by apply (Hcl stop a t' p).
      * rewrite lookup_insert_ne by done. apply H5.
Qed.

Lemma inv_set_held s h : inv s -> (forall t p e, (t, p, e) ∈ h -> held_ok s t e) -> inv (set_held s h).
Proof.
  intros [Hg Ha Hs Ht Hh] Hok. split; cbn; try done. intros t p e Hin. by destruct (Hok t p e Hin).
Qed.
Lemma inv_release s t : inv s -> inv (release s t).
Proof. intros H. apply inv_set_held; [done|]. intros t' p e [_ Hin]%list_elem_of_filter. by apply (in_held _ H t' p). Qed.
Lemma release_none s t p e : (t, p, e) ∉ held_ (release s t).
Proof. cbn. intros [Hne _]%list_elem_of_filter. by destruct Hne. Qed.

Lemma inv_hold s ps : inv s -> inv (hold s ps).
Proof.
  intros H. apply inv_set_held; [done|]. intros t p e [Hin|Hin]%elem_of_app; [by apply (in_held _ H t p)|].
  apply list_elem_of_In, in_flat_map in Hin as (p' & _ & Hin). apply in_map_iff in Hin as (t' & [= <- <- <-] & Ht').
  apply list_elem_of_In in Ht'. unfold active_threads in Ht'. apply list_elem_of_fmap in Ht' as ([t'' x] & -> & Hx).
  apply list_elem_of_filter in Hx as [Hgc Hx]. cbn in Hgc. apply elem_of_map_to_list in Hx.
  destruct H as [Hg Ha Hs Ht Hh]. destruct (Ht _ _ Hx) as [[Hr _ _] _]. unfold counter in *.
  split; cbn; try done; [unfold counter; lia|lia|exists x; split; [done|lia]| |].
  - intros ae ts Hsc. left. apply (Hs ae ts Hsc).
  - intros t1 x1 stop a Hx1 Hph. destruct (Ht _ _ Hx1) as [[_ _ Hp1] _]. rewrite Hph in Hp1. apply Hp1.
Qed.

Section safety.
Context (retires : Z -> list (Z * Z)).
Context (Hretires : forall cb, Forall (fun pt => fst pt <> 0) (retires cb)).

(** What the step of a cleaning thread says of the queues is what
    [hard_rcu_quiesce] does. *)
Lemma quiesce_loop_mono bound ge : forall fuel t count es evs r, quiesce_loop retires fuel t bound count ge es evs = Some r ->
  forall fuel', (fuel <= fuel')%nat -> quiesce_loop retires fuel' t bound count ge es evs = Some r.
Proof using Type.
  induction fuel as [|fuel IH]; intros t count es evs r H [|fuel'] Hf; try done; [lia|]. cbn [quiesce_loop] in *.
  destruct (count =? 0); [done|]. destruct (clean_until _ _ _ _ _ _) as [[[t1 count1] evs1]|]; [|done]. cbn in *.
  destruct (used_ t1) as [|g us]; [done|]. destruct (negb (head_ g =? tail_ g)); [done|].
  destruct us, (es ++ [g]); try done; eapply IH; try done; lia.
Qed.
Lemma hard_rcu_quiesce_mono t a ge fuel fuel' r : (fuel <= fuel')%nat ->
  hard_rcu_quiesce retires fuel t a ge = Some r -> hard_rcu_quiesce retires fuel' t a ge = Some r.
Proof using Type.
  intros Hf. unfold hard_rcu_quiesce, clean_groups. destruct (limbo_head t) as [g|]; [|done]. cbn.
  destruct (LimboGroup.first_epoch g) as [e|]; [|done]. destruct (_ <? 0); [done|].
  destruct (quiesce_loop retires fuel _ _ _ _ _ _) as [x|] eqn:E; [|done].
  by rewrite (quiesce_loop_mono _ _ _ _ _ _ _ _ E fuel' Hf).
Qed.
Lemma drains_front bound ge q fs q' : drains retires bound ge q fs q' -> front retires ge (length fs) q = fs.
Proof using Type. intros H. induction H as [|p tag e q fs q' _ _ IH]; [done|]. cbn. by f_equal. Qed.
Lemma clean_spec t xs a ge fuel t' evs : hard_rcu_quiesce retires fuel t a ge = Some (t', evs) -> thread_queue t xs ->
  exists xs', thread_queue t' xs' /\ gc_epoch_ t' = gc_epoch_ t /\
    drains retires (uwrap 64 (a - 1)) ge xs (front retires ge (length evs) xs) xs'.
Proof using Hretires.
  intros Hrun Hq. destruct (hard_rcu_quiesce_spec retires t xs a ge Hretires Hq) as
    (F & t2 & xs' & fs & H1 & H2 & H3 & _ & _ & H4 & _).
  apply (hard_rcu_quiesce_mono _ _ _ fuel (max fuel F)) in Hrun; [|lia].
  rewrite H1 in Hrun by lia. injection Hrun as -> <-. exists xs'. split_and!; try done.
  rewrite length_map. by rewrite (drains_front _ _ _ _ _ H3).
Qed.

Lemma drains_counter bound G xs fs xs' :
  0 < G -> drains retires bound G xs fs xs' -> Forall (fun y => counter G (snd y)) xs ->
  Forall (fun y => counter G (snd y)) fs /\ Forall (fun y => counter G (snd y)) xs'.
Proof using Type.
  intros HG H. induction H as [q|p tag e q fs q' _ _ IH]; [done|]. intros Hq. inversion Hq; subst.
  destruct IH as [HA HB]; [|by split; [constructor|]]. apply Forall_app. split; [done|].
  unfold follow, retired. destruct (event_of p tag); try constructor.
  apply Forall_map, Forall_true. intros y. unfold counter. cbn. lia.
Qed.

Lemma inv_start : inv start_system.
Proof using Type. split; unfold counter; cbn; try done; [intros t p e H; by apply elem_of_nil in H]. Qed.

(** A thread's step that changes nothing else. *)
Lemma inv_phase s t x x' :
  inv s -> threads_ s !! t = Some x -> ti x' = ti x ->
  match ph x' with
  | Starting _ ge => counter (globalepoch_ s) ge
  | Cleaning _ a => a = active_epoch_ s
  | Retiring p _ ge => p <> 0 /\ counter (globalepoch_ s) ge
  | _ => True
  end -> inv (set_thread s t x').
Proof using Type.
  intros H Hx Hti Hph. destruct (in_threads _ H _ _ Hx) as [[H1 H2 _] _].
  apply (inv_set_thread s t x); try done.
  - split; [by rewrite Hti|by rewrite Hti|]. destruct (ph x'); try done. subst. apply H.
  - left. by rewrite Hti.
  - intros stop a t' p e Hp Hin. rewrite Hp in Hph. subst. by apply (ho_active _ _ _ (in_held _ H t' p e Hin)).
Qed.

Lemma inv_step s fs s' : inv s -> step retires s fs s' -> inv s'.
Proof using Hretires.
  intros H Hstep. pose proof H as [Hg Ha Hs Ht Hh].
  destruct Hstep as [Hsc Hw|ae t ts x Hsc Hx|ae Hsc|t purpose index Hno|t x q Hx Hph|t x q ge Hx Hph|t x Hx Hph|t x stop Hx Hph
    |t x stop Hx Hph|t x stop a fuel xs fs evs ti' Hx Hph Hrun Hq Hfs Hev|t x Hx Hph|t x p tag Hx Hph Hp|t x p tag ge ti' Hx Hph Hrun].
  - (* tick *) split; cbn; unfold counter in *; try lia.
    + intros ae ts [= <- <-]. lia.
    + intros t x Hx. destruct (Ht _ _ Hx). split; [eapply thread_ok_mono; [|done]; lia|done].
    + intros t p e Hin. destruct (Hh t p e Hin) as [H1 H2 (x & Hx & Hxe) H4 H5].
      split; cbn; unfold counter in *; try done; [lia|by exists x|].
      intros ae ts [= <- <-]. right. by apply (Ht t x).
  - (* scan *) destruct (Ht _ _ Hx) as [[Hr _ _] _]. specialize (Hs _ _ Hsc).
    assert (counter (globalepoch_ s) (min_epoch_step ae (gc_epoch_ (ti x)))) as Hmin.
    { rewrite (min_epoch_step_min (globalepoch_ s)) by done. unfold counter in *. destruct (Z.eqb_spec (gc_epoch_ (ti x)) 0); lia. }
    split; cbn; try done; [by intros ae' ts' [= <- <-]|].
    intros t' p e Hin. destruct (Hh t' p e Hin) as [H1 H2 (y & Hy & Hye) H4 H5]. split; cbn; try done; [by exists y|].
    intros ae' ts' [= <- <-]. rewrite (min_epoch_step_min (globalepoch_ s)) by done.
    destruct (H4 _ _ Hsc) as [Hle|Hin']; [left; destruct (Z.eqb_spec (gc_epoch_ (ti x)) 0); lia|].
    apply elem_of_cons in Hin' as [->|Hin']; [|by right]. left. replace y with x in * by congruence.
    destruct (Z.eqb_spec (gc_epoch_ (ti x)) 0); lia.
  - (* scanned *) split; cbn; try done; [by apply (Hs _ _ Hsc)|].
    intros t p e Hin. destruct (Hh t p e Hin) as [H1 H2 H3 H4 H5]. split; cbn; try done.
    destruct (H4 _ _ Hsc) as [?|Hin']; [done|by apply elem_of_nil in Hin'].
  - (* make *) split; cbn; try done.
    + intros t' x. destruct (decide (t = t')) as [<-|Hne].
      * rewrite lookup_insert_eq. intros [= <-]. split; [|by apply elem_of_cons; left]. split; cbn; [lia| |done].
        exists []. split; [apply make_queue|constructor].
      * rewrite lookup_insert_ne by done. intros Hx. destruct (Ht _ _ Hx). split; [done|by apply elem_of_cons; right].
    + intros t' p e Hin. destruct (Hh t' p e Hin) as [H1 H2 (y & Hy & Hye) H4 H5]. split; cbn; try done.
      * exists y. rewrite lookup_insert_ne by (intros ->; congruence). done.
      * intros t'' z stop a. destruct (decide (t = t'')) as [<-|Hne]; [rewrite lookup_insert_eq; by intros [= <-]|].
        rewrite lookup_insert_ne by done. apply H5.
  - (* load *) apply (inv_phase s t x); try done. cbn. unfold counter. lia.
  - (* store *) destruct (Ht _ _ Hx) as [[H1 H2 H3] _]. rewrite Hph in H3.
    apply (inv_set_thread (release s t) t x); [by apply inv_release|done| |right; intros p e; apply release_none|by destruct q].
    unfold counter in *. split; cbn.
    + unfold rcu_start. destruct (Z.eqb_spec (gc_epoch_ (ti x)) ge); cbn; lia.
    + destruct H2 as (xs & Hxs & Hc). exists xs. split; [|done]. unfold rcu_start. destruct (_ =? _); [done|].
      destruct Hxs as (g & us & [] & Hxs). exists g, us. by split.
    + by destruct q.
  - (* stop *) by apply (inv_phase s t x).
  - (* check *) apply (inv_phase s t x); try done. cbn. destruct (_ =? _); [by destruct stop|done].
  - (* bound *) by apply (inv_phase s t x).
  - (* clean *) destruct (clean_spec _ _ _ _ _ _ _ Hrun Hq) as (xs' & Hq' & Hgc & Hd). rewrite <- Hfs in Hd.
    destruct (Ht _ _ Hx) as [[H1 (xs0 & Hq0 & Hc0) H3] _].
    apply (inv_set_thread (hold s _) t x); [by apply inv_hold|done| |by left|by destruct stop].
    split; cbn; [by rewrite Hgc| |by destruct stop]. exists xs'. split; [done|].
    eapply drains_counter; [|exact Hd|]; [lia|].
    assert (xs = xs0) as -> by by eapply thread_queue_det. done.
  - (* leave *) destruct (Ht _ _ Hx) as [[H1 H2 _] _].
    apply (inv_set_thread (release s t) t x); [by apply inv_release|done| |right; intros p e; apply release_none|done].
    split; cbn; [lia| |done]. destruct H2 as (xs & (g & us & [] & Hxs) & Hc). exists xs. split; [|done]. exists g, us. by split.
  - (* retire *) apply (inv_phase (hold s [p]) t x); [by apply inv_hold|done|done|]. cbn. unfold counter. split; [done|lia].
  - (* push *) destruct (Ht _ _ Hx) as [[H1 (xs & Hq & Hc) H3] _]. rewrite Hph in H3. destruct H3 as [Hp Hge].
    destruct (deallocate_rcu_spec (ti x) xs p tag ge Hq Hp) as (ti2 & Hrun' & Hq2 & Hsr).
    rewrite Hrun in Hrun'. injection Hrun' as <-.
    apply (inv_set_thread s t x); try done; [|left; by apply Hsr].
    split; cbn; [by rewrite (sr_gc _ _ Hsr)| |done]. exists (xs ++ [(p, tag, ge)]). split; [done|].
    apply Forall_app. split; [done|]. by constructor; [|constructor].
Qed.

Lemma reachable_inv s : reachable retires s -> inv s.
Proof using Hretires. induction 1; [apply inv_start|by eapply inv_step]. Qed.

(** A cleaning thread is never stuck. *)
Lemma clean_enabled s t x stop a :
  inv s -> threads_ s !! t = Some x -> ph x = Cleaning stop a -> exists fs s', step retires s fs s'.
Proof using Hretires.
  intros H Hx Hph. destruct (in_threads _ H _ _ Hx) as [[_ (xs & Hq & _) _] _].
  destruct (hard_rcu_quiesce_spec retires (ti x) xs a (globalepoch_ s) Hretires Hq) as
    (F & ti' & xs' & fs & H1 & H2 & H3 & _ & _ & H4 & _).
  eexists fs, _. eapply (step_clean _ _ t x stop a F xs fs (map item_event fs)); try done; [by apply H1|].
  rewrite length_map. by rewrite (drains_front _ _ _ _ _ H3).
Qed.

(** The steps one after the other. *)
Inductive steps : system -> list item -> system -> Prop :=
  | steps_nil s : steps s [] s
  | steps_cons s fs s1 gs s2 : step retires s fs s1 -> steps s1 gs s2 -> steps s (fs ++ gs) s2.
Lemma reachable_steps s gs s' : reachable retires s -> steps s gs s' -> reachable retires s'.
Proof using Type. intros Hr H. induction H; [done|]. apply IHsteps. by eapply reachable_step. Qed.

(** C9: In every interleaving of the threads' accesses with the clock's, a step
    that frees a block of epoch [e] finds no thread that may still have a
    pointer to it: every thread that was inside an operation when the block was
    retired has been at a quiescent point since.  What is freed is what
    [hard_rcu_quiesce] frees; its callbacks retire no null pointers. *)
Theorem epoch_safety s fs s' :
  reachable retires s -> step retires s fs s' ->
  forall p tag e t, (p, tag, e) ∈ fs -> (t, p, e) ∉ held_ s.
Proof using Hretires.
  intros Hr Hstep p tag e t Hin Hheld. pose proof (reachable_inv s Hr) as H.
  destruct Hstep as [| | | | | | | |
    |t' x stop a fuel xs fs evs ti' Hx Hph Hrun Hq Hfs Hev| | |]; try (by apply elem_of_nil in Hin).
  destruct (clean_spec _ _ _ _ _ _ _ Hrun Hq) as (xs' & _ & _ & Hd). rewrite <- Hfs in Hd.
  destruct (in_threads _ H _ _ Hx) as [[_ (xs0 & Hq0 & Hc0) Hp] _]. rewrite Hph in Hp.
  assert (xs = xs0) as -> by by eapply thread_queue_det.
  destruct (drains_counter _ _ _ _ _ (proj1 (in_global _ H)) Hd Hc0) as [Hc _].
  pose proof (proj1 (Forall_forall _ _) (drains_past _ _ _ _ _ _ Hd) _ Hin) as Hpast.
  pose proof (proj1 (Forall_forall _ _) Hc _ Hin) as He. cbn in Hpast, He.
  pose proof (past_counter _ _ _ (in_global _ H) Hp He Hpast).
  pose proof (ho_clean _ _ _ (in_held _ H t p e Hheld) t' x stop a Hx Hph). lia.
Qed.
End safety.

(** * A run

    Thread 0 retires a block while thread 1 is inside an operation; the clock
    ticks, thread 1 passes a quiescent point, the scan ends, and thread 0 frees
    the block. *)
Definition no_retires (cb : Z) : list (Z * Z) := [].
Definition retired_thread : threadinfo := default (make 0 0) (deallocate_rcu (make 0 0) 4096 256 1).
Definition before_clean : system :=
  let s := start_system in
  let s := mkSystem 1 1 {[0%nat := mkThread (make 0 0) Resting]} [0%nat] None [] in
  let s := mkSystem 1 1 (<[1%nat := mkThread (make 0 1) Resting]> (threads_ s)) [1%nat; 0%nat] None [] in
  let s := set_thread s 1 (mkThread (make 0 1) (Starting false 1)) in
  let s := release (set_thread s 1 (mkThread (rcu_start (make 0 1) 1) Resting)) 1 in
  let s := set_thread (hold s [4096]) 0 (mkThread (make 0 0) (Retiring 4096 256 1)) in
  let s := set_thread s 0 (mkThread retired_thread Resting) in
  let s := mkSystem 3 1 (threads_ s) (allthreads_ s) (Some (3, allthreads_ s)) (held_ s) in
  let s := set_thread s 1 (mkThread (rcu_start (make 0 1) 1) (Starting false 3)) in
  let s := release (set_thread s 1 (mkThread (rcu_start (rcu_start (make 0 1) 1) 3) Resting)) 1 in
  let s := mkSystem 3 1 (threads_ s) (allthreads_ s) (Some (3, [0%nat])) (held_ s) in
  let s := mkSystem 3 1 (threads_ s) (allthreads_ s) (Some (3, [])) (held_ s) in
  let s := mkSystem 3 3 (threads_ s) (allthreads_ s) None (held_ s) in
  let s := set_thread s 0 (mkThread retired_thread (Checking true)) in
  let s := set_thread s 0 (mkThread retired_thread (Bounding true)) in
  set_thread s 0 (mkThread retired_thread (Cleaning true 3)).

Lemma retired_queue : thread_queue retired_thread [(4096, 256, 1)].
Proof.
  destruct (deallocate_rcu_spec (make 0 0) [] 4096 256 1 (make_queue 0 0) ltac:(done)) as (t & H & Hq & _).
  unfold retired_thread. by rewrite H.
Qed.
Ltac after R k := match type of R with reachable _ ?s => k s end.
Lemma before_clean_reachable : reachable no_retires before_clean.
Proof.
  pose proof (reachable_start no_retires) as R.
  after R ltac:(fun s => pose proof (reachable_step _ _ _ _ R (step_make no_retires s 0%nat 0 0 eq_refl)) as R1).
  after R1 ltac:(fun s => pose proof (reachable_step _ _ _ _ R1 (step_make no_retires s 1%nat 0 1 eq_refl)) as R2).
  after R2 ltac:(fun s => pose proof (reachable_step _ _ _ _ R2 (step_load no_retires s 1%nat _ false eq_refl eq_refl)) as R3).
  after R3 ltac:(fun s => pose proof (reachable_step _ _ _ _ R3 (step_store no_retires s 1%nat _ false 1 eq_refl eq_refl)) as R4).
  after R4 ltac:(fun s => pose proof (reachable_step _ _ _ _ R4 (step_retire no_retires s 0%nat _ 4096 256 eq_refl eq_refl ltac:(done))) as R5).
  after R5 ltac:(fun s => pose proof (reachable_step _ _ _ _ R5 (step_push no_retires s 0%nat _ 4096 256 1 retired_thread eq_refl eq_refl ltac:(by vm_compute))) as R6).
  after R6 ltac:(fun s => pose proof (reachable_step _ _ _ _ R6 (step_tick no_retires s eq_refl ltac:(by vm_compute))) as R7).
  after R7 ltac:(fun s => pose proof (reachable_step _ _ _ _ R7 (step_load no_retires s 1%nat _ false eq_refl eq_refl)) as R8).
  after R8 ltac:(fun s => pose proof (reachable_step _ _ _ _ R8 (step_store no_retires s 1%nat _ false 3 eq_refl eq_refl)) as R9).
  after R9 ltac:(fun s => pose proof (reachable_step _ _ _ _ R9 (step_scan no_retires s 3 1%nat [0%nat] _ eq_refl eq_refl)) as R10).
  after R10 ltac:(fun s => pose proof (reachable_step _ _ _ _ R10 (step_scan no_retires s 3 0%nat [] _ eq_refl eq_refl)) as R11).
  after R11 ltac:(fun s => pose proof (reachable_step _ _ _ _ R11 (step_scanned no_retires s 3 eq_refl)) as R12).
  after R12 ltac:(fun s => pose proof (reachable_step _ _ _ _ R12 (step_stop no_retires s 0%nat _ eq_refl eq_refl)) as R13).
  after R13 ltac:(fun s => pose proof (reachable_step _ _ _ _ R13 (step_check no_retires s 0%nat _ true eq_refl eq_refl)) as R14).
  after R14 ltac:(fun s => exact (reachable_step _ _ _ _ R14 (step_bound no_retires s 0%nat _ true eq_refl eq_refl))).
Qed.

Lemma before_clean_step : exists s', step no_retires before_clean [(4096, 256, 1)] s'.
Proof.
  eexists. eapply (step_clean _ _ 0%nat _ true 3 2 [(4096, 256, 1)] _ [Free 4096]); try reflexivity. apply retired_queue.
Qed.

Lemma epoch_safety_witness :
  reachable no_retires before_clean /\ exists s', step no_retires before_clean [(4096, 256, 1)] s' /\
    (1%nat, 4096, 1) ∉ held_ before_clean.
Proof.
  destruct before_clean_step as [s' Hstep]. split; [apply before_clean_reachable|]. exists s'. split; [exact Hstep|].
  apply (epoch_safety no_retires (fun _ => List.Forall_nil _) before_clean _ s' before_clean_reachable Hstep 4096 256);
    by apply elem_of_cons; left.
Defined.
