(* ===== verification/Msgpack.v ===== *)
(** The msgpack encoding, [src/msgpack.hh]: the functions of [format] that
    write a value as bytes, and [parser], which reads values from memory. *)
From S2P Require Import Prelude Compiler Memory.

(** * [format] *)
Module Format.
Definition nfixuint : Z := 0x80.
Definition ffixmap : Z := 0x80.
Definition nfixmap : Z := 0x10.
Definition ffixarray : Z := 0x90.
Definition nfixarray : Z := 0x10.
Definition ffixstr : Z := 0xA0.
Definition nfixstr : Z := 0x20.
Definition fnull : Z := 0xC0.
Definition ffalse : Z := 0xC2.
Definition fbin8 : Z := 0xC4.
Definition fbin16 : Z := 0xC5.
Definition fbin32 : Z := 0xC6.
Definition ffloat32 : Z := 0xCA.
Definition ffloat64 : Z := 0xCB.
Definition fuint8 : Z := 0xCC.
Definition fuint16 : Z := 0xCD.
Definition fuint32 : Z := 0xCE.
Definition fuint64 : Z := 0xCF.
Definition fint8 : Z := 0xD0.
Definition fint16 : Z := 0xD1.
Definition fint32 : Z := 0xD2.
Definition fint64 : Z := 0xD3.
Definition fstr8 : Z := 0xD9.
Definition fstr16 : Z := 0xDA.
Definition fstr32 : Z := 0xDB.
Definition farray16 : Z := 0xDC.
Definition farray32 : Z := 0xDD.
Definition fmap16 : Z := 0xDE.
Definition fmap32 : Z := 0xDF.
Definition nfixnegint : Z := 0x20.
Definition nfixint : Z := nfixuint + nfixnegint.

Definition in_range (x low n : Z) : bool := uwrap 32 (x - low) <? n.
Definition in_wrapped_range (x low n : Z) : bool := uwrap 32 (uwrap 32 (swrap 8 x) - low) <? n.
Definition is_fixint (x : Z) : bool := in_wrapped_range x (uwrap 32 (- nfixnegint)) nfixint.
Definition is_null_or_bool (x : Z) : bool := in_range x fnull 4.
Definition is_bool (x : Z) : bool := in_range x ffalse 2.
Definition is_fixstr (x : Z) : bool := in_range x ffixstr nfixstr.
Definition is_fixarray (x : Z) : bool := in_range x ffixarray nfixarray.
Definition is_fixmap (x : Z) : bool := in_range x ffixmap nfixmap.

(** The bytes that a function stores at [s]. *)
Definition write_null : list Z := [fnull].
Definition write_bool (x : bool) : list Z := [ffalse + b2z x].
(** [sized_writer<4>]. *)
Definition write_unsigned4 (x : Z) : list Z :=
  if x <? nfixuint then [uwrap 8 x]
  else if x <? 256 then [fuint8; uwrap 8 x]
  else if x <? 65536 then fuint16 :: write_in_net_order 2 (uwrap 16 x)
  else fuint32 :: write_in_net_order 4 x.
Definition write_signed4 (x : Z) : list Z :=
  if uwrap 32 (uwrap 32 x + nfixnegint) <? nfixint then [uwrap 8 x]
  else if uwrap 32 (uwrap 32 x + 128) <? 256 then [fint8; uwrap 8 x]
  else if uwrap 32 (uwrap 32 x + 32768) <? 65536 then fint16 :: write_in_net_order 2 (uwrap 16 x)
  else fint32 :: write_in_net_order 4 (uwrap 32 x).
(** [sized_writer<8>]. *)
Definition write_unsigned8 (x : Z) : list Z :=
  if x <? 4294967296 then write_unsigned4 (uwrap 32 x) else fuint64 :: write_in_net_order 8 x.
Definition write_signed8 (x : Z) : list Z :=
  if uwrap 64 (x + 2147483648) <? 4294967296 then write_signed4 (swrap 32 x)
  else fint64 :: write_in_net_order 8 (uwrap 64 x).
Definition write_wide_uint64 (x : Z) : list Z := fuint64 :: write_in_net_order 8 x.
Definition write_wide_int64 (x : Z) : list Z := fint64 :: write_in_net_order 8 (uwrap 64 x).
(** A [double] is its 64 bits. *)
Definition write_double (x : Z) : list Z := ffloat64 :: write_in_net_order 8 x.
Definition write_string (data : list Z) : list Z :=
  let len := zlength data in
  (if len <? nfixstr then [ffixstr + len]
   else if len <? 256 then [fstr8; uwrap 8 len]
   else if len <? 65536 then fstr16 :: write_in_net_order 2 (uwrap 16 len)
   else fstr32 :: write_in_net_order 4 (uwrap 32 len)) ++ data.
Definition write_array_header (size : Z) : list Z :=
  if size <? nfixarray then [ffixarray + size]
  else if size <? 65536 then farray16 :: write_in_net_order 2 (uwrap 16 size)
  else farray32 :: write_in_net_order 4 (uwrap 32 size).
Definition write_map_header (size : Z) : list Z :=
  if size <? nfixmap then [ffixmap + size]
  else if size <? 65536 then fmap16 :: write_in_net_order 2 (uwrap 16 size)
  else fmap32 :: write_in_net_order 4 (uwrap 32 size).
End Format.

(** * [parser] *)
(** A parser is its position [s_] in memory: it has no end to stop at.  A
    failed assertion is [None]. *)
Module Parser.
Import Format.
Section parser.
Context (m : mem).

(** A big-endian number of [n] bytes. *)
Definition net (n : nat) (s : Z) : Z := read_in_net_order n (load m s (Z.of_nat n)).

Definition try_read_null (s : Z) : bool * Z := if m s =? fnull then (true, s + 1) else (false, s).
Definition read_tiny_int (s : Z) : option (Z * Z) :=
  if is_fixint (m s) then Some (swrap 8 (m s), s + 1) else None.
(** The value before its conversion to the type that is read. *)
Definition hard_read_int (s : Z) : option (Z * Z) :=
  let t := m s in
  if t =? fuint8 then Some (m (s + 1), s + 2)
  else if t =? fuint16 then Some (net 2 (s + 1), s + 3)
  else if t =? fuint32 then Some (net 4 (s + 1), s + 5)
  else if t =? fuint64 then Some (net 8 (s + 1), s + 9)
  else if t =? fint8 then Some (swrap 8 (m (s + 1)), s + 2)
  else if t =? fint16 then Some (swrap 16 (net 2 (s + 1)), s + 3)
  else if t =? fint32 then Some (swrap 32 (net 4 (s + 1)), s + 5)
  else if t =? fint64 then Some (swrap 64 (net 8 (s + 1)), s + 9)
  else None.
(** [conv] is the conversion to the type of [x]. *)
Definition read_int (conv : Z -> Z) (s : Z) : option (Z * Z) :=
  if is_fixint (m s) then Some (conv (swrap 8 (m s)), s + 1)
  else if uwrap 32 (m s - fuint8) <? 8 then r ← hard_read_int s; Some (conv (fst r), snd r)
  else None.
Definition read_bool (s : Z) : option (bool * Z) :=
  if is_bool (m s) then Some (negb (m s - ffalse =? 0), s + 1) else None.
Definition read_double (s : Z) : option (Z * Z) :=
  if m s =? ffloat64 then Some (net 8 (s + 1), s + 9) else None.
(** The length of a string and the address of its bytes. *)
Definition read_string_header (s : Z) : option (Z * Z) :=
  let t := m s in
  if uwrap 32 (t - ffixstr) <? nfixstr then Some (t - ffixstr, s + 1)
  else if (t =? fbin8) || (t =? fstr8) then Some (m (s + 1), s + 2)
  else if (t =? fbin16) || (t =? fstr16) then Some (net 2 (s + 1), s + 3)
  else if (t =? fbin32) || (t =? fstr32) then Some (net 4 (s + 1), s + 5)
  else None.
(** [operator>>(Str&)]: where the string is, its length as an [int], and the
    position after it. *)
Definition read_str (s : Z) : option (Z * Z * Z) :=
  r ← read_string_header s;
  let '(len, p) := r in
  Some (p, swrap 32 len, p + len).
Definition read_array_header (s : Z) : option (Z * Z) :=
  if is_fixarray (m s) then Some (m s - ffixarray, s + 1)
  else if m s =? farray16 then Some (net 2 (s + 1), s + 3)
  else if m s =? farray32 then Some (net 4 (s + 1), s + 5)
  else None.
Definition skip_array_size (s : Z) : option Z :=
  if is_fixarray (m s) then Some (s + 1)
  else if m s =? farray16 then Some (s + 3)
  else if m s =? farray32 then Some (s + 5)
  else None.

(** One iteration of [skip_primitives]. *)
Definition skip_one (s : Z) : Z :=
  let t := m s in
  if is_fixint t || is_null_or_bool t then s + 1
  else if is_fixstr t then s + 1 + (t - ffixstr)
  else if (t =? fuint8) || (t =? fint8) then s + 2
  else if (t =? fuint16) || (t =? fint16) then s + 3
  else if (t =? fuint32) || (t =? fint32) || (t =? ffloat32) then s + 5
  else if (t =? fstr8) || (t =? fbin8) then s + (2 + m (s + 1))
  else if (t =? fstr16) || (t =? fbin16) then s + (3 + net 2 (s + 1))
  else if (t =? fstr32) || (t =? fbin32) then s + uwrap 32 (5 + net 4 (s + 1))
  else s.
Fixpoint skip_primitives (n : nat) (s : Z) : Z :=
  match n with O => s | S n => skip_primitives n (skip_one s) end.
End parser.
End Parser.

(** * Reading back *)
Import Format Parser.

(** [m] holds [l] at [s]. *)
Definition placed (m : mem) (s : Z) (l : list Z) : Prop := load m s (zlength l) = l.

Lemma byte_forall (f : Z -> bool) x : forallb f (seqZ 0 256) = true -> in_u 8 x -> f x = true.
Proof.
  intros H Hx. rewrite forallb_forall in H. apply H. apply list_elem_of_In, elem_of_seqZ.
  unfold in_u in Hx. lia.
Qed.
Lemma is_fixint_spec x : in_u 8 x -> is_fixint x = (x <? 128) || (224 <=? x).
Proof.
  intros Hx. apply eqb_prop.
  apply (byte_forall (fun x => eqb (is_fixint x) ((x <? 128) || (224 <=? x)))); [by vm_compute|done].
Qed.

Section placed.
Context (m : mem) (Hm : mem_bytes m).

Lemma placed_cons s b l : placed m s (b :: l) <-> m s = b /\ placed m (s + 1) l.
Proof using Type.
  unfold placed. rewrite zlength_cons. pose proof (zlength_nonneg l).
  rewrite load_cons by lia. replace (zlength l + 1 - 1) with (zlength l) by lia.
  replace (1 + zlength l - 1) with (zlength l) by lia.
  split; [intros [= ? ?]|intros [-> ->]]; auto.
Qed.
Lemma placed_app s l1 l2 : placed m s (l1 ++ l2) <-> placed m s l1 /\ placed m (s + zlength l1) l2.
Proof using Type.
  unfold placed. rewrite zlength_app. pose proof (zlength_nonneg l1). pose proof (zlength_nonneg l2).
  rewrite load_app by lia. split.
  - intros H1. apply app_inj_1 in H1; [done|]. rewrite length_load. unfold zlength. lia.
  - by intros [-> ->].
Qed.

Lemma net_placed n s x : placed m s (write_in_net_order n x) -> 0 <= x < 256 ^ Z.of_nat n -> net m n s = x.
Proof using Hm.
  unfold placed, net, zlength. rewrite length_write_in_net_order. intros -> Hx.
  rewrite <- (app_nil_r (write_in_net_order n x)). apply read_write_net_order; [by apply Forall_nil|done].
Qed.
Lemma net_range n s : 0 <= net m n s < 256 ^ Z.of_nat n.
Proof using Hm.
  unfold net. pose proof (load_bytes m s (Z.of_nat n) Hm) as Hb.
  assert (length (load m s (Z.of_nat n)) = n) as Hl by (rewrite length_load; lia).
  rewrite read_in_net_order_be by (done || lia).
  pose proof (be_value_range (take n (load m s (Z.of_nat n))) (Forall_take _ _ _ Hb)) as H.
  unfold zlength in H. rewrite length_take, Hl, Nat.min_id in H. done.
Qed.
End placed.

Lemma zlength_net n x : zlength (write_in_net_order n x) = Z.of_nat n.
Proof. unfold zlength. by rewrite length_write_in_net_order. Qed.

(** The range tests of the signed writers. *)
Lemma uwrap_shift w x a n :
  0 < w -> in_s w x -> 0 <= a <= 2 ^ (w - 1) -> 0 <= n - a <= 2 ^ (w - 1) ->
  (uwrap w (x + a) <? n) = (- a <=? x) && (x <? n - a).
Proof.
  unfold in_s. intros Hw Hx Ha Hn.
  assert (2 ^ w = 2 * 2 ^ (w - 1)) as H2 by (rewrite <- Z.pow_succ_r by lia; f_equal; lia).
  unfold uwrap. destruct (Z.leb_spec (- a) x).
  - rewrite Z.mod_small by lia. cbn [andb]. destruct (Z.ltb_spec (x + a) n), (Z.ltb_spec x (n - a)); lia || done.
  - rewrite <- (Z.mod_add _ 1) by lia. rewrite Z.mod_small by lia. cbn [andb]. apply Z.ltb_ge. lia.
Qed.
Lemma swrap_uwrap_id w x : 0 < w -> in_s w x -> swrap w (uwrap w x) = x.
Proof. intros. by rewrite swrap_uwrap, swrap_id. Qed.

Section integers.
Context (m : mem) (Hm : mem_bytes m) (conv : Z -> Z).

Lemma read_tiny s b : m s = b -> is_fixint b = true -> read_int m conv s = Some (conv (swrap 8 b), s + 1).
Proof using Type. intros <- H. unfold read_int. by rewrite H. Qed.

Lemma read_hard s t v s' :
  m s = t -> 204 <= t < 212 -> hard_read_int m s = Some (v, s') -> read_int m conv s = Some (conv v, s').
Proof using Type.
  intros Ht Hr H. unfold read_int. rewrite Ht.
  assert (is_fixint t = false) as ->.
  { rewrite is_fixint_spec by (unfold in_u; lia).
    destruct (Z.ltb_spec t 128), (Z.leb_spec 224 t); lia || done. }
  unfold fuint8. rewrite uwrap_id by (unfold in_u; lia). destruct (Z.ltb_spec (t - 204) 8); [|lia]. by rewrite H.
Qed.

Lemma read_unsigned4 s x :
  in_u 32 x -> placed m s (write_unsigned4 x) ->
  read_int m conv s = Some (conv x, s + zlength (write_unsigned4 x)).
Proof using Hm.
  unfold in_u. intros Hx. unfold write_unsigned4, nfixuint.
  destruct (Z.ltb_spec x 128); [|destruct (Z.ltb_spec x 256); [|destruct (Z.ltb_spec x 65536)]].
  - rewrite placed_cons, (uwrap_id 8) by (unfold in_u; lia). intros [Hb _].
    rewrite (read_tiny s x Hb).
    + by rewrite swrap_id by (unfold in_s; lia).
    + rewrite is_fixint_spec by (unfold in_u; lia). by destruct (Z.ltb_spec x 128); [|lia].
  - rewrite !placed_cons, (uwrap_id 8) by (unfold in_u; lia). intros (Ht & Hb & _).
    apply (read_hard s _ _ _ Ht); [unfold fuint8; lia|]. unfold hard_read_int. rewrite Ht, Hb. done.
  - rewrite placed_cons, (uwrap_id 16) by (unfold in_u; lia). intros [Ht Hb].
    apply net_placed in Hb; [|done|cbn; lia].
    apply (read_hard s _ _ _ Ht); [unfold fuint16; lia|].
    unfold hard_read_int. rewrite Ht, Hb, zlength_cons, zlength_net. done.
  - rewrite placed_cons. intros [Ht Hb]. apply net_placed in Hb; [|done|cbn; lia].
    apply (read_hard s _ _ _ Ht); [unfold fuint32; lia|].
    unfold hard_read_int. rewrite Ht, Hb, zlength_cons, zlength_net. done.
Qed.

Lemma read_signed4 s x :
  in_s 32 x -> placed m s (write_signed4 x) ->
  read_int m conv s = Some (conv x, s + zlength (write_signed4 x)).
Proof using Hm.
  intros Hx. unfold write_signed4.
  assert (forall a, uwrap 32 (uwrap 32 x + a) = uwrap 32 (x + a)) as Hu
    by (intros; unfold uwrap; by rewrite Zplus_mod_idemp_l).
  rewrite !Hu, !uwrap_shift by (done || (unfold nfixint, nfixuint, nfixnegint; lia)).
  unfold nfixint, nfixuint, nfixnegint. unfold in_s in Hx.
  destruct (Z.leb_spec (Z.opp 0x20) x), (Z.ltb_spec x (0x80 + 0x20 - 0x20)); cbn [andb]; cbv iota.
  1: { rewrite placed_cons. intros [Hb _]. rewrite (read_tiny s _ Hb).
       - by rewrite swrap_uwrap_id by (unfold in_s; lia).
       - rewrite is_fixint_spec by (by apply uwrap_range). unfold uwrap. change (2 ^ 8) with 256.
         destruct (Z.le_gt_cases 0 x); [rewrite Z.mod_small by lia; by destruct (Z.ltb_spec x 128); [|lia]|].
         rewrite <- (Z.mod_add _ 1), Z.mod_small by lia. apply orb_true_intro. right. apply Z.leb_le. lia. }
  all: destruct (Z.leb_spec (Z.opp 128) x), (Z.ltb_spec x (256 - 128)); cbn [andb]; cbv iota; try lia.
  all: try (rewrite !placed_cons; intros (Ht & Hb & _);
    apply (read_hard s _ _ _ Ht); [unfold fint8; lia|]; unfold hard_read_int; rewrite Ht, Hb; cbn;
    by rewrite swrap_uwrap_id by (unfold in_s; lia)).
  all: destruct (Z.leb_spec (Z.opp 32768) x), (Z.ltb_spec x (65536 - 32768)); cbn [andb]; cbv iota; try lia.
  all: rewrite placed_cons; intros [Ht Hb];
    apply net_placed in Hb; [|done|pose proof (uwrap_range 16 x); pose proof (uwrap_range 32 x); unfold in_u in *; lia].
  all: apply (read_hard s _ _ _ Ht); [unfold fint16, fint32; lia|];
    unfold hard_read_int; rewrite Ht, Hb, zlength_cons, zlength_net;
    rewrite swrap_uwrap_id by (unfold in_s; lia); done.
Qed.

Lemma read_unsigned8 s x :
  in_u 64 x -> placed m s (write_unsigned8 x) ->
  read_int m conv s = Some (conv x, s + zlength (write_unsigned8 x)).
Proof using Hm.
  unfold in_u. intros Hx. unfold write_unsigned8. destruct (Z.ltb_spec x 4294967296).
  - rewrite uwrap_id by (unfold in_u; lia). apply read_unsigned4. unfold in_u; lia.
  - rewrite placed_cons. intros [Ht Hb]. apply net_placed in Hb; [|done|cbn; lia].
    apply (read_hard s _ _ _ Ht); [unfold fuint64; lia|].
    unfold hard_read_int. rewrite Ht, Hb, zlength_cons, zlength_net. done.
Qed.

Lemma read_signed8 s x :
  in_s 64 x -> placed m s (write_signed8 x) ->
  read_int m conv s = Some (conv x, s + zlength (write_signed8 x)).
Proof using Hm.
  intros Hx. unfold write_signed8. rewrite uwrap_shift by (done || lia).
  destruct (Z.leb_spec (Z.opp 2147483648) x), (Z.ltb_spec x (4294967296 - 2147483648)); cbn [andb]; cbv iota.
  1: rewrite swrap_id by (unfold in_s; lia); apply read_signed4; unfold in_s; lia.
  all: rewrite placed_cons; intros [Ht Hb];
    apply net_placed in Hb; [|done|pose proof (uwrap_range 64 x); unfold in_u in *; lia];
    apply (read_hard s _ _ _ Ht); [unfold fint64; lia|];
    unfold hard_read_int; rewrite Ht, Hb, zlength_cons, zlength_net;
    rewrite swrap_uwrap_id by done; done.
Qed.
End integers.

Section strings.
Context (m : mem) (Hm : mem_bytes m).

(** A header: a tag with a small size, or a tag and [n] bytes of size. *)
Lemma byte_range a lo : m a = lo -> 0 <= lo < 256.
Proof using Hm. intros <-. apply Hm. Qed.

Lemma read_string s data :
  zlength data < 2 ^ 31 -> placed m s (write_string data) ->
  exists p, read_str m s = Some (p, zlength data, s + zlength (write_string data)) /\ placed m p data.
Proof using Hm.
  intros Hlen. pose proof (zlength_nonneg data). unfold write_string, nfixstr. set (n := zlength data) in *.
  assert (forall h q, read_string_header m s = Some (n, s + zlength h) -> placed m (s + zlength h) data ->
    q = s + zlength (h ++ data) ->
    exists p, read_str m s = Some (p, n, q) /\ placed m p data) as Hgo.
  { intros h q Hh Hd ->. exists (s + zlength h). split; [|done]. unfold read_str. rewrite Hh. cbn.
    rewrite swrap_id by (unfold in_s; lia). rewrite zlength_app. do 2 f_equal. unfold n. lia. }
  rewrite placed_app. unfold read_string_header in Hgo.
  assert (forall t, m s = t -> 217 <= t < 220 -> (uwrap 32 (t - ffixstr) <? nfixstr) = false) as Hnofix.
  { intros t _ Ht. unfold ffixstr, nfixstr. rewrite uwrap_id by (unfold in_u; lia). apply Z.ltb_ge. lia. }
  destruct (Z.ltb_spec n 32); [|destruct (Z.ltb_spec n 256); [|destruct (Z.ltb_spec n 65536)]];
    rewrite ?placed_cons; intros [Hh Hd]; (eapply Hgo; [|exact Hd|done]).
  - destruct Hh as [Ht _]. rewrite Ht. unfold ffixstr. rewrite uwrap_id by (unfold in_u; lia).
    replace (0xA0 + n - 0xA0) with n by lia. by destruct (Z.ltb_spec n nfixstr); [|unfold nfixstr in *; lia].
  - destruct Hh as (Ht & Hb & _). rewrite Ht, Hnofix by (done || (unfold fstr8; lia)).
    rewrite Hb, uwrap_id by (unfold in_u; lia). done.
  - destruct Hh as [Ht Hb]. rewrite Ht, Hnofix by (done || (unfold fstr16; lia)).
    apply net_placed in Hb; [|done|pose proof (uwrap_range 16 n); unfold in_u in *; lia].
    rewrite Hb, uwrap_id by (unfold in_u; lia). rewrite zlength_cons, zlength_net. done.
  - destruct Hh as [Ht Hb]. rewrite Ht, Hnofix by (done || (unfold fstr32; lia)).
    apply net_placed in Hb; [|done|pose proof (uwrap_range 32 n); unfold in_u in *; lia].
    rewrite Hb, uwrap_id by (unfold in_u; lia). rewrite zlength_cons, zlength_net. done.
Qed.

Lemma is_fixarray_spec x : in_u 8 x -> is_fixarray x = (0x90 <=? x) && (x <? 0xA0).
Proof using Type.
  intros Hx. apply eqb_prop.
  apply (byte_forall (fun x => eqb (is_fixarray x) ((0x90 <=? x) && (x <? 0xA0)))); [by vm_compute|done].
Qed.

Lemma read_array s n :
  in_u 32 n -> placed m s (write_array_header n) ->
  read_array_header m s = Some (n, s + zlength (write_array_header n)) /\
  skip_array_size m s = Some (s + zlength (write_array_header n)).
Proof using Hm.
  unfold in_u, write_array_header, nfixarray, read_array_header, skip_array_size. intros Hn.
  destruct (Z.ltb_spec n 0x10); [|destruct (Z.ltb_spec n 65536)]; rewrite placed_cons; intros [Ht Hb]; rewrite Ht.
  - unfold ffixarray. rewrite is_fixarray_spec by (unfold in_u; lia).
    destruct (Z.leb_spec 0x90 (0x90 + n)), (Z.ltb_spec (0x90 + n) 0xA0); try lia. cbn.
    by replace (0x90 + n - 0x90) with n by lia.
  - apply net_placed in Hb; [|done|pose proof (uwrap_range 16 n); unfold in_u in *; lia].
    rewrite Hb, uwrap_id by (unfold in_u; lia). rewrite zlength_cons, zlength_net. done.
  - apply net_placed in Hb; [|done|pose proof (uwrap_range 32 n); unfold in_u in *; lia].
    rewrite Hb, uwrap_id by (unfold in_u; lia). rewrite zlength_cons, zlength_net. done.
Qed.
End strings.

(** * Primitive values *)
Inductive prim : Type :=
  | PNull
  | PBool (b : bool)
  | PInt (x : Z)                  (* a signed number, written by [write_signed8] *)
  | PUnsigned (x : Z)
  | PDouble (bits : Z)
  | PString (data : list Z).

Definition write_prim (v : prim) : list Z :=
  match v with
  | PNull => write_null
  | PBool b => write_bool b
  | PInt x => write_signed8 x
  | PUnsigned x => write_unsigned8 x
  | PDouble x => write_double x
  | PString d => write_string d
  end.
Definition prim_ok (v : prim) : Prop :=
  match v with
  | PInt x => in_s 64 x
  | PUnsigned x | PDouble x => in_u 64 x
  | PString d => zlength d < 2 ^ 31
  | _ => True
  end.
(** What the reader for the value's type gives at [s]. *)
Definition reads (m : mem) (s : Z) (v : prim) (s' : Z) : Prop :=
  match v with
  | PNull => try_read_null m s = (true, s')
  | PBool b => read_bool m s = Some (b, s')
  | PInt x | PUnsigned x => forall conv, read_int m conv s = Some (conv x, s')
  | PDouble x => read_double m s = Some (x, s')
  | PString d => exists p, read_str m s = Some (p, zlength d, s') /\ placed m p d
  end.

Lemma reads_prim m s v :
  mem_bytes m -> prim_ok v -> placed m s (write_prim v) -> reads m s v (s + zlength (write_prim v)).
Proof.
  intros Hm Hok Hp. destruct v as [|b|x|x|x|d]; cbn [write_prim prim_ok reads] in *.
  - apply placed_cons in Hp as [Ht _]. unfold try_read_null. by rewrite Ht.
  - apply placed_cons in Hp as [Ht _]. unfold read_bool. rewrite Ht. by destruct b.
  - intros conv. by apply read_signed8.
  - intros conv. by apply read_unsigned8.
  - apply placed_cons in Hp as [Ht Hb]. apply net_placed in Hb; [|done|exact Hok].
    unfold read_double. rewrite Ht, Hb. unfold write_double. rewrite zlength_cons, zlength_net. done.
  - by apply read_string.
Qed.

(** [read_prims m s vs s']: one reader after the other. *)
Inductive reads_all (m : mem) : Z -> list prim -> Z -> Prop :=
  | reads_nil s : reads_all m s [] s
  | reads_cons s v s1 vs s2 : reads m s v s1 -> reads_all m s1 vs s2 -> reads_all m s (v :: vs) s2.
Definition write_prims (vs : list prim) : list Z := flat_map write_prim vs.

(** C17: Reading back with the readers for their types what was written gives
    the values written, and ends where the writing ended, wherever the bytes
    are in memory and whatever follows them. *)
Theorem prims_roundtrip m s vs :
  mem_bytes m -> Forall prim_ok vs -> placed m s (write_prims vs) ->
  reads_all m s vs (s + zlength (write_prims vs)).
Proof.
  intros Hm Hok. revert s. induction Hok as [|v vs Hv _ IH]; intros s Hp; cbn [write_prims flat_map] in *.
  - rewrite Z.add_0_r. apply reads_nil.
  - apply placed_app in Hp as [H1 H2]. rewrite zlength_app, Z.add_assoc.
    eapply reads_cons; [by apply reads_prim|by apply IH].
Qed.

(** The bytes that [skip_primitives] passes over: all but the wide numbers. *)
Definition narrow (v : prim) : bool :=
  match v with
  | PInt x => (-2147483648 <=? x) && (x <? 2147483648)
  | PUnsigned x => x <? 4294967296
  | PDouble _ => false
  | _ => true
  end.

Section skip.
Context (m : mem) (Hm : mem_bytes m).

Lemma skip_fixint s : is_fixint (m s) = true -> skip_one m s = s + 1.
Proof using Type. intros H. unfold skip_one. by rewrite H. Qed.

Lemma fixstr_tag t : in_u 8 t -> is_fixstr t = true -> is_fixint t || is_null_or_bool t = false.
Proof using Type.
  intros Ht H. apply negb_true_iff.
  assert (negb (is_fixstr t) || negb (is_fixint t || is_null_or_bool t) = true) as Hi.
  { apply (byte_forall (fun t => negb (is_fixstr t) || negb (is_fixint t || is_null_or_bool t)));
      [by vm_compute|done]. }
  by rewrite H in Hi.
Qed.

Lemma skip_unsigned4 s x : in_u 32 x -> placed m s (write_unsigned4 x) ->
  skip_one m s = s + zlength (write_unsigned4 x).
Proof using Hm.
  unfold in_u. intros Hx. unfold write_unsigned4, nfixuint.
  destruct (Z.ltb_spec x 128); [|destruct (Z.ltb_spec x 256); [|destruct (Z.ltb_spec x 65536)]];
    rewrite placed_cons; intros [Ht _].
  - apply skip_fixint. rewrite Ht, uwrap_id, is_fixint_spec by (unfold in_u; lia).
    by destruct (Z.ltb_spec x 128); [|lia].
  - unfold skip_one. by rewrite Ht.
  - unfold skip_one. rewrite Ht, zlength_cons, zlength_net. done.
  - unfold skip_one. rewrite Ht, zlength_cons, zlength_net. done.
Qed.

Lemma skip_signed4 s x : in_s 32 x -> placed m s (write_signed4 x) ->
  skip_one m s = s + zlength (write_signed4 x).
Proof using Hm.
  intros Hx Hp. pose proof (read_signed4 m Hm (fun v => v) s x Hx Hp) as Hr. revert Hp Hr.
  unfold write_signed4.
  destruct (uwrap 32 (uwrap 32 x + nfixnegint) <? nfixint);
    [|destruct (uwrap 32 (uwrap 32 x + 128) <? 256);
      [|destruct (uwrap 32 (uwrap 32 x + 32768) <? 65536)]]; rewrite placed_cons; intros [Ht _] Hr.
  - destruct (is_fixint (m s)) eqn:Hf; [by apply skip_fixint|].
    unfold read_int in Hr. rewrite Hf in Hr. destruct (uwrap 32 (m s - fuint8) <? 8); [|done].
    change (s + zlength [uwrap 8 x]) with (s + 1) in Hr. unfold hard_read_int in Hr.
    repeat case_match; cbn in Hr; try done; injection Hr; lia.
  - unfold skip_one. by rewrite Ht.
  - unfold skip_one. rewrite Ht, zlength_cons, zlength_net. done.
  - unfold skip_one. rewrite Ht, zlength_cons, zlength_net. done.
Qed.

Lemma skip_string s d : zlength d < 2 ^ 32 - 5 -> placed m s (write_string d) ->
  skip_one m s = s + zlength (write_string d).
Proof using Hm.
  intros Hlen. pose proof (zlength_nonneg d). unfold write_string, nfixstr. set (n := zlength d) in *.
  rewrite placed_app, zlength_app.
  destruct (Z.ltb_spec n 32); [|destruct (Z.ltb_spec n 256); [|destruct (Z.ltb_spec n 65536)]];
    rewrite ?placed_cons; intros [Hh _].
  - destruct Hh as [Ht _]. assert (is_fixstr (m s) = true) as Hf.
    { rewrite Ht. unfold is_fixstr, in_range, ffixstr, nfixstr. rewrite uwrap_id by (unfold in_u; lia).
      apply Z.ltb_lt. lia. }
    unfold skip_one. rewrite (fixstr_tag _ (Hm s) Hf), Hf, Ht. unfold ffixstr. change (zlength [0xA0 + n]) with 1. lia.
  - destruct Hh as (Ht & Hb & _). unfold skip_one. rewrite Ht, Hb, uwrap_id by (unfold in_u; lia). done.
  - destruct Hh as [Ht Hb]. apply net_placed in Hb; [|done|pose proof (uwrap_range 16 n); unfold in_u in *; lia].
    unfold skip_one. rewrite Ht, Hb, zlength_cons, zlength_net, uwrap_id by (unfold in_u; lia).
    change (Z.of_nat 2 + 1) with 3. done.
  - destruct Hh as [Ht Hb]. apply net_placed in Hb; [|done|pose proof (uwrap_range 32 n); unfold in_u in *; lia].
    unfold skip_one. rewrite Ht, Hb, zlength_cons, zlength_net, !uwrap_id by (unfold in_u; rewrite ?uwrap_id by (unfold in_u; lia); lia).
    change (1 + Z.of_nat 4) with 5. done.
Qed.

Lemma skip_prim s v :
  prim_ok v -> narrow v = true -> placed m s (write_prim v) -> skip_one m s = s + zlength (write_prim v).
Proof using Hm.
  intros Hok Hn Hp. destruct v as [|b|x|x|x|d]; cbn [write_prim prim_ok narrow] in *.
  - apply placed_cons in Hp as [Ht _]. unfold skip_one. by rewrite Ht.
  - apply placed_cons in Hp as [Ht _]. unfold skip_one. rewrite Ht. by destruct b.
  - assert (write_signed8 x = write_signed4 x) as He.
    { unfold write_signed8. rewrite uwrap_shift by (done || lia).
      destruct (Z.leb_spec (Z.opp 2147483648) x), (Z.ltb_spec x (4294967296 - 2147483648)); cbn [andb]; cbv iota;
        try (apply andb_true_iff in Hn as [?%Z.leb_le ?%Z.ltb_lt]; lia).
      by rewrite swrap_id by (unfold in_s; lia). }
    rewrite He in *. apply skip_signed4; [|done].
    apply andb_true_iff in Hn as [?%Z.leb_le ?%Z.ltb_lt]. unfold in_s; lia.
  - apply Z.ltb_lt in Hn. unfold write_unsigned8 in *. destruct (Z.ltb_spec x 4294967296); [|lia].
    apply skip_unsigned4; [|done]. by apply uwrap_range.
  - done.
  - apply skip_string; [lia|done].
Qed.

Lemma skip_wide s v : prim_ok v -> narrow v = false -> placed m s (write_prim v) -> skip_one m s = s.
Proof using Type.
  intros Hok Hn Hp. unfold skip_one. destruct v as [|b|x|x|x|d]; cbn [write_prim prim_ok narrow] in *; try done.
  - unfold write_signed8 in Hp. rewrite uwrap_shift in Hp by (done || lia).
    change (Z.opp 2147483648) with (-2147483648) in Hp. change (4294967296 - 2147483648) with 2147483648 in Hp.
    rewrite Hn in Hp. apply placed_cons in Hp as [Ht _]. by rewrite Ht.
  - unfold write_unsigned8 in Hp. rewrite Hn in Hp. apply placed_cons in Hp as [Ht _]. by rewrite Ht.
  - apply placed_cons in Hp as [Ht _]. by rewrite Ht.
Qed.

Lemma skip_all vs : Forall prim_ok vs -> Forall (fun v => narrow v = true) vs ->
  forall s, placed m s (write_prims vs) -> skip_primitives m (length vs) s = s + zlength (write_prims vs).
Proof using Hm.
  intros Hok. induction Hok as [|v vs Hv _ IH]; intros Hn s Hp; cbn [write_prims flat_map length skip_primitives] in *.
  - by rewrite Z.add_0_r.
  - inversion_clear Hn. apply placed_app in Hp as [H1 H2].
    rewrite (skip_prim s v) by done. rewrite zlength_app, Z.add_assoc. by apply IH.
Qed.
Lemma skip_app k n : forall s, skip_primitives m (k + n) s = skip_primitives m n (skip_primitives m k s).
Proof using Type. induction k as [|k IH]; intros s; [done|]. apply IH. Qed.
End skip.

(** C20: [skip_primitives] moves past exactly the values it is asked to skip,
    save that it does not move at a 64-bit number or a double: whoever reads
    next takes that number for the value after it. *)
Theorem skip_primitives_spec m s vs v rest :
  mem_bytes m -> Forall prim_ok (vs ++ [v]) -> Forall (fun v => narrow v = true) vs ->
  placed m s (write_prims vs ++ write_prim v ++ rest) ->
  let s1 := s + zlength (write_prims vs) in
  skip_primitives m (length vs) s = s1 /\
  skip_primitives m (length vs + 1) s = if narrow v then s1 + zlength (write_prim v) else s1.
Proof.
  intros Hm Hok Hn Hp s1. apply Forall_app in Hok as [Hok Hv]. inversion_clear Hv.
  rewrite !placed_app in Hp. destruct Hp as (H1 & H2 & _).
  assert (skip_primitives m (length vs) s = s1) as Hs by (by apply skip_all).
  split; [done|]. rewrite skip_app, Hs. cbn [skip_primitives].
  destruct (narrow v) eqn:Hw; [by apply skip_prim|by eapply skip_wide].
Qed.

(** A request as [onego] of [src/mtd.cc] skips it, with a wide sequence number. *)
Lemma skip_primitives_spec_witness :
  let vs := [PUnsigned 6; PString [107; 101; 121]] in
  let m := mem_of 100 (write_prims vs ++ write_prim (PUnsigned (2 ^ 32)) ++ write_array_header 3) in
  skip_primitives m 2 100 = 105 /\ skip_primitives m 3 100 = 105.
Proof.
  intros vs m.
  destruct (skip_primitives_spec m 100 vs (PUnsigned (2 ^ 32)) (write_array_header 3)) as [H1 H2].
  - apply mem_of_bytes. apply Forall_forall. intros x Hx.
    repeat (apply elem_of_cons in Hx as [->|Hx]; [by vm_compute|]). by apply elem_of_nil in Hx.
  - repeat (apply Forall_cons; split; [by vm_compute|]). by apply Forall_nil.
  - repeat (apply Forall_cons; split; [by vm_compute|]). by apply Forall_nil.
  - by vm_compute.
  - split; [exact H1|exact H2].
Defined.

Lemma prims_roundtrip_witness :
  let vs := [PInt (-40000); PBool true; PString (seqZ 1 40); PUnsigned (2 ^ 40); PNull; PDouble 7] in
  reads_all (mem_of 64 (write_prims vs)) 64 vs 131.
Proof.
  intros vs. change 131 with (64 + zlength (write_prims vs)). apply prims_roundtrip.
  - apply mem_of_bytes. apply Forall_forall. intros x Hx.
    repeat (apply elem_of_cons in Hx as [->|Hx]; [by vm_compute|]). by apply elem_of_nil in Hx.
  - repeat (apply Forall_cons; split; [by vm_compute|]). by apply Forall_nil.
  - by vm_compute.
Defined.
