(* ===== verification/Row.v ===== *)
(** Rows: what a query asks of a row type, and what a row stands for.

    A row has columns, byte strings.  A put changes some of them: the changes
    are pairs of a column and its new value, in increasing columns, as
    [value_*::update] require. *)
From S2P Require Import Prelude Compiler Memory.

(** * Columns *)
(** The changes, [[column, value, column, value, ...]]. *)
Definition changes : Type := list (Z * list Z).

(** The columns of the changes increase, from [c] on and below [n]. *)
Fixpoint increasing (cs : changes) (c e : Z) : Prop :=
  match cs with [] => c <= e | (idx, _) :: cs => c <= idx /\ increasing cs (idx + 1) e end.
Lemma increasing_bound cs : forall c e, increasing cs c e -> c <= e.
Proof. induction cs as [|[i v] cs IH]; intros c e; cbn; [done|]. intros [H1 H2%IH]. lia. Qed.

Definition changes_ok (cs : changes) : Prop := exists e, increasing cs 0 e.
(** The number of columns after the changes. *)
Definition new_ncol (cols : list (list Z)) (cs : changes) : Z := foldl (fun n c => Z.max n (fst c + 1)) (zlength cols) cs.
Definition assign_column (l : list (list Z)) (c : Z * list Z) : list (list Z) := <[Z.to_nat (fst c) := snd c]> l.
(** Empty columns are added at the end, and each change is assigned. *)
Definition put_columns (cols : list (list Z)) (cs : changes) : list (list Z) :=
  foldl assign_column (cols ++ replicate (Z.to_nat (new_ncol cols cs - zlength cols)) []) cs.

Lemma zlength_replicate {A} (x : A) k : zlength (replicate k x) = Z.of_nat k.
Proof. unfold zlength. by rewrite length_replicate. Qed.

Lemma zlength_assign l cs : zlength (foldl assign_column l cs) = zlength l.
Proof.
  revert l. induction cs as [|c cs IH]; intros l; cbn; [done|]. rewrite IH. unfold zlength, assign_column.
  by rewrite length_insert.
Qed.
Lemma new_ncol_ge cs : forall n, n <= foldl (fun n (c : Z * list Z) => Z.max n (fst c + 1)) n cs.
Proof. induction cs as [|c cs IH]; intros n; cbn; [lia|]. pose proof (IH (Z.max n (fst c + 1))). lia. Qed.
Lemma new_ncol_fits cs : forall n i v, (i, v) ∈ cs -> i < foldl (fun n (c : Z * list Z) => Z.max n (fst c + 1)) n cs.
Proof.
  induction cs as [|c cs IH]; intros n i v Hin; [by apply elem_of_nil in Hin|].
  apply elem_of_cons in Hin as [<-|Hin]; cbn; [|by eapply IH].
  pose proof (new_ncol_ge cs (Z.max n (i + 1))). lia.
Qed.
Lemma zlength_put cols cs : zlength (put_columns cols cs) = new_ncol cols cs.
Proof.
  unfold put_columns. rewrite zlength_assign, zlength_app, zlength_replicate.
  pose proof (new_ncol_ge cs (zlength cols)). unfold new_ncol in *. lia.
Qed.
Lemma increasing_below cs : forall c e i v, increasing cs c e -> (i, v) ∈ cs -> c <= i.
Proof.
  induction cs as [|[j w] cs IH]; intros c e i v H Hin; [by apply elem_of_nil in Hin|].
  destruct H as [H1 H2]. apply elem_of_cons in Hin as [[= -> ->]|Hin]; [done|]. pose proof (IH _ _ _ _ H2 Hin). lia.
Qed.
Lemma increasing_end cs : forall c e e', increasing cs c e ->
  (forall i v, (i, v) ∈ cs -> i < e') -> c <= e' -> increasing cs c e'.
Proof.
  induction cs as [|[j w] cs IH]; intros c e e' H Hin Hc; [done|]. destruct H as [H1 H2]. split; [done|].
  eapply IH; [done| |].
  - intros i v Hi. eapply Hin. apply elem_of_cons. eauto.
  - pose proof (Hin j w (list_elem_of_here _ _)). lia.
Qed.

Lemma assign_below cs : forall c e l i, increasing cs c e -> 0 <= c -> (i < Z.to_nat c)%nat ->
  foldl assign_column l cs !! i = l !! i.
Proof.
  induction cs as [|[j w] cs IH]; intros c e l i H Hc Hi; [done|]. destruct H as [H1 H2].
  cbn [foldl]. rewrite (IH (j + 1) e) by (done || lia). unfold assign_column. cbn. apply list_lookup_insert_ne. lia.
Qed.

(** A change assigns its column and leaves the others. *)
Lemma put_columns_lookup cs : forall c e l i, increasing cs c e -> 0 <= c -> e <= zlength l -> 0 <= i ->
  zlookup (foldl assign_column l cs) i =
  match list_find (fun x => fst x = i) cs with Some (_, x) => Some (snd x) | None => zlookup l i end.
Proof.
  induction cs as [|[j w] cs IH]; intros c e l i Hinc Hc He Hi; [done|]. destruct Hinc as [H1 H2].
  pose proof (increasing_bound _ _ _ H2). cbn [foldl list_find fst].
  assert (zlength (assign_column l (j, w)) = zlength l) as Hl by (unfold assign_column, zlength; by rewrite length_insert).
  rewrite (IH (j + 1) e) by (done || lia || by rewrite Hl). rewrite zlookup_nonneg by done.
  destruct (decide (j = i)) as [->|Hne].
  - assert (list_find (fun x : Z * list Z => fst x = i) cs = None) as ->.
    { apply list_find_None, Forall_forall. intros [k v] Hin. pose proof (increasing_below _ _ _ _ _ H2 Hin). cbn. lia. }
    unfold assign_column. cbn. rewrite list_lookup_insert_eq; [done|]. unfold zlength in He. lia.
  - destruct (list_find _ cs) as [[k [i' v]]|]; [done|]. unfold assign_column. cbn.
    rewrite list_lookup_insert_ne by lia. by rewrite zlookup_nonneg.
Qed.

(** * The interface of a row type *)
(** A row is used through a pointer; [St] is the memory of rows.  [None] is a
    failed assertion or an access out of bounds. *)
Class RowType (St : Type) : Type := {
  (** the conversion to [index_type], of the number of a column *)
  row_index : Z -> Z;
  (** [name()] *)
  row_name : list Z;
  row_timestamp : St -> Z -> option Z;
  row_ncol : St -> Z -> option Z;
  row_col : St -> Z -> Z -> option (list Z);
  row_update : Z -> changes -> Z -> St -> option (Z * St);
  row_create : changes -> Z -> St -> option (Z * St);
  row_create1 : list Z -> Z -> St -> option (Z * St);
  row_deallocate_rcu : Z -> St -> option St;
  row_deallocate_rcu_after_update : Z -> changes -> St -> option St }.

(** What a query may rely on: an operation makes the row it should, and every
    other row stays readable until its grace period is over.  A new row is at a
    new address; an update may also change its row in place, which may then keep
    its timestamp. *)
Class RowLaws (St : Type) `{RowType St} : Type := {
  rows_ok : St -> Prop;
  (** a row at an address, with its timestamp and columns *)
  row_at : St -> Z -> Z -> list (list Z) -> Prop;
  (** rows the type has room for *)
  row_fits : list (list Z) -> Prop;
  index_law i : 0 <= i < 2 ^ 15 -> row_index i = i;
  at_timestamp st p ts cols : row_at st p ts cols -> row_timestamp st p = Some ts;
  at_ncol st p ts cols : row_at st p ts cols -> row_ncol st p = Some (zlength cols);
  at_col st p ts cols i : row_at st p ts cols -> 0 <= i < 2 ^ 31 ->
    row_col st p i = Some (default [] (zlookup cols i));
  update_law st p ts0 cols cs ts :
    rows_ok st -> row_at st p ts0 cols -> changes_ok cs -> cs <> [] -> row_fits (put_columns cols cs) -> ts0 <= ts ->
    exists p' st' ts', row_update p cs ts st = Some (p', st') /\ rows_ok st' /\ row_at st' p' ts' (put_columns cols cs) /\
      p' <> 0 /\ (ts' = ts \/ p' = p /\ ts' = ts0) /\
      forall q t c, row_at st q t c -> q = p' /\ p' = p \/ q <> p' /\ row_at st' q t c;
  create_law st cs ts :
    rows_ok st -> changes_ok cs -> cs <> [] -> row_fits (put_columns [] cs) -> 0 <= ts ->
    exists p' st', row_create cs ts st = Some (p', st') /\ rows_ok st' /\ row_at st' p' ts (put_columns [] cs) /\
      p' <> 0 /\ forall q t c, row_at st q t c -> q <> p' /\ row_at st' q t c;
  create1_law st v ts :
    rows_ok st -> row_fits [v] -> 0 <= ts ->
    exists p' st', row_create1 v ts st = Some (p', st') /\ rows_ok st' /\ row_at st' p' ts [v] /\
      p' <> 0 /\ forall q t c, row_at st q t c -> q <> p' /\ row_at st' q t c;
  deallocate_law st p ts cols :
    rows_ok st -> row_at st p ts cols ->
    exists st', row_deallocate_rcu p st = Some st' /\ rows_ok st' /\
      forall q t c, row_at st q t c -> row_at st' q t c;
  deallocate_after_law st p ts cols cs :
    rows_ok st -> row_at st p ts cols -> changes_ok cs ->
    exists st', row_deallocate_rcu_after_update p cs st = Some st' /\ rows_ok st' /\
      forall q t c, row_at st q t c -> row_at st' q t c }.

(** Row types that never change a row: an update is a new row. *)
Class FreshUpdate (St : Type) `{RowLaws St} : Prop :=
  fresh_law st p ts0 cols cs ts p' st' :
    rows_ok st -> row_at st p ts0 cols -> changes_ok cs -> cs <> [] -> row_fits (put_columns cols cs) -> ts0 <= ts ->
    row_update p cs ts st = Some (p', st') -> p' <> p.
