(* ===== verification/ValueBag.v ===== *)
(** Rows as bags of columns, [value_bag] of [src/value_bag.hh]: a row is one
    block that holds the number of columns, where each starts, and their
    bytes. *)
From S2P Require Import Prelude Compiler Memory Row.

Module ValueBag.
Section value_bag.
(** [sizeof(offset_type)]; offsets wrap at its width. *)
Context (osz : Z).

(** [d_] is the memory of [bagdata], addressed from its start. *)
Record value_bag : Type := mkRow { ts_ : Z; d_ : mem }.

Definition sizeof_bagdata : Z := 2 * osz.
Definition sizeof_timestamp : Z := 8.
Definition ncol_ (d : mem) : Z := load_word d (Z.to_nat osz) 0.
Definition pos_ (d : mem) (i : Z) : Z := load_word d (Z.to_nat osz) (osz * (1 + i)).
Definition set_ncol (d : mem) (n : Z) : mem := store_word d (Z.to_nat osz) 0 n.
Definition set_pos (d : mem) (i p : Z) : mem := store_word d (Z.to_nat osz) (osz * (1 + i)) (uwrap (8 * osz) p).

(** [memcpy] from one block to another. *)
Definition copy_from (row : mem) (dst : Z) (old : mem) (src n : Z) : mem := store row dst (load old src n).

(** The block an allocation returns may hold anything: it is the argument
    [fresh] of the functions that allocate. *)
Definition make (fresh : mem) : value_bag := mkRow 0 (set_pos (set_ncol fresh 0) 0 sizeof_bagdata).
Definition timestamp (r : value_bag) : Z := ts_ r.
Definition size (r : value_bag) : Z := sizeof_timestamp + pos_ (d_ r) (ncol_ (d_ r)).
Definition ncol (r : value_bag) : Z := ncol_ (d_ r).
Definition column_length (r : value_bag) (i : Z) : Z := uwrap (8 * osz) (pos_ (d_ r) (i + 1) - pos_ (d_ r) i).
(** The bytes of a column; a column that is not there is empty. *)
Definition col (r : value_bag) (i : Z) : list Z :=
  if uwrap 32 i <? uwrap 32 (ncol_ (d_ r)) then load (d_ r) (pos_ (d_ r) i) (column_length r i) else [].
Definition row_string (r : value_bag) : list Z := load (d_ r) 0 (pos_ (d_ r) (ncol_ (d_ r))).

(** ** [update] *)
(** The first loop: the size of the new row and its number of columns. *)
Fixpoint measure (r : value_bag) (cs : changes) (sz n : Z) : Z * Z :=
  match cs with
  | [] => (sz, n)
  | (idx, v) :: cs =>
      let sz := sz + zlength v in
      if idx <? ncol_ (d_ r) then measure r cs (sz - column_length r idx) n else measure r cs sz (idx + 1)
  end.
Definition new_size (r : value_bag) (cs : changes) : Z * Z :=
  let '(sz, n) := measure r cs (size r) (ncol_ (d_ r)) in
  (if ncol_ (d_ r) <? n then sz + (n - ncol_ (d_ r)) * osz else sz, n).

(** [for (i = col; i < end_col; ++i) row->d_.pos_[i] = d_.pos_[i] + delta]. *)
Fixpoint copy_pos (k : nat) (old row : mem) (i delta : Z) : mem :=
  match k with
  | O => row
  | S k => copy_pos k old (set_pos row i (pos_ old i + delta)) (i + 1) delta
  end.
(** The copy of columns [c] up to [this_col] of the old row: the row, the
    position and the column after it. *)
Definition copy_old (old row : mem) (sz c this_col : Z) : mem * Z * Z :=
  if negb (c =? this_col) && (c <? ncol_ old) then
    let end_col := Z.min this_col (ncol_ old) in
    let delta := sz - pos_ old c in
    let row :=
      if delta =? 0 then copy_from row (osz * (1 + c)) old (osz * (1 + c)) (osz * (end_col - c))
      else copy_pos (Z.to_nat (end_col - c)) old row c delta in
    let amt := pos_ old end_col - pos_ old c in
    (copy_from row sz old (pos_ old c) amt, sz + amt, end_col)
  else (row, sz, c).
(** [while (col != this_col)]. *)
Fixpoint mark_empty (k : nat) (row : mem) (sz c : Z) : mem :=
  match k with O => row | S k => mark_empty k (set_pos row c sz) sz (c + 1) end.
(** The main loop, for a new row of [n] columns; it does not end when the
    columns do not increase. *)
Fixpoint update_loop (old : mem) (n : Z) (cs : changes) (row : mem) (sz c : Z) : option (mem * Z) :=
  let this_col := match cs with (idx, _) :: _ => idx | [] => n end in
  if this_col <? c then None
  else
    let '(row, sz, c) := copy_old old row sz c this_col in
    let row := mark_empty (Z.to_nat (this_col - c)) row sz c in
    if this_col =? n then Some (row, sz)
    else match cs with
      | [] => None
      | (_, v) :: cs => update_loop old n cs (store (set_pos row this_col sz) sz v) (sz + zlength v) (this_col + 1)
      end.
(** The new row, and the size of the block allocated for it. *)
Definition update (fresh : mem) (r : value_bag) (cs : changes) (ts : Z) : option (value_bag * Z) :=
  let '(sz, n) := new_size r cs in
  let slow :=
    let start := sizeof_bagdata + n * osz in
    x ← update_loop (d_ r) n cs (set_ncol fresh n) start 0;
    let '(row, sz') := x in
    Some (mkRow ts (set_pos row n sz'), sz) in
  match cs with
  | [(idx, v)] =>
      if (n =? ncol_ (d_ r)) && (sz =? size r) && (zlength v <=? 16) then
        let row := copy_from fresh 0 (d_ r) 0 (sz - sizeof_timestamp) in
        Some (mkRow ts (store row (pos_ (d_ r) idx) v), sz)
      else slow
  | _ => slow
  end.
Definition create (fresh0 fresh : mem) (cs : changes) (ts : Z) : option (value_bag * Z) :=
  update fresh (make fresh0) cs ts.
Definition create1 (fresh : mem) (str : list Z) (ts : Z) : value_bag * Z :=
  let d := set_ncol fresh 1 in
  let d := set_pos d 0 (sizeof_bagdata + osz) in
  let d := set_pos d 1 (sizeof_bagdata + osz + zlength str) in
  (mkRow ts (store d (pos_ d 0) str), sizeof_timestamp + sizeof_bagdata + osz + zlength str).

(** ** Checkpoints *)
Definition checkpoint_write (r : value_bag) : list Z := load (d_ r) 0 (pos_ (d_ r) (ncol_ (d_ r))).
Definition checkpoint_read (fresh : mem) (value : list Z) (ts : Z) : value_bag * Z :=
  (mkRow ts (store fresh 0 value), sizeof_timestamp + zlength value).

(** ** Rows in memory *)
(** Rows by address; [retired_] are the blocks given to [deallocate_rcu] and
    [freed_] to [deallocate], each with the size it was given. *)
Record bags : Type := mkBags {
  rows_ : gmap Z value_bag; next_ : Z; retired_ : list (Z * Z); freed_ : list (Z * Z) }.

(** What a fresh block holds. *)
Context (junk : Z -> mem).

(** A new row of [sz] bytes at the next address. *)
Definition place (r : value_bag) (sz : Z) (st : bags) : Z * bags :=
  (next_ st, mkBags (<[next_ st := r]> (rows_ st)) (next_ st + Z.max 1 sz) (retired_ st) (freed_ st)).
Definition update_at (p : Z) (cs : changes) (ts : Z) (st : bags) : option (Z * bags) :=
  r ← rows_ st !! p; x ← update (junk (next_ st)) r cs ts; Some (place (fst x) (snd x) st).
Definition create_at (cs : changes) (ts : Z) (st : bags) : option (Z * bags) :=
  x ← create (fun _ => 0) (junk (next_ st)) cs ts; Some (place (fst x) (snd x) st).
Definition create1_at (v : list Z) (ts : Z) (st : bags) : option (Z * bags) :=
  let x := create1 (junk (next_ st)) v ts in Some (place (fst x) (snd x) st).
Definition deallocate_rcu (p : Z) (st : bags) : option bags :=
  r ← rows_ st !! p; Some (mkBags (rows_ st) (next_ st) (retired_ st ++ [(p, size r)]) (freed_ st)).
Definition deallocate_rcu_after_update (p : Z) (cs : changes) (st : bags) : option bags := deallocate_rcu p st.
Definition deallocate (p : Z) (st : bags) : option bags :=
  r ← rows_ st !! p; Some (mkBags (delete p (rows_ st)) (next_ st) (retired_ st) (freed_ st ++ [(p, size r)])).
Definition deallocate_after_failed_update (p : Z) (cs : changes) (st : bags) : option bags := deallocate p st.

#[global] Instance bag_type : RowType bags := {
  row_index := swrap 16;
  row_name := [66; 97; 103];
  row_timestamp st p := ts_ <$> rows_ st !! p;
  row_ncol st p := ncol <$> rows_ st !! p;
  row_col st p i := (fun r => col r i) <$> rows_ st !! p;
  row_update := update_at;
  row_create := create_at;
  row_create1 := create1_at;
  row_deallocate_rcu := deallocate_rcu;
  row_deallocate_rcu_after_update := deallocate_rcu_after_update }.
End value_bag.
End ValueBag.
