(* ===== verification/BagSpec.v ===== *)
(** What [ValueBag] computes: a bag stands for a list of columns, and its
    operations act on the list. *)
From S2P Require Import Prelude Compiler Memory Row ValueBag.
Import ValueBag.

(** * Bags as lists of columns *)
Section bags.
Context (osz : Z) (Hosz : 0 < osz).
Notation pos := (pos_ osz).
Notation ncols := (ncol_ osz).

Definition offset_ok (p : Z) : Prop := in_u (8 * osz) p.
(** Where the bytes of a row of [n] columns start. *)
Definition start (n : Z) : Z := sizeof_bagdata osz + n * osz.
(** The size of [bagdata] for the columns [cs]. *)
Definition extent (cs : list (list Z)) : Z := start (zlength cs) + zlength (concat cs).

(** [d] holds the columns [cs], one after the other. *)
Record bag_rep (d : mem) (cs : list (list Z)) : Prop := {
  br_ncol : ncols d = zlength cs;
  br_pos : forall j, 0 <= j <= zlength cs ->
    pos d j = start (zlength cs) + zlength (concat (take (Z.to_nat j) cs));
  br_data : load d (start (zlength cs)) (zlength (concat cs)) = concat cs;
  br_fits : offset_ok (extent cs) }.

Lemma pow_osz x : x mod 256 ^ Z.of_nat (Z.to_nat osz) = uwrap (8 * osz) x.
Proof using Hosz.
  rewrite Z2Nat.id by lia. unfold uwrap. change 256 with (2 ^ 8). by rewrite <- Z.pow_mul_r by lia.
Qed.
Lemma pos_set_same d i p : pos (set_pos osz d i p) i = uwrap (8 * osz) p.
Proof using Hosz. unfold pos_, set_pos. rewrite load_word_store, pow_osz. apply uwrap_idem. Qed.
Lemma ncol_set_same d n : offset_ok n -> ncols (set_ncol osz d n) = n.
Proof using Hosz. intros. unfold ncol_, set_ncol. by rewrite load_word_store, pow_osz, uwrap_id. Qed.
Lemma set_pos_other d i p x : x < osz * (1 + i) \/ osz * (2 + i) <= x -> set_pos osz d i p x = d x.
Proof using Hosz. intros. unfold set_pos. apply store_word_other. lia. Qed.

(** [row'] is [row] with the positions [f] in the columns from [c] to [e]. *)
Record pos_written (row row' : mem) (c e : Z) (f : Z -> Z) : Prop := {
  pw_pos : forall j, c <= j < e -> pos row' j = f j;
  pw_other : forall x, x < osz * (1 + c) \/ osz * (1 + e) <= x -> row' x = row x }.

Lemma pos_ext d d' j : (forall x, osz * (1 + j) <= x < osz * (2 + j) -> d x = d' x) -> pos d j = pos d' j.
Proof using Hosz. intros H. unfold pos_. apply load_word_ext. intros x Hx. apply H. lia. Qed.

Lemma pos_written_refl row c f : pos_written row row c c f.
Proof using Type. split; [lia|done]. Qed.
Lemma pos_written_step row row' c e f p :
  0 <= c <= e -> pos_written row row' c e f -> uwrap (8 * osz) p = f e ->
  pos_written row (set_pos osz row' e p) c (e + 1) f.
Proof using Hosz.
  intros Hc [Hp Ho] Hf. split.
  - intros j Hj. destruct (Z.eq_dec j e) as [->|]; [by rewrite pos_set_same|].
    rewrite <- Hp by lia. apply pos_ext. intros x Hx. apply set_pos_other. nia.
  - intros x Hx. rewrite set_pos_other by nia. apply Ho. nia.
Qed.
Lemma pos_written_first row c e p f :
  0 <= c < e -> uwrap (8 * osz) p = f c ->
  forall row', pos_written (set_pos osz row c p) row' (c + 1) e f -> pos_written row row' c e f.
Proof using Hosz.
  intros Hc Hf row' [Hp Ho]. split.
  - intros j Hj. destruct (Z.eq_dec j c) as [->|]; [|apply Hp; lia].
    rewrite <- Hf, <- (pos_set_same row c p). apply pos_ext. intros x Hx. apply Ho. nia.
  - intros x Hx. rewrite Ho by nia. apply set_pos_other. nia.
Qed.

Lemma pos_written_ext row row' c e f g :
  (forall j, c <= j < e -> f j = g j) -> pos_written row row' c e f -> pos_written row row' c e g.
Proof using Type. intros H [Hp Ho]. split; [|done]. intros j Hj. by rewrite Hp, H. Qed.

Lemma copy_pos_written k : forall old row i delta f, 0 <= i ->
  (forall j, i <= j < i + Z.of_nat k -> uwrap (8 * osz) (pos old j + delta) = f j) ->
  pos_written row (copy_pos osz k old row i delta) i (i + Z.of_nat k) f.
Proof using Hosz.
  induction k as [|k IH]; intros old row i delta f Hi Hf.
  - rewrite Z.add_0_r. apply pos_written_refl.
  - cbn [copy_pos]. eapply pos_written_first; [lia|apply Hf; lia|].
    replace (i + Z.of_nat (S k)) with (i + 1 + Z.of_nat k) by lia. apply IH; [lia|]. intros j Hj. apply Hf. lia.
Qed.
Lemma mark_empty_written k : forall row sz c, 0 <= c ->
  pos_written row (mark_empty osz k row sz c) c (c + Z.of_nat k) (fun _ => uwrap (8 * osz) sz).
Proof using Hosz.
  induction k as [|k IH]; intros row sz c Hc.
  - rewrite Z.add_0_r. apply pos_written_refl.
  - cbn [mark_empty]. eapply pos_written_first; [lia|done|].
    replace (c + Z.of_nat (S k)) with (c + 1 + Z.of_nat k) by lia. apply IH. lia.
Qed.
Lemma copy_from_written old row c e :
  0 <= c <= e ->
  pos_written row (copy_from row (osz * (1 + c)) old (osz * (1 + c)) (osz * (e - c))) c e (pos old).
Proof using Hosz.
  intros Hc. unfold copy_from. split.
  - intros j Hj. unfold pos_, load_word. rewrite Z2Nat.id by lia. f_equal.
    replace (osz * (1 + j)) with (osz * (1 + c) + osz * (j - c)) at 1 by lia.
    rewrite load_store_inside by (rewrite ?zlength_load; nia).
    rewrite drop_load, take_load by nia. f_equal; lia.
  - intros x Hx. apply store_other. rewrite zlength_load; nia.
Qed.

(** * Building a row *)
(** [row], in a block of [lim] bytes that held [fresh], is a row of [n] columns
    of which the first ones, [cs], are in place. *)
Record built (fresh : mem) (lim n : Z) (row : mem) (cs : list (list Z)) : Prop := {
  bu_ncol : ncols row = n;
  bu_pos : forall j, 0 <= j < zlength cs -> pos row j = start n + zlength (concat (take (Z.to_nat j) cs));
  bu_data : load row (start n) (zlength (concat cs)) = concat cs;
  bu_out : forall x, x < 0 \/ lim <= x -> row x = fresh x }.

Lemma concat_take_app (cs vs : list (list Z)) j :
  zlength cs <= j -> zlength (concat (take (Z.to_nat j) (cs ++ vs))) =
  zlength (concat cs) + zlength (concat (take (Z.to_nat (j - zlength cs)) vs)).
Proof using Type.
  unfold zlength at 1. intros Hj. rewrite take_app, take_ge, concat_app, zlength_app by lia.
  do 4 f_equal. unfold zlength. lia.
Qed.

(** The step of every case: the positions of the columns [vs], and their bytes. *)
Lemma built_extend fresh lim n row cs vs row1 row2 :
  built fresh lim n row cs -> zlength (cs ++ vs) <= n -> start n + zlength (concat (cs ++ vs)) <= lim ->
  let c := zlength cs in let sz := start n + zlength (concat cs) in
  pos_written row row1 c (c + zlength vs) (fun j => sz + zlength (concat (take (Z.to_nat (j - c)) vs))) ->
  load row2 sz (zlength (concat vs)) = concat vs ->
  (forall x, x < sz \/ sz + zlength (concat vs) <= x -> row2 x = row1 x) ->
  built fresh lim n row2 (cs ++ vs).
Proof using Hosz.
  intros [Hn Hp Hd Ho] Hvs Hlim c sz [Hwp Hwo] Hl2 Ho2.
  rewrite zlength_app in Hvs. rewrite concat_app, zlength_app in Hlim.
  pose proof (zlength_nonneg cs). pose proof (zlength_nonneg vs).
  pose proof (zlength_nonneg (concat cs)). pose proof (zlength_nonneg (concat vs)).
  assert (start n = osz * (2 + n)) as Hs by (unfold start, sizeof_bagdata; lia).
  assert (forall x, x < osz * (2 + n) -> row2 x = row1 x) as Hlow by (intros; apply Ho2; unfold sz; lia).
  split.
  - rewrite <- Hn. unfold ncol_. apply load_word_ext. intros x Hx. rewrite Hlow by nia. apply Hwo. nia.
  - intros j Hj. rewrite zlength_app in Hj. rewrite (pos_ext row2 row1) by (intros; apply Hlow; nia).
    destruct (Z.lt_ge_cases j c).
    + rewrite (pos_ext row1 row) by (intros; apply Hwo; nia). rewrite Hp by (unfold c in *; lia).
      rewrite take_app_le; [done|]. unfold c, zlength in *. lia.
    + rewrite Hwp by (unfold c in *; lia). rewrite concat_take_app by (unfold c in *; lia). unfold sz, c. lia.
  - rewrite concat_app, zlength_app, load_app by lia. f_equal; [|exact Hl2].
    rewrite <- Hd at 2. apply load_ext. intros i Hi.
    rewrite Ho2 by (unfold sz; lia). apply Hwo. unfold c. nia.
  - intros x Hx. rewrite Ho2 by (unfold sz; unfold sizeof_bagdata in *; nia).
    rewrite Hwo by (unfold c; nia). by apply Ho.
Qed.

Lemma concat_empties k : concat (replicate k ([] : list Z)) = [].
Proof using Type. induction k; cbn; auto. Qed.
Lemma extent_wrap n lim (cs vs : list (list Z)) : 0 <= n -> offset_ok lim -> start n + zlength (concat (cs ++ vs)) <= lim ->
  uwrap (8 * osz) (start n + zlength (concat cs)) = start n + zlength (concat cs).
Proof using Hosz.
  intros Hn Hl H. rewrite concat_app, zlength_app in H. pose proof (zlength_nonneg (concat cs)).
  pose proof (zlength_nonneg (concat vs)). apply uwrap_id.
  unfold offset_ok, in_u, start, sizeof_bagdata in *. nia.
Qed.

(** Columns [c] to [e] of a row whose old columns are [cols]. *)
Definition old_columns (cols : list (list Z)) (c e : Z) : list (list Z) :=
  map (fun i => default [] (zlookup cols i)) (seqZ c (e - c)).

Lemma zlength_old cols c e : c <= e -> zlength (old_columns cols c e) = e - c.
Proof using Type. intros. unfold zlength, old_columns. rewrite length_map, length_seqZ. lia. Qed.
Lemma old_columns_split cols c d e :
  c <= d <= e -> old_columns cols c e = old_columns cols c d ++ old_columns cols d e.
Proof using Type.
  intros. unfold old_columns. rewrite <- map_app. f_equal.
  replace (e - c) with ((d - c) + (e - d)) by lia. rewrite seqZ_app by lia. do 2 f_equal. lia.
Qed.
Lemma old_columns_take cols c e :
  0 <= c -> c <= e <= zlength cols -> old_columns cols c e = take (Z.to_nat (e - c)) (drop (Z.to_nat c) cols).
Proof using Type.
  intros Hc He. apply list_eq. intros i. unfold old_columns.
  destruct (decide (i < Z.to_nat (e - c))%nat).
  - rewrite list_lookup_fmap, lookup_seqZ_lt, lookup_take_lt, lookup_drop by lia. cbn.
    rewrite zlookup_nonneg by lia. replace (Z.to_nat (c + Z.of_nat i)) with (Z.to_nat c + i)%nat by lia.
    destruct (cols !! (Z.to_nat c + i)%nat) eqn:E; [done|].
    apply lookup_ge_None in E. unfold zlength in He. lia.
  - rewrite lookup_ge_None_2 by (rewrite length_map, length_seqZ; lia).
    by rewrite lookup_ge_None_2 by (rewrite length_take; lia).
Qed.
Lemma old_columns_beyond cols c e :
  zlength cols <= c -> old_columns cols c e = replicate (Z.to_nat (e - c)) [].
Proof using Type.
  intros Hc. apply list_eq. intros i. unfold old_columns.
  destruct (decide (i < Z.to_nat (e - c))%nat).
  - rewrite list_lookup_fmap, lookup_seqZ_lt by lia. cbn. rewrite zlookup_ge by lia.
    symmetry. apply lookup_replicate_2. lia.
  - rewrite lookup_ge_None_2 by (rewrite length_map, length_seqZ; lia).
    by rewrite lookup_ge_None_2 by (rewrite length_replicate; lia).
Qed.

Section steps.
Context (old : mem) (cols : list (list Z)) (Hold : bag_rep old cols).
Context (fresh : mem) (lim n : Z) (Hlim : offset_ok lim) (Hn : zlength cols <= n).

Lemma concat_slice i j :
  0 <= i <= j -> zlength (concat (take (Z.to_nat j) cols)) =
  zlength (concat (take (Z.to_nat i) cols)) + zlength (concat (take (Z.to_nat (j - i)) (drop (Z.to_nat i) cols))).
Proof using Type.
  intros. replace (Z.to_nat j) with (Z.to_nat i + Z.to_nat (j - i))%nat by lia.
  by rewrite <- take_take_drop, concat_app, zlength_app.
Qed.

(** The part of the old row with columns [c] to [d]. *)
Lemma old_slice c d :
  0 <= c -> c <= d <= zlength cols ->
  let vs := old_columns cols c d in
  pos old d - pos old c = zlength (concat vs) /\ load old (pos old c) (zlength (concat vs)) = concat vs /\
  forall j, c <= j < d -> pos old j = pos old c + zlength (concat (take (Z.to_nat (j - c)) vs)).
Proof using Hold.
  intros Hc Hd vs. destruct Hold as [Hon Hop Hod Hof].
  assert (vs = take (Z.to_nat (d - c)) (drop (Z.to_nat c) cols)) as Hvt
    by (unfold vs; rewrite old_columns_take; lia || done).
  pose proof (zlength_nonneg (concat vs)). pose proof (zlength_nonneg (concat (take (Z.to_nat c) cols))).
  split_and!.
  - rewrite !Hop, (concat_slice c d), <- Hvt by lia. lia.
  - rewrite Hop by lia.
    assert (concat cols = concat (take (Z.to_nat c) cols) ++ concat vs ++ concat (drop (Z.to_nat d) cols)) as Hcat.
    { rewrite Hvt, <- !concat_app. f_equal. rewrite app_assoc, take_take_drop.
      replace (Z.to_nat c + Z.to_nat (d - c))%nat with (Z.to_nat d) by lia. by rewrite take_drop. }
    rewrite Hcat, !zlength_app, !load_app in Hod
      by (pose proof (zlength_nonneg (concat (drop (Z.to_nat d) cols))); lia).
    apply app_inj_1 in Hod as [_ Hod]; [|rewrite length_load; unfold zlength; lia].
    apply app_inj_1 in Hod as [Hod _]; [done|rewrite length_load; unfold zlength; lia].
  - intros j Hj. rewrite !Hop, (concat_slice c j), Hvt, take_take by lia.
    replace (Z.to_nat (j - c) `min` Z.to_nat (d - c))%nat with (Z.to_nat (j - c)) by lia. lia.
Qed.

Lemma new_offset_ok (cs vs : list (list Z)) k :
  start n + zlength (concat (cs ++ vs)) <= lim ->
  offset_ok (start n + zlength (concat cs) + zlength (concat (take k vs))).
Proof using Hosz Hlim Hn.
  rewrite <- (take_drop k vs) at 1. rewrite !concat_app, !zlength_app.
  pose proof (zlength_nonneg (concat cs)). pose proof (zlength_nonneg (concat (take k vs))).
  pose proof (zlength_nonneg (concat (drop k vs))). pose proof (zlength_nonneg cols).
  unfold offset_ok, in_u, start, sizeof_bagdata in *. nia.
Qed.

Lemma copy_old_built row cs e :
  let c := zlength cs in let vs := old_columns cols c (Z.min e (zlength cols)) in
  built fresh lim n row cs -> c <= e <= n -> c < zlength cols -> start n + zlength (concat (cs ++ vs)) <= lim ->
  exists row', copy_old osz old row (start n + zlength (concat cs)) c e =
      (row', start n + zlength (concat (cs ++ vs)), c + zlength vs) /\
    built fresh lim n row' (cs ++ vs).
Proof using Hosz Hold Hlim Hn.
  intros c vs Hb He Hcn Hfit. pose proof (zlength_nonneg cs) as Hc. fold c in Hc.
  set (sz := start n + zlength (concat cs)). unfold copy_old. rewrite (br_ncol _ _ Hold).
  destruct (Z.eqb_spec c e) as [->|Hne]; cbn [negb andb].
  { exists row. unfold vs. rewrite Z.min_l by lia. unfold old_columns. rewrite Z.sub_diag. cbn.
    by rewrite app_nil_r, Z.add_0_r. }
  destruct (Z.ltb_spec c (zlength cols)); [|lia]. cbn [andb]. set (d := Z.min e (zlength cols)) in *.
  assert (zlength vs = d - c) as Hvs by (unfold vs; rewrite zlength_old; lia).
  destruct (old_slice c d) as (Hamt & Hbytes & Hpos); [lia|lia|]. fold vs in Hamt, Hbytes, Hpos.
  set (f := fun j => sz + zlength (concat (take (Z.to_nat (j - c)) vs))).
  assert (forall j, c <= j < d -> pos old j + (sz - pos old c) = f j) as Hf
    by (intros j Hj; unfold f; rewrite (Hpos j) by lia; lia).
  eexists. split.
  { apply f_equal2; [apply f_equal2; [reflexivity|]|]; rewrite ?Hamt, ?concat_app, ?zlength_app; unfold sz; lia. }
  eapply built_extend; [exact Hb|rewrite zlength_app; fold c; lia|done|..]; fold c sz.
  - replace (c + zlength vs) with d by lia. instantiate (1 :=
      (if sz - pos old c =? 0 then copy_from row (osz * (1 + c)) old (osz * (1 + c)) (osz * (d - c))
       else copy_pos osz (Z.to_nat (d - c)) old row c (sz - pos old c))).
    match goal with |- pos_written _ ?r _ _ _ => enough (pos_written row r c d f) as Hw by exact Hw end.
    destruct (Z.eqb_spec (sz - pos old c) 0) as [Hz|_].
    + destruct (copy_from_written old row c d) as [Hp Ho]; [lia|]. split; [|done].
      intros j Hj. rewrite Hp, <- Hf by done. lia.
    + replace d with (c + Z.of_nat (Z.to_nat (d - c))) at 2 by lia.
      apply copy_pos_written; [lia|]. intros j Hj. rewrite Hf by lia. by apply uwrap_id, new_offset_ok.
  - rewrite Hamt. unfold copy_from. rewrite Hbytes. apply load_store_same.
  - intros x Hx. rewrite Hamt. unfold copy_from. apply store_other. rewrite zlength_load by apply zlength_nonneg. done.
Qed.

(** [for] the columns up to [e], whether the old row has them or not. *)
Lemma fill_built row cs e :
  let c := zlength cs in let vs := old_columns cols c e in
  built fresh lim n row cs -> c <= e <= n -> start n + zlength (concat (cs ++ vs)) <= lim ->
  exists row1 sz1 c1, copy_old osz old row (start n + zlength (concat cs)) c e = (row1, sz1, c1) /\
    sz1 = start n + zlength (concat (cs ++ vs)) /\
    built fresh lim n (mark_empty osz (Z.to_nat (e - c1)) row1 sz1 c1) (cs ++ vs).
Proof using Hosz Hold Hlim Hn.
  intros c vs Hb He Hfit. pose proof (zlength_nonneg cs) as Hc. fold c in Hc.
  assert (exists row1 ws, copy_old osz old row (start n + zlength (concat cs)) c e =
      (row1, start n + zlength (concat (cs ++ ws)), c + zlength ws) /\ built fresh lim n row1 (cs ++ ws) /\
      zlength ws <= e - c /\ vs = ws ++ replicate (Z.to_nat (e - (c + zlength ws))) []) as (row1 & ws & Hco & Hb1 & Hws & Hvs).
  { destruct (Z.lt_ge_cases c (zlength cols)) as [Hlt|Hge].
    - set (d := Z.min e (zlength cols)).
      assert (vs = old_columns cols c d ++ replicate (Z.to_nat (e - d)) []) as Hvs.
      { unfold vs. rewrite (old_columns_split cols c d e) by lia. f_equal.
        destruct (Z.le_gt_cases e (zlength cols)).
        - replace d with e by lia. unfold old_columns. by rewrite Z.sub_diag.
        - apply old_columns_beyond. lia. }
      destruct (copy_old_built row cs e) as (row1 & H1 & H2); [done|lia|done|..].
      { fold c d. rewrite Hvs, app_assoc, concat_app, concat_empties, app_nil_r in Hfit. done. }
      fold c d in H1, H2. exists row1, (old_columns cols c d).
      assert (zlength (old_columns cols c d) = d - c) as Hl by (rewrite zlength_old; lia).
      split_and!; [done|done|lia|]. rewrite Hl, Hvs. do 3 f_equal. lia.
    - exists row, []. unfold copy_old. rewrite (br_ncol _ _ Hold).
      replace (c <? zlength cols) with false by (symmetry; by apply Z.ltb_ge). rewrite andb_false_r.
      rewrite app_nil_r. change (zlength (@nil (list Z))) with 0. rewrite Z.add_0_r.
      split_and!; [done|done|lia|]. by apply old_columns_beyond. }
  eexists row1, _, _. split; [exact Hco|].
  assert (concat (cs ++ vs) = concat (cs ++ ws)) as Hcc by (by rewrite Hvs, app_assoc, concat_app, concat_empties, app_nil_r).
  split; [by rewrite Hcc|]. rewrite Hvs, app_assoc. set (k := Z.to_nat (e - (c + zlength ws))) in *.
  assert (zlength (cs ++ ws) = c + zlength ws) as Hl by (by rewrite zlength_app).
  eapply built_extend; [exact Hb1|rewrite zlength_app, Hl, zlength_replicate; lia|..].
  - by rewrite concat_app, concat_empties, app_nil_r, <- Hcc.
  - rewrite Hl, zlength_replicate. eapply pos_written_ext; [|apply mark_empty_written; pose proof (zlength_nonneg ws); lia].
    intros j _. cbv beta. rewrite take_replicate, concat_empties. change (zlength (@nil Z)) with 0. rewrite Z.add_0_r.
    apply uwrap_id. replace (start n + zlength (concat (cs ++ ws)))
      with (start n + zlength (concat (cs ++ ws)) + zlength (concat (take 0 ([] : list (list Z))))) by (unfold zlength; cbn; lia).
    apply new_offset_ok. by rewrite app_nil_r, <- Hcc.
  - rewrite concat_empties. by rewrite load_0.
  - done.
Qed.

(** [rest cs c]: the new columns from [c] on, for the changes [cs] in columns
    from [c] on. *)
Fixpoint rest (cs : changes) (c : Z) : list (list Z) :=
  match cs with
  | [] => old_columns cols c n
  | (idx, v) :: cs => old_columns cols c idx ++ v :: rest cs (idx + 1)
  end.

Lemma value_built row cs v :
  let c := zlength cs in let sz := start n + zlength (concat cs) in
  built fresh lim n row cs -> c < n -> start n + zlength (concat (cs ++ [v])) <= lim ->
  built fresh lim n (store (set_pos osz row c sz) sz v) (cs ++ [v]).
Proof using Hosz Hlim Hn.
  intros c sz Hb Hc Hfit. pose proof (zlength_nonneg cs).
  eapply built_extend; [exact Hb|rewrite zlength_app; change (zlength [v]) with 1; lia|done|..];
    fold c sz; rewrite ?app_nil_r; cbn [concat].
  - change (zlength [v]) with 1. apply pos_written_step; [lia|apply pos_written_refl|].
    rewrite Z.sub_diag. change (zlength (concat (take (Z.to_nat 0) [v]))) with 0. rewrite Z.add_0_r. apply uwrap_id.
    pose proof (new_offset_ok cs [v] 0 Hfit) as Ho. change (zlength (concat (take 0 [v]))) with 0 in Ho.
    by rewrite Z.add_0_r in Ho.
  - rewrite app_nil_r. apply load_store_same.
  - rewrite app_nil_r. intros x Hx. by apply store_other.
Qed.

Lemma update_loop_built cs : forall row done,
  let c := zlength done in
  built fresh lim n row done -> increasing cs c n -> start n + zlength (concat (done ++ rest cs c)) <= lim ->
  exists row', update_loop osz old n cs row (start n + zlength (concat done)) c =
      Some (row', start n + zlength (concat (done ++ rest cs c))) /\
    built fresh lim n row' (done ++ rest cs c).
Proof using Hosz Hold Hlim Hn.
  induction cs as [|[idx v] cs IH]; intros row ds c Hb Hinc Hfit; cbn [update_loop rest increasing] in *.
  - replace (n <? c) with false by (symmetry; by apply Z.ltb_ge). rewrite Z.eqb_refl.
    destruct (fill_built row ds n Hb) as (row1 & sz1 & c1 & Hco & -> & Hb1); [fold c; lia|done|].
    fold c in Hco, Hb1. rewrite Hco. eauto.
  - destruct Hinc as [Hle Hinc]. pose proof (increasing_bound _ _ _ Hinc).
    replace (idx <? c) with false by (symmetry; by apply Z.ltb_ge).
    set (vs := old_columns cols c idx) in *. rewrite (app_assoc ds), (cons_middle v), (app_assoc _ [v]) in Hfit |- *.
    assert (zlength (ds ++ vs) = idx) as Hl by (unfold vs; rewrite zlength_app, zlength_old by lia; fold c; lia).
    pose proof Hfit as Hfit1. rewrite concat_app, zlength_app in Hfit1.
    pose proof (zlength_nonneg (concat (rest cs (idx + 1)))).
    pose proof Hfit1 as Hfit2. rewrite concat_app, zlength_app in Hfit2. pose proof (zlength_nonneg (concat [v])).
    destruct (fill_built row ds idx Hb) as (row1 & sz1 & c1 & Hco & -> & Hb1); [fold c; lia|fold c vs; lia|].
    fold c vs in Hco, Hb1. rewrite Hco. replace (idx =? n) with false by (symmetry; apply Z.eqb_neq; lia).
    apply (value_built _ _ v) in Hb1; [|rewrite Hl; lia|lia].
    rewrite Hl in Hb1. fold c vs in Hb1 |- *. 
    assert (zlength ((ds ++ vs) ++ [v]) = idx + 1) as Hl' by (by rewrite zlength_app, Hl).
    destruct (IH _ _ Hb1) as (row' & Hrun & Hb'); [by rewrite Hl'|by rewrite Hl'|].
    rewrite Hl' in Hrun, Hb'. exists row'. split; [|done]. rewrite <- Hrun. f_equal.
    rewrite (concat_app _ [v]), zlength_app. cbn. rewrite app_nil_r. lia.
Qed.
End steps.

(** * What [update] does *)
Lemma rest_columns cols cs n : forall c l, increasing cs c n -> 0 <= c ->
  (forall i, (Z.to_nat c <= i < Z.to_nat n)%nat -> l !! i = Some (default [] (cols !! i))) -> zlength l = n ->
  rest cols n cs c = drop (Z.to_nat c) (foldl assign_column l cs).
Proof using Type.
  induction cs as [|[j w] cs IH]; intros c l H Hc Hl Hn; cbn [rest foldl increasing] in *.
  - apply list_eq. intros i. unfold old_columns. rewrite lookup_drop, list_lookup_fmap.
    destruct (decide (i < Z.to_nat (n - c))%nat).
    + rewrite lookup_seqZ_lt, Hl by lia. cbn. rewrite zlookup_nonneg by lia. do 3 f_equal. lia.
    + rewrite (lookup_ge_None_2 (seqZ _ _)) by (rewrite length_seqZ; lia).
      symmetry. apply lookup_ge_None_2. unfold zlength in Hn. lia.
  - destruct H as [H1 H2]. pose proof (increasing_bound _ _ _ H2).
    set (l' := assign_column l (j, w)). assert (zlength l' = n) as Hl' by (unfold l', assign_column, zlength; by rewrite length_insert).
    rewrite (IH (j + 1) l') by (done || lia || (intros i Hi; unfold l', assign_column; cbn;
      rewrite list_lookup_insert_ne by lia; apply Hl; lia)).
    set (L := foldl assign_column l' cs). assert (zlength L = n) as HL by (unfold L; by rewrite zlength_assign).
    assert (L !! Z.to_nat j = Some w) as Hj.
    { unfold L. rewrite (assign_below cs (j + 1) n) by (done || lia). apply list_lookup_insert_eq.
      cbn. unfold zlength in Hn. lia. }
    rewrite <- (take_drop (Z.to_nat (j - c)) (drop (Z.to_nat c) L)), drop_drop.
    replace (Z.to_nat c + Z.to_nat (j - c))%nat with (Z.to_nat j) by lia. f_equal.
    + apply list_eq. intros i. unfold old_columns. rewrite list_lookup_fmap.
      destruct (decide (i < Z.to_nat (j - c))%nat).
      * rewrite lookup_seqZ_lt, lookup_take_lt, lookup_drop by lia. cbn. rewrite zlookup_nonneg by lia. unfold L.
        rewrite (assign_below cs (j + 1) n) by (done || lia). unfold l', assign_column. cbn.
        rewrite list_lookup_insert_ne, Hl by lia. do 3 f_equal. lia.
      * rewrite (lookup_ge_None_2 (seqZ _ _)) by (rewrite length_seqZ; lia).
        symmetry. apply lookup_ge_None_2. rewrite length_take. lia.
    + rewrite (drop_S _ _ _ Hj). do 2 f_equal. lia.
Qed.

Lemma rest_put cols cs : changes_ok cs -> rest cols (new_ncol cols cs) cs 0 = put_columns cols cs.
Proof using Type.
  intros [e He]. pose proof (new_ncol_ge cs (zlength cols)) as Hge. fold (new_ncol cols cs) in Hge.
  pose proof (zlength_nonneg cols). set (n := new_ncol cols cs) in *.
  rewrite (rest_columns _ _ _ _ (cols ++ replicate (Z.to_nat (n - zlength cols)) [])); [done|..].
  - eapply increasing_end; [done| |lia]. intros i v. apply new_ncol_fits.
  - lia.
  - intros i Hi. destruct (decide (i < length cols)%nat) as [Hlt|].
    + rewrite lookup_app_l by done. by destruct (lookup_lt_is_Some_2 _ _ Hlt) as [x ->].
    + rewrite lookup_app_r, (lookup_ge_None_2 cols) by lia. apply lookup_replicate_2. unfold zlength. lia.
  - rewrite zlength_app, zlength_replicate. lia.
Qed.

(** ** Reading a row *)
Section rows.
Context (r : value_bag) (cols : list (list Z)) (Hr : bag_rep (d_ r) cols).

Lemma start_nonneg k : 0 <= k -> 0 <= start k.
Proof using Hosz. intros. unfold start, sizeof_bagdata. nia. Qed.
Lemma extent_bounds : zlength cols < extent cols /\ start (zlength cols) <= extent cols.
Proof using Hosz.
  pose proof (zlength_nonneg cols). pose proof (zlength_nonneg (concat cols)).
  unfold extent, start, sizeof_bagdata. nia.
Qed.
Lemma pos_end : pos (d_ r) (ncols (d_ r)) = extent cols.
Proof using Hr.
  destruct Hr as [Hn Hp _ _]. pose proof (zlength_nonneg cols). rewrite Hn, Hp by lia.
  unfold extent, zlength. rewrite Nat2Z.id, firstn_all. done.
Qed.
Lemma concat_at i v : cols !! i = Some v -> zlength (concat (take (S i) cols)) = zlength (concat (take i cols)) + zlength v.
Proof using Type. intros H. rewrite (take_S_r _ _ _ H), concat_app, zlength_app. cbn. by rewrite app_nil_r. Qed.
Lemma prefix_fits k : 0 <= start (zlength cols) + zlength (concat (take k cols)) <= extent cols.
Proof using Hosz.
  pose proof (zlength_nonneg (concat (take k cols))). pose proof (zlength_nonneg (concat (drop k cols))).
  pose proof (start_nonneg (zlength cols) (zlength_nonneg cols)).
  assert (zlength (concat cols) = zlength (concat (take k cols)) + zlength (concat (drop k cols))) as He
    by (by rewrite <- zlength_app, <- concat_app, take_drop).
  unfold extent. lia.
Qed.

Lemma size_rep : size osz r = sizeof_timestamp + extent cols.
Proof using Hr. unfold size. by rewrite pos_end. Qed.
Lemma column_length_rep i v : zlookup cols i = Some v -> column_length osz r i = zlength v.
Proof using Hr Hosz.
  unfold zlookup. destruct (Z.ltb_spec i 0) as [|Hi]; [done|]. intros Hv. pose proof (lookup_lt_Some _ _ _ Hv). destruct Hr as [Hn Hp Hd Hf].
  unfold column_length. rewrite !Hp by (unfold zlength; lia).
  replace (Z.to_nat (i + 1)) with (S (Z.to_nat i)) by lia. rewrite (concat_at _ _ Hv).
  match goal with |- uwrap _ ?e = _ => replace e with (zlength v) by lia end.
  pose proof (prefix_fits (Z.to_nat i)). pose proof (prefix_fits (S (Z.to_nat i))). pose proof (zlength_nonneg v).
  rewrite (concat_at _ _ Hv) in *. apply uwrap_id. unfold offset_ok, in_u in *.
  pose proof (start_nonneg (zlength cols) (zlength_nonneg cols)). pose proof (zlength_nonneg (concat (take (Z.to_nat i) cols))). lia.
Qed.

(** [col] gives the column, or nothing. *)
Lemma col_rep i : 8 * osz <= 31 -> 0 <= i < 2 ^ 31 -> col osz r i = default [] (zlookup cols i).
Proof using Hr Hosz.
  intros Hw Hi. unfold col. rewrite (br_ncol _ _ Hr).
  pose proof extent_bounds as [He _]. pose proof (br_fits _ _ Hr) as Hf. unfold offset_ok, in_u in Hf.
  assert (2 ^ (8 * osz) <= 2 ^ 31) by (apply Z.pow_le_mono_r; lia). pose proof (zlength_nonneg cols).
  rewrite !uwrap_id by (unfold in_u; lia). destruct (Z.ltb_spec i (zlength cols)) as [Hlt|Hge].
  - destruct (lookup_lt_is_Some_2 cols (Z.to_nat i)) as [v Hv]; [unfold zlength in Hlt; lia|].
    assert (zlookup cols i = Some v) as Hz by (by rewrite zlookup_nonneg by lia).
    rewrite Hz, (column_length_rep _ _ Hz). cbn.
    destruct (old_slice (d_ r) cols Hr i (i + 1)) as (_ & Hb & _); [lia..|].
    rewrite old_columns_take in Hb by lia. replace (i + 1 - i) with 1 in Hb by lia.
    rewrite (drop_S _ _ _ Hv) in Hb.
    change (concat (take (Z.to_nat 1) (v :: drop (S (Z.to_nat i)) cols))) with (v ++ []) in Hb.
    by rewrite app_nil_r in Hb.
  - by rewrite zlookup_ge by lia.
Qed.
End rows.

Lemma concat_insert (l : list (list Z)) i v w :
  l !! i = Some w -> zlength (concat (<[i := v]> l)) = zlength (concat l) + zlength v - zlength w.
Proof using Type.
  intros H. pose proof (lookup_lt_Some _ _ _ H). rewrite insert_take_drop by done.
  assert (zlength (concat l) = zlength (concat (take i l ++ w :: drop (S i) l))) as -> by (by rewrite take_drop_middle).
  rewrite !concat_app, !zlength_app. cbn. rewrite !zlength_app. lia.
Qed.

Lemma measure_rep r cols cs : bag_rep (d_ r) cols -> forall sz n l c e,
  increasing cs c e -> 0 <= c -> zlength cols <= n -> (n <= c \/ n = zlength cols) ->
  (forall i v, (i, v) ∈ cs -> l !! Z.to_nat i = Some (default [] (zlookup cols i))) ->
  measure osz r cs sz n =
    (sz + zlength (concat (foldl assign_column l cs)) - zlength (concat l),
     foldl (fun n c => Z.max n (fst c + 1)) n cs).
Proof using Hosz.
  intros Hr. induction cs as [|[i v] cs IH]; intros sz n l c e Hinc Hc Hn Hnc Hl; cbn [measure foldl increasing] in *.
  { f_equal. lia. }
  destruct Hinc as [Hi Hinc]. rewrite (br_ncol _ _ Hr).
  pose proof (Hl i v (list_elem_of_here _ _)) as Hli.
  assert (forall j w, (j, w) ∈ cs -> assign_column l (i, v) !! Z.to_nat j = Some (default [] (zlookup cols j))) as Hl'.
  { intros j w Hj. pose proof (increasing_below _ _ _ _ _ Hinc Hj). unfold assign_column. cbn.
    rewrite list_lookup_insert_ne by lia. eapply Hl. apply elem_of_cons. eauto. }
  assert (zlength (concat (assign_column l (i, v))) = zlength (concat l) + zlength v - zlength (default [] (zlookup cols i))) as Hcat
    by (by apply concat_insert).
  destruct (Z.ltb_spec i (zlength cols)) as [Hlt|Hge].
  - destruct (lookup_lt_is_Some_2 cols (Z.to_nat i)) as [w Hw]; [unfold zlength in Hlt; lia|].
    assert (zlookup cols i = Some w) as Hz by (by rewrite zlookup_nonneg by lia).
    rewrite (column_length_rep r cols Hr _ _ Hz). rewrite (IH _ _ (assign_column l (i, v)) (i + 1) e); try done; try lia.
    rewrite Hcat, Hz. cbn. rewrite Z.max_l by lia. f_equal. lia.
  - rewrite (IH _ _ (assign_column l (i, v)) (i + 1) e); try done; try lia.
    rewrite Hcat, zlookup_ge by lia. cbn. rewrite Z.max_r by lia. f_equal. unfold zlength at 5. cbn. lia.
Qed.

Lemma new_size_rep r cols cs : bag_rep (d_ r) cols -> changes_ok cs ->
  new_size osz r cs = (sizeof_timestamp + extent (put_columns cols cs), new_ncol cols cs).
Proof using Hosz.
  intros Hr [e He]. unfold new_size. pose proof (zlength_nonneg cols).
  pose proof (new_ncol_ge cs (zlength cols)) as Hge. fold (new_ncol cols cs) in Hge.
  set (l := cols ++ replicate (Z.to_nat (new_ncol cols cs - zlength cols)) []).
  assert (concat l = concat cols) as Hcl by (unfold l; by rewrite concat_app, concat_empties, app_nil_r).
  rewrite (measure_rep r cols cs Hr _ _ l 0 e); [|done|lia|rewrite (br_ncol _ _ Hr); lia|right; apply (br_ncol _ _ Hr)|].
  - rewrite (br_ncol _ _ Hr), (size_rep r cols Hr), Hcl. fold (new_ncol cols cs).
    change (foldl assign_column l cs) with (put_columns cols cs).
    unfold extent. rewrite zlength_put. unfold start.
    destruct (Z.ltb_spec (zlength cols) (new_ncol cols cs)); f_equal; [lia|].
    replace (new_ncol cols cs) with (zlength cols) by lia. lia.
  - intros i v Hin. pose proof (increasing_below _ _ _ _ _ He Hin).
    pose proof (new_ncol_fits _ (zlength cols) _ _ Hin) as Hlt. fold (new_ncol cols cs) in Hlt.
    rewrite zlookup_nonneg by done. unfold l. destruct (decide (Z.to_nat i < length cols)%nat) as [Hs|].
    + rewrite lookup_app_l by done. by destruct (lookup_lt_is_Some_2 _ _ Hs) as [x ->].
    + rewrite lookup_app_r, (lookup_ge_None_2 cols) by lia. apply lookup_replicate_2. unfold zlength. lia.
Qed.

Lemma built_start fresh lim n : offset_ok n -> start n <= lim -> built fresh lim n (set_ncol osz fresh n) [].
Proof using Hosz.
  intros Hn Hl. split.
  - by apply ncol_set_same.
  - change (zlength (@nil (list Z))) with 0. lia.
  - done.
  - intros x Hx. unfold set_ncol. apply store_word_other.
    unfold start, sizeof_bagdata, offset_ok, in_u in *. assert (0 <= n * osz) by nia. lia.
Qed.
Lemma built_end fresh n row cs :
  built fresh (extent cs) n row cs -> n = zlength cs -> offset_ok (extent cs) ->
  bag_rep (set_pos osz row n (extent cs)) cs /\
  forall x, x < 0 \/ extent cs <= x -> set_pos osz row n (extent cs) x = fresh x.
Proof using Hosz.
  intros [Hn Hp Hd Ho] -> Hf. pose proof (zlength_nonneg cs). pose proof (zlength_nonneg (concat cs)).
  assert (start (zlength cs) = osz * (2 + zlength cs)) as Hs by (unfold start, sizeof_bagdata; lia).
  split; [split|]; [..|done|].
  - transitivity (ncols row); [|done]. apply load_word_ext. intros x Hx. apply set_pos_other. nia.
  - intros j Hj. destruct (Z.eq_dec j (zlength cs)) as [->|].
    + rewrite pos_set_same, uwrap_id by done. unfold extent, zlength. by rewrite Nat2Z.id, firstn_all.
    + rewrite <- Hp by lia. apply pos_ext. intros x Hx. apply set_pos_other. nia.
  - etransitivity; [|exact Hd]. apply load_ext. intros i Hi. apply set_pos_other. lia.
  - intros x Hx. rewrite set_pos_other; [by apply Ho|]. unfold extent in *. nia.
Qed.

(** The short cut: a value of the same length is written over the old one. *)
Lemma overwrite_rep fresh d cols idx v w :
  bag_rep d cols -> cols !! Z.to_nat idx = Some w -> 0 <= idx -> zlength v = zlength w ->
  let row := store (copy_from fresh 0 d 0 (extent cols)) (pos d idx) v in
  bag_rep row (<[Z.to_nat idx := v]> cols) /\ forall x, x < 0 \/ extent cols <= x -> row x = fresh x.
Proof using Hosz.
  intros Hr Hw Hi Hlen row. pose proof (lookup_lt_Some _ _ _ Hw) as Hlt. destruct Hr as [Hn Hp Hd Hf].
  set (new := <[Z.to_nat idx := v]> cols).
  assert (zlength new = zlength cols) as Hnl by (unfold new, zlength; by rewrite length_insert).
  assert (zlength (concat new) = zlength (concat cols)) as Hnc
    by (unfold new; rewrite (concat_insert _ _ _ w); lia || done).
  assert (forall x, 0 <= x < extent cols -> copy_from fresh 0 d 0 (extent cols) x = d x) as Hcopy.
  { intros x Hx. unfold copy_from. apply store_same. rewrite Z.sub_0_r. by rewrite zlookup_load by lia. }
  pose proof (zlength_nonneg cols). pose proof (zlength_nonneg v).
  assert (concat cols = concat (take (Z.to_nat idx) cols) ++ w ++ concat (drop (S (Z.to_nat idx)) cols)) as Hcc.
  { rewrite <- (take_drop_middle cols _ _ Hw) at 1. by rewrite concat_app. }
  set (A := concat (take (Z.to_nat idx) cols)) in *. set (B := concat (drop (S (Z.to_nat idx)) cols)) in *.
  assert (pos d idx = start (zlength cols) + zlength A) as Hpi by (apply Hp; unfold zlength; lia).
  assert (start (zlength cols) = osz * (2 + zlength cols)) as Hs by (unfold start, sizeof_bagdata; lia).
  pose proof (zlength_nonneg A). pose proof (zlength_nonneg B).
  assert (extent cols = start (zlength cols) + zlength A + zlength v + zlength B) as He
    by (unfold extent; rewrite Hcc, !zlength_app; lia).
  assert (forall x, x < pos d idx \/ pos d idx + zlength v <= x -> 0 <= x < extent cols -> row x = d x) as Hrow.
  { intros x Hx Hx2. unfold row. rewrite store_other by done. by apply Hcopy. }
  split; [split|].
  - rewrite Hnl. transitivity (ncols d); [|done]. apply load_word_ext. intros x Hx. apply Hrow; nia.
  - intros j Hj. rewrite Hnl in *. rewrite (pos_ext row d) by (intros; apply Hrow; nia). rewrite Hp by lia.
    f_equal. unfold new. destruct (Z.le_gt_cases j idx); [by rewrite take_insert_ge by lia|].
    rewrite take_insert_lt by lia. symmetry. rewrite (concat_insert _ _ _ w); [lia|]. by rewrite lookup_take_lt by lia.
  - rewrite Hnl, Hnc. unfold new. rewrite insert_take_drop by done. rewrite concat_app. cbn. fold A B.
    rewrite Hcc, !zlength_app, !load_app in Hd |- * by (pose proof (zlength_nonneg w); lia).
    apply app_inj_1 in Hd as [HA Hd]; [|rewrite length_load; unfold zlength; lia].
    apply app_inj_1 in Hd as [_ HB]; [|rewrite length_load; unfold zlength; lia].
    f_equal; [|f_equal].
    + etransitivity; [|exact HA]. apply load_ext. intros i Hi'. apply Hrow; lia.
    + unfold row. rewrite <- Hlen, <- Hpi. apply load_store_same.
    + etransitivity; [|exact HB]. apply load_ext. intros i Hi'. apply Hrow; lia.
  - by replace (extent new) with (extent cols) by (unfold extent; by rewrite Hnl, Hnc).
  - intros x Hx. unfold row. rewrite store_other by lia. unfold copy_from.
    apply store_other. rewrite zlength_load; lia.
Qed.

Lemma update_rep r cols cs ts fresh :
  bag_rep (d_ r) cols -> changes_ok cs -> let new := put_columns cols cs in offset_ok (extent new) ->
  exists row, update osz fresh r cs ts = Some (mkRow ts row, sizeof_timestamp + extent new) /\ bag_rep row new /\
    forall x, x < 0 \/ extent new <= x -> row x = fresh x.
Proof using Hosz.
  intros Hr Hcs new Hfit. unfold update. rewrite (new_size_rep r cols cs Hr Hcs). fold new.
  set (n := new_ncol cols cs). assert (zlength new = n) as Hn by apply zlength_put.
  pose proof (zlength_nonneg cols). pose proof (new_ncol_ge cs (zlength cols)) as Hge.
  fold (new_ncol cols cs) in Hge. fold n in Hge. pose proof (extent_bounds new) as [Hb1 Hb2]. rewrite Hn in Hb1, Hb2.
  assert (rest cols n cs 0 = new) as Hrest by (by apply rest_put).
  assert (exists row, (x ← update_loop osz (d_ r) n cs (set_ncol osz fresh n) (sizeof_bagdata osz + n * osz) 0;
      let '(row, sz') := x in Some (mkRow ts (set_pos osz row n sz'), sizeof_timestamp + extent new)) =
      Some (mkRow ts row, sizeof_timestamp + extent new) /\ bag_rep row new /\
      forall x, x < 0 \/ extent new <= x -> row x = fresh x) as Hslow.
  { destruct (update_loop_built (d_ r) cols Hr fresh (extent new) n Hfit Hge cs (set_ncol osz fresh n) [])
      as (row & Hrun & Hb).
    - apply built_start; [unfold offset_ok, in_u in *; lia|done].
    - destruct Hcs as [e He]. change (zlength (@nil (list Z))) with 0.
      eapply increasing_end; [done| |lia]. intros i v. apply new_ncol_fits.
    - cbn [app]. change (zlength (@nil (list Z))) with 0. rewrite Hrest. unfold extent. rewrite Hn. lia.
    - cbn [app] in Hrun, Hb. change (zlength (@nil (list Z))) with 0 in Hrun, Hb.
      rewrite Hrest in Hrun, Hb.
      change (zlength (concat (@nil (list Z)))) with 0 in Hrun. rewrite Z.add_0_r in Hrun. unfold start in Hrun at 1.
      rewrite Hrun. cbn.
      replace (start n + zlength (concat new)) with (extent new) by (unfold extent; by rewrite Hn).
      destruct (built_end _ _ _ _ Hb) as [Hrep Hout]; [done|done|]. eauto. }
  destruct cs as [|[idx v] [|? ?]]; [exact Hslow| |exact Hslow].
  destruct ((n =? ncols (d_ r)) && (sizeof_timestamp + extent new =? size osz r) && (zlength v <=? 16)) eqn:Hc;
    [|exact Hslow].
  apply andb_true_iff in Hc as [Hc _]. apply andb_true_iff in Hc as [Hc1%Z.eqb_eq Hc2%Z.eqb_eq].
  rewrite (br_ncol _ _ Hr) in Hc1. rewrite (size_rep r cols Hr) in Hc2. destruct Hcs as (e & Hi & _).
  assert (idx < zlength cols) as Hidx by (unfold n, new_ncol in Hc1; cbn in Hc1; lia).
  destruct (lookup_lt_is_Some_2 cols (Z.to_nat idx)) as [w Hw]; [unfold zlength in Hidx; lia|].
  assert (new = <[Z.to_nat idx := v]> cols) as Hnew.
  { unfold new, put_columns. fold n. rewrite Hc1, Z.sub_diag. cbn. by rewrite app_nil_r. }
  assert (zlength v = zlength w) as Hlen.
  { pose proof (concat_insert cols _ v w Hw) as Hci. rewrite <- Hnew in Hci.
    unfold extent in Hc2. rewrite Hn, Hc1 in Hc2. lia. }
  assert (extent new = extent cols) as He by lia.
  destruct (overwrite_rep fresh (d_ r) cols idx v w Hr Hw Hi Hlen) as [Hrep Hout].
  rewrite <- Hnew in Hrep. rewrite He in *. eexists. split; [|split; [exact Hrep|exact Hout]].
  by replace (sizeof_timestamp + extent cols - sizeof_timestamp) with (extent cols) by lia.
Qed.

Lemma extent_nil : extent [] = 2 * osz.
Proof using Type. unfold extent, start, sizeof_bagdata, zlength. cbn. lia. Qed.
Lemma make_rep fresh : offset_ok (2 * osz) -> bag_rep (d_ (make osz fresh)) [].
Proof using Hosz.
  intros Hf. assert (0 < 2 ^ (8 * osz)) by (apply Z.pow_pos_nonneg; lia).
  destruct (built_end fresh 0 (set_ncol osz fresh 0) []) as [Hr _]; [..|by rewrite extent_nil in Hr].
  - apply built_start; [unfold offset_ok, in_u; lia|]. rewrite extent_nil. unfold start, sizeof_bagdata. lia.
  - done.
  - by rewrite extent_nil.
Qed.

Lemma create1_rep fresh str ts :
  offset_ok (extent [str]) -> bag_rep (d_ (fst (create1 osz fresh str ts))) [str] /\
  snd (create1 osz fresh str ts) = sizeof_timestamp + extent [str].
Proof using Hosz.
  intros Hf. assert (extent [str] = sizeof_bagdata osz + osz + zlength str) as He.
  { unfold extent, start. cbn. rewrite app_nil_r. change (zlength [str]) with 1. lia. }
  rewrite He in Hf. pose proof (zlength_nonneg str) as Hs. unfold offset_ok, in_u, sizeof_bagdata in Hf.
  assert (forall j, 0 <= j < 2 -> (if j =? 0 then 2 * osz + osz else 2 * osz + osz + zlength str) =
    2 * osz + osz + zlength (concat (take (Z.to_nat j) [str]))) as Hpos.
  { intros j Hj. assert (j = 0 \/ j = 1) as [->| ->] by lia.
    - change (zlength (concat (take (Z.to_nat 0) [str]))) with 0. cbn. lia.
    - change (take (Z.to_nat 1) [str]) with [str]. cbn. by rewrite app_nil_r. }
  unfold create1, sizeof_bagdata. cbn [fst snd d_]. split; [|rewrite He; unfold sizeof_bagdata; lia].
  set (d0 := set_ncol osz fresh 1). set (d1 := set_pos osz d0 0 (2 * osz + osz)).
  set (d2 := set_pos osz d1 1 (2 * osz + osz + zlength str)).
  assert (pos d1 0 = 2 * osz + osz) as H1 by (unfold d1; rewrite pos_set_same, uwrap_id; unfold in_u; lia).
  assert (pos d2 0 = 2 * osz + osz) as H20 by (rewrite <- H1; apply pos_ext; intros; apply set_pos_other; lia).
  assert (pos d2 1 = 2 * osz + osz + zlength str) as H21 by (unfold d2; rewrite pos_set_same, uwrap_id; unfold in_u; lia).
  rewrite H20. change (zlength [str]) with 1 in *.
  assert (forall x, x < 2 * osz + osz -> store d2 (2 * osz + osz) str x = d2 x) as Hlow by (intros; apply store_other; lia).
  split; change (zlength [str]) with 1; unfold start, sizeof_bagdata; rewrite ?Z.mul_1_l.
  - transitivity (ncols d0); [|apply ncol_set_same; unfold offset_ok, in_u; lia].
    apply load_word_ext. intros x Hx. rewrite Hlow by lia. unfold d2. rewrite set_pos_other by lia.
    unfold d1. apply set_pos_other. lia.
  - intros j Hj. rewrite <- Hpos by lia. rewrite (pos_ext _ d2) by (intros; apply Hlow; nia).
    assert (j = 0 \/ j = 1) as [->| ->] by lia; cbn; lia.
  - cbn. rewrite app_nil_r. apply load_store_same.
  - rewrite He. unfold offset_ok, in_u, sizeof_bagdata. lia.
Qed.

Lemma checkpoint_rep r cols ts fresh :
  bag_rep (d_ r) cols ->
  let '(r', sz) := checkpoint_read fresh (checkpoint_write osz r) ts in
  bag_rep (d_ r') cols /\ sz = size osz r.
Proof using Hosz.
  intros Hr. unfold checkpoint_read, checkpoint_write. pose proof (pos_end r cols Hr) as Hp.
  pose proof (extent_bounds cols) as [He1 He2]. pose proof (zlength_nonneg cols). cbn [d_].
  rewrite (size_rep r cols Hr), Hp, zlength_load by lia. split; [|done].
  assert (forall x, 0 <= x < extent cols -> store fresh 0 (load (d_ r) 0 (extent cols)) x = d_ r x) as Hx.
  { intros x Hx. apply store_same. rewrite Z.sub_0_r. by rewrite zlookup_load by lia. }
  assert (start (zlength cols) = osz * (2 + zlength cols)) as Hs by (unfold start, sizeof_bagdata; lia).
  destruct Hr as [Hn Hpos Hd Hf]. pose proof (zlength_nonneg (concat cols)). split; [..|done].
  - etransitivity; [|exact Hn]. apply load_word_ext. intros x Hx'. apply Hx. nia.
  - intros j Hj. rewrite <- Hpos by done. apply pos_ext. intros x Hx'. apply Hx. nia.
  - etransitivity; [|exact Hd]. apply load_ext. intros i Hi. apply Hx. unfold extent. nia.
Qed.
End bags.

(** * Bags as a row type *)
Section laws.
Context (osz : Z) (Hosz : 0 < osz <= 3) (junk : Z -> mem).

Lemma two_osz_ok : offset_ok osz (2 * osz).
Proof using Hosz. assert (osz = 1 \/ osz = 2 \/ osz = 3) as [->|[->| ->]] by lia; by vm_compute. Qed.

Definition bags_ok (st : bags) : Prop := 0 < next_ st /\ forall p, p ∈ dom (rows_ st) -> p < next_ st.
Definition bag_at (st : bags) (p ts : Z) (cols : list (list Z)) : Prop :=
  exists d, rows_ st !! p = Some (mkRow ts d) /\ bag_rep osz d cols.

Lemma place_ok st r sz ts cols :
  bags_ok st -> ts_ r = ts -> bag_rep osz (d_ r) cols ->
  let '(p, st') := place r sz st in
  bags_ok st' /\ bag_at st' p ts cols /\ p <> 0 /\ forall q t c, bag_at st q t c -> q <> p /\ bag_at st' q t c.
Proof using Type.
  intros [Hn Hd] <- Hr. cbn. split_and!.
  - split; cbn; [lia|]. intros p Hp. rewrite dom_insert in Hp.
    apply elem_of_union in Hp as [->%elem_of_singleton|Hp%Hd]; lia.
  - exists (d_ r). split; [|done]. cbn. rewrite lookup_insert_eq. by destruct r.
  - lia.
  - intros q t c (d & Hq & Hrep). assert (q < next_ st) by (apply Hd, elem_of_dom; eauto).
    split; [lia|]. exists d. split; [|done]. cbn. by rewrite lookup_insert_ne by lia.
Qed.

Lemma bag_retire_ok st p ts cols :
  bags_ok st -> bag_at st p ts cols ->
  exists st', deallocate_rcu osz p st = Some st' /\ bags_ok st' /\ forall q t c, bag_at st q t c -> bag_at st' q t c.
Proof using Type. intros Hok (d & Hp & Hr). unfold deallocate_rcu. rewrite Hp. cbn. eauto. Qed.

Lemma bag_update_at st p ts0 cols cs ts :
  bags_ok st -> bag_at st p ts0 cols -> changes_ok cs -> offset_ok osz (extent osz (put_columns cols cs)) ->
  exists p' st', update_at osz junk p cs ts st = Some (p', st') /\ bags_ok st' /\ bag_at st' p' ts (put_columns cols cs) /\
    p' <> 0 /\ forall q t c, bag_at st q t c -> q <> p' /\ bag_at st' q t c.
Proof using Hosz.
  intros Hok (d & Hp & Hr) Hcs Hf.
  destruct (update_rep osz ltac:(lia) (mkRow ts0 d) cols cs ts (junk (next_ st)) Hr Hcs Hf) as (row & Hrun & Hrep & _).
  pose proof (place_ok st (mkRow ts row) (sizeof_timestamp + extent osz (put_columns cols cs)) ts _ Hok eq_refl Hrep) as H.
  unfold update_at. rewrite Hp. cbn. rewrite Hrun. eauto.
Qed.

#[global] Program Instance bag_laws : @RowLaws bags (bag_type osz junk) := {
  rows_ok := bags_ok;
  row_at := bag_at;
  row_fits cols := offset_ok osz (extent osz cols) }.
Next Obligation. intros i Hi. cbn. unfold swrap, uwrap. rewrite Z.mod_small by lia. lia. Qed.
Next Obligation. intros st p ts cols (d & Hp & _). cbn. by rewrite Hp. Qed.
Next Obligation. intros st p ts cols (d & Hp & Hr). cbn. rewrite Hp. cbn. f_equal. apply (br_ncol _ _ _ Hr). Qed.
Next Obligation.
  intros st p ts cols i (d & Hp & Hr) Hi. cbn. rewrite Hp. cbn. f_equal.
  apply (col_rep osz ltac:(lia) (mkRow ts d)); [done|lia|done].
Qed.
Next Obligation.
  intros st p ts0 cols cs ts Hok Hp Hcs _ Hf _.
  destruct (bag_update_at st p ts0 cols cs ts Hok Hp Hcs Hf) as (p' & st' & Hrun & Hok' & Hat & Hp' & Hkeep).
  exists p', st', ts. split_and!; try done; [by left|]. intros q t c Hq. right. by apply Hkeep.
Qed.
Next Obligation.
  intros st cs ts Hok Hcs _ Hf _. pose proof (make_rep osz ltac:(lia) (fun _ => 0) two_osz_ok) as Hr.
  destruct (update_rep osz ltac:(lia) _ [] cs ts (junk (next_ st)) Hr Hcs Hf) as (row & Hrun & Hrep & _).
  pose proof (place_ok st (mkRow ts row) (sizeof_timestamp + extent osz (put_columns [] cs)) ts _ Hok eq_refl Hrep) as H.
  cbn. unfold create_at, create. rewrite Hrun. cbn. eauto.
Qed.
Next Obligation.
  intros st v ts Hok Hf _. destruct (create1_rep osz ltac:(lia) (junk (next_ st)) v ts Hf) as [Hr _].
  pose proof (place_ok st (fst (create1 osz (junk (next_ st)) v ts)) (snd (create1 osz (junk (next_ st)) v ts)) ts _ Hok eq_refl Hr) as H.
  cbn. unfold create1_at. eauto.
Qed.
Next Obligation. intros st p ts cols. apply bag_retire_ok. Qed.
Next Obligation. intros st p ts cols cs Hok Hp _. by eapply bag_retire_ok. Qed.

#[global] Instance bag_fresh : @FreshUpdate bags (bag_type osz junk) bag_laws.
Proof using Hosz.
  intros st p ts0 cols cs ts p' st' Hok Hp Hcs _ Hf _ Hrun.
  destruct (bag_update_at st p ts0 cols cs ts Hok Hp Hcs Hf) as (p2 & st2 & Hrun' & _ & _ & _ & Hkeep).
  pose proof (eq_trans (eq_sym Hrun) Hrun') as [= -> ->]. intros ->. by destruct (Hkeep _ _ _ Hp).
Qed.
End laws.

(** C15: [update] gives a row with the old columns, empty ones added up to the
    last column that changes, and each change assigned, provided the new row
    fits the width of its offsets.  [col] reads the columns back; the row fills
    the block allocated for it, and nothing else is written. *)
Theorem bag_update_columns osz r cols cs ts fresh :
  0 < osz -> 8 * osz <= 31 -> bag_rep osz (d_ r) cols -> changes_ok cs ->
  let new := put_columns cols cs in offset_ok osz (extent osz new) ->
  exists r' sz, update osz fresh r cs ts = Some (r', sz) /\ timestamp r' = ts /\ size osz r' = sz /\
    bag_rep osz (d_ r') new /\ ncol osz r' = zlength new /\
    (forall i, 0 <= i < 2 ^ 31 -> col osz r' i = default [] (zlookup new i)) /\
    forall x, x < 0 \/ sz - sizeof_timestamp <= x -> d_ r' x = fresh x.
Proof.
  intros Ho Hw Hr Hcs new Hf. destruct (update_rep osz Ho r cols cs ts fresh Hr Hcs Hf) as (row & Hrun & Hrep & Hout).
  exists (mkRow ts row), (sizeof_timestamp + extent osz new). split_and!; try done.
  - by apply (size_rep osz (mkRow ts row)).
  - apply (br_ncol _ _ _ Hrep).
  - intros i Hi. by apply (col_rep osz Ho (mkRow ts row)).
  - intros x Hx. apply Hout. subst new. lia.
Qed.

(** A row of two columns, where the first gets longer and a fourth is added. *)
Lemma bag_update_columns_witness :
  exists r' sz, update 2 (fun _ => 85) (mkRow 2 (d_ (fst (create1 2 (fun _ => 0) [104; 105] 2)))) [(0, [104; 111]); (2, [33])] 4 =
      Some (r', sz) /\ map (col 2 r') [0; 1; 2; 3] = [[104; 111]; []; [33]; []].
Proof.
  destruct (create1_rep 2 ltac:(lia) (fun _ => 0) [104; 105] 2) as [Hr _]; [by vm_compute|].
  destruct (bag_update_columns 2 (mkRow 2 (d_ (fst (create1 2 (fun _ => 0) [104; 105] 2)))) [[104; 105]]
    [(0, [104; 111]); (2, [33])] 4 (fun _ => 85)) as (r' & sz & Hrun & _ & _ & _ & _ & Hcol & _); [done|done|exact Hr|..].
  - exists 3. by vm_compute.
  - by vm_compute.
  - exists r', sz. split; [exact Hrun|]. cbn [map]. rewrite !Hcol by lia. reflexivity.
Defined.

(** A value of 65530 bytes fills the offsets of a bag of 16-bit offsets: its
    size wraps to that of the header, and a checkpoint of it is empty. *)
Lemma create1_wraps fresh str ts :
  zlength str = 65530 ->
  let r := fst (create1 2 fresh str ts) in size 2 r = sizeof_timestamp /\ checkpoint_write 2 r = [].
Proof.
  intros Hs. unfold create1, size, checkpoint_write. cbn [fst d_]. rewrite Hs.
  set (d1 := set_pos 2 (set_ncol 2 fresh 1) 0 (sizeof_bagdata 2 + 2)).
  set (d2 := set_pos 2 d1 1 (sizeof_bagdata 2 + 2 + 65530)).
  assert (pos_ 2 d2 0 = 6) as H0.
  { rewrite (pos_ext 2 ltac:(lia) d2 d1) by (intros; apply set_pos_other; lia). by apply pos_set_same. }
  rewrite H0. set (d3 := store d2 6 str).
  assert (ncol_ 2 d3 = 1) as Hn.
  { transitivity (ncol_ 2 (set_ncol 2 fresh 1)); [|by apply ncol_set_same].
    apply load_word_ext. intros x Hx. unfold d3. rewrite store_other by lia. unfold d2. rewrite set_pos_other by lia.
    unfold d1. apply set_pos_other; lia. }
  assert (pos_ 2 d3 1 = 0) as Hp.
  { rewrite (pos_ext 2 ltac:(lia) d3 d2) by (intros; apply store_other; lia). by apply pos_set_same. }
  rewrite Hn, Hp. by rewrite load_0.
Qed.
