(* ===== verification/ValueArray.v ===== *)
(** Rows as arrays of columns, [value_array] of [src/value_array.hh] and
    [src/value_array.cc]: each column is a block of its own, and a new row
    shares the columns that do not change with the old one. *)
From S2P Require Import Prelude Compiler Memory Row.

Module ValueArray.
(** [cols_] holds addresses of strings, 0 for an empty column. *)
Record value_array : Type := mkRow { ts_ : Z; ncol_ : Z; cols_ : list Z }.
(** Rows and strings by address, the next address that is not in use, and the
    blocks given to [deallocate_rcu] and [deallocate], with their sizes. *)
Record arrays : Type := mkArrays {
  rows_ : gmap Z value_array; strings_ : gmap Z (list Z); next_ : Z;
  retired_ : list (Z * Z); freed_ : list (Z * Z) }.

Definition sizeof_value_array : Z := 16.
Definition sizeof_inline_string : Z := 4.
Definition shallow_size (ncol : Z) : Z := sizeof_value_array + 8 * ncol.
Definition make : value_array := mkRow 0 0 [].

Definition retire (p sz : Z) (st : arrays) : arrays :=
  mkArrays (rows_ st) (strings_ st) (next_ st) (retired_ st ++ [(p, sz)]) (freed_ st).
Definition place (r : value_array) (st : arrays) : Z * arrays :=
  (next_ st, mkArrays (<[next_ st := r]> (rows_ st)) (strings_ st) (next_ st + Z.max 1 (shallow_size (ncol_ r)))
    (retired_ st) (freed_ st)).

(** ** Columns *)
Definition make_column (str : list Z) (st : arrays) : Z * arrays :=
  match str with
  | [] => (0, st)
  | _ => (next_ st, mkArrays (rows_ st) (<[next_ st := str]> (strings_ st))
            (next_ st + (sizeof_inline_string + zlength str)) (retired_ st) (freed_ st))
  end.
Definition column_size (st : arrays) (c : Z) : option Z := (fun s => sizeof_inline_string + zlength s) <$> strings_ st !! c.
Definition deallocate_column (c : Z) (st : arrays) : option arrays :=
  if c =? 0 then Some st
  else sz ← column_size st c;
    Some (mkArrays (rows_ st) (delete c (strings_ st)) (next_ st) (retired_ st) (freed_ st ++ [(c, sz)])).
Definition deallocate_column_rcu (c : Z) (st : arrays) : option arrays :=
  if c =? 0 then Some st else sz ← column_size st c; Some (retire c sz st).
Definition col (st : arrays) (r : value_array) (i : Z) : option (list Z) :=
  if uwrap 32 i <? uwrap 32 (ncol_ r) then
    c ← zlookup (cols_ r) i; if c =? 0 then Some [] else strings_ st !! c
  else Some [].

(** ** [update] *)
(** [row->cols_[column] = make_column(value)], one change after the other. *)
Fixpoint assign_columns (cs : changes) (cols : list Z) (st : arrays) : option (list Z * arrays) :=
  match cs with
  | [] => Some (cols, st)
  | (idx, v) :: cs =>
      let '(c, st) := make_column v st in
      if (0 <=? idx) && (idx <? zlength cols) then assign_columns cs (<[Z.to_nat idx := c]> cols) st else None
  end.
(** The row, and the memory with the new columns; an update without changes
    would read before its arguments. *)
Definition update_row (r : value_array) (cs : changes) (ts : Z) (st : arrays) : option (value_array * arrays) :=
  if ts <? ts_ r then None
  else
    x ← last cs;
    let n := uwrap 32 (Z.max (ncol_ r) (swrap 32 (fst x) + 1)) in
    let cols := take (Z.to_nat (ncol_ r)) (cols_ r) ++ replicate (Z.to_nat (n - ncol_ r)) 0 in
    y ← assign_columns cs cols st;
    Some (mkRow ts (swrap 16 n) (fst y), snd y).
Definition update (p : Z) (cs : changes) (ts : Z) (st : arrays) : option (Z * arrays) :=
  r ← rows_ st !! p; x ← update_row r cs ts st; Some (place (fst x) (snd x)).
Definition create (cs : changes) (ts : Z) (st : arrays) : option (Z * arrays) :=
  x ← update_row make cs ts st; Some (place (fst x) (snd x)).
Definition create1 (value : list Z) (ts : Z) (st : arrays) : option (Z * arrays) :=
  let '(c, st) := make_column value st in Some (place (mkRow ts 1 [c]) st).

(** ** Deallocation *)
Fixpoint deallocate_columns (cs : list Z) (st : arrays) : option arrays :=
  match cs with [] => Some st | c :: cs => st ← deallocate_column c st; deallocate_columns cs st end.
Fixpoint deallocate_columns_rcu (cs : list Z) (st : arrays) : option arrays :=
  match cs with [] => Some st | c :: cs => st ← deallocate_column_rcu c st; deallocate_columns_rcu cs st end.
Definition deallocate (p : Z) (st : arrays) : option arrays :=
  r ← rows_ st !! p;
  st ← deallocate_columns (take (Z.to_nat (ncol_ r)) (cols_ r)) st;
  Some (mkArrays (delete p (rows_ st)) (strings_ st) (next_ st) (retired_ st) (freed_ st ++ [(p, shallow_size (ncol_ r))])).
Definition deallocate_rcu (p : Z) (st : arrays) : option arrays :=
  r ← rows_ st !! p;
  st ← deallocate_columns_rcu (take (Z.to_nat (ncol_ r)) (cols_ r)) st;
  Some (retire p (shallow_size (ncol_ r)) st).
(** The old columns that the changes [cs] replaced: the loop stops at the first
    column the old row did not have. *)
Fixpoint replaced (r : value_array) (cs : changes) : option (list Z) :=
  match cs with
  | [] => Some []
  | (idx, _) :: cs =>
      if idx <? uwrap 32 (ncol_ r) then c ← zlookup (cols_ r) idx; l ← replaced r cs; Some (c :: l) else Some []
  end.
Definition deallocate_rcu_after_update (p : Z) (cs : changes) (st : arrays) : option arrays :=
  r ← rows_ st !! p;
  l ← replaced r cs;
  st ← deallocate_columns_rcu l st;
  Some (retire p (shallow_size (ncol_ r)) st).
Definition deallocate_after_failed_update (p : Z) (cs : changes) (st : arrays) : option arrays :=
  r ← rows_ st !! p;
  l ← mapM (fun c => zlookup (cols_ r) (fst c)) cs;
  st ← deallocate_columns l st;
  Some (mkArrays (delete p (rows_ st)) (strings_ st) (next_ st) (retired_ st) (freed_ st ++ [(p, shallow_size (ncol_ r))])).

(** ** Checkpoints *)
(** The columns that are written after the header with their number, and the
    row made of those that are read. *)
Definition checkpoint_write (st : arrays) (r : value_array) : option (list (list Z)) :=
  mapM (col st r) (seqZ 0 (ncol_ r)).
Definition make_sized_row (ncol ts : Z) : value_array := mkRow ts (swrap 16 ncol) (replicate (Z.to_nat ncol) 0).
Fixpoint make_columns (vs : list (list Z)) (st : arrays) : list Z * arrays :=
  match vs with
  | [] => ([], st)
  | v :: vs => let '(c, st) := make_column v st in let '(l, st) := make_columns vs st in (c :: l, st)
  end.
Definition checkpoint_read (vs : list (list Z)) (ts : Z) (st : arrays) : Z * arrays :=
  let r := make_sized_row (zlength vs) ts in
  let '(l, st) := make_columns vs st in place (mkRow ts (ncol_ r) l) st.

#[global] Instance array_type : RowType arrays := {
  row_index := swrap 16;
  row_name := [65; 114; 114; 97; 121];
  row_timestamp st p := ts_ <$> rows_ st !! p;
  row_ncol st p := ncol_ <$> rows_ st !! p;
  row_col st p i := r ← rows_ st !! p; col st r i;
  row_update := update;
  row_create := create;
  row_create1 := create1;
  row_deallocate_rcu := deallocate_rcu;
  row_deallocate_rcu_after_update := deallocate_rcu_after_update }.
End ValueArray.
