(* ===== verification/ArraySpec.v ===== *)
(** What [ValueArray] computes: arrays stand for lists of columns, and the
    columns that an update replaces are exactly those it retires. *)
From S2P Require Import Prelude Compiler Memory Row ValueArray.
Import ValueArray.

(** [c] is the address of the column [v]. *)
Definition column_is (st : arrays) (c : Z) (v : list Z) : Prop :=
  (c = 0 /\ v = []) \/ (c <> 0 /\ strings_ st !! c = Some v).
(** No string is in two columns. *)
Definition unshared (cs : list Z) : Prop :=
  forall i j c, cs !! i = Some c -> cs !! j = Some c -> c <> 0 -> i = j.

Record arrays_ok (st : arrays) : Prop := {
  ao_next : 0 < next_ st;
  ao_rows : forall p, is_Some (rows_ st !! p) -> p < next_ st;
  ao_strings : forall c, is_Some (strings_ st !! c) -> c < next_ st }.
Record array_is (st : arrays) (r : value_array) (ts : Z) (cols : list (list Z)) : Prop := {
  ai_ts : ts_ r = ts;
  ai_ncol : ncol_ r = zlength cols;
  ai_fits : zlength cols < 2 ^ 15;
  ai_cols : Forall2 (column_is st) (cols_ r) cols;
  ai_unshared : unshared (cols_ r) }.
Definition array_at (st : arrays) (p ts : Z) (cols : list (list Z)) : Prop :=
  exists r, rows_ st !! p = Some r /\ array_is st r ts cols.

(** [st'] has what [st] has, and more. *)
Record extends (st st' : arrays) : Prop := {
  ex_next : next_ st <= next_ st';
  ex_rows : forall p r, rows_ st !! p = Some r -> rows_ st' !! p = Some r;
  ex_strings : forall c v, strings_ st !! c = Some v -> strings_ st' !! c = Some v }.

Lemma extends_refl st : extends st st.
Proof. split; [lia|done|done]. Qed.
Lemma extends_trans st1 st2 st3 : extends st1 st2 -> extends st2 st3 -> extends st1 st3.
Proof. intros [H1 H2 H3] [H4 H5 H6]. split; [lia|auto|auto]. Qed.
Lemma column_is_extends st st' c v : extends st st' -> column_is st c v -> column_is st' c v.
Proof. intros H [?|[? ?]]; [by left|right]. split; [done|]. by apply (ex_strings _ _ H). Qed.
Lemma array_is_extends st st' r ts cols : extends st st' -> array_is st r ts cols -> array_is st' r ts cols.
Proof.
  intros H [? ? ? Hc ?]. split; try done. eapply Forall2_impl; [exact Hc|]. intros. by eapply column_is_extends.
Qed.
Lemma array_at_extends st st' p ts cols : extends st st' -> array_at st p ts cols -> array_at st' p ts cols.
Proof. intros H (r & Hp & Hr). exists r. split; [by apply (ex_rows _ _ H)|by eapply array_is_extends]. Qed.

Lemma make_column_spec v st :
  arrays_ok st -> let '(c, st') := make_column v st in
  arrays_ok st' /\ extends st st' /\ rows_ st' = rows_ st /\ column_is st' c v /\
  (c <> 0 -> next_ st <= c < next_ st') /\ retired_ st' = retired_ st.
Proof.
  intros Hok. pose proof Hok as [Hn Hr Hs]. destruct v as [|b v]; cbn.
  { split_and!; try done; first [apply extends_refl|by left]. }
  pose proof (zlength_nonneg (b :: v)). unfold sizeof_inline_string.
  assert (strings_ st !! next_ st = None) as Hnone.
  { destruct (strings_ st !! next_ st) eqn:E; [|done]. assert (next_ st < next_ st) by (apply Hs; by rewrite E). lia. }
  split_and!; try done.
  - split; cbn; [lia|intros p Hp%Hr; lia|]. intros c Hc. destruct (decide (c = next_ st)) as [->|]; [lia|].
    rewrite lookup_insert_ne in Hc by done. apply Hs in Hc. lia.
  - split; cbn; [lia|done|]. intros c w Hc. rewrite lookup_insert_ne; [done|]. congruence.
  - right. cbn. split; [lia|]. by rewrite lookup_insert_eq.
  - lia.
Qed.

Lemma unshared_insert cs k c n : unshared cs -> (forall i d, cs !! i = Some d -> d < n) -> (c <> 0 -> n <= c) ->
  unshared (<[k := c]> cs).
Proof.
  intros Hu Hb Hc i j d Hi Hj Hd.
  destruct (decide (i = k)) as [->|Hik], (decide (j = k)) as [->|Hjk]; [done|..].
  - destruct (decide (k < length cs)%nat).
    + rewrite list_lookup_insert_eq in Hi by done. simplify_eq. rewrite list_lookup_insert_ne in Hj by done.
      apply Hb in Hj. specialize (Hc Hd). lia.
    + rewrite list_insert_ge in Hi by lia. apply lookup_lt_Some in Hi. lia.
  - destruct (decide (k < length cs)%nat).
    + rewrite list_lookup_insert_eq in Hj by done. simplify_eq. rewrite list_lookup_insert_ne in Hi by done.
      apply Hb in Hi. specialize (Hc Hd). lia.
    + rewrite list_insert_ge in Hj by lia. apply lookup_lt_Some in Hj. lia.
  - rewrite list_lookup_insert_ne in Hi, Hj by done. by eapply Hu.
Qed.

(** The assignment of the changes to the addresses [cs0] of the columns. *)
Lemma assign_columns_spec cs : forall cs0 cols st c e,
  arrays_ok st -> Forall2 (column_is st) cs0 cols -> unshared cs0 -> (forall i d, cs0 !! i = Some d -> d < next_ st) ->
  increasing cs c e -> 0 <= c -> e <= zlength cs0 ->
  exists cs1 st', assign_columns cs cs0 st = Some (cs1, st') /\ arrays_ok st' /\ extends st st' /\
    rows_ st' = rows_ st /\ retired_ st' = retired_ st /\
    Forall2 (column_is st') cs1 (foldl assign_column cols cs) /\ unshared cs1 /\
    forall i, (cs1 !! i = cs0 !! i /\ forall w, (Z.of_nat i, w) ∉ cs) \/
      exists d w, cs1 !! i = Some d /\ (Z.of_nat i, w) ∈ cs /\ (d = 0 \/ next_ st <= d).
Proof.
  induction cs as [|[j v] cs IH]; intros cs0 cols st c e Hok Hf Hu Hb Hinc Hc He; cbn [assign_columns foldl].
  { exists cs0, st. split_and!; [done|done|apply extends_refl|done|done|done|done|].
    intros i. left. split; [done|]. by intros w ?%elem_of_nil. }
  destruct Hinc as [H1 H2]. pose proof (increasing_bound _ _ _ H2).
  pose proof (make_column_spec v st Hok) as Hm. destruct (make_column v st) as [d st1].
  destruct Hm as (Hok1 & Hex & Hr1 & Hcol & Hd & Hre).
  assert (zlength (<[Z.to_nat j := d]> cs0) = zlength cs0) as Hl by (unfold zlength; by rewrite length_insert).
  destruct (Z.leb_spec 0 j), (Z.ltb_spec j (zlength cs0)); try lia. cbn [andb].
  destruct (IH (<[Z.to_nat j := d]> cs0) (assign_column cols (j, v)) st1 (j + 1) e)
    as (cs1 & st' & Hrun & Hok' & Hex' & Hr' & Hre' & Hf' & Hu' & Hat); try done; try lia.
  - unfold assign_column. cbn. apply Forall2_insert; [|done].
    eapply Forall2_impl; [exact Hf|]. intros. by eapply column_is_extends.
  - eapply unshared_insert; [done|exact Hb|]. intros Hx%Hd. lia.
  - intros i x Hx. destruct (decide (i = Z.to_nat j)) as [->|].
    + rewrite list_lookup_insert_eq in Hx by (unfold zlength in *; lia). simplify_eq.
      pose proof (ao_next _ Hok1). destruct (decide (x = 0)) as [->|Hx]; [lia|]. apply Hd in Hx. lia.
    + rewrite list_lookup_insert_ne in Hx by done. apply Hb in Hx. pose proof (ex_next _ _ Hex). lia.
  - exists cs1, st'. split_and!; try done; try congruence; [by eapply extends_trans|].
    intros i. destruct (Hat i) as [[Hi Hnot]|(x & w & Hx & Hin & Hge)].
    + destruct (decide (i = Z.to_nat j)) as [->|].
      * right. exists d, v. rewrite Hi, list_lookup_insert_eq by (unfold zlength in *; lia).
        rewrite Z2Nat.id by lia. split_and!; [done|apply list_elem_of_here|].
        destruct (decide (d = 0)); [by left|]. right. by apply Hd.
      * left. split; [by rewrite Hi, list_lookup_insert_ne|].
        intros w [Hw|Hw]%elem_of_cons; [|by eapply Hnot]. injection Hw as Hj _. lia.
    + right. exists x, w. pose proof (ex_next _ _ Hex). split_and!; [done|by apply list_elem_of_further|].
      destruct Hge; [by left|right; lia].
Qed.

(** * [update] *)
Definition array_fits (cols : list (list Z)) : Prop := zlength cols < 2 ^ 15.

Lemma last_new_ncol cs : forall n c e j v, increasing cs c e -> last cs = Some (j, v) ->
  foldl (fun n (x : Z * list Z) => Z.max n (fst x + 1)) n cs = Z.max n (j + 1).
Proof.
  induction cs as [|[i w] cs IH]; intros n c e j v Hinc Hl; [done|]. destruct Hinc as [H1 H2]. cbn [foldl fst].
  destruct cs as [|[i2 w2] cs].
  - by injection Hl as -> ->.
  - rewrite last_cons_cons in Hl. rewrite (IH _ (i + 1) e j v) by done. destruct H2 as [H2 H3].
    assert (i < j); [|lia]. apply last_Some_elem_of in Hl.
    pose proof (increasing_below ((i2, w2) :: cs) (i + 1) e j v ltac:(by split) Hl). lia.
Qed.

Lemma Forall2_zlength {A B} (P : A -> B -> Prop) l k : Forall2 P l k -> zlength l = zlength k.
Proof. intros H. unfold zlength. by rewrite (Forall2_length _ _ _ H). Qed.
Lemma array_bound st r ts cols i c : arrays_ok st -> array_is st r ts cols -> cols_ r !! i = Some c -> c < next_ st.
Proof.
  intros Hok Hr Hc. destruct (Forall2_lookup_l _ _ _ _ _ (ai_cols _ _ _ _ Hr) Hc) as (v & _ & [[-> _]|[_ Hs]]).
  - apply (ao_next _ Hok).
  - apply (ao_strings _ Hok). by rewrite Hs.
Qed.
Lemma unshared_pad cs k : unshared cs -> unshared (cs ++ replicate k 0).
Proof.
  intros Hu i j c Hi Hj Hc.
  assert (forall i, (cs ++ replicate k 0) !! i = Some c -> cs !! i = Some c) as Hin; [|eauto].
  intros x Hx. apply lookup_app_Some in Hx as [?|[_ Hx]]; [done|]. apply lookup_replicate in Hx. lia.
Qed.

Lemma update_row_spec st r ts0 cols cs ts :
  arrays_ok st -> array_is st r ts0 cols -> changes_ok cs -> cs <> [] -> array_fits (put_columns cols cs) -> ts0 <= ts ->
  exists r' st', update_row r cs ts st = Some (r', st') /\ arrays_ok st' /\ extends st st' /\ rows_ st' = rows_ st /\
    retired_ st' = retired_ st /\ array_is st' r' ts (put_columns cols cs) /\
    forall i, (cols_ r' !! i = (cols_ r ++ replicate (Z.to_nat (new_ncol cols cs - zlength cols)) 0) !! i /\
        forall w, (Z.of_nat i, w) ∉ cs) \/
      exists d w, cols_ r' !! i = Some d /\ (Z.of_nat i, w) ∈ cs /\ (d = 0 \/ next_ st <= d).
Proof.
  intros Hok Hr [e Hinc] Hne Hf Hts. unfold update_row, array_fits in *. rewrite (ai_ts _ _ _ _ Hr).
  destruct (Z.ltb_spec ts ts0); [lia|]. destruct (last cs) as [[j v]|] eqn:Hlast; [|by apply last_None in Hlast].
  cbn. rewrite zlength_put in Hf. pose proof (last_new_ncol cs (zlength cols) 0 e j v Hinc Hlast) as Hn.
  fold (new_ncol cols cs) in Hn. pose proof (zlength_nonneg cols).
  pose proof (last_Some_elem_of _ _ Hlast) as Hj. pose proof (increasing_below _ _ _ _ _ Hinc Hj).
  rewrite (swrap_id 32) by (unfold in_s; lia). rewrite (ai_ncol _ _ _ _ Hr).
  rewrite <- Hn, (uwrap_id 32), (swrap_id 16) by (unfold in_u, in_s; lia).
  pose proof (Forall2_zlength _ _ _ (ai_cols _ _ _ _ Hr)) as Hlen.
  rewrite take_ge by (unfold zlength in *; lia). set (k := Z.to_nat (new_ncol cols cs - zlength cols)).
  destruct (assign_columns_spec cs (cols_ r ++ replicate k 0) (cols ++ replicate k []) st 0 (new_ncol cols cs))
    as (cs1 & st' & Hrun & Hok' & Hex & Hrows & Hret & Hcols & Hu & Hat); try done.
  - apply Forall2_app; [apply (ai_cols _ _ _ _ Hr)|]. apply Forall2_replicate. by left.
  - apply unshared_pad, (ai_unshared _ _ _ _ Hr).
  - intros i d [Hi|[_ Hi]]%lookup_app_Some; [by eapply array_bound|].
    apply lookup_replicate in Hi as [-> _]. apply (ao_next _ Hok).
  - eapply increasing_end; [done| |lia]. intros i w. apply new_ncol_fits.
  - rewrite zlength_app, zlength_replicate. lia.
  - eexists _, _. split; [rewrite Hrun; reflexivity|]. cbn. split_and!; try done.
    split; cbn; try done; by rewrite zlength_put.
Qed.

Lemma place_spec st r ts cols :
  arrays_ok st -> array_is st r ts cols -> let '(p, st') := place r st in
  arrays_ok st' /\ extends st st' /\ array_at st' p ts cols /\ p = next_ st.
Proof.
  intros [Hn Hr Hs] Ha. cbn. split_and!; [..|done].
  - split; cbn; [lia| |intros c Hc%Hs; lia]. intros p Hp. destruct (decide (p = next_ st)) as [->|]; [lia|].
    rewrite lookup_insert_ne in Hp by done. apply Hr in Hp. lia.
  - split; cbn; [lia| |done]. intros p q Hp. rewrite lookup_insert_ne; [done|]. intros <-.
    assert (next_ st < next_ st) by (apply Hr; by rewrite Hp). lia.
  - exists r. cbn. rewrite lookup_insert_eq. split; [done|]. destruct Ha. by split.
Qed.

(** What a new row's address is, and that the others keep theirs. *)
Definition fresh_row (st st' : arrays) (p ts : Z) (cols : list (list Z)) : Prop :=
  arrays_ok st' /\ array_at st' p ts cols /\ p <> 0 /\
  forall q t c, array_at st q t c -> q <> p /\ array_at st' q t c.
Lemma placed_row st st1 r ts cols :
  arrays_ok st -> arrays_ok st1 -> extends st st1 -> rows_ st1 = rows_ st -> array_is st1 r ts cols ->
  fresh_row st (snd (place r st1)) (fst (place r st1)) ts cols.
Proof.
  intros Hok Hok1 Hex Hrows Hr. destruct (place_spec st1 r ts cols Hok1 Hr) as (H1 & H2 & H3 & H4).
  unfold fresh_row, place in *. cbn [fst snd] in *. split_and!; try done.
  - pose proof (ao_next _ Hok1). lia.
  - intros q t c Hq. split; [|exact (array_at_extends _ _ _ _ _ (extends_trans _ _ _ Hex H2) Hq)].
    destruct Hq as (r0 & Hq & _). pose proof (ao_rows _ Hok q ltac:(by rewrite Hq)). pose proof (ex_next _ _ Hex). lia.
Qed.

(** * Deallocation *)
Lemma array_retire_ok p sz st : arrays_ok st -> arrays_ok (retire p sz st) /\ extends st (retire p sz st).
Proof. intros [H1 H2 H3]. split; [by split|]. split; cbn; [lia|done|done]. Qed.

(** The blocks that retiring the columns [cs] retires. *)
Definition column_blocks (st : arrays) (cs : list Z) : list (Z * Z) :=
  omap (fun c => if c =? 0 then None else pair c <$> column_size st c) cs.

Lemma column_blocks_same st st' cs : strings_ st' = strings_ st -> column_blocks st' cs = column_blocks st cs.
Proof. intros H. unfold column_blocks, column_size. by rewrite H. Qed.
Lemma deallocate_columns_spec cs : forall st, arrays_ok st -> Forall (fun c => exists v, column_is st c v) cs ->
  exists st', deallocate_columns_rcu cs st = Some st' /\ arrays_ok st' /\ extends st st' /\
    rows_ st' = rows_ st /\ strings_ st' = strings_ st /\ retired_ st' = retired_ st ++ column_blocks st cs.
Proof.
  induction cs as [|c cs IH]; intros st Hok Hcs; cbn [deallocate_columns_rcu].
  { exists st. rewrite app_nil_r. split_and!; try done; apply extends_refl. }
  inversion_clear Hcs as [|? ? [v Hv] Hcs']. unfold deallocate_column_rcu.
  destruct (Z.eqb_spec c 0) as [->|Hc]; cbn.
  { destruct (IH st Hok Hcs') as (st' & Hrun & H). by exists st'. }
  destruct Hv as [[? _]|[_ Hv]]; [done|]. unfold column_size at 1. rewrite Hv. cbn.
  set (sz := sizeof_inline_string + zlength v). destruct (array_retire_ok c sz st Hok) as [Hok1 Hex1].
  destruct (IH (retire c sz st) Hok1) as (st' & Hrun & Hok' & Hex & Hr & Hs & Hret).
  { eapply Forall_impl; [exact Hcs'|]. intros y [w Hw]. exists w. by eapply column_is_extends. }
  exists st'. split_and!; try done; [by eapply extends_trans|]. rewrite Hret. cbn [retire retired_ column_blocks omap list_omap].
  replace (c =? 0) with false by (symmetry; by apply Z.eqb_neq). unfold column_size at 1. rewrite Hv. cbn.
  rewrite <- app_assoc. cbn. by rewrite (column_blocks_same st).
Qed.

Lemma retired_row st p ts cols l r :
  arrays_ok st -> rows_ st !! p = Some r -> array_is st r ts cols -> Forall (fun c => c ∈ cols_ r) l ->
  exists st', (st1 ← deallocate_columns_rcu l st; Some (retire p (shallow_size (ncol_ r)) st1)) = Some st' /\
    arrays_ok st' /\ extends st st' /\ strings_ st' = strings_ st /\
    retired_ st' = retired_ st ++ column_blocks st l ++ [(p, shallow_size (ncol_ r))].
Proof.
  intros Hok Hp Hr Hl. destruct (deallocate_columns_spec l st Hok) as (st1 & -> & Hok1 & Hex & _ & Hs & Hret).
  - eapply Forall_impl; [exact Hl|]. intros c [i Hi]%list_elem_of_lookup.
    destruct (Forall2_lookup_l _ _ _ _ _ (ai_cols _ _ _ _ Hr) Hi) as (v & _ & Hv). eauto.
  - destruct (array_retire_ok p (shallow_size (ncol_ r)) st1 Hok1) as [Hok2 Hex2]. eexists. split; [reflexivity|].
    split_and!; [done|by eapply extends_trans|done|]. cbn. by rewrite Hret, app_assoc.
Qed.

Lemma replaced_spec r cs : forall c e, increasing cs c e -> 0 <= c -> 0 <= ncol_ r < 2 ^ 15 -> zlength (cols_ r) = ncol_ r ->
  exists l, replaced r cs = Some l /\
    forall i x, cols_ r !! i = Some x -> unshared (cols_ r) -> x <> 0 -> (x ∈ l <-> exists w, (Z.of_nat i, w) ∈ cs).
Proof.
  induction cs as [|[j v] cs IH]; intros c e Hinc Hc Hn Hl; cbn [replaced].
  { exists []. split; [done|]. intros i x _ _ _. split; [by intros ?%elem_of_nil|]. by intros [w ?%elem_of_nil]. }
  destruct Hinc as [H1 H2]. rewrite uwrap_id by (unfold in_u; lia). destruct (Z.ltb_spec j (ncol_ r)).
  - destruct (zlookup_Some (cols_ r) j) as [y Hy]; [lia|]. rewrite Hy. cbn.
    destruct (IH (j + 1) e) as (l & -> & Hin); [done|lia|done|done|]. exists (y :: l). split; [done|].
    rewrite zlookup_nonneg in Hy by lia.
    intros i x Hx Hu Hx0. rewrite elem_of_cons, (Hin i x Hx Hu Hx0). split.
    + intros [->|[w Hw]]; [|exists w; by apply list_elem_of_further].
      assert (i = Z.to_nat j) as -> by (by eapply Hu). exists v. rewrite Z2Nat.id by lia. apply list_elem_of_here.
    + intros [w [Hw|Hw]%elem_of_cons]; [left|right; eauto].
      injection Hw as Hj _. assert (Z.to_nat j = i) as Hi by lia. rewrite Hi in Hy. congruence.
  - exists []. split; [done|]. intros i x Hx _ _. split; [by intros ?%elem_of_nil|]. intros [w Hw].
    apply lookup_lt_Some in Hx. unfold zlength in Hl.
    pose proof (increasing_below ((j, v) :: cs) j e _ _ ltac:(by split) Hw). lia.
Qed.
Lemma replaced_elem r cs l : replaced r cs = Some l -> Forall (fun c => c ∈ cols_ r) l.
Proof.
  revert l. induction cs as [|[j v] cs IH]; intros l; cbn [replaced].
  { intros [= <-]. by apply Forall_nil. }
  destruct (j <? uwrap 32 (ncol_ r)); [|intros [= <-]; by apply Forall_nil].
  destruct (zlookup (cols_ r) j) as [y|] eqn:Hy; [|done]. cbn. destruct (replaced r cs) as [l'|]; [|done].
  cbn. intros [= <-]. apply Forall_cons. split; [|by apply IH].
  unfold zlookup in Hy. destruct (j <? 0); [done|]. apply list_elem_of_lookup. eauto.
Qed.

Lemma update_at_spec st p ts0 cols cs ts :
  arrays_ok st -> array_at st p ts0 cols -> changes_ok cs -> cs <> [] -> array_fits (put_columns cols cs) -> ts0 <= ts ->
  exists p' st', update p cs ts st = Some (p', st') /\ fresh_row st st' p' ts (put_columns cols cs).
Proof.
  intros Hok (r & Hp & Hr) Hcs Hne Hf Hts.
  destruct (update_row_spec st r ts0 cols cs ts Hok Hr Hcs Hne Hf Hts) as (r' & st1 & Hrun & Hok1 & Hex & Hrows & _ & Hr' & _).
  unfold update. rewrite Hp. cbn. rewrite Hrun. cbn. eexists _, _. split; [reflexivity|].
  by apply (placed_row st st1 r').
Qed.

Lemma make_is st : arrays_ok st -> array_is st make 0 [].
Proof. intros _. split; [done|done|done|by apply Forall2_nil|]. by intros i j c Hi. Qed.

(** Arrays are a row type. *)
#[global] Program Instance array_laws : @RowLaws arrays array_type := {
  rows_ok := arrays_ok;
  row_at := array_at;
  row_fits := array_fits }.
Next Obligation. intros i Hi. cbn. unfold swrap, uwrap. rewrite Z.mod_small by lia. lia. Qed.
Next Obligation. intros st p ts cols (r & Hp & Hr). cbn. rewrite Hp. cbn. by rewrite (ai_ts _ _ _ _ Hr). Qed.
Next Obligation. intros st p ts cols (r & Hp & Hr). cbn. rewrite Hp. cbn. by rewrite (ai_ncol _ _ _ _ Hr). Qed.
Next Obligation.
  intros st p ts cols i (r & Hp & Hr) Hi. cbn. rewrite Hp. cbn. unfold col.
  pose proof (ai_fits _ _ _ _ Hr). pose proof (zlength_nonneg cols).
  rewrite (ai_ncol _ _ _ _ Hr), !uwrap_id by (unfold in_u; lia).
  destruct (Z.ltb_spec i (zlength cols)); [|by rewrite zlookup_ge by lia].
  destruct (zlookup_Some cols i) as [v Hv]; [lia|]. rewrite Hv. cbn.
  rewrite zlookup_nonneg in Hv by lia. rewrite zlookup_nonneg by lia.
  destruct (Forall2_lookup_r _ _ _ _ _ (ai_cols _ _ _ _ Hr) Hv) as (c & -> & [[-> ->]|[Hc Hs]]); [done|]. cbn.
  by replace (c =? 0) with false by (symmetry; by apply Z.eqb_neq).
Qed.
Next Obligation.
  intros st p ts0 cols cs ts Hok Hp Hcs Hne Hf Hts.
  destruct (update_at_spec st p ts0 cols cs ts Hok Hp Hcs Hne Hf Hts) as (p' & st' & Hrun & Hok' & Hat & Hp' & Hkeep).
  exists p', st', ts. split_and!; try done; [by left|]. intros q t c Hq. right. by apply Hkeep.
Qed.
Next Obligation.
  intros st cs ts Hok Hcs Hne Hf Hts. cbn.
  destruct (update_row_spec st make 0 [] cs ts Hok (make_is st Hok) Hcs Hne Hf Hts)
    as (r' & st1 & Hrun & Hok1 & Hex & Hrows & _ & Hr' & _).
  unfold create. rewrite Hrun. cbn. eexists _, _. split; [reflexivity|]. by apply (placed_row st st1 r').
Qed.
Next Obligation.
  intros st v ts Hok Hf _. cbn. unfold create1. pose proof (make_column_spec v st Hok) as Hm.
  destruct (make_column v st) as [c st1]. destruct Hm as (Hok1 & Hex & Hrows & Hc & _).
  eexists _, _. split; [reflexivity|]. apply (placed_row st st1 (mkRow ts 1 [c])); try done.
  split; try done; cbn.
  - by apply Forall2_cons.
  - intros i j x [Hi _]%list_lookup_singleton_Some [Hj _]%list_lookup_singleton_Some _. lia.
Qed.
Next Obligation.
  intros st p ts cols Hok (r & Hp & Hr). cbn. unfold deallocate_rcu. rewrite Hp. cbn.
  destruct (retired_row st p ts cols (take (Z.to_nat (ncol_ r)) (cols_ r)) r Hok Hp Hr) as (st' & Hrun & Hok' & Hex & _).
  { apply Forall_take, Forall_forall. auto. }
  exists st'. split_and!; [done|done|]. intros. by eapply array_at_extends.
Qed.
Next Obligation.
  intros st p ts cols cs Hok (r & Hp & Hr) [e Hcs]. cbn. unfold deallocate_rcu_after_update. rewrite Hp. cbn.
  pose proof (ai_fits _ _ _ _ Hr). pose proof (zlength_nonneg cols).
  destruct (replaced_spec r cs 0 e Hcs) as (l & Hl & _); [lia|rewrite (ai_ncol _ _ _ _ Hr); lia| |].
  { rewrite (Forall2_zlength _ _ _ (ai_cols _ _ _ _ Hr)). by rewrite (ai_ncol _ _ _ _ Hr). }
  rewrite Hl. cbn. destruct (retired_row st p ts cols l r Hok Hp Hr) as (st' & Hrun & Hok' & Hex & _); [by eapply replaced_elem|].
  exists st'. split_and!; [done|done|]. intros. by eapply array_at_extends.
Qed.

#[global] Instance array_fresh : @FreshUpdate arrays array_type array_laws.
Proof.
  intros st p ts0 cols cs ts p' st' Hok Hp Hcs Hne Hf Hts Hrun.
  destruct (update_at_spec st p ts0 cols cs ts Hok Hp Hcs Hne Hf Hts) as (p2 & st2 & Hrun' & _ & _ & _ & Hkeep).
  pose proof (eq_trans (eq_sym Hrun) Hrun') as [= -> ->]. intros ->. by destruct (Hkeep _ _ _ Hp).
Qed.

(** C16: After an update and the deallocation that follows it, the new row has
    the changed columns, the old row is still readable, and the blocks retired
    are the old row and those of its columns that the new row does not use:
    none that is in use, and all that are not. *)
Theorem array_update_retires st p r ts0 cols cs ts :
  arrays_ok st -> rows_ st !! p = Some r -> array_is st r ts0 cols -> changes_ok cs -> cs <> [] ->
  array_fits (put_columns cols cs) -> ts0 <= ts ->
  exists p' st1 st2 r' l,
    update p cs ts st = Some (p', st1) /\ deallocate_rcu_after_update p cs st1 = Some st2 /\
    rows_ st2 !! p' = Some r' /\ array_is st2 r' ts (put_columns cols cs) /\ array_is st2 r ts0 cols /\
    retired_ st2 = retired_ st ++ column_blocks st2 l ++ [(p, shallow_size (ncol_ r))] /\
    forall c, c ∈ cols_ r -> c <> 0 -> (c ∈ cols_ r' <-> c ∉ l).
Proof.
  intros Hok Hp Hr Hcs Hne Hf Hts.
  destruct (update_row_spec st r ts0 cols cs ts Hok Hr Hcs Hne Hf Hts)
    as (r' & st1 & Hrun & Hok1 & Hex & Hrows & Hret & Hr' & Hat).
  destruct (place_spec st1 r' ts _ Hok1 Hr') as (Hok2 & Hex2 & _). set (st2 := snd (place r' st1)).
  assert (array_is st2 r ts0 cols) as Hr2 by (apply (array_is_extends st); [by eapply extends_trans|done]).
  pose proof (ai_fits _ _ _ _ Hr) as Hfits. pose proof (zlength_nonneg cols). destruct Hcs as [e Hinc].
  destruct (replaced_spec r cs 0 e Hinc) as (l & Hl & Hin); [lia|rewrite (ai_ncol _ _ _ _ Hr); lia| |].
  { by rewrite (Forall2_zlength _ _ _ (ai_cols _ _ _ _ Hr)), (ai_ncol _ _ _ _ Hr). }
  assert (rows_ st2 !! p = Some r) as Hp2 by (apply (ex_rows _ _ Hex2), (ex_rows _ _ Hex), Hp).
  destruct (retired_row st2 p ts0 cols l r Hok2 Hp2 Hr2) as (st3 & Hrun3 & Hok3 & Hex3 & Hs3 & Hret3); [by eapply replaced_elem|].
  exists (next_ st1), st2, st3, r', l. split_and!.
  - unfold update. rewrite Hp. cbn. by rewrite Hrun.
  - unfold deallocate_rcu_after_update. rewrite Hp2. cbn. by rewrite Hl.
  - apply (ex_rows _ _ Hex3). cbn. by rewrite lookup_insert_eq.
  - apply (array_is_extends st1); [by eapply extends_trans|done].
  - by apply (array_is_extends st2).
  - rewrite Hret3, (column_blocks_same _ _ l Hs3). change (retired_ st2) with (retired_ st1). by rewrite Hret.
  - intros c [i Hi]%list_elem_of_lookup Hc. pose proof (ai_unshared _ _ _ _ Hr) as Hu.
    rewrite (Hin i c Hi Hu Hc). pose proof (array_bound _ _ _ _ _ _ Hok Hr Hi) as Hb. split.
    + intros [j Hj]%list_elem_of_lookup [w Hw].
      destruct (Hat j) as [[Hsame Hnot]|(d & w' & Hd & _ & Hge)]; [|simplify_eq; destruct Hge; lia].
      rewrite Hj in Hsame. symmetry in Hsame. apply lookup_app_Some in Hsame as [Hs|[_ Hs]].
      * assert (j = i) as -> by (by eapply Hu). by eapply Hnot.
      * apply lookup_replicate in Hs. lia.
    + intros Hno. destruct (Hat i) as [[Hsame _]|(d & w' & _ & Hw & _)]; [|exfalso; apply Hno; eauto].
      apply list_elem_of_lookup. exists i. rewrite Hsame. by apply lookup_app_l_Some.
Qed.

(** A row "ab" in which the first column changes and a second one is added. *)
Definition start_arrays : arrays := mkArrays ∅ ∅ 16 [] [].
Definition one_row : arrays := default start_arrays (snd <$> create1 [97; 98] 2 start_arrays).
Lemma array_update_retires_witness :
  exists p' st1 st2 r', update 22 [(0, [99]); (1, [100; 101])] 4 one_row = Some (p', st1) /\
    deallocate_rcu_after_update 22 [(0, [99]); (1, [100; 101])] st1 = Some st2 /\
    rows_ st2 !! p' = Some r' /\ array_is st2 r' 4 [[99]; [100; 101]].
Proof.
  destruct (array_update_retires one_row 22 (mkRow 2 1 [16]) 2 [[97; 98]] [(0, [99]); (1, [100; 101])] 4)
    as (p' & st1 & st2 & r' & l & H1 & H2 & H3 & H4 & _).
  - split; [by vm_compute|..]; intros x [y Hx].
    + unfold one_row in *. cbn in Hx |- *. apply lookup_insert_Some in Hx as [[<- _]|[_ Hx]]; [done|].
      by rewrite lookup_empty in Hx.
    + unfold one_row in *. cbn in Hx |- *. apply lookup_insert_Some in Hx as [[<- _]|[_ Hx]]; [done|].
      by rewrite lookup_empty in Hx.
  - by vm_compute.
  - split; try done.
    + apply Forall2_cons. split; [|by apply Forall2_nil]. right. split; [done|]. by vm_compute.
    + intros i j x [Hi _]%list_lookup_singleton_Some [Hj _]%list_lookup_singleton_Some _. lia.
  - exists 3. cbn. lia.
  - done.
  - by vm_compute.
  - lia.
  - exists p', st1, st2, r'. split; [exact H1|]. split; [exact H2|]. split; [exact H3|exact H4].
Defined.
