(* ===== verification/VersionedArray.v ===== *)
(** Rows as arrays with a version, [value_versioned_array] of
    [src/value_versioned_array.hh] and [src/value_versioned_array.cc]: an update
    of columns that the row has room for changes the row in place, between two
    steps of its version. *)
From S2P Require Import Prelude Compiler Memory Row ValueArray.

Module RowVersion.
(** [rowversion]: a counter of 31 bits below the dirty bit. *)
Definition ctr (v : Z) : Z := Z.land v (Z.ones 31).
Definition dirty (v : Z) : bool := Z.testbit v 31.
Definition setdirty (v : Z) : Z := Z.lor v 2147483648.
Definition clear (v : Z) : Z := Z.land v 2147483647.
Definition clearandbump (v : Z) : Z := Z.land (uwrap 32 (v + 1)) 2147483647.
Definition has_changed (v x : Z) : bool := negb (ctr x =? ctr v).
End RowVersion.

Module VersionedArray.
(** [cols_] has room for [ncol_cap_] columns. *)
Record versioned_array : Type := mkRow { ts_ : Z; ver_ : Z; ncol_ : Z; ncol_cap_ : Z; cols_ : list Z }.
(** Rows by address, and the memory of their columns. *)
Record versioned : Type := mkVersioned { vrows_ : gmap Z versioned_array; mem_ : ValueArray.arrays }.

Definition sizeof_versioned_array : Z := 16.
Definition shallow_size (ncol : Z) : Z := sizeof_versioned_array + 8 * ncol.
Definition make : versioned_array := mkRow 0 0 0 0 [].
Definition make_sized_row (ncol ts : Z) : versioned_array :=
  mkRow ts 0 (swrap 16 ncol) (swrap 16 ncol) (replicate (Z.to_nat ncol) 0).

(** A row at the next address; [n] columns are allocated. *)
Definition place (r : versioned_array) (n : Z) (st : versioned) : Z * versioned :=
  let m := mem_ st in let p := ValueArray.next_ m in
  (p, mkVersioned (<[p := r]> (vrows_ st))
    (ValueArray.mkArrays (ValueArray.rows_ m) (ValueArray.strings_ m) (p + Z.max 1 (shallow_size n))
      (ValueArray.retired_ m) (ValueArray.freed_ m))).
Definition col (st : versioned) (r : versioned_array) (i : Z) : option (list Z) :=
  if uwrap 32 i <? uwrap 32 (ncol_ r) then
    c ← zlookup (cols_ r) i; if c =? 0 then Some [] else ValueArray.strings_ (mem_ st) !! c
  else Some [].

(** ** [update] *)
(** The old column is given to [deallocate_rcu], and the new one made. *)
Fixpoint assign_columns (cs : changes) (cols : list Z) (m : ValueArray.arrays) : option (list Z * ValueArray.arrays) :=
  match cs with
  | [] => Some (cols, m)
  | (idx, v) :: cs =>
      c ← zlookup cols idx;
      m ← ValueArray.deallocate_column_rcu c m;
      let '(c, m) := ValueArray.make_column v m in
      cols ← zset cols idx c; assign_columns cs cols m
  end.
(** Whether the row is a copy, for how many columns, and the row. *)
Definition update_row (r : versioned_array) (cs : changes) (ts : Z) (always_copy : bool) (m : ValueArray.arrays) :
    option (bool * Z * versioned_array * ValueArray.arrays) :=
  x ← last cs;
  let ncol := swrap 32 (fst x + 1) in
  let copy := (ncol_cap_ r <? ncol) || always_copy in
  if copy && (ncol <? ncol_ r) then None
  else
    let row := if copy then mkRow ts 0 (swrap 16 ncol) (swrap 16 ncol) (take (Z.to_nat (ncol_ r)) (cols_ r)) else r in
    let cols := take (Z.to_nat (ncol_ r)) (cols_ row) ++ replicate (Z.to_nat (ncol - ncol_ r)) 0 ++
                drop (Z.to_nat (Z.max ncol (ncol_ r))) (cols_ row) in
    let ver := if copy then ver_ row else RowVersion.setdirty (ver_ row) in
    let n := if ncol_ row <? ncol then swrap 16 ncol else ncol_ row in
    y ← assign_columns cs cols m;
    let ver := if copy then ver else RowVersion.clearandbump ver in
    Some (copy, ncol, mkRow (ts_ row) ver n (ncol_cap_ row) (fst y), snd y).
Definition update (p : Z) (cs : changes) (ts : Z) (st : versioned) : option (Z * versioned) :=
  r ← vrows_ st !! p;
  x ← update_row r cs ts false (mem_ st);
  let '(copy, ncol, r, m) := x in
  if (copy : bool) then Some (place r ncol (mkVersioned (vrows_ st) m))
  else Some (p, mkVersioned (<[p := r]> (vrows_ st)) m).
Definition create (cs : changes) (ts : Z) (st : versioned) : option (Z * versioned) :=
  x ← update_row make cs ts true (mem_ st);
  let '(_, ncol, r, m) := x in Some (place r ncol (mkVersioned (vrows_ st) m)).
Definition create1 (value : list Z) (ts : Z) (st : versioned) : option (Z * versioned) :=
  let '(c, m) := ValueArray.make_column value (mem_ st) in
  Some (place (mkRow ts 0 1 1 [c]) 1 (mkVersioned (vrows_ st) m)).

(** ** Deallocation *)
Definition deallocate (p : Z) (st : versioned) : option versioned :=
  r ← vrows_ st !! p;
  m ← ValueArray.deallocate_columns (take (Z.to_nat (ncol_ r)) (cols_ r)) (mem_ st);
  Some (mkVersioned (delete p (vrows_ st))
    (ValueArray.mkArrays (ValueArray.rows_ m) (ValueArray.strings_ m) (ValueArray.next_ m) (ValueArray.retired_ m)
      (ValueArray.freed_ m ++ [(p, shallow_size (ncol_ r))]))).
Definition deallocate_rcu (p : Z) (st : versioned) : option versioned :=
  r ← vrows_ st !! p;
  m ← ValueArray.deallocate_columns_rcu (take (Z.to_nat (ncol_ r)) (cols_ r)) (mem_ st);
  Some (mkVersioned (vrows_ st) (ValueArray.retire p (shallow_size (ncol_ r)) m)).
(** The update has retired the old columns. *)
Definition deallocate_rcu_after_update (p : Z) (cs : changes) (st : versioned) : option versioned :=
  r ← vrows_ st !! p;
  Some (mkVersioned (vrows_ st) (ValueArray.retire p (shallow_size (ncol_ r)) (mem_ st))).

(** ** [snapshot] *)
(** The row that a query copies rows to, null at first.  [None] is an access out
    of its bounds. *)
Definition snapshot (storage p : Z) (f : list Z) (st : versioned) : option (Z * versioned) :=
  r ← vrows_ st !! p;
  x ← (match vrows_ st !! storage with
       | Some s =>
           if ncol_cap_ s <? ncol_ r then
             st ← deallocate storage st; Some (place (make_sized_row (ncol_ r) (ts_ r)) (ncol_ r) st)
           else Some (storage, st)
       | None => if storage =? 0 then Some (place (make_sized_row (ncol_ r) (ts_ r)) (ncol_ r) st) else None
       end);
  let '(storage, st) := x in
  s ← vrows_ st !! storage;
  cols ← (match f with
          | [i] => c ← zlookup (cols_ r) i; zset (cols_ s) i c
          | _ => Some (take (Z.to_nat (ncol_ r)) (cols_ r) ++ drop (Z.to_nat (ncol_ r)) (cols_ s))
          end);
  Some (storage, mkVersioned (<[storage := mkRow (ts_ s) (ver_ s) (ncol_ r) (ncol_cap_ s) cols]> (vrows_ st)) (mem_ st)).

(** ** Checkpoints *)
Definition checkpoint_write (st : versioned) (r : versioned_array) : option (list (list Z)) :=
  mapM (col st r) (seqZ 0 (ncol_ r)).
Definition checkpoint_read (vs : list (list Z)) (ts : Z) (st : versioned) : Z * versioned :=
  let r := make_sized_row (zlength vs) ts in
  let '(l, m) := ValueArray.make_columns vs (mem_ st) in
  place (mkRow ts (ver_ r) (ncol_ r) (ncol_cap_ r) l) (zlength vs) (mkVersioned (vrows_ st) m).

#[global] Instance versioned_type : RowType versioned := {
  row_index := swrap 16;
  row_name := [65; 114; 114; 97; 121; 86; 101; 114; 115; 105; 111; 110];
  row_timestamp st p := ts_ <$> vrows_ st !! p;
  row_ncol st p := ncol_ <$> vrows_ st !! p;
  row_col st p i := r ← vrows_ st !! p; col st r i;
  row_update := update;
  row_create := create;
  row_create1 := create1;
  row_deallocate_rcu := deallocate_rcu;
  row_deallocate_rcu_after_update := deallocate_rcu_after_update }.
End VersionedArray.
