(* ===== verification/VersionedSpec.v ===== *)
(** What [VersionedArray] computes: rows with a version are a row type, whose
    updates change a row in place when it has room. *)
From S2P Require Import Prelude Compiler Memory Row ValueArray ArraySpec VersionedArray.
Import VersionedArray.

Record versioned_ok (st : versioned) : Prop := {
  vo_mem : arrays_ok (mem_ st);
  vo_rows : forall p, is_Some (vrows_ st !! p) -> 0 < p < ValueArray.next_ (mem_ st) }.
Record versioned_is (st : versioned) (r : versioned_array) (ts : Z) (cols : list (list Z)) : Prop := {
  vi_ts : ts_ r = ts;
  vi_ncol : ncol_ r = zlength cols;
  vi_cap : zlength cols <= ncol_cap_ r < 2 ^ 15;
  vi_room : zlength (cols_ r) = ncol_cap_ r;
  vi_cols : Forall2 (column_is (mem_ st)) (take (length cols) (cols_ r)) cols }.
Definition versioned_at (st : versioned) (p ts : Z) (cols : list (list Z)) : Prop :=
  exists r, vrows_ st !! p = Some r /\ versioned_is st r ts cols.

Lemma versioned_is_extends st st' r ts cols : extends (mem_ st) (mem_ st') -> versioned_is st r ts cols -> versioned_is st' r ts cols.
Proof. intros H [? ? ? ? Hc]. split; try done. eapply Forall2_impl; [exact Hc|]. intros. by eapply column_is_extends. Qed.

(** ** Columns *)
Lemma retire_column c v m : arrays_ok m -> column_is m c v ->
  exists m', ValueArray.deallocate_column_rcu c m = Some m' /\ arrays_ok m' /\ extends m m'.
Proof.
  intros Hok [[-> _]|[Hc Hs]]; unfold ValueArray.deallocate_column_rcu.
  - exists m. split_and!; [done|done|apply extends_refl].
  - destruct (Z.eqb_spec c 0); [done|]. unfold ValueArray.column_size. rewrite Hs. cbn. eexists. split; [done|]. by apply array_retire_ok.
Qed.

(** The changes are assigned in front of [rest]. *)
Lemma versioned_assign_spec cs rest : forall pre cols m c e,
  arrays_ok m -> Forall2 (column_is m) pre cols -> increasing cs c e -> 0 <= c -> e <= zlength pre ->
  exists pre' m', assign_columns cs (pre ++ rest) m = Some (pre' ++ rest, m') /\ arrays_ok m' /\ extends m m' /\
    Forall2 (column_is m') pre' (foldl assign_column cols cs).
Proof.
  induction cs as [|[j v] cs IH]; intros pre cols m c e Hok Hf Hinc Hc He; cbn [assign_columns foldl].
  { exists pre, m. split_and!; [done|done|apply extends_refl|done]. }
  destruct Hinc as [H1 H2]. pose proof (increasing_bound _ _ _ H2).
  destruct (zlookup_Some pre j) as [d Hd]; [lia|]. rewrite zlookup_app_l, Hd by lia. cbn [mbind option_bind].
  rewrite zlookup_nonneg in Hd by lia. destruct (Forall2_lookup_l _ _ _ _ _ Hf Hd) as (w & _ & Hw).
  destruct (retire_column d w m Hok Hw) as (m1 & -> & Hok1 & Hex1). cbn [mbind option_bind].
  pose proof (make_column_spec v m1 Hok1) as Hm. destruct (ValueArray.make_column v m1) as [d' m2]. destruct Hm as (Hok2 & Hex2 & _ & Hcol & _).
  unfold zset. rewrite zlength_app. pose proof (zlength_nonneg rest).
  destruct (Z.leb_spec 0 j), (Z.ltb_spec j (zlength pre + zlength rest)); try lia. cbn [andb mbind option_bind].
  rewrite insert_app_l by (unfold zlength in *; lia).
  assert (zlength (<[Z.to_nat j := d']> pre) = zlength pre) as Hl by (unfold zlength; by rewrite length_insert).
  destruct (IH (<[Z.to_nat j := d']> pre) (assign_column cols (j, v)) m2 (j + 1) e) as (pre' & m' & Hrun & Hok' & Hex' & Hf'); try done; try lia.
  - apply Forall2_insert; [|done]. eapply Forall2_impl; [exact Hf|]. intros. by eapply column_is_extends, column_is_extends.
  - exists pre', m'. split_and!; [done|done|by eapply extends_trans, extends_trans|done].
Qed.

(** * [update] *)
Definition versioned_fits (cols : list (list Z)) : Prop := zlength cols < 2 ^ 15.

Lemma last_change cs cols : changes_ok cs -> cs <> [] -> exists x, last cs = Some x /\ 0 <= fst x /\
  new_ncol cols cs = Z.max (zlength cols) (fst x + 1) /\ increasing cs 0 (fst x + 1).
Proof.
  intros [e Hinc] Hne. destruct (last cs) as [[j v]|] eqn:Hl; [|by apply last_None in Hl].
  pose proof (last_Some_elem_of _ _ Hl) as Hin. pose proof (increasing_below _ _ _ _ _ Hinc Hin).
  exists (j, v). split; [done|]. cbn [fst]. split; [done|].
  pose proof (last_new_ncol cs (zlength cols) 0 e j v Hinc Hl) as Hn. split; [exact Hn|].
  eapply increasing_end; [exact Hinc| |lia]. intros i w Hi.
  pose proof (new_ncol_fits cs 0 i w Hi) as Hb. rewrite (last_new_ncol cs 0 0 e j v Hinc Hl) in Hb. lia.
Qed.

(** An update of the row [r], as a copy or in place. *)
Lemma versioned_update_row st r ts0 cols cs ts copy :
  versioned_ok st -> versioned_is st r ts0 cols -> changes_ok cs -> cs <> [] -> versioned_fits (put_columns cols cs) ->
  (copy = true -> cols = [] /\ ncol_cap_ r = 0) ->
  exists b n r' m, update_row r cs ts copy (mem_ st) = Some (b, n, r', m) /\ arrays_ok m /\ extends (mem_ st) m /\
    versioned_is (mkVersioned (vrows_ st) m) r' (if b then ts else ts0) (put_columns cols cs).
Proof.
  intros Hst Hr Hcs Hne Hf Hcopy. destruct (last_change cs cols Hcs Hne) as (x & Hlast & Hx & Hnew & Hinc).
  destruct Hr as [Hts Hncol Hcap Hroom Hcols]. unfold versioned_fits in Hf. rewrite zlength_put, Hnew in Hf. pose proof (zlength_nonneg cols).
  assert (swrap 32 (fst x + 1) = fst x + 1) as Hn by (unfold swrap, uwrap; rewrite Z.mod_small; lia).
  assert (swrap 16 (fst x + 1) = fst x + 1) as Hn16 by (unfold swrap, uwrap; rewrite Z.mod_small; lia).
  unfold update_row. rewrite Hlast. cbn [mbind option_bind]. rewrite Hn, Hncol.
  set (n := fst x + 1) in *. assert (((ncol_cap_ r <? n) || copy) && (n <? zlength cols) = false) as ->.
  { destruct copy; [destruct (Hcopy eq_refl) as [-> _]; change (zlength []) with 0 in *; destruct (Z.ltb_spec n 0); [lia|by rewrite andb_false_r]|].
    destruct (Z.ltb_spec (ncol_cap_ r) n), (Z.ltb_spec n (zlength cols)); (done || lia). }
  set (pre := take (length cols) (cols_ r) ++ replicate (Z.to_nat (n - zlength cols)) 0).
  assert (length (take (length cols) (cols_ r)) = length cols) as Htk by (rewrite length_take; unfold zlength in *; lia).
  assert (Forall2 (column_is (mem_ st)) pre (cols ++ replicate (Z.to_nat (new_ncol cols cs - zlength cols)) [])) as Hpre.
  { apply Forall2_app; [done|]. rewrite Hnew. replace (Z.max _ _ - _) with (Z.max 0 (n - zlength cols)) by lia.
    replace (Z.to_nat (Z.max 0 (n - zlength cols))) with (Z.to_nat (n - zlength cols)) by lia.
    apply Forall2_replicate. by left. }
  assert (zlength pre = Z.max (zlength cols) n) as Hlpre by (unfold pre, zlength in *; rewrite length_app, Htk, length_replicate; lia).
  assert (Z.to_nat (zlength cols) = length cols) as -> by (unfold zlength; lia).
  destruct ((ncol_cap_ r <? n) || copy) eqn:Hb; cbn [ncol_ cols_ ver_ ts_ ncol_cap_ negb].
  - assert (zlength cols <= n) as Hle.
    { destruct copy; [destruct (Hcopy eq_refl) as [-> _]; change (zlength []) with 0; lia|].
      rewrite orb_false_r in Hb. apply Z.ltb_lt in Hb. lia. }
    rewrite take_take, Nat.min_id, drop_ge, app_nil_r by (rewrite Htk; unfold zlength in *; lia). fold pre.
    destruct (versioned_assign_spec cs [] pre _ (mem_ st) 0 n (vo_mem _ Hst) Hpre Hinc) as (pre' & m & Hrun & Hok & Hex & Hf'); [lia|lia|].
    rewrite !app_nil_r in Hrun. rewrite Hrun. cbn [mbind option_bind fst snd]. eexists true, n, _, m. split; [done|]. split; [done|]. split; [done|].
    assert (zlength pre' = n) as Hp'.
    { unfold zlength. rewrite (Forall2_length _ _ _ Hf'). fold (put_columns cols cs). change (zlength (put_columns cols cs) = n). rewrite zlength_put, Hnew. lia. }
    rewrite Hn16. split; cbn [ts_ ncol_ ncol_cap_ cols_]; rewrite ?zlength_put, ?Hnew; try lia.
    + destruct (Z.ltb_spec n n); lia.
    + fold (put_columns cols cs) in Hf'. rewrite take_ge; [done|]. rewrite (Forall2_length _ _ _ Hf'). lia.
  - apply orb_false_iff in Hb as [Hb ->]. apply Z.ltb_ge in Hb.
    rewrite app_assoc. fold pre.
    destruct (versioned_assign_spec cs (drop (Z.to_nat (Z.max n (zlength cols))) (cols_ r)) pre _ (mem_ st) 0 n (vo_mem _ Hst) Hpre Hinc)
      as (pre' & m & Hrun & Hok & Hex & Hf'); [lia|lia|].
    rewrite Hrun. cbn [mbind option_bind fst snd]. eexists false, n, _, m. split; [done|]. split; [done|]. split; [done|].
    fold (put_columns cols cs) in Hf'. pose proof (Forall2_length _ _ _ Hf') as Hlen.
    assert (zlength pre' = Z.max (zlength cols) n) as Hp' by (unfold zlength at 1; rewrite Hlen; change (zlength (put_columns cols cs) = Z.max (zlength cols) n); by rewrite zlength_put).
    split; cbn [ts_ ncol_ ncol_cap_ cols_]; rewrite ?zlength_put, ?Hnew; try lia; try done.
    + rewrite Hncol, Hn16. destruct (Z.ltb_spec (zlength cols) n); lia.
    + rewrite zlength_app, Hp'. unfold zlength in *. rewrite length_drop. lia.
    + rewrite <- Hlen, take_app_length. exact Hf'.
Qed.

(** ** Rows in memory *)
(** A new row of the memory [m] that extends the old one. *)
Lemma versioned_place st m r n ts cols :
  versioned_ok st -> arrays_ok m -> extends (mem_ st) m -> versioned_is (mkVersioned (vrows_ st) m) r ts cols ->
  let '(p, st') := place r n (mkVersioned (vrows_ st) m) in
  versioned_ok st' /\ versioned_at st' p ts cols /\ p <> 0 /\
    forall q t c, versioned_at st q t c -> q <> p /\ versioned_at st' q t c.
Proof.
  intros Hst Hok Hex Hr. cbn [place mem_ vrows_]. pose proof (ao_next _ Hok) as H0. pose proof (ex_next _ _ Hex) as Hle.
  set (m' := ValueArray.mkArrays _ _ _ _ _). assert (extends m m') as Hex'.
  { split; cbn; [lia|done|done]. }
  split_and!.
  - split; [|cbn [vrows_ mem_]].
    + destruct Hok as [_ Hr' Hs]. split; cbn; [lia|intros p Hp%Hr'; lia|intros c Hc%Hs; lia].
    + intros p Hp. cbn. destruct (decide (p = ValueArray.next_ m)) as [->|]; [lia|]. rewrite lookup_insert_ne in Hp by done.
      apply (vo_rows _ Hst) in Hp. lia.
  - exists r. cbn [vrows_]. rewrite lookup_insert_eq. split; [done|]. by eapply versioned_is_extends; [|exact Hr].
  - lia.
  - intros q t c (r0 & Hq & Hr0). pose proof (vo_rows _ Hst q ltac:(by rewrite Hq)). split; [lia|].
    exists r0. cbn [vrows_]. rewrite lookup_insert_ne by lia. split; [done|].
    eapply versioned_is_extends; [|exact Hr0]. by eapply extends_trans.
Qed.
(** Retired blocks stay readable. *)
Lemma versioned_retire st p sz m : versioned_ok st -> arrays_ok m -> extends (mem_ st) m ->
  versioned_ok (mkVersioned (vrows_ st) (ValueArray.retire p sz m)) /\
  forall q t c, versioned_at st q t c -> versioned_at (mkVersioned (vrows_ st) (ValueArray.retire p sz m)) q t c.
Proof.
  intros Hst Hok Hex. destruct (array_retire_ok p sz m Hok) as [Hok' Hex']. pose proof (ex_next _ _ Hex). pose proof (ex_next _ _ Hex').
  split; [split; [done|]|].
  - intros q Hq%(vo_rows _ Hst). cbn [mem_]. lia.
  - intros q t c (r & Hq & Hr). exists r. split; [done|]. eapply versioned_is_extends; [|exact Hr]. by eapply extends_trans.
Qed.

(** An update changes its row in place, with its old timestamp, or makes a new
    one. *)
Lemma versioned_update st p ts0 cols cs ts :
  versioned_ok st -> versioned_at st p ts0 cols -> changes_ok cs -> cs <> [] -> versioned_fits (put_columns cols cs) ->
  exists p' st' ts', update p cs ts st = Some (p', st') /\ versioned_ok st' /\ versioned_at st' p' ts' (put_columns cols cs) /\
    p' <> 0 /\ (ts' = ts \/ p' = p /\ ts' = ts0) /\
    forall q t c, versioned_at st q t c -> q = p' /\ p' = p \/ q <> p' /\ versioned_at st' q t c.
Proof.
  intros Hst (r & Hp & Hr) Hcs Hne Hf. pose proof (vo_rows _ Hst p ltac:(by rewrite Hp)) as Hp0.
  destruct (versioned_update_row st r ts0 cols cs ts false Hst Hr Hcs Hne Hf) as (b & n & r' & m & Hrun & Hok & Hex & Hr'); [done|].
  unfold update. rewrite Hp. cbn [mbind option_bind]. rewrite Hrun. cbn [mbind option_bind]. destruct b.
  - pose proof (versioned_place st m r' n ts _ Hst Hok Hex Hr') as H.
    destruct (place r' n (mkVersioned (vrows_ st) m)) as [p' st'].
    destruct H as (H1 & H2 & H3 & H4). exists p', st', ts. split_and!; try done; [by left|]. intros q t c Hq. right. by apply H4.
  - exists p. eexists _, ts0. split; [done|]. pose proof (ex_next _ _ Hex). split_and!; [split; [done|]| |lia|by right|].
    + intros q Hq. cbn [vrows_ mem_] in *. destruct (decide (q = p)) as [->|]; [lia|]. rewrite lookup_insert_ne in Hq by done.
      apply (vo_rows _ Hst) in Hq. lia.
    + exists r'. cbn [vrows_]. rewrite lookup_insert_eq. split; [done|]. by eapply versioned_is_extends; [|exact Hr'].
    + intros q t c (r0 & Hq & Hr0). destruct (decide (q = p)) as [->|Hqp]; [by left|right]. split; [done|].
      exists r0. cbn [vrows_]. rewrite lookup_insert_ne by done. split; [done|]. by eapply versioned_is_extends; [|exact Hr0].
Qed.

Lemma versioned_make st : versioned_is st make 0 [].
Proof. by split. Qed.

(** Rows with a version are a row type. *)
#[global] Program Instance versioned_laws : @RowLaws versioned versioned_type := {
  rows_ok := versioned_ok;
  row_at := versioned_at;
  row_fits := versioned_fits }.
Next Obligation. intros i Hi. cbn. unfold swrap, uwrap. rewrite Z.mod_small by lia. lia. Qed.
Next Obligation. intros st p ts cols (r & Hp & Hr). cbn. rewrite Hp. cbn. by rewrite (vi_ts _ _ _ _ Hr). Qed.
Next Obligation. intros st p ts cols (r & Hp & Hr). cbn. rewrite Hp. cbn. by rewrite (vi_ncol _ _ _ _ Hr). Qed.
Next Obligation.
  intros st p ts cols i (r & Hp & Hr) Hi. cbn. rewrite Hp. cbn. unfold col.
  pose proof (vi_cap _ _ _ _ Hr). pose proof (zlength_nonneg cols).
  rewrite (vi_ncol _ _ _ _ Hr), !uwrap_id by (unfold in_u; lia).
  destruct (Z.ltb_spec i (zlength cols)); [|by rewrite zlookup_ge by lia].
  destruct (zlookup_Some cols i) as [v Hv]; [lia|]. rewrite Hv. cbn.
  rewrite zlookup_nonneg in Hv by lia. rewrite zlookup_nonneg by lia.
  destruct (Forall2_lookup_r _ _ _ _ _ (vi_cols _ _ _ _ Hr) Hv) as (c & Hc & Hcol).
  apply lookup_take_Some in Hc as [-> _]. destruct Hcol as [[-> ->]|[Hc Hs]]; [done|]. cbn.
  by replace (c =? 0) with false by (symmetry; by apply Z.eqb_neq).
Qed.
Next Obligation. intros st p ts0 cols cs ts Hok Hp Hcs Hne Hf _. by apply versioned_update. Qed.
Next Obligation.
  intros st cs ts Hok Hcs Hne Hf _. cbn.
  destruct (versioned_update_row st make 0 [] cs ts true Hok (versioned_make st) Hcs Hne Hf) as (b & n & r' & m & Hrun & Hok1 & Hex & Hr'); [done|].
  unfold create. rewrite Hrun. cbn [mbind option_bind]. assert (b = true) as ->.
  { unfold update_row in Hrun. destruct (last cs) as [x|]; [|done]. cbn [mbind option_bind] in Hrun. rewrite orb_true_r in Hrun.
    destruct (true && _); [done|]. destruct (assign_columns _ _ _) as [y|]; [|done]. by injection Hrun. }
  pose proof (versioned_place st m r' n ts _ Hok Hok1 Hex Hr') as H.
  destruct (place r' n (mkVersioned (vrows_ st) m)) as [p' st']. by exists p', st'.
Qed.
Next Obligation.
  intros st v ts Hok Hf _. cbn. unfold create1. pose proof (make_column_spec v (mem_ st) (vo_mem _ Hok)) as Hm.
  destruct (ValueArray.make_column v (mem_ st)) as [c m]. destruct Hm as (Hok1 & Hex & _ & Hc & _).
  pose proof (versioned_place st m (mkRow ts 0 1 1 [c]) 1 ts [v] Hok Hok1 Hex) as H.
  destruct (place (mkRow ts 0 1 1 [c]) 1 (mkVersioned (vrows_ st) m)) as [p' st']. exists p', st'. split; [done|]. apply H.
  split; try done. by apply Forall2_cons.
Qed.
Next Obligation.
  intros st p ts cols Hok (r & Hp & Hr). cbn. unfold deallocate_rcu. rewrite Hp. cbn [mbind option_bind].
  destruct (deallocate_columns_spec (take (Z.to_nat (ncol_ r)) (cols_ r)) (mem_ st) (vo_mem _ Hok)) as (m & Hrun & Hok1 & Hex & _).
  { rewrite (vi_ncol _ _ _ _ Hr). replace (Z.to_nat (zlength cols)) with (length cols) by (unfold zlength; lia).
    apply Forall_forall. intros c Hc%list_elem_of_lookup. destruct Hc as [i Hi].
    destruct (Forall2_lookup_l _ _ _ _ _ (vi_cols _ _ _ _ Hr) Hi) as (v & _ & Hv). by exists v. }
  rewrite Hrun. cbn [mbind option_bind]. eexists. split; [done|]. by apply versioned_retire.
Qed.
Next Obligation.
  intros st p ts cols cs Hok (r & Hp & Hr) _. cbn. unfold deallocate_rcu_after_update. rewrite Hp. cbn [mbind option_bind].
  eexists. split; [done|]. apply versioned_retire; [done|apply Hok|apply extends_refl].
Qed.

(** * A row that changes in place *)
(** The row at 9, of the columns "hi" and "yo". *)
Definition two_columns : versioned :=
  mkVersioned {[ 9 := mkRow 2 0 2 2 [16; 24] ]} (ValueArray.mkArrays ∅ {[ 16 := [104; 105]; 24 := [121; 111] ]} 100 [] []).
Lemma two_columns_ok : versioned_ok two_columns /\ versioned_at two_columns 9 2 [[104; 105]; [121; 111]].
Proof.
  split; [split; [split|]|].
  - done.
  - intros p [x Hx]. cbn in Hx. by rewrite lookup_empty in Hx.
  - intros c [x Hx]. cbn in Hx. apply lookup_insert_Some in Hx as [[<- _]|[_ Hx]]; [done|].
    by apply lookup_singleton_Some in Hx as [<- _].
  - intros p [x Hx]. cbn in Hx. by apply lookup_singleton_Some in Hx as [<- _].
  - eexists. split; [done|]. split; try done. cbn.
    apply Forall2_cons. split; [right; by split|]. apply Forall2_cons. split; [right; by split|by apply Forall2_nil].
Qed.
(** An update of its second column is at the same address, and keeps the
    timestamp. *)
Example updated_in_place :
  (x ← update 9 [(1, [33])] 4 two_columns; Some (fst x, row_timestamp (snd x) 9, row_col (snd x) 9 1)) =
  Some (9, Some 2, Some [33]).
Proof. by vm_compute. Qed.

(** A snapshot shares its columns with the row.  When the next row does not fit
    it, [snapshot] frees the columns of the first one, which is still live. *)
Definition two_rows : versioned :=
  mkVersioned {[ 9 := mkRow 2 0 1 1 [16]; 40 := mkRow 2 0 2 2 [24; 32] ]}
    (ValueArray.mkArrays ∅ {[ 16 := [104; 105]; 24 := [121; 111]; 32 := [33] ]} 100 [] []).
Example snapshot_frees_live_column :
  (x ← snapshot 0 9 [] two_rows; y ← snapshot (fst x) 40 [] (snd x); Some (row_col (snd x) 9 0, row_col (snd y) 9 0)) =
  Some (Some [104; 105], None).
Proof. by vm_compute. Qed.
(** A snapshot of one column, that the row does not have, is out of bounds. *)
Example snapshot_out_of_bounds : snapshot 0 9 [1] two_rows = None.
Proof. by vm_compute. Qed.
