(* ===== verification/Query.v ===== *)
(** Queries, [query] of [src/kvrow.hh]: a request on a table of rows of any
    type.  The values of the tree are addresses of rows. *)
From S2P Require Import Prelude Compiler Memory StringSlice Key Nodeversion Node Heap Get Insert Remove Scan Put.
From S2P Require Import CircularInt Threadinfo Row.

(** [loginfo::query_times]. *)
Record query_times : Type := mkTimes { qepoch : Z; qts : Z; qprev_ts : Z }.

Module Query.
Section query.
Context {St : Type} {rt : RowType St}.
(** What a query reads of [global_log_epoch]. *)
Context (global_log_epoch : Z).

(** The thread with its rows, the times of its query, and whether it holds the
    lock of its log. *)
Record query : Type := mkQuery { ti : threadinfo; rows : St; qtimes_ : query_times; log_locked : bool }.
Definition set_ti (q : query) (t : threadinfo) : query := mkQuery t (rows q) (qtimes_ q) (log_locked q).
Definition set_rows (q : query) (st : St) : query := mkQuery (ti q) st (qtimes_ q) (log_locked q).
Definition set_times (q : query) (t : query_times) : query := mkQuery (ti q) (rows q) t (log_locked q).

Definition row_is_marker (st : St) (p : Z) : option bool := (fun ts => negb (Z.land ts 1 =? 0)) <$> row_timestamp st p.
(** [log->acquire()] and the epoch; the lock is not reentrant. *)
Definition acquire_log (q : query) : option query :=
  match logger_ (ti q) with
  | None => Some q
  | Some _ =>
      if log_locked q then None
      else Some (mkQuery (ti q) (rows q) (mkTimes global_log_epoch (qts (qtimes_ q)) (qprev_ts (qtimes_ q))) true)
  end.
Definition assign_timestamp (q : query) : query :=
  set_times q (mkTimes (qepoch (qtimes_ q)) (Threadinfo.update_timestamp (ti q)) 0).
Definition assign_timestamp_after (q : query) (min_ts : Z) : query :=
  let '(ts, t) := Threadinfo.update_timestamp_after (ti q) min_ts in
  set_times (set_ti q t) (mkTimes (qepoch (qtimes_ q)) ts min_ts).
Definition observe_phantoms (phantom_epoch : Z) (q : query) : query :=
  set_ti q (Threadinfo.observe_phantoms (ti q) phantom_epoch).

(** ** Put and replace *)
(** From [insert:] on. *)
Definition insert_row (cs : changes) (q : query) : option (Z * bool * query) :=
  let q := assign_timestamp q in
  x ← row_create cs (qts (qtimes_ q)) (rows q); Some (fst x, true, set_rows q (snd x)).
(** [value] is the row that was found, if any; the result is the new value and
    whether the key counts as inserted. *)
Definition apply_put (cs : changes) (value : option Z) (q : query) : option (Z * bool * query) :=
  q ← acquire_log q;
  match value with
  | None => insert_row cs q
  | Some old_value =>
      ts ← row_timestamp (rows q) old_value;
      let q := assign_timestamp_after q ts in
      marker ← row_is_marker (rows q) old_value;
      if (marker : bool) then
        st ← row_deallocate_rcu old_value (rows q); insert_row cs (set_rows q st)
      else
        x ← row_update old_value cs (qts (qtimes_ q)) (rows q);
        let q := set_rows q (snd x) in
        if fst x =? old_value then Some (old_value, false, q)
        else st ← row_deallocate_rcu_after_update old_value cs (rows q); Some (fst x, false, set_rows q st)
  end.
Definition apply_replace (new_value : list Z) (value : option Z) (q : query) : option (Z * bool * query) :=
  q ← acquire_log q;
  y ← (match value with
       | None => Some (true, assign_timestamp q)
       | Some old_value =>
           inserted ← row_is_marker (rows q) old_value;
           ts ← row_timestamp (rows q) old_value;
           let q := assign_timestamp_after q ts in
           st ← row_deallocate_rcu old_value (rows q); Some (inserted, set_rows q st)
       end);
  let '(inserted, q) := y in
  x ← row_create1 new_value (qts (qtimes_ q)) (rows q);
  Some (fst x, inserted, set_rows q (snd x)).
(** The new [phantom_epoch_[0]] of the leaf. *)
Definition apply_remove (old_value node_ts : Z) (q : query) : option (Z * query) :=
  q ← acquire_log q;
  ts ← row_timestamp (rows q) old_value;
  let q := assign_timestamp_after q ts in
  let node_ts :=
    if CircularInt.less_equal 64 node_ts (qts (qtimes_ q)) then uwrap 64 (qts (qtimes_ q) + 2) else node_ts in
  st ← row_deallocate_rcu old_value (rows q);
  Some (node_ts, set_rows q st).

Context (unaligned : bool).

(** [Inserted] is [true] and [Updated] is [false]. *)
Definition run_put (fuel : nat) (okbuf s len : Z) (cs : changes) (q : query) : M (bool * query) :=
  run_insert unaligned fuel okbuf observe_phantoms (apply_put cs) s len q.
Definition run_replace (fuel : nat) (okbuf s len : Z) (value : list Z) (q : query) : M (bool * query) :=
  run_insert unaligned fuel okbuf observe_phantoms (apply_replace value) s len q.
Definition run_remove (fuel : nat) (s len : Z) (q : query) : M (bool * query) :=
  let! c := make_tcursor unaligned s len in
  let! c := find_locked unaligned fuel c in
  let found := negb (state_ c =? 0) in
  let! q := (if found then
      let! v := value c in
      let! l := get_leaf (n_ c) in
      let! x := lift (apply_remove v (phantom_epoch_ l) q) in
      update_leaf (n_ c) (fun l => Leaf.set_phantom_epoch l (fst x)) ;!
      ret (snd x)
    else ret q) in
  let! _ := finish fuel (-1) c in
  ret (found, q).

(** ** Get *)
Definition col_at (st : St) (v i : Z) : option (list Z) := row_col st v i.
(** The fields asked for; all columns when none is named.  The snapshot that
    [query_helper] makes is the row itself, as it is for rows that never change
    ([FreshUpdate]); [VersionedArray.snapshot] is another one. *)
Definition emit_fields (st : St) (v : Z) (f : list Z) : option (list (list Z)) :=
  match f with
  | [] => n ← row_ncol st v; mapM (col_at st v) (seqZ 0 n)
  | _ => mapM (col_at st v) f
  end.
(** One field stands for itself, more than one are an array. *)
Definition emit_fields1 (st : St) (v : Z) (f : list Z) : option (list Z + list (list Z)) :=
  n ← row_ncol st v;
  if (bool_decide (f = []) && (n =? 1)) || (zlength f =? 1) then inl <$> col_at st v (default 0 (head f))
  else inr <$> emit_fields st v f.
(** The row of a key: a marker stands for no row. *)
Definition live_row (st : St) (v : option Z) : option (option Z) :=
  match v with
  | None => Some None
  | Some p => marker ← row_is_marker st p; Some (if (marker : bool) then None else Some p)
  end.
Definition run_get (fuel : nat) (key : Str) (f : list Z) (st : St) : M (option (list (list Z))) :=
  let! v := get unaligned fuel key in
  let! v := lift (live_row st v) in
  match v with
  | None => ret None
  | Some p => let! l := lift (emit_fields st p f) in ret (Some l)
  end.
Definition run_get1 (fuel : nat) (key : Str) (col : Z) (st : St) : M (option (list Z)) :=
  let! v := get unaligned fuel key in
  let! v := lift (live_row st v) in
  match v with
  | None => ret None
  | Some p => let! x := lift (col_at st p col) in ret (Some x)
  end.

(** ** Scan *)
(** [query_json_scanner]: how many rows are still wanted, and the keys and
    fields put into the request; [None] after a failure. *)
Record query_json_scanner : Type := mkScanner { nleft_ : Z; request_ : list (list Z * (list Z + list (list Z))) }.
Definition visit_value (st : St) (f : list Z) (sc : option query_json_scanner) (key : list Z) (v : Z) :
    option query_json_scanner * bool :=
  match (sc ← sc; marker ← row_is_marker st v;
    if (marker : bool) then Some (sc, true)
    else
      x ← emit_fields1 st v f;
      let sc := mkScanner (swrap 32 (nleft_ sc - 1)) (request_ sc ++ [(key, x)]) in
      Some (sc, negb (nleft_ sc =? 0))) with
  | Some (sc, continue) => (Some sc, continue)
  | None => (None, false)
  end.
(** For [n] rows from [firstkey] on. *)
Definition run_scan (fuel : nat) (keybuf : Z) (firstkey : list Z) (n : Z) (f : list Z) (st : St) :
    M (option query_json_scanner * Z) :=
  require (0 <? n) ;!
  scan unaligned (visit_value st f) fuel keybuf firstkey true (Some (mkScanner n [])).
Definition run_rscan (fuel : nat) (keybuf : Z) (firstkey : list Z) (n : Z) (f : list Z) (st : St) :
    M (option query_json_scanner * Z) :=
  require (0 <? n) ;!
  rscan unaligned (visit_value st f) fuel keybuf firstkey true (Some (mkScanner n [])).
End query.
End Query.
