(* ===== verification/QuerySpec.v ===== *)
(** What the queries of [Query] answer, over any row type with [RowLaws]: a get
    reads the row of its key, and a put or a replace changes that row only. *)
From S2P Require Import Prelude Compiler Memory StringSlice Key Nodeversion Node Heap Get Insert Tree Find Steps LeafSpec Locate Put PutSpec Kept.
From S2P Require Import CircularInt Threadinfo Row ValueBag BagSpec VersionedArray VersionedSpec Query Table.
Import Query.

(** * Timestamps *)
(** Timestamps of rows are even; those of markers are odd. *)
Definition ts_ok (ts : Z) : Prop := Z.even ts = true /\ 0 <= ts < 2 ^ 62.

Lemma circ_less a b : 0 <= a < 2 ^ 62 -> 0 <= b < 2 ^ 62 ->
  CircularInt.less 64 a b = (a <? b) /\ CircularInt.less_equal 64 a b = (a <=? b).
Proof.
  intros Ha Hb. unfold CircularInt.less, CircularInt.less_equal.
  assert (swrap 64 (uwrap 64 (a - b)) = a - b) as ->.
  { rewrite swrap_uwrap. unfold swrap, uwrap. rewrite Z.mod_small by lia. lia. }
  split; apply eq_true_iff_eq; rewrite ?Z.ltb_lt, ?Z.leb_le; lia.
Qed.

Lemma next_even x : 0 <= x < 2 ^ 62 -> let ts := uwrap 64 (Z.lor x 1 + 1) in Z.even ts = true /\ x < ts <= x + 2.
Proof.
  intros Hx. cbv zeta. assert (Z.lor x 1 + 1 = 2 * (x / 2) + 2) as ->.
  { rewrite (Z.div_mod x 2) at 1 by lia. pose proof (Z.mod_pos_bound x 2).
    assert (Z.lor (2 * (x / 2) + x mod 2) 1 = 2 * (x / 2) + 1) as ->; [|lia].
    assert (x mod 2 = 0 \/ x mod 2 = 1) as [->| ->] by lia;
      assert (0 <= x / 2) by (apply Z.div_pos; lia); destruct (x / 2); cbn; done || lia. }
  pose proof (Z.div_mod x 2). pose proof (Z.mod_pos_bound x 2). unfold uwrap. rewrite Z.mod_small by lia.
  split; [|lia]. rewrite Z.even_add, Z.even_mul. done.
Qed.

(** A timestamp after [x] is even, and later than [x] and all earlier ones. *)
Lemma timestamp_after t x : ts_ok (Threadinfo.ts_ t) -> 0 <= x < 2 ^ 62 ->
  let '(ts, t') := Threadinfo.update_timestamp_after t x in
  Z.even ts = true /\ x < ts /\ Threadinfo.ts_ t <= ts /\ Threadinfo.ts_ t' = ts /\ logger_ t' = logger_ t /\
    ts <= Z.max (Threadinfo.ts_ t) (x + 2).
Proof.
  intros [He Hr] Hx. unfold Threadinfo.update_timestamp_after. destruct (circ_less (Threadinfo.ts_ t) x Hr Hx) as [_ ->].
  pose proof (next_even x Hx) as Hn. cbv zeta in Hn.
  destruct (Z.leb_spec (Threadinfo.ts_ t) x); cbn; split_and!; try tauto; try lia; done.
Qed.

Lemma observe_ok t ep : ts_ok (Threadinfo.ts_ t) -> ts_ok ep ->
  let t' := Threadinfo.observe_phantoms t ep in
  ts_ok (Threadinfo.ts_ t') /\ Threadinfo.ts_ t <= Threadinfo.ts_ t' /\ ep <= Threadinfo.ts_ t' /\ logger_ t' = logger_ t /\
    Threadinfo.ts_ t' <= Z.max (Threadinfo.ts_ t) ep.
Proof.
  intros Ht He. unfold Threadinfo.observe_phantoms. destruct (circ_less (Threadinfo.ts_ t) ep) as [-> _]; [apply Ht|apply He|].
  destruct (Z.ltb_spec (Threadinfo.ts_ t) ep); cbn; (split; [done|]); lia || (split_and!; lia || done).
Qed.

Lemma marker_odd ts : negb (Z.land ts 1 =? 0) = Z.odd ts.
Proof. rewrite <- Z.bit0_odd. change 1 with (Z.ones 1). rewrite Z.land_ones by lia. change (2 ^ 1) with 2.
  rewrite Zmod_odd, Z.bit0_odd. by destruct (Z.odd ts). Qed.

(** * Queries on rows *)
Section spec.
Context {St : Type} `{rl : RowLaws St} (gle : Z) (unaligned : bool).

(** The row a value of the table stands for. *)
Definition row_of (st : St) (v : option Z) (row : option (Z * list (list Z))) : Prop :=
  match v, row with
  | None, None => True
  | Some p, Some (ts, cols) => row_at st p ts cols /\ 0 <= ts < 2 ^ 62
  | _, _ => False
  end.
(** The columns of a key: none for no row or a marker. *)
Definition live_columns (row : option (Z * list (list Z))) : option (list (list Z)) :=
  match row with Some (ts, cols) => if Z.odd ts then None else Some cols | None => None end.
Definition column (i : Z) (cols : list (list Z)) : list Z := default [] (zlookup cols i).

Lemma live_row_spec st v row : row_of st v row ->
  exists p, live_row st v = Some p /\
    match p, live_columns row with
    | None, None => True
    | Some p, Some cols => exists ts, row_at st p ts cols
    | _, _ => False
    end.
Proof.
  destruct v as [p|], row as [[ts cols]|]; try done; [|by exists None]. intros [Hat _].
  unfold live_row, row_is_marker, live_columns. rewrite (at_timestamp _ _ _ _ Hat). cbn. rewrite marker_odd.
  destruct (Z.odd ts); eexists; (split; [done|]); [done|by exists ts].
Qed.

(** A get of one column. *)
Lemma run_get1_spec s B ns k st row i :
  table_rep s B ns -> 0 <= str_len k -> 0 <= i < 2 ^ 31 ->
  row_of st ((list_to_map B : gmap (list Z) Z) !! str_bytes (kmem s) k) row ->
  exists F, forall fuel, (F <= fuel)%nat ->
    run_get1 unaligned fuel k i st s = Some (column i <$> live_columns row, s).
Proof.
  intros Hrep Hk Hi Hrow. destruct (get_spec unaligned s B ns k Hrep Hk) as [F HF]. exists F. intros fuel Hf.
  destruct (live_row_spec _ _ _ Hrow) as (p & Hp & Hc). unfold run_get1.
  rewrite (bind_eq _ _ _ _ _ (HF fuel Hf)), (bind_lift _ _ _ _ Hp).
  destruct p as [p|], (live_columns row) as [cols|]; try done. destruct Hc as [ts Hat].
  unfold col_at. by rewrite (bind_lift _ _ _ _ (at_col _ _ _ _ _ Hat Hi)).
Qed.

(** The fields of a get: those named, or all. *)
Definition fields (f : list Z) (cols : list (list Z)) : list (list Z) :=
  match f with [] => cols | _ => map (fun i => column i cols) f end.
Lemma mapM_cols st p ts cols f : row_at st p ts cols -> Forall (fun i => 0 <= i < 2 ^ 31) f ->
  mapM (col_at st p) f = Some (map (fun i => column i cols) f).
Proof.
  intros Hat Hf. apply mapM_Some_2. induction Hf as [|i f Hi _ IH]; cbn; constructor; [|done]. by apply (at_col _ _ ts).
Qed.
Lemma emit_fields_spec st p ts cols f : row_at st p ts cols -> zlength cols < 2 ^ 31 ->
  Forall (fun i => 0 <= i < 2 ^ 31) f -> emit_fields st p f = Some (fields f cols).
Proof.
  intros Hat Hc Hf. unfold emit_fields, fields. destruct f as [|i f]; [|by eapply mapM_cols].
  rewrite (at_ncol _ _ _ _ Hat). cbn. rewrite (mapM_cols _ _ _ _ _ Hat).
  - f_equal. apply list_eq. intros j. rewrite list_lookup_fmap. destruct (decide (j < length cols)%nat) as [Hj|Hj].
    + rewrite lookup_seqZ_lt by (unfold zlength; lia). cbn. unfold column. rewrite zlookup_nonneg by lia.
      replace (Z.to_nat (0 + Z.of_nat j)) with j by lia. destruct (lookup_lt_is_Some_2 cols j Hj) as [x ->]. done.
    + rewrite (lookup_ge_None_2 cols) by lia. rewrite lookup_seqZ_ge by (unfold zlength; lia). done.
  - apply Forall_seqZ. intros. lia.
Qed.
Lemma run_get_spec s B ns k st row f :
  table_rep s B ns -> 0 <= str_len k -> Forall (fun i => 0 <= i < 2 ^ 31) f ->
  (forall cols, live_columns row = Some cols -> zlength cols < 2 ^ 31) ->
  row_of st ((list_to_map B : gmap (list Z) Z) !! str_bytes (kmem s) k) row ->
  exists F, forall fuel, (F <= fuel)%nat ->
    run_get unaligned fuel k f st s = Some (fields f <$> live_columns row, s).
Proof.
  intros Hrep Hk Hf Hcols Hrow. destruct (get_spec unaligned s B ns k Hrep Hk) as [F HF]. exists F. intros fuel Hfu.
  destruct (live_row_spec _ _ _ Hrow) as (p & Hp & Hc). unfold run_get.
  rewrite (bind_eq _ _ _ _ _ (HF fuel Hfu)), (bind_lift _ _ _ _ Hp).
  destruct p as [p|], (live_columns row) as [cols|]; try done. destruct Hc as [ts Hat].
  by rewrite (bind_lift _ _ _ _ (emit_fields_spec _ _ _ _ _ Hat (Hcols _ eq_refl) Hf)).
Qed.

(** ** Put and replace *)
(** A thread that may run a query: its log is not locked. *)
Definition query_ok (q : query) : Prop := rows_ok (rows q) /\ log_locked q = false /\ ts_ok (ts_ (ti q)).

Lemma acquire_ok q : query_ok q -> exists q', acquire_log gle q = Some q' /\
  rows q' = rows q /\ ti q' = ti q /\ log_locked q' = bool_decide (is_Some (logger_ (ti q))).
Proof.
  intros (_ & Hl & _). unfold acquire_log. rewrite Hl. destruct (logger_ (ti q)) eqn:E; eexists; split_and!; try done.
Qed.

(** What an operation on the row at [old] leaves: the row of [v], no marker, and
    all the other rows.  A new row is later than the old one and the thread's
    timestamp; a row that changed in place is not. *)
Record row_now (q : query) (old : option Z) (row : option (Z * list (list Z))) (v : Z) (cols : list (list Z)) (q' : query) : Prop := {
  rn_ok : rows_ok (rows q');
  rn_row : exists ts, row_at (rows q') v ts cols /\ Z.even ts = true /\ 0 <= ts <= ts_ (ti q') /\
    (old <> Some v -> ts_ (ti q) <= ts /\ (forall ts0 cols0, row = Some (ts0, cols0) -> ts0 < ts));
  rn_ts : Z.even (ts_ (ti q')) = true /\ ts_ (ti q) <= ts_ (ti q') <= Z.max (ts_ (ti q)) (default 0 (fst <$> row) + 2);
  rn_new : v <> 0;
  rn_frame : forall p ts c, row_at (rows q) p ts c -> p = v /\ old = Some v \/ p <> v /\ row_at (rows q') p ts c;
  rn_logger : logger_ (ti q') = logger_ (ti q);
  rn_log : log_locked q' = bool_decide (is_Some (logger_ (ti q))) }.

(** The columns a put starts from. *)
Definition old_columns (row : option (Z * list (list Z))) : list (list Z) := default [] (live_columns row).

Lemma insert_row_spec cs q0 q old row :
  rows_ok (rows q) -> changes_ok cs -> cs <> [] -> row_fits (put_columns [] cs) ->
  Z.even (ts_ (ti q)) = true -> 0 <= ts_ (ti q) -> ts_ (ti q0) <= ts_ (ti q) ->
  (forall ts0 cols0, row = Some (ts0, cols0) -> ts0 < ts_ (ti q)) -> row_of (rows q) old row ->
  (forall p ts c, row_at (rows q0) p ts c -> row_at (rows q) p ts c) ->
  logger_ (ti q) = logger_ (ti q0) -> ts_ (ti q) <= Z.max (ts_ (ti q0)) (default 0 (fst <$> row) + 2) ->
  log_locked q = bool_decide (is_Some (logger_ (ti q0))) ->
  exists v q', insert_row cs q = Some (v, true, q') /\ row_now q0 old row v (put_columns [] cs) q' /\ old <> Some v.
Proof.
  intros Hok Hcs Hne Hfit He Hr Hle Hlt Hold Hfr Hlg Hmax Hlog. unfold insert_row, assign_timestamp, Threadinfo.update_timestamp. cbn.
  destruct (create_law (rows q) cs (ts_ (ti q)) Hok Hcs Hne Hfit Hr) as (p & st & Hrun & Hok' & Hat & Hp & Hkeep).
  rewrite Hrun. cbn. eexists _, _. split; [done|]. split; [split; cbn; try done|].
  - exists (ts_ (ti q)). split_and!; done.
  - intros p' t c Hp'. right. by apply Hkeep, Hfr.
  - intros ->. destruct row as [[ts0 c0]|]; [|done]. destruct Hold as [Hold _]. by destruct (Hkeep _ _ _ Hold).
Qed.

Lemma apply_put_spec cs v q row :
  query_ok q -> row_of (rows q) v row -> changes_ok cs -> cs <> [] -> row_fits (put_columns (old_columns row) cs) ->
  exists v' q', apply_put gle cs v q = Some (v', bool_decide (live_columns row = None), q') /\
    row_now q v row v' (put_columns (old_columns row) cs) q' /\ (v = Some v' -> ~ FreshUpdate St).
Proof.
  intros Hq Hrow Hcs Hne Hfit. destruct (acquire_ok q Hq) as (q1 & Hacq & Hrows & Hti & Hlog).
  destruct Hq as (Hok & _ & Hts). unfold apply_put. rewrite Hacq. cbn [mbind option_bind].
  destruct v as [p|], row as [[ts0 cols]|]; try done; last first.
  { unfold old_columns in *. cbn in *.
    destruct (insert_row_spec cs q q1 None None) as (v' & q' & Hrun & Hnow & _); rewrite ?Hrows, ?Hti; try done; try apply Hts; [lia|].
    by exists v', q'. }
  pose proof Hrow as [Hat Hr0]. rewrite Hrows, (at_timestamp _ _ _ _ Hat). cbn [mbind option_bind].
  pose proof (timestamp_after _ _ Hts Hr0) as Htime. unfold assign_timestamp_after. rewrite Hti.
  destruct (Threadinfo.update_timestamp_after (ti q) ts0) as [ts t']. destruct Htime as (He & Hlt & Hle & Ht' & Hlg & Hmax).
  destruct Hts as [_ Hts]. unfold row_is_marker. cbn [rows set_times set_ti ti]. rewrite Hrows, (at_timestamp _ _ _ _ Hat). cbn [fmap option_fmap option_map mbind option_bind].
  rewrite marker_odd. unfold old_columns, live_columns in *. destruct (Z.odd ts0) eqn:Hodd.
  - destruct (deallocate_law _ _ _ _ Hok Hat) as (st & Hd & Hok' & Hkeep). rewrite Hd. cbn [mbind option_bind].
    rewrite bool_decide_eq_true_2 by done. match goal with |- context [insert_row cs ?x] => set (q2 := x) end.
    destruct (insert_row_spec cs q q2 (Some p) (Some (ts0, cols))) as (v' & q' & Hrun & Hnow & Hne'); cbn; rewrite ?Ht'; try done; try lia.
    + by intros ?? [= <- <-].
    + split; [by apply Hkeep|done].
    + by exists v', q'.
  - cbn [default] in *. rewrite bool_decide_eq_false_2 by done. assert (Z.even ts0 = true) as Heven by (by rewrite <- Z.negb_odd, Hodd).
    destruct (update_law (rows q) p ts0 cols cs ts Hok Hat Hcs Hne Hfit ltac:(lia)) as (p' & st & ts' & Hu & Hok' & Hat' & Hp' & Hin & Hkeep).
    cbn [qtimes_ qts set_times set_ti rows]. rewrite ?Hrows, Hu. cbn [mbind option_bind fst snd].
    destruct (Z.eqb_spec p' p) as [->|Hpp].
    + eexists _, _. split; [done|]. split; [split; cbn; try done|].
      * exists ts'. destruct Hin as [->|[_ ->]]; split_and!; (done || lia).
      * rewrite Ht'. split; [done|]. cbn. lia.
      * intros p2 t2 c2 H2. destruct (Hkeep _ _ _ H2) as [[-> _]|[? ?]]; [by left|by right].
      * intros _ Hfresh. by apply (Hfresh _ p ts0 cols cs ts p st Hok Hat Hcs Hne Hfit ltac:(lia)).
    + destruct (Hkeep _ _ _ Hat) as [[_ ?]|[_ Hatp]]; [done|].
      destruct (deallocate_after_law st p ts0 cols cs Hok' Hatp Hcs) as (st' & Hd & Hok'' & Hkeep'). cbn [rows set_rows].
      rewrite Hd. cbn [mbind option_bind]. eexists _, _. split; [done|]. split; [split; cbn; try done|by intros [= ->]].
      * destruct Hin as [->|[? _]]; [|done]. exists ts. rewrite Ht'. split_and!; [by apply Hkeep'|done|lia|lia|].
        intros _. split; [done|]. by intros ?? [= <- <-].
      * rewrite Ht'. split; [done|]. cbn. lia.
      * intros p2 t2 c2 H2. destruct (Hkeep _ _ _ H2) as [[_ ?]|[? ?]]; [done|right]. split; [done|by apply Hkeep'].
Qed.

Lemma apply_replace_spec w v q row :
  query_ok q -> row_of (rows q) v row -> row_fits [w] ->
  exists v' q', apply_replace gle w v q = Some (v', bool_decide (live_columns row = None), q') /\ row_now q v row v' [w] q' /\ v <> Some v'.
Proof.
  intros Hq Hrow Hfit. destruct (acquire_ok q Hq) as (q1 & Hacq & Hrows & Hti & Hlog).
  destruct Hq as (Hok & _ & Hts). unfold apply_replace. rewrite Hacq. cbn [mbind option_bind].
  destruct v as [p|], row as [[ts0 cols]|]; try done; last first.
  { cbn. unfold Threadinfo.update_timestamp. rewrite Hti, Hrows.
    destruct (create1_law (rows q) w (ts_ (ti q)) Hok Hfit) as (p & st & Hrun & Hok' & Hat & Hp & Hkeep); [apply Hts|].
    rewrite Hrun. cbn. eexists _, _. split; [done|]. split; [split; cbn; rewrite ?Hti; try done|done].
    - exists (ts_ (ti q)). destruct Hts. split_and!; try done; lia.
    - destruct Hts. split; [done|lia].
    - intros p2 t2 c2 H2. right. by apply Hkeep. }
  destruct Hrow as [Hat Hr0]. unfold row_is_marker. rewrite Hrows, (at_timestamp _ _ _ _ Hat).
  cbn [fmap option_fmap option_map mbind option_bind].
  pose proof (timestamp_after _ _ Hts Hr0) as Htime. unfold assign_timestamp_after. rewrite Hti.
  destruct (Threadinfo.update_timestamp_after (ti q) ts0) as [ts t']. destruct Htime as (He & Hlt & Hle & Ht' & Hlg & Hmax).
  destruct Hts as [_ Hts]. cbn [rows set_times set_ti]. rewrite Hrows.
  destruct (deallocate_law _ _ _ _ Hok Hat) as (st & Hd & Hok' & Hkeep). rewrite Hd. cbn.
  destruct (create1_law st w ts Hok' Hfit ltac:(lia)) as (p' & st' & Hrun & Hok'' & Hat' & Hp & Hkeep').
  rewrite Hrun. cbn. eexists _, _. split.
  { do 2 f_equal. f_equal. rewrite marker_odd. by destruct (Z.odd ts0). }
  split; [split; cbn; try done|].
  - exists ts. rewrite Ht'. split_and!; [done|done|lia|lia|]. intros _. split; [done|]. by intros ?? [= <- <-].
  - rewrite Ht'. split; [done|]. cbn. lia.
  - intros p2 t2 c2 H2. right. by apply Hkeep', Hkeep.
  - intros [= <-]. by destruct (Hkeep' _ _ _ (Hkeep _ _ _ Hat)).
Qed.

(** ** On a table *)
Lemma observe_query ep q : query_ok q -> ts_ok ep ->
  query_ok (observe_phantoms ep q) /\ rows (observe_phantoms ep q) = rows q.
Proof.
  intros (Hok & Hl & Hts) He. destruct (observe_ok _ _ Hts He) as (Hts' & _). by split.
Qed.

(** A get of the column [i] of the key [k] terminates with [x]. *)
Definition answers (st : St) (s : state) (k : Str) (i : Z) (x : option (list Z)) : Prop :=
  exists F, forall fuel, (F <= fuel)%nat -> run_get1 unaligned fuel k i st s = Some (x, s).

(** Only the key with the bytes [k] got another row, that of [cols], or lost
    its row. *)
Record only_changed (B : list (list Z * Z)) (q : query) (k : list Z) (cols : option (list (list Z))) (q' : query) (s' : state) : Prop := {
  oc_rows : rows_ok (rows q');
  oc_table : exists B' ns', table_rep s' B' ns';
  oc_key : forall k' i, 0 <= str_len k' -> 0 <= i < 2 ^ 31 -> str_bytes (kmem s') k' = k ->
    answers (rows q') s' k' i (column i <$> cols);
  oc_others : forall k' i row, 0 <= str_len k' -> 0 <= i < 2 ^ 31 -> str_bytes (kmem s') k' <> k ->
    row_of (rows q) ((list_to_map B : gmap (list Z) Z) !! str_bytes (kmem s') k') row ->
    answers (rows q') s' k' i (column i <$> live_columns row) }.

(** No other key has the row of [k]. *)
Definition alone (B : list (list Z * Z)) (k : list Z) : Prop :=
  forall k' p, (list_to_map B : gmap (list Z) Z) !! k = Some p -> (list_to_map B : gmap (list Z) Z) !! k' = Some p -> k' = k.

Lemma changed_only q0 q old row v cols q' s' B B' ns' k :
  row_now q0 old row v cols q' -> rows q0 = rows q -> table_rep s' B' ns' -> old = (list_to_map B : gmap (list Z) Z) !! k ->
  (old = Some v -> alone B k) ->
  (list_to_map B' : gmap (list Z) Z) = <[k := v]> (list_to_map B) ->
  only_changed B q k (Some cols) q' s'.
Proof.
  intros Hn Hrows Hrep Hold Halone Hmap. pose proof (rn_row _ _ _ _ _ _ Hn) as (ts & Hat & He & _). split.
  - apply Hn.
  - eauto.
  - intros k' i Hk Hi Hkk. destruct (get_spec unaligned s' B' ns' k' Hrep Hk) as [F HF]. exists F. intros fuel Hf.
    unfold run_get1. rewrite (bind_eq _ _ _ _ _ (HF fuel Hf)), Hkk, Hmap, lookup_insert_eq.
    assert (live_row (rows q') (Some v) = Some (Some v)) as Hlive.
    { unfold live_row, row_is_marker. rewrite (at_timestamp _ _ _ _ Hat). cbn. by rewrite marker_odd, <- Z.negb_even, He. }
    rewrite (bind_lift _ _ _ _ Hlive). unfold col_at. by rewrite (bind_lift _ _ _ _ (at_col _ _ _ _ _ Hat Hi)).
  - intros k' i row' Hk Hi Hne Hrow. apply (run_get1_spec s' B' ns'); try done.
    rewrite Hmap, lookup_insert_ne by done. rewrite <- Hrows in Hrow.
    destruct (_ !! str_bytes _ _) as [p|] eqn:Ep, row' as [[ts' c']|]; try done; try by destruct Hrow. destruct Hrow as [Hp ?]. split; [|done].
    destruct (rn_frame _ _ _ _ _ _ Hn _ _ _ Hp) as [[-> Hv]|[_ ?]]; [|done].
    destruct Hne. apply (Halone Hv _ v); congruence.
Qed.

(** The phantom epochs of the leaves are timestamps. *)
Definition epochs_ok (s : state) : Prop := epochs ts_ok s.
(** Timestamps up to [T]. *)
Definition before (T e : Z) : Prop := ts_ok e /\ e <= T.
Lemma epochs_before s : epochs_ok s -> epochs (before (2 ^ 62)) s.
Proof. apply epochs_mono. intros e He. split; [done|]. destruct He. lia. Qed.

(** An operation that makes the row of [cols] of the old one: the thread as the
    operation finds it, and the row and the table that it leaves.  [A] is known
    when the row changed in place. *)
Record insert_result {N : Layers} (A : Prop) (T : Z) (s : state) (B : list (list Z * Z)) (k : list Z) (row : option (Z * list (list Z)))
    (cols : list (list Z)) (q : query) (v : Z) (q1 q' : query) (s' : state) : Prop := {
  ir_query : query_ok q1;
  ir_rows : rows q1 = rows q;
  ir_logger : logger_ (ti q1) = logger_ (ti q);
  ir_ts : ts_ (ti q1) <= T;
  ir_row : row_now q1 ((list_to_map B : gmap (list Z) Z) !! k) row v cols q';
  ir_place : (list_to_map B : gmap (list Z) Z) !! k = Some v -> A;
  ir_epochs : epochs (before T) s';
  ir_table : exists B' ns', table_in s' B' ns' /\ (list_to_map B' : gmap (list Z) Z) = <[k := v]> (list_to_map B) }.

Lemma run_insert_rows {N : Layers} (A : Prop) T okbuf apply (q : query) s B ns a len row cols :
  table_in s B ns -> (32 <= max_layers)%nat -> 0 <= len <= max_key_len -> okbuf + max_key_len <= a \/ a + len <= okbuf ->
  let k := str_bytes (kmem s) (mkStr a len) in
  let old := (list_to_map B : gmap (list Z) Z) !! k in
  query_ok q -> ts_ (ti q) <= T -> epochs (before T) s -> row_of (rows q) old row ->
  (forall q, query_ok q -> row_of (rows q) old row ->
    exists v q', apply old q = Some (v, bool_decide (live_columns row = None), q') /\ row_now q old row v cols q' /\ (old = Some v -> A)) ->
  exists F v q1 q' s', insert_result A T s B k row cols q v q1 q' s' /\ forall fuel, (F <= fuel)%nat ->
    run_insert unaligned fuel okbuf observe_phantoms apply a len q s = Some (bool_decide (live_columns row = None), q', s').
Proof.
  intros Hrep HN Hlen Hbuf k old Hq HT Heps Hrow Happ.
  destruct (put_in_spec unaligned okbuf observe_phantoms apply q s B ns a len HN Hrep Hlen Hbuf) as (b & l & _ & Hl & Hput).
  fold k old in Hput. destruct (Heps _ _ Hl) as [He HeT].
  set (q1 := match old with Some _ => q | None => observe_phantoms (phantom_epoch_ l) q end) in *.
  destruct (observe_query _ q Hq He) as [Hq' Hr']. pose proof (observe_ok (ti q) (phantom_epoch_ l) ltac:(apply Hq) He) as Ho.
  assert (query_ok q1 /\ rows q1 = rows q /\ logger_ (ti q1) = logger_ (ti q) /\ ts_ (ti q1) <= T) as (Hq1 & Hr1 & Hl1 & Ht1).
  { unfold q1. destruct old; split_and!; try done; try apply Ho. unfold observe_phantoms, set_ti. cbn [ti]. cbv zeta in Ho. lia. }
  destruct (Happ q1 Hq1) as (v & q' & Hrun & Hnow & Hplace); [by rewrite Hr1|].
  destruct (Hput _ _ _ Hrun) as (F & s' & B' & ns' & Hrep' & Hmap & Hrun').
  exists F, v, q1, q', s'. split; [|done]. split; try done; [|by exists B', ns'].
  eapply kept_run_insert; [exact Heps|by apply (Hrun' F)].
Qed.
Lemma insert_result_changed {N : Layers} (A : Prop) T s B k row cols q v q1 q' s' :
  insert_result A T s B k row cols q v q1 q' s' -> (A -> alone B k) -> only_changed B q k (Some cols) q' s'.
Proof.
  intros Hres HA. destruct (ir_table _ _ _ _ _ _ _ _ _ _ _ _ Hres) as (B' & ns' & Hrep & Hmap).
  eapply changed_only; [apply Hres..|exists N; exact Hrep|done| |exact Hmap]. intros Hv. by apply HA, (ir_place _ _ _ _ _ _ _ _ _ _ _ _ Hres).
Qed.

Lemma run_insert_query (A : Prop) okbuf apply (q : query) s B ns a len row cols :
  table_rep s B ns -> 0 <= len <= max_key_len -> okbuf + max_key_len <= a \/ a + len <= okbuf ->
  let k := str_bytes (kmem s) (mkStr a len) in
  let old := (list_to_map B : gmap (list Z) Z) !! k in
  query_ok q -> epochs_ok s -> row_of (rows q) old row -> (A -> alone B k) ->
  (forall q, query_ok q -> row_of (rows q) old row ->
    exists v q', apply old q = Some (v, bool_decide (live_columns row = None), q') /\ row_now q old row v cols q' /\ (old = Some v -> A)) ->
  exists F q' s', only_changed B q k (Some cols) q' s' /\ forall fuel, (F <= fuel)%nat ->
    run_insert unaligned fuel okbuf observe_phantoms apply a len q s = Some (bool_decide (live_columns row = None), q', s').
Proof.
  intros (N & HN & Hrep)%(table_rep_in _ _ _ 32) Hlen Hbuf k old Hq Heps%epochs_before Hrow HA Happ.
  assert (ts_ (ti q) <= 2 ^ 62) as HT by (destruct Hq as (_ & _ & _ & ?); lia).
  destruct (run_insert_rows A _ okbuf apply q s B ns a len row cols Hrep HN Hlen Hbuf Hq HT Heps Hrow Happ)
    as (F & v & q1 & q' & s' & Hres & Hrun).
  exists F, q', s'. split; [by eapply insert_result_changed|done].
Qed.
End spec.

(** * The queries *)
(** C5: A put query on any well-formed table at rest, over any row type with
    [RowLaws], whether it makes a new row or changes the old one in place,
    terminates, if no other key has the row of its key.  It reports whether the key had a live row; a later
    get of the key finds the columns of the old row with the changes of the put
    (of no columns, where there was none or a marker), and a get of any other
    key finds what it had. *)
Theorem put_then_get {St} `{RowLaws St} gle unaligned okbuf (q : query) s B ns a len cs row :
  table_rep s B ns -> 0 <= len <= max_key_len -> okbuf + max_key_len <= a \/ a + len <= okbuf ->
  let k := str_bytes (kmem s) (mkStr a len) in
  query_ok q -> epochs_ok s -> row_of (rows q) ((list_to_map B : gmap (list Z) Z) !! k) row -> alone B k ->
  changes_ok cs -> cs <> [] -> row_fits (put_columns (old_columns row) cs) ->
  exists F q' s', only_changed unaligned B q k (Some (put_columns (old_columns row) cs)) q' s' /\
    forall fuel, (F <= fuel)%nat -> run_put gle unaligned fuel okbuf a len cs q s = Some (bool_decide (live_columns row = None), q', s').
Proof.
  intros Hrep Hlen Hbuf k Hq Heps Hrow Halone Hcs Hne Hfit.
  apply (run_insert_query unaligned True okbuf _ q s B ns a len row _ Hrep Hlen Hbuf Hq Heps Hrow); [done|].
  intros q1 Hq1 Hrow1. destruct (apply_put_spec gle cs _ q1 row Hq1 Hrow1 Hcs Hne Hfit) as (v & q' & Hrun & Hnow & _). by exists v, q'.
Qed.

(** C6: A replace query likewise leaves a row of the new value alone. *)
Theorem replace_then_get {St} `{RowLaws St} gle unaligned okbuf (q : query) s B ns a len w row :
  table_rep s B ns -> 0 <= len <= max_key_len -> okbuf + max_key_len <= a \/ a + len <= okbuf ->
  let k := str_bytes (kmem s) (mkStr a len) in
  query_ok q -> epochs_ok s -> row_of (rows q) ((list_to_map B : gmap (list Z) Z) !! k) row -> row_fits [w] ->
  exists F q' s', only_changed unaligned B q k (Some [w]) q' s' /\
    forall fuel, (F <= fuel)%nat -> run_replace gle unaligned fuel okbuf a len w q s = Some (bool_decide (live_columns row = None), q', s').
Proof.
  intros Hrep Hlen Hbuf k Hq Heps Hrow Hfit.
  apply (run_insert_query unaligned False okbuf _ q s B ns a len row _ Hrep Hlen Hbuf Hq Heps Hrow); [done|].
  intros q1 Hq1 Hrow1. by apply apply_replace_spec.
Qed.

(** The key "abcdefghij" of the table of two layers, with a bag "hi" for its
    value, gets a second column. *)
Definition hi_bag : ValueBag.bags :=
  ValueBag.mkBags {[ 9 := ValueBag.mkRow 2 (ValueBag.d_ (fst (ValueBag.create1 2 (fun _ => 0) [104; 105] 2))) ]} 100 [] [].
Definition hi_query : query (St := ValueBag.bags) :=
  mkQuery (Threadinfo.make 0 0) hi_bag (mkTimes 0 0 0) false.
#[local] Instance hi_type : RowType ValueBag.bags := ValueBag.bag_type 2 (fun _ _ => 85).
#[local] Instance hi_laws : RowLaws ValueBag.bags := bag_laws 2 ltac:(lia) (fun _ _ => 85).

Lemma hi_query_ok : query_ok hi_query /\ row_of (rows hi_query) (Some 9) (Some (2, [[104; 105]])).
Proof.
  split.
  - split; [|by split]. split; [by vm_compute|]. intros p. cbn. rewrite dom_singleton_L. by intros ->%elem_of_singleton.
  - split; [|by vm_compute]. eexists. split; [done|]. by apply create1_rep.
Qed.

Lemma two_layers_old : (list_to_map two_layers_bindings : gmap (list Z) Z) !! str_bytes (store (fun _ => 0) 100 (seqZ 97 10)) (mkStr 100 10) = Some 9.
Proof. by vm_compute. Qed.

Lemma two_layers_alone : alone two_layers_bindings (str_bytes (store (fun _ => 0) 100 (seqZ 97 10)) (mkStr 100 10)).
Proof.
  intros k' p Hk Hk'. rewrite two_layers_old in Hk. injection Hk as <-. unfold two_layers_bindings in Hk'. cbn [list_to_map foldr fst snd] in Hk'.
  apply lookup_insert_Some in Hk' as [[_ H]|[_ Hk']]; [discriminate H|].
  apply lookup_insert_Some in Hk' as [[<- _]|[_ Hk']]; [by vm_compute|by rewrite lookup_empty in Hk'].
Qed.

Lemma two_layers_epochs l1 l2 : first_leaf = Some l1 -> second_leaf = Some l2 -> epochs_ok (two_layers l1 l2).
Proof.
  intros H1 H2 a l Hl. cbn in Hl. apply lookup_insert_Some in Hl as [[_ [= <-]]|[_ Hl]].
  - unfold first_leaf in H1. vm_compute in H1. injection H1 as <-. by vm_compute.
  - apply lookup_singleton_Some in Hl as [_ [= <-]]. vm_compute in H2. injection H2 as <-. by vm_compute.
Qed.

(** The key "abcdefghij" again, with a row of the versioned columns "hi" and
    "yo", whose second column changes in place. *)
Definition two_columns_query : query (St := VersionedArray.versioned) :=
  mkQuery (Threadinfo.make 0 0) two_columns (mkTimes 0 0 0) false.
Lemma put_then_get_witness :
  exists l1 l2, first_leaf = Some l1 /\ second_leaf = Some l2 /\
    exists F (q' : query) s', (forall fuel, (F <= fuel)%nat ->
        run_put 7 true fuel 1000 100 10 [(1, [33])] two_columns_query (two_layers l1 l2) = Some (false, q', s')) /\
      only_changed true two_layers_bindings two_columns_query (seqZ 97 10) (Some [[104; 105]; [33]]) q' s'.
Proof.
  destruct first_leaf_ok as (l1 & H1 & _), second_leaf_ok as (l2 & H2 & _), two_columns_ok as [Hok Hat].
  exists l1, l2. split; [done|]. split; [done|].
  destruct (put_then_get 7 true 1000 two_columns_query (two_layers l1 l2) two_layers_bindings [4096; 8192] 100 10 [(1, [33])]
    (Some (2, [[104; 105]; [121; 111]]))) as (F & q' & s' & Hoc & Hrun).
  - by exists 2%nat; apply two_layers_rep.
  - by vm_compute.
  - right. by vm_compute.
  - split; [exact Hok|by split].
  - by apply two_layers_epochs.
  - assert (row_of (rows two_columns_query) (Some 9) (Some (2, [[104; 105]; [121; 111]]))) as Hrow by (split; [exact Hat|by vm_compute]). exact Hrow.
  - exact two_layers_alone.
  - exists 2. by vm_compute.
  - done.
  - by vm_compute.
  - exists F, q', s'. split; [exact Hrun|exact Hoc].
Defined.

Lemma replace_then_get_witness :
  exists l1 l2, first_leaf = Some l1 /\ second_leaf = Some l2 /\
    exists F (q' : query) s', (forall fuel, (F <= fuel)%nat ->
        run_replace 7 true fuel 1000 100 10 [33] hi_query (two_layers l1 l2) = Some (false, q', s')) /\
      only_changed true two_layers_bindings hi_query (seqZ 97 10) (Some [[33]]) q' s'.
Proof.
  destruct first_leaf_ok as (l1 & H1 & _), second_leaf_ok as (l2 & H2 & _), hi_query_ok as [Hq Hrow].
  exists l1, l2. split; [done|]. split; [done|].
  destruct (replace_then_get 7 true 1000 hi_query (two_layers l1 l2) two_layers_bindings [4096; 8192] 100 10 [33]
    (Some (2, [[104; 105]]))) as (F & q' & s' & Hoc & Hrun).
  - by exists 2%nat; apply two_layers_rep.
  - by vm_compute.
  - right. by vm_compute.
  - exact Hq.
  - by apply two_layers_epochs.
  - exact Hrow.
  - by vm_compute.
  - exists F, q', s'. split; [exact Hrun|exact Hoc].
Defined.

(** C8: A removed row stays older than whatever is inserted in its place: a
    remove raises the phantom epoch of the leaf, and any thread that then
    inserts a row in a leaf of that epoch gives it a later timestamp than that
    of the row removed, and than that of the removal, so that the log replays
    in the order of the operations. *)
Theorem removed_before_inserted {St} `{RowLaws St} gle (q : query) p ts0 cols node_ts :
  query_ok q -> row_at (rows q) p ts0 cols -> 0 <= ts0 < 2 ^ 61 -> ts_ (ti q) < 2 ^ 61 -> ts_ok node_ts ->
  exists node_ts' q', apply_remove gle p node_ts q = Some (node_ts', q') /\ ts_ok node_ts' /\ node_ts <= node_ts' /\
    let removed := qts (qtimes_ q') in ts0 < removed < node_ts' /\
    forall (q2 : query) cs, query_ok q2 -> changes_ok cs -> cs <> [] -> row_fits (put_columns [] cs) ->
      exists p2 q2' ts2, apply_put gle cs None (observe_phantoms node_ts' q2) = Some (p2, true, q2') /\
        row_at (rows q2') p2 ts2 (put_columns [] cs) /\ removed < ts2.
Proof.
  intros Hq Hat Hr0 Ht Hn. destruct (acquire_ok gle q Hq) as (q1 & Hacq & Hrows & Hti & Hlog).
  destruct Hq as (Hok & _ & Hts). unfold apply_remove. rewrite Hacq. cbn [mbind option_bind].
  rewrite Hrows, (at_timestamp _ _ _ _ Hat). cbn [mbind option_bind].
  pose proof (timestamp_after (ti q) ts0 Hts ltac:(lia)) as Htime. pose proof (next_even ts0 ltac:(lia)) as Hnext.
  unfold assign_timestamp_after. rewrite Hti.
  assert (exists ts t', Threadinfo.update_timestamp_after (ti q) ts0 = (ts, t') /\ ts < 2 ^ 61 + 2) as (ts & t' & Heq & Hb).
  { eexists _, _. split; [by apply surjective_pairing|]. unfold Threadinfo.update_timestamp_after.
    cbv zeta in Hnext; destruct (CircularInt.less_equal _ _ _); cbn; lia. }
  rewrite Heq in *. destruct Htime as (He & Hlt & Hle & Ht' & Hlg & Hmax). cbn [rows set_times set_ti]. rewrite Hrows.
  destruct (deallocate_law _ _ _ _ Hok Hat) as (st & Hd & Hok' & Hkeep). rewrite Hd. cbn.
  destruct Hn as [Hne Hn]. destruct (circ_less node_ts ts Hn ltac:(lia)) as [_ ->].
  assert (uwrap 64 (ts + 2) = ts + 2) as -> by (unfold uwrap; rewrite Z.mod_small by lia; done).
  set (nt := if node_ts <=? ts then ts + 2 else node_ts).
  assert (ts_ok nt /\ node_ts <= nt /\ ts < nt) as (Hnt & Hge & Hgt).
  { unfold nt, ts_ok. destruct (Z.leb_spec node_ts ts); [|by split_and!; lia || done].
    rewrite Z.even_add, He. split_and!; lia || done. }
  exists nt. eexists. split; [done|]. split; [done|]. split; [done|]. split; [cbn; lia|].
  intros q2 cs Hq2 Hcs Hne2 Hfit. destruct (observe_query _ q2 Hq2 Hnt) as [Hq2' Hrows2].
  destruct (apply_put_spec gle cs None _ None Hq2' I Hcs Hne2 Hfit) as (p2 & q2' & Hrun & Hnow & _).
  destruct (rn_row _ _ _ _ _ _ Hnow) as (ts2 & Hat2 & _ & _ & Hge2). destruct (Hge2 ltac:(done)) as [Hge3 _]. exists p2, q2', ts2. split; [exact Hrun|]. split; [done|].
  destruct (observe_ok (ti q2) nt) as (_ & _ & Ho & _); [apply Hq2|done|]. cbn in Hge3 |- *. lia.
Qed.

Lemma removed_before_inserted_witness :
  exists node_ts' (q' : query) p2 (q2' : query) ts2, apply_remove 7 9 0 hi_query = Some (node_ts', q') /\
    apply_put 7 [(0, [33])] None (observe_phantoms node_ts' hi_query) = Some (p2, true, q2') /\
    row_at (rows q2') p2 ts2 [[33]] /\ 2 < ts2.
Proof.
  destruct hi_query_ok as [Hq [Hat _]].
  destruct (removed_before_inserted 7 hi_query 9 2 [[104; 105]] 0 Hq Hat) as (nt & q' & Hrun & _ & _ & [Hlt _] & Hput);
    [by vm_compute|by vm_compute|by vm_compute|].
  destruct (Hput hi_query [(0, [33])] Hq) as (p2 & q2' & ts2 & Hrun2 & Hat2 & Hlt2); [exists 1; by vm_compute|done|by vm_compute|].
  exists nt, q', p2, q2', ts2. split; [exact Hrun|]. split; [exact Hrun2|]. split; [exact Hat2|]. lia.
Defined.
