(* ===== verification/QueryRemove.v ===== *)
(** What a remove query answers, over any row type with [RowLaws]. *)
From S2P Require Import Prelude Compiler Memory StringSlice Key Nodeversion Node Heap Get Insert Remove Tree Find Steps LeafSpec Locate Put PutSpec Kept RemoveSpec.
From S2P Require Import CircularInt Threadinfo Row ValueBag BagSpec Query Table QuerySpec.
Import Query.

Section spec.
Context {St : Type} `{rl : RowLaws St} (gle : Z) (unaligned : bool).

(** The rows and the leaf's epoch after the row of [p] is retired. *)
Lemma apply_remove_spec p ts0 cols node_ts (q : query) :
  query_ok q -> row_at (rows q) p ts0 cols -> 0 <= ts0 < 2 ^ 62 ->
  exists node_ts' q', apply_remove gle p node_ts q = Some (node_ts', q') /\ rows_ok (rows q') /\
    (forall p' t c, row_at (rows q) p' t c -> row_at (rows q') p' t c) /\
    logger_ (ti q') = logger_ (ti q) /\ log_locked q' = bool_decide (is_Some (logger_ (ti q))) /\
    (Z.even (ts_ (ti q')) = true /\ 0 <= ts_ (ti q') <= Z.max (ts_ (ti q)) (ts0 + 2)) /\
    (node_ts' = node_ts \/ node_ts' = uwrap 64 (ts_ (ti q') + 2)).
Proof.
  intros Hq Hat Hr0. destruct (acquire_ok gle q Hq) as (q1 & Hacq & Hrows & Hti & Hlog).
  destruct Hq as (Hok & _ & Hts). unfold apply_remove. rewrite Hacq. cbn [mbind option_bind].
  rewrite Hrows, (at_timestamp _ _ _ _ Hat). cbn [mbind option_bind].
  pose proof (timestamp_after _ _ Hts Hr0) as Htime.
  unfold assign_timestamp_after. rewrite Hti. destruct (Threadinfo.update_timestamp_after (ti q) ts0) as [ts t'].
  destruct Htime as (He & Hlt & Hle & Ht' & Hlg & Hmax).
  cbn [rows set_times set_ti]. rewrite Hrows.
  destruct (deallocate_law _ _ _ _ Hok Hat) as (st & Hd & Hok' & Hkeep). rewrite Hd. cbn.
  eexists _, _. split; [done|]. cbn. rewrite Ht'. split_and!; try done; [lia|]. destruct (CircularInt.less_equal _ _ _); tauto.
Qed.

(** What a removal leaves. *)
Record remove_result {N : Layers} (s : state) (B : list (list Z * Z)) (k : list Z) (row : option (Z * list (list Z))) (q : query)
    (found : bool) (q' : query) (s' : state) : Prop := {
  rr_ok : rows_ok (rows q');
  rr_frame : forall p t c, row_at (rows q) p t c -> row_at (rows q') p t c;
  rr_logger : logger_ (ti q') = logger_ (ti q);
  rr_log : log_locked q' = (found && bool_decide (is_Some (logger_ (ti q))));
  rr_ts : Z.even (ts_ (ti q')) = true /\ 0 <= ts_ (ti q') <= Z.max (ts_ (ti q)) (default 0 (fst <$> row) + 2);
  rr_epochs T : epochs (before T) s -> ts_ (ti q') <= T -> T + 2 < 2 ^ 62 -> epochs (before (T + 2)) s';
  rr_table : exists B' ns', table_in s' B' ns' /\ (list_to_map B' : gmap (list Z) Z) = delete k (list_to_map B) }.

Lemma removed_only {N : Layers} s B k row (q : query) found q' s' : remove_result s B k row q found q' s' -> only_changed unaligned B q k None q' s'.
Proof.
  intros Hr. destruct (rr_table _ _ _ _ _ _ _ _ Hr) as (B' & ns' & Hrep' & Hmap).
  assert (table_rep s' B' ns') as Hrep by by exists N. split.
  - apply Hr.
  - eauto.
  - intros k' i Hk Hi Hkk. apply (run_get1_spec unaligned s' B' ns' k' _ None); try done. by rewrite Hmap, Hkk, lookup_delete_eq.
  - intros k' i row' Hk Hi Hne Hrow. apply (run_get1_spec unaligned s' B' ns'); try done.
    rewrite Hmap, lookup_delete_ne by done.
    destruct (_ !! _) as [p|], row' as [[ts' c']|]; try done. destruct Hrow as [Hp ?]. split; [|done].
    by apply (rr_frame _ _ _ _ _ _ _ _ Hr).
Qed.

Lemma ts_even_ok ts : Z.even ts = true -> 0 <= ts -> ts + 2 < 2 ^ 62 -> ts_ok (uwrap 64 (ts + 2)) /\ uwrap 64 (ts + 2) = ts + 2.
Proof.
  intros He H0 Hb. assert (uwrap 64 (ts + 2) = ts + 2) as -> by (unfold uwrap; rewrite Z.mod_small by lia; done).
  split; [|done]. split; [by rewrite Z.even_add, He|lia].
Qed.

Lemma run_remove_rows {N : Layers} (q : query) s B ns a len row :
  table_in s B ns -> 0 <= len <= max_key_len ->
  let k := str_bytes (kmem s) (mkStr a len) in
  let old := (list_to_map B : gmap (list Z) Z) !! k in
  query_ok q -> row_of (rows q) old row ->
  exists F q' s', remove_result s B k row q (bool_decide (is_Some old)) q' s' /\ forall fuel, (F <= fuel)%nat ->
    run_remove gle unaligned fuel a len q s = Some (bool_decide (is_Some old), q', s').
Proof.
  intros Hrep Hlen k old Hq Hrow.
  destruct (find_locked_spec unaligned (a - max_key_len) s B ns a len Hrep Hlen) as
    (F & s0 & r & h & b & l & ka & Har & Hmk & Hfl); [left; lia|].
  pose proof (ar_mem _ _ _ _ _ _ _ _ _ _ _ _ Har) as Hm.
  pose proof (arrived_bound _ _ _ _ _ _ _ _ _ _ _ _ Har) as Hb.
  pose proof (ar_state _ _ _ _ _ _ _ _ _ _ _ _ Har) as Hst0. pose proof (ar_rep _ _ _ _ _ _ _ _ _ _ _ _ Har) as Hrep0.
  pose proof (ar_found _ _ _ _ _ _ _ _ _ _ _ _ Har) as Hfound. unfold old in *. rewrite assoc_list_to_map in *.
  change (key_bytes (kmem s) (Key.key_data unaligned (kmem s) a len)) with k in Hb, Hfound. rewrite Hb in *.
  set (c := mkCursor b ka (Leaf.lower ka l) r (match_state (kmem s0) l ka) 0 0 0 []) in *.
  set (s1 := with_heap s0 (<[b := NLeaf (locked_leaf l)]> h)) in *.
  assert (heap s1 !! b = Some (NLeaf (locked_leaf l))) as Hl1 by apply lookup_insert_eq.
  assert (forall P, epochs P s -> epochs P s1) as Heps1.
  { intros P Heps. eapply kept_find_locked; [|by apply (Hfl F)]. by eapply kept_make_tcursor. }
  assert (forall P fuel c' s2 s3, epochs P s2 -> finish fuel (-1) c s2 = Some (c', s3) -> epochs P s3) as Hfin.
  { intros. by eapply kept_finish. }
  rewrite <- Hm in *. destruct (Z.ltb_spec 0 (match_state (kmem s0) l ka)) as [Hst|Hst].
  - destruct row as [[ts0 cols]|]; [|done]. destruct Hrow as [Hat Hr0].
    destruct (apply_remove_spec _ _ _ (phantom_epoch_ l) q Hq Hat Hr0) as (ep & q' & Happ & Hok' & Hkeep & Hlg & Hlk & [Hev Hmax] & Hep).
    destruct (remove_found unaligned s0 B ns h k ka b l c r Hrep0 Hfound eq_refl ep Hst) as (s2 & B' & ns' & [F2 Hrun] & Hrep' & Hu).
    exists (max F F2), q', s2. split.
    { split; try done; [|exists B', ns'; split; [done|by rewrite (updated_map _ _ _ _ Hu)]].
      intros T Heps HT HT2. destruct (Hrun F2 ltac:(lia)) as [c' Hc'].
      unfold bind in Hc'. rewrite (update_leaf_eq _ _ _ _ Hl1) in Hc'. eapply Hfin; [|exact Hc'].
      specialize (Heps1 _ Heps). destruct (Heps1 _ _ Hl1) as [He1 He2].
      refine (epochs_insert _ s1 b _ (epochs_mono (before T) _ _ _ Heps1) _); [intros e [? ?]; split; [done|lia]|].
      destruct (ts_even_ok (ts_ (ti q')) Hev ltac:(lia) ltac:(lia)) as [Hu1 Hu2].
      destruct Hep as [-> | ->]; [split; [exact He1|cbn in He2 |- *; lia]|split; [exact Hu1|cbn; lia]]. }
    intros fuel Hf. unfold run_remove. rewrite (bind_eq _ _ _ _ _ Hmk), (bind_eq _ _ _ _ _ (Hfl fuel ltac:(lia))).
    fold s1. assert (negb (state_ c =? 0) = true) as -> by (by apply negb_true_iff, Z.eqb_neq, Z.neq_sym, Z.lt_neq).
    unfold value. rewrite !bind_assoc, (bind_eq _ _ _ _ _ (get_leaf_eq _ _ _ Hl1)), bind_ret.
    rewrite bind_assoc, (bind_eq _ _ _ _ _ (get_leaf_eq _ _ _ Hl1)), bind_assoc, (bind_lift _ _ _ _ Happ). cbn [fst snd].
    destruct (Hrun fuel ltac:(lia)) as [c' Hc']. unfold bind at 1 in Hc'.
    rewrite bind_assoc. erewrite bind_eq; [|by apply update_leaf_eq]. rewrite bind_ret.
    rewrite (update_leaf_eq _ _ _ _ Hl1) in Hc'. by rewrite (bind_eq _ _ _ _ _ Hc').
  - assert (match_state (kmem s0) l ka = 0) as Hst' by lia. destruct row as [[]|]; [done|].
    destruct (remove_absent unaligned s0 B ns h k ka b l c r Hrep0 Hfound eq_refl Hst') as (s2 & B' & ns' & Hrun & Hrep' & Hu).
    rewrite Hb in Hu. exists F, q, s2. split.
    { destruct Hq as (Hok & Hlk & Hev & Hts). split; try done; [split; [done|lia]| |].
      - intros T Heps _ _. destruct (Hrun F) as [c' Hc']. apply (epochs_mono (before T)); [intros e [? ?]; split; [done|lia]|].
        eapply Hfin; [|exact Hc']. by apply Heps1.
      - exists B', ns'. split; [done|]. rewrite (updated_map _ _ _ _ Hu). done. }
    intros fuel Hf. unfold run_remove. rewrite (bind_eq _ _ _ _ _ Hmk), (bind_eq _ _ _ _ _ (Hfl fuel Hf)).
    fold s1. assert (negb (state_ c =? 0) = false) as -> by (cbn [c state_]; by rewrite Hst'). rewrite bind_ret.
    destruct (Hrun fuel) as [c' Hc']. by rewrite (bind_eq _ _ _ _ _ Hc').
Qed.
End spec.

(** C7: A remove query on any well-formed table at rest, over any row type with
    [RowLaws], terminates, also when the leaf of its key loses its last entry and
    the tree shrinks.  It reports whether the key had a row; later gets find none
    for the key, and for any other key what they found before. *)
Theorem remove_then_get {St} `{RowLaws St} gle unaligned (q : query) s B ns a len row :
  table_rep s B ns -> 0 <= len <= max_key_len ->
  let k := str_bytes (kmem s) (mkStr a len) in
  let old := (list_to_map B : gmap (list Z) Z) !! k in
  query_ok q -> row_of (rows q) old row ->
  exists F q' s', only_changed unaligned B q k None q' s' /\ forall fuel, (F <= fuel)%nat ->
    run_remove gle unaligned fuel a len q s = Some (bool_decide (is_Some old), q', s').
Proof.
  intros [N Hrep] Hlen k old Hq Hrow. destruct (run_remove_rows gle unaligned q s B ns a len row Hrep Hlen Hq Hrow) as (F & q' & s' & Hr & Hrun).
  exists F, q', s'. split; [by eapply removed_only|done].
Qed.

#[local] Existing Instance hi_type.
#[local] Existing Instance hi_laws.
(** The key "abcdefghij" is removed from the table of two layers. *)
Lemma remove_then_get_witness :
  exists l1 l2, first_leaf = Some l1 /\ second_leaf = Some l2 /\
    exists F (q' : query) s', only_changed true two_layers_bindings hi_query (seqZ 97 10) None q' s' /\
      forall fuel, (F <= fuel)%nat -> run_remove 7 true fuel 100 10 hi_query (two_layers l1 l2) = Some (true, q', s').
Proof.
  destruct first_leaf_ok as (l1 & H1 & _), second_leaf_ok as (l2 & H2 & _), hi_query_ok as [Hq Hrow].
  exists l1, l2. split; [done|]. split; [done|].
  apply (remove_then_get 7 true hi_query (two_layers l1 l2) two_layers_bindings [4096; 8192] 100 10 (Some (2, [[104; 105]]))).
  - by exists 2%nat; apply two_layers_rep.
  - by vm_compute.
  - exact Hq.
  - exact Hrow.
Defined.
