(* ===== verification/Log.v ===== *)
(** The log, [src/log.hh] and [src/log.cc]: the records, a logger's buffer,
    and the passes over a log file.  [kvepoch_t] is a [circular_int] of 64
    bits. *)
From S2P Require Import Prelude Compiler Memory CircularInt Query.

Abbreviation epoch_lt := (CircularInt.lt 64).
Abbreviation epoch_le := (CircularInt.le 64).
Abbreviation epoch_gt := (CircularInt.gt 64).
Abbreviation epoch_ge := (CircularInt.ge 64).
Definition epoch_set (e : Z) : bool := CircularInt.to_bool e.

(** * [logcommand] *)
Definition logcmd_none : Z := 0.
Definition logcmd_put : Z := 0x5455506B.
Definition logcmd_replace : Z := 0x3155506B.
Definition logcmd_modify : Z := 0x444F4D6B.
Definition logcmd_remove : Z := 0x4D45526B.
Definition logcmd_epoch : Z := 0x4F50456B.
Definition logcmd_quiesce : Z := 0x4955516B.
Definition logcmd_wake : Z := 0x4B41576B.

(** * Records in a buffer

    [store] gives the buffer and the size of the record.  [buf_] of the two
    records with a key starts before the end of the struct, which is padded to
    8 bytes: 4 bytes at the end of a record are not written. *)
Module Logrec.
Definition sizeof_base : Z := 8.
Definition sizeof_epoch : Z := 16.
Definition sizeof_kv : Z := 24.
Definition sizeof_kvdelta : Z := 32.

Definition base_size : Z := sizeof_base.
Definition base_store (m : mem) (buf cmd : Z) : mem * Z :=
  let m := store_word m 4 buf cmd in
  let m := store_word m 4 (buf + 4) sizeof_base in
  (m, sizeof_base).
Definition base_check (m : mem) (buf : Z) : bool := sizeof_base <=? load_word m 4 (buf + 4).
Definition base_command (m : mem) (buf : Z) : Z := load_word m 4 buf.

Definition epoch_size : Z := sizeof_epoch.
Definition epoch_store (m : mem) (buf cmd epoch : Z) : mem * Z :=
  let m := store_word m 4 buf cmd in
  let m := store_word m 4 (buf + 4) sizeof_epoch in
  let m := store_word m 8 (buf + 8) epoch in
  (m, sizeof_epoch).
Definition epoch_check (m : mem) (buf : Z) : bool := sizeof_epoch <=? load_word m 4 (buf + 4).

Definition kv_size (keylen vallen : Z) : Z := sizeof_kv + keylen + vallen.
Definition kv_store (m : mem) (buf cmd : Z) (key val : list Z) (ts : Z) : mem * Z :=
  let m := store_word m 4 buf cmd in
  let m := store_word m 4 (buf + 4) (uwrap 32 (sizeof_kv + zlength key + zlength val)) in
  let m := store_word m 8 (buf + 8) ts in
  let m := store_word m 4 (buf + 16) (zlength key) in
  let m := store m (buf + 20) key in
  let m := store m (buf + 20 + zlength key) val in
  (m, sizeof_kv + zlength key + zlength val).
Definition kv_check (m : mem) (buf : Z) : bool :=
  (sizeof_kv <=? load_word m 4 (buf + 4)) && (sizeof_kv + load_word m 4 (buf + 16) <=? load_word m 4 (buf + 4)).

Definition kvdelta_size (keylen vallen : Z) : Z := sizeof_kvdelta + keylen + vallen.
Definition kvdelta_store (m : mem) (buf cmd : Z) (key val : list Z) (prev_ts ts : Z) : mem * Z :=
  let m := store_word m 4 buf cmd in
  let m := store_word m 4 (buf + 4) (uwrap 32 (sizeof_kvdelta + zlength key + zlength val)) in
  let m := store_word m 8 (buf + 8) ts in
  let m := store_word m 8 (buf + 16) prev_ts in
  let m := store_word m 4 (buf + 24) (zlength key) in
  let m := store m (buf + 28) key in
  let m := store m (buf + 28 + zlength key) val in
  (m, sizeof_kvdelta + zlength key + zlength val).
Definition kvdelta_check (m : mem) (buf : Z) : bool :=
  (sizeof_kvdelta <=? load_word m 4 (buf + 4)) &&
  (sizeof_kvdelta + load_word m 4 (buf + 24) <=? load_word m 4 (buf + 4)).
End Logrec.

(** * [loginfo] *)
(** The front of a log is its lock, held by the caller of [record], and the
    threads that wait for room, in order. *)
Record loginfo : Type := mkLoginfo {
  waiting_ : list Z;
  log_epoch_ : Z; quiescent_epoch_ : Z; wake_epoch_ : Z; flushed_epoch_ : Z;
  buf_ : mem; pos_ : Z; len_ : Z }.

Module Loginfo.
Import Logrec.
Definition make (junk : mem) : loginfo := mkLoginfo [] 0 0 0 0 junk 0 (20 * 1024 * 1024).
Definition quiescent (l : loginfo) : bool :=
  epoch_set (quiescent_epoch_ l) && (quiescent_epoch_ l =? flushed_epoch_ l).
Definition set_waiting (l : loginfo) (w : list Z) : loginfo :=
  mkLoginfo w (log_epoch_ l) (quiescent_epoch_ l) (wake_epoch_ l) (flushed_epoch_ l) (buf_ l) (pos_ l) (len_ l).
Definition set_epochs (l : loginfo) (le qe we fe : Z) : loginfo :=
  mkLoginfo (waiting_ l) le qe we fe (buf_ l) (pos_ l) (len_ l).
Definition set_buf (l : loginfo) (b : mem) (p : Z) : loginfo :=
  mkLoginfo (waiting_ l) (log_epoch_ l) (quiescent_epoch_ l) (wake_epoch_ l) (flushed_epoch_ l) b p (len_ l).
(** [pos_ += store(buf_ + pos_, ...)]. *)
Definition append (st : mem -> Z -> mem * Z) (l : loginfo) : loginfo :=
  let '(b, n) := st (buf_ l) (pos_ l) in set_buf l b (uwrap 32 (pos_ l + n)).

(** [while (we < epoch) we = cmpxchg(&global_wake_epoch, we, epoch)]: the
    global epoch and [we]. *)
Fixpoint raise_wake (fuel : nat) (global we epoch : Z) : Z * Z :=
  match fuel with
  | O => (global, we)
  | S fuel =>
      if epoch_lt we epoch then let '(global, we) := CircularInt.cmpxchg global we epoch in raise_wake fuel global we epoch
      else (global, we)
  end.

(** The epoch record of a query of a new epoch. *)
Definition record_epoch (q : query_times) (l : loginfo) : loginfo :=
  if negb (qepoch q =? log_epoch_ l) then
    append (fun b p => epoch_store b p logcmd_epoch (qepoch q))
      (set_epochs l (qepoch q) (quiescent_epoch_ l) (wake_epoch_ l) (flushed_epoch_ l))
  else l.
(** A quiescent log wakes up: with the global wake epoch and [we]. *)
Definition record_unquiet (q : query_times) (global : Z) (l : loginfo) : Z * Z * loginfo :=
  if epoch_set (quiescent_epoch_ l) then
    let fe := if flushed_epoch_ l =? quiescent_epoch_ l then qepoch q else flushed_epoch_ l in
    (raise_wake 3 global global (qepoch q), set_epochs l (log_epoch_ l) 0 (wake_epoch_ l) fe)
  else (global, global, l).
Definition record_wake (q : query_times) (we : Z) (l : loginfo) : loginfo :=
  let we := if negb (we =? wake_epoch_ l) && epoch_lt (qepoch q) we then qepoch q else we in
  if negb (we =? wake_epoch_ l) then
    append (fun b p => base_store b p logcmd_wake)
      (set_epochs l (log_epoch_ l) (quiescent_epoch_ l) we (flushed_epoch_ l))
  else l.
Definition record_kv (cmd : Z) (q : query_times) (key value : list Z) (l : loginfo) : loginfo :=
  if (cmd =? logcmd_put) && negb (qprev_ts q =? 0) && (Z.land (qprev_ts q) 1 =? 0) then
    append (fun b p => kvdelta_store b p logcmd_modify key value (qprev_ts q) (qts q)) l
  else append (fun b p => kv_store b p cmd key value (qts q)) l.
(** The space a query may need. *)
Definition record_space (key value : list Z) : Z :=
  kvdelta_size (zlength key) (zlength value) + epoch_size + base_size.
(** One turn of the loop of [record], by the thread [me] with the lock, where
    [global] is [global_wake_epoch]; [queued] is set once the thread waits.
    The result is whether the record was made; if not, the thread lets others
    have the lock before its next turn. *)
Definition record_turn (me : Z) (queued : bool) (cmd : Z) (q : query_times) (key value : list Z) (global : Z)
    (l : loginfo) : bool * Z * loginfo :=
  if (record_space key value <=? uwrap 32 (len_ l - pos_ l)) &&
     (negb queued || bool_decide (head (waiting_ l) = Some me)) then
    let l := record_epoch q l in
    let '(global, we, l) := record_unquiet q global l in
    let l := record_wake q we l in
    let l := record_kv cmd q key value l in
    (true, global, if bool_decide (head (waiting_ l) = Some me) then set_waiting l (tail (waiting_ l)) else l)
  else (false, global, if queued then l else set_waiting l (waiting_ l ++ [me])).

(** ** The logger thread *)
(** The first half of a turn of [run], under the lock; [recovering] and the
    epochs are what the thread reads. *)
Definition run_wake (we : Z) (l : loginfo) : loginfo :=
  if negb (wake_epoch_ l =? we) then set_epochs l (log_epoch_ l) 0 we (flushed_epoch_ l) else l.
Definition run_quiesce (recovering : bool) (ge we : Z) (l : loginfo) : loginfo :=
  if negb recovering && (pos_ l =? 0) && negb (epoch_set (quiescent_epoch_ l)) &&
     negb (ge =? log_epoch_ l) && negb (ge =? we) && bool_decide (waiting_ l = []) then
    let l := set_epochs l ge ge (wake_epoch_ l) (flushed_epoch_ l) in
    let l := append (fun b p => epoch_store b p logcmd_epoch ge) l in
    let l := if ge =? wake_epoch_ l then append (fun b p => base_store b p logcmd_wake) l else l in
    append (fun b p => base_store b p logcmd_quiesce) l
  else l.
(** The second half: the buffers are swapped, and the position and the epoch
    are kept for the time without the lock; [None] writes nothing.  The logger
    takes the other buffer [x_buf] for the one it is to write. *)
Definition run_swap (recovering : bool) (ge we : Z) (x_buf : mem) (l : loginfo) : option (Z * Z) * loginfo * mem :=
  let l := run_quiesce recovering ge we (run_wake we l) in
  if negb recovering && (0 <? pos_ l) then
    let x_pos := pos_ l in
    let x_epoch := log_epoch_ l in
    (Some (x_pos, x_epoch), set_buf l x_buf 0, buf_ l)
  else (None, l, x_buf).
(** Without the lock, after the write and the sync. *)
Definition run_flushed (x_epoch : Z) (l : loginfo) : loginfo :=
  set_epochs l (log_epoch_ l) (quiescent_epoch_ l) (wake_epoch_ l) x_epoch.
(** [check_epoch], when the interval is over. *)
Definition next_epoch (global_log_epoch : Z) : Z := CircularInt.next_nonzero 64 global_log_epoch.
End Loginfo.

(** * [logrecord] *)
(** The key and the value are the bytes that the log has for them. *)
Record logrecord : Type := mkLogrecord {
  command : Z; lkey : list Z; lval : list Z; lts : Z; lprev_ts : Z; lepoch : Z }.

Definition max_keylen : Z := 255.

Module Logreplay.
Import Logrec.
Section logreplay.
(** The file from [buf_] to the end [e]. *)
Context (m : mem) (e : Z).

(** A field of the log; [None] is a read past its end. *)
Definition field (n : nat) (a : Z) : option Z := if a + Z.of_nat n <=? e then Some (load_word m n a) else None.

(** [extract]: the record, which keeps the fields that are not read, and the
    next position. *)
Definition extract (buf : Z) (lr : logrecord) : option (logrecord * Z) :=
  let fail := Some (mkLogrecord logcmd_none (lkey lr) (lval lr) (lts lr) (lprev_ts lr) (lepoch lr), e) in
  if e - buf <? sizeof_base then fail else
  size ← field 4 (buf + 4);
  if (size <? sizeof_base) || (e - buf <? size) then fail else
  cmd ← field 4 buf;
  if cmd =? logcmd_none then fail else
  if (cmd =? logcmd_put) || (cmd =? logcmd_replace) || (cmd =? logcmd_remove) then
    if size <? sizeof_kv then fail else
    keylen ← field 4 (buf + 16);
    if (max_keylen <? keylen) || (size <? sizeof_kv + keylen) then fail else
    ts ← field 8 (buf + 8);
    Some (mkLogrecord cmd (load m (buf + 20) keylen) (load m (buf + 20 + keylen) (size - sizeof_kv - keylen))
            ts (lprev_ts lr) (lepoch lr), buf + size)
  else if cmd =? logcmd_modify then
    keylen ← field 4 (buf + 24);
    if (max_keylen <? keylen) || (size <? sizeof_kvdelta + keylen) then fail else
    ts ← field 8 (buf + 8);
    prev_ts ← field 8 (buf + 16);
    Some (mkLogrecord cmd (load m (buf + 28) keylen) (load m (buf + 28 + keylen) (size - sizeof_kvdelta - keylen))
            ts prev_ts (lepoch lr), buf + size)
  else if cmd =? logcmd_epoch then
    if size <? sizeof_epoch then fail else
    ep ← field 8 (buf + 8);
    Some (mkLogrecord cmd (lkey lr) (lval lr) (lts lr) (lprev_ts lr) ep, buf + size)
  else Some (mkLogrecord cmd (lkey lr) (lval lr) (lts lr) (lprev_ts lr) (lepoch lr), buf + size).

(** ** [info] *)
Record info_type : Type := mkInfo {
  first_epoch : Z; last_epoch : Z; iwake_epoch : Z; min_post_quiescent_wake_epoch_ : Z; iquiescent : bool }.
(** One record; [None] where the loop is left. *)
Definition info_step (ndebug : bool) (buf : Z) (x : info_type) : option info_type :=
  let size := load_word m 4 (buf + 4) in
  let cmd := load_word m 4 buf in
  let x := mkInfo (first_epoch x) (last_epoch x) (iwake_epoch x) (min_post_quiescent_wake_epoch_ x) (cmd =? logcmd_quiesce) in
  if cmd =? logcmd_epoch then
    if size <? sizeof_epoch then None else
    let ep := load_word m 8 (buf + 8) in
    let wk := if epoch_set (iwake_epoch x) && epoch_gt (iwake_epoch x) ep then 0 else iwake_epoch x in
    Some (mkInfo (if epoch_set (first_epoch x) then first_epoch x else ep) ep wk
      (min_post_quiescent_wake_epoch_ x) (iquiescent x))
  else if cmd =? logcmd_wake then
    Some (mkInfo (first_epoch x) (last_epoch x) (last_epoch x) (min_post_quiescent_wake_epoch_ x) (iquiescent x))
  else if negb ndebug && negb (existsb (Z.eqb cmd) [logcmd_put; logcmd_replace; logcmd_modify; logcmd_remove; logcmd_quiesce])
  then None else Some x.
(** What of the record counts even when the loop is left at it. *)
Definition info_quiescent (buf : Z) (x : info_type) : info_type :=
  mkInfo (first_epoch x) (last_epoch x) (iwake_epoch x) (min_post_quiescent_wake_epoch_ x)
    (load_word m 4 buf =? logcmd_quiesce).
Fixpoint info_loop (fuel : nat) (ndebug : bool) (buf : Z) (x : info_type) : info_type :=
  match fuel with
  | O => x
  | S fuel =>
      if buf + sizeof_base <=? e then
        let size := load_word m 4 (buf + 4) in
        if (size <? sizeof_base) || (e <? buf + size) then x else
        match info_step ndebug buf x with
        | Some x => info_loop fuel ndebug (buf + size) x
        | None => info_quiescent buf x
        end
      else x
  end.
Definition info (ndebug : bool) (buf : Z) : info_type :=
  info_loop (Z.to_nat (e - buf)) ndebug buf (mkInfo 0 0 0 0 true).

(** ** [min_post_quiescent_wake_epoch] *)
Fixpoint min_wake_loop (fuel : nat) (quiescent_epoch buf ep : Z) : Z :=
  match fuel with
  | O => 0
  | S fuel =>
      if buf + sizeof_base <=? e then
        let size := load_word m 4 (buf + 4) in
        if (size <? sizeof_base) || (e <? buf + size) then 0 else
        let cmd := load_word m 4 buf in
        if cmd =? logcmd_epoch then
          if size <? sizeof_epoch then 0 else min_wake_loop fuel quiescent_epoch (buf + size) (load_word m 8 (buf + 8))
        else if (cmd =? logcmd_wake) && epoch_set ep && epoch_ge ep quiescent_epoch then ep
        else min_wake_loop fuel quiescent_epoch (buf + size) ep
      else 0
  end.
Definition min_post_quiescent_wake_epoch (quiescent_epoch buf : Z) : Z :=
  min_wake_loop (Z.to_nat (e - buf)) quiescent_epoch buf 0.

(** ** [replayandclean1] *)
(** The records to run, in order, their number, and the part of the file that
    stays. *)
Record replaying : Type := mkReplaying { lr_ : logrecord; ran_ : list logrecord; nr_ : Z; repbegin_ : option Z; repend_ : option Z }.
Definition is_data (cmd : Z) : bool :=
  (cmd =? logcmd_put) || (cmd =? logcmd_replace) || (cmd =? logcmd_modify) || (cmd =? logcmd_remove).

(** [None] is a failed assertion or a read past the end. *)
Fixpoint replay_loop (fuel : nat) (min_epoch max_epoch pos : Z) (r : replaying) : option (Z * replaying) :=
  match fuel with
  | O => None
  | S fuel =>
      if pos <? e then
        x ← extract pos (lr_ r);
        let '(lr, nextpos) := x in
        let r := mkReplaying lr (ran_ r) (nr_ r) (repbegin_ r) (repend_ r) in
        if command lr =? logcmd_none then Some (pos, r) else
        let r :=
          if (command lr =? logcmd_epoch) &&
             (epoch_set min_epoch && epoch_lt (lepoch lr) min_epoch ||
              negb (epoch_set min_epoch) && negb (bool_decide (is_Some (repbegin_ r))))
          then mkReplaying lr (ran_ r) (nr_ r) (Some pos) (repend_ r) else r in
        if (command lr =? logcmd_epoch) && epoch_ge (lepoch lr) max_epoch then
          match repbegin_ r with
          | Some _ => Some (pos, mkReplaying lr (ran_ r) (nr_ r) (repbegin_ r) (Some nextpos))
          | None => None
          end
        else if negb (epoch_set (lepoch lr)) || epoch_set min_epoch && epoch_lt (lepoch lr) min_epoch then
          replay_loop fuel min_epoch max_epoch nextpos
            (match repbegin_ r with
             | Some _ => mkReplaying lr (ran_ r) (nr_ r) (repbegin_ r) (Some nextpos)
             | None => r end)
        else
          match repbegin_ r with
          | None => None
          | Some _ =>
              let counts := negb (zlength (lkey lr) =? 0) in
              replay_loop fuel min_epoch max_epoch nextpos
                (mkReplaying lr (if counts && is_data (command lr) then ran_ r ++ [lr] else ran_ r)
                   (if counts then uwrap 64 (nr_ r + 1) else nr_ r) (repbegin_ r) (Some nextpos))
          end
      else Some (pos, r)
  end.
(** [logrecord lr], whose epoch is the only field that starts with a value. *)
Definition replayandclean1 (junk : logrecord) (min_epoch max_epoch buf : Z) : option (list logrecord * Z * (Z * Z)) :=
  let lr := mkLogrecord (command junk) [] [] (lts junk) (lprev_ts junk) 0 in
  x ← replay_loop (S (Z.to_nat (e - buf))) min_epoch max_epoch buf (mkReplaying lr [] 0 None None);
  let '(pos, r) := x in
  Some (ran_ r, nr_ r,
    match repbegin_ r, repend_ r with
    | None, _ => (buf, buf)
    | Some b, None => (b, pos)
    | Some b, Some en => (b, en)
    end).
End logreplay.
End Logreplay.
