(* ===== verification/LogSpec.v ===== *)
(** What the log holds: the records as a list of entries, what [record] adds to
    them, and what [extract] reads back, also from a file cut off anywhere. *)
From S2P Require Import Prelude Compiler Memory CircularInt Query Log.
Import Logrec.

(** * Entries *)
Inductive entry : Type :=
  | EBase (cmd : Z)
  | EEpoch (ep : Z)
  | EKv (cmd : Z) (key val : list Z) (ts : Z)
  | EDelta (key val : list Z) (prev_ts ts : Z).

Definition entry_size (en : entry) : Z :=
  match en with
  | EBase _ => sizeof_base
  | EEpoch _ => sizeof_epoch
  | EKv _ key val _ => sizeof_kv + zlength key + zlength val
  | EDelta key val _ _ => sizeof_kvdelta + zlength key + zlength val
  end.
Definition kv_command (cmd : Z) : Prop := cmd = logcmd_put \/ cmd = logcmd_replace \/ cmd = logcmd_remove.
(** Entries that a record has room for. *)
Definition entry_ok (en : entry) : Prop :=
  entry_size en < 2 ^ 32 /\
  match en with
  | EBase cmd => cmd = logcmd_wake \/ cmd = logcmd_quiesce
  | EEpoch ep => in_u 64 ep
  | EKv cmd key val ts => kv_command cmd /\ zlength key <= max_keylen /\ in_u 64 ts
  | EDelta key val prev_ts ts => zlength key <= max_keylen /\ in_u 64 prev_ts /\ in_u 64 ts
  end.

(** The record of an entry is at [a]. *)
Definition entry_at (m : mem) (a : Z) (en : entry) : Prop :=
  load_word m 4 (a + 4) = entry_size en /\
  match en with
  | EBase cmd => load_word m 4 a = cmd
  | EEpoch ep => load_word m 4 a = logcmd_epoch /\ load_word m 8 (a + 8) = ep
  | EKv cmd key val ts =>
      load_word m 4 a = cmd /\ load_word m 8 (a + 8) = ts /\ load_word m 4 (a + 16) = zlength key /\
      load m (a + 20) (zlength key) = key /\ load m (a + 20 + zlength key) (zlength val) = val
  | EDelta key val prev_ts ts =>
      load_word m 4 a = logcmd_modify /\ load_word m 8 (a + 8) = ts /\ load_word m 8 (a + 16) = prev_ts /\
      load_word m 4 (a + 24) = zlength key /\
      load m (a + 28) (zlength key) = key /\ load m (a + 28 + zlength key) (zlength val) = val
  end.
(** The log from [a] to [e]. *)
Fixpoint log_at (m : mem) (a : Z) (ens : list entry) (e : Z) : Prop :=
  match ens with
  | [] => a = e
  | en :: ens => entry_ok en /\ entry_at m a en /\ log_at m (a + entry_size en) ens e
  end.

Lemma entry_size_pos en : 8 <= entry_size en.
Proof.
  destruct en as [|?|? key val ?|key val ? ?]; unfold entry_size, sizeof_base, sizeof_epoch, sizeof_kv, sizeof_kvdelta; try lia;
    pose proof (zlength_nonneg key); pose proof (zlength_nonneg val); lia.
Qed.
Lemma log_at_le m ens : forall a e, log_at m a ens e -> a <= e.
Proof.
  induction ens as [|en ens IH]; intros a e; cbn; [lia|]. intros (_ & _ & H%IH). pose proof (entry_size_pos en). lia.
Qed.

(** An entry is where its bytes are. *)
Lemma entry_at_shift m m' a b en :
  (forall i, 0 <= i < entry_size en -> m' (b + i) = m (a + i)) -> entry_at m a en -> entry_at m' b en.
Proof.
  intros H. assert (forall x n, 0 <= x -> x + n <= entry_size en -> load m' (b + x) n = load m (a + x) n) as Hl.
  { intros x n Hx Hn. apply load_ext. intros i Hi. rewrite <- !Z.add_assoc. apply H. lia. }
  assert (forall n x, 0 <= x -> x + Z.of_nat n <= entry_size en -> load_word m' n (b + x) = load_word m n (a + x)) as Hw.
  { intros n x Hx Hn. unfold load_word. by rewrite Hl. }
  assert (load_word m' 4 b = load_word m 4 a) as Hw0.
  { pose proof (entry_size_pos en). rewrite <- (Z.add_0_r b), <- (Z.add_0_r a). apply Hw; cbn; lia. }
  pose proof (entry_size_pos en). intros [Hs Hen]. split; [by rewrite Hw by (cbn; lia)|].
  destruct en as [c|ep|c key val ts|key val p ts];
    unfold entry_size, sizeof_base, sizeof_epoch, sizeof_kv, sizeof_kvdelta in *;
    try (pose proof (zlength_nonneg key); pose proof (zlength_nonneg val)); rewrite ?Hw0, ?Hw by (cbn; lia);
    rewrite <- ?Z.add_assoc in *; rewrite ?Hl by lia; done.
Qed.
Lemma log_at_shift m m' ens : forall a b e,
  (forall i, 0 <= i < e - a -> m' (b + i) = m (a + i)) -> log_at m a ens e -> log_at m' b ens (b + (e - a)).
Proof.
  induction ens as [|en ens IH]; intros a b e H; cbn; [intros ->; lia|]. intros (Hok & Hen & Hl).
  pose proof (log_at_le _ _ _ _ Hl). pose proof (entry_size_pos en).
  split; [done|]. split; [eapply entry_at_shift; [|done]; intros; apply H; lia|].
  replace (b + (e - a)) with (b + entry_size en + (e - (a + entry_size en))) by lia. apply (IH (a + entry_size en)); [|done].
  intros i Hi. rewrite <- !Z.add_assoc. apply H. lia.
Qed.
Lemma log_at_ext m m' ens a e : (forall x, a <= x < e -> m' x = m x) -> log_at m a ens e -> log_at m' a ens e.
Proof.
  intros H Hl. replace e with (a + (e - a)) by lia. eapply log_at_shift; [|done]. intros i Hi. apply H. lia.
Qed.
Lemma log_at_det m ens : forall a e e', log_at m a ens e -> log_at m a ens e' -> e = e'.
Proof.
  induction ens as [|en ens IH]; intros a e e'; cbn; [congruence|]. intros (_ & _ & H1) (_ & _ & H2). by eapply IH.
Qed.
Lemma log_at_app m ens1 ens2 : forall a e, log_at m a (ens1 ++ ens2) e <-> exists b, log_at m a ens1 b /\ log_at m b ens2 e.
Proof.
  induction ens1 as [|en ens1 IH]; intros a e; cbn.
  - split; [by exists a|]. by intros (b & -> & H).
  - setoid_rewrite IH. split.
    + intros (Hok & Hen & b & H1 & H2). exists b. tauto.
    + intros (b & (Hok & Hen & H1) & H2). split; [done|]. split; [done|]. by exists b.
Qed.

(** * Stores *)
(** [st] writes the entry, and nothing outside of it. *)
Definition stores (st : mem -> Z -> mem * Z) (en : entry) : Prop :=
  forall m a, let '(m', n) := st m a in
    n = entry_size en /\ entry_at m' a en /\ forall x, x < a \/ a + n <= x -> m' x = m x.

Lemma word_read m n a x b k : a + Z.of_nat n <= b \/ b + Z.of_nat k <= a ->
  load_word (store_word m n a x) k b = load_word m k b.
Proof. intros H. apply load_word_ext. intros y Hy. apply store_word_other. lia. Qed.
Lemma word_read_store m a l b k : a + zlength l <= b \/ b + Z.of_nat k <= a ->
  load_word (store m a l) k b = load_word m k b.
Proof. intros H. apply load_word_ext. intros y Hy. apply store_other. lia. Qed.
(** Reads words back out of the stores that wrote them. *)
Ltac read_words :=
  repeat first
    [ rewrite load_word_store
    | rewrite word_read by (cbn; lia)
    | rewrite word_read_store by lia ].
Ltac outside := repeat first [ rewrite store_word_other by (cbn; lia) | rewrite store_other by lia ]; done.

Lemma base_stores cmd : in_u 32 cmd -> stores (fun b p => base_store b p cmd) (EBase cmd).
Proof.
  intros Hc m a. cbn. unfold sizeof_base. split; [done|]. split.
  - split; cbn; read_words; [done|]. by apply Z.mod_small.
  - intros x Hx. outside.
Qed.
Lemma epoch_stores ep : in_u 64 ep -> stores (fun b p => epoch_store b p logcmd_epoch ep) (EEpoch ep).
Proof.
  intros He m a. cbn. unfold sizeof_epoch. split; [done|]. split.
  - split; cbn; read_words; [done|]. split; [done|]. by apply Z.mod_small.
  - intros x Hx. outside.
Qed.
Lemma kv_stores cmd key val ts :
  entry_ok (EKv cmd key val ts) -> stores (fun b p => kv_store b p cmd key val ts) (EKv cmd key val ts).
Proof.
  intros (Hs & Hc & Hk & Hts) m a. cbn in Hs. unfold max_keylen, sizeof_kv in *. cbn. unfold sizeof_kv in *.
  pose proof (zlength_nonneg key). pose proof (zlength_nonneg val). unfold uwrap. split; [done|]. split.
  - split; cbn; read_words; unfold sizeof_kv.
    + change (256 ^ Z.of_nat 4) with (2 ^ 32). by rewrite Zmod_mod, Z.mod_small by lia.
    + split_and!.
      * rewrite Z.mod_small; [done|]. destruct Hc as [->|[->| ->]]; by vm_compute.
      * by apply Z.mod_small.
      * by rewrite Z.mod_small by (cbn; lia).
      * rewrite load_store_other by lia. apply load_store_same.
      * apply load_store_same.
  - intros x Hx. outside.
Qed.
Lemma kvdelta_stores key val p ts :
  entry_ok (EDelta key val p ts) -> stores (fun b q => kvdelta_store b q logcmd_modify key val p ts) (EDelta key val p ts).
Proof.
  intros (Hs & Hk & Hp & Hts) m a. cbn in Hs. unfold max_keylen, sizeof_kvdelta in *. cbn. unfold sizeof_kvdelta in *.
  pose proof (zlength_nonneg key). pose proof (zlength_nonneg val). unfold uwrap. split; [done|]. split.
  - split; cbn; read_words; unfold sizeof_kvdelta.
    + change (256 ^ Z.of_nat 4) with (2 ^ 32). by rewrite Zmod_mod, Z.mod_small by lia.
    + split_and!.
      * done.
      * by apply Z.mod_small.
      * by apply Z.mod_small.
      * by rewrite Z.mod_small by (cbn; lia).
      * rewrite load_store_other by lia. apply load_store_same.
      * apply load_store_same.
  - intros x Hx. outside.
Qed.

(** * Reading back *)
(** The record that [extract] makes of an entry. *)
Definition read_into (lr : logrecord) (en : entry) : logrecord :=
  match en with
  | EBase cmd => mkLogrecord cmd (lkey lr) (lval lr) (lts lr) (lprev_ts lr) (lepoch lr)
  | EEpoch ep => mkLogrecord logcmd_epoch (lkey lr) (lval lr) (lts lr) (lprev_ts lr) ep
  | EKv cmd key val ts => mkLogrecord cmd key val ts (lprev_ts lr) (lepoch lr)
  | EDelta key val prev_ts ts => mkLogrecord logcmd_modify key val ts prev_ts (lepoch lr)
  end.
Definition failed (lr : logrecord) : logrecord :=
  mkLogrecord logcmd_none (lkey lr) (lval lr) (lts lr) (lprev_ts lr) (lepoch lr).

Section extract.
Context (m : mem) (e : Z).
Import Logreplay.

Lemma field_in {A} n a (k : Z -> option A) : a + Z.of_nat n <= e -> (x ← field m e n a; k x) = k (load_word m n a).
Proof using Type. intros H. unfold field. by destruct (Z.leb_spec (a + Z.of_nat n) e); [|lia]. Qed.

Lemma extract_entry a lr en :
  entry_ok en -> entry_at m a en -> a + entry_size en <= e ->
  extract m e a lr = Some (read_into lr en, a + entry_size en).
Proof using Type.
  intros [Hs Hok] [Hsz Hen] He. pose proof (entry_size_pos en) as Hp. unfold extract, sizeof_base.
  destruct (Z.ltb_spec (e - a) 8) as [|_]; [lia|]. rewrite field_in by (cbn; lia). rewrite Hsz.
  destruct (Z.ltb_spec (entry_size en) 8) as [|_]; [lia|]. destruct (Z.ltb_spec (e - a) (entry_size en)) as [|_]; [lia|].
  cbn [orb]. rewrite field_in by (cbn; lia).
  destruct en as [c|ep|c key val ts|key val p ts].
  - rewrite Hen. destruct Hok as [-> | ->]; done.
  - destruct Hen as [-> Hep]. cbn in He |- *. rewrite field_in by (cbn; unfold sizeof_epoch in *; lia). by rewrite Hep.
  - destruct Hen as (-> & Hts & Hkl & Hk & Hv), Hok as (Hc & Hkm & _).
    assert ((c =? logcmd_none) = false /\ (c =? logcmd_put) || (c =? logcmd_replace) || (c =? logcmd_remove) = true) as [-> ->]
      by (destruct Hc as [->|[->| ->]]; done).
    cbn [entry_size] in *. pose proof (zlength_nonneg key). pose proof (zlength_nonneg val). unfold sizeof_kv in *.
    destruct (Z.ltb_spec (24 + zlength key + zlength val) 24) as [|_]; [lia|].
    rewrite field_in by (cbn; lia). rewrite Hkl.
    destruct (Z.ltb_spec max_keylen (zlength key)) as [|_]; [lia|].
    destruct (Z.ltb_spec (24 + zlength key + zlength val) (24 + zlength key)) as [|_]; [lia|]. cbn [orb].
    rewrite field_in by (cbn; lia). rewrite Hts.
    replace (24 + zlength key + zlength val - 24 - zlength key) with (zlength val) by lia. by rewrite Hk, Hv.
  - destruct Hen as (-> & Hts & Hpt & Hkl & Hk & Hv), Hok as (Hkm & _). cbn [entry_size] in *.
    pose proof (zlength_nonneg key). pose proof (zlength_nonneg val). unfold sizeof_kvdelta in *.
    change (logcmd_modify =? logcmd_none) with false.
    change ((logcmd_modify =? logcmd_put) || (logcmd_modify =? logcmd_replace) || (logcmd_modify =? logcmd_remove)) with false.
    change (logcmd_modify =? logcmd_modify) with true. cbv iota.
    rewrite field_in by (cbn; lia). rewrite Hkl.
    destruct (Z.ltb_spec max_keylen (zlength key)) as [|_]; [lia|].
    destruct (Z.ltb_spec (32 + zlength key + zlength val) (32 + zlength key)) as [|_]; [lia|]. cbn [orb].
    rewrite !field_in by (cbn; lia). rewrite Hts, Hpt.
    replace (32 + zlength key + zlength val - 32 - zlength key) with (zlength val) by lia. by rewrite Hk, Hv.
Qed.

(** A record that is cut off is no record. *)
Lemma extract_cut a lr en :
  entry_at m a en -> a <= e < a + entry_size en -> extract m e a lr = Some (failed lr, e).
Proof using Type.
  intros [Hsz _] He. unfold extract, sizeof_base, failed. destruct (Z.ltb_spec (e - a) 8); [done|].
  rewrite field_in by (cbn; lia). rewrite Hsz.
  destruct (Z.ltb_spec (e - a) (entry_size en)) as [_|]; [|lia]. by rewrite orb_true_r.
Qed.

(** Only a modify record can send [extract] past the end: its key length is
    read before the size of the record is compared with it. *)
Lemma extract_in_bounds a lr :
  a <= e -> load_word m 4 a <> logcmd_modify -> is_Some (extract m e a lr).
Proof using Type.
  intros Ha Hm. unfold extract, sizeof_base, sizeof_kv, sizeof_epoch.
  destruct (Z.ltb_spec (e - a) 8); [done|]. rewrite field_in by (cbn; lia).
  set (sz := load_word m 4 (a + 4)). destruct (Z.ltb_spec sz 8); [done|]. destruct (Z.ltb_spec (e - a) sz); [done|]. cbn [orb].
  rewrite field_in by (cbn; lia). set (c := load_word m 4 a) in *.
  destruct (c =? logcmd_none); [done|]. destruct (_ || _).
  - destruct (Z.ltb_spec sz 24); [done|]. rewrite field_in by (cbn; lia).
    destruct (_ || _); [done|]. rewrite field_in by (cbn; lia). done.
  - destruct (Z.eqb_spec c logcmd_modify) as [|_]; [done|]. destruct (c =? logcmd_epoch); [|done].
    destruct (Z.ltb_spec sz 16); [done|]. rewrite field_in by (cbn; lia). done.
Qed.
End extract.

(** Eight bytes at the end of a file are enough to send it past the end. *)
Lemma extract_overread m lr :
  load_word m 4 0 = logcmd_modify -> load_word m 4 4 = 8 -> Logreplay.extract m 8 0 lr = None.
Proof.
  intros Hc Hs. unfold Logreplay.extract. change (8 - 0 <? sizeof_base) with false. cbv iota.
  rewrite field_in by (cbn; lia). change (0 + 4) with 4. rewrite Hs.
  change ((8 <? sizeof_base) || (8 - 0 <? 8)) with false. cbv iota. rewrite field_in by (cbn; lia). rewrite Hc. done.
Qed.
