(* ===== verification/Logger.v ===== *)
(** A log in use: queries record into its buffer, the logger thread writes the
    buffer to the file.  What is recorded gets into the file in order, and all
    of the epochs before [flushed_epoch_] are there. *)
From S2P Require Import Prelude Compiler Memory CircularInt Query Log LogSpec.
Import Logrec Loginfo.

(** * Appending *)
(** The buffer holds the entries. *)
Definition holds (l : loginfo) (ens : list entry) : Prop :=
  log_at (buf_ l) 0 ens (pos_ l) /\ 0 <= pos_ l <= len_ l /\ len_ l < 2 ^ 32.
(** The fields beside the buffer. *)
Definition same_front (l l' : loginfo) : Prop :=
  waiting_ l' = waiting_ l /\ log_epoch_ l' = log_epoch_ l /\ quiescent_epoch_ l' = quiescent_epoch_ l /\
  wake_epoch_ l' = wake_epoch_ l /\ flushed_epoch_ l' = flushed_epoch_ l /\ len_ l' = len_ l.

Lemma append_holds st en l ens :
  holds l ens -> stores st en -> entry_ok en -> pos_ l + entry_size en <= len_ l ->
  holds (append st l) (ens ++ [en]) /\ pos_ (append st l) = pos_ l + entry_size en /\ same_front l (append st l).
Proof.
  intros (Hlog & Hpos & Hlen) Hst Hok Hroom. pose proof (entry_size_pos en). unfold append.
  specialize (Hst (buf_ l) (pos_ l)). destruct (st (buf_ l) (pos_ l)) as [b n]. destruct Hst as (-> & Hen & Hout). cbn.
  unfold uwrap. rewrite Z.mod_small by lia. split; [|by split_and!]. split; [|cbn; lia]. cbn.
  apply log_at_app. exists (pos_ l). split; [|by split_and!].
  eapply log_at_ext; [|exact Hlog]. intros x Hx. apply Hout. lia.
Qed.

Lemma set_epochs_holds l ens le qe we fe : holds l ens -> holds (set_epochs l le qe we fe) ens.
Proof. done. Qed.

(** * What [record] appends *)
(** The entry of a query. *)
Definition query_entry (cmd : Z) (q : query_times) (key value : list Z) : entry :=
  if (cmd =? logcmd_put) && negb (qprev_ts q =? 0) && (Z.land (qprev_ts q) 1 =? 0)
  then EDelta key value (qprev_ts q) (qts q) else EKv cmd key value (qts q).
Definition query_ok (cmd : Z) (q : query_times) (key value : list Z) : Prop :=
  kv_command cmd /\ zlength key <= max_keylen /\ zlength value < 2 ^ 31 /\
  in_u 64 (qts q) /\ in_u 64 (qprev_ts q) /\ in_u 64 (qepoch q).

Lemma query_entry_ok cmd q key value : query_ok cmd q key value ->
  entry_ok (query_entry cmd q key value) /\ entry_size (query_entry cmd q key value) <= kvdelta_size (zlength key) (zlength value).
Proof.
  unfold query_ok, max_keylen. intros (Hc & Hk & Hv & Ht & Hp & _). unfold query_entry, kvdelta_size, entry_ok.
  pose proof (zlength_nonneg key). pose proof (zlength_nonneg value).
  destruct (_ && _ && _); cbn; unfold sizeof_kv, sizeof_kvdelta; split_and!; done || lia.
Qed.

Lemma record_kv_eq cmd q key value l :
  exists st, record_kv cmd q key value l = append st l /\
    (query_ok cmd q key value -> stores st (query_entry cmd q key value)).
Proof.
  unfold record_kv, query_entry. destruct (_ && _ && _) eqn:E; eexists; (split; [done|]); intros Hq;
    pose proof (proj1 (query_entry_ok _ _ _ _ Hq)) as Hok; unfold query_entry in Hok; rewrite E in Hok.
  - by apply kvdelta_stores.
  - by apply kv_stores.
Qed.

(** The three records that may come first, one after the other. *)
Definition epoch_entries (q : query_times) (l : loginfo) : list entry :=
  if qepoch q =? log_epoch_ l then [] else [EEpoch (qepoch q)].
Lemma record_epoch_spec q l ens :
  holds l ens -> in_u 64 (qepoch q) -> pos_ l + 16 <= len_ l ->
  let l' := record_epoch q l in
  holds l' (ens ++ epoch_entries q l) /\ pos_ l' <= pos_ l + 16 /\ log_epoch_ l' = qepoch q /\
  quiescent_epoch_ l' = quiescent_epoch_ l /\ flushed_epoch_ l' = flushed_epoch_ l /\ len_ l' = len_ l.
Proof.
  intros Hh Hq Hroom. unfold record_epoch, epoch_entries. destruct (Z.eqb_spec (qepoch q) (log_epoch_ l)) as [->|Hne]; cbn [negb].
  - rewrite app_nil_r. split_and!; try done; lia.
  - destruct (append_holds (fun b p => epoch_store b p logcmd_epoch (qepoch q)) (EEpoch (qepoch q))
      (set_epochs l (qepoch q) (quiescent_epoch_ l) (wake_epoch_ l) (flushed_epoch_ l)) ens) as (Ha & Hp & _ & F2 & F3 & _ & F5 & F6);
      [by apply set_epochs_holds|by apply epoch_stores|by split|done|].
    split_and!; try done. by rewrite Hp.
Qed.
Definition woken_flushed (q : query_times) (l : loginfo) : Z :=
  if epoch_set (quiescent_epoch_ l) && (flushed_epoch_ l =? quiescent_epoch_ l) then qepoch q else flushed_epoch_ l.
Lemma record_unquiet_spec q global l ens :
  holds l ens -> let '(g, we, l') := record_unquiet q global l in
  holds l' ens /\ pos_ l' = pos_ l /\ log_epoch_ l' = log_epoch_ l /\ quiescent_epoch_ l' = 0 /\ len_ l' = len_ l /\
  flushed_epoch_ l' = woken_flushed q l.
Proof.
  intros Hh. unfold record_unquiet, woken_flushed. destruct (epoch_set (quiescent_epoch_ l)) eqn:Es.
  - by destruct (raise_wake 3 global global (qepoch q)) as [g we].
  - split_and!; try done. unfold epoch_set, CircularInt.to_bool in Es. by destruct (Z.eqb_spec (quiescent_epoch_ l) 0).
Qed.
Lemma record_wake_spec q we l ens :
  holds l ens -> pos_ l + 8 <= len_ l -> let l' := record_wake q we l in
  exists wake, (wake = [] \/ wake = [EBase logcmd_wake]) /\ holds l' (ens ++ wake) /\ pos_ l' <= pos_ l + 8 /\
    log_epoch_ l' = log_epoch_ l /\ quiescent_epoch_ l' = quiescent_epoch_ l /\ len_ l' = len_ l /\
    flushed_epoch_ l' = flushed_epoch_ l.
Proof.
  intros Hh Hroom. unfold record_wake.
  match goal with |- context [if ?b then qepoch q else we] => set (w := if b then qepoch q else we) end.
  destruct (negb (w =? wake_epoch_ l)).
  - destruct (append_holds (fun b p => base_store b p logcmd_wake) (EBase logcmd_wake)
      (set_epochs l (log_epoch_ l) (quiescent_epoch_ l) w (flushed_epoch_ l)) ens) as (Ha & Hp & _ & F2 & F3 & _ & F5 & F6);
      [by apply set_epochs_holds|by apply base_stores|split; [done|by left]|done|].
    exists [EBase logcmd_wake]. split; [by right|]. split_and!; try done. by rewrite Hp.
  - exists []. rewrite app_nil_r. split; [by left|]. split_and!; try done; lia.
Qed.

(** A record that is made: the space asked for is enough for all that goes in. *)
Lemma record_turn_spec me queued cmd q key value global l ens global' l' :
  holds l ens -> query_ok cmd q key value ->
  record_turn me queued cmd q key value global l = (true, global', l') ->
  exists wake, (wake = [] \/ wake = [EBase logcmd_wake]) /\
    holds l' (ens ++ epoch_entries q l ++ wake ++ [query_entry cmd q key value]) /\
    log_epoch_ l' = qepoch q /\ quiescent_epoch_ l' = 0 /\ flushed_epoch_ l' = woken_flushed q l /\ len_ l' = len_ l.
Proof.
  intros Hh Hq. unfold record_turn. destruct (Z.leb_spec (record_space key value) (uwrap 32 (len_ l - pos_ l))) as [Hsp|]; [|done].
  destruct (negb queued || _); [|done]. cbn [andb]. pose proof Hh as (_ & Hpos & Hlen).
  unfold uwrap in Hsp. rewrite Z.mod_small in Hsp by lia. unfold record_space, epoch_size, base_size, sizeof_epoch, sizeof_base in Hsp.
  pose proof (query_entry_ok _ _ _ _ Hq) as [Hqok Hqsz]. pose proof (entry_size_pos (query_entry cmd q key value)).
  destruct (record_epoch_spec q l ens Hh) as (H1 & Hp1 & He1 & Hq1 & Hf1 & Hl1); [apply Hq|lia|].
  pose proof (record_unquiet_spec q global _ _ H1) as Hun.
  destruct (record_unquiet q global (record_epoch q l)) as [[g we] l2]. destruct Hun as (H2 & Hp2 & He2 & Hq2 & Hl2 & Hf2).
  destruct (record_wake_spec q we l2 _ H2) as (wake & Hw & H3 & Hp3 & He3 & Hq3 & Hl3 & Hf3); [lia|].
  destruct (record_kv_eq cmd q key value (record_wake q we l2)) as (st & -> & Hst).
  destruct (append_holds st (query_entry cmd q key value) _ _ H3 (Hst Hq) Hqok) as (H4 & Hp4 & F1 & F2 & F3 & _ & F5 & F6); [lia|].
  intros [= _ Hl']. exists wake. split; [done|]. rewrite <- !app_assoc in H4.
  set (l4 := append st (record_wake q we l2)) in *.
  assert (l' = l4 \/ l' = set_waiting l4 (tail (waiting_ l4))) as Hl4 by (rewrite <- Hl'; case_match; tauto).
  assert (flushed_epoch_ l4 = woken_flushed q l) as Hfl.
  { rewrite F5, Hf3, Hf2. unfold woken_flushed. by rewrite Hq1, Hf1. }
  destruct Hl4 as [->| ->]; (split; [exact H4|]); cbn; split_and!; congruence.
Qed.

(** * Records and their epochs *)
(** The data entries of a log, each with the epoch record before it; [cur] is
    the epoch at the start. *)
Fixpoint tagged (cur : Z) (ens : list entry) : list (Z * entry) :=
  match ens with
  | [] => []
  | EBase _ :: ens => tagged cur ens
  | EEpoch ep :: ens => tagged ep ens
  | en :: ens => (cur, en) :: tagged cur ens
  end.
Fixpoint end_epoch (cur : Z) (ens : list entry) : Z :=
  match ens with
  | [] => cur
  | EEpoch ep :: ens => end_epoch ep ens
  | _ :: ens => end_epoch cur ens
  end.
Lemma tagged_app ens1 ens2 : forall cur, tagged cur (ens1 ++ ens2) = tagged cur ens1 ++ tagged (end_epoch cur ens1) ens2.
Proof. induction ens1 as [|[] ens1 IH]; intros cur; cbn; [done|rewrite ?IH; done..]. Qed.
Lemma end_epoch_app ens1 ens2 : forall cur, end_epoch cur (ens1 ++ ens2) = end_epoch (end_epoch cur ens1) ens2.
Proof. induction ens1 as [|[] ens1 IH]; intros cur; cbn; [done|rewrite ?IH; done..]. Qed.

Lemma recorded_tagged cmd q key value l wake :
  (wake = [] \/ wake = [EBase logcmd_wake]) ->
  tagged (log_epoch_ l) (epoch_entries q l ++ wake ++ [query_entry cmd q key value]) =
    [(qepoch q, query_entry cmd q key value)] /\
  end_epoch (log_epoch_ l) (epoch_entries q l ++ wake ++ [query_entry cmd q key value]) = qepoch q.
Proof.
  intros Hw. unfold epoch_entries, query_entry.
  destruct (Z.eqb_spec (qepoch q) (log_epoch_ l)) as [->|_], Hw as [->| ->], (_ && _ && _); done.
Qed.

(** * A log at work *)
(** A query in [record]. *)
Record call : Type := mkCall { c_me : Z; c_cmd : Z; c_times : query_times; c_key : list Z; c_value : list Z }.
Definition call_epoch (c : call) : Z := qepoch (c_times c).
Definition call_entry (c : call) : entry := query_entry (c_cmd c) (c_times c) (c_key c) (c_value c).
Definition call_ok (c : call) : Prop := query_ok (c_cmd c) (c_times c) (c_key c) (c_value c).
Definition call_turn (c : call) (queued : bool) : Z -> loginfo -> bool * Z * loginfo :=
  record_turn (c_me c) queued (c_cmd c) (c_times c) (c_key c) (c_value c).

(** Where the logger thread is: with the lock or asleep; about to write so many
    bytes of its own buffer; about to store [flushed_epoch_]. *)
Inductive running : Type :=
  | Idle
  | Writing (x_pos x_epoch : Z)
  | Written (x_epoch : Z).
(** A log, the other buffer, [global_log_epoch], the query that holds the lock
    with the epoch it got, and the queries that wait for room, which keep
    theirs. *)
Record logger : Type := mkLogger {
  file : list Z; log : loginfo; x_buf : mem; run_at : running;
  global_log_epoch : Z; holder : option (Z * Z); stalled : list call }.
Definition set_holder (g : logger) (l : loginfo) (h : option (Z * Z)) (st : list call) : logger :=
  mkLogger (file g) l (x_buf g) (run_at g) (global_log_epoch g) h st.

(** The steps of a log, with what they record.  [we] is what is read of
    [global_wake_epoch], which other logs change too. *)
Inductive step (g : logger) : list (Z * entry) -> logger -> Prop :=
  (* [check_epoch]; the counter does not wrap *)
  | step_tick : global_log_epoch g + 1 < 2 ^ 63 ->
      step g [] (mkLogger (file g) (log g) (x_buf g) (run_at g) (next_epoch (global_log_epoch g)) (holder g) (stalled g))
  (* [log->acquire(); qtimes_.epoch = global_log_epoch] *)
  | step_acquire me : holder g = None -> me ∉ map c_me (stalled g) ->
      step g [] (set_holder g (log g) (Some (me, global_log_epoch g)) (stalled g))
  (* the first turn of [record], which still has that lock *)
  | step_record c we we' l' : holder g = Some (c_me c, call_epoch c) -> call_ok c ->
      call_turn c false we (log g) = (true, we', l') ->
      step g [(call_epoch c, call_entry c)] (set_holder g l' None (stalled g))
  | step_stall c we we' l' : holder g = Some (c_me c, call_epoch c) -> call_ok c ->
      call_turn c false we (log g) = (false, we', l') ->
      step g [] (set_holder g l' None (stalled g ++ [c]))
  (* a later turn, which takes the lock again *)
  | step_retry c we we' l' : holder g = None -> c ∈ stalled g ->
      call_turn c true we (log g) = (true, we', l') ->
      step g [(call_epoch c, call_entry c)]
        (set_holder g l' None (filter (fun c' => c_me c' <> c_me c) (stalled g)))
  | step_again c we we' l' : holder g = None -> c ∈ stalled g ->
      call_turn c true we (log g) = (false, we', l') ->
      step g [] (set_holder g l' None (stalled g))
  (* the logger thread: under the lock, then without *)
  | step_swap recovering we x l' x' : holder g = None -> run_at g = Idle ->
      run_swap recovering (global_log_epoch g) we (x_buf g) (log g) = (x, l', x') ->
      step g [] (mkLogger (file g) l' x' (match x with Some (n, e) => Writing n e | None => Idle end)
        (global_log_epoch g) None (stalled g))
  | step_write n e : run_at g = Writing n e ->
      step g [] (mkLogger (file g ++ load (x_buf g) 0 n) (log g) (x_buf g) (Written e) (global_log_epoch g) (holder g) (stalled g))
  | step_flushed e : run_at g = Written e ->
      step g [] (mkLogger (file g) (run_flushed e (log g)) (x_buf g) Idle (global_log_epoch g) (holder g) (stalled g)).
Inductive steps : logger -> list (Z * entry) -> logger -> Prop :=
  | steps_refl g : steps g [] g
  | steps_snoc g tr g' ev g'' : steps g tr g' -> step g' ev g'' -> steps g (tr ++ ev) g''.

(** The bytes of the file are the entries. *)
Definition encodes (f : list Z) (ens : list entry) : Prop := log_at (mem_of 0 f) 0 ens (zlength f).

Lemma mem_of_at f i : 0 <= i < zlength f -> zlookup f i = Some (mem_of 0 f i).
Proof.
  intros Hi. destruct (zlookup f i) as [b|] eqn:E.
  - f_equal. symmetry. apply store_same. by rewrite Z.sub_0_r.
  - rewrite zlookup_nonneg in E by lia. apply lookup_ge_None in E. unfold zlength in *. lia.
Qed.
Lemma encodes_app f ens m ens' p :
  encodes f ens -> 0 <= p -> log_at m 0 ens' p -> encodes (f ++ load m 0 p) (ens ++ ens').
Proof.
  intros Hf Hp Hl. unfold encodes. rewrite zlength_app, zlength_load by done. apply log_at_app. exists (zlength f).
  pose proof (zlength_nonneg f). split.
  - eapply log_at_ext; [|exact Hf]. intros x Hx. apply store_same. rewrite Z.sub_0_r, zlookup_app_l by lia.
    by apply mem_of_at.
  - replace (zlength f + p) with (zlength f + (p - 0)) by lia. eapply log_at_shift; [|exact Hl]. intros i Hi.
    apply store_same. rewrite zlookup_app_r by lia. rewrite zlookup_load by lia. f_equal. f_equal. lia.
Qed.

(** * The invariant *)
(** The record [i] was made when no record of a later epoch was there. *)
Definition in_turn (tr : list (Z * entry)) (i : nat) : Prop :=
  forall j r r', (j < i)%nat -> tr !! j = Some r' -> tr !! i = Some r -> fst r' <= fst r.
(** The records from [k] on that were made in turn are of [v] or later. *)
Definition from (tr : list (Z * entry)) (k : nat) (v : Z) : Prop :=
  forall i r, (k <= i)%nat -> tr !! i = Some r -> in_turn tr i -> v <= fst r.
(** No record that is still to come will be made in turn in an epoch before [v]. *)
Definition floor (g : logger) (tr : list (Z * entry)) (v : Z) : Prop :=
  v <= global_log_epoch g /\
  ((exists r, r ∈ tr /\ v <= fst r) \/
   (forall c, c ∈ stalled g -> v <= call_epoch c) /\ (forall me e, holder g = Some (me, e) -> v <= e)).

Record logger_inv (g : logger) (tr : list (Z * entry)) (ensf ensw ensb : list entry) : Prop := {
  li_file : encodes (file g) ensf;
  li_writing : match run_at g with
    | Writing n e => log_at (x_buf g) 0 ensw n
    | _ => ensw = []
    end;
  li_buf : holds (log g) ensb;
  li_room : 32 <= len_ (log g);
  li_trace : tagged 0 (ensf ++ ensw ++ ensb) = tr;
  li_epoch : end_epoch 0 (ensf ++ ensw ++ ensb) = log_epoch_ (log g);
  li_global : 0 <= global_log_epoch g < 2 ^ 63;
  li_waiting : waiting_ (log g) = map c_me (stalled g) /\ NoDup (map c_me (stalled g)) /\
    forall me e, holder g = Some (me, e) -> me ∉ map c_me (stalled g) /\ e <= global_log_epoch g;
  li_stalled : Forall (fun c => call_ok c /\ call_epoch c <= global_log_epoch g) (stalled g);
  li_log_floor : floor g tr (log_epoch_ (log g));
  li_flushed_floor : floor g tr (flushed_epoch_ (log g));
  li_flushed : from tr (length (tagged 0 ensf)) (flushed_epoch_ (log g));
  li_x_epoch : match run_at g with
    | Writing _ e | Written e => floor g tr e /\ from tr (length (tagged 0 (ensf ++ ensw))) e
    | Idle => True
    end;
  li_quiet : epoch_set (quiescent_epoch_ (log g)) = true -> length tr = length (tagged 0 ensf) }.

Lemma in_turn_app tr r i : (i < length tr)%nat -> in_turn (tr ++ [r]) i <-> in_turn tr i.
Proof.
  intros Hi. split; intros H j x x' Hj H1 H2; apply (H j x x' Hj).
  - by rewrite lookup_app_l by lia.
  - by rewrite lookup_app_l.
  - by rewrite lookup_app_l in H1 by lia.
  - by rewrite lookup_app_l in H2.
Qed.
Lemma from_mono tr k k' v : (k <= k')%nat -> from tr k v -> from tr k' v.
Proof. intros Hk H i r Hi. apply H. lia. Qed.
Lemma from_end tr v : from tr (length tr) v.
Proof. intros i r Hi Hr. apply lookup_lt_Some in Hr. lia. Qed.
(** The new record of a call that is in the state. *)
Lemma from_snoc g tr k v r : from tr k v -> floor g tr v ->
  (holder g = None -> exists c, c ∈ stalled g /\ call_epoch c = fst r) ->
  (forall me e, holder g = Some (me, e) -> e = fst r) -> from (tr ++ [r]) k v.
Proof.
  intros Hf [_ Hfl] Hc Hh i x Hi Hx Ht. destruct (decide (i < length tr)%nat) as [Hlt|Hge].
  - rewrite lookup_app_l in Hx by done. eapply Hf; [done..|]. by apply in_turn_app in Ht.
  - assert (i = length tr) as ->.
    { apply lookup_lt_Some in Hx. rewrite length_app in Hx. cbn in Hx. lia. }
    pose proof Hx as Hx'. rewrite lookup_app_r, Nat.sub_diag in Hx' by lia. injection Hx' as <-.
    destruct Hfl as [(r' & Hr' & Hv)|[Hst Hho]].
    + apply list_elem_of_lookup in Hr' as [j Hj]. pose proof (lookup_lt_Some _ _ _ Hj).
      assert (fst r' <= fst r); [|lia]. apply (Ht j); [done| |done]. by rewrite lookup_app_l.
    + destruct (holder g) as [[me e]|]; [rewrite <- (Hh me e eq_refl); by eapply Hho|].
      destruct (Hc eq_refl) as (c & Hin & <-). by apply Hst.
Qed.
(** ** The logger thread *)
Lemma holds_empty l ens : holds l ens -> pos_ l = 0 -> ens = [].
Proof.
  intros (Hl & _) Hp. rewrite Hp in Hl. destruct ens as [|en ens]; [done|]. destruct Hl as (_ & _ & Hl%log_at_le).
  pose proof (entry_size_pos en). lia.
Qed.

(** Notices of quiescence are no data, and are in the log at its end. *)
Lemma run_quiesce_spec recovering ge we l ensf ensb :
  holds l ensb -> 32 <= len_ l -> in_u 64 ge ->
  log_epoch_ l = end_epoch 0 (ensf ++ ensb) -> log_epoch_ l <= ge ->
  (epoch_set (quiescent_epoch_ l) = true -> tagged (end_epoch 0 ensf) ensb = []) ->
  let l' := run_quiesce recovering ge we l in
  exists new, holds l' (ensb ++ new) /\ tagged 0 (ensf ++ ensb ++ new) = tagged 0 (ensf ++ ensb) /\
    log_epoch_ l' = end_epoch 0 (ensf ++ ensb ++ new) /\ log_epoch_ l <= log_epoch_ l' /\
    flushed_epoch_ l' = flushed_epoch_ l /\ len_ l' = len_ l /\
    tagged (end_epoch 0 ensf) (ensb ++ new) = tagged (end_epoch 0 ensf) ensb /\
    (epoch_set (quiescent_epoch_ l') = true -> tagged (end_epoch 0 ensf) (ensb ++ new) = []).
Proof.
  intros Hh Hr Hge He Hle Hq. unfold run_quiesce. destruct (_ && _) eqn:E; last first.
  { exists []. rewrite !app_nil_r. split_and!; done || lia. }
  rewrite !andb_true_iff, Z.eqb_eq in E. assert (pos_ l = 0) as Hp by tauto. clear E.
  pose proof (holds_empty l ensb Hh Hp) as ->. cbn [app] in *.
  destruct (append_holds (fun b p => epoch_store b p logcmd_epoch ge) (EEpoch ge)
    (set_epochs l ge ge (wake_epoch_ l) (flushed_epoch_ l)) []) as (H1 & Hp1 & _ & E1 & Q1 & _ & F1 & L1);
    [by apply set_epochs_holds|by apply epoch_stores|by split|cbn; unfold sizeof_epoch; lia|].
  set (l1 := append _ (set_epochs l ge ge _ _)) in *. clearbody l1. cbn in Hp1, E1, Q1, F1, L1.
  assert (exists wake, (wake = [] \/ wake = [EBase logcmd_wake]) /\ let l2 := (if ge =? wake_epoch_ l1 then append (fun b p => base_store b p logcmd_wake) l1 else l1) in
    holds l2 ([EEpoch ge] ++ wake) /\ pos_ l2 <= pos_ l1 + 8 /\ log_epoch_ l2 = ge /\ flushed_epoch_ l2 = flushed_epoch_ l /\ len_ l2 = len_ l)
    as (wake & Hw & H2 & Hp2 & E2 & F2 & L2).
  { destruct (ge =? wake_epoch_ l1).
    - destruct (append_holds (fun b p => base_store b p logcmd_wake) (EBase logcmd_wake) l1 _ H1)
        as (H2 & Hp2 & _ & E2 & Q2 & _ & F2 & L2); [by apply base_stores|split; [done|by left]|cbn; unfold sizeof_epoch, sizeof_base in *; lia|].
      exists [EBase logcmd_wake]. split; [by right|]. cbv zeta. split_and!; try done; try congruence. rewrite Hp2. done.
    - exists []. split; [by left|]. cbv zeta. split_and!; try done; lia. }
  set (l2 := if ge =? wake_epoch_ l1 then _ else l1) in *.
  destruct (append_holds (fun b p => base_store b p logcmd_quiesce) (EBase logcmd_quiesce) l2 _ H2)
    as (H3 & Hp3 & _ & E3 & Q3 & _ & F3 & L3);
    [by apply base_stores|split; [done|by right]|cbn; unfold sizeof_epoch, sizeof_base in *; lia|].
  exists ([EEpoch ge] ++ wake ++ [EBase logcmd_quiesce]). cbn [app] in *.
  assert (forall c, tagged c (EEpoch ge :: wake ++ [EBase logcmd_quiesce]) = [] /\
    end_epoch c (EEpoch ge :: wake ++ [EBase logcmd_quiesce]) = ge) as Hnew by (intros c; destruct Hw as [->| ->]; done).
  rewrite !tagged_app, !app_nil_r, end_epoch_app in *. destruct (Hnew (end_epoch 0 ensf)) as [-> ->].
  rewrite app_nil_r. split_and!; done || lia || congruence.
Qed.


(** The first half of the logger's turn, and what a notice of quiescence needs. *)
Lemma run_quiesce_epoch recovering ge we l :
  waiting_ (run_quiesce recovering ge we l) = waiting_ l /\
  (log_epoch_ (run_quiesce recovering ge we l) = log_epoch_ l \/
   log_epoch_ (run_quiesce recovering ge we l) = ge /\ waiting_ l = []).
Proof.
  unfold run_quiesce. destruct (_ && _) eqn:E; [|by split; [|left]].
  rewrite !andb_true_iff in E. destruct E as [_ Hw%bool_decide_eq_true].
  by destruct (ge =? wake_epoch_ _); split; [|right| |right].
Qed.
Lemma append_waiting st l : waiting_ (append st l) = waiting_ l.
Proof. unfold append. by destruct (st _ _). Qed.
Lemma record_unquiet_waiting q global l : waiting_ (record_unquiet q global l).2 = waiting_ l.
Proof. unfold record_unquiet. destruct (epoch_set _); [|done]. by destruct (raise_wake _ _ _ _). Qed.
Lemma record_turn_waiting me queued cmd q key value global l b global' l' :
  record_turn me queued cmd q key value global l = (b, global', l') ->
  (b = true -> queued = true -> head (waiting_ l) = Some me) /\
  waiting_ l' =
    if b then (if decide (head (waiting_ l) = Some me) then tail (waiting_ l) else waiting_ l)
    else if queued then waiting_ l else waiting_ l ++ [me].
Proof.
  unfold record_turn. destruct (_ && _) eqn:E; last first.
  { intros [= <- _ <-]. split; [done|]. by destruct queued. }
  apply andb_true_iff in E as [_ E]. destruct (record_unquiet _ _ _) as [[gl we] l2] eqn:El.
  assert (waiting_ l2 = waiting_ l) as Hl2.
  { pose proof (record_unquiet_waiting q global (record_epoch q l)) as Hu. rewrite El in Hu. cbn [snd] in Hu.
    rewrite Hu. unfold record_epoch. destruct (negb (qepoch q =? log_epoch_ l)); [|done]. by rewrite append_waiting. }
  assert (waiting_ (record_kv cmd q key value (record_wake q we l2)) = waiting_ l) as Hl3.
  { unfold record_kv, record_wake. repeat case_match; rewrite ?append_waiting; exact Hl2. }
  revert Hl3. generalize (record_kv cmd q key value (record_wake q we l2)) as l3. intros l3 Hl3.
  rewrite Hl3. intros [= <- _ <-]. split.
  - intros _ ->. by apply bool_decide_eq_true in E.
  - case_bool_decide; case_decide; cbn; rewrite ?Hl3; done.
Qed.
Lemma next_epoch_eq x : 0 <= x -> x + 1 < 2 ^ 63 -> next_epoch x = x + 1.
Proof.
  intros H1 H2. unfold next_epoch. destruct (CircularInt.next_nonzero_spec 64 x) as [_ Hn]; [lia|unfold in_u; lia|].
  rewrite uwrap_id in Hn by (unfold in_u; lia). apply Hn. lia.
Qed.

Lemma floor_step g tr ev g' v : 0 <= global_log_epoch g -> step g ev g' -> floor g tr v -> floor g' (tr ++ ev) v.
Proof.
  intros Hg Hstep [Hv Hfl].
  assert (Hleft : forall g2, v <= global_log_epoch g2 -> (exists r, r ∈ tr /\ v <= fst r) -> floor g2 (tr ++ ev) v).
  { intros g2 H2 (r & Hr & Hle). split; [done|]. left. exists r. by rewrite elem_of_app; split; [left|]. }
  destruct Hstep as [Hw|me Hh Hme|c we we' l' Hh Hc Hrun|c we we' l' Hh Hc Hrun|c we we' l' Hh Hc Hrun|c we we' l' Hh Hc Hrun
    |recovering we x l' x' Hh Hi Hrun|n e Hi|e Hi].
  all: destruct Hfl as [Hfl|[Hst Hho]]; [apply Hleft; [|done]; cbn; rewrite ?next_epoch_eq by lia; lia|].
  all: split; [cbn; rewrite ?next_epoch_eq by lia; lia|]; right; cbn.
  all: split; [try exact Hst|try done].
  - by intros me' e [= _ <-].
  - intros c' [Hc'|Hc']%elem_of_app; [by apply Hst|]. apply list_elem_of_singleton in Hc' as ->. by eapply Hho.
  - intros c' [_ Hc']%list_elem_of_filter. by apply Hst.
Qed.

(** A record is made. *)
Lemma inv_made g tr ensf ensw ensb c queued we we' l' st :
  logger_inv g tr ensf ensw ensb -> call_ok c -> call_epoch c <= global_log_epoch g ->
  (holder g = None /\ c ∈ stalled g \/ holder g = Some (c_me c, call_epoch c)) ->
  call_turn c queued we (log g) = (true, we', l') ->
  step g [(call_epoch c, call_entry c)] (set_holder g l' None st) ->
  (forall c', c' ∈ st -> c' ∈ stalled g) -> waiting_ l' = map c_me st -> NoDup (map c_me st) ->
  exists ensb', logger_inv (set_holder g l' None st) (tr ++ [(call_epoch c, call_entry c)]) ensf ensw ensb'.
Proof.
  intros Hinv Hok Hep Hsrc Hrun Hstep Hst Hwait Hnd. pose proof Hinv as [If Iw Ib Ir It Ie Ig Iwt Is Ilf Iff Ifl Ix Iq].
  destruct (record_turn_spec _ _ _ _ _ _ _ _ _ _ _ Ib Hok Hrun) as (wake & Hw & Hh & He & Hqu & Hfl & Hlen).
  destruct (recorded_tagged (c_cmd c) (c_times c) (c_key c) (c_value c) (log g) wake Hw) as [Ht1 Ht2].
  set (r := (call_epoch c, call_entry c)) in *.
  assert (Hnew : forall k v, from tr k v -> floor g tr v -> from (tr ++ [r]) k v).
  { intros k v Hf Hv. eapply from_snoc; [done|done|..].
    - intros Hn. destruct Hsrc as [[_ Hin]|Hs]; [by exists c|congruence].
    - intros me e Hs. destruct Hsrc as [[Hn _]|Hs']; [congruence|]. rewrite Hs in Hs'. by injection Hs' as _ ->. }
  assert (Hr : floor (set_holder g l' None st) (tr ++ [r]) (call_epoch c)).
  { split; [done|]. left. exists r. split; [|done]. apply elem_of_app. right. by apply list_elem_of_singleton. }
  pose proof (fun v => floor_step _ tr _ _ v (proj1 Ig) Hstep) as Hstay.
  assert (Hassoc : forall X, ensf ++ ensw ++ ensb ++ X = (ensf ++ ensw ++ ensb) ++ X) by (intros X; by rewrite <- !app_assoc).
  assert (Htr : tagged 0 (ensf ++ ensw ++ ensb ++ epoch_entries (c_times c) (log g) ++ wake ++ [call_entry c]) = tr ++ [r]).
  { rewrite Hassoc, tagged_app, It, Ie. f_equal. exact Ht1. }
  eexists. split; cbn.
  - done.
  - exact Iw.
  - exact Hh.
  - by rewrite Hlen.
  - exact Htr.
  - rewrite Hassoc, end_epoch_app, Ie, He. exact Ht2.
  - done.
  - split_and!; [done|done|by intros me e].
  - rewrite Forall_forall in Is |- *. intros c' Hc'. by apply Is, Hst.
  - rewrite He. exact Hr.
  - rewrite Hfl. unfold woken_flushed. destruct (_ && _); [exact Hr|]. by apply Hstay.
  - rewrite Hfl. unfold woken_flushed. destruct (epoch_set (quiescent_epoch_ (log g))) eqn:Es; [|by apply Hnew].
    destruct (_ =? _); cbn; [|by apply Hnew].
    rewrite <- (Iq eq_refl). intros i x Hi Hx _. rewrite lookup_app_r in Hx by done. apply list_lookup_singleton_Some in Hx as [_ <-]. done.
  - destruct (run_at g) as [|n e|e]; [done|..]; destruct Ix as [Hx1 Hx2]; (split; [by apply Hstay|by apply Hnew]).
  - by rewrite Hqu.
Qed.

(** The logger's turn under the lock. *)
Lemma run_wake_waiting we l : waiting_ (run_wake we l) = waiting_ l.
Proof. unfold run_wake. by destruct (negb _). Qed.
Lemma inv_swap g tr ensf ensw ensb recovering we x l' x' :
  logger_inv g tr ensf ensw ensb -> holder g = None -> run_at g = Idle ->
  run_swap recovering (global_log_epoch g) we (x_buf g) (log g) = (x, l', x') ->
  exists ensw' ensb', logger_inv (mkLogger (file g) l' x' (match x with Some (n, e) => Writing n e | None => Idle end)
    (global_log_epoch g) None (stalled g)) tr ensf ensw' ensb'.
Proof.
  intros [If Iw Ib Ir It Ie Ig Iwt Is Ilf Iff Ifl Ix Iq] Hh Hi. rewrite Hi in Iw. subst ensw. cbn [app] in *.
  unfold run_swap. set (l0 := run_wake we (log g)).
  assert (holds l0 ensb /\ log_epoch_ l0 = log_epoch_ (log g) /\ flushed_epoch_ l0 = flushed_epoch_ (log g) /\
    len_ l0 = len_ (log g) /\ (epoch_set (quiescent_epoch_ l0) = true -> length tr = length (tagged 0 ensf)))
    as (H0 & E0 & F0 & L0 & Q0) by (unfold l0, run_wake; by destruct (negb _)).
  assert (Hdata : length tr = length (tagged 0 ensf) <-> tagged (end_epoch 0 ensf) ensb = []).
  { rewrite <- It, tagged_app, length_app. rewrite <- length_zero_iff_nil. lia. }
  destruct (run_quiesce_spec recovering (global_log_epoch g) we l0 ensf ensb H0) as (new & Hb & Ht & He & Hle' & Hf & Hl & Hbt & Hq).
  1: by rewrite L0. 1: unfold in_u; lia. 1: by rewrite E0. 1: rewrite E0; apply Ilf. 1: by intros ?%Q0%Hdata.
  destruct (run_quiesce_epoch recovering (global_log_epoch g) we l0) as [Hw1 Hep].
  set (l1 := run_quiesce _ _ _ l0) in *. unfold l0 in Hw1, Hep. rewrite run_wake_waiting in Hw1, Hep. fold l0 in Hep.
  assert (Hfloor : floor g tr (log_epoch_ l1)).
  { destruct Hep as [Hep|[Hep Hnw]]; [by rewrite Hep, E0|]. rewrite Hep. split; [done|]. right.
    rewrite (proj1 Iwt) in Hnw. apply map_eq_nil in Hnw. split; [rewrite Hnw; by intros c ?%elem_of_nil|by rewrite Hh]. }
  assert (Hquiet : epoch_set (quiescent_epoch_ l1) = true -> length tr = length (tagged 0 ensf)).
  { intros H%Hq. apply Hdata. by rewrite <- Hbt. }
  assert (Hfl : forall v, floor g tr v <-> floor (mkLogger (file g) l' x' (match x with Some (n, e) => Writing n e | None => Idle end)
    (global_log_epoch g) None (stalled g)) tr v) by (intros v; unfold floor; cbn; by rewrite Hh).
  destruct (negb recovering && (0 <? pos_ l1)); intros [= <- <- <-].
  - exists (ensb ++ new), []. split; cbn; try done.
    + apply Hb.
    + split; [done|]. cbn. destruct Hb as (_ & ? & ?). lia.
    + lia.
    + by rewrite app_nil_r, Ht.
    + by rewrite app_nil_r, He.
    + split; [by rewrite Hw1; apply Iwt|]. split; [apply Iwt|]. by intros me e.
    + by apply Hfl.
    + rewrite Hf, F0. by apply Hfl.
    + by rewrite Hf, F0.
    + split; [by apply Hfl|]. rewrite Ht, It. apply from_end.
  - exists [], (ensb ++ new). split; cbn; try done.
    + lia.
    + by rewrite Ht.
    + split; [by rewrite Hw1; apply Iwt|]. split; [apply Iwt|]. by intros me e.
    + by apply Hfl.
    + rewrite Hf, F0. by apply Hfl.
    + by rewrite Hf, F0.
Qed.

Lemma filter_head (c : call) st : NoDup (map c_me (c :: st)) -> filter (fun c' => c_me c' <> c_me c) (c :: st) = st.
Proof.
  cbn [map]. rewrite NoDup_cons. intros [Hn _]. rewrite filter_cons_False by (intros H; by apply H).
  induction st as [|x st IH]; [done|]. cbn [map] in Hn. rewrite not_elem_of_cons in Hn. destruct Hn as [Hx Hn].
  rewrite filter_cons_True by congruence. by rewrite IH.
Qed.
Lemma logger_inv_step g tr ensf ensw ensb ev g' : logger_inv g tr ensf ensw ensb -> step g ev g' ->
  exists ensf' ensw' ensb', logger_inv g' (tr ++ ev) ensf' ensw' ensb'.
Proof.
  intros Hinv Hstep. pose proof Hinv as [If Iw Ib Ir It Ie Ig [Iwt [Ind Iho]] Is Ilf Iff Ifl Ix Iq].
  pose proof (fun v => floor_step _ tr _ _ v (proj1 Ig) Hstep) as Hfloor. pose proof Hstep as Hstep'.
  destruct Hstep' as [Hw|me Hh Hme|c we we' l' Hh Hc Hrun|c we we' l' Hh Hc Hrun|c we we' l' Hh Hc Hrun|c we we' l' Hh Hc Hrun
    |recovering we x l' x' Hh Hi Hrun|n e Hi|e Hi].
  - (* tick *) rewrite app_nil_r in *. exists ensf, ensw, ensb.
    assert (next_epoch (global_log_epoch g) = global_log_epoch g + 1) as He by (by apply next_epoch_eq; lia).
    split; cbn; try done; try (by apply Hfloor).
    + lia.
    + split_and!; [done..|]. intros me e Hh. destruct (Iho me e Hh). split; [done|lia].
    + eapply Forall_impl; [exact Is|]. cbn. intros c [? ?]. split; [done|lia].
    + destruct (run_at g) as [|n e|e]; [done|..]; destruct Ix; (split; [by apply Hfloor|done]).
  - (* acquire *) rewrite app_nil_r in *. exists ensf, ensw, ensb. split; cbn; try done; try (by apply Hfloor).
    + split_and!; [done..|]. by intros me' e [= <- <-].
    + destruct (run_at g) as [|n e|e]; [done|..]; destruct Ix; (split; [by apply Hfloor|done]).
  - (* record *) destruct (Iho _ _ Hh) as [Hme Hle]. exists ensf, ensw.
    eapply inv_made; try done; [by right|].
    destruct (record_turn_waiting _ _ _ _ _ _ _ _ _ _ _ Hrun) as [_ ->]. rewrite decide_False; [done|].
    rewrite Iwt. destruct (map c_me (stalled g)) as [|m ms]; [done|]. intros [= ->]. by destruct Hme; left.
  - (* stall *) rewrite app_nil_r in *. destruct (Iho _ _ Hh) as [Hme Hle]. exists ensf, ensw, ensb.
    destruct (record_turn_waiting _ _ _ _ _ _ _ _ _ _ _ Hrun) as [_ Hwt].
    assert (l' = set_waiting (log g) (waiting_ (log g) ++ [c_me c])) as ->.
    { revert Hrun. unfold call_turn, record_turn. destruct (_ && _); [destruct (record_unquiet _ _ _) as [[? ?] ?]|]; by intros [=]. }
    split; cbn; try done; try (by apply Hfloor).
    + split_and!; [by rewrite Iwt, map_app| |by intros me e]. rewrite map_app. apply NoDup_app. split_and!; [done| |by apply NoDup_singleton].
      intros m Hm ->%list_elem_of_singleton. done.
    + apply Forall_app. split; [done|]. by apply Forall_singleton.
    + destruct (run_at g) as [|n e|e]; [done|..]; destruct Ix; (split; [by apply Hfloor|done]).
  - (* retry *) exists ensf, ensw. pose proof Is as Is'. rewrite Forall_forall in Is'. destruct (Is' c Hc) as [Hok Hle].
    destruct (record_turn_waiting _ _ _ _ _ _ _ _ _ _ _ Hrun) as [Hhd Hwt]. specialize (Hhd eq_refl eq_refl).
    rewrite decide_True in Hwt by done. rewrite Iwt in Hhd, Hwt.
    destruct (stalled g) as [|c0 st] eqn:Est; [done|]. cbn in Hhd. injection Hhd as Hc0.
    assert (filter (fun c' => c_me c' <> c_me c) (c0 :: st) = st) as Hfil.
    { etrans; [|exact (filter_head c0 st Ind)]. by rewrite Hc0. }
    rewrite Hfil in *. eapply inv_made; try done.
    + left. by rewrite Est.
    + intros c' Hc'. rewrite Est. by right.
    + by apply NoDup_cons in Ind as [_ ?].
  - (* again *) rewrite app_nil_r in *. exists ensf, ensw, ensb.
    assert (l' = log g) as ->.
    { revert Hrun. unfold call_turn, record_turn. destruct (_ && _); [destruct (record_unquiet _ _ _) as [[? ?] ?]|]; by intros [=]. }
    split; cbn; try done; try (by apply Hfloor).
    + destruct (run_at g) as [|n e|e]; [done|..]; destruct Ix; (split; [by apply Hfloor|done]).
  - (* swap *) rewrite app_nil_r in *. exists ensf. by eapply inv_swap.
  - (* write *) rewrite app_nil_r in *. rewrite Hi in Iw, Ix. exists (ensf ++ ensw), [], ensb.
    assert (length (tagged 0 ensf) <= length (tagged 0 (ensf ++ ensw)) <= length tr)%nat as [Hl1 Hl2].
    { rewrite <- It, app_assoc, (tagged_app (ensf ++ ensw)), (tagged_app ensf), !length_app. lia. }
    destruct Ix as [Hx1 Hx2]. split; cbn; try done; rewrite ?app_nil_r, <- ?app_assoc; try done; try (by apply Hfloor).
    + apply encodes_app; [done| |done]. by eapply log_at_le.
    + by eapply from_mono.
    + intros H%Iq. lia.
  - (* flushed *) rewrite app_nil_r in *. rewrite Hi in Iw, Ix. subst ensw. exists ensf, [], ensb.
    destruct Ix as [Hx1 Hx2]. rewrite app_nil_r in Hx2. split; cbn; try done; by apply Hfloor.
Qed.

Lemma steps_inv g0 tr g : steps g0 tr g -> logger_inv g0 [] [] [] [] -> exists ensf ensw ensb, logger_inv g tr ensf ensw ensb.
Proof.
  induction 1 as [g|g tr g' ev g'' _ IH Hstep]; intros H0; [eauto|].
  destruct (IH H0) as (ensf & ensw & ensb & Hinv). by eapply logger_inv_step.
Qed.

(** The log of a server that starts, in the epoch 1. *)
Definition new_logger (junk x : mem) : logger := mkLogger [] (make junk) x Idle 1 None [].
Lemma new_logger_inv junk x : logger_inv (new_logger junk x) [] [] [] [].
Proof.
  assert (Hf : floor (new_logger junk x) [] 0).
  { split; [done|]. right. split; [by intros c ?%elem_of_nil|done]. }
  split; try done; cbn; try lia.
  by split_and!; [done|constructor|done].
Qed.

(** C11: Whatever the queries, the clock and the logger thread do, the file is
    an encoding of entries whose data are a prefix of what was recorded, in
    order and with the epochs of the queries; what is being written and what is
    in the buffer are the rest.  A record of an epoch before [flushed_epoch_]
    is in the file if it was made in turn, with no record of a later epoch
    before it; a query that had to wait for room may be overtaken, and then it
    need not be there ([overtaken_not_durable]). *)
Theorem flushed_epoch_durable junk x tr g :
  steps (new_logger junk x) tr g ->
  exists ensf ensw ensb, encodes (file g) ensf /\
    match run_at g with Writing n _ => log_at (x_buf g) 0 ensw n | _ => ensw = [] end /\
    holds (log g) ensb /\ tr = tagged 0 (ensf ++ ensw ++ ensb) /\
    forall i r, tr !! i = Some r -> in_turn tr i -> fst r < flushed_epoch_ (log g) ->
      tagged 0 ensf !! i = Some r.
Proof.
  intros Hs. destruct (steps_inv _ _ _ Hs (new_logger_inv junk x)) as (ensf & ensw & ensb & Hinv).
  destruct Hinv as [If Iw Ib Ir It Ie Ig Iwt Is Ilf Iff Ifl Ix Iq].
  exists ensf, ensw, ensb. split_and!; [done..|]. intros i r Hr Ht Hlt.
  destruct (decide (length (tagged 0 ensf) <= i)%nat) as [Hge|Hi]; [specialize (Ifl i r Hge Hr Ht); lia|].
  rewrite <- It, tagged_app in Hr. by rewrite lookup_app_l in Hr by lia.
Qed.

(** * Runs *)
(** Two queries, in the epochs 1 and 2, then a write to the file. *)
Definition first_call : call := mkCall 1 logcmd_replace (mkTimes 1 4 0) [107] [118].
Definition second_call : call := mkCall 3 logcmd_put (mkTimes 2 6 4) [107] [0; 161; 119].
Lemma first_call_ok : call_ok first_call.
Proof. split; [right; by left|]. by vm_compute. Qed.
Lemma second_call_ok : call_ok second_call.
Proof. split; [by left|]. by vm_compute. Qed.

Definition zero_mem : mem := fun _ => 0.
Definition start : logger := new_logger zero_mem zero_mem.
Definition at_log (g : logger) (l : loginfo) (epoch : Z) (h : option (Z * Z)) (st : list call) : logger :=
  mkLogger (file g) l (x_buf g) (run_at g) epoch h st.
Definition log1 : loginfo := snd (call_turn first_call false 0 (log start)).
(** The first query, and others that wait since. *)
Definition recorded1 (st : list call) : logger := at_log start (set_waiting log1 (map c_me st)) 2 None st.
Definition log2 (st : list call) : loginfo := snd (call_turn second_call false 0 (log (recorded1 st))).
Definition recorded2 (st : list call) : logger := at_log start (log2 st) 2 None st.
Definition swapped (st : list call) : loginfo := set_buf (log2 st) zero_mem 0.
Definition written (st : list call) : logger :=
  mkLogger (load (buf_ (log2 st)) 0 (pos_ (log2 st))) (run_flushed 2 (swapped st)) (buf_ (log2 st)) Idle 2 None st.

Lemma steps_first : steps start [(1, call_entry first_call)] (at_log start log1 1 None []).
Proof.
  pose proof (steps_snoc _ _ _ _ _ (steps_refl start) (step_acquire start 1 eq_refl ltac:(by intros ?%elem_of_nil))) as S1.
  exact (steps_snoc _ _ _ _ _ S1 (step_record (set_holder start (log start) (Some (1, 1)) []) first_call 0
    (snd (fst (call_turn first_call false 0 (log start)))) log1 eq_refl first_call_ok eq_refl)).
Qed.
(** From there on the second query and the logger thread, whoever waits. *)
Ltac second_and_write st S0 H3 :=
  pose proof (steps_snoc _ _ _ _ _ S0 (step_acquire (recorded1 st) 3 eq_refl H3)) as S1;
  pose proof (steps_snoc _ _ _ _ _ S1 (step_record (set_holder (recorded1 st) (log (recorded1 st)) (Some (3, 2)) st) second_call 0
    (snd (fst (call_turn second_call false 0 (log (recorded1 st))))) (log2 st) eq_refl second_call_ok eq_refl)) as S2;
  pose proof (steps_snoc _ _ _ _ _ S2 (step_swap (recorded2 st) false 0 (Some (pos_ (log2 st), 2)) (swapped st) (buf_ (log2 st))
    eq_refl eq_refl eq_refl)) as S3;
  pose proof (steps_snoc _ _ _ _ _ S3 (step_write (mkLogger [] (swapped st) (buf_ (log2 st)) (Writing (pos_ (log2 st)) 2) 2 None st)
    (pos_ (log2 st)) 2 eq_refl)) as S4;
  exact (steps_snoc _ _ _ _ _ S4 (step_flushed (mkLogger (load (buf_ (log2 st)) 0 (pos_ (log2 st))) (swapped st) (buf_ (log2 st))
    (Written 2) 2 None st) 2 eq_refl)).
Lemma steps_written st : (st = [] \/ exists cmd q k v, st = [mkCall 2 cmd q k v]) ->
  steps start [(1, call_entry first_call)] (recorded1 st) ->
  steps start [(1, call_entry first_call); (2, call_entry second_call)] (written st).
Proof.
  intros [->|(cmd & q & k & v & ->)] S0.
  - assert (H3 : 3 ∉ map c_me []) by by intros ?%elem_of_nil. second_and_write (@nil call) S0 H3.
  - assert (H3 : 3 ∉ map c_me [mkCall 2 cmd q k v]) by by intros ?%list_elem_of_singleton.
    second_and_write [mkCall 2 cmd q k v] S0 H3.
Qed.

Lemma flushed_epoch_durable_witness :
  exists g ensf, steps (new_logger zero_mem zero_mem) [(1, call_entry first_call); (2, call_entry second_call)] g /\
    flushed_epoch_ (log g) = 2 /\ encodes (file g) ensf /\ tagged 0 ensf !! 0%nat = Some (1, call_entry first_call).
Proof.
  assert (Hg : steps start [(1, call_entry first_call); (2, call_entry second_call)] (written [])).
  { apply steps_written; [by left|].
    exact (steps_snoc _ _ _ _ _ steps_first (step_tick (at_log start log1 1 None []) ltac:(by vm_compute))). }
  assert (Hf : flushed_epoch_ (log (written [])) = 2) by reflexivity.
  destruct (flushed_epoch_durable _ _ _ _ Hg) as (ensf & ensw & ensb & H1 & _ & _ & _ & H2).
  exists (written []), ensf. split; [exact Hg|]. split; [exact Hf|]. split; [exact H1|].
  apply H2; [reflexivity|intros j r r' Hj; lia|reflexivity].
Defined.

(** ** A query that is overtaken *)
Lemma record_turn_full me cmd q key value global l : uwrap 32 (len_ l - pos_ l) < record_space key value ->
  record_turn me false cmd q key value global l = (false, global, set_waiting l (waiting_ l ++ [me])).
Proof. intros H. unfold record_turn. by destruct (Z.leb_spec (record_space key value) (uwrap 32 (len_ l - pos_ l))); [lia|]. Qed.
Lemma record_turn_room me cmd q key value global l :
  record_space key value <= uwrap 32 (len_ l - pos_ l) -> head (waiting_ l) = Some me ->
  exists global' l', record_turn me true cmd q key value global l = (true, global', l').
Proof.
  intros H Hw. unfold record_turn. destruct (Z.leb_spec (record_space key value) (uwrap 32 (len_ l - pos_ l))); [|lia].
  rewrite bool_decide_eq_true_2 by done. cbn [negb orb andb]. destruct (record_unquiet _ _ _) as [[gl we] l']. by eexists _, _.
Qed.
Lemma log_at_size m ens : forall a e en, log_at m a ens e -> en ∈ ens -> entry_size en <= e - a.
Proof.
  induction ens as [|x ens IH]; intros a e en; [by intros _ ?%elem_of_nil|]. intros (_ & _ & Hl) Hin.
  pose proof (log_at_le _ _ _ _ Hl). pose proof (entry_size_pos x). apply elem_of_cons in Hin as [->|Hin]; [lia|].
  specialize (IH _ _ _ Hl Hin). lia.
Qed.
Lemma tagged_in ens : forall c r, r ∈ tagged c ens -> snd r ∈ ens.
Proof.
  induction ens as [|x ens IH]; intros c r; cbn; [by intros ?%elem_of_nil|].
  destruct x; rewrite ?elem_of_cons; try (intros Hr; right; by eapply IH).
  all: intros [->|Hr]; [by left|right; by eapply IH].
Qed.

(** A query of the epoch 1 finds no room and waits; one of the epoch 2 that
    needs less does not, and the log is flushed up to the epoch 2; then the
    first one records.  The log says that the epochs before 2 are in the file,
    and the record, of the epoch 1, is not. *)
Definition big_size : Z := 20971450.
Theorem overtaken_not_durable : exists tr g r, steps (new_logger zero_mem zero_mem) tr g /\
  r ∈ tr /\ fst r < flushed_epoch_ (log g) /\ forall ensf, encodes (file g) ensf -> r ∉ tagged 0 ensf.
Proof.
  assert (exists big : list Z, zlength big = big_size) as [big Hbig].
  { exists (repeat 0 (Z.to_nat big_size)). unfold zlength. rewrite repeat_length. by apply Z2Nat.id. }
  set (c := mkCall 2 logcmd_replace (mkTimes 1 5 0) [107] big).
  assert (Hsp : record_space [107] big = big_size + 57) by (unfold record_space, kvdelta_size; rewrite Hbig; reflexivity).
  assert (Hc : call_ok c).
  { split; [right; by left|]. cbn. rewrite Hbig. by vm_compute. }
  assert (H1 : steps start [(1, call_entry first_call)] (recorded1 [c])).
  { pose proof (steps_snoc _ _ _ _ _ steps_first (step_acquire (at_log start log1 1 None []) 2 eq_refl ltac:(by intros ?%elem_of_nil))) as S1.
    assert (Hst : call_turn c false 0 log1 = (false, 0, set_waiting log1 [2])).
    { apply (record_turn_full 2). cbn [c_key c_value c]. rewrite Hsp. by vm_compute. }
    pose proof (steps_snoc _ _ _ _ _ S1 (step_stall (at_log start log1 1 (Some (2, 1)) []) c 0 0 _ eq_refl Hc Hst)) as S2.
    exact (steps_snoc _ _ _ _ _ S2 (step_tick (at_log start (set_waiting log1 [2]) 1 None [c]) ltac:(by vm_compute))). }
  assert (H2 : steps start [(1, call_entry first_call); (2, call_entry second_call)] (written [c])).
  { apply steps_written; [right; by eexists _, _, _, _|exact H1]. }
  destruct (record_turn_room 2 logcmd_replace (mkTimes 1 5 0) [107] big 0 (log (written [c]))) as (we' & l' & Hrun);
    [rewrite Hsp; by vm_compute|reflexivity|].
  eexists _, _, (1, call_entry c). split; [|split; [|split]].
  - eapply steps_snoc; [exact H2|]. eapply (step_retry _ c 0); [done|by left|exact Hrun].
  - by apply elem_of_app; right; left.
  - cbn [set_holder log].
    assert (holds (log (written [c])) []) as Hh by (split; [reflexivity|]; by vm_compute).
    destruct (record_turn_spec _ _ _ _ _ _ _ _ _ _ _ Hh Hc Hrun) as (wake & _ & _ & _ & _ & -> & _). reflexivity.
  - intros ensf Hf Hin%tagged_in. cbn [snd] in Hin. pose proof (log_at_size _ _ _ _ _ Hf Hin) as Hsz.
    assert (entry_size (call_entry c) = big_size + 25) as Hes by (cbn; rewrite Hbig; reflexivity).
    rewrite Hes in Hsz. cbn [set_holder file written] in Hsz. rewrite zlength_load in Hsz by (by vm_compute).
    assert (pos_ (log2 [c]) <= 1000) as Hp by (by vm_compute). unfold big_size in Hsz. lia.
Qed.
