(* ===== verification/LogReplay.v ===== *)
(** What the pass over a log file replays and keeps, [replayandclean1]. *)
From S2P Require Import Prelude Compiler Memory CircularInt Query Log LogSpec Logger.
Import Logrec Logreplay.

(** * Epochs in order *)
(** The epoch records do not go back from [cur], and stay where the circular
    order is that of the numbers. *)
Definition epoch_max : Z := 2 ^ 62.
Fixpoint epochs_sorted (cur : Z) (ens : list entry) : Prop :=
  match ens with
  | [] => True
  | EEpoch ep :: ens => 0 < ep < epoch_max /\ cur <= ep /\ epochs_sorted ep ens
  | _ :: ens => epochs_sorted cur ens
  end.
(** No epoch record, and the first one. *)
Fixpoint first_epoch_of (ens : list entry) : option Z :=
  match ens with
  | [] => None
  | EEpoch ep :: _ => Some ep
  | _ :: ens => first_epoch_of ens
  end.

Lemma epoch_lt_small a b : 0 <= a < epoch_max -> 0 <= b < epoch_max ->
  epoch_lt a b = (a <? b) /\ epoch_ge a b = (b <=? a).
Proof.
  unfold epoch_max, CircularInt.lt, CircularInt.ge, CircularInt.less. intros Ha Hb.
  assert (swrap 64 (uwrap 64 (a - b)) = a - b) as ->.
  { rewrite swrap_uwrap. unfold swrap, uwrap. rewrite Z.mod_small by lia. lia. }
  split; apply eq_true_iff_eq; rewrite ?negb_true_iff, ?Z.ltb_lt, ?Z.leb_le, ?Z.ltb_ge; lia.
Qed.

Lemma epochs_sorted_app ens1 ens2 : forall cur,
  epochs_sorted cur (ens1 ++ ens2) <-> epochs_sorted cur ens1 /\ epochs_sorted (end_epoch cur ens1) ens2.
Proof. induction ens1 as [|[] ens1 IH]; intros cur; cbn; [tauto|rewrite IH; tauto..]. Qed.
Lemma tagged_bounds ens : forall cur c en, epochs_sorted cur ens -> (c, en) ∈ tagged cur ens ->
  cur <= c <= end_epoch cur ens.
Proof.
  assert (forall ens cur, epochs_sorted cur ens -> cur <= end_epoch cur ens) as Hend.
  { induction ens0 as [|[] ens0 IH]; intros cur; cbn; [lia|apply IH| |apply IH|apply IH].
    intros (_ & Hc & Hs%IH). lia. }
  induction ens as [|[c'|ep|c' key val ts|key val p ts] ens IH]; intros cur c en; cbn [tagged end_epoch epochs_sorted].
  - intros _ H. by apply elem_of_nil in H.
  - apply IH.
  - intros (_ & Hc & Hs) Hin. pose proof (IH _ _ _ Hs Hin). lia.
  - intros Hs Hin. apply elem_of_cons in Hin as [[= -> ->]|Hin]; [split; [lia|by apply Hend]|by eapply IH].
  - intros Hs Hin. apply elem_of_cons in Hin as [[= -> ->]|Hin]; [split; [lia|by apply Hend]|by eapply IH].
Qed.
Lemma end_epoch_small ens : forall cur, 0 <= cur < epoch_max -> epochs_sorted cur ens -> 0 <= end_epoch cur ens < epoch_max.
Proof. induction ens as [|[] ens IH]; intros cur Hc; cbn; [done|by apply IH| |by apply IH..]. intros (Hep & _ & Hs). apply IH; [lia|done]. Qed.
Lemma no_epoch_end ens : first_epoch_of ens = None -> forall cur, end_epoch cur ens = cur /\ forall c en, (c, en) ∈ tagged cur ens -> c = cur.
Proof.
  induction ens as [|[] ens IH]; cbn; intros Hf cur.
  - split; [done|]. intros c en H. by apply elem_of_nil in H.
  - by apply IH.
  - done.
  - destruct (IH Hf cur) as [H1 H2]. split; [done|]. intros c en [[= -> ->]|H]%elem_of_cons; [done|eauto].
  - destruct (IH Hf cur) as [H1 H2]. split; [done|]. intros c en [[= -> ->]|H]%elem_of_cons; [done|eauto].
Qed.
Lemma first_epoch_app ens1 ens2 :
  first_epoch_of (ens1 ++ ens2) = match first_epoch_of ens1 with Some e => Some e | None => first_epoch_of ens2 end.
Proof. by induction ens1 as [|[] ens1 IH]. Qed.

(** * What is replayed *)
Definition entry_key (en : entry) : list Z := match en with EKv _ key _ _ | EDelta key _ _ _ => key | _ => [] end.
(** Entries with a key, of the epochs from [min_epoch] on and before [max_epoch]. *)
Definition selected (min_epoch max_epoch : Z) (r : Z * entry) : bool :=
  negb (fst r =? 0) && (min_epoch <=? fst r) && (fst r <? max_epoch) && negb (zlength (entry_key (snd r)) =? 0).
Definition select (min_epoch max_epoch : Z) (l : list (Z * entry)) : list (Z * entry) :=
  List.filter (selected min_epoch max_epoch) l.
(** A record with the data of an entry, in its epoch. *)
Definition same_data (lr : logrecord) (r : Z * entry) : Prop :=
  lepoch lr = fst r /\
  match snd r with
  | EKv cmd key val ts => command lr = cmd /\ lkey lr = key /\ lval lr = val /\ lts lr = ts
  | EDelta key val prev_ts ts =>
      command lr = logcmd_modify /\ lkey lr = key /\ lval lr = val /\ lts lr = ts /\ lprev_ts lr = prev_ts
  | _ => False
  end.

Lemma select_nil min max l : (forall c en, (c, en) ∈ l -> c = 0 \/ c < min \/ max <= c) -> select min max l = [].
Proof.
  induction l as [|[c en] l IH]; intros H; [done|]. cbn. unfold selected at 1. cbn.
  assert (negb (c =? 0) && (min <=? c) && (c <? max) = false) as ->; [|apply IH; intros; eapply H; apply elem_of_cons; eauto].
  destruct (H c en (list_elem_of_here _ _)) as [->|[Hc|Hc]]; [done| |].
  - by destruct (Z.leb_spec min c); [lia|rewrite andb_false_r].
  - by destruct (Z.ltb_spec c max); [lia|rewrite andb_false_r].
Qed.
Lemma select_app min max l1 l2 : select min max (l1 ++ l2) = select min max l1 ++ select min max l2.
Proof. apply List.filter_app. Qed.

(** * The loop *)
Section replay.
Context (m : mem) (e buf e1 mn mx : Z) (ens : list entry).
Context (Hlog : log_at m buf ens e1) (Hsorted : epochs_sorted 0 ens)
  (Hmn : 0 <= mn < epoch_max) (Hmx : 0 <= mx < epoch_max)
  (Hfirst : mn = 0 \/ forall ep, first_epoch_of ens = Some ep -> ep < mn)
  (Hcut : e1 = e \/ exists en, entry_at m e1 en /\ e1 <= e < e1 + entry_size en).

Definition starts_epoch (K : list entry) : Prop := exists ep K', K = EEpoch ep :: K'.
Lemma tagged_starts K c : starts_epoch K -> tagged c K = tagged 0 K.
Proof using Type. by intros (ep & K' & ->). Qed.

(** What is kept after the entries [P], up to [pos]. *)
Definition kept (P : list entry) (pos : Z) (r : replaying) : Prop :=
  match repbegin_ r with
  | None => repend_ r = None /\ first_epoch_of P = None
  | Some b => repend_ r = Some pos /\ exists pre K, P = pre ++ K /\ log_at m buf pre b /\ starts_epoch K /\
      select mn mx (tagged 0 pre) = []
  end.
Record scanned (P : list entry) (pos : Z) (r : replaying) : Prop := {
  sc_pos : log_at m buf P pos;
  sc_epoch : lepoch (lr_ r) = end_epoch 0 P;
  sc_ran : Forall2 same_data (ran_ r) (select mn mx (tagged 0 P));
  sc_max : end_epoch 0 P = 0 \/ end_epoch 0 P < mx;
  sc_kept : kept P pos r }.

Lemma log_at_snoc P pos en rest : ens = P ++ en :: rest -> log_at m buf P pos ->
  entry_ok en /\ entry_at m pos en /\ log_at m buf (P ++ [en]) (pos + entry_size en) /\ pos + entry_size en <= e1.
Proof using Hlog.
  intros He Hp. pose proof Hlog as Hl. rewrite He in Hl. apply log_at_app in Hl as (b & H1 & Hok & Hen & Hr).
  pose proof (log_at_det _ _ _ _ _ H1 Hp) as ->.
  pose proof (log_at_le _ _ _ _ Hr). split_and!; try done. apply log_at_app. by exists pos.
Qed.

Lemma e1_le : e1 <= e.
Proof using Hcut. destruct Hcut as [Hc|(en & _ & Hc)]; clear -Hc; lia. Qed.

(** The data before an epoch record below [mn] are not selected. *)
Lemma select_below P en rest ep : ens = P ++ en :: rest -> en = EEpoch ep -> ep < mn -> select mn mx (tagged 0 P) = [].
Proof using Hsorted.
  intros He -> Hlt. apply select_nil. intros c x Hin. rewrite He, epochs_sorted_app in Hsorted. destruct Hsorted as [Hs1 Hs2].
  cbn in Hs2. pose proof (tagged_bounds _ _ _ _ Hs1 Hin). lia.
Qed.

(** What [repbegin] becomes at an epoch record. *)
Definition next_begin (r : replaying) (pos ep : Z) : option Z :=
  if negb (mn =? 0) && (ep <? mn) || (mn =? 0) && negb (bool_decide (is_Some (repbegin_ r))) then Some pos else repbegin_ r.

Lemma next_begin_kept P pos r ep rest : ens = P ++ EEpoch ep :: rest -> scanned P pos r ->
  exists b pre K, next_begin r pos ep = Some b /\ P ++ [EEpoch ep] = pre ++ K /\ log_at m buf pre b /\ starts_epoch K /\
    select mn mx (tagged 0 pre) = [].
Proof using Hfirst Hmn Hsorted.
  intros He [Hp Hepo _ _ Hk]. unfold next_begin. destruct (Z.eqb_spec mn 0) as [Hz|Hz]; cbn [negb andb orb].
  - unfold kept in Hk. destruct (repbegin_ r) as [b|].
    + rewrite bool_decide_eq_true_2 by done. destruct Hk as (_ & pre & K & -> & H1 & (ep' & K' & ->) & H3).
      exists b, pre, (EEpoch ep' :: K' ++ [EEpoch ep]). rewrite <- app_assoc. split_and!; try done. by eexists _, _.
    + rewrite bool_decide_eq_false_2 by (by intros [? ?]). exists pos, P, [EEpoch ep]. split_and!; try done; [by eexists _, _|].
      apply select_nil. intros c en Hin. left. by eapply (no_epoch_end P (proj2 Hk) 0).
  - rewrite orb_false_r. destruct (Z.ltb_spec ep mn) as [Hlt|Hge].
    + exists pos, P, [EEpoch ep]. split_and!; try done; [by eexists _, _|]. by eapply select_below.
    + unfold kept in Hk. destruct (repbegin_ r) as [b|].
      * destruct Hk as (_ & pre & K & -> & H1 & (ep' & K' & ->) & H3).
        exists b, pre, (EEpoch ep' :: K' ++ [EEpoch ep]). rewrite <- app_assoc. split_and!; try done. by eexists _, _.
      * destruct Hk as [_ Hno], Hfirst as [?|Hf]; [lia|]. rewrite He, first_epoch_app, Hno in Hf. specialize (Hf ep eq_refl). lia.
Qed.

Lemma kept_snoc P pos r en nextpos lr ran nr :
  (forall ep, en <> EEpoch ep) -> kept P pos r ->
  kept (P ++ [en]) nextpos (mkReplaying lr ran nr (repbegin_ r) (match repbegin_ r with Some _ => Some nextpos | None => repend_ r end)).
Proof using Type.
  intros Hne. unfold kept. cbn. destruct (repbegin_ r) as [b|].
  - intros (_ & pre & K & -> & H1 & (ep' & K' & ->) & H3). split; [done|]. exists pre, (EEpoch ep' :: K' ++ [en]).
    rewrite <- app_assoc. split_and!; try done. by eexists _, _.
  - intros [H1 H2]. split; [done|]. rewrite first_epoch_app, H2. destruct en as [|ep| |]; try done. by destruct (Hne ep).
Qed.

Abbreviation loop := (replay_loop m e).
(** The whole pass ends with what it should replay, and what it keeps holds
    all of that. *)
Definition final (res : option (Z * replaying)) : Prop :=
  exists pos r P post, res = Some (pos, r) /\ ens = P ++ post /\
    Forall2 same_data (ran_ r) (select mn mx (tagged 0 ens)) /\
    (match repbegin_ r with
     | None => repend_ r = None /\ select mn mx (tagged 0 ens) = []
     | Some b => exists re pre K, repend_ r = Some re /\ P = pre ++ K /\ log_at m buf pre b /\ log_at m b K re /\
         starts_epoch K /\ select mn mx (tagged 0 K) = select mn mx (tagged 0 ens)
     end).

Lemma end_log_at P pos pre K b : P = pre ++ K -> log_at m buf P pos -> log_at m buf pre b -> log_at m b K pos.
Proof using Type.
  intros -> (b' & H1 & H2)%log_at_app Hb. by rewrite <- (log_at_det _ _ _ _ _ H1 Hb).
Qed.

Lemma final_intro P post pos pos' r lr' :
  ens = P ++ post -> log_at m buf P pos -> Forall2 same_data (ran_ r) (select mn mx (tagged 0 P)) ->
  select mn mx (tagged (end_epoch 0 P) post) = [] -> kept P pos r ->
  final (Some (pos', mkReplaying lr' (ran_ r) (nr_ r) (repbegin_ r) (repend_ r))).
Proof using Type.
  intros He Hp Hran Hno Hk. assert (select mn mx (tagged 0 ens) = select mn mx (tagged 0 P)) as Hsel
    by (by rewrite He, tagged_app, select_app, Hno, app_nil_r).
  eexists _, _, P, post. split; [done|]. split; [done|]. cbn. rewrite Hsel. split; [done|].
  unfold kept in Hk. destruct (repbegin_ r) as [b|].
  - destruct Hk as (Hre & pre & K & HP & Hb & HK & Hpre). exists pos, pre, K. split_and!; try done; [by eapply end_log_at|].
    by rewrite HP, tagged_app, select_app, Hpre, (tagged_starts K (end_epoch 0 pre)) by done.
  - destruct Hk as [H1 H2]. split; [done|]. apply select_nil. intros c en Hin. left. by eapply (no_epoch_end P H2 0).
Qed.

Lemma epoch_small P rest : ens = P ++ rest -> 0 <= end_epoch 0 P < epoch_max.
Proof using Hsorted.
  intros He. rewrite He, epochs_sorted_app in Hsorted. apply end_epoch_small; [unfold epoch_max; lia|apply Hsorted].
Qed.

(** The rest of the turn for a record that is no end, of the epoch [c]. *)
Definition turn (fuel : nat) (nextpos : Z) (r : replaying) : option (Z * replaying) :=
  let lr := lr_ r in let c := lepoch lr in
  if negb (epoch_set c) || epoch_set mn && epoch_lt c mn then
    loop fuel mn mx nextpos
      (match repbegin_ r with Some _ => mkReplaying lr (ran_ r) (nr_ r) (repbegin_ r) (Some nextpos) | None => r end)
  else match repbegin_ r with
    | None => None
    | Some _ =>
        let counts := negb (zlength (lkey lr) =? 0) in
        loop fuel mn mx nextpos
          (mkReplaying lr (if counts && is_data (command lr) then ran_ r ++ [lr] else ran_ r)
             (if counts then uwrap 64 (nr_ r + 1) else nr_ r) (repbegin_ r) (Some nextpos))
    end.

Lemma turn_spec fuel nextpos r P' x :
  0 <= end_epoch 0 P' < epoch_max -> lepoch (lr_ r) = end_epoch 0 P' ->
  end_epoch 0 P' = 0 \/ end_epoch 0 P' < mx -> (end_epoch 0 P' <> 0 -> is_Some (repbegin_ r)) ->
  (x = None -> is_data (command (lr_ r)) = false) ->
  (forall en, x = Some en -> is_data (command (lr_ r)) = true /\ lkey (lr_ r) = entry_key en /\ same_data (lr_ r) (end_epoch 0 P', en)) ->
  exists ran nr, turn fuel nextpos r = loop fuel mn mx nextpos
      (mkReplaying (lr_ r) ran nr (repbegin_ r) (match repbegin_ r with Some _ => Some nextpos | None => repend_ r end)) /\
    forall sel, Forall2 same_data (ran_ r) sel ->
      Forall2 same_data ran (sel ++ select mn mx (match x with Some en => [(end_epoch 0 P', en)] | None => [] end)).
Proof using Hmn.
  intros Hsm Hc Hmax Hset Hnone Hsome. unfold turn. rewrite Hc. set (c := end_epoch 0 P') in *.
  destruct (epoch_lt_small c mn Hsm Hmn) as [-> _]. unfold epoch_set, CircularInt.to_bool.
  assert ((negb (negb (c =? 0)) || negb (mn =? 0) && (c <? mn)) = negb (negb (c =? 0) && (mn <=? c))) as ->.
  { destruct (Z.eqb_spec c 0), (Z.eqb_spec mn 0), (Z.ltb_spec c mn), (Z.leb_spec mn c); cbn; done || lia. }
  destruct (negb (c =? 0) && (mn <=? c)) eqn:E; cbn [negb].
  - apply andb_true_iff in E as [Hc0 Hge]. apply negb_true_iff, Z.eqb_neq in Hc0. destruct (Hset Hc0) as [b Hb]. rewrite Hb.
    eexists _, _. split; [done|]. intros sel Hsel. destruct x as [en|].
    + destruct (Hsome en eq_refl) as (-> & -> & Hsame). rewrite andb_true_r. cbn. unfold selected. cbn.
      rewrite (proj2 (Z.eqb_neq c 0)), Hge by done. destruct (Z.ltb_spec c mx); [|lia]. cbn.
      destruct (zlength (entry_key en) =? 0); cbn; [by rewrite app_nil_r|]. apply Forall2_app; [done|]. by constructor.
    + rewrite Hnone by done. by rewrite andb_false_r, app_nil_r.
  - exists (ran_ r), (nr_ r). split.
    + destruct (repbegin_ r) eqn:Eb; [done|]. by destruct r; cbn in *; subst.
    + intros sel Hsel. destruct x as [en|]; cbn; [|by rewrite app_nil_r]. unfold selected. cbn. rewrite E. cbn. by rewrite app_nil_r.
Qed.

Lemma loop_step fuel P pos r en rest :
  ens = P ++ en :: rest -> scanned P pos r -> (forall ep, en <> EEpoch ep) ->
  exists r', loop (S fuel) mn mx pos r = loop fuel mn mx (pos + entry_size en) r' /\ scanned (P ++ [en]) (pos + entry_size en) r'.
Proof using Hlog Hsorted Hmn Hfirst Hcut.
  intros He Hsc Hne. destruct (log_at_snoc _ _ _ _ He (sc_pos _ _ _ Hsc)) as (Hok & Hen & Hlog' & Hle). pose proof e1_le.
  pose proof (entry_size_pos en). destruct Hsc as [Hp Hep Hran Hmax Hk]. cbn [replay_loop].
  destruct (Z.ltb_spec pos e) as [_|]; [|lia]. rewrite (extract_entry _ _ _ _ _ Hok Hen) by lia. cbn [mbind option_bind].
  set (lr := read_into (lr_ r) en).
  assert (end_epoch 0 (P ++ [en]) = end_epoch 0 P) as Hend by (rewrite end_epoch_app; destruct en as [|ep| |]; try done; by destruct (Hne ep)).
  assert ((command lr =? logcmd_none) = false /\ (command lr =? logcmd_epoch) = false) as [-> ->].
  { destruct Hok as [_ Hok], en as [c|ep|c ? ? ?|]; cbn; [by destruct Hok as [->| ->]|by destruct (Hne ep)| |done].
    by destruct Hok as [[->|[->| ->]] _]. }
  cbn [andb]. set (x := match en with EKv _ _ _ _ | EDelta _ _ _ _ => Some en | _ => None end).
  assert (lepoch lr = end_epoch 0 P) as Hlr by (unfold lr; destruct en as [|ep| |]; try done; by destruct (Hne ep)).
  destruct (turn_spec fuel (pos + entry_size en) (mkReplaying lr (ran_ r) (nr_ r) (repbegin_ r) (repend_ r)) P x) as (ran & nr & Hturn & Hran').
  - by eapply epoch_small.
  - done.
  - done.
  - intros Hz. unfold kept in Hk. cbn. destruct (repbegin_ r); [done|]. by destruct (no_epoch_end P (proj2 Hk) 0).
  - unfold x, lr. intros Hx. destruct Hok as [_ Hok], en as [c|ep| |]; [by destruct Hok as [->| ->]|by destruct (Hne ep)|done|done].
  - unfold x. intros en' Hx. destruct Hok as [_ Hok], en; simplify_eq/=; [|by split_and!].
    split; [|by split_and!]. unfold is_data. destruct Hok as [[->|[->| ->]] _]; done.
  - unfold turn in Hturn. cbn [lr_ lepoch repbegin_ ran_ nr_] in Hturn. eexists. split; [exact Hturn|]. split; cbn; try done.
    + by rewrite Hend.
    + rewrite tagged_app, select_app. destruct x eqn:Ex; [|].
      * replace (tagged (end_epoch 0 P) [en]) with [(end_epoch 0 P, e0)] by (unfold x in Ex; destruct en; by simplify_eq/=). by apply Hran'.
      * replace (tagged (end_epoch 0 P) [en]) with (@nil (Z * entry)) by (unfold x in Ex; by destruct en). by apply Hran'.
    + by rewrite Hend.
    + by eapply kept_snoc.
Qed.

Lemma loop_epoch fuel P pos r ep rest :
  ens = P ++ EEpoch ep :: rest -> scanned P pos r ->
  final (loop (S fuel) mn mx pos r) \/
  exists r', loop (S fuel) mn mx pos r = loop fuel mn mx (pos + 16) r' /\ scanned (P ++ [EEpoch ep]) (pos + 16) r'.
Proof using Hlog Hsorted Hmn Hmx Hfirst Hcut.
  intros He Hsc. destruct (log_at_snoc _ _ _ _ He (sc_pos _ _ _ Hsc)) as (Hok & Hen & Hlog' & Hle). pose proof e1_le.
  destruct (next_begin_kept _ _ _ _ _ He Hsc) as (b & pre & K & Hnb & HPK & Hb & HK & Hpre).
  destruct Hsc as [Hp Hepo Hran Hmax Hk]. change (entry_size (EEpoch ep)) with 16 in *. cbn [replay_loop].
  assert (0 < ep < epoch_max /\ end_epoch 0 P <= ep) as [Hep Hmono].
  { rewrite He, epochs_sorted_app in Hsorted. destruct Hsorted as [_ Hs]. cbn in Hs. tauto. }
  destruct (Z.ltb_spec pos e) as [_|]; [|lia]. rewrite (extract_entry _ _ _ _ _ Hok Hen) by (cbn; unfold sizeof_epoch; lia). cbn [mbind option_bind].
  cbn [read_into command lepoch]. change (logcmd_epoch =? logcmd_none) with false. rewrite Z.eqb_refl. cbn [andb lr_ ran_ nr_ repbegin_ repend_ command lepoch].
  destruct (epoch_lt_small ep mn ltac:(lia) Hmn) as [Hlt _], (epoch_lt_small ep mx ltac:(lia) Hmx) as [_ Hge].
  set (lr := mkLogrecord logcmd_epoch _ _ _ _ ep). rewrite Hge.
  assert (forall r', r' = mkReplaying lr (ran_ r) (nr_ r) (Some b) (repend_ r) ->
    (if epoch_set mn && epoch_lt ep mn || negb (epoch_set mn) && negb (bool_decide (is_Some (repbegin_ r)))
     then mkReplaying lr (ran_ r) (nr_ r) (Some pos) (repend_ r)
     else mkReplaying lr (ran_ r) (nr_ r) (repbegin_ r) (repend_ r)) = r') as Hr'.
  { intros r' ->. rewrite <- Hnb. unfold next_begin. rewrite Hlt. unfold epoch_set, CircularInt.to_bool. rewrite negb_involutive. by destruct (_ || _). }
  rewrite (Hr' _ eq_refl). assert (tagged 0 (P ++ [EEpoch ep]) = tagged 0 P) as Htag by (by rewrite tagged_app, app_nil_r).
  assert (end_epoch 0 (P ++ [EEpoch ep]) = ep) as Hend by (by rewrite end_epoch_app).
  assert (forall q, kept (P ++ [EEpoch ep]) (pos + 16) (mkReplaying lr (ran_ r) q (Some b) (Some (pos + 16)))) as Hkept
    by (intros q; split; [done|]; by exists pre, K).
  destruct (Z.leb_spec mx ep) as [Hmxe|Hmxe].
  - left. cbn [repbegin_]. assert (ens = (P ++ [EEpoch ep]) ++ rest) as He' by (by rewrite <- app_assoc).
    apply (final_intro _ _ _ pos (mkReplaying lr (ran_ r) (nr_ r) (Some b) (Some (pos + 16))) lr He' Hlog'); [by rewrite Htag| |done].
    rewrite Hend. apply select_nil. intros c en Hin. right. right.
    rewrite He', epochs_sorted_app, Hend in Hsorted. pose proof (tagged_bounds _ _ _ _ (proj2 Hsorted) Hin). lia.
  - right. destruct (turn_spec fuel (pos + 16) (mkReplaying lr (ran_ r) (nr_ r) (Some b) (repend_ r)) (P ++ [EEpoch ep]) None)
      as (ran & nr & Hturn & Hran'); [rewrite Hend; lia|by rewrite Hend|rewrite Hend; by right|done..|].
    unfold turn in Hturn. cbn [lr_ lepoch repbegin_ ran_ nr_] in Hturn. eexists. split; [exact Hturn|]. split; cbn; try done.
    + rewrite Htag. specialize (Hran' _ Hran). by rewrite app_nil_r in Hran'.
    + rewrite Hend. by right.
    + split; [done|]. by exists pre, K.
Qed.

Lemma loop_spec rest : forall fuel P pos r, ens = P ++ rest -> scanned P pos r -> (length rest < fuel)%nat ->
  final (loop fuel mn mx pos r).
Proof using Hlog Hsorted Hmn Hmx Hfirst Hcut.
  induction rest as [|en rest IH]; intros [|fuel] P pos r He Hsc Hf; cbn [length] in Hf; try lia.
  - assert (pos = e1) as ->.
    { rewrite app_nil_r in He. eapply (log_at_det m P buf); [exact (sc_pos _ _ _ Hsc)|by rewrite <- He]. }
    destruct Hsc as [Hp _ Hran _ Hk]. cbn [replay_loop]. destruct (Z.ltb_spec e1 e) as [Hlt|_].
    + destruct Hcut as [?|(en & Hen & Hc)]; [lia|]. rewrite (extract_cut _ _ _ _ _ Hen Hc). cbn [mbind option_bind]. cbn.
      by eapply final_intro.
    + assert (r = mkReplaying (lr_ r) (ran_ r) (nr_ r) (repbegin_ r) (repend_ r)) as -> by (by destruct r). by eapply final_intro.
  - assert (ens = (P ++ [en]) ++ rest) as He' by (by rewrite <- app_assoc).
    destruct en as [c|ep|c key val ts|key val p ts].
    2: { destruct (loop_epoch fuel _ _ _ _ _ He Hsc) as [?|(r' & -> & Hsc')]; [done|]. eapply IH; [exact He'|exact Hsc'|lia]. }
    all: edestruct (loop_step fuel _ _ _ _ _ He Hsc) as (r' & -> & Hsc'); [done|]; eapply IH; [exact He'|exact Hsc'|lia].
Qed.
End replay.

Lemma log_at_length m ens : forall a e, log_at m a ens e -> 8 * Z.of_nat (length ens) <= e - a.
Proof.
  induction ens as [|en ens IH]; intros a e; cbn; [lia|]. intros (_ & _ & H%IH). pose proof (entry_size_pos en). lia.
Qed.

(** C12: Recovery reads a log file that may end in a record that was cut off
    anywhere.  It never reads past the end; it replays exactly the entries with
    a key of the epochs from [min_epoch] on and before [max_epoch], in their
    order; and the part of the file that it keeps is a log by itself, from
    which all of these would be replayed again. *)
Theorem replay_selects m e buf e1 mn mx ens junk :
  log_at m buf ens e1 -> epochs_sorted 0 ens -> 0 <= mn < epoch_max -> 0 <= mx < epoch_max ->
  mn = 0 \/ (forall ep, first_epoch_of ens = Some ep -> ep < mn) ->
  e1 = e \/ (exists en, entry_at m e1 en /\ e1 <= e < e1 + entry_size en) ->
  exists ran nr rb re pre kept post,
    replayandclean1 m e junk mn mx buf = Some (ran, nr, (rb, re)) /\
    Forall2 same_data ran (select mn mx (tagged 0 ens)) /\
    ens = pre ++ kept ++ post /\ log_at m rb kept re /\ (kept = [] \/ starts_epoch kept) /\
    select mn mx (tagged 0 kept) = select mn mx (tagged 0 ens).
Proof.
  intros Hlog Hs Hmn Hmx Hfirst Hcut. unfold replayandclean1. set (lr := mkLogrecord (command junk) _ _ _ _ _).
  pose proof (log_at_length _ _ _ _ Hlog) as Hlen. pose proof (e1_le m e e1 Hcut) as Hle.
  destruct (loop_spec m e buf e1 mn mx ens Hlog Hs Hmn Hmx Hfirst Hcut ens (S (Z.to_nat (e - buf))) [] buf (mkReplaying lr [] 0 None None))
    as (pos & r & P & post & -> & He & Hran & Hk); [done| |lia|].
  { split; try done. by left. }
  cbn [mbind option_bind]. cbv iota beta. exists (ran_ r), (nr_ r). destruct (repbegin_ r) as [b|].
  - destruct Hk as (re & pre & K & -> & -> & Hb & HK & Hst & Hsel). exists b, re, pre, K, post.
    rewrite He, <- app_assoc. rewrite He, <- app_assoc in Hsel, Hran. split_and!; try done. by right.
  - destruct Hk as [_ Hno]. exists buf, buf, [], [], ens. split_and!; try done. by left.
Qed.

(** Two epochs, the second cut off in its put; replaying from epoch 3 on keeps
    the whole log, for its first epoch is before that. *)
Definition small_log : list Z :=
  load (fst (kv_store (fst (epoch_store (fst (kv_store (fst (epoch_store (fun _ => 0) 0 logcmd_epoch 2)) 16 logcmd_replace [107] [118] 4))
    42 logcmd_epoch 3)) 58 logcmd_replace [107] [119] 6)) 0 84.
Definition small_entries : list entry := [EEpoch 2; EKv logcmd_replace [107] [118] 4; EEpoch 3; EKv logcmd_replace [107] [119] 6].
Lemma replay_selects_witness :
  encodes small_log small_entries /\
  (exists ran nr range, replayandclean1 (mem_of 0 small_log) 84 (mkLogrecord 1 [] [] 0 0 0) 3 9 0 = Some (ran, nr, range) /\
     Forall2 same_data ran [(3, EKv logcmd_replace [107] [119] 6)]) /\
  exists ran nr range, replayandclean1 (mem_of 0 small_log) 80 (mkLogrecord 1 [] [] 0 0 0) 3 9 0 = Some (ran, nr, range) /\
     Forall2 same_data ran [].
Proof.
  assert (encodes small_log small_entries) as He.
  { unfold encodes, small_entries. cbn [log_at]. split_and!; try by vm_compute.
    all: split; [by vm_compute|]; first [right; left; done | split_and!; first [right; left; done | by vm_compute]]. }
  split; [exact He|]. split.
  - destruct (replay_selects (mem_of 0 small_log) 84 0 84 3 9 small_entries (mkLogrecord 1 [] [] 0 0 0)) as
      (ran & nr & rb & re & _ & _ & _ & Hrun & Hran & _).
    + exact He.
    + cbn. unfold epoch_max. lia.
    + by vm_compute.
    + by vm_compute.
    + right. intros ep [= <-]. lia.
    + by left.
    + exists ran, nr, (rb, re). split; [exact Hrun|exact Hran].
  - destruct (replay_selects (mem_of 0 small_log) 80 0 58 3 9 (take 3 small_entries) (mkLogrecord 1 [] [] 0 0 0)) as
      (ran & nr & rb & re & _ & _ & _ & Hrun & Hran & _).
    + unfold encodes, small_entries in He. cbn in He |- *. tauto.
    + cbn. unfold epoch_max. lia.
    + by vm_compute.
    + by vm_compute.
    + right. intros ep [= <-]. lia.
    + right. exists (EKv logcmd_replace [107] [119] 6). split; [by vm_compute|by vm_compute].
    + exists ran, nr, (rb, re). split; [exact Hrun|exact Hran].
Defined.
