(* ===== verification/Strings.v ===== *)
(** Strings, [src/string_base.hh], [src/string.cc] and what they use of
    [src/straccum.cc]: hashing, comparison, JSON, base64 and URI encodings, and
    conversions to UTF-8.

    A string is the list of its bytes; a pointer into it is the rest of the
    string from there on, so that [end] is the empty list.  A [StringAccum] is
    the list of the bytes appended so far. *)
From S2P Require Import Prelude Compiler Memory.

(** The bytes from [p] up to [q]. *)
Definition between (p q : list Z) : list Z := take (length p - length q) p.

Definition isdigit (c : Z) : bool := (48 <=? c) && (c <=? 57).
Definition isupper (c : Z) : bool := (65 <=? c) && (c <=? 90).
Definition islower (c : Z) : bool := (97 <=? c) && (c <=? 122).
Definition isalpha (c : Z) : bool := isupper c || islower c.
Definition isalnum (c : Z) : bool := isalpha c || isdigit c.
Definition isspace (c : Z) : bool := (c =? 32) || ((9 <=? c) && (c <=? 13)).
Definition toupper (c : Z) : Z := if islower c then c - 32 else c.
Definition tolower (c : Z) : Z := if isupper c then c + 32 else c.

Module String_generic.
(** ** Comparison and hashing *)
Definition equals (a b : list Z) : bool := (zlength a =? zlength b) && (list_memcmp a b =? 0).
Definition compare (a b : list Z) : Z :=
  let len := Nat.min (length a) (length b) in
  let cmp := list_memcmp (take len a) (take len b) in
  if negb (cmp =? 0) then cmp else zlength a - zlength b.

Definition get16 (a b : Z) : Z := a + Z.shiftl b 8.
Definition u32 (x : Z) : Z := uwrap 32 x.
(** The loop over whole words of 4 bytes. *)
Fixpoint hash_words (s : list Z) (hash : Z) : list Z * Z :=
  match s with
  | a :: b :: c :: d :: s =>
      let hash := u32 (hash + get16 a b) in
      let tmp := Z.lxor (u32 (Z.shiftl (get16 c d) 11)) hash in
      let hash := Z.lxor (ushl 32 hash 16) tmp in
      hash_words s (u32 (hash + Z.shiftr hash 11))
  | _ => (s, hash)
  end.
Definition hash_tail (s : list Z) (hash : Z) : Z :=
  match s with
  | [a; b; c] =>
      let hash := u32 (hash + get16 a b) in
      let hash := Z.lxor hash (ushl 32 hash 16) in
      let hash := Z.lxor hash (Z.shiftl c 18) in
      u32 (hash + Z.shiftr hash 11)
  | [a; b] =>
      let hash := u32 (hash + get16 a b) in
      let hash := Z.lxor hash (ushl 32 hash 11) in
      u32 (hash + Z.shiftr hash 17)
  | [a] =>
      let hash := u32 (hash + a) in
      let hash := Z.lxor hash (ushl 32 hash 10) in
      u32 (hash + Z.shiftr hash 1)
  | _ => hash
  end.
Definition hashcode (s : list Z) : Z :=
  match s with
  | [] => 0
  | _ =>
      let '(rest, hash) := hash_words s (u32 (zlength s)) in
      let hash := hash_tail rest hash in
      let hash := Z.lxor hash (ushl 32 hash 3) in
      let hash := u32 (hash + Z.shiftr hash 5) in
      let hash := Z.lxor hash (ushl 32 hash 4) in
      let hash := u32 (hash + Z.shiftr hash 17) in
      let hash := Z.lxor hash (ushl 32 hash 25) in
      u32 (hash + Z.shiftr hash 6)
  end.

(** ** Natural comparison *)
(** [p[-k]] in the string [str], for a pointer [p] into it. *)
Definition before (str p : list Z) (k : nat) : option Z :=
  if (k <=? length str - length p)%nat then str !! (length str - length p - k)%nat else None.
Fixpoint skip_while (f : Z -> bool) (s : list Z) : list Z :=
  match s with c :: s' => if f c then skip_while f s' else s | [] => [] end.
Definition at_digit (s : list Z) : bool := match s with c :: _ => isdigit c | [] => false end.
(** Over the digits that both have, with the first difference. *)
Fixpoint walk_digits (a b : list Z) (digit_compare : Z) : list Z * list Z * Z :=
  match a, b with
  | x :: a', y :: b' =>
      if isdigit x && isdigit y then walk_digits a' b' (if digit_compare =? 0 then x - y else digit_compare)
      else (a, b, digit_compare)
  | _, _ => (a, b, digit_compare)
  end.
(** [p + 1 < end && *p == '.' && f(p[1])]. *)
Definition dot_then (f : Z -> bool) (p : list Z) : bool :=
  match p with 46 :: c :: _ => f c | _ => false end.

(** Two numbers at [a] and [b]: a result, or what follows them, with the place
    after the first decimal point and its sign. *)
Definition compare_numbers (sa a b : list Z) (aperiod : option (list Z)) (aperiod_negative : bool) :
    Z + (list Z * list Z * option (list Z) * bool) :=
  let potential_decimal := match aperiod with Some p => Nat.eqb (length p) (length a) | None => false end in
  let negative := bool_decide (before sa a 1 = Some 45) &&
    match before sa a 2 with None => true | Some c => isspace c end in
  let ia := a in let ib := b in
  let a := skip_while (Z.eqb 48) a in let b := skip_while (Z.eqb 48) b in
  let longer_zeros := zlength (between ia a) - zlength (between ib b) in
  let '(a, b, digit_compare) := walk_digits a b 0 in
  let a_good := at_digit a in let b_good := at_digit b in
  let ax := skip_while isdigit a in let bx := skip_while isdigit b in
  let decimal := potential_decimal && negb (dot_then (fun c => negb (isspace c)) ax) &&
    negb (dot_then (fun c => negb (isspace c)) bx) in
  let negative := if decimal then aperiod_negative else negative in
  if decimal && negb (longer_zeros =? 0) then inl (if negative then 1 else -1)
  else
    let a_good := if decimal && negb (digit_compare =? 0) then b_good else a_good in
    if negb (Bool.eqb a_good b_good) then inl (if Bool.eqb negative a_good then -1 else 1)
    else if negb (digit_compare =? 0) then inl (if Bool.eqb negative (0 <? digit_compare) then -1 else 1)
    else if negb (longer_zeros =? 0) then inl longer_zeros
    else
      match aperiod with
      | Some _ => inr (a, b, aperiod, aperiod_negative)
      | None =>
          let a_good := dot_then isdigit a in
          let b_good := dot_then isdigit b in
          if negb (Bool.eqb a_good b_good) then inl (if Bool.eqb negative b_good then 1 else -1)
          else if a_good then inr (a, b, Some (tail a), negative) else inr (a, b, None, aperiod_negative)
      end.
Fixpoint natural_loop (fuel : nat) (sa a b : list Z) (aperiod : option (list Z)) (aperiod_negative : bool)
    (raw_compare : Z) : option Z :=
  match fuel with
  | O => None
  | S fuel =>
      match a, b with
      | x :: a', y :: b' =>
          if isdigit x && isdigit y then
            match compare_numbers sa a b aperiod aperiod_negative with
            | inl r => Some r
            | inr (a, b, aperiod, aperiod_negative) => natural_loop fuel sa a b aperiod aperiod_negative raw_compare
            end
          else if isdigit x then Some (if isalpha y then -1 else 1)
          else if isdigit y then Some (if isalpha x then 1 else -1)
          else
            let alower := tolower x in let blower := tolower y in
            if negb (alower =? blower) then Some (alower - blower)
            else
              let raw_compare := if raw_compare =? 0 then x - y else raw_compare in
              natural_loop fuel sa a' b' (if negb (x =? 46) then None else aperiod) aperiod_negative raw_compare
      | _, _ =>
          if negb (zlength a =? zlength b) then Some (zlength a - zlength b) else Some raw_compare
      end
  end.
Definition natural_compare (a b : list Z) : option Z :=
  natural_loop (S (length a)) a a b None false 0.

(** ** Numbers *)
(** [long] from [unsigned long], which wraps. *)
Fixpoint to_i_loop (s : list Z) (x : Z) : Z :=
  match s with
  | c :: s => if isdigit c then to_i_loop s (uwrap 64 (uwrap 64 (x * 10 + c) - 48)) else x
  | [] => x
  end.
Definition to_i (s : list Z) : Z :=
  let '(neg, s) :=
    match s with 45 :: s => (true, s) | 43 :: s => (false, s) | _ => (false, s) end in
  match s with
  | c :: s =>
      if isdigit c then let x := to_i_loop s (c - 48) in swrap 64 (if (neg : bool) then - x else x) else 0
  | [] => 0
  end.

Definition upper_hex_nibble (n : Z) : Z := n + (if 9 <? n then 55 else 48).

(** ** Searching *)
Fixpoint find_from (i : Z) (s : list Z) (f : list Z -> bool) : Z :=
  match s with
  | [] => -1
  | _ :: s' => if f s then i else find_from (i + 1) s' f
  end.
Definition starts_at (x s : list Z) : bool := list_memcmp (take (length x) s) x =? 0.
Definition find_left (s : list Z) (start x : Z) : Z :=
  let start := Z.max start 0 in
  find_from start (drop (Z.to_nat start) s) (fun s => match s with c :: _ => c =? x | [] => false end).
Definition find_left_str (s : list Z) (start : Z) (x : list Z) : Z :=
  let start := Z.max start 0 in
  if zlength x =? 0 then if start <=? zlength s then start else -1
  else find_from start (drop (Z.to_nat start) s)
    (fun s => (length x <=? length s)%nat && starts_at x s).
(** From [start], or from the end of the string, down to the first character. *)
Definition find_down (start : Z) (s : list Z) (f : list Z -> bool) : Z :=
  default (-1) (list_find (fun i => f (drop (Z.to_nat i) s) = true) (reverse (seqZ 0 (start + 1))) ≫= fun p => Some (snd p)).
Definition find_right (s : list Z) (start x : Z) : Z :=
  let start := if zlength s <=? start then zlength s - 1 else start in
  find_down start s (fun s => match s with c :: _ => c =? x | [] => false end).
(** [memcmp] may read past the end of the string: it is compared with the rest
    of the string, followed by [after]. *)
Definition find_right_str (s after : list Z) (start : Z) (x : list Z) : Z :=
  let start := if zlength s <=? start then zlength s - zlength x else start in
  if zlength x =? 0 then if 0 <=? start then start else -1
  else find_down start s (fun t => starts_at x (t ++ after)).
Definition starts_with (a b : list Z) : bool := (zlength b <=? zlength a) && starts_at b a.
Definition ltrim (s : list Z) : list Z := skip_while isspace s.
Definition rtrim (s : list Z) : list Z := reverse (skip_while isspace (reverse s)).
Definition trim (s : list Z) : list Z := ltrim (rtrim s).

(** ** Glob patterns *)
(** The comparison of the suffixes that no metacharacter guards, on the reversed
    pattern and string; [None] is [return false]. *)
Fixpoint strip_suffix (p s : list Z) : option (list Z * list Z) :=
  match p, s with
  | x :: p', y :: s' =>
      if negb (x =? 42) && negb (x =? 63) && negb (x =? 93)
         && match p' with [] => true | z :: _ => negb (z =? 92) end
      then if x =? y then strip_suffix p' s' else None
      else Some (p, s)
  | _, _ => Some (p, s)
  end.
(** The [do] loop over a class, for [ec] in front of [p], with [++ec] first: what
    was found and [ec], or [None] when it reaches the end of the pattern.  (What
    the loop reads there is not used.) *)
Fixpoint class_loop (c : Z) (p : list Z) (found : bool) : option (bool * list Z) :=
  match p with
  | [] => None
  | x :: p' =>
      let found := found || (x =? c) in
      if x =? 93 then Some (found, p') else class_loop c p' found
  end.
(** A class from [ec] on: [None] is [goto normal_char], for one that is not
    closed, and otherwise the next state if the character is in the class. *)
Definition class_search (c : Z) (negated : bool) (ec : list Z) : option (option (list Z)) :=
  match ec with
  | [] => None
  | _ :: ec =>
      match class_loop c ec false with
      | None => None
      | Some (found, rest) => Some (if eqb found (negb negated) then Some rest else None)
      end
  end.
(** The class of the pattern [91 :: p]. *)
Definition class_match (c : Z) (p : list Z) : option (option (list Z)) :=
  match p with
  | x :: ec => if x =? 94 then class_search c true ec else class_search c false p
  | [] => class_search c false p
  end.
Definition push (nextstate : list (list Z)) (p : list Z) : list (list Z) := nextstate ++ [p].
Definition normal_char (c x : Z) (p : list Z) (nextstate : list (list Z)) : list (list Z) :=
  if x =? c then push nextstate p else nextstate.
(** The [switch] for one state, a rest of the pattern; [None] is [return true].
    Pointers into the pattern are compared by what is left after them. *)
Fixpoint glob_switch (c : Z) (pp : list Z) (nextstate : list (list Z)) : option (list (list Z)) :=
  match pp with
  | [] => Some nextstate
  | x :: p =>
      if x =? 63 then Some (push nextstate p)
      else if x =? 42 then
        match p with
        | [] => None
        | _ =>
            glob_switch c p
              (match last nextstate with
               | Some q => if (length q =? length pp)%nat then nextstate else push nextstate pp
               | None => push nextstate pp
               end)
        end
      else if x =? 92 then
        Some (match p with y :: p' => normal_char c y p' nextstate | [] => normal_char c x p nextstate end)
      else if x =? 91 then
        Some (match class_match c p with
              | None => normal_char c x p nextstate
              | Some (Some rest) => push nextstate rest
              | Some None => nextstate
              end)
      else Some (normal_char c x p nextstate)
  end.
Fixpoint glob_states (c : Z) (state nextstate : list (list Z)) : option (list (list Z)) :=
  match state with
  | [] => Some nextstate
  | pp :: state => match glob_switch c pp nextstate with Some ns => glob_states c state ns | None => None end
  end.
Fixpoint glob_loop (s : list Z) (state : list (list Z)) : bool :=
  match s, state with
  | [], _ | _, [] => existsb (fun pp => match skip_while (Z.eqb 42) pp with [] => true | _ => false end) state
  | c :: s, _ => match glob_states c state [] with Some state => glob_loop s state | None => true end
  end.
Definition glob_match (s p : list Z) : bool :=
  match strip_suffix (reverse p) (reverse s) with
  | None => false
  | Some (p, s) => glob_loop (reverse s) [reverse p]
  end.
End String_generic.

(** * [StringAccum::append_utf8] *)
(** The bytes appended, or none and [false]. *)
Definition append_utf8_hard (ch : Z) : option (list Z) :=
  let char1 := uwrap 8 (Z.lor 128 (Z.land ch 63)) in
  let char2 := uwrap 8 (Z.lor 128 (Z.land (Z.shiftr ch 6) 63)) in
  if ch <? 32768 then Some [uwrap 8 (Z.lor 192 (Z.shiftr ch 6)); char1]
  else if ch <? 65536 then
    if (55296 <=? ch) && (ch <? 57344) || (65533 <? ch) then None
    else Some [uwrap 8 (Z.lor 224 (Z.shiftr ch 12)); char2; char1]
  else if ch <? 1114112 then
    Some [uwrap 8 (Z.lor 240 (Z.shiftr ch 18)); uwrap 8 (Z.lor 128 (Z.land (Z.shiftr ch 12) 63)); char2; char1]
  else None.
Definition append_utf8 (ch : Z) : option (list Z) :=
  if ch <=? 0 then None else if ch <=? 127 then Some [ch] else append_utf8_hard ch.

Module String.
(** ** JSON *)
(** The escape of [c] after the backslash. *)
Definition json_escape (c : Z) : list Z :=
  if c =? 8 then [98] else if c =? 12 then [102] else if c =? 10 then [110]
  else if c =? 13 then [114] else if c =? 9 then [116]
  else if (c =? 92) || (c =? 34) || (c =? 47) then [c]
  else [117; String_generic.upper_hex_nibble (Z.shiftr c 12);
        String_generic.upper_hex_nibble (Z.land (Z.shiftr c 8) 15);
        String_generic.upper_hex_nibble (Z.land (Z.shiftr c 4) 15);
        String_generic.upper_hex_nibble (Z.land c 15)].
(** From [s] on, with [last] the start of what is not yet appended. *)
Fixpoint encode_json_loop (s last enc : list Z) : list Z * list Z :=
  match s with
  | [] => (last, enc)
  | c :: s1 =>
      match s1 with
      | 128 :: d :: s3 =>
          if (c =? 226) && (Z.lor d 1 =? 169) then
            encode_json_loop s3 s3 (enc ++ between last s ++ [92] ++ json_escape (8232 + Z.land d 1))
          else if (32 <=? c) && negb (c =? 92) && negb (c =? 34) && negb (c =? 47) then encode_json_loop s1 last enc
          else encode_json_loop s1 s1 (enc ++ between last s ++ [92] ++ json_escape c)
      | _ =>
          if (32 <=? c) && negb (c =? 92) && negb (c =? 34) && negb (c =? 47) then encode_json_loop s1 last enc
          else encode_json_loop s1 s1 (enc ++ between last s ++ [92] ++ json_escape c)
      end
  end.
Definition encode_json (s enc : list Z) : list Z :=
  let '(last, enc) := encode_json_loop s s enc in enc ++ last.

(** ** Base 64 *)
Definition base64_encoding_table : list Z := seqZ 65 26 ++ seqZ 97 26 ++ seqZ 48 10 ++ [43; 47].
Definition base64_decoding_map : list Z :=
  repeat 0 43 ++ [63; 0; 0; 0; 64] ++ seqZ 53 10 ++ repeat 0 7 ++ seqZ 1 26 ++ repeat 0 6 ++ seqZ 27 26 ++ repeat 0 133.
Definition b64 (x : Z) : Z := default 0 (zlookup base64_encoding_table x).
Fixpoint encode_base64 (pad : bool) (s : list Z) : list Z :=
  match s with
  | a :: b :: c :: s =>
      let x := Z.lor (Z.lor (Z.shiftl a 16) (Z.shiftl b 8)) c in
      b64 (Z.shiftr x 18) :: b64 (Z.land (Z.shiftr x 12) 63) :: b64 (Z.land (Z.shiftr x 6) 63) :: b64 (Z.land x 63) ::
      encode_base64 pad s
  | [a; b] =>
      let x := Z.lor (Z.shiftl a 16) (Z.shiftl b 8) in
      [b64 (Z.shiftr x 18); b64 (Z.land (Z.shiftr x 12) 63); b64 (Z.land (Z.shiftr x 6) 63)] ++
      (if pad then [61] else [])
  | [a] =>
      let x := Z.shiftl a 16 in
      [b64 (Z.shiftr x 18); b64 (Z.land (Z.shiftr x 12) 63)] ++ (if pad then [61; 61] else [])
  | [] => []
  end.
(** [((unsigned) map[c] - 1) << k]. *)
Definition unb64 (c k : Z) : Z := ushl 32 (uwrap 32 (default 0 (zlookup base64_decoding_map c) - 1)) k.
Fixpoint decode_quads (s : list Z) : option (list Z) :=
  match s with
  | a :: b :: c :: d :: s =>
      let x := Z.lor (Z.lor (Z.lor (unb64 a 18) (unb64 b 12)) (unb64 c 6)) (unb64 d 0) in
      if swrap 32 x <? 0 then None
      else
        rest ← decode_quads s;
        Some (uwrap 8 (Z.shiftr x 16) :: uwrap 8 (Z.shiftr x 8) :: uwrap 8 x :: rest)
  | [a; b; c] =>
      let x := Z.lor (Z.lor (unb64 a 18) (unb64 b 12)) (unb64 c 6) in
      if swrap 32 x <? 0 then None else Some [uwrap 8 (Z.shiftr x 16); uwrap 8 (Z.shiftr x 8)]
  | [a; b] =>
      let x := Z.lor (Z.lor (unb64 a 18) (unb64 b 12)) 0 in
      if swrap 32 x <? 0 then None else Some [uwrap 8 (Z.shiftr x 16)]
  | [_] => None
  | [] => Some []
  end.
(** [None] is [false]. *)
Definition decode_base64 (s : list Z) : option (list Z) :=
  decode_quads (reverse (String_generic.skip_while (Z.eqb 61) (reverse s))).

(** ** URIs *)
Definition uri_safe (c : Z) : bool := isalnum c || (c =? 45) || (c =? 95) || (c =? 46) || (c =? 126).
Fixpoint encode_uri_loop (s last enc : list Z) : list Z * list Z :=
  match s with
  | [] => (last, enc)
  | c :: s1 =>
      if uri_safe c then encode_uri_loop s1 last enc
      else encode_uri_loop s1 s1 (enc ++ between last s ++
        [37; String_generic.upper_hex_nibble (Z.shiftr c 4); String_generic.upper_hex_nibble (Z.land c 15)])
  end.
Definition encode_uri_component (s enc : list Z) : list Z :=
  let '(last, enc) := encode_uri_loop s s enc in enc ++ last.
(** ** Substrings and case *)
Definition substr (s : list Z) (pos len : Z) : list Z :=
  let length := zlength s in
  let pos := if pos <? 0 then pos + length else pos in
  let pos2 := if len <? 0 then length + len else if (0 <=? pos) && (length <=? len) then length else pos + len in
  let pos := if pos <? 0 then 0 else pos in
  let pos2 := if length <? pos2 then length else pos2 in
  if pos2 <=? pos then [] else take (Z.to_nat (pos2 - pos)) (drop (Z.to_nat pos) s).
(** The bytes up to the first one for which [f] holds, and those from it on. *)
Fixpoint split_at (f : Z -> bool) (s : list Z) : list Z * list Z :=
  match s with
  | [] => ([], [])
  | c :: s' => if f c then ([], s) else let '(a, b) := split_at f s' in (c :: a, b)
  end.
Definition hard_lower (s rest : list Z) : list Z := s ++ map tolower rest.
Definition lower (s : list Z) : list Z := let '(a, b) := split_at isupper s in hard_lower a b.
Definition hard_upper (s rest : list Z) : list Z := s ++ map toupper rest.
Definition upper (s : list Z) : list Z := let '(a, b) := split_at islower s in hard_upper a b.

(** ["\%03o"] *)
Definition octal (c : Z) : list Z := [92; 48 + Z.shiftr c 6; 48 + Z.land (Z.shiftr c 3) 7; 48 + Z.land c 7].
Definition printable_char (type c : Z) : list Z :=
  if (type =? 2) && ((c =? 92) || (c =? 34)) then [92; c]
  else if (32 <=? c) && (c <? 127) then [c]
  else if (c <? 32) && (type =? 2) then
    if (9 <=? c) && (c <=? 13) then [92; default 0 (zlookup [116; 110; 118; 102; 114] (c - 9))] else octal c
  else if (c <? 32) && negb (type =? 1) then [94; uwrap 8 (c + 64)]
  else octal c.
Definition hard_printable (s rest : list Z) (type : Z) : list Z := s ++ flat_map (printable_char type) rest.
Definition printable (s : list Z) (type : Z) : list Z :=
  let '(a, b) := split_at (fun c => (c <? 32) || (126 <? c)) s in
  match b with [] => s | _ => hard_printable a b type end.

Fixpoint to_hex (s : list Z) : list Z :=
  match s with
  | c :: s => String_generic.upper_hex_nibble (Z.shiftr c 4) :: String_generic.upper_hex_nibble (Z.land c 15) :: to_hex s
  | [] => []
  end.

(** ** UTF-8 *)
Definition utf_strip_bom : Z := 1.
Definition utf_replacement : Z := 2.
Definition utf_prefer_le : Z := 4.
Definition u_replacement : Z := 65533.
Definition has_flag (flags f : Z) : bool := negb (Z.land flags f =? 0).
Definition cont (c : Z) : bool := (128 <=? c) && (c <? 192).

Definition skip_utf8_char (s : list Z) : list Z :=
  match s with
  | [] => s
  | c :: s1 =>
      if (0 <? c) && (c <? 128) then s1
      else if c <? 194 then s
      else if c <? 224 then match s1 with x :: s2 => if cont x then s2 else s | _ => s end
      else if c <? 240 then
        match s1 with
        | x :: y :: s3 =>
            if cont x && cont y && (negb (c =? 224) || (160 <=? x)) && (negb (c =? 237) || (x <? 160)) then s3 else s
        | _ => s
        end
      else if c <? 245 then
        match s1 with
        | x :: y :: z :: s4 =>
            if cont x && cont y && cont z && (negb (c =? 240) || (144 <=? x)) && (negb (c =? 244) || (x <? 144))
            then s4 else s
        | _ => s
        end
      else s
  end.
(** A surrogate pair of two encodings of 3 bytes; 0 for none. *)
Definition parse_cesu8_char (s : list Z) : Z :=
  match s with
  | a :: b :: c :: d :: e :: f :: _ =>
      if (a =? 237) && (160 <=? b) && (b <? 176) && cont c && (d =? 237) && (176 <=? e) && (e <? 192) && cont f then
        65536 + Z.shiftl (Z.land b 15) 16 + Z.shiftl (Z.land c 63) 10 + Z.shiftl (Z.land e 15) 6 + Z.land f 63
      else 0
  | _ => 0
  end.
Definition skip_utf8_bom (s : list Z) : list Z :=
  match s with
  | a :: b :: c :: s3 => if (a =? 239) && (b =? 187) && (c =? 191) then s3 else s
  | _ => s
  end.
Definition windows1252_c1_mapping : list Z :=
  [8364; 129; 8218; 402; 8222; 8230; 8224; 8225; 8390; 8240; 352; 8249; 338; 141; 381; 143;
   144; 8216; 8217; 8220; 8221; 8226; 8211; 8212; 8412; 8482; 353; 8250; 339; 157; 382; 376].
(** What [append_utf8] adds to a [StringAccum] when its result is ignored. *)
Definition utf8_of (c : Z) : list Z := default [] (append_utf8 c).
Definition windows1252 (c : Z) : Z := if c <? 160 then default 0 (zlookup windows1252_c1_mapping (c - 128)) else c.

Fixpoint windows1252_loop (s last sa : list Z) : list Z * list Z :=
  match s with
  | [] => (last, sa)
  | c :: s1 =>
      if c =? 0 then windows1252_loop s1 s1 (sa ++ between last s)
      else if c <? 128 then windows1252_loop s1 last sa
      else windows1252_loop s1 s1 (sa ++ between last s ++ utf8_of (windows1252 c))
  end.
Definition windows1252_to_utf8 (s : list Z) : list Z :=
  let '(last, sa) := windows1252_loop s s [] in
  if Nat.eqb (length last) (length s) then s else sa ++ last.

(** [be]: the first byte of a unit is the high one. *)
Fixpoint utf16_loop (be : bool) (flags : Z) (s sa : list Z) : list Z :=
  match s with
  | a :: b :: s2 =>
      let '(h, l) := if be then (a, b) else (b, a) in
      let c := h * 256 + l in
      let replace := sa ++ (if negb (c =? 0) && has_flag flags utf_replacement then utf8_of u_replacement else []) in
      if (c <? 55296) || (57344 <=? c) then utf16_loop be flags s2 (sa ++ utf8_of c)
      else
        match s2 with
        | x :: y :: s4 =>
            let '(h2, l2) := if be then (x, y) else (y, x) in
            if (c <? 56320) && (220 <=? h2) && (h2 <? 224) then
              utf16_loop be flags s4
                (sa ++ utf8_of (65536 + Z.shiftl (c - 55296) 10 + Z.shiftl (Z.land h2 3) 8 + l2))
            else utf16_loop be flags s2 replace
        | _ => utf16_loop be flags s2 replace
        end
  | _ => sa
  end.
Definition utf16be_to_utf8 (flags : Z) (s : list Z) : list Z :=
  utf16_loop true flags
    (match s with
     | a :: b :: s2 => if has_flag flags utf_strip_bom && (a =? 254) && (b =? 255) then s2 else s
     | _ => s
     end) [].
Definition utf16le_to_utf8 (flags : Z) (s : list Z) : list Z :=
  utf16_loop false flags
    (match s with
     | a :: b :: s2 => if has_flag flags utf_strip_bom && (b =? 254) && (a =? 255) then s2 else s
     | _ => s
     end) [].
Definition utf16_to_utf8 (flags : Z) (s : list Z) : list Z :=
  match s with
  | a :: b :: _ =>
      let c := a * 256 + b in
      if (c =? 65279) || (negb (c =? 65534) && negb (has_flag flags utf_prefer_le))
      then utf16be_to_utf8 flags s else utf16le_to_utf8 flags s
  | _ => []
  end.

(** [cesu8]: with surrogate pairs of two encodings. *)
Fixpoint utf8_loop (fuel : nat) (cesu8 : bool) (flags : Z) (s last sa : list Z) : option (list Z * list Z) :=
  match fuel with
  | O => None
  | S fuel =>
      match s with
      | [] => Some (last, sa)
      | c :: s1 =>
          let t := skip_utf8_char s in
          if (0 <? c) && (c <? 127) then utf8_loop fuel cesu8 flags s1 last sa
          else if negb (Nat.eqb (length t) (length s)) then utf8_loop fuel cesu8 flags t last sa
          else
            let p := parse_cesu8_char s in
            if cesu8 && negb (p =? 0) then
              utf8_loop fuel cesu8 flags (drop 6 s) (drop 6 s) (sa ++ between last s ++ utf8_of p)
            else
              (* in cesu8_to_utf8 [c] is by then the 0 of [parse_cesu8_char] *)
              let c := if cesu8 then 0 else c in
              let sa := sa ++ between last s ++
                (if has_flag flags utf_replacement && negb (c =? 0) then utf8_of u_replacement else []) in
              let s := String_generic.skip_while cont s1 in utf8_loop fuel cesu8 flags s s sa
      end
  end.
Definition finish_utf8 (s : list Z) (r : list Z * list Z) : list Z :=
  if Nat.eqb (length (fst r)) (length s) then s else snd r ++ fst r.
Definition strip_bom (flags : Z) (s : list Z) : list Z := if has_flag flags utf_strip_bom then skip_utf8_bom s else s.
Definition utf8_to_utf8 (flags : Z) (s : list Z) : option (list Z) :=
  let s0 := strip_bom flags s in finish_utf8 s <$> utf8_loop (S (length s0)) false flags s0 s0 [].
Definition cesu8_to_utf8 (flags : Z) (s : list Z) : option (list Z) :=
  let s0 := strip_bom flags s in finish_utf8 s <$> utf8_loop (S (length s0)) true flags s0 s0 [].

(** [to_utf8] guesses the encoding.  From [windows1252:] on. *)
Fixpoint guess_windows (s last sa : list Z) : list Z * list Z :=
  match s with
  | [] => (last, sa)
  | c :: s1 =>
      if (0 <? c) && (c <? 128) then guess_windows s1 last sa
      else guess_windows s1 s1 (sa ++ between last s ++ (if c =? 0 then [] else utf8_of (windows1252 c)))
  end.
Fixpoint guess_loop (fuel : nat) (any_long_utf8 : bool) (s last sa : list Z) : option (list Z * list Z) :=
  match fuel with
  | O => None
  | S fuel =>
      match s with
      | [] => Some (last, sa)
      | c :: s1 =>
          let t := skip_utf8_char s in
          let p := parse_cesu8_char s in
          if (0 <? c) && (c <? 128) then guess_loop fuel any_long_utf8 s1 last sa
          else if negb (Nat.eqb (length t) (length s)) then guess_loop fuel true t last sa
          else if negb (p =? 0) then
            guess_loop fuel true (drop 6 s) (drop 6 s) (sa ++ between last s ++ utf8_of p)
          else if c =? 0 then guess_loop fuel any_long_utf8 s1 s1 (sa ++ between last s)
          else if negb any_long_utf8 then Some (guess_windows s last sa)
          else guess_loop fuel any_long_utf8 s1 s1 (sa ++ between last s ++ utf8_of (windows1252 c))
      end
  end.
Definition to_utf8 (flags : Z) (s : list Z) : option (list Z) :=
  let other :=
    let s0 := if (3 <? zlength s) then strip_bom flags s else s in
    finish_utf8 s <$> guess_loop (S (length s0)) false s0 s0 [] in
  match s with
  | a :: b :: _ :: _ =>
      if (a =? 255) && (b =? 254) || (0 <? a) && (a <? 128) && (b =? 0) then Some (utf16le_to_utf8 flags s)
      else if (a =? 254) && (b =? 255) || (a =? 0) && (0 <? b) && (b <? 128) then Some (utf16be_to_utf8 flags s)
      else other
  | _ => other
  end.
End String.
