(* ===== verification/StringsSpec.v ===== *)
(** What the conversions of [Strings] produce: valid UTF-8, and the bytes back
    from base 64. *)
From S2P Require Import Prelude Compiler Memory Strings.

Ltac Zify.zify_post_hook ::= Z.div_mod_to_equations.

(** * UTF-8 *)
(** Unicode scalar values other than 0, which the code drops. *)
Definition scalar (c : Z) : Prop := 0 < c < 1114112 /\ ~ (55296 <= c < 57344).
Definition utf8 (c : Z) : list Z :=
  if c <? 128 then [c]
  else if c <? 2048 then [192 + c / 64; 128 + c mod 64]
  else if c <? 65536 then [224 + c / 4096; 128 + (c / 64) mod 64; 128 + c mod 64]
  else [240 + c / 262144; 128 + (c / 4096) mod 64; 128 + (c / 64) mod 64; 128 + c mod 64].
Definition valid_utf8 (s : list Z) : Prop := exists cs, Forall scalar cs /\ s = concat (map utf8 cs).

Lemma valid_utf8_app s t : valid_utf8 s -> valid_utf8 t -> valid_utf8 (s ++ t).
Proof.
  intros (cs & Hcs & ->) (ds & Hds & ->). exists (cs ++ ds). split; [by apply Forall_app|].
  by rewrite map_app, concat_app.
Qed.
Lemma valid_utf8_nil : valid_utf8 [].
Proof. by exists []. Qed.
Lemma valid_utf8_char c : scalar c -> valid_utf8 (utf8 c).
Proof. intros Hc. exists [c]. split; [by constructor|]. cbn. by rewrite app_nil_r. Qed.

(** Case analysis on every comparison of the goal. *)
Ltac zcases :=
  repeat match goal with
  | |- context [?a <? ?b] => destruct (Z.ltb_spec a b)
  | |- context [?a <=? ?b] => destruct (Z.leb_spec a b)
  | |- context [?a =? ?b] => destruct (Z.eqb_spec a b)
  end.
Lemma cont_iff c : String.cont c = true <-> 128 <= c < 192.
Proof. unfold String.cont. rewrite andb_true_iff, Z.leb_le, Z.ltb_lt. lia. Qed.

Lemma utf8_1 a : 0 < a < 128 -> scalar a /\ utf8 a = [a].
Proof. intros. unfold scalar, utf8. split; [lia|]. by destruct (Z.ltb_spec a 128); [|lia]. Qed.
Lemma utf8_2 a b : 194 <= a < 224 -> 128 <= b < 192 ->
  let c := (a - 192) * 64 + (b - 128) in scalar c /\ utf8 c = [a; b].
Proof.
  intros Ha Hb. cbv zeta. unfold scalar, utf8. split; [lia|]. zcases; try lia. repeat f_equal; lia.
Qed.
Lemma utf8_3 a b d : 224 <= a < 240 -> 128 <= b < 192 -> 128 <= d < 192 ->
  (a = 224 -> 160 <= b) -> (a = 237 -> b < 160) ->
  let c := (a - 224) * 4096 + (b - 128) * 64 + (d - 128) in scalar c /\ utf8 c = [a; b; d].
Proof.
  intros Ha Hb Hd H1 H2. cbv zeta. unfold scalar, utf8. split; [lia|]. zcases; try lia. repeat f_equal; lia.
Qed.
Lemma utf8_4 a b d e : 240 <= a < 245 -> 128 <= b < 192 -> 128 <= d < 192 -> 128 <= e < 192 ->
  (a = 240 -> 144 <= b) -> (a = 244 -> b < 144) ->
  let c := (a - 240) * 262144 + (b - 128) * 4096 + (d - 128) * 64 + (e - 128) in scalar c /\ utf8 c = [a; b; d; e].
Proof.
  intros Ha Hb Hd He H1 H2. cbv zeta. unfold scalar, utf8. split; [lia|]. zcases; try lia. repeat f_equal; lia.
Qed.

(** [skip_utf8_char] passes over one encoded character, if there is one. *)
Lemma skip_utf8_char_sound s :
  String.skip_utf8_char s = s \/ exists c, scalar c /\ s = utf8 c ++ String.skip_utf8_char s.
Proof.
  destruct s as [|a s]; [by left|]. cbn [String.skip_utf8_char].
  destruct (Z.ltb_spec 0 a), (Z.ltb_spec a 128); cbn [andb];
    [right; destruct (utf8_1 a) as [Hsc He]; [lia|]; exists a; split; [done|]; by rewrite He| | |lia];
    (destruct (Z.ltb_spec a 194); [by left|]); [|lia].
  destruct (Z.ltb_spec a 224); [|destruct (Z.ltb_spec a 240); [|destruct (Z.ltb_spec a 245); [|by left]]].
  - destruct s as [|b s]; [by left|]. destruct (String.cont b) eqn:Hb; [|by left]. apply cont_iff in Hb.
    right. destruct (utf8_2 a b) as [Hsc He]; [lia..|]. eexists. split; [exact Hsc|]. by rewrite He.
  - destruct s as [|b [|d s]]; [by left..|]. destruct (_ && _ && _ && _) eqn:Hc; [|by left].
    rewrite !andb_true_iff, !cont_iff, !orb_true_iff, !negb_true_iff, !Z.eqb_neq, Z.leb_le, Z.ltb_lt in Hc.
    right. destruct (utf8_3 a b d) as [Hsc He]; [lia..|]. eexists. split; [exact Hsc|]. by rewrite He.
  - destruct s as [|b [|d [|f s]]]; [by left..|]. destruct (_ && _ && _ && _ && _) eqn:Hc; [|by left].
    rewrite !andb_true_iff, !cont_iff, !orb_true_iff, !negb_true_iff, !Z.eqb_neq, Z.leb_le, Z.ltb_lt in Hc.
    right. destruct (utf8_4 a b d f) as [Hsc He]; [lia..|]. eexists. split; [exact Hsc|]. by rewrite He.
Qed.
Lemma skip_utf8_char_complete c s : scalar c -> String.skip_utf8_char (utf8 c ++ s) = s.
Proof.
  intros [Hc Hs]. assert (forall x, String.cont (128 + x mod 64) = true) as Hcont by (intros; apply cont_iff; lia).
  unfold utf8. zcases; cbn [app String.skip_utf8_char]; rewrite ?Hcont.
  - by destruct (Z.ltb_spec 0 c), (Z.ltb_spec c 128); cbn [andb]; try lia.
  - set (a := 192 + c / 64). assert (194 <= a < 224) by (unfold a; lia). clearbody a.
    destruct (Z.ltb_spec 0 a), (Z.ltb_spec a 128), (Z.ltb_spec a 194), (Z.ltb_spec a 224); cbn [andb]; try lia; done.
  - set (a := 224 + c / 4096). set (b := 128 + (c / 64) mod 64).
    assert (224 <= a < 240 /\ (a = 224 -> 160 <= b) /\ (a = 237 -> b < 160)) as (Ha & Hlow & Hhigh) by (unfold a, b; lia).
    clearbody a b. zcases; cbn [andb orb negb]; try lia; done.
  - set (a := 240 + c / 262144). set (b := 128 + (c / 4096) mod 64).
    assert (240 <= a < 245 /\ (a = 240 -> 144 <= b) /\ (a = 244 -> b < 144)) as (Ha & Hlow & Hhigh) by (unfold a, b; lia).
    clearbody a b. zcases; cbn [andb orb negb]; try lia; done.
Qed.

(** * [append_utf8] *)
Lemma lor_add k a x : 0 <= k -> 0 <= x < 2 ^ k -> a mod 2 ^ k = 0 -> Z.lor a x = a + x.
Proof.
  intros Hk Hx Ha. pose proof (add_lor_fields k x (a / 2 ^ k) Hk Hx) as H.
  rewrite Z.shiftl_mul_pow2, (Z.mul_comm (a / 2 ^ k)) in H by done.
  rewrite <- (proj2 (Z.div_exact a (2 ^ k) ltac:(lia)) Ha) in H. rewrite Z.lor_comm, <- H. lia.
Qed.
Lemma lead_byte k a x : 0 <= k -> 0 <= x < 2 ^ k -> a mod 2 ^ k = 0 -> 0 <= a -> a + 2 ^ k <= 256 ->
  uwrap 8 (Z.lor a x) = a + x.
Proof. intros Hk Hx Hm Ha Hb. rewrite (lor_add k) by done. unfold uwrap. rewrite Z.mod_small; lia. Qed.
Lemma cont_byte x : uwrap 8 (Z.lor 128 (Z.land x 63)) = 128 + x mod 64.
Proof.
  change 63 with (Z.ones 6). rewrite Z.land_ones by lia. change (2 ^ 6) with 64.
  apply (lead_byte 6); [done|change (2 ^ 6) with 64; lia|done..].
Qed.

(** [append_utf8] encodes the characters below U+800, and those from U+8000 on
    but the last two of the first plane. *)
Lemma append_utf8_right c :
  scalar c -> c < 2048 \/ 32768 <= c <= 65533 \/ 65536 <= c -> append_utf8 c = Some (utf8 c).
Proof.
  intros [Hc Hs] Hr. unfold append_utf8, append_utf8_hard, utf8. rewrite !cont_byte, !Z.shiftr_div_pow2 by lia.
  change (2 ^ 6) with 64. change (2 ^ 12) with 4096. change (2 ^ 18) with 262144.
  zcases; cbn [andb orb]; try lia; [done|..].
  - rewrite (lead_byte 5) by (done || change (2 ^ 5) with 32; lia). done.
  - rewrite (lead_byte 4) by (done || change (2 ^ 4) with 16; lia). done.
  - rewrite (lead_byte 4) by (done || change (2 ^ 4) with 16; lia). done.
  - rewrite (lead_byte 3) by (done || change (2 ^ 3) with 8; lia). done.
Qed.

(** C39: [append_utf8] appends the encoding of a character exactly when it is
    below U+800, or from U+8000 on and not one of U+FFFE and U+FFFF: the bound
    of the encodings of two bytes is 0x8000, where it should be 0x800, and the
    characters from U+800 to U+7FFF become two bytes that stand for something
    else. *)
Theorem append_utf8_iff c :
  scalar c ->
  (append_utf8 c = Some (utf8 c) <-> c < 2048 \/ 32768 <= c <= 65533 \/ 65536 <= c) /\
  (2048 <= c < 32768 -> exists a b, append_utf8 c = Some [a; b]).
Proof.
  intros Hc. assert (2048 <= c < 32768 -> exists a b, append_utf8 c = Some [a; b]) as Hw.
  { intros Hr. unfold append_utf8, append_utf8_hard. zcases; cbn [andb orb]; try lia. by eexists _, _. }
  split; [|done]. split; [|by apply append_utf8_right].
  intros Ha. destruct (Z.lt_ge_cases c 2048); [by left|]. destruct (Z.lt_ge_cases c 65536); [|lia].
  destruct (Z.lt_ge_cases c 32768) as [Hlt|Hge].
  - destruct Hw as (a & b & Hab); [lia|]. rewrite Hab in Ha. unfold utf8 in Ha.
    destruct (Z.ltb_spec c 128), (Z.ltb_spec c 2048), (Z.ltb_spec c 65536); try lia. done.
  - unfold append_utf8, append_utf8_hard in Ha.
    destruct (Z.leb_spec c 0), (Z.leb_spec c 127), (Z.ltb_spec c 32768), (Z.ltb_spec c 65536), (Z.leb_spec 55296 c),
      (Z.ltb_spec c 57344), (Z.ltb_spec 65533 c); cbn [andb orb] in Ha; lia || done || (destruct Hc; lia).
Qed.
Lemma append_utf8_iff_witness :
  scalar 8232 /\ exists a b, append_utf8 8232 = Some [a; b] /\ append_utf8 8232 <> Some (utf8 8232).
Proof.
  assert (scalar 8232) as Hs by (unfold scalar; lia). destruct (append_utf8_iff 8232 Hs) as [Hiff Hw].
  split; [exact Hs|]. destruct Hw as (a & b & H); [lia|]. exists a, b. split; [exact H|]. rewrite Hiff. lia.
Defined.

(** The table for the bytes from 0x80 to 0x9F has U+20C6 and U+20DC where
    Windows-1252 has U+02C6 and U+02DC. *)
Lemma windows1252_swapped : String.windows1252 136 = 8390 /\ String.windows1252 152 = 8412.
Proof. by split. Qed.

(** * The loops *)
Lemma between_app u s : between (u ++ s) s = u.
Proof. unfold between. rewrite length_app. apply take_app_length'. lia. Qed.
Lemma length_skip_while f s : (length (String_generic.skip_while f s) <= length s)%nat.
Proof. induction s as [|c s IH]; cbn; [done|]. destruct (f c); cbn; lia. Qed.
Lemma utf8_of_valid c : scalar c -> c < 2048 \/ 32768 <= c <= 65533 \/ 65536 <= c -> valid_utf8 (String.utf8_of c).
Proof. intros Hs Hc. unfold String.utf8_of. rewrite append_utf8_right by done. by apply valid_utf8_char. Qed.

Lemma land_15 x : Z.land x 15 = x mod 16.
Proof. change 15 with (Z.ones 4). rewrite Z.land_ones by lia. done. Qed.
Lemma land_63 x : Z.land x 63 = x mod 64.
Proof. change 63 with (Z.ones 6). rewrite Z.land_ones by lia. done. Qed.
Lemma parse_cesu8_scalar s : let p := String.parse_cesu8_char s in p <> 0 -> scalar p /\ 65536 <= p.
Proof.
  cbv zeta. unfold String.parse_cesu8_char. destruct s as [|a [|b [|c [|d [|e [|f s]]]]]]; try done.
  destruct (_ && _ && _ && _ && _ && _ && _ && _); [|done]. intros _.
  rewrite !land_15, !land_63, !Z.shiftl_mul_pow2 by lia. unfold scalar.
  change (2 ^ 16) with 65536. change (2 ^ 10) with 1024. change (2 ^ 6) with 64. lia.
Qed.

(** What the loop over [s] leaves, started at [str]: what was appended and what
    is left to append are valid, and if nothing was appended nothing was
    dropped. *)
Record well_cut (str : list Z) (r : list Z * list Z) : Prop := {
  wc_valid : valid_utf8 (snd r ++ fst r);
  wc_whole : (length (fst r) < length str)%nat \/ r = (str, []) }.

Lemma replacement_valid b : valid_utf8 (if b : bool then String.utf8_of String.u_replacement else []).
Proof. destruct b; [|apply valid_utf8_nil]. apply utf8_of_valid; unfold scalar, String.u_replacement; lia. Qed.

Lemma utf8_loop_valid str cesu8 flags fuel : forall s u sa,
  (length s < fuel)%nat -> valid_utf8 (sa ++ u) ->
  (length (u ++ s) < length str)%nat \/ (u ++ s, sa) = (str, []) ->
  exists r, String.utf8_loop fuel cesu8 flags s (u ++ s) sa = Some r /\ well_cut str r.
Proof.
  induction fuel as [|fuel IH]; intros s u sa Hf Hv Hw; [lia|]. cbn [String.utf8_loop].
  destruct s as [|c s]; [rewrite app_nil_r in *; eexists; split; [done|]; split; [done|]; cbn; naive_solver|].
  assert (forall s' v, c :: s = v ++ s' -> v <> [] -> valid_utf8 v ->
    exists r, String.utf8_loop fuel cesu8 flags s' (u ++ c :: s) sa = Some r /\ well_cut str r) as Hnext.
  { intros s' v Heq Hne Hv'. rewrite Heq, app_assoc in *. apply IH.
    - rewrite length_app in Hf. destruct v; [done|]. cbn in Hf. lia.
    - rewrite app_assoc. by apply valid_utf8_app.
    - exact Hw. }
  assert (forall s' v, (length s' < length (c :: s))%nat -> valid_utf8 v ->
    exists r, String.utf8_loop fuel cesu8 flags s' s' (sa ++ between (u ++ c :: s) (c :: s) ++ v) = Some r /\ well_cut str r) as Hcut.
  { intros s' v Hlt Hv'. rewrite between_app. apply (IH s' []); [cbn in *; lia| |].
    - rewrite app_nil_r, app_assoc. by apply valid_utf8_app.
    - left. assert (length (u ++ c :: s) <= length str)%nat by (destruct Hw as [|[= -> ->]]; lia).
      rewrite length_app in *. cbn in *. lia. }
  destruct ((0 <? c) && (c <? 127)) eqn:Hascii.
  { apply (Hnext s [c]); [done..|]. rewrite andb_true_iff, !Z.ltb_lt in Hascii.
    destruct (utf8_1 c) as [? <-]; [lia|]. by apply valid_utf8_char. }
  destruct (Nat.eqb_spec (length (String.skip_utf8_char (c :: s))) (length (c :: s))) as [He|He]; cbn [negb].
  2: { destruct (skip_utf8_char_sound (c :: s)) as [E|(d & Hd & E)]; [by rewrite E in He|].
       apply (Hnext _ (utf8 d)); [done| |by apply valid_utf8_char].
       intros E'. rewrite E' in E. cbn [app] in E. by rewrite <- E in He. }
  destruct (Z.eqb_spec (String.parse_cesu8_char (c :: s)) 0) as [Hp|Hp]; [|destruct cesu8]; cbn [negb andb];
    rewrite ?andb_false_r; try (apply (Hcut (String_generic.skip_while String.cont s)); [|apply replacement_valid];
      pose proof (length_skip_while String.cont s); cbn; lia).
  apply Hcut; [rewrite length_drop; cbn; lia|].
  destruct (parse_cesu8_scalar (c :: s) Hp). by apply utf8_of_valid; [|lia].
Qed.

Lemma utf8_loop_id cesu8 flags cs fuel : forall u sa,
  Forall scalar cs -> (length (concat (map utf8 cs)) < fuel)%nat ->
  String.utf8_loop fuel cesu8 flags (concat (map utf8 cs)) (u ++ concat (map utf8 cs)) sa =
  Some (u ++ concat (map utf8 cs), sa).
Proof.
  revert cs. induction fuel as [|fuel IH]; intros cs u sa Hcs Hf; [lia|].
  destruct Hcs as [|c cs Hc Hcs]; [done|]. cbn [map concat] in *. set (rest := concat (map utf8 cs)) in *.
  pose proof (skip_utf8_char_complete c rest Hc) as Hskip.
  assert (exists a v, utf8 c = a :: v /\ (0 < a < 128 -> v = [])) as (a & v & Ha & Hv).
  { unfold utf8. zcases; eexists _, _; (split; [done|]); try done; lia. }
  rewrite Ha in *. cbn [app] in *. cbn [String.utf8_loop].
  assert (forall x, (u ++ a :: v ++ rest, x) = ((u ++ a :: v) ++ rest, x) :> list Z * list Z) as Hassoc
    by (intros x; by rewrite <- app_assoc).
  assert (length rest < fuel)%nat by (cbn in Hf; rewrite length_app in Hf; lia).
  destruct ((0 <? a) && (a <? 127)) eqn:Hascii.
  - rewrite andb_true_iff, !Z.ltb_lt in Hascii. rewrite Hv in * by lia. cbn [app] in *.
    rewrite (app_assoc u [a] rest : u ++ a :: rest = _). by apply IH.
  - rewrite Hskip. destruct (Nat.eqb_spec (length rest) (length (a :: v ++ rest))) as [He|_];
      [cbn in He; rewrite length_app in He; lia|]. cbn [negb].
    rewrite (app_assoc u (a :: v) rest : u ++ a :: v ++ rest = _). by apply IH.
Qed.

(** C38: [utf8_to_utf8] makes valid UTF-8 of any bytes, and leaves valid UTF-8 as
    it is, but for the byte order mark that it is told to strip. *)
Theorem utf8_to_utf8_valid flags s :
  exists r, String.utf8_to_utf8 flags s = Some r /\ valid_utf8 r /\
    (valid_utf8 (String.strip_bom flags s) -> r = String.strip_bom flags s).
Proof.
  unfold String.utf8_to_utf8. set (s0 := String.strip_bom flags s).
  assert (s0 = s \/ (length s0 < length s)%nat) as Hs0.
  { unfold s0, String.strip_bom, String.skip_utf8_bom. destruct (String.has_flag _ _); [|by left].
    destruct s as [|a [|b [|c s]]]; try by left. destruct (_ && _ && _); [right; cbn; lia|by left]. }
  destruct (utf8_loop_valid s false flags (S (length s0)) s0 [] []) as ([last sa] & Hrun & [Hv Hw]); [lia|apply valid_utf8_nil| |].
  { destruct Hs0 as [->|?]; [by right|left; done]. }
  cbn [app] in Hrun. rewrite Hrun. cbn [fmap option_fmap option_map]. unfold String.finish_utf8. cbn [fst snd] in *.
  eexists. split; [done|]. split.
  - destruct (Nat.eqb_spec (length last) (length s)) as [He|He]; [|done]. destruct Hw as [?|[= -> ->]]; [lia|done].
  - intros (cs & Hcs & E). pose proof (utf8_loop_id false flags cs (S (length s0)) [] [] Hcs) as Hid.
    rewrite E in Hrun. rewrite <- E in Hid at 2 3 4. cbn [app] in Hid.
    rewrite E in Hid. rewrite Hid in Hrun by lia. injection Hrun as <- <-. rewrite <- E.
    destruct (Nat.eqb_spec (length s0) (length s)); [|done]. by destruct Hs0 as [?|?]; [|lia].
Qed.
Lemma utf8_to_utf8_valid_witness :
  exists r, String.utf8_to_utf8 1 [239; 187; 191; 65; 226; 130; 172] = Some r /\ r = [65; 226; 130; 172].
Proof.
  destruct (utf8_to_utf8_valid 1 [239; 187; 191; 65; 226; 130; 172]) as (r & Hr & _ & Hid). exists r. split; [exact Hr|].
  apply Hid. exists [65; 8364]. split; [|by vm_compute]. repeat constructor; lia.
Defined.

(** [cesu8_to_utf8] never puts in replacement characters, whatever it is told:
    by the time it asks whether the byte is 0, [c] is what [parse_cesu8_char]
    returned. *)
Lemma cesu8_ignores_replacement s : String.cesu8_to_utf8 2 s = String.cesu8_to_utf8 0 s.
Proof.
  unfold String.cesu8_to_utf8. change (String.strip_bom 2 s) with s. change (String.strip_bom 0 s) with s. f_equal.
  generalize (S (length s)) as fuel, (@nil Z) as sa. generalize s at 2 4 as last. revert s.
  intros s last fuel sa. revert s last sa. induction fuel as [|fuel IH]; intros s last sa; [done|].
  cbn [String.utf8_loop]. destruct s as [|c s]; [done|]. by rewrite !IH, !andb_false_r.
Qed.

(** * Base 64 *)
Lemma b64_table i : 0 <= i < 64 ->
  default 0 (zlookup String.base64_decoding_map (String.b64 i)) = i + 1 /\ String.b64 i <> 61.
Proof.
  assert (Forall (fun i => default 0 (zlookup String.base64_decoding_map (String.b64 i)) = i + 1 /\ String.b64 i <> 61) (seqZ 0 64)) as H
    by (by vm_compute; repeat constructor).
  intros Hi. rewrite Forall_forall in H. apply H, elem_of_seqZ. lia.
Qed.
Lemma unb64_b64 i k : 0 <= i < 64 -> 0 <= k <= 18 -> String.unb64 (String.b64 i) k = Z.shiftl i k.
Proof.
  intros Hi Hk. unfold String.unb64. rewrite (proj1 (b64_table i Hi)). replace (i + 1 - 1) with i by lia.
  unfold ushl, uwrap. rewrite (Z.mod_small i) by lia. rewrite Z.shiftl_mul_pow2 by lia. apply Z.mod_small.
  pose proof (Z.pow_le_mono_r 2 k 18). pose proof (Z.pow_pos_nonneg 2 k). change (2 ^ 18) with 262144 in *. nia.
Qed.

(** Four groups of 6 bits are 24 bits again. *)
Lemma groups x :
  Z.lor (Z.lor (Z.lor (Z.shiftl (Z.shiftr x 18) 18) (Z.shiftl (Z.land (Z.shiftr x 12) 63) 12))
    (Z.shiftl (Z.land (Z.shiftr x 6) 63) 6)) (Z.land x 63) = x.
Proof.
  change 63 with (Z.ones 6). apply Z.bits_inj'. intros n Hn. zbits.
Qed.

Lemma six x k : 0 <= Z.land (Z.shiftr x k) 63 < 64.
Proof. rewrite land_63. lia. Qed.
Lemma pack24 a b c : in_u 8 a -> in_u 8 b -> in_u 8 c ->
  let x := Z.lor (Z.lor (Z.shiftl a 16) (Z.shiftl b 8)) c in
  x = a * 65536 + b * 256 + c /\ 0 <= Z.shiftr x 18 < 64 /\ (swrap 32 x <? 0) = false /\
  uwrap 8 (Z.shiftr x 16) = a /\ uwrap 8 (Z.shiftr x 8) = b /\ uwrap 8 x = c.
Proof.
  unfold in_u. change (2 ^ 8) with 256. intros Ha Hb Hc. cbv zeta.
  rewrite !Z.shiftl_mul_pow2 by lia. change (2 ^ 16) with 65536. change (2 ^ 8) with 256.
  rewrite (lor_add 16 (a * 65536) (b * 256)) by (change (2 ^ 16) with 65536; lia).
  rewrite (lor_add 8 _ c) by (change (2 ^ 8) with 256; lia).
  set (x := a * 65536 + b * 256 + c). rewrite !Z.shiftr_div_pow2 by lia. unfold swrap, uwrap.
  change (2 ^ 18) with 262144. change (2 ^ (32 - 1)) with 2147483648. change (2 ^ 32) with 4294967296.
  change (2 ^ 16) with 65536. change (2 ^ 8) with 256. unfold x. split; [done|]. split; [lia|]. split; [apply Z.ltb_ge; lia|].
  split_and!; lia.
Qed.

Lemma decode_encode s : bytes s -> String.decode_quads (String.encode_base64 false s) = Some s.
Proof.
  remember (length s) as n eqn:Hn. assert (length s <= n)%nat as Hle by lia. clear Hn. revert s Hle.
  induction n as [|n IH]; intros s Hle Hs; [by destruct s; [|cbn in Hle; lia]|].
  destruct s as [|a [|b [|c s]]]; [done|..]; unfold bytes in Hs; rewrite !Forall_cons in Hs; destruct_and? Hs.
  - destruct (pack24 a 0 0) as (Hx & H18 & Hpos & H16 & H8 & Hlow); [done|by vm_compute..|].
    rewrite Z.shiftl_0_l, !Z.lor_0_r in *. cbn [String.encode_base64 String.decode_quads app].
    rewrite !unb64_b64 by (apply six || lia). rewrite !Z.lor_0_r.
    assert (Z.lor (Z.shiftl (Z.shiftr (Z.shiftl a 16) 18) 18) (Z.shiftl (Z.land (Z.shiftr (Z.shiftl a 16) 12) 63) 12) = Z.shiftl a 16) as ->.
    { rewrite <- (groups (Z.shiftl a 16)) at 3. change 63 with (Z.ones 6). apply Z.bits_inj'. intros n' Hn'. zbits. }
    by rewrite Hpos, H16.
  - destruct (pack24 a b 0) as (Hx & H18 & Hpos & H16 & H8 & Hlow); [done|done|by vm_compute|].
    rewrite !Z.lor_0_r in *. cbn [String.encode_base64 String.decode_quads app].
    rewrite !unb64_b64 by (apply six || lia).
    set (x := Z.lor (Z.shiftl a 16) (Z.shiftl b 8)) in *.
    assert (Z.lor (Z.lor (Z.shiftl (Z.shiftr x 18) 18) (Z.shiftl (Z.land (Z.shiftr x 12) 63) 12)) (Z.shiftl (Z.land (Z.shiftr x 6) 63) 6) = x) as ->.
    { rewrite <- (groups x) at 4. assert (Z.land x 63 = 0) as -> by (rewrite land_63, Hx; lia). by rewrite Z.lor_0_r. }
    by rewrite Hpos, H16, H8.
  - destruct (pack24 a b c) as (Hx & H18 & Hpos & H16 & H8 & Hlow); [done..|]. cbn [String.encode_base64 String.decode_quads].
    set (x := Z.lor (Z.lor (Z.shiftl a 16) (Z.shiftl b 8)) c) in *.
    rewrite !unb64_b64 by (apply six || lia || apply (six x 0)). rewrite (Z.shiftl_0_r (Z.land x 63)), groups, Hpos, H16, H8, Hlow.
    rewrite IH; [done|cbn in Hle; lia|done].
Qed.

(** The encoding has no '=' but the padding at the end. *)
Lemma encode_padding pad s : bytes s ->
  Forall (fun c => c <> 61) (String.encode_base64 false s) /\
  exists k, String.encode_base64 pad s = String.encode_base64 false s ++ repeat 61 k.
Proof.
  remember (length s) as n eqn:Hn. assert (length s <= n)%nat as Hle by lia. clear Hn. revert s Hle.
  induction n as [|n IH]; intros s Hle Hs; [destruct s; [|cbn in Hle; lia]; split; [constructor|by exists 0%nat]|].
  assert (forall x k, String.b64 (Z.land (Z.shiftr x k) 63) <> 61) as H6 by (intros; apply b64_table, six).
  assert (forall x, String.b64 (Z.land x 63) <> 61) as H6' by (intros x; exact (H6 x 0)).
  destruct s as [|a [|b [|c s]]]; [split; [constructor|by exists 0%nat]|..]; unfold bytes in Hs; rewrite !Forall_cons in Hs; destruct_and? Hs;
    cbn [String.encode_base64].
  - destruct (pack24 a 0 0) as (_ & Hr & _); [done|by vm_compute..|]. rewrite Z.shiftl_0_l, !Z.lor_0_r in Hr.
    split; [repeat constructor; [by apply b64_table|apply H6]|]. exists (if pad then 2%nat else 0%nat). by destruct pad.
  - destruct (pack24 a b 0) as (_ & Hr & _); [done|done|by vm_compute|]. rewrite !Z.lor_0_r in Hr.
    split; [repeat constructor; [by apply b64_table|apply H6..]|]. exists (if pad then 1%nat else 0%nat). by destruct pad.
  - destruct (pack24 a b c) as (_ & Hr & _); [done..|]. destruct (IH s) as [Hf (k & Hk)]; [cbn in Hle; lia|done|].
    split; [|exists k; by rewrite Hk]. repeat (apply Forall_cons; split); [by apply b64_table|apply H6|apply H6|apply H6'|done].
Qed.
Lemma strip_padding t k : Forall (fun c => c <> 61) t ->
  reverse (String_generic.skip_while (Z.eqb 61) (reverse (t ++ repeat 61 k))) = t.
Proof.
  intros Ht. rewrite reverse_app. assert (reverse (repeat 61 k) = repeat 61 k) as ->.
  { induction k as [|k IH]; [done|]. cbn [repeat]. rewrite reverse_cons, IH, <- repeat_cons. done. }
  assert (forall u, String_generic.skip_while (Z.eqb 61) (repeat 61 k ++ u) = String_generic.skip_while (Z.eqb 61) u) as ->
    by (intros u; induction k as [|k IH]; [done|exact IH]).
  destruct t as [|c t _] using rev_ind; [done|]. apply Forall_app in Ht as [_ Hc]. rewrite Forall_singleton in Hc.
  rewrite reverse_snoc. cbn [String_generic.skip_while]. destruct (Z.eqb_spec 61 c) as [<-|]; [done|].
  by rewrite reverse_cons, reverse_involutive.
Qed.

(** C40: Decoding a base 64 encoding, padded or not, gives the bytes back. *)
Theorem base64_roundtrip pad s : bytes s -> String.decode_base64 (String.encode_base64 pad s) = Some s.
Proof.
  intros Hs. destruct (encode_padding pad s Hs) as [Hf (k & ->)]. unfold String.decode_base64.
  rewrite strip_padding by done. by apply decode_encode.
Qed.
Lemma base64_roundtrip_witness :
  bytes [77; 97; 255; 0] /\ String.decode_base64 (String.encode_base64 true [77; 97; 255; 0]) = Some [77; 97; 255; 0].
Proof.
  assert (bytes [77; 97; 255; 0]) as H by (repeat constructor; unfold in_u; lia).
  split; [exact H|]. exact (base64_roundtrip true _ H).
Defined.

(** * Natural comparison *)
(** [natural_compare] is no order: of "1.02" and "1.2" each comes before the
    other, since after a decimal point it asks whether the numbers of leading
    zeros differ, and not which is larger. *)
Theorem natural_compare_asymmetric :
  String_generic.natural_compare [49; 46; 48; 50] [49; 46; 50] = Some (-1) /\
  String_generic.natural_compare [49; 46; 50] [49; 46; 48; 50] = Some (-1).
Proof. by split; vm_compute. Qed.

(** * Printable strings *)
(** A string of printable characters stays as it is, quotes and backslashes included, also for the type that quotes
    them elsewhere. *)
Lemma printable_unquoted s type : Forall (fun c => 32 <= c <= 126) s -> String.printable s type = s.
Proof.
  intros Hs. unfold String.printable.
  assert (H : String.split_at (fun c => (c <? 32) || (126 <? c)) s = (s, [])); [|by rewrite H].
  induction Hs as [|c s Hc Hs IH]; [done|]. cbn.
  destruct (Z.ltb_spec c 32), (Z.ltb_spec 126 c); try lia. cbn. by rewrite IH.
Qed.
