(* ===== verification/GlobSpec.v ===== *)
(** Glob patterns, [String_generic::glob_match] of [src/string.cc]: the
    simulation of all states at once, after a comparison of the suffixes,
    answers as the relation that reads the pattern from the left. *)
From S2P Require Import Prelude Compiler Memory Strings.
Import String_generic.

(** * The language of a pattern *)
(** What follows the bracket that opens a class, as the code reads it: a caret negates; the next character belongs to no
    member; the members are the characters from there to the first closing bracket. *)
Inductive class_of : list Z -> bool -> list Z -> list Z -> Prop :=
  | class_plain x members p : x <> 94 -> 93 ∉ members -> class_of (x :: members ++ 93 :: p) false members p
  | class_negated x members p : 93 ∉ members -> class_of (94 :: x :: members ++ 93 :: p) true members p.
(** The closing bracket counts as a member. *)
Definition in_class (negated : bool) (members : list Z) (c : Z) : Prop :=
  if negated then c <> 93 /\ c ∉ members else c = 93 \/ c ∈ members.
#[global] Instance in_class_dec negated members c : Decision (in_class negated members c).
Proof. destruct negated; cbn; apply _. Defined.
(** The first element of a pattern, not a star, takes [c], and leaves a pattern. *)
Inductive takes : Z -> list Z -> list Z -> Prop :=
  | takes_any c p : takes c (63 :: p) p
  | takes_quoted c p : takes c (92 :: c :: p) p
  | takes_backslash : takes 92 [92] []
  | takes_class c p negated members rest :
      class_of p negated members rest -> in_class negated members c -> takes c (91 :: p) rest
  | takes_bracket p : (forall negated members rest, ~ class_of p negated members rest) -> takes 91 (91 :: p) p
  | takes_char c p : c <> 42 -> c <> 63 -> c <> 91 -> c <> 92 -> takes c (c :: p) p.
Inductive glob : list Z -> list Z -> Prop :=
  | glob_end : glob [] []
  | glob_none p s : glob p s -> glob (42 :: p) s
  | glob_more p c s : glob (42 :: p) s -> glob (42 :: p) (c :: s)
  | glob_takes p p' c s : takes c p p' -> glob p' s -> glob p (c :: s).

(** * The search through a class *)
Lemma class_loop_members c p members : 93 ∉ members -> forall f,
  class_loop c (members ++ 93 :: p) f = Some (f || bool_decide (c = 93 \/ c ∈ members), p).
Proof.
  induction members as [|y m IH]; intros Hm f; cbn [class_loop app].
  all: try change (93 =? 93) with true; cbv iota.
  - do 3 f_equal. apply eq_true_iff_eq. rewrite bool_decide_eq_true, Z.eqb_eq, elem_of_nil. naive_solver.
  - rewrite not_elem_of_cons in Hm. destruct Hm as [Hy Hm].
    destruct (Z.eqb_spec y 93) as [->|_]; [done|]. rewrite IH by done.
    do 2 f_equal. rewrite <- orb_assoc. f_equal. apply eq_true_iff_eq.
    rewrite orb_true_iff, !bool_decide_eq_true, Z.eqb_eq, elem_of_cons. naive_solver.
Qed.
Lemma class_loop_closed c p : forall f r, class_loop c p f = Some r ->
  exists members rest, p = members ++ 93 :: rest /\ 93 ∉ members.
Proof.
  induction p as [|y p IH]; intros f r; cbn; [done|]. destruct (Z.eqb_spec y 93) as [->|Hy].
  - intros _. exists [], p. split; [done|]. apply not_elem_of_nil.
  - intros (m & rest & -> & Hm)%IH. exists (y :: m), rest. split; [done|]. by rewrite not_elem_of_cons.
Qed.
Lemma class_search_members c negated x members p : 93 ∉ members ->
  class_search c negated (x :: members ++ 93 :: p) =
  Some (if decide (in_class negated members c) then Some p else None).
Proof.
  intros Hm. cbn. rewrite class_loop_members by done. cbn.
  destruct negated; cbn; case_bool_decide; case_decide; naive_solver.
Qed.
Lemma class_match_of p negated members rest c : class_of p negated members rest ->
  class_match c p = Some (if decide (in_class negated members c) then Some rest else None).
Proof.
  intros [x m p' Hx Hm|x m p' Hm]; cbn [class_match].
  - apply Z.eqb_neq in Hx as ->. by apply class_search_members.
  - change (94 =? 94) with true. by apply class_search_members.
Qed.
Lemma class_closed c p r : class_match c p = Some r -> exists negated members rest, class_of p negated members rest.
Proof.
  intros E. assert (Hs : forall n ec, class_search c n ec = Some r ->
    exists x members rest, ec = x :: members ++ 93 :: rest /\ 93 ∉ members).
  { intros n [|x ec]; cbn; [done|]. destruct (class_loop c ec false) as [[f r']|] eqn:El; [|done].
    intros _. apply class_loop_closed in El as (m & rest & -> & Hm). by exists x, m, rest. }
  destruct p as [|y p]; [by cbn in E|]. cbn [class_match] in E. destruct (Z.eqb_spec y 94) as [->|Hy].
  - apply Hs in E as (x & m & rest & -> & Hm). by eexists _, _, _; apply class_negated.
  - apply Hs in E as (x & m & rest & [= <- ->] & Hm). by eexists _, _, _; apply class_plain.
Qed.
Lemma class_match_open p c : class_match c p = None <-> forall negated members rest, ~ class_of p negated members rest.
Proof.
  split; [intros H n m r Hc; by rewrite (class_match_of _ _ _ _ c Hc) in H|]. intros H.
  destruct (class_match c p) as [r|] eqn:E; [|done]. apply class_closed in E as (n & m & rest & Hc). by apply H in Hc.
Qed.

(** What is left of a pattern when its first element, not a star, takes [c]. *)
Definition one (c : Z) (p : list Z) : option (list Z) :=
  match p with
  | [] => None
  | x :: p =>
      if x =? 42 then None
      else if x =? 63 then Some p
      else if x =? 92 then
        match p with
        | y :: p' => if y =? c then Some p' else None
        | [] => if x =? c then Some p else None
        end
      else if x =? 91 then
        match class_match c p with
        | Some r => r
        | None => if x =? c then Some p else None
        end
      else if x =? c then Some p else None
  end.
Inductive run : list Z -> list Z -> Prop :=
  | run_end : run [] []
  | run_skip p s : run p s -> run (42 :: p) s
  | run_eat p c s : run (42 :: p) s -> run (42 :: p) (c :: s)
  | run_one p p' c s : one c p = Some p' -> run p' s -> run p (c :: s).

Lemma run_star p s : run (42 :: p) s <-> run p s \/ exists c s', s = c :: s' /\ run (42 :: p) s'.
Proof.
  split.
  - intros H. inversion H; subst; [by left|right; eauto|]. done.
  - intros [H|(c & s' & -> & H)]; by constructor.
Qed.
Lemma run_cons p c s : head p <> Some 42 -> run p (c :: s) <-> exists p', one c p = Some p' /\ run p' s.
Proof.
  intros Hp. split.
  - intros H. inversion H; subst; try done. eauto.
  - intros (p' & H & H'). by econstructor.
Qed.
Lemma run_any s : run [42] s.
Proof. induction s; [repeat constructor|by apply run_eat]. Qed.

(** * The suffix *)
Lemma class_loop_snoc c x : x <> 93 -> forall p found,
  class_loop c (p ++ [x]) found = (fun '(f, r) => (f, r ++ [x])) <$> class_loop c p found.
Proof.
  intros Hx. induction p as [|y p IH]; intros found; cbn.
  - by destruct (Z.eqb_spec x 93).
  - by destruct (y =? 93).
Qed.
Lemma class_search_snoc c neg ec x : x <> 93 -> ec <> [] ->
  class_search c neg (ec ++ [x]) = option_map (option_map (fun r => r ++ [x])) (class_search c neg ec).
Proof.
  intros Hx Hec. destruct ec as [|z ec]; [done|]. cbn. rewrite class_loop_snoc by done.
  destruct (class_loop c ec false) as [[f r]|]; [|done]. cbn. by destruct (eqb f (negb neg)).
Qed.
Lemma class_match_snoc c p x : x <> 93 ->
  class_match c (p ++ [x]) = option_map (option_map (fun r => r ++ [x])) (class_match c p).
Proof.
  intros Hx. destruct p as [|y p]; cbn [app class_match].
  - by destruct (x =? 94).
  - destruct (y =? 94); [|by apply (class_search_snoc c false (y :: p))].
    destruct p as [|z p]; [done|]. by apply (class_search_snoc c true (z :: p)).
Qed.

(** A character that is compared with the end of the string. *)
Definition plain_end (p : list Z) (x : Z) : Prop := x <> 42 /\ x <> 63 /\ x <> 93 /\ last p <> Some 92.
Lemma one_snoc c x p : plain_end p x -> p <> [] -> one c (p ++ [x]) = (fun r => r ++ [x]) <$> one c p.
Proof.
  intros (H1 & H2 & H3 & H4) Hp. destruct p as [|y p]; [done|]. cbn [app one].
  destruct (y =? 42); [done|]. destruct (y =? 63); [done|].
  destruct (Z.eqb_spec y 92) as [->|Hy].
  - destruct p as [|z p]; [done|]. cbn. by destruct (z =? c).
  - destruct (y =? 91).
    + rewrite class_match_snoc by done. destruct (class_match c p) as [[r|]|]; cbn; try done. by destruct (y =? c).
    + by destruct (y =? c).
Qed.
Lemma one_plain c x : plain_end [] x -> one c [x] = if x =? c then Some [] else None.
Proof.
  intros (H1 & H2 & H3 & _). cbn. destruct (Z.eqb_spec x 42), (Z.eqb_spec x 63); try done.
  destruct (x =? 92); [done|]. by destruct (x =? 91).
Qed.
Lemma class_loop_suffix c p : forall f f' r, class_loop c p f = Some (f', r) -> suffix r p.
Proof.
  induction p as [|z p IH]; intros f f' r; cbn; [done|]. destruct (z =? 93).
  - intros [= _ <-]. by apply suffix_cons_r.
  - intros Hr%IH. by apply suffix_cons_r.
Qed.
Lemma class_match_suffix c p r : class_match c p = Some (Some r) -> suffix r p.
Proof.
  assert (Hs : forall neg ec, class_search c neg ec = Some (Some r) -> suffix r ec).
  { intros neg [|z ec]; cbn; [done|].
    destruct (class_loop c ec false) as [[f r']|] eqn:E; [|done]. destruct (eqb f (negb neg)); [|done].
    intros [= <-]. apply suffix_cons_r. by eapply class_loop_suffix. }
  destruct p as [|y p]; cbn [class_match]; [by intros ?%Hs|].
  destruct (y =? 94); [|by intros ?%Hs]. intros ?%Hs. by apply suffix_cons_r.
Qed.
Lemma one_suffix c p p' : one c p = Some p' -> exists x q, p = x :: q /\ suffix p' q.
Proof.
  intros H. destruct p as [|x p]; [done|]. exists x, p. split; [done|]. revert H. cbn.
  destruct (x =? 42); [done|]. destruct (x =? 63); [by intros [= <-]|]. destruct (x =? 92).
  { destruct p as [|y p]; [|destruct (y =? c); [|done]]; [by destruct (x =? c); intros; simplify_eq|].
    intros [= <-]. by apply suffix_cons_r. }
  destruct (x =? 91); [|by destruct (x =? c); intros; simplify_eq].
  destruct (class_match c p) as [[r|]|] eqn:E; [|done|by destruct (x =? c); intros; simplify_eq].
  intros [= <-]. by eapply class_match_suffix.
Qed.
Lemma plain_end_suffix p p' x : plain_end p x -> suffix p' p -> plain_end p' x.
Proof.
  intros (H1 & H2 & H3 & Hl) [q ->]. split_and!; try done. intros Hp'. apply Hl. rewrite last_app. by rewrite Hp'.
Qed.
Lemma plain_end_one c p p' x : plain_end p x -> one c p = Some p' -> plain_end p' x.
Proof.
  intros Hp (y & q & -> & Hq)%one_suffix. eapply plain_end_suffix; [done|]. by apply suffix_cons_r.
Qed.

Lemma run_suffix p s x : plain_end p x -> run (p ++ [x]) s <-> exists s', s = s' ++ [x] /\ run p s'.
Proof.
  intros Hx. split.
  - intros H. remember (p ++ [x]) as px eqn:E. revert p Hx E.
    induction H as [|p0 s H IH|p0 c s H IH|p0 p' c s Ho H IH]; intros p Hx E.
    + by destruct p.
    + destruct p as [|y p]; cbn in E; injection E as <- ->; [by destruct Hx|].
      destruct (IH p) as (s' & -> & Hg); [by eapply plain_end_suffix; [|apply suffix_cons_r]|done|].
      exists s'. split; [done|]. by constructor.
    + destruct (IH p Hx E) as (s' & -> & Hg). exists (c :: s'). split; [done|].
      destruct p as [|y p]; cbn in E; injection E as <- ->; [by destruct Hx|]. by apply run_eat.
    + subst p0. destruct p as [|y p].
      * cbn [app] in Ho. rewrite one_plain in Ho by done.
        destruct (Z.eqb_spec x c); [|done]. simplify_eq. inversion H; subst; [|done].
        exists []. split; [done|]. constructor.
      * rewrite one_snoc in Ho by done. destruct (one c (y :: p)) as [r|] eqn:Er; [|done]. cbn in Ho. simplify_eq.
        destruct (IH r) as (s' & -> & Hg); [by eapply plain_end_one|done|].
        exists (c :: s'). split; [done|]. by eapply run_one.
  - intros (s' & -> & H). revert Hx. induction H as [|p0 s H IH|p0 c s H IH|p0 p' c s Ho H IH]; intros Hx.
    + eapply run_one; [|constructor]. cbn [app]. rewrite one_plain by done. by rewrite Z.eqb_refl.
    + cbn. constructor. apply IH. by eapply plain_end_suffix; [|apply suffix_cons_r].
    + cbn. apply run_eat. by apply IH.
    + cbn. eapply run_one.
      * rewrite one_snoc; [by rewrite Ho|done|]. by intros ->.
      * apply IH. by eapply plain_end_one.
Qed.

(** * The states *)
Definition some_run (state : list (list Z)) (s : list Z) : Prop := exists p, p ∈ state /\ run p s.
Lemma some_run_push state p s : some_run (push state p) s <-> some_run state s \/ run p s.
Proof.
  unfold some_run, push. setoid_rewrite elem_of_app. setoid_rewrite list_elem_of_singleton. naive_solver.
Qed.
Lemma normal_char_spec c x p ns s :
  some_run (normal_char c x p ns) s <-> some_run ns s \/ exists p', (if x =? c then Some p else None) = Some p' /\ run p' s.
Proof. unfold normal_char. destruct (x =? c); rewrite ?some_run_push; naive_solver. Qed.
Lemma not_star x p : x =? 42 = false -> head (x :: p) <> Some 42.
Proof. intros Hx%Z.eqb_neq. cbn. congruence. Qed.

(** Suffixes of one string of the same length are equal. *)
Lemma suffix_same (p q P : list Z) : suffix p P -> suffix q P -> length p = length q -> p = q.
Proof.
  intros [a Ha] [b Hb] Hl. rewrite Ha in Hb. by apply app_inj_2 in Hb as [_ ->].
Qed.
Lemma run_star_cons p c s : run (42 :: p) (c :: s) <-> run p (c :: s) \/ run (42 :: p) s.
Proof.
  rewrite run_star. split; [|naive_solver]. intros [H|(c' & s' & [= <- <-] & H)]; [by left|by right].
Qed.
Lemma push_star P pp ns s : suffix pp P -> Forall (fun p => suffix p P) ns ->
  let ns' := match last ns with
             | Some q => if (length q =? length pp)%nat then ns else push ns pp
             | None => push ns pp
             end in
  Forall (fun p => suffix p P) ns' /\ (some_run ns' s <-> some_run ns s \/ run pp s).
Proof.
  intros Hpp Hns ns'.
  assert (Hpush : Forall (fun p => suffix p P) (push ns pp)) by (apply Forall_app; by repeat constructor).
  subst ns'. destruct (last ns) as [q|] eqn:Eq; [|by rewrite some_run_push].
  destruct (Nat.eqb_spec (length q) (length pp)) as [El|]; [|by rewrite some_run_push].
  split; [done|]. apply last_Some in Eq as [l ->]. apply Forall_app in Hns as [_ Hq%Forall_inv].
  rewrite (suffix_same _ _ _ Hq Hpp El). change (l ++ [pp]) with (push l pp). rewrite some_run_push. tauto.
Qed.

(** The states that come from one pattern, in front of which are those of others,
    all suffixes of the same pattern. *)
Lemma glob_switch_spec c P s : forall pp ns, suffix pp P -> Forall (fun p => suffix p P) ns ->
  match glob_switch c pp ns with
  | None => run pp (c :: s)
  | Some ns' => Forall (fun p => suffix p P) ns' /\ (some_run ns' s <-> some_run ns s \/ run pp (c :: s))
  end.
Proof.
  assert (Hone : forall pp ns ns', suffix pp P -> Forall (fun p => suffix p P) ns -> head pp <> Some 42 ->
    (exists p, one c pp = Some p /\ ns' = push ns p) \/ one c pp = None /\ ns' = ns ->
    Forall (fun p => suffix p P) ns' /\ (some_run ns' s <-> some_run ns s \/ run pp (c :: s))).
  { intros pp ns ns' Hpp Hns Hh [(p & Ho & ->)|[Ho ->]]; (split; [|rewrite run_cons by done]).
    - apply Forall_app. split; [done|]. constructor; [|done]. apply one_suffix in Ho as (y & q & -> & Hq).
      etrans; [exact Hq|]. etrans; [|exact Hpp]. by apply suffix_cons_r.
    - rewrite some_run_push, Ho. naive_solver.
    - done.
    - rewrite Ho. naive_solver. }
  assert (Hchar : forall y (p : list Z) ns,
    (exists q, (if y =? c then Some p else None) = Some q /\ normal_char c y p ns = push ns q) \/
    (if y =? c then Some p else None) = None /\ normal_char c y p ns = ns).
  { intros y p ns. unfold normal_char. destruct (y =? c); eauto. }
  induction pp as [|x p IH]; intros ns Hpp Hns; cbn [glob_switch].
  { apply Hone; [done..|]. by right. }
  destruct (Z.eqb_spec x 63) as [->|H63]; [apply Hone; [done..|]; left; by exists p|].
  destruct (Z.eqb_spec x 42) as [->|H42].
  { destruct (decide (p = [])) as [->|Hp]; [apply run_any|].
    destruct (push_star P (42 :: p) ns s Hpp Hns) as [Hns' Hs].
    destruct p as [|y p]; [done|]. specialize (IH _ ltac:(etrans; [|exact Hpp]; by apply suffix_cons_r) Hns').
    destruct (glob_switch c (y :: p) _) as [ns2|]; [|by apply run_star_cons; left].
    destruct IH as [H1 ->]. split; [done|]. rewrite Hs, run_star_cons. tauto. }
  assert (Hx : head (x :: p) <> Some 42) by (cbn; congruence).
  assert (Eone : x =? 42 = false /\ x =? 63 = false) by (split; by apply Z.eqb_neq). destruct Eone as [E42 E63].
  destruct (Z.eqb_spec x 92) as [->|H92].
  { apply Hone; [done..|]. destruct p as [|y p]; [apply (Hchar 92 [] ns)|apply (Hchar y p ns)]. }
  assert (E92 : x =? 92 = false) by (by apply Z.eqb_neq).
  destruct (x =? 91) eqn:E91; apply Hone; try done; cbn; rewrite E42, E63, E92, E91; [|apply Hchar].
  destruct (class_match c p) as [[r|]|]; [left; by exists r|by right|apply Hchar].
Qed.
Lemma glob_states_spec c P s : forall state ns, Forall (fun p => suffix p P) state -> Forall (fun p => suffix p P) ns ->
  match glob_states c state ns with
  | None => some_run state (c :: s)
  | Some ns' => Forall (fun p => suffix p P) ns' /\ (some_run ns' s <-> some_run ns s \/ some_run state (c :: s))
  end.
Proof.
  assert (Hcons : forall pp state t, some_run (pp :: state) t <-> run pp t \/ some_run state t).
  { intros pp state t. unfold some_run. setoid_rewrite elem_of_cons. naive_solver. }
  induction state as [|pp state IH]; intros ns Hst Hns; cbn.
  - split; [done|]. split; [by left|]. intros [H|(p & Hp & _)]; [done|]. by apply not_elem_of_nil in Hp.
  - apply Forall_cons in Hst as [Hpp Hst]. pose proof (glob_switch_spec c P s pp ns Hpp Hns) as H.
    destruct (glob_switch c pp ns) as [ns'|]; [|by apply Hcons; left].
    destruct H as [Hns' Hs]. specialize (IH ns' Hst Hns').
    destruct (glob_states c state ns') as [ns2|]; [|by apply Hcons; right].
    destruct IH as [H2 ->]. split; [done|]. rewrite Hs, Hcons. tauto.
Qed.
Lemma run_nil p : run p [] <-> skip_while (Z.eqb 42) p = [].
Proof.
  induction p as [|x p IH]; [split; [done|constructor]|]. cbn [skip_while].
  destruct (Z.eqb_spec 42 x) as [<-|Hx].
  - rewrite run_star, IH. split; [|by left]. by intros [H|(c & s & ? & _)].
  - split; [|by intros]. intros H. inversion H; subst; done.
Qed.
Lemma glob_loop_spec P s : forall state, Forall (fun p => suffix p P) state ->
  glob_loop s state = true <-> some_run state s.
Proof.
  induction s as [|c s IH]; intros state Hst.
  - replace (glob_loop [] state) with
      (existsb (fun pp => match skip_while (Z.eqb 42) pp with [] => true | _ => false end) state) by (by destruct state).
    rewrite existsb_exists. unfold some_run. apply exist_proper. intros p. rewrite list_elem_of_In, run_nil.
    destruct (skip_while (Z.eqb 42) p); naive_solver.
  - destruct state as [|pp state].
    { cbn. split; [done|]. intros (p & Hp & _). by apply not_elem_of_nil in Hp. }
    cbn [glob_loop]. pose proof (glob_states_spec c P s (pp :: state) [] Hst (Forall_nil_2 _)) as H.
    destruct (glob_states c (pp :: state) []) as [st|]; [|by split].
    destruct H as [Hst' Hs]. rewrite IH, Hs by done. split; [|by right].
    intros [(p & Hp & _)|H]; [by apply not_elem_of_nil in Hp|done].
Qed.

(** * The whole match *)
Lemma strip_suffix_spec p : forall s,
  match strip_suffix p s with
  | None => ~ run (reverse p) (reverse s)
  | Some (p', s') => run (reverse p) (reverse s) <-> run (reverse p') (reverse s')
  end.
Proof.
  induction p as [|x p IH]; intros s; [done|]. destruct s as [|y s]; [done|]. cbn [strip_suffix].
  destruct (negb (x =? 42) && _ && _ && _) eqn:E; [|done].
  apply andb_true_iff in E as [E H4]. rewrite !andb_true_iff, !negb_true_iff, !Z.eqb_neq in E. destruct E as [[H1 H2] H3].
  assert (Hx : plain_end (reverse p) x).
  { split_and!; try done. destruct p as [|z p]; [done|]. rewrite reverse_cons, last_snoc.
    apply negb_true_iff, Z.eqb_neq in H4. congruence. }
  assert (Hy : run (reverse (x :: p)) (reverse (y :: s)) <-> x = y /\ run (reverse p) (reverse s)).
  { rewrite !reverse_cons, run_suffix by done. split; [|naive_solver]. intros (s' & [-> [= ->]]%app_inj_2 & H); done. }
  destruct (Z.eqb_spec x y) as [->|Hne]; [|naive_solver].
  specialize (IH s). destruct (strip_suffix p s) as [[p' s']|]; naive_solver.
Qed.

Lemma glob_match_run s p : glob_match s p = true <-> run p s.
Proof.
  unfold glob_match. pose proof (strip_suffix_spec (reverse p) (reverse s)) as H. rewrite !reverse_involutive in H.
  destruct (strip_suffix (reverse p) (reverse s)) as [[p' s']|]; [|by split].
  rewrite H, (glob_loop_spec (reverse p')); [|by repeat constructor].
  unfold some_run. setoid_rewrite list_elem_of_singleton. naive_solver.
Qed.
(** The relation that reads from the left. *)
Lemma takes_one c p p' : takes c p p' <-> one c p = Some p'.
Proof.
  split.
  - intros [c' q|c' q| |c' q n m r Hc Hin|q Hop|c' q H1 H2 H3 H4]; cbn; rewrite ?Z.eqb_refl; try done.
    + by rewrite (class_match_of _ _ _ _ _ Hc), decide_True.
    + by apply (class_match_open _ 91) in Hop as ->.
    + by apply Z.eqb_neq in H1 as ->, H2 as ->, H3 as ->, H4 as ->.
  - destruct p as [|x p]; cbn; [done|].
    destruct (Z.eqb_spec x 42) as [|H42]; [done|]. destruct (Z.eqb_spec x 63) as [->|H63]; [intros [= <-]; constructor|].
    destruct (Z.eqb_spec x 92) as [->|H92].
    { destruct p as [|y p]; [|destruct (Z.eqb_spec y c) as [->|]; [|done]; intros [= <-]; constructor].
      destruct (Z.eqb_spec 92 c) as [<-|]; [|done]. intros [= <-]. constructor. }
    assert (Hchar : x <> 91 -> (if x =? c then Some p else None) = Some p' -> takes c (x :: p) p').
    { intros H91. destruct (Z.eqb_spec x c) as [->|]; [|done]. intros [= <-]. by constructor. }
    destruct (Z.eqb_spec x 91) as [->|H91]; [|by apply Hchar].
    destruct (class_match c p) as [r|] eqn:E.
    + intros ->. destruct (class_closed _ _ _ E) as (n & m & rest & Hc).
      rewrite (class_match_of _ _ _ _ _ Hc) in E. case_decide; [|done]. simplify_eq. by econstructor.
    + pose proof (proj1 (class_match_open p c) E) as Hop. destruct (Z.eqb_spec 91 c) as [<-|]; [|done]. intros [= <-]. by constructor.
Qed.
Lemma glob_run p s : glob p s <-> run p s.
Proof.
  split; induction 1; try by constructor.
  - eapply run_one; [by apply takes_one|done].
  - eapply glob_takes; [by apply takes_one|done].
Qed.

(** C37: [glob_match] answers whether the pattern, read from the left, describes the string: a star takes any characters,
    a question mark one, a backslash quotes, and an unclosed class stands for itself.  A class is what this code makes
    of it, [class_of] and [in_class], not what its documentation says: its first character is no member and its closing
    bracket is one, so that ["[abc]"] takes ["b"], ["c"] and the bracket.  The search for all the states at once, the
    early success at a final star and the comparison of the suffixes change nothing. *)
Theorem glob_match_spec s p : glob_match s p = true <-> glob p s.
Proof.
  rewrite glob_run. apply glob_match_run.
Qed.

(** A class skips its first character, and takes its closing bracket: when [p] closes the class of [x] and the
    characters [m], it takes a character [c] exactly when [c] is in [m] or is the bracket. *)
Theorem glob_class_members (x : Z) (m p : list Z) (c : Z) (s : list Z) (Hx : x <> 94) (Hm : 93 ∉ m) :
  glob_match (c :: s) (91 :: x :: m ++ 93 :: p) = true <-> (c ∈ m \/ c = 93) /\ glob_match s p = true.
Proof.
  rewrite (glob_match_run (c :: s)), (glob_match_run s), run_cons by done. cbn. apply Z.eqb_neq in Hx as ->. cbn.
  rewrite class_loop_members by done. cbn. case_bool_decide; cbn; naive_solver.
Qed.
(** ["[abc]"] takes no ["a"]. *)
Lemma glob_class_members_witness : 97 <> 94 /\ 93 ∉ [98; 99] /\
  (glob_match [97] [91; 97; 98; 99; 93] = true <-> (97 ∈ [98; 99] \/ 97 = 93) /\ glob_match [] [] = true).
Proof.
  assert (H : 93 ∉ [98; 99]) by (by rewrite !not_elem_of_cons; split_and!; [lia|lia|apply not_elem_of_nil]).
  split; [lia|]. split; [exact H|]. apply (glob_class_members 97 [98; 99] [] 97 []); [lia|exact H].
Defined.
