(* ===== verification/JsonObject.v ===== *)
(** The table of an object's members, [Json::ObjectJson] of [src/json.hh] and
    [src/json.cc]: an array of items in the order of their insertion, with
    chains of the items of a bucket.  It refines an association list in that
    order. *)
From S2P Require Import Prelude Compiler Memory Strings.

(** An item, or what an erased one leaves ([next_] is -2). *)
Inductive item (A : Type) : Type :=
  | Item (key : list Z) (value : A) (next : Z)
  | Dead.
Arguments Item {A}. Arguments Dead {A}.
(** [n_] is the length of [os_]. *)
Record object (A : Type) : Type := mkObject {
  os_ : list (item A);
  hash_ : list Z;
  osize : Z;
  capacity_ : Z }.
Arguments mkObject {A}. Arguments os_ {A}. Arguments hash_ {A}. Arguments osize {A}. Arguments capacity_ {A}.

Module ObjectJson.
Section object.
Context {A : Type}.
Implicit Types (o : object A) (key : list Z).

Definition make : object A := mkObject [] [] 0 0.
Definition n_ o : Z := zlength (os_ o).
Definition bucket_of (hash_size : Z) key : Z :=
  Z.land (String_generic.hashcode key) (uwrap 64 (hash_size - 1)).
Definition bucket o key : Z := bucket_of (zlength (hash_ o)) key.

(** A place that holds the index of an item: [int* b]. *)
Inductive link : Type := LHash (b : Z) | LNext (p : Z).
Definition read_link o (l : link) : option Z :=
  match l with
  | LHash b => zlookup (hash_ o) b
  | LNext p => x ← zlookup (os_ o) p; match x with Item _ _ nx => Some nx | Dead => None end
  end.
Definition write_link o (l : link) (x : Z) : option (object A) :=
  match l with
  | LHash b => h ← zset (hash_ o) b x; Some (mkObject (os_ o) h (osize o) (capacity_ o))
  | LNext p =>
      i ← zlookup (os_ o) p;
      match i with
      | Item k v _ => s ← zset (os_ o) p (Item k v x); Some (mkObject s (hash_ o) (osize o) (capacity_ o))
      | Dead => None
      end
  end.

(** The loop over a chain: the link where it ends, the item there (negative for
    none) and the items passed.  [stop] says where. *)
Fixpoint walk (fuel : nat) (stop : Z -> list Z -> bool) o (l : link) (chain : Z) : option (link * Z * Z) :=
  match fuel with
  | O => None
  | S fuel =>
      p ← read_link o l;
      if 0 <=? p then
        i ← zlookup (os_ o) p;
        match i with
        | Item k _ _ => if stop p k then Some (l, p, chain) else walk fuel stop o (LNext p) (chain + 1)
        | Dead => None
        end
      else Some (l, p, chain)
  end.
Definition is_key key : Z -> list Z -> bool := fun _ k => bool_decide (k = key).
Definition chain_fuel o : nat := S (length (os_ o)).

Definition find o key : option Z :=
  if negb (zlength (hash_ o) =? 0) then
    r ← walk (chain_fuel o) (is_key key) o (LHash (bucket o key)) 0;
    let '(_, p, _) := r in Some (if 0 <=? p then p else -1)
  else Some (-1).

Definition grow (copy : bool) o : object A :=
  if copy then o
  else
    let new_capacity := if negb (capacity_ o =? 0) then capacity_ o * 2 else 8 in
    mkObject (os_ o) (hash_ o) (osize o) new_capacity.

(** From item [i - 1] down. *)
Fixpoint rehash_loop (i : nat) o : option (object A) :=
  match i with
  | O => Some o
  | S i' =>
      let p := Z.of_nat i' in
      x ← zlookup (os_ o) p;
      match x with
      | Item k v _ =>
          let b := bucket o k in
          nx ← zlookup (hash_ o) b;
          s ← zset (os_ o) p (Item k v nx);
          h ← zset (hash_ o) b p;
          rehash_loop i' (mkObject s h (osize o) (capacity_ o))
      | Dead => rehash_loop i' o
      end
  end.
Definition rehash o : option (object A) :=
  rehash_loop (length (os_ o))
    (mkObject (os_ o) (repeat (-1) (2 * length (hash_ o))) (osize o) (capacity_ o)).

Definition with_hash o : object A :=
  if zlength (hash_ o) =? 0 then mkObject (os_ o) (repeat (-1) 8) (osize o) (capacity_ o) else o.
Definition find_insert o key (value : A) : option (Z * object A) :=
  let o := with_hash o in
  r ← walk (chain_fuel o) (is_key key) o (LHash (bucket o key)) 0;
  let '(b, p, chain) := r in
  if 0 <=? p then Some (p, o)
  else
    let n := n_ o in
    o ← write_link o b n;
    let o := if n_ o =? capacity_ o then grow false o else o in
    let o := mkObject (os_ o ++ [Item key value (-1)]) (hash_ o) (osize o + 1) (capacity_ o) in
    o ← (if 4 <? chain then rehash o else Some o);
    Some (n_ o - 1, o).
(** The reference that is returned: the index of its item. *)
Definition get_insert (null : A) o key : option (Z * object A) := find_insert o key null.
Definition value_at o (p : Z) : option A :=
  x ← zlookup (os_ o) p; match x with Item _ v _ => Some v | Dead => None end.
(** [item(p).v_.second = value]. *)
Definition set_value o (p : Z) (value : A) : option (object A) :=
  x ← zlookup (os_ o) p;
  match x with
  | Item k _ nx => s ← zset (os_ o) p (Item k value nx); Some (mkObject s (hash_ o) (osize o) (capacity_ o))
  | Dead => None
  end.

(** [*b = os_[p].next_], and item [p] is no more. *)
Definition unlink_item o (b : link) (p : Z) : option (object A) :=
  nx ← read_link o (LNext p);
  o ← write_link o b nx;
  s ← zset (os_ o) p Dead;
  Some (mkObject s (hash_ o) (osize o - 1) (capacity_ o)).
Definition erase o (p : Z) : option (object A) :=
  x ← zlookup (os_ o) p;
  match x with
  | Item k _ _ =>
      r ← walk (chain_fuel o) (fun q _ => q =? p) o (LHash (bucket o k)) 0;
      let '(b, q, _) := r in
      if q =? p then unlink_item o b p else None
  | Dead => None
  end.
(** The number of items removed. *)
Definition erase_key o key : option (Z * object A) :=
  r ← walk (chain_fuel o) (is_key key) o (LHash (bucket o key)) 0;
  let '(b, p, _) := r in
  if 0 <=? p then o ← unlink_item o b p; Some (1, o) else Some (0, o).

(** [Json::clear] on an object that is not shared. *)
Definition clear o : object A := mkObject [] (repeat (-1) (length (hash_ o))) 0 (capacity_ o).

(** The members in order. *)
Definition live_item (x : item A) : option (list Z * A) := match x with Item k v _ => Some (k, v) | Dead => None end.
Definition members o : list (list Z * A) := omap live_item (os_ o).
End object.
End ObjectJson.

(** * Links *)
Section spec.
Context {A : Type}.
Implicit Types (o : object A) (key : list Z) (os : list (item A)).
Import ObjectJson.

#[local] Instance link_eq_dec : EqDecision link.
Proof. solve_decision. Defined.

Definition key_of (x : item A) : option (list Z) := match x with Item k _ _ => Some k | Dead => None end.
Definition key_at os (j : Z) : option (list Z) := x ← zlookup os j; key_of x.
Definition in_bucket os (h b j : Z) : Prop := exists k, key_at os j = Some k /\ bucket_of h k = b.
(** [p] is the first item of the bucket from [i] on. *)
Definition next_from os (h b i p : Z) : Prop :=
  (p = -1 /\ forall j, i <= j -> ~ in_bucket os h b j) \/
  (0 <= i <= p /\ in_bucket os h b p /\ forall j, i <= j < p -> ~ in_bucket os h b j).
(** A link of the chain of bucket [b], and where the items after it start. *)
Definition link_at o (l : link) (b i : Z) : Prop :=
  match l with
  | LHash b' => b' = b /\ i = 0
  | LNext p => i = p + 1 /\ in_bucket (os_ o) (zlength (hash_ o)) b p
  end.

(** The invariant of a table. *)
Record object_ok o : Prop := {
  ok_hash : hash_ o = [] -> os_ o = [];
  ok_links : forall l b i p, link_at o l b i -> read_link o l = Some p ->
    next_from (os_ o) (zlength (hash_ o)) b i p;
  ok_keys : forall i j k, key_at (os_ o) i = Some k -> key_at (os_ o) j = Some k -> i = j;
  ok_size : osize o = zlength (members o);
  ok_capacity : n_ o <= capacity_ o }.

Lemma key_at_lt os j k : key_at os j = Some k -> 0 <= j < zlength os.
Proof. unfold key_at. destruct (zlookup os j) eqn:E; [|done]. intros _. by eapply zlookup_lt. Qed.
Lemma in_bucket_lt os h b j : in_bucket os h b j -> 0 <= j < zlength os.
Proof. intros (k & Hk & _). by eapply key_at_lt. Qed.
Lemma in_bucket_ext os os' h b j : key_at os j = key_at os' j -> in_bucket os h b j <-> in_bucket os' h b j.
Proof. intros H. unfold in_bucket. by rewrite H. Qed.
Lemma next_from_ext os os' h b i p :
  (forall j, key_at os j = key_at os' j) -> next_from os h b i p -> next_from os' h b i p.
Proof.
  intros H. unfold next_from. setoid_rewrite (in_bucket_ext os os' h b); [done|apply H..].
Qed.

Lemma bucket_range h key : 0 < h -> 0 <= bucket_of h key < h.
Proof.
  intros Hh. unfold bucket_of. set (m := uwrap 64 (h - 1)).
  assert (0 <= m <= h - 1) as Hm by (unfold m, uwrap; split; [apply Z.mod_pos_bound; lia|apply Z.mod_le; lia]).
  split; [apply Z.land_nonneg; lia|]. enough (Z.land (String_generic.hashcode key) m <= m) by lia.
  assert (Z.ldiff (Z.land (String_generic.hashcode key) m) m = 0) as Hd.
  { apply Z.bits_inj'. intros n Hn. rewrite Z.ldiff_spec, Z.land_spec, Z.bits_0.
    destruct (Z.testbit m n); [by rewrite andb_false_r|by rewrite !andb_false_r]. }
  apply Z.sub_nocarry_ldiff in Hd. assert (0 <= Z.ldiff m (Z.land (String_generic.hashcode key) m)); [|lia].
  apply Z.ldiff_nonneg. lia.
Qed.

(** Two links of a chain that lead to the same item, or both to none, are the
    same. *)
Lemma link_unique o l l' b i i' p :
  link_at o l b i -> link_at o l' b i' -> next_from (os_ o) (zlength (hash_ o)) b i p ->
  next_from (os_ o) (zlength (hash_ o)) b i' p -> l = l'.
Proof.
  assert (forall l l' i i', link_at o l b i -> link_at o l' b i' -> next_from (os_ o) (zlength (hash_ o)) b i p ->
    next_from (os_ o) (zlength (hash_ o)) b i' p -> ~ i < i') as Hlt.
  { intros l1 l2 i1 i2 H1 H2 Hn1 Hn2 Hlt.
    assert (0 <= i1) as H0.
    { destruct l1 as [|q1]; cbn in H1; [lia|]. destruct H1 as [-> H1%in_bucket_lt]. lia. }
    destruct l2 as [b2|q]; cbn in H2; [lia|]. destruct H2 as [-> Hq].
    destruct Hn1 as [[-> Hno]|(Hr & _ & Hno)]; [by apply (Hno q); [lia|]|].
    destruct Hn2 as [[-> _]|(Hr2 & _)]; [lia|]. apply (Hno q); [lia|done]. }
  intros H1 H2 Hn1 Hn2. assert (i = i') as ->.
  { pose proof (Hlt _ _ _ _ H1 H2 Hn1 Hn2). pose proof (Hlt _ _ _ _ H2 H1 Hn2 Hn1). lia. }
  destruct l as [b1|q1], l' as [b2|q2]; cbn in H1, H2.
  - destruct H1, H2. congruence.
  - destruct H1 as [_ ->], H2 as [? H2%in_bucket_lt]. lia.
  - destruct H2 as [_ ->], H1 as [? H1%in_bucket_lt]. lia.
  - destruct H1, H2. f_equal. lia.
Qed.

(** ** Walking a chain *)
Lemma read_link_some o l b i :
  object_ok o -> link_at o l b i -> 0 <= b < zlength (hash_ o) -> exists p, read_link o l = Some p.
Proof.
  intros Hok Hl Hb. destruct l as [b'|q]; cbn in *.
  - destruct Hl as [-> _]. by apply zlookup_Some.
  - destruct Hl as [_ (k & Hk & _)]. unfold key_at in Hk. destruct (zlookup (os_ o) q) as [[]|]; [|done..]. by eexists.
Qed.

Lemma walk_spec stop o b : object_ok o -> 0 <= b < zlength (hash_ o) -> forall fuel l i chain,
  link_at o l b i -> 0 <= i -> (Z.to_nat (zlength (os_ o) - i) < fuel)%nat ->
  exists l' p ch i', walk fuel stop o l chain = Some (l', p, ch) /\ link_at o l' b i' /\ i <= i' /\
    read_link o l' = Some p /\ next_from (os_ o) (zlength (hash_ o)) b i' p /\
    (forall j k, i <= j < i' -> key_at (os_ o) j = Some k -> bucket o k = b -> stop j k = false) /\
    (0 <= p -> exists k, key_at (os_ o) p = Some k /\ bucket o k = b /\ stop p k = true).
Proof.
  intros Hok Hb. induction fuel as [|fuel IH]; intros l i chain Hl Hi Hf; [lia|]. cbn [walk].
  destruct (read_link_some o l b i Hok Hl Hb) as [p Hp]. rewrite Hp. cbn [mbind option_bind].
  pose proof (ok_links o Hok _ _ _ _ Hl Hp) as Hn.
  destruct (Z.leb_spec 0 p) as [Hp0|Hp0].
  - pose proof Hn as [[-> _]|(Hr & Hin & Hno)]; [lia|]. pose proof (in_bucket_lt _ _ _ _ Hin) as Hlt.
    pose proof Hin as (k & Hk & Hkb). unfold key_at in Hk.
    destruct (zlookup (os_ o) p) as [[k' v nx|]|] eqn:Hit; [|done..]. injection Hk as ->. cbn [mbind option_bind].
    destruct (stop p k) eqn:Hstop.
    + exists l, p, chain, i. split_and!; try done; [intros; lia|].
      intros _. exists k. split_and!; [|done..]. unfold key_at. by rewrite Hit.
    + destruct (IH (LNext p) (p + 1) (chain + 1)) as (l' & p' & ch & i' & H1 & H2 & H3 & H4 & H5 & H6 & H7);
        [by split|lia|lia|].
      exists l', p', ch, i'. split_and!; try done; [lia|]. intros j k' Hj Hk' Hb'.
      destruct (Z.lt_trichotomy j p) as [Hjp|[->|Hjp]].
      * exfalso. apply (Hno j); [lia|]. by exists k'.
      * unfold key_at in Hk'. rewrite Hit in Hk'. by injection Hk' as <-.
      * apply H6; [lia|done..].
  - exists l, p, chain, i. split_and!; try done; intros; lia.
Qed.

Lemma walk_key o key : object_ok o -> 0 < zlength (hash_ o) ->
  exists l p ch i, walk (chain_fuel o) (is_key key) o (LHash (bucket o key)) 0 = Some (l, p, ch) /\
    link_at o l (bucket o key) i /\ read_link o l = Some p /\
    next_from (os_ o) (zlength (hash_ o)) (bucket o key) i p /\
    ((0 <= p /\ key_at (os_ o) p = Some key) \/ (p = -1 /\ forall j, key_at (os_ o) j <> Some key)).
Proof.
  intros Hok Hh. destruct (walk_spec (is_key key) o (bucket o key) Hok (bucket_range _ _ Hh) (chain_fuel o)
    (LHash (bucket o key)) 0 0) as (l & p & ch & i & Hw & Hl & Hi & Hr & Hn & Hpass & Hhit); [done|lia|unfold chain_fuel, zlength; lia|].
  exists l, p, ch, i. split_and!; try done. destruct (Z.leb_spec 0 p) as [Hp|Hp].
  - left. split; [done|]. destruct (Hhit Hp) as (k & Hk & _ & Hs). unfold is_key in Hs.
    apply bool_decide_eq_true in Hs. by subst.
  - right. destruct Hn as [[-> Hno]|[? _]]; [|lia]. split; [done|]. intros j Hj.
    destruct (Z.lt_ge_cases j i) as [Hlt|Hge].
    + pose proof (key_at_lt _ _ _ Hj). specialize (Hpass j key ltac:(lia) Hj eq_refl). unfold is_key in Hpass.
      by apply bool_decide_eq_false in Hpass.
    + apply (Hno j Hge). by exists key.
Qed.

Lemma find_spec o key : object_ok o ->
  exists p, find o key = Some p /\ ((0 <= p /\ key_at (os_ o) p = Some key) \/ (p = -1 /\ forall j, key_at (os_ o) j <> Some key)).
Proof.
  intros Hok. unfold find. destruct (Z.eqb_spec (zlength (hash_ o)) 0) as [H0|H0]; cbn [negb].
  - exists (-1). split; [done|]. right. split; [done|]. intros j Hj%key_at_lt.
    rewrite (ok_hash o Hok) in Hj; [unfold zlength in Hj; cbn in Hj; lia|]. by destruct (hash_ o).
  - destruct (walk_key o key Hok) as (l & p & ch & i & Hw & _ & _ & _ & Hp); [pose proof (zlength_nonneg (hash_ o)); lia|].
    rewrite Hw. cbn [mbind option_bind]. exists p. split; [|done]. destruct Hp as [[Hp _]|[-> _]]; [|done].
    by destruct (Z.leb_spec 0 p); [|lia].
Qed.

(** ** Writing a link *)
Lemma key_at_live os j : key_at os j = (x ← zlookup (map live_item os) j; fst <$> x).
Proof. unfold key_at. rewrite map_zlookup. by destruct (zlookup os j) as [[]|]. Qed.
Lemma key_at_map os os' : map live_item os = map live_item os' -> forall j, key_at os j = key_at os' j.
Proof. intros H j. by rewrite !key_at_live, H. Qed.
Lemma omap_map {B C} (f : B -> option C) l : omap f l = omap id (map f l).
Proof. induction l as [|x l IH]; [done|]. cbn. destruct (f x); cbn; by rewrite IH. Qed.
Lemma map_zset {B C} (f : B -> C) l i x l' y :
  zset l i x = Some l' -> zlookup l i = Some y -> f x = f y -> map f l' = map f l.
Proof.
  intros Hs Hy Hf. pose proof (zlookup_lt _ _ _ Hy) as Hi. destruct (zset_spec l i x Hi) as (l2 & Hs2 & Hl & Hz).
  rewrite Hs in Hs2. injection Hs2 as <-. apply zlookup_ext; [unfold zlength in *; rewrite !length_map; lia|].
  intros j _. rewrite !map_zlookup, Hz. destruct (Z.eqb_spec j i) as [->|]; [|done]. rewrite Hy. cbn. by rewrite Hf.
Qed.

Record same_members o o' : Prop := {
  sm_live : map live_item (os_ o') = map live_item (os_ o);
  sm_hash : zlength (hash_ o') = zlength (hash_ o);
  sm_size : osize o' = osize o;
  sm_capacity : capacity_ o' = capacity_ o }.
Lemma same_members_n o o' : same_members o o' -> n_ o' = n_ o /\ members o' = members o.
Proof.
  intros [Hl _ _ _]. split; [|unfold members; by rewrite !(omap_map live_item), Hl].
  unfold n_, zlength. by rewrite <- !(length_map live_item), Hl.
Qed.

Lemma write_link_spec o l p x : read_link o l = Some p ->
  exists o', write_link o l x = Some o' /\ same_members o o' /\
    forall l', read_link o' l' = if decide (l' = l) then Some x else read_link o l'.
Proof.
  destruct l as [b|q]; cbn [read_link write_link].
  - intros Hb. destruct (zset_spec (hash_ o) b x) as (h & -> & Hl & Hz); [by eapply zlookup_lt|].
    cbn [mbind option_bind]. eexists. split; [done|]. split; [by split|]. intros [b'|q']; cbn.
    + rewrite Hz. destruct (Z.eqb_spec b' b) as [->|Hne]; [by rewrite decide_True|]. rewrite decide_False; [done|congruence].
    + by rewrite decide_False.
  - intros Hq. destruct (zlookup (os_ o) q) as [[k v nx|]|] eqn:Hit; [|done..]. cbn [mbind option_bind].
    destruct (zset_spec (os_ o) q (Item k v x)) as (s & Hs & Hl & Hz); [by eapply zlookup_lt|]. rewrite Hs. cbn [mbind option_bind].
    eexists. split; [done|]. split; [split; cbn; try done; by eapply map_zset|]. intros [b'|q']; cbn.
    + by rewrite decide_False.
    + rewrite Hz. destruct (Z.eqb_spec q' q) as [->|Hne]; [by rewrite decide_True|]. rewrite decide_False; [done|congruence].
Qed.

Lemma link_at_same o o' l b i : same_members o o' -> link_at o' l b i <-> link_at o l b i.
Proof.
  intros [Hl Hh _ _]. destruct l as [b'|q]; [done|]. cbn [link_at]. rewrite Hh.
  by rewrite (in_bucket_ext (os_ o') (os_ o)) by by apply key_at_map.
Qed.

(** ** Inserting *)
Lemma key_at_snoc os key v nx j :
  key_at (os ++ [Item key v nx]) j = if j =? zlength os then Some key else key_at os j.
Proof.
  unfold key_at. destruct (Z.ltb_spec j 0) as [Hj|Hj].
  - rewrite !zlookup_neg by done. pose proof (zlength_nonneg os). by destruct (Z.eqb_spec j (zlength os)); [lia|].
  - rewrite zlookup_app by done. destruct (Z.eqb_spec j (zlength os)) as [->|Hne].
    + rewrite Z.ltb_irrefl, Z.sub_diag. done.
    + destruct (Z.ltb_spec j (zlength os)); [done|]. by rewrite !zlookup_ge by (unfold zlength in *; cbn; lia).
Qed.

Lemma next_from_snoc os h b i p key v nx :
  next_from os h b i p -> 0 <= i <= zlength os ->
  next_from (os ++ [Item key v nx]) h b i (if (p =? -1) && (bucket_of h key =? b) then zlength os else p).
Proof.
  intros Hn Hi.
  assert (forall j, j <> zlength os -> in_bucket (os ++ [Item key v nx]) h b j <-> in_bucket os h b j) as Hold.
  { intros j Hj. apply in_bucket_ext. rewrite key_at_snoc. by destruct (Z.eqb_spec j (zlength os)). }
  assert (in_bucket (os ++ [Item key v nx]) h b (zlength os) <-> bucket_of h key = b) as Hnew.
  { unfold in_bucket. rewrite key_at_snoc, Z.eqb_refl. split; [by intros (k & [= <-] & ?)|intros ?; by exists key]. }
  destruct Hn as [[-> Hno]|(Hr & Hin & Hno)].
  - change (-1 =? -1) with true. cbn [andb]. destruct (Z.eqb_spec (bucket_of h key) b) as [Hb|Hb].
    + right. split; [lia|]. split; [by apply Hnew|]. intros j Hj. rewrite Hold by lia. apply Hno. lia.
    + left. split; [done|]. intros j Hj. destruct (Z.eq_dec j (zlength os)) as [->|Hne]; [by rewrite Hnew|].
      rewrite Hold by done. by apply Hno.
  - destruct (Z.eqb_spec p (-1)); [lia|]. cbn [andb]. pose proof (in_bucket_lt _ _ _ _ Hin). right. split; [done|].
    split; [by apply Hold; [lia|]|]. intros j Hj. rewrite Hold by lia. by apply Hno.
Qed.

Lemma link_at_range o l b i : link_at o l b i -> 0 <= i <= n_ o.
Proof.
  destruct l as [b'|q]; cbn; [intros [_ ->]; pose proof (zlength_nonneg (os_ o)); unfold n_; lia|].
  intros [-> H%in_bucket_lt]. unfold n_. lia.
Qed.
Lemma link_at_fun o l b i b' i' : link_at o l b i -> link_at o l b' i' -> b = b' /\ i = i'.
Proof.
  destruct l as [c|q]; cbn; [intros [-> ->] [-> ->]; done|]. intros [-> (k & Hk & <-)] [-> (k' & Hk' & <-)].
  split; [|done]. rewrite Hk in Hk'. by injection Hk' as <-.
Qed.
Lemma read_link_lt o q p : read_link o (LNext q) = Some p -> 0 <= q < n_ o.
Proof. cbn. destruct (zlookup (os_ o) q) eqn:E; [|done]. intros _. by eapply zlookup_lt. Qed.

Lemma append_ok o key v o2 l i cap :
  object_ok o -> hash_ o <> [] -> link_at o l (bucket o key) i -> read_link o l = Some (-1) ->
  (forall j, key_at (os_ o) j <> Some key) -> same_members o o2 ->
  (forall l', read_link o2 l' = if decide (l' = l) then Some (n_ o) else read_link o l') -> n_ o < cap ->
  object_ok (mkObject (os_ o2 ++ [Item key v (-1)]) (hash_ o2) (osize o2 + 1) cap).
Proof.
  intros Hok Hhash Hl Hread Habs Hsame Hlinks Hcap. destruct (same_members_n _ _ Hsame) as [Hn Hmem].
  pose proof Hsame as [Hlive Hh Hsz _]. pose proof (key_at_map _ _ Hlive) as Hkeys. set (o4 := mkObject _ _ _ _).
  assert (zlength (os_ o2) = n_ o) as Hlen by exact Hn.
  assert (forall j, key_at (os_ o4) j = if j =? n_ o then Some key else key_at (os_ o) j) as Hk4.
  { intros j. cbn [os_ o4]. rewrite key_at_snoc, Hlen. by rewrite Hkeys. }
  split.
  - cbn [hash_ o4]. intros E. rewrite E in Hh. by destruct (hash_ o).
  - intros l' b' i' p' Hl' Hr'. cbn [hash_ o4]. rewrite Hh.
    assert (forall p0 : Z, next_from (os_ o) (zlength (hash_ o)) b' i' p0 -> 0 <= i' <= n_ o ->
      next_from (os_ o4) (zlength (hash_ o)) b' i' (if (p0 =? -1) && (bucket o key =? b') then n_ o else p0)) as Hsnoc.
    { intros p0 Hp0 Hi'. rewrite <- Hlen. apply next_from_snoc; [|by rewrite Hlen]. by eapply next_from_ext; [intros j; symmetry; apply Hkeys|]. }
    destruct (decide (l' = LNext (n_ o))) as [->|Hne].
    + cbn [read_link o4 os_] in Hr'. rewrite <- Hlen, zlookup_mid in Hr'. injection Hr' as <-.
      destruct Hl' as [-> (k & Hk & Hb)]. left. split; [done|]. intros j Hj (k' & Hk'%key_at_lt & _).
      cbn [os_ o4] in Hk'. rewrite zlength_app in Hk'. change (zlength [_]) with 1 in Hk'. lia.
    + assert (link_at o l' b' i' /\ read_link o2 l' = Some p') as [Hl0 Hr0].
      { destruct l' as [b0|q]; [done|]. cbn [read_link o4 os_] in Hr'. destruct Hl' as [-> (k & Hk & Hb)].
        pose proof (key_at_lt _ _ _ Hk) as Hq. cbn [os_ o4] in Hq. rewrite zlength_app in Hq. change (zlength [_]) with 1 in Hq.
        assert (q < n_ o) by (assert (q <> n_ o) by congruence; lia).
        rewrite Hk4 in Hk. destruct (Z.eqb_spec q (n_ o)); [lia|]. rewrite zlookup_app_l in Hr' by lia. split; [|done].
        split; [done|]. exists k. split; [done|]. cbn [hash_ o4] in Hb. by rewrite Hh in Hb. }
      pose proof (link_at_range _ _ _ _ Hl0) as Hi'. rewrite Hlinks in Hr0. destruct (decide (l' = l)) as [->|Hll].
      * injection Hr0 as <-. destruct (link_at_fun _ _ _ _ _ _ Hl Hl0) as [<- <-].
        pose proof (Hsnoc (-1) (ok_links o Hok _ _ _ _ Hl Hread) Hi') as Hx. by rewrite !Z.eqb_refl in Hx.
      * pose proof (ok_links o Hok _ _ _ _ Hl0 Hr0) as Hn0. specialize (Hsnoc p' Hn0 Hi').
        destruct (Z.eqb_spec p' (-1)) as [->|]; [|done]. destruct (Z.eqb_spec (bucket o key) b') as [Hb|]; [|done]. exfalso.
        apply Hll. subst b'. by eapply link_unique; [exact Hl0|exact Hl|exact Hn0|apply (ok_links o Hok _ _ _ _ Hl Hread)].
  - intros a b k. rewrite !Hk4. destruct (Z.eqb_spec a (n_ o)), (Z.eqb_spec b (n_ o)); try lia.
    + intros [= <-] H'. by apply Habs in H'.
    + intros H' [= <-]. by apply Habs in H'.
    + apply (ok_keys o Hok).
  - unfold members in *. cbn [osize o4 os_]. rewrite omap_app, zlength_app. cbn [omap list_omap live_item].
    rewrite Hmem, Hsz, (ok_size o Hok). done.
  - unfold n_ in *. cbn [os_ capacity_ o4]. rewrite zlength_app. change (zlength [_]) with 1. lia.
Qed.

(** ** Rehashing *)
(** The chains of the items from [i] on. *)
Record rehashed (i : Z) o : Prop := {
  rh_hash : forall b p, zlookup (hash_ o) b = Some p -> next_from (os_ o) (zlength (hash_ o)) b i p;
  rh_next : forall q k v nx, i <= q -> zlookup (os_ o) q = Some (Item k v nx) ->
    next_from (os_ o) (zlength (hash_ o)) (bucket o k) (q + 1) nx }.

Lemma next_from_skip os h b i p : next_from os h b (i + 1) p -> 0 <= i -> ~ in_bucket os h b i -> next_from os h b i p.
Proof.
  intros [[-> Hno]|(Hr & Hin & Hno)] Hi Hnot.
  - left. split; [done|]. intros j Hj. destruct (Z.eq_dec j i) as [->|]; [done|]. apply Hno. lia.
  - right. split; [lia|]. split; [done|]. intros j Hj. destruct (Z.eq_dec j i) as [->|]; [done|]. apply Hno. lia.
Qed.

Lemma rehash_loop_ok i : forall o, Z.of_nat i <= n_ o -> 0 < zlength (hash_ o) -> rehashed (Z.of_nat i) o ->
  exists o', rehash_loop i o = Some o' /\ rehashed 0 o' /\ same_members o o'.
Proof.
  induction i as [|i IH]; intros o Hi Hh [Hhash Hnext]; [exists o; split; [done|]; by split|].
  cbn [rehash_loop]. set (p := Z.of_nat i). assert (0 <= p < zlength (os_ o)) as Hp by (unfold n_ in Hi; lia).
  replace (Z.of_nat (S i)) with (p + 1) in * by lia.
  destruct (zlookup_Some (os_ o) p Hp) as [x Hx]. rewrite Hx. cbn [mbind option_bind]. destruct x as [k v nx|].
  - pose proof (bucket_range (zlength (hash_ o)) k Hh) as Hb. fold (bucket o k) in Hb. set (b := bucket o k) in *.
    destruct (zlookup_Some (hash_ o) b Hb) as [y Hy]. rewrite Hy. cbn [mbind option_bind].
    destruct (zset_spec (os_ o) p (Item k v y) Hp) as (s & Hs & Hsl & Hsz). rewrite Hs. cbn [mbind option_bind].
    destruct (zset_spec (hash_ o) b p Hb) as (h & Hht & Hhl & Hhz). rewrite Hht. cbn [mbind option_bind].
    assert (map live_item s = map live_item (os_ o)) as Hlive by (by eapply map_zset).
    assert (forall j, key_at (os_ o) j = key_at s j) as Hk by (intros j; symmetry; by apply key_at_map).
    destruct (IH (mkObject s h (osize o) (capacity_ o))) as (o' & Hrun & Hr & Hsame).
    + unfold n_ in *. cbn. lia.
    + cbn. lia.
    + split; cbn [hash_ os_].
      * intros b' p'. rewrite Hhz, Hhl. destruct (Z.eqb_spec b' b) as [->|Hne].
        -- intros [= <-]. eapply next_from_ext; [exact Hk|]. right. split; [lia|]. split; [|intros; lia].
           exists k. split; [|done]. unfold key_at. by rewrite Hx.
        -- intros Hp'. eapply next_from_ext; [exact Hk|]. apply next_from_skip; [by apply Hhash|lia|].
           intros (k' & Hk' & <-). unfold key_at in Hk'; fold p in Hk'. rewrite Hx in Hk'. injection Hk' as <-. done.
      * intros q k' v' nx' Hq. rewrite Hsz. unfold bucket. cbn [hash_]. rewrite Hhl. destruct (Z.eqb_spec q p) as [->|Hne].
        -- intros [= <- <- <-]. eapply next_from_ext; [exact Hk|]. by apply Hhash.
        -- intros Hq'. eapply next_from_ext; [exact Hk|]. apply (Hnext q k' v'); [lia|done].
    + exists o'. split; [exact Hrun|]. split; [done|]. destruct Hsame as [H1 H2 H3 H4]. cbn in *.
      split; [by rewrite H1|by rewrite H2|done..].
  - apply IH; [lia|done|]. split.
    + intros b p' Hb. apply next_from_skip; [by apply Hhash|lia|]. intros (k & Hk & _).
      unfold key_at in Hk; fold p in Hk. by rewrite Hx in Hk.
    + intros q k v nx Hq Hit. destruct (Z.eq_dec q p) as [->|]; [by rewrite Hx in Hit|]. apply (Hnext q k v); [lia|done].
Qed.

Lemma rehashed_links o : rehashed 0 o -> forall l b i p, link_at o l b i -> read_link o l = Some p ->
  next_from (os_ o) (zlength (hash_ o)) b i p.
Proof.
  intros [Hh Hn] [b'|q] b i p; cbn [link_at read_link].
  - intros [-> ->]. apply Hh.
  - intros [-> (k & Hk & <-)]. unfold key_at in Hk. destruct (zlookup (os_ o) q) as [[k' v nx|]|] eqn:E; [|done..].
    cbn in Hk |- *. intros [= <-]. injection Hk as <-. apply (Hn q _ v); [apply zlookup_lt in E; lia|done].
Qed.

Lemma rehash_ok o : object_ok o -> hash_ o <> [] ->
  exists o', rehash o = Some o' /\ object_ok o' /\ members o' = members o /\ n_ o' = n_ o /\ hash_ o' <> [] /\
    (forall j, key_at (os_ o') j = key_at (os_ o) j).
Proof.
  intros Hok Hh. unfold rehash. set (o1 := mkObject _ _ _ _).
  assert (zlength (hash_ o1) = 2 * zlength (hash_ o)) as Hlen by (unfold zlength; cbn; rewrite repeat_length; lia).
  assert (0 < zlength (hash_ o)) as Hpos by (destruct (hash_ o); [done|rewrite zlength_cons; pose proof (zlength_nonneg l); lia]).
  destruct (rehash_loop_ok (length (os_ o)) o1) as (o' & Hrun & Hr & Hsame).
  - done.
  - lia.
  - split; cbn [hash_ os_ o1].
    + intros b p Hb. left. split.
      * unfold zlookup in Hb. destruct (b <? 0); [done|]. by apply list_elem_of_lookup_2, list_elem_of_In, repeat_spec in Hb.
      * intros j Hj (k & Hk%key_at_lt & _). unfold zlength in *. lia.
    + intros q k v nx Hq Hit%zlookup_lt. unfold zlength in *. lia.
  - exists o'. destruct (same_members_n _ _ Hsame) as [Hn Hm]. destruct Hsame as [Hl Hhl Hs Hc]. cbn [os_ osize capacity_ o1] in *.
    assert (hash_ o' <> []) as Hne by (intros E; rewrite E in Hhl; rewrite Hlen in Hhl; change (zlength []) with 0 in Hhl; lia).
    split_and!; try done; [|by apply key_at_map]. pose proof (key_at_map _ _ Hl) as Hk. split.
    + done.
    + by apply rehashed_links.
    + intros a b k. rewrite !Hk. apply (ok_keys o Hok).
    + rewrite Hs, Hm. apply (ok_size o Hok).
    + rewrite Hc, Hn. apply (ok_capacity o Hok).
Qed.

(** ** Erasing *)
Lemma unlink_ok o l i p key :
  object_ok o -> link_at o l (bucket o key) i -> read_link o l = Some p -> 0 <= p -> key_at (os_ o) p = Some key ->
  exists o', unlink_item o l p = Some o' /\ object_ok o' /\ hash_ o' <> [] /\
    (forall j, key_at (os_ o') j = if j =? p then None else key_at (os_ o) j) /\
    exists l1 v l2, map live_item (os_ o) = l1 ++ Some (key, v) :: l2 /\ zlength l1 = p /\
      map live_item (os_ o') = l1 ++ None :: l2.
Proof.
  intros Hok Hl Hread Hp Hkey. pose proof (ok_links o Hok _ _ _ _ Hl Hread) as Hn.
  pose proof (key_at_lt _ _ _ Hkey) as Hlt. unfold key_at in Hkey.
  destruct (zlookup (os_ o) p) as [[k v nx|]|] eqn:Hit; [|done..]. injection Hkey as ->.
  assert (read_link o (LNext p) = Some nx) as Hrp by (cbn; by rewrite Hit).
  assert (link_at o (LNext p) (bucket o key) (p + 1)) as Hlp
    by (split; [done|]; exists key; split; [|done]; unfold key_at; by rewrite Hit).
  pose proof (ok_links o Hok _ _ _ _ Hlp Hrp) as Hnp.
  unfold unlink_item. rewrite Hrp. cbn [mbind option_bind].
  destruct (write_link_spec o l p nx Hread) as (o1 & -> & Hsame & Hlinks). cbn [mbind option_bind].
  destruct (same_members_n _ _ Hsame) as [Hn1 Hm1]. pose proof Hsame as [Hlive Hh Hsz Hc].
  assert (0 <= p < zlength (os_ o1)) as Hp1 by (unfold n_ in Hn1; lia).
  destruct (zset_spec (os_ o1) p Dead Hp1) as (s & -> & Hsl & Hsz'). cbn [mbind option_bind].
  eexists. split; [done|]. set (o' := mkObject s _ _ _).
  assert (forall j, key_at s j = if j =? p then None else key_at (os_ o) j) as Hks.
  { intros j. rewrite <- (key_at_map _ _ Hlive j). unfold key_at. rewrite Hsz'. by destruct (Z.eqb_spec j p). }
  assert (exists l1 l2, map live_item (os_ o) = l1 ++ Some (key, v) :: l2 /\ zlength l1 = p /\
    map live_item s = l1 ++ None :: l2) as (l1 & l2 & Hm & Hl1 & Hm').
  { destruct (zlookup_Some_split (map live_item (os_ o)) p (Some (key, v))) as (l1 & l2 & Hm & Hl1); [by rewrite map_zlookup, Hit|].
    exists l1, l2. split; [done|]. split; [done|]. rewrite Hm in Hlive. apply zlookup_ext.
    - unfold zlength in *. rewrite length_map. apply (f_equal length) in Hlive. rewrite length_map in Hlive.
      rewrite !length_app in *. cbn in *. lia.
    - intros j _. rewrite map_zlookup, Hsz'. destruct (Z.eqb_spec j p) as [->|Hne].
      + rewrite <- Hl1. by rewrite zlookup_mid.
      + rewrite <- map_zlookup, Hlive. destruct (Z.ltb_spec j p) as [Hj|Hj]; [by rewrite !zlookup_app_l by lia|].
        rewrite !zlookup_app_r by lia. by rewrite !zlookup_cons by lia. }
  assert (hash_ o <> []) as Hhash.
  { intros E. rewrite (ok_hash o Hok E) in Hlt. change (zlength []) with 0 in Hlt. lia. }
  assert (forall h b j, in_bucket s h b j <-> in_bucket (os_ o) h b j /\ j <> p) as Hin.
  { intros h b j. unfold in_bucket. rewrite Hks. destruct (Z.eqb_spec j p) as [Hj|Hj]; split.
    - by intros (k & ? & _).
    - by intros [_ ?].
    - by intros H.
    - by intros [H _]. }
  split_and!; [|cbn; intros E; rewrite E in Hh; by destruct (hash_ o)|done|by exists l1, v, l2].
  split; cbn [hash_ os_ osize capacity_ o'].
  - intros E. rewrite E in Hh. by destruct (hash_ o).
  - rewrite Hh. intros l' b' i' p' Hl' Hr'.
    assert (l' <> LNext p /\ link_at o l' b' i' /\ read_link o1 l' = Some p') as (Hne & Hl0 & Hr0).
    { destruct l' as [b0|q]; [done|]. cbn [read_link os_ o'] in Hr'. destruct Hl' as [-> Hq]. cbn [os_ hash_ o'] in Hq.
      apply Hin in Hq as [Hq Hqp]. rewrite Hh in Hq. rewrite Hsz' in Hr'. destruct (Z.eqb_spec q p); [done|].
      split; [congruence|]. done. }
    rewrite Hlinks in Hr0. destruct (decide (l' = l)) as [->|Hll].
    + injection Hr0 as <-. destruct (link_at_fun _ _ _ _ _ _ Hl Hl0) as [<- <-].
      destruct Hn as [[-> _]|(Hr & _ & Hno)]; [lia|]. destruct Hnp as [[-> Hno2]|(Hr2 & Hin2 & Hno2)].
      * left. split; [done|]. intros j Hj [Hb Hjp]%Hin. destruct (Z.lt_ge_cases j p); [by apply (Hno j); [lia|]|].
        apply (Hno2 j); [lia|done].
      * right. split; [lia|]. split; [apply Hin; split; [done|lia]|]. intros j Hj [Hb Hjp]%Hin.
        destruct (Z.lt_ge_cases j p); [by apply (Hno j); [lia|]|]. apply (Hno2 j); [lia|done].
    + pose proof (ok_links o Hok _ _ _ _ Hl0 Hr0) as Hn0.
      assert (p' <> p) as Hpp.
      { intros ->. apply Hll. assert (b' = bucket o key) as ->.
        { destruct Hn0 as [[? _]|(_ & (k & Hk & <-) & _)]; [lia|]. unfold key_at in Hk. rewrite Hit in Hk. by injection Hk as ->. }
        by eapply link_unique; [exact Hl0|exact Hl|..]. }
      destruct Hn0 as [[-> Hno]|(Hr & Hin0 & Hno)].
      * left. split; [done|]. intros j Hj [Hb _]%Hin. by apply (Hno j).
      * right. split; [done|]. split; [by apply Hin|]. intros j Hj [Hb _]%Hin. by apply (Hno j).
  - intros a b k. rewrite !Hks. destruct (a =? p), (b =? p); try done. apply (ok_keys o Hok).
  - rewrite Hsz, (ok_size o Hok). unfold members. cbn [os_ o']. rewrite !(omap_map live_item), Hm, Hm', !omap_app. cbn.
    rewrite !zlength_app, zlength_cons. lia.
  - rewrite Hc. unfold n_ in *. cbn. pose proof (ok_capacity o Hok). unfold n_ in *. lia.
Qed.

(** * The association list *)
Implicit Types l : list (list Z * A).
Fixpoint alist_get key l : option A :=
  match l with (k, v) :: l => if decide (k = key) then Some v else alist_get key l | [] => None end.
(** An existing member is not replaced. *)
Definition alist_insert key v l : list (list Z * A) :=
  match alist_get key l with Some _ => l | None => l ++ [(key, v)] end.
Definition alist_set key v l : list (list Z * A) :=
  match alist_get key l with
  | Some _ => map (fun kv => if decide (fst kv = key) then (key, v) else kv) l
  | None => l ++ [(key, v)]
  end.
Definition alist_erase key l : list (list Z * A) := filter (fun kv => fst kv <> key) l.

Lemma alist_get_None key l : alist_get key l = None <-> key ∉ map fst l.
Proof.
  induction l as [|[k v] l IH]; cbn; [split; [intros _; apply not_elem_of_nil|done]|].
  rewrite not_elem_of_cons. destruct (decide (k = key)) as [->|Hne]; [split; [done|by intros [? _]]|]. rewrite IH.
  split; [by intros H; split; [by intros ->|]|by intros [_ ?]].
Qed.
Lemma alist_get_mid key v l1 l2 : key ∉ map fst l1 -> alist_get key (l1 ++ (key, v) :: l2) = Some v.
Proof.
  induction l1 as [|[k w] l1 IH]; cbn; [by rewrite decide_True|].
  rewrite not_elem_of_cons. intros [Hk Hl]. rewrite decide_False by done. by apply IH.
Qed.
Lemma alist_replace_mid key v w l1 l2 : key ∉ map fst l1 -> key ∉ map fst l2 ->
  map (fun kv => if decide (fst kv = key) then (key, w) else kv) (l1 ++ (key, v) :: l2) = l1 ++ (key, w) :: l2.
Proof.
  assert (forall l, key ∉ map fst l -> map (fun kv => if decide (fst kv = key) then (key, w) else kv) l = l) as Hid.
  { induction l as [|[k x] l IH]; cbn; [done|]. rewrite not_elem_of_cons. intros [Hk Hl]. rewrite decide_False by done. by rewrite IH. }
  intros H1 H2. rewrite map_app. cbn. rewrite decide_True by done. by rewrite !Hid.
Qed.
Lemma alist_erase_mid key v l1 l2 : key ∉ map fst l1 -> key ∉ map fst l2 ->
  alist_erase key (l1 ++ (key, v) :: l2) = l1 ++ l2.
Proof.
  assert (forall l, key ∉ map fst l -> alist_erase key l = l) as Hid.
  { unfold alist_erase. induction l as [|[k x] l IH]; [done|]. cbn [map fst]. rewrite not_elem_of_cons. intros [Hk Hl].
    rewrite filter_cons_True by done. by rewrite IH. }
  intros H1 H2. unfold alist_erase in *. rewrite filter_app, filter_cons_False by (by intros []). by rewrite !Hid.
Qed.
Lemma alist_erase_none key l : key ∉ map fst l -> alist_erase key l = l.
Proof.
  unfold alist_erase. induction l as [|[k x] l IH]; [done|]. cbn [map fst]. rewrite not_elem_of_cons. intros [Hk Hl].
  rewrite filter_cons_True by done. by rewrite IH.
Qed.

(** Where a key is in the table it is in the list. *)
Lemma members_none o key : (forall j, key_at (os_ o) j <> Some key) -> key ∉ map fst (members o).
Proof.
  intros Hno (kv & Hk & Hin)%list_elem_of_fmap. unfold members in Hin. rewrite list_elem_of_omap in Hin. destruct Hin as (x & Hx & Hl).
  apply list_elem_of_lookup in Hx as [j Hj]. apply (Hno (Z.of_nat j)). unfold key_at.
  rewrite zlookup_nonneg, Nat2Z.id, Hj by lia. destruct x as [k v nx|]; [|done]. injection Hl as <-. by subst.
Qed.
Lemma members_split o p key v (l1 l2 : list (option (list Z * A))) :
  object_ok o -> map live_item (os_ o) = l1 ++ Some (key, v) :: l2 -> zlength l1 = p ->
  members o = omap id l1 ++ (key, v) :: omap id l2 /\ (key ∉ map fst (omap id l1)) /\ (key ∉ map fst (omap id l2)).
Proof.
  intros Hok Hm Hp. unfold members. rewrite omap_map, Hm, omap_app. cbn. split; [done|].
  assert (forall j w, zlookup (map live_item (os_ o)) j = Some (Some (key, w)) -> j = p) as Huniq.
  { intros j w Hj. assert (forall j w, zlookup (map live_item (os_ o)) j = Some (Some (key, w)) -> key_at (os_ o) j = Some key) as Hk
      by (intros ? ? E; rewrite key_at_live, E; done).
    apply (ok_keys o Hok j p key); [by eapply Hk|]. apply (Hk p v). rewrite Hm, <- Hp. apply zlookup_mid. }
  split; intros (kv & Hk & Hin)%list_elem_of_fmap; rewrite list_elem_of_omap in Hin; destruct Hin as (x & Hx & Hl);
    apply list_elem_of_lookup in Hx as [j Hj]; cbn in Hl; subst x; destruct kv as [k w]; cbn in Hk; subst k.
  - pose proof (lookup_lt_Some _ _ _ Hj). specialize (Huniq (Z.of_nat j) w). unfold zlength in Hp.
    rewrite Hm, zlookup_app_l, zlookup_nonneg, Nat2Z.id in Huniq by (unfold zlength; lia). specialize (Huniq Hj). lia.
  - specialize (Huniq (p + 1 + Z.of_nat j) w). pose proof (zlength_nonneg l1). rewrite Hm, zlookup_app_r, zlookup_cons, zlookup_nonneg in Huniq by lia.
    replace (Z.to_nat (p + 1 + Z.of_nat j - zlength l1 - 1)) with j in Huniq by lia. specialize (Huniq Hj). lia.
Qed.
Lemma key_at_split o p key : key_at (os_ o) p = Some key ->
  exists (l1 l2 : list (option (list Z * A))) v, map live_item (os_ o) = l1 ++ Some (key, v) :: l2 /\ zlength l1 = p /\
    value_at o p = Some v.
Proof.
  unfold key_at, value_at. destruct (zlookup (os_ o) p) as [[k v nx|]|] eqn:E; [|done..]. intros [= ->].
  destruct (zlookup_Some_split (map live_item (os_ o)) p (Some (key, v))) as (l1 & l2 & Hm & Hl); [by rewrite map_zlookup, E|].
  by exists l1, l2, v.
Qed.

(** * The operations *)
Lemma key_at_nil j : key_at [] j = None.
Proof. unfold key_at, zlookup. by destruct (j <? 0). Qed.
Lemma in_bucket_nil h b j : ~ in_bucket [] h b j.
Proof. intros (k & Hk & _). by rewrite key_at_nil in Hk. Qed.
Lemma make_ok : object_ok make.
Proof.
  split; try done; [intros [b'|q] b i p; cbn; [|by intros [_ []%in_bucket_nil]]; unfold zlookup; by destruct (b' <? 0)|].
  intros a b k Ha. by rewrite key_at_nil in Ha.
Qed.

Lemma with_hash_ok o : object_ok o -> object_ok (with_hash o) /\ 0 < zlength (hash_ (with_hash o)) /\ os_ (with_hash o) = os_ o.
Proof.
  intros Hok. unfold with_hash. pose proof (zlength_nonneg (hash_ o)). destruct (Z.eqb_spec (zlength (hash_ o)) 0) as [H0|H0].
  - assert (hash_ o = []) as Hh by by destruct (hash_ o). pose proof (ok_hash o Hok Hh) as Hos.
    split; [|done]. destruct Hok as [H1 H2 H3 H4 H5]. split; try done. cbn [hash_ os_]. rewrite Hos.
    intros [b'|q] b i p; cbn; [|by intros [_ []%in_bucket_nil]].
    intros [-> ->] Hb. left. split; [|intros j _; apply in_bucket_nil].
    unfold zlookup in Hb. destruct (b <? 0); [done|]. by apply list_elem_of_lookup_2, list_elem_of_In, (repeat_spec 8) in Hb.
  - split; [done|]. split; [lia|done].
Qed.

Lemma find_insert_spec o key v : object_ok o ->
  exists p o', find_insert o key v = Some (p, o') /\ object_ok o' /\ hash_ o' <> [] /\
    key_at (os_ o') p = Some key /\ members o' = alist_insert key v (members o).
Proof.
  intros Hok0. destruct (with_hash_ok o Hok0) as (Hok & Hpos & Hos). unfold find_insert. set (o1 := with_hash o) in *.
  assert (members o1 = members o) as Hm1 by (unfold members; by rewrite Hos).
  assert (hash_ o1 <> []) as Hne by (intros E; rewrite E in Hpos; done).
  destruct (walk_key o1 key Hok Hpos) as (l & p & ch & i & Hw & Hl & Hread & Hn & Hp). rewrite Hw. cbn [mbind option_bind].
  destruct Hp as [[Hp Hkey]|[-> Habs]].
  - destruct (Z.leb_spec 0 p); [|lia]. exists p, o1. split_and!; try done. rewrite <- Hm1. unfold alist_insert.
    destruct (key_at_split o1 p key Hkey) as (l1 & l2 & w & Hmap & Hl1 & _).
    destruct (members_split o1 p key w l1 l2 Hok Hmap Hl1) as (-> & H1 & _). by rewrite alist_get_mid.
  - change (0 <=? -1) with false. cbv iota.
    destruct (write_link_spec o1 l (-1) (n_ o1) Hread) as (o2 & -> & Hsame & Hlinks). cbn [mbind option_bind].
    destruct (same_members_n _ _ Hsame) as [Hn2 Hm2].
    set (o3 := if n_ o2 =? capacity_ o2 then grow false o2 else o2).
    assert (os_ o3 = os_ o2 /\ hash_ o3 = hash_ o2 /\ osize o3 = osize o2 /\ n_ o1 < capacity_ o3) as (H3 & H4 & H5 & H6).
    { unfold o3. pose proof (ok_capacity o1 Hok) as Hc. pose proof (sm_capacity _ _ Hsame) as Hc2. rewrite Hn2.
      assert (0 <= n_ o1) by apply zlength_nonneg.
      destruct (Z.eqb_spec (n_ o1) (capacity_ o2)); [|split_and!; try done; lia]. split_and!; [done..|]. cbn.
      destruct (Z.eqb_spec (capacity_ o2) 0); cbn [negb]; lia. }
    pose proof (append_ok o1 key v o2 l i (capacity_ o3) Hok Hne Hl Hread Habs Hsame Hlinks H6) as Hok4.
    rewrite <- H3, <- H4, <- H5 in Hok4. set (o4 := mkObject _ _ _ _) in *.
    assert (key_at (os_ o4) (n_ o4 - 1) = Some key) as Hlast.
    { cbn [os_ o4]. rewrite key_at_snoc. unfold n_. cbn [os_ o4]. rewrite zlength_app. change (zlength [_]) with 1.
      replace (zlength (os_ o3) + 1 - 1) with (zlength (os_ o3)) by lia. by rewrite Z.eqb_refl. }
    assert (hash_ o4 <> []) as Hne4.
    { cbn [hash_ o4]. rewrite H4. pose proof (sm_hash _ _ Hsame) as Hh. intros E. rewrite E in Hh. change (zlength []) with 0 in Hh. lia. }
    assert (members o4 = alist_insert key v (members o)) as Hm4.
    { unfold alist_insert. rewrite <- Hm1, (proj2 (alist_get_None key (members o1)) (members_none o1 key Habs)), <- Hm2.
      unfold members. cbn [os_ o4]. by rewrite H3, omap_app. }
    destruct (4 <? ch).
    + destruct (rehash_ok o4 Hok4 Hne4) as (o5 & -> & Hok5 & Hm5 & Hn5 & Hne5 & Hk5). cbn [mbind option_bind].
      exists (n_ o5 - 1), o5. split_and!; try done; [by rewrite Hk5, Hn5|by rewrite Hm5].
    + cbn [mbind option_bind]. exists (n_ o4 - 1), o4. by split_and!.
Qed.

Lemma set_value_spec o p key v : object_ok o -> key_at (os_ o) p = Some key ->
  exists o', set_value o p v = Some o' /\ object_ok o' /\ hash_ o' = hash_ o /\
    (forall j, key_at (os_ o') j = key_at (os_ o) j) /\
    members o' = map (fun kv => if decide (fst kv = key) then (key, v) else kv) (members o).
Proof.
  intros Hok Hkey. destruct (key_at_split o p key Hkey) as (l1 & l2 & w & Hmap & Hl1 & _). unfold set_value, key_at in *.
  destruct (zlookup (os_ o) p) as [[k x nx|]|] eqn:Hit; [|done..]. injection Hkey as ->. cbn [mbind option_bind].
  destruct (zset_spec (os_ o) p (Item key v nx)) as (s & -> & Hsl & Hz); [by eapply zlookup_lt|]. cbn [mbind option_bind].
  eexists. split; [done|]. set (o' := mkObject s _ _ _).
  assert (forall j, key_at s j = key_at (os_ o) j) as Hk.
  { intros j. unfold key_at. rewrite Hz. destruct (Z.eqb_spec j p) as [->|]; [by rewrite Hit|done]. }
  assert (forall l' : link, read_link o' l' = read_link o l') as Hr.
  { intros [b|q]; cbn; [done|]. rewrite Hz. destruct (Z.eqb_spec q p) as [->|]; [by rewrite Hit|done]. }
  assert (members o' = map (fun kv => if decide (fst kv = key) then (key, v) else kv) (members o)) as Hm.
  { destruct (members_split o p key w l1 l2 Hok Hmap Hl1) as (-> & H1 & H2). rewrite alist_replace_mid by done.
    unfold members. rewrite omap_map. cbn [os_ o'].
    assert (map live_item s = l1 ++ Some (key, v) :: l2) as ->; [|by rewrite omap_app].
    apply zlookup_ext.
    - unfold zlength in *. rewrite length_map. apply (f_equal length) in Hmap. rewrite length_map, !length_app in *. cbn in *. lia.
    - intros j _. rewrite map_zlookup, Hz. destruct (Z.eqb_spec j p) as [->|Hne]; [by rewrite <- Hl1, zlookup_mid|].
      rewrite <- map_zlookup, Hmap. destruct (Z.ltb_spec j p); [by rewrite !zlookup_app_l by lia|].
      rewrite !zlookup_app_r by lia. by rewrite !zlookup_cons by lia. }
  split_and!; try done. split; cbn [hash_ os_ osize capacity_ o'].
  - intros E. rewrite (ok_hash o Hok E) in Hit. unfold zlookup in Hit. by destruct (p <? 0).
  - intros l' b i p' Hl' Hr'. rewrite Hr in Hr'. eapply next_from_ext; [intros j; symmetry; apply Hk|].
    apply (ok_links o Hok l' b i p'); [|done]. destruct l' as [b0|q]; [done|]. destruct Hl' as [-> Hb]. split; [done|].
    eapply (in_bucket_ext s); [apply Hk|exact Hb].
  - intros a b k. rewrite !Hk. apply (ok_keys o Hok).
  - rewrite Hm, (ok_size o Hok). unfold zlength. by rewrite length_map.
  - unfold n_. cbn. rewrite Hsl. apply (ok_capacity o Hok).
Qed.

Lemma erase_key_spec o key : object_ok o -> hash_ o <> [] ->
  exists o', erase_key o key = Some (b2z (bool_decide (is_Some (alist_get key (members o)))), o') /\
    object_ok o' /\ hash_ o' <> [] /\ members o' = alist_erase key (members o).
Proof.
  intros Hok Hne. unfold erase_key.
  assert (0 < zlength (hash_ o)) as Hpos by (destruct (hash_ o); [done|rewrite zlength_cons; pose proof (zlength_nonneg l); lia]).
  destruct (walk_key o key Hok Hpos) as (l & p & ch & i & Hw & Hl & Hread & Hn & Hp). rewrite Hw. cbn [mbind option_bind].
  destruct Hp as [[Hp Hkey]|[-> Habs]].
  - destruct (Z.leb_spec 0 p); [|lia]. destruct (unlink_ok o l i p key Hok Hl Hread Hp Hkey) as
      (o' & -> & Hok' & Hne' & _ & l1 & v & l2 & Hmap & Hl1 & Hmap'). cbn [mbind option_bind].
    destruct (members_split o p key v l1 l2 Hok Hmap Hl1) as (Hm & H1 & H2). exists o'. rewrite Hm, alist_get_mid by done.
    split_and!; try done. rewrite alist_erase_mid by done. unfold members. by rewrite omap_map, Hmap', omap_app.
  - change (0 <=? -1) with false. pose proof (members_none o key Habs) as Hno. exists o.
    rewrite (proj2 (alist_get_None key (members o)) Hno). split_and!; try done. by rewrite alist_erase_none.
Qed.

Lemma clear_ok o : object_ok o -> object_ok (clear o) /\ members (clear o) = [].
Proof.
  intros Hok. split; [|done]. unfold clear. split; cbn [hash_ os_ osize capacity_]; try done.
  - intros [b'|q] b i p; cbn; [|by intros [_ []%in_bucket_nil]]. intros [-> ->] Hb. left.
    split; [|intros j _; apply in_bucket_nil]. unfold zlookup in Hb. destruct (b <? 0); [done|].
    by apply list_elem_of_lookup_2, list_elem_of_In, repeat_spec in Hb.
  - intros a b k Ha. by rewrite key_at_nil in Ha.
  - pose proof (ok_capacity o Hok). assert (0 <= n_ o) by apply zlength_nonneg. change (0 <= capacity_ o). lia.
Qed.

(** A sequence of operations of [Json] on the table of an object that is not
    shared: insert, set, erase, get, clear. *)
Inductive op : Type :=
  | OInsert (key : list Z) (v : A) | OSet (key : list Z) (v : A) | OErase (key : list Z)
  | OGet (key : list Z) | OClear.
(** What an operation answers. *)
Definition answer : Type := option A.
Definition step (null : A) o (x : op) : option (object A * answer) :=
  match x with
  | OInsert key v => r ← find_insert o key v; Some (snd r, None)
  | OSet key v => r ← get_insert null o key; o ← set_value (snd r) (fst r) v; Some (o, None)
  | OErase key => r ← erase_key o key; Some (snd r, None)
  | OGet key => p ← find o key; if 0 <=? p then v ← value_at o p; Some (o, Some v) else Some (o, None)
  | OClear => Some (clear o, None)
  end.
Definition spec_step l (x : op) : list (list Z * A) * answer :=
  match x with
  | OInsert key v => (alist_insert key v l, None)
  | OSet key v => (alist_set key v l, None)
  | OErase key => (alist_erase key l, None)
  | OGet key => (l, alist_get key l)
  | OClear => ([], None)
  end.
Fixpoint run (null : A) o (xs : list op) : option (object A * list answer) :=
  match xs with
  | [] => Some (o, [])
  | x :: xs => r ← step null o x; r2 ← run null (fst r) xs; Some (fst r2, snd r :: snd r2)
  end.
Fixpoint spec_run l (xs : list op) : list (list Z * A) * list answer :=
  match xs with
  | [] => (l, [])
  | x :: xs => let r := spec_step l x in let r2 := spec_run (fst r) xs in (fst r2, snd r :: snd r2)
  end.
(** No erase comes before the first insertion. *)
Fixpoint inserted_first (xs : list op) : Prop :=
  match xs with
  | OErase _ :: _ => False
  | (OInsert _ _ | OSet _ _) :: _ => True
  | _ :: xs => inserted_first xs
  | [] => True
  end.

Lemma step_spec null o x : object_ok o -> (hash_ o = [] -> inserted_first [x]) ->
  exists o' r, step null o x = Some (o', r) /\ spec_step (members o) x = (members o', r) /\ object_ok o' /\
    (hash_ o <> [] -> hash_ o' <> []) /\ (hash_ o' = [] -> forall xs, inserted_first (x :: xs) -> inserted_first xs).
Proof.
  intros Hok Hfirst. destruct x as [key v|key v|key|key|]; cbn [step spec_step].
  - destruct (find_insert_spec o key v Hok) as (p & o' & -> & Hok' & Hne & _ & Hm). cbn. rewrite <- Hm.
    eexists _, _. split_and!; try done.
  - unfold get_insert. destruct (find_insert_spec o key null Hok) as (p & o1 & -> & Hok1 & Hne & Hk & Hm). cbn.
    destruct (set_value_spec o1 p key v Hok1 Hk) as (o2 & -> & Hok2 & Hh & _ & Hm2). cbn.
    eexists _, _. split; [done|]. split_and!; try done; [|by rewrite Hh..]. f_equal. rewrite Hm2, Hm. unfold alist_set, alist_insert.
    destruct (alist_get key (members o)) eqn:E; [done|]. apply alist_get_None in E. symmetry.
    by rewrite (alist_replace_mid key null v (members o) [] E (not_elem_of_nil _)).
  - destruct (erase_key_spec o key Hok) as (o' & -> & Hok' & Hne & Hm); [intros E; by apply Hfirst in E|]. cbn. rewrite <- Hm.
    eexists _, _. split_and!; try done.
  - destruct (find_spec o key Hok) as (p & -> & [[Hp Hk]|[-> Hno]]); cbn [mbind option_bind].
    + destruct (Z.leb_spec 0 p); [|lia]. destruct (key_at_split o p key Hk) as (l1 & l2 & v & Hmap & Hl1 & ->). cbn [mbind option_bind].
      destruct (members_split o p key v l1 l2 Hok Hmap Hl1) as (Hm & H1 & _). eexists _, _. split; [done|]. split_and!; try done.
      rewrite Hm at 2. by rewrite alist_get_mid.
    + eexists _, _. split; [done|]. split_and!; try done. by rewrite (proj2 (alist_get_None key _) (members_none o key Hno)).
  - destruct (clear_ok o Hok) as [Hok' Hm]. eexists _, _. split; [done|]. split_and!; try done.
    cbn. intros Hne E. apply Hne. by destruct (hash_ o).
Qed.

Lemma run_spec null xs : forall o, object_ok o -> (hash_ o = [] -> inserted_first xs) ->
  exists o' rs, run null o xs = Some (o', rs) /\ spec_run (members o) xs = (members o', rs) /\ object_ok o'.
Proof.
  induction xs as [|x xs IH]; intros o Hok Hf; [by exists o, []|]. cbn [run spec_run].
  destruct (step_spec null o x Hok) as (o1 & r & -> & Hs & Hok1 & Hne & Hnext).
  { intros E. specialize (Hf E). by destruct x. }
  destruct (IH o1 Hok1) as (o2 & rs & Hrun & Hspec & Hok2).
  { intros E. apply (Hnext E), Hf. destruct (hash_ o) eqn:Eo; [done|]. exfalso. by apply Hne. }
  cbn [mbind option_bind fst]. rewrite Hrun, Hs. cbn [fst snd mbind option_bind]. rewrite Hspec. by exists o2, (r :: rs).
Qed.

(** Erasing from a table without buckets looks up the bucket of the key in an
    empty vector. *)
Lemma run_erase_first null xs : forall o, object_ok o -> hash_ o = [] -> ~ inserted_first xs -> run null o xs = None.
Proof.
  induction xs as [|x xs IH]; intros o Hok Hh Hno; [by destruct Hno|]. cbn [run].
  destruct x as [key v|key v|key|key|]; try by destruct Hno.
  - assert (erase_key o key = None) as He; [|cbn [step]; by rewrite He].
    unfold erase_key. cbn [chain_fuel walk read_link]. rewrite Hh. unfold zlookup.
    by destruct (bucket o key <? 0).
  - destruct (step_spec null o (OGet key) Hok) as (o1 & r & Hs & _ & Hok1 & _); [done|]. rewrite Hs. cbn [mbind option_bind fst].
    rewrite IH; [done|done| |done]. cbn [step] in Hs. destruct (find o key) as [p|]; [|done]. cbn [mbind option_bind] in Hs.
    destruct (0 <=? p); [destruct (value_at o p)|]; by simplify_option_eq.
  - cbn [step mbind option_bind fst]. rewrite IH; [done|by apply clear_ok| |done]. cbn. by rewrite Hh.
Qed.
End spec.

(** C33: Any sequence of operations on the members of an object does what it
    does on an association list in the order of insertion, whatever the hash
    function and however the table grows, and answers the same, when the first
    erase comes after an insertion.  An erase before any insertion reads past
    the end of an empty vector. *)
Theorem object_refines_alist {A} (null : A) xs :
  (inserted_first xs -> exists o rs, run null ObjectJson.make xs = Some (o, rs) /\
     spec_run [] xs = (ObjectJson.members o, rs) /\ object_ok o) /\
  (~ inserted_first xs -> run null ObjectJson.make xs = None).
Proof.
  split; intros H.
  - apply (run_spec null xs ObjectJson.make make_ok). done.
  - by apply run_erase_first; [apply make_ok|..].
Qed.
Lemma object_refines_alist_witness :
  exists o rs, run 0 ObjectJson.make [OSet [97] 1; OSet [98] 2; OErase [97]; OSet [97] 3; OGet [98]] = Some (o, rs) /\
    ObjectJson.members o = [([98], 2); ([97], 3)] /\ last rs = Some (Some 2).
Proof.
  destruct (object_refines_alist 0 [OSet [97] 1; OSet [98] 2; OErase [97]; OSet [97] 3; OGet [98]]) as [H _].
  destruct (H I) as (o & rs & Hrun & Hs & _). exists o, rs. split; [exact Hrun|].
  split; [exact (eq_sym (f_equal fst Hs))|]. exact (eq_sym (f_equal (fun r => last (snd r)) Hs)).
Defined.
