(* ===== verification/Json.v ===== *)
(** JSON values, [Json] of [src/json.hh] and [src/json.cc]: types, conversions,
    the operations on objects and arrays, arithmetic and printing.

    A value is what its representation stands for: the sharing of arrays and
    objects between copies, which every change undoes first ([uniqueify_array]
    and [uniqueify_object]), is not modelled, and a null pointer to a table is
    the empty table.  Doubles, and the conversions of numbers in the C library,
    are a parameter. *)
From S2P Require Import Prelude Compiler Memory Strings JsonObject.

(** [strtol] and [strtoul] with base 0 are [None] when they do not take the whole
    string. *)
Class Libc (D : Type) : Type := {
  strtol : list Z -> option Z;
  strtoul : list Z -> option Z;
  d_of_int : Z -> D;
  d_to_int : D -> Z;
  d_to_uint : D -> Z;
  d_nonzero : D -> bool;
  d_add : D -> D -> D;
  d_sub : D -> D -> D;
  d_neg : D -> D;
  d_bits : D -> Z;
  d_print : D -> list Z;
  strtod : list Z -> D }.

Inductive json (D : Type) : Type :=
  | JNull
  | JArray (a : list (json D))
  | JObject (o : object (json D))
  | JInt (x : Z)
  | JUnsigned (x : Z)
  | JDouble (d : D)
  | JBool (b : bool)
  | JString (s : list Z).
Arguments JNull {D}. Arguments JArray {D}. Arguments JObject {D}. Arguments JInt {D}.
Arguments JUnsigned {D}. Arguments JDouble {D}. Arguments JBool {D}. Arguments JString {D}.

(** ["%ld"] *)
Fixpoint digits (fuel : nat) (x : Z) (acc : list Z) : list Z :=
  match fuel with
  | O => acc
  | S fuel => if x <? 10 then 48 + x :: acc else digits fuel (x / 10) (48 + x mod 10 :: acc)
  end.
Definition decimal (x : Z) : list Z := if x <? 0 then 45 :: digits 20 (- x) [] else digits 20 x [].

(** [string_to_int_key] for an [unsigned], which wraps. *)
Fixpoint int_key_loop (s : list Z) (x : Z) : Z * list Z :=
  match s with
  | c :: s' => if isdigit c then int_key_loop s' (uwrap 32 (uwrap 32 (10 * x + c) - 48)) else (x, s)
  | [] => (x, s)
  end.
Definition string_to_int_key (s : list Z) : option Z :=
  match s with
  | [] => None
  | c :: s' =>
      if negb (isdigit c) || (c =? 48) && negb (zlength s' =? 0) then None
      else let '(x, rest) := int_key_loop s' (c - 48) in if zlength rest =? 0 then Some x else None
  end.

Definition json_null : list Z := [110; 117; 108; 108].
Definition json_false : list Z := [102; 97; 108; 115; 101].
Definition json_true : list Z := [116; 114; 117; 101].

Module Json.
Section json.
Context {D : Type} {libc : Libc D}.
Local Abbreviation json := (json D).
Implicit Types (j : json) (key : list Z).

(** ** Types *)
Definition is_null j : bool := match j with JNull => true | _ => false end.
Definition is_int j : bool := match j with JInt _ | JUnsigned _ => true | _ => false end.
Definition is_unsigned j : bool := match j with JUnsigned _ => true | _ => false end.
Definition is_nonnegint j : bool := match j with JUnsigned _ => true | JInt x => 0 <=? x | _ => false end.
Definition is_double j : bool := match j with JDouble _ => true | _ => false end.
Definition is_number j : bool := is_int j || is_double j.
Definition is_bool j : bool := match j with JBool _ => true | _ => false end.
Definition is_string j : bool := match j with JString _ => true | _ => false end.
Definition is_array j : bool := match j with JArray _ => true | _ => false end.
Definition is_object j : bool := match j with JObject _ => true | _ => false end.
Definition is_primitive j : bool := is_number j || is_bool j || is_string j.
Definition size j : Z := match j with JArray a => zlength a | JObject o => osize o | _ => 0 end.
Definition empty j : bool :=
  match j with JNull => true | JArray _ | JObject _ => size j =? 0 | _ => false end.

(** ** Conversions *)
Definition hard_to_i j : Z :=
  match j with
  | JArray _ | JObject _ => size j
  | JBool b => Z.b2z b
  | JInt x => x
  | JUnsigned x => swrap 64 x
  | JDouble d => d_to_int d
  | JNull => 0
  | JString s => match strtol s with Some x => x | None => d_to_int (strtod s) end
  end.
Definition to_i j : Z := match j with JInt x => x | JUnsigned x => swrap 64 x | _ => hard_to_i j end.
Definition hard_to_u j : Z :=
  match j with
  | JArray _ | JObject _ => size j
  | JBool b => Z.b2z b
  | JInt x => uwrap 64 x
  | JUnsigned x => x
  | JDouble d => d_to_uint d
  | JNull => 0
  | JString s => match strtoul s with Some x => x | None => d_to_uint (strtod s) end
  end.
Definition to_u j : Z := match j with JInt x => uwrap 64 x | JUnsigned x => x | _ => hard_to_u j end.
Definition hard_to_d j : D :=
  match j with
  | JArray _ | JObject _ => d_of_int (size j)
  | JBool b => d_of_int (Z.b2z b)
  | JInt x | JUnsigned x => d_of_int x
  | JDouble d => d
  | JNull => d_of_int 0
  | JString s => strtod s
  end.
Definition to_d j : D := match j with JDouble d => d | _ => hard_to_d j end.
Definition hard_to_b j : bool :=
  match j with
  | JArray _ | JObject _ => negb (empty j)
  | JBool b => b
  | JInt x | JUnsigned x => negb (x =? 0)
  | JDouble d => d_nonzero d
  | JNull => false
  | JString s => negb (zlength s =? 0)
  end.
Definition to_b j : bool := match j with JBool b => b | _ => hard_to_b j end.
Definition array_string : list Z := [91; 65; 114; 114; 97; 121; 93].
Definition object_string : list Z := [91; 79; 98; 106; 101; 99; 116; 93].
Definition hard_to_s j : list Z :=
  match j with
  | JArray _ => array_string
  | JObject _ => object_string
  | JBool b => if b then json_true else json_false
  | JInt x | JUnsigned x => decimal x
  | JDouble d => d_print d
  | JNull => []
  | JString s => s
  end.
Definition to_s j : list Z := match j with JString s => s | _ => hard_to_s j end.

(** [None] is a failed precondition. *)
Definition as_d j : option D :=
  match j with JDouble d => Some d | JInt x | JUnsigned x => Some (d_of_int x) | _ => None end.
Definition as_i j : option Z :=
  match j with JInt x => Some x | JUnsigned x => Some (swrap 64 x) | JDouble d => Some (d_to_int d) | _ => None end.
Definition as_u j : option Z :=
  match j with JInt x => Some (uwrap 64 x) | JUnsigned x => Some x | JDouble d => Some (d_to_uint d) | _ => None end.
Definition as_s j : option (list Z) := match j with JString s => Some s | _ => None end.
Definition as_b j : option bool := match j with JBool b => Some b | _ => None end.

(** ** The table or the elements, after a conversion *)
Fixpoint object_of_array (i : Z) (a : list json) (o : object json) : option (object json) :=
  match a with
  | [] => Some o
  | x :: a => r ← ObjectJson.find_insert o (decimal i) x; object_of_array (i + 1) a (snd r)
  end.
Definition uniqueify_object (convert : bool) j : option (object json) :=
  match j with
  | JObject o => Some o
  | JNull => Some ObjectJson.make
  | JArray a => if convert then object_of_array 0 a ObjectJson.make else None
  | _ => if convert then Some ObjectJson.make else None
  end.
(** Element [i], with null elements up to it. *)
Definition extend_to (a : list json) (i : Z) : list json := a ++ repeat JNull (Z.to_nat (i + 1 - zlength a)).
(** The index is converted to [int], and one more, for the new capacity. *)
Fixpoint array_of_items (os : list (item json)) (a : list json) : option (list json) :=
  match os with
  | [] => Some a
  | Item k v _ :: os =>
      match string_to_int_key k with
      | Some i =>
          if 2 ^ 31 - 1 <=? i then None
          else a ← zset (extend_to a i) i v; array_of_items os a
      | None => array_of_items os a
      end
  | Dead :: os => array_of_items os a
  end.
Definition uniqueify_array (convert : bool) j : option (list json) :=
  match j with
  | JArray a => Some a
  | JNull => Some []
  | JObject o => if convert then array_of_items (os_ o) [] else None
  | _ => if convert then Some [] else None
  end.

(** ** Objects *)
(** A reference to a part of a value: an element, or the item of a table. *)
Inductive step : Type := SIndex (i : Z) | SItem (p : Z).
Definition count j key : option Z :=
  match j with
  | JNull => Some 0
  | JObject o => p ← ObjectJson.find o key; Some (if 0 <=? p then 1 else 0)
  | _ => None
  end.
Definition hard_get j key : json :=
  match j with
  | JArray a => default JNull (i ← string_to_int_key key; zlookup a i)
  | _ => JNull
  end.
Definition get_key j key : option json :=
  match j with
  | JObject o =>
      p ← ObjectJson.find o key;
      if 0 <=? p then ObjectJson.value_at o p else Some (hard_get j key)
  | _ => Some (hard_get j key)
  end.
Definition get_insert_key j key : option (step * json) :=
  o ← uniqueify_object true j;
  r ← ObjectJson.get_insert JNull o key;
  Some (SItem (fst r), JObject (snd r)).
Definition set_key j key (value : json) : option json :=
  o ← uniqueify_object true j;
  r ← ObjectJson.get_insert JNull o key;
  o ← ObjectJson.set_value (snd r) (fst r) value;
  Some (JObject o).
Definition unset j key : option json :=
  match j with
  | JObject o => r ← ObjectJson.erase_key o key; Some (JObject (snd r))
  | _ => Some j
  end.
Definition insert_item j key (value : json) : option (Z * bool * json) :=
  if negb (is_object j) then None
  else
    o ← uniqueify_object false j;
    r ← ObjectJson.find_insert o key value;
    Some (fst r, fst r =? ObjectJson.n_ o, JObject (snd r)).
Definition erase_key j key : option (Z * json) :=
  if negb (is_object j) then None
  else o ← uniqueify_object false j; r ← ObjectJson.erase_key o key; Some (fst r, JObject (snd r)).
Fixpoint merge_items (xs : list (item json)) (o : object json) : option (object json) :=
  match xs with
  | [] => Some o
  | Item k v _ :: xs =>
      r ← ObjectJson.get_insert JNull o k;
      o ← ObjectJson.set_value (snd r) (fst r) v;
      merge_items xs o
  | Dead :: xs => merge_items xs o
  end.
Definition merge j (x : json) : option json :=
  if negb (is_object j || is_null j) then None
  else
    match x with
    | JObject xo => o ← uniqueify_object false j; o ← merge_items (os_ xo) o; Some (JObject o)
    | JNull => Some j
    | _ => None
    end.

(** ** Arrays *)
Definition hard_get_at j (x : Z) : option json :=
  match j with JObject _ => get_key j (decimal x) | _ => Some JNull end.
Definition get_at j (x : Z) : option json :=
  match j with
  | JArray a => match zlookup a x with Some v => Some v | None => hard_get_at j x end
  | _ => hard_get_at j x
  end.
Definition hard_get_insert_at j (x : Z) : option (step * json) :=
  match j with
  | JObject _ => get_insert_key j (decimal x)
  | _ =>
      a ← uniqueify_array true j;
      if x <? 0 then None else Some (SIndex x, JArray (extend_to a x))
  end.
Definition get_insert_at j (x : Z) : option (step * json) :=
  match j with
  | JArray a => match zlookup a x with Some _ => Some (SIndex x, j) | None => hard_get_insert_at j x end
  | _ => hard_get_insert_at j x
  end.
Definition insert_at j (pos : Z) (x : json) : option json :=
  a ← uniqueify_array false j;
  if (0 <=? pos) && (pos <=? zlength a) then
    Some (JArray (take (Z.to_nat pos) a ++ x :: drop (Z.to_nat pos) a))
  else None.
Definition push_back j (x : json) : option json := insert_at j (size j) x.
Definition back j : option json := match j with JArray a => last a | _ => None end.
Definition pop_back j : option json :=
  match j with JArray (_ :: _ as a) => Some (JArray (take (length a - 1) a)) | _ => None end.
Definition erase_range j (first last : Z) : option json :=
  if first <? last then
    a ← uniqueify_array false j;
    if (0 <=? first) && (last <=? zlength a) then
      Some (JArray (take (Z.to_nat first) a ++ drop (Z.to_nat last) a))
    else None
  else Some j.
Definition resize j (n : Z) : option json :=
  a ← uniqueify_array false j;
  let a := take (Z.to_nat n) a in
  Some (JArray (a ++ repeat JNull (Z.to_nat (n - zlength a)))).

(** ** Arithmetic *)
(** Numbers that are added: by the type of the argument. *)
Inductive number : Type := NInt (x : Z) | NUnsigned (x : Z) | NDouble (d : D).
Definition force_number j : option json :=
  match j with JNull => Some (JInt 0) | JInt _ | JDouble _ => Some j | _ => None end.
Definition force_double j : option json :=
  match j with
  | JNull => Some (JDouble (d_of_int 0))
  | JInt x => Some (JDouble (d_of_int x))
  | JDouble _ => Some j
  | _ => None
  end.
Definition arith (f : Z -> Z -> Z) (g : D -> D -> D) j (x : number) : option json :=
  match x with
  | NDouble d => j ← force_double j; match j with JDouble e => Some (JDouble (g e d)) | _ => None end
  | NInt x | NUnsigned x =>
      j ← force_number j;
      match j with
      | JInt y => Some (JInt (swrap 64 (f y x)))
      | JDouble e => Some (JDouble (g e (d_of_int x)))
      | _ => None
      end
  end.
Definition add : json -> number -> option json := arith Z.add d_add.
Definition subtract : json -> number -> option json := arith Z.sub d_sub.
(** [operator+=] and [operator-=] of a value: what is added for an integer is the
    own 64 bits, [u_]. *)
Definition own_u j : option Z :=
  match j with
  | JNull => Some 0
  | JInt x => Some (uwrap 64 x)
  | JUnsigned x => Some x
  | JBool b => Some (Z.b2z b)
  | JDouble d => Some (d_bits d)
  | _ => None
  end.
Definition op_assign (f : json -> number -> option json) j (x : json) : option json :=
  match x with
  | JUnsigned _ => u ← own_u j; f j (NUnsigned u)
  | JInt _ => u ← own_u j; f j (NInt (swrap 64 u))
  | JNull => Some j
  | _ => d ← as_d x; f j (NDouble d)
  end.
Definition add_json : json -> json -> option json := op_assign add.
Definition subtract_json : json -> json -> option json := op_assign subtract.
Definition increment j : option json := add j (NInt 1).
Definition decrement j : option json := add j (NInt (-1)).
Definition negate j : option json :=
  j ← force_number j;
  match j with
  | JInt x => Some (JInt (swrap 64 (- x)))
  | JDouble d => Some (JDouble (d_neg d))
  | _ => None
  end.

(** ** Printing *)
Record unparse_manipulator : Type := mkManipulator {
  indent_depth : Z;
  tab_width : Z;
  newline_terminator : bool;
  space_separator : bool }.
Definition default_manipulator : unparse_manipulator := mkManipulator 0 0 false false.
(** The elements of an array, with their indices. *)
Fixpoint complex_elements (i : Z) (a : list json) : bool :=
  match a with
  | [] => false
  | x :: a =>
      negb (empty x)
        && (negb (is_primitive x)
            || match x with JString s => (4 <=? i) && (40 <? zlength s) | _ => false end)
      || complex_elements (i + 1) a
  end.
Definition unparse_is_complex j : bool :=
  match j with
  | JObject o =>
      (5 <? osize o)
        || existsb (fun x => match x with Item _ v _ => negb (empty v) && negb (is_primitive v) | Dead => false end)
             (os_ o)
  | JArray a => (1024 <? zlength a) || complex_elements 0 a
  | _ => false
  end.
Definition unparse_indent (m : unparse_manipulator) (depth : Z) : list Z :=
  let depth := depth * (if negb (tab_width m =? 0) then tab_width m else 8) in
  10 :: repeat 9 (Z.to_nat (Z.quot depth 8)) ++ repeat 32 (Z.to_nat (Z.rem depth 8)).
Definition upx (m : unparse_manipulator) (expanded : bool) : list Z * list Z :=
  if expanded then ([58; 32], [44])
  else if space_separator m then ([58; 32], [44; 32])
  else ([58], [44]).
Definition quoted (s : list Z) : list Z := 34 :: String.encode_json s [] ++ [34].
(** What is in front of a member or element. *)
Definition unparse_sep (m : unparse_manipulator) (expanded rest : bool) (depth : Z) : list Z :=
  (if rest then snd (upx m expanded) else []) ++ (if expanded then unparse_indent m (depth + 1) else []).
Fixpoint hard_unparse (m : unparse_manipulator) (depth : Z) j {struct j} : list Z :=
  let expanded := (depth <? indent_depth m) && unparse_is_complex j in
  let close := if expanded then unparse_indent m depth else [] in
  match j with
  | JObject (mkObject os _ _ _) =>
      123 ::
      (fix unparse_items (rest : bool) (os : list (item json)) : list Z :=
         match os with
         | [] => []
         | Item k v _ :: os =>
             unparse_sep m expanded rest depth ++ quoted k ++ fst (upx m expanded)
               ++ hard_unparse m (depth + 1) v ++ unparse_items true os
         | Dead :: os => unparse_items rest os
         end) false os ++ close ++ [125]
  | JArray a =>
      91 ::
      (fix unparse_elements (rest : bool) (a : list json) : list Z :=
         match a with
         | [] => []
         | x :: a =>
             unparse_sep m expanded rest depth ++ hard_unparse m (depth + 1) x ++ unparse_elements true a
         end) false a ++ close ++ [93]
  | JNull => json_null
  | JString s => quoted s
  | JBool b => if b then json_true else json_false
  | JInt x | JUnsigned x => decimal x
  | JDouble d => d_print d
  end ++ (if (depth =? 0) && newline_terminator m then [10] else []).
Definition unparse (m : unparse_manipulator) j : list Z := hard_unparse m 0 j.
End json.
End Json.
