(* ===== verification/JsonParser.v ===== *)
(** The streaming parser of JSON, [Json::streaming_parser] of [src/json.hh] and
    [src/json.cc], and [assign_parse].

    A pointer into the text is the rest of the chunk; the byte behind the chunk,
    which the parser may look at, is the parameter [past].  The pointers of the
    stack are the ways from the root of the value to its parts. *)
From S2P Require Import Prelude Compiler Memory Strings JsonObject Json.

(** * References into a value *)
Section path.
Context {D : Type}.
Local Abbreviation json := (json D).
Definition read_step (j : json) (s : Json.step) : option json :=
  match j, s with
  | JArray a, Json.SIndex i => zlookup a i
  | JObject o, Json.SItem p => ObjectJson.value_at o p
  | _, _ => None
  end.
Definition write_step (j : json) (s : Json.step) (v : json) : option json :=
  match j, s with
  | JArray a, Json.SIndex i => a ← zset a i v; Some (JArray a)
  | JObject o, Json.SItem p => o ← ObjectJson.set_value o p v; Some (JObject o)
  | _, _ => None
  end.
Fixpoint read_path (j : json) (path : list Json.step) : option json :=
  match path with
  | [] => Some j
  | s :: path => x ← read_step j s; read_path x path
  end.
Fixpoint write_path (j : json) (path : list Json.step) (v : json) : option json :=
  match path with
  | [] => Some v
  | s :: path => x ← read_step j s; x ← write_path x path v; write_step j s x
  end.
End path.

Module streaming_parser.
Definition st_final : Z := -2.
Definition st_error : Z := -1.
Definition st_partlenmask : Z := 15.
Definition st_partmask : Z := 255.
Definition st_stringpart : Z := 16.
Definition st_primitivepart : Z := 32.
Definition st_numberpart : Z := 64.
Definition st_initial : Z := 0.
Definition st_array_initial : Z := 256.
Definition st_array_value : Z := 512.
Definition st_object_value : Z := 768.
Definition st_array_delim : Z := 1024.
Definition st_object_delim : Z := 1280.
Definition st_object_initial : Z := 1536.
Definition st_object_key : Z := 1792.
Definition st_object_colon : Z := 2048.
Definition max_depth : Z := 2048.

Definition in_range (x low high : Z) : bool := uwrap 32 (x - low) <? high - low.
Definition has (state mask : Z) : bool := negb (Z.land state mask =? 0).
Definition clear_bits (state mask : Z) : Z := Z.land state (Z.lnot mask).
Definition isdig (c : Z) : bool := in_range c 48 58.
Definition isxdigit (c : Z) : bool := isdigit c || (65 <=? c) && (c <=? 70) || (97 <=? c) && (c <=? 102).
Definition is_space (c : Z) : bool := (c =? 32) || (c =? 10) || (c =? 13) || (c =? 9).

(** ** Strings *)
(** What a helper leaves: the state, the accumulator and the rest of the text. *)
Definition text : Type := Z * list Z * list Z.

(** Four hex digits from [first] on: the value and what follows them, or why not. *)
Inductive hex : Type := Hex (ch : Z) (rest : list Z) | HexEnd | HexError (at_ : list Z).
Fixpoint hex_digits (lower : bool) (n : nat) (ch : Z) (first : list Z) : hex :=
  match n with
  | O => Hex ch first
  | S n =>
      match first with
      | [] => HexEnd
      | c :: rest =>
          if in_range c 48 58 then hex_digits lower n (16 * ch + c - 48) rest
          else if in_range c 65 71 then hex_digits lower n (16 * ch + c - 65 + 10) rest
          else if lower && in_range c 97 103 then hex_digits lower n (16 * ch + c - 97 + 10) rest
          else HexError first
      end
  end.

(** An escape: the character and what follows it.  The digits of the second half
    of a surrogate pair are tested for 'A' to 'F' twice, and never for 'a' to
    'f'. *)
Inductive escape : Type := Escape (ch : Z) (last rest : list Z) | EscapeEnd | EscapeError (at_ : list Z).
Definition second_surrogate (ch : Z) (first : list Z) : escape :=
  match first with
  | [] => EscapeEnd
  | a :: f1 =>
      if negb (a =? 92) then EscapeError first
      else
        match f1 with
        | [] => EscapeEnd
        | b :: f2 =>
            if negb (b =? 117) then EscapeError f1
            else
              match hex_digits false 4 0 f2 with
              | HexEnd => EscapeEnd
              | HexError e => EscapeError e
              | Hex ch2 rest =>
                  let last := drop 3 f2 in
                  if negb (in_range ch2 56320 57344) then EscapeError last
                  else Escape (65536 + (ch - 55296) * 1024 + (ch2 - 56320)) last rest
              end
        end
  end.
Definition parse_escape (first : list Z) : escape :=
  match first with
  | _ :: [] => EscapeEnd
  | _ :: (c :: rest) as f1 =>
      if (c =? 34) || (c =? 92) || (c =? 47) then Escape c f1 rest
      else if c =? 98 then Escape 8 f1 rest
      else if c =? 102 then Escape 12 f1 rest
      else if c =? 110 then Escape 10 f1 rest
      else if c =? 114 then Escape 13 f1 rest
      else if c =? 116 then Escape 9 f1 rest
      else if c =? 117 then
        match hex_digits true 4 0 rest with
        | HexEnd => EscapeEnd
        | HexError e => EscapeError e
        | Hex ch after =>
            let last := drop 3 rest in
            if in_range ch 55296 57344 then
              if 56320 <=? ch then EscapeError last else second_surrogate ch after
            else Escape ch last after
        end
      else Escape 0 f1 rest
  | [] => EscapeEnd
  end.
Definition consume_backslash (state : Z) (sa first : list Z) : text :=
  match parse_escape first with
  | EscapeEnd => (Z.lor state (zlength first), sa ++ first, [])
  | EscapeError e => (st_error, sa, e)
  | Escape ch last rest =>
      if ch =? 0 then (st_error, sa, last)
      else
        match append_utf8 ch with
        | None => (st_error, sa, last)
        | Some enc => (state, sa ++ enc, rest)
        end
  end.

(** The check of a character of several bytes: where it fails, if it does. *)
Definition char_error (past : Z) (first : list Z) (want n : nat) : option (list Z) :=
  match first with
  | [] => None
  | c :: f1 =>
      let b1 := match f1 with b :: _ => b | [] => past end in
      if (1 <? n)%nat && negb (in_range b1 128 192)
         || (224 <=? c)
            && ((c =? 224) && (b1 <? 160) || (c =? 237) && (160 <=? b1)
                || (c =? 240) && (b1 <? 144) || (c =? 244) && (144 <=? b1))
      then Some f1
      else if (2 <? n)%nat && negb (in_range (default 0 (head (drop 2 first))) 128 192) then Some (drop 2 first)
      else if (3 <? n)%nat && negb (in_range (default 0 (head (drop 3 first))) 128 192) then Some (drop 3 first)
      else None
  end.
(** The loop of [consume_string] from [first] on, with [prev] behind it. *)
Fixpoint string_loop (fuel : nat) (past state : Z) (sa prev first : list Z) : option (Z * list Z * list Z * list Z) :=
  match fuel with
  | O => None
  | S fuel =>
      match first with
      | [] => Some (state, sa, prev, first)
      | c :: f1 =>
          if in_range c 32 128 && negb (c =? 92) && negb (c =? 34) then string_loop fuel past state sa prev f1
          else if c =? 92 then
            let '(state, sa, first) := consume_backslash state (sa ++ between prev first) first in
            if state =? st_error then Some (state, sa, first, first)
            else string_loop fuel past state sa first first
          else if c =? 34 then Some (state, sa, prev, first)
          else if negb (in_range c 194 245) then Some (st_error, sa, prev, first)
          else
            let want := Z.to_nat (2 + Z.b2z (224 <=? c) + Z.b2z (240 <=? c)) in
            let n := Nat.min (length first) want in
            match char_error past first want n with
            | Some e => Some (st_error, sa, prev, e)
            | None =>
                if (n =? want)%nat then string_loop fuel past state sa prev (drop n first)
                else Some (Z.lor state (Z.of_nat n), sa, prev, drop n first)
            end
      end
  end.
(** [consume_string] behind the completion of a part: the state, [str_] and the
    rest. *)
Definition string_body (past state : Z) (sa first : list Z) : option text :=
  r ← string_loop (S (length first)) past state sa first first;
  let '(state, sa, prev, first) := r in
  Some (
    if state =? st_error then (state, [], first)
    else
      let str := sa ++ between prev first in
      match first with
      | _ :: rest => (clear_bits state st_stringpart, str, rest)
      | [] => (Z.lor state st_stringpart, str, [])
      end).

(** The bytes of an incomplete sequence are the last ones of [sa]; [None] is a
    read in front of it. *)
Fixpoint consume_stringpart (past state : Z) (sa first : list Z) {struct first} : option text :=
  let part := Z.land state st_partlenmask in
  if part =? 0 then Some (state, sa, first)
  else
    match first with
    | [] => Some (state, sa, first)
    | c :: rest =>
        tag ← zlookup sa (zlength sa - part);
        if negb (tag =? 92) && negb (Z.land c 192 =? 128)
           || (tag =? 92) && (part =? 6) && negb (c =? 92)
           || (tag =? 92) && (part =? 7) && negb (c =? 117)
           || (tag =? 92) && negb (part =? 1) && negb (part =? 6) && negb (part =? 7) && negb (isxdigit c)
        then Some (st_error, sa, first)
        else
          let sa := sa ++ [c] in
          if negb (tag =? 92) && (part =? 1 + Z.b2z (224 <=? tag) + Z.b2z (240 <=? tag))
             || (tag =? 92) && ((part =? 1) || (part =? 5) || (part =? 11))
          then
            let k := Z.to_nat (zlength sa - part - 1) in
            r ← string_body past (state - Z.lor st_stringpart part) (take k sa) (drop k sa);
            let '(state, str, _) := r in
            if state =? st_error then Some (state, str, first) else consume_stringpart past state str rest
          else consume_stringpart past (state + 1) sa rest
    end.
Definition consume_string (past state : Z) (str first : list Z) : option text :=
  if has state st_partlenmask then
    r ← consume_stringpart past state str first;
    let '(state, sa, first) := r in
    if state =? st_error then Some (state, [], first) else string_body past state sa first
  else string_body past state str first.

(** ** Primitives *)
(** ["null\0false\0true"] *)
Definition primitives : list Z := json_null ++ 0 :: json_false ++ 0 :: json_true ++ [0].
Fixpoint match_primitive (t first : list Z) (n : Z) : option (Z * list Z) * list Z :=
  match t, first with
  | x :: t', c :: rest =>
      if x =? 0 then (Some (n, t), first)
      else if negb (x =? c) then (None, first) else match_primitive t' rest (n + 1)
  | _, _ => (Some (n, t), first)
  end.

(** ** Numbers *)
Definition take_digits (first : list Z) : list Z := String_generic.skip_while isdig first.
(** The [switch] over the position: the position reached and what is left. *)
Definition digits_after_exponent (first : list Z) : Z * list Z :=
  match first with
  | c :: rest => if isdig c then (9, take_digits rest) else (8, first)
  | [] => (8, first)
  end.
Definition exponent (first : list Z) : Z * list Z :=
  match first with
  | c :: rest => digits_after_exponent (if (c =? 43) || (c =? 45) then rest else first)
  | [] => (6, first)
  end.
Definition maybe_exponent (position : Z) (first : list Z) : Z * list Z :=
  match first with
  | c :: rest => if (c =? 101) || (c =? 69) then exponent rest else (position, first)
  | [] => (position, first)
  end.
Definition decimals (position : Z) (first : list Z) : Z * list Z :=
  let first := take_digits first in
  if negb (zlength first =? 0) && (position =? 5) then maybe_exponent position first else (position, first).
Definition decimal_point (first : list Z) : Z * list Z :=
  match first with
  | c :: rest => if isdig c then decimals 5 rest else decimals 4 first
  | [] => decimals 4 first
  end.
Definition after_integer (position : Z) (first : list Z) : Z * list Z :=
  match first with
  | c :: rest => if c =? 46 then decimal_point rest else maybe_exponent position first
  | [] => maybe_exponent position first
  end.
Definition integer_part (first : list Z) : Z * list Z :=
  match first with
  | c :: rest =>
      if c =? 48 then after_integer 3 rest
      else if in_range c 49 58 then after_integer 1 (take_digits rest)
      else after_integer 2 first
  | [] => after_integer 2 first
  end.
Definition scan_number (position : Z) (first : list Z) : Z * list Z :=
  if position =? 0 then integer_part (match first with c :: rest => if c =? 45 then rest else first | [] => first end)
  else if position =? 2 then integer_part first
  else if position =? 1 then after_integer 1 (take_digits first)
  else if position =? 3 then after_integer 3 first
  else if position =? 4 then decimal_point first
  else if position =? 5 then decimals 5 first
  else if position =? 6 then exponent first
  else if position =? 8 then digits_after_exponent first
  else if position =? 9 then (9, take_digits first)
  else (position, first).
Definition digits_value (s : list Z) : Z :=
  fold_left (fun x c => uwrap 64 (uwrap 64 (x * 10 + c) - 48)) s 0.

Section parser.
Context {D : Type} {libc : Libc D}.
Local Abbreviation json := (json D).

(** The value of a number that ends in [position]. *)
Definition number_value (position : Z) (s : list Z) : json :=
  match s with
  | [c] => JInt (c - 48)
  | c :: s' =>
      if position <? 4 then
        if c =? 45 then JInt (swrap 64 (- swrap 64 (digits_value s'))) else JUnsigned (digits_value s)
      else JDouble (strtod s)
  | [] => JDouble (strtod s)
  end.

Record t : Type := mkParser {
  state_ : Z;
  stack_ : list (list Json.step);
  str_ : list Z;
  json_ : json }.
Definition make : t := mkParser st_initial [] [] JNull.
Definition reset (p : t) : t := mkParser st_initial [] (str_ p) (json_ p).
Definition done (p : t) : bool := state_ p <? 0.
Definition success (p : t) : bool := state_ p =? st_final.
Definition with_state (s : Z) (p : t) : t := mkParser s (stack_ p) (str_ p) (json_ p).
Definition with_str (s : list Z) (p : t) : t := mkParser (state_ p) (stack_ p) s (json_ p).
Definition error_at (p : t) (here : list Z) : t * list Z := (with_state st_error p, here).
(** [stack_] has its top first. *)
Definition current (p : t) : list Json.step := match stack_ p with path :: _ => path | [] => [] end.

Definition consume_primitive (p : t) (first : list Z) : t * list Z * option json :=
  let '(n, p, first) :=
    if has (state_ p) st_primitivepart then
      (Z.land (state_ p) st_partlenmask, with_state (clear_bits (state_ p) st_partmask) p, first)
    else
      (match first with c :: _ => if c =? 110 then 1 else if c =? 102 then 6 else 12 | [] => 12 end, p, drop 1 first) in
  match match_primitive (drop (Z.to_nat n) primitives) first n with
  | (None, here) => let '(p, here) := error_at p here in (p, here, None)
  | (Some (n, t), first) =>
      if negb (default 0 (head t) =? 0) then
        (with_state (Z.lor (state_ p) (Z.lor st_primitivepart n)) p, first, None)
      else if n =? 4 then (p, first, Some JNull)
      else if n =? 10 then (p, first, Some (JBool false))
      else (p, first, Some (JBool true))
  end.

Definition consume_number (complete : bool) (p : t) (first : list Z) : t * list Z * option json :=
  let prev := first in
  let '(position, first) := scan_number (Z.land (state_ p) st_partlenmask) first in
  if negb (zlength first =? 0) || complete then
    if Z.even position then let '(p, here) := error_at (with_str [] p) first in (p, here, None)
    else
      let s := (if has (state_ p) st_partlenmask then str_ p else []) ++ between prev first in
      (with_str [] (with_state (clear_bits (state_ p) st_partmask) p), first, Some (number_value position s))
  else
    let s := (if has (state_ p) st_partmask then str_ p else []) ++ between prev first in
    (with_str s (with_state (Z.lor (Z.lor (clear_bits (state_ p) st_partmask) st_numberpart) position) p), first, None).

(** ** The [value:] and [close_value:] parts of [consume] *)
(** A dangling reference is [None]. *)
Definition value (p : t) (j : json) : option t :=
  let path := current p in
  cur ← read_path (json_ p) path;
  r ← (if negb (state_ p =? st_initial) && Json.is_array cur then
         a ← Json.push_back cur j; Some (a, path ++ [Json.SIndex (Json.size cur)])
       else Some (j, path));
  let '(v, jp) := r in
  root ← write_path (json_ p) path v;
  let stack := if state_ p =? st_object_value then tail (stack_ p) else stack_ p in
  Some (
    if Json.is_array j || Json.is_object j then
      mkParser (if Json.is_array j then st_array_initial else st_object_initial)
        (if negb (state_ p =? st_initial) then jp :: stack else stack) (str_ p) root
    else
      mkParser
        (if state_ p =? st_object_value then st_object_delim
         else if (state_ p =? st_array_initial) || (state_ p =? st_array_value) then st_array_delim
         else st_final) stack (str_ p) root).
Definition close_value (p : t) : option t :=
  match stack_ p with
  | [] => Some (with_state st_final p)
  | _ :: stack =>
      let p := mkParser (state_ p) stack (str_ p) (json_ p) in
      cur ← read_path (json_ p) (current p);
      Some (with_state (if Json.is_array cur then st_array_delim else st_object_delim) p)
  end.
(** The parts of [consume] that a chunk can start in. *)
Definition string_value (past : Z) (p : t) (first : list Z) : option (t * list Z) :=
  r ← consume_string past (state_ p) (str_ p) first;
  let '(state, str, first) := r in
  let p := with_str str (with_state state p) in
  if (0 <=? state) && negb (has state st_stringpart) then p ← value p (JString str); Some (p, first)
  else Some (p, first).
Definition string_object_key (past : Z) (p : t) (first : list Z) : option (t * list Z) :=
  r ← consume_string past (state_ p) (str_ p) first;
  let '(state, str, first) := r in
  let p := with_str str (with_state state p) in
  if (0 <=? state) && negb (has state st_stringpart) then
    cur ← read_path (json_ p) (current p);
    r ← Json.get_insert_key cur str;
    root ← write_path (json_ p) (current p) (snd r);
    Some (mkParser state ((current p ++ [fst r]) :: stack_ p) str root, first)
  else Some (p, first).
Definition primitive (p : t) (first : list Z) : option (t * list Z) :=
  let '(p, first, j) := consume_primitive p first in
  match j with Some j => p ← value p j; Some (p, first) | None => Some (p, first) end.
Definition number (complete : bool) (p : t) (first : list Z) : option (t * list Z) :=
  let '(p, first, j) := consume_number complete p first in
  match j with Some j => p ← value p j; Some (p, first) | None => Some (p, first) end.

(** A new array or object; the first one reuses the table of the last result. *)
Definition open_value (p : t) (fresh : json) (reuse : json -> option json) : option t :=
  match (if state_ p =? st_initial then reuse (json_ p) else None) with
  | Some j => value (mkParser (state_ p) (stack_ p) (str_ p) JNull) j
  | None => value p fresh
  end.
Definition reuse_object (j : json) : option json :=
  match j with JObject o => Some (JObject (ObjectJson.clear o)) | _ => None end.
Definition reuse_array (j : json) : option json :=
  match j with JArray _ => Some (JArray []) | _ => None end.

(** One turn of the loop, at the byte [c] in front of [rest]. *)
Definition consume_one (past : Z) (complete : bool) (p : t) (c : Z) (rest : list Z) : option (t * list Z) :=
  let first := c :: rest in
  let state := state_ p in
  let error_here := Some (error_at p first) in
  let continue p := Some (p, rest) in
  if is_space c then Some (p, String_generic.skip_while is_space first)
  else if c =? 44 then
    if state =? st_array_delim then continue (with_state st_array_value p)
    else if state =? st_object_delim then continue (with_state st_object_key p)
    else error_here
  else if c =? 58 then
    if state =? st_object_colon then continue (with_state st_object_value p) else error_here
  else if c =? 123 then
    if state <=? st_object_value then
      if zlength (stack_ p) =? max_depth then error_here
      else p ← open_value p (JObject ObjectJson.make) reuse_object; continue p
    else error_here
  else if c =? 125 then
    if (state =? st_object_initial) || (state =? st_object_delim) then p ← close_value p; continue p
    else error_here
  else if c =? 91 then
    if state <=? st_object_value then
      if zlength (stack_ p) =? max_depth then error_here
      else p ← open_value p (JArray []) reuse_array; continue p
    else error_here
  else if c =? 93 then
    if (state =? st_array_initial) || (state =? st_array_delim) then p ← close_value p; continue p
    else error_here
  else if c =? 34 then
    if state <=? st_object_value then string_value past (with_str [] p) rest
    else if (state =? st_object_initial) || (state =? st_object_key) then
      string_object_key past (with_str [] (with_state st_object_colon p)) rest
    else error_here
  else if (c =? 110) || (c =? 102) || (c =? 116) then
    if state <=? st_object_value then primitive p first else error_here
  else if (c =? 45) || isdigit c then
    if state <=? st_object_value then number complete p first else error_here
  else error_here.
Fixpoint consume_loop (fuel : nat) (past : Z) (complete : bool) (p : t) (first : list Z) : option (t * list Z) :=
  if negb (0 <=? state_ p) then Some (p, first)
  else
    match first with
    | [] => Some (p, first)
    | c :: rest =>
        match fuel with
        | O => None
        | S fuel =>
            r ← consume_one past complete p c rest;
            let '(p, first) := r in
            consume_loop fuel past complete p first
        end
    end.
(** With the part of a string, a primitive or a number that the last chunk left. *)
Definition consume (past : Z) (complete : bool) (p : t) (first : list Z) : option (t * list Z) :=
  let state := state_ p in
  r ← (if (0 <=? state) && has state st_partmask then
         if has state st_stringpart && (st_object_colon <=? state) then string_object_key past p first
         else if has state st_stringpart then string_value past p first
         else if has state st_primitivepart then primitive p first
         else number complete p first
       else Some (p, first));
  let '(p, first) := r in
  consume_loop (length first) past complete p first.

(** [Json::assign_parse] into [j]. *)
Definition assign_parse (past : Z) (j : json) (s : list Z) : option (bool * json) :=
  r ← consume past true make s;
  let '(p, first) := r in
  let first := match first with c :: rest => if is_space c then rest else first | [] => first end in
  Some (if (zlength first =? 0) && success p then (true, json_ p) else (false, j)).
Definition parse (past : Z) (s : list Z) : option json :=
  r ← assign_parse past JNull s; Some (snd r).
End parser.
End streaming_parser.
