(* ===== verification/JsonText.v ===== *)
(** Strings through JSON: what [encode_json] writes for a text, the parser of
    [JsonParser] reads back. *)
From S2P Require Import Prelude Compiler Memory Strings StringsSpec JsonObject Json JsonParser.
Import streaming_parser.

Ltac Zify.zify_post_hook ::= Z.div_mod_to_equations.

(** * Texts *)
(** The characters that survive: not 0, and not the line separators U+2028 and
    U+2029, which are written as escapes that [append_utf8] gets wrong. *)
Definition text_char (c : Z) : Prop := scalar c /\ c <> 8232 /\ c <> 8233.
Definition json_text (s : list Z) : Prop := exists cs, Forall text_char cs /\ s = concat (map utf8 cs).

(** A character in front of which there is a backslash. *)
Definition escaped (c : Z) : bool := (c <? 32) || (c =? 92) || (c =? 34) || (c =? 47).
Definition esc_char (c : Z) : list Z :=
  if c <? 128 then if escaped c then 92 :: String.json_escape c else [c] else utf8 c.

(** The bytes of a character that takes several. *)
Inductive multibyte (c : Z) : list Z -> Prop :=
  | bytes2 a b : 194 <= a < 224 -> 128 <= b < 192 -> multibyte c [a; b]
  | bytes3 a b d : 224 <= a < 240 -> 128 <= b < 192 -> 128 <= d < 192 -> (a = 224 -> 160 <= b) ->
      (a = 237 -> b < 160) -> c = (a - 224) * 4096 + (b - 128) * 64 + (d - 128) -> multibyte c [a; b; d]
  | bytes4 a b d e : 240 <= a < 245 -> 128 <= b < 192 -> 128 <= d < 192 -> 128 <= e < 192 -> (a = 240 -> 144 <= b) ->
      (a = 244 -> b < 144) -> multibyte c [a; b; d; e].
Lemma utf8_multibyte c : scalar c -> 128 <= c -> multibyte c (utf8 c).
Proof.
  intros [Hr Hs] Hc. unfold utf8. destruct (Z.ltb_spec c 128); [lia|].
  destruct (Z.ltb_spec c 2048); [constructor; lia|].
  destruct (Z.ltb_spec c 65536); constructor; lia.
Qed.
Lemma utf8_ascii c : c < 128 -> utf8 c = [c].
Proof. intros Hc. unfold utf8. by destruct (Z.ltb_spec c 128); [|lia]. Qed.

(** * Writing *)
Lemma encode_json_plain c s last enc : escaped c = false ->
  ~ (c = 226 /\ exists d t, s = 128 :: d :: t /\ Z.lor d 1 = 169) ->
  String.encode_json_loop (c :: s) last enc = String.encode_json_loop s last enc.
Proof.
  intros Hc Hn. unfold escaped in Hc. rewrite !orb_false_iff in Hc. destruct Hc as [[[H1 H2] H3] H4].
  assert (Hp : (32 <=? c) && negb (c =? 92) && negb (c =? 34) && negb (c =? 47) = true).
  { rewrite H2, H3, H4. apply Z.ltb_ge in H1. by destruct (Z.leb_spec 32 c); [|lia]. }
  cbn [String.encode_json_loop]. rewrite Hp.
  destruct s as [|x s]; [done|].
  assert (Hx : x = 128 \/ x <> 128) by lia. destruct Hx as [->|Hx].
  - destruct s as [|d s]; [done|]. destruct (Z.eqb_spec c 226) as [->|]; [|done].
    destruct (Z.eqb_spec (Z.lor d 1) 169) as [E|]; [|done]. destruct Hn. split; [done|]. by exists d, s.
  - destruct x as [|x|x]; try done. do 8 (destruct x as [x|x|]; try done).
Qed.
Lemma encode_json_escaped c s last enc : escaped c = true -> 
  String.encode_json_loop (c :: s) last enc =
  String.encode_json_loop s s (enc ++ between last (c :: s) ++ 92 :: String.json_escape c).
Proof.
  intros Hc. unfold escaped in Hc. cbn [String.encode_json_loop].
  assert (Hp : (32 <=? c) && negb (c =? 92) && negb (c =? 34) && negb (c =? 47) = false).
  { destruct (c =? 92), (c =? 34), (c =? 47); rewrite ?andb_false_r; try done.
    rewrite !orb_false_r in Hc. apply Z.ltb_lt in Hc. by destruct (Z.leb_spec 32 c); [lia|]. }
  assert (Hn : c =? 226 = false).
  { apply Z.eqb_neq. intros ->. done. }
  rewrite Hp, Hn. cbn [andb]. destruct s as [|x s]; [done|].
  destruct x as [|x|x]; try done. do 8 (destruct x as [x|x|]; try done). by destruct s.
Qed.

Lemma encode_json_multibyte c s t last enc : multibyte c s -> c <> 8232 -> c <> 8233 ->
  String.encode_json_loop (s ++ t) last enc = String.encode_json_loop t last enc.
Proof.
  intros Hs H1 H2.
  assert (Hstep : forall a s, 128 <= a < 256 -> a <> 226 ->
    String.encode_json_loop (a :: s) last enc = String.encode_json_loop s last enc).
  { intros a s' Ha Hne. apply encode_json_plain; [|naive_solver]. unfold escaped.
    destruct (Z.ltb_spec a 32), (Z.eqb_spec a 92), (Z.eqb_spec a 34), (Z.eqb_spec a 47); done || lia. }
  destruct Hs as [a b Ha Hb|a b d Ha Hb Hd H3 H4 Hc|a b d e Ha Hb Hd He H3 H4]; cbn [app].
  - by rewrite !Hstep by lia.
  - destruct (Z.eq_dec a 226) as [->|]; [|by rewrite !Hstep by lia].
    rewrite encode_json_plain; [by rewrite !Hstep by lia|done|].
    intros [_ (d' & t' & [= -> <- <-] & E)].
    assert (Hd' : d ∈ seqZ 128 64) by (apply elem_of_seqZ; lia).
    assert (Hd'' : d = 168 \/ d = 169).
    { clear -E Hd'. repeat (apply elem_of_cons in Hd' as [->|Hd']; [try (vm_compute in E; discriminate E); by auto|]).
      by apply not_elem_of_nil in Hd'. }
    destruct Hd'' as [->| ->]; lia.
  - by rewrite !Hstep by lia.
Qed.
Lemma encode_json_chars cs : Forall text_char cs -> forall u enc,
  let '(last, enc') := String.encode_json_loop (concat (map utf8 cs)) (u ++ concat (map utf8 cs)) enc in
  enc' ++ last = enc ++ u ++ concat (map esc_char cs).
Proof.
  induction 1 as [|c cs (Hc & H1 & H2) Hcs IH]; intros u enc; cbn [map concat].
  - cbn. done.
  - unfold esc_char at 1. destruct (Z.ltb_spec c 128) as [Hlt|Hge].
    + rewrite utf8_ascii by done. cbn [app]. destruct (escaped c) eqn:E.
      * rewrite encode_json_escaped, between_app by done. specialize (IH [] (enc ++ u ++ 92 :: String.json_escape c)).
        cbn [app] in IH. destruct (String.encode_json_loop _ _ _) as [l e]. rewrite IH.
        by rewrite <- !app_assoc.
      * rewrite encode_json_plain; [|done|naive_solver lia].
        specialize (IH (u ++ [c]) enc). rewrite <- !app_assoc in IH. cbn [app] in IH.
        destruct (String.encode_json_loop _ _ _) as [l e]. rewrite IH. done.
    + rewrite (encode_json_multibyte c); [|by apply utf8_multibyte|done..].
      specialize (IH (u ++ utf8 c) enc). rewrite <- !app_assoc in IH.
      destruct (String.encode_json_loop _ _ _) as [l e]. done.
Qed.
Lemma encode_json_text cs : Forall text_char cs ->
  String.encode_json (concat (map utf8 cs)) [] = concat (map esc_char cs).
Proof.
  intros Hcs. unfold String.encode_json. pose proof (encode_json_chars cs Hcs [] []) as H. cbn [app] in H.
  by destruct (String.encode_json_loop _ _ _) as [l e].
Qed.

(** * Reading *)
Lemma in_range_iff x low high : 0 <= low <= high -> high < 2 ^ 31 -> 0 <= x < 2 ^ 31 ->
  in_range x low high = (low <=? x) && (x <? high).
Proof.
  intros Hl Hh Hx. unfold in_range, uwrap. destruct (Z.leb_spec low x).
  - rewrite Z.mod_small by lia. cbn. destruct (Z.ltb_spec (x - low) (high - low)), (Z.ltb_spec x high); done || lia.
  - cbn. replace (x - low) with ((x - low + 2 ^ 32) + (-1) * 2 ^ 32) by lia. rewrite Z.mod_add, Z.mod_small by lia.
    apply Z.ltb_ge. lia.
Qed.
Lemma consume_escape c state sa rest : 0 < c < 128 -> escaped c = true ->
  consume_backslash state sa (92 :: String.json_escape c ++ rest) = (state, sa ++ [c], rest).
Proof.
  intros Hc He.
  assert (Hin : c ∈ seqZ 1 31 ++ [34; 47; 92]).
  { unfold escaped in He. rewrite !orb_true_iff, Z.ltb_lt, !Z.eqb_eq in He. rewrite elem_of_app, elem_of_seqZ.
    rewrite !elem_of_cons. destruct He as [[[He|He]|He]|He]; [left; lia|right; tauto..]. }
  clear Hc He. cbn in Hin.
  repeat (apply elem_of_cons in Hin as [->|Hin]; [reflexivity|]). by apply not_elem_of_nil in Hin.
Qed.

(** The accumulator and what is pending in front of [rest], together. *)
Lemma string_loop_text past state cs : state <> st_error -> Forall text_char cs -> forall fuel sa u rest,
  (length (concat (map esc_char cs)) < fuel)%nat ->
  exists sa' u', string_loop fuel past state sa (u ++ concat (map esc_char cs) ++ 34 :: rest)
      (concat (map esc_char cs) ++ 34 :: rest) = Some (state, sa', u' ++ 34 :: rest, 34 :: rest) /\
    sa' ++ u' = sa ++ u ++ concat (map utf8 cs).
Proof.
  intros Hst. induction 1 as [|c cs (Hsc & H1 & H2) Hcs IH]; intros fuel sa u rest Hf.
  - exists sa, u. cbn [map concat app]. rewrite app_nil_r. destruct fuel as [|fuel]; [cbn in Hf; lia|]. done.
  - cbn [map concat] in Hf |- *. rewrite length_app in Hf. rewrite <- !app_assoc. set (T := concat (map esc_char cs) ++ 34 :: rest).
    destruct fuel as [|fuel]; [lia|].
    assert (Hec : esc_char c = if c <? 128 then if escaped c then 92 :: String.json_escape c else [c] else utf8 c) by done.
    rewrite Hec in Hf |- *. clear Hec. destruct Hsc as [Hr Hs]. destruct (Z.ltb_spec c 128) as [Hlt|Hge].
    + rewrite (utf8_ascii c) by done. destruct (escaped c) eqn:E.
      * cbn [app string_loop]. change (in_range 92 32 128) with true. cbn [andb negb Z.eqb Pos.eqb].
        change (92 :: String.json_escape c ++ T) with (92 :: String.json_escape c ++ T).
        rewrite between_app, consume_escape by (done || lia). apply Z.eqb_neq in Hst as Hst'. rewrite Hst'.
        cbn [length] in Hf. destruct (IH fuel ((sa ++ u) ++ [c]) [] rest) as (sa' & u' & Hl & Ha); [lia|].
        cbn [app] in Hl. exists sa', u'. split; [exact Hl|]. rewrite Ha. by rewrite <- !app_assoc.
      * cbn [app string_loop]. rewrite in_range_iff by lia.
        unfold escaped in E. rewrite !orb_false_iff, Z.ltb_ge in E. destruct E as [[[E1 E2] E3] E4].
        rewrite E2, E3. destruct (Z.leb_spec 32 c); [|lia]. destruct (Z.ltb_spec c 128); [|lia]. cbn [andb negb].
        cbn [length] in Hf. destruct (IH fuel sa (u ++ [c]) rest) as (sa' & u' & Hl & Ha); [lia|].
        rewrite <- app_assoc in Hl. exists sa', u'. split; [exact Hl|]. rewrite Ha. by rewrite <- !app_assoc.
    + destruct (IH fuel sa (u ++ utf8 c) rest) as (sa' & u' & Hl & Ha).
      { pose proof (utf8_multibyte c (conj Hr Hs) Hge) as Hm. destruct Hm; cbn [length] in Hf; lia. }
      exists sa', u'. rewrite <- !app_assoc in Hl, Ha. split; [|exact Ha]. rewrite <- Hl. clear Hl Ha Hf. fold T.
      assert (Hfirst : forall a, 194 <= a -> a < 245 -> in_range a 32 128 = false /\ (a =? 92) = false /\ (a =? 34) = false /\ in_range a 194 245 = true).
      { intros a Ha1 Ha2. rewrite !in_range_iff by lia. split_and!; try (apply Z.eqb_neq; lia).
        - apply andb_false_iff. right. apply Z.ltb_ge. lia.
        - apply andb_true_iff. split; [apply Z.leb_le|apply Z.ltb_lt]; lia. }
      assert (Hcont : forall b, 128 <= b < 192 -> in_range b 128 192 = true).
      { intros b Hb. rewrite in_range_iff by lia. apply andb_true_iff. split; [apply Z.leb_le|apply Z.ltb_lt]; lia. }
      destruct (utf8_multibyte c (conj Hr Hs) Hge) as [a b Ha Hb|a b d Ha Hb Hd H3 H4 _|a b d e Ha Hb Hd He H3 H4];
        cbn [app string_loop]; destruct (Hfirst a) as (-> & -> & -> & ->); try lia; cbn [andb negb].
      * destruct (Z.leb_spec 224 a); [lia|]. destruct (Z.leb_spec 240 a); [lia|].
        change (Z.to_nat (2 + Z.b2z false + Z.b2z false)) with 2%nat.
        replace (Nat.min (length (a :: b :: T)) 2) with 2%nat by (cbn [length]; lia). cbn [char_error Nat.ltb Nat.leb].
        rewrite Hcont by done. destruct (Z.leb_spec 224 a); [lia|]. done.
      * destruct (Z.leb_spec 224 a); [|lia]. destruct (Z.leb_spec 240 a); [lia|].
        change (Z.to_nat (2 + Z.b2z true + Z.b2z false)) with 3%nat.
        replace (Nat.min (length (a :: b :: d :: T)) 3) with 3%nat by (cbn [length]; lia). unfold char_error. cbn [Nat.ltb Nat.leb drop head default].
        rewrite !Hcont by done. cbn [negb andb orb].
        destruct (Z.eqb_spec a 224), (Z.eqb_spec a 237), (Z.eqb_spec a 240), (Z.eqb_spec a 244); try lia;
          destruct (Z.ltb_spec b 160), (Z.leb_spec 160 b); try lia; rewrite ?andb_false_r; done.
      * destruct (Z.leb_spec 224 a); [|lia]. destruct (Z.leb_spec 240 a); [|lia].
        change (Z.to_nat (2 + Z.b2z true + Z.b2z true)) with 4%nat.
        replace (Nat.min (length (a :: b :: d :: e :: T)) 4) with 4%nat by (cbn [length]; lia). unfold char_error. cbn [Nat.ltb Nat.leb drop head default].
        rewrite !Hcont by done. cbn [negb andb orb].
        destruct (Z.eqb_spec a 224), (Z.eqb_spec a 237), (Z.eqb_spec a 240), (Z.eqb_spec a 244); try lia;
          destruct (Z.ltb_spec b 144), (Z.leb_spec 144 b); try lia; rewrite ?andb_false_r; done.
Qed.

(** A parser state in which no part of a token is open. *)
Definition quiet (state : Z) : Prop := 0 <= state /\ Z.land state 255 = 0.
Lemma quiet_land state m : quiet state -> Z.land m 255 = m -> Z.land state m = 0.
Proof. intros [_ Hq] <-. by rewrite (Z.land_comm m), Z.land_assoc, Hq. Qed.
Lemma quiet_clear state m : quiet state -> Z.land m 255 = m -> clear_bits state m = state.
Proof.
  intros Hq Hm. unfold clear_bits. apply Z.bits_inj'. intros n Hn. rewrite Z.land_spec, Z.lnot_spec by done.
  pose proof (quiet_land _ _ Hq Hm) as H. apply (f_equal (fun x => Z.testbit x n)) in H.
  rewrite Z.land_spec, Z.bits_0 in H. by destruct (Z.testbit state n), (Z.testbit m n).
Qed.
Lemma quiet_has state m : quiet state -> Z.land m 255 = m -> has state m = false.
Proof. intros Hq Hm. unfold has. by rewrite quiet_land. Qed.

Lemma consume_string_text past state s rest : quiet state -> json_text s ->
  consume_string past state [] (String.encode_json s [] ++ 34 :: rest) = Some (state, s, rest).
Proof.
  intros Hq (cs & Hcs & ->). rewrite encode_json_text by done. unfold consume_string, string_body.
  rewrite quiet_has by done.
  destruct (string_loop_text past state cs) with (fuel := S (length (concat (map esc_char cs) ++ 34 :: rest)))
    (sa := @nil Z) (u := @nil Z) (rest := rest) as (sa & u & Hl & Ha); [destruct Hq; unfold st_error; lia|done|rewrite length_app; lia|].
  cbn [app] in Hl, Ha. rewrite Hl. cbn [mbind option_bind]. rewrite between_app, Ha.
  destruct (Z.eqb_spec state st_error) as [->|]; [by destruct Hq|]. by rewrite quiet_clear.
Qed.

(** * Numbers *)
Lemma uwrap_sub x : uwrap 64 (uwrap 64 x - 48) = uwrap 64 (x - 48).
Proof. unfold uwrap. by rewrite Zminus_mod_idemp_l. Qed.
Lemma isdig_iff c : 0 <= c < 256 -> isdig c = (48 <=? c) && (c <? 58).
Proof. intros Hc. unfold isdig. by rewrite in_range_iff by lia. Qed.
Lemma isdig_true c : 48 <= c < 58 -> isdig c = true.
Proof. intros Hc. rewrite isdig_iff by lia. apply andb_true_iff. split; [apply Z.leb_le|apply Z.ltb_lt]; lia. Qed.

(** The digits of a number: no zero in front, and the value comes back. *)
Record digits_of (x : Z) (ds : list Z) : Prop := {
  do_digits : Forall (fun c => 48 <= c < 58) ds;
  do_value : digits_value ds = x;
  do_head : ds = [48] \/ exists c ds', ds = c :: ds' /\ c <> 48 }.
Lemma digits_spec fuel : forall x acc, 0 <= x < 2 ^ 64 -> x < 10 ^ Z.of_nat fuel -> (0 < fuel)%nat ->
  exists ds, digits fuel x acc = ds ++ acc /\ digits_of x ds.
Proof.
  induction fuel as [|fuel IH]; intros x acc Hx Hf Hp; [lia|]. cbn [digits]. destruct (Z.ltb_spec x 10) as [Hs|Hs].
  - exists [48 + x]. split; [done|]. split.
    + repeat constructor; lia.
    + unfold digits_value. cbn. rewrite uwrap_sub. replace (48 + x - 48) with x by lia.
      unfold uwrap. rewrite Z.mod_small; lia.
    + destruct (Z.eq_dec x 0) as [->|]; [by left|]. right. exists (48 + x), []. split; [done|lia].
  - assert (Hpow : 10 ^ Z.of_nat (S fuel) = 10 * 10 ^ Z.of_nat fuel).
    { rewrite Nat2Z.inj_succ, Z.pow_succ_r by lia. done. }
    assert (Hfuel : (0 < fuel)%nat) by (destruct fuel; [cbn in Hf; lia|lia]).
    destruct (IH (x / 10) (48 + x mod 10 :: acc)) as (ds & -> & [Hd Hv Hh]); [lia..|].
    exists (ds ++ [48 + x mod 10]). split; [by rewrite <- app_assoc|]. split.
    + apply Forall_app. split; [done|]. repeat constructor; lia.
    + unfold digits_value in *. rewrite fold_left_app, Hv. cbn [fold_left]. rewrite uwrap_sub.
      unfold uwrap. rewrite Z.mod_small; lia.
    + right. destruct Hh as [->|(c & ds' & -> & Hc)]; [|by exists c, (ds' ++ [48 + x mod 10])].
      change (0 = x / 10) in Hv. lia.
Qed.
Lemma digits_of_20 x : 0 <= x < 2 ^ 64 -> exists ds, digits 20 x [] = ds /\ digits_of x ds.
Proof.
  intros Hx. destruct (digits_spec 20 x []) as (ds & Hds & Hd); [done| |lia|].
  { change (10 ^ Z.of_nat 20) with 100000000000000000000. lia. }
  exists ds. rewrite app_nil_r in Hds. done.
Qed.

(** A text that does not continue a number. *)
Definition stops (rest : list Z) : Prop :=
  match rest with c :: _ => 0 <= c < 256 /\ isdig c = false /\ c <> 46 /\ c <> 101 /\ c <> 69 | [] => True end.
Lemma take_digits_app ds rest : Forall (fun c => 48 <= c < 58) ds -> stops rest -> take_digits (ds ++ rest) = rest.
Proof.
  intros Hds Hr. unfold take_digits. induction Hds as [|c ds Hc Hds IH]; cbn [app String_generic.skip_while].
  - destruct rest as [|c rest]; [done|]. destruct Hr as (_ & Hr & _). cbn. by rewrite Hr.
  - by rewrite isdig_true.
Qed.
Lemma after_integer_stops n rest : stops rest -> after_integer n rest = (n, rest).
Proof.
  destruct rest as [|c rest]; [done|]. intros (_ & _ & H1 & H2 & H3). cbn. 
  apply Z.eqb_neq in H1, H2, H3. by rewrite H1, H2, H3.
Qed.
Lemma integer_part_digits x ds rest : digits_of x ds -> stops rest ->
  exists n, integer_part (ds ++ rest) = (n, rest) /\ (n = 1 \/ n = 3).
Proof.
  intros [Hd _ [->|(c & ds' & -> & Hc)]] Hr.
  - exists 3. split; [|by right]. change (after_integer 3 rest = (3, rest)). by apply after_integer_stops.
  - exists 1. split; [|by left]. apply Forall_cons in Hd as [Hc' Hd]. cbn [app integer_part].
    destruct (Z.eqb_spec c 48); [lia|]. rewrite in_range_iff by lia. destruct (Z.leb_spec 49 c); [|lia].
    destruct (Z.ltb_spec c 58); [|lia]. cbn [andb]. rewrite take_digits_app by done. by apply after_integer_stops.
Qed.

Section number.
Context {D : Type} {libc : Libc D}.
Definition int_value (j : json D) : option Z :=
  match j with JInt x => Some x | JUnsigned x => Some x | _ => None end.
Lemma number_value_digits x ds n : digits_of x ds -> n = 1 \/ n = 3 -> 0 <= x < 2 ^ 64 ->
  int_value (number_value n ds) = Some x.
Proof.
  intros [Hd Hv Hh] Hn Hx. destruct ds as [|c ds]; [by destruct Hh as [?|(?&?&?&_)]|].
  apply Forall_cons in Hd as [Hc Hd]. cbn [number_value]. destruct ds as [|c2 ds].
  - cbn. f_equal. unfold digits_value in Hv. cbn in Hv. rewrite uwrap_sub in Hv. unfold uwrap in Hv.
    rewrite Z.mod_small in Hv by lia. lia.
  - destruct (Z.ltb_spec n 4); [|lia]. destruct (Z.eqb_spec c 45); [lia|]. cbn [int_value]. by rewrite Hv.
Qed.
Lemma number_value_negative x ds n : digits_of (- x) ds -> n = 1 \/ n = 3 -> - 2 ^ 63 <= x < 0 ->
  int_value (number_value n (45 :: ds)) = Some x.
Proof.
  intros [Hd Hv Hh] Hn Hx. cbn [number_value]. destruct ds as [|c ds]; [by destruct Hh as [?|(?&?&?&_)]|].
  destruct (Z.ltb_spec n 4); [|lia]. cbn [Z.eqb Pos.eqb int_value]. rewrite Hv. f_equal. unfold swrap. lia.
Qed.

(** The text of an integer, and what parsing it yields. *)
Lemma consume_integer p x rest : quiet (state_ p) -> - 2 ^ 63 <= x < 2 ^ 64 -> stops rest ->
  exists c t j, decimal x ++ rest = c :: t /\ (c = 45 \/ 48 <= c < 58) /\ int_value j = Some x /\
    consume_number true p (c :: t) = (with_str [] p, rest, Some j).
Proof.
  intros Hq Hx Hr.
  assert (Hgen : forall n s j, s <> [] -> scan_number 0 (s ++ rest) = (n, rest) -> n = 1 \/ n = 3 ->
    number_value n s = j -> consume_number true p (s ++ rest) = (with_str [] p, rest, Some j)).
  { intros n s j Hs Hscan Hn Hj. unfold consume_number. rewrite quiet_land by done. rewrite Hscan.
    rewrite orb_true_r, !quiet_has, between_app, quiet_clear by done. cbn [app]. rewrite Hj.
    destruct p. by destruct Hn as [->| ->]. }
  unfold decimal. destruct (Z.ltb_spec x 0) as [Hneg|Hpos].
  - destruct (digits_of_20 (- x)) as (ds & -> & Hds); [lia|].
    destruct (integer_part_digits _ _ _ Hds Hr) as (n & Hi & Hn).
    exists 45, (ds ++ rest), (number_value n (45 :: ds)). split_and!; [done|by left|apply number_value_negative; [done..|lia]|].
    apply (Hgen n (45 :: ds)); [done|exact Hi|done|done].
  - destruct (digits_of_20 x) as (ds & -> & Hds); [lia|].
    destruct (integer_part_digits _ _ _ Hds Hr) as (n & Hi & Hn).
    pose proof Hds as [Hd _ Hh]. destruct ds as [|c ds]; [by destruct Hh as [?|(?&?&?&_)]|].
    apply Forall_cons in Hd as [Hc Hd].
    exists c, (ds ++ rest), (number_value n (c :: ds)). split_and!; [done|by right|apply number_value_digits; [done..|lia]|].
    apply (Hgen n (c :: ds)); [done| |done|done]. unfold scan_number. cbn [app Z.eqb].
    destruct (Z.eqb_spec c 45); [lia|]. exact Hi.
Qed.
End number.
