(* ===== verification/JsonSpec.v ===== *)
(** Printing a JSON value and parsing it back, [Json::unparse] and
    [Json::assign_parse]: the value that is parsed is the one that was printed,
    under any layout. *)
From S2P Require Import Prelude Compiler Memory Strings StringsSpec JsonObject Json JsonParser JsonText.
Import streaming_parser.

(** * References *)
Section path.
Context {D : Type}.
Local Abbreviation json := (json D).
Implicit Types (j v w : json).

Lemma zset_zset {A} (l l' : list A) i (v w : A) : zset l i v = Some l' -> zset l' i w = zset l i w.
Proof.
  unfold zset. destruct ((0 <=? i) && (i <? zlength l)) eqn:E; [|done]. intros [= <-].
  replace (zlength (<[Z.to_nat i:=v]> l)) with (zlength l) by (unfold zlength; by rewrite length_insert).
  by rewrite E, list_insert_insert_eq.
Qed.
Lemma zlookup_zset {A} (l l' : list A) i (v : A) : zset l i v = Some l' -> zlookup l' i = Some v.
Proof.
  intros H. assert (Hi : 0 <= i < zlength l).
  { unfold zset in H. destruct (Z.leb_spec 0 i), (Z.ltb_spec i (zlength l)); done. }
  destruct (zset_spec l i v Hi) as (l1 & H1 & _ & Hl). rewrite H in H1. injection H1 as <-. by rewrite Hl, Z.eqb_refl.
Qed.

Lemma write_step_spec j s x v : read_step j s = Some x ->
  exists j', write_step j s v = Some j' /\ read_step j' s = Some v /\ forall w, write_step j' s w = write_step j s w.
Proof.
  intros H. destruct j as [|a|o| | | | |], s as [i|p]; try done; cbn [read_step write_step] in *.
  - destruct (zset_spec a i v) as (a' & Ha & _ & _); [by eapply zlookup_lt|]. rewrite Ha. cbn [mbind option_bind].
    eexists. split; [done|]. split; [by eapply zlookup_zset|]. intros w. cbn. by rewrite (zset_zset _ _ _ _ _ Ha).
  - unfold ObjectJson.value_at in H. destruct (zlookup (os_ o) p) as [[k y nx|]|] eqn:E; [|done..]. cbn in H.
    destruct (zset_spec (os_ o) p (Item k v nx)) as (s & Hs & _ & _); [by eapply zlookup_lt|].
    unfold ObjectJson.set_value. rewrite E. cbn [mbind option_bind]. rewrite Hs. cbn [mbind option_bind].
    eexists. split; [done|]. pose proof (zlookup_zset _ _ _ _ Hs) as Hl. split.
    + cbn. unfold ObjectJson.value_at. cbn. by rewrite Hl.
    + intros w. cbn. unfold ObjectJson.set_value. cbn [os_ hash_ osize capacity_]. rewrite Hl. cbn [mbind option_bind].
      by rewrite (zset_zset _ _ _ _ _ Hs).
Qed.
Lemma write_path_spec path : forall j x v, read_path j path = Some x ->
  exists j', write_path j path v = Some j' /\ read_path j' path = Some v /\
    forall w, write_path j' path w = write_path j path w.
Proof.
  induction path as [|s path IH]; intros j x v H; cbn [read_path write_path] in *; [by exists v|].
  destruct (read_step j s) as [y|] eqn:Hy; [|done]. cbn [mbind option_bind] in *.
  destruct (IH y x v H) as (y' & -> & Hr & Hw). cbn [mbind option_bind].
  destruct (write_step_spec j s y y' Hy) as (j' & Hj' & Hrs & Hws). exists j'. split; [done|]. rewrite Hrs. cbn.
  split; [done|]. intros w. rewrite Hw. destruct (write_path y path w); [|done]. apply Hws.
Qed.
Lemma read_path_app p : forall q j, read_path j (p ++ q) = x ← read_path j p; read_path x q.
Proof.
  induction p as [|s p IH]; intros q j; [done|]. cbn. destruct (read_step j s); [|done]. apply IH.
Qed.
Lemma write_path_app p : forall q j v,
  write_path j (p ++ q) v = x ← read_path j p; x ← write_path x q v; write_path j p x.
Proof.
  induction p as [|s p IH]; intros q j v; cbn [app read_path write_path].
  - cbn. by destruct (write_path j q v).
  - destruct (read_step j s) as [x|]; [|done]. cbn [mbind option_bind]. rewrite IH.
    destruct (read_path x p) as [y|]; [|done]. cbn [mbind option_bind]. by destruct (write_path y q v).
Qed.

(** A place in a value: what the value is for what is in the place. *)
Record place (path : list Json.step) (K : json -> json) : Prop := {
  pl_read : forall v, read_path (K v) path = Some v;
  pl_write : forall v w, write_path (K v) path w = Some (K w) }.
Lemma place_root : place [] (fun v => v).
Proof. done. Qed.
Lemma place_element path K (vs : list json) : place path K ->
  place (path ++ [Json.SIndex (zlength vs)]) (fun v => K (JArray (vs ++ [v]))).
Proof.
  intros [Hr Hw].
  assert (Hl : forall v : json, zlookup (vs ++ [v]) (zlength vs) = Some v).
  { intros v. unfold zlookup, zlength. destruct (Z.ltb_spec (Z.of_nat (length vs)) 0); [lia|]. rewrite Nat2Z.id. by apply list_lookup_middle. }
  split.
  - intros v. rewrite read_path_app, Hr. cbn. by rewrite Hl.
  - intros v w. rewrite write_path_app, Hr. cbn [mbind option_bind write_path read_step write_step]. rewrite Hl. cbn [mbind option_bind].
    assert (Hs : zset (vs ++ [v]) (zlength vs) w = Some (vs ++ [w])).
    { unfold zset, zlength. rewrite length_app. cbn [length].
      destruct (Z.leb_spec 0 (Z.of_nat (length vs))); [|lia].
      destruct (Z.ltb_spec (Z.of_nat (length vs)) (Z.of_nat (length vs + 1))); [|lia]. cbn [andb].
      rewrite Nat2Z.id. by rewrite insert_app_r_alt, Nat.sub_diag. }
    rewrite Hs. cbn [mbind option_bind]. by rewrite Hw.
Qed.
(** The table with another value in item [q]. *)
Definition set_item (o : object json) (q : Z) (v : json) : object json := default o (ObjectJson.set_value o q v).
Lemma place_item path K o q (x : json) : place path K -> ObjectJson.value_at o q = Some x ->
  place (path ++ [Json.SItem q]) (fun v => K (JObject (set_item o q v))).
Proof.
  intros [Hr Hw] Hx.
  assert (Hs : forall v, exists o', ObjectJson.set_value o q v = Some o' /\ ObjectJson.value_at o' q = Some v /\
    forall w, ObjectJson.set_value o' q w = ObjectJson.set_value o q w).
  { intros v. destruct (write_step_spec (JObject o) (Json.SItem q) x v Hx) as (j' & H1 & H2 & H3). cbn in H1.
    destruct (ObjectJson.set_value o q v) as [o'|]; [|done]. cbn in H1. injection H1 as <-. exists o'. split; [done|]. split; [done|].
    intros w. specialize (H3 w). cbn in H3. destruct (ObjectJson.set_value o' q w), (ObjectJson.set_value o q w); cbn in H3; congruence. }
  split.
  - intros v. rewrite read_path_app, Hr. cbn. unfold set_item. destruct (Hs v) as (o' & -> & Hv & _). cbn. by rewrite Hv.
  - intros v w. rewrite write_path_app, Hr. cbn. unfold set_item. destruct (Hs v) as (o' & -> & Hv & Hw'). cbn.
    rewrite Hv. cbn. rewrite Hw'. destruct (Hs w) as (o2 & -> & _). cbn. by apply Hw.
Qed.
End path.

(** * The parser between values *)
Section roundtrip.
Context {D : Type} {libc : Libc D}.
Local Abbreviation json := (json D).
Local Abbreviation t := (@t D).
Implicit Types (j v : json) (p : t).

Definition top (stack : list (list Json.step)) : list Json.step := match stack with path :: _ => path | [] => [] end.
(** A parser that expects a value, where the value goes, and the whole it makes. *)
Inductive hole : t -> list Json.step -> (json -> json) -> Prop :=
  | hole_root str : hole (mkParser st_initial [] str JNull) [] (fun v => v)
  | hole_element st stack str path K vs : place path K -> top stack = path ->
      st = st_array_initial \/ st = st_array_value ->
      hole (mkParser st stack str (K (JArray vs))) (path ++ [Json.SIndex (zlength vs)]) (fun v => K (JArray (vs ++ [v])))
  | hole_member stack str path K o q x : place path K -> top stack = path ->
      ObjectJson.value_at o q = Some x -> Json.is_array x = false ->
      hole (mkParser st_object_value ((path ++ [Json.SItem q]) :: stack) str (K (JObject o)))
        (path ++ [Json.SItem q]) (fun v => K (JObject (set_item o q v))).
Lemma hole_place p path K : hole p path K -> place path K.
Proof. intros [str|st stack str path' K' vs Hp _ _|stack str path' K' o q x Hp _ Hx _]; [apply place_root|by apply place_element|by eapply place_item]. Qed.

(** The stack and the state behind the value. *)
Definition popped p : list (list Json.step) := if state_ p =? st_object_value then tail (stack_ p) else stack_ p.
Definition delim p : Z :=
  if state_ p =? st_object_value then st_object_delim
  else if (state_ p =? st_array_initial) || (state_ p =? st_array_value) then st_array_delim
  else st_final.
Definition opened p (path : list Json.step) : list (list Json.step) :=
  if negb (state_ p =? st_initial) then path :: popped p else popped p.
Lemma value_hole p path K v : hole p path K ->
  value p v = Some (
    if Json.is_array v || Json.is_object v then
      mkParser (if Json.is_array v then st_array_initial else st_object_initial) (opened p path) (str_ p) (K v)
    else mkParser (delim p) (popped p) (str_ p) (K v)).
Proof.
  intros [str|st stack str path' K' vs [Hr Hw] Ht Hst|stack str path' K' o q x Hp Ht Hx Ha].
  - unfold value. cbn. by destruct v.
  - unfold value. replace (current _) with path' by (by rewrite <- Ht). cbn [json_ state_ stack_ str_]. rewrite Hr. cbn [mbind option_bind].
    assert (Hi : st =? st_initial = false) by (by destruct Hst as [->| ->]). rewrite Hi. cbn [negb andb Json.is_array].
    unfold Json.push_back, Json.insert_at. cbn [Json.uniqueify_array mbind option_bind Json.size].
    destruct (Z.leb_spec 0 (zlength vs)); [|unfold zlength in *; lia]. rewrite Z.leb_refl. cbn [andb mbind option_bind].
    rewrite (take_ge vs), (drop_ge vs) by (unfold zlength; lia). rewrite Hw. cbn [mbind option_bind].
    assert (Ho : st =? st_object_value = false) by (by destruct Hst as [->| ->]). unfold opened, popped, delim. cbn [state_ stack_ str_].
    rewrite Hi, Ho. by destruct (Json.is_array v || Json.is_object v).
  - unfold value. cbn [current stack_ json_ state_ str_]. destruct Hp as [Hr Hw]. rewrite read_path_app, Hr. cbn [mbind option_bind read_path read_step].
    rewrite Hx. cbn [mbind option_bind]. rewrite Ha, andb_false_r. cbn [mbind option_bind].
    rewrite write_path_app, Hr. cbn [mbind option_bind write_path read_step write_step]. rewrite Hx. cbn [mbind option_bind].
    destruct (write_step_spec (JObject o) (Json.SItem q) x v Hx) as (j' & Hj & _ & _). cbn in Hj. unfold set_item.
    destruct (ObjectJson.set_value o q v) as [o'|]; [|done]. cbn [mbind option_bind]. rewrite Hw. cbn [mbind option_bind default].
    by destruct (Json.is_array v || Json.is_object v).
Qed.
Lemma top_opened p path K : hole p path K -> top (opened p path) = path.
Proof. intros [str|st stack str path' K' vs _ _ Hst|]; [done| |done]. unfold opened. cbn [state_]. by destruct Hst as [->| ->]. Qed.
Lemma close_hole p path K v st str : hole p path K ->
  close_value (mkParser st (opened p path) str (K v)) = Some (mkParser (delim p) (popped p) str (K v)).
Proof.
  intros [str0|st0 stack str0 path' K' vs [Hr Hw] Ht Hst|stack str0 path' K' o q x [Hr Hw] Ht Hx Ha]; [done| |].
  - unfold opened, close_value. cbn [state_ stack_ json_ str_]. unfold popped, delim. cbn [state_ stack_].
    assert (Hi : st0 =? st_initial = false) by (by destruct Hst as [->| ->]).
    assert (Ho : st0 =? st_object_value = false) by (by destruct Hst as [->| ->]). rewrite Hi, Ho. cbn [negb].
    replace (current _) with path' by (by rewrite <- Ht). rewrite Hr. cbn. by destruct Hst as [->| ->].
  - cbn. unfold current. cbn [stack_]. fold (top stack). rewrite Ht, Hr. done.
Qed.

(** * Runs *)
Definition turn (past : Z) (x y : t * list Z) : Prop :=
  0 <= state_ (fst x) /\ (length (snd y) < length (snd x))%nat /\
  exists c rest, snd x = c :: rest /\ consume_one past true (fst x) c rest = Some y.
Lemma turns_loop past x y : rtc (turn past) x y -> forall fuel, (length (snd x) <= fuel)%nat ->
  exists fuel', (length (snd y) <= fuel')%nat /\
    consume_loop fuel past true (fst x) (snd x) = consume_loop fuel' past true (fst y) (snd y).
Proof.
  induction 1 as [x|x y z (Hst & Hlen & c & rest & Hx & Hone) Hyz IH]; intros fuel Hf; [by exists fuel|].
  destruct fuel as [|fuel]; [rewrite Hx in Hf; cbn in Hf; lia|].
  destruct (IH fuel) as (fuel' & Hf' & Heq); [lia|]. exists fuel'. split; [done|]. rewrite <- Heq. cbn [consume_loop].
  destruct (Z.leb_spec 0 (state_ (fst x))); [|lia]. cbn [negb]. rewrite Hx, Hone. by destruct y.
Qed.
Lemma turn_one past p c rest p' rest' : 0 <= state_ p -> (length rest' <= length rest)%nat ->
  consume_one past true p c rest = Some (p', rest') -> turn past (p, c :: rest) (p', rest').
Proof. intros Hst Hl H. split; [done|]. cbn. split; [lia|]. by exists c, rest. Qed.

Definition word (s : list Z) : Prop := match s with c :: _ => is_space c = false | [] => False end.
Lemma skip_spaces past p w s : 0 <= state_ p -> Forall (fun c => is_space c = true) w -> word s ->
  rtc (turn past) (p, w ++ s) (p, s).
Proof.
  intros Hst Hw Hs. destruct w as [|c w]; [done|]. apply Forall_cons in Hw as [Hc Hw].
  apply rtc_once, turn_one; [done|rewrite length_app; lia|]. unfold consume_one. rewrite Hc.
  do 2 f_equal. cbn. rewrite Hc. clear Hc. induction Hw as [|c' w Hc' Hw IH]; cbn; [|by rewrite Hc'].
  destruct s as [|d s]; [done|]. cbn in Hs |- *. by rewrite Hs.
Qed.
(** What separates members and elements. *)
Lemma spaces_indent m depth : Forall (fun c => is_space c = true) (Json.unparse_indent m depth).
Proof. unfold Json.unparse_indent. constructor; [done|]. apply Forall_app. split; apply Forall_forall; intros c Hc%list_elem_of_In%repeat_spec; by rewrite Hc. Qed.
Lemma separator_turns past m expanded rest depth p st_first st_delim st_next s : word s ->
  state_ p = (if rest : bool then st_delim else st_first) ->
  (st_first, st_delim, st_next) = (st_array_initial, st_array_delim, st_array_value) \/
  (st_first, st_delim, st_next) = (st_object_initial, st_object_delim, st_object_key) ->
  rtc (turn past) (p, Json.unparse_sep m expanded rest depth ++ s)
    (mkParser (if rest then st_next else st_first) (stack_ p) (str_ p) (json_ p), s).
Proof.
  intros Hs Hst Hcase. unfold Json.unparse_sep. rewrite <- !app_assoc.
  assert (Hsp : forall b : bool, Forall (fun c => is_space c = true) (if b then Json.unparse_indent m (depth + 1) else [])).
  { intros [|]; [apply spaces_indent|constructor]. }
  destruct rest.
  - assert (Hup : exists w, snd (Json.upx m expanded) = 44 :: w /\ Forall (fun c => is_space c = true) w).
    { unfold Json.upx. destruct expanded; [by exists []|]. destruct (Json.space_separator m); [exists [32]|exists []]; by repeat constructor. }
    destruct Hup as (w & -> & Hw). cbn [app]. eapply rtc_l.
    + apply turn_one with (p' := mkParser st_next (stack_ p) (str_ p) (json_ p)); [|reflexivity|].
      * rewrite Hst. by destruct Hcase as [[= -> -> ->]|[= -> -> ->]].
      * unfold consume_one. cbn [is_space Z.eqb Pos.eqb orb]. rewrite Hst. unfold with_state.
        destruct Hcase as [[= -> -> ->]|[= -> -> ->]]; done.
    + rewrite app_assoc. apply skip_spaces; [|by apply Forall_app|done].
      by destruct Hcase as [[= -> -> ->]|[= -> -> ->]].
  - destruct p as [st stack str j]. cbn in Hst |- *. subst st.
    apply skip_spaces; [|apply Hsp|done]. by destruct Hcase as [[= -> -> ->]|[= -> -> ->]].
Qed.

(** * Printable values *)
(** The value of nested arrays and objects, at most [n] of them in each other,
    with no doubles, whose strings are texts. *)
Inductive printable : nat -> json -> Prop :=
  | p_null n : printable n JNull
  | p_bool n b : printable n (JBool b)
  | p_int n x : - 2 ^ 63 <= x < 2 ^ 63 -> printable n (JInt x)
  | p_unsigned n x : 0 <= x < 2 ^ 64 -> printable n (JUnsigned x)
  | p_string n s : json_text s -> printable n (JString s)
  | p_array n a : Forall (printable n) a -> printable (S n) (JArray a)
  | p_object n o : object_ok o ->
      Forall (fun kv => json_text (fst kv) /\ printable n (snd kv)) (ObjectJson.members o) ->
      printable (S n) (JObject o).
(** The same value, up to the type of integers and the hash tables. *)
Inductive same_json : json -> json -> Prop :=
  | s_null : same_json JNull JNull
  | s_bool b : same_json (JBool b) (JBool b)
  | s_number j j' x : int_value j = Some x -> int_value j' = Some x -> same_json j j'
  | s_string s : same_json (JString s) (JString s)
  | s_array a a' : Forall2 same_json a a' -> same_json (JArray a) (JArray a')
  | s_object o o' : object_ok o' ->
      Forall2 (fun kv kv' => fst kv = fst kv' /\ same_json (snd kv) (snd kv')) (ObjectJson.members o) (ObjectJson.members o') ->
      same_json (JObject o) (JObject o').

(** * Printing, without the end of the line *)
Definition newline (m : Json.unparse_manipulator) (depth : Z) : list Z :=
  if (depth =? 0) && Json.newline_terminator m then [10] else [].
Definition expands (m : Json.unparse_manipulator) (depth : Z) j : bool :=
  (depth <? Json.indent_depth m) && Json.unparse_is_complex j.
Definition closing (m : Json.unparse_manipulator) (depth : Z) (expanded : bool) : list Z :=
  if expanded then Json.unparse_indent m depth else [].
Definition elements m expanded depth : bool -> list json -> list Z :=
  fix unparse_elements (rest : bool) (a : list json) : list Z :=
    match a with
    | [] => []
    | x :: a => Json.unparse_sep m expanded rest depth ++ Json.hard_unparse m (depth + 1) x ++ unparse_elements true a
    end.
Definition items m expanded depth : bool -> list (item json) -> list Z :=
  fix unparse_items (rest : bool) (os : list (item json)) : list Z :=
    match os with
    | [] => []
    | Item k v _ :: os =>
        Json.unparse_sep m expanded rest depth ++ Json.quoted k ++ fst (Json.upx m expanded)
          ++ Json.hard_unparse m (depth + 1) v ++ unparse_items true os
    | Dead :: os => unparse_items rest os
    end.
Fixpoint live_items m expanded depth (rest : bool) (l : list (list Z * json)) : list Z :=
  match l with
  | [] => []
  | (k, v) :: l =>
      Json.unparse_sep m expanded rest depth ++ Json.quoted k ++ fst (Json.upx m expanded)
        ++ Json.hard_unparse m (depth + 1) v ++ live_items m expanded depth true l
  end.
Lemma items_live m expanded depth os : forall rest,
  items m expanded depth rest os = live_items m expanded depth rest (omap ObjectJson.live_item os).
Proof.
  induction os as [|[k v nx|] os IH]; intros rest; cbn; [done| |apply IH]. by rewrite IH.
Qed.
Lemma unparse_array m depth a :
  Json.hard_unparse m depth (JArray a) =
  (91 :: elements m (expands m depth (JArray a)) depth false a ++ closing m depth (expands m depth (JArray a)) ++ [93]) ++ newline m depth.
Proof. reflexivity. Qed.
Lemma unparse_object m depth o :
  Json.hard_unparse m depth (JObject o) =
  (123 :: live_items m (expands m depth (JObject o)) depth false (ObjectJson.members o)
     ++ closing m depth (expands m depth (JObject o)) ++ [125]) ++ newline m depth.
Proof. unfold ObjectJson.members. rewrite <- items_live. by destruct o. Qed.
Lemma unparse_leaf m depth j : Json.is_array j = false -> Json.is_object j = false ->
  Json.hard_unparse m depth j =
  match j with
  | JString s => Json.quoted s
  | JBool b => if b then json_true else json_false
  | JInt x | JUnsigned x => decimal x
  | JDouble d => d_print d
  | _ => json_null
  end ++ newline m depth.
Proof. by destruct j. Qed.

Lemma printable_word m depth j n s : printable n j -> word (Json.hard_unparse m depth j ++ s).
Proof.
  intros H. destruct H as [n|n b|n x Hx|n x Hx|n s' Hs|n a Ha|n o Ho Hm].
  - done.
  - by destruct b.
  - destruct (consume_integer (libc := libc) make x []) as (c & u & j & Hd & Hc & _); [done|lia|done|].
    rewrite app_nil_r in Hd. cbn [Json.hard_unparse]. rewrite Hd. cbn.
    unfold is_space. destruct (Z.eqb_spec c 32), (Z.eqb_spec c 10), (Z.eqb_spec c 13), (Z.eqb_spec c 9); done || lia.
  - destruct (consume_integer (libc := libc) make x []) as (c & u & j & Hd & Hc & _); [done|lia|done|].
    rewrite app_nil_r in Hd. cbn [Json.hard_unparse]. rewrite Hd. cbn.
    unfold is_space. destruct (Z.eqb_spec c 32), (Z.eqb_spec c 10), (Z.eqb_spec c 13), (Z.eqb_spec c 9); done || lia.
  - done.
  - by rewrite unparse_array.
  - by rewrite unparse_object.
Qed.

(** * Reading *)
Definition room p : Z :=
  zlength (stack_ p) + (if (state_ p =? st_array_initial) || (state_ p =? st_array_value) then 1 else 0).
(** What reading the text of [j] does to a parser that waits for a value. *)
Definition delivered past p (K : json -> json) (s rest : list Z) j : Prop :=
  exists j' str, same_json j j' /\ rtc (turn past) (p, s ++ rest) (mkParser (delim p) (popped p) str (K j'), rest).

Lemma hole_state p path K : hole p path K ->
  quiet (state_ p) /\ (state_ p <=? st_object_value) = true /\ (state_ p = st_initial -> json_ p = JNull /\ popped p = []).
Proof.
  intros [str|st stack str path' K' vs _ _ Hst|stack str path' K' o q x _ _ _ _]; cbn; [by split_and!| |by split_and!].
  by destruct Hst as [->| ->]; split_and!.
Qed.
Lemma deliver_leaf past p path K j j' s rest : hole p path K -> same_json j j' ->
  Json.is_array j' = false -> Json.is_object j' = false -> s <> [] ->
  (forall c u, s ++ rest = c :: u -> exists str, consume_one past true p c u = (q ← value (with_str str p) j'; Some (q, rest))) ->
  delivered past p K s rest j.
Proof.
  intros Hh Hsame Ha Ho Hs Hone. destruct (hole_state p path K Hh) as ([Hst _] & _ & _).
  destruct s as [|c s]; [done|]. destruct (Hone c (s ++ rest) eq_refl) as (str & Heq).
  assert (Hh' : hole (with_str str p) path K) by (destruct Hh; by econstructor).
  rewrite (value_hole _ _ _ _ Hh'), Ha, Ho in Heq. cbn in Heq.
  exists j', str. split; [done|]. apply rtc_once. cbn [app]. apply turn_one; [done|rewrite length_app; lia|].
  rewrite Heq. by destruct p.
Qed.
Lemma value_str p str j : value (with_str str p) j = (q ← value p j; Some (with_str str q)).
Proof.
  unfold value. cbn. destruct (read_path _ _) as [cur|]; [|done]. cbn.
  destruct (negb (state_ p =? st_initial) && Json.is_array cur).
  - destruct (Json.push_back cur j) as [a|]; [|done]. cbn. destruct (write_path _ _ _); [|done]. cbn.
    by destruct (Json.is_array j || Json.is_object j).
  - cbn. destruct (write_path _ _ _); [|done]. cbn. by destruct (Json.is_array j || Json.is_object j).
Qed.
Lemma first_class p c u past : (state_ p <=? st_object_value) = true ->
  c = 45 \/ 48 <= c < 58 -> consume_one past true p c u = number true p (c :: u).
Proof.
  intros Hst Hc. unfold consume_one.
  assert (Hne : forall k, k <> 45 -> ~ 48 <= k < 58 -> (c =? k) = false) by (intros k H1 H2; apply Z.eqb_neq; lia).
  unfold is_space. rewrite !Hne by lia. cbn [orb].
  assert (Hd : (c =? 45) || isdigit c = true).
  { destruct Hc as [->|Hc]; [done|]. unfold isdigit. destruct (Z.leb_spec 48 c), (Z.leb_spec c 57); (lia || apply orb_true_r). }
  by rewrite Hd, Hst.
Qed.
Lemma deliver_integer past p path K j x rest : hole p path K -> int_value j = Some x -> - 2 ^ 63 <= x < 2 ^ 64 ->
  stops rest -> delivered past p K (decimal x) rest j.
Proof.
  intros Hh Hj Hx Hr. destruct (hole_state p path K Hh) as (Hq & Hle & _).
  destruct (consume_integer p x rest Hq Hx Hr) as (c & u & j' & Hd & Hc & Hj' & Hn).
  apply (deliver_leaf past p path K j j'); [done|by econstructor|by destruct j'|by destruct j'| |].
  - destruct (consume_integer p x [] Hq Hx I) as (c' & u' & _ & Hd' & _). rewrite app_nil_r in Hd'. by rewrite Hd'.
  - intros c' u' E. rewrite Hd in E. injection E as <- <-. exists []. rewrite first_class by done.
    unfold number. rewrite Hn. done.
Qed.
Lemma deliver_string past p path K s rest : hole p path K -> json_text s ->
  delivered past p K (Json.quoted s) rest (JString s).
Proof.
  intros Hh Hs. destruct (hole_state p path K Hh) as (Hq & Hle & _).
  apply (deliver_leaf past p path K (JString s) (JString s)); [done|constructor|done..|].
  intros c u [= <- <-]. exists s. unfold consume_one. cbn [is_space Z.eqb Pos.eqb orb]. rewrite Hle.
  unfold string_value. cbn [state_ str_ with_str]. rewrite <- app_assoc. cbn [app].
  rewrite consume_string_text by done. cbn [mbind option_bind]. rewrite quiet_has by done.
  destruct Hq as [Hq _]. destruct (Z.leb_spec 0 (state_ p)); [|lia]. cbn [andb negb]. by destruct p.
Qed.
Lemma deliver_primitive past p path K j s rest : hole p path K ->
  j = JNull /\ s = json_null \/ j = JBool false /\ s = json_false \/ j = JBool true /\ s = json_true ->
  delivered past p K s rest j.
Proof.
  intros Hh Hj. destruct (hole_state p path K Hh) as (Hq & Hle & _).
  apply (deliver_leaf past p path K j j); [done| | | | |].
  1: destruct Hj as [[-> ->]|[[-> ->]|[-> ->]]]; constructor.
  1-3: by destruct Hj as [[-> ->]|[[-> ->]|[-> ->]]].
  intros c u E. exists (str_ p).
  assert (Hn : forall k, match_primitive (drop (Z.to_nat k) primitives) u k = (Some (k + zlength s - 1, 0 :: drop (Z.to_nat (k + zlength s)) primitives), rest) ->
    (k = if c =? 110 then 1 else if c =? 102 then 6 else 12) -> (c = 110 \/ c = 102 \/ c = 116) ->
    j = (if k + zlength s - 1 =? 4 then JNull else if k + zlength s - 1 =? 10 then JBool false else JBool true) ->
    consume_one past true p c u = (q ← value (with_str (str_ p) p) j; Some (q, rest))).
  { intros k Hm Hk Hc Hjk. unfold consume_one.
    assert (Hne : forall i, i <> 110 -> i <> 102 -> i <> 116 -> (c =? i) = false) by (intros i H1 H2 H3; apply Z.eqb_neq; lia).
    unfold is_space. rewrite !Hne by lia. cbn [orb].
    assert (Hd : (c =? 110) || (c =? 102) || (c =? 116) = true) by (by destruct Hc as [->|[->| ->]]).
    rewrite Hd, Hle. unfold primitive, consume_primitive. rewrite quiet_has by done. rewrite <- Hk. cbn [drop]. rewrite drop_0, Hm.
    cbn [head default from_option Z.eqb negb]. unfold with_str. destruct p as [st0 sk0 sr0 js0]. cbn [state_ stack_ str_ json_] in *. rewrite Hjk.
    destruct (k + zlength s - 1 =? 4); [done|]. by destruct (k + zlength s - 1 =? 10). }
  destruct Hj as [[-> ->]|[[-> ->]|[-> ->]]]; injection E as <- <-.
  - apply (Hn 1); [|done|auto|done]. by destruct rest.
  - apply (Hn 6); [|done|auto|done]. by destruct rest.
  - apply (Hn 12); [|done|auto|done]. by destruct rest.
Qed.

(** Values of depth [n] are read wherever there is room on the stack. *)
Definition reads past m (n : nat) : Prop := forall j depth p path K rest, printable n j -> 0 <= depth ->
  hole p path K -> room p + Z.of_nat n <= max_depth -> stops rest ->
  exists s, Json.hard_unparse m depth j = s ++ newline m depth /\ delivered past p K s rest j.
Lemma reads_inner past m n j depth p path K rest : reads past m n -> printable n j -> 0 <= depth ->
  hole p path K -> room p + Z.of_nat n <= max_depth -> stops rest ->
  delivered past p K (Json.hard_unparse m (depth + 1) j) rest j.
Proof.
  intros Hr Hj Hd Hh Hroom Hrest. destruct (Hr j (depth + 1) p path K rest) as (s & -> & Hs); [done|lia|done..|].
  unfold newline. destruct (Z.eqb_spec (depth + 1) 0); [lia|]. cbn [andb]. by rewrite app_nil_r.
Qed.
Lemma stops_closing m depth expanded c s : c = 93 \/ c = 125 -> stops (closing m depth expanded ++ c :: s).
Proof. unfold closing. destruct expanded; [done|]. by intros [->| ->]. Qed.
Lemma word_closing past p m depth expanded c s : c = 93 \/ c = 125 -> 0 <= state_ p ->
  rtc (turn past) (p, closing m depth expanded ++ c :: s) (p, c :: s).
Proof.
  intros Hc Hst. apply skip_spaces; [done| |by destruct Hc as [->| ->]]. unfold closing.
  destruct expanded; [apply spaces_indent|constructor].
Qed.
Lemma stops_separator m expanded depth s : stops (Json.unparse_sep m expanded true depth ++ s).
Proof. unfold Json.unparse_sep, Json.upx. destruct expanded; [done|]. by destruct (Json.space_separator m). Qed.

Lemma read_elements past m n expanded depth c tail : reads past m n -> 0 <= depth -> c = 93 ->
  forall a path K vs rest st stack str, Forall (printable n) a -> place path K -> top stack = path ->
  st = (if rest : bool then st_array_delim else st_array_initial) ->
  zlength stack + 1 + Z.of_nat n <= max_depth ->
  exists vs' st' str', Forall2 same_json a vs' /\ (st' = st_array_initial \/ st' = st_array_delim) /\
    rtc (turn past)
      (mkParser st stack str (K (JArray vs)), elements m expanded depth rest a ++ closing m depth expanded ++ c :: tail)
      (mkParser st' stack str' (K (JArray (vs ++ vs'))), closing m depth expanded ++ c :: tail).
Proof.
  intros Hreads Hdepth Hc. induction a as [|x a IH]; intros path K vs rest st stack str Ha HK Htop -> Hroom.
  { exists [], (if rest then st_array_delim else st_array_initial), str. rewrite app_nil_r. split; [constructor|].
    split; [destruct rest; auto|done]. }
  apply Forall_cons in Ha as [Hx Ha]. cbn [elements]. fold (elements m expanded depth). rewrite <- !app_assoc.
  set (after := elements m expanded depth true a ++ closing m depth expanded ++ c :: tail).
  set (p := mkParser (if rest then st_array_value else st_array_initial) stack str (K (JArray vs))).
  assert (Hh : hole p (path ++ [Json.SIndex (zlength vs)]) (fun v => K (JArray (vs ++ [v])))).
  { apply hole_element; [done|done|]. destruct rest; auto. }
  assert (Hafter : stops after).
  { subst after. destruct a as [|y a]; [cbn; apply stops_closing; auto|]. cbn [elements]. rewrite <- !app_assoc. apply stops_separator. }
  assert (Hroom' : room p + Z.of_nat n <= max_depth).
  { unfold room. subst p. cbn. by destruct rest. }
  destruct (reads_inner past m n x depth p _ _ after Hreads Hx Hdepth Hh Hroom' Hafter) as (x' & str1 & Hsame & Hrun).
  assert (Hp : popped p = stack /\ delim p = st_array_delim) by (unfold popped, delim; subst p; by destruct rest).
  destruct Hp as [Hp1 Hp2]. rewrite Hp1, Hp2 in Hrun.
  destruct (IH path K (vs ++ [x']) true st_array_delim stack str1 Ha HK Htop eq_refl Hroom) as (vs' & st' & str' & Hvs & Hst & Hrest).
  exists (x' :: vs'), st', str'. split; [by constructor|]. split; [done|].
  etrans; [eapply (separator_turns past m expanded rest depth); [by eapply printable_word|done|by left]|].
  cbn [stack_ str_ json_]. etrans; [exact Hrun|]. rewrite <- app_assoc in Hrest. exact Hrest.
Qed.

Lemma open_turns past p path K c v s : hole p path K -> room p < max_depth ->
  c = 91 /\ v = JArray [] \/ c = 123 /\ v = JObject ObjectJson.make ->
  rtc (turn past) (p, c :: s)
    (mkParser (if Json.is_array v then st_array_initial else st_object_initial) (opened p path) (str_ p) (K v), s).
Proof.
  intros Hh Hroom Hc. destruct (hole_state p path K Hh) as ([Hst _] & Hle & Hini). apply rtc_once, turn_one; [done|done|].
  assert (Hv : value p v = Some (mkParser (if Json.is_array v then st_array_initial else st_object_initial) (opened p path) (str_ p) (K v))).
  { rewrite (value_hole _ _ _ _ Hh). by destruct Hc as [[_ ->]|[_ ->]]. }
  assert (Hd : zlength (stack_ p) =? max_depth = false).
  { apply Z.eqb_neq. unfold room in Hroom. destruct ((state_ p =? st_array_initial) || (state_ p =? st_array_value)); lia. }
  assert (Hopen : forall fresh reuse, reuse JNull = None -> open_value p fresh reuse = value p fresh).
  { intros fresh reuse Hr. unfold open_value. destruct (Z.eqb_spec (state_ p) st_initial) as [E|]; [|done].
    destruct (Hini E) as [-> _]. by rewrite Hr. }
  unfold consume_one. destruct Hc as [[-> ->]|[-> ->]]; cbn [is_space Z.eqb Pos.eqb orb]; rewrite Hle, Hd, Hopen, Hv by done; done.
Qed.
Lemma close_turns past p path K c st str v s : hole p path K ->
  c = 93 /\ (st = st_array_initial \/ st = st_array_delim) \/ c = 125 /\ (st = st_object_initial \/ st = st_object_delim) ->
  rtc (turn past) (mkParser st (opened p path) str (K v), c :: s) (mkParser (delim p) (popped p) str (K v), s).
Proof.
  intros Hh Hc. apply rtc_once, turn_one; [by destruct Hc as [[_ [->| ->]]|[_ [->| ->]]]|done|].
  unfold consume_one. pose proof (close_hole p path K v st str Hh) as Hcl.
  destruct Hc as [[-> Hst]|[-> Hst]]; cbn [is_space Z.eqb Pos.eqb orb state_]; rewrite Hcl;
    by destruct Hst as [->| ->].
Qed.
Lemma room_opened p path K n : hole p path K -> room p + Z.of_nat (S n) <= max_depth ->
  zlength (opened p path) + 1 + Z.of_nat n <= max_depth.
Proof.
  intros Hh. destruct Hh as [str|st stack str path' K' vs _ _ Hst|]; unfold room, opened, popped; cbn [state_ stack_].
  - cbn. lia.
  - destruct Hst as [->| ->]; cbn; unfold zlength; cbn [length]; lia.
  - cbn. unfold zlength. cbn [length]. lia.
Qed.
Lemma deliver_array past m n depth p path K a rest : reads past m n -> Forall (printable n) a -> 0 <= depth ->
  hole p path K -> room p + Z.of_nat (S n) <= max_depth -> let expanded := expands m depth (JArray a) in
  delivered past p K (91 :: elements m expanded depth false a ++ closing m depth expanded ++ [93]) rest (JArray a).
Proof.
  intros Hr Ha Hd Hh Hroom expanded.
  destruct (read_elements past m n expanded depth 93 rest Hr Hd eq_refl a path K [] false st_array_initial (opened p path) (str_ p))
    as (vs & st & str & Hvs & Hst & Hrun); [done|by eapply hole_place|by eapply top_opened|done|by eapply room_opened|].
  exists (JArray vs), str. split; [by constructor|]. cbn [app]. rewrite <- !app_assoc. cbn [app].
  etrans; [apply (open_turns past p path K 91 (JArray [])); [done|lia|by left]|]. cbn [Json.is_array].
  etrans; [exact Hrun|]. etrans; [apply word_closing; [by left|by destruct Hst as [->| ->]]|].
  apply close_turns; [done|]. by left.
Qed.

(** * Objects *)
Lemma members_nodup (o : object json) : object_ok o -> NoDup (map fst (ObjectJson.members o)).
Proof.
  intros Ho. pose proof (ok_keys o Ho) as Hk. unfold ObjectJson.members. clear Ho. revert Hk.
  generalize (os_ o) as os. induction os as [|x os IH]; intros Hk; [constructor|].
  assert (Hshift : forall i k, key_at os i = Some k -> key_at (x :: os) (i + 1) = Some k).
  { intros i k Hi. pose proof (key_at_lt _ _ _ Hi) as Hlt. unfold key_at, zlookup in *.
    destruct (Z.ltb_spec i 0); [done|]. destruct (Z.ltb_spec (i + 1) 0); [lia|].
    replace (Z.to_nat (i + 1)) with (S (Z.to_nat i)) by lia. done. }
  assert (IH' : NoDup (map fst (omap ObjectJson.live_item os))).
  { apply IH. intros i j k Hi Hj. pose proof (Hk _ _ _ (Hshift _ _ Hi) (Hshift _ _ Hj)). lia. }
  destruct x as [k v nx|]; cbn; [|done]. apply NoDup_cons. split; [|done].
  intros Hin. apply list_elem_of_In, in_map_iff in Hin as ([k' v'] & [= ->] & Hin).
  apply list_elem_of_In, list_elem_of_omap in Hin as (y & Hy & Hl). apply list_elem_of_lookup in Hy as (i & Hi).
  assert (Hi' : key_at os (Z.of_nat i) = Some k).
  { unfold key_at, zlookup. destruct (Z.ltb_spec (Z.of_nat i) 0); [lia|]. rewrite Nat2Z.id, Hi. cbn.
    destruct y as [k2 v2 nx2|]; [|done]. cbn in Hl |- *. congruence. }
  pose proof (key_at_lt _ _ _ Hi') as Hlt. pose proof (Hk 0 (Z.of_nat i + 1) k eq_refl (Hshift _ _ Hi')). lia.
Qed.
Lemma insert_member (o : object json) k : object_ok o -> k ∉ map fst (ObjectJson.members o) ->
  exists q o', Json.get_insert_key (JObject o) k = Some (Json.SItem q, JObject o') /\
    ObjectJson.value_at o' q = Some JNull /\
    forall v, object_ok (set_item o' q v) /\ ObjectJson.members (set_item o' q v) = ObjectJson.members o ++ [(k, v)].
Proof.
  intros Ho Hk. destruct (find_insert_spec o k JNull Ho) as (q & o' & Hf & Ho' & _ & Hkey & Hm).
  assert (Hm' : ObjectJson.members o' = ObjectJson.members o ++ [(k, JNull)]).
  { rewrite Hm. unfold alist_insert. apply alist_get_None in Hk. by rewrite Hk. }
  exists q, o'. unfold Json.get_insert_key. cbn [Json.uniqueify_object mbind option_bind]. unfold ObjectJson.get_insert.
  rewrite Hf. split; [done|].
  assert (Hv : ObjectJson.value_at o' q = Some JNull).
  { unfold key_at in Hkey. unfold ObjectJson.value_at. destruct (zlookup (os_ o') q) as [[k' v nx|]|] eqn:E; [|done..].
    cbn in Hkey |- *. injection Hkey as ->. f_equal.
    assert (Hin : (k, v) ∈ ObjectJson.members o').
    { unfold ObjectJson.members. apply list_elem_of_omap. exists (Item k v nx). split; [|done].
      unfold zlookup in E. destruct (q <? 0); [done|]. by eapply list_elem_of_lookup_2. }
    rewrite Hm' in Hin. apply elem_of_app in Hin as [Hin|Hin]; [|by apply list_elem_of_singleton in Hin as [= ->]].
    destruct Hk. apply list_elem_of_In, in_map_iff. exists (k, v). split; [done|]. by apply list_elem_of_In. }
  split; [done|]. intros v. destruct (set_value_spec o' q k v Ho' Hkey) as (o2 & Hs & Ho2 & _ & _ & Hm2).
  unfold set_item. rewrite Hs. change (default o' (Some o2)) with o2. split; [done|]. rewrite Hm2, Hm', map_app. cbn [map fst].
  destruct (decide (k = k)); [|done]. f_equal. rewrite <- (map_id (ObjectJson.members o)) at 2. apply map_ext_in.
  intros [k' v'] Hin. cbn. destruct (decide (k' = k)) as [->|]; [|done]. destruct Hk.
  apply list_elem_of_In, in_map_iff. by exists (k, v').
Qed.
Lemma key_turns past m expanded st stack str path K o k rest : place path K -> top stack = path -> object_ok o ->
  k ∉ map fst (ObjectJson.members o) -> json_text k -> st = st_object_initial \/ st = st_object_key -> word rest ->
  exists q o' str', ObjectJson.value_at o' q = Some JNull /\
    (forall v, object_ok (set_item o' q v) /\ ObjectJson.members (set_item o' q v) = ObjectJson.members o ++ [(k, v)]) /\
    rtc (turn past)
      (mkParser st stack str (K (JObject o)), Json.quoted k ++ fst (Json.upx m expanded) ++ rest)
      (mkParser st_object_value ((path ++ [Json.SItem q]) :: stack) str' (K (JObject o')), rest).
Proof.
  intros [Hread Hwrite] Htop Ho Hk Htext Hst Hrest.
  destruct (insert_member o k Ho Hk) as (q & o' & Hins & Hv & Hset).
  exists q, o', k. split; [done|]. split; [done|]. unfold Json.quoted. cbn [app]. rewrite <- app_assoc. cbn [app].
  eapply rtc_l; [apply turn_one with (rest' := fst (Json.upx m expanded) ++ rest)
    (p' := mkParser st_object_colon ((path ++ [Json.SItem q]) :: stack) k (K (JObject o')))|].
  - by destruct Hst as [->| ->].
  - rewrite !length_app. cbn [length]. rewrite length_app. lia.
  - unfold consume_one. cbn [is_space Z.eqb Pos.eqb orb state_].
    assert (Hle : st <=? st_object_value = false) by (by destruct Hst as [->| ->]).
    assert (Hor : (st =? st_object_initial) || (st =? st_object_key) = true) by (by destruct Hst as [->| ->]).
    rewrite Hle, Hor. unfold string_object_key. cbn [state_ str_ with_str with_state stack_ json_].
    rewrite consume_string_text by done. cbn [mbind option_bind].
    change ((0 <=? st_object_colon) && negb (has st_object_colon st_stringpart)) with true. cbv iota. cbn [state_ str_ with_str with_state stack_ json_].
    replace (current _) with path by (by rewrite <- Htop). rewrite Hread. cbn [mbind option_bind]. rewrite Hins. cbn [mbind option_bind snd fst].
    by rewrite Hwrite.
  - assert (Hup : exists w, fst (Json.upx m expanded) = 58 :: w /\ Forall (fun c => is_space c = true) w).
    { unfold Json.upx. destruct expanded; [by exists [32]; repeat constructor|].
      destruct (Json.space_separator m); [exists [32]|exists []]; by repeat constructor. }
    destruct Hup as (w & -> & Hw). cbn [app]. eapply rtc_l; [|by apply skip_spaces; [| |exact Hrest]].
    apply turn_one; [done|done|reflexivity].
Qed.
Lemma read_members past m n expanded depth tail : reads past m n -> 0 <= depth ->
  forall l path K o rest st stack str, Forall (fun kv => json_text (fst kv) /\ printable n (snd kv)) l ->
  NoDup (map fst l) -> (forall k, k ∈ map fst l -> k ∉ map fst (ObjectJson.members o)) ->
  place path K -> top stack = path -> object_ok o ->
  st = (if rest : bool then st_object_delim else st_object_initial) ->
  zlength stack + 1 + Z.of_nat n <= max_depth ->
  exists o' l' st' str', object_ok o' /\ ObjectJson.members o' = ObjectJson.members o ++ l' /\
    Forall2 (fun kv kv' => fst kv = fst kv' /\ same_json (snd kv) (snd kv')) l l' /\
    (st' = st_object_initial \/ st' = st_object_delim) /\
    rtc (turn past)
      (mkParser st stack str (K (JObject o)), live_items m expanded depth rest l ++ closing m depth expanded ++ 125 :: tail)
      (mkParser st' stack str' (K (JObject o')), closing m depth expanded ++ 125 :: tail).
Proof.
  intros Hreads Hdepth. induction l as [|[k v] l IH]; intros path K o rest st stack str Hl Hnd Hfresh HK Htop Ho -> Hroom.
  { exists o, [], (if rest then st_object_delim else st_object_initial), str. rewrite app_nil_r.
    split_and!; [done|done|constructor|destruct rest; auto|done]. }
  apply Forall_cons in Hl as [[Hk Hv] Hl]. cbn [map fst] in Hnd, Hfresh. apply NoDup_cons in Hnd as [Hkl Hnd].
  cbn [fst snd] in Hk, Hv. cbn [live_items]. rewrite <- !app_assoc.
  set (after := live_items m expanded depth true l ++ closing m depth expanded ++ 125 :: tail).
  destruct (key_turns past m expanded (if rest then st_object_key else st_object_initial) stack str path K o k
    (Json.hard_unparse m (depth + 1) v ++ after)) as (q & o1 & str1 & Hat & Hset & Hkey);
    [done|done|done|by apply Hfresh, list_elem_of_here|done|destruct rest; auto|by eapply printable_word|].
  set (p := mkParser st_object_value ((path ++ [Json.SItem q]) :: stack) str1 (K (JObject o1))) in *.
  assert (Hh : hole p (path ++ [Json.SItem q]) (fun v => K (JObject (set_item o1 q v)))) by (by eapply hole_member).
  assert (Hafter : stops after).
  { subst after. destruct l as [|[k' v'] l']; [cbn; apply stops_closing; auto|]. cbn [live_items]. rewrite <- !app_assoc. apply stops_separator. }
  assert (Hroom' : room p + Z.of_nat n <= max_depth).
  { unfold room. subst p. cbn. unfold zlength in *. cbn [length]. lia. }
  destruct (reads_inner past m n v depth p _ _ after Hreads Hv Hdepth Hh Hroom' Hafter) as (v' & str2 & Hsame & Hrun).
  change (delim p) with st_object_delim in Hrun. change (popped p) with stack in Hrun.
  destruct (Hset v') as [Ho' Hm'].
  destruct (IH path K (set_item o1 q v') true st_object_delim stack str2 Hl Hnd) as (o' & l' & st' & str' & Hok & Hm & Hl' & Hst & Hrest);
    [|done|done|done|done|done|].
  { intros k2 Hk2. rewrite Hm', map_app, not_elem_of_app. split; [by apply Hfresh, list_elem_of_further|].
    cbn. rewrite list_elem_of_singleton. by intros ->. }
  exists o', ((k, v') :: l'), st', str'. split; [done|]. split; [by rewrite Hm, Hm', <- app_assoc|].
  split; [by constructor|]. split; [done|].
  etrans; [eapply (separator_turns past m expanded rest depth); [done|done|by right]|]. cbn [stack_ str_ json_].
  etrans; [exact Hkey|]. etrans; [exact Hrun|]. exact Hrest.
Qed.
Lemma deliver_object past m n depth p path K o rest : reads past m n -> object_ok o ->
  Forall (fun kv => json_text (fst kv) /\ printable n (snd kv)) (ObjectJson.members o) -> 0 <= depth ->
  hole p path K -> room p + Z.of_nat (S n) <= max_depth -> let expanded := expands m depth (JObject o) in
  delivered past p K (123 :: live_items m expanded depth false (ObjectJson.members o) ++ closing m depth expanded ++ [125])
    rest (JObject o).
Proof.
  intros Hr Ho Hl Hd Hh Hroom expanded.
  destruct (read_members past m n expanded depth rest Hr Hd (ObjectJson.members o) path K ObjectJson.make false
    st_object_initial (opened p path) (str_ p)) as (o' & l' & st & str & Ho' & Hm & Hl' & Hst & Hrun);
    [done|by apply members_nodup|by intros ? _ ?%not_elem_of_nil|by eapply hole_place|by eapply top_opened|apply make_ok|done
    |by eapply room_opened|].
  exists (JObject o'), str. split; [constructor; [done|by rewrite Hm]|]. cbn [app]. rewrite <- !app_assoc. cbn [app].
  etrans; [apply (open_turns past p path K 123 (JObject ObjectJson.make)); [done|lia|by right]|]. cbn [Json.is_array].
  etrans; [exact Hrun|]. etrans; [apply word_closing; [by right|by destruct Hst as [->| ->]]|].
  apply close_turns; [done|]. by right.
Qed.

(** * Any value *)
Lemma reads_all past m n : reads past m n.
Proof.
  induction n as [|n IH]; intros j depth p path K rest Hj Hd Hh Hroom Hrest; inversion Hj; subst.
  all: try (rewrite unparse_leaf by done; eexists; split; [reflexivity|]).
  all: try (by apply deliver_string with (path := path)).
  all: try (by apply (deliver_primitive past p path); [|destruct b; auto]).
  all: try (by apply (deliver_primitive past p path); auto).
  all: try (apply (deliver_integer past p path) with (x := x); [done|done|lia|done]).
  - rewrite unparse_array. eexists. split; [reflexivity|]. by apply deliver_array with (path := path) (n := n).
  - rewrite unparse_object. eexists. split; [reflexivity|]. by apply deliver_object with (path := path) (n := n).
Qed.
End roundtrip.

(** C34: Parsing what [unparse] prints gives the value back, whatever the layout: indented or not, with or without spaces
    and a newline at the end, and whatever byte follows the text.  It holds for values without doubles, of at most
    [max_depth] nested arrays and objects, whose strings and keys are valid UTF-8 without U+0000, U+2028 and U+2029;
    integers may change their type, and hash tables their layout. *)
Theorem parse_unparse {D} {libc : Libc D} past m (j j0 : json D) :
  printable (Z.to_nat max_depth) j ->
  exists j', assign_parse past j0 (Json.unparse m j) = Some (true, j') /\ same_json j j'.
Proof.
  intros Hj. set (p := make (D := D)).
  destruct (reads_all past m (Z.to_nat max_depth) j 0 p [] (fun v => v) (newline m 0) Hj) as (s & Hs & j' & str & Hsame & Hrun);
    [done|apply hole_root|done|unfold newline; by destruct (_ && _)|].
  exists j'. split; [|done]. unfold assign_parse, consume, Json.unparse. cbn [state_ make].
  change ((0 <=? st_initial) && has st_initial st_partmask) with false. cbv iota. cbn [mbind option_bind].
  rewrite Hs. destruct (turns_loop _ _ _ Hrun (length (s ++ newline m 0))) as (fuel & Hf & Heq); [done|].
  cbn [fst snd] in Heq. fold p. rewrite Heq.
  assert (Hend : consume_loop fuel past true (mkParser (delim p) (popped p) str j') (newline m 0) =
    Some (mkParser (delim p) (popped p) str j', newline m 0)) by (by destruct fuel).
  rewrite Hend. cbn [mbind option_bind]. unfold newline. by destruct (Json.newline_terminator m).
Qed.
#[local] Instance no_doubles : Libc unit := {|
  strtol := fun _ => None; strtoul := fun _ => None; d_of_int := fun _ => tt; d_to_int := fun _ => 0;
  d_to_uint := fun _ => 0; d_nonzero := fun _ => false; d_add := fun _ _ => tt; d_sub := fun _ _ => tt;
  d_neg := fun _ => tt; d_bits := fun _ => 0; d_print := fun _ => []; strtod := fun _ => tt |}.
(** [[-12, "a/", []]], indented by 2 spaces, with a newline at the end. *)
Lemma parse_unparse_witness : exists j', assign_parse (D := unit) 0 JNull
    (Json.unparse (Json.mkManipulator 9 2 true false) (JArray [JInt (-12); JString [97; 47]; JArray []])) = Some (true, j') /\
  same_json (JArray [JInt (-12); JString [97; 47]; JArray []]) j'.
Proof.
  apply parse_unparse. change (Z.to_nat max_depth) with (S (S 2046)). constructor. repeat constructor; try done.
  exists [97; 47]. split; [|done]. repeat constructor; unfold text_char, scalar; lia.
Defined.
