(* ===== verification/JsonSafe.v ===== *)
(** The JSON parser on any input, in any chunks: every call returns, no
    reference into the value dangles, and the accumulator is never read in front
    of its start. *)
From S2P Require Import Prelude Compiler Memory Strings StringsSpec JsonObject Json JsonParser JsonText JsonSpec.
Import streaming_parser.

Ltac Zify.zify_post_hook ::= Z.div_mod_to_equations.

(** * States *)
(** The states between tokens, and the parts of a token. *)
Definition based (b : Z) : Prop := 0 <= b < 2 ^ 31 /\ Z.land b 255 = 0.
Lemma based_mod b : based b -> b mod 256 = 0.
Proof. intros [_ H]. change 255 with (Z.ones 8) in H. by rewrite Z.land_ones in H. Qed.
Lemma land_part b m k : based b -> 0 <= m < 256 -> 0 <= k < 256 -> Z.land (b + m) k = Z.land m k.
Proof.
  intros Hb Hm Hk. pose proof (based_mod _ Hb). assert (E : k = Z.land k (Z.ones 8)) by (rewrite Z.land_ones, Z.mod_small by lia; done).
  rewrite E at 1. rewrite (Z.land_comm k), Z.land_assoc, Z.land_ones by lia. f_equal. change (2 ^ 8) with 256. lia.
Qed.
Lemma lor_part b m : based b -> 0 <= m < 256 -> Z.lor b m = b + m.
Proof. intros Hb Hm. apply (lor_add 8); [lia|done|]. by apply based_mod. Qed.
Lemma lor_parts b m k : based b -> 0 <= m < 256 -> 0 <= k < 256 -> Z.lor (b + m) k = b + Z.lor m k.
Proof.
  intros Hb Hm Hk. rewrite <- (lor_part b m), <- Z.lor_assoc by done. apply lor_part; [done|].
  assert (H : Z.lor m k = Z.land (Z.lor m k) (Z.ones 8)).
  { rewrite Z.land_lor_distr_l, !Z.land_ones, !Z.mod_small by lia. done. }
  rewrite H, Z.land_ones by lia. change (2 ^ 8) with 256. lia.
Qed.
Lemma clear_part b m k : based b -> 0 <= m < 256 -> 0 <= k < 256 -> clear_bits (b + m) k = b + clear_bits m k.
Proof.
  intros Hb Hm Hk. unfold clear_bits. rewrite <- (lor_part b m), Z.land_lor_distr_l by done.
  assert (Hbk : Z.land b (Z.lnot k) = b).
  { apply (quiet_clear b k); [split; [by destruct Hb as [[? _] _]|by destruct Hb]|].
    change 255 with (Z.ones 8). rewrite Z.land_ones, Z.mod_small by lia. done. }
  rewrite Hbk. apply lor_part; [done|].
  assert (H : Z.land m (Z.lnot k) = Z.land (Z.land m (Z.lnot k)) (Z.ones 8)).
  { rewrite <- Z.land_assoc, (Z.land_comm (Z.lnot k)), Z.land_assoc, Z.land_ones, Z.mod_small by lia. done. }
  rewrite H, Z.land_ones by lia. change (2 ^ 8) with 256. lia.
Qed.

(** * Strings *)
(** The bytes of an incomplete sequence are behind its first one. *)
Definition want (tag : Z) : Z := 2 + Z.b2z (224 <=? tag) + Z.b2z (240 <=? tag).
Definition part_ok (sa : list Z) (part : Z) : Prop :=
  part = 0 \/ 0 < part /\ exists tag, zlookup sa (zlength sa - part) = Some tag /\
    (tag = 92 /\ part <= 11 \/ tag <> 92 /\ part < want tag).
Lemma want_bound tag : 2 <= want tag <= 4.
Proof. unfold want. destruct (224 <=? tag), (240 <=? tag); cbn; lia. Qed.
Lemma part_bound sa part : part_ok sa part -> 0 <= part <= 11 /\ part <= zlength sa.
Proof.
  intros [->|(Hp & tag & Hl & Htag)]; [unfold zlength; lia|]. pose proof (want_bound tag).
  split; [lia|]. assert (0 <= zlength sa - part); [|lia]. unfold zlookup in Hl.
  destruct (Z.ltb_spec (zlength sa - part) 0); [done|lia].
Qed.
Lemma part_ok_last sa w (tag : Z) u : w = tag :: u -> (tag = 92 /\ zlength w <= 11 \/ tag <> 92 /\ zlength w < want tag) ->
  part_ok (sa ++ w) (zlength w).
Proof.
  intros -> Ht. right. split; [unfold zlength; cbn [length]; lia|]. exists tag. split; [|done].
  unfold zlookup, zlength. rewrite length_app. destruct (Z.ltb_spec (Z.of_nat (length sa + length (tag :: u)) - Z.of_nat (length (tag :: u))) 0); [lia|].
  rewrite lookup_app_r by lia. replace (Z.to_nat _ - length sa)%nat with 0%nat by lia. done.
Qed.
Lemma part_ok_snoc sa part c : part_ok sa part -> part <> 0 ->
  (forall tag, zlookup sa (zlength sa - part) = Some tag -> tag = 92 /\ part < 11 \/ tag <> 92 /\ part + 1 < want tag) ->
  part_ok (sa ++ [c]) (part + 1).
Proof.
  intros Hok Hp Htag. destruct Hok as [?|(Hpos & tag & Hl & _)]; [done|]. right. split; [lia|]. exists tag.
  assert (Hi : zlength (sa ++ [c]) - (part + 1) = zlength sa - part).
  { unfold zlength. rewrite length_app. cbn [length]. lia. }
  rewrite Hi. split; [|destruct (Htag _ Hl); [left|right]; lia].
  unfold zlookup in *. destruct (zlength sa - part <? 0); [done|]. by apply lookup_app_l_Some.
Qed.

Lemma hex_end lower n : forall ch first, hex_digits lower n ch first = HexEnd -> (length first < n)%nat.
Proof.
  induction n as [|n IH]; intros ch first; [done|]. destruct first as [|c first]; [cbn; lia|]. cbn [hex_digits length].
  repeat match goal with |- context [if ?b then _ else _] => destruct b end; [intros H%IH; lia..|done].
Qed.
Lemma hex_rest lower n : forall ch first ch' rest, hex_digits lower n ch first = Hex ch' rest ->
  length first = (n + length rest)%nat.
Proof.
  induction n as [|n IH]; intros ch first ch' rest; cbn [hex_digits]; [by intros [= _ ->]|].
  destruct first as [|c first]; [done|]. cbn [length].
  repeat match goal with |- context [if ?b then _ else _] => destruct b end; [intros H%IH; lia..|done].
Qed.
Lemma hex_error lower n : forall ch first e, hex_digits lower n ch first = HexError e -> (length e <= length first)%nat.
Proof.
  induction n as [|n IH]; intros ch first e; cbn [hex_digits]; [done|]. destruct first as [|c first]; [done|]. cbn [length].
  repeat match goal with |- context [if ?b then _ else _] => destruct b end; [intros H%IH; lia..|]. intros [= <-]. done.
Qed.
(** An escape is at most twelve bytes long, and takes at least two. *)
Lemma escape_spec c first :
  match parse_escape (c :: first) with
  | EscapeEnd => (length (c :: first) <= 11)%nat
  | EscapeError e => (length e <= length first)%nat
  | Escape _ last rest => (length last <= length first)%nat /\ (length rest < length first)%nat
  end.
Proof.
  destruct first as [|d first]; [cbn; lia|]. cbn [parse_escape].
  destruct ((d =? 34) || (d =? 92) || (d =? 47)); [cbn [length]; lia|].
  destruct (d =? 98); [cbn [length]; lia|]. destruct (d =? 102); [cbn [length]; lia|]. destruct (d =? 110); [cbn [length]; lia|].
  destruct (d =? 114); [cbn [length]; lia|]. destruct (d =? 116); [cbn [length]; lia|].
  destruct (d =? 117); [|cbn [length]; lia]. cbn [length].
  destruct (hex_digits true 4 0 first) as [ch rest| |e] eqn:E; [|apply hex_end in E; lia|apply hex_error in E; lia].
  pose proof (hex_rest _ _ _ _ _ _ E) as Hr. pose proof (length_drop first 3) as Hd.
  destruct (in_range ch 55296 57344); [|lia]. destruct (56320 <=? ch); [lia|].
  destruct rest as [|a rest]; cbn [second_surrogate length] in *; [lia|].
  destruct (negb (a =? 92)); [cbn [length]; lia|]. destruct rest as [|b rest]; [cbn [length] in *; lia|].
  destruct (negb (b =? 117)); [cbn [length] in *; lia|]. cbn [length] in *.
  destruct (hex_digits false 4 0 rest) as [ch2 rest2| |e] eqn:E2; [|apply hex_end in E2; lia|apply hex_error in E2; lia].
  pose proof (hex_rest _ _ _ _ _ _ E2) as Hr2. pose proof (length_drop rest 3) as Hd2.
  destruct (negb (in_range ch2 56320 57344)); lia.
Qed.
(** [m] is the string bit, or nothing. *)
Definition string_bit (m : Z) : Prop := m = 0 \/ m = 16.
Lemma bit_land b m n : based b -> string_bit m -> 0 <= n < 16 -> Z.land (b + m + n) 15 = n.
Proof.
  intros Hb Hm Hn. replace (b + m + n) with (b + (m + n)) by lia. rewrite land_part by (destruct Hm; lia || done).
  change 15 with (Z.ones 4). rewrite Z.land_ones by lia. change (2 ^ 4) with 16. destruct Hm as [->| ->]; lia.
Qed.
Lemma bit_lor b m n : based b -> string_bit m -> 0 <= n < 16 -> Z.lor (b + m) n = b + m + n.
Proof. intros Hb Hm Hn. apply (lor_add 4); [lia|done|]. pose proof (based_mod _ Hb). change (2 ^ 4) with 16. destruct Hm as [->| ->]; lia. Qed.
Lemma set_bit b m n : based b -> string_bit m -> 0 <= n < 16 -> Z.lor (b + m + n) 16 = b + 16 + n.
Proof.
  intros Hb Hm Hn. rewrite <- bit_lor, <- Z.lor_assoc, (Z.lor_comm n), Z.lor_assoc by done.
  assert (H : Z.lor (b + m) 16 = b + 16).
  { rewrite lor_parts by (done || destruct Hm; lia). by destruct Hm as [->| ->]. }
  rewrite H. apply bit_lor; [done|by right|done].
Qed.
Lemma clear_bit b m : based b -> string_bit m -> clear_bits (b + m) 16 = b.
Proof. intros Hb Hm. rewrite clear_part by (done || destruct Hm; lia). destruct Hm as [->| ->]; [by rewrite Z.add_0_r|]. change (clear_bits 16 16) with 0. lia. Qed.
Lemma based_error b x : based b -> 0 <= x -> b + x <> st_error.
Proof. intros [[Hb _] _] Hx. unfold st_error. lia. Qed.

Lemma backslash_spec b m sa f : based b -> string_bit m ->
  let '(st, sa', rest) := consume_backslash (b + m) sa (92 :: f) in
  (length rest <= length f)%nat /\
  (st = st_error \/ st = b + m \/
   exists n, rest = [] /\ st = b + m + n /\ 0 < n /\ part_ok sa' n).
Proof.
  intros Hb Hm. unfold consume_backslash. pose proof (escape_spec 92 f) as He.
  destruct (parse_escape (92 :: f)) as [ch last rest| |e].
  - destruct He as [Hl Hr]. destruct (ch =? 0); [by auto|]. destruct (append_utf8 ch); [|by auto]. split; [lia|auto].
  - split; [cbn; lia|]. right. right. exists (zlength (92 :: f)). unfold zlength in *. cbn [length] in *.
    rewrite bit_lor by (done || lia). split_and!; [done|done|lia|].
    apply (part_ok_last sa (92 :: f) 92 f); [done|]. left. unfold zlength. cbn [length]. lia.
  - auto.
Qed.
Lemma multi_part sa c f n : c <> 92 -> n = Z.of_nat (length (c :: f)) -> n < want c -> part_ok (sa ++ c :: f) n.
Proof. intros Hc -> Hw. apply (part_ok_last sa (c :: f) c f); [done|]. right. unfold zlength. lia. Qed.
Lemma string_loop_spec b m past : based b -> string_bit m -> forall fuel sa u first, (length first < fuel)%nat ->
  exists st sa' prev' first', string_loop fuel past (b + m) sa (u ++ first) first = Some (st, sa', prev', first') /\
    (length first' <= length first)%nat /\
    (st = st_error \/ st = b + m /\ (first' = [] \/ exists rest, first' = 34 :: rest) \/
     exists n, first' = [] /\ st = b + m + n /\ 0 < n /\ part_ok (sa' ++ between prev' first') n).
Proof.
  intros Hb Hm. assert (Hne : (b + m =? st_error) = false) by (apply Z.eqb_neq, based_error; [done|destruct Hm; lia]).
  induction fuel as [|fuel IH]; intros sa u first Hf; [lia|]. cbn [string_loop].
  destruct first as [|c f]; [by eexists _, _, _, _; split_and!; auto|]. cbn [length] in Hf.
  destruct (in_range c 32 128 && negb (c =? 92) && negb (c =? 34)).
  { destruct (IH sa (u ++ [c]) f) as (st & sa' & prev' & first' & Hl & Hlen & Hst); [lia|]. rewrite <- app_assoc in Hl.
    exists st, sa', prev', first'. split; [exact Hl|]. split; [cbn [length]; lia|done]. }
  destruct (Z.eqb_spec c 92) as [->|Hc92].
  { pose proof (backslash_spec b m (sa ++ between (u ++ 92 :: f) (92 :: f)) f Hb Hm) as Hback.
    destruct (consume_backslash (b + m) (sa ++ between (u ++ 92 :: f) (92 :: f)) (92 :: f)) as [[st sa1] rest].
    destruct Hback as [Hlen [->|[->|(n & -> & -> & Hn & Hpart)]]].
    - exists st_error, sa1, rest, rest. split_and!; [done|cbn [length]; lia|by left].
    - rewrite Hne. destruct (IH sa1 [] rest) as (st & sa' & prev' & first' & Hl & Hlen' & Hst); [lia|].
      exists st, sa', prev', first'. split; [exact Hl|]. split; [cbn [length]; lia|done].
    - pose proof (part_bound _ _ Hpart). destruct (Z.eqb_spec (b + m + n) st_error) as [E|_].
      { destruct Hm as [->| ->], Hb as [[? _] _]; unfold st_error in E; lia. }
      destruct fuel as [|fuel]; [lia|]. cbn [string_loop].
      exists (b + m + n), sa1, [], []. split_and!; [done|cbn [length]; lia|]. right. right. exists n. split_and!; [done..|].
      by rewrite app_nil_r. }
  destruct (Z.eqb_spec c 34) as [->|_]; [eexists _, _, _, _; split_and!; [done|done|]; right; left; split; [done|right; by eexists]|].
  destruct (in_range c 194 245) eqn:Hr; cbn [negb]; [|eexists _, _, _, _; split_and!; [done|done|by left]].
  set (w := Z.to_nat (2 + Z.b2z (224 <=? c) + Z.b2z (240 <=? c))).
  assert (Hw : Z.of_nat w = want c) by (subst w; unfold want; destruct (224 <=? c), (240 <=? c); done).
  destruct (char_error past (c :: f) w (Nat.min (length (c :: f)) w)) as [e|] eqn:He.
  { eexists _, _, _, _. split_and!; [done| |by left].
    unfold char_error in He. pose proof (length_drop (c :: f) 2) as H2. pose proof (length_drop (c :: f) 3) as H3.
    repeat match type of He with context [if ?g then _ else _] => destruct g end; simplify_eq; cbn [length] in *; lia. }
  pose proof (want_bound c). destruct (Nat.eqb_spec (Nat.min (length (c :: f)) w) w) as [E|E].
  - destruct (IH sa (u ++ take w (c :: f)) (drop w (c :: f))) as (st & sa' & prev' & first' & Hl & Hlen & Hst).
    { rewrite length_drop. cbn [length] in *. lia. }
    rewrite <- app_assoc, take_drop in Hl. exists st, sa', prev', first'. rewrite E. split; [exact Hl|]. split; [|done].
    rewrite length_drop in Hlen. cbn [length] in *. lia.
  - assert (Hmin : Nat.min (length (c :: f)) w = length (c :: f)) by lia. rewrite Hmin, drop_all.
    eexists _, _, _, _. split; [done|]. split; [cbn; lia|]. right. right. exists (Z.of_nat (length (c :: f))).
    split; [done|]. split; [apply bit_lor; [done..|cbn [length] in *; lia]|]. split; [cbn [length]; lia|].
    rewrite <- (app_nil_r (u ++ c :: f)) at 1. rewrite between_app, app_assoc. apply multi_part; [done|done|lia].
Qed.
Lemma between_nil s : between s [] = s.
Proof. unfold between. apply take_ge. cbn. lia. Qed.

(** What a call of [consume_string] leaves: an error, the end of the string or a
    part of it. *)
Definition string_end (b : Z) (first : list Z) (r : text) : Prop :=
  let '(st, str, rest) := r in
  (length rest <= length first)%nat /\
  (st = st_error \/ st = b \/ exists n, rest = [] /\ st = b + 16 + n /\ part_ok str n).
Lemma string_body_spec b m past sa first : based b -> string_bit m ->
  exists r, string_body past (b + m) sa first = Some r /\ string_end b first r.
Proof.
  intros Hb Hm. destruct (string_loop_spec b m past Hb Hm (S (length first)) sa [] first) as (st & sa' & prev & first' & Hl & Hlen & Hst); [lia|].
  cbn [app] in Hl. unfold string_body. rewrite Hl. cbn [mbind option_bind]. eexists. split; [done|].
  assert (Hne : forall x, 0 <= x -> (b + x =? st_error) = false) by (intros x Hx; by apply Z.eqb_neq, based_error).
  destruct Hst as [->|[[-> Hq]|(n & -> & -> & Hn & Hpart)]].
  - split; [done|by left].
  - rewrite Hne by (destruct Hm; lia). destruct first' as [|c rest].
    + split; [cbn; lia|]. right. right. exists 0. split_and!; [done| |by left].
      rewrite <- (Z.add_0_r (b + m)). rewrite set_bit by (done || lia). done.
    + split; [cbn [length] in *; lia|]. right. left. by apply clear_bit.
  - pose proof (part_bound _ _ Hpart). replace (b + m + n) with (b + (m + n)) by lia.
    rewrite Hne by (destruct Hm; lia). split; [cbn; lia|]. right. right. exists n. split; [done|]. split; [|done].
    replace (b + (m + n)) with (b + m + n) by lia. apply set_bit; [done..|lia].
Qed.
Lemma stringpart_spec b past first : based b -> forall m part sa, string_bit m -> (m = 0 -> part = 0) -> part_ok sa part ->
  exists st sa' rest, consume_stringpart past (b + m + part) sa first = Some (st, sa', rest) /\
    (length rest <= length first)%nat /\
    (st = st_error \/ (exists m', string_bit m' /\ st = b + m') \/ exists n, rest = [] /\ st = b + 16 + n /\ part_ok sa' n).
Proof.
  intros Hb. induction first as [|c f IH]; intros m part sa Hm Hmp Hpart; pose proof (part_bound _ _ Hpart) as Hpb; cbn [consume_stringpart].
  - change st_partlenmask with 15. rewrite bit_land by (done || lia). destruct (Z.eqb_spec part 0) as [->|Hp].
    + eexists _, _, _. split_and!; [done|done|]. right. left. exists m. split; [done|lia].
    + eexists _, _, _. split_and!; [done|done|]. right. right. exists part. split; [done|]. split; [|done]. destruct Hm as [Hm| ->]; [tauto|done].
  - change st_partlenmask with 15. rewrite bit_land by (done || lia). destruct (Z.eqb_spec part 0) as [->|Hp].
    + eexists _, _, _. split_and!; [done|done|]. right. left. exists m. split; [done|lia].
    + destruct Hm as [Hm| ->]; [tauto|].
      assert (Htag : exists tag, zlookup sa (zlength sa - part) = Some tag) by (destruct Hpart as [?|(_ & tag & Hl & _)]; [done|by exists tag]).
      destruct Htag as (tag & Hl). rewrite Hl. cbn [mbind option_bind].
      destruct (negb (tag =? 92) && _ || _ || _ || _); [eexists _, _, _; split_and!; [done|done|by left]|].
      destruct (negb (tag =? 92) && (part =? 1 + Z.b2z (224 <=? tag) + Z.b2z (240 <=? tag)) || _) eqn:Hdone.
      * assert (Hs : b + 16 + part - Z.lor st_stringpart part = b + 0).
        { change st_stringpart with (0 + 16). rewrite (bit_lor 0 16); [lia|by split|by right|lia]. }
        rewrite Hs. destruct (string_body_spec b 0 past (take (Z.to_nat (zlength (sa ++ [c]) - part - 1)) (sa ++ [c]))
          (drop (Z.to_nat (zlength (sa ++ [c]) - part - 1)) (sa ++ [c])) Hb (or_introl eq_refl)) as ([[st str] rest] & -> & _ & Hst).
        cbn [mbind option_bind]. destruct (Z.eqb_spec st st_error) as [->|Hne].
        { eexists _, _, _. split_and!; [done|cbn [length]; lia|by left]. }
        destruct Hst as [?|[->|(n & -> & -> & Hn)]]; [done| |].
        -- destruct (IH 0 0 str) as (st' & sa' & rest' & Hc & Hlen & Hst'); [by left|done|by left|].
           rewrite !Z.add_0_r in Hc. exists st', sa', rest'. split; [exact Hc|]. split; [cbn [length]; lia|done].
        -- destruct (IH 16 n str) as (st' & sa' & rest' & Hc & Hlen & Hst'); [by right|done|done|].
           exists st', sa', rest'. split; [exact Hc|]. split; [cbn [length]; lia|done].
      * destruct (IH 16 (part + 1) (sa ++ [c])) as (st' & sa' & rest' & Hc & Hlen & Hst'); [by right|done| |].
        { apply part_ok_snoc; [done..|]. intros tag' Hl'. rewrite Hl in Hl'. injection Hl' as <-.
          destruct Hpart as [?|(_ & tag' & Hl' & Ht)]; [done|]. rewrite Hl in Hl'. injection Hl' as <-.
          unfold want in *. destruct (Z.eqb_spec tag 92) as [->|]; [left|right]; (split; [done|]).
          - destruct (Z.eqb_spec part 11); [|lia]. subst part. done.
          - destruct (Z.eqb_spec part (1 + Z.b2z (224 <=? tag) + Z.b2z (240 <=? tag))); [done|lia]. }
        rewrite Z.add_assoc in Hc. exists st', sa', rest'. split; [exact Hc|]. split; [cbn [length]; lia|done].
Qed.
Lemma consume_string_spec b past state sa first : based b ->
  state = b \/ (exists n, state = b + 16 + n /\ part_ok sa n) ->
  exists r, consume_string past state sa first = Some r /\ string_end b first r.
Proof.
  intros Hb Hst. unfold consume_string.
  assert (Hbit : forall m sa, string_bit m -> exists r, string_body past (b + m) sa first = Some r /\ string_end b first r)
    by (intros; by apply string_body_spec).
  assert (Hplain : forall m, string_bit m -> has (b + m) st_partlenmask = false).
  { intros m Hm. unfold has. rewrite <- (Z.add_0_r (b + m)). change st_partlenmask with 15. by rewrite bit_land by (done || lia). }
  destruct Hst as [->|(n & -> & Hpart)].
  { pose proof (Hplain 0 (or_introl eq_refl)) as Hp0. destruct (Hbit 0 sa (or_introl eq_refl)) as (r & Hr & Hend).
    rewrite Z.add_0_r in Hp0, Hr. rewrite Hp0. by exists r. }
  pose proof (part_bound _ _ Hpart). destruct (Z.eq_dec n 0) as [->|Hn].
  { rewrite Z.add_0_r, Hplain by (by right). apply Hbit. by right. }
  assert (Hhas : has (b + 16 + n) st_partlenmask = true).
  { unfold has. change st_partlenmask with 15. rewrite bit_land by (done || (by right) || lia). by apply negb_true_iff, Z.eqb_neq. }
  rewrite Hhas.
  destruct (stringpart_spec b past first Hb 16 n sa (or_intror eq_refl) ltac:(done) Hpart) as (st & sa' & rest & -> & Hlen & Hst).
  cbn [mbind option_bind]. destruct (Z.eqb_spec st st_error) as [->|Hne]; [eexists; split; [done|]; split; [done|by left]|].
  destruct Hst as [?|[(m & Hm & ->)|(k & -> & -> & Hk)]]; [done| |].
  - destruct (string_body_spec b m past sa' rest Hb Hm) as ([[st str] rest'] & -> & Hl & Hs).
    eexists. split; [done|]. split; [lia|done].
  - unfold string_body. cbn [length string_loop mbind option_bind]. destruct (Z.eqb_spec (b + 16 + k) st_error) as [E|_].
    { pose proof (part_bound _ _ Hk). destruct Hb as [[? _] _]. unfold st_error in E. lia. }
    eexists. split; [done|]. split; [cbn; lia|]. right. right. exists k. split; [done|]. rewrite between_nil, app_nil_r.
    split; [|done]. pose proof (part_bound _ _ Hk). apply set_bit; [done|by right|lia].
Qed.

(** * Numbers and primitives *)
Lemma take_digits_length s : (length (take_digits s) <= length s)%nat.
Proof. apply length_skip_while. Qed.
Definition scanned (first : list Z) (r : Z * list Z) : Prop := 0 <= fst r <= 9 /\ (length (snd r) <= length first)%nat.
Lemma scanned_cons c first r : scanned first r -> scanned (c :: first) r.
Proof. intros [H1 H2]. split; [done|cbn; lia]. Qed.
Lemma scanned_take first r : scanned (take_digits first) r -> scanned first r.
Proof. intros [H1 H2]. split; [done|]. pose proof (take_digits_length first). lia. Qed.
Lemma scan_exponent first : scanned first (exponent first).
Proof.
  assert (Hd : forall f, scanned f (digits_after_exponent f)).
  { intros [|c f]; [split; cbn; lia|]. cbn. destruct (isdig c); [|split; cbn; lia]. split; [cbn; lia|].
    pose proof (take_digits_length f). cbn. lia. }
  destruct first as [|c f]; [split; cbn; lia|]. unfold exponent.
  destruct ((c =? 43) || (c =? 45)); [apply scanned_cons|]; apply Hd.
Qed.
Lemma scan_maybe_exponent n first : 0 <= n <= 9 -> scanned first (maybe_exponent n first).
Proof.
  intros Hn. destruct first as [|c f]; [by split|]. cbn. destruct ((c =? 101) || (c =? 69)); [|by split].
  apply scanned_cons, scan_exponent.
Qed.
Lemma scan_decimals n first : 0 <= n <= 9 -> scanned first (decimals n first).
Proof.
  intros Hn. unfold decimals. destruct (negb _ && _); [apply scanned_take, scan_maybe_exponent; lia|].
  split; [done|apply take_digits_length].
Qed.
Lemma scan_decimal_point first : scanned first (decimal_point first).
Proof.
  destruct first as [|c f]; [apply scan_decimals; lia|]. cbn. destruct (isdig c); [apply scanned_cons|]; apply scan_decimals; lia.
Qed.
Lemma scan_after_integer n first : 0 <= n <= 9 -> scanned first (after_integer n first).
Proof.
  intros Hn. destruct first as [|c f]; [by apply scan_maybe_exponent|]. cbn [after_integer].
  destruct (c =? 46); [apply scanned_cons, scan_decimal_point|by apply scan_maybe_exponent].
Qed.
Lemma scan_integer_part first : scanned first (integer_part first).
Proof.
  destruct first as [|c f]; [apply scan_after_integer; lia|]. cbn [integer_part].
  destruct (c =? 48); [apply scanned_cons, scan_after_integer; lia|].
  destruct (in_range c 49 58); [apply scanned_cons, scanned_take, scan_after_integer; lia|apply scan_after_integer; lia].
Qed.
Lemma scan_number_spec n first : 0 <= n <= 9 -> scanned first (scan_number n first).
Proof.
  intros Hn. unfold scan_number. destruct (n =? 0).
  { destruct first as [|c f]; [apply scan_integer_part|]. destruct (c =? 45); [apply scanned_cons|]; apply scan_integer_part. }
  repeat match goal with |- context [if ?b then _ else _] => destruct b end;
    auto using scan_integer_part, scan_decimal_point, scan_exponent, scan_after_integer, scan_decimals.
  - apply scanned_take, scan_after_integer. lia.
  - apply scan_after_integer. lia.
  - apply scan_decimals. lia.
  - destruct first as [|c f]; [split; cbn; lia|]. cbn. destruct (isdig c); [|split; cbn; lia].
    apply scanned_cons. split; [cbn; lia|apply take_digits_length].
  - split; [cbn; lia|apply take_digits_length].
  - by split.
Qed.
(** A number takes its first character. *)
Lemma scan_number_first c f : 0 <= c < 256 -> c = 45 \/ isdig c = true -> (length (snd (scan_number 0 (c :: f))) <= length f)%nat.
Proof.
  intros Hb Hc. unfold scan_number. cbn [Z.eqb]. destruct (Z.eqb_spec c 45) as [->|Hne]; [apply scan_integer_part|].
  destruct Hc as [?|Hc]; [done|]. cbn [integer_part]. destruct (Z.eqb_spec c 48); [apply scan_after_integer; lia|].
  assert (Hr : in_range c 49 58 = true).
  { unfold isdig, in_range, uwrap in Hc |- *. apply Z.ltb_lt in Hc. apply Z.ltb_lt. lia. }
  rewrite Hr. apply (scanned_take f), scan_after_integer. lia.
Qed.

Lemma match_primitive_spec t : forall first n n' t' rest, match_primitive t first n = (Some (n', t'), rest) ->
  n' + zlength t' = n + zlength t /\ n <= n' /\ (length rest <= length first)%nat /\ (rest = [] \/ default 0 (head t') = 0).
Proof.
  induction t as [|x t IH]; intros first n n' t' rest; cbn [match_primitive].
  { intros [= <- <- <-]. split_and!; auto; lia. }
  destruct first as [|c f]; [intros [= <- <- <-]; split_and!; auto; lia|].
  destruct (Z.eqb_spec x 0) as [->|]; [intros [= <- <- <-]; split_and!; auto; lia|].
  destruct (negb (x =? c)); [done|]. intros (H1 & H2 & H3 & H4)%IH. unfold zlength in *. cbn [length] in *.
  split_and!; [lia|lia|lia|done].
Qed.

Section value.
Context {D : Type} {libc : Libc D}.
Local Abbreviation json := (json D).
Local Abbreviation t := (@t D).
Implicit Types (j v root : json) (p : t).

(** What a call for a token leaves: its value, an error, or a part of it. *)
Definition token_end (b : Z) (mask : Z) p (first : list Z) (r : t * list Z * option json) : Prop :=
  let '(p', rest, j) := r in
  stack_ p' = stack_ p /\ json_ p' = json_ p /\ (length rest <= length first)%nat /\
  match j with
  | Some j => Json.is_array j = false /\ Json.is_object j = false /\ state_ p' = b
  | None => state_ p' = st_error \/ rest = [] /\ exists n, state_ p' = b + mask + n /\ 0 <= n < 16 /\ (mask = 64 -> n <= 9)
  end.
Lemma consume_number_spec complete b m p first : based b -> state_ p = b + m ->
  m = 0 \/ (exists n, m = 64 + n /\ 0 <= n <= 9) ->
  token_end b 64 p first (consume_number complete p first) /\
  (m = 0 -> forall c f, first = c :: f -> 0 <= c < 256 -> c = 45 \/ isdig c = true ->
   (length (snd (fst (consume_number complete p first))) <= length f)%nat).
Proof.
  intros Hb Hst Hm. unfold consume_number.
  set (n := Z.land (state_ p) st_partlenmask).
  assert (Hn : 0 <= n <= 9 /\ (m = 0 -> n = 0)).
  { subst n. rewrite Hst. change st_partlenmask with (Z.ones 4). destruct Hm as [->|(k & -> & Hk)]; rewrite land_part by (done || (cbn; lia));
      rewrite Z.land_ones by lia; change (2 ^ 4) with 16; lia. }
  destruct Hn as [Hn Hn0]. pose proof (scan_number_spec n first Hn) as [Hpos Hlen].
  assert (Hfirst : m = 0 -> forall c f, first = c :: f -> 0 <= c < 256 -> c = 45 \/ isdig c = true -> (length (snd (scan_number n first)) <= length f)%nat).
  { intros ->. rewrite Hn0 by done. intros c f ->. apply scan_number_first. }
  destruct (scan_number n first) as [position rest]. cbn [fst snd] in *.
  assert (Hclear : clear_bits (state_ p) st_partmask = b).
  { rewrite Hst, clear_part; [|done|destruct Hm as [->|(k & -> & Hk)]; lia|done].
    assert (E : clear_bits m st_partmask = 0); [|lia]. unfold clear_bits. change st_partmask with (Z.ones 8).
    rewrite <- Z.ldiff_land, Z.ldiff_ones_r by lia. change (2 ^ 8) with 256.
    assert (Hm' : m / 256 = 0) by (destruct Hm as [->|(k & -> & Hk)]; lia). rewrite Z.shiftr_div_pow2 by lia. change (2 ^ 8) with 256. by rewrite Hm'. }
  destruct (negb (zlength rest =? 0) || complete) eqn:E.
  - destruct (Z.even position); cbn [error_at]; (split; [|done]).
    + split_and!; [done..|by left].
    + split_and!; [done|done|done| | |exact Hclear]; unfold number_value; destruct (_ ++ between first rest) as [|c [|c' s]]; try done;
        destruct (position <? 4), (c =? 45); done.
  - split; [|done]. split_and!; [done..|]. right. apply orb_false_iff in E as [E _]. apply negb_false_iff, Z.eqb_eq in E.
    split; [destruct rest; [done|unfold zlength in E; cbn [length] in E; lia]|]. exists position. split; [|lia].
    cbn [state_ with_str with_state]. rewrite Hclear. rewrite (lor_part b st_numberpart) by done. rewrite lor_parts by (done || lia).
    assert (Hl : Z.lor st_numberpart position = 64 + position); [|lia].
    apply (lor_add 4); [lia|lia|done].
Qed.
Lemma consume_primitive_spec b m p first : based b -> state_ p = b + m -> m = 0 \/ (exists n, m = 32 + n /\ 0 <= n < 16) ->
  token_end b 32 p first (consume_primitive p first) /\
  (m = 0 -> forall c f, first = c :: f -> (length (snd (fst (consume_primitive p first))) <= length f)%nat).
Proof.
  intros Hb Hst Hm. unfold consume_primitive.
  assert (Hgen : forall n q f, 0 <= n <= 16 -> stack_ q = stack_ p -> json_ q = json_ p -> state_ q = b -> (length f <= length first)%nat ->
    let r := match match_primitive (drop (Z.to_nat n) primitives) f n with
    | (None, here) => let '(p, here) := error_at q here in (p, here, None)
    | (Some (n, t), first) =>
        if negb (default 0 (head t) =? 0) then (with_state (Z.lor (state_ q) (Z.lor st_primitivepart n)) q, first, None)
        else if n =? 4 then (q, first, Some JNull)
        else if n =? 10 then (q, first, Some (JBool false))
        else (q, first, Some (JBool true))
    end in token_end b 32 p first r /\ (length (snd (fst r)) <= length f)%nat).
  { intros n q f Hn Hq1 Hq2 Hq3 Hf. assert (Herr : forall t0 here f0 n0, match_primitive t0 f0 n0 = (None, here) -> (length here <= length f0)%nat).
    { clear. induction t0 as [|x t0 IH]; intros here f0 n0; cbn [match_primitive]; [done|]. destruct f0 as [|c f0]; [done|].
      destruct (x =? 0); [done|]. destruct (negb (x =? c)); [intros [= <-]; lia|]. intros H%IH. cbn [length]. lia. }
    destruct (match_primitive (drop (Z.to_nat n) primitives) f n) as [[[n' t']|] rest] eqn:E.
    - apply match_primitive_spec in E as (H1 & H2 & H3 & H4).
      assert (Hlen : zlength (drop (Z.to_nat n) primitives) = 16 - n).
      { unfold zlength. rewrite length_drop. change (length primitives) with 16%nat. lia. }
      destruct (Z.eqb_spec (default 0 (head t')) 0) as [Hh|Hh]; cbn [negb].
      + assert (Hfin : forall j, Json.is_array j = false -> Json.is_object j = false ->
          token_end b 32 p first (q, rest, Some j) /\ (length (snd (fst (q, rest, Some j))) <= length f)%nat).
        { intros j Ha Ho. split; [|done]. split_and!; [done|done|lia|done..]. }
        destruct (n' =? 4); [by apply Hfin|]. destruct (n' =? 10); by apply Hfin.
      + split; [|done]. split_and!; [done|done|lia|]. right. destruct H4 as [->|?]; [|done]. split; [done|]. exists n'.
        assert (Hn' : 0 <= n' < 16). { destruct t' as [|x t']; [done|]. unfold zlength in *. cbn [length] in *. lia. }
        split; [|done]. cbn [state_ with_state]. rewrite Hq3.
        assert (Hl : Z.lor st_primitivepart n' = 32 + n') by (apply (lor_add 4); [lia|lia|done]). rewrite Hl.
        rewrite lor_part by (done || lia). lia.
    - cbn [error_at]. apply Herr in E. split; [|done]. split_and!; [done|done|lia|by left]. }
  assert (Hhas : has (state_ p) st_primitivepart = negb (m =? 0)).
  { unfold has. rewrite Hst. destruct Hm as [->|(n & -> & Hn)].
    - rewrite land_part by (done || lia). done.
    - rewrite land_part by (done || lia). change (Z.land (32 + n) st_primitivepart) with (Z.land (32 + n) (Z.shiftl 1 5)).
      assert (Ht : Z.testbit (32 + n) 5 = true).
      { rewrite <- (lor_add 4 32 n) by (done || lia). rewrite Z.lor_spec. done. }
      assert (Hz : Z.land (32 + n) (Z.shiftl 1 5) <> 0).
      { intros E. apply (f_equal (fun x => Z.testbit x 5)) in E. rewrite Z.land_spec, Ht in E. done. }
      destruct (Z.eqb_spec (Z.land (32 + n) (Z.shiftl 1 5)) 0), (Z.eqb_spec (32 + n) 0); done || lia. }
  rewrite Hhas. destruct Hm as [->|(n & -> & Hn)].
  - cbn [Z.eqb negb]. destruct first as [|c f].
    + destruct (Hgen 12 p []) as [Hr _]; [lia|done|done|lia|done|]. split; [exact Hr|done].
    + destruct (Hgen (if c =? 110 then 1 else if c =? 102 then 6 else 12) p (drop 1 (c :: f))) as [Hr Hl];
        [destruct (c =? 110), (c =? 102); lia|done|done|lia|rewrite length_drop; cbn [length]; lia|].
      split; [exact Hr|]. intros _ c' f' [= <- <-]. exact Hl.
  - destruct (Z.eqb_spec (32 + n) 0); [lia|]. cbn [negb].
    assert (Hland : Z.land (state_ p) st_partlenmask = n).
    { rewrite Hst. change st_partlenmask with (Z.ones 4). rewrite land_part by (done || (cbn; lia)). rewrite Z.land_ones by lia. change (2 ^ 4) with 16. lia. }
    rewrite Hland. destruct (Hgen n (with_state (clear_bits (state_ p) st_partmask) p) first) as [Hr _]; [lia|done|done| |done|].
    { cbn [state_ with_state]. rewrite Hst, clear_part by (done || lia).
      assert (E : clear_bits (32 + n) st_partmask = 0); [|lia]. unfold clear_bits. change st_partmask with (Z.ones 8).
      rewrite <- Z.ldiff_land, Z.ldiff_ones_r by lia. rewrite Z.shiftr_div_pow2 by lia. change (2 ^ 8) with 256.
      replace ((32 + n) / 256) with 0 by lia. done. }
    split; [exact Hr|lia].
Qed.

(** * The value under construction *)
(** Every table in the value is well formed. *)
Inductive json_ok : json -> Prop :=
  | ok_leaf j : Json.is_array j = false -> Json.is_object j = false -> json_ok j
  | ok_array a : Forall json_ok a -> json_ok (JArray a)
  | ok_object o : object_ok o -> Forall (fun kv => json_ok (snd kv)) (ObjectJson.members o) -> json_ok (JObject o).
Lemma item_member (o : object json) q v : ObjectJson.value_at o q = Some v ->
  exists k, key_at (os_ o) q = Some k /\ (k, v) ∈ ObjectJson.members o.
Proof.
  unfold ObjectJson.value_at, key_at. destruct (zlookup (os_ o) q) as [[k w nx|]|] eqn:E; [|done..]. cbn. intros [= ->].
  exists k. split; [done|]. unfold ObjectJson.members. apply list_elem_of_omap. exists (Item k v nx). split; [|done].
  unfold zlookup in E. destruct (q <? 0); [done|]. by eapply list_elem_of_lookup_2.
Qed.
Lemma read_step_ok j s x : json_ok j -> read_step j s = Some x -> json_ok x.
Proof.
  intros Hj Hx. destruct Hj as [j Ha Ho|a Ha|o Ho Hm].
  - by destruct j.
  - destruct s as [i|q]; [|done]. cbn in Hx. unfold zlookup in Hx. destruct (i <? 0); [done|].
    rewrite Forall_forall in Ha. apply Ha. by eapply list_elem_of_lookup_2.
  - destruct s as [i|q]; [done|]. cbn in Hx. destruct (item_member _ _ _ Hx) as (k & _ & Hin).
    rewrite Forall_forall in Hm. by apply (Hm _ Hin).
Qed.
Lemma write_step_ok j s x v j' : json_ok j -> json_ok v -> read_step j s = Some x -> write_step j s v = Some j' -> json_ok j'.
Proof.
  intros Hj Hv Hx Hw. destruct Hj as [j Ha Ho|a Ha|o Ho Hm].
  - by destruct j.
  - destruct s as [i|q]; [|done]. cbn in Hw. destruct (zset a i v) as [a'|] eqn:E; [|done]. injection Hw as <-.
    apply ok_array. unfold zset in E. destruct ((0 <=? i) && (i <? zlength a)); [|done]. injection E as <-. by apply Forall_insert.
  - destruct s as [i|q]; [done|]. cbn in Hx, Hw. destruct (item_member _ _ _ Hx) as (k & Hk & _).
    destruct (set_value_spec o q k v Ho Hk) as (o' & Hs & Ho' & _ & _ & Hm'). rewrite Hs in Hw. injection Hw as <-.
    apply ok_object; [done|]. rewrite Hm'. apply Forall_forall. intros kv Hin. apply list_elem_of_In, in_map_iff in Hin as (kv' & <- & Hin).
    destruct (decide (fst kv' = k)); [done|]. rewrite Forall_forall in Hm. by apply Hm, list_elem_of_In.
Qed.
Lemma read_path_ok path : forall j x, json_ok j -> read_path j path = Some x -> json_ok x.
Proof.
  induction path as [|s path IH]; intros j x Hj; cbn; [by intros [= <-]|].
  destruct (read_step j s) as [y|] eqn:E; [|done]. cbn. intros Hx. eapply IH; [|done]. by eapply read_step_ok.
Qed.
Lemma write_path_ok path : forall j v j', json_ok j -> json_ok v -> write_path j path v = Some j' -> json_ok j'.
Proof.
  induction path as [|s path IH]; intros j v j' Hj Hv; cbn; [by intros [= <-]|].
  destruct (read_step j s) as [y|] eqn:E; [|done]. cbn. destruct (write_path y path v) as [y'|] eqn:Ey; [|done]. cbn.
  intros Hw. eapply write_step_ok; [exact Hj| |exact E|exact Hw]. eapply IH; [|done..]. exact (read_step_ok _ _ _ Hj E).
Qed.

(** * References *)
Definition refers root (path : list Json.step) (f : json -> bool) : Prop := exists j, read_path root path = Some j /\ f j = true.
Definition container j : bool := Json.is_array j || Json.is_object j.
(** The stack refers to arrays and objects, each inside the next one. *)
Fixpoint levels root (stack : list (list Json.step)) : Prop :=
  match stack with
  | [] => container root = true
  | x :: rest => (exists q, q <> [] /\ x = top rest ++ q) /\ refers root x container /\ levels root rest
  end.
Lemma levels_top root stack : levels root stack -> refers root (top stack) container.
Proof. destruct stack as [|x rest]; [intros H; by exists root|]. by intros (_ & H & _). Qed.
Definition same_kind j j' : Prop := Json.is_array j' = Json.is_array j /\ Json.is_object j' = Json.is_object j.
Lemma same_kind_step j s v j' : write_step j s v = Some j' -> same_kind j j'.
Proof.
  destruct j as [|a|o| | | | |], s as [i|q]; try done; cbn.
  - destruct (zset a i v); [|done]. by intros [= <-].
  - destruct (ObjectJson.set_value o q v); [|done]. by intros [= <-].
Qed.
(** A write below a part does not change what kind of value it is. *)
Lemma write_below P : forall root q v root' j, q <> [] -> read_path root P = Some j ->
  write_path root (P ++ q) v = Some root' -> exists j', read_path root' P = Some j' /\ same_kind j j'.
Proof.
  induction P as [|s P IH]; intros root q v root' j Hq; cbn [app read_path write_path].
  - intros [= ->]. destruct q as [|s q]; [done|]. cbn. destruct (read_step j s) as [y|]; [|done]. cbn.
    destruct (write_path y q v) as [y'|]; [|done]. cbn. intros Hw. exists root'. split; [done|]. by eapply same_kind_step.
  - destruct (read_step root s) as [y|] eqn:E; [|done]. cbn [mbind option_bind]. intros Hr.
    destruct (write_path y (P ++ q) v) as [y'|] eqn:Ey; [|done]. cbn [mbind option_bind]. intros Hw.
    destruct (write_step_spec root s y y' E) as (root2 & Hw2 & Hrs & _). rewrite Hw in Hw2. injection Hw2 as <-.
    destruct (IH _ _ _ _ _ Hq Hr Ey) as (j' & Hj' & Hk). exists j'. by rewrite Hrs.
Qed.
Lemma refers_below root P q v root' f : (f = Json.is_array \/ f = Json.is_object \/ f = container) -> q <> [] -> refers root P f ->
  write_path root (P ++ q) v = Some root' -> refers root' P f.
Proof.
  intros Hf Hq (j & Hj & Hfj) Hw. destruct (write_below P root q v root' j Hq Hj Hw) as (j' & Hj' & Ha & Ho).
  exists j'. split; [done|]. destruct Hf as [->|[->| ->]]; unfold container in *; congruence.
Qed.
Lemma levels_below root stack q v root' : q <> [] -> levels root stack ->
  write_path root (top stack ++ q) v = Some root' -> levels root' stack.
Proof.
  intros Hq Hl Hw.
  assert (Hgen : forall stack2 q2, q2 <> [] -> levels root stack2 -> top stack ++ q = top stack2 ++ q2 -> levels root' stack2).
  { induction stack2 as [|x rest IH]; intros q2 Hq2 Hlev Heq; cbn [top] in Heq; pose proof Hw as Hw2; rewrite Heq in Hw2.
    - destruct (refers_below root [] q2 v root' container) as (j & [= <-] & Hj); [auto|done|by exists root|done|done].
    - destruct Hlev as ((q3 & Hq3 & ->) & Hx & Hlev). split; [by exists q3|]. split.
      + eapply refers_below; [auto|exact Hq2|exact Hx|exact Hw2].
      + apply (IH (q3 ++ q2)); [by destruct q3|done|]. by rewrite Heq, <- app_assoc. }
  by apply (Hgen stack q).
Qed.
Lemma levels_at root stack v root' : levels root stack -> container v = true ->
  write_path root (top stack) v = Some root' -> levels root' stack.
Proof.
  intros Hl Hv Hw. destruct stack as [|x rest]; [by injection Hw as <-|]. cbn [top] in Hw.
  destruct Hl as ((q & Hq & ->) & (j & Hj & _) & Hl). split; [by exists q|]. split.
  - destruct (write_path_spec _ root j v Hj) as (r & Hr & Hread & _). rewrite Hw in Hr. injection Hr as <-. by exists v.
  - by eapply levels_below.
Qed.
(** The member that waits for its value. *)
Definition item_on root (stack : list (list Json.step)) : Prop :=
  exists rest q x, stack = (top rest ++ [Json.SItem q]) :: rest /\ levels root rest /\ refers root (top rest) Json.is_object /\
    read_path root (top rest ++ [Json.SItem q]) = Some x.
Lemma write_some root path x v : read_path root path = Some x ->
  exists root', write_path root path v = Some root' /\ read_path root' path = Some v.
Proof. intros Hx. destruct (write_path_spec path root x v Hx) as (r & H1 & H2 & _). by exists r. Qed.

(** * The invariant *)
(** Where a value can come. *)
Definition waits (b : Z) root (stack : list (list Json.step)) : Prop :=
  b = st_initial /\ stack = [] \/
  (b = st_array_initial \/ b = st_array_value) /\ levels root stack /\ refers root (top stack) Json.is_array \/
  b = st_object_value /\ item_on root stack.
Definition between_values (b : Z) root (stack : list (list Json.step)) : Prop :=
  b = st_array_delim /\ levels root stack /\ refers root (top stack) Json.is_array \/
  (b = st_object_initial \/ b = st_object_delim \/ b = st_object_key) /\ levels root stack /\ refers root (top stack) Json.is_object \/
  b = st_object_colon /\ item_on root stack.
Definition part_of_value (m : Z) (str : list Z) : Prop :=
  (exists n, m = 16 + n /\ part_ok str n) \/ (exists n, m = 32 + n /\ 0 <= n < 16) \/ (exists n, m = 64 + n /\ 0 <= n <= 9).
Record parser_ok p : Prop := {
  po_json : json_ok (json_ p);
  po_state : state_ p < 0 \/
    waits (state_ p) (json_ p) (stack_ p) \/ between_values (state_ p) (json_ p) (stack_ p) \/
    (exists b m, state_ p = b + m /\ waits b (json_ p) (stack_ p) /\ part_of_value m (str_ p)) \/
    (exists n, state_ p = st_object_colon + 16 + n /\ part_ok (str_ p) n /\ levels (json_ p) (stack_ p) /\
       refers (json_ p) (top (stack_ p)) Json.is_object) }.
(** Between tokens. *)
Record clean p : Prop := {
  cl_json : json_ok (json_ p);
  cl_state : state_ p < 0 \/ waits (state_ p) (json_ p) (stack_ p) \/ between_values (state_ p) (json_ p) (stack_ p) }.
Lemma clean_ok p : clean p -> parser_ok p.
Proof. intros [Hj Hs]. split; [done|]. tauto. Qed.
Lemma waits_based b root stack : waits b root stack -> based b.
Proof. intros [[-> _]|[[[->| ->] _]|[-> _]]]; by split. Qed.

Lemma push_back_array (a : list json) j : Json.push_back (JArray a) j = Some (JArray (a ++ [j])).
Proof.
  unfold Json.push_back, Json.insert_at. cbn [Json.uniqueify_array mbind option_bind Json.size].
  destruct (Z.leb_spec 0 (zlength a)); [|unfold zlength in *; lia]. rewrite Z.leb_refl. cbn [andb].
  by rewrite take_ge, drop_ge by (unfold zlength; lia).
Qed.
Lemma read_last (a : list json) j : zlookup (a ++ [j]) (zlength a) = Some j.
Proof. unfold zlookup, zlength. destruct (Z.ltb_spec (Z.of_nat (length a)) 0); [lia|]. rewrite Nat2Z.id. by apply list_lookup_middle. Qed.
Lemma array_push_ok (a : list json) j : json_ok (JArray a) -> json_ok j -> json_ok (JArray (a ++ [j])).
Proof.
  intros Ha Hj. inversion Ha as [j0 H1 H2|a0 Ha0|]; subst; [done|].
  apply ok_array, Forall_app. split; [done|]. by apply Forall_singleton.
Qed.
(** A new array or object becomes the current one, and any other value ends. *)
Lemma value_state root stack j jp str (delim : Z) : json_ok root -> levels root stack ->
  (exists q, q <> [] /\ jp = top stack ++ q) -> read_path root jp = Some j -> between_values delim root stack ->
  clean (
    if Json.is_array j || Json.is_object j then
      mkParser (if Json.is_array j then st_array_initial else st_object_initial) (jp :: stack) str root
    else mkParser delim stack str root).
Proof.
  intros Hok Hlev Hq Hread Hdelim. destruct (Json.is_array j || Json.is_object j) eqn:E; (split; [done|]); cbn [state_ stack_ json_]; right.
  - assert (Hl2 : levels root (jp :: stack)) by (split; [done|]; split; [by exists j|done]).
    destruct (Json.is_array j) eqn:Ea; [left; right; left|right; right; left]; (split; [auto|]); (split; [done|]); by exists j.
  - by right.
Qed.
(** The value goes to the place [path], or becomes an element of the array there: the
    new root, and the place [jp] of the value. *)
Lemma value_ok p j : json_ok (json_ p) -> waits (state_ p) (json_ p) (stack_ p) -> json_ok j ->
  exists p', value p j = Some p' /\ clean p'.
Proof.
  intros Hroot Hw Hj. unfold value. destruct p as [st stack str root]. cbn [state_ stack_ str_ json_] in *.
  assert (Hcur : current (mkParser st stack str root) = top stack) by done. rewrite Hcur. clear Hcur.
  destruct Hw as [[-> ->]|[(Hst & Hlev & cur & Hcur & Harr)|(-> & rest & q & x & -> & Hlev & Hobj & Hx)]].
  - cbn. eexists. split; [done|]. destruct (Json.is_array j || Json.is_object j) eqn:E; (split; [done|]); [|left; cbn; done].
    assert (Hc : container j = true) by exact E. right.
    destruct (Json.is_array j) eqn:Ea; [left; right; left|right; right; left]; cbn [state_ stack_ json_];
      (split; [auto|]); (split; [exact Hc|]); by exists j.
  - rewrite Hcur. cbn [mbind option_bind]. assert (Hi : st =? st_initial = false) by (by destruct Hst as [->| ->]). rewrite Hi, Harr. cbn [negb andb].
    destruct cur as [|a|o| | | | |]; try done. rewrite push_back_array. cbn [mbind option_bind].
    destruct (write_some root (top stack) (JArray a) (JArray (a ++ [j])) Hcur) as (root' & Hw & Hr'). rewrite Hw. cbn [mbind option_bind].
    eexists. split; [done|].
    assert (Ho : st =? st_object_value = false) by (by destruct Hst as [->| ->]). rewrite Ho.
    assert (Hor : (st =? st_array_initial) || (st =? st_array_value) = true) by (by destruct Hst as [->| ->]). rewrite Hor.
    apply (value_state root' stack j _ str st_array_delim); [|exact (levels_at _ _ (JArray (a ++ [j])) _ Hlev eq_refl Hw)| | |].
    + apply (write_path_ok _ _ _ _ Hroot) in Hw; [done|]. apply array_push_ok; [exact (read_path_ok _ _ _ Hroot Hcur)|done].
    + by exists [Json.SIndex (zlength a)].
    + rewrite read_path_app, Hr'. cbn. by rewrite read_last.
    + left. split; [done|]. split; [exact (levels_at _ _ (JArray (a ++ [j])) _ Hlev eq_refl Hw)|]. by exists (JArray (a ++ [j])).
  - cbn [top tail]. rewrite Hx. cbn [mbind option_bind]. cbn [negb andb Z.eqb].
    set (path := top rest ++ [Json.SItem q]) in *.
    assert (Hgen : forall v jp, json_ok v -> (exists s, jp = path ++ s /\ read_path v s = Some j) ->
      exists root', write_path root path v = Some root' /\ json_ok root' /\ levels root' rest /\ refers root' (top rest) Json.is_object /\
        read_path root' jp = Some j /\ exists q0, q0 <> [] /\ jp = top rest ++ q0).
    { intros v jp Hv (s & -> & Hs). destruct (write_some root path x v Hx) as (root' & Hw & Hr'). exists root'. split; [done|].
      split; [exact (write_path_ok _ _ _ _ Hroot Hv Hw)|].
      split; [exact (levels_below root rest [Json.SItem q] v root' ltac:(done) Hlev Hw)|].
      split; [by apply (refers_below root (top rest) [Json.SItem q] v root'); [auto|..]|].
      split; [by rewrite read_path_app, Hr'|]. exists ([Json.SItem q] ++ s). split; [done|]. subst path. by rewrite <- app_assoc. }
    assert (Hfinish : forall v jp, json_ok v -> (exists s, jp = path ++ s /\ read_path v s = Some j) ->
      exists p', (root' ← write_path root path v;
        Some (if Json.is_array j || Json.is_object j then
          mkParser (if Json.is_array j then st_array_initial else st_object_initial) (jp :: rest) str root'
        else mkParser st_object_delim rest str root')) = Some p' /\ clean p').
    { intros v jp Hv Hjp. destruct (Hgen v jp Hv Hjp) as (root' & -> & Hok' & Hlev' & Hobj' & Hread & Hq0). cbn [mbind option_bind].
      eexists. split; [done|]. apply (value_state root' rest j jp str st_object_delim); [done|done|done|done|].
      right. left. auto. }
    destruct (Json.is_array x) eqn:Ex.
    + destruct x as [|a| | | | | |]; try done. rewrite push_back_array. cbn [mbind option_bind Json.size].
      apply (Hfinish (JArray (a ++ [j])) (path ++ [Json.SIndex (zlength a)])).
      * apply array_push_ok; [exact (read_path_ok _ _ _ Hroot Hx)|done].
      * eexists. split; [done|]. cbn. by rewrite read_last.
    + cbn [mbind option_bind]. apply (Hfinish j path); [done|]. exists []. by rewrite app_nil_r.
Qed.

Lemma close_ok p : json_ok (json_ p) -> levels (json_ p) (stack_ p) -> exists p', close_value p = Some p' /\ clean p'.
Proof.
  intros Hj Hl. destruct p as [st stack str root]. cbn [stack_ json_] in *. unfold close_value. cbn [stack_ json_ state_ str_].
  destruct stack as [|x rest]; [eexists; split; [done|]; split; [done|by left]|].
  destruct Hl as (_ & _ & Hl). destruct (levels_top _ _ Hl) as (cur & Hcur & Hc).
  replace (current _) with (top rest) by done. rewrite Hcur. cbn [mbind option_bind]. eexists. split; [done|]. split; [done|]. right. right.
  destruct (Json.is_array cur) eqn:Ea; [left|right; left]; cbn [with_state state_ stack_ json_]; (split; [auto|]); (split; [done|]);
    exists cur; (split; [done|]); [done|]. unfold container in Hc. by rewrite Ea in Hc.
Qed.

(** ** Tokens *)
(** What a turn leaves, in front of [n] bytes. *)
Definition after (n : nat) (r : option (t * list Z)) : Prop :=
  exists p first, r = Some (p, first) /\ parser_ok p /\
    (state_ p < 0 \/ (length first <= n)%nat /\ (clean p \/ first = [])).
Lemma after_value n p first j : json_ok (json_ p) -> waits (state_ p) (json_ p) (stack_ p) -> json_ok j ->
  (length first <= n)%nat -> after n (q ← value p j; Some (q, first)).
Proof.
  intros Hj Hw Hv Hn. destruct (value_ok p j Hj Hw Hv) as (q & -> & Hq). exists q, first.
  split; [done|]. split; [by apply clean_ok|]. right. split; [done|by left].
Qed.
Lemma after_clean n p first : clean p -> (length first <= n)%nat -> after n (Some (p, first)).
Proof. intros Hp Hn. exists p, first. split; [done|]. split; [by apply clean_ok|]. right. split; [done|by left]. Qed.
Lemma after_error n p first : json_ok (json_ p) -> after n (Some (error_at p first)).
Proof. intros Hj. eexists _, _. split; [done|]. split; [split; [done|by left]|by left]. Qed.
(** A primitive or a number. *)
Lemma after_token n b mask p first r : json_ok (json_ p) -> waits b (json_ p) (stack_ p) -> mask = 32 \/ mask = 64 ->
  token_end b mask p first r -> (length (snd (fst r)) <= n)%nat ->
  after n (let '(p, first, j) := r in match j with Some j => q ← value p j; Some (q, first) | None => Some (p, first) end).
Proof.
  intros Hj Hw Hmask. destruct r as [[p' rest] [j|]]; cbn [fst snd]; intros (Hs & Hjs & Hlen & Hend) Hn.
  - destruct Hend as (Ha & Ho & Hst). apply after_value; [by rewrite Hjs|by rewrite Hst, Hjs, Hs|by apply ok_leaf|done].
  - exists p', rest. split; [done|]. destruct Hend as [Hst|(-> & k & Hst & Hk & Hk9)].
    + split; [split; [by rewrite Hjs|left; rewrite Hst; done]|left; by rewrite Hst].
    + split; [|right; split; [done|by right]]. split; [by rewrite Hjs|]. right. right. right. left. exists b, (mask + k).
      rewrite Hjs, Hs. split; [lia|]. split; [done|]. right.
      destruct Hmask as [->| ->]; [left|right]; exists k; (split; [done|]); [done|]. specialize (Hk9 eq_refl). lia.
Qed.
Lemma string_value_after past n b p first : json_ok (json_ p) -> waits b (json_ p) (stack_ p) ->
  state_ p = b \/ (exists k, state_ p = b + 16 + k /\ part_ok (str_ p) k) -> (length first <= n)%nat ->
  after n (string_value past p first).
Proof.
  intros Hj Hw Hst Hn. pose proof (waits_based _ _ _ Hw) as Hb. unfold string_value.
  destruct (consume_string_spec b past (state_ p) (str_ p) first Hb Hst) as ([[st str] rest] & -> & Hlen & Hend).
  cbn [mbind option_bind]. destruct Hend as [->|[->|(k & -> & -> & Hk)]].
  - eexists _, _. split; [done|]. split; [split; [done|by left]|by left].
  - assert (Hhas : has b st_stringpart = false).
    { unfold has. rewrite <- (Z.add_0_r b), land_part by (done || lia). done. }
    rewrite Hhas. destruct Hb as [[Hb0 _] _]. destruct (Z.leb_spec 0 b); [|lia]. cbn [andb negb].
    apply after_value; [done|done|by apply ok_leaf|lia].
  - pose proof (part_bound _ _ Hk). assert (Hhas : has (b + 16 + k) st_stringpart = true).
    { unfold has. apply negb_true_iff, Z.eqb_neq. rewrite <- (set_bit b 16 k) by (done || (by right) || lia). intros E.
      apply (f_equal (fun x => Z.testbit x 4)) in E. rewrite Z.land_spec, Z.lor_spec in E.
      change (Z.testbit 16 4) with true in E. change (Z.testbit st_stringpart 4) with true in E. by rewrite orb_true_r in E. }
    rewrite Hhas, andb_false_r. eexists _, _. split; [done|]. split; [|right; split; [cbn; lia|by right]].
    split; [done|]. right. right. right. left. exists b, (16 + k). cbn [state_ stack_ json_ str_ with_str with_state].
    split; [lia|]. split; [done|]. left. by exists k.
Qed.
Lemma key_after past n p first : json_ok (json_ p) -> levels (json_ p) (stack_ p) ->
  refers (json_ p) (top (stack_ p)) Json.is_object ->
  state_ p = st_object_colon \/ (exists k, state_ p = st_object_colon + 16 + k /\ part_ok (str_ p) k) -> (length first <= n)%nat ->
  after n (string_object_key past p first).
Proof.
  intros Hj Hl (cur & Hcur & Ho) Hst Hn. assert (Hb : based st_object_colon) by (by split). unfold string_object_key.
  destruct (consume_string_spec _ past (state_ p) (str_ p) first Hb Hst) as ([[st str] rest] & -> & Hlen & Hend).
  cbn [mbind option_bind]. destruct Hend as [->|[->|(k & -> & -> & Hk)]].
  - eexists _, _. split; [done|]. split; [split; [done|by left]|by left].
  - change ((0 <=? st_object_colon) && negb (has st_object_colon st_stringpart)) with true. cbv iota.
    destruct p as [st0 stack str0 root]. cbn [state_ stack_ json_ str_ with_str with_state] in *.
    replace (current _) with (top stack) by done. rewrite Hcur. cbn [mbind option_bind].
    destruct cur as [| |o| | | | |]; try done. pose proof (read_path_ok _ _ _ Hj Hcur) as Hok.
    inversion Hok as [| |o' Hoo Hom]; subst; [done|].
    destruct (find_insert_spec o str JNull Hoo) as (q & o' & Hf & Ho' & _ & Hkey & Hm).
    unfold Json.get_insert_key. cbn [Json.uniqueify_object mbind option_bind]. unfold ObjectJson.get_insert. rewrite Hf. cbn [mbind option_bind fst snd].
    assert (Hok' : json_ok (JObject o')).
    { apply ok_object; [done|]. rewrite Hm. unfold alist_insert. destruct (alist_get str (ObjectJson.members o)); [done|].
      apply Forall_app. split; [done|]. apply Forall_singleton. by apply ok_leaf. }
    assert (Hx : exists x, ObjectJson.value_at o' q = Some x).
    { unfold key_at in Hkey. unfold ObjectJson.value_at. destruct (zlookup (os_ o') q) as [[k x nx|]|]; [by eexists|done..]. }
    destruct Hx as (x & Hx). destruct (write_some root (top stack) _ (JObject o') Hcur) as (root' & Hw & Hr'). rewrite Hw. cbn [mbind option_bind].
    apply after_clean; [|lia]. split; [exact (write_path_ok _ _ _ _ Hj Hok' Hw)|]. right. right. right. right.
    cbn [state_ stack_ json_]. split; [done|]. exists stack, q, x. split; [done|].
    split; [exact (levels_at _ _ (JObject o') _ Hl eq_refl Hw)|]. split; [by exists (JObject o')|].
    rewrite read_path_app, Hr'. cbn. by rewrite Hx.
  - pose proof (part_bound _ _ Hk). assert (Hhas : has (st_object_colon + 16 + k) st_stringpart = true).
    { unfold has. apply negb_true_iff, Z.eqb_neq. rewrite <- (set_bit _ 16 k) by (done || (by right) || lia). intros E.
      apply (f_equal (fun x => Z.testbit x 4)) in E. rewrite Z.land_spec, Z.lor_spec in E.
      change (Z.testbit 16 4) with true in E. change (Z.testbit st_stringpart 4) with true in E. by rewrite orb_true_r in E. }
    rewrite Hhas, andb_false_r. eexists _, _. split; [done|]. split; [|right; split; [cbn; lia|by right]].
    split; [done|]. right. right. right. right. exists k. cbn. split_and!; [done|done|done|by exists cur].
Qed.
Lemma number_after complete n b m p first : json_ok (json_ p) -> waits b (json_ p) (stack_ p) -> state_ p = b + m ->
  m = 0 /\ (exists c f, first = c :: f /\ 0 <= c < 256 /\ (c = 45 \/ isdig c = true) /\ (length f <= n)%nat) \/
  (exists k, m = 64 + k /\ 0 <= k <= 9) /\ (length first <= n)%nat ->
  after n (number complete p first).
Proof.
  intros Hj Hw Hst Hm. pose proof (waits_based _ _ _ Hw) as Hb. unfold number.
  destruct (consume_number_spec complete b m p first Hb Hst) as [Hend Hfirst]; [by destruct Hm as [[-> _]|[Hm _]]; auto|].
  apply (after_token n b 64 p first); [done|done|by right|done|].
  destruct Hm as [[-> (c & f & -> & Hc & Hd & Hn)]|[_ Hn]].
  - specialize (Hfirst eq_refl c f eq_refl Hc Hd). lia.
  - destruct (consume_number complete p first) as [[p' rest] j]. destruct Hend as (_ & _ & Hlen & _). cbn. lia.
Qed.
Lemma primitive_after n b m p first : json_ok (json_ p) -> waits b (json_ p) (stack_ p) -> state_ p = b + m ->
  m = 0 /\ (exists c f, first = c :: f /\ (length f <= n)%nat) \/ (exists k, m = 32 + k /\ 0 <= k < 16) /\ (length first <= n)%nat ->
  after n (primitive p first).
Proof.
  intros Hj Hw Hst Hm. pose proof (waits_based _ _ _ Hw) as Hb. unfold primitive.
  destruct (consume_primitive_spec b m p first Hb Hst) as [Hend Hfirst]; [by destruct Hm as [[-> _]|[Hm _]]; auto|].
  apply (after_token n b 32 p first); [done|done|by left|done|].
  destruct Hm as [[-> (c & f & -> & Hn)]|[_ Hn]].
  - specialize (Hfirst eq_refl c f eq_refl). lia.
  - destruct (consume_primitive p first) as [[p' rest] j]. destruct Hend as (_ & _ & Hlen & _). cbn. lia.
Qed.

(** ** The loop *)
Lemma state_cases st root stack : waits st root stack \/ between_values st root stack ->
  ((st <=? st_object_value) = true -> waits st root stack) /\
  ((st =? st_array_initial) || (st =? st_array_delim) = true -> levels root stack /\ refers root (top stack) Json.is_array) /\
  ((st =? st_object_initial) || (st =? st_object_delim) = true -> levels root stack /\ refers root (top stack) Json.is_object) /\
  ((st =? st_object_initial) || (st =? st_object_key) = true -> levels root stack /\ refers root (top stack) Json.is_object) /\
  ((st =? st_object_colon) = true -> item_on root stack).
Proof.
  intros [[[-> ->]|[([->| ->] & H & H')|[-> H]]]|[(-> & H & H')|[([->|[->| ->]] & H & H')|[-> H]]]]; split_and!; intros E;
    try discriminate E; try done; unfold waits; auto.
Qed.
Lemma open_after n p fresh reuse rest : json_ok (json_ p) -> waits (state_ p) (json_ p) (stack_ p) -> json_ok fresh ->
  (forall j j', json_ok j -> reuse j = Some j' -> json_ok j') -> (length rest <= n)%nat ->
  after n (q ← open_value p fresh reuse; Some (q, rest)).
Proof.
  intros Hj Hw Hf Hre Hn. unfold open_value. destruct (Z.eqb_spec (state_ p) st_initial) as [E|E]; [|by apply after_value].
  destruct (reuse (json_ p)) as [j|] eqn:Er; [|by apply after_value].
  apply after_value; [by apply ok_leaf| |exact (Hre _ _ Hj Er)|done]. cbn [state_ json_ stack_]. left. split; [done|].
  rewrite E in Hw. destruct Hw as [[_ H]|[[[H|H] _]|[H _]]]; done.
Qed.
Lemma consume_one_after past complete p c rest : clean p -> 0 <= state_ p ->
  after (length rest) (consume_one past complete p c rest).
Proof.
  intros [Hj Hs] Hpos. destruct Hs as [?|Hs]; [lia|]. destruct (state_cases _ _ _ Hs) as (Hle & Harr & Hobj & Hkey & Hcolon).
  assert (Herr : after (length rest) (Some (error_at p (c :: rest)))) by (by apply after_error).
  assert (Hset : forall st, waits st (json_ p) (stack_ p) \/ between_values st (json_ p) (stack_ p) ->
    after (length rest) (Some (with_state st p, rest))) by (intros st Hst; apply after_clean; [split; [done|by right]|done]).
  assert (Hclose : levels (json_ p) (stack_ p) -> after (length rest) (q ← close_value p; Some (q, rest))).
  { intros Hl. destruct (close_ok p Hj Hl) as (q & -> & Hq). by apply after_clean. }
  unfold consume_one. destruct (is_space c) eqn:Esp.
  { apply after_clean; [split; [done|by right]|]. cbn [String_generic.skip_while]. rewrite Esp. apply length_skip_while. }
  destruct (c =? 44).
  { destruct (state_ p =? st_array_delim) eqn:E1; [apply Hset; left; right; left; split; [auto|apply Harr; by rewrite ?E1, orb_true_r]|].
    destruct (state_ p =? st_object_delim) eqn:E2; [|done].
    apply Hset. right. right. left. split; [auto|]. apply Hobj. by rewrite ?E2, orb_true_r. }
  destruct (c =? 58).
  { destruct (state_ p =? st_object_colon); [|done]. apply Hset. left. right. right. split; [done|]. by apply Hcolon. }
  destruct (c =? 123).
  { destruct (state_ p <=? st_object_value); [|done]. destruct (zlength (stack_ p) =? max_depth); [done|].
    apply open_after; [done|by apply Hle|by apply ok_object; [apply make_ok|]| |done].
    intros j j' Hok. destruct j as [| |o| | | | |]; try done. cbn. intros [= <-]. inversion Hok as [| |o' Ho Hm]; subst; [done|].
    destruct (clear_ok o Ho) as [Ho' Hm']. apply ok_object; [done|by rewrite Hm']. }
  destruct (c =? 125).
  { destruct ((state_ p =? st_object_initial) || (state_ p =? st_object_delim)); [|done]. apply Hclose. by apply Hobj. }
  destruct (c =? 91).
  { destruct (state_ p <=? st_object_value); [|done]. destruct (zlength (stack_ p) =? max_depth); [done|].
    apply open_after; [done|by apply Hle|by apply ok_array| |done].
    intros j j' _. destruct j; try done. cbn. intros [= <-]. by apply ok_array. }
  destruct (c =? 93).
  { destruct ((state_ p =? st_array_initial) || (state_ p =? st_array_delim)); [|done]. apply Hclose. by apply Harr. }
  destruct (c =? 34).
  { destruct (state_ p <=? st_object_value).
    - apply (string_value_after past _ (state_ p)); [done|by apply Hle|by left|done].
    - destruct ((state_ p =? st_object_initial) || (state_ p =? st_object_key)); [|done]. destruct (Hkey eq_refl) as [Hl Ho].
      apply key_after; [done|done|done|by left|done]. }
  destruct ((c =? 110) || (c =? 102) || (c =? 116)).
  { destruct (state_ p <=? st_object_value); [|done].
    apply (primitive_after (length rest) (state_ p) 0); [done|by apply Hle|lia|]. left. split; [done|]. by exists c, rest. }
  destruct ((c =? 45) || isdigit c) eqn:Ed; [|done]. destruct (state_ p <=? st_object_value); [|done].
  apply (number_after complete (length rest) (state_ p) 0); [done|by apply Hle|lia|]. left. split; [done|]. exists c, rest.
  assert (Hc : c = 45 \/ 48 <= c < 58).
  { apply orb_true_iff in Ed as [Ed|Ed]; [left; by apply Z.eqb_eq|right]. unfold isdigit in Ed. rewrite andb_true_iff, !Z.leb_le in Ed. lia. }
  split; [done|]. split; [lia|]. split; [|done]. destruct Hc; [by left|right; by apply isdig_true].
Qed.
Lemma consume_loop_ok past complete fuel : forall p first, parser_ok p -> state_ p < 0 \/ clean p \/ first = [] ->
  (length first <= fuel)%nat ->
  exists p' first', consume_loop fuel past complete p first = Some (p', first') /\ parser_ok p'.
Proof.
  induction fuel as [|fuel IH]; intros p first Hok Hcl Hf; cbn [consume_loop];
    (destruct (Z.leb_spec 0 (state_ p)) as [Hpos|Hneg]; cbn [negb]; [|by exists p, first]).
  - destruct first; [by exists p, []|cbn in Hf; lia].
  - destruct first as [|c rest]; [by exists p, []|]. destruct Hcl as [?|[Hcl|?]]; [lia| |done].
    destruct (consume_one_after past complete p c rest Hcl Hpos) as (p' & first' & -> & Hok' & Hend). cbn [mbind option_bind].
    cbn [length] in Hf. destruct Hend as [Hneg|[Hlen Hcl']].
    + destruct fuel; cbn [consume_loop]; (destruct (Z.leb_spec 0 (state_ p')); [lia|]); by exists p', first'.
    + apply IH; [done|by right|lia].
Qed.
(** The kinds of parts by their bits. *)
Lemma part_bits m :
  (16 <= m < 32 -> (Z.land m st_stringpart =? 0) = false) /\
  (32 <= m < 48 -> (Z.land m st_stringpart =? 0) = true /\ (Z.land m st_primitivepart =? 0) = false) /\
  (64 <= m < 74 -> (Z.land m st_stringpart =? 0) = true /\ (Z.land m st_primitivepart =? 0) = true).
Proof.
  assert (H1 : Forall (fun m => (Z.land m st_stringpart =? 0) = false) (seqZ 16 16)) by (by repeat constructor).
  assert (H2 : Forall (fun m => (Z.land m st_stringpart =? 0) = true /\ (Z.land m st_primitivepart =? 0) = false) (seqZ 32 16))
    by (by repeat constructor).
  assert (H3 : Forall (fun m => (Z.land m st_stringpart =? 0) = true /\ (Z.land m st_primitivepart =? 0) = true) (seqZ 64 10))
    by (by repeat constructor).
  rewrite Forall_forall in H1, H2, H3.
  split_and!; intros Hm; [apply H1|apply H2|apply H3]; apply elem_of_seqZ; lia.
Qed.
Lemma consume_ok past complete p first : parser_ok p ->
  exists p' first', consume past complete p first = Some (p', first') /\ parser_ok p'.
Proof.
  intros Hp. pose proof Hp as [Hj Hs]. unfold consume.
  assert (Hgo : forall n r, after n r -> (n <= length first)%nat -> exists p' first',
    (r ← r; let '(p, first) := r in consume_loop (length first) past complete p first) = Some (p', first') /\ parser_ok p').
  { intros n r (p1 & first1 & -> & Hok & Hend) _. cbn [mbind option_bind]. apply consume_loop_ok; [done| |done].
    destruct Hend as [?|[_ ?]]; auto. }
  assert (Hquiet : forall b, based b -> has b st_partmask = false).
  { intros b [_ Hb]. unfold has. change st_partmask with 255. by rewrite Hb. }
  assert (Hbits : forall b m k, based b -> 0 <= m < 256 -> 0 <= k < 256 -> has (b + m) k = negb (Z.land m k =? 0)).
  { intros b m k Hb Hm Hk. unfold has. by rewrite land_part. }
  assert (Hmask : forall m, 0 <= m < 256 -> Z.land m 255 = m).
  { intros m Hm. change 255 with (Z.ones 8). rewrite Z.land_ones by lia. change (2 ^ 8) with 256. lia. }
  destruct Hs as [Hneg|[Hw|[Hb|[(b & m & Hst & Hw & Hm)|(k & Hst & Hk & Hl & Ho)]]]].
  - destruct (Z.leb_spec 0 (state_ p)); [lia|]. cbn [andb mbind option_bind]. apply consume_loop_ok; [done|by left|done].
  - rewrite Hquiet, andb_false_r by (by eapply waits_based). cbn [mbind option_bind]. apply consume_loop_ok; [done| |done].
    right. left. split; [done|auto].
  - assert (Hba : based (state_ p)) by (destruct Hb as [[-> _]|[[[->|[->| ->]] _]|[-> _]]]; by split).
    rewrite Hquiet, andb_false_r by done. cbn [mbind option_bind]. apply consume_loop_ok; [done| |done]. right. left. split; [done|auto].
  - pose proof (waits_based _ _ _ Hw) as Hb.
    assert (Hlt : b < st_object_colon - 256) by (destruct Hw as [[-> _]|[[[->| ->] _]|[-> _]]]; done).
    assert (Hr : 16 <= m < 32 /\ (exists n, m = 16 + n /\ part_ok (str_ p) n) \/ 32 <= m < 48 /\ (exists n, m = 32 + n /\ 0 <= n < 16) \/
      64 <= m < 74 /\ (exists n, m = 64 + n /\ 0 <= n <= 9)).
    { destruct Hm as [(n & -> & Hn)|[(n & -> & Hn)|(n & -> & Hn)]]; [left|right; left|right; right].
      - pose proof (part_bound _ _ Hn). split; [lia|by exists n].
      - split; [lia|by exists n].
      - split; [lia|by exists n]. }
    assert (Hmr : 0 <= m < 256) by lia. rewrite Hst. pose proof Hb as [[Hb0 Hb1] Hb2].
    rewrite !Hbits by done. change st_partmask with 255. rewrite Hmask by done.
    destruct (Z.leb_spec 0 (b + m)); [|lia]. destruct (Z.eqb_spec m 0); [lia|]. cbn [andb negb].
    assert (Hcol : (st_object_colon <=? b + m) = false) by (apply Z.leb_gt; lia). rewrite Hcol, andb_false_r.
    destruct (part_bits m) as (Hs16 & Hs32 & Hs64).
    destruct Hr as [[Hm1 Hn]|[[Hm1 Hn]|[Hm1 Hn]]].
    + rewrite Hs16 by done. apply (Hgo (length first)); [|done]. apply (string_value_after past _ b); [done|done| |done].
      right. destruct Hn as (i & -> & Hn). exists i. split; [lia|done].
    + destruct (Hs32 Hm1) as [-> ->]. apply (Hgo (length first)); [|done].
      apply (primitive_after _ b m); [done|done|done|]. by right.
    + destruct (Hs64 Hm1) as [-> ->]. apply (Hgo (length first)); [|done].
      apply (number_after complete _ b m); [done|done|done|]. by right.
  - pose proof (part_bound _ _ Hk). assert (Hcb : based st_object_colon) by (by split).
    replace (st_object_colon + 16 + k) with (st_object_colon + (16 + k)) in Hst by lia.
    rewrite Hst, !Hbits by (done || lia). change st_partmask with 255. rewrite Hmask by lia.
    destruct (Z.leb_spec 0 (st_object_colon + (16 + k))); [|unfold st_object_colon in *; lia].
    destruct (Z.eqb_spec (16 + k) 0); [lia|]. cbn [andb negb]. destruct (part_bits (16 + k)) as (-> & _ & _); [|lia].
    destruct (Z.leb_spec st_object_colon (st_object_colon + (16 + k))); [|lia]. cbn [andb negb].
    apply (Hgo (length first)); [|done]. apply key_after; [done|done|done| |done]. right. exists k. split; [lia|done].
Qed.
End value.

(** A parser that is fed the chunks of a text: the byte behind each, whether it is the last one, and the chunk. *)
Definition feed {D} {libc : Libc D} : list (Z * bool * list Z) -> @t D -> option (@t D) :=
  fix feed chunks p :=
    match chunks with
    | [] => Some p
    | (past, complete, chunk) :: chunks => r ← consume past complete p chunk; feed chunks (fst r)
    end.
(** C35: The streaming parser returns on any text in any chunks, whatever the bytes behind them: no loop runs forever, no
    reference to a part of the value dangles when the value grows, the accumulator is not read in front of its start, and
    every table of the value is well formed. *)
Theorem parser_total {D} {libc : Libc D} chunks :
  exists p, feed chunks (make (D := D)) = Some p /\ parser_ok p.
Proof.
  assert (Hgen : forall p, parser_ok p -> exists p', feed chunks p = Some p' /\ parser_ok p').
  { induction chunks as [|[[past complete] chunk] chunks IH]; intros p Hp; cbn [feed]; [by exists p|].
    destruct (consume_ok past complete p chunk Hp) as (p' & first & -> & Hp'). by apply IH. }
  apply Hgen. split; [by apply ok_leaf|]. right. left. by left.
Qed.
