(* ===== verification/JsonOps.v ===== *)
(** The operations on JSON arrays and objects: an array that becomes an object
    and an array again, access by either kind of key, setting, removing and
    merging members, and what arithmetic on integers does. *)
From S2P Require Import Prelude Compiler Memory Strings StringsSpec JsonObject Json JsonParser JsonText JsonSpec JsonSafe.

Import streaming_parser.
Ltac Zify.zify_post_hook ::= Z.div_mod_to_equations.

(** * Keys that are numbers *)
Lemma int_key_digits ds X : Forall (fun c => 48 <= c < 58) ds ->
  int_key_loop ds (uwrap 32 X) =
  (uwrap 32 (fold_left (fun x c => uwrap 64 (uwrap 64 (x * 10 + c) - 48)) ds X), []).
Proof.
  intros Hd. revert X. induction Hd as [|c ds Hc Hd IH]; intros X; [done|]. cbn [int_key_loop fold_left].
  assert (Hdig : isdigit c = true) by (unfold isdigit; apply andb_true_iff; split; apply Z.leb_le; lia).
  rewrite Hdig, <- IH. f_equal. rewrite uwrap_sub. unfold uwrap.
  rewrite Zminus_mod_idemp_l. rewrite Z.mod_mod_divide by (by exists (2 ^ 32)).
  pose proof (Z.div_mod X (2 ^ 32) ltac:(done)) as HX.
  replace (X * 10 + c - 48) with (10 * (X mod 2 ^ 32) + c - 48 + 10 * (X / 2 ^ 32) * 2 ^ 32) by lia.
  by rewrite Z.mod_add by done.
Qed.
Lemma string_to_int_key_decimal i : 0 <= i < 2 ^ 32 -> string_to_int_key (decimal i) = Some i.
Proof.
  intros Hi. unfold decimal. destruct (Z.ltb_spec i 0); [lia|].
  destruct (digits_of_20 i) as (ds & -> & [Hd Hv Hh]); [lia|]. destruct ds as [|c ds]; [by destruct Hh as [?|(?&?&?&_)]|].
  apply Forall_cons in Hd as [Hc Hd]. cbn [string_to_int_key].
  assert (Hdig : isdigit c = true) by (unfold isdigit; apply andb_true_iff; split; apply Z.leb_le; lia). rewrite Hdig. cbn [negb orb].
  assert (Hz : (c =? 48) && negb (zlength ds =? 0) = false).
  { destruct Hh as [[= -> ->]|(c' & ds' & [= <- <-] & Hne)]; [done|]. by apply Z.eqb_neq in Hne as ->. }
  rewrite Hz. replace (c - 48) with (uwrap 32 (c - 48)) by (unfold uwrap; rewrite Z.mod_small; lia).
  rewrite int_key_digits by done. cbn. unfold digits_value in Hv. cbn [fold_left] in Hv. rewrite uwrap_sub in Hv.
  replace (uwrap 64 (0 * 10 + c - 48)) with (c - 48) in Hv by (unfold uwrap; rewrite Z.mod_small; lia).
  rewrite Hv. unfold uwrap. by rewrite Z.mod_small.
Qed.
Lemma decimal_inj i j : 0 <= i < 2 ^ 32 -> 0 <= j < 2 ^ 32 -> decimal i = decimal j -> i = j.
Proof.
  intros Hi Hj E. pose proof (string_to_int_key_decimal i Hi) as H1. rewrite E, string_to_int_key_decimal in H1 by done. congruence.
Qed.

Section ops.
Context {D : Type} {libc : Libc D}.
Local Abbreviation json := (json D).
Implicit Types (a : list json) (j v : json) (key : list Z).

(** * Arrays as objects *)
(** The members that the elements of an array become, from index [i] on. *)
Fixpoint indexed (i : Z) a : list (list Z * json) :=
  match a with [] => [] | x :: a => (decimal i, x) :: indexed (i + 1) a end.
Lemma indexed_keys a : forall i key, key ∈ map fst (indexed i a) -> exists k, i <= k < i + zlength a /\ key = decimal k.
Proof.
  induction a as [|x a IH]; intros i key; cbn; [by intros ?%not_elem_of_nil|].
  intros [->|Hin]%elem_of_cons.
  - exists i. unfold zlength. cbn [length]. split; [lia|done].
  - destruct (IH _ _ Hin) as (k & Hk & ->). exists k. unfold zlength in *. cbn [length]. split; [lia|done].
Qed.
Lemma object_of_array_spec a : forall i (o : object json), object_ok o -> 0 <= i -> i + zlength a <= 2 ^ 32 ->
  (forall k, i <= k < i + zlength a -> decimal k ∉ map fst (ObjectJson.members o)) ->
  exists o', Json.object_of_array i a o = Some o' /\ object_ok o' /\ ObjectJson.members o' = ObjectJson.members o ++ indexed i a.
Proof.
  induction a as [|x a IH]; intros i o Ho Hi Hlen Hfresh; cbn [Json.object_of_array indexed]; [exists o; by rewrite app_nil_r|].
  unfold zlength in *. cbn [length] in *.
  destruct (find_insert_spec o (decimal i) x Ho) as (p & o1 & -> & Ho1 & _ & _ & Hm). cbn [mbind option_bind snd].
  assert (Hm1 : ObjectJson.members o1 = ObjectJson.members o ++ [(decimal i, x)]).
  { rewrite Hm. unfold alist_insert. destruct (alist_get_None (decimal i) (ObjectJson.members o)) as [_ ->]; [done|]. apply Hfresh. lia. }
  destruct (IH (i + 1) o1 Ho1) as (o' & -> & Ho' & Hm'); [lia..| |].
  { intros k Hk. rewrite Hm1, map_app, not_elem_of_app. split; [apply Hfresh; lia|]. cbn. rewrite list_elem_of_singleton.
    intros E%decimal_inj; lia. }
  exists o'. split; [done|]. split; [done|]. by rewrite Hm', Hm1, <- app_assoc.
Qed.
Lemma array_of_items_spec a : forall os (b : list json), omap ObjectJson.live_item os = indexed (zlength b) a ->
  zlength b + zlength a < 2 ^ 31 -> Json.array_of_items os b = Some (b ++ a).
Proof.
  induction a as [|x a IH]; intros os; (induction os as [|[k v nx|] os IHos]; intros b Hos Hlen; cbn in Hos |- *; [try done|try done|by apply IHos]).
  - by rewrite app_nil_r.
  - injection Hos as -> -> Hos. unfold zlength in Hlen. cbn [length] in Hlen. rewrite string_to_int_key_decimal by (unfold zlength; lia).
    destruct (Z.leb_spec (2 ^ 31 - 1) (zlength b)); [unfold zlength in *; lia|].
    assert (Hz : zset (Json.extend_to b (zlength b)) (zlength b) x = Some (b ++ [x])).
    { unfold Json.extend_to. replace (zlength b + 1 - zlength b) with 1 by lia. change (repeat (@JNull D) (Z.to_nat 1)) with [@JNull D].
      unfold zset, zlength. rewrite length_app. cbn [length].
      destruct (Z.leb_spec 0 (Z.of_nat (length b))); [|lia]. destruct (Z.ltb_spec (Z.of_nat (length b)) (Z.of_nat (length b + 1))); [|lia].
      cbn [andb]. by rewrite Nat2Z.id, insert_app_r_alt, Nat.sub_diag. }
    rewrite Hz. cbn [mbind option_bind]. rewrite (IH os (b ++ [x])); [by rewrite <- app_assoc| |].
    + rewrite Hos. f_equal. unfold zlength. rewrite length_app. cbn. lia.
    + unfold zlength in *. rewrite length_app. cbn [length]. lia.
Qed.
Lemma indexed_get a : forall i k, 0 <= i -> i <= k -> i + zlength a <= 2 ^ 32 -> k < 2 ^ 32 ->
  alist_get (decimal k) (indexed i a) = zlookup a (k - i).
Proof.
  induction a as [|x a IH]; intros i k Hi Hk Hlen Hk2; cbn [indexed alist_get].
  { unfold zlookup. by destruct (k - i <? 0). }
  unfold zlength in *. cbn [length] in *. destruct (decide (decimal i = decimal k)) as [E|E].
  - apply decimal_inj in E; [|lia..]. subst k. by rewrite Z.sub_diag.
  - assert (Hne : k <> i) by congruence. rewrite IH by lia. unfold zlookup. destruct (Z.ltb_spec (k - (i + 1)) 0); [lia|].
    destruct (Z.ltb_spec (k - i) 0); [lia|]. by replace (Z.to_nat (k - i)) with (S (Z.to_nat (k - (i + 1)))) by lia.
Qed.
Lemma get_key_members (o : object json) key : object_ok o ->
  Json.get_key (JObject o) key = Some (default JNull (alist_get key (ObjectJson.members o))).
Proof.
  intros Ho. unfold Json.get_key. destruct (step_spec JNull o (OGet key) Ho) as (o' & r & Hs & Hspec & _); [done|].
  cbn [spec_step] in Hspec. injection Hspec as _ ->. cbn [step] in Hs.
  destruct (ObjectJson.find o key) as [p|]; [|done]. cbn [mbind option_bind] in *.
  destruct (0 <=? p); [|by injection Hs as _ <-]. destruct (ObjectJson.value_at o p) as [v|]; [|done]. cbn [mbind option_bind] in *.
  by injection Hs as _ <-.
Qed.
Lemma set_key_members (o : object json) key v : object_ok o ->
  exists o', Json.set_key (JObject o) key v = Some (JObject o') /\ object_ok o' /\
    ObjectJson.members o' = alist_set key v (ObjectJson.members o).
Proof.
  intros Ho. unfold Json.set_key. cbn [Json.uniqueify_object mbind option_bind].
  destruct (step_spec JNull o (OSet key v) Ho) as (o' & r & Hs & Hspec & Ho' & _); [done|].
  cbn [spec_step] in Hspec. injection Hspec as Hm _. cbn [step] in Hs. exists o'.
  destruct (ObjectJson.get_insert JNull o key) as [[p o1]|]; [|done]. cbn [mbind option_bind fst snd] in *.
  destruct (ObjectJson.set_value o1 p v) as [o2|]; [|done]. cbn [mbind option_bind] in *. by injection Hs as <- _.
Qed.
Lemma merge_items_members xs : forall (o : object json), object_ok o ->
  exists o', Json.merge_items xs o = Some o' /\ object_ok o' /\
    ObjectJson.members o' = fold_left (fun l kv => alist_set (fst kv) (snd kv) l) (omap ObjectJson.live_item xs) (ObjectJson.members o).
Proof.
  induction xs as [|[k v nx|] xs IH]; intros o Ho; cbn [Json.merge_items]; [by exists o| |by apply IH].
  destruct (set_key_members o k v Ho) as (o1 & Hs & Ho1 & Hm). unfold Json.set_key in Hs. cbn [Json.uniqueify_object mbind option_bind] in Hs.
  destruct (ObjectJson.get_insert JNull o k) as [[p o2]|]; [|done]. cbn [mbind option_bind fst snd] in *.
  destruct (ObjectJson.set_value o2 p v) as [o3|]; [|done]. cbn [mbind option_bind] in *. injection Hs as <-.
  destruct (IH o3 Ho1) as (o' & -> & Ho' & Hm'). exists o'. split; [done|]. split; [done|]. cbn. by rewrite Hm', Hm.
Qed.
(** Merging sets the members of the other object one by one, in their order. *)
Lemma merge_spec (o x : object json) : object_ok o ->
  exists o', Json.merge (JObject o) (JObject x) = Some (JObject o') /\ object_ok o' /\
    ObjectJson.members o' = fold_left (fun l kv => alist_set (fst kv) (snd kv) l) (ObjectJson.members x) (ObjectJson.members o).
Proof.
  intros Ho. destruct (merge_items_members (os_ x) o Ho) as (o' & Hm & Ho' & Hl). exists o'.
  unfold Json.merge. cbn [Json.is_object orb negb Json.uniqueify_object mbind option_bind]. by rewrite Hm.
Qed.

(** * Integers *)
(** Adding a value to itself is all that adding an integer does, and no unsigned
    integer can be added to. *)
Lemma add_json_own x y : Json.add_json (JInt x) (JInt y) = Some (JInt (swrap 64 (x + swrap 64 (uwrap 64 x)))).
Proof. reflexivity. Qed.
Lemma increment_unsigned x : Json.increment (JUnsigned x) = None.
Proof. reflexivity. Qed.
End ops.

(** C36: An array of fewer than 2^31 elements that becomes an object has the member [decimal i] for each element [i], in
    their order, answers the same for the keys that are indices, and as an array again it is what it was. *)
Theorem array_object_array {D} (a : list (json D)) :
  zlength a < 2 ^ 31 ->
  exists o, Json.uniqueify_object true (JArray a) = Some o /\ object_ok o /\
    (forall i, 0 <= i < 2 ^ 32 ->
       Json.get_key (JObject o) (decimal i) = Json.get_key (JArray a) (decimal i) /\
       Json.get_key (JArray a) (decimal i) = Json.get_at (JArray a) i) /\
    Json.uniqueify_array true (JObject o) = Some a.
Proof.
  intros Ha. destruct (object_of_array_spec a 0 ObjectJson.make make_ok) as (o & Ho & Hok & Hm); [done|lia|by intros k _ ?%not_elem_of_nil|].
  cbn [app ObjectJson.members] in Hm. change (ObjectJson.members ObjectJson.make) with (@nil (list Z * json D)) in Hm. cbn [app] in Hm.
  exists o. split; [exact Ho|]. split; [done|]. split.
  - intros i Hi. rewrite get_key_members by done. unfold Json.get_key, Json.hard_get. rewrite string_to_int_key_decimal by done.
    cbn [mbind option_bind]. rewrite Hm, indexed_get by lia. rewrite Z.sub_0_r. split; [done|].
    unfold Json.get_at, Json.hard_get_at. by destruct (zlookup a i).
  - cbn [Json.uniqueify_array]. apply (array_of_items_spec a (os_ o) []); [exact Hm|done].
Qed.
Lemma array_object_array_witness : zlength [@JBool unit true; JNull] < 2 ^ 31 /\
  exists o, Json.uniqueify_object true (JArray [@JBool unit true; JNull]) = Some o /\
    Json.get_key (JObject o) [48] = Some (JBool true).
Proof.
  split; [done|]. destruct (array_object_array [@JBool unit true; JNull]) as (o & Ho & _ & Hget & _); [done|].
  exists o. split; [exact Ho|]. destruct (Hget 0) as [H1 H2]; [lia|]. exact H1.
Defined.
