(* ===== verification/MsgpackJson.v ===== *)
(** JSON values in msgpack, [msgpack::unparser] of [src/msgpack.hh]. *)
From S2P Require Import Prelude Compiler Memory JsonObject Json Msgpack.

Section unparser.
Context {D : Type} {libc : Libc D}.

(** [operator<<(const Json&)]. *)
Fixpoint unparse_json (j : json D) : list Z :=
  match j with
  | JNull => Format.write_null
  | JBool b => Format.write_bool b
  | JUnsigned x => Format.write_unsigned8 x
  | JInt x => Format.write_signed8 x
  | JDouble d => Format.write_double (d_bits d)
  | JString s => Format.write_string s
  | JArray a =>
      Format.write_array_header (zlength a) ++
      (fix unparse_elements (a : list (json D)) : list Z :=
         match a with [] => [] | x :: a => unparse_json x ++ unparse_elements a end) a
  | JObject (mkObject os _ sz _) =>
      Format.write_map_header sz ++
      (fix unparse_items (os : list (item (json D))) : list Z :=
         match os with
         | [] => []
         | Item k v _ :: os => Format.write_string k ++ unparse_json v ++ unparse_items os
         | Dead :: os => unparse_items os
         end) os
  end.

(** [write_array_header(end - first)] and the elements. *)
Definition unparse_array (a : list (json D)) : list Z :=
  Format.write_array_header (zlength a) ++ flat_map unparse_json a.

Lemma unparse_json_array a : unparse_json (JArray a) = unparse_array a.
Proof. reflexivity. Qed.
End unparser.
