(* ===== verification/Replay.v ===== *)
(** Replaying log records on rows: [parse_changeset] and [logrecord::apply] of
    [src/log.cc].  Records of a key may come from several logs and so in any
    order: a modify record whose row is not there yet waits in a delta marker
    in front of it. *)
From S2P Require Import Prelude Compiler Memory Msgpack Row Log.

(** * Changesets *)
(** The columns and values of a logged request; [None] is a failed assertion
    of the parser, or a value that goes on past the end. *)
Fixpoint parse_loop (fuel : nat) (m : mem) (pos e : Z) (cs : changes) : option changes :=
  match fuel with
  | O => None
  | S fuel =>
      if pos =? e then Some cs
      else
        x ← Parser.read_int m (uwrap 32) pos;
        let '(index, pos) := x in
        y ← Parser.read_str m pos;
        let '(s, len, pos) := y in
        if e <? pos then None else parse_loop fuel m pos e (cs ++ [(index, load m s len)])
  end.
Definition parse_changeset (changeset : list Z) : option changes :=
  parse_loop (S (length changeset)) (mem_of 0 changeset) 0 (zlength changeset) [].

(** * Rows with delta markers *)
(** A row, or a marker with the request that waits for the row of [prev_ts];
    a row stands for its columns, as the row types do. *)
Inductive row : Type :=
  | Row (ts : Z) (cols : list (list Z))
  | Delta (ts prev_ts : Z) (req : list Z).
Definition timestamp (r : row) : Z := match r with Row ts _ | Delta ts _ _ => ts end.
(** From a value along [prev_]: markers, and a row at the end if there is one. *)
Definition chain : Type := list row.

Definition mt_remove : Z := 1.

(** The markers newer than [ts], and what they are in front of. *)
Fixpoint find_point (ts : Z) (ch : chain) : chain * chain :=
  match ch with
  | (Delta t _ _ as r) :: ch' =>
      if ts <? t then let '(a, c) := find_point ts ch' in (r :: a, c) else ([], ch)
  | _ => ([], ch)
  end.
(** The rows that the loop over [*cur_value] deallocates. *)
Fixpoint delete_earlier (ch : chain) : list row :=
  match ch with
  | (Delta _ _ _ as r) :: ch => r :: delete_earlier ch
  | r :: _ => [r]
  | [] => []
  end.
(** One round of the cleanup: the last marker and the row behind it become one
    row, if the marker waits for that row.  The chain and the rows that are
    deallocated; [inr] ends the loop. *)
Fixpoint merge_last (ch : chain) : option ((chain * list row) + unit) :=
  match ch with
  | (Delta t p req as d) :: ch' =>
      match ch' with
      | (Row t0 cols as r) :: _ =>
          if p =? t0 then cs ← parse_changeset req; Some (inl ([Row (t - 1) (put_columns cols cs)], [r; d]))
          else Some (inr tt)
      | [] => Some (inr tt)
      | _ =>
          x ← merge_last ch';
          Some (match x with inl (c, freed) => inl (d :: c, freed) | inr _ => inr tt end)
      end
  | _ => Some (inr tt)
  end.
Fixpoint clean_up (fuel : nat) (ch : chain) (freed : list row) : option (chain * list row) :=
  match fuel with
  | O => None
  | S fuel =>
      x ← merge_last ch;
      match x with inl (ch, f) => clean_up fuel ch (freed ++ f) | inr _ => Some (ch, freed) end
  end.

(** What is put in place of [cur], and what is deallocated.  An update of a
    marker would need a record whose [prev_ts] is odd: there is none. *)
Definition new_rows (lr : logrecord) (cur : chain) : option (chain * list row) :=
  if command lr =? logcmd_replace then Some ([Row (lts lr) [lval lr]], delete_earlier cur)
  else if negb (command lr =? logcmd_modify) then
    cs ← parse_changeset (lval lr); Some ([Row (lts lr) (put_columns [] cs)], delete_earlier cur)
  else
    match cur with
    | r :: rest =>
        if timestamp r =? lprev_ts lr then
          cs ← parse_changeset (lval lr);
          match r with
          | Row ts cols => Some (Row (lts lr) (put_columns cols cs) :: rest, [r])
          | Delta _ _ _ => None
          end
        else Some (Delta (Z.lor (lts lr) 1) (lprev_ts lr) (lval lr) :: cur, [])
    | [] => Some ([Delta (Z.lor (lts lr) 1) (lprev_ts lr) (lval lr)], [])
    end.
Definition apply (lr : logrecord) (found : bool) (ch : chain) : option (chain * list row) :=
  let ch := if found then ch else [] in
  let '(above, cur) := find_point (lts lr) ch in
  if match cur with r :: _ => lts lr <=? timestamp r | [] => false end then Some (ch, [])
  else
    x ← new_rows lr cur;
    let ch := above ++ fst x in
    clean_up (S (length ch)) ch (snd x).
(** [run], on the rows of the keys: a remove record stands for a marker row. *)
Definition run (lr : logrecord) (table : gmap (list Z) chain) : option (gmap (list Z) chain) :=
  let lr :=
    if command lr =? logcmd_remove then
      mkLogrecord (command lr) (lkey lr) (write_in_host_order 4 mt_remove) (Z.lor (lts lr) 1) (lprev_ts lr) (lepoch lr)
    else lr in
  let old := table !! lkey lr in
  x ← apply lr (bool_decide (is_Some old)) (default [] old);
  Some (<[lkey lr := fst x]> table).
Fixpoint run_all (lrs : list logrecord) (table : gmap (list Z) chain) : option (gmap (list Z) chain) :=
  match lrs with [] => Some table | lr :: lrs => table ← run lr table; run_all lrs table end.
