(* ===== verification/ReplaySpec.v ===== *)
(** Replay in any order: the records of a key leave the row that the last of
    them made, whatever the order they are applied in. *)
From Stdlib Require Import Sorted.
From S2P Require Import Prelude Compiler Memory Msgpack JsonObject Json MsgpackJson Row Log Replay.

(** * Histories *)
(** A row: its timestamp and columns. *)
Definition state : Type := Z * list (list Z).
Definition full_record (lr : logrecord) (cols : list (list Z)) : Prop :=
  (command lr = logcmd_replace /\ cols = [lval lr]) \/
  (command lr = logcmd_put /\ exists cs, parse_changeset (lval lr) = Some cs /\ cols = put_columns [] cs).
Definition modify_record (prev : state) (lr : logrecord) (cols : list (list Z)) : Prop :=
  command lr = logcmd_modify /\ lprev_ts lr = fst prev /\
  exists cs, parse_changeset (lval lr) = Some cs /\ cols = put_columns (snd prev) cs.

(** The records of a key in the order of their timestamps, with the rows they
    made: the first makes a row by itself, and a modify record goes with the
    row before. *)
Fixpoint history (prev : option state) (recs : list logrecord) (sts : list state) : Prop :=
  match recs, sts with
  | [], [] => True
  | lr :: recs, st :: sts =>
      lts lr = fst st /\ Z.even (fst st) = true /\ 0 <= fst st /\
      (forall p, prev = Some p -> fst p < fst st) /\
      (full_record lr (snd st) \/ exists p, prev = Some p /\ modify_record p lr (snd st)) /\
      history (Some st) recs sts
  | _, _ => False
  end.

Section history.
Context (recs : list logrecord) (sts : list state).
Definition rec_at (i : nat) : logrecord := nth i recs (mkLogrecord 0 [] [] 0 0 0).
Definition st_at (i : nat) : state := nth i sts (0, []).
Definition ts_at (i : nat) : Z := fst (st_at i).
Abbreviation n := (length recs).

(** What [history] says of each record. *)
Record indexed : Prop := {
  hi_ts : forall i, (i < n)%nat -> lts (rec_at i) = ts_at i /\ Z.even (ts_at i) = true /\ 0 <= ts_at i;
  hi_mono : forall i j, (i < j < n)%nat -> ts_at i < ts_at j;
  hi_kind : forall i, (i < n)%nat -> full_record (rec_at i) (snd (st_at i)) \/
    exists j, i = S j /\ modify_record (st_at j) (rec_at i) (snd (st_at i)) }.
End history.

Lemma history_indexed recs : forall sts prev, history prev recs sts ->
  length sts = length recs /\
  (forall i, (i < length recs)%nat -> lts (rec_at recs i) = ts_at sts i /\ Z.even (ts_at sts i) = true /\ 0 <= ts_at sts i /\
     (forall p, prev = Some p -> fst p < ts_at sts i)) /\
  (forall i j, (i < j < length recs)%nat -> ts_at sts i < ts_at sts j) /\
  (forall i, (i < length recs)%nat -> full_record (rec_at recs i) (snd (st_at sts i)) \/
     (exists j, i = S j /\ modify_record (st_at sts j) (rec_at recs i) (snd (st_at sts i))) \/
     (i = 0%nat /\ exists p, prev = Some p /\ modify_record p (rec_at recs i) (snd (st_at sts i)))).
Proof.
  induction recs as [|lr recs IH]; intros [|st sts] prev; cbn [history length]; try done.
  { intros _. split_and!; [done|intros; lia..]. }
  intros (Hts & Hev & Hpos & Hprev & Hkind & Hh). destruct (IH _ _ Hh) as (Hlen & Ht & Hm & Hk). split; [lia|].
  assert (forall i, (i < length recs)%nat -> fst st < ts_at sts i) as Hfirst by (intros i Hi; by apply (proj2 (proj2 (proj2 (Ht i Hi))))).
  split_and!.
  - intros [|i] Hi; [by split_and!|]. destruct (Ht i ltac:(lia)) as (H1 & H2 & H3 & H4). split_and!; try done.
    intros p Hp. specialize (Hprev p Hp). specialize (Hfirst i ltac:(lia)). unfold ts_at, st_at in *. cbn. lia.
  - intros [|i] [|j] Hij; try lia; unfold ts_at, st_at in *; cbn; [apply Hfirst; lia|apply Hm; lia].
  - intros [|i] Hi.
    + destruct Hkind as [?|Hmod]; [by left|]. right. right. split; [done|exact Hmod].
    + destruct (Hk i ltac:(lia)) as [?|[(j & -> & ?)|(-> & p & [= <-] & ?)]]; [by left|right; left; by exists (S j)|right; left; by exists 0%nat].
Qed.
Lemma history_at recs sts : history None recs sts -> length sts = length recs /\ indexed recs sts.
Proof.
  intros (Hlen & Ht & Hm & Hk)%history_indexed. split; [done|]. split; [|done|].
  - intros i Hi. destruct (Ht i Hi) as (? & ? & ? & _). done.
  - intros i Hi. destruct (Hk i Hi) as [?|[?|(_ & p & ? & _)]]; [by left|by right|done].
Qed.

(** * The chain *)
(** The records of a row that is as old as [b], or older. *)
Definition covers (b : option nat) (i : nat) : Prop := match b with Some k => (i <= k)%nat | None => False end.
#[export] Instance covers_dec b i : Decision (covers b i).
Proof. destruct b; cbn; apply _. Defined.

Section chain.
Context (recs : list logrecord) (sts : list state) (Hi : indexed recs sts).
(** The row of a checkpoint: that of the record [lo], if any. *)
Context (lo : option nat).
Abbreviation n := (length recs).
Abbreviation T := (ts_at sts).
Abbreviation rc := (rec_at recs).

(** Markers for the records [ds], in front of the row that the record [b] made. *)
Definition marker (i : nat) : row := Delta (Z.lor (T i) 1) (lprev_ts (rc i)) (lval (rc i)).
Definition base (b : option nat) : chain := match b with Some b => [Row (T b) (snd (st_at sts b))] | None => [] end.
Definition chain_of (ds : list nat) (b : option nat) : chain := map marker ds ++ base b.
Definition is_modify (i : nat) : Prop :=
  (exists j, i = S j /\ modify_record (st_at sts j) (rc i) (snd (st_at sts i))) /\ ~ covers lo i.

Lemma odd_ts i : (i < n)%nat -> Z.lor (T i) 1 = T i + 1.
Proof using Hi.
  intros H. destruct (hi_ts _ _ Hi i H) as (_ & He & Hp). apply Z.even_spec in He as [k Hk]. rewrite Hk in *.
  destruct k; cbn; done || lia.
Qed.
Lemma ts_lt i j : (i < n)%nat -> (j < n)%nat -> T i < T j <-> (i < j)%nat.
Proof using Hi.
  intros H1 H2. split; [|intros; by apply (hi_mono _ _ Hi)]. intros Hlt.
  destruct (Nat.lt_trichotomy i j) as [?|[->|?]]; [done|lia|]. pose proof (hi_mono _ _ Hi j i). lia.
Qed.
(** Even timestamps apart are two apart. *)
Lemma ts_gap i j : (i < j)%nat -> (j < n)%nat -> T i + 2 <= T j.
Proof using Hi.
  intros H1 H2. pose proof (hi_mono _ _ Hi i j ltac:(lia)). destruct (hi_ts _ _ Hi i ltac:(lia)) as (_ & [x Hx]%Z.even_spec & _).
  destruct (hi_ts _ _ Hi j H2) as (_ & [y Hy]%Z.even_spec & _). lia.
Qed.

Lemma merge_last_marker ds d t0 cols :
  merge_last (map marker ds ++ [marker d; Row t0 cols]) =
  if lprev_ts (rc d) =? t0 then
    cs ← parse_changeset (lval (rc d));
    Some (inl (map marker ds ++ [Row (Z.lor (T d) 1 - 1) (put_columns cols cs)], [Row t0 cols; marker d]))
  else Some (inr tt).
Proof using Type.
  induction ds as [|x ds IH]; [done|]. cbn [map app].
  assert (merge_last (marker x :: map marker ds ++ [marker d; Row t0 cols]) =
    y ← merge_last (map marker ds ++ [marker d; Row t0 cols]);
    Some (match y with inl (c, freed) => inl (marker x :: c, freed) | inr _ => inr tt end)) as -> by (by destruct ds).
  rewrite IH. destruct (_ =? t0); [|done]. by destruct (parse_changeset _).
Qed.
Lemma merge_last_none ds : merge_last (map marker ds) = Some (inr tt).
Proof using Type.
  induction ds as [|x ds IH]; [done|]. destruct ds as [|y ds]; [done|]. cbn [map] in *.
  change (merge_last (marker x :: marker y :: map marker ds)) with
    (z ← merge_last (marker y :: map marker ds);
     Some (match z with inl (c, freed) => inl (marker x :: c, freed) | inr _ => inr tt end)).
  by rewrite IH.
Qed.

(** The cleanup merges the markers of the records that follow the row. *)
Lemma clean_up_spec fuel : forall ds k freed,
  StronglySorted (fun a b => (b < a)%nat) ds -> (k < n)%nat ->
  (forall i, i ∈ ds -> (k < i < n)%nat /\ is_modify i) -> (length ds < fuel)%nat ->
  exists ds' k' freed', clean_up fuel (chain_of ds (Some k)) freed = Some (chain_of ds' (Some k'), freed') /\
    (k <= k' < n)%nat /\ StronglySorted (fun a b => (b < a)%nat) ds' /\
    (forall i, i ∈ ds' -> i ∈ ds /\ (S k' < i)%nat) /\ (forall i, i ∈ ds -> (i <= k')%nat \/ i ∈ ds').
Proof using Hi.
  induction fuel as [|fuel IH]; intros ds k freed Hs Hk Hds Hf; [lia|]. cbn [clean_up].
  destruct ds as [|d ds _] using rev_ind.
  { exists [], k, freed. split_and!; [done|lia|lia|constructor|..]; intros i H; by apply elem_of_nil in H. }
  assert (StronglySorted (fun a b => (b < a)%nat) ds /\ Forall (fun x => (d < x)%nat) ds) as [Hs' Hlast].
  { clear -Hs. induction ds as [|x ds IHd]; cbn in *; [by split; constructor|]. inversion_clear Hs as [|?? Hss Hall].
    apply IHd in Hss as [? ?]. apply Forall_app in Hall as [? Hx]. rewrite Forall_singleton in Hx. split; by constructor. }
  destruct (Hds d) as [Hd [(j & Hj & _ & Hprev & cs & Hcs & Hcols) _]]; [apply elem_of_app; right; by apply list_elem_of_singleton|].
  unfold chain_of. rewrite map_app, <- app_assoc. cbn [map app base]. rewrite merge_last_marker.
  assert ((lprev_ts (rc d) =? T k) = bool_decide (j = k)) as ->.
  { rewrite Hprev. change (fst (st_at sts j)) with (T j). destruct (decide (j = k)) as [->|Hne].
    - by rewrite bool_decide_eq_true_2, Z.eqb_refl.
    - rewrite bool_decide_eq_false_2 by done. apply Z.eqb_neq. destruct (Nat.lt_trichotomy j k) as [?|[?|?]]; [lia|done|].
      pose proof (hi_mono _ _ Hi k j). lia. }
  destruct (decide (j = k)) as [->|Hne].
  - rewrite bool_decide_eq_true_2 by done. rewrite Hcs. cbn [mbind option_bind].
    rewrite odd_ts by lia. replace (T d + 1 - 1) with (T d) by lia. rewrite <- Hcols.
    destruct (IH ds d (freed ++ [Row (T k) (snd (st_at sts k)); marker d])) as (ds' & k' & freed' & Hrun & Hk' & Hs'' & Hin & Hout); try done.
    + lia.
    + intros i Hin. destruct (Hds i) as [? ?]; [apply elem_of_app; by left|]. rewrite Forall_forall in Hlast. specialize (Hlast i Hin). split; [lia|done].
    + rewrite length_app in Hf. cbn in Hf. lia.
    + exists ds', k', freed'. split; [exact Hrun|]. split; [lia|]. split; [done|]. split.
      * intros i Hi'. destruct (Hin i Hi'). split; [apply elem_of_app; by left|done].
      * intros i [H|H]%elem_of_app; [by apply Hout|]. apply list_elem_of_singleton in H as ->. left. lia.
  - rewrite bool_decide_eq_false_2 by done. cbn [mbind option_bind].
    exists (ds ++ [d]), k, freed. unfold chain_of. rewrite map_app, <- app_assoc. split; [done|]. split; [lia|]. split; [done|]. split.
    + intros i Hin. split; [done|]. apply elem_of_app in Hin as [Hin|Hin].
      * rewrite Forall_forall in Hlast. specialize (Hlast i Hin). lia.
      * apply list_elem_of_singleton in Hin as ->. lia.
    + intros i Hin. by right.
Qed.

(** Where the change of the record [i] goes. *)
Lemma find_point_spec i ds b :
  StronglySorted (fun a c => (c < a)%nat) ds -> (i < n)%nat -> (forall d, d ∈ ds -> (d < n)%nat) -> i ∉ ds ->
  exists d1 d2, ds = d1 ++ d2 /\ Forall (fun d => (i < d)%nat) d1 /\ Forall (fun d => (d < i)%nat) d2 /\
    find_point (T i) (chain_of ds b) = (map marker d1, chain_of d2 b).
Proof using Hi.
  intros Hs Hn Hds Hni. induction Hs as [|d ds Hs IH Hall].
  - exists [], []. split_and!; try constructor. by destruct b.
  - destruct (decide (i < d)%nat) as [Hlt|Hge].
    + destruct IH as (d1 & d2 & -> & H1 & H2 & Hf).
      * intros x Hx. apply Hds, elem_of_cons. by right.
      * intros Hx. apply Hni, elem_of_cons. by right.
      * exists (d :: d1), d2. split_and!; [done|by constructor|done|]. unfold chain_of in *. cbn [map app find_point marker].
        rewrite odd_ts by (apply Hds, elem_of_cons; by left).
        assert ((T i <? T d + 1) = true) as ->; [|by rewrite Hf].
        apply Z.ltb_lt. pose proof (hi_mono _ _ Hi i d ltac:(split; [done|apply Hds, elem_of_cons; by left])). lia.
    + assert (d < i)%nat as Hdi by (destruct (decide (d = i)) as [->|]; [exfalso; apply Hni, elem_of_cons; by left|lia]).
      exists [], (d :: ds). split_and!; [done|constructor|constructor; [done|eapply Forall_impl; [exact Hall|cbn; lia]]|].
      unfold chain_of. cbn [map app find_point marker]. rewrite odd_ts by lia.
      assert ((T i <? T d + 1) = false) as ->; [|done]. apply Z.ltb_ge. pose proof (ts_gap d i Hdi Hn). lia.
Qed.

(** The chain when the records [S] were applied: all of them are in the row at
    the end, or older than it, or wait in a marker. *)
Record replayed (S : nat -> Prop) (ch : chain) (ds : list nat) (b : option nat) : Prop := {
  rp_chain : ch = chain_of ds b;
  rp_sorted : StronglySorted (fun a c => (c < a)%nat) ds;
  rp_markers : forall d, d ∈ ds -> (d < n)%nat /\ S d /\ is_modify d /\ forall k, b = Some k -> (Datatypes.S k < d)%nat;
  rp_base : forall k, b = Some k -> (k < n)%nat;
  rp_all : forall i, S i -> (i < n)%nat -> i ∈ ds \/ covers b i }.

(** The cleanup settles any chain. *)
Lemma clean_up_settles (S : nat -> Prop) ds b freed :
  StronglySorted (fun a c => (c < a)%nat) ds ->
  (forall d, d ∈ ds -> (d < n)%nat /\ S d /\ is_modify d /\ forall k, b = Some k -> (k < d)%nat) ->
  (forall k, b = Some k -> (k < n)%nat) -> (forall i, S i -> (i < n)%nat -> i ∈ ds \/ covers b i) ->
  exists ch' freed' ds' b', clean_up (Datatypes.S (length (chain_of ds b))) (chain_of ds b) freed = Some (ch', freed') /\
    replayed S ch' ds' b'.
Proof using Hi.
  intros Hs Hds Hb Hall. destruct b as [k|].
  - specialize (Hb k eq_refl). destruct (clean_up_spec (Datatypes.S (length (chain_of ds (Some k)))) ds k freed) as
      (ds' & k' & freed' & Hrun & Hk' & Hs' & Hin & Hout); try done.
    + intros i Hin. destruct (Hds i Hin) as (? & _ & ? & Hlt). split; [split; [by apply Hlt|done]|done].
    + unfold chain_of. rewrite length_app, length_map. cbn. lia.
    + exists (chain_of ds' (Some k')), freed', ds', (Some k'). split; [done|]. split; try done.
      * intros d Hd. destruct (Hin d Hd) as [Hd' Hlt]. destruct (Hds d Hd') as (? & ? & ? & _). split_and!; try done. by intros ? [= <-].
      * intros ? [= <-]. lia.
      * intros i HS Hin'. destruct (Hall i HS Hin') as [H|H]; cbn in *; [|right; lia]. destruct (Hout i H); [by right|by left].
  - exists (chain_of ds None), freed, ds, None. split.
    + unfold chain_of. cbn [base]. rewrite app_nil_r. cbn [clean_up]. by rewrite merge_last_none.
    + split; try done. intros d Hd. destruct (Hds d Hd) as (? & ? & ? & _). by split_and!.
Qed.

(** Splitting the markers around [i]. *)
Lemma sorted_around d1 i d2 : StronglySorted (fun a c => (c < a)%nat) (d1 ++ d2) ->
  Forall (fun d => (i < d)%nat) d1 -> Forall (fun d => (d < i)%nat) d2 ->
  StronglySorted (fun a c => (c < a)%nat) (d1 ++ i :: d2) /\ StronglySorted (fun a c => (c < a)%nat) d1.
Proof using Type.
  intros Hs H1 H2. induction d1 as [|d d1 IH]; cbn in *; [by split; constructor|]. inversion_clear Hs as [|?? Hs' Hall].
  inversion_clear H1. destruct IH as [? ?]; [done..|]. apply Forall_app in Hall as [? ?]. split; constructor; try done.
  apply Forall_app. split; [done|]. by constructor.
Qed.

Lemma not_late i ds d1 d2 b S ch : replayed S ch ds b -> (i < n)%nat -> ds = d1 ++ d2 -> Forall (fun d => (d < i)%nat) d2 ->
  match chain_of d2 b with r :: _ => T i <=? timestamp r | [] => false end = bool_decide (covers b i).
Proof using Hi.
  intros [_ Hs Hm Hb _] Hin -> H2. destruct d2 as [|d d2].
  - destruct b as [k|]; cbn; [|done]. specialize (Hb k eq_refl). destruct (decide (i <= k)%nat) as [Hle|Hgt].
    + rewrite bool_decide_eq_true_2 by done. apply Z.leb_le. destruct (decide (i = k)) as [->|]; [lia|].
      pose proof (hi_mono _ _ Hi i k). lia.
    + rewrite bool_decide_eq_false_2 by done. apply Z.leb_gt. apply (hi_mono _ _ Hi). lia.
  - inversion_clear H2 as [|?? Hd _]. cbn. rewrite odd_ts by lia. pose proof (ts_gap d i Hd Hin).
    rewrite bool_decide_eq_false_2; [apply Z.leb_gt; lia|]. destruct b as [k|]; [|by intros []]. cbn.
    destruct (Hm d) as (_ & _ & _ & Hk); [apply elem_of_app; right; apply elem_of_cons; by left|]. specialize (Hk k eq_refl). lia.
Qed.

(** The record [i] makes the row at the end, and all older ones go. *)
Lemma apply_row (S : nat -> Prop) ch ds b i d1 d2 freed :
  replayed S ch ds b -> (i < n)%nat -> ds = d1 ++ d2 -> Forall (fun d => (i < d)%nat) d1 -> Forall (fun d => (d < i)%nat) d2 ->
  ~ covers b i ->
  let ch1 := map marker d1 ++ [Row (T i) (snd (st_at sts i))] in
  exists ch' freed' ds' b', clean_up (Datatypes.S (length ch1)) ch1 freed = Some (ch', freed') /\
    replayed (fun j => S j \/ j = i) ch' ds' b'.
Proof using Hi.
  intros [_ Hs Hm Hb Hall] Hin -> H1 H2 Hnc. destruct (sorted_around _ _ _ Hs H1 H2) as [_ Hs2].
  apply (clean_up_settles _ d1 (Some i)); [done| |by intros ? [= <-]|].
  - intros d Hd. destruct (Hm d) as (? & ? & ? & _); [apply elem_of_app; by left|]. split_and!; try done; [by left|].
    intros ? [= <-]. rewrite Forall_forall in H1. by apply H1.
  - intros j [HS| ->] Hj; [|right; cbn; lia]. destruct (Hall j HS Hj) as [[H|H]%elem_of_app|H]; [by left|right; cbn..].
    + rewrite Forall_forall in H2. specialize (H2 j H). lia.
    + destruct b as [k|]; [|done]. cbn in H, Hnc. lia.
Qed.

(** The record [i] waits in a marker. *)
Lemma apply_marker (S : nat -> Prop) ch ds b i d1 d2 freed :
  replayed S ch ds b -> (i < n)%nat -> ds = d1 ++ d2 -> Forall (fun d => (i < d)%nat) d1 -> Forall (fun d => (d < i)%nat) d2 ->
  ~ covers b i -> is_modify i ->
  let ch1 := map marker d1 ++ marker i :: chain_of d2 b in
  exists ch' freed' ds' b', clean_up (Datatypes.S (length ch1)) ch1 freed = Some (ch', freed') /\
    replayed (fun j => S j \/ j = i) ch' ds' b'.
Proof using Hi.
  intros [_ Hs Hm Hb Hall] Hin -> H1 H2 Hnc Hmod ch1. destruct (sorted_around _ _ _ Hs H1 H2) as [Hs1 _].
  assert (ch1 = chain_of (d1 ++ i :: d2) b) as -> by (unfold ch1, chain_of; by rewrite map_app, <- app_assoc).
  apply clean_up_settles; try done.
  - intros d Hd. rewrite elem_of_app, elem_of_cons in Hd. destruct (decide (d = i)) as [->|].
    + split_and!; try done; [by right|]. intros k ->. cbn in Hnc. lia.
    + destruct (Hm d) as (? & ? & ? & Hk); [apply elem_of_app; tauto|]. split_and!; try done; [by left|]. intros k Hk'. specialize (Hk k Hk'). lia.
  - intros j [HS| ->] Hj; [|left; apply elem_of_app; right; apply elem_of_cons; by left].
    destruct (Hall j HS Hj) as [H|H]; [left; rewrite elem_of_app, elem_of_cons in *; tauto|by right].
Qed.

(** The records of the checkpoint's row and before are applied already. *)
Definition has_lo (S : nat -> Prop) : Prop := (forall k, lo = Some k -> (k < n)%nat) /\ forall i, covers lo i -> S i.

Lemma lo_covered S ch ds b i : replayed S ch ds b -> has_lo S -> covers lo i -> covers b i.
Proof using Type.
  intros [_ _ Hm _ Hall] [Hk Hlo] Hc. assert (exists k, lo = Some k) as [k El] by (destruct lo; [by eexists|done]).
  specialize (Hk k El). assert (covers lo k) as Hck by (rewrite El; cbn; lia). rewrite El in Hc. cbn in Hc.
  destruct (Hall k) as [Hin|Hb]; [by apply Hlo|done| |].
  - by destruct (Hm k Hin) as (_ & _ & [_ Hn] & _).
  - destruct b; cbn in *; [lia|done].
Qed.

(** One record, new or old. *)
Lemma apply_spec (S : nat -> Prop) ch ds b i found :
  replayed S ch ds b -> has_lo S -> (i < n)%nat -> ~ S i \/ covers lo i -> (found = false -> ch = []) ->
  exists ch' freed ds' b', apply (rc i) found ch = Some (ch', freed) /\ replayed (fun j => S j \/ j = i) ch' ds' b'.
Proof using Hi.
  intros Hrep Hlo Hin HSi Hfound. pose proof Hrep as [Hch Hs Hm Hb Hall]. unfold apply.
  assert ((if found then ch else []) = ch) as -> by (destruct found; [done|by rewrite Hfound]).
  destruct (hi_ts _ _ Hi i Hin) as (Hts & _ & _). rewrite Hts, Hch.
  destruct (find_point_spec i ds b Hs Hin) as (d1 & d2 & Hds & H1 & H2 & ->);
    [intros d Hd; by apply Hm|intros Hd; destruct (Hm i Hd) as (_ & ? & [_ ?] & _); tauto|].
  rewrite (not_late _ _ _ _ _ _ _ Hrep Hin Hds H2). destruct (decide (covers b i)) as [Hcov|Hnc].
  { rewrite bool_decide_eq_true_2 by done. exists (chain_of ds b), [], ds, b. split; [done|]. split; try done.
    - intros d Hd. destruct (Hm d Hd) as (? & ? & ? & ?). split_and!; try done. by left.
    - intros j [HS| ->] Hj; [by apply Hall|by right]. }
  rewrite bool_decide_eq_false_2 by done.
  pose proof (apply_row _ _ _ _ _ _ _ (delete_earlier (chain_of d2 b)) Hrep Hin Hds H1 H2 Hnc) as Hrow. cbv zeta in Hrow.
  destruct (hi_kind _ _ Hi i Hin) as [[[Hc Hcols]|[Hc (cs & Hcs & Hcols)]]|Hmod].
  - unfold new_rows. rewrite Hc, Hts, <- Hcols. apply Hrow.
  - unfold new_rows. rewrite Hc, Hcs, Hts. cbn [mbind option_bind fst snd]. rewrite <- Hcols. apply Hrow.
  - assert (is_modify i) as Hism by (split; [done|]; intros Hc; by apply Hnc, (lo_covered _ _ _ _ _ Hrep)).
    pose proof (apply_marker _ _ _ _ _ _ _ [] Hrep Hin Hds H1 H2 Hnc Hism) as Hmark. cbv zeta in Hmark.
    destruct Hmod as (j & -> & Hc & Hp & cs & Hcs & Hcols). unfold new_rows. rewrite Hc.
    change (logcmd_modify =? logcmd_replace) with false. change (negb (logcmd_modify =? logcmd_modify)) with false. cbv iota.
    destruct d2 as [|d d2].
    + destruct b as [k|]; [|by rewrite Hts].
      cbn [chain_of map app base timestamp]. rewrite Hp. change (fst (st_at sts j)) with (T j). destruct (decide (k = j)) as [->|Hne].
      * rewrite Z.eqb_refl, Hcs, Hts. cbn [mbind option_bind fst snd]. rewrite <- Hcols.
        by apply (apply_row _ _ _ _ _ _ _ [Row (T j) (snd (st_at sts j))] Hrep Hin Hds H1 H2).
      * destruct (Z.eqb_spec (T k) (T j)) as [Heq|_];
          [|change (T j) with (fst (st_at sts j)); rewrite <- Hp, Hts; by apply Hmark].
        cbn in Hnc. pose proof (hi_mono _ _ Hi k j). lia.
    + inversion_clear H2 as [|?? Hd _]. assert ((timestamp (marker d) =? lprev_ts (rc (Datatypes.S j))) = false) as Hodd.
      { rewrite Hp. change (fst (st_at sts j)) with (T j). cbn [marker timestamp]. rewrite odd_ts by lia. apply Z.eqb_neq.
        destruct (hi_ts _ _ Hi j ltac:(lia)) as (_ & [x Hx]%Z.even_spec & _), (hi_ts _ _ Hi d ltac:(lia)) as (_ & [y Hy]%Z.even_spec & _). lia. }
      unfold chain_of. cbn [map app]. rewrite Hodd, Hts. by apply Hmark.
Qed.

(** When all records are applied, only the last row is there. *)
Lemma replayed_all S ch ds b : replayed S ch ds b -> has_lo S -> (forall i, (i < n)%nat -> S i) -> (0 < n)%nat ->
  ch = [Row (T (n - 1)) (snd (st_at sts (n - 1)))].
Proof using Hi.
  intros Hrep Hlo HS Hn. pose proof Hrep as [-> Hs Hm Hb Hall].
  destruct b as [k|].
  - specialize (Hb k eq_refl). assert (Datatypes.S k ∉ ds) as Hno
      by (intros Hin; destruct (Hm _ Hin) as (_ & _ & _ & Hk); specialize (Hk k eq_refl); lia).
    assert (k = n - 1)%nat as ->.
    { destruct (decide (Datatypes.S k < n)%nat) as [Hlt|]; [|lia]. destruct (Hall (Datatypes.S k)) as [?|Hc]; [auto..|]; [done|]. cbn in Hc. lia. }
    destruct ds as [|d ds]; [done|]. destruct (Hm d) as (Hd & _ & _ & Hk); [apply elem_of_cons; by left|].
    specialize (Hk _ eq_refl). lia.
  - destruct (Hall 0%nat) as [Hin|[]]; [auto..|]. destruct (Hm _ Hin) as (_ & _ & [(j & ? & _) _] & _). done.
Qed.
End chain.

(** * The table *)
Definition of_key (k : list Z) (lrs : list logrecord) : list logrecord := List.filter (fun lr => bool_decide (lkey lr = k)) lrs.

(** The rows that the last record of a history, and the record [c] of it, made. *)
Definition last_row (st : list state) : option chain := match last st with Some (ts, cols) => Some [Row ts cols] | None => None end.
Definition checkpoint_row (st : list state) (ck : option nat) : option chain :=
  match ck with Some c => Some [Row (ts_at st c) (snd (st_at st c))] | None => None end.

Section table.
Context (recs : list Z -> list logrecord) (sts : list Z -> list state) (ck : list Z -> option nat).
Context (Hhist : forall k, history None (recs k) (sts k)) (Hkeys : forall k lr, lr ∈ recs k -> lkey lr = k).

Definition rows_at (table : gmap (list Z) chain) (k : list Z) : chain := match table !! k with Some ch => ch | None => [] end.

(** The table when the records [S k] of each key [k] were applied, and the
    records [lrs] that are still to come. *)
Record replaying (S : list Z -> nat -> Prop) (table : gmap (list Z) chain) (lrs : list logrecord) : Prop := {
  rt_chain : forall k, exists ds b, replayed (recs k) (sts k) (ck k) (S k) (rows_at table k) ds b;
  rt_lo : forall k, has_lo (recs k) (ck k) (S k);
  rt_none : forall k, recs k = [] -> table !! k = None;
  rt_rest : forall k, exists l, NoDup l /\ of_key k lrs = map (rec_at (recs k)) l /\
    (forall i, i ∈ l -> (i < length (recs k))%nat /\ (~ S k i \/ covers (ck k) i)) /\
    forall i, (i < length (recs k))%nat -> S k i \/ i ∈ l }.

Lemma rec_at_elem k i : (i < length (recs k))%nat -> rec_at (recs k) i ∈ recs k.
Proof using Type. intros H. unfold rec_at. apply list_elem_of_In, nth_In. lia. Qed.
Lemma not_remove k i : (i < length (recs k))%nat -> (command (rec_at (recs k) i) =? logcmd_remove) = false.
Proof using Hhist.
  intros H. destruct (history_at _ _ (Hhist k)) as [_ Hi]. destruct (hi_kind _ _ Hi i H) as [[[-> _]|[-> _]]|(j & _ & -> & _)]; done.
Qed.

Lemma run_step S table lr lrs : replaying S table (lr :: lrs) ->
  exists S' table', run lr table = Some table' /\ replaying S' table' lrs.
Proof using Hhist Hkeys.
  intros [Hch Hlo Hno Hrest]. set (k := lkey lr).
  destruct (Hrest k) as (l & Hnd & Hf & Hin & Hout). unfold of_key in Hf. cbn [List.filter] in Hf. rewrite bool_decide_eq_true_2 in Hf by done.
  destruct l as [|i l]; [done|]. cbn [map] in Hf. injection Hf as Hlr Hf.
  destruct (Hin i) as [Hi HSi]; [apply elem_of_cons; by left|]. destruct (Hch k) as (ds & b & Hrep).
  destruct (history_at _ _ (Hhist k)) as [_ Hidx].
  destruct (apply_spec _ _ Hidx _ _ _ _ _ i (bool_decide (is_Some (table !! k))) Hrep (Hlo k) Hi HSi) as
    (ch' & freed & ds' & b' & Happ & Hrep').
  { intros Hb%bool_decide_eq_false. unfold rows_at. destruct (table !! k); [|done]. by destruct Hb. }
  exists (fun k' j => S k' j \/ k' = k /\ j = i), (<[k := ch']> table). split.
  { assert ((command lr =? logcmd_remove) = false) as Hc by (rewrite Hlr; by apply not_remove).
    unfold run. rewrite Hc. cbv zeta iota. fold k. rewrite <- Hlr in Happ.
    match goal with |- context [apply lr ?f ?c] => assert (apply lr f c = Some (ch', freed)) as -> by exact Happ end. done. }
  apply NoDup_cons in Hnd as [Hil Hnd]. split.
  - intros k'. destruct (decide (k' = k)) as [->|Hne].
    + exists ds', b'. unfold rows_at. rewrite lookup_insert_eq. destruct Hrep' as [? ? Hm ? Hall]. split; try done.
      * intros d Hd. destruct (Hm d Hd) as (? & [?|?] & ? & ?); split_and!; try done; tauto.
      * intros j Hj. apply Hall. tauto.
    + destruct (Hch k') as (ds2 & b2 & [? ? Hm ? Hall]). exists ds2, b2. unfold rows_at in *. rewrite lookup_insert_ne by done. split; try done.
      * intros d Hd. destruct (Hm d Hd) as (? & ? & ? & ?). split_and!; try done. by left.
      * intros j [?|[? _]]; [by apply Hall|done].
  - intros k'. destruct (Hlo k') as [? H]. split; [done|]. intros j Hj. left. by apply H.
  - intros k' Hk'. destruct (decide (k' = k)) as [->|]; [rewrite Hk' in Hi; cbn in Hi; lia|]. rewrite lookup_insert_ne by done. by apply Hno.
  - intros k'. destruct (decide (k' = k)) as [->|Hne].
    + exists l. split; [done|]. split; [done|]. split.
      * intros j Hj. destruct (Hin j) as [? Hs]; [apply elem_of_cons; by right|]. split; [done|]. destruct Hs as [Hs|?]; [|by right].
        left. intros [?|[_ ->]]; [done|]. by apply Hil.
      * intros j Hj. destruct (Hout j Hj) as [?|[->|?]%elem_of_cons]; [left; by left|left; by right|by right].
    + destruct (Hrest k') as (l' & ? & Hf' & Hin' & Hout'). unfold of_key in Hf'. cbn [List.filter] in Hf'.
      rewrite bool_decide_eq_false_2 in Hf' by done. exists l'. split; [done|]. split; [done|]. split.
      * intros j Hj. destruct (Hin' j Hj) as [? [Hs|?]]; (split; [done|]); [left|by right]. intros [?|[? _]]; done.
      * intros j Hj. destruct (Hout' j Hj); tauto.
Qed.

Lemma run_all_spec lrs : forall S table, replaying S table lrs ->
  exists table', run_all lrs table = Some table' /\
    forall k, table' !! k = last_row (sts k).
Proof using Hhist Hkeys.
  induction lrs as [|lr lrs IH]; intros S table Hrep; cbn [run_all].
  - exists table. split; [done|]. intros k. destruct Hrep as [Hch Hlo Hno Hrest]. destruct (Hch k) as (ds & b & Hrep).
    destruct (history_at _ _ (Hhist k)) as [Hlen Hidx]. destruct (Hrest k) as (l & _ & Hl & _ & Hout).
    assert (l = []) as -> by (by destruct l). destruct (decide (recs k = [])) as [Hr|Hr].
    + rewrite (Hno k Hr). rewrite Hr in Hlen. by destruct (sts k).
    + assert (0 < length (recs k))%nat as Hpos by (destruct (recs k); [done|cbn; lia]).
      pose proof (replayed_all _ _ Hidx _ _ _ _ _ Hrep (Hlo k)) as Hlast.
      unfold last_row. rewrite last_lookup, Hlen. destruct (nth_lookup_or_length (sts k) (pred (length (recs k))) (0, [])) as [->|]; [|lia].
      change (nth _ (sts k) (0, [])) with (st_at (sts k) (pred (length (recs k)))).
      replace (pred (length (recs k))) with (length (recs k) - 1)%nat by lia.
      unfold ts_at in Hlast. destruct (st_at (sts k) (length (recs k) - 1)) as [ts cols]. cbn in Hlast.
      assert (rows_at table k = [Row ts cols]) as Hrow.
      { apply Hlast; [|done]. intros i Hi. destruct (Hout i Hi) as [?|H]; [done|by apply elem_of_nil in H]. }
      unfold rows_at in Hrow. destruct (table !! k); [by rewrite Hrow|done].
  - destruct (run_step _ _ _ _ Hrep) as (S' & table1 & -> & Hrep'). cbn [mbind option_bind]. by eapply IH.
Qed.
End table.

(** C10: Recovery applies the records of all logs in some order, on the rows of
    a checkpoint.  The logs hold put, replace and modify records only, and their
    changesets parse: a remove record, and a changeset with the array header of
    its request, make the replay fail ([remove_replay_fails],
    [changeset_roundtrip]).  Let the records of each key, in the order of their
    timestamps, be its history.  If at least all records after the row of the
    checkpoint are applied, each once, then whatever the order the replay
    succeeds, no delta marker is left, and each key has the row that the last
    record of its history made. *)
Theorem replay_any_order (recs : list Z -> list logrecord) sts (ck : list Z -> option nat) table0 lrs :
  (forall k, history None (recs k) (sts k)) -> (forall k lr, lr ∈ recs k -> lkey lr = k) ->
  (forall k, table0 !! k = checkpoint_row (sts k) (ck k)) ->
  (forall k c, ck k = Some c -> (c < length (recs k))%nat) ->
  (forall k, exists l, NoDup l /\ of_key k lrs = map (rec_at (recs k)) l /\
     (forall i, i ∈ l -> (i < length (recs k))%nat) /\
     forall i, (i < length (recs k))%nat -> covers (ck k) i \/ i ∈ l) ->
  exists table, run_all lrs table0 = Some table /\
    forall k, table !! k = last_row (sts k).
Proof.
  intros Hhist Hkeys Ht0 Hck Hl. apply (run_all_spec recs sts ck Hhist Hkeys lrs (fun k => covers (ck k))). split.
  - intros k. exists [], (ck k). unfold rows_at. rewrite Ht0. split.
    + unfold chain_of. cbn. by destruct (ck k).
    + constructor.
    + intros d Hd. by apply elem_of_nil in Hd.
    + apply Hck.
    + intros i Hi _. by right.
  - intros k. split; [apply Hck|done].
  - intros k Hk. rewrite Ht0. destruct (ck k) as [c|] eqn:E; [|done]. specialize (Hck k c E). rewrite Hk in Hck. cbn in Hck. lia.
  - intros k. destruct (Hl k) as (l & H1 & H2 & H3 & H4). exists l. split_and!; try done.
    intros i Hi. split; [by apply H3|]. destruct (decide (covers (ck k) i)); [by right|by left].
Qed.

(** * Changesets *)
(** A column of a request, an [int] of the client, and its value. *)
Definition write_change (c : Z * list Z) : list Z := Format.write_signed8 (fst c) ++ Format.write_string (snd c).
Definition change_ok (c : Z * list Z) : Prop := 0 <= fst c < 2 ^ 31 /\ zlength (snd c) < 2 ^ 31 /\ bytes (snd c).
Definition write_changes (cs : changes) : list Z := flat_map write_change cs.

Lemma write_signed8_column i : 0 <= i < 2 ^ 31 ->
  Format.write_signed8 i = Format.write_signed4 i /\ (0 < length (Format.write_signed8 i))%nat.
Proof.
  intros Hi. assert (Format.write_signed8 i = Format.write_signed4 i) as ->.
  { unfold Format.write_signed8. rewrite (uwrap_id 64) by (unfold in_u; lia).
    destruct (Z.ltb_spec (i + 2147483648) 4294967296); [|lia]. by rewrite swrap_id by (unfold in_s; lia). }
  split; [done|]. unfold Format.write_signed4. repeat case_match; cbn [length]; lia.
Qed.
Lemma parse_loop_written m e cs : mem_bytes m -> Forall change_ok cs ->
  forall fuel s acc, placed m s (write_changes cs) -> e = s + zlength (write_changes cs) -> (length cs < fuel)%nat ->
  parse_loop fuel m s e acc = Some (acc ++ cs).
Proof.
  intros Hm Hok. induction Hok as [|[i v] cs (Hi & Hlen & _) _ IH]; intros [|fuel] s acc Hp He Hf; cbn in Hf; try lia;
    cbn [parse_loop write_changes flat_map write_change fst snd] in *.
  - destruct (Z.eqb_spec s e) as [|Hne]; [by rewrite app_nil_r|]. destruct Hne. rewrite He. symmetry. apply Z.add_0_r.
  - unfold write_change at 1 in Hp. unfold write_change at 1 in He. cbn [fst snd] in *.
    rewrite !placed_app in Hp. destruct Hp as [[Hi' Hv] Hcs]. rewrite !zlength_app in He, Hcs.
    destruct (read_string m Hm _ v Hlen Hv) as (p & Hread & Hval).
    pose proof (zlength_nonneg (Format.write_string v)) as Hn1. pose proof (zlength_nonneg (write_changes cs)) as Hn2.
    assert (0 < zlength (Format.write_signed8 i)) as Hn0 by (pose proof (proj2 (write_signed8_column i Hi)); unfold zlength; lia).
    unfold write_changes in Hn2. rewrite zlength_app in He.
    destruct (Z.eqb_spec s e); [lia|].
    rewrite (read_signed8 m Hm (uwrap 32) s i) by (done || (unfold in_s; lia)). cbn [mbind option_bind].
    rewrite uwrap_id by (unfold in_u; lia). rewrite Hread. cbn [mbind option_bind].
    destruct (Z.ltb_spec e (s + zlength (Format.write_signed8 i) + zlength (Format.write_string v)));
      [unfold write_changes in Hn2; lia|].
    unfold placed in Hval. rewrite Hval. rewrite (IH fuel); [by rewrite <- app_assoc| | |lia].
    + by rewrite <- Z.add_assoc.
    + unfold write_changes. lia.
Qed.

Lemma net_bytes n x : bytes (write_in_net_order n x).
Proof. rewrite write_in_net_order_be. apply bytes_reverse, le_bytes_bytes. Qed.
Ltac solve_bytes :=
  repeat first [apply net_bytes | apply Forall_nil | apply Forall_cons; split];
  first [by apply uwrap_range | unfold in_u; lia | by vm_compute].
Lemma signed4_bytes x : 0 <= x < 2 ^ 31 -> bytes (Format.write_signed4 x).
Proof. unfold Format.write_signed4. intros Hx. repeat case_match; solve_bytes. Qed.
Lemma write_change_bytes c : change_ok c -> bytes (write_change c).
Proof.
  intros (Hi & Hlen & Hv). unfold write_change. apply Forall_app. split.
  - rewrite (proj1 (write_signed8_column _ Hi)). by apply signed4_bytes.
  - unfold Format.write_string. apply Forall_app. split; [|done]. pose proof (zlength_nonneg (snd c)).
    unfold Format.ffixstr, Format.nfixstr in *. repeat case_match; rewrite ?Z.ltb_lt, ?Z.ltb_ge in *; solve_bytes.
Qed.

(** A byte that does not start an integer. *)
Lemma parse_changeset_bad t rest : 128 <= t < 204 \/ 212 <= t < 224 -> parse_changeset (t :: rest) = None.
Proof.
  intros Ht. unfold parse_changeset. cbn [parse_loop]. pose proof (zlength_nonneg rest).
  destruct (Z.eqb_spec 0 (zlength (t :: rest))) as [E|_]; [rewrite zlength_cons in E; lia|].
  unfold Parser.read_int. change (mem_of 0 (t :: rest) 0) with t.
  rewrite is_fixint_spec by (unfold in_u; lia). destruct (Z.ltb_spec t 128), (Z.leb_spec 224 t); try lia. cbn [orb].
  unfold Format.fuint8. destruct (Z.ltb_spec (uwrap 32 (t - 204)) 8); [|done].
  unfold uwrap in *. change (2 ^ 32) with 4294967296 in *. Z.to_euclidean_division_equations. lia.
Qed.
Lemma parse_changeset_header n rest : in_u 32 n -> parse_changeset (Format.write_array_header n ++ rest) = None.
Proof.
  unfold in_u, Format.write_array_header, Format.nfixarray, Format.ffixarray. intros Hn.
  repeat case_match; rewrite ?Z.ltb_lt in *; cbn [app]; apply parse_changeset_bad; unfold Format.farray16, Format.farray32; lia.
Qed.

(** The part of a put request that has the changes. *)
Section request.
Context {D : Type} {libc : Libc D}.
Definition change_request (cs : changes) : list (json D) := flat_map (fun c => [JInt (fst c); JString (snd c)]) cs.
Lemma write_change_request cs : flat_map unparse_json (change_request cs) = write_changes cs.
Proof.
  induction cs as [|c cs IH]; [done|].
  change (flat_map unparse_json (change_request (c :: cs))) with
    (Format.write_signed8 (fst c) ++ Format.write_string (snd c) ++ flat_map unparse_json (change_request cs)).
  rewrite IH. change (write_changes (c :: cs)) with (write_change c ++ write_changes cs).
  unfold write_change. by rewrite <- app_assoc.
Qed.
End request.

(** C18: The changes of a put request, signed columns and string values as the
    client and the server write them, are what the replay parses when they come
    without an array header, as they do from the client's own bytes; when the
    server writes the array, it puts a header in front, and the replay parses
    nothing. *)
Theorem changeset_roundtrip {D} {libc : Libc D} cs : Forall change_ok cs -> 2 * zlength cs < 2 ^ 32 ->
  parse_changeset (flat_map unparse_json (change_request (D := D) cs)) = Some cs /\
  parse_changeset (unparse_array (change_request (D := D) cs)) = None.
Proof.
  intros Hok Hn. unfold unparse_array. rewrite write_change_request. split.
  2: { apply parse_changeset_header. unfold in_u. assert (zlength (change_request (D := D) cs) = 2 * zlength cs) as ->.
       { clear. unfold change_request. induction cs as [|c cs IH]; [done|]. cbn [flat_map app]. rewrite !zlength_cons, IH. lia. }
       pose proof (zlength_nonneg cs). lia. }
  unfold parse_changeset. rewrite (parse_loop_written _ _ cs); [done| |done| |done|].
  - apply mem_of_bytes. clear Hn. induction Hok as [|c cs Hc _ IH]; [by apply Forall_nil|].
    apply (Forall_app_2 _ (write_change c)); [by apply write_change_bytes|by apply IH].
  - apply load_mem_of.
  - clear Hn. apply Nat.lt_succ_r. induction Hok as [|c cs (Hi & Hl & _) _ IH]; [done|].
    change (write_changes (c :: cs)) with (write_change c ++ write_changes cs). unfold write_change.
    rewrite !length_app. cbn [length]. pose proof (proj2 (write_signed8_column _ Hi)). lia.
Qed.
#[local] Instance no_doubles : Libc unit := {|
  strtol _ := None; strtoul _ := None; d_of_int _ := tt; d_to_int _ := 0; d_to_uint _ := 0; d_nonzero _ := false;
  d_add _ _ := tt; d_sub _ _ := tt; d_neg _ := tt; d_bits _ := 0; d_print _ := [48]; strtod _ := tt |}.
Lemma changeset_roundtrip_witness :
  parse_changeset (flat_map unparse_json (change_request (D := unit) [(0, [97]); (300, repeat 98 40)])) =
    Some [(0, [97]); (300, repeat 98 40)] /\
  parse_changeset (unparse_array (change_request (D := unit) [(0, [97]); (300, repeat 98 40)])) = None.
Proof.
  apply (changeset_roundtrip [(0, [97]); (300, repeat 98 40)]); [|by vm_compute].
  apply Forall_forall. intros c Hc. apply elem_of_cons in Hc as [->|Hc]; [|apply list_elem_of_singleton in Hc as ->];
    (split_and!; [by vm_compute|by vm_compute|by vm_compute|]).
  - by apply Forall_singleton.
  - apply Forall_forall. intros x Hx. apply list_elem_of_In, repeat_spec in Hx as ->. by vm_compute.
Defined.

Lemma lor_1_le a : 0 <= a -> a <= Z.lor a 1.
Proof.
  intros H. destruct a as [|p|p]; [done| |done].
  change (Z.pos p <= Z.pos (Pos.lor p 1)). destruct p as [p|p|]; [apply Z.le_refl| |apply Z.le_refl].
  change (Z.pos p~0 <= Z.pos p~1). lia.
Qed.
Lemma find_point_newest ts ch : Forall (fun r => timestamp r < ts) ch -> find_point ts ch = ([], ch).
Proof.
  intros H. destruct ch as [|[|t p req] ch]; try done. apply Forall_cons in H as [Ht _]. cbn in *.
  destruct (Z.ltb_spec ts t); [lia|done].
Qed.

(** C19: A remove record that is newer than all there is for its key does not
    replay: the marker it stands for goes to the parser of changesets, which
    stops at it. *)
Theorem remove_replay_fails lr table :
  command lr = logcmd_remove -> 0 <= lts lr ->
  (forall ch, table !! lkey lr = Some ch -> Forall (fun r => timestamp r < lts lr) ch) ->
  run lr table = None.
Proof.
  intros Hc Hpos Hall. unfold run. rewrite Hc, Z.eqb_refl. cbv zeta iota. cbn [lkey].
  set (old := table !! lkey lr) in *. unfold apply. cbn [lts].
  assert (lts lr <= Z.lor (lts lr) 1) as Hle by by apply lor_1_le.
  match goal with |- context [find_point _ ?c] => assert (Forall (fun r => timestamp r < Z.lor (lts lr) 1) c) as Hf; [|revert Hf; generalize c] end.
  { destruct old as [ch|]; [|by apply Forall_nil]. cbn. eapply Forall_impl; [by apply Hall|]. cbn. lia. }
  intros ch Hf. rewrite (find_point_newest _ _ Hf). destruct ch as [|r ch]; [done|].
  apply Forall_cons in Hf as [Hr _]. by destruct (Z.leb_spec (Z.lor (lts lr) 1) (timestamp r)); [lia|].
Qed.
Lemma remove_replay_fails_witness :
  run (mkLogrecord logcmd_remove [107] [] 8 4 1) {[ [107] := ([Row 4 [[97]]] : chain) ]} = None.
Proof.
  apply remove_replay_fails; [done|done|]. intros ch [= <-]. apply Forall_cons. split; [by vm_compute|by apply Forall_nil].
Defined.

Lemma replay_any_order_witness :
  let r0 := mkLogrecord logcmd_replace [107] [97] 4 0 1 in
  let r1 := mkLogrecord logcmd_modify [107] (write_changes [(1, [98])]) 6 4 1 in
  let r2 := mkLogrecord logcmd_modify [107] (write_changes [(0, [99])]) 8 6 2 in
  let st0 := (4, [[97]]) in let st1 := (6, [[97]; [98]]) in let st2 := (8, [[99]; [98]]) in
  exists table, run_all [r2; r1; r0] ∅ = Some table /\ table !! [107] = last_row [st0; st1; st2].
Proof.
  intros r0 r1 r2 st0 st1 st2.
  set (recs := fun k => if decide (k = [107]) then [r0; r1; r2] else []).
  set (sts := fun k => if decide (k = [107]) then [st0; st1; st2] else []).
  destruct (replay_any_order recs sts (fun _ => None) ∅ [r2; r1; r0]) as (table & Hrun & Ht).
  - intros k. unfold recs, sts. destruct (decide (k = [107])); [|done].
    cbn [history].
    split; [done|]. split; [done|]. split; [done|]. split; [done|]. split; [by left; left|].
    split; [done|]. split; [done|]. split; [done|]. split; [by intros p [= <-]|].
    split; [right; exists st0; repeat (split; [done|]); exists [(1, [98])]; split; by vm_compute|].
    split; [done|]. split; [done|]. split; [done|]. split; [by intros p [= <-]|].
    split; [right; exists st1; repeat (split; [done|]); exists [(0, [99])]; split; by vm_compute|done].
  - intros k lr. unfold recs. destruct (decide (k = [107])) as [->|]; [|by intros ?%elem_of_nil].
    rewrite !elem_of_cons. intros [->|[->|[->|?%elem_of_nil]]]; done.
  - intros k. cbn. by rewrite lookup_empty.
  - done.
  - intros k. unfold recs. destruct (decide (k = [107])) as [->|Hne].
    + exists [2; 1; 0]%nat. split_and!; [|done| |].
      * by apply (bool_decide_unpack _).
      * intros i. rewrite !elem_of_cons, elem_of_nil. cbn. lia.
      * intros i Hi. right. rewrite !elem_of_cons. cbn in Hi. lia.
    + exists []. split_and!; [by apply NoDup_nil| |by intros i ?%elem_of_nil|cbn; lia].
      unfold of_key. cbn [List.filter lkey r0 r1 r2]. rewrite bool_decide_eq_false_2 by done. done.
  - exists table. split; [done|]. exact (Ht [107]).
Defined.

