(* ===== verification/Server.v ===== *)
(** Requests, [onego] and [handshake] of [src/mtd.cc], with the queries on JSON
    of [src/kvrow.hh], over any row type.

    A request is an array: its number, its command and its arguments.  The
    answer takes its place.  [keybuf] is where the bytes of its key are.  A put
    and a replace write their result over the key, and log the key after that,
    through a [Str] to the string that was there.  They log the bytes that are
    then at its place, [stale]: the key, if the string shared the input buffer of
    the connection, and anything, if it was the request's own and is freed. *)
From S2P Require Import Prelude Compiler Memory StringSlice Key Heap Get Scan Put.
From S2P Require Import Threadinfo Row Query Log Msgpack JsonObject Json MsgpackJson.

(** The commands, and what a query answers. *)
Definition Cmd_Get : Z := 2.
Definition Cmd_Scan : Z := 4.
Definition Cmd_Put : Z := 6.
Definition Cmd_Replace : Z := 8.
Definition Cmd_Remove : Z := 10.
Definition Cmd_Checkpoint : Z := 12.
Definition Cmd_Handshake : Z := 14.
Definition Inserted : Z := 1.
Definition Updated : Z := 2.

(** * Elements of a request *)
Section json.
Context {D : Type} {libc : Libc D}.
Local Abbreviation json := (json D).

(** [request[i] = v]. *)
Definition assign_at (j : json) (i : Z) (v : json) : option json :=
  r ← Json.get_insert_at j i;
  match r with
  | (Json.SIndex x, JArray a) => a ← zset a x v; Some (JArray a)
  | (Json.SItem p, JObject o) => o ← ObjectJson.set_value o p v; Some (JObject o)
  | _ => None
  end.
Definition int_at (j : json) (i : Z) : option Z := x ← Json.get_at j i; Json.as_i x.
Definition string_at (j : json) (i : Z) : option (list Z) := x ← Json.get_at j i; Json.as_s x.
(** [for (int i = first; i != request.size(); ++i) f(request[i].as_i())]. *)
Definition ints_from (j : json) (first : Z) : option (list Z) :=
  if first <=? Json.size j then mapM (int_at j) (seqZ first (Json.size j - first)) else None.
(** [array_data() + 3] up to [end_array_data()]. *)
Definition array_data (j : json) : option (list json) :=
  match j with JArray a => Some a | JNull => Some [] | _ => None end.
(** The changes that a row type reads from such a range: a column is an
    [unsigned]. *)
Fixpoint changes_of (req : list json) : option changes :=
  match req with
  | [] => Some []
  | col :: value :: req =>
      i ← Json.as_u col; v ← Json.as_s value; cs ← changes_of req; Some ((uwrap 32 i, v) :: cs)
  | [_] => None
  end.
Fixpoint push_strings (j : json) (l : list (list Z)) : option json :=
  match l with [] => Some j | s :: l => j ← Json.push_back j (JString s); push_strings j l end.
End json.

Section server.
Context {D : Type} {libc : Libc D} {St : Type} {rt : RowType St}.
Local Abbreviation json := (json D).
Context (global_log_epoch : Z) (unaligned : bool).
Local Abbreviation query := (Query.query (St := St)).

(** * Queries *)
(** [run_get]: a request for a key that has no row stays as it is. *)
Definition run_get (fuel : nat) (keybuf : Z) (request : json) (st : St) : M json :=
  let! key := lift (string_at request 2) in
  let! m := gets kmem in
  set_kmem (store m keybuf key) ;!
  let! v := get unaligned fuel (mkStr keybuf (zlength key)) in
  let! v := lift (Query.live_row st v) in
  match v with
  | None => ret request
  | Some p =>
      let! f := lift (f ← ints_from request 3; Some (map row_index f)) in
      let! request := lift (Json.resize request 2) in
      let! l := lift (Query.emit_fields st p f) in
      lift (push_strings request l)
  end.

(** [query_json_scanner], with [nleft_] an [int]; [None] after a failure. *)
Record json_scanner : Type := mkJsonScanner { jnleft_ : Z; jrequest_ : json }.
Definition scan_value (st : St) (f : list Z) (sc : json_scanner) (key : list Z) (v : Z) : option (json_scanner * bool) :=
  marker ← Query.row_is_marker st v;
  if (marker : bool) then Some (sc, true)
  else
    request ← Json.push_back (jrequest_ sc) (JString key);
    x ← Query.emit_fields1 st v f;
    x ← (match x with inl s => Some (JString s) | inr l => push_strings JNull l end);
    request ← Json.push_back request x;
    let nleft := swrap 32 (jnleft_ sc - 1) in
    Some (mkJsonScanner nleft request, negb (nleft =? 0)).
Definition visit_value (st : St) (f : list Z) (sc : option json_scanner) (key : list Z) (v : Z) :
    option json_scanner * bool :=
  match (sc ← sc; scan_value st f sc key v) with
  | Some (sc, continue) => (Some sc, continue)
  | None => (None, false)
  end.
Definition run_scan (fuel : nat) (keybuf : Z) (request : json) (st : St) : M json :=
  let! n := lift (int_at request 3) in
  require (0 <? n) ;!
  let! f := lift (f ← ints_from request 4; Some (map row_index f)) in
  let! firstkey := lift (string_at request 2) in
  let! request := lift (Json.resize request 2) in
  let! r := scan unaligned (visit_value st f) fuel keybuf firstkey true (Some (mkJsonScanner (swrap 32 n) request)) in
  lift (sc ← fst r; Some (jrequest_ sc)).

(** * The log *)
(** A call of [loginfo::record], which [Loginfo.record_turn] runs; it gives the
    lock of the log back. *)
Record log_call : Type := mkCall { lc_command : Z; lc_times : query_times; lc_key : list Z; lc_value : list Z }.
Definition record (command : Z) (key : list Z) (value : option (list Z)) (q : query) : option (query * list log_call) :=
  match logger_ (Query.ti q) with
  | None => Some (q, [])
  | Some _ =>
      if Query.log_locked q then
        v ← value;
        Some (Query.mkQuery (Query.ti q) (Query.rows q) (Query.qtimes_ q) false, [mkCall command (Query.qtimes_ q) key v])
      else None
  end.
(** What is logged of a put: the rest of the client's text of the request behind
    the array header and three elements, or, when there is none, the changes
    as an array. *)
Definition put_payload (request_str : list Z) (req : list json) : option (list Z) :=
  if negb (zlength request_str =? 0) then
    let m := mem_of 0 request_str in
    s ← Parser.skip_array_size m 0;
    let s := Parser.skip_primitives m 3 s in
    if s <=? zlength request_str then Some (drop (Z.to_nat s) request_str) else None
  else Some (unparse_array req).

(** * [onego] *)
(** What a [Str] of the length of [key] reads. *)
Definition stale_key (stale : mem) (key : list Z) : list Z := load stale 0 (zlength key).
Definition result_of (inserted : bool) : Z := if inserted then Inserted else Updated.
(** The result (negative for a failure), the answer, and what was logged. *)
Definition onego (fuel : nat) (keybuf okbuf : Z) (stale : mem) (request : json) (request_str : list Z) (q : query) :
    M (Z * json * query * list log_call) :=
  let! command := lift (int_at request 1) in
  let command := swrap 32 command in
  let answer (request : json) (q : query) (calls : list log_call) :=
    let! request := lift (assign_at request 1 (JInt (command + 1))) in ret (1, request, q, calls) in
  if command =? Cmd_Checkpoint then
    let! request := lift (Json.resize request 2) in answer request q []
  else if command =? Cmd_Get then
    let! request := run_get fuel keybuf request (Query.rows q) in answer request q []
  else if (command =? Cmd_Put) && (3 <? Json.size request) && (Json.size request mod 2 =? 1) then
    let! key := lift (string_at request 2) in
    let! req := lift (a ← array_data request; Some (drop 3 a)) in
    let! cs := lift (changes_of req) in
    let! m := gets kmem in
    set_kmem (store m keybuf key) ;!
    let! r := Query.run_put global_log_epoch unaligned fuel okbuf keybuf (zlength key) cs q in
    let! request := lift (assign_at request 2 (JInt (result_of (fst r)))) in
    let! r := lift (record logcmd_put (stale_key stale key) (put_payload request_str req) (snd r)) in
    let! request := lift (Json.resize request 3) in
    answer request (fst r) (snd r)
  else if command =? Cmd_Replace then
    let! key := lift (string_at request 2) in
    let! value := lift (string_at request 3) in
    let! m := gets kmem in
    set_kmem (store m keybuf key) ;!
    let! r := Query.run_replace global_log_epoch unaligned fuel okbuf keybuf (zlength key) value q in
    let! request := lift (assign_at request 2 (JInt (result_of (fst r)))) in
    let! r := lift (record logcmd_replace (stale_key stale key) (Some value) (snd r)) in
    let! request := lift (Json.resize request 3) in
    answer request (fst r) (snd r)
  else if command =? Cmd_Remove then
    let! key := lift (string_at request 2) in
    let! m := gets kmem in
    set_kmem (store m keybuf key) ;!
    let! r := Query.run_remove global_log_epoch unaligned fuel keybuf (zlength key) q in
    let '(removed, q) := r in
    let! r := lift (if (removed : bool) then record logcmd_remove key (Some []) q else Some (q, [])) in
    let! request := lift (assign_at request 2 (JBool removed)) in
    let! request := lift (Json.resize request 3) in
    answer request (fst r) (snd r)
  else if command =? Cmd_Scan then
    let! request := run_scan fuel keybuf request (Query.rows q) in answer request q []
  else
    let! request := lift (assign_at request 1 (JInt (-1))) in
    let! request := lift (Json.resize request 2) in
    ret (-1, request, q, []).

(** * [handshake] *)
(** The answer, and 1 or -1; [None] is a failed [always_assert]. *)
Definition bad_maxkeylen : list Z := [98; 97; 100; 32; 109; 97; 120; 107; 101; 121; 108; 101; 110].
Definition maxkeylen : list Z := [109; 97; 120; 107; 101; 121; 108; 101; 110].
Definition handshake (request : json) (t : threadinfo) : option (json * Z) :=
  c ← Json.get_at request 1;
  o ← Json.get_at request 2;
  if Json.is_array request && (2 <=? Json.size request) && Json.is_int c &&
     bool_decide (Json.as_i c = Some Cmd_Handshake) && ((Json.size request =? 2) || Json.is_object o)
  then
    mk ← Json.get_key o maxkeylen;
    request ← (if Json.is_int mk && (max_keylen <? default 0 (Json.as_i mk)) then
        r ← assign_at request 2 (JBool false);
        r ← assign_at r 3 (JString bad_maxkeylen);
        Json.resize r 4
      else
        r ← assign_at request 2 (JBool true);
        r ← assign_at r 3 (JInt (index_ t));
        r ← assign_at r 4 (JString row_name);
        Json.resize r 5);
    request ← assign_at request 1 (JInt (Cmd_Handshake + 1));
    o ← Json.get_at request 2;
    b ← Json.as_b o;
    Some (request, if (b : bool) then 1 else -1)
  else None.

End server.
