(* ===== verification/ServerSpec.v ===== *)
(** What the server answers: it is a map from keys to rows. *)
From Stdlib Require Import Sorted.
From S2P Require Import Prelude Compiler Memory StringSlice Key Nodeversion Node Heap Get Insert Remove Scan Tree Find Steps Locate Put PutSpec Kept Table Order ScanSpec.
From S2P Require Import JsonSpec.
From S2P Require Import CircularInt Threadinfo Row ValueBag BagSpec Query QuerySpec QueryRemove Log Msgpack JsonObject Json MsgpackJson Server.

(** * Elements of a request *)
Section json.
Context {D : Type} {libc : Libc D}.
Local Abbreviation json := (json D).
Implicit Types (a : list json) (v : json).



End json.

(** * What the server is *)
(** The rows of the keys, as the lists of their columns. *)
Abbreviation rowmap := (gmap (list Z) (list (list Z))).


Section requests.
Context {D : Type} {libc : Libc D}.
Local Abbreviation json := (json D).




End requests.

(** * Rows *)
Section spec.
Context {D : Type} {libc : Libc D} {St : Type} `{rl : RowLaws St} {fresh : FreshUpdate St} (gle : Z) (unaligned : bool).
Local Abbreviation json := (json D).
Local Abbreviation query := (Query.query (St := St)).














(** The elements of a request. *)
Section elements.
Context (seq c : json) (a : list json).
End elements.















End spec.


#[local] Existing Instance no_doubles.
#[local] Existing Instance hi_type.
#[local] Existing Instance hi_laws.
#[local] Instance hi_fresh : FreshUpdate ValueBag.bags := bag_fresh 2 ltac:(lia) (fun _ _ => 85).
